(* ===== verification/_CoqProject ===== *)
-Q . S2P
Prelude.v
Types.v
Cpu.v
CpuWf.v
MemSeam.v
PageTable.v
Regions.v
Epoch.v
AsState.v
AddrSpace.v
AsInv.v
AsSteps.v
AsThms.v
AsProtect.v
AsMove.v
Translate.v
Access.v
AsSeam.v
AsGrow.v
TransThms.v
MmStep.v
MmReach.v
Shared.v
EpochThms.v
Threads.v
Quarantine.v
Vfork.v
CopyThms.v
SysMm.v
MmCount.v
MmCalls.v
MmLimit.v
SimHost.v
Simd.v
SimdExec.v
Crypto.v
FpSimd.v
SimdLanes.v
SimdSafe.v
Alu.v
AluSpec.v
DpExec.v
Atomics.v
Mops.v
LdSt.v
Sysreg.v
Decode.v
AsClaims.v
QuarClaims.v
MmClaims.v
Predecode.v
Bitfield.v
DpSafe.v
LdStSafe.v
ExecSafe.v
FlatMem.v
ExecThms.v
AluThms.v
DpThms.v
Precise.v
El0.v
CryptoThms.v
AesThms.v
FpHooks.v
SimdThms.v
MemThms.v
PdExec.v
PdEquiv.v
PdEquivReg.v
PdEquivMem.v
PdThms.v
Loop.v
LoopThms.v
Seccomp.v
SeccompThms.v
Ipc.v
IpcInv.v
IpcThms.v
MfdReg.v
FpConv.v
