(* ===== verification/Prelude.v ===== *)
(** * arm64chroot: a verification development of the emulator

    ** The program

    arm64chroot runs unmodified AArch64 Linux programs on another host. Its
    parts, under src/src/:

    - core/cpu.h, core/types.h, core/esr.h, exception.c: the CPU state, its
      register accessors, the record of a pending exception;
    - core/decode.c, core/sysreg.c, core/cpu.c: the decoder, which executes one
      instruction word on the CPU, with the system registers and reset;
    - predecode.c, predecode.h: the pre-decoder and the threaded interpreter, a
      second engine that must behave as the decoder does;
    - mem.c, mmu.h: guest memory: the page table, the table of mapped regions,
      the host allocations behind them, translation with a D-TLB per thread,
      the quarantine that keeps unmapped memory alive while a thread may still
      hold a pointer into it, and the typed accessors and copies on top;
    - sys_mm.c: the memory system calls (brk, mmap, munmap, mprotect, madvise,
      mremap, msync, mincore, mlock) over mem.c, with their limits;
    - loop.c: the run loop, which lets an engine run and dispatches the
      exception it records to the system-call layer, to signal delivery, or to
      what it does itself in a kernel's place;
    - sys_seccomp.c: the guest's own sandbox, a classic-BPF checker and
      interpreter in front of every guest system call;
    - core/exec_fpsimd.c: the vector unit; its integer and cryptographic
      instructions and the conversions to and from half precision are modelled,
      the arithmetic on host floats is not;
    - proctab.c: a daemon that the emulator's processes share; its System V IPC
      broker, its memfd seal registry and its personality table are modelled,
      its process table is not;
    - jit/, signal.c, the other sys_*.c, path.c, elf.c, ptracetab.c, strace.c,
      main.c: host code generation, signals, system calls, process start,
      tracing. Not modelled here.

    An engine calls the decoder's handlers, which change the CPU, touch memory
    through the accessors and record an exception when they must; the loop
    takes over when an exception is recorded. The seams are classes:
    [MemSeam] (with the laws [MemSeamOk]) is what an address space offers the
    core; [Hooks] is what the core calls outside itself, the clock, the FP
    status and FP/SIMD execution, and [FpHooks.core_hooks] fills it with the
    clock of loop.c and the vector unit of [FpSimd] over a [FpUnit], the
    arithmetic on host floats: nothing is assumed of that arithmetic, the
    theorems leave out the words that reach it ([float_insn]), and [FenvOk]
    says that fetestexcept and its kin do not touch the guest's CPU; [HostOs]
    (with [HostOsOk]) is what mem.c asks of the host kernel: mmap, mremap,
    mprotect, fstat; [MmHost] is what sys_mm.c asks beyond that, of the host
    and of the memfd registry. The record [IpcEnv] is what the broker learns of
    the host: the clock, the start times of processes, whether memory is left.

    ** How the code is modelled

    A C integer is a [Z] with its casts written out ([u64], [s32], ...). A
    handler is a function in the monad [M] on the state [St] (CPU, thread
    state, memory): [Ok] when it returns, [Fault] when it has recorded an
    exception and returned, [UB] when it leaves what C defines (an index
    outside an array, a copy larger than its buffer). Definitions keep the
    source's names; a long C function is cut at its cases ([dp_immediate] into
    [dp_addsub_imm], [dp_bitfield], ...). Debug output is left out; the build
    is one with 128-bit integers (the limb multiplies are modelled beside it).
    A host atomic operation is one step of the thread that makes it.

    mem.c works on the record [MS]: [AS] is struct AddrSpace, beside it the
    host allocations ([HostMap], by id), the host's mappings and bytes, the
    generation, the epoch table and the calling thread's D-TLB. A mapping
    operation runs under the address-space lock and is one step; [Threads]
    interleaves those steps with accesses, blocks of generated code and system
    calls of any number of threads. The model is of a 64-bit host; the
    generation counter does not wrap; when the emulator cannot allocate its
    own bookkeeping it exits, except where the code goes on ([env_nomem]). The
    host locks that mirror mlock, and the SIGBUS recovery around a copy, are
    left out. Host memory is one map of bytes: two mappings of one file do not
    alias in it, so the theorems on bytes are about private memory or a single
    mapping. The host may refuse any call. One refusal leaves the emulator
    inconsistent: an mprotect refused after regions earlier in the range have
    changed ([protect_refused_partway]); the reachable states of [MmReach] and
    [Quarantine] are those without it ([protect_whole]).

    A vector register is a 128-bit word, read and written lane by lane. A half, single or double is its
    bit pattern; the specification of the conversions is in exact integers, as
    multiples of the least value of a format. The daemon is single-threaded: a
    request is one step of the broker record, its replies are appended to the
    record, a caller that must wait is parked in it, and a turn of the daemon loop
    is a request, a disconnect or the reclaim tick followed by the rescan of
    the parked callers.

    Loops of the source with a fixed count are structural. The copy/set loops
    run under the binary bound [MOPS_FUEL] = 2^64, above the size any of them
    starts with, and running out of it would be [UB], which [exec_a64_safe]
    excludes. [bpf_loop] has one step more than the program has instructions,
    and [bpf_validated_answers] shows an accepted program ends within it.
    [find_free_pass] has a turn more than there are regions and each turn
    passes one ([find_free_spec]); the walks over a range ([unmapped_loop],
    [advise_walk], ...) have two turns per region, one for it and one for the
    gap in front ([unmapped_loop_spec]); [punch_fuel] and [copy_fuel] are above the
    regions and pages the loops visit; the slot claim has a turn per slot.
    The rescan of parked callers has a pass more than there can be callers and
    each pass but the last answers one ([rescan_terminates]); the sweeps of the
    daemon's tables have a turn per row; [norm_loop] has the ten turns a
    subnormal half needs ([norm_loop_spec]).
    [pd_run] and [nopd_run] run for a given number of instructions: they never
    end by themselves.

    ** The files

    - Prelude: words, fields, the monad, [safe] (a Hoare triple for safety and
      preservation), bounded loops.
    - Types, Cpu: types.h, esr.h, cpu.h, exception.c. CpuWf: the invariant
      [cpu_wf] and the automation for [safe].
    - MemSeam: the accessors of mem.c and mmu.h over any [MemSeam]. FlatMem: a
      small instance that satisfies all the laws, for the witnesses.
    - PageTable, Regions, Epoch: the parts of mem.c's state. AsState: [MS] and
      the host. AddrSpace: the mapping operations. Translate: translation,
      stack growth, vfork tracking. Access: copies and loans. Threads: the
      interleaving. Vfork: the write-back.
    - AsInv, AsSteps, AsThms, AsProtect, AsMove, AsGrow: the invariant [as_inv]
      and what each operation does. TransThms, MmStep, CopyThms: the same with
      the D-TLB. MmReach: files, locks and marks, the operations [mm_op] and
      the states they lead to. AsSeam: the address space
      satisfies [MemSeamOk]. Shared, EpochThms, Quarantine: threads.
    - SimHost: two host kernels for the witnesses. AsClaims, QuarClaims: the
      properties of mem.c.
    - SysMm: sys_mm.c. MmCount: the mapped total as a count of pages. MmCalls,
      MmLimit: what the calls do, one by one and together, with the limit and
      the shapes of mremap. MmClaims: their properties.
    - Simd, SimdExec, Crypto, FpSimd: exec_fpsimd.c: lanes and saturation, the
      integer groups, SHA and AES, the dispatcher. SimdLanes, SimdSafe: lane
      lemmas, safety. FpHooks: the vector unit as the core's hook, and with it
      the safety of the whole core. SimdThms,
      CryptoThms, AesThms: lanes against exact integers, SHA-2 and AES against
      their standards. FpConv: the conversions between formats.
    - Alu, DpExec, Atomics, Mops, LdSt, Sysreg, Decode: decode.c, sysreg.c,
      cpu.c. AluSpec, Bitfield: reference definitions of flags, CRC and bit
      masks, and the proofs that the code meets them.
    - DpSafe, LdStSafe, ExecSafe: safety, handler by handler.
    - Predecode, PdExec: predecode.c. PdEquiv, PdEquivReg, PdEquivMem: each
      handler against the decoder.
    - Loop: loop.c. Seccomp: sys_seccomp.c.
    - Ipc: the IPC broker of proctab.c. IpcInv: slot tables, semaphore vectors
      and the invariant [broker_ok]. IpcThms: its properties.
    - MfdReg: the memfd registry and the personality table, with theirs.
    - ExecThms, AluThms, DpThms, Precise, El0, MemThms, PdThms,
      LoopThms, SeccompThms: the properties, with an instance of each.

    ** What the theorems show

    - Safety of the core: executing an instruction word that does not compute
      with host floats on a well-formed CPU is defined C and keeps the CPU
      well-formed ([exec_a64_safe]), reset establishes that ([cpu_reset_wf]), a
      turn of the run loop by either interpreter keeps it ([loop_turn_safe]).
      The one other encoding left out, CASP with register 31, really indexes
      past the register file ([exec_a64_casp_oob]).
    - The fast engine: the pre-decoded handlers equal the decoder on every
      instruction word ([pd_dispatch_is_exec]), and the threaded loop with its
      decode cache refines the single-step engine ([pd_run_is_nopd_run]).
    - Guest memory: every state the operations of [mm_op] lead to is coherent
      ([reachable_space_ok], [reachable_page_table]); [translate] refines the map from guest bytes to
      mappings ([translate_refines], [translate_reaches]); each mapping
      operation does to every byte what it promises ([map_anon_spec],
      [unmap_spec], [protect_spec], [move_roundtrip], [find_free_spec],
      [stack_growth_spec]); copies and the vfork write-back ([copy_roundtrip],
      [vfork_flush_carries]).
    - Memory calls: what mmap, brk and a refused mremap do to every byte
      ([mmap_anon_spec], [brk_spec], [mremap_error_keeps]); no sequence of
      calls on private memory and accesses takes the mapped total over
      RLIMIT_AS ([rlimit_as_bound]). A length mremap does not check wraps in the search
      for free ground ([mremap_length_wraps]).
    - Threads: no thread that holds one pointer at a time, and none in a
      handler, holds it into released memory ([quarantine_safe]), and released
      it is once every thread has passed a block boundary
      ([quarantine_drains]). What that discipline leaves out is reachable in
      the code
      ([handler_pointer_released], [second_pointer_releases_first]).
    - Isolation: EL0 code changes no privileged state, and DAIF and the timers
      only when the kernel has opened them ([exec_a64_el0_confined]).
    - Exceptions: a faulting load or store, the memory copy and set instructions
      aside, is restartable ([loads_stores_precise]); aborts become the kernel's signals
      ([data_fault_signal]); system calls and signals keep their order
      ([svc_turn]); a mismatched copy/set stage restarts
      ([mops_trap_restarts]).
    - Accessors: a store is read back and nothing else changes
      ([mem_write_read]); exclusives ([exclusive_pair]).
    - Arithmetic: bit masks and their cache ([decode_bitmasks_bits],
      [memo_transparent]), CRC ([crc32_insn]), compare and conditions
      ([cmp_imm_conditions]), bit fields ([bitfield_insn]), bit counts
      ([one_source_insn]).
    - Seccomp: accepted filters always answer ([bpf_validated_answers]); the
      chain's semantics ([gate_any_kill_kills], [install_tightens]) and its
      invariants ([seccomp_reachable_inv], [seccomp_one_way]).

    - The vector unit: an integer three-same instruction is its exact-integer
      result in every lane, and QC tells exactly whether a lane was clamped
      ([three_same_exact]); AES and its inverse ([aes_fips], [aes_round_inverts]),
      SHA-256 ([sha256_rounds]), carry-less products ([pmull_product]).
    - Precision: narrowing to half is correctly rounded with the right flags
      ([half_round_nearest]), widening is exact and comes back
      ([half_widen_narrow]), FCVTXN rounds to odd ([round_to_odd]) but drops
      the payload of a NaN ([round_odd_drops_payload]).
    - IPC: a semaphore vector is applied whole or not at all ([semop_atomic]),
      the undo of a dead process takes its effect back
      ([semop_undo_vanishes]), after a turn no parked caller could go ahead
      ([no_lost_wakeup], [rescan_terminates]), msgrcv takes the message its
      type asks for ([msgrcv_choice]), the tables stay coherent
      ([broker_tables_ok]). A process with a recycled pid loses its undo
      ([recycled_pid_loses_undo]).
    - Memfds and personalities: F_SEAL_WRITE is granted exactly when no counted
      live process maps the file writable ([seal_write_exact]), seals are never
      lost ([seals_only_grow]); the personality table is a map of the live
      threads ([pers_is_a_map]). Two ways the count misses a mapping
      ([full_table_seals], [recycled_pid_seals]).

    ** Not modelled

    The arithmetic on host floats (class [FpUnit]), whose results are those of
    the host compiler and its FPU. The memory effect of the copy/set
    instructions, and the invariant over mremap's growth and duplication,
    MREMAP_DONTUNMAP, resized files, fork and vfork, which are modelled.
    The signal machinery and the process and ptrace tables, which work through
    host signals and memory shared between processes. The socket transport and
    the client side of the daemon. The JIT's code generators, whose correctness
    needs a semantics of four host instruction sets. Host I/O (the file,
    network, time and process calls, paths, the ELF loader) and diagnostics. *)

From stdpp Require Export base tactics list option.
From Stdlib Require Export ZArith Lia Bool.

Open Scope Z_scope.

(** ** Machine words

    A [w]-bit C integer is a [Z]; every place where C truncates has one of
    these casts written out. *)
Definition u8 (z : Z) : Z := z mod 2 ^ 8.
Definition u16 (z : Z) : Z := z mod 2 ^ 16.
Definition u32 (z : Z) : Z := z mod 2 ^ 32.
Definition u64 (z : Z) : Z := z mod 2 ^ 64.

(** The signed reading of the low [w] bits: the cast to [sN]. *)
Definition signed (w z : Z) : Z :=
  let m := z mod 2 ^ w in if m <? 2 ^ (w - 1) then m else m - 2 ^ w.
Definition s8 : Z -> Z := signed 8.
Definition s16 : Z -> Z := signed 16.
Definition s32 : Z -> Z := signed 32.
Definition s64 : Z -> Z := signed 64.

(** [~x] at width 64 and 32. *)
Definition not64 (z : Z) : Z := u64 (Z.lnot z).
Definition not32 (z : Z) : Z := u32 (Z.lnot z).

(** The BIT and BITS field macros of the decoder, on a 32-bit word. *)
Definition BITS (insn hi lo : Z) : Z :=
  Z.land (Z.shiftr insn lo) (Z.ones (hi - lo + 1)).
Definition BIT (insn i : Z) : Z := Z.land (Z.shiftr insn i) 1.
(** [BIT] used as a C truth value. *)
Definition BITb (insn i : Z) : bool := negb (BIT insn i =? 0).

(** A C truth value read as 0 or 1. *)
Definition b2z (b : bool) : Z := if b then 1 else 0.

(** A value that fits an unsigned [w]-bit variable. *)
Definition fits (w z : Z) : Prop := 0 <= z < 2 ^ w.

Arguments u8 : simpl never.
Arguments u16 : simpl never.
Arguments u32 : simpl never.
Arguments u64 : simpl never.
Arguments signed : simpl never.
Arguments not64 : simpl never.
Arguments not32 : simpl never.
Arguments BITS : simpl never.
Arguments BIT : simpl never.
Arguments BITb : simpl never.
Arguments fits : simpl never.
Arguments Z.pow : simpl never.
Arguments Z.land : simpl never.
Arguments Z.lor : simpl never.
Arguments Z.lxor : simpl never.
Arguments Z.shiftl : simpl never.
Arguments Z.shiftr : simpl never.

(** ** Automation for words *)
Create HintDb word.

(** [wsolve]: linear arithmetic with the divisions and remainders of the casts
    turned into equations. *)
Ltac wsolve :=
  intros; unfold fits, not64, not32, u8, u16, u32, u64, Z.lnot in *;
  Z.to_euclidean_division_equations; lia.

(** [zbool]: a boolean identity between comparisons, by their cases. *)
Ltac zbool :=
  repeat match goal with
  | |- context [Z.ltb ?a ?b] => destruct (Z.ltb_spec a b)
  | |- context [Z.leb ?a ?b] => destruct (Z.leb_spec a b)
  | |- context [Z.eqb ?a ?b] => destruct (Z.eqb_spec a b)
  end; simpl; first [ done | exfalso; lia | lia ].

Lemma fits_u8 z : fits 8 (u8 z). Proof. wsolve. Qed.
Lemma fits_u16 z : fits 16 (u16 z). Proof. wsolve. Qed.
Lemma fits_u32 z : fits 32 (u32 z). Proof. wsolve. Qed.
Lemma fits_u64 z : fits 64 (u64 z). Proof. wsolve. Qed.
Lemma fits_not64 z : fits 64 (not64 z). Proof. wsolve. Qed.
Lemma fits_not32 z : fits 32 (not32 z). Proof. wsolve. Qed.
Lemma fits_0 w : 0 <= w -> fits w 0.
Proof. intros. unfold fits. split; [lia|]. apply Z.pow_pos_nonneg; lia. Qed.

Lemma fits_weaken w w' z : fits w z -> w <= w' -> fits w' z.
Proof.
  unfold fits. intros [? ?] Hw. split; [lia|].
  eapply Z.lt_le_trans; [eassumption|]. apply Z.pow_le_mono_r; lia.
Qed.

Lemma u64_small z : fits 64 z -> u64 z = z. Proof. apply Z.mod_small. Qed.
Lemma u32_small z : fits 32 z -> u32 z = z. Proof. apply Z.mod_small. Qed.
Lemma u16_small z : fits 16 z -> u16 z = z. Proof. apply Z.mod_small. Qed.
Lemma u8_small z : fits 8 z -> u8 z = z. Proof. apply Z.mod_small. Qed.
Lemma u64_u64 z : u64 (u64 z) = u64 z. Proof. apply u64_small, fits_u64. Qed.
Lemma u32_u32 z : u32 (u32 z) = u32 z. Proof. apply u32_small, fits_u32. Qed.
Lemma u64_u32 z : u64 (u32 z) = u32 z.
Proof. apply u64_small. eapply fits_weaken; [apply fits_u32|lia]. Qed.
Lemma u32_u64 z : u32 (u64 z) = u32 z. Proof. wsolve. Qed.

(** A word has no bit at or above its width, and conversely. *)
Lemma fits_bits w z : 0 <= w ->
  fits w z <-> 0 <= z /\ forall i, w <= i -> Z.testbit z i = false.
Proof.
  intros Hw. unfold fits. split.
  - intros [H0 H1]. split; [lia|]. intros i Hi.
    destruct (Z.eq_dec z 0) as [->|]; [apply Z.bits_0|].
    apply Z.bits_above_log2; [lia|]. apply Z.log2_lt_pow2; [lia|].
    eapply Z.lt_le_trans; [eassumption|]. apply Z.pow_le_mono_r; lia.
  - intros [H0 Hb]. split; [lia|].
    replace z with (z mod 2 ^ w); [apply Z.mod_pos_bound; apply Z.pow_pos_nonneg; lia|].
    apply Z.bits_inj'. intros n Hn. destruct (Z.lt_ge_cases n w).
    + by rewrite Z.mod_pow2_bits_low.
    + rewrite Z.mod_pow2_bits_high by lia. by rewrite Hb.
Qed.

Lemma fits_testbit w z i : fits w z -> 0 <= w <= i -> Z.testbit z i = false.
Proof. intros H [? ?]. apply fits_bits in H as [_ H]; auto. Qed.

Lemma fits_land_l w a b : 0 <= w -> fits w a -> 0 <= b -> fits w (Z.land a b).
Proof.
  intros Hw Ha Hb. apply fits_bits in Ha as [Ha0 Ha]; [|lia]. apply fits_bits; [lia|].
  split; [apply Z.land_nonneg; lia|]. intros i Hi. rewrite Z.land_spec, Ha; auto.
Qed.
Lemma fits_land w a b : 0 <= w -> fits w a -> fits w b -> fits w (Z.land a b).
Proof. intros Hw Ha [Hb _]. by apply fits_land_l. Qed.
Lemma fits_lor w a b : 0 <= w -> fits w a -> fits w b -> fits w (Z.lor a b).
Proof.
  intros Hw Ha Hb. apply fits_bits in Ha as [Ha0 Ha], Hb as [Hb0 Hb]; [|lia..].
  apply fits_bits; [lia|]. split; [apply Z.lor_nonneg; lia|].
  intros i Hi. by rewrite Z.lor_spec, Ha, Hb.
Qed.
Lemma fits_lxor w a b : 0 <= w -> fits w a -> fits w b -> fits w (Z.lxor a b).
Proof.
  intros Hw Ha Hb. apply fits_bits in Ha as [Ha0 Ha], Hb as [Hb0 Hb]; [|lia..].
  apply fits_bits; [lia|]. split; [apply Z.lxor_nonneg; lia|].
  intros i Hi. by rewrite Z.lxor_spec, Ha, Hb.
Qed.
Lemma fits_shiftr w a n : 0 <= w -> 0 <= n -> fits w a -> fits w (Z.shiftr a n).
Proof.
  intros Hw Hn [H0 H1]. unfold fits. rewrite Z.shiftr_div_pow2 by lia.
  assert (0 < 2 ^ n) by (apply Z.pow_pos_nonneg; lia).
  split; [apply Z.div_pos; lia|]. apply Z.div_lt_upper_bound; nia.
Qed.

(** Field extraction stays in its field. *)
Lemma fits_BITS insn hi lo : lo <= hi -> fits (hi - lo + 1) (BITS insn hi lo).
Proof.
  intros. unfold BITS. rewrite Z.land_ones by lia.
  unfold fits. apply Z.mod_pos_bound, Z.pow_pos_nonneg; lia.
Qed.
Lemma BITS_range insn hi lo n :
  lo <= hi -> n = 2 ^ (hi - lo + 1) -> 0 <= BITS insn hi lo < n.
Proof. intros ? ->. by apply fits_BITS. Qed.
Lemma BIT_mod insn i : BIT insn i = Z.shiftr insn i mod 2.
Proof. unfold BIT. apply (Z.land_ones (Z.shiftr insn i) 1). lia. Qed.
Lemma BIT_range insn i : 0 <= BIT insn i <= 1.
Proof. rewrite BIT_mod. pose proof (Z.mod_pos_bound (Z.shiftr insn i) 2). lia. Qed.
Lemma BIT_cases insn i : BIT insn i = 0 \/ BIT insn i = 1.
Proof. pose proof (BIT_range insn i). lia. Qed.
Lemma BIT_b2z insn i : BIT insn i = b2z (BITb insn i).
Proof. unfold BITb. by destruct (BIT_cases insn i) as [-> | ->]. Qed.
Lemma b2z_range b : 0 <= b2z b <= 1. Proof. destruct b; simpl; lia. Qed.

Ltac fits_side := first [ assumption | lia | done ].
#[export] Hint Resolve fits_u8 fits_u16 fits_u32 fits_u64 fits_not64 fits_not32 : word.
#[export] Hint Extern 1 (fits _ 0) => (apply fits_0; lia) : word.
#[export] Hint Extern 2 (fits _ (Z.land _ _)) => (apply fits_land; [lia| |]) : word.
#[export] Hint Extern 2 (fits _ (Z.lor _ _)) => (apply fits_lor; [lia| |]) : word.
#[export] Hint Extern 2 (fits _ (Z.lxor _ _)) => (apply fits_lxor; [lia| |]) : word.
#[export] Hint Extern 2 (fits _ (Z.shiftr _ _)) => (apply fits_shiftr; [lia|try lia|]) : word.
#[export] Hint Extern 3 (fits _ (if ?b then _ else _)) => (destruct b) : word.
#[export] Hint Extern 4 (fits 64 (u32 _)) => (apply (fits_weaken 32); [apply fits_u32|lia]) : word.
#[export] Hint Extern 4 (fits 64 (u16 _)) => (apply (fits_weaken 16); [apply fits_u16|lia]) : word.
#[export] Hint Extern 4 (fits 64 (u8 _)) => (apply (fits_weaken 8); [apply fits_u8|lia]) : word.

(** ** The execution monad

    A handler of the interpreter runs on a state [S] and either returns
    ([Ok]), stops because it has recorded an exception ([Fault]: the C code
    returns at once after [undefined], [cpu_raise_sync] or an access that
    reported [false]), or leaves what C defines ([UB]: an index outside an
    array, a copy larger than its buffer). *)
Inductive outcome (S A : Type) : Type :=
| Ok (a : A) (s : S)
| Fault (s : S)
| UB.
Arguments Ok {S A} a s.
Arguments Fault {S A} s.
Arguments UB {S A}.

Definition M (S A : Type) : Type := S -> outcome S A.

Definition ret {S A} (a : A) : M S A := fun s => Ok a s.
Definition bind {S A B} (m : M S A) (k : A -> M S B) : M S B := fun s =>
  match m s with
  | Ok a s' => k a s'
  | Fault s' => Fault s'
  | UB => UB
  end.
Definition gets {S A} (f : S -> A) : M S A := fun s => Ok (f s) s.
Definition modify {S} (f : S -> S) : M S unit := fun s => Ok tt (f s).
Definition fault {S A} (f : S -> S) : M S A := fun s => Fault (f s).
Definition ub {S A} : M S A := fun _ => UB.

Declare Scope exec_scope.
Delimit Scope exec_scope with exec.
Notation "x <- m ; k" := (bind m (fun x => k))
  (at level 100, m at level 200, k at level 200, right associativity) : exec_scope.
Notation "m ;; k" := (bind m (fun _ => k))
  (at level 100, k at level 200, right associativity) : exec_scope.

(** What is left of a handler's run for its caller: the state, unless the
    run was undefined. *)
Definition run {S A} (m : M S A) (s : S) : option S :=
  match m s with Ok _ s' => Some s' | Fault s' => Some s' | UB => None end.

Lemma bind_ext {S A B} (m : M S A) (k k' : A -> M S B) s :
  (forall a s', k a s' = k' a s') -> bind m k s = bind m k' s.
Proof. intros H. unfold bind. by destruct (m s). Qed.
Lemma bind_assoc {S A B C} (m : M S A) (f : A -> M S B) (g : B -> M S C) s :
  bind (bind m f) g s = bind m (fun a => bind (f a) g) s.
Proof. unfold bind. by destruct (m s). Qed.

(** [safe U P m Q]: from a state with [P], [m] keeps [P] on every path,
    returns values with [Q], and leaves defined behaviour only if [U]. With
    [U := False] it is a safety statement, with [U := True] a preservation
    statement. *)
Definition safe {S A} (U : Prop) (P : S -> Prop) (m : M S A) (Q : A -> Prop) : Prop :=
  forall s, P s ->
  match m s with
  | Ok a s' => Q a /\ P s'
  | Fault s' => P s'
  | UB => U
  end.

Section SafeRules.
Context {S : Type} (U : Prop) (P : S -> Prop).

Lemma safe_ret {A} (a : A) (Q : A -> Prop) : Q a -> safe U P (ret a) Q.
Proof. intros H s Hs. simpl. auto. Qed.
Lemma safe_bind {A B} (m : M S A) (k : A -> M S B) Q R :
  safe U P m Q -> (forall a, Q a -> safe U P (k a) R) -> safe U P (bind m k) R.
Proof.
  intros Hm Hk s Hs. unfold bind. specialize (Hm s Hs).
  destruct (m s) as [a s1|s1|]; [|done..]. destruct Hm as [HQ Hs1]. by apply Hk.
Qed.
Lemma safe_modify (f : S -> S) (Q : unit -> Prop) :
  Q tt -> (forall s, P s -> P (f s)) -> safe U P (modify f) Q.
Proof. intros HQ H s Hs. simpl. auto. Qed.
Lemma safe_gets {A} (f : S -> A) (Q : A -> Prop) :
  (forall s, P s -> Q (f s)) -> safe U P (gets f) Q.
Proof. intros H s Hs. simpl. auto. Qed.
Lemma safe_fault {A} (f : S -> S) (Q : A -> Prop) :
  (forall s, P s -> P (f s)) -> safe U P (fault f) Q.
Proof. intros H s Hs. simpl. auto. Qed.
Lemma safe_ub {A} (Q : A -> Prop) : U -> safe U P (ub (A:=A)) Q.
Proof. intros H s Hs. exact H. Qed.
Lemma safe_weaken {A} (m : M S A) (Q Q' : A -> Prop) :
  safe U P m Q -> (forall a, Q a -> Q' a) -> safe U P m Q'.
Proof.
  intros Hm HQ s Hs. specialize (Hm s Hs). destruct (m s); naive_solver.
Qed.
Lemma safe_if {A} (b : bool) (m m' : M S A) Q :
  (b = true -> safe U P m Q) -> (b = false -> safe U P m' Q) ->
  safe U P (if b then m else m') Q.
Proof. destruct b; auto. Qed.
Lemma safe_assoc {A B C} (m : M S A) (f : A -> M S B) (g : B -> M S C) Q :
  safe U P (bind (bind m f) g) Q <-> safe U P (bind m (fun a => bind (f a) g)) Q.
Proof.
  unfold safe, bind. split; intros H s Hs; specialize (H s Hs); by destruct (m s).
Qed.
End SafeRules.

(** ** Loops

    [while p body a] runs [body] from [a] until it says [inr], at most [p]
    times; the iteration count is a binary number so that a bound of 2^63
    costs nothing when the loop stops early. [inl] at the end means the
    bound was too small, which every use rules out. *)
Fixpoint while {S A B} (p : positive) (body : A -> M S (A + B)) (a : A) : M S (A + B) :=
  match p with
  | xH => body a
  | xO q => bind (while q body a) (fun r =>
              match r with inl a' => while q body a' | inr b => ret (inr b) end)
  | xI q => bind (body a) (fun r =>
              match r with
              | inl a' => bind (while q body a') (fun r' =>
                  match r' with inl a'' => while q body a'' | inr b => ret (inr b) end)
              | inr b => ret (inr b)
              end)
  end.

(** Total correctness of [while]: an invariant kept by every continuing
    iteration, a measure that falls on each of them, and a bound above it. *)
Lemma while_rule {S A B} (U : Prop) (I : A -> S -> Prop) (Q : B -> S -> Prop) (F : S -> Prop)
    (meas : A -> Z) (body : A -> M S (A + B)) :
  (forall a s, I a s ->
    match body a s with
    | Ok (inl a') s' => I a' s' /\ meas a' < meas a
    | Ok (inr b) s' => Q b s'
    | Fault s' => F s'
    | UB => U
    end) ->
  forall p a s, I a s ->
    match while p body a s with
    | Ok (inl a') s' => I a' s' /\ meas a' <= meas a - Z.pos p
    | Ok (inr b) s' => Q b s'
    | Fault s' => F s'
    | UB => U
    end.
Proof.
  intros Hb. induction p as [q IH|q IH|]; intros a s Ha; simpl.
  - unfold bind at 1. pose proof (Hb a s Ha) as H1.
    destruct (body a s) as [[a1|b1] s1|s1|]; [|done..]. destruct H1 as [H1 L1].
    unfold bind. pose proof (IH a1 s1 H1) as H2.
    destruct (while q body a1 s1) as [[a2|b2] s2|s2|]; [|done..]. destruct H2 as [H2 L2].
    pose proof (IH a2 s2 H2) as H3.
    destruct (while q body a2 s2) as [[a3|b3] s3|s3|]; [|done..]. destruct H3. split; [done|lia].
  - unfold bind. pose proof (IH a s Ha) as H2.
    destruct (while q body a s) as [[a2|b2] s2|s2|]; [|done..]. destruct H2 as [H2 L2].
    pose proof (IH a2 s2 H2) as H3.
    destruct (while q body a2 s2) as [[a3|b3] s3|s3|]; [|done..]. destruct H3. split; [done|lia].
  - pose proof (Hb a s Ha) as H1.
    destruct (body a s) as [[a1|b1] s1|s1|]; [|done..]. destruct H1 as [H1 L1]. split; [done|lia].
Qed.

(** Leaving a loop: [inr] is its result; the [inl] of a spent bound has no
    meaning in the source. *)
Definition loop_exit {S A B} (r : A + B) : M S B :=
  match r with inr b => ret b | inl _ => ub end.

(** A loop whose measure starts below its bound leaves with its result. *)
Lemma safe_loop {S A B} (U : Prop) (P : S -> Prop) (I : A -> Prop) (Q : B -> Prop)
    (meas : A -> Z) (body : A -> M S (A + B)) :
  (forall a, I a -> 0 <= meas a) ->
  (forall a, I a -> safe U P (body a)
     (fun r => match r with inl a' => I a' /\ meas a' < meas a | inr b => Q b end)) ->
  forall p a, I a -> meas a < Z.pos p -> safe U P (bind (while p body a) loop_exit) Q.
Proof.
  intros Hm Hb p a Ha Hp s Hs. unfold bind.
  pose proof (while_rule U (fun a s => I a /\ P s) (fun b s => Q b /\ P s) P meas body) as Hw.
  assert (Hstep : forall a s, I a /\ P s ->
    match body a s with
    | Ok (inl a') s' => (I a' /\ P s') /\ meas a' < meas a
    | Ok (inr b) s' => Q b /\ P s'
    | Fault s' => P s'
    | UB => U
    end).
  { intros a1 s1 [H1 H2]. pose proof (Hb a1 H1 s1 H2) as H.
    destruct (body a1 s1) as [[a2|b2] s2|s2|]; naive_solver. }
  specialize (Hw Hstep p a s (conj Ha Hs)).
  destruct (while p body a s) as [[a'|b] s'|s'|]; simpl; [|done..].
  destruct Hw as [[Ha' _] Hle]. pose proof (Hm a' Ha'). lia.
Qed.

(** A [for] loop over [n] iterations from [i], threading [a]. *)
Fixpoint for_loop {S A} (n : nat) (i : Z) (body : Z -> A -> M S A) (a : A) : M S A :=
  match n with
  | O => ret a
  | Datatypes.S k => bind (body i a) (for_loop k (i + 1) body)
  end.

(** Its rule: an invariant of the accumulator. *)
Lemma safe_for_loop {S A} (U : Prop) (P : S -> Prop) (I : A -> Prop) n i (body : Z -> A -> M S A) a :
  (forall j a, i <= j < i + Z.of_nat n -> I a -> safe U P (body j a) I) -> I a ->
  safe U P (for_loop n i body a) I.
Proof.
  revert i a. induction n as [|n IH]; intros i a Hb Ha; cbn [for_loop]; [by apply safe_ret|].
  eapply safe_bind; [apply Hb; [lia|done]|]. intros a' Ha'. apply IH; [|done].
  intros j a'' Hj. apply Hb. lia.
Qed.
