(* ===== verification/Types.v ===== *)
(** * Types: the helpers of core/types.h and core/esr.h

    Sign extension, rotations, the two 64x64 high multiplies (both the
    128-bit and the 32-bit-limb form), and the exception-syndrome words. *)

From S2P Require Import Prelude.

(** [sign_extend]: the low [bits] of [x] as a signed value, at 64 bits. *)
Definition sign_extend (x bits : Z) : Z :=
  if (bits =? 0) || (64 <=? bits) then x
  else let m := Z.shiftl 1 (bits - 1) in u64 (Z.lxor x m - m).

Definition ones (n : Z) : Z :=
  if 64 <=? n then not64 0 else u64 (Z.shiftl 1 n) - 1.

Definition ror32 (x n : Z) : Z :=
  let n := Z.land n 31 in
  if n =? 0 then x else Z.lor (Z.shiftr x n) (u32 (Z.shiftl x (32 - n))).
Definition ror64 (x n : Z) : Z :=
  let n := Z.land n 63 in
  if n =? 0 then x else Z.lor (Z.shiftr x n) (u64 (Z.shiftl x (64 - n))).

(** [umulh64], the build with [__int128]. *)
Definition umulh64 (a b : Z) : Z := u64 (Z.shiftr (a * b) 64).
(** [umulh64], the build without: 32-bit limbs. *)
Definition umulh64_limbs (a b : Z) : Z :=
  let al := u32 a in let ah := Z.shiftr a 32 in
  let bl := u32 b in let bh := Z.shiftr b 32 in
  let ll := u64 (al * bl) in let lh := u64 (al * bh) in
  let hl := u64 (ah * bl) in let hh := u64 (ah * bh) in
  let mid := u64 (lh + Z.shiftr ll 32) in
  let carry := if mid <? lh then Z.shiftl 1 32 else 0 in
  let mid' := u64 (mid + hl) in
  let carry' := if mid' <? hl then u64 (carry + Z.shiftl 1 32) else carry in
  u64 (u64 (hh + Z.shiftr mid' 32) + carry').

(** [smulh64] on [s64] arguments; the result is an [s64]. *)
Definition smulh64 (a b : Z) : Z := s64 (Z.shiftr (a * b) 64).
Definition smulh64_limbs (a b : Z) : Z :=
  let h := umulh64_limbs (u64 a) (u64 b) in
  let h := if a <? 0 then u64 (h - u64 b) else h in
  let h := if b <? 0 then u64 (h - u64 a) else h in
  s64 h.

(** ** esr.h *)
Definition EC_UNKNOWN : Z := 0x00.
Definition EC_SVC64 : Z := 0x15.
Definition EC_IABORT_LOWER : Z := 0x20.
Definition EC_IABORT_SAME : Z := 0x21.
Definition EC_PC_ALIGN : Z := 0x22.
Definition EC_DABORT_LOWER : Z := 0x24.
Definition EC_DABORT_SAME : Z := 0x25.
Definition EC_SP_ALIGN : Z := 0x26.
Definition EC_MOP : Z := 0x27.
Definition EC_BRK64 : Z := 0x3C.
Definition FSC_TRANS_L3 : Z := 0x07.
Definition FSC_PERM_L0 : Z := 0x0C.
Definition FSC_PERM_L3 : Z := 0x0F.
Definition FSC_EXTERNAL : Z := 0x10.
Definition FSC_ALIGN : Z := 0x21.

Definition esr_make (ec iss : Z) : Z :=
  Z.lor (Z.lor (u64 (Z.shiftl (Z.land ec 0x3f) 26)) (Z.shiftl 1 25))
        (Z.land iss 0x1ffffff).

Definition iss_dabort (write : bool) (dfsc : Z) : Z :=
  let iss := Z.land dfsc 0x3f in
  if write then Z.lor iss (Z.shiftl 1 6) else iss.

(** ** Lemmas *)

Lemma shiftl_1_pow n : 0 <= n -> Z.shiftl 1 n = 2 ^ n.
Proof. intros. rewrite Z.shiftl_mul_pow2 by lia. lia. Qed.

Lemma signed_range w z : 0 < w -> - 2 ^ (w - 1) <= signed w z < 2 ^ (w - 1).
Proof.
  intros. unfold signed. assert (2 ^ w = 2 * 2 ^ (w - 1)) as E.
  { rewrite <- Z.pow_succ_r by lia. f_equal. lia. }
  pose proof (Z.mod_pos_bound z (2 ^ w)).
  assert (0 < 2 ^ (w - 1)) by (apply Z.pow_pos_nonneg; lia).
  case_match; lia.
Qed.
Lemma signed_mod w z : 0 < w -> signed w z mod 2 ^ w = z mod 2 ^ w.
Proof.
  intros. unfold signed. assert (0 < 2 ^ w) by (apply Z.pow_pos_nonneg; lia).
  case_match; [by rewrite Z.mod_mod by lia|].
  replace (z mod 2 ^ w - 2 ^ w) with (z mod 2 ^ w + (-1) * 2 ^ w) by lia.
  by rewrite Z.mod_add, Z.mod_mod by lia.
Qed.
Lemma signed_cong w z z' : z mod 2 ^ w = z' mod 2 ^ w -> signed w z = signed w z'.
Proof. unfold signed. by intros ->. Qed.
Lemma signed_small w z : 0 < w -> - 2 ^ (w - 1) <= z < 2 ^ (w - 1) -> signed w z = z.
Proof.
  intros. unfold signed. assert (2 ^ w = 2 * 2 ^ (w - 1)) as E.
  { rewrite <- Z.pow_succ_r by lia. f_equal. lia. }
  destruct (Z.lt_ge_cases z 0).
  - replace (z mod 2 ^ w) with (z + 2 ^ w); [case_match; lia|].
    apply Z.mod_unique with (-1); lia.
  - rewrite Z.mod_small by lia. case_match; lia.
Qed.

Lemma ones_ones n : 0 <= n <= 64 -> ones n = Z.ones n.
Proof.
  intros. unfold ones. rewrite Z.ones_equiv. case_match.
  - assert (n = 64) as -> by lia. reflexivity.
  - rewrite shiftl_1_pow by lia. unfold u64. rewrite Z.mod_small; [lia|].
    split; [apply Z.pow_nonneg; lia|]. apply Z.pow_lt_mono_r; lia.
Qed.
Lemma fits_ones n : 0 <= n <= 64 -> fits 64 (ones n).
Proof.
  intros. rewrite ones_ones by lia. unfold fits. rewrite Z.ones_equiv.
  pose proof (Z.pow_pos_nonneg 2 n). pose proof (Z.pow_le_mono_r 2 n 64). lia.
Qed.

(** [sign_extend] computes the signed reading of the field. *)
Lemma sign_extend_signed x bits :
  0 < bits < 64 -> fits bits x -> sign_extend x bits = u64 (signed bits x).
Proof.
  intros Hb Hx. unfold sign_extend. rewrite (proj2 (orb_false_iff _ _)) by lia.
  rewrite shiftl_1_pow by lia. set (m := 2 ^ (bits - 1)).
  assert (2 ^ bits = 2 * m) as Ep.
  { unfold m. rewrite <- Z.pow_succ_r by lia. f_equal. lia. }
  assert (Hm : 0 < m) by (apply Z.pow_pos_nonneg; lia).
  unfold fits in Hx. unfold signed. rewrite Z.mod_small by lia. fold m. f_equal.
  assert (Hbit : forall i, 0 <= i -> Z.testbit m i = (i =? bits - 1)).
  { intros i Hi. unfold m. rewrite Z.pow2_bits_eqb by lia. apply Z.eqb_sym. }
  case_match.
  - (* the sign bit is clear: xor adds it *)
    rewrite <- Z.add_nocarry_lxor; [lia|]. apply Z.bits_inj'. intros i Hi.
    rewrite Z.land_spec, Hbit, Z.bits_0 by done.
    destruct (Z.eqb_spec i (bits - 1)) as [->|]; [|by rewrite andb_false_r].
    rewrite (fits_testbit (bits - 1)); [done|unfold fits; fold m; lia|lia].
  - (* the sign bit is set: xor removes it *)
    assert (Z.lxor x m = x - m) as ->; [|lia].
    replace x with (m + (x - m)) at 1 by lia.
    rewrite (Z.add_nocarry_lxor m (x - m)).
    + rewrite (Z.lxor_comm m), Z.lxor_assoc, Z.lxor_nilpotent. apply Z.lxor_0_r.
    + apply Z.bits_inj'. intros i Hi. rewrite Z.land_spec, Hbit, Z.bits_0 by done.
      destruct (Z.eqb_spec i (bits - 1)) as [->|]; [|done].
      rewrite (fits_testbit (bits - 1)); [done|unfold fits; fold m; lia|lia].
Qed.
Lemma fits_sign_extend x bits : 0 < bits <= 64 -> fits bits x -> fits 64 (sign_extend x bits).
Proof.
  intros Hb Hx. unfold sign_extend. case_match; [|apply fits_u64].
  assert (bits = 64) as <- by lia. done.
Qed.

Lemma ror64_bits x n i : fits 64 x -> 0 <= n -> 0 <= i < 64 ->
  Z.testbit (ror64 x n) i = Z.testbit x ((i + n) mod 64).
Proof.
  intros Hx Hn Hi. unfold ror64.
  change 63 with (Z.ones 6). rewrite Z.land_ones by lia. change (2 ^ 6) with 64.
  pose proof (Z.mod_pos_bound n 64). set (r := n mod 64) in *.
  assert ((i + n) mod 64 = (i + r) mod 64) as ->.
  { unfold r. by rewrite Z.add_mod_idemp_r by lia. }
  destruct (Z.eqb_spec r 0) as [->|].
  - rewrite Z.add_0_r, Z.mod_small by lia. done.
  - unfold u64. rewrite Z.lor_spec, Z.shiftr_spec by lia.
    rewrite Z.mod_pow2_bits_low, Z.shiftl_spec by lia.
    destruct (Z.lt_ge_cases (i + r) 64).
    + rewrite (Z.testbit_neg_r _ (i - _)), orb_false_r by lia. by rewrite Z.mod_small by lia.
    + rewrite (fits_testbit 64 x (i + r)) by (done || lia). rewrite orb_false_l. f_equal.
      replace (i + r) with (i - (64 - r) + 1 * 64) by lia. rewrite Z.mod_add by lia.
      by rewrite Z.mod_small by lia.
Qed.
Lemma fits_ror64 x n : fits 64 x -> fits 64 (ror64 x n).
Proof.
  intros. unfold ror64. case_match; [done|]. apply fits_lor; [lia| |auto with word].
  apply fits_shiftr; [lia| |done]. apply Z.land_nonneg. lia.
Qed.
Lemma fits_ror32 x n : fits 32 x -> fits 32 (ror32 x n).
Proof.
  intros. unfold ror32. case_match; [done|]. apply fits_lor; [lia| |auto with word].
  apply fits_shiftr; [lia| |done]. apply Z.land_nonneg. lia.
Qed.

(** The limb multiply computes the 128-bit product's high half. *)
Lemma umulh64_limbs_correct a b :
  fits 64 a -> fits 64 b -> umulh64_limbs a b = umulh64 a b.
Proof.
  unfold fits. intros Ha Hb. unfold umulh64_limbs, umulh64.
  rewrite !Z.shiftr_div_pow2 by lia. rewrite shiftl_1_pow by lia.
  unfold u32. change (2 ^ 64) with (2 ^ 32 * 2 ^ 32) in Ha, Hb.
  pose proof (Z.div_mod a (2 ^ 32)) as Ea. pose proof (Z.div_mod b (2 ^ 32)) as Eb.
  pose proof (Z.mod_pos_bound a (2 ^ 32)). pose proof (Z.mod_pos_bound b (2 ^ 32)).
  assert (0 <= a / 2 ^ 32 < 2 ^ 32)
    by (split; [apply Z.div_pos|apply Z.div_lt_upper_bound]; lia).
  assert (0 <= b / 2 ^ 32 < 2 ^ 32)
    by (split; [apply Z.div_pos|apply Z.div_lt_upper_bound]; lia).
  set (al := a mod 2 ^ 32) in *. set (ah := a / 2 ^ 32) in *.
  set (bl := b mod 2 ^ 32) in *. set (bh := b / 2 ^ 32) in *.
  assert (0 <= al * bl <= (2 ^ 32 - 1) * (2 ^ 32 - 1)) by nia.
  assert (0 <= al * bh <= (2 ^ 32 - 1) * (2 ^ 32 - 1)) by nia.
  assert (0 <= ah * bl <= (2 ^ 32 - 1) * (2 ^ 32 - 1)) by nia.
  assert (0 <= ah * bh <= (2 ^ 32 - 1) * (2 ^ 32 - 1)) by nia.
  assert (a * b = ah * bh * 2 ^ 64 + (al * bh + ah * bl) * 2 ^ 32 + al * bl) as -> by nia.
  generalize dependent (al * bl). generalize dependent (al * bh).
  generalize dependent (ah * bl). generalize dependent (ah * bh).
  clear. intros hh Hhh hl Hhl lh Hlh ll Hll.
  rewrite (u64_small ll), (u64_small lh), (u64_small hl), (u64_small hh)
    by (unfold fits; lia).
  assert (0 <= ll / 2 ^ 32 < 2 ^ 32)
    by (split; [apply Z.div_pos|apply Z.div_lt_upper_bound]; lia).
  rewrite (u64_small (lh + _)) by (unfold fits; lia).
  replace (lh + ll / 2 ^ 32 <? lh) with false by lia.
  unfold u64. Z.to_euclidean_division_equations. case_match; lia.
Qed.

Lemma smulh64_limbs_correct a b :
  - 2 ^ 63 <= a < 2 ^ 63 -> - 2 ^ 63 <= b < 2 ^ 63 ->
  smulh64_limbs a b = smulh64 a b.
Proof.
  intros Ha Hb. unfold smulh64_limbs, smulh64.
  rewrite umulh64_limbs_correct by apply fits_u64. unfold umulh64.
  rewrite !Z.shiftr_div_pow2 by lia. unfold s64. apply signed_cong.
  assert (Eu : forall z, - 2 ^ 63 <= z < 2 ^ 63 -> u64 z = if z <? 0 then z + 2 ^ 64 else z)
    by (intros; unfold u64; case_match; Z.to_euclidean_division_equations; lia).
  rewrite (Eu a), (Eu b) by done.
  assert (Hk : forall p k, (p + k * 2 ^ 64) / 2 ^ 64 = p / 2 ^ 64 + k)
    by (intros; apply Z.div_add; lia).
  set (q := a * b / 2 ^ 64).
  destruct (Z.ltb_spec a 0), (Z.ltb_spec b 0).
  - replace ((a + 2 ^ 64) * (b + 2 ^ 64)) with (a * b + (a + b + 2 ^ 64) * 2 ^ 64) by lia.
    rewrite Hk. fold q. unfold u64. Z.to_euclidean_division_equations. lia.
  - replace ((a + 2 ^ 64) * b) with (a * b + b * 2 ^ 64) by lia.
    rewrite Hk. fold q. unfold u64. Z.to_euclidean_division_equations. lia.
  - replace (a * (b + 2 ^ 64)) with (a * b + a * 2 ^ 64) by lia.
    rewrite Hk. fold q. unfold u64. Z.to_euclidean_division_equations. lia.
  - fold q. unfold u64. Z.to_euclidean_division_equations. lia.
Qed.

(** Clearing a mask's bits of a word. *)
Lemma land_not64 x m : fits 64 x -> Z.land x (not64 m) = Z.ldiff x m.
Proof.
  intros Hx. apply Z.bits_inj'. intros i Hi. rewrite Z.land_spec, Z.ldiff_spec.
  unfold not64, u64. destruct (Z.lt_ge_cases i 64).
  - by rewrite Z.mod_pow2_bits_low, Z.lnot_spec by lia.
  - by rewrite (fits_testbit 64 x i) by (done || lia).
Qed.
Lemma land_not64_ones x n : fits 64 x -> 0 <= n -> Z.land x (not64 (Z.ones n)) = x - x mod 2 ^ n.
Proof.
  intros Hx Hn. rewrite land_not64, Z.ldiff_ones_r by done.
  rewrite Z.shiftl_mul_pow2, Z.shiftr_div_pow2 by lia. pose proof (Z.div_mod x (2 ^ n)).
  assert (0 < 2 ^ n) by (apply Z.pow_pos_nonneg; lia). lia.
Qed.
Lemma fits_land_not64 x m : fits 64 x -> fits 64 (Z.land x (not64 m)).
Proof. intros. apply fits_land; [lia|done|apply fits_not64]. Qed.

(** The error numbers the modelled code returns, negated. *)
Definition EFAULT : Z := 14.
Definition EACCES : Z := 13.
Definition ENOMEM : Z := 12.
Definition EINVAL : Z := 22.
