(* ===== verification/Cpu.v ===== *)
(** * Cpu: the CPU state of core/cpu.h and the helpers on it

    The register file, PSTATE, the banked system registers, the exclusive
    monitor and the run control as records; the register accessors with their
    XZR/SP rules; condition codes; PSTATE packing; and the exception seam
    (exception.c), which records a pending exception in the thread state. *)

From S2P Require Import Prelude Types.

(** A 128-bit SIMD register: the 16 bytes of the V128 union, read as one
    little-endian number (the host is little-endian). *)
Definition V128 : Type := Z.
Definition v_d0 (v : V128) : Z := u64 v.
Definition v_d1 (v : V128) : Z := u64 (Z.shiftr v 64).
Definition v_mk (d0 d1 : Z) : V128 := Z.lor (u64 d0) (Z.shiftl (u64 d1) 64).

(** The banked and single system registers of [CPU]; the fields no modelled
    code reads or writes are left out. *)
Record SysRegs := mkSysRegs {
  r_sctlr : list Z;
  r_ttbr0 : list Z;
  r_ttbr1 : list Z;
  r_tcr : list Z;
  r_mair : list Z;
  r_amair : list Z;
  r_vbar : list Z;
  r_esr : list Z;
  r_far : list Z;
  r_elr : list Z;
  r_spsr : list Z;
  r_tpidr : list Z;
  r_tpidrro_el0 : Z;
  r_contextidr_el1 : Z;
  r_cpacr_el1 : Z;
  r_mdscr_el1 : Z;
  r_par_el1 : Z;
  r_mpidr : Z;
  r_cntfrq : Z;
  r_cntp_ctl : Z;
  r_cntp_cval : Z;
  r_cntv_ctl : Z;
  r_cntv_cval : Z;
  r_cntkctl_el1 : Z
}.

(** [struct CPU]. *)
Record CPU := mkCPU {
  c_x : list Z;
  c_pc : Z;
  c_nzcv : Z;
  c_daif : Z;
  c_el : Z;
  c_sp_sel : Z;
  c_sp_el : list Z;
  c_v : list V128;
  c_fpcr : Z;
  c_fpsr : Z;
  c_sys : SysRegs;
  c_excl_valid : bool;
  c_excl_addr : Z;
  c_excl_size : Z;
  c_excl_val : Z;
  c_excl_val2 : Z;
  c_irq_line : bool;
  c_fiq_line : bool;
  c_halted : bool;
  c_stop : bool;
  c_icount : Z;
  c_cur_insn_pc : Z
}.

(** The per-thread state the core touches: of [g_tls] the pending exception
    and the flags of the guest-memory accessors, and the thread-local
    [g_fpexc], [g_fz] and [g_fz16] of exec_fpsimd.c. *)
Record Tls := mkTls {
  pe_valid : bool;
  pe_esr : Z;
  pe_far : Z;
  t_uaccess : bool;
  t_tagged_addr_ctrl : Z;
  t_nogrow : bool;
  t_fpexc : Z;
  t_fz : bool;
  t_fz16 : bool
}.

(** What one instruction runs on: the thread's CPU, its [g_tls] and the
    memory behind the seam of mmu.h. *)
Record St (Mem : Type) := mkSt {
  s_cpu : CPU;
  s_tls : Tls;
  s_mem : Mem
}.
Arguments mkSt {Mem}.
Arguments s_cpu {Mem}.
Arguments s_tls {Mem}.
Arguments s_mem {Mem}.

Definition with_sctlr (v : list Z) (c : SysRegs) : SysRegs :=
  mkSysRegs v (r_ttbr0 c) (r_ttbr1 c) (r_tcr c) (r_mair c) (r_amair c) (r_vbar c) (r_esr c) (r_far c) (r_elr c) (r_spsr c) (r_tpidr c) (r_tpidrro_el0 c) (r_contextidr_el1 c) (r_cpacr_el1 c) (r_mdscr_el1 c) (r_par_el1 c) (r_mpidr c) (r_cntfrq c) (r_cntp_ctl c) (r_cntp_cval c) (r_cntv_ctl c) (r_cntv_cval c) (r_cntkctl_el1 c).
Definition with_ttbr0 (v : list Z) (c : SysRegs) : SysRegs :=
  mkSysRegs (r_sctlr c) v (r_ttbr1 c) (r_tcr c) (r_mair c) (r_amair c) (r_vbar c) (r_esr c) (r_far c) (r_elr c) (r_spsr c) (r_tpidr c) (r_tpidrro_el0 c) (r_contextidr_el1 c) (r_cpacr_el1 c) (r_mdscr_el1 c) (r_par_el1 c) (r_mpidr c) (r_cntfrq c) (r_cntp_ctl c) (r_cntp_cval c) (r_cntv_ctl c) (r_cntv_cval c) (r_cntkctl_el1 c).
Definition with_ttbr1 (v : list Z) (c : SysRegs) : SysRegs :=
  mkSysRegs (r_sctlr c) (r_ttbr0 c) v (r_tcr c) (r_mair c) (r_amair c) (r_vbar c) (r_esr c) (r_far c) (r_elr c) (r_spsr c) (r_tpidr c) (r_tpidrro_el0 c) (r_contextidr_el1 c) (r_cpacr_el1 c) (r_mdscr_el1 c) (r_par_el1 c) (r_mpidr c) (r_cntfrq c) (r_cntp_ctl c) (r_cntp_cval c) (r_cntv_ctl c) (r_cntv_cval c) (r_cntkctl_el1 c).
Definition with_tcr (v : list Z) (c : SysRegs) : SysRegs :=
  mkSysRegs (r_sctlr c) (r_ttbr0 c) (r_ttbr1 c) v (r_mair c) (r_amair c) (r_vbar c) (r_esr c) (r_far c) (r_elr c) (r_spsr c) (r_tpidr c) (r_tpidrro_el0 c) (r_contextidr_el1 c) (r_cpacr_el1 c) (r_mdscr_el1 c) (r_par_el1 c) (r_mpidr c) (r_cntfrq c) (r_cntp_ctl c) (r_cntp_cval c) (r_cntv_ctl c) (r_cntv_cval c) (r_cntkctl_el1 c).
Definition with_mair (v : list Z) (c : SysRegs) : SysRegs :=
  mkSysRegs (r_sctlr c) (r_ttbr0 c) (r_ttbr1 c) (r_tcr c) v (r_amair c) (r_vbar c) (r_esr c) (r_far c) (r_elr c) (r_spsr c) (r_tpidr c) (r_tpidrro_el0 c) (r_contextidr_el1 c) (r_cpacr_el1 c) (r_mdscr_el1 c) (r_par_el1 c) (r_mpidr c) (r_cntfrq c) (r_cntp_ctl c) (r_cntp_cval c) (r_cntv_ctl c) (r_cntv_cval c) (r_cntkctl_el1 c).
Definition with_amair (v : list Z) (c : SysRegs) : SysRegs :=
  mkSysRegs (r_sctlr c) (r_ttbr0 c) (r_ttbr1 c) (r_tcr c) (r_mair c) v (r_vbar c) (r_esr c) (r_far c) (r_elr c) (r_spsr c) (r_tpidr c) (r_tpidrro_el0 c) (r_contextidr_el1 c) (r_cpacr_el1 c) (r_mdscr_el1 c) (r_par_el1 c) (r_mpidr c) (r_cntfrq c) (r_cntp_ctl c) (r_cntp_cval c) (r_cntv_ctl c) (r_cntv_cval c) (r_cntkctl_el1 c).
Definition with_vbar (v : list Z) (c : SysRegs) : SysRegs :=
  mkSysRegs (r_sctlr c) (r_ttbr0 c) (r_ttbr1 c) (r_tcr c) (r_mair c) (r_amair c) v (r_esr c) (r_far c) (r_elr c) (r_spsr c) (r_tpidr c) (r_tpidrro_el0 c) (r_contextidr_el1 c) (r_cpacr_el1 c) (r_mdscr_el1 c) (r_par_el1 c) (r_mpidr c) (r_cntfrq c) (r_cntp_ctl c) (r_cntp_cval c) (r_cntv_ctl c) (r_cntv_cval c) (r_cntkctl_el1 c).
Definition with_esr (v : list Z) (c : SysRegs) : SysRegs :=
  mkSysRegs (r_sctlr c) (r_ttbr0 c) (r_ttbr1 c) (r_tcr c) (r_mair c) (r_amair c) (r_vbar c) v (r_far c) (r_elr c) (r_spsr c) (r_tpidr c) (r_tpidrro_el0 c) (r_contextidr_el1 c) (r_cpacr_el1 c) (r_mdscr_el1 c) (r_par_el1 c) (r_mpidr c) (r_cntfrq c) (r_cntp_ctl c) (r_cntp_cval c) (r_cntv_ctl c) (r_cntv_cval c) (r_cntkctl_el1 c).
Definition with_far (v : list Z) (c : SysRegs) : SysRegs :=
  mkSysRegs (r_sctlr c) (r_ttbr0 c) (r_ttbr1 c) (r_tcr c) (r_mair c) (r_amair c) (r_vbar c) (r_esr c) v (r_elr c) (r_spsr c) (r_tpidr c) (r_tpidrro_el0 c) (r_contextidr_el1 c) (r_cpacr_el1 c) (r_mdscr_el1 c) (r_par_el1 c) (r_mpidr c) (r_cntfrq c) (r_cntp_ctl c) (r_cntp_cval c) (r_cntv_ctl c) (r_cntv_cval c) (r_cntkctl_el1 c).
Definition with_elr (v : list Z) (c : SysRegs) : SysRegs :=
  mkSysRegs (r_sctlr c) (r_ttbr0 c) (r_ttbr1 c) (r_tcr c) (r_mair c) (r_amair c) (r_vbar c) (r_esr c) (r_far c) v (r_spsr c) (r_tpidr c) (r_tpidrro_el0 c) (r_contextidr_el1 c) (r_cpacr_el1 c) (r_mdscr_el1 c) (r_par_el1 c) (r_mpidr c) (r_cntfrq c) (r_cntp_ctl c) (r_cntp_cval c) (r_cntv_ctl c) (r_cntv_cval c) (r_cntkctl_el1 c).
Definition with_spsr (v : list Z) (c : SysRegs) : SysRegs :=
  mkSysRegs (r_sctlr c) (r_ttbr0 c) (r_ttbr1 c) (r_tcr c) (r_mair c) (r_amair c) (r_vbar c) (r_esr c) (r_far c) (r_elr c) v (r_tpidr c) (r_tpidrro_el0 c) (r_contextidr_el1 c) (r_cpacr_el1 c) (r_mdscr_el1 c) (r_par_el1 c) (r_mpidr c) (r_cntfrq c) (r_cntp_ctl c) (r_cntp_cval c) (r_cntv_ctl c) (r_cntv_cval c) (r_cntkctl_el1 c).
Definition with_tpidr (v : list Z) (c : SysRegs) : SysRegs :=
  mkSysRegs (r_sctlr c) (r_ttbr0 c) (r_ttbr1 c) (r_tcr c) (r_mair c) (r_amair c) (r_vbar c) (r_esr c) (r_far c) (r_elr c) (r_spsr c) v (r_tpidrro_el0 c) (r_contextidr_el1 c) (r_cpacr_el1 c) (r_mdscr_el1 c) (r_par_el1 c) (r_mpidr c) (r_cntfrq c) (r_cntp_ctl c) (r_cntp_cval c) (r_cntv_ctl c) (r_cntv_cval c) (r_cntkctl_el1 c).
Definition with_tpidrro_el0 (v : Z) (c : SysRegs) : SysRegs :=
  mkSysRegs (r_sctlr c) (r_ttbr0 c) (r_ttbr1 c) (r_tcr c) (r_mair c) (r_amair c) (r_vbar c) (r_esr c) (r_far c) (r_elr c) (r_spsr c) (r_tpidr c) v (r_contextidr_el1 c) (r_cpacr_el1 c) (r_mdscr_el1 c) (r_par_el1 c) (r_mpidr c) (r_cntfrq c) (r_cntp_ctl c) (r_cntp_cval c) (r_cntv_ctl c) (r_cntv_cval c) (r_cntkctl_el1 c).
Definition with_contextidr_el1 (v : Z) (c : SysRegs) : SysRegs :=
  mkSysRegs (r_sctlr c) (r_ttbr0 c) (r_ttbr1 c) (r_tcr c) (r_mair c) (r_amair c) (r_vbar c) (r_esr c) (r_far c) (r_elr c) (r_spsr c) (r_tpidr c) (r_tpidrro_el0 c) v (r_cpacr_el1 c) (r_mdscr_el1 c) (r_par_el1 c) (r_mpidr c) (r_cntfrq c) (r_cntp_ctl c) (r_cntp_cval c) (r_cntv_ctl c) (r_cntv_cval c) (r_cntkctl_el1 c).
Definition with_cpacr_el1 (v : Z) (c : SysRegs) : SysRegs :=
  mkSysRegs (r_sctlr c) (r_ttbr0 c) (r_ttbr1 c) (r_tcr c) (r_mair c) (r_amair c) (r_vbar c) (r_esr c) (r_far c) (r_elr c) (r_spsr c) (r_tpidr c) (r_tpidrro_el0 c) (r_contextidr_el1 c) v (r_mdscr_el1 c) (r_par_el1 c) (r_mpidr c) (r_cntfrq c) (r_cntp_ctl c) (r_cntp_cval c) (r_cntv_ctl c) (r_cntv_cval c) (r_cntkctl_el1 c).
Definition with_mdscr_el1 (v : Z) (c : SysRegs) : SysRegs :=
  mkSysRegs (r_sctlr c) (r_ttbr0 c) (r_ttbr1 c) (r_tcr c) (r_mair c) (r_amair c) (r_vbar c) (r_esr c) (r_far c) (r_elr c) (r_spsr c) (r_tpidr c) (r_tpidrro_el0 c) (r_contextidr_el1 c) (r_cpacr_el1 c) v (r_par_el1 c) (r_mpidr c) (r_cntfrq c) (r_cntp_ctl c) (r_cntp_cval c) (r_cntv_ctl c) (r_cntv_cval c) (r_cntkctl_el1 c).
Definition with_par_el1 (v : Z) (c : SysRegs) : SysRegs :=
  mkSysRegs (r_sctlr c) (r_ttbr0 c) (r_ttbr1 c) (r_tcr c) (r_mair c) (r_amair c) (r_vbar c) (r_esr c) (r_far c) (r_elr c) (r_spsr c) (r_tpidr c) (r_tpidrro_el0 c) (r_contextidr_el1 c) (r_cpacr_el1 c) (r_mdscr_el1 c) v (r_mpidr c) (r_cntfrq c) (r_cntp_ctl c) (r_cntp_cval c) (r_cntv_ctl c) (r_cntv_cval c) (r_cntkctl_el1 c).
Definition with_mpidr (v : Z) (c : SysRegs) : SysRegs :=
  mkSysRegs (r_sctlr c) (r_ttbr0 c) (r_ttbr1 c) (r_tcr c) (r_mair c) (r_amair c) (r_vbar c) (r_esr c) (r_far c) (r_elr c) (r_spsr c) (r_tpidr c) (r_tpidrro_el0 c) (r_contextidr_el1 c) (r_cpacr_el1 c) (r_mdscr_el1 c) (r_par_el1 c) v (r_cntfrq c) (r_cntp_ctl c) (r_cntp_cval c) (r_cntv_ctl c) (r_cntv_cval c) (r_cntkctl_el1 c).
Definition with_cntfrq (v : Z) (c : SysRegs) : SysRegs :=
  mkSysRegs (r_sctlr c) (r_ttbr0 c) (r_ttbr1 c) (r_tcr c) (r_mair c) (r_amair c) (r_vbar c) (r_esr c) (r_far c) (r_elr c) (r_spsr c) (r_tpidr c) (r_tpidrro_el0 c) (r_contextidr_el1 c) (r_cpacr_el1 c) (r_mdscr_el1 c) (r_par_el1 c) (r_mpidr c) v (r_cntp_ctl c) (r_cntp_cval c) (r_cntv_ctl c) (r_cntv_cval c) (r_cntkctl_el1 c).
Definition with_cntp_ctl (v : Z) (c : SysRegs) : SysRegs :=
  mkSysRegs (r_sctlr c) (r_ttbr0 c) (r_ttbr1 c) (r_tcr c) (r_mair c) (r_amair c) (r_vbar c) (r_esr c) (r_far c) (r_elr c) (r_spsr c) (r_tpidr c) (r_tpidrro_el0 c) (r_contextidr_el1 c) (r_cpacr_el1 c) (r_mdscr_el1 c) (r_par_el1 c) (r_mpidr c) (r_cntfrq c) v (r_cntp_cval c) (r_cntv_ctl c) (r_cntv_cval c) (r_cntkctl_el1 c).
Definition with_cntp_cval (v : Z) (c : SysRegs) : SysRegs :=
  mkSysRegs (r_sctlr c) (r_ttbr0 c) (r_ttbr1 c) (r_tcr c) (r_mair c) (r_amair c) (r_vbar c) (r_esr c) (r_far c) (r_elr c) (r_spsr c) (r_tpidr c) (r_tpidrro_el0 c) (r_contextidr_el1 c) (r_cpacr_el1 c) (r_mdscr_el1 c) (r_par_el1 c) (r_mpidr c) (r_cntfrq c) (r_cntp_ctl c) v (r_cntv_ctl c) (r_cntv_cval c) (r_cntkctl_el1 c).
Definition with_cntv_ctl (v : Z) (c : SysRegs) : SysRegs :=
  mkSysRegs (r_sctlr c) (r_ttbr0 c) (r_ttbr1 c) (r_tcr c) (r_mair c) (r_amair c) (r_vbar c) (r_esr c) (r_far c) (r_elr c) (r_spsr c) (r_tpidr c) (r_tpidrro_el0 c) (r_contextidr_el1 c) (r_cpacr_el1 c) (r_mdscr_el1 c) (r_par_el1 c) (r_mpidr c) (r_cntfrq c) (r_cntp_ctl c) (r_cntp_cval c) v (r_cntv_cval c) (r_cntkctl_el1 c).
Definition with_cntv_cval (v : Z) (c : SysRegs) : SysRegs :=
  mkSysRegs (r_sctlr c) (r_ttbr0 c) (r_ttbr1 c) (r_tcr c) (r_mair c) (r_amair c) (r_vbar c) (r_esr c) (r_far c) (r_elr c) (r_spsr c) (r_tpidr c) (r_tpidrro_el0 c) (r_contextidr_el1 c) (r_cpacr_el1 c) (r_mdscr_el1 c) (r_par_el1 c) (r_mpidr c) (r_cntfrq c) (r_cntp_ctl c) (r_cntp_cval c) (r_cntv_ctl c) v (r_cntkctl_el1 c).
Definition with_cntkctl_el1 (v : Z) (c : SysRegs) : SysRegs :=
  mkSysRegs (r_sctlr c) (r_ttbr0 c) (r_ttbr1 c) (r_tcr c) (r_mair c) (r_amair c) (r_vbar c) (r_esr c) (r_far c) (r_elr c) (r_spsr c) (r_tpidr c) (r_tpidrro_el0 c) (r_contextidr_el1 c) (r_cpacr_el1 c) (r_mdscr_el1 c) (r_par_el1 c) (r_mpidr c) (r_cntfrq c) (r_cntp_ctl c) (r_cntp_cval c) (r_cntv_ctl c) (r_cntv_cval c) v.
Definition with_x (v : list Z) (c : CPU) : CPU :=
  mkCPU v (c_pc c) (c_nzcv c) (c_daif c) (c_el c) (c_sp_sel c) (c_sp_el c) (c_v c) (c_fpcr c) (c_fpsr c) (c_sys c) (c_excl_valid c) (c_excl_addr c) (c_excl_size c) (c_excl_val c) (c_excl_val2 c) (c_irq_line c) (c_fiq_line c) (c_halted c) (c_stop c) (c_icount c) (c_cur_insn_pc c).
Definition with_pc (v : Z) (c : CPU) : CPU :=
  mkCPU (c_x c) v (c_nzcv c) (c_daif c) (c_el c) (c_sp_sel c) (c_sp_el c) (c_v c) (c_fpcr c) (c_fpsr c) (c_sys c) (c_excl_valid c) (c_excl_addr c) (c_excl_size c) (c_excl_val c) (c_excl_val2 c) (c_irq_line c) (c_fiq_line c) (c_halted c) (c_stop c) (c_icount c) (c_cur_insn_pc c).
Definition with_nzcv (v : Z) (c : CPU) : CPU :=
  mkCPU (c_x c) (c_pc c) v (c_daif c) (c_el c) (c_sp_sel c) (c_sp_el c) (c_v c) (c_fpcr c) (c_fpsr c) (c_sys c) (c_excl_valid c) (c_excl_addr c) (c_excl_size c) (c_excl_val c) (c_excl_val2 c) (c_irq_line c) (c_fiq_line c) (c_halted c) (c_stop c) (c_icount c) (c_cur_insn_pc c).
Definition with_daif (v : Z) (c : CPU) : CPU :=
  mkCPU (c_x c) (c_pc c) (c_nzcv c) v (c_el c) (c_sp_sel c) (c_sp_el c) (c_v c) (c_fpcr c) (c_fpsr c) (c_sys c) (c_excl_valid c) (c_excl_addr c) (c_excl_size c) (c_excl_val c) (c_excl_val2 c) (c_irq_line c) (c_fiq_line c) (c_halted c) (c_stop c) (c_icount c) (c_cur_insn_pc c).
Definition with_el (v : Z) (c : CPU) : CPU :=
  mkCPU (c_x c) (c_pc c) (c_nzcv c) (c_daif c) v (c_sp_sel c) (c_sp_el c) (c_v c) (c_fpcr c) (c_fpsr c) (c_sys c) (c_excl_valid c) (c_excl_addr c) (c_excl_size c) (c_excl_val c) (c_excl_val2 c) (c_irq_line c) (c_fiq_line c) (c_halted c) (c_stop c) (c_icount c) (c_cur_insn_pc c).
Definition with_sp_sel (v : Z) (c : CPU) : CPU :=
  mkCPU (c_x c) (c_pc c) (c_nzcv c) (c_daif c) (c_el c) v (c_sp_el c) (c_v c) (c_fpcr c) (c_fpsr c) (c_sys c) (c_excl_valid c) (c_excl_addr c) (c_excl_size c) (c_excl_val c) (c_excl_val2 c) (c_irq_line c) (c_fiq_line c) (c_halted c) (c_stop c) (c_icount c) (c_cur_insn_pc c).
Definition with_sp_el (v : list Z) (c : CPU) : CPU :=
  mkCPU (c_x c) (c_pc c) (c_nzcv c) (c_daif c) (c_el c) (c_sp_sel c) v (c_v c) (c_fpcr c) (c_fpsr c) (c_sys c) (c_excl_valid c) (c_excl_addr c) (c_excl_size c) (c_excl_val c) (c_excl_val2 c) (c_irq_line c) (c_fiq_line c) (c_halted c) (c_stop c) (c_icount c) (c_cur_insn_pc c).
Definition with_v (v : list V128) (c : CPU) : CPU :=
  mkCPU (c_x c) (c_pc c) (c_nzcv c) (c_daif c) (c_el c) (c_sp_sel c) (c_sp_el c) v (c_fpcr c) (c_fpsr c) (c_sys c) (c_excl_valid c) (c_excl_addr c) (c_excl_size c) (c_excl_val c) (c_excl_val2 c) (c_irq_line c) (c_fiq_line c) (c_halted c) (c_stop c) (c_icount c) (c_cur_insn_pc c).
Definition with_fpcr (v : Z) (c : CPU) : CPU :=
  mkCPU (c_x c) (c_pc c) (c_nzcv c) (c_daif c) (c_el c) (c_sp_sel c) (c_sp_el c) (c_v c) v (c_fpsr c) (c_sys c) (c_excl_valid c) (c_excl_addr c) (c_excl_size c) (c_excl_val c) (c_excl_val2 c) (c_irq_line c) (c_fiq_line c) (c_halted c) (c_stop c) (c_icount c) (c_cur_insn_pc c).
Definition with_fpsr (v : Z) (c : CPU) : CPU :=
  mkCPU (c_x c) (c_pc c) (c_nzcv c) (c_daif c) (c_el c) (c_sp_sel c) (c_sp_el c) (c_v c) (c_fpcr c) v (c_sys c) (c_excl_valid c) (c_excl_addr c) (c_excl_size c) (c_excl_val c) (c_excl_val2 c) (c_irq_line c) (c_fiq_line c) (c_halted c) (c_stop c) (c_icount c) (c_cur_insn_pc c).
Definition with_sys (v : SysRegs) (c : CPU) : CPU :=
  mkCPU (c_x c) (c_pc c) (c_nzcv c) (c_daif c) (c_el c) (c_sp_sel c) (c_sp_el c) (c_v c) (c_fpcr c) (c_fpsr c) v (c_excl_valid c) (c_excl_addr c) (c_excl_size c) (c_excl_val c) (c_excl_val2 c) (c_irq_line c) (c_fiq_line c) (c_halted c) (c_stop c) (c_icount c) (c_cur_insn_pc c).
Definition with_excl_valid (v : bool) (c : CPU) : CPU :=
  mkCPU (c_x c) (c_pc c) (c_nzcv c) (c_daif c) (c_el c) (c_sp_sel c) (c_sp_el c) (c_v c) (c_fpcr c) (c_fpsr c) (c_sys c) v (c_excl_addr c) (c_excl_size c) (c_excl_val c) (c_excl_val2 c) (c_irq_line c) (c_fiq_line c) (c_halted c) (c_stop c) (c_icount c) (c_cur_insn_pc c).
Definition with_excl_addr (v : Z) (c : CPU) : CPU :=
  mkCPU (c_x c) (c_pc c) (c_nzcv c) (c_daif c) (c_el c) (c_sp_sel c) (c_sp_el c) (c_v c) (c_fpcr c) (c_fpsr c) (c_sys c) (c_excl_valid c) v (c_excl_size c) (c_excl_val c) (c_excl_val2 c) (c_irq_line c) (c_fiq_line c) (c_halted c) (c_stop c) (c_icount c) (c_cur_insn_pc c).
Definition with_excl_size (v : Z) (c : CPU) : CPU :=
  mkCPU (c_x c) (c_pc c) (c_nzcv c) (c_daif c) (c_el c) (c_sp_sel c) (c_sp_el c) (c_v c) (c_fpcr c) (c_fpsr c) (c_sys c) (c_excl_valid c) (c_excl_addr c) v (c_excl_val c) (c_excl_val2 c) (c_irq_line c) (c_fiq_line c) (c_halted c) (c_stop c) (c_icount c) (c_cur_insn_pc c).
Definition with_excl_val (v : Z) (c : CPU) : CPU :=
  mkCPU (c_x c) (c_pc c) (c_nzcv c) (c_daif c) (c_el c) (c_sp_sel c) (c_sp_el c) (c_v c) (c_fpcr c) (c_fpsr c) (c_sys c) (c_excl_valid c) (c_excl_addr c) (c_excl_size c) v (c_excl_val2 c) (c_irq_line c) (c_fiq_line c) (c_halted c) (c_stop c) (c_icount c) (c_cur_insn_pc c).
Definition with_excl_val2 (v : Z) (c : CPU) : CPU :=
  mkCPU (c_x c) (c_pc c) (c_nzcv c) (c_daif c) (c_el c) (c_sp_sel c) (c_sp_el c) (c_v c) (c_fpcr c) (c_fpsr c) (c_sys c) (c_excl_valid c) (c_excl_addr c) (c_excl_size c) (c_excl_val c) v (c_irq_line c) (c_fiq_line c) (c_halted c) (c_stop c) (c_icount c) (c_cur_insn_pc c).
Definition with_irq_line (v : bool) (c : CPU) : CPU :=
  mkCPU (c_x c) (c_pc c) (c_nzcv c) (c_daif c) (c_el c) (c_sp_sel c) (c_sp_el c) (c_v c) (c_fpcr c) (c_fpsr c) (c_sys c) (c_excl_valid c) (c_excl_addr c) (c_excl_size c) (c_excl_val c) (c_excl_val2 c) v (c_fiq_line c) (c_halted c) (c_stop c) (c_icount c) (c_cur_insn_pc c).
Definition with_fiq_line (v : bool) (c : CPU) : CPU :=
  mkCPU (c_x c) (c_pc c) (c_nzcv c) (c_daif c) (c_el c) (c_sp_sel c) (c_sp_el c) (c_v c) (c_fpcr c) (c_fpsr c) (c_sys c) (c_excl_valid c) (c_excl_addr c) (c_excl_size c) (c_excl_val c) (c_excl_val2 c) (c_irq_line c) v (c_halted c) (c_stop c) (c_icount c) (c_cur_insn_pc c).
Definition with_halted (v : bool) (c : CPU) : CPU :=
  mkCPU (c_x c) (c_pc c) (c_nzcv c) (c_daif c) (c_el c) (c_sp_sel c) (c_sp_el c) (c_v c) (c_fpcr c) (c_fpsr c) (c_sys c) (c_excl_valid c) (c_excl_addr c) (c_excl_size c) (c_excl_val c) (c_excl_val2 c) (c_irq_line c) (c_fiq_line c) v (c_stop c) (c_icount c) (c_cur_insn_pc c).
Definition with_stop (v : bool) (c : CPU) : CPU :=
  mkCPU (c_x c) (c_pc c) (c_nzcv c) (c_daif c) (c_el c) (c_sp_sel c) (c_sp_el c) (c_v c) (c_fpcr c) (c_fpsr c) (c_sys c) (c_excl_valid c) (c_excl_addr c) (c_excl_size c) (c_excl_val c) (c_excl_val2 c) (c_irq_line c) (c_fiq_line c) (c_halted c) v (c_icount c) (c_cur_insn_pc c).
Definition with_icount (v : Z) (c : CPU) : CPU :=
  mkCPU (c_x c) (c_pc c) (c_nzcv c) (c_daif c) (c_el c) (c_sp_sel c) (c_sp_el c) (c_v c) (c_fpcr c) (c_fpsr c) (c_sys c) (c_excl_valid c) (c_excl_addr c) (c_excl_size c) (c_excl_val c) (c_excl_val2 c) (c_irq_line c) (c_fiq_line c) (c_halted c) (c_stop c) v (c_cur_insn_pc c).
Definition with_cur_insn_pc (v : Z) (c : CPU) : CPU :=
  mkCPU (c_x c) (c_pc c) (c_nzcv c) (c_daif c) (c_el c) (c_sp_sel c) (c_sp_el c) (c_v c) (c_fpcr c) (c_fpsr c) (c_sys c) (c_excl_valid c) (c_excl_addr c) (c_excl_size c) (c_excl_val c) (c_excl_val2 c) (c_irq_line c) (c_fiq_line c) (c_halted c) (c_stop c) (c_icount c) v.
Definition with_pe_valid (v : bool) (c : Tls) : Tls :=
  mkTls v (pe_esr c) (pe_far c) (t_uaccess c) (t_tagged_addr_ctrl c) (t_nogrow c) (t_fpexc c) (t_fz c) (t_fz16 c).
Definition with_pe_esr (v : Z) (c : Tls) : Tls :=
  mkTls (pe_valid c) v (pe_far c) (t_uaccess c) (t_tagged_addr_ctrl c) (t_nogrow c) (t_fpexc c) (t_fz c) (t_fz16 c).
Definition with_pe_far (v : Z) (c : Tls) : Tls :=
  mkTls (pe_valid c) (pe_esr c) v (t_uaccess c) (t_tagged_addr_ctrl c) (t_nogrow c) (t_fpexc c) (t_fz c) (t_fz16 c).
Definition with_uaccess (v : bool) (c : Tls) : Tls :=
  mkTls (pe_valid c) (pe_esr c) (pe_far c) v (t_tagged_addr_ctrl c) (t_nogrow c) (t_fpexc c) (t_fz c) (t_fz16 c).
Definition with_tagged_addr_ctrl (v : Z) (c : Tls) : Tls :=
  mkTls (pe_valid c) (pe_esr c) (pe_far c) (t_uaccess c) v (t_nogrow c) (t_fpexc c) (t_fz c) (t_fz16 c).
Definition with_nogrow (v : bool) (c : Tls) : Tls :=
  mkTls (pe_valid c) (pe_esr c) (pe_far c) (t_uaccess c) (t_tagged_addr_ctrl c) v (t_fpexc c) (t_fz c) (t_fz16 c).
Definition with_fpexc (v : Z) (c : Tls) : Tls :=
  mkTls (pe_valid c) (pe_esr c) (pe_far c) (t_uaccess c) (t_tagged_addr_ctrl c) (t_nogrow c) v (t_fz c) (t_fz16 c).
Definition with_fz (v : bool) (c : Tls) : Tls :=
  mkTls (pe_valid c) (pe_esr c) (pe_far c) (t_uaccess c) (t_tagged_addr_ctrl c) (t_nogrow c) (t_fpexc c) v (t_fz16 c).
Definition with_fz16 (v : bool) (c : Tls) : Tls :=
  mkTls (pe_valid c) (pe_esr c) (pe_far c) (t_uaccess c) (t_tagged_addr_ctrl c) (t_nogrow c) (t_fpexc c) (t_fz c) v.

(** ** PSTATE bits *)
Definition PS_N : Z := Z.shiftl 1 31.
Definition PS_Z : Z := Z.shiftl 1 30.
Definition PS_C : Z := Z.shiftl 1 29.
Definition PS_V : Z := Z.shiftl 1 28.
Definition PS_D : Z := Z.shiftl 1 9.
Definition PS_A : Z := Z.shiftl 1 8.
Definition PS_I : Z := Z.shiftl 1 7.
Definition PS_F : Z := Z.shiftl 1 6.

(** [f & bit] as a C truth value. *)
Definition has (f bit : Z) : bool := negb (Z.land f bit =? 0).

(** The flag word built from four truth values, as the C code spells it:
    [(N ? PS_N : 0) | (Z ? PS_Z : 0) | (C ? PS_C : 0) | (V ? PS_V : 0)]. *)
Definition mk_nzcv (n z c v : bool) : Z :=
  Z.lor (Z.lor (Z.lor (if n then PS_N else 0) (if z then PS_Z else 0))
               (if c then PS_C else 0)) (if v then PS_V else 0).

(** [cond_holds]. *)
Definition cond_holds (nzcv cond : Z) : bool :=
  let N := has nzcv PS_N in let Z := has nzcv PS_Z in
  let C := has nzcv PS_C in let V := has nzcv PS_V in
  let r := match Z.shiftr cond 1 with
           | 0 => Z
           | 1 => C
           | 2 => N
           | 3 => V
           | 4 => C && negb Z
           | 5 => Bool.eqb N V
           | 6 => Bool.eqb N V && negb Z
           | _ => true
           end in
  if negb (Z.land cond 1 =? 0) && negb (cond =? 0xf) then negb r else r.

(** [cpu_pack_spsr], [cpu_unpack_spsr] (exception.c). *)
Definition cpu_pack_spsr (c : CPU) : Z :=
  let s := Z.land (c_nzcv c) (Z.lor (Z.lor (Z.lor PS_N PS_Z) PS_C) PS_V) in
  let s := Z.lor s (Z.land (c_daif c) (Z.lor (Z.lor (Z.lor PS_D PS_A) PS_I) PS_F)) in
  Z.lor s (Z.lor (u32 (Z.shiftl (c_el c) 2)) (if c_sp_sel c =? 0 then 0 else 1)).
Definition cpu_unpack_spsr (spsr : Z) (c : CPU) : CPU :=
  let c := with_nzcv (Z.land spsr (Z.lor (Z.lor (Z.lor PS_N PS_Z) PS_C) PS_V)) c in
  let c := with_daif (Z.land spsr (Z.lor (Z.lor (Z.lor PS_D PS_A) PS_I) PS_F)) c in
  let m := Z.land spsr 0xf in
  let c := with_el (Z.land (Z.shiftr m 2) 3) c in
  with_sp_sel (Z.land m 1) c.

Section Access.
Context {Mem : Type}.
Local Open Scope exec_scope.

Definition upd_cpu (f : CPU -> CPU) (s : St Mem) : St Mem :=
  mkSt (f (s_cpu s)) (s_tls s) (s_mem s).
Definition upd_tls (f : Tls -> Tls) (s : St Mem) : St Mem :=
  mkSt (s_cpu s) (f (s_tls s)) (s_mem s).
Definition upd_mem (f : Mem -> Mem) (s : St Mem) : St Mem :=
  mkSt (s_cpu s) (s_tls s) (f (s_mem s)).

(** A read of a CPU field, and an update of the CPU. *)
Definition getc {A} (f : CPU -> A) : M (St Mem) A := gets (fun s => f (s_cpu s)).
Definition putc (f : CPU -> CPU) : M (St Mem) unit := modify (upd_cpu f).

(** [reg_x], [set_x]: register 31 is XZR. An index past the array is outside
    C's rules. *)
Definition reg_x (n : Z) : M (St Mem) Z := fun s =>
  if n =? 31 then Ok 0 s
  else match c_x (s_cpu s) !! Z.to_nat n with
       | Some v => Ok v s
       | None => UB
       end.
Definition set_x (n v : Z) : M (St Mem) unit := fun s =>
  if n =? 31 then Ok tt s
  else if (Z.to_nat n <? length (c_x (s_cpu s)))%nat
       then Ok tt (upd_cpu (fun c => with_x (<[Z.to_nat n := v]> (c_x c)) c) s)
       else UB.

(** [cpu_cur_sp]: the index of the selected stack pointer in [sp_el]. *)
Definition cpu_cur_sp (c : CPU) : nat :=
  if c_sp_sel c =? 0 then 0%nat else Z.to_nat (c_el c).

(** [reg_xsp], [set_xsp]: register 31 is SP. *)
Definition reg_xsp (n : Z) : M (St Mem) Z := fun s =>
  if n =? 31 then match c_sp_el (s_cpu s) !! cpu_cur_sp (s_cpu s) with
                  | Some v => Ok v s
                  | None => UB
                  end
  else match c_x (s_cpu s) !! Z.to_nat n with
       | Some v => Ok v s
       | None => UB
       end.
Definition set_xsp (n v : Z) : M (St Mem) unit := fun s =>
  if n =? 31 then
    let i := cpu_cur_sp (s_cpu s) in
    if (i <? length (c_sp_el (s_cpu s)))%nat
    then Ok tt (upd_cpu (fun c => with_sp_el (<[i := v]> (c_sp_el c)) c) s)
    else UB
  else if (Z.to_nat n <? length (c_x (s_cpu s)))%nat
       then Ok tt (upd_cpu (fun c => with_x (<[Z.to_nat n := v]> (c_x c)) c) s)
       else UB.

Definition reg_x_sz (n : Z) (is64 : bool) : M (St Mem) Z :=
  v <- reg_x n; ret (if is64 then v else u32 v).
Definition set_x_sz (n : Z) (is64 : bool) (v : Z) : M (St Mem) unit :=
  set_x n (if is64 then v else u32 v).

(** [c->v[n]], read and written. *)
Definition reg_v (n : Z) : M (St Mem) V128 := fun s =>
  match c_v (s_cpu s) !! Z.to_nat n with
  | Some v => Ok v s
  | None => UB
  end.
Definition set_v (n : Z) (v : V128) : M (St Mem) unit := fun s =>
  if (Z.to_nat n <? length (c_v (s_cpu s)))%nat
  then Ok tt (upd_cpu (fun c => with_v (<[Z.to_nat n := v]> (c_v c)) c) s)
  else UB.

(** [exception_take]: record the exception; nothing vectors. The CPU resumes
    at [ret_addr] and loses its exclusive reservation. *)
Definition exception_take (esr far ret_addr : Z) (s : St Mem) : St Mem :=
  upd_cpu (fun c => with_excl_valid false (with_pc ret_addr c))
    (upd_tls (fun t => with_pe_far far (with_pe_esr esr (with_pe_valid true t))) s).
(** [cpu_raise_sync]: the return address is the faulting instruction. *)
Definition cpu_raise_sync (esr far : Z) (s : St Mem) : St Mem :=
  exception_take esr far (c_cur_insn_pc (s_cpu s)) s.
(** [undefined]: every caller returns straight after it. *)
Definition undefined {A} : M (St Mem) A := fault (cpu_raise_sync (esr_make EC_UNKNOWN 0) 0).

(** ** Well-formed states *)

(** Every array of the CPU has its declared length and every element its
    declared width. *)
Record cpu_wf (c : CPU) : Prop := {
  wf_x : length (c_x c) = 31%nat;
  wf_xs : Forall (fits 64) (c_x c);
  wf_pc : fits 64 (c_pc c);
  wf_cur : fits 64 (c_cur_insn_pc c);
  wf_nzcv : fits 32 (c_nzcv c);
  wf_daif : fits 32 (c_daif c);
  wf_el : 0 <= c_el c <= 3;
  wf_sp_sel : fits 8 (c_sp_sel c);
  wf_sp : length (c_sp_el c) = 4%nat;
  wf_sps : Forall (fits 64) (c_sp_el c);
  wf_v : length (c_v c) = 32%nat;
  wf_vs : Forall (fits 128) (c_v c);
  wf_bank : Forall (fun l => length l = 4%nat /\ Forall (fits 64) l)
    [r_sctlr (c_sys c); r_ttbr0 (c_sys c); r_ttbr1 (c_sys c); r_tcr (c_sys c);
     r_mair (c_sys c); r_amair (c_sys c); r_vbar (c_sys c); r_esr (c_sys c);
     r_far (c_sys c); r_elr (c_sys c); r_spsr (c_sys c); r_tpidr (c_sys c)];
  wf_single : Forall (fits 64)
    [r_tpidrro_el0 (c_sys c); r_contextidr_el1 (c_sys c); r_cpacr_el1 (c_sys c);
     r_mdscr_el1 (c_sys c); r_par_el1 (c_sys c); r_mpidr (c_sys c);
     r_cntfrq (c_sys c); r_cntp_ctl (c_sys c); r_cntp_cval (c_sys c);
     r_cntv_ctl (c_sys c); r_cntv_cval (c_sys c); r_cntkctl_el1 (c_sys c)];
  wf_fp : fits 32 (c_fpcr c) /\ fits 32 (c_fpsr c);
  wf_excl : fits 64 (c_excl_addr c) /\ fits 64 (c_excl_val c) /\ fits 64 (c_excl_val2 c)
}.

End Access.
