(* ===== verification/CpuWf.v ===== *)
(** * CpuWf: well-formed CPU states and the accessors on them

    On a well-formed CPU a register access of the decoder succeeds and gives
    a value of its width; the [safe] rules of the accessors, and the
    [safe_step] tactic that runs them through a handler. *)

From S2P Require Import Prelude Types Cpu.

Definition st_wf {Mem} (s : St Mem) : Prop := cpu_wf (s_cpu s).

(** Updates keep well-formedness when the new value has its width. *)
Ltac wf_upd := intros []; constructor; cbn -[Z.pow insert]; auto.

Section Updates.
Context (c : CPU).

Lemma wf_with_pc v : fits 64 v -> cpu_wf c -> cpu_wf (with_pc v c).
Proof. intros ?. wf_upd. Qed.
Lemma wf_with_cur v : fits 64 v -> cpu_wf c -> cpu_wf (with_cur_insn_pc v c).
Proof. intros ?. wf_upd. Qed.
Lemma wf_with_nzcv v : fits 32 v -> cpu_wf c -> cpu_wf (with_nzcv v c).
Proof. intros ?. wf_upd. Qed.
Lemma wf_with_daif v : fits 32 v -> cpu_wf c -> cpu_wf (with_daif v c).
Proof. intros ?. wf_upd. Qed.
Lemma wf_with_el v : 0 <= v <= 3 -> cpu_wf c -> cpu_wf (with_el v c).
Proof. intros ?. wf_upd. Qed.
Lemma wf_with_sp_sel v : cpu_wf c -> fits 8 v -> cpu_wf (with_sp_sel v c).
Proof. intros H ?. revert H. wf_upd. Qed.
Lemma wf_with_fpcr v : fits 32 v -> cpu_wf c -> cpu_wf (with_fpcr v c).
Proof. intros ?. wf_upd. naive_solver. Qed.
Lemma wf_with_fpsr v : fits 32 v -> cpu_wf c -> cpu_wf (with_fpsr v c).
Proof. intros ?. wf_upd. naive_solver. Qed.
Lemma wf_with_excl_valid v : cpu_wf c -> cpu_wf (with_excl_valid v c).
Proof. wf_upd. Qed.
Lemma wf_with_excl_size v : cpu_wf c -> cpu_wf (with_excl_size v c).
Proof. wf_upd. Qed.
Lemma wf_with_excl_addr v : fits 64 v -> cpu_wf c -> cpu_wf (with_excl_addr v c).
Proof. intros ?. wf_upd. naive_solver. Qed.
Lemma wf_with_excl_val v : fits 64 v -> cpu_wf c -> cpu_wf (with_excl_val v c).
Proof. intros ?. wf_upd. naive_solver. Qed.
Lemma wf_with_excl_val2 v : fits 64 v -> cpu_wf c -> cpu_wf (with_excl_val2 v c).
Proof. intros ?. wf_upd. naive_solver. Qed.
Lemma wf_with_stop v : cpu_wf c -> cpu_wf (with_stop v c).
Proof. wf_upd. Qed.
Lemma wf_with_halted v : cpu_wf c -> cpu_wf (with_halted v c).
Proof. wf_upd. Qed.
Lemma wf_with_icount v : cpu_wf c -> cpu_wf (with_icount v c).
Proof. wf_upd. Qed.
Lemma wf_with_x i v : fits 64 v -> cpu_wf c -> cpu_wf (with_x (<[i := v]> (c_x c)) c).
Proof. intros ?. wf_upd; [by rewrite length_insert|by apply Forall_insert]. Qed.
Lemma wf_with_sp_el i v : fits 64 v -> cpu_wf c -> cpu_wf (with_sp_el (<[i := v]> (c_sp_el c)) c).
Proof. intros ?. wf_upd; [by rewrite length_insert|by apply Forall_insert]. Qed.
Lemma wf_with_v i v : fits 128 v -> cpu_wf c -> cpu_wf (with_v (<[i := v]> (c_v c)) c).
Proof. intros ?. wf_upd; [by rewrite length_insert|by apply Forall_insert]. Qed.
Lemma wf_x_lookup n : cpu_wf c -> 0 <= n < 31 -> exists v, c_x c !! Z.to_nat n = Some v /\ fits 64 v.
Proof.
  intros [] Hn. destruct (lookup_lt_is_Some_2 (c_x c) (Z.to_nat n)) as [v Hv]; [lia|].
  exists v. split; [done|]. by eapply (Forall_lookup_1 _ (c_x c)).
Qed.
Lemma wf_v_lookup n : cpu_wf c -> 0 <= n < 32 -> exists v : V128, c_v c !! Z.to_nat n = Some v /\ fits 128 v.
Proof.
  intros [] Hn. destruct (lookup_lt_is_Some_2 (c_v c) (Z.to_nat n)) as [v Hv]; [lia|].
  exists v. split; [done|]. by eapply (Forall_lookup_1 _ (c_v c)).
Qed.
Lemma wf_cur_sp : cpu_wf c -> (cpu_cur_sp c < length (c_sp_el c))%nat.
Proof. intros []. unfold cpu_cur_sp. case_match; lia. Qed.
Lemma wf_sp_lookup : cpu_wf c -> exists v, c_sp_el c !! cpu_cur_sp c = Some v /\ fits 64 v.
Proof.
  intros Hc. destruct (lookup_lt_is_Some_2 (c_sp_el c) (cpu_cur_sp c)) as [v Hv];
    [by apply wf_cur_sp|].
  exists v. split; [done|]. destruct Hc. by eapply (Forall_lookup_1 _ (c_sp_el c)).
Qed.
End Updates.

(** ** Register values as functions *)
Section Values.
Context {Mem : Type}.
Implicit Types s : St Mem.

Definition xval s (n : Z) : Z :=
  if n =? 31 then 0 else default 0 (c_x (s_cpu s) !! Z.to_nat n).
Definition spval s (n : Z) : Z :=
  if n =? 31 then default 0 (c_sp_el (s_cpu s) !! cpu_cur_sp (s_cpu s))
  else default 0 (c_x (s_cpu s) !! Z.to_nat n).
Definition vval s (n : Z) : V128 := default (0 : V128) (c_v (s_cpu s) !! Z.to_nat n).

Lemma reg_x_ok s n : st_wf s -> 0 <= n < 32 -> reg_x n s = Ok (xval s n) s.
Proof.
  intros Hs Hn. unfold reg_x, xval. case_match; [done|].
  destruct (wf_x_lookup (s_cpu s) n Hs) as (v & -> & _); [lia|done].
Qed.
Lemma fits_xval s n : st_wf s -> 0 <= n < 32 -> fits 64 (xval s n).
Proof.
  intros Hs Hn. unfold xval. case_match; [auto with word|].
  destruct (wf_x_lookup (s_cpu s) n Hs) as (v & -> & ?); [lia|done].
Qed.
Lemma reg_xsp_ok s n : st_wf s -> 0 <= n < 32 -> reg_xsp n s = Ok (spval s n) s.
Proof.
  intros Hs Hn. unfold reg_xsp, spval. case_match.
  - by destruct (wf_sp_lookup (s_cpu s) Hs) as (v & -> & _).
  - destruct (wf_x_lookup (s_cpu s) n Hs) as (v & -> & _); [lia|done].
Qed.
Lemma fits_spval s n : st_wf s -> 0 <= n < 32 -> fits 64 (spval s n).
Proof.
  intros Hs Hn. unfold spval. case_match.
  - by destruct (wf_sp_lookup (s_cpu s) Hs) as (v & -> & ?).
  - destruct (wf_x_lookup (s_cpu s) n Hs) as (v & -> & ?); [lia|done].
Qed.
Lemma reg_v_ok s n : st_wf s -> 0 <= n < 32 -> reg_v n s = Ok (vval s n) s.
Proof.
  intros Hs Hn. unfold reg_v, vval.
  destruct (wf_v_lookup (s_cpu s) n Hs Hn) as (v & Hl & _). by rewrite Hl.
Qed.
Lemma fits_vval s n : st_wf s -> 0 <= n < 32 -> fits 128 (vval s n).
Proof.
  intros Hs Hn. unfold vval.
  destruct (wf_v_lookup (s_cpu s) n Hs Hn) as (v & -> & Hv). exact Hv.
Qed.

(** ** The [safe] rules of the accessors *)
Context (U : Prop).
Notation Safe := (safe U (st_wf (Mem:=Mem))).

Lemma safe_reg_x n : 0 <= n < 32 -> Safe (reg_x n) (fits 64).
Proof. intros Hn s Hs. rewrite reg_x_ok by done. split; [by apply fits_xval|done]. Qed.
Lemma safe_reg_xsp n : 0 <= n < 32 -> Safe (reg_xsp n) (fits 64).
Proof. intros Hn s Hs. rewrite reg_xsp_ok by done. split; [by apply fits_spval|done]. Qed.
Lemma safe_reg_x_sz n sf : 0 <= n < 32 -> Safe (reg_x_sz n sf) (fits 64).
Proof.
  intros Hn. eapply safe_bind; [by apply safe_reg_x|]. intros v Hv. apply safe_ret.
  destruct sf; [done|auto with word].
Qed.
Lemma safe_reg_v n : 0 <= n < 32 -> Safe (reg_v n) (fits 128).
Proof. intros Hn s Hs. rewrite reg_v_ok by done. split; [by apply fits_vval|done]. Qed.
Lemma safe_set_x n v : 0 <= n < 32 -> fits 64 v -> Safe (set_x n v) (fun _ => True).
Proof.
  intros Hn Hv s Hs. unfold set_x. destruct (n =? 31) eqn:E; [by split|].
  rewrite (proj2 (Nat.ltb_lt _ _)) by (destruct Hs; lia).
  split; [done|]. unfold st_wf. simpl. by apply wf_with_x.
Qed.
Lemma safe_set_x_sz n sf v : 0 <= n < 32 -> fits 64 v -> Safe (set_x_sz n sf v) (fun _ => True).
Proof. intros. apply safe_set_x; [done|]. destruct sf; auto with word. Qed.
Lemma safe_set_xsp n v : 0 <= n < 32 -> fits 64 v -> Safe (set_xsp n v) (fun _ => True).
Proof.
  intros Hn Hv s Hs. unfold set_xsp. destruct (n =? 31) eqn:E.
  - rewrite (proj2 (Nat.ltb_lt _ _)) by by apply wf_cur_sp.
    split; [done|]. unfold st_wf. simpl. by apply wf_with_sp_el.
  - rewrite (proj2 (Nat.ltb_lt _ _)) by (destruct Hs; lia).
    split; [done|]. unfold st_wf. simpl. by apply wf_with_x.
Qed.
Lemma safe_set_v n v : 0 <= n < 32 -> fits 128 v -> Safe (set_v n v) (fun _ => True).
Proof.
  intros Hn Hv s Hs. unfold set_v. rewrite (proj2 (Nat.ltb_lt _ _)) by (destruct Hs; lia).
  split; [done|]. unfold st_wf. simpl. by apply wf_with_v.
Qed.
Lemma safe_getc {A} (f : CPU -> A) (Q : A -> Prop) :
  (forall c, cpu_wf c -> Q (f c)) -> Safe (getc f) Q.
Proof. intros H. apply safe_gets. intros s. apply H. Qed.
Lemma safe_putc (f : CPU -> CPU) :
  (forall c, cpu_wf c -> cpu_wf (f c)) -> Safe (putc f) (fun _ => True).
Proof. intros H. apply safe_modify; [done|]. intros s. apply H. Qed.

Lemma st_wf_exception_take esr far ret_addr s :
  fits 64 ret_addr -> st_wf s -> st_wf (exception_take esr far ret_addr s).
Proof. intros. apply wf_with_excl_valid, wf_with_pc; done. Qed.
Lemma st_wf_raise esr far s : st_wf s -> st_wf (cpu_raise_sync esr far s).
Proof. intros Hs. apply st_wf_exception_take; [apply Hs|done]. Qed.
Lemma safe_raise {A} esr far (Q : A -> Prop) : Safe (fault (cpu_raise_sync esr far)) Q.
Proof. apply safe_fault. intros s. apply st_wf_raise. Qed.
Lemma safe_undefined {A} (Q : A -> Prop) : Safe undefined Q.
Proof. apply safe_raise. Qed.
Lemma safe_upd_mem (f : Mem -> Mem) : Safe (modify (upd_mem f)) (fun _ => True).
Proof. apply safe_modify; done. Qed.
End Values.

(** ** Condition flags *)
Lemma fits_mk_nzcv n z c v : fits 32 (mk_nzcv n z c v).
Proof. destruct n, z, c, v; vm_compute; split; congruence. Qed.
Lemma has_mk_nzcv n z c v :
  has (mk_nzcv n z c v) PS_N = n /\ has (mk_nzcv n z c v) PS_Z = z /\
  has (mk_nzcv n z c v) PS_C = c /\ has (mk_nzcv n z c v) PS_V = v.
Proof. by destruct n, z, c, v. Qed.
Lemma fits_PS b : In b [PS_N; PS_Z; PS_C; PS_V; PS_D; PS_A; PS_I; PS_F] -> fits 32 b.
Proof. intros H. repeat (destruct H as [<-|H]; [vm_compute; split; congruence|]). done. Qed.

(** ** Automation *)
Create HintDb safe discriminated.
#[export] Hint Constants Opaque : safe.
#[export] Hint Resolve fits_mk_nzcv fits_xval fits_spval fits_vval : word.
#[export] Hint Extern 1 (fits 32 (if _ then PS_N else 0)) => (case_match; vm_compute; split; congruence) : word.

(** A field of the instruction word as a register number or a small value. *)
Ltac field :=
  match goal with
  | |- context [BITS ?i ?hi ?lo] =>
      let v := eval vm_compute in (2 ^ (hi - lo + 1)) in
      pose proof (BITS_range i hi lo v ltac:(lia) eq_refl);
      generalize dependent (BITS i hi lo); intros
  | |- context [BIT ?i ?k] => pose proof (BIT_range i k); generalize dependent (BIT i k); intros
  end.
Ltac reg_range := solve [ lia | (apply BITS_range; [lia|reflexivity]) | repeat field; lia ].

#[export] Hint Extern 1 (0 <= BITS _ _ _ < 32) => (apply BITS_range; [lia|reflexivity]) : safe.
#[export] Hint Extern 5 (0 <= _ < 32) => reg_range : safe.
#[export] Hint Resolve safe_undefined safe_raise safe_upd_mem : safe.
#[export] Hint Extern 2 (cpu_wf (with_pc _ _)) => (apply wf_with_pc) : safe.
#[export] Hint Extern 2 (cpu_wf (with_cur_insn_pc _ _)) => (apply wf_with_cur) : safe.
#[export] Hint Extern 2 (cpu_wf (with_nzcv _ _)) => (apply wf_with_nzcv) : safe.
#[export] Hint Extern 2 (cpu_wf (with_daif _ _)) => (apply wf_with_daif) : safe.
#[export] Hint Extern 2 (cpu_wf (with_fpcr _ _)) => (apply wf_with_fpcr) : safe.
#[export] Hint Extern 2 (cpu_wf (with_fpsr _ _)) => (apply wf_with_fpsr) : safe.
#[export] Hint Extern 2 (cpu_wf (with_excl_valid _ _)) => (apply wf_with_excl_valid) : safe.
#[export] Hint Extern 2 (cpu_wf (with_excl_size _ _)) => (apply wf_with_excl_size) : safe.
#[export] Hint Extern 2 (cpu_wf (with_excl_addr _ _)) => (apply wf_with_excl_addr) : safe.
#[export] Hint Extern 2 (cpu_wf (with_excl_val _ _)) => (apply wf_with_excl_val) : safe.
#[export] Hint Extern 2 (cpu_wf (with_excl_val2 _ _)) => (apply wf_with_excl_val2) : safe.
#[export] Hint Extern 2 (cpu_wf (with_stop _ _)) => (apply wf_with_stop) : safe.
#[export] Hint Extern 2 (cpu_wf (with_halted _ _)) => (apply wf_with_halted) : safe.
#[export] Hint Extern 2 (cpu_wf (with_icount _ _)) => (apply wf_with_icount) : safe.
#[export] Hint Resolve wf_pc wf_cur wf_nzcv wf_daif : word safe.

(** One step of a [safe] proof: the rule of the handler's head. A value read
    is introduced with what its accessor promises. *)
Ltac safe_leaf :=
  lazymatch goal with
  | |- safe _ _ undefined _ => apply safe_undefined
  | |- safe _ _ (fault (cpu_raise_sync _ _)) _ => apply safe_raise
  | |- safe _ _ (modify (upd_mem _)) _ => apply safe_upd_mem
  | |- safe _ _ (reg_x_sz _ _) _ => apply safe_reg_x_sz; solve [eauto with safe]
  | |- safe _ _ (reg_x _) _ => apply safe_reg_x; solve [eauto with safe]
  | |- safe _ _ (reg_xsp _) _ => apply safe_reg_xsp; solve [eauto with safe]
  | |- safe _ _ (reg_v _) _ => apply safe_reg_v; solve [eauto with safe]
  | |- safe _ _ (set_x_sz _ _ _) _ =>
      apply safe_set_x_sz; [solve [eauto with safe]|try solve [auto with word]]
  | |- safe _ _ (set_x _ _) _ =>
      apply safe_set_x; [solve [eauto with safe]|try solve [auto with word]]
  | |- safe _ _ (set_xsp _ _) _ =>
      apply safe_set_xsp; [solve [eauto with safe]|try solve [auto with word]]
  | |- safe _ _ (set_v _ _) _ =>
      apply safe_set_v; [solve [eauto with safe]|try solve [auto with word]]
  | |- safe _ _ (getc c_cur_insn_pc) _ =>
      apply (safe_getc _ c_cur_insn_pc (fits 64)); intros; by apply wf_cur
  | |- safe _ _ (getc c_pc) _ => apply (safe_getc _ c_pc (fits 64)); intros; by apply wf_pc
  | |- safe _ _ (getc c_nzcv) _ => apply (safe_getc _ c_nzcv (fits 32)); intros; by apply wf_nzcv
  | |- safe _ _ (getc c_daif) _ => apply (safe_getc _ c_daif (fits 32)); intros; by apply wf_daif
  | |- safe _ _ (getc c_el) _ =>
      apply (safe_getc _ c_el (fun v => 0 <= v <= 3)); intros; by apply wf_el
  | |- safe _ _ (getc _) _ => apply (safe_getc _ _ (fun _ => True)); done
  | |- safe _ _ (putc _) _ => apply safe_putc; intros ? ?; cbv beta; eauto with safe word
  | |- _ => solve [eauto with safe]
  end.
Ltac safe_step :=
  cbv zeta;
  lazymatch goal with
  | |- safe _ _ (bind (if ?b then _ else _) _) _ =>
      let E := fresh "E" in destruct b eqn:E
  | |- safe _ _ (bind (ret ?a) _) _ =>
      apply (safe_bind _ _ _ _ (eq a)); [by apply safe_ret|intros ? <-; cbv beta]
  | |- safe _ _ (bind (bind _ _) _) _ => rewrite safe_assoc
  | |- safe _ _ (bind _ _) _ => eapply safe_bind; [safe_leaf | intros ? ?; cbv beta]
  | |- safe _ _ (ret _) _ => apply safe_ret; cbv beta; eauto with word
  | |- safe _ _ (if ?b then _ else _) _ =>
      let E := fresh "E" in destruct b eqn:E
  | |- safe _ _ (match ?x with _ => _ end) _ =>
      let E := fresh "E" in destruct x eqn:E
  | |- safe _ _ _ _ => (safe_leaf || (eapply safe_weaken; [safe_leaf|by intros]))
  end.
(** The branches of a dispatcher. *)
Ltac safe_cases :=
  cbv zeta; repeat match goal with |- safe _ _ (if ?b then _ else _) _ => destruct b end.
