(* ===== verification/MemSeam.v ===== *)
(** * MemSeam: the guest-memory seam of mmu.h

    The core reaches guest memory only through [translate] (mem.c) and the
    typed accessors built on it. [MemSeam] is what an address space offers
    the core: a translation of a guest address to a host byte address, the
    host bytes, the fetch cache. [MemSeamOk] is what the core relies on;
    FlatMem.v has an instance. The accessors [mem_read] ... [mem_host_ptr] are
    those of mem.c over any such memory. *)

From S2P Require Import Prelude Types Cpu CpuWf.

Definition GUEST_PAGE_SIZE : Z := 4096.
Definition GUEST_PAGE_MASK : Z := GUEST_PAGE_SIZE - 1.
Definition GUEST_TASK_SIZE : Z := Z.shiftl 1 47.
Definition A64_TBI_MASK : Z := 0x00ffffffffffffff.
Definition PTE_R : Z := 1.
Definition PTE_W : Z := 2.
Definition PTE_X : Z := 4.
Definition PTE_FLAGS : Z := 7.

Inductive AccType := ACC_READ | ACC_WRITE | ACC_EXEC.

(** What the core sees of an address space. [translate nogrow va need m]
    gives the host address of [va]'s byte if the access [need] may touch it,
    and whether a refusal was one of permission; it may change the address
    space on the way (fill a page, grow a stack, refill the TLB). The fetch
    cache is (page, host address), [None] when empty. *)
Class MemSeam (Mem : Type) := {
  translate : bool -> Z -> Z -> Mem -> (option Z * bool) * Mem;
  va_is_file_hole : Z -> Mem -> bool;
  host_get : Z -> Mem -> Z;
  host_put : Z -> Z -> Mem -> Mem;
  fcache : Mem -> option (Z * Z);
  set_fcache : option (Z * Z) -> Mem -> Mem;
  tlb_flush_all : Mem -> Mem
}.

Section Accessors.
Context {Mem : Type} `{MemSeam Mem}.
Local Open Scope exec_scope.

(** [memcpy] out of and into host memory, little-endian ([ld_le], [st_le]). *)
Fixpoint host_load (n : nat) (p : Z) (m : Mem) : Z :=
  match n with
  | O => 0
  | S k => Z.lor (u8 (host_get p m)) (Z.shiftl (host_load k (p + 1) m) 8)
  end.
Fixpoint host_store (n : nat) (p v : Z) (m : Mem) : Mem :=
  match n with
  | O => m
  | S k => host_store k (p + 1) (Z.shiftr v 8) (host_put p (u8 v) m)
  end.

(** [ld_le] copies into a [u64]: a larger size would overrun it. *)
Definition ld_le (p size : Z) : M (St Mem) Z := fun s =>
  if size <=? 8 then Ok (host_load (Z.to_nat size) p (s_mem s)) s else UB.
(** [st_le] copies out of a [u64]. *)
Definition st_le (p size v : Z) : M (St Mem) unit := fun s =>
  if size <=? 8 then Ok tt (upd_mem (host_store (Z.to_nat size) p v) s) else UB.

(** [translate] on the state, with the thread's [nogrow]. *)
Definition translateM (va need : Z) : M (St Mem) (option Z * bool) := fun s =>
  let '(r, m') := translate (t_nogrow (s_tls s)) va need (s_mem s) in
  Ok r (upd_mem (fun _ => m') s).

(** [raise_dabort]. *)
Definition raise_dabort {A} (va : Z) (write perm : bool) : M (St Mem) A := fun s =>
  let fsc := if perm then FSC_PERM_L3
             else if va_is_file_hole va (s_mem s) then FSC_EXTERNAL else FSC_TRANS_L3 in
  Fault (cpu_raise_sync (esr_make EC_DABORT_LOWER (iss_dabort write fsc)) va s).

(** Does [va, va+size) leave its page? *)
Definition crosses (va size : Z) : bool :=
  GUEST_PAGE_SIZE <? Z.land va GUEST_PAGE_MASK + size.

(** The one-page body of [mem_read] and [mem_write]. *)
Definition mem_read_page (va size : Z) : M (St Mem) Z :=
  r <- translateM va PTE_R;
  match r with
  | (Some p, _) => ld_le p size
  | (None, perm) => raise_dabort va false perm
  end.
Definition mem_write_page (va size v : Z) : M (St Mem) unit :=
  r <- translateM va PTE_W;
  match r with
  | (Some p, _) => st_le p size v
  | (None, perm) => raise_dabort va true perm
  end.

(** [mem_read]: an access that crosses a page is two accesses of one page
    each. The recursion of the source is one level deep, because the parts of
    a split access never split again. *)
Definition mem_read (va size : Z) : M (St Mem) Z :=
  if crosses va size then
    let first := GUEST_PAGE_SIZE - Z.land va GUEST_PAGE_MASK in
    lo <- mem_read_page va first;
    hi <- mem_read_page (u64 (va + first)) (size - first);
    ret (Z.lor lo (u64 (Z.shiftl hi (8 * first))))
  else mem_read_page va size.

Definition mem_write (va size v : Z) : M (St Mem) unit :=
  if crosses va size then
    let first := GUEST_PAGE_SIZE - Z.land va GUEST_PAGE_MASK in
    mem_write_page va first v ;;
    mem_write_page (u64 (va + first)) (size - first) (Z.shiftr v (8 * first))
  else mem_write_page va size v.

Definition mem_read128 (va : Z) : M (St Mem) V128 :=
  if crosses va 16 then
    d0 <- mem_read va 8;
    d1 <- mem_read (u64 (va + 8)) 8;
    ret (v_mk d0 d1)
  else
    r <- translateM va PTE_R;
    match r with
    | (Some p, _) => gets (fun s => host_load 16 p (s_mem s))
    | (None, perm) => raise_dabort va false perm
    end.

Definition mem_write128 (va : Z) (v : V128) : M (St Mem) unit :=
  if crosses va 16 then
    mem_write va 8 (v_d0 v) ;;
    mem_write (u64 (va + 8)) 8 (v_d1 v)
  else
    r <- translateM va PTE_W;
    match r with
    | (Some p, _) => modify (upd_mem (host_store 16 p v))
    | (None, perm) => raise_dabort va true perm
    end.

(** [mem_peek]: a look that raises nothing and grows no stack; [None] is the
    [false] of the source. *)
Definition mem_peek_page (va size : Z) : M (St Mem) (option Z) :=
  saved <- gets (fun s => t_nogrow (s_tls s));
  modify (upd_tls (with_nogrow true)) ;;
  r <- translateM va PTE_R;
  modify (upd_tls (with_nogrow saved)) ;;
  match r with
  | (Some p, _) => v <- ld_le p size; ret (Some v)
  | (None, _) => ret None
  end.
Definition mem_peek (va size : Z) : M (St Mem) (option Z) :=
  if crosses va size then
    let first := GUEST_PAGE_SIZE - Z.land va GUEST_PAGE_MASK in
    lo <- mem_peek_page va first;
    match lo with
    | None => ret None
    | Some lo =>
        hi <- mem_peek_page (u64 (va + first)) (size - first);
        match hi with
        | None => ret None
        | Some hi => ret (Some (Z.lor lo (u64 (Z.shiftl hi (8 * first)))))
        end
    end
  else mem_peek_page va size.

(** [mem_ifetch_slow] and the inlined fast path of mmu.h. *)
Definition IFETCH_KEY (va : Z) : Z := Z.land va (not64 0xffc).

Definition mem_ifetch_slow (va : Z) : M (St Mem) Z :=
  if negb (Z.land va 3 =? 0) then
    fault (cpu_raise_sync (esr_make EC_PC_ALIGN 0) va)
  else
    r <- translateM va PTE_X;
    match r with
    | (Some p, _) =>
        modify (upd_mem (set_fcache
          (Some (Z.land va (not64 0xfff), p - Z.land va GUEST_PAGE_MASK)))) ;;
        gets (fun s => host_load 4 p (s_mem s))
    | (None, perm) => fun s =>
        let fsc := if perm then FSC_PERM_L3
                   else if va_is_file_hole va (s_mem s) then FSC_EXTERNAL
                        else FSC_TRANS_L3 in
        Fault (cpu_raise_sync (esr_make EC_IABORT_LOWER fsc) va s)
    end.

Definition mem_ifetch (va : Z) : M (St Mem) Z := fun s =>
  match fcache (s_mem s) with
  | Some (page, host) =>
      if IFETCH_KEY va =? page
      then Ok (host_load 4 (host + Z.land va 0xfff) (s_mem s)) s
      else mem_ifetch_slow va s
  | None => mem_ifetch_slow va s
  end.

(** [uaddr_tag_refused], [mem_host_ptr]. *)
Definition uaddr_tag_refused (va : Z) (t : Tls) : bool :=
  negb (Z.shiftr va 56 =? 0) && t_uaccess t && negb (has (t_tagged_addr_ctrl t) 1).
Definition acc_need (acc : AccType) : Z :=
  match acc with ACC_WRITE => PTE_W | ACC_EXEC => PTE_X | ACC_READ => PTE_R end.

Definition mem_host_ptr (va size : Z) (acc : AccType) : M (St Mem) (option Z) := fun s =>
  if crosses va size then Ok None s
  else if uaddr_tag_refused va (s_tls s) then Ok None s
  else (r <- translateM va (acc_need acc); ret (fst r)) s.

End Accessors.

(** What the core relies on: a page once translated stays translated, with
    the same layout and no further effect; its backing is the same whatever
    the kind of access; and the host bytes are a memory that translation
    neither reads nor writes. *)
Class MemSeamOk (Mem : Type) `{MemSeam Mem} := {
  translate_again g va va' need m p b m' :
    translate g va need m = ((Some p, b), m') ->
    Z.shiftr va 12 = Z.shiftr va' 12 ->
    translate g va' need m' = ((Some (p + (va' - va)), false), m');
  translate_put g va need q b m :
    translate g va need (host_put q b m) =
    (fst (translate g va need m), host_put q b (snd (translate g va need m)));
  translate_host g g' va va' need need' m p b m' q b' m'' :
    translate g va need m = ((Some p, b), m') ->
    Z.shiftr va 12 = Z.shiftr va' 12 ->
    translate g' va' need' m' = ((Some q, b'), m'') ->
    q = p + (va' - va);
  translate_get g va need q m : host_get q (snd (translate g va need m)) = host_get q m;
  host_get_put_eq q b m : fits 8 b -> host_get q (host_put q b m) = b;
  host_get_put_ne q q' b m : q <> q' -> host_get q' (host_put q b m) = host_get q' m
}.

Section Lemmas.
Context {Mem : Type} `{MemSeam Mem}.

Lemma fits_host_load n p m : fits (8 * Z.of_nat n) (host_load n p m).
Proof.
  revert p. induction n as [|n IH]; intros p; simpl; [by apply fits_0|].
  apply fits_lor; [lia|eapply fits_weaken; [apply fits_u8|lia]|].
  specialize (IH (p + 1)). unfold fits in *. rewrite Z.shiftl_mul_pow2 by lia.
  replace (8 * Z.of_nat (S n)) with (8 * Z.of_nat n + 8) by lia.
  rewrite Z.pow_add_r by lia. nia.
Qed.

Lemma host_load_app n k p m :
  host_load (n + k) p m =
  Z.lor (host_load n p m) (Z.shiftl (host_load k (p + Z.of_nat n) m) (8 * Z.of_nat n)).
Proof.
  revert p. induction n as [|n IH]; intros p; simpl.
  - by rewrite Z.add_0_r, Z.shiftl_0_r.
  - rewrite IH. rewrite Z.shiftl_lor, Z.lor_assoc. f_equal.
    rewrite Z.shiftl_shiftl by lia. f_equal; [f_equal; lia|lia].
Qed.

Lemma host_store_app n k p v m :
  host_store (n + k) p v m =
  host_store k (p + Z.of_nat n) (Z.shiftr v (8 * Z.of_nat n)) (host_store n p v m).
Proof.
  revert p v m. induction n as [|n IH]; intros p v m; simpl.
  - by rewrite Z.add_0_r, Z.shiftr_0_r.
  - rewrite IH. f_equal; [lia|]. rewrite Z.shiftr_shiftr by lia. f_equal. lia.
Qed.

Lemma host_store_mod n p v v' m :
  v mod 2 ^ (8 * Z.of_nat n) = v' mod 2 ^ (8 * Z.of_nat n) ->
  host_store n p v m = host_store n p v' m.
Proof.
  revert p v v' m. induction n as [|n IH]; intros p v v' m E; [done|]. simpl.
  assert (Hb : forall i, i < 8 * Z.of_nat (S n) -> Z.testbit v i = Z.testbit v' i).
  { intros i Hi. rewrite <- (Z.mod_pow2_bits_low v (8 * Z.of_nat (S n))),
      <- (Z.mod_pow2_bits_low v' (8 * Z.of_nat (S n))) by lia. by rewrite E. }
  assert (u8 v = u8 v') as ->.
  { unfold u8. apply Z.bits_inj'. intros i Hi. destruct (Z.lt_ge_cases i 8).
    - rewrite !Z.mod_pow2_bits_low by lia. apply Hb. lia.
    - by rewrite !Z.mod_pow2_bits_high by lia. }
  apply IH. apply Z.bits_inj'. intros i Hi. destruct (Z.lt_ge_cases i (8 * Z.of_nat n)).
  - rewrite !Z.mod_pow2_bits_low, !Z.shiftr_spec by lia. apply Hb. lia.
  - by rewrite !Z.mod_pow2_bits_high by lia.
Qed.
End Lemmas.

(** ** Safety of the accessors *)
Section Safe.
Context {Mem : Type} `{MemSeam Mem} (U : Prop).
Notation Safe := (safe U (st_wf (Mem:=Mem))).

Lemma fits_shiftl w k v : 0 <= w -> 0 <= k -> fits w v -> fits (w + k) (Z.shiftl v k).
Proof.
  unfold fits. intros. rewrite Z.shiftl_mul_pow2, Z.pow_add_r by lia.
  assert (0 < 2 ^ k) by (apply Z.pow_pos_nonneg; lia). nia.
Qed.
Lemma page_offset va : 0 <= Z.land va GUEST_PAGE_MASK < GUEST_PAGE_SIZE.
Proof.
  change GUEST_PAGE_MASK with (Z.ones 12). rewrite Z.land_ones by lia.
  by apply Z.mod_pos_bound.
Qed.

Lemma safe_translateM va need : Safe (translateM va need) (fun _ => True).
Proof. intros s Hs. unfold translateM. by destruct (translate _ _ _ _). Qed.
Lemma safe_raise_dabort {A} va w p (Q : A -> Prop) : Safe (raise_dabort va w p) Q.
Proof. intros s Hs. by apply st_wf_raise. Qed.
Lemma safe_ld_le p size : 0 <= size <= 8 -> Safe (ld_le p size) (fits (8 * size)).
Proof.
  intros Hz s Hs. unfold ld_le. rewrite (proj2 (Z.leb_le _ _)) by lia. split; [|done].
  pose proof (fits_host_load (Z.to_nat size) p (s_mem s)) as H1. by rewrite Z2Nat.id in H1 by lia.
Qed.
Lemma safe_st_le p size v : size <= 8 -> Safe (st_le p size v) (fun _ => True).
Proof. intros Hz s Hs. unfold st_le. by rewrite (proj2 (Z.leb_le _ _)) by lia. Qed.

Lemma safe_mem_read_page va size : 0 <= size <= 8 ->
  Safe (mem_read_page va size) (fits (8 * size)).
Proof.
  intros. eapply safe_bind; [apply safe_translateM|]. intros [[p|] b] _;
    [by apply safe_ld_le|apply safe_raise_dabort].
Qed.
Lemma safe_mem_write_page va size v : size <= 8 ->
  Safe (mem_write_page va size v) (fun _ => True).
Proof.
  intros. eapply safe_bind; [apply safe_translateM|]. intros [[p|] b] _;
    [by apply safe_st_le|apply safe_raise_dabort].
Qed.

Lemma safe_mem_read va size : 0 <= size <= 8 -> Safe (mem_read va size) (fits (8 * size)).
Proof.
  intros Hz. unfold mem_read, crosses. pose proof (page_offset va) as Ho.
  set (o := Z.land va GUEST_PAGE_MASK) in *. unfold GUEST_PAGE_SIZE in *.
  apply safe_if; intros E; [|by apply safe_mem_read_page].
  eapply safe_bind; [apply safe_mem_read_page; lia|]. intros lo Hlo.
  eapply safe_bind; [apply safe_mem_read_page; lia|]. intros hi Hhi.
  apply safe_ret. apply fits_lor; [lia|eapply fits_weaken; [done|lia]|].
  apply (fits_shiftl _ (8 * (4096 - o))) in Hhi; [|lia..].
  replace (8 * (size - (4096 - o)) + 8 * (4096 - o)) with (8 * size) in Hhi by lia.
  rewrite u64_small; [done|]. eapply fits_weaken; [done|lia].
Qed.
Lemma safe_mem_write va size v : size <= 8 -> Safe (mem_write va size v) (fun _ => True).
Proof.
  intros Hz. unfold mem_write, crosses. pose proof (page_offset va) as Ho.
  set (o := Z.land va GUEST_PAGE_MASK) in *. unfold GUEST_PAGE_SIZE in *.
  apply safe_if; intros E; [|by apply safe_mem_write_page].
  eapply safe_bind; [apply safe_mem_write_page; lia|]. intros [] _.
  apply safe_mem_write_page; lia.
Qed.
Lemma fits_v_mk a b : fits 128 (v_mk a b).
Proof.
  apply fits_lor; [lia|eapply fits_weaken; [apply fits_u64|lia]|].
  apply (fits_shiftl 64 64); [lia..|apply fits_u64].
Qed.
Lemma fits_v_d0 v : fits 64 (v_d0 v). Proof. apply fits_u64. Qed.
Lemma fits_v_d1 v : fits 64 (v_d1 v). Proof. apply fits_u64. Qed.
Lemma safe_mem_read128 va : Safe (mem_read128 va) (fits 128).
Proof.
  unfold mem_read128. apply safe_if; intros E.
  - eapply safe_bind; [apply safe_mem_read; lia|]. intros d0 _.
    eapply safe_bind; [apply safe_mem_read; lia|]. intros d1 _.
    apply safe_ret, fits_v_mk.
  - eapply safe_bind; [apply safe_translateM|]. intros [[p|] b] _;
      [|apply safe_raise_dabort].
    apply safe_gets. intros s _. apply (fits_host_load 16).
Qed.
Lemma safe_mem_write128 va v : Safe (mem_write128 va v) (fun _ => True).
Proof.
  unfold mem_write128. apply safe_if; intros E.
  - eapply safe_bind; [apply safe_mem_write; lia|]. intros [] _. apply safe_mem_write; lia.
  - eapply safe_bind; [apply safe_translateM|]. intros [[p|] b] _;
      [apply safe_upd_mem|apply safe_raise_dabort].
Qed.
Lemma safe_mem_host_ptr va size acc : Safe (mem_host_ptr va size acc) (fun _ => True).
Proof.
  intros s Hs. unfold mem_host_ptr. destruct (crosses va size); [by split|].
  destruct (uaddr_tag_refused va (s_tls s)); [by split|].
  unfold translateM, bind. by destruct (translate _ _ _ _) as [[[p|] b] m].
Qed.
Lemma safe_mem_ifetch_slow va : Safe (mem_ifetch_slow va) (fits 32).
Proof.
  unfold mem_ifetch_slow. apply safe_if; intros E; [apply safe_raise|].
  eapply safe_bind; [apply safe_translateM|]. intros [[p|] b] _.
  - eapply safe_bind; [apply safe_upd_mem|]. intros [] _.
    apply safe_gets. intros s _. apply (fits_host_load 4).
  - intros s Hs. by apply st_wf_raise.
Qed.
Lemma safe_mem_ifetch va : Safe (mem_ifetch va) (fits 32).
Proof.
  intros s Hs. unfold mem_ifetch. destruct (fcache (s_mem s)) as [[page host]|];
    [destruct (IFETCH_KEY va =? page)|]; [|by apply safe_mem_ifetch_slow..].
  split; [apply (fits_host_load 4)|done].
Qed.
End Safe.

#[export] Hint Resolve fits_v_mk fits_v_d0 fits_v_d1 : word.
(** The access sizes of the load/store handlers. *)
Ltac size_range :=
  cbn; first [ lia | (rewrite ?Z.shiftl_mul_pow2 by lia; lia) ].
#[export] Hint Extern 2 (safe _ _ (mem_read _ _) _) => (eapply safe_mem_read) : safe.
#[export] Hint Extern 2 (safe _ _ (mem_write _ _ _) _) => (eapply safe_mem_write) : safe.
#[export] Hint Resolve safe_mem_read128 safe_mem_write128 safe_mem_host_ptr safe_mem_ifetch
  safe_raise_dabort : safe.
