(* ===== verification/PageTable.v ===== *)
(** * PageTable: the two-level page table of mem.c

    An address space maps guest pages to host pages through [as->l1], an
    array of pointers to second-level tables of 2^14 entries, each entry the
    host page's address with the permission in its low bits and 0 for an
    unmapped page. A table counts its live entries, so that it can be given
    back when the last one goes; one emptied table is kept for the next
    mapping. Here are the table, every routine of mem.c that reads or writes
    an entry, the table's invariant [pt_wf], and each routine's effect on the
    map from page to entry, [pte_get]. *)

From stdpp Require Import gmap.
From S2P Require Import Prelude Types MemSeam.

Definition L1_SIZE : Z := Z.shiftl 1 21.
Definition L2_SIZE : Z := Z.shiftl 1 14.
Definition L1_IDX (va : Z) : Z := Z.shiftr va 26.
Definition L2_IDX (va : Z) : Z := Z.land (Z.shiftr va 12) (L2_SIZE - 1).
Definition PG_UP (x : Z) : Z := Z.land (u64 (x + GUEST_PAGE_MASK)) (not64 GUEST_PAGE_MASK).
#[global] Arguments L1_IDX : simpl never.
#[global] Arguments L2_IDX : simpl never.
#[global] Arguments PG_UP : simpl never.
Definition range_ok (addr len : Z) : bool :=
  (addr <=? GUEST_TASK_SIZE) && (len <=? GUEST_TASK_SIZE - addr).

(** [struct L2Table]: the live count and the entries, an absent index being
    an entry that is 0. *)
Record L2Table := mkL2 { l2_used : Z; l2_e : gmap Z Z }.
Definition l2_at (t : L2Table) (i : Z) : Z := default 0 (l2_e t !! i).
Definition l2_store (i v : Z) (e : gmap Z Z) : gmap Z Z :=
  if v =? 0 then delete i e else <[i := v]> e.
(** A table fresh from [calloc]. *)
Definition l2_zero : L2Table := mkL2 0 ∅.

(** The page-table fields of [AddrSpace]: [l1] (an absent index is a NULL
    pointer), [l2spare], [npgtables]. *)
Record PT := mkPT { pt_l1 : gmap Z L2Table; pt_spare : option L2Table; pt_n : Z }.
Definition pt_empty : PT := mkPT ∅ None 0.

(** [pte_put]: counts the transitions between absent and live. *)
Definition pte_put (t : L2Table) (i v : Z) : L2Table :=
  let used :=
    if Bool.eqb (negb (l2_at t i =? 0)) (negb (v =? 0)) then l2_used t
    else if negb (v =? 0) then u32 (l2_used t + 1) else u32 (l2_used t - 1) in
  mkL2 used (l2_store i v (l2_e t)).

Definition pte_get (pt : PT) (va : Z) : Z :=
  match pt_l1 pt !! L1_IDX va with
  | Some t => l2_at t (L2_IDX va)
  | None => 0
  end.

(** The tail of [pte_put_one]: write the entry of the table at [L1_IDX va],
    and give the table up if that emptied it. *)
Definition pte_put_in (t : L2Table) (pt : PT) (va v : Z) : PT :=
  let t' := pte_put t (L2_IDX va) v in
  if l2_used t' =? 0 then
    mkPT (delete (L1_IDX va) (pt_l1 pt))
         (match pt_spare pt with Some s => Some s | None => Some t' end)
         (u32 (pt_n pt - 1))
  else mkPT (<[L1_IDX va := t']> (pt_l1 pt)) (pt_spare pt) (pt_n pt).

(** [pte_put_one]; [host] is 0 for the NULL that clears the page. *)
Definition pte_put_one (pt : PT) (va host prot : Z) : PT :=
  let v := if host =? 0 then 0 else Z.lor host prot in
  match pt_l1 pt !! L1_IDX va with
  | Some t => pte_put_in t pt va v
  | None =>
      if host =? 0 then pt
      else
        let t := default l2_zero (pt_spare pt) in
        pte_put_in t (mkPT (<[L1_IDX va := t]> (pt_l1 pt)) None (u32 (pt_n pt + 1))) va v
  end.

(** The pages a [for (off = 0; off < len; off += GUEST_PAGE_SIZE)] visits. *)
Definition npages (len : Z) : nat := Z.to_nat ((len + GUEST_PAGE_MASK) / GUEST_PAGE_SIZE).

(** The loop of [pte_set_range]. *)
Fixpoint pte_set_loop (n : nat) (pt : PT) (va host prot : Z) : PT :=
  match n with
  | O => pt
  | S k => pte_set_loop k (pte_put_one pt va host prot) (va + GUEST_PAGE_SIZE)
             (if host =? 0 then 0 else host + GUEST_PAGE_SIZE) prot
  end.
Definition pte_set_pages (pt : PT) (addr len host prot : Z) : PT :=
  pte_set_loop (npages len) pt addr host prot.

(** [pte_prot_raw]: live entries of the range get the protection [prot]. *)
Definition pte_prot_one (pt : PT) (va prot : Z) : PT :=
  match pt_l1 pt !! L1_IDX va with
  | Some t =>
      if l2_at t (L2_IDX va) =? 0 then pt
      else
        let v := Z.lor (Z.land (l2_at t (L2_IDX va)) (not64 PTE_FLAGS)) prot in
        mkPT (<[L1_IDX va := mkL2 (l2_used t) (l2_store (L2_IDX va) v (l2_e t))]> (pt_l1 pt))
             (pt_spare pt) (pt_n pt)
  | None => pt
  end.
Fixpoint pte_prot_loop (n : nat) (pt : PT) (va prot : Z) : PT :=
  match n with
  | O => pt
  | S k => pte_prot_loop k (pte_prot_one pt va prot) (va + GUEST_PAGE_SIZE) prot
  end.
Definition pte_prot_raw (pt : PT) (addr len prot : Z) : PT :=
  pte_prot_loop (npages len) pt addr prot.

(** [pte_repoint_range]'s loop: live entries move to [newhost], keeping their
    permission. *)
Fixpoint pte_repoint_loop (n : nat) (pt : PT) (va newhost : Z) : PT :=
  match n with
  | O => pt
  | S k =>
      let pte := pte_get pt va in
      let pt' := if pte =? 0 then pt else pte_put_one pt va newhost (Z.land pte PTE_FLAGS) in
      pte_repoint_loop k pt' (va + GUEST_PAGE_SIZE) (newhost + GUEST_PAGE_SIZE)
  end.

(** [pte_drop_existing]'s loop: as a signal handler must, it neither makes nor
    frees a table. *)
Definition pte_drop_one (pt : PT) (va : Z) : PT :=
  match pt_l1 pt !! L1_IDX va with
  | Some t => mkPT (<[L1_IDX va := pte_put t (L2_IDX va) 0]> (pt_l1 pt)) (pt_spare pt) (pt_n pt)
  | None => pt
  end.
Fixpoint pte_drop_loop (n : nat) (pt : PT) (va : Z) : PT :=
  match n with
  | O => pt
  | S k => pte_drop_loop k (pte_drop_one pt va) (va + GUEST_PAGE_SIZE)
  end.

(** The page-by-page copy of [guest_remap_move_impl]: live entries of
    [src..] are written at [dst..]. *)
Fixpoint pte_copy_loop (n : nat) (pt : PT) (src dst : Z) : PT :=
  match n with
  | O => pt
  | S k =>
      let pte := pte_get pt src in
      let pt' := if pte =? 0 then pt
                 else pte_put_one pt dst (Z.land pte (not64 PTE_FLAGS)) (Z.land pte PTE_FLAGS) in
      pte_copy_loop k pt' (src + GUEST_PAGE_SIZE) (dst + GUEST_PAGE_SIZE)
  end.

(** The loop of [guest_remap_dup_impl] and [guest_remap_dontunmap_impl]: where
    the page at [src] (below [src_end]) is live, [dst]'s points at [host]. *)
Fixpoint pte_dup_loop (n : nat) (pt : PT) (src src_end dst host prot : Z) : PT :=
  match n with
  | O => pt
  | S k =>
      let pt' := if (src <? src_end) && negb (pte_get pt src =? 0)
                 then pte_put_one pt dst host prot else pt in
      pte_dup_loop k pt' (src + GUEST_PAGE_SIZE) src_end (dst + GUEST_PAGE_SIZE)
        (host + GUEST_PAGE_SIZE) prot
  end.

(** ** Well-formedness *)

(** A table's count is the number of its live entries. *)
Definition l2_wf (t : L2Table) : Prop :=
  l2_used t = Z.of_nat (size (l2_e t)) /\
  (forall i v, l2_e t !! i = Some v -> v <> 0 /\ 0 <= i < L2_SIZE).

Record pt_wf (pt : PT) : Prop := {
  ptw_tab i t : pt_l1 pt !! i = Some t -> l2_wf t /\ 0 <= i < L1_SIZE;
  ptw_spare t : pt_spare pt = Some t -> t = l2_zero;
  ptw_n : pt_n pt = Z.of_nat (size (pt_l1 pt))
}.

(** No empty table is held. *)
Definition pt_tight (pt : PT) : Prop :=
  forall i t, pt_l1 pt !! i = Some t -> l2_e t <> ∅.

(** ** The table as a map from page to entry *)

Definition page (va : Z) : Z := Z.shiftr va 12.
#[global] Arguments page : simpl never.

Lemma page_div va : page va = va / 4096.
Proof. unfold page. by rewrite Z.shiftr_div_pow2. Qed.
Lemma L1_div va : L1_IDX va = va / 4096 / 16384.
Proof. unfold L1_IDX. rewrite Z.shiftr_div_pow2, Z.div_div by lia. done. Qed.
Lemma L2_mod va : L2_IDX va = (va / 4096) mod 16384.
Proof.
  unfold L2_IDX. change (L2_SIZE - 1) with (Z.ones 14). rewrite Z.land_ones by lia.
  by rewrite Z.shiftr_div_pow2.
Qed.
Lemma idx_page va va' :
  (L1_IDX va = L1_IDX va' /\ L2_IDX va = L2_IDX va') <-> page va = page va'.
Proof. rewrite !L1_div, !L2_mod, !page_div. split; intros; wsolve. Qed.
Lemma idx_page_ne va va' :
  page va <> page va' -> L1_IDX va = L1_IDX va' -> L2_IDX va <> L2_IDX va'.
Proof. intros Hp H1 H2. exact (Hp (proj1 (idx_page va va') (conj H1 H2))). Qed.
Lemma page_eqb va va' :
  (page va =? page va') = (L1_IDX va =? L1_IDX va') && (L2_IDX va =? L2_IDX va').
Proof.
  destruct (Z.eqb_spec (page va) (page va')) as [Hp|Hp]; symmetry.
  - destruct (proj2 (idx_page va va') Hp) as [-> ->]. by rewrite !Z.eqb_refl.
  - destruct (Z.eqb_spec (L1_IDX va) (L1_IDX va')) as [H1|]; [|done].
    apply Z.eqb_neq. exact (idx_page_ne _ _ Hp H1).
Qed.
Lemma L2_range va : 0 <= L2_IDX va < L2_SIZE.
Proof. rewrite L2_mod. change L2_SIZE with 16384. wsolve. Qed.
Lemma L1_range va : 0 <= va < GUEST_TASK_SIZE -> 0 <= L1_IDX va < L1_SIZE.
Proof. rewrite L1_div. change GUEST_TASK_SIZE with (2 ^ 47). change L1_SIZE with (2 ^ 21). wsolve. Qed.
Lemma pte_get_page pt va va' : page va = page va' -> pte_get pt va = pte_get pt va'.
Proof. intros [H1 H2]%idx_page. unfold pte_get. by rewrite H1, H2. Qed.

(** A map whose keys lie in [0, n) has at most n entries. *)
Lemma size_keys_bound {A} (m : gmap Z A) (n : Z) : 0 <= n ->
  (forall i v, m !! i = Some v -> 0 <= i < n) -> Z.of_nat (size m) <= n.
Proof.
  intros Hn Hk. rewrite <- size_dom.
  assert (Hs : dom m ⊆ (list_to_set (seqZ 0 n) : gset Z)).
  { intros i [v Hv]%elem_of_dom. apply elem_of_list_to_set, elem_of_seqZ. apply Hk in Hv. lia. }
  apply subseteq_size in Hs. rewrite size_list_to_set, length_seqZ in Hs by apply NoDup_seqZ. lia.
Qed.

Lemma l2_wf_zero : l2_wf l2_zero.
Proof. split; [done|]. simpl. intros i v. by rewrite lookup_empty. Qed.
Lemma l2_used_bound t : l2_wf t -> 0 <= l2_used t <= L2_SIZE.
Proof.
  intros [-> Hk]. split; [lia|]. apply size_keys_bound; [done|]. intros i v Hv. by apply (Hk i v).
Qed.
Lemma l2_wf_empty t : l2_wf t -> l2_used t = 0 -> t = l2_zero.
Proof.
  intros [Hu _] H0. destruct t as [u e]; simpl in *. subst u.
  assert (e = ∅) as -> by (apply map_size_empty_inv; lia). done.
Qed.
Lemma l2_at_some t i v : l2_wf t -> l2_e t !! i = Some v -> l2_at t i = v /\ v <> 0.
Proof. intros [_ Hk] Hv. unfold l2_at. rewrite Hv. split; [done|]. by apply (Hk i v). Qed.
Lemma l2_at_none t i : l2_wf t -> l2_at t i = 0 -> l2_e t !! i = None.
Proof.
  intros Hw H0. destruct (l2_e t !! i) as [v|] eqn:E; [|done].
  destruct (l2_at_some t i v Hw E). congruence.
Qed.
Lemma l2_at_store u u' e i v j :
  l2_at (mkL2 u (l2_store i v e)) j = if i =? j then v else l2_at (mkL2 u' e) j.
Proof.
  unfold l2_at, l2_store; simpl. destruct (Z.eqb_spec i j) as [->|Hj], (Z.eqb_spec v 0) as [->|Hv].
  - by rewrite lookup_delete_eq.
  - by rewrite lookup_insert_eq.
  - by rewrite lookup_delete_ne.
  - by rewrite lookup_insert_ne.
Qed.
Lemma l2_at_put t i v j : l2_at (pte_put t i v) j = if i =? j then v else l2_at t j.
Proof. unfold pte_put. rewrite (l2_at_store _ (l2_used t)). by destruct t. Qed.

Lemma l2_wf_put t i v : l2_wf t -> 0 <= i < L2_SIZE -> l2_wf (pte_put t i v).
Proof.
  intros Hw Hi. pose proof (l2_used_bound t Hw) as Hb. change L2_SIZE with 16384 in Hb.
  pose proof Hw as [Hu Hk]. unfold pte_put, l2_store.
  destruct (l2_e t !! i) as [w|] eqn:E.
  - destruct (l2_at_some t i w Hw E) as [-> Hw0]. rewrite (proj2 (Z.eqb_neq w 0) Hw0); simpl.
    pose proof (map_size_ne_0_lookup_2 (l2_e t) i (mk_is_Some _ _ E)) as Hne.
    destruct (Z.eqb_spec v 0) as [->|Hv]; simpl; split; simpl.
    + rewrite map_size_delete_Some by done. rewrite u32_small by (unfold fits; lia). lia.
    + intros j x [_ Hj]%lookup_delete_Some. by apply Hk.
    + by rewrite map_size_insert_Some by done.
    + intros j x [[<- <-]|[_ Hj]]%lookup_insert_Some; [done|by apply Hk].
  - assert (l2_at t i = 0) as -> by (unfold l2_at; by rewrite E). simpl.
    destruct (Z.eqb_spec v 0) as [->|Hv]; simpl; split; simpl.
    + by rewrite delete_id.
    + intros j x. rewrite delete_id by done. apply Hk.
    + rewrite map_size_insert_None by done. rewrite u32_small by (unfold fits; lia). lia.
    + intros j x [[<- <-]|[_ Hj]]%lookup_insert_Some; [done|by apply Hk].
Qed.

Lemma pt_n_bound pt : pt_wf pt -> 0 <= pt_n pt <= L1_SIZE.
Proof.
  intros [Ht _ ->]. split; [lia|]. apply size_keys_bound; [done|]. intros i t Hi. by apply (Ht i t).
Qed.
Lemma pt_wf_empty : pt_wf pt_empty.
Proof. split; simpl; [intros i t; by rewrite lookup_empty|done|done]. Qed.

(** [pte_get] through one table. *)
Lemma pte_get_tab pt va t : pt_l1 pt !! L1_IDX va = Some t -> pte_get pt va = l2_at t (L2_IDX va).
Proof. unfold pte_get. by intros ->. Qed.
Lemma pte_get_insert l1 va t sp n va' :
  pte_get (mkPT (<[L1_IDX va := t]> l1) sp n) va' =
  if L1_IDX va =? L1_IDX va' then l2_at t (L2_IDX va') else pte_get (mkPT l1 sp n) va'.
Proof.
  unfold pte_get; cbn [pt_l1]. destruct (Z.eqb_spec (L1_IDX va) (L1_IDX va')) as [->|Hn].
  - by rewrite lookup_insert_eq.
  - by rewrite lookup_insert_ne.
Qed.
Lemma pte_get_fields l1 sp n sp' n' va : pte_get (mkPT l1 sp n) va = pte_get (mkPT l1 sp' n') va.
Proof. done. Qed.

(** The update of one page's entry, seen through [pte_get]. *)
Definition upd_page (f : Z -> Z) (va v : Z) : Z -> Z :=
  fun va' => if page va =? page va' then v else f va'.

Lemma tab_upd pt va t t' sp n v va' : pt_l1 pt !! L1_IDX va = Some t ->
  (forall j, l2_at t' j = if L2_IDX va =? j then v else l2_at t j) ->
  pte_get (mkPT (<[L1_IDX va := t']> (pt_l1 pt)) sp n) va' = upd_page (pte_get pt) va v va'.
Proof.
  intros Ht Hat. rewrite pte_get_insert. unfold upd_page. rewrite page_eqb.
  destruct (Z.eqb_spec (L1_IDX va) (L1_IDX va')) as [H1|H1]; simpl; [|by destruct pt].
  rewrite Hat. destruct (Z.eqb_spec (L2_IDX va) (L2_IDX va')) as [H2|H2]; [done|].
  rewrite (pte_get_tab pt va' t) by (by rewrite <- H1). done.
Qed.

(** [pte_put_in] and [pte_put_one]: one entry changes, the invariant stays. *)
Lemma pte_put_in_get t pt va v va' : pt_wf pt -> pt_l1 pt !! L1_IDX va = Some t ->
  pte_get (pte_put_in t pt va v) va' = upd_page (pte_get pt) va v va'.
Proof.
  intros Hw Ht. unfold pte_put_in.
  assert (Hw' : l2_wf (pte_put t (L2_IDX va) v)).
  { apply l2_wf_put; [by apply (ptw_tab pt Hw (L1_IDX va))|apply L2_range]. }
  pose proof (l2_at_put t (L2_IDX va) v) as Hat.
  destruct (Z.eqb_spec (l2_used (pte_put t (L2_IDX va) v)) 0) as [H0|H0];
    [|by apply (tab_upd _ _ t)].
  rewrite <- (tab_upd pt va t _ (pt_spare pt) (pt_n pt) v va' Ht Hat).
  rewrite (l2_wf_empty _ Hw' H0). rewrite pte_get_insert.
  unfold pte_get; cbn [pt_l1]. destruct (Z.eqb_spec (L1_IDX va) (L1_IDX va')) as [->|Hn].
  - by rewrite lookup_delete_eq.
  - by rewrite lookup_delete_ne.
Qed.

Lemma pte_put_in_wf t pt va v : pt_wf pt -> pt_l1 pt !! L1_IDX va = Some t ->
  pt_wf (pte_put_in t pt va v).
Proof.
  intros Hw Ht. pose proof (pt_n_bound pt Hw) as Hb. change L1_SIZE with (2 ^ 21) in Hb.
  destruct (ptw_tab pt Hw _ _ Ht) as [Hl Hi].
  assert (Hw' : l2_wf (pte_put t (L2_IDX va) v)) by (apply l2_wf_put; [done|apply L2_range]).
  pose proof (map_size_ne_0_lookup_2 _ _ (mk_is_Some _ _ Ht)) as Hne.
  unfold pte_put_in. destruct (Z.eqb_spec (l2_used (pte_put t (L2_IDX va) v)) 0) as [H0|H0];
    constructor; cbn [pt_l1 pt_spare pt_n].
  - intros i u [_ Hu]%lookup_delete_Some. by apply (ptw_tab pt Hw).
  - intros s Hs. destruct (pt_spare pt) eqn:Esp.
    + injection Hs as <-. by apply (ptw_spare pt Hw).
    + injection Hs as <-. by apply l2_wf_empty.
  - rewrite map_size_delete_Some by done. rewrite (ptw_n pt Hw) in *.
    rewrite u32_small by (unfold fits; lia). lia.
  - intros i u [[<- <-]|[_ Hu]]%lookup_insert_Some; [done|by apply (ptw_tab pt Hw)].
  - apply (ptw_spare pt Hw).
  - rewrite map_size_insert_Some by done. apply (ptw_n pt Hw).
Qed.

(** The state [pte_put_one] continues from after it has made a table. *)
Lemma pt_wf_newtab pt va : pt_wf pt -> pt_l1 pt !! L1_IDX va = None ->
  0 <= va < GUEST_TASK_SIZE ->
  default l2_zero (pt_spare pt) = l2_zero /\
  pt_wf (mkPT (<[L1_IDX va := l2_zero]> (pt_l1 pt)) None (u32 (pt_n pt + 1))).
Proof.
  intros Hw Hn Hva. pose proof (pt_n_bound pt Hw) as Hb. change L1_SIZE with (2 ^ 21) in Hb. split.
  - destruct (pt_spare pt) eqn:E; [|done]. by apply (ptw_spare pt Hw).
  - constructor; cbn [pt_l1 pt_spare pt_n]; [|done|].
    + intros i u [[<- <-]|[_ Hu]]%lookup_insert_Some; [|by apply (ptw_tab pt Hw)].
      split; [apply l2_wf_zero|by apply L1_range].
    + rewrite map_size_insert_None by done. rewrite (ptw_n pt Hw) in *.
      rewrite u32_small by (unfold fits; lia). lia.
Qed.
Lemma pte_get_newtab pt va sp n va' : pt_l1 pt !! L1_IDX va = None ->
  pte_get (mkPT (<[L1_IDX va := l2_zero]> (pt_l1 pt)) sp n) va' = pte_get pt va'.
Proof.
  intros Hn. rewrite pte_get_insert. destruct (Z.eqb_spec (L1_IDX va) (L1_IDX va')) as [E|_].
  - unfold pte_get. by rewrite <- E, Hn.
  - by destruct pt.
Qed.

(** The entry [pte_put_one] writes. *)
Definition pte_val (host prot : Z) : Z := if host =? 0 then 0 else Z.lor host prot.

Lemma pte_put_one_spec pt va host prot : pt_wf pt -> 0 <= va < GUEST_TASK_SIZE ->
  pt_wf (pte_put_one pt va host prot) /\
  forall va', pte_get (pte_put_one pt va host prot) va' =
              upd_page (pte_get pt) va (pte_val host prot) va'.
Proof.
  intros Hw Hva. unfold pte_put_one, pte_val.
  destruct (pt_l1 pt !! L1_IDX va) as [t|] eqn:Et.
  - split; [by apply pte_put_in_wf|]. intros va'. by apply pte_put_in_get.
  - destruct (Z.eqb_spec host 0) as [->|Hh].
    + split; [done|]. intros va'. unfold upd_page. rewrite page_eqb.
      destruct (Z.eqb_spec (L1_IDX va) (L1_IDX va')) as [E|_]; simpl; [|done].
      destruct (Z.eqb_spec (L2_IDX va) (L2_IDX va')); [|done].
      unfold pte_get. by rewrite <- E, Et.
    + destruct (pt_wf_newtab pt va Hw Et Hva) as [-> Hw2].
      assert (Ht2 : pt_l1 (mkPT (<[L1_IDX va := l2_zero]> (pt_l1 pt)) None (u32 (pt_n pt + 1)))
                    !! L1_IDX va = Some l2_zero) by apply lookup_insert_eq.
      split; [by apply pte_put_in_wf|]. intros va'. rewrite pte_put_in_get by done.
      unfold upd_page. by rewrite pte_get_newtab.
Qed.

(** [pte_put_one] leaves no empty table behind. *)
Lemma pte_put_one_tight pt va host prot : pt_wf pt -> pt_tight pt -> 0 <= va < GUEST_TASK_SIZE ->
  pt_tight (pte_put_one pt va host prot).
Proof.
  intros Hw Htt Hva i u Hu He. unfold pte_put_one in Hu.
  assert (Hin : forall t q v, pt_wf q -> pt_l1 q !! L1_IDX va = Some t ->
            (forall j w, j <> L1_IDX va -> pt_l1 q !! j = Some w -> l2_e w <> ∅) ->
            pt_l1 (pte_put_in t q va v) !! i = Some u -> False).
  { intros t q v Hq Ht Hoth Hl. unfold pte_put_in in Hl.
    destruct (Z.eqb_spec (l2_used (pte_put t (L2_IDX va) v)) 0) as [H0|H0]; cbn [pt_l1] in Hl.
    - apply lookup_delete_Some in Hl as [Hne Hl]. by apply (Hoth i u).
    - apply lookup_insert_Some in Hl as [[<- <-]|[Hne Hl]]; [|by apply (Hoth i u)].
      apply H0. destruct (l2_wf_put t (L2_IDX va) v) as [-> _];
        [by apply (ptw_tab q Hq (L1_IDX va))|apply L2_range|]. by rewrite He. }
  destruct (pt_l1 pt !! L1_IDX va) as [t|] eqn:Et.
  - apply (Hin t pt _ Hw Et (fun j w _ => Htt j w) Hu).
  - destruct (Z.eqb_spec host 0) as [->|Hh]; [by apply (Htt i u)|].
    destruct (pt_wf_newtab pt va Hw Et Hva) as [Hd Hw2]. rewrite Hd in Hu.
    refine (Hin l2_zero _ _ Hw2 _ _ Hu); cbn [pt_l1]; [apply lookup_insert_eq|].
    intros j w Hj Hl. rewrite lookup_insert_ne in Hl by done. by apply (Htt j w).
Qed.

(** ** The page loops *)

(** Rewrite the entries of the [n] pages from [va]: page [k] of them, holding
    [x], gets [F k x]. *)
Definition set_pages (f : Z -> Z) (va n : Z) (F : Z -> Z -> Z) : Z -> Z := fun va' =>
  let k := page va' - page va in
  if (0 <=? k) && (k <? n) then F k (f va') else f va'.

Lemma page_next va : page (va + GUEST_PAGE_SIZE) = page va + 1.
Proof. rewrite !page_div. change GUEST_PAGE_SIZE with 4096. wsolve. Qed.

Lemma set_pages_S f g va n F : 0 <= n ->
  (forall va', page va = page va' -> f va = f va') ->
  (forall va', g va' = upd_page f va (F 0 (f va)) va') ->
  forall va', set_pages g (va + GUEST_PAGE_SIZE) n (fun k => F (k + 1)) va' =
              set_pages f va (n + 1) F va'.
Proof.
  intros Hn Hf Hg va'. unfold set_pages. rewrite page_next, Hg. unfold upd_page.
  destruct (Z.eqb_spec (page va) (page va')) as [E|E].
  - rewrite <- (Hf va' E), <- E. replace (page va - (page va + 1)) with (-1) by lia.
    replace (page va - page va) with 0 by lia. simpl.
    by rewrite (proj2 (Z.ltb_lt 0 (n + 1))) by lia.
  - set (d := page va' - page va).
    replace (page va' - (page va + 1)) with (d - 1) by (unfold d; lia).
    replace (d - 1 + 1) with d by lia.
    replace ((0 <=? d - 1) && (d - 1 <? n)) with ((0 <=? d) && (d <? n + 1)); [done|].
    unfold d. zbool; lia.
Qed.

(** One step of a loop, and the loop: [step] changes the one page's entry by
    [F 0] and the rest of the loop is the loop for [F] shifted. *)
Lemma set_pages_0 f va F va' : set_pages f va 0 F va' = f va'.
Proof. unfold set_pages. by destruct (_ && _) eqn:E; [lia|]. Qed.

Definition in_task (va n : Z) : Prop := 0 <= va /\ va + GUEST_PAGE_SIZE * n <= GUEST_TASK_SIZE.
Lemma in_task_S va n : in_task va (n + 1) -> 0 <= n ->
  0 <= va < GUEST_TASK_SIZE /\ in_task (va + GUEST_PAGE_SIZE) n.
Proof. unfold in_task. change GUEST_PAGE_SIZE with 4096. lia. Qed.

Ltac loop_S IH := 
  match goal with
  | H : in_task ?va (Z.of_nat (S ?n)) |- _ =>
      rewrite Nat2Z.inj_succ in *; unfold Z.succ in *;
      destruct (in_task_S va (Z.of_nat n) H ltac:(lia)) as [? ?]
  end.

Definition set_val (host prot k : Z) : Z :=
  if host =? 0 then 0 else Z.lor (host + GUEST_PAGE_SIZE * k) prot.

Lemma pte_set_loop_spec n pt va host prot : pt_wf pt -> in_task va (Z.of_nat n) -> 0 <= host ->
  pt_wf (pte_set_loop n pt va host prot) /\
  forall va', pte_get (pte_set_loop n pt va host prot) va' =
    set_pages (pte_get pt) va (Z.of_nat n) (fun k _ => set_val host prot k) va'.
Proof.
  revert pt va host. induction n as [|n IH]; intros pt va host Hw Hin Hh.
  { split; [done|]. intros va'. by rewrite set_pages_0. }
  loop_S IH. destruct (pte_put_one_spec pt va host prot Hw) as [Hw1 Hg1]; [done|]. simpl.
  destruct (IH (pte_put_one pt va host prot) (va + GUEST_PAGE_SIZE)
              (if host =? 0 then 0 else host + GUEST_PAGE_SIZE) Hw1) as [Hw2 Hg2]; [done| |].
  { change GUEST_PAGE_SIZE with 4096. destruct (host =? 0); lia. }
  split; [done|]. intros va'. rewrite Hg2.
  rewrite <- (set_pages_S (pte_get pt) (pte_get (pte_put_one pt va host prot)) va (Z.of_nat n));
    [|lia|apply pte_get_page|].
  - unfold set_pages. destruct (_ && _) eqn:Ek; [|done]. unfold set_val.
    destruct (Z.eqb_spec host 0) as [->|]; [done|]. change GUEST_PAGE_SIZE with 4096.
    rewrite (proj2 (Z.eqb_neq (host + 4096) 0)) by lia. f_equal. lia.
  - intros va0. rewrite Hg1. f_equal. unfold pte_val, set_val. destruct (host =? 0); [done|].
    f_equal. change GUEST_PAGE_SIZE with 4096. lia.
Qed.

(** No loop that only uses [pte_put_one] leaves an empty table. *)
Lemma pte_set_loop_tight n pt va host prot : pt_wf pt -> pt_tight pt -> in_task va (Z.of_nat n) ->
  pt_tight (pte_set_loop n pt va host prot).
Proof.
  revert pt va host. induction n as [|n IH]; intros pt va host Hw Ht Hin; [done|].
  loop_S IH. simpl. apply IH; [by apply pte_put_one_spec|by apply pte_put_one_tight|done].
Qed.

(** [pte_prot_raw] keeps each host page, so long as entries have one. *)
Definition hosted (pt : PT) : Prop :=
  forall va, pte_get pt va <> 0 -> 0 < Z.land (pte_get pt va) (not64 PTE_FLAGS).
Definition prot_val (prot x : Z) : Z :=
  if x =? 0 then 0 else Z.lor (Z.land x (not64 PTE_FLAGS)) prot.

Lemma lor_pos a b : 0 < a -> 0 <= b -> 0 < Z.lor a b.
Proof.
  intros Ha Hb. assert (0 <= Z.lor a b) by (apply Z.lor_nonneg; lia).
  assert (Z.lor a b <> 0); [|lia]. intros E. apply Z.lor_eq_0_iff in E. lia.
Qed.
Lemma pte_prot_one_spec pt va prot : pt_wf pt -> hosted pt -> 0 <= prot -> 0 <= va < GUEST_TASK_SIZE ->
  pt_wf (pte_prot_one pt va prot) /\
  forall va', pte_get (pte_prot_one pt va prot) va' =
              upd_page (pte_get pt) va (prot_val prot (pte_get pt va)) va'.
Proof.
  intros Hw Hh Hp Hva. unfold pte_prot_one, prot_val.
  destruct (pt_l1 pt !! L1_IDX va) as [t|] eqn:Et.
  2: { assert (E0 : pte_get pt va = 0) by (unfold pte_get; by rewrite Et). rewrite E0. split; [done|].
       intros va'. unfold upd_page. destruct (Z.eqb_spec (page va) (page va')) as [E|]; [|done].
       by rewrite <- (pte_get_page pt va va'). }
  pose proof (pte_get_tab pt va t Et) as Eg. rewrite <- Eg.
  destruct (Z.eqb_spec (pte_get pt va) 0) as [E0|E0].
  { split; [done|]. intros va'. unfold upd_page. destruct (Z.eqb_spec (page va) (page va')); [|done].
    by rewrite <- (pte_get_page pt va va'). }
  pose proof (lor_pos _ prot (Hh va E0) Hp) as Hv. set (v := Z.lor _ prot) in *.
  assert (Hsame : l2_used t = l2_used (pte_put t (L2_IDX va) v)).
  { unfold pte_put; simpl. rewrite <- Eg. rewrite (proj2 (Z.eqb_neq _ 0) E0).
    by rewrite (proj2 (Z.eqb_neq v 0)) by lia. }
  replace (mkL2 (l2_used t) (l2_store (L2_IDX va) v (l2_e t))) with (pte_put t (L2_IDX va) v)
    by (rewrite Hsame; done).
  destruct (ptw_tab pt Hw _ _ Et) as [Hl Hi]. split.
  - constructor; cbn [pt_l1 pt_spare pt_n].
    + intros i u [[<- <-]|[_ Hu]]%lookup_insert_Some; [|by apply (ptw_tab pt Hw)].
      split; [by apply l2_wf_put, L2_range|done].
    + apply (ptw_spare pt Hw).
    + rewrite map_size_insert_Some by done. apply (ptw_n pt Hw).
  - intros va'. apply (tab_upd _ _ t); [done|]. apply l2_at_put.
Qed.

(** The host page and the permission of an entry. *)
Definition pte_host (x : Z) : Z := Z.land x (not64 PTE_FLAGS).
Definition pte_prot (x : Z) : Z := Z.land x PTE_FLAGS.
Lemma not64_flags i : 0 <= i -> Z.testbit (not64 PTE_FLAGS) i = (3 <=? i) && (i <? 64).
Proof.
  intros Hi. change (not64 PTE_FLAGS) with (Z.shiftl (Z.ones 61) 3).
  rewrite Z.shiftl_spec by lia.
  destruct (Z.leb_spec 3 i); simpl; [|by apply Z.testbit_neg_r; lia].
  rewrite Z.testbit_ones_nonneg by lia. zbool; lia.
Qed.
Lemma flags_bit i : 0 <= i -> Z.testbit PTE_FLAGS i = (i <? 3).
Proof. intros Hi. change PTE_FLAGS with (Z.ones 3). by rewrite Z.testbit_ones_nonneg by lia. Qed.
Lemma host_join h p : fits 64 h -> Z.land h PTE_FLAGS = 0 -> fits 3 p -> pte_host (Z.lor h p) = h.
Proof.
  intros Hh H0 Hp. apply Z.bits_inj_iff'. intros i Hi. unfold pte_host.
  rewrite Z.land_spec, Z.lor_spec, not64_flags by lia.
  assert (Hb : Z.testbit (Z.land h PTE_FLAGS) i = false) by (by rewrite H0, Z.testbit_0_l).
  rewrite Z.land_spec, flags_bit in Hb by lia.
  destruct (Z.leb_spec 3 i), (Z.ltb_spec i 64); simpl; try lia.
  - rewrite (fits_testbit 3 p) by (done || lia). by rewrite orb_false_r, andb_true_r.
  - rewrite andb_false_r. symmetry. apply (fits_testbit 64); [done|lia].
  - rewrite andb_false_r. rewrite (proj2 (Z.ltb_lt i 3)), andb_true_r in Hb by lia. done.
Qed.
Lemma prot_join h p : Z.land h PTE_FLAGS = 0 -> fits 3 p -> pte_prot (Z.lor h p) = p.
Proof.
  intros H0 Hp. unfold pte_prot. rewrite Z.land_lor_distr_l, H0, Z.lor_0_l.
  change PTE_FLAGS with (Z.ones 3). rewrite Z.land_ones by lia. by apply Z.mod_small.
Qed.
Lemma pte_split x : fits 64 x -> Z.lor (pte_host x) (pte_prot x) = x.
Proof.
  intros Hx. unfold pte_host, pte_prot. rewrite <- Z.land_lor_distr_r.
  change (Z.lor (not64 PTE_FLAGS) PTE_FLAGS) with (Z.ones 64).
  rewrite Z.land_ones by lia. by apply Z.mod_small.
Qed.
Lemma pte_host_clear x : Z.land (pte_host x) PTE_FLAGS = 0.
Proof.
  unfold pte_host. rewrite <- Z.land_assoc.
  change (Z.land (not64 PTE_FLAGS) PTE_FLAGS) with 0. apply Z.land_0_r.
Qed.
Lemma fits_pte_host x : 0 <= x -> fits 64 (pte_host x).
Proof. intros Hx. unfold pte_host. rewrite Z.land_comm. apply fits_land_l; [lia|apply fits_not64|done]. Qed.
Lemma fits_pte_prot x : fits 3 (pte_prot x).
Proof. unfold pte_prot. change PTE_FLAGS with (Z.ones 3). rewrite Z.land_ones by lia. unfold fits. wsolve. Qed.
Lemma aligned_flags h : Z.land h GUEST_PAGE_MASK = 0 -> Z.land h PTE_FLAGS = 0.
Proof.
  intros H. change PTE_FLAGS with (Z.land GUEST_PAGE_MASK PTE_FLAGS).
  by rewrite Z.land_assoc, H.
Qed.

(** Entries are 64-bit words naming a host page. *)
Definition pte_ok (pt : PT) : Prop := forall va, fits 64 (pte_get pt va) /\
  (pte_get pt va <> 0 -> 0 < pte_host (pte_get pt va)).
Lemma pte_ok_hosted pt : pte_ok pt -> hosted pt.
Proof. intros H va. apply (H va). Qed.
Lemma prot_val_ok prot x : fits 64 x -> (x <> 0 -> 0 < pte_host x) -> fits 3 prot ->
  fits 64 (prot_val prot x) /\ (prot_val prot x <> 0 -> 0 < pte_host (prot_val prot x)).
Proof.
  intros Hx Hh Hp. unfold prot_val. destruct (Z.eqb_spec x 0) as [->|Hn]; [done|].
  assert (H64 : fits 64 (pte_host x)) by (apply fits_pte_host; unfold fits in Hx; lia).
  change (Z.land x (not64 PTE_FLAGS)) with (pte_host x). split.
  - apply fits_lor; [lia|done|]. by apply (fits_weaken 3).
  - intros _. rewrite host_join; [by apply Hh|done|apply pte_host_clear|done].
Qed.

Lemma pte_prot_loop_spec n pt va prot : pt_wf pt -> pte_ok pt -> fits 3 prot ->
  in_task va (Z.of_nat n) ->
  pt_wf (pte_prot_loop n pt va prot) /\
  forall va', pte_get (pte_prot_loop n pt va prot) va' =
    set_pages (pte_get pt) va (Z.of_nat n) (fun _ x => prot_val prot x) va'.
Proof.
  revert pt va. induction n as [|n IH]; intros pt va Hw Hh Hp Hin.
  { split; [done|]. intros va'. by rewrite set_pages_0. }
  loop_S IH. destruct (pte_prot_one_spec pt va prot Hw) as [Hw1 Hg1];
    [by apply pte_ok_hosted|unfold fits in Hp; lia|done|]. simpl.
  destruct (IH (pte_prot_one pt va prot) (va + GUEST_PAGE_SIZE) Hw1) as [Hw2 Hg2]; [|done|done|].
  { intros w. rewrite Hg1. unfold upd_page. destruct (_ =? _); [|apply Hh].
    destruct (Hh va). by apply prot_val_ok. }
  split; [done|]. intros va'. rewrite Hg2.
  by apply (set_pages_S (pte_get pt) _ va (Z.of_nat n) (fun _ x => prot_val prot x));
    [lia|apply pte_get_page|].
Qed.

Definition repoint_val (host k x : Z) : Z :=
  if x =? 0 then 0 else Z.lor (host + GUEST_PAGE_SIZE * k) (pte_prot x).
Lemma pte_repoint_loop_spec n pt va host : pt_wf pt -> in_task va (Z.of_nat n) -> 0 < host ->
  pt_wf (pte_repoint_loop n pt va host) /\
  forall va', pte_get (pte_repoint_loop n pt va host) va' =
    set_pages (pte_get pt) va (Z.of_nat n) (repoint_val host) va'.
Proof.
  revert pt va host. induction n as [|n IH]; intros pt va host Hw Hin Hh.
  { split; [done|]. intros va'. by rewrite set_pages_0. }
  loop_S IH. simpl. set (pt1 := if pte_get pt va =? 0 then pt else _).
  assert (Hs : pt_wf pt1 /\ forall va', pte_get pt1 va' =
                 upd_page (pte_get pt) va (repoint_val host 0 (pte_get pt va)) va').
  { unfold pt1, repoint_val. destruct (Z.eqb_spec (pte_get pt va) 0) as [E|E].
    - split; [done|]. intros va'. unfold upd_page. destruct (Z.eqb_spec (page va) (page va')); [|done].
      by rewrite <- (pte_get_page pt va va').
    - destruct (pte_put_one_spec pt va host (Z.land (pte_get pt va) PTE_FLAGS) Hw) as [? Hg]; [done|].
      split; [done|]. intros va'. rewrite Hg. unfold pte_val.
      rewrite (proj2 (Z.eqb_neq host 0)) by lia. do 2 f_equal. lia. }
  destruct Hs as [Hw1 Hg1].
  destruct (IH pt1 (va + GUEST_PAGE_SIZE) (host + GUEST_PAGE_SIZE) Hw1) as [Hw2 Hg2];
    [done|change GUEST_PAGE_SIZE with 4096; lia|].
  split; [done|]. intros va'. rewrite Hg2.
  rewrite <- (set_pages_S (pte_get pt) (pte_get pt1) va (Z.of_nat n) (repoint_val host));
    [|lia|apply pte_get_page|done].
  unfold set_pages. destruct (_ && _); [|done]. unfold repoint_val.
  destruct (pte_get pt1 va' =? 0); [done|]. f_equal. lia.
Qed.

Lemma pte_drop_one_spec pt va : pt_wf pt ->
  pt_wf (pte_drop_one pt va) /\
  forall va', pte_get (pte_drop_one pt va) va' = upd_page (pte_get pt) va 0 va'.
Proof.
  intros Hw. unfold pte_drop_one. destruct (pt_l1 pt !! L1_IDX va) as [t|] eqn:Et.
  - destruct (ptw_tab pt Hw _ _ Et) as [Hl Hi]. split.
    + constructor; cbn [pt_l1 pt_spare pt_n].
      * intros i u [[<- <-]|[_ Hu]]%lookup_insert_Some; [|by apply (ptw_tab pt Hw)].
        split; [by apply l2_wf_put, L2_range|done].
      * apply (ptw_spare pt Hw).
      * rewrite map_size_insert_Some by done. apply (ptw_n pt Hw).
    + intros va'. apply (tab_upd _ _ t); [done|]. apply l2_at_put.
  - split; [done|]. intros va'. unfold upd_page. rewrite page_eqb.
    destruct (Z.eqb_spec (L1_IDX va) (L1_IDX va')) as [E|_]; simpl; [|done].
    destruct (_ =? _); [|done]. unfold pte_get. by rewrite <- E, Et.
Qed.
Lemma pte_drop_loop_spec n pt va : pt_wf pt -> in_task va (Z.of_nat n) ->
  pt_wf (pte_drop_loop n pt va) /\
  forall va', pte_get (pte_drop_loop n pt va) va' =
    set_pages (pte_get pt) va (Z.of_nat n) (fun _ _ => 0) va'.
Proof.
  revert pt va. induction n as [|n IH]; intros pt va Hw Hin.
  { split; [done|]. intros va'. by rewrite set_pages_0. }
  loop_S IH. destruct (pte_drop_one_spec pt va Hw) as [Hw1 Hg1]. simpl.
  destruct (IH _ (va + GUEST_PAGE_SIZE) Hw1) as [Hw2 Hg2]; [done|].
  split; [done|]. intros va'. rewrite Hg2.
  by apply (set_pages_S (pte_get pt) _ va (Z.of_nat n) (fun _ _ => 0)); [lia|apply pte_get_page|].
Qed.

(** The two loops that write at [dst] what they find at [src], which lies
    elsewhere: [Y k] is the entry of the source's page [k]. *)
Definition apart (n src dst : Z) : Prop := page src + n <= page dst \/ page dst + n <= page src.
Lemma page_add va k : page (va + GUEST_PAGE_SIZE * k) = page va + k.
Proof. rewrite !page_div. change GUEST_PAGE_SIZE with 4096. wsolve. Qed.
Lemma apart_S n src dst : 0 <= n -> apart (n + 1) src dst ->
  apart n (src + GUEST_PAGE_SIZE) (dst + GUEST_PAGE_SIZE).
Proof. unfold apart. rewrite !page_next. lia. Qed.

(** A step at [dst] leaves the source's later entries alone. *)
Lemma src_kept pt pt1 n src dst v (Y : Z -> Z) : 0 <= n -> apart (n + 1) src dst ->
  (forall va', pte_get pt1 va' = upd_page (pte_get pt) dst v va') ->
  (forall j, 0 <= j < n + 1 -> pte_get pt (src + GUEST_PAGE_SIZE * j) = Y j) ->
  forall j, 0 <= j < n -> pte_get pt1 (src + GUEST_PAGE_SIZE + GUEST_PAGE_SIZE * j) = Y (j + 1).
Proof.
  intros Hn Ha Hg HY j Hj. rewrite <- HY by lia.
  replace (src + GUEST_PAGE_SIZE + GUEST_PAGE_SIZE * j) with (src + GUEST_PAGE_SIZE * (j + 1)) by lia.
  rewrite Hg. unfold upd_page. rewrite page_add.
  destruct (Z.eqb_spec (page dst) (page src + (j + 1))); [|done]. unfold apart in Ha. lia.
Qed.
Lemma upd_page_same pt va va' : pte_get pt va' = upd_page (pte_get pt) va (pte_get pt va) va'.
Proof.
  unfold upd_page. destruct (Z.eqb_spec (page va) (page va')) as [E|]; [|done].
  by rewrite <- (pte_get_page pt va va').
Qed.

Definition copy_val (Y : Z -> Z) (k x : Z) : Z := if Y k =? 0 then x else Y k.
Lemma pte_copy_loop_spec n pt src dst Y : pt_wf pt -> in_task dst (Z.of_nat n) ->
  apart (Z.of_nat n) src dst ->
  (forall j, 0 <= j < Z.of_nat n -> pte_get pt (src + GUEST_PAGE_SIZE * j) = Y j) ->
  (forall j, fits 64 (Y j) /\ (Y j <> 0 -> 0 < pte_host (Y j))) ->
  pt_wf (pte_copy_loop n pt src dst) /\
  forall va', pte_get (pte_copy_loop n pt src dst) va' =
    set_pages (pte_get pt) dst (Z.of_nat n) (copy_val Y) va'.
Proof.
  revert pt src dst Y. induction n as [|n IH]; intros pt src dst Y Hw Hin Ha HY Hok.
  { split; [done|]. intros va'. by rewrite set_pages_0. }
  loop_S IH. simpl. set (pt1 := if pte_get pt src =? 0 then pt else _).
  assert (HY0 : pte_get pt src = Y 0) by (rewrite <- HY by lia; f_equal; lia).
  assert (Hs : pt_wf pt1 /\ forall va', pte_get pt1 va' =
                 upd_page (pte_get pt) dst (copy_val Y 0 (pte_get pt dst)) va').
  { unfold pt1, copy_val. rewrite HY0. destruct (Z.eqb_spec (Y 0) 0) as [E|E].
    - split; [done|]. apply upd_page_same.
    - destruct (pte_put_one_spec pt dst (pte_host (Y 0)) (pte_prot (Y 0)) Hw) as [? Hg]; [done|].
      split; [done|]. intros va'. change (Z.land (Y 0) PTE_FLAGS) with (pte_prot (Y 0)).
      change (Z.land (Y 0) (not64 PTE_FLAGS)) with (pte_host (Y 0)). rewrite Hg. unfold pte_val.
      destruct (Hok 0) as [H64 Hp]. rewrite (proj2 (Z.eqb_neq (pte_host (Y 0)) 0)) by (specialize (Hp E); lia).
      by rewrite pte_split. }
  destruct Hs as [Hw1 Hg1].
  destruct (IH pt1 (src + GUEST_PAGE_SIZE) (dst + GUEST_PAGE_SIZE) (fun j => Y (j + 1)) Hw1)
    as [Hw2 Hg2]; [done|by apply apart_S; [lia|]| |done|].
  { eapply (src_kept pt pt1); [lia|done|exact Hg1|done]. }
  split; [done|]. intros va'. rewrite Hg2.
  by apply (set_pages_S (pte_get pt) (pte_get pt1) dst (Z.of_nat n) (copy_val Y));
    [lia|apply pte_get_page|].
Qed.

Definition dup_val (Y : Z -> Z) (src src_end host prot k x : Z) : Z :=
  if (src + GUEST_PAGE_SIZE * k <? src_end) && negb (Y k =? 0)
  then Z.lor (host + GUEST_PAGE_SIZE * k) prot else x.
Lemma pte_dup_loop_spec n pt src src_end dst host prot Y : pt_wf pt -> in_task dst (Z.of_nat n) ->
  apart (Z.of_nat n) src dst -> 0 < host ->
  (forall j, 0 <= j < Z.of_nat n -> pte_get pt (src + GUEST_PAGE_SIZE * j) = Y j) ->
  pt_wf (pte_dup_loop n pt src src_end dst host prot) /\
  forall va', pte_get (pte_dup_loop n pt src src_end dst host prot) va' =
    set_pages (pte_get pt) dst (Z.of_nat n) (dup_val Y src src_end host prot) va'.
Proof.
  revert pt src dst host Y. induction n as [|n IH]; intros pt src dst host Y Hw Hin Ha Hh HY.
  { split; [done|]. intros va'. by rewrite set_pages_0. }
  loop_S IH. simpl. set (pt1 := if _ && _ then _ else pt).
  assert (HY0 : pte_get pt src = Y 0) by (rewrite <- HY by lia; f_equal; lia).
  assert (Hs : pt_wf pt1 /\ forall va', pte_get pt1 va' =
                 upd_page (pte_get pt) dst (dup_val Y src src_end host prot 0 (pte_get pt dst)) va').
  { unfold pt1, dup_val. rewrite HY0, Z.mul_0_r, !Z.add_0_r.
    destruct ((src <? src_end) && negb (Y 0 =? 0)); [|by split; [|apply upd_page_same]].
    destruct (pte_put_one_spec pt dst host prot Hw) as [? Hg]; [done|]. split; [done|].
    intros va'. rewrite Hg. unfold pte_val. by rewrite (proj2 (Z.eqb_neq host 0)) by lia. }
  destruct Hs as [Hw1 Hg1].
  destruct (IH pt1 (src + GUEST_PAGE_SIZE) (dst + GUEST_PAGE_SIZE) (host + GUEST_PAGE_SIZE)
              (fun j => Y (j + 1)) Hw1) as [Hw2 Hg2];
    [done|by apply apart_S; [lia|]|change GUEST_PAGE_SIZE with 4096; lia| |].
  { eapply (src_kept pt pt1); [lia|done|exact Hg1|done]. }
  split; [done|]. intros va'. rewrite Hg2.
  rewrite <- (set_pages_S (pte_get pt) (pte_get pt1) dst (Z.of_nat n)
               (dup_val Y src src_end host prot)); [|lia|apply pte_get_page|done].
  unfold set_pages. set (k := page va' - page (dst + GUEST_PAGE_SIZE)). cbn zeta.
  destruct ((0 <=? k) && (k <? Z.of_nat n)); [|done]. unfold dup_val.
  replace (src + GUEST_PAGE_SIZE + GUEST_PAGE_SIZE * k) with (src + GUEST_PAGE_SIZE * (k + 1)) by lia.
  replace (host + GUEST_PAGE_SIZE + GUEST_PAGE_SIZE * k) with (host + GUEST_PAGE_SIZE * (k + 1)) by lia.
  done.
Qed.
