(* ===== verification/Regions.v ===== *)
(** * Regions: the region list of mem.c

    An address space records what the guest mapped as a list of regions,
    sorted by start and never overlapping (mmu.h [struct Region], mem.c
    "region list"). Here are the record, the routines that read the list or
    rebuild it, the list's invariant [regions_ok], and the list as a map from
    guest address to what is mapped there, [look]: every change mem.c makes to
    the list is described by its effect on that map. *)

From stdpp Require Import gmap strings sorting.
From S2P Require Import Prelude Types Cpu MemSeam PageTable.

(** [struct Region]. Host addresses are numbers; [r_hmap] names the HostMap
    the region refers to. *)
Record Region := mkRegion {
  r_start : Z; r_end : Z;
  r_prot : Z;
  r_shared : Z;
  r_file : Z;
  r_wr_ok : Z;
  r_host : Z;
  r_hmap : Z;
  r_path : option string;
  r_file_off : Z;
  r_dev : Z; r_ino : Z;
  r_hostmap : Z;
  r_anon_shm : Z;
  r_shm_size : Z;
  r_mfdcnt : Z;
  r_forkflags : Z;
  r_growsdown : Z;
  r_stack_id : Z;
  r_lock : Z;
  r_special : Z;
  r_shm_lock : Z
}.

Definition RL_LOCKED : Z := 1.
Definition RL_ONFAULT : Z := 2.
Definition RF_DONTFORK : Z := 1.
Definition RF_WIPEONFORK : Z := 2.
Definition STACK_GUARD_GAP : Z := Z.shiftl 256 12.
Definition MMAP_FLOOR : Z := 0x6000000000.

(** A C truth value. *)
Definition tr (z : Z) : bool := negb (z =? 0).

(** ** Updates of a region's fields *)
Definition r_with_range (s e h o : Z) (r : Region) : Region :=
  mkRegion s e (r_prot r) (r_shared r) (r_file r) (r_wr_ok r) h (r_hmap r) (r_path r) o
    (r_dev r) (r_ino r) (r_hostmap r) (r_anon_shm r) (r_shm_size r) (r_mfdcnt r)
    (r_forkflags r) (r_growsdown r) (r_stack_id r) (r_lock r) (r_special r) (r_shm_lock r).
Definition r_with_end (e : Z) (r : Region) : Region :=
  r_with_range (r_start r) e (r_host r) (r_file_off r) r.
Definition r_with_attr (prot fork lock special shm : Z) (path : option string) (r : Region) : Region :=
  mkRegion (r_start r) (r_end r) prot (r_shared r) (r_file r) (r_wr_ok r) (r_host r) (r_hmap r)
    path (r_file_off r) (r_dev r) (r_ino r) (r_hostmap r) (r_anon_shm r) (r_shm_size r)
    (r_mfdcnt r) fork (r_growsdown r) (r_stack_id r) lock special shm.
Definition r_with_prot (p : Z) (r : Region) : Region :=
  r_with_attr p (r_forkflags r) (r_lock r) (r_special r) (r_shm_lock r) (r_path r) r.
Definition r_with_fork (f : Z) (r : Region) : Region :=
  r_with_attr (r_prot r) f (r_lock r) (r_special r) (r_shm_lock r) (r_path r) r.
Definition r_with_lock (l : Z) (r : Region) : Region :=
  r_with_attr (r_prot r) (r_forkflags r) l (r_special r) (r_shm_lock r) (r_path r) r.
Definition r_with_special (v : Z) (r : Region) : Region :=
  r_with_attr (r_prot r) (r_forkflags r) (r_lock r) v (r_shm_lock r) (r_path r) r.
Definition r_with_shm_lock (v : Z) (r : Region) : Region :=
  r_with_attr (r_prot r) (r_forkflags r) (r_lock r) (r_special r) v (r_path r) r.
Definition r_with_path (p : option string) (r : Region) : Region :=
  r_with_attr (r_prot r) (r_forkflags r) (r_lock r) (r_special r) (r_shm_lock r) p r.
Definition r_with_backing (h hm : Z) (r : Region) : Region :=
  mkRegion (r_start r) (r_end r) (r_prot r) (r_shared r) (r_file r) (r_wr_ok r) h hm (r_path r)
    (r_file_off r) (r_dev r) (r_ino r) (r_hostmap r) (r_anon_shm r) (r_shm_size r) (r_mfdcnt r)
    (r_forkflags r) (r_growsdown r) (r_stack_id r) (r_lock r) (r_special r) (r_shm_lock r).
Definition r_with_mfdcnt (v : Z) (r : Region) : Region :=
  mkRegion (r_start r) (r_end r) (r_prot r) (r_shared r) (r_file r) (r_wr_ok r) (r_host r) (r_hmap r)
    (r_path r) (r_file_off r) (r_dev r) (r_ino r) (r_hostmap r) (r_anon_shm r) (r_shm_size r) v
    (r_forkflags r) (r_growsdown r) (r_stack_id r) (r_lock r) (r_special r) (r_shm_lock r).

(** The part of [r] from [s] to [e]: its host slice and its file offset move
    with it (the copies of [region_split_at], [region_punch],
    [guest_remap_move_impl]). *)
Definition r_part (s e : Z) (r : Region) : Region :=
  r_with_range s e (r_host r + (s - r_start r)) (u64 (r_file_off r + (s - r_start r))) r.
Definition r_len (r : Region) : Z := r_end r - r_start r.

(** ** Reading the list *)
Definition contains (va : Z) (r : Region) : bool := (r_start r <=? va) && (va <? r_end r).
Definition overlaps (lo hi : Z) (r : Region) : bool :=
  negb ((r_end r <=? lo) || (hi <=? r_start r)).

(** [as_find_region]. *)
Fixpoint as_find_region (rs : list Region) (va : Z) : option Region :=
  match rs with
  | [] => None
  | r :: rs' => if contains va r then Some r else as_find_region rs' va
  end.

(** [as_next_region]: the region of lowest start that ends above [va]. *)
Fixpoint next_region_from (best : option Region) (rs : list Region) (va : Z) : option Region :=
  match rs with
  | [] => best
  | r :: rs' =>
      if r_end r <=? va then next_region_from best rs' va
      else match best with
           | None => next_region_from (Some r) rs' va
           | Some b => next_region_from (if r_start r <? r_start b then Some r else best) rs' va
           end
  end.
Definition as_next_region (rs : list Region) (va : Z) : option Region :=
  next_region_from None rs va.

(** The insertion of [region_insert]: before the first region that does not
    start below [r]. *)
Fixpoint ins_region (r : Region) (rs : list Region) : list Region :=
  match rs with
  | [] => [r]
  | q :: rs' => if r_start q <? r_start r then q :: ins_region r rs' else r :: rs
  end.

(** The list of [region_delete]. *)
Definition del_region (i : nat) (rs : list Region) : list Region := take i rs ++ drop (S i) rs.

(** [region_mergeable]. *)
Definition path_eqb (p q : option string) : bool := bool_decide (p = q).
Definition region_mergeable (a b : Region) : bool :=
  if negb (r_end a =? r_start b) || negb (r_hmap a =? r_hmap b) then false
  else if negb (r_host a + (r_end a - r_start a) =? r_host b) then false
  else if negb (r_prot a =? r_prot b) || negb (r_shared a =? r_shared b) ||
          negb (r_file a =? r_file b) || negb (r_wr_ok a =? r_wr_ok b) ||
          negb (r_hostmap a =? r_hostmap b) || negb (r_anon_shm a =? r_anon_shm b) ||
          negb (r_shm_size a =? r_shm_size b) || negb (r_mfdcnt a =? r_mfdcnt b) ||
          negb (r_forkflags a =? r_forkflags b) || negb (r_growsdown a =? r_growsdown b) ||
          negb (r_stack_id a =? r_stack_id b) || negb (r_lock a =? r_lock b) ||
          negb (r_special a =? r_special b) || negb (r_shm_lock a =? r_shm_lock b) then false
  else if tr (r_file a) &&
          (negb (u64 (r_file_off a + (r_end a - r_start a)) =? r_file_off b) ||
           negb (r_dev a =? r_dev b) || negb (r_ino a =? r_ino b)) then false
  else path_eqb (r_path a) (r_path b).

(** [as_same_vma], [as_vma_start], [as_vma_end]: the pieces of one stack. *)
Definition as_same_vma (a b : Region) : bool :=
  tr (r_stack_id a) && (r_stack_id a =? r_stack_id b) && (r_end a =? r_start b) &&
  (r_prot a =? r_prot b) && (r_wr_ok a =? r_wr_ok b) &&
  (r_forkflags a =? r_forkflags b) && (r_growsdown a =? r_growsdown b) && (r_lock a =? r_lock b).
Fixpoint as_vma_start_idx (rs : list Region) (i : nat) : nat :=
  match i with
  | O => O
  | S k => match rs !! k, rs !! i with
           | Some a, Some b => if as_same_vma a b then as_vma_start_idx rs k else i
           | _, _ => i
           end
  end.
Definition as_vma_start (rs : list Region) (i : nat) : Z :=
  match rs !! as_vma_start_idx rs i with Some r => r_start r | None => 0 end.
Fixpoint vma_end_from (r : Region) (rs : list Region) : Z :=
  match rs with
  | q :: rs' => if as_same_vma r q then vma_end_from q rs' else r_end r
  | [] => r_end r
  end.
Definition as_vma_end (rs : list Region) (i : nat) : Z :=
  match drop i rs with r :: rs' => vma_end_from r rs' | [] => 0 end.

(** [as_mapped_bytes], [region_is_stack], [as_data_bytes]. *)
Definition as_mapped_bytes (rs : list Region) : Z :=
  fold_left (fun t r => u64 (t + (r_end r - r_start r))) rs 0.
Definition region_is_stack (r : Region) : bool := tr (r_growsdown r).
Definition as_data_bytes (rs : list Region) : Z :=
  fold_left (fun t r =>
    if negb (has (r_prot r) PTE_W) || tr (r_shared r) then t
    else if region_is_stack r then t else u64 (t + (r_end r - r_start r))) rs 0.

(** [as_gap_start] and [as_find_free_impl]: [find_conflict] is the inner
    scan, [find_free_pass] the [while] of one pass. *)
Definition as_gap_start (r : Region) : Z :=
  if negb (tr (r_growsdown r)) then r_start r
  else if STACK_GUARD_GAP <? r_start r then r_start r - STACK_GUARD_GAP else 0.
Fixpoint find_conflict (rs : list Region) (base len : Z) : Z :=
  match rs with
  | [] => 0
  | r :: rs' => if (as_gap_start r <? u64 (base + len)) && (base <? r_end r) then r_end r
                else find_conflict rs' base len
  end.
Fixpoint find_free_pass (fuel : nat) (rs : list Region) (base len : Z) : option Z :=
  match fuel with
  | O => None
  | S f =>
      if u64 (base + len) <=? GUEST_TASK_SIZE - 0x10000000 then
        let conflict := find_conflict rs base len in
        if conflict =? 0 then Some base else find_free_pass f rs conflict len
      else None
  end.
(** The base found, or [None] for the 0 of the source; both passes. Every
    conflict moves [base] to the end of a region and past its start, so a pass
    has at most one turn more than there are regions. *)
Definition as_find_free_scan (rs : list Region) (next len : Z) : option Z :=
  let len := PG_UP len in
  match find_free_pass (S (length rs)) rs next len with
  | Some b => Some b
  | None => find_free_pass (S (length rs)) rs MMAP_FLOOR len
  end.

(** [as_locked_pages]. *)
Definition as_locked_pages (rs : list Region) (start len : Z) : Z :=
  let e := if u64 (start + len) <? start then not64 0 else u64 (start + len) in
  fold_left (fun n r =>
    if (r_end r <=? start) || (e <=? r_start r) || negb (has (r_lock r) RL_LOCKED) then n
    else let lo := if start <? r_start r then r_start r else start in
         let hi := if r_end r <? e then r_end r else e in
         u64 (n + Z.shiftr (hi - lo) 12)) rs 0.

(** [region_by_host_locked]: the file mapping whose backing holds [p]. *)
Fixpoint region_by_host_locked (rs : list Region) (p : Z) : option Region :=
  match rs with
  | [] => None
  | r :: rs' =>
      if tr (r_hostmap r) && (r_host r <=? p) && (p <? r_host r + (r_end r - r_start r))
      then Some r else region_by_host_locked rs' p
  end.

(** [as_page_prot] reads the page table; [as_set_region_path] names pathless
    regions. *)
Definition as_page_prot (pt : PT) (va : Z) : Z := Z.land (pte_get pt va) PTE_FLAGS.
Definition as_set_region_path (rs : list Region) (start e : Z) (path : option string) : list Region :=
  map (fun r => if (r_start r <? e) && (start <? r_end r) && bool_decide (r_path r = None)
                then r_with_path path r else r) rs.

(** Change the first region holding [va] (a write through the pointer
    [as_find_region] returns). *)
Fixpoint upd_region (f : Region -> Region) (rs : list Region) (va : Z) : list Region :=
  match rs with
  | [] => []
  | r :: rs' => if contains va r then f r :: rs' else r :: upd_region f rs' va
  end.

(** ** The invariant *)

Definition aligned (z : Z) : Prop := z mod 4096 = 0.

Record region_ok (r : Region) : Prop := {
  ro_range : 0 <= r_start r < r_end r /\ r_end r <= GUEST_TASK_SIZE;
  ro_start : aligned (r_start r);
  ro_end : aligned (r_end r);
  ro_host : aligned (r_host r);
  ro_host_pos : 0 < r_host r;
  ro_prot : fits 3 (r_prot r);
  ro_off : fits 64 (r_file_off r)
}.

Definition before (a b : Region) : Prop := r_end a <= r_start b.
Definition regions_ok (rs : list Region) : Prop := Forall region_ok rs /\ StronglySorted before rs.

Lemma regions_ok_nil : regions_ok [].
Proof. split; constructor. Qed.
Lemma regions_ok_cons r rs : regions_ok (r :: rs) <->
  region_ok r /\ Forall (before r) rs /\ regions_ok rs.
Proof.
  unfold regions_ok. rewrite Forall_cons_iff. split.
  - intros [[Hr Hrs] Hs]. apply StronglySorted_inv in Hs as [Hs Hb]. done.
  - intros (Hr & Hb & Hrs & Hs). split; [done|]. by constructor.
Qed.
Lemma regions_ok_app l1 l2 : regions_ok (l1 ++ l2) <->
  regions_ok l1 /\ regions_ok l2 /\ Forall (fun a => Forall (before a) l2) l1.
Proof.
  induction l1 as [|a l1 IH]; simpl.
  - split; [intros H; repeat split; [constructor|constructor|apply H|apply H|constructor]|tauto].
  - rewrite !regions_ok_cons, IH, Forall_app, Forall_cons_iff. tauto.
Qed.

(** ** The list as a map from guest address to mapping *)

(** What the guest has mapped at [va], if [r] holds it: [r] cut down to the
    one byte. The file fields count for a file mapping only. *)
Definition slice (va : Z) (r : Region) : Region :=
  mkRegion va (va + 1) (r_prot r) (r_shared r) (r_file r) (r_wr_ok r)
    (r_host r + (va - r_start r)) (r_hmap r) (r_path r)
    (if tr (r_file r) then u64 (r_file_off r + (va - r_start r)) else 0)
    (if tr (r_file r) then r_dev r else 0) (if tr (r_file r) then r_ino r else 0)
    (r_hostmap r) (r_anon_shm r) (r_shm_size r) (r_mfdcnt r) (r_forkflags r)
    (r_growsdown r) (r_stack_id r) (r_lock r) (r_special r) (r_shm_lock r).
Definition look (rs : list Region) (va : Z) : option Region :=
  slice va <$> as_find_region rs va.

Lemma contains_iff va r : contains va r = true <-> r_start r <= va < r_end r.
Proof. unfold contains. rewrite andb_true_iff. lia. Qed.
Lemma contains_false va r : contains va r = false <-> va < r_start r \/ r_end r <= va.
Proof. unfold contains. rewrite andb_false_iff. lia. Qed.
Lemma overlaps_iff lo hi r : overlaps lo hi r = true <-> lo < r_end r /\ r_start r < hi.
Proof. unfold overlaps. rewrite negb_true_iff, orb_false_iff. lia. Qed.

Lemma find_region_some rs va r : as_find_region rs va = Some r ->
  r ∈ rs /\ r_start r <= va < r_end r.
Proof.
  induction rs as [|q rs IH]; simpl; [done|]. destruct (contains va q) eqn:E.
  - intros [= ->]. split; [by left|by apply contains_iff].
  - intros [Hr Hc]%IH. split; [by right|done].
Qed.
Lemma find_region_none rs va r : as_find_region rs va = None -> r ∈ rs ->
  va < r_start r \/ r_end r <= va.
Proof.
  induction rs as [|q rs IH]; simpl; [by rewrite elem_of_nil|].
  destruct (contains va q) eqn:E; [done|]. intros Hf [->|Hr]%elem_of_cons; [by apply contains_false|by apply IH].
Qed.
Lemma find_region_app l1 l2 va : as_find_region (l1 ++ l2) va =
  match as_find_region l1 va with Some r => Some r | None => as_find_region l2 va end.
Proof. induction l1 as [|q l1 IH]; simpl; [done|]. by destruct (contains va q). Qed.
Lemma look_app l1 l2 va :
  look (l1 ++ l2) va = match look l1 va with Some r => Some r | None => look l2 va end.
Proof. unfold look. rewrite find_region_app. by destruct (as_find_region l1 va). Qed.
Lemma look_cons r rs va :
  look (r :: rs) va = if contains va r then Some (slice va r) else look rs va.
Proof. unfold look; simpl. by destruct (contains va r). Qed.
Lemma look_nil va : look [] va = None.
Proof. done. Qed.

(** In a well-formed list the region holding an address is the only one. *)
Lemma find_region_unique rs va r : regions_ok rs -> r ∈ rs -> r_start r <= va < r_end r ->
  as_find_region rs va = Some r.
Proof.
  induction rs as [|q rs IH]; [by rewrite elem_of_nil|].
  intros (Hq & Hb & Hrs)%regions_ok_cons [->|Hr]%elem_of_cons Hc; simpl.
  - by rewrite (proj2 (contains_iff va q)).
  - destruct (contains va q) eqn:E; [|by apply IH]. apply contains_iff in E.
    rewrite list.Forall_forall in Hb. specialize (Hb r Hr). unfold before in Hb. lia.
Qed.
Lemma look_elem rs va r : regions_ok rs -> r ∈ rs -> r_start r <= va < r_end r ->
  look rs va = Some (slice va r).
Proof. intros H1 H2 H3. unfold look. by rewrite (find_region_unique rs va r H1 H2 H3). Qed.
Lemma look_some rs va v : look rs va = Some v ->
  exists r, r ∈ rs /\ r_start r <= va < r_end r /\ v = slice va r.
Proof. unfold look. intros (r & [Hr Hc]%find_region_some & ->)%fmap_Some. eauto. Qed.
Lemma look_none rs va : look rs va = None -> forall r, r ∈ rs -> va < r_start r \/ r_end r <= va.
Proof. unfold look. rewrite fmap_None. intros H r Hr. by apply (find_region_none rs va r). Qed.
Lemma look_before q rs va : Forall (before q) rs -> va < r_end q -> look rs va = None.
Proof.
  intros Hb Hv. destruct (look rs va) as [v|] eqn:E; [|done].
  apply look_some in E as (r & Hr & Hc & _). rewrite list.Forall_forall in Hb. specialize (Hb r Hr).
  unfold before in Hb. lia.
Qed.

(** ** Parts of a region *)
Lemma slice_part s e va r : fits 64 (r_file_off r) -> slice va (r_part s e r) = slice va r.
Proof.
  intros Ho. unfold slice, r_part; simpl. f_equal; [lia|].
  destruct (tr (r_file r)); [|done]. unfold u64. rewrite Zplus_mod_idemp_l. f_equal. lia.
Qed.
Lemma slice_with_end e va r : slice va (r_with_end e r) = slice va r.
Proof. done. Qed.
Lemma region_ok_part s e r : region_ok r -> r_start r <= s < e -> e <= r_end r ->
  aligned s -> aligned e -> region_ok (r_part s e r).
Proof.
  intros [Hr Hs He Hh Hp Hpr Ho] H1 H2 Ha Hb. split; simpl; try done; try lia.
  - unfold aligned in *. rewrite Z.add_mod, Zminus_mod, Ha, Hs, Hh by lia. done.
  - apply fits_u64.
Qed.
Lemma region_ok_with_end e r : region_ok r -> r_start r < e <= r_end r -> aligned e ->
  region_ok (r_with_end e r).
Proof. intros [Hr Hs He Hh Hp Hpr Ho] H1 Ha. split; simpl; try done; lia. Qed.

(** ** Insertion *)

(** [r] overlaps nothing of [rs]. *)
Definition free_of (rs : list Region) (lo hi : Z) : Prop :=
  Forall (fun q => r_end q <= lo \/ hi <= r_start q) rs.

Lemma ins_region_elem r q rs : q ∈ ins_region r rs <-> q = r \/ q ∈ rs.
Proof.
  induction rs as [|a rs IH]; simpl; [rewrite elem_of_cons; tauto|].
  destruct (r_start a <? r_start r); rewrite !elem_of_cons, ?IH; tauto.
Qed.
Lemma ins_region_ok r rs : regions_ok rs -> region_ok r -> free_of rs (r_start r) (r_end r) ->
  regions_ok (ins_region r rs).
Proof.
  intros Hrs Hr Hf. induction rs as [|q rs IH]; simpl.
  - apply regions_ok_cons. split; [done|]. split; [constructor|apply regions_ok_nil].
  - apply Forall_cons_iff in Hf as [Hq Hf]. apply regions_ok_cons in Hrs as (Hok & Hb & Hrs).
    destruct (Z.ltb_spec (r_start q) (r_start r)) as [Hlt|Hge]; apply regions_ok_cons.
    + split; [done|]. split; [|by apply IH]. rewrite list.Forall_forall in *. intros x Hx.
      apply ins_region_elem in Hx as [->|Hx]; [|by apply Hb]. unfold before.
      destruct Hr as [Hr1 _ _ _ _ _ _]. lia.
    + pose proof (ro_range r Hr). pose proof (ro_range q Hok).
      assert (Hrq : r_end r <= r_start q) by lia.
      split; [done|]. split; [|by apply regions_ok_cons].
      constructor; [done|]. rewrite list.Forall_forall in *. intros x Hx. specialize (Hb x Hx).
      unfold before in *. lia.
Qed.
Lemma look_ins r rs va : regions_ok rs -> region_ok r -> free_of rs (r_start r) (r_end r) ->
  look (ins_region r rs) va = if contains va r then Some (slice va r) else look rs va.
Proof.
  intros Hrs Hr Hf. pose proof (ins_region_ok r rs Hrs Hr Hf) as Hi.
  destruct (contains va r) eqn:E.
  - apply contains_iff in E. apply look_elem; [done|apply ins_region_elem; by left|done].
  - apply contains_false in E. destruct (look rs va) as [v|] eqn:El.
    + apply look_some in El as (q & Hq & Hc & ->).
      apply look_elem; [done|apply ins_region_elem; by right|done].
    + destruct (look (ins_region r rs) va) as [v|] eqn:Ei; [|done].
      apply look_some in Ei as (q & Hq & Hc & ->). apply ins_region_elem in Hq as [->|Hq]; [lia|].
      pose proof (look_none rs va El q Hq). lia.
Qed.

(** ** Replacing one region by parts of it *)

Definition within (r x : Region) : Prop := r_start r <= r_start x /\ r_end x <= r_end r.

Lemma look_mid l1 m l2 va : regions_ok (l1 ++ m ++ l2) ->
  look (l1 ++ m ++ l2) va = match look m va with Some v => Some v | None => look (l1 ++ l2) va end.
Proof.
  intros Hok. rewrite !look_app. destruct (look m va) as [v|] eqn:Em; [|done].
  destruct (look l1 va) as [w|] eqn:E1; [|done]. exfalso.
  apply look_some in Em as (x & Hx & Hcx & _). apply look_some in E1 as (y & Hy & Hcy & _).
  apply regions_ok_app in Hok as (_ & _ & Hb). rewrite list.Forall_forall in Hb.
  specialize (Hb y Hy). apply Forall_app in Hb as [Hb _]. rewrite list.Forall_forall in Hb.
  specialize (Hb x Hx). unfold before in Hb. lia.
Qed.
Lemma regions_ok_mid l1 r m l2 : regions_ok (l1 ++ [r] ++ l2) -> regions_ok m ->
  Forall (within r) m -> regions_ok (l1 ++ m ++ l2).
Proof.
  rewrite !regions_ok_app. intros (H1 & (Hr & H2 & H2b) & H1b) Hm Hw.
  rewrite list.Forall_forall in Hw.
  split; [done|]. split; [split; [done|]; split; [done|]|].
  - apply Forall_cons_iff in H2b as [H2b _]. rewrite list.Forall_forall in *. intros x Hx.
    rewrite list.Forall_forall. intros z Hz. specialize (H2b z Hz). destruct (Hw x Hx).
    unfold before in *. lia.
  - rewrite list.Forall_forall in *. intros x Hx. specialize (H1b x Hx).
    apply Forall_app in H1b as [Hxr Hx2]. apply Forall_app. split; [|done].
    apply Forall_cons_iff in Hxr as [Hxr _]. rewrite list.Forall_forall. intros y Hy.
    destruct (Hw y Hy). unfold before in *. lia.
Qed.
Lemma look_replace l1 r m l2 : regions_ok (l1 ++ [r] ++ l2) -> regions_ok m ->
  Forall (within r) m -> forall va,
  look (l1 ++ m ++ l2) va = if contains va r then look m va else look (l1 ++ [r] ++ l2) va.
Proof.
  intros Hok Hm Hw va. pose proof (regions_ok_mid l1 r m l2 Hok Hm Hw) as Hok'.
  rewrite !look_mid by done. rewrite look_cons, look_nil. destruct (contains va r) eqn:E.
  - destruct (look m va); [done|]. pose proof (look_mid l1 [] l2 va) as Hn; simpl in Hn.
    destruct (look (l1 ++ l2) va) as [v|] eqn:El; [|done]. exfalso.
    apply look_some in El as (x & Hx & Hc & _). apply contains_iff in E.
    assert (Hxr : as_find_region (l1 ++ [r] ++ l2) va = Some x).
    { apply find_region_unique; [done| |done]. rewrite !elem_of_app. apply elem_of_app in Hx. tauto. }
    assert (Hrr : as_find_region (l1 ++ [r] ++ l2) va = Some r).
    { apply find_region_unique; [done| |done]. rewrite !elem_of_app. right. left. by left. }
    assert (x = r) as -> by congruence. apply elem_of_app in Hx as [Hx|Hx].
    + apply regions_ok_app in Hok as (_ & _ & Hb). rewrite list.Forall_forall in Hb.
      specialize (Hb r Hx). apply Forall_app in Hb as [Hb _]. apply Forall_cons_iff in Hb as [Hb _].
      unfold before in Hb. lia.
    + apply regions_ok_app in Hok as (_ & Hok & _). apply regions_ok_app in Hok as (_ & _ & Hb).
      apply Forall_cons_iff in Hb as [Hb _]. rewrite list.Forall_forall in Hb. specialize (Hb r Hx).
      unfold before in Hb. lia.
  - destruct (look m va) as [v|] eqn:Em; [|done]. exfalso.
    apply look_some in Em as (x & Hx & Hc & _). rewrite list.Forall_forall in Hw.
    destruct (Hw x Hx). apply contains_false in E. lia.
Qed.

(** The region at an index, and the rest. *)
Lemma split_at_index (rs : list Region) i r : rs !! i = Some r ->
  rs = take i rs ++ [r] ++ drop (S i) rs.
Proof. intros H. simpl. by rewrite take_drop_middle. Qed.
Lemma insert_index (rs : list Region) i r x : rs !! i = Some r ->
  <[i := x]> rs = take i rs ++ [x] ++ drop (S i) rs.
Proof. intros H. rewrite insert_take_drop; [done|]. by apply lookup_lt_Some in H. Qed.

(** [region_delete]: the region goes, the others stay. *)
Lemma del_region_ok rs i r : regions_ok rs -> rs !! i = Some r -> regions_ok (del_region i rs) /\
  forall va, look (del_region i rs) va = if contains va r then None else look rs va.
Proof.
  intros Hok Hi. rewrite (split_at_index rs i r Hi) in Hok.
  unfold del_region. split.
  - change (take i rs ++ drop (S i) rs) with (take i rs ++ [] ++ drop (S i) rs).
    apply (regions_ok_mid _ r); [done|apply regions_ok_nil|constructor].
  - intros va. pose proof (look_replace _ r [] _ Hok regions_ok_nil ltac:(constructor) va) as H.
    rewrite <- (split_at_index rs i r Hi) in H. done.
Qed.
(** A region replaced by a part of itself. *)
Lemma set_region_ok rs i r x : regions_ok rs -> rs !! i = Some r -> region_ok x -> within r x ->
  regions_ok (<[i := x]> rs) /\
  forall va, look (<[i := x]> rs) va =
    if contains va r then (if contains va x then Some (slice va x) else None) else look rs va.
Proof.
  intros Hok Hi Hx Hw. rewrite (insert_index rs i r x Hi). rewrite (split_at_index rs i r Hi) in Hok.
  assert (Hm : regions_ok [x]).
  { apply regions_ok_cons. split; [done|]. split; [constructor|apply regions_ok_nil]. }
  assert (HW : Forall (within r) [x]) by (constructor; [done|constructor]).
  split; [by apply (regions_ok_mid _ r)|]. intros va.
  rewrite (look_replace _ r [x] _ Hok Hm HW va), <- (split_at_index rs i r Hi), look_cons. done.
Qed.

(** [ins_region] of a piece that belongs right after the region at [i]. *)
Lemma ins_after l1 r t l2 : Forall (fun q => r_start q < r_start t) (l1 ++ [r]) ->
  Forall (fun q => r_start t <= r_start q) l2 ->
  ins_region t (l1 ++ r :: l2) = l1 ++ r :: t :: l2.
Proof.
  intros H1 H2. induction l1 as [|a l1 IH]; simpl in *.
  - apply Forall_cons_iff in H1 as [H1 _]. rewrite (proj2 (Z.ltb_lt _ _) H1). f_equal.
    destruct l2 as [|b l2]; [done|]. apply Forall_cons_iff in H2 as [H2 _]. simpl.
    by rewrite (proj2 (Z.ltb_ge _ _) H2).
  - apply Forall_cons_iff in H1 as [Ha H1]. rewrite (proj2 (Z.ltb_lt _ _) Ha). f_equal. by apply IH.
Qed.

(** Cutting [r], at index [i], into what lies below [lo] and what lies from
    [hi] on, as [region_split_at] and the middle case of [region_punch] do. *)
Lemma cut_region_ok rs i r lo hi : regions_ok rs -> rs !! i = Some r ->
  r_start r < lo -> lo <= hi -> hi < r_end r -> aligned lo -> aligned hi ->
  let rs' := ins_region (r_part hi (r_end r) r) (<[i := r_with_end lo r]> rs) in
  regions_ok rs' /\ 
  forall va, look rs' va = if (lo <=? va) && (va <? hi) then None else look rs va.
Proof.
  intros Hok Hi Hlo Hle Hhi Ha Hb. cbn zeta.
  assert (Hr : region_ok r).
  { destruct Hok as [HF _]. by apply (Forall_lookup_1 _ _ _ _ HF Hi). }
  pose proof Hr as [Hr1 Hr2 Hr3 Hr4 Hr5 Hr6 Hr7].
  destruct (set_region_ok rs i r (r_with_end lo r) Hok Hi) as [Hok1 Hl1].
  { apply region_ok_with_end; [done|lia|done]. } { split; simpl; lia. }
  assert (Ht : region_ok (r_part hi (r_end r) r)) by (apply region_ok_part; try done; lia).
  assert (Hf : free_of (<[i := r_with_end lo r]> rs) hi (r_end r)).
  { apply list.Forall_forall. intros q Hq.
    destruct (decide (r_end q <= hi)); [by left|]. destruct (decide (r_end r <= r_start q)); [by right|].
    exfalso. assert (Hq1 : region_ok q) by (destruct Hok1 as [HF _]; rewrite list.Forall_forall in HF; by apply HF).
    pose proof (ro_range q Hq1). set (w := Z.max hi (r_start q)).
    specialize (Hl1 w). rewrite (look_elem _ w q Hok1 Hq) in Hl1 by lia.
    rewrite (proj2 (contains_iff w r)) in Hl1 by lia.
    destruct (contains w (r_with_end lo r)) eqn:E; [|done]. apply contains_iff in E. simpl in E. lia. }
  split; [by apply ins_region_ok|]. intros va. rewrite look_ins by done.
  destruct (contains va (r_part hi (r_end r) r)) eqn:E.
  - apply contains_iff in E. simpl in E. rewrite slice_part by done.
    rewrite (proj2 (andb_false_iff _ _)) by lia.
    symmetry. apply look_elem; [done|by apply (list_elem_of_lookup_2 _ i)|lia].
  - apply contains_false in E. simpl in E. rewrite Hl1. destruct (contains va r) eqn:Er.
    + apply contains_iff in Er. destruct (contains va (r_with_end lo r)) eqn:Ee.
      * apply contains_iff in Ee. simpl in Ee. rewrite (proj2 (andb_false_iff _ _)) by lia.
        rewrite slice_with_end. symmetry. apply look_elem; [done|by apply (list_elem_of_lookup_2 _ i)|lia].
      * apply contains_false in Ee. simpl in Ee. by rewrite (proj2 (andb_true_iff _ _)) by lia.
    + apply contains_false in Er. by rewrite (proj2 (andb_false_iff _ _)) by lia.
Qed.

(** ** Merging *)
Lemma mergeable_inv a b : region_mergeable a b = true ->
  r_end a = r_start b /\ r_hmap a = r_hmap b /\ r_host a + (r_end a - r_start a) = r_host b /\
  (forall va, slice va b = slice va a).
Proof.
  unfold region_mergeable, path_eqb. 
  destruct (_ || _) eqn:E1; [done|]. apply orb_false_iff in E1 as [E1 E2].
  destruct (negb (r_host a + _ =? _)) eqn:E3; [done|].
  destruct (_ || _) eqn:E4; [done|]. destruct (_ && _) eqn:E5; [done|].
  rewrite !orb_false_iff, !negb_false_iff, !Z.eqb_eq in E4.
  rewrite negb_false_iff, Z.eqb_eq in E1, E2, E3.
  rewrite bool_decide_eq_true. intros E6. split; [done|]. split; [done|]. split; [done|].
  intros va. unfold slice. decompose [and] E4. f_equal; try congruence; try lia.
  all: replace (r_file b) with (r_file a) by congruence; destruct (tr (r_file a)); [|done].
  all: simpl in E5; rewrite !orb_false_iff, !negb_false_iff, !Z.eqb_eq in E5; destruct E5 as [[E5 ?] ?].
  - rewrite <- E5. unfold u64. rewrite Zplus_mod_idemp_l. f_equal. lia.
  - done.
  - done.
Qed.

Lemma merge_region_ok rs i a b : regions_ok rs -> rs !! i = Some a -> rs !! S i = Some b ->
  region_mergeable a b = true ->
  let rs' := del_region (S i) (<[i := r_with_end (r_end b) a]> rs) in
  regions_ok rs' /\ forall va, look rs' va = look rs va.
Proof.
  intros Hok Ha Hb (He & _ & _ & Hs)%mergeable_inv. cbn zeta.
  assert (Hd : drop (S i) rs = [b] ++ drop (S (S i)) rs) by (by apply drop_S).
  pose proof (split_at_index rs i a Ha) as Esp. rewrite Hd in Esp.
  set (l1 := take i rs) in *. set (l2 := drop (S (S i)) rs) in *. set (x := r_with_end (r_end b) a).
  assert (Hl : length l1 = i).
  { unfold l1. rewrite length_take. apply lookup_lt_Some in Ha. lia. }
  assert (Hrs' : del_region (S i) (<[i := x]> rs) = l1 ++ [x] ++ l2).
  { rewrite Esp, <- Hl. rewrite insert_app_r_alt, Nat.sub_diag by lia. simpl.
    unfold del_region. rewrite take_app_ge, drop_app_ge by lia.
    replace (S (length l1) - length l1)%nat with 1%nat by lia.
    replace (S (S (length l1)) - length l1)%nat with 2%nat by lia. simpl. by rewrite <- app_assoc. }
  rewrite Hrs'. rewrite Esp in Hok.
  pose proof Hok as Hok0. apply regions_ok_app in Hok as (H1 & H2 & H12).
  apply regions_ok_cons in H2 as (Hoa & Hab & H2). apply regions_ok_cons in H2 as (Hob & Hb2 & H2).
  assert (Hx : region_ok x).
  { destruct Hoa, Hob. split; simpl; try done. unfold before in *. lia. }
  assert (Hok' : regions_ok (l1 ++ [x] ++ l2)).
  { apply regions_ok_app. split; [done|]. split.
    - apply regions_ok_cons. split; [done|]. split; [|done]. apply (list.Forall_impl _ _ _ Hb2).
      unfold before. simpl. tauto.
    - apply (list.Forall_impl _ _ _ H12). intros q Hq. apply Forall_cons_iff in Hq as [Hqa Hq].
      apply Forall_cons_iff in Hq as [Hqb Hq]. constructor; [|done]. exact Hqa. }
  split; [done|]. intros va. rewrite Esp, look_mid by done.
  change (l1 ++ [a] ++ [b] ++ l2) with (l1 ++ [a; b] ++ l2) in *. rewrite (look_mid l1 [a; b] l2) by done.
  rewrite !look_cons, !look_nil, Hs.
  replace (contains va x) with (contains va a || contains va b).
  - destruct (contains va a), (contains va b); simpl; try done.
  - unfold contains, x; simpl. pose proof (ro_range _ Hoa). pose proof (ro_range _ Hob).
    zbool; lia.
Qed.

(** ** Finding free ground *)

(** [base, base + len) is free of mappings, and of the gap below a stack. *)
Definition gap_free (rs : list Region) (base len : Z) : Prop :=
  Forall (fun r => base + len <= as_gap_start r \/ r_end r <= base) rs.
Definition FREE_LIMIT : Z := GUEST_TASK_SIZE - 0x10000000.

Lemma gap_start_le r : 0 <= r_start r -> 0 <= as_gap_start r <= r_start r.
Proof.
  intros H. unfold as_gap_start. change STACK_GUARD_GAP with 1048576.
  destruct (negb _); [lia|]. destruct (Z.ltb_spec 1048576 (r_start r)); lia.
Qed.
Lemma gap_free_free rs base len : regions_ok rs -> gap_free rs base len -> free_of rs base (base + len).
Proof.
  intros [HF _] Hg. unfold gap_free, free_of in *. rewrite list.Forall_forall in *. intros r Hr.
  pose proof (gap_start_le r ltac:(pose proof (ro_range r (HF r Hr)); lia)).
  destruct (Hg r Hr); lia.
Qed.
(** The scan finds no conflict exactly when the range is free. *)
Lemma find_conflict_spec rs base len : Forall region_ok rs -> 0 <= base -> 0 <= len ->
  base + len < 2 ^ 64 ->
  if find_conflict rs base len =? 0 then gap_free rs base len
  else exists r, r ∈ rs /\ find_conflict rs base len = r_end r /\
                 as_gap_start r < base + len /\ base < r_end r.
Proof.
  intros HF Hb Hl Hw. assert (E64 : u64 (base + len) = base + len) by (apply u64_small; unfold fits; lia).
  induction rs as [|r rs IH]; simpl; [constructor|]. apply Forall_cons_iff in HF as [Hr HF].
  rewrite E64. destruct (Z.ltb_spec (as_gap_start r) (base + len)), (Z.ltb_spec base (r_end r)); simpl.
  - pose proof (ro_range r Hr). rewrite (proj2 (Z.eqb_neq (r_end r) 0)) by lia.
    exists r. split; [by left|done].
  - specialize (IH HF). destruct (find_conflict rs base len =? 0); [constructor; [by right|done]|].
    destruct IH as (q & Hq & ?). exists q. split; [by right|done].
  - specialize (IH HF). destruct (find_conflict rs base len =? 0); [constructor; [by left|done]|].
    destruct IH as (q & Hq & ?). exists q. split; [by right|done].
  - specialize (IH HF). destruct (find_conflict rs base len =? 0); [constructor; [by left|done]|].
    destruct IH as (q & Hq & ?). exists q. split; [by right|done].
Qed.

(** The regions a pass may still stumble over. *)
Definition ahead (rs : list Region) (base : Z) : nat := length (filter (fun r => base < r_end r) rs).
Lemma ahead_le rs base : (ahead rs base <= length rs)%nat.
Proof. apply length_filter. Qed.
Lemma ahead_lt rs base base' r : r ∈ rs -> base < r_end r -> base' = r_end r ->
  (ahead rs base' < ahead rs base)%nat.
Proof.
  intros Hr Hb ->. unfold ahead. induction rs as [|q rs IH]; [by apply elem_of_nil in Hr|].
  assert (Hmono : forall l : list Region,
    (length (filter (fun q => (r_end r < r_end q)%Z) l) <=
     length (filter (fun q => (base < r_end q)%Z) l))%nat).
  { intros l. induction l as [|x l IHl]; [done|]. rewrite !filter_cons.
    repeat case_decide; simpl; lia. }
  rewrite !filter_cons. apply elem_of_cons in Hr as [<-|Hr].
  - rewrite decide_False, decide_True by lia. simpl. specialize (Hmono rs). lia.
  - specialize (IH Hr). repeat case_decide; simpl; lia.
Qed.

(** A pass answers, and answers right: a free range at or above where it
    started, or that there is none. *)
Lemma find_free_pass_spec fuel rs base len : Forall region_ok rs -> 0 <= base -> 0 <= len ->
  base < 2 ^ 48 -> len < 2 ^ 48 -> (ahead rs base < fuel)%nat ->
  match find_free_pass fuel rs base len with
  | Some b => base <= b /\ b + len <= FREE_LIMIT /\ gap_free rs b len /\
              (b = base \/ exists r, r ∈ rs /\ b = r_end r)
  | None => forall b, base <= b -> b + len <= FREE_LIMIT -> gap_free rs b len -> False
  end.
Proof.
  intros HF. revert base. induction fuel as [|f IH]; intros base Hb Hl Hbb Hll Hfu; [lia|]. simpl.
  assert (E64 : u64 (base + len) = base + len) by (apply u64_small; unfold fits; lia).
  rewrite E64. fold FREE_LIMIT. destruct (Z.leb_spec (base + len) FREE_LIMIT) as [Hlim|Hlim]; [|lia].
  pose proof (find_conflict_spec rs base len HF Hb Hl ltac:(lia)) as Hc.
  destruct (find_conflict rs base len =? 0).
  { split; [lia|]. split; [done|]. split; [done|by left]. }
  destruct Hc as (r & Hr & -> & Hg & He).
  assert (Hro : region_ok r) by (rewrite list.Forall_forall in HF; by apply HF).
  pose proof (ro_range r Hro) as Hrr. change GUEST_TASK_SIZE with (2 ^ 47) in Hrr.
  specialize (IH (r_end r) ltac:(lia) Hl ltac:(lia) Hll).
  pose proof (ahead_lt rs base (r_end r) r Hr He eq_refl). specialize (IH ltac:(lia)).
  destruct (find_free_pass f rs (r_end r) len) as [b|].
  - destruct IH as (H1 & H2 & H3 & H4). split; [lia|]. split; [done|]. split; [done|]. right.
    destruct H4 as [->|H4]; [by exists r|done].
  - intros b Hb1 Hb2 Hgf. apply (IH b); [|done|done].
    unfold gap_free in Hgf. rewrite list.Forall_forall in Hgf. specialize (Hgf r Hr). lia.
Qed.

(** Two places of the list never hold one address. *)
Lemma sorted_lookup rs i j a b : StronglySorted before rs -> rs !! i = Some a -> rs !! j = Some b ->
  (i < j)%nat -> before a b.
Proof.
  intros HS. revert i j. induction HS as [|q l HS IH HF]; intros i j Ha Hb Hij; [done|].
  destruct j as [|j]; [lia|]. destruct i as [|i]; simpl in *.
  - injection Ha as ->. by apply (Forall_lookup_1 _ _ _ _ HF Hb).
  - apply (IH i j); [done|done|lia].
Qed.
Lemma index_unique rs i j a b va : regions_ok rs -> rs !! i = Some a -> rs !! j = Some b ->
  r_start a <= va < r_end a -> r_start b <= va < r_end b -> i = j.
Proof.
  intros [_ HS] Ha Hb Hva Hvb. destruct (Nat.lt_total i j) as [H|[H|H]]; [|done|].
  - pose proof (sorted_lookup _ _ _ _ _ HS Ha Hb H) as Hx. unfold before in Hx. lia.
  - pose proof (sorted_lookup _ _ _ _ _ HS Hb Ha H) as Hx. unfold before in Hx. lia.
Qed.
