(* ===== verification/Epoch.v ===== *)
(** * Epoch: the D-TLB, the address-space generation and the published epochs

    Every guest thread caches translations in a direct-mapped D-TLB of its
    own (mem.c). A change of the page table bumps one shared generation, and
    a thread that finds its D-TLB older than the generation empties it. When
    it does it publishes the generation its D-TLB now reflects in a table of
    slots, so that host memory taken out of the address space can be released
    once no thread can still hold a pointer into it. Here are the thread's
    part ([Tlb]), the table ([Pub]) and the routines on them. Each routine on
    the table is one atomic step: its stores are to the calling thread's own
    slot, and the claim of a slot is decided by one compare-and-swap. *)

From stdpp Require Import gmap.
From S2P Require Import Prelude Types Cpu MemSeam PageTable.

Definition DTLB_SIZE : Z := Z.shiftl 1 10.
Definition AS_PUB_MAX : Z := 4096.

(** One entry of [g_pub]. *)
Record PubSlot := mkSlot { ps_tid : Z; ps_blocked : bool; ps_gen : Z }.
Definition slot_zero : PubSlot := mkSlot 0 false 0.

(** [g_pub] (an index that was never written is zero), [g_pub_hi],
    [g_pub_over], and [A64_TLBPUB_MAX] as [pub_cap] reads it ([None] when the
    variable is not set). *)
Record Pub := mkPub { pub_slots : gmap Z PubSlot; pub_hi : Z; pub_over : Z; pub_env : option Z }.
Definition slot_at (p : Pub) (i : Z) : PubSlot := default slot_zero (pub_slots p !! i).
Definition set_slot (i : Z) (v : PubSlot) (p : Pub) : Pub :=
  mkPub (<[i := v]> (pub_slots p)) (pub_hi p) (pub_over p) (pub_env p).
Definition set_hi (h : Z) (p : Pub) : Pub := mkPub (pub_slots p) h (pub_over p) (pub_env p).
Definition set_over (o : Z) (p : Pub) : Pub := mkPub (pub_slots p) (pub_hi p) o (pub_env p).

(** [pub_cap]. *)
Definition pub_cap (p : Pub) : Z :=
  let c := match pub_env p with Some e => e | None => AS_PUB_MAX end in
  if c <? 1 then 1 else if AS_PUB_MAX <? c then AS_PUB_MAX else c.

(** The thread-local part: [g_dtlb] (entry by index: page and PTE, absent when
    zero), [g_dtlb_gen], [g_fcache], [g_pub_slot], [g_pub_over_self],
    [g_pub_tid] and the id [gettid] gives this thread. *)
Record Tlb := mkTlb {
  t_dtlb : gmap Z (Z * Z); t_dgen : Z; t_fc : option (Z * Z);
  t_slot : Z; t_over : bool; t_ptid : Z; t_tid : Z
}.
Definition tlb_init (tid : Z) : Tlb := mkTlb ∅ 0 None (-1) false 0 tid.
Definition with_dtlb (d : gmap Z (Z * Z)) (g : Z) (t : Tlb) : Tlb :=
  mkTlb d g (t_fc t) (t_slot t) (t_over t) (t_ptid t) (t_tid t).
Definition with_fc (f : option (Z * Z)) (t : Tlb) : Tlb :=
  mkTlb (t_dtlb t) (t_dgen t) f (t_slot t) (t_over t) (t_ptid t) (t_tid t).
Definition with_pub (slot : Z) (over : bool) (ptid : Z) (t : Tlb) : Tlb :=
  mkTlb (t_dtlb t) (t_dgen t) (t_fc t) slot over ptid (t_tid t).

(** [tlb_flush_all]: the D-TLB is emptied at the next lookup. *)
Definition tlb_flush (t : Tlb) : Tlb := with_fc None (with_dtlb (t_dtlb t) 0 t).

(** The reuse scan of [dtlb_claim_slot]: the first free index below [hi]. *)
Fixpoint free_slot (n : nat) (i : Z) (p : Pub) : option Z :=
  match n with
  | O => None
  | S k => if ps_tid (slot_at p i) =? 0 then Some i else free_slot k (i + 1) p
  end.

(** [claimed:] and the fall-through of a full table. *)
Definition claim_done (i : Z) (pt : Pub * Tlb) : Pub * Tlb :=
  let '(p, t) := pt in
  let s := slot_at p i in
  let p := set_slot i (mkSlot (t_ptid t) (ps_blocked s) (ps_gen s)) p in
  let p := if t_over t then set_over (pub_over p - 1) p else p in
  (p, with_pub i false (t_ptid t) t).
Definition claim_full (pt : Pub * Tlb) : Pub * Tlb :=
  let '(p, t) := pt in
  if t_over t then (p, t)
  else (set_over (pub_over p + 1) p, with_pub (t_slot t) true (t_ptid t) t).

(** [dtlb_claim_slot]: reuse a slot below the mark, else take the next one,
    else count this thread as unregistered. The retry of the source is for a
    slot above the mark that another thread took first; [fuel] bounds it, and
    the mark rises by one each time. *)
Fixpoint claim_loop (fuel : nat) (pt : Pub * Tlb) : bool * (Pub * Tlb) :=
  match fuel with
  | O => (false, claim_full pt)
  | S f =>
      let '(p, t) := pt in
      let cap := pub_cap p in
      let hi := if cap <? pub_hi p then cap else pub_hi p in
      match free_slot (Z.to_nat hi) 0 p with
      | Some i => (true, claim_done i pt)
      | None =>
          if cap <=? hi then (false, claim_full pt)
          else
            let i := pub_hi p in
            let p := set_hi (pub_hi p + 1) p in
            if ps_tid (slot_at p i) =? 0 then (true, claim_done i (p, t))
            else claim_loop f (p, t)
      end
  end.
Definition dtlb_claim_slot (pt : Pub * Tlb) : bool * (Pub * Tlb) :=
  let '(p, t) := pt in
  let t := if t_ptid t =? 0 then with_pub (t_slot t) (t_over t) (t_tid t) t else t in
  claim_loop (Z.to_nat (pub_cap p) + 1) (p, t).

(** [dtlb_publish]. *)
Definition publish_gen (gen : Z) (pt : Pub * Tlb) : Pub * Tlb :=
  let '(p, t) := pt in
  let s := slot_at p (t_slot t) in
  (set_slot (t_slot t) (mkSlot (ps_tid s) (ps_blocked s) gen) p, t).
Definition dtlb_publish (gen : Z) (pt : Pub * Tlb) : Pub * Tlb :=
  let '(p, t) := pt in
  if t_slot t <? 0 then
    match dtlb_claim_slot (p, t) with
    | (true, pt') => publish_gen gen pt'
    | (false, pt') => pt'
    end
  else publish_gen gen (p, t).

(** [dtlb_safe_gen]: the oldest generation a registered, unblocked thread has
    published; [~0UL] if there is none, 0 while a thread is unregistered. *)
Fixpoint safe_loop_gen (n : nat) (i : Z) (p : Pub) (safe : Z) : Z :=
  match n with
  | O => safe
  | S k =>
      let s := slot_at p i in
      safe_loop_gen k (i + 1) p
        (if ps_tid s =? 0 then safe
         else if ps_blocked s then safe
         else if ps_gen s <? safe then ps_gen s else safe)
  end.
Definition dtlb_safe_gen (p : Pub) : Z :=
  if negb (pub_over p =? 0) then 0
  else
    let hi := if AS_PUB_MAX <? pub_hi p then AS_PUB_MAX else pub_hi p in
    safe_loop_gen (Z.to_nat hi) 0 p (not64 0).

(** [dtlb_unpublish]: a thread leaving. *)
Definition dtlb_unpublish (pt : Pub * Tlb) : Pub * Tlb :=
  let '(p, t) := pt in
  let '(p, t) := if t_over t then (set_over (pub_over p - 1) p, with_pub (t_slot t) false (t_ptid t) t)
                 else (p, t) in
  if t_slot t <? 0 then (p, t)
  else (set_slot (t_slot t) slot_zero p, with_pub (-1) (t_over t) (t_ptid t) t).

(** [as_tlb_fork_child]: the child keeps the forking thread's slot alone, as
    slot 0; [newtid] is the child's [gettid]. *)
Definition as_tlb_fork_child (newtid : Z) (pt : Pub * Tlb) : Pub * Tlb :=
  let '(p, t) := pt in
  let mine := t_slot t in
  let s := if mine <? 0 then slot_zero else slot_at p mine in
  let p := mkPub ∅ 0 (if t_over t then 1 else 0) (pub_env p) in
  let t := mkTlb (t_dtlb t) (t_dgen t) (t_fc t) (t_slot t) (t_over t) newtid newtid in
  if mine <? 0 then (p, t)
  else (set_hi 1 (set_slot 0 (mkSlot newtid (ps_blocked s) (ps_gen s)) p),
        with_pub 0 (t_over t) newtid t).

(** [jit_dtlb_reset], which is also [as_tlb_quiesce_self]. *)
Definition jit_dtlb_reset (gen : Z) (pt : Pub * Tlb) : Pub * Tlb :=
  let '(p, t) := pt in
  dtlb_publish gen (p, with_fc None (with_dtlb ∅ gen t)).

(** [as_tlb_block_begin], [as_tlb_block_end]: the syscall dispatch. *)
Definition set_blocked (b : bool) (pt : Pub * Tlb) : Pub * Tlb :=
  let '(p, t) := pt in
  if t_slot t <? 0 then (p, t)
  else let s := slot_at p (t_slot t) in (set_slot (t_slot t) (mkSlot (ps_tid s) b (ps_gen s)) p, t).
Definition as_tlb_block_begin (pt : Pub * Tlb) : Pub * Tlb :=
  let '(p, t) := pt in
  set_blocked true (if t_slot t <? 0 then dtlb_publish (t_dgen t) (p, t) else (p, t)).
Definition as_tlb_block_end (pt : Pub * Tlb) : Pub * Tlb := set_blocked false pt.

(** The head of [translate]: a D-TLB older than [gen] is emptied. *)
Definition dtlb_sync (gen : Z) (pt : Pub * Tlb) : Pub * Tlb :=
  let '(p, t) := pt in
  if gen =? t_dgen t then (p, t)
  else dtlb_publish gen (p, with_dtlb ∅ gen t).
(** The direct-mapped lookup and fill. *)
Definition dtlb_index (pg : Z) : Z := Z.land pg (DTLB_SIZE - 1).
Definition dtlb_hit (t : Tlb) (pg : Z) : option Z :=
  match t_dtlb t !! dtlb_index pg with
  | Some (q, pte) => if negb (pte =? 0) && (q =? pg) then Some pte else None
  | None => None
  end.
Definition dtlb_fill (pg pte : Z) (t : Tlb) : Tlb :=
  with_dtlb (<[dtlb_index pg := (pg, pte)]> (t_dtlb t)) (t_dgen t) t.

(** ** What the routines on the table leave of the D-TLB *)
Record same_tlb (t t' : Tlb) : Prop := {
  stl_dtlb : t_dtlb t' = t_dtlb t;
  stl_dgen : t_dgen t' = t_dgen t;
  stl_fc : t_fc t' = t_fc t;
  stl_tid : t_tid t' = t_tid t
}.
Lemma same_tlb_pub slot over ptid t : same_tlb t (with_pub slot over ptid t).
Proof. done. Qed.
Lemma claim_keeps f p t : same_tlb t (snd (snd (claim_loop f (p, t)))).
Proof.
  revert p. induction f as [|f IH]; intros p; simpl; [by destruct (t_over t)|].
  destruct (free_slot _ _ _); [done|]. destruct (pub_cap p <=? _); [simpl; by destruct (t_over t)|].
  destruct (ps_tid _ =? 0); [done|apply IH].
Qed.
Lemma publish_keeps gen p t : same_tlb t (snd (dtlb_publish gen (p, t))).
Proof.
  unfold dtlb_publish. destruct (t_slot t <? 0); [|done]. unfold dtlb_claim_slot.
  set (u := if t_ptid t =? 0 then _ else t). assert (Hu : same_tlb t u) by (unfold u; by destruct (_ =? 0)).
  pose proof (claim_keeps (Z.to_nat (pub_cap p) + 1) p u) as [H1 H2 H3 H4]. destruct Hu as [U1 U2 U3 U4].
  destruct (claim_loop _ (p, u)) as [[] [q v]]; simpl in *; split; simpl; congruence.
Qed.
(** After the head of [translate] the D-TLB is of the current generation:
    as it was, or empty. *)
Lemma sync_spec gen p t :
  t_dgen (snd (dtlb_sync gen (p, t))) = gen /\
  ((t_dgen t = gen /\ dtlb_sync gen (p, t) = (p, t)) \/
   (t_dgen t <> gen /\ t_dtlb (snd (dtlb_sync gen (p, t))) = ∅)).
Proof.
  unfold dtlb_sync. destruct (Z.eqb_spec gen (t_dgen t)) as [->|Hne]; [auto|].
  destruct (publish_keeps gen p (with_dtlb ∅ gen t)) as [H1 H2 _ _]. rewrite H1, H2. auto.
Qed.
