(* ===== verification/AsState.v ===== *)
(** * AsState: the state of mem.c and the host calls it makes

    [AS] is [struct AddrSpace] (mmu.h); [MS] is everything the routines of
    mem.c read and write: the address space, the HostMap records the regions
    refer to, the generation and the epoch table, the running thread's D-TLB,
    the vfork write tracking, and what the host keeps for the emulator: its
    memory mappings and their bytes. The host kernel is the class [HostOs],
    whose answers may depend on a state of its own; [HostOsOk] is what mmap(2)
    and mremap(2) promise and mem.c relies on. An allocation of the
    emulator's own bookkeeping that fails ends the process (exit 127) and is
    not modelled. *)

From stdpp Require Import gmap.
From S2P Require Import Prelude Types Cpu MemSeam PageTable Regions Epoch.

(** [struct HostMap]: one host allocation. [orphan_next] is the order of
    [as_orphans]. *)
Record HostMap := mkHM {
  hm_base : Z; hm_len : Z; hm_refs : Z; hm_pins : Z;
  hm_rw_lo : Z; hm_fresh_hi : Z; hm_hostlocked : bool
}.
Definition hm_null : HostMap := mkHM 0 0 0 0 0 0 false.
Definition hm_with_refs (n : Z) (h : HostMap) : HostMap :=
  mkHM (hm_base h) (hm_len h) n (hm_pins h) (hm_rw_lo h) (hm_fresh_hi h) (hm_hostlocked h).
Definition hm_with_pins (n : Z) (h : HostMap) : HostMap :=
  mkHM (hm_base h) (hm_len h) (hm_refs h) n (hm_rw_lo h) (hm_fresh_hi h) (hm_hostlocked h).
Definition hm_with_ext (base len : Z) (h : HostMap) : HostMap :=
  mkHM base len (hm_refs h) (hm_pins h) (hm_rw_lo h) (hm_fresh_hi h) (hm_hostlocked h).
Definition hm_with_fresh (rw fresh : Z) (h : HostMap) : HostMap :=
  mkHM (hm_base h) (hm_len h) (hm_refs h) (hm_pins h) rw fresh (hm_hostlocked h).
Definition hm_with_hostlocked (b : bool) (h : HostMap) : HostMap :=
  mkHM (hm_base h) (hm_len h) (hm_refs h) (hm_pins h) (hm_rw_lo h) (hm_fresh_hi h) b.

(** [struct RetiredMap]: host memory waiting to be unmapped. *)
Record RetiredMap := mkRet { rt_addr : Z; rt_len : Z; rt_gen : Z }.

(** What the ELF loader recorded of the image. *)
Record Image := mkImage {
  im_start_code : Z; im_end_code : Z; im_start_data : Z; im_end_data : Z; im_start_stack : Z;
  im_arg_start : Z; im_arg_end : Z; im_env_start : Z; im_env_end : Z
}.
Definition image_zero : Image := mkImage 0 0 0 0 0 0 0 0 0.

(** [ProcMem]: the figures other processes read. *)
Record ProcMem := mkPM {
  pm_size : Z; pm_data : Z; pm_stack : Z; pm_exec : Z; pm_peak : Z; pm_pgtables : Z; pm_locked : Z;
  pm_image : Image; pm_start_brk : Z
}.

(** The vfork tracking: [g_vf_track], [g_vf_pages] (address and the page's
    bytes as they were, sorted by address), [g_vf_stacks]. *)
Record Vfork := mkVf { vf_track : bool; vf_pages : list (Z * list Z); vf_stacks : list Z }.
Definition vf_none : Vfork := mkVf false [] [].

(** What other parts of the emulator answer: the guest's limits
    ([rlim_cur]), whether it holds CAP_IPC_LOCK, [mmap_min_addr], the
    A64_STACKGROW_FORCE_PIECE switch, and whether the emulator's own malloc is
    out of memory where the source goes on without ([vf_record]). *)
Record Env := mkEnv {
  env_stack : Z; env_as : Z; env_memlock : Z; env_ipc_lock : bool; env_min_addr : Z;
  env_force_piece : bool; env_nomem : bool
}.
Definition RLIM_INFINITY : Z := not64 0.

(** ** The host kernel *)

(** [os_mmap] is an anonymous mmap(NULL, len); [os_mmap_at] one with an
    address to try; [os_mmap_file] a mapping of a file, an error number or an
    address, with the bytes it shows; the list is the mappings the emulator
    has. [os_mremap] is mremap(2) with flags 0 (in place), 1 (MAYMOVE) or
    5 (MAYMOVE and DONTUNMAP). *)
Class HostOs (Os : Type) := {
  os_pagesz : Z;
  os_mmap : Os -> list (Z * Z) -> Z -> option Z * Os;
  os_mmap_at : Os -> list (Z * Z) -> Z -> Z -> option Z * Os;
  os_mmap_file : Os -> list (Z * Z) -> Z -> Z -> Z -> bool -> bool -> (Z + Z) * Os;
  os_file_bytes : Os -> Z -> Z -> Z;
  os_mremap : Os -> list (Z * Z) -> Z -> Z -> Z -> Z -> option Z * Os;
  os_mprotect : Os -> Z -> Z -> bool -> bool * Os;
  os_getfl : Os -> Z -> option Z;
  os_fstat : Os -> Z -> option (Z * Z * Z);
  os_readable : Os -> Z -> bool
}.

(** Ranges of host memory. *)
Definition in_rng (a : Z) (q : Z * Z) : bool := (fst q <=? a) && (a <? fst q + snd q).
Definition live (maps : list (Z * Z)) (a : Z) : bool := existsb (in_rng a) maps.
Definition rng_free (maps : list (Z * Z)) (p n : Z) : Prop :=
  forall a, p <= a < p + n -> live maps a = false.
(** munmap(2): the range goes, whatever mappings it cuts. *)
Definition cut_rng (p n : Z) (q : Z * Z) : list (Z * Z) :=
  let lo := Z.min (fst q + snd q) p in
  let hi := Z.max (fst q) (p + n) in
  (if fst q <? lo then [(fst q, lo - fst q)] else []) ++
  (if hi <? fst q + snd q then [(hi, fst q + snd q - hi)] else []).
Definition os_munmap (p n : Z) (maps : list (Z * Z)) : list (Z * Z) := flat_map (cut_rng p n) maps.

(** A fresh mapping the kernel chose: host pages, clear of everything mapped. *)
Definition fresh_rng `{HostOs Os} (maps : list (Z * Z)) (p n : Z) : Prop :=
  0 < p /\ p + n <= 2 ^ 64 /\ p mod os_pagesz = 0 /\ rng_free maps p n.

Class HostOsOk (Os : Type) `{HostOs Os} := {
  os_pagesz_ok : exists k, 12 <= k <= 30 /\ os_pagesz = 2 ^ k;
  os_mmap_ok o maps n p o' : os_mmap o maps n = (Some p, o') -> fresh_rng maps p n;
  os_mmap_at_ok o maps hint n p o' : os_mmap_at o maps hint n = (Some p, o') -> fresh_rng maps p n;
  os_mmap_file_ok o maps fd n off sh w p o' :
    os_mmap_file o maps fd n off sh w = (inr p, o') -> fresh_rng maps p n;
  os_mremap_grow o maps p n n' q o' : os_mremap o maps p n n' 0 = (Some q, o') ->
    n <= n' -> q = p /\ p + n' <= 2 ^ 64 /\ rng_free maps (p + n) (n' - n);
  os_mremap_move o maps p n n' f q o' : os_mremap o maps p n n' f = (Some q, o') -> f <> 0 ->
    n <= n' ->
    (q = p /\ f = 1 /\ n <> 0 /\ p + n' <= 2 ^ 64 /\ rng_free maps (p + n) (n' - n)) \/
    fresh_rng maps q n'
}.

(** ** The address space *)

Record AS := mkAS {
  as_pt : PT;
  as_regions : list Region;
  as_retired : list RetiredMap;
  as_orphans : list Z;
  as_nthreads : Z;
  as_brk_start : Z;
  as_brk : Z;
  as_mmap_next : Z;
  as_stack_top : Z;
  as_image : Image;
  as_peak : Z;
  as_peak_rss : Z;
  as_stack_ids : Z;
  as_locked_vm : Z;
  as_def_lock : Z
}.
Definition upd_as_pt (g : (PT) -> (PT)) (s : AS) : AS :=
  mkAS (g (as_pt s)) (as_regions s) (as_retired s) (as_orphans s) (as_nthreads s) (as_brk_start
    s) (as_brk s) (as_mmap_next s) (as_stack_top s) (as_image s) (as_peak s) (as_peak_rss s)
    (as_stack_ids s) (as_locked_vm s) (as_def_lock s).
Definition upd_as_regions (g : (list Region) -> (list Region)) (s : AS) : AS :=
  mkAS (as_pt s) (g (as_regions s)) (as_retired s) (as_orphans s) (as_nthreads s) (as_brk_start
    s) (as_brk s) (as_mmap_next s) (as_stack_top s) (as_image s) (as_peak s) (as_peak_rss s)
    (as_stack_ids s) (as_locked_vm s) (as_def_lock s).
Definition upd_as_retired (g : (list RetiredMap) -> (list RetiredMap)) (s : AS) : AS :=
  mkAS (as_pt s) (as_regions s) (g (as_retired s)) (as_orphans s) (as_nthreads s) (as_brk_start
    s) (as_brk s) (as_mmap_next s) (as_stack_top s) (as_image s) (as_peak s) (as_peak_rss s)
    (as_stack_ids s) (as_locked_vm s) (as_def_lock s).
Definition upd_as_orphans (g : (list Z) -> (list Z)) (s : AS) : AS :=
  mkAS (as_pt s) (as_regions s) (as_retired s) (g (as_orphans s)) (as_nthreads s) (as_brk_start
    s) (as_brk s) (as_mmap_next s) (as_stack_top s) (as_image s) (as_peak s) (as_peak_rss s)
    (as_stack_ids s) (as_locked_vm s) (as_def_lock s).
Definition upd_as_nthreads (g : (Z) -> (Z)) (s : AS) : AS :=
  mkAS (as_pt s) (as_regions s) (as_retired s) (as_orphans s) (g (as_nthreads s)) (as_brk_start
    s) (as_brk s) (as_mmap_next s) (as_stack_top s) (as_image s) (as_peak s) (as_peak_rss s)
    (as_stack_ids s) (as_locked_vm s) (as_def_lock s).
Definition upd_as_brk_start (g : (Z) -> (Z)) (s : AS) : AS :=
  mkAS (as_pt s) (as_regions s) (as_retired s) (as_orphans s) (as_nthreads s) (g (as_brk_start
    s)) (as_brk s) (as_mmap_next s) (as_stack_top s) (as_image s) (as_peak s) (as_peak_rss s)
    (as_stack_ids s) (as_locked_vm s) (as_def_lock s).
Definition upd_as_brk (g : (Z) -> (Z)) (s : AS) : AS :=
  mkAS (as_pt s) (as_regions s) (as_retired s) (as_orphans s) (as_nthreads s) (as_brk_start s)
    (g (as_brk s)) (as_mmap_next s) (as_stack_top s) (as_image s) (as_peak s) (as_peak_rss s)
    (as_stack_ids s) (as_locked_vm s) (as_def_lock s).
Definition upd_as_mmap_next (g : (Z) -> (Z)) (s : AS) : AS :=
  mkAS (as_pt s) (as_regions s) (as_retired s) (as_orphans s) (as_nthreads s) (as_brk_start s)
    (as_brk s) (g (as_mmap_next s)) (as_stack_top s) (as_image s) (as_peak s) (as_peak_rss s)
    (as_stack_ids s) (as_locked_vm s) (as_def_lock s).
Definition upd_as_stack_top (g : (Z) -> (Z)) (s : AS) : AS :=
  mkAS (as_pt s) (as_regions s) (as_retired s) (as_orphans s) (as_nthreads s) (as_brk_start s)
    (as_brk s) (as_mmap_next s) (g (as_stack_top s)) (as_image s) (as_peak s) (as_peak_rss s)
    (as_stack_ids s) (as_locked_vm s) (as_def_lock s).
Definition upd_as_image (g : (Image) -> (Image)) (s : AS) : AS :=
  mkAS (as_pt s) (as_regions s) (as_retired s) (as_orphans s) (as_nthreads s) (as_brk_start s)
    (as_brk s) (as_mmap_next s) (as_stack_top s) (g (as_image s)) (as_peak s) (as_peak_rss s)
    (as_stack_ids s) (as_locked_vm s) (as_def_lock s).
Definition upd_as_peak (g : (Z) -> (Z)) (s : AS) : AS :=
  mkAS (as_pt s) (as_regions s) (as_retired s) (as_orphans s) (as_nthreads s) (as_brk_start s)
    (as_brk s) (as_mmap_next s) (as_stack_top s) (as_image s) (g (as_peak s)) (as_peak_rss s)
    (as_stack_ids s) (as_locked_vm s) (as_def_lock s).
Definition upd_as_peak_rss (g : (Z) -> (Z)) (s : AS) : AS :=
  mkAS (as_pt s) (as_regions s) (as_retired s) (as_orphans s) (as_nthreads s) (as_brk_start s)
    (as_brk s) (as_mmap_next s) (as_stack_top s) (as_image s) (as_peak s) (g (as_peak_rss s))
    (as_stack_ids s) (as_locked_vm s) (as_def_lock s).
Definition upd_as_stack_ids (g : (Z) -> (Z)) (s : AS) : AS :=
  mkAS (as_pt s) (as_regions s) (as_retired s) (as_orphans s) (as_nthreads s) (as_brk_start s)
    (as_brk s) (as_mmap_next s) (as_stack_top s) (as_image s) (as_peak s) (as_peak_rss s) (g
    (as_stack_ids s)) (as_locked_vm s) (as_def_lock s).
Definition upd_as_locked_vm (g : (Z) -> (Z)) (s : AS) : AS :=
  mkAS (as_pt s) (as_regions s) (as_retired s) (as_orphans s) (as_nthreads s) (as_brk_start s)
    (as_brk s) (as_mmap_next s) (as_stack_top s) (as_image s) (as_peak s) (as_peak_rss s)
    (as_stack_ids s) (g (as_locked_vm s)) (as_def_lock s).
Definition upd_as_def_lock (g : (Z) -> (Z)) (s : AS) : AS :=
  mkAS (as_pt s) (as_regions s) (as_retired s) (as_orphans s) (as_nthreads s) (as_brk_start s)
    (as_brk s) (as_mmap_next s) (as_stack_top s) (as_image s) (as_peak s) (as_peak_rss s)
    (as_stack_ids s) (as_locked_vm s) (g (as_def_lock s)).

(** The whole state of mem.c, as the running thread sees it. *)
Record MS (Os : Type) := mkMS {
  ms_as : AS;
  ms_hmaps : gmap Z HostMap;
  ms_next : Z;
  ms_maps : list (Z * Z);
  ms_mem : Z -> Z;
  ms_os : Os;
  ms_gen : Z;
  ms_pub : Pub;
  ms_me : Tlb;
  ms_vf : Vfork;
  ms_inval : list (Z * Z);
  ms_census : gmap (Z * Z) Z;
  ms_env : Env;
  ms_procmem : option ProcMem
}.
Arguments mkMS {Os}.
Arguments ms_as {Os}.
Arguments ms_hmaps {Os}.
Arguments ms_next {Os}.
Arguments ms_maps {Os}.
Arguments ms_mem {Os}.
Arguments ms_os {Os}.
Arguments ms_gen {Os}.
Arguments ms_pub {Os}.
Arguments ms_me {Os}.
Arguments ms_vf {Os}.
Arguments ms_inval {Os}.
Arguments ms_census {Os}.
Arguments ms_env {Os}.
Arguments ms_procmem {Os}.
Definition upd_ms_as {Os : Type} (g : (AS) -> (AS)) (s : MS Os) : MS Os :=
  mkMS (g (ms_as s)) (ms_hmaps s) (ms_next s) (ms_maps s) (ms_mem s) (ms_os s) (ms_gen s)
    (ms_pub s) (ms_me s) (ms_vf s) (ms_inval s) (ms_census s) (ms_env s) (ms_procmem s).
Definition upd_ms_hmaps {Os : Type} (g : (gmap Z HostMap) -> (gmap Z HostMap)) (s : MS Os) : MS Os :=
  mkMS (ms_as s) (g (ms_hmaps s)) (ms_next s) (ms_maps s) (ms_mem s) (ms_os s) (ms_gen s)
    (ms_pub s) (ms_me s) (ms_vf s) (ms_inval s) (ms_census s) (ms_env s) (ms_procmem s).
Definition upd_ms_next {Os : Type} (g : (Z) -> (Z)) (s : MS Os) : MS Os :=
  mkMS (ms_as s) (ms_hmaps s) (g (ms_next s)) (ms_maps s) (ms_mem s) (ms_os s) (ms_gen s)
    (ms_pub s) (ms_me s) (ms_vf s) (ms_inval s) (ms_census s) (ms_env s) (ms_procmem s).
Definition upd_ms_maps {Os : Type} (g : (list (Z * Z)) -> (list (Z * Z))) (s : MS Os) : MS Os :=
  mkMS (ms_as s) (ms_hmaps s) (ms_next s) (g (ms_maps s)) (ms_mem s) (ms_os s) (ms_gen s)
    (ms_pub s) (ms_me s) (ms_vf s) (ms_inval s) (ms_census s) (ms_env s) (ms_procmem s).
Definition upd_ms_mem {Os : Type} (g : (Z -> Z) -> (Z -> Z)) (s : MS Os) : MS Os :=
  mkMS (ms_as s) (ms_hmaps s) (ms_next s) (ms_maps s) (g (ms_mem s)) (ms_os s) (ms_gen s)
    (ms_pub s) (ms_me s) (ms_vf s) (ms_inval s) (ms_census s) (ms_env s) (ms_procmem s).
Definition upd_ms_os {Os : Type} (g : (Os) -> (Os)) (s : MS Os) : MS Os :=
  mkMS (ms_as s) (ms_hmaps s) (ms_next s) (ms_maps s) (ms_mem s) (g (ms_os s)) (ms_gen s)
    (ms_pub s) (ms_me s) (ms_vf s) (ms_inval s) (ms_census s) (ms_env s) (ms_procmem s).
Definition upd_ms_gen {Os : Type} (g : (Z) -> (Z)) (s : MS Os) : MS Os :=
  mkMS (ms_as s) (ms_hmaps s) (ms_next s) (ms_maps s) (ms_mem s) (ms_os s) (g (ms_gen s))
    (ms_pub s) (ms_me s) (ms_vf s) (ms_inval s) (ms_census s) (ms_env s) (ms_procmem s).
Definition upd_ms_pub {Os : Type} (g : (Pub) -> (Pub)) (s : MS Os) : MS Os :=
  mkMS (ms_as s) (ms_hmaps s) (ms_next s) (ms_maps s) (ms_mem s) (ms_os s) (ms_gen s) (g
    (ms_pub s)) (ms_me s) (ms_vf s) (ms_inval s) (ms_census s) (ms_env s) (ms_procmem s).
Definition upd_ms_me {Os : Type} (g : (Tlb) -> (Tlb)) (s : MS Os) : MS Os :=
  mkMS (ms_as s) (ms_hmaps s) (ms_next s) (ms_maps s) (ms_mem s) (ms_os s) (ms_gen s) (ms_pub
    s) (g (ms_me s)) (ms_vf s) (ms_inval s) (ms_census s) (ms_env s) (ms_procmem s).
Definition upd_ms_vf {Os : Type} (g : (Vfork) -> (Vfork)) (s : MS Os) : MS Os :=
  mkMS (ms_as s) (ms_hmaps s) (ms_next s) (ms_maps s) (ms_mem s) (ms_os s) (ms_gen s) (ms_pub
    s) (ms_me s) (g (ms_vf s)) (ms_inval s) (ms_census s) (ms_env s) (ms_procmem s).
Definition upd_ms_inval {Os : Type} (g : (list (Z * Z)) -> (list (Z * Z))) (s : MS Os) : MS Os :=
  mkMS (ms_as s) (ms_hmaps s) (ms_next s) (ms_maps s) (ms_mem s) (ms_os s) (ms_gen s) (ms_pub
    s) (ms_me s) (ms_vf s) (g (ms_inval s)) (ms_census s) (ms_env s) (ms_procmem s).
Definition upd_ms_census {Os : Type} (g : (gmap (Z * Z) Z) -> (gmap (Z * Z) Z)) (s : MS Os) : MS Os :=
  mkMS (ms_as s) (ms_hmaps s) (ms_next s) (ms_maps s) (ms_mem s) (ms_os s) (ms_gen s) (ms_pub
    s) (ms_me s) (ms_vf s) (ms_inval s) (g (ms_census s)) (ms_env s) (ms_procmem s).
Definition upd_ms_env {Os : Type} (g : (Env) -> (Env)) (s : MS Os) : MS Os :=
  mkMS (ms_as s) (ms_hmaps s) (ms_next s) (ms_maps s) (ms_mem s) (ms_os s) (ms_gen s) (ms_pub
    s) (ms_me s) (ms_vf s) (ms_inval s) (ms_census s) (g (ms_env s)) (ms_procmem s).
Definition upd_ms_procmem {Os : Type} (g : (option ProcMem) -> (option ProcMem)) (s : MS Os) : MS Os :=
  mkMS (ms_as s) (ms_hmaps s) (ms_next s) (ms_maps s) (ms_mem s) (ms_os s) (ms_gen s) (ms_pub
    s) (ms_me s) (ms_vf s) (ms_inval s) (ms_census s) (ms_env s) (g (ms_procmem s)).

(** [as_init] and [as_reinit_live]: [as_fields_init] resets everything but
    the thread count. *)
Definition as_fields_init (nthreads : Z) : AS :=
  mkAS pt_empty [] [] [] nthreads 0 0 MMAP_FLOOR 0 image_zero 0 0 0 0 0.
Definition as_init : AS := as_fields_init 1.
Definition as_reinit_live (a : AS) : AS := as_fields_init (as_nthreads a).

(** A process with an empty address space and one thread. *)
Definition ms_init {Os} (o : Os) (e : Env) (tid : Z) : MS Os :=
  mkMS as_init ∅ 1 [] (fun _ => 0) o 1 (mkPub ∅ 0 0 None) (tlb_init tid) vf_none [] ∅ e None.

(** Shorthands for the fields of the address space. *)
Section Short.
Context {Os : Type}.
Definition regs (s : MS Os) : list Region := as_regions (ms_as s).
Definition pt (s : MS Os) : PT := as_pt (ms_as s).
Definition set_regs (g : list Region -> list Region) : MS Os -> MS Os := upd_ms_as (upd_as_regions g).
Definition set_pt (g : PT -> PT) : MS Os -> MS Os := upd_ms_as (upd_as_pt g).
Definition hm_at (s : MS Os) (h : Z) : HostMap := default hm_null (ms_hmaps s !! h).
Definition set_hm (h : Z) (g : HostMap -> HostMap) : MS Os -> MS Os :=
  upd_ms_hmaps (fun m => match m !! h with Some x => <[h := g x]> m | None => m end).
End Short.
