(* ===== verification/AddrSpace.v ===== *)
(** * AddrSpace: the mutators of an address space (mem.c)

    The region table with its HostMap references, the quarantine, the lock
    flags, and the mapping operations the syscall layer calls: map, unmap,
    protect, move, fork advice, find free ground. Each runs with the
    address-space lock held, so one call is one step. The locks the emulator
    asks of the host for guest-locked memory (mlock on the host) have no
    effect a guest or the emulator depends on and are left out; the guest's
    own lock accounting ([r_lock], [as_locked_vm]) is here. *)

From stdpp Require Import gmap strings.
From S2P Require Import Prelude Types Cpu MemSeam PageTable Regions Epoch AsState.

Section AddrSpace.
Context {Os : Type} `{!HostOs Os}.
Implicit Types s : MS Os.

Definition SIZE_MAX : Z := not64 0.
Definition host_len_ok (len : Z) : bool := len <=? SIZE_MAX.

(** ** Host memory *)
Definition zero_bytes (p n : Z) (m : Z -> Z) : Z -> Z :=
  fun a => if (p <=? a) && (a <? p + n) then 0 else m a.
Definition copy_bytes (dst src n : Z) (m : Z -> Z) : Z -> Z :=
  fun a => if (dst <=? a) && (a <? dst + n) then m (src + (a - dst)) else m a.

(** [mmap(NULL, len, ..., MAP_PRIVATE | MAP_ANONYMOUS)]. *)
Definition host_mmap (len : Z) s : option Z * MS Os :=
  match os_mmap (ms_os s) (ms_maps s) len with
  | (Some p, o) => (Some p, upd_ms_mem (zero_bytes p len)
                              (upd_ms_maps (cons (p, len)) (upd_ms_os (fun _ => o) s)))
  | (None, o) => (None, upd_ms_os (fun _ => o) s)
  end.
Definition host_munmap (p n : Z) s : MS Os := upd_ms_maps (os_munmap p n) s.
Definition host_alloc (len : Z) s : option Z * MS Os :=
  if host_len_ok len then host_mmap len s else (None, s).

(** ** Publishing a change *)
(** The generation is a 64-bit counter of page-table changes; it is taken not
    to wrap. *)
Definition as_gen_bump s : MS Os := upd_ms_gen (fun g => g + 1) s.
Definition flush_me s : MS Os := upd_ms_me tlb_flush s.
Definition jit_invalidate_range (addr len : Z) s : MS Os := upd_ms_inval (cons (addr, len)) s.
Definition pte_sync_range (addr len : Z) s : MS Os :=
  flush_me (as_gen_bump (jit_invalidate_range addr len s)).
Definition pte_set_range (addr len host prot : Z) s : MS Os :=
  pte_sync_range addr len (set_pt (fun t => pte_set_pages t addr len host prot) s).

(** ** The region table *)
Definition mapadj (dev ino d : Z) s : MS Os :=
  upd_ms_census (fun c => <[(dev, ino) := default 0 (c !! (dev, ino)) + d]> c) s.
Definition region_insert (r : Region) s : MS Os :=
  let s := set_regs (ins_region r) s in
  if tr (r_mfdcnt r) then mapadj (r_dev r) (r_ino r) 1 s else s.
Definition region_delete (i : nat) s : MS Os :=
  match regs s !! i with
  | Some r =>
      let s := if tr (r_mfdcnt r) then mapadj (r_dev r) (r_ino r) (-1) s else s in
      set_regs (del_region i) s
  | None => s
  end.

(** ** The quarantine *)
Definition as_retire (addr len : Z) s : MS Os :=
  upd_ms_as (upd_as_retired (fun l => l ++ [mkRet addr len (ms_gen s)])) s.
Definition drain_safe s : Z :=
  if as_nthreads (ms_as s) =? 1 then not64 0 else dtlb_safe_gen (ms_pub s).
Fixpoint drain_loop (safe : Z) (l : list RetiredMap) s : list RetiredMap * MS Os :=
  match l with
  | [] => ([], s)
  | q :: l' =>
      if rt_gen q <? safe then drain_loop safe l' (host_munmap (rt_addr q) (rt_len q) s)
      else let '(keep, s') := drain_loop safe l' s in (q :: keep, s')
  end.
Definition as_drain_retired s : MS Os :=
  match as_retired (ms_as s) with
  | [] => s
  | l => let '(keep, s') := drain_loop (drain_safe s) l s in
         upd_ms_as (upd_as_retired (fun _ => keep)) s'
  end.

(** ** HostMaps *)
Definition hmap_new (base len : Z) s : Z * MS Os :=
  let h := ms_next s in
  (h, upd_ms_next (fun n => n + 1)
        (upd_ms_hmaps (fun m => <[h := mkHM base len 1 0 base base false]> m) s)).
Definition hmap_ref (h : Z) s : MS Os := set_hm h (fun x => hm_with_refs (hm_refs x + 1) x) s.
Definition free_hm (h : Z) s : MS Os := upd_ms_hmaps (delete h) s.
Definition hmap_unref (h : Z) s : MS Os :=
  let s := set_hm h (fun x => hm_with_refs (hm_refs x - 1) x) s in
  if hm_refs (hm_at s h) =? 0 then
    let s := set_hm h (hm_with_hostlocked false) s in
    if negb (hm_pins (hm_at s h) =? 0) then upd_ms_as (upd_as_orphans (cons h)) s
    else free_hm h (as_retire (hm_base (hm_at s h)) (hm_len (hm_at s h)) s)
  else s.

(** ** Splitting and merging *)

(** The region strictly inside which [va] lies, by index. *)
Fixpoint straddle (rs : list Region) (i : nat) (va : Z) : option (nat * Region) :=
  match rs with
  | [] => None
  | r :: rs' => if (va <=? r_start r) || (r_end r <=? va) then straddle rs' (S i) va
                else Some (i, r)
  end.
Definition region_split_at (va : Z) s : MS Os :=
  match straddle (regs s) 0 va with
  | None => s
  | Some (i, r) =>
      let tail := r_part va (r_end r) r in
      let s := hmap_ref (r_hmap tail) s in
      let s := set_regs (fun rs => <[i := r_with_end va r]> rs) s in
      region_insert tail s
  end.

(** [region_merge_range]: [fuel] is the number of regions, which each turn
    either passes or makes fewer. *)
Fixpoint merge_loop (fuel : nat) (i : nat) (lo hi : Z) s : MS Os :=
  match fuel with
  | O => s
  | S f =>
      match regs s !! i, regs s !! S i with
      | Some a, Some b =>
          if r_end a <? lo then merge_loop f (S i) lo hi s
          else if hi <? r_end a then s
          else if negb (region_mergeable a b) then merge_loop f (S i) lo hi s
          else
            let s := set_regs (fun rs => <[i := r_with_end (r_end b) a]> rs) s in
            let s := hmap_unref (r_hmap b) s in
            merge_loop f i lo hi (region_delete (S i) s)
      | _, _ => s
      end
  end.
Definition region_merge_range (lo hi : Z) s : MS Os := merge_loop (length (regs s)) 0 lo hi s.

(** ** Cutting a range out: [region_punch] *)
Definition locked_sub (r : Region) (lo hi : Z) s : MS Os :=
  if has (r_lock r) RL_LOCKED
  then upd_ms_as (upd_as_locked_vm (fun n => u64 (n - Z.shiftr (hi - lo) 12))) s else s.
Fixpoint punch_loop (fuel : nat) (i : nat) (lo hi : Z) s : MS Os :=
  match fuel with
  | O => s
  | S f =>
      match regs s !! i with
      | None => s
      | Some r =>
          if (r_end r <=? lo) || (hi <=? r_start r) then punch_loop f (S i) lo hi s
          else
            let cut_lo := if r_start r <? lo then lo else r_start r in
            let cut_hi := if hi <? r_end r then hi else r_end r in
            let s := locked_sub r cut_lo cut_hi s in
            if (cut_lo =? r_start r) && (cut_hi =? r_end r) then
              punch_loop f i lo hi (region_delete i (hmap_unref (r_hmap r) s))
            else if cut_lo =? r_start r then
              punch_loop f (S i) lo hi
                (set_regs (fun rs => <[i := r_part cut_hi (r_end r) r]> rs) s)
            else if cut_hi =? r_end r then
              punch_loop f (S i) lo hi (set_regs (fun rs => <[i := r_with_end cut_lo r]> rs) s)
            else
              let tail := r_part cut_hi (r_end r) r in
              let s := hmap_ref (r_hmap tail) s in
              let s := set_regs (fun rs => <[i := r_with_end cut_lo r]> rs) s in
              punch_loop f 0 lo hi (region_insert tail s)
      end
  end.
(** A turn passes a region or takes one out of the range, and a split starts
    over: the turns are bounded by the square of the number of regions. *)
Definition punch_fuel (n : nat) : nat := S n * (n + n + 3).
Definition region_punch (lo hi : Z) s : MS Os :=
  punch_loop (punch_fuel (length (regs s))) 0 lo hi s.

(** ** Mapping and unmapping *)
Definition misaligned (z : Z) : bool := tr (Z.land z GUEST_PAGE_MASK).

Definition anon_region (addr len prot host h : Z) : Region :=
  mkRegion addr (addr + len) prot 0 0 1 host h None 0 0 0 0 0 0 0 0 0 0 0 0 0.
Definition guest_map_anon_impl (addr len prot : Z) s : Z * MS Os :=
  if misaligned (Z.lor addr len) || negb (range_ok addr len) || (len =? 0) then (- EINVAL, s)
  else match host_alloc len s with
       | (None, s) => (- ENOMEM, s)
       | (Some host, s) =>
           let s := region_punch addr (addr + len) s in
           let '(h, s) := hmap_new host len s in
           let s := region_insert (anon_region addr len prot host h) s in
           (0, pte_set_range addr len host prot s)
       end.

Definition guest_unmap_impl (addr len : Z) s : Z * MS Os :=
  if misaligned (Z.lor addr len) || (len =? 0) || negb (range_ok addr len) then (- EINVAL, s)
  else (0, pte_set_range addr len 0 0 (region_punch addr (addr + len) s)).

(** ** Protection *)
Definition vf_pte_prot (r : Region) (prot : Z) s : Z :=
  if vf_track (ms_vf s) && negb (tr (r_shared r)) then Z.land prot (not32 PTE_W) else prot.

(** The pages of [addr, addr + len) all belong to a mapping. *)
Fixpoint pages_mapped (n : nat) (va : Z) s : bool :=
  match n with
  | O => true
  | S k => if (pte_get (pt s) va =? 0) && bool_decide (as_find_region (regs s) va = None)
           then false else pages_mapped k (va + GUEST_PAGE_SIZE) s
  end.

(** The host mapping of a shared region follows the write bit; [None] when
    the host refuses. *)
Definition protect_host (r : Region) (addr len prot : Z) s : option (MS Os) :=
  if negb (tr (r_shared r)) then Some s
  else
    let lo := if r_start r <? addr then addr else r_start r in
    let hi := if addr + len <? r_end r then addr + len else r_end r in
    if os_pagesz =? GUEST_PAGE_SIZE then
      match os_mprotect (ms_os s) (r_host r + (lo - r_start r)) (hi - lo) (has prot PTE_W) with
      | (true, o) => Some (upd_ms_os (fun _ => o) s)
      | (false, _) => None
      end
    else if has prot PTE_W then
      let a := Z.land (r_host r + (lo - r_start r)) (not64 (os_pagesz - 1)) in
      let b := Z.land (r_host r + (hi - r_start r) + os_pagesz - 1) (not64 (os_pagesz - 1)) in
      match os_mprotect (ms_os s) a (b - a) true with
      | (true, o) => Some (upd_ms_os (fun _ => o) s)
      | (false, _) => None
      end
    else Some s.

(** The loop over the covered regions, from index [i]. *)
Fixpoint protect_loop (n : nat) (i : nat) (addr len prot : Z) s : bool * MS Os :=
  match n with
  | O => (true, s)
  | S k =>
      match regs s !! i with
      | None => (true, s)
      | Some r =>
          if (r_end r <=? addr) || (addr + len <=? r_start r)
          then protect_loop k (S i) addr len prot s
          else match protect_host r addr len prot s with
               | None => (false, s)
               | Some s =>
                   let s := set_regs (fun rs => <[i := r_with_prot prot r]> rs) s in
                   let p := vf_pte_prot r prot s in
                   protect_loop k (S i) addr len prot
                     (set_pt (fun t => pte_prot_raw t (r_start r) (r_end r - r_start r) p) s)
               end
      end
  end.

Definition guest_protect_impl (addr len prot : Z) s : Z * MS Os :=
  if misaligned (Z.lor addr len) then (- EINVAL, s)
  else if negb (range_ok addr len) then (- ENOMEM, s)
  else if negb (pages_mapped (npages len) addr s) then (- ENOMEM, s)
  else if has prot PTE_W &&
          existsb (fun r => overlaps addr (addr + len) r && tr (r_shared r) && negb (tr (r_wr_ok r)))
                  (regs s) then (- EACCES, s)
  else
    let s := region_split_at (addr + len) (region_split_at addr s) in
    match protect_loop (length (regs s)) 0 addr len prot s with
    | (false, s) => (- EACCES, s)
    | (true, s) =>
        let s := flush_me (as_gen_bump (jit_invalidate_range addr len s)) in
        (0, region_merge_range addr (addr + len) s)
    end.

(** ** Moving a mapping: [guest_remap_move_impl] *)

(** The copy of the source's slices to [dst]: from [pos], region by region,
    pages of no region skipped. A turn covers at least a page. *)
Fixpoint move_loop (fuel : nat) (pos addr len dst : Z) s : MS Os :=
  match fuel with
  | O => s
  | S f =>
      if pos <? addr + len then
        match as_find_region (regs s) pos with
        | None => move_loop f (pos + GUEST_PAGE_SIZE) addr len dst s
        | Some src =>
            let hi := if r_end src <? addr + len then r_end src else addr + len in
            let start := dst + (pos - addr) in
            let nr := r_with_range start (start + (hi - pos)) (r_host src + (pos - r_start src))
                        (u64 (r_file_off src + (pos - r_start src))) src in
            let s := region_insert nr (hmap_ref (r_hmap src) s) in
            let s := set_pt (fun t => pte_copy_loop (npages (hi - pos)) t pos start) s in
            move_loop f hi addr len dst s
        end
      else s
  end.
Definition guest_remap_move_impl (addr len dst : Z) s : Z * MS Os :=
  if misaligned (Z.lor (Z.lor addr len) dst) || (len =? 0) then (- EINVAL, s)
  else if negb (range_ok addr len) || negb (range_ok dst len) then (- EINVAL, s)
  else if (dst <? addr + len) && (addr <? dst + len) then (- EINVAL, s)
  else
    let s := region_punch dst (dst + len) s in
    let s := pte_set_range dst len 0 0 s in
    let s := move_loop (npages len) addr addr len dst s in
    let s := pte_sync_range dst len s in
    let s := region_punch addr (addr + len) s in
    (0, pte_set_range addr len 0 0 s).

(** No region holds a page of [n] pages from [va]. *)
Fixpoint pages_unmapped (n : nat) (va : Z) s : bool :=
  match n with
  | O => true
  | S k => match as_find_region (regs s) va with
           | Some _ => false
           | None => pages_unmapped k (va + GUEST_PAGE_SIZE) s
           end
  end.

(** mremap(2) by the emulator on its own mappings. In place ([flags] 0) the
    mapping grows; an old length of 0 makes a second mapping of the object
    and leaves the first; a move takes the pages along. *)
Definition host_mremap (p n n' flags : Z) s : option Z * MS Os :=
  match os_mremap (ms_os s) (ms_maps s) p n n' flags with
  | (None, o) => (None, upd_ms_os (fun _ => o) s)
  | (Some q, o) =>
      let s := upd_ms_os (fun _ => o) s in
      if q =? p then
        (Some q, upd_ms_mem (zero_bytes (p + n) (n' - n)) (upd_ms_maps (cons (p + n, n' - n)) s))
      else if n =? 0 then
        (Some q, upd_ms_mem (copy_bytes q p n') (upd_ms_maps (cons (q, n')) s))
      else
        let s := upd_ms_mem (fun m => copy_bytes q p n (zero_bytes q n' m)) s in
        let s := upd_ms_maps (cons (q, n')) s in
        (Some q, if flags =? 1 then host_munmap p n s else s)
  end.

(** [guest_remap_dup_impl]: a second mapping of the shared object at [addr]. *)
Definition guest_remap_dup_impl (addr len dst : Z) s : Z * MS Os :=
  if misaligned (Z.lor (Z.lor addr len) dst) || (len =? 0) then (- EINVAL, s)
  else if negb (range_ok dst len) then (- ENOMEM, s)
  else match as_find_region (regs s) addr with
  | None => (- EFAULT, s)
  | Some r =>
      if negb (tr (r_shared r)) then (- EINVAL, s)
      else if negb (pages_unmapped (npages len) dst s) then (- ENOMEM, s)
      else
        let src := r_host r + (addr - r_start r) in
        let pad := Z.land src (os_pagesz - 1) in
        if negb (host_len_ok (len + pad)) then (- ENOMEM, s)
        else match host_mremap (src - pad) 0 (len + pad) 1 s with
        | (None, s) => (- ENOMEM, s)
        | (Some p, s) =>
            let '(h, s) := hmap_new p (len + pad) s in
            let n := r_with_backing (p + pad) h
                       (r_with_range dst (dst + len) (p + pad) (u64 (r_file_off r + (addr - r_start r))) r) in
            let s := region_insert n s in
            let s := if has (r_lock n) RL_LOCKED
                     then upd_ms_as (upd_as_locked_vm (fun v => u64 (v + Z.shiftr len 12))) s else s in
            let s := set_pt (fun t => pte_dup_loop (npages len) t addr (r_end r) dst (p + pad) (r_prot r)) s in
            (0, pte_sync_range dst len s)
        end
  end.

(** ** A file changed its size: [as_file_resized] *)
Fixpoint resized_loop (rs : list Region) (dev ino eof : Z) s : MS Os :=
  match rs with
  | [] => s
  | r :: rs' =>
      let rlen := r_end r - r_start r in
      let s :=
        if negb (tr (r_hostmap r)) || negb (r_dev r =? dev) || negb (r_ino r =? ino) then s
        else if u64 (r_file_off r + rlen) <=? eof then s
        else
          let keep := if r_file_off r <? eof then eof - r_file_off r else 0 in
          if keep <? rlen then pte_set_range (r_start r + keep) (rlen - keep) 0 0 s else s in
      resized_loop rs' dev ino eof s
  end.
Definition as_file_resized (dev ino newsize : Z) s : MS Os :=
  if (dev =? 0) && (ino =? 0) then s
  else resized_loop (regs s) dev ino (PG_UP newsize) s.

(** ** Mapping a file: [guest_map_file_impl] *)

(** The host mapping: retried from the host page below on a host whose pages
    are bigger than the guest's. The bytes the host shows are the file's. *)
Definition file_bytes (p off fd len : Z) s : MS Os :=
  upd_ms_mem (fun m a => if (p <=? a) && (a <? p + len)
                         then os_file_bytes (ms_os s) fd (off + (a - p)) else m a) s.
Definition host_mmap_file (fd len off : Z) (shared w : bool) s : (Z + Z) * MS Os :=
  match os_mmap_file (ms_os s) (ms_maps s) fd len off shared w with
  | (inl e, o) => (inl e, upd_ms_os (fun _ => o) s)
  | (inr p, o) => (inr p, file_bytes p off fd len
                            (upd_ms_maps (cons (p, len)) (upd_ms_os (fun _ => o) s)))
  end.
(** The address and the pad in front of it, or the error. *)
Definition map_file_host (fd len off : Z) (shared w : bool) s : (Z + Z * Z) * MS Os :=
  match host_mmap_file fd len off shared w s with
  | (inr p, s) => (inr (p, 0), s)
  | (inl e, s) =>
      if negb (e =? EINVAL) || (os_pagesz <=? GUEST_PAGE_SIZE) || (Z.land off (os_pagesz - 1) =? 0)
      then (inl (- e), s)
      else
        let al := Z.land off (not64 (os_pagesz - 1)) in
        let pad := off - al in
        if negb (host_len_ok (len + pad)) then (inl (- ENOMEM), s)
        else match host_mmap_file fd (len + pad) al shared w s with
             | (inl e, s) => (inl (- e), s)
             | (inr p, s) => (inr (p + pad, pad), s)
             end
  end.
Definition O_ACCMODE : Z := 3.
Definition guest_map_file_impl (addr len prot fd off : Z) (shared : bool) (path : option string) s
  : Z * MS Os :=
  if misaligned (Z.lor (Z.lor addr len) off) || negb (range_ok addr len) || (len =? 0) then (- EINVAL, s)
  else if negb (host_len_ok len) then (- ENOMEM, s)
  else
    match map_file_host fd len off shared (negb shared || has prot PTE_W) s with
    | (inl e, s) => (e, s)
    | (inr (host, pad), s) =>
        let s := region_punch addr (addr + len) s in
        let wr_ok :=
          if shared then
            match os_getfl (ms_os s) fd with
            | Some fl => b2z ((Z.land fl O_ACCMODE =? 1) || (Z.land fl O_ACCMODE =? 2))
            | None => 0
            end
          else 1 in
        let st := os_fstat (ms_os s) fd in
        let '(dev, ino) := match st with Some (d, i, _) => (d, i) | None => (0, 0) end in
        let '(h, s) := hmap_new (host - pad) (len + pad) s in
        let r := mkRegion addr (addr + len) prot (b2z shared) 1 wr_ok host h path off dev ino
                   1 0 0 0 0 0 0 0 0 0 in
        let s := region_insert r s in
        let eof := match st with Some (_, _, sz) => PG_UP sz | None => 0 end in
        match st with
        | Some _ =>
            if eof <? u64 (off + len) then
              let mapped := if off <? eof then eof - off else 0 in
              let s := if tr mapped then pte_set_range addr mapped host prot s else s in
              (0, pte_set_range (addr + mapped) (len - mapped) 0 0 s)
            else (0, pte_set_range addr len host prot s)
        | None => (0, pte_set_range addr len host prot s)
        end
    end.

(** ** Stacks: [stack_room], [stack_reserve], [guest_map_stack_impl] *)
Definition GROW_ROOM_MAX : Z := Z.shiftl 1 30.
Definition stack_room (len : Z) s : Z :=
  let hpm := os_pagesz - 1 in
  if (len <? GROW_ROOM_MAX) && negb (env_force_piece (ms_env s))
  then Z.land (GROW_ROOM_MAX - len + hpm) (not64 hpm) else 0.

(** [stack_reserve]: the room is halved until the host takes it; the base
    and the room had. Thirty-two halvings take any room to 0. *)
Fixpoint stack_reserve (fuel : nat) (room len : Z) s : option (Z * Z) * MS Os :=
  match fuel with
  | O => (None, s)
  | S f =>
      let hpm := os_pagesz - 1 in
      let next s := if room =? 0 then (None, s)
                    else stack_reserve f (Z.land (room / 2) (not64 hpm)) len s in
      if host_len_ok (room + len) then
        match host_mmap (room + len) s with
        | (Some p, s) =>
            match os_mprotect (ms_os s) (p + room) len true with
            | (true, o) => (Some (p, room), upd_ms_os (fun _ => o) s)
            | (false, o) => next (host_munmap p (room + len) (upd_ms_os (fun _ => o) s))
            end
        | (None, s) => next s
        end
      else next s
  end.
Definition RESERVE_FUEL : nat := 33.

Definition guest_map_stack_impl (addr len prot : Z) s : Z * MS Os :=
  if misaligned (Z.lor addr len) || negb (range_ok addr len) || (len =? 0) then (- EINVAL, s)
  else if negb (host_len_ok len) then (- ENOMEM, s)
  else match stack_reserve RESERVE_FUEL (stack_room len s) len s with
  | (None, s) => (- ENOMEM, s)
  | (Some (base, room), s) =>
      let s := region_punch addr (addr + len) s in
      let '(h, s) := hmap_new base (room + len) s in
      let s := set_hm h (hm_with_fresh (base + room) (base + room)) s in
      let id := u32 (as_stack_ids (ms_as s) + 1) in
      let id := if id =? 0 then 1 else id in
      let s := upd_ms_as (upd_as_stack_ids (fun _ => id)) s in
      let r := mkRegion addr (addr + len) prot 0 0 1 (base + room) h None 0 0 0 0 0 0 0 0 1 id 0 0 0 in
      let s := region_insert r s in
      (0, pte_set_range addr len (base + room) prot s)
  end.

(** ** Locked memory *)
Definition lock_fixup (lo hi flags : Z) s : MS Os :=
  match as_find_region (regs s) lo with
  | None => s
  | Some c =>
      if tr (r_special c) || (r_lock c =? flags) then s
      else
        let s := region_split_at hi (region_split_at lo s) in
        match as_find_region (regs s) lo with
        | None => s
        | Some r =>
            let pages := Z.shiftr (hi - lo) 12 in
            let s :=
              if negb (has flags RL_LOCKED)
              then upd_ms_as (upd_as_locked_vm (fun v => u64 (v - pages))) s
              else if negb (has (r_lock r) RL_LOCKED)
                   then upd_ms_as (upd_as_locked_vm (fun v => u64 (v + pages))) s else s in
            let s := set_regs (fun rs => upd_region (r_with_lock flags) rs lo) s in
            region_merge_range lo hi s
        end
  end.
(** [as_lock_range]: region by region up to [e], -ENOMEM at a hole. A turn
    covers at least a page. *)
Fixpoint lock_range_loop (fuel : nat) (va e flags : Z) s : Z * MS Os :=
  match fuel with
  | O => (0, s)
  | S f =>
      if va <? e then
        match as_find_region (regs s) va with
        | None => (- ENOMEM, s)
        | Some r =>
            let stop := if r_end r <? e then r_end r else e in
            lock_range_loop f stop e flags (lock_fixup va stop flags s)
        end
      else (0, s)
  end.
Definition as_lock_range (start len flags : Z) s : Z * MS Os :=
  let e := u64 (start + len) in
  if e <? start then (- EINVAL, s)
  else if e =? start then (0, s)
  else match as_find_region (regs s) start with
       | None => (- ENOMEM, s)
       | Some _ => lock_range_loop (S (npages (e - start))) start e flags s
       end.
(** [as_lock_new]: the same, stopping at a hole. *)
Definition as_lock_new (start len flags : Z) s : MS Os :=
  snd (lock_range_loop (S (npages len)) start (start + len) flags s).
(** [as_lock_all]: every region in turn, by the address it starts from. *)
Fixpoint lock_all_loop (fuel : nat) (va flags : Z) s : MS Os :=
  match fuel with
  | O => s
  | S f => match as_next_region (regs s) va with
           | None => s
           | Some r => lock_all_loop f (r_end r) flags (lock_fixup (r_start r) (r_end r) flags s)
           end
  end.
Definition as_lock_all (def : Z) (current : bool) (flags : Z) s : MS Os :=
  let s := upd_ms_as (upd_as_def_lock (fun _ => def)) s in
  if current then lock_all_loop (S (length (regs s))) 0 flags s else s.
Definition as_mlock_future_ok (lock bytes : Z) s : bool :=
  if negb (has lock RL_LOCKED) || env_ipc_lock (ms_env s) then true
  else if env_memlock (ms_env s) =? RLIM_INFINITY then true
  else u64 (Z.shiftr bytes 12 + as_locked_vm (ms_as s)) <=? Z.shiftr (env_memlock (ms_env s)) 12.
Definition as_set_special (va : Z) s : MS Os :=
  set_regs (fun rs => upd_region (r_with_special 1) rs va) s.
Fixpoint shm_lock_loop (fuel : nat) (p e : Z) (on : bool) s : MS Os :=
  match fuel with
  | O => s
  | S f =>
      if p <? e then
        match as_find_region (regs s) p with
        | None => s
        | Some r => shm_lock_loop f (r_end r) e on
                      (set_regs (fun rs => upd_region (r_with_shm_lock (b2z on)) rs p) s)
        end
      else s
  end.
Definition as_shm_lock_hint (va len : Z) (on : bool) s : MS Os :=
  shm_lock_loop (S (npages len)) va (va + len) on s.

(** ** Accounting: [as_procmem], [as_account] *)
Definition L2_BYTES : Z := 8 + 8 * L2_SIZE.
Definition as_procmem s : ProcMem * MS Os :=
  let rs := regs s in
  let sum (f : Region -> bool) :=
    fold_left (fun t r => if f r then u64 (t + (r_end r - r_start r)) else t) rs 0 in
  let size := sum (fun _ => true) in
  let stack := sum region_is_stack in
  let data := sum (fun r => negb (region_is_stack r) && has (r_prot r) PTE_W && negb (tr (r_shared r))) in
  let exec := sum (fun r => negb (region_is_stack r) && has (r_prot r) PTE_X && negb (has (r_prot r) PTE_W)) in
  let s := if as_peak (ms_as s) <? size then upd_ms_as (upd_as_peak (fun _ => size)) s else s in
  let a := ms_as s in
  (mkPM size data stack exec (as_peak a) (u64 (pt_n (as_pt a) * L2_BYTES))
        (u64 (Z.shiftl (as_locked_vm a) 12)) (as_image a) (as_brk_start a), s).
Definition as_account s : MS Os :=
  let '(pm, s) := as_procmem s in upd_ms_procmem (fun _ => Some pm) s.

(** ** What a fork child gets *)
Definition fork_adj (set clear f : Z) : Z := Z.land (Z.lor f set) (not32 clear).
Definition region_split_for_advice (va set clear : Z) s : MS Os :=
  match as_find_region (regs s) va with
  | None => s
  | Some r => if r_start r =? va then s
              else if fork_adj set clear (r_forkflags r) =? r_forkflags r then s
              else region_split_at va s
  end.
(** The walk: index, where the next region ought to start, whether there was
    a hole; [None] is the refusal of a mapping that is not private anonymous. *)
Fixpoint advise_loop (n : nat) (i : nat) (addr e set clear : Z) (anon_only hole : bool) (next : Z) s
  : option (bool * Z) * MS Os :=
  match n with
  | O => (Some (hole, next), s)
  | S k =>
      match regs s !! i with
      | None => (Some (hole, next), s)
      | Some r =>
          if r_end r <=? addr then advise_loop k (S i) addr e set clear anon_only hole next s
          else if e <=? r_start r then (Some (hole, next), s)
          else
            let hole := hole || (next <? r_start r) in
            if anon_only && (tr (r_file r) || tr (r_shared r)) then (None, s)
            else advise_loop k (S i) addr e set clear anon_only hole (r_end r)
                   (set_regs (fun rs => <[i := r_with_fork (fork_adj set clear (r_forkflags r)) r]> rs) s)
      end
  end.
Definition guest_fork_advise (addr len set clear : Z) (anon_only : bool) s : Z * MS Os :=
  if misaligned (Z.lor addr len) || (len =? 0) then (- EINVAL, s)
  else if negb (range_ok addr len) then (- ENOMEM, s)
  else
    let e := addr + len in
    let s := region_split_for_advice e set clear (region_split_for_advice addr set clear s) in
    match advise_loop (length (regs s)) 0 addr e set clear anon_only false addr s with
    | (None, s) => (- EINVAL, region_merge_range addr e s)
    | (Some (hole, next), s) =>
        let s := region_merge_range addr e s in
        (if hole || (next <? e) then - ENOMEM else 0, s)
    end.

(** [as_fork_child]: no lock is inherited, RF_WIPEONFORK memory is wiped and
    RF_DONTFORK memory is not there. *)
Definition host_zero_backing (p n : Z) s : MS Os := upd_ms_mem (zero_bytes p n) s.
Definition wipe_region (r : Region) s : MS Os :=
  if has (r_forkflags r) RF_WIPEONFORK && negb (has (r_forkflags r) RF_DONTFORK)
  then host_zero_backing (r_host r) (r_end r - r_start r) s else s.
Fixpoint drop_dontfork (fuel : nat) (i : nat) s : MS Os :=
  match fuel with
  | O => s
  | S f =>
      match regs s !! i with
      | None => s
      | Some r =>
          if has (r_forkflags r) RF_DONTFORK
          then drop_dontfork f i (snd (guest_unmap_impl (r_start r) (r_end r - r_start r) s))
          else drop_dontfork f (S i) s
      end
  end.
Definition as_fork_child s : MS Os :=
  let s := fold_left (fun s r => set_hm (r_hmap r) (hm_with_hostlocked false) s) (regs s) s in
  let s := set_regs (map (r_with_lock 0)) s in
  let s := upd_ms_as (fun a => upd_as_def_lock (fun _ => 0) (upd_as_locked_vm (fun _ => 0) a)) s in
  let s := region_merge_range 0 (not64 0) s in
  let s := fold_left (fun s r => wipe_region r s) (regs s) s in
  let s := drop_dontfork (length (regs s)) 0 s in
  as_drain_retired (as_account s).

(** ** Free ground *)
Definition as_find_free_impl (len : Z) s : Z * MS Os :=
  match as_find_free_scan (regs s) (as_mmap_next (ms_as s)) len with
  | Some b => (b, upd_ms_as (upd_as_mmap_next (fun _ => u64 (b + PG_UP len))) s)
  | None => (0, s)
  end.

(** ** The locked wrappers *)
Definition finish (drain : bool) (r : Z * MS Os) : Z * MS Os :=
  let '(rc, s) := r in
  let s := if rc =? 0 then as_account s else s in
  (rc, if drain then as_drain_retired s else s).
Definition guest_map_anon (addr len prot : Z) s := finish true (guest_map_anon_impl addr len prot s).
Definition guest_map_stack (addr len prot : Z) s := finish true (guest_map_stack_impl addr len prot s).
Definition guest_map_file (addr len prot fd off : Z) (shared : bool) (path : option string) s :=
  finish true (guest_map_file_impl addr len prot fd off shared path s).
Definition guest_unmap (addr len : Z) s := finish true (guest_unmap_impl addr len s).
Definition guest_remap_move (addr len dst : Z) s := finish true (guest_remap_move_impl addr len dst s).
Definition guest_remap_dup (addr len dst : Z) s := finish true (guest_remap_dup_impl addr len dst s).
Definition guest_protect (addr len prot : Z) s := guest_protect_impl addr len prot s.
Definition as_find_free (len : Z) s := as_find_free_impl len s.

(** ** Growing a mapping: [region_extend_backing], [guest_remap_grow_impl] *)

(** Tiers 2 to 4 of [region_extend_backing]: new backing for the region [r]
    and [extra] bytes more. [inl] is a growth that stayed in place, [inr] the
    new slice's address and the pad in front of it. *)
Definition extend_move (r : Region) (extra : Z) (in_place : bool) s : option (unit + Z * Z) * MS Os :=
  let hm := hm_at s (r_hmap r) in
  let rlen := r_end r - r_start r in
  let hpm := os_pagesz - 1 in
  let alone := as_nthreads (ms_as s) <=? 1 in
  let whole := Z.land (Z.lor (r_host r) rlen) hpm =? 0 in
  let tier34 s :=
    if tr (r_shared r) then
      let pad := Z.land (r_host r) hpm in
      match host_mremap (r_host r - pad) 0 (rlen + extra + pad) 1 s with
      | (Some p, s) => (Some (inr (p + pad, pad)), s)
      | (None, s) => (None, s)
      end
    else if negb (tr (r_file r)) && negb (in_place && negb (hm_pins hm =? 0)) then
      match host_alloc (rlen + extra) s with
      | (Some p, s) => (Some (inr (p, 0)), upd_ms_mem (copy_bytes p (r_host r) rlen) s)
      | (None, s) => (None, s)
      end
    else (None, s) in
  if alone && (hm_pins hm =? 0) && whole then
    match host_mremap (r_host r) rlen (rlen + extra) 1 s with
    | (Some p, s) =>
        if p =? r_host r then
          let e := r_host r - hm_base hm + rlen + extra in
          (Some (inl tt), if hm_len hm <? e then set_hm (r_hmap r) (hm_with_ext (hm_base hm) e) s else s)
        else
          (* the hole the move left is filled again *)
          (Some (inr (p, 0)), upd_ms_mem (zero_bytes (r_host r) rlen)
                                (upd_ms_maps (cons (r_host r, rlen)) s))
    | (None, s) => tier34 s
    end
  else tier34 s.

(** [region_extend_backing] for the region at [i]. *)
Definition region_extend_backing (i : nat) (extra : Z) (in_place : bool) s : Z * MS Os :=
  match regs s !! i with
  | None => (- ENOMEM, s)
  | Some r =>
      let hm := hm_at s (r_hmap r) in
      let rlen := r_end r - r_start r in
      let hpm := os_pagesz - 1 in
      if negb (host_len_ok (rlen + extra + hpm)) || negb (host_len_ok (hm_len hm + extra))
      then (- ENOMEM, s)
      else
        let hlen := hm_base hm + hm_len hm - hm_rw_lo hm in
        let '(grown, s) :=
          if r_host r + rlen =? hm_base hm + hm_len hm
          then host_mremap (hm_rw_lo hm) hlen (hlen + extra) 0 s else (None, s) in
        match grown with
        | Some _ => (0, set_hm (r_hmap r) (hm_with_ext (hm_base hm) (hm_len hm + extra)) s)
        | None =>
            match extend_move r extra in_place s with
            | (None, s) => (- ENOMEM, s)
            | (Some (inl _), s) => (0, s)
            | (Some (inr (nb, npad)), s) =>
                let '(nh, s) := hmap_new (nb - npad) (rlen + extra + npad) s in
                let s := set_pt (fun t => pte_repoint_loop (npages rlen) t (r_start r) nb) s in
                let s := pte_sync_range (r_start r) rlen s in
                let s := set_regs (fun rs => <[i := r_with_backing nb nh r]> rs) s in
                (0, hmap_unref (r_hmap r) s)
            end
        end
  end.

(** The index of the region holding [va]. *)
Fixpoint find_index (rs : list Region) (i : nat) (va : Z) : option nat :=
  match rs with
  | [] => None
  | r :: rs' => if contains va r then Some i else find_index rs' (S i) va
  end.

Definition guest_remap_grow_impl (addr old_len new_len : Z) (in_place : bool) s : Z * MS Os :=
  if misaligned (Z.lor (Z.lor addr old_len) new_len) || (new_len <=? old_len) then (- EINVAL, s)
  else if negb (range_ok addr new_len) then (- ENOMEM, s)
  else match find_index (regs s) 0 (addr + old_len - 1) with
  | None => (- ENOMEM, s)
  | Some i =>
      match regs s !! i with
      | None => (- ENOMEM, s)
      | Some r =>
          if negb (r_end r =? addr + old_len) then (- ENOMEM, s)
          else if negb (pages_unmapped (npages (new_len - old_len)) (addr + old_len) s) then (- ENOMEM, s)
          else if tr (r_file r) && negb (tr (r_hostmap r)) then (- ENOMEM, s)
          else
            let rlen := r_end r - r_start r in
            let extra := new_len - old_len in
            match region_extend_backing i extra in_place s with
            | (rc, s) =>
                if rc <? 0 then (rc, s)
                else match regs s !! i with
                | None => (0, s)
                | Some r =>
                    let s := set_regs (fun rs => <[i := r_with_end (r_end r + extra) r]> rs) s in
                    let s := if has (r_lock r) RL_LOCKED
                             then upd_ms_as (upd_as_locked_vm (fun v => u64 (v + Z.shiftr extra 12))) s
                             else s in
                    if tr (r_hostmap r) then (0, pte_sync_range (r_start r + rlen) extra s)
                    else (0, pte_set_range (r_start r + rlen) extra (r_host r + rlen) (r_prot r) s)
                end
            end
      end
  end.

(** ** Moving pages and leaving the mapping: [guest_remap_dontunmap_impl] *)

(** The judgement of every slice before any is moved: 0, or the error. *)
Fixpoint dontunmap_judge (fuel : nat) (pos e : Z) s : Z :=
  match fuel with
  | O => 0
  | S f =>
      if pos <? e then
        match as_find_region (regs s) pos with
        | None => - EFAULT
        | Some src =>
            let hi := if r_end src <? e then r_end src else e in
            if tr (r_hostmap src) && negb (tr (r_shared src)) &&
               (tr (Z.land (r_host src + (pos - r_start src)) (os_pagesz - 1)) ||
                tr (Z.land (hi - pos) (os_pagesz - 1)))
            then - EINVAL
            else dontunmap_judge f hi e s
        end
      else 0
  end.

(** The new backing of one slice: address, pad and length of the allocation. *)
Definition dontunmap_backing (src : Region) (shost slen : Z) s : (Z + Z * Z) * MS Os :=
  if tr (r_shared src) then
    let pad := Z.land shost (os_pagesz - 1) in
    if negb (host_len_ok (slen + pad)) then (inl (- ENOMEM), s)
    else match host_mremap (shost - pad) 0 (slen + pad) 1 s with
         | (None, s) => (inl (- ENOMEM), s)
         | (Some p, s) => (inr (p + pad, pad), s)
         end
  else if negb (tr (r_hostmap src)) then
    match host_alloc slen s with
    | (None, s) => (inl (- ENOMEM), s)
    | (Some host, s) =>
        (inr (host, 0), host_zero_backing shost slen (upd_ms_mem (copy_bytes host shost slen) s))
    end
  else
    match host_mremap shost slen slen 5 s with
    | (None, s) => (inl (- EINVAL), s)
    | (Some p, s) => (inr (p, 0), s)
    end.
Fixpoint dontunmap_loop (fuel : nat) (pos addr len dst : Z) s : Z * MS Os :=
  match fuel with
  | O => (0, s)
  | S f =>
      if pos <? addr + len then
        match as_find_region (regs s) pos with
        | None => (0, s)
        | Some src =>
            let hi := if r_end src <? addr + len then r_end src else addr + len in
            let slen := hi - pos in
            let ndst := dst + (pos - addr) in
            match dontunmap_backing src (r_host src + (pos - r_start src)) slen s with
            | (inl e, s) => (e, s)
            | (inr (host, pad), s) =>
                let '(h, s) := hmap_new (host - pad) (slen + pad) s in
                let n := r_with_backing host h
                           (r_with_range ndst (ndst + slen) host
                              (u64 (r_file_off src + (pos - r_start src))) src) in
                let n := if negb (tr (r_shared src)) && negb (tr (r_hostmap src))
                         then r_with_mfdcnt 0 n else n in
                let s := region_insert n s in
                let s := set_pt (fun t => pte_dup_loop (npages slen) t pos hi ndst host (r_prot src)) s in
                let s :=
                  if has (r_lock n) RL_LOCKED then
                    let s := upd_ms_as (upd_as_locked_vm (fun v => u64 (v + Z.shiftr slen 12))) s in
                    let s := region_split_at hi (region_split_at pos s) in
                    set_regs (fun rs => upd_region (r_with_lock 0) rs pos) s
                  else s in
                dontunmap_loop f hi addr len dst s
            end
        end
      else (0, s)
  end.
Definition guest_remap_dontunmap_impl (addr len dst : Z) s : Z * MS Os :=
  if misaligned (Z.lor (Z.lor addr len) dst) || (len =? 0) then (- EINVAL, s)
  else if negb (range_ok addr len) || negb (range_ok dst len) then (- EINVAL, s)
  else if (dst <? addr + len) && (addr <? dst + len) then (- EINVAL, s)
  else if negb (pages_unmapped (npages len) dst s) then (- ENOMEM, s)
  else
    let j := dontunmap_judge (npages len) addr (addr + len) s in
    if j <? 0 then (j, s)
    else match dontunmap_loop (npages len) addr addr len dst s with
         | (rc, s) => if rc <? 0 then (rc, s) else (0, pte_sync_range dst len s)
         end.
Definition guest_remap_grow (addr old_len new_len : Z) (in_place : bool) s :=
  finish true (guest_remap_grow_impl addr old_len new_len in_place s).
Definition guest_remap_dontunmap (addr len dst : Z) s :=
  finish false (guest_remap_dontunmap_impl addr len dst s).

(** ** Tearing the space down: [as_destroy] (execve) *)
Definition as_destroy s : MS Os :=
  let s := fold_left (fun s r =>
             let s := if tr (r_mfdcnt r) then mapadj (r_dev r) (r_ino r) (-1) s else s in
             hmap_unref (r_hmap r) s) (regs s) s in
  let s := fold_left (fun s h => free_hm h (host_munmap (hm_base (hm_at s h)) (hm_len (hm_at s h)) s))
             (as_orphans (ms_as s)) s in
  let s := fold_left (fun s q => host_munmap (rt_addr q) (rt_len q) s) (as_retired (ms_as s)) s in
  let s := upd_ms_as (fun a => upd_as_pt (fun t => mkPT ∅ None (pt_n t))
                        (upd_as_orphans (fun _ => []) (upd_as_retired (fun _ => [])
                          (upd_as_regions (fun _ => []) a)))) s in
  flush_me (as_gen_bump s).

(** A fork child's loans are gone: [as_lend_fork_child]. *)
Definition as_lend_fork_child s : MS Os :=
  let s := fold_left (fun s r => set_hm (r_hmap r) (hm_with_pins 0) s) (regs s) s in
  let s := fold_left (fun s h => free_hm h (as_retire (hm_base (hm_at s h)) (hm_len (hm_at s h)) s))
             (as_orphans (ms_as s)) s in
  upd_ms_as (upd_as_orphans (fun _ => [])) s.

(** Threads come and go: [as_thread_enter], [as_thread_exit],
    [as_thread_enter_undo]. *)
Definition as_thread_enter s : MS Os := upd_ms_as (upd_as_nthreads (fun n => n + 1)) s.
Definition as_thread_exit s : MS Os :=
  let '(p, t) := dtlb_unpublish (ms_pub s, ms_me s) in
  upd_ms_as (upd_as_nthreads (fun n => n - 1)) (upd_ms_pub (fun _ => p) (upd_ms_me (fun _ => t) s)).
Definition as_thread_enter_undo s : MS Os := upd_ms_as (upd_as_nthreads (fun n => n - 1)) s.

End AddrSpace.
