(* ===== verification/AsInv.v ===== *)
(** * AsInv: the invariant of the region table and its host memory

    [hinv] says that the region list is well formed, that every region's
    slice lies in the allocation it refers to, that an allocation's reference
    count is the number of regions referring to it, that allocations and
    quarantined memory are disjoint and still mapped on the host. Every step
    of mem.c that touches the table keeps it: deletion, trimming, splitting,
    merging, insertion over a new allocation, and the drain. *)

From stdpp Require Import gmap.
From S2P Require Import Prelude Types Cpu MemSeam PageTable Regions Epoch AsState AddrSpace.

(** ** Host ranges *)
Definition disj (p n q m : Z) : Prop := p + n <= q \/ q + m <= p.
Definition all_live (maps : list (Z * Z)) (p n : Z) : Prop := forall a, p <= a < p + n -> live maps a = true.

Lemma in_rng_iff a q : in_rng a q = true <-> fst q <= a < fst q + snd q.
Proof. unfold in_rng. rewrite andb_true_iff. lia. Qed.
Lemma live_cons q maps a : live (q :: maps) a = in_rng a q || live maps a.
Proof. done. Qed.
Lemma live_app m1 m2 a : live (m1 ++ m2) a = live m1 a || live m2 a.
Proof. unfold live. apply existsb_app. Qed.
Lemma live_cut p n q a : live (cut_rng p n q) a = in_rng a q && negb ((p <=? a) && (a <? p + n)).
Proof.
  destruct q as [b m]. unfold cut_rng, in_rng; simpl. rewrite live_app.
  destruct (b <? Z.min (b + m) p) eqn:E1, (Z.max b (p + n) <? b + m) eqn:E2; simpl;
    unfold in_rng; simpl; zbool; lia.
Qed.
Lemma live_munmap p n maps a :
  live (os_munmap p n maps) a = live maps a && negb ((p <=? a) && (a <? p + n)).
Proof.
  unfold os_munmap. induction maps as [|q maps IH]; [done|]. cbn [flat_map].
  rewrite live_app, IH, live_cut, live_cons. by destruct (in_rng a q), (live maps a), (negb _).
Qed.
Lemma all_live_cons q maps p n : all_live maps p n -> all_live (q :: maps) p n.
Proof. intros H a Ha. rewrite live_cons, (H a Ha). apply orb_true_r. Qed.
Lemma all_live_new p n maps : all_live ((p, n) :: maps) p n.
Proof. intros a Ha. rewrite live_cons. apply orb_true_iff. left. by apply in_rng_iff. Qed.
Lemma all_live_munmap p n maps q m : all_live maps q m -> disj p n q m ->
  all_live (os_munmap p n maps) q m.
Proof.
  intros H Hd a Ha. rewrite live_munmap, (H a Ha). apply negb_true_iff, andb_false_iff.
  unfold disj in Hd. lia.
Qed.
Lemma free_disj maps p n q m : rng_free maps p n -> all_live maps q m -> 0 < n -> 0 < m -> disj p n q m.
Proof.
  intros Hf Hl Hn Hm. unfold disj. destruct (decide (p + n <= q)); [by left|].
  destruct (decide (q + m <= p)); [by right|]. exfalso.
  specialize (Hf (Z.max p q) ltac:(lia)). specialize (Hl (Z.max p q) ltac:(lia)). congruence.
Qed.
Lemma disj_sym p n q m : disj p n q m -> disj q m p n.
Proof. unfold disj. tauto. Qed.

(** ** Counting regions *)
Definition countb (P : Region -> bool) (rs : list Region) : Z := Z.of_nat (length (List.filter P rs)).
Definition refcount (h : Z) (rs : list Region) : Z := countb (fun r => r_hmap r =? h) rs.

Section Count.
Context (P : Region -> bool).
Lemma countb_nil : countb P [] = 0.
Proof. done. Qed.
Lemma countb_cons r rs : countb P (r :: rs) = (if P r then 1 else 0) + countb P rs.
Proof. unfold countb; simpl. destruct (P r); simpl; lia. Qed.
Lemma countb_app l1 l2 : countb P (l1 ++ l2) = countb P l1 + countb P l2.
Proof. unfold countb. rewrite List.filter_app, length_app. lia. Qed.
Lemma countb_nonneg rs : 0 <= countb P rs.
Proof. unfold countb. lia. Qed.
Lemma countb_le rs : countb P rs <= Z.of_nat (length rs).
Proof. unfold countb. pose proof (List.filter_length_le P rs). lia. Qed.
Lemma countb_index rs i r : rs !! i = Some r ->
  countb P rs = countb P (take i rs) + (if P r then 1 else 0) + countb P (drop (S i) rs).
Proof.
  intros Hi. rewrite (split_at_index rs i r Hi) at 1. rewrite !countb_app, countb_cons, countb_nil. lia.
Qed.
Lemma countb_del rs i r : rs !! i = Some r ->
  countb P (del_region i rs) = countb P rs - (if P r then 1 else 0).
Proof. intros Hi. unfold del_region. rewrite countb_app, (countb_index rs i r Hi). lia. Qed.
Lemma countb_set rs i r x : rs !! i = Some r ->
  countb P (<[i := x]> rs) = countb P rs - (if P r then 1 else 0) + (if P x then 1 else 0).
Proof.
  intros Hi. rewrite (insert_index rs i r x Hi), (countb_index rs i r Hi).
  rewrite !countb_app, countb_cons, countb_nil. lia.
Qed.
Lemma countb_ins r rs : countb P (ins_region r rs) = (if P r then 1 else 0) + countb P rs.
Proof.
  induction rs as [|q rs IH]; simpl; [by rewrite countb_cons|].
  destruct (r_start q <? r_start r); rewrite !countb_cons, ?IH; lia.
Qed.
End Count.

Lemma refcount_in r rs : r ∈ rs -> 0 < refcount (r_hmap r) rs.
Proof.
  intros Hr. induction rs as [|q rs IH]; [by apply elem_of_nil in Hr|].
  unfold refcount in *. rewrite countb_cons.
  apply elem_of_cons in Hr as [<-|Hr%IH].
  - rewrite Z.eqb_refl. pose proof (countb_nonneg (fun q => r_hmap q =? r_hmap r) rs). lia.
  - destruct (_ =? _); lia.
Qed.
Lemma refcount_none h rs : (forall r, r ∈ rs -> r_hmap r <> h) -> refcount h rs = 0.
Proof.
  intros H. induction rs as [|q rs IH]; [done|].
  unfold refcount in *. rewrite countb_cons, IH by (intros; apply H; by right).
  rewrite (proj2 (Z.eqb_neq _ _)); [done|]. apply H. by left.
Qed.

(** ** The invariant *)
Section Inv.
Context {Os : Type} `{!HostOs Os}.
Implicit Types s : MS Os.

(** [r]'s slice lies in its allocation. *)
Definition backed (hms : gmap Z HostMap) (r : Region) : Prop :=
  exists hm, hms !! r_hmap r = Some hm /\ hm_base hm <= r_host r /\
             r_host r + r_len r <= hm_base hm + hm_len hm.

Record hm_ok (s : MS Os) (h : Z) (hm : HostMap) : Prop := {
  ho_refs : hm_refs hm = refcount h (regs s);
  ho_pins : 0 <= hm_pins hm;
  ho_orphan : hm_refs hm = 0 -> hm_pins hm <> 0 /\ h ∈ as_orphans (ms_as s);
  ho_id : h < ms_next s;
  ho_base : 0 < hm_base hm /\ 0 < hm_len hm /\ hm_base hm + hm_len hm <= 2 ^ 64;
  ho_live : all_live (ms_maps s) (hm_base hm) (hm_len hm)
}.

Record ret_ok (s : MS Os) (q : RetiredMap) : Prop := {
  rk_len : 0 < rt_len q;
  rk_live : all_live (ms_maps s) (rt_addr q) (rt_len q);
  rk_gen : rt_gen q <= ms_gen s;
  rk_hm h hm : ms_hmaps s !! h = Some hm -> disj (hm_base hm) (hm_len hm) (rt_addr q) (rt_len q)
}.
Definition ret_disj (a b : RetiredMap) : Prop := disj (rt_addr a) (rt_len a) (rt_addr b) (rt_len b).

Record hinv (s : MS Os) : Prop := {
  hi_regs : regions_ok (regs s);
  hi_back : Forall (backed (ms_hmaps s)) (regs s);
  hi_hm h hm : ms_hmaps s !! h = Some hm -> hm_ok s h hm;
  hi_disj h h' hm hm' : h <> h' -> ms_hmaps s !! h = Some hm -> ms_hmaps s !! h' = Some hm' ->
    disj (hm_base hm) (hm_len hm) (hm_base hm') (hm_len hm');
  hi_orph h : h ∈ as_orphans (ms_as s) -> exists hm, ms_hmaps s !! h = Some hm /\ hm_refs hm = 0;
  hi_ret : Forall (ret_ok s) (as_retired (ms_as s));
  hi_retd : ForallOrdPairs ret_disj (as_retired (ms_as s))
}.

(** Steps that leave the table, the allocations, the quarantine, the host
    mappings and the generation alone keep the invariant. *)
Record same_heap s s' : Prop := {
  sh_regs : regs s' = regs s;
  sh_hms : ms_hmaps s' = ms_hmaps s;
  sh_orph : as_orphans (ms_as s') = as_orphans (ms_as s);
  sh_ret : as_retired (ms_as s') = as_retired (ms_as s);
  sh_maps : ms_maps s' = ms_maps s;
  sh_next : ms_next s' = ms_next s;
  sh_gen : ms_gen s <= ms_gen s'
}.
Lemma hinv_same s s' : same_heap s s' -> hinv s -> hinv s'.
Proof.
  intros [E1 E2 E3 E4 E5 E6 E7] [H1 H2 H3 H4 H5 H6 H7]. split.
  - by rewrite E1.
  - by rewrite E1, E2.
  - intros h hm. rewrite E2. intros Hh. destruct (H3 h hm Hh). split; rewrite ?E1, ?E3, ?E5, ?E6; done.
  - rewrite E2. apply H4.
  - rewrite E3, E2. apply H5.
  - rewrite E4. apply (list.Forall_impl _ _ _ H6). intros q [Q1 Q2 Q3 Q4].
    split; rewrite ?E5, ?E2; try done. lia.
  - by rewrite E4.
Qed.

(** ** HostMap references *)
Lemma set_hm_at s h g hm : ms_hmaps s !! h = Some hm ->
  set_hm h g s = upd_ms_hmaps (fun _ => <[h := g hm]> (ms_hmaps s)) s.
Proof. intros E. unfold set_hm, upd_ms_hmaps. by rewrite E. Qed.
Lemma upd_hmaps_twice s m m' :
  upd_ms_hmaps (fun _ => m') (upd_ms_hmaps (fun _ => m) s) = upd_ms_hmaps (fun _ => m') s.
Proof. done. Qed.

(** What [hmap_unref] does to a live HostMap. *)
Definition unref_result (h : Z) (hm : HostMap) s : MS Os :=
  let hm1 := hm_with_refs (hm_refs hm - 1) hm in
  if hm_refs hm - 1 =? 0 then
    if negb (hm_pins hm =? 0) then
      upd_ms_as (upd_as_orphans (cons h))
        (upd_ms_hmaps (fun _ => <[h := hm_with_hostlocked false hm1]> (ms_hmaps s)) s)
    else upd_ms_hmaps (fun _ => delete h (ms_hmaps s)) (as_retire (hm_base hm) (hm_len hm) s)
  else upd_ms_hmaps (fun _ => <[h := hm1]> (ms_hmaps s)) s.
Lemma hmap_unref_eq s h hm : ms_hmaps s !! h = Some hm -> hmap_unref h s = unref_result h hm s.
Proof.
  intros E. unfold hmap_unref, unref_result. rewrite (set_hm_at s h _ hm E).
  set (hm1 := hm_with_refs _ hm). set (s1 := upd_ms_hmaps _ s).
  assert (E1 : ms_hmaps s1 !! h = Some hm1) by apply lookup_insert_eq.
  assert (Eat : hm_at s1 h = hm1) by (unfold hm_at; by rewrite E1).
  rewrite Eat. cbn [hm_refs hm1 hm_with_refs].
  destruct (hm_refs hm - 1 =? 0); [|done].
  set (s2 := upd_ms_hmaps (fun _ => <[h := hm_with_hostlocked false hm1]> (ms_hmaps s)) s).
  assert (Es : set_hm h (hm_with_hostlocked false) s1 = s2).
  { rewrite (set_hm_at s1 h _ hm1 E1). unfold s1, s2, upd_ms_hmaps; simpl. by rewrite insert_insert_eq. }
  rewrite Es.
  assert (E2 : hm_at s2 h = hm_with_hostlocked false hm1).
  { unfold hm_at, s2; cbn [ms_hmaps upd_ms_hmaps]. by rewrite lookup_insert_eq. }
  rewrite E2. cbn [hm_pins hm_base hm_len hm_with_hostlocked hm1 hm_with_refs].
  destruct (negb (hm_pins hm =? 0)); [done|].
  unfold s2, free_hm, as_retire, upd_ms_hmaps, upd_ms_as; simpl. by rewrite delete_insert_eq.
Qed.
Lemma unref_regs s h hm : regs (unref_result h hm s) = regs s.
Proof. unfold unref_result. by destruct (hm_refs hm - 1 =? 0), (negb (hm_pins hm =? 0)). Qed.
Lemma region_delete_eff i s r : regs s !! i = Some r ->
  regs (region_delete i s) = del_region i (regs s) /\
  ms_hmaps (region_delete i s) = ms_hmaps s /\
  as_orphans (ms_as (region_delete i s)) = as_orphans (ms_as s) /\
  as_retired (ms_as (region_delete i s)) = as_retired (ms_as s) /\
  ms_maps (region_delete i s) = ms_maps s /\ ms_next (region_delete i s) = ms_next s /\
  ms_gen (region_delete i s) = ms_gen s /\ pt (region_delete i s) = pt s.
Proof. intros E. unfold region_delete. rewrite E. by destruct (tr (r_mfdcnt r)). Qed.

(** A state whose regions are among [s]'s, with the slices they had. *)
Lemma backed_mono hms hms' r : backed hms r ->
  (forall hm, hms !! r_hmap r = Some hm -> exists hm', hms' !! r_hmap r = Some hm' /\
     hm_base hm' = hm_base hm /\ hm_len hm' = hm_len hm) -> backed hms' r.
Proof.
  intros (hm & E & H1 & H2) Hm. destruct (Hm hm E) as (hm' & E' & Eb & El).
  exists hm'. by rewrite Eb, El.
Qed.
Lemma elem_of_del (rs : list Region) i q : q ∈ del_region i rs -> q ∈ rs.
Proof.
  unfold del_region. rewrite elem_of_app. intros [H|H].
  - by apply elem_of_take in H as (? & ? & _); eapply list_elem_of_lookup_2.
  - by apply (subseteq_drop _ _ _) in H.
Qed.


(** The heap of [s'] is that of [s], its regions aside. *)
Record same_store s s' : Prop := {
  ss_hms : ms_hmaps s' = ms_hmaps s;
  ss_orph : as_orphans (ms_as s') = as_orphans (ms_as s);
  ss_ret : as_retired (ms_as s') = as_retired (ms_as s);
  ss_maps : ms_maps s' = ms_maps s;
  ss_next : ms_next s' = ms_next s;
  ss_gen : ms_gen s' = ms_gen s
}.
Lemma same_store_refl s : same_store s s.
Proof. done. Qed.

(** A new table over the same allocations: the counts must agree. *)
Lemma hinv_retable s s' : hinv s -> same_store s s' -> regions_ok (regs s') ->
  Forall (backed (ms_hmaps s)) (regs s') ->
  (forall h, refcount h (regs s') = refcount h (regs s)) -> hinv s'.
Proof.
  intros [H1 H2 H3 H4 H5 H6 H7] [E2 E3 E4 E5 E6 E7] Hok Hb Hc. split.
  - done.
  - by rewrite E2.
  - intros h hm. rewrite E2. intros Hh. destruct (H3 h hm Hh). split; rewrite ?Hc, ?E3, ?E5, ?E6; done.
  - rewrite E2. apply H4.
  - rewrite E3, E2. apply H5.
  - rewrite E4. apply (list.Forall_impl _ _ _ H6). intros q [Q1 Q2 Q3 Q4].
    split; rewrite ?E5, ?E2; try done. lia.
  - by rewrite E4.
Qed.

(** One reference to [h] fewer. *)
Definition minus_one (h k : Z) : Z := if h =? k then 1 else 0.

(** Two of the three outcomes of [hmap_unref] only rewrite the record [h]. *)
Lemma hinv_set_hm s s' h hm hm' : hinv s -> ms_hmaps s !! h = Some hm ->
  ms_hmaps s' = <[h := hm']> (ms_hmaps s) -> as_retired (ms_as s') = as_retired (ms_as s) ->
  ms_maps s' = ms_maps s -> ms_next s' = ms_next s -> ms_gen s' = ms_gen s ->
  hm_base hm' = hm_base hm -> hm_len hm' = hm_len hm -> 0 <= hm_pins hm' ->
  regions_ok (regs s') -> Forall (backed (ms_hmaps s)) (regs s') ->
  hm_refs hm' = refcount h (regs s') ->
  (forall k, k <> h -> refcount k (regs s') = refcount k (regs s)) ->
  (hm_refs hm' = 0 -> hm_pins hm' <> 0 /\ h ∈ as_orphans (ms_as s')) ->
  (forall k, k <> h -> k ∈ as_orphans (ms_as s') <-> k ∈ as_orphans (ms_as s)) ->
  (h ∈ as_orphans (ms_as s') -> hm_refs hm' = 0) -> hinv s'.
Proof.
  intros [H1 H2 H3 H4 H5 H6 H7] Eh E2 E4 E5 E6 E7 Eb El Hp Hok Hb Hrf Hrk Hor1 Hor2 Hor3.
  pose proof (H3 h hm Eh) as [_ _ _ Hid Hbase Hlive].
  assert (Hcase : forall k x, ms_hmaps s' !! k = Some x -> exists y, ms_hmaps s !! k = Some y /\
            hm_base x = hm_base y /\ hm_len x = hm_len y).
  { intros k x. rewrite E2. intros [[<- <-]|[Hne Hk]]%lookup_insert_Some; eauto. }
  split.
  - done.
  - apply (list.Forall_impl _ _ _ Hb). intros r Hr. apply (backed_mono (ms_hmaps s)); [done|].
    intros y Hy. rewrite E2. destruct (decide (h = r_hmap r)) as [E|Hne].
    + rewrite <- E in *. rewrite lookup_insert_eq. exists hm'. assert (y = hm) as -> by congruence. done.
    + rewrite lookup_insert_ne by done. eauto.
  - intros k x. rewrite E2. intros [[<- <-]|[Hne Hk]]%lookup_insert_Some.
    + split; rewrite ?E6, ?E5, ?Eb, ?El; try done.
    + destruct (H3 k x Hk) as [F1 F2 F3 F4 F5 F6].
      split; rewrite ?E6, ?E5, ?(Hrk k (not_eq_sym Hne)); try done.
      intros H0. destruct (F3 H0). split; [done|]. by apply Hor2.
  - intros k k' x x' Hne Hx Hx'. destruct (Hcase k x Hx) as (y & Hy & -> & ->).
    destruct (Hcase k' x' Hx') as (y' & Hy' & -> & ->). by apply (H4 k k').
  - intros k Hk. rewrite E2. destruct (decide (h = k)) as [<-|Hne].
    + rewrite lookup_insert_eq. eauto.
    + rewrite lookup_insert_ne by done. apply H5. by apply Hor2.
  - rewrite E4. apply (list.Forall_impl _ _ _ H6). intros q [Q1 Q2 Q3 Q4]. split; rewrite ?E5; try done; [lia|].
    intros k x Hx. destruct (Hcase k x Hx) as (y & Hy & -> & ->). by apply (Q4 k).
  - by rewrite E4.
Qed.

(** The third retires the allocation. *)
Lemma hinv_retire s s' h hm : hinv s -> ms_hmaps s !! h = Some hm ->
  ms_hmaps s' = delete h (ms_hmaps s) ->
  as_retired (ms_as s') = as_retired (ms_as s) ++ [mkRet (hm_base hm) (hm_len hm) (ms_gen s)] ->
  ms_maps s' = ms_maps s -> ms_next s' = ms_next s -> ms_gen s' = ms_gen s ->
  regions_ok (regs s') -> Forall (backed (ms_hmaps s)) (regs s') ->
  refcount h (regs s') = 0 ->
  (forall k, k <> h -> refcount k (regs s') = refcount k (regs s)) ->
  (forall k, k <> h -> k ∈ as_orphans (ms_as s) -> k ∈ as_orphans (ms_as s')) ->
  (forall k, k ∈ as_orphans (ms_as s') -> k <> h /\ k ∈ as_orphans (ms_as s)) -> hinv s'.
Proof.
  intros [H1 H2 H3 H4 H5 H6 H7] Eh E2 E4 E5 E6 E7 Hok Hb Hr0 Hrk Hor1 Hor2.
  pose proof (H3 h hm Eh) as [_ _ _ Hid (Hb1 & Hb2 & Hb3) Hlive].
  split.
  - done.
  - rewrite list.Forall_forall in *. intros r Hr. apply (backed_mono (ms_hmaps s)); [by apply Hb|].
    intros y Hy. rewrite E2. destruct (decide (h = r_hmap r)) as [E|Hne].
    + pose proof (refcount_in r _ Hr). rewrite <- E in *. lia.
    + rewrite lookup_delete_ne by done. eauto.
  - intros k x. rewrite E2. intros [Hne Hk]%lookup_delete_Some. destruct (H3 k x Hk) as [F1 F2 F3 F4 F5 F6].
    split; rewrite ?E6, ?E5, ?(Hrk k (not_eq_sym Hne)); try done.
    intros H0. destruct (F3 H0). split; [done|]. by apply Hor1.
  - intros k k' x x' Hne. rewrite E2. intros [_ Hk]%lookup_delete_Some [_ Hk']%lookup_delete_Some.
    by apply (H4 k k').
  - intros k Hk. destruct (Hor2 k Hk) as [Hne Hk']. rewrite E2, lookup_delete_ne by done. by apply H5.
  - rewrite E4. apply Forall_app. split.
    + apply (list.Forall_impl _ _ _ H6). intros q [Q1 Q2 Q3 Q4]. split; rewrite ?E5; try done; [lia|].
      intros k x. rewrite E2. intros [_ Hk]%lookup_delete_Some. by apply (Q4 k).
    + constructor; [|constructor]. split; simpl; rewrite ?E5; try done; [lia|].
      intros k x. rewrite E2. intros [Hne Hk]%lookup_delete_Some. by apply (H4 k h).
  - rewrite E4. clear -H6 H7 Eh. induction H7 as [|a l Ha HO IH]; simpl.
    + repeat constructor.
    + apply Forall_cons_iff in H6 as [H6a H6]. constructor; [|by apply IH].
      apply Forall_app. split; [done|]. constructor; [|constructor]. unfold ret_disj; simpl.
      apply disj_sym. by apply (rk_hm _ _ H6a h).
Qed.


Lemma hinv_unref s s' h hm : hinv s -> ms_hmaps s !! h = Some hm ->
  same_store (unref_result h hm s) s' -> regions_ok (regs s') ->
  Forall (backed (ms_hmaps s)) (regs s') ->
  (forall k, refcount k (regs s') = refcount k (regs s) - minus_one h k) -> hinv s'.
Proof.
  intros Hi Eh HS Hok Hb Hc. pose proof (hi_hm s Hi h hm Eh) as [Hrf Hp _ _ _ _].
  assert (Hch : refcount h (regs s') = hm_refs hm - 1).
  { rewrite Hc, Hrf. unfold minus_one. rewrite Z.eqb_refl. lia. }
  assert (Hck : forall k, k <> h -> refcount k (regs s') = refcount k (regs s)).
  { intros k Hk. rewrite Hc. unfold minus_one. rewrite (proj2 (Z.eqb_neq h k)) by done. lia. }
  pose proof (countb_nonneg (fun r => r_hmap r =? h) (regs s')) as Hnn.
  change (countb _ (regs s')) with (refcount h (regs s')) in Hnn.
  assert (Hno : h ∉ as_orphans (ms_as s)).
  { intros (x & Ex & E0)%(hi_orph s Hi). assert (x = hm) as -> by congruence. lia. }
  revert HS. unfold unref_result. destruct (Z.eqb_spec (hm_refs hm - 1) 0) as [E0|E0];
    [destruct (Z.eqb_spec (hm_pins hm) 0) as [P0|P0]|]; cbn [negb]; intros [E2 E3 E4 E5 E6 E7].
  - apply (hinv_retire s s' h hm); try done; [lia|..]; rewrite E3; simpl; [done|].
    intros k Hk. split; [|done]. by intros ->.
  - apply (hinv_set_hm s s' h hm (hm_with_hostlocked false (hm_with_refs (hm_refs hm - 1) hm)));
      try done; simpl; rewrite E3; simpl.
    + intros _. split; [done|]. by left.
    + intros k Hk. rewrite elem_of_cons. naive_solver.
  - apply (hinv_set_hm s s' h hm (hm_with_refs (hm_refs hm - 1) hm)); try done; simpl; by rewrite E3.
Qed.

(** One reference more. *)
Lemma hinv_ref s s' h hm : hinv s -> ms_hmaps s !! h = Some hm -> 0 < hm_refs hm ->
  same_store (hmap_ref h s) s' -> regions_ok (regs s') -> Forall (backed (ms_hmaps s)) (regs s') ->
  (forall k, refcount k (regs s') = refcount k (regs s) + minus_one h k) -> hinv s'.
Proof.
  intros Hi Eh Hpos HS Hok Hb Hc. pose proof (hi_hm s Hi h hm Eh) as [Hrf Hp _ _ _ _].
  unfold hmap_ref in HS. rewrite (set_hm_at s h _ hm Eh) in HS. destruct HS as [E2 E3 E4 E5 E6 E7].
  apply (hinv_set_hm s s' h hm (hm_with_refs (hm_refs hm + 1) hm)); try done; simpl.
  - rewrite Hc, Hrf. unfold minus_one. rewrite Z.eqb_refl. lia.
  - intros k Hk. rewrite Hc. unfold minus_one. rewrite (proj2 (Z.eqb_neq h k)) by done. lia.
  - lia.
  - by rewrite E3.
  - rewrite E3; simpl. intros (x & Ex & E0)%(hi_orph s Hi). assert (x = hm) as -> by congruence. lia.
Qed.

(** ** What a step on the table may touch *)

(** Ranges of host memory the address space holds, live or quarantined. *)
Definition owned s (p n : Z) : Prop :=
  (exists h hm, ms_hmaps s !! h = Some hm /\ hm_base hm = p /\ hm_len hm = n) \/
  (exists q, q ∈ as_retired (ms_as s) /\ rt_addr q = p /\ rt_len q = n).

(** The table changes, HostMaps may be retired or forgotten; nothing else. *)
Record tabstep s s' : Prop := {
  ts_owned p n : owned s' p n -> owned s p n;
  ts_ret q : q ∈ as_retired (ms_as s') -> q ∈ as_retired (ms_as s) \/ rt_gen q = ms_gen s;
  ts_pt : pt s' = pt s;
  ts_maps : ms_maps s' = ms_maps s;
  ts_mem : ms_mem s' = ms_mem s;
  ts_os : ms_os s' = ms_os s;
  ts_gen : ms_gen s' = ms_gen s;
  ts_pub : ms_pub s' = ms_pub s;
  ts_me : ms_me s' = ms_me s;
  ts_vf : ms_vf s' = ms_vf s;
  ts_inval : ms_inval s' = ms_inval s;
  ts_env : ms_env s' = ms_env s;
  ts_next : ms_next s' = ms_next s;
  ts_threads : as_nthreads (ms_as s') = as_nthreads (ms_as s);
  ts_mmap : as_mmap_next (ms_as s') = as_mmap_next (ms_as s)
}.
Lemma tabstep_refl s : tabstep s s.
Proof. split; auto. Qed.
Lemma tabstep_trans s1 s2 s3 : tabstep s1 s2 -> tabstep s2 s3 -> tabstep s1 s3.
Proof.
  intros [] []. split; try congruence; auto. intros q Hq.
  destruct (ts_ret1 q Hq) as [H|H]; [by apply ts_ret0|]. right. congruence.
Qed.
Lemma tabstep_set_regs s f : tabstep s (set_regs f s).
Proof. by split; auto. Qed.
Lemma tabstep_insert s r : tabstep s (region_insert r s).
Proof. unfold region_insert. destruct (tr _); split; auto. Qed.
Lemma tabstep_delete s i : tabstep s (region_delete i s).
Proof.
  unfold region_delete. destruct (regs s !! i) as [r|]; [|apply tabstep_refl].
  destruct (tr _); split; auto.
Qed.
Lemma tabstep_ref s h : tabstep s (hmap_ref h s).
Proof.
  unfold hmap_ref, set_hm. destruct (ms_hmaps s !! h) as [hm|] eqn:E; split; auto; simpl.
  2: { unfold owned; simpl. by rewrite E. }
  intros p n [(k & x & Hk & Hp)|Hq]; [left|by right]. simpl in Hk. rewrite E in Hk.
  apply lookup_insert_Some in Hk as [[<- <-]|[_ Hk]]; eauto.
Qed.
Lemma tabstep_unref s h hm : ms_hmaps s !! h = Some hm -> tabstep s (hmap_unref h s).
Proof.
  intros E. rewrite (hmap_unref_eq s h hm E). unfold unref_result.
    assert (Hset : forall hm', hm_base hm' = hm_base hm -> hm_len hm' = hm_len hm -> forall p n k x,
      <[h := hm']> (ms_hmaps s) !! k = Some x -> hm_base x = p /\ hm_len x = n -> owned s p n).
    { intros hm' Eb El p n k x [[<- <-]|[_ Hk]]%lookup_insert_Some [<- <-]; left; eauto. }
    destruct (_ =? 0); [destruct (negb _)|]; split; auto; simpl.
    + intros p n [(k & x & Hk & Hx)|Hq]; [|by right]. by refine (Hset _ _ _ _ _ _ _ Hk Hx).
    + intros p n [(k & x & Hk & Hx)|(q & Hq & Hx)]; simpl in *.
      * apply lookup_delete_Some in Hk as [_ Hk]. left. eauto.
      * apply elem_of_app in Hq as [Hq|Hq]; [right; eauto|].
        apply list_elem_of_singleton in Hq as ->. left. eauto.
    + intros q [Hq|Hq]%elem_of_app; [by left|]. apply list_elem_of_singleton in Hq as ->. by right.
    + intros p n [(k & x & Hk & Hx)|Hq]; [|by right]. by refine (Hset _ _ _ _ _ _ _ Hk Hx).
Qed.

End Inv.
