(* ===== verification/AsSteps.v ===== *)
(** * AsSteps: the table routines keep the invariant

    For [region_split_at], [region_merge_range] and [region_punch] of mem.c:
    each keeps [hinv] and touches nothing but the table ([tabstep]); a split
    and a merge leave what is mapped at every address as it was; a punch takes
    exactly its range out. *)

From stdpp Require Import gmap.
From S2P Require Import Prelude Types Cpu MemSeam PageTable Regions Epoch AsState AddrSpace AsInv.

Section Steps.
Context {Os : Type} `{!HostOs Os}.
Implicit Types s : MS Os.

Lemma hinv_region s i r : hinv s -> regs s !! i = Some r -> region_ok r.
Proof. intros Hi Hr. destruct (hi_regs s Hi) as [HF _]. by apply (Forall_lookup_1 _ _ _ _ HF Hr). Qed.
Lemma hinv_backed s i r : hinv s -> regs s !! i = Some r -> backed (ms_hmaps s) r.
Proof. intros Hi Hr. by apply (Forall_lookup_1 _ _ _ _ (hi_back s Hi) Hr). Qed.
Lemma hinv_refs_pos s r hm : hinv s -> r ∈ regs s -> ms_hmaps s !! r_hmap r = Some hm -> 0 < hm_refs hm.
Proof. intros Hi Hr E. rewrite (ho_refs _ _ _ (hi_hm s Hi _ _ E)). by apply refcount_in. Qed.

(** ** Backing of parts *)
Lemma backed_part hms r a e : backed hms r -> r_start r <= a -> a <= e -> e <= r_end r ->
  backed hms (r_part a e r).
Proof.
  intros (hm & E & H1 & H2) Ha Hae He. exists hm. unfold r_len in *; simpl.
  split; [done|]. lia.
Qed.
Lemma backed_with_end hms r e : backed hms r -> r_start r <= e <= r_end r -> backed hms (r_with_end e r).
Proof. intros (hm & E & H1 & H2) He. exists hm. unfold r_len in *; simpl. split; [done|]. lia. Qed.

(** ** The steps *)
Lemma step_delete s i r : hinv s -> regs s !! i = Some r ->
  let s' := region_delete i (hmap_unref (r_hmap r) s) in
  hinv s' /\ tabstep s s' /\ regs s' = del_region i (regs s).
Proof.
  intros Hi Hr. cbn zeta. destruct (hinv_backed s i r Hi Hr) as (hm & Eh & _).
  pose proof (hmap_unref_eq s _ hm Eh) as Eu.
  assert (Er : regs (hmap_unref (r_hmap r) s) !! i = Some r) by (by rewrite Eu, unref_regs).
  destruct (region_delete_eff i _ r Er) as (D1 & D2 & D3 & D4 & D5 & D6 & D7 & D8).
  assert (Dr : regs (region_delete i (hmap_unref (r_hmap r) s)) = del_region i (regs s))
    by (rewrite D1, Eu; by rewrite unref_regs).
  split; [|split; [|done]].
  - apply (hinv_unref s _ (r_hmap r) hm Hi Eh).
    + rewrite <- Eu. by split.
    + rewrite Dr. by apply (del_region_ok _ i r), Hr; apply (hi_regs s Hi).
    + rewrite Dr. rewrite list.Forall_forall. intros q Hq%elem_of_del.
      pose proof (hi_back s Hi) as HF. rewrite list.Forall_forall in HF. by apply HF.
    + intros k. rewrite Dr. unfold refcount, minus_one. by rewrite (countb_del _ _ i r Hr).
  - apply (tabstep_trans _ (hmap_unref (r_hmap r) s)); [by apply (tabstep_unref s _ hm)|apply tabstep_delete].
Qed.

(** The region at [i] replaced by a part of it. *)
Lemma step_trim s i r x : hinv s -> regs s !! i = Some r -> region_ok x -> within r x ->
  r_hmap x = r_hmap r -> backed (ms_hmaps s) x ->
  let s' := set_regs (fun rs => <[i := x]> rs) s in
  hinv s' /\ tabstep s s' /\ regs s' = <[i := x]> (regs s).
Proof.
  intros Hi Hr Hx Hw Eh Hb. cbn zeta. split; [|split; [apply tabstep_set_regs|done]].
  apply (hinv_retable s); [done|by split|..]; cbn [regs set_regs upd_ms_as ms_as as_regions upd_as_regions].
  - by apply (set_region_ok _ i r); [apply (hi_regs s Hi)|..].
  - apply Forall_insert; [apply (hi_back s Hi)|done].
  - intros h. unfold refcount. rewrite (countb_set _ _ i r x Hr), Eh. lia.
Qed.

(** The region at [i] cut in two, the piece between [lo] and [hi] lost. *)
Lemma step_cut s i r lo hi : hinv s -> regs s !! i = Some r ->
  r_start r < lo -> lo <= hi -> hi < r_end r -> aligned lo -> aligned hi ->
  let tail := r_part hi (r_end r) r in
  let s' := region_insert tail (set_regs (fun rs => <[i := r_with_end lo r]> rs) (hmap_ref (r_hmap r) s)) in
  hinv s' /\ tabstep s s' /\ regs s' = ins_region tail (<[i := r_with_end lo r]> (regs s)).
Proof.
  intros Hi Hr H1 H2 H3 Ha Hb. cbn zeta.
  set (tail := r_part hi (r_end r) r). set (s1 := hmap_ref (r_hmap r) s).
  set (s2 := set_regs _ s1). set (s' := region_insert tail s2).
  destruct (hinv_backed s i r Hi Hr) as (hm & Eh & Hbk).
  assert (Er : regs s' = ins_region tail (<[i := r_with_end lo r]> (regs s))).
  { unfold s', region_insert. by destruct (tr (r_mfdcnt tail)). }
  split; [|split; [|done]].
  - apply (hinv_ref s s' (r_hmap r) hm Hi Eh).
    + apply (hinv_refs_pos s r hm Hi); [by apply (list_elem_of_lookup_2 _ i)|done].
    + unfold s', region_insert. by destruct (tr (r_mfdcnt tail)).
    + rewrite Er. by apply cut_region_ok; [apply (hi_regs s Hi)|..].
    + rewrite Er, list.Forall_forall. intros q [->|Hq]%ins_region_elem.
      * apply backed_part; try lia. by apply (hinv_backed s i).
      * assert (HF : Forall (backed (ms_hmaps s)) (<[i := r_with_end lo r]> (regs s))).
        { apply Forall_insert; [apply (hi_back s Hi)|]. apply backed_with_end; [by apply (hinv_backed s i)|lia]. }
        rewrite list.Forall_forall in HF. by apply HF.
    + intros k. rewrite Er. unfold refcount. rewrite countb_ins, (countb_set _ _ i r _ Hr).
      unfold minus_one. simpl. lia.
  - apply (tabstep_trans _ s1); [apply tabstep_ref|].
    apply (tabstep_trans _ s2); [apply tabstep_set_regs|apply tabstep_insert].
Qed.

(** Two neighbours merged. *)
Lemma step_merge s i a b : hinv s -> regs s !! i = Some a -> regs s !! S i = Some b ->
  region_mergeable a b = true ->
  let s' := region_delete (S i) (hmap_unref (r_hmap b)
              (set_regs (fun rs => <[i := r_with_end (r_end b) a]> rs) s)) in
  hinv s' /\ tabstep s s' /\
  regs s' = del_region (S i) (<[i := r_with_end (r_end b) a]> (regs s)).
Proof.
  intros Hi Ha Hb Hm. cbn zeta. set (x := r_with_end (r_end b) a). set (s1 := set_regs _ s).
  destruct (mergeable_inv a b Hm) as (He & Eh & Ehost & _).
  destruct (hinv_backed s (S i) b Hi Hb) as (hm & Ehm & Hbk).
  assert (Ehm1 : ms_hmaps s1 !! r_hmap b = Some hm) by done.
  pose proof (hmap_unref_eq s1 _ hm Ehm1) as Eu.
  assert (E1 : regs s1 = <[i := x]> (regs s)) by done.
  assert (Er : regs (hmap_unref (r_hmap b) s1) !! S i = Some b).
  { rewrite Eu, unref_regs, E1. by rewrite list_lookup_insert_ne by lia. }
  destruct (region_delete_eff (S i) _ b Er) as (D1 & D2 & D3 & D4 & D5 & D6 & D7 & D8).
  assert (Dr : regs (region_delete (S i) (hmap_unref (r_hmap b) s1)) = del_region (S i) (<[i := x]> (regs s)))
    by (rewrite D1, Eu; by rewrite unref_regs, E1).
  assert (Hxb : <[i := x]> (regs s) !! S i = Some b) by (by rewrite list_lookup_insert_ne by lia).
  split; [|split; [|done]].
  - apply (hinv_unref s _ (r_hmap b) hm Hi Ehm).
    + rewrite Eu in *. unfold unref_result in *. 
      destruct (hm_refs hm - 1 =? 0), (negb (hm_pins hm =? 0)); by split.
    + rewrite Dr. by apply (merge_region_ok _ i a b); [apply (hi_regs s Hi)|..].
    + rewrite Dr. rewrite list.Forall_forall. intros q Hq%elem_of_del.
      assert (HF : Forall (backed (ms_hmaps s)) (<[i := x]> (regs s))).
      { apply Forall_insert; [apply (hi_back s Hi)|]. exists hm. unfold r_len in *. simpl. rewrite Eh.
        destruct (hinv_backed s i a Hi Ha) as (hm' & Ehm' & Hbk'). assert (hm' = hm) as -> by congruence.
        unfold r_len in *. split; [done|]. lia. }
      rewrite list.Forall_forall in HF. by apply HF.
    + intros k. rewrite Dr. unfold refcount, minus_one.
      rewrite (countb_del _ _ (S i) b Hxb), (countb_set _ _ i a x Ha). simpl. lia.
  - apply (tabstep_trans _ s1); [apply tabstep_set_regs|].
    apply (tabstep_trans _ (hmap_unref (r_hmap b) s1)); [by apply (tabstep_unref s1 _ hm)|apply tabstep_delete].
Qed.

(** ** [region_split_at] *)
Lemma straddle_spec rs i0 va : 
  match straddle rs i0 va with
  | Some (i, r) => exists k, i = (i0 + k)%nat /\ rs !! k = Some r /\ r_start r < va < r_end r
  | None => forall r, r ∈ rs -> va <= r_start r \/ r_end r <= va
  end.
Proof.
  revert i0. induction rs as [|q rs IH]; intros i0; simpl; [by intros r ?%elem_of_nil|].
  destruct ((va <=? r_start q) || (r_end q <=? va)) eqn:E.
  - specialize (IH (S i0)). destruct (straddle rs (S i0) va) as [[i r]|].
    + destruct IH as (k & -> & Hk & Hr). exists (S k). split; [lia|]. done.
    + intros r [->|Hr]%elem_of_cons; [lia|by apply IH].
  - exists 0%nat. split; [lia|]. split; [done|]. lia.
Qed.

Lemma split_at_ok s va : hinv s -> aligned va ->
  let s' := region_split_at va s in
  hinv s' /\ tabstep s s' /\ (forall a, look (regs s') a = look (regs s) a) /\
  (forall r, r ∈ regs s' -> va <= r_start r \/ r_end r <= va).
Proof.
  intros Hi Ha. cbn zeta. unfold region_split_at. pose proof (straddle_spec (regs s) 0 va) as Hs.
  destruct (straddle (regs s) 0 va) as [[i r]|]; [|by split; [|split; [apply tabstep_refl|]]].
  destruct Hs as (k & -> & Hk & Hr). cbn [plus].
  change (r_hmap (r_part va (r_end r) r)) with (r_hmap r).
  destruct (step_cut s k r va va Hi Hk) as (H1 & H2 & H3); try (done || lia).
  destruct (cut_region_ok (regs s) k r va va (hi_regs s Hi) Hk) as [Hok Hl]; try (done || lia).
  split; [done|]. split; [done|]. rewrite H3. split.
  - intros a. rewrite Hl. destruct (_ && _) eqn:E; [lia|done].
  - intros q Hq. destruct (decide (va <= r_start q)); [by left|]. right.
    assert (Hqo : region_ok q) by (destruct Hok as [HF _]; rewrite list.Forall_forall in HF; by apply HF).
    apply ins_region_elem in Hq as [->|Hq]; [simpl in *; lia|].
    apply list_elem_of_lookup_1 in Hq as (j & Hj). destruct (decide (k = j)) as [<-|Hne].
    + rewrite list_lookup_insert_eq in Hj by (by apply lookup_lt_Some in Hk). injection Hj as <-. simpl. lia.
    + rewrite list_lookup_insert_ne in Hj by done. destruct (decide (r_end q <= va)); [done|]. exfalso.
      apply Hne. by apply (index_unique (regs s) k j r q va (hi_regs s Hi)); [..|lia|lia].
Qed.

(** A boundary of the table stays one. *)
Lemma split_at_keeps s va b : (forall r, r ∈ regs s -> b <= r_start r \/ r_end r <= b) ->
  forall r, r ∈ regs (region_split_at va s) -> b <= r_start r \/ r_end r <= b.
Proof.
  intros Hb r. unfold region_split_at. pose proof (straddle_spec (regs s) 0 va) as Hs.
  destruct (straddle (regs s) 0 va) as [[i q]|]; [|by apply Hb].
  destruct Hs as (k & -> & Hk & Hq). pose proof (Hb q (list_elem_of_lookup_2 _ _ _ Hk)) as Hbq.
  replace (regs _) with (ins_region (r_part va (r_end q) q) (<[(0 + k)%nat := r_with_end va q]> (regs s)))
    by (unfold region_insert; by destruct (tr (r_mfdcnt _))).
  intros [->|(j & Hj)%list_elem_of_lookup_1]%ins_region_elem; [simpl; lia|].
  apply list_lookup_insert_Some in Hj as [(<- & <- & _)|[_ Hj]]; [simpl; lia|].
  by apply Hb, (list_elem_of_lookup_2 _ j).
Qed.

(** ** [region_merge_range] *)
Lemma merge_loop_ok fuel i lo hi s : hinv s ->
  let s' := merge_loop fuel i lo hi s in
  hinv s' /\ tabstep s s' /\ forall a, look (regs s') a = look (regs s) a.
Proof.
  revert i s. induction fuel as [|f IH]; intros i s Hi; cbn zeta; [by split; [|split; [apply tabstep_refl|]]|].
  cbn [merge_loop].
  destruct (regs s !! i) as [a|] eqn:Ha; [|by split; [|split; [apply tabstep_refl|]]].
  destruct (regs s !! S i) as [b|] eqn:Hb; [|by split; [|split; [apply tabstep_refl|]]].
  destruct (r_end a <? lo); [by apply IH|]. destruct (hi <? r_end a); [by split; [|split; [apply tabstep_refl|]]|].
  destruct (region_mergeable a b) eqn:Hm; cbn [negb]; [|by apply IH].
  destruct (step_merge s i a b Hi Ha Hb Hm) as (H1 & H2 & H3).
  destruct (merge_region_ok _ i a b (hi_regs s Hi) Ha Hb Hm) as [_ Hl].
  destruct (IH i _ H1) as (I1 & I2 & I3).
  split; [done|]. split; [by apply (tabstep_trans _ _ _ H2)|]. intros va. rewrite I3, H3. apply Hl.
Qed.
Lemma merge_range_ok s lo hi : hinv s ->
  let s' := region_merge_range lo hi s in
  hinv s' /\ tabstep s s' /\ forall a, look (regs s') a = look (regs s) a.
Proof. intros Hi. by apply merge_loop_ok. Qed.


(** ** [region_punch] *)
Lemma locked_sub_ok s r a b : hinv s ->
  hinv (locked_sub r a b s) /\ tabstep s (locked_sub r a b s) /\ regs (locked_sub r a b s) = regs s.
Proof.
  intros Hi. unfold locked_sub. destruct (has (r_lock r) RL_LOCKED);
    [|split; [done|]; split; [apply tabstep_refl|done]].
  split; [|split; [by split; auto|done]]. apply (hinv_same s); [by split|done].
Qed.

Section Punch.
Context (lo hi : Z) (Hlo : aligned lo) (Hhi : aligned hi) (Hlt : lo < hi).
Definition overlapping (rs : list Region) : Z := countb (overlaps lo hi) rs.
(** The table [s'] is [s]'s with the range gone. *)
Definition punched s s' : Prop := forall va,
  look (regs s') va = if (lo <=? va) && (va <? hi) then None else look (regs s) va.
Lemma punched_none s : (forall r, r ∈ regs s -> overlaps lo hi r = false) -> punched s s.
Proof.
  intros H va. destruct (_ && _) eqn:E; [|done].
  destruct (look (regs s) va) as [v|] eqn:El; [|done]. exfalso.
  apply look_some in El as (r & Hr & Hc & _). specialize (H r Hr).
  rewrite (proj2 (overlaps_iff lo hi r)) in H by lia. done.
Qed.
Lemma punched_trans s1 s2 s3 : punched s2 s3 ->
  (forall va, look (regs s2) va = look (regs s1) va \/ (lo <= va < hi /\ look (regs s2) va = None)) ->
  punched s1 s3.
Proof.
  intros H23 H12 va. rewrite H23. destruct (_ && _) eqn:E; [done|].
  destruct (H12 va) as [H|[H _]]; [done|]. lia.
Qed.

(** One turn of the loop at a region the range touches: what the table is
    after it, and that less of the range is left to cut. *)
Inductive punch_turn (i : nat) (r : Region) s : nat -> MS Os -> Prop :=
| pt_whole s' : hinv s' -> tabstep s s' -> regs s' = del_region i (regs s) ->
    lo <= r_start r -> r_end r <= hi -> punch_turn i r s i s'
| pt_head x s' : hinv s' -> tabstep s s' -> regs s' = <[i := x]> (regs s) -> x = r_part hi (r_end r) r ->
    lo <= r_start r -> hi < r_end r -> punch_turn i r s (S i) s'
| pt_tail x s' : hinv s' -> tabstep s s' -> regs s' = <[i := x]> (regs s) -> x = r_with_end lo r ->
    r_start r < lo -> r_end r <= hi -> punch_turn i r s (S i) s'
| pt_split s' : hinv s' -> tabstep s s' ->
    regs s' = ins_region (r_part hi (r_end r) r) (<[i := r_with_end lo r]> (regs s)) ->
    r_start r < lo -> hi < r_end r -> punch_turn i r s 0 s'.

Lemma turn_look i r s j s' : hinv s -> regs s !! i = Some r -> overlaps lo hi r = true ->
  punch_turn i r s j s' -> forall va, look (regs s') va = look (regs s) va \/
                                      (lo <= va < hi /\ look (regs s') va = None).
Proof.
  intros Hi Hr Ho Ht va. apply overlaps_iff in Ho. pose proof (hi_regs s Hi) as Hok.
  pose proof (hinv_region s i r Hi Hr) as Hro. pose proof (ro_range r Hro) as Hrr.
  assert (Hself : r_start r <= va < r_end r -> look (regs s) va = Some (slice va r)).
  { intros. apply look_elem; [done|by apply (list_elem_of_lookup_2 _ i)|done]. }
  destruct Ht as [s' _ _ -> H1 H2|x s' _ _ -> -> H1 H2|x s' _ _ -> -> H1 H2|s' _ _ -> H1 H2].
  - destruct (del_region_ok _ i r Hok Hr) as [_ ->]. destruct (contains va r) eqn:E; [|by left].
    apply contains_iff in E. right. split; [lia|done].
  - destruct (set_region_ok _ i r (r_part hi (r_end r) r) Hok Hr) as [_ ->];
      [apply region_ok_part; try done; try lia; by apply (ro_end r Hro)|split; simpl; lia|].
    destruct (contains va r) eqn:E; [|by left]. apply contains_iff in E.
    destruct (contains va (r_part hi (r_end r) r)) eqn:E2.
    + left. rewrite slice_part by apply (ro_off r Hro). by rewrite Hself.
    + right. apply contains_false in E2; simpl in E2. split; [lia|done].
  - destruct (set_region_ok _ i r (r_with_end lo r) Hok Hr) as [_ ->];
      [apply region_ok_with_end; try done; lia|split; simpl; lia|].
    destruct (contains va r) eqn:E; [|by left]. apply contains_iff in E.
    destruct (contains va (r_with_end lo r)) eqn:E2.
    + left. rewrite slice_with_end. by rewrite Hself.
    + right. apply contains_false in E2; simpl in E2. split; [lia|done].
  - destruct (cut_region_ok _ i r lo hi Hok Hr) as [_ ->]; try (done || lia).
    destruct (_ && _) eqn:E; [right; split; [lia|done]|by left].
Qed.

Lemma turn_count i r s j s' : hinv s -> regs s !! i = Some r -> overlaps lo hi r = true ->
  punch_turn i r s j s' ->
  overlapping (regs s') = overlapping (regs s) - 1 /\
  (length (regs s') <= S (length (regs s)))%nat /\
  (forall k q, (k < j)%nat -> regs s' !! k = Some q ->
     overlaps lo hi q = false \/ (k < i)%nat /\ regs s !! k = Some q).
Proof.
  intros Hi Hr Ho Ht. unfold overlapping. pose proof (ro_range r (hinv_region s i r Hi Hr)) as Hrr.
  pose proof (lookup_lt_Some _ _ _ Hr) as Hlt'.
  assert (Hx : forall x, <[i := x]> (regs s) !! i = Some x) by (intros; by apply list_lookup_insert_eq).
  assert (Hno : forall x, r_end x <= lo \/ hi <= r_start x -> overlaps lo hi x = false).
  { intros x Hx'. unfold overlaps. apply negb_false_iff, orb_true_iff. lia. }
  destruct Ht as [s' _ _ -> H1 H2|x s' _ _ -> -> H1 H2|x s' _ _ -> -> H1 H2|s' _ _ -> H1 H2].
  - rewrite (countb_del _ _ i r Hr), Ho. split; [lia|]. unfold del_region. split.
    + rewrite length_app, length_take, length_drop. lia.
    + intros k q Hk Hq. right. split; [done|]. rewrite lookup_app_l in Hq by (rewrite length_take; lia).
      by rewrite lookup_take_lt in Hq by done.
  - rewrite (countb_set _ _ i r _ Hr), Ho, Hno by (simpl; lia). split; [lia|]. rewrite length_insert. split; [lia|].
    intros k q Hk Hq. destruct (decide (i = k)) as [<-|Hne].
    + left. rewrite Hx in Hq. injection Hq as <-. apply Hno. simpl. lia.
    + right. rewrite list_lookup_insert_ne in Hq by done. split; [lia|done].
  - rewrite (countb_set _ _ i r _ Hr), Ho, Hno by (simpl; lia). split; [lia|]. rewrite length_insert. split; [lia|].
    intros k q Hk Hq. destruct (decide (i = k)) as [<-|Hne].
    + left. rewrite Hx in Hq. injection Hq as <-. apply Hno. simpl. lia.
    + right. rewrite list_lookup_insert_ne in Hq by done. split; [lia|done].
  - rewrite countb_ins, (countb_set _ _ i r _ Hr), Ho, !Hno by (simpl; lia). split; [lia|]. split; [|lia].
    assert (Hlen : forall x l, length (ins_region x l) = S (length l)).
    { intros x l. induction l as [|q l IH]; simpl; [done|]. destruct (_ <? _); simpl; lia. }
    rewrite Hlen, length_insert. lia.
Qed.

(** The turn the loop makes, and where it goes on. *)
Lemma punch_turn_of f i r s : hinv s -> regs s !! i = Some r -> overlaps lo hi r = true ->
  exists j s', punch_turn i r s j s' /\ punch_loop (S f) i lo hi s = punch_loop f j lo hi s'.
Proof.
  intros Hi Hr Ho. pose proof (hinv_region s i r Hi Hr) as Hro. pose proof (ro_range r Hro) as Hrr.
  cbn [punch_loop]. rewrite Hr. pose proof Ho as Ho'. unfold overlaps in Ho'. apply negb_true_iff in Ho'.
  rewrite Ho'. apply overlaps_iff in Ho.
  set (cl := if r_start r <? lo then lo else r_start r).
  set (ch := if hi <? r_end r then hi else r_end r).
  destruct (locked_sub_ok s r cl ch Hi) as (Hi1 & Ht1 & Er1). set (s1 := locked_sub r cl ch s) in *.
  assert (Hr1 : regs s1 !! i = Some r) by (by rewrite Er1).
  assert (Hbk : backed (ms_hmaps s1) r) by (by apply (hinv_backed s1 i)).
  unfold cl, ch. destruct (Z.ltb_spec (r_start r) lo) as [Hl|Hl], (Z.ltb_spec hi (r_end r)) as [Hh|Hh].
  - rewrite (proj2 (Z.eqb_neq lo (r_start r))), (proj2 (Z.eqb_neq hi (r_end r))) by lia. cbn [andb].
    destruct (step_cut s1 i r lo hi Hi1 Hr1) as (A1 & A2 & A3); try (done || lia).
    exists 0%nat. eexists. split; [|reflexivity].
    apply pt_split; [done|by apply (tabstep_trans _ s1)|by rewrite <- Er1|done|done].
  - rewrite (proj2 (Z.eqb_neq lo (r_start r))), Z.eqb_refl by lia. cbn [andb].
    destruct (step_trim s1 i r (r_with_end lo r) Hi1 Hr1) as (A1 & A2 & A3);
      [apply region_ok_with_end; try done; lia|split; simpl; lia|done|apply backed_with_end; [done|lia]|].
    exists (S i). eexists. split; [|reflexivity].
    eapply pt_tail; [done|by apply (tabstep_trans _ s1)|by rewrite <- Er1|done|done|done].
  - rewrite (proj2 (Z.eqb_neq hi (r_end r))), Z.eqb_refl by lia. cbn [andb].
    destruct (step_trim s1 i r (r_part hi (r_end r) r) Hi1 Hr1) as (A1 & A2 & A3);
      [apply region_ok_part; try done; try lia; by apply (ro_end r Hro)|split; simpl; lia|done
      |apply backed_part; try done; lia|].
    exists (S i). eexists. split; [|reflexivity].
    eapply pt_head; [done|by apply (tabstep_trans _ s1)|by rewrite <- Er1|done|done|done].
  - rewrite !Z.eqb_refl. cbn [andb]. destruct (step_delete s1 i r Hi1 Hr1) as (A1 & A2 & A3).
    exists i. eexists. split; [|reflexivity].
    apply pt_whole; [done|by apply (tabstep_trans _ s1)|by rewrite <- Er1|done|done].
Qed.
Lemma turn_inv i r s j s' : punch_turn i r s j s' -> hinv s' /\ tabstep s s'.
Proof. by intros []. Qed.

(** With [N] above the number of regions and of those left to cut together,
    this much fuel is enough. *)
Lemma punch_loop_ok N fuel i s : hinv s ->
  (forall k q, (k < i)%nat -> regs s !! k = Some q -> overlaps lo hi q = false) ->
  Z.of_nat (length (regs s)) + overlapping (regs s) <= N -> Z.of_nat i <= N ->
  overlapping (regs s) * (N + 2) + (N - Z.of_nat i) < Z.of_nat fuel ->
  let s' := punch_loop fuel i lo hi s in hinv s' /\ tabstep s s' /\ punched s s'.
Proof.
  revert i s. induction fuel as [|f IH]; intros i s Hi Hpre HN HiN Hf; cbn zeta.
  { pose proof (countb_nonneg (overlaps lo hi) (regs s)). unfold overlapping in *. nia. }
  destruct (regs s !! i) as [r|] eqn:Hr.
  2: { cbn [punch_loop]. rewrite Hr. split; [done|]. split; [apply tabstep_refl|]. apply punched_none.
       intros r (k & Hk)%list_elem_of_lookup_1. apply (Hpre k r); [|done].
       apply lookup_lt_Some in Hk. apply lookup_ge_None in Hr. lia. }
  pose proof (lookup_lt_Some _ _ _ Hr) as Hil.
  destruct (overlaps lo hi r) eqn:Ho.
  - destruct (punch_turn_of f i r s Hi Hr Ho) as (j & s1 & Ht & ->).
    destruct (turn_inv i r s j s1 Ht) as [Hi1 Ht1].
    destruct (turn_count i r s j s1 Hi Hr Ho Ht) as (Hc & Hlen & Hpre1).
    pose proof (countb_nonneg (overlaps lo hi) (regs s1)) as Hnn. unfold overlapping in *.
    assert (Hj : Z.of_nat j <= N) by (destruct Ht; lia).
    destruct (IH j s1 Hi1) as (R1 & R2 & R3).
    + intros k q Hk Hq. destruct (Hpre1 k q Hk Hq) as [|[Hki Hq']]; [done|]. by apply (Hpre k q).
    + lia.
    + done.
    + nia.
    + split; [done|]. split; [by apply (tabstep_trans _ s1)|].
      apply (punched_trans s s1); [done|]. by apply (turn_look i r s j s1).
  - cbn [punch_loop]. rewrite Hr. unfold overlaps in Ho. apply negb_false_iff in Ho. rewrite Ho.
    pose proof (countb_nonneg (overlaps lo hi) (regs s)). unfold overlapping in *.
    apply IH; [done| |done|lia|lia].
    intros k q Hk Hq. destruct (decide (k = i)) as [->|Hne]; [|apply (Hpre k q); [lia|done]].
    assert (q = r) as -> by congruence. unfold overlaps. by rewrite Ho.
Qed.
Lemma punch_ok s : hinv s ->
  let s' := region_punch lo hi s in hinv s' /\ tabstep s s' /\ punched s s'.
Proof.
  intros Hi. unfold region_punch. set (n := length (regs s)).
  pose proof (countb_le (overlaps lo hi) (regs s)) as Hle. pose proof (countb_nonneg (overlaps lo hi) (regs s)).
  apply (punch_loop_ok (2 * Z.of_nat n)); [done|lia|..]; unfold overlapping, punch_fuel; fold n in Hle |- *; nia.
Qed.
End Punch.


(** ** New allocations *)

(** [p, p + n) is host memory the emulator has mapped and the address space
    does not hold yet. *)
Record reserved s (p n : Z) : Prop := {
  rv_range : 0 < p /\ 0 < n /\ p + n <= 2 ^ 64;
  rv_live : all_live (ms_maps s) p n;
  rv_disj q m : owned s q m -> disj q m p n
}.
Lemma reserved_tabstep s s' p n : tabstep s s' -> reserved s p n -> reserved s' p n.
Proof.
  intros Ht [H1 H2 H3]. split; [done|by rewrite (ts_maps _ _ Ht)|].
  intros q m Ho. by apply H3, (ts_owned _ _ Ht).
Qed.
(** More host mappings do no harm. *)
Lemma hinv_more_maps s s' maps : hinv s -> same_store (upd_ms_maps (fun m => maps ++ m) s) s' ->
  regs s' = regs s -> hinv s'.
Proof.
  intros [H1 H2 H3 H4 H5 H6 H7] [E2 E3 E4 E5 E6 E7] E1. simpl in *.
  assert (Hl : forall p n, all_live (ms_maps s) p n -> all_live (ms_maps s') p n).
  { intros p n H a Ha. rewrite E5, live_app, (H a Ha). apply orb_true_r. }
  split; rewrite ?E1, ?E2, ?E3, ?E4; try done.
  - intros h hm Hh. destruct (H3 h hm Hh). split; rewrite ?E1, ?E3, ?E6; auto.
  - apply (list.Forall_impl _ _ _ H6). intros q [Q1 Q2 Q3 Q4]. split; rewrite ?E2; auto. lia.
Qed.
Lemma owned_live s p n : hinv s -> owned s p n -> all_live (ms_maps s) p n /\ 0 < n.
Proof.
  intros Hi [(h & hm & E & <- & <-)|(q & Hq & <- & <-)].
  - destruct (hi_hm s Hi h hm E) as [_ _ _ _ [_ [Hl _]] Hlv]. done.
  - pose proof (hi_ret s Hi) as HF. rewrite list.Forall_forall in HF. by destruct (HF q Hq).
Qed.
(** What mmap(2) hands out is reserved. *)
Lemma reserved_fresh s s' p n : hinv s -> 0 < n -> fresh_rng (ms_maps s) p n ->
  ms_maps s' = (p, n) :: ms_maps s -> ms_hmaps s' = ms_hmaps s ->
  as_retired (ms_as s') = as_retired (ms_as s) -> reserved s' p n.
Proof.
  intros Hi Hn (F1 & F2 & _ & F4) E5 E2 E4. split; [lia|rewrite E5; apply all_live_new|].
  intros q m Ho. assert (Ho' : owned s q m) by (unfold owned in *; by rewrite E2, E4 in Ho).
  destruct (owned_live s q m Hi Ho') as [Hl Hm]. apply disj_sym. by apply (free_disj (ms_maps s)).
Qed.

(** A region over a new allocation. *)
Lemma hinv_new s s' x r : hinv s -> reserved s (hm_base x) (hm_len x) ->
  ms_hmaps s' = <[ms_next s := x]> (ms_hmaps s) -> regs s' = ins_region r (regs s) ->
  as_orphans (ms_as s') = as_orphans (ms_as s) -> as_retired (ms_as s') = as_retired (ms_as s) ->
  ms_maps s' = ms_maps s -> ms_next s' = ms_next s + 1 -> ms_gen s' = ms_gen s ->
  hm_refs x = 1 -> hm_pins x = 0 -> region_ok r -> r_hmap r = ms_next s ->
  hm_base x <= r_host r -> r_host r + r_len r <= hm_base x + hm_len x ->
  free_of (regs s) (r_start r) (r_end r) -> hinv s'.
Proof.
  intros Hi [R1 R2 R3] E2 E1 E3 E4 E5 E6 E7 Hrf Hpn Hr Eh Hb1 Hb2 Hfree.
  assert (Hnew : forall h hm, ms_hmaps s !! h = Some hm -> h <> ms_next s).
  { intros h hm Hh ->. pose proof (ho_id _ _ _ (hi_hm s Hi _ _ Hh)). lia. }
  assert (Hc : forall h, refcount h (regs s') = refcount h (regs s) + minus_one (ms_next s) h).
  { intros h. rewrite E1. unfold refcount. rewrite countb_ins, Eh. unfold minus_one. lia. }
  assert (H0 : refcount (ms_next s) (regs s) = 0).
  { apply refcount_none. intros q Hq. pose proof (hi_back s Hi) as HB. rewrite list.Forall_forall in HB.
    destruct (HB q Hq) as (hm & Hh & _). by apply (Hnew _ hm). }
  assert (Hoth : forall h hm, ms_hmaps s !! h = Some hm -> disj (hm_base hm) (hm_len hm) (hm_base x) (hm_len x)).
  { intros h hm Hh. apply R3. left. eauto. }
  split.
  - rewrite E1. apply ins_region_ok; [apply (hi_regs s Hi)|done|done].
  - rewrite E1, list.Forall_forall. intros q [->|Hq]%ins_region_elem.
    + exists x. rewrite E2, Eh, lookup_insert_eq. done.
    + pose proof (hi_back s Hi) as HB. rewrite list.Forall_forall in HB.
      apply (backed_mono (ms_hmaps s)); [by apply HB|]. intros hm Hh. exists hm.
      rewrite E2, lookup_insert_ne; [done|]. intros E. by apply (Hnew _ hm Hh).
  - intros h hm. rewrite E2. intros [[<- <-]|[Hne Hh]]%lookup_insert_Some.
    + split; rewrite ?Hc, ?E5, ?E6; try lia; try done. rewrite H0, Hrf. unfold minus_one.
      by rewrite Z.eqb_refl.
    + destruct (hi_hm s Hi h hm Hh) as [F1 F2 F3 F4 F5 F6]. split; rewrite ?Hc, ?E3, ?E5, ?E6; try done; [|lia].
      unfold minus_one. rewrite (proj2 (Z.eqb_neq _ _) Hne). lia.
  - intros h h' hm hm' Hne. rewrite E2.
    intros [[<- <-]|[Hn Hh]]%lookup_insert_Some [[<- <-]|[Hn' Hh']]%lookup_insert_Some; try done.
    + apply disj_sym. by apply (Hoth h').
    + by apply (Hoth h).
    + by apply (hi_disj s Hi h h').
  - intros h. rewrite E3. intros (hm & Hh & Hz)%(hi_orph s Hi). exists hm. split; [|done].
    rewrite E2, lookup_insert_ne; [done|]. intros <-. by apply (Hnew _ hm Hh).
  - rewrite E4. rewrite list.Forall_forall. intros q Hq. pose proof (hi_ret s Hi) as HF.
    rewrite list.Forall_forall in HF. destruct (HF q Hq) as [Q1 Q2 Q3 Q4].
    split; rewrite ?E5; try done; [lia|]. intros h hm. rewrite E2.
    intros [[<- <-]|[_ Hh]]%lookup_insert_Some; [|by apply (Q4 h)].
    apply disj_sym. apply R3. right. eauto.
  - rewrite E4. apply (hi_retd s Hi).
Qed.


(** ** The drain *)
Lemma drain_loop_eff safe l s keep s' : drain_loop safe l s = (keep, s') ->
  keep = filter (fun q => ~ rt_gen q < safe) l /\
  s' = upd_ms_maps (fun m => fold_left (fun m q => if rt_gen q <? safe then os_munmap (rt_addr q) (rt_len q) m
                                                   else m) l m) s.
Proof.
  revert s keep s'. induction l as [|q l IH]; intros s keep s'; cbn [drain_loop].
  - intros [= <- <-]. by destruct s.
  - rewrite filter_cons. cbn [fold_left]. destruct (Z.ltb_spec (rt_gen q) safe) as [H|H].
    + intros E. apply IH in E as [-> ->]. case_decide; [lia|]. split; [done|]. by destruct s.
    + destruct (drain_loop safe l s) as [k s1] eqn:E. apply IH in E as [-> ->]. intros [= <- <-].
      case_decide; [done|]. lia.
Qed.
(** The mappings a drain leaves. *)
Definition drained (safe : Z) (l : list RetiredMap) (maps : list (Z * Z)) : list (Z * Z) :=
  fold_left (fun m q => if rt_gen q <? safe then os_munmap (rt_addr q) (rt_len q) m else m) l maps.
Definition kept (safe : Z) (l : list RetiredMap) : list RetiredMap := filter (fun q => ~ rt_gen q < safe) l.
Lemma drain_eff s : as_drain_retired s =
  upd_ms_as (upd_as_retired (fun _ => kept (drain_safe s) (as_retired (ms_as s))))
    (upd_ms_maps (drained (drain_safe s) (as_retired (ms_as s))) s).
Proof.
  unfold as_drain_retired. destruct (as_retired (ms_as s)) as [|q l] eqn:E.
  - destruct s as [[] ]; simpl in *. by subst.
  - destruct (drain_loop (drain_safe s) (q :: l) s) as [keep s'] eqn:Ed.
    by apply drain_loop_eff in Ed as [-> ->].
Qed.
(** A byte survives the drain unless a released range holds it. *)
Lemma drained_live safe l maps a : live (drained safe l maps) a = true <->
  live maps a = true /\ forall q, q ∈ l -> rt_gen q < safe -> ~ rt_addr q <= a < rt_addr q + rt_len q.
Proof.
  unfold drained. revert maps. induction l as [|q l IH]; intros maps; cbn [fold_left].
  - split; [|tauto]. intros H. split; [done|]. by intros q ?%elem_of_nil.
  - rewrite IH. destruct (Z.ltb_spec (rt_gen q) safe) as [H|H].
    + rewrite live_munmap, andb_true_iff, negb_true_iff. split.
      * intros [[Hl Hn] Hr]. split; [done|]. intros q' [->|Hq']%elem_of_cons Hg; [lia|by apply Hr].
      * intros [Hl Hr]. split; [split; [done|]|]; [|intros q' Hq'; apply Hr; by right].
        specialize (Hr q ltac:(by left) H). lia.
    + split; intros [Hl Hr]; (split; [done|]).
      * intros q' [->|Hq']%elem_of_cons Hg; [lia|by apply Hr].
      * intros q' Hq'. apply Hr. by right.
Qed.
Lemma drained_all_live safe l maps p n : all_live maps p n ->
  (forall q, q ∈ l -> rt_gen q < safe -> disj (rt_addr q) (rt_len q) p n) -> all_live (drained safe l maps) p n.
Proof.
  intros Hl Hd a Ha. apply drained_live. split; [by apply Hl|]. intros q Hq Hg.
  specialize (Hd q Hq Hg). unfold disj in Hd. lia.
Qed.
Lemma ordpairs_filter {A} (R : A -> A -> Prop) (P : A -> Prop) `{!forall x, Decision (P x)} l :
  ForallOrdPairs R l -> ForallOrdPairs R (filter P l).
Proof.
  induction 1 as [|a l Ha HO IH]; [constructor|]. rewrite filter_cons. case_decide; [|done].
  constructor; [|done]. rewrite list.Forall_forall in *. intros x [_ Hx]%list_elem_of_filter. by apply Ha.
Qed.
Lemma ordpairs_in {A} (R : A -> A -> Prop) l a b : ForallOrdPairs R l -> a ∈ l -> b ∈ l ->
  a = b \/ R a b \/ R b a.
Proof.
  induction 1 as [|x l Hx HO IH]; [by intros ?%elem_of_nil|]. rewrite list.Forall_forall in Hx.
  rewrite !elem_of_cons. intros [->|Ha] [->|Hb]; auto.
Qed.
Lemma hinv_drain s : hinv s -> hinv (as_drain_retired s).
Proof.
  intros Hi. rewrite drain_eff. set (safe := drain_safe s). set (l := as_retired (ms_as s)).
  destruct Hi as [H1 H2 H3 H4 H5 H6 H7]. fold l in H6, H7. pose proof H6 as H6'. rewrite list.Forall_forall in H6'.
  split; try done; simpl.
  - intros h hm Hh. destruct (H3 h hm Hh) as [F1 F2 F3 F4 F5 F6]. split; try done. simpl.
    apply drained_all_live; [done|]. intros q Hq _. apply disj_sym. by apply (rk_hm _ _ (H6' q Hq) h).
  - rewrite list.Forall_forall. intros q [Hg Hq]%list_elem_of_filter. destruct (H6' q Hq) as [Q1 Q2 Q3 Q4].
    split; try done; simpl. apply drained_all_live; [done|]. intros q' Hq' Hg'.
    destruct (ordpairs_in _ _ q' q H7 Hq' Hq) as [->|[H|H]]; [done|done|by apply disj_sym].
  - by apply ordpairs_filter.
Qed.

End Steps.
