(* ===== verification/AsThms.v ===== *)
(** * AsThms: the mapping operations are right

    [as_inv] joins the table's invariant with the page table's: every page
    table entry names the backing of the region its page belongs to, with the
    region's permission (or less, while a vfork child's writes are tracked);
    every page of anonymous memory has an entry; and no two guest addresses
    share a byte of host memory. The operations of mem.c are described by
    what they do to the two maps [look] and [pte_get], and each keeps
    [as_inv]. *)

From stdpp Require Import gmap.
From S2P Require Import Prelude Types Cpu MemSeam PageTable Regions Epoch AsState AddrSpace AsInv AsSteps.

(** The first address of [va]'s page. *)
Definition pg (va : Z) : Z := 4096 * page va.
Lemma pg_range va : pg va <= va < pg va + 4096.
Proof. unfold pg. rewrite page_div. pose proof (Z.div_mod va 4096). pose proof (Z.mod_pos_bound va 4096). lia. Qed.
Lemma pg_aligned va : aligned (pg va).
Proof. unfold aligned, pg. rewrite Z.mul_comm. by apply Z.mod_mul. Qed.
Lemma pg_same va : aligned va -> pg va = va.
Proof. unfold aligned, pg. rewrite page_div. intros H. pose proof (Z.div_mod va 4096). lia. Qed.
Lemma page_pg va : page (pg va) = page va.
Proof. unfold pg. rewrite (page_div (4096 * page va)), Z.mul_comm. by apply Z.div_mul. Qed.
Lemma pte_get_pg t va : pte_get t (pg va) = pte_get t va.
Proof. apply pte_get_page, page_pg. Qed.
(** An aligned bound does not cut a page. *)
Lemma pg_below va b : aligned b -> (va < b <-> pg va < b).
Proof.
  unfold aligned. intros Hb. pose proof (pg_range va). split; [lia|]. intros Hp. unfold pg in *.
  pose proof (Z.div_mod b 4096). lia.
Qed.
Lemma pg_above va b : aligned b -> (b <= va <-> b <= pg va).
Proof. intros Hb. pose proof (pg_below va b Hb). lia. Qed.
Lemma aligned_add a b : aligned a -> aligned b -> aligned (a + b).
Proof. unfold aligned. intros Ha Hb. by rewrite Z.add_mod, Ha, Hb. Qed.
Lemma aligned_sub a b : aligned a -> aligned b -> aligned (a - b).
Proof. unfold aligned. intros Ha Hb. by rewrite Zminus_mod, Ha, Hb. Qed.
Lemma misaligned_false z : misaligned z = false <-> aligned z.
Proof.
  unfold misaligned, tr, aligned. rewrite negb_false_iff, Z.eqb_eq.
  change GUEST_PAGE_MASK with (Z.ones 12). by rewrite Z.land_ones by lia.
Qed.
Lemma aligned_lor a b : aligned (Z.lor a b) <-> aligned a /\ aligned b.
Proof.
  unfold aligned. change 4096 with (2 ^ 12). rewrite <- !Z.land_ones by lia.
  rewrite Z.land_lor_distr_l. apply Z.lor_eq_0_iff.
Qed.
Lemma aligned_flags0 h : aligned h -> Z.land h PTE_FLAGS = 0.
Proof.
  unfold aligned. intros H. apply aligned_flags. change GUEST_PAGE_MASK with (Z.ones 12).
  by rewrite Z.land_ones by lia.
Qed.
Lemma range_ok_iff a n : range_ok a n = true <-> a <= GUEST_TASK_SIZE /\ a + n <= GUEST_TASK_SIZE.
Proof. unfold range_ok. rewrite andb_true_iff. lia. Qed.

(** Page loops over an aligned range, by address. *)
Lemma npages_len len : aligned len -> 0 <= len -> GUEST_PAGE_SIZE * Z.of_nat (npages len) = len.
Proof.
  unfold aligned, npages. change GUEST_PAGE_SIZE with 4096. change GUEST_PAGE_MASK with 4095.
  intros Ha H0. rewrite Z2Nat.id by wsolve. pose proof (Z.div_mod len 4096). wsolve.
Qed.
Lemma set_pages_in f addr len F va : aligned addr -> aligned len -> 0 <= len ->
  set_pages f addr (Z.of_nat (npages len)) F va =
  if (addr <=? va) && (va <? addr + len) then F ((pg va - addr) / 4096) (f va) else f va.
Proof.
  intros Ha Hl H0. unfold set_pages. pose proof (npages_len len Hl H0) as En.
  change GUEST_PAGE_SIZE with 4096 in En.
  pose proof (pg_same addr Ha) as Epa. unfold pg in *.
  assert (Ek : (4096 * page va - addr) / 4096 = page va - page addr).
  { rewrite <- Epa at 1. rewrite <- Z.mul_sub_distr_l, Z.mul_comm. by apply Z.div_mul. }
  rewrite Ek. pose proof (pg_above va addr Ha). pose proof (pg_below va (addr + len) (aligned_add _ _ Ha Hl)).
  unfold pg in *. replace ((0 <=? page va - page addr) && (page va - page addr <? Z.of_nat (npages len)))
    with ((addr <=? va) && (va <? addr + len)); [done|]. zbool; lia.
Qed.
Lemma in_task_range addr len : aligned len -> 0 <= len -> 0 <= addr -> addr + len <= GUEST_TASK_SIZE ->
  in_task addr (Z.of_nat (npages len)).
Proof. intros. split; [done|]. by rewrite npages_len. Qed.

(** ** Looking up a page *)
Lemma find_page rs va : Forall region_ok rs -> as_find_region rs va = as_find_region rs (pg va).
Proof.
  induction rs as [|r rs IH]; intros HF; [done|]. apply Forall_cons_iff in HF as [Hr HF]. simpl.
  replace (contains (pg va) r) with (contains va r); [by rewrite IH|].
  pose proof (pg_above va _ (ro_start r Hr)). pose proof (pg_below va _ (ro_end r Hr)).
  unfold contains. zbool; lia.
Qed.
Lemma look_pg rs va : Forall region_ok rs ->
  look rs va = (fun v => slice va v) <$> look rs (pg va).
Proof.
  intros HF. unfold look. rewrite (find_page rs va HF).
  destruct (as_find_region rs (pg va)) as [r|] eqn:E; [|done]. simpl. f_equal.
  unfold slice; simpl. f_equal; [lia|..]; destruct (tr (r_file r)); try done.
  unfold u64. rewrite Zplus_mod_idemp_l. f_equal. lia.
Qed.
Lemma look_ok rs va v : regions_ok rs -> look rs va = Some v ->
  0 <= va < GUEST_TASK_SIZE /\ 0 < r_host v /\ fits 3 (r_prot v) /\ (aligned va -> aligned (r_host v)).
Proof.
  intros [HF _] (r & Hr & Hc & ->)%look_some. rewrite list.Forall_forall in HF.
  destruct (HF r Hr) as [H1 H2 H3 H4 H5 H6 H7]. simpl. split; [lia|]. split; [lia|]. split; [done|].
  intros Ha. apply aligned_add; [done|]. by apply aligned_sub.
Qed.

Section Thms.
Context {Os : Type} `{!HostOs Os} `{!HostOsOk Os}.
Implicit Types s : MS Os.

(** ** The invariant of an address space *)

(** [x] is an entry for the page mapped as [v]. *)
Definition pte_of (v : Region) (x : Z) : Prop := exists p, x = Z.lor (r_host v) p /\
  (p = r_prot v \/ (r_shared v = 0 /\ p = Z.land (r_prot v) (not32 PTE_W))).

Record as_inv s : Prop := {
  ai_heap : hinv s;
  ai_pt : pt_wf (pt s);
  ai_pte va : pte_get (pt s) va <> 0 ->
    exists v, look (regs s) (pg va) = Some v /\ pte_of v (pte_get (pt s) va);
  ai_full va v : look (regs s) va = Some v -> r_hostmap v = 0 -> pte_get (pt s) va <> 0;
  ai_inj va va' v v' : look (regs s) va = Some v -> look (regs s) va' = Some v' ->
    r_host v = r_host v' -> va = va'
}.

Lemma fits3_noW p : fits 3 p -> fits 3 (Z.land p (not32 PTE_W)).
Proof. intros H. apply fits_land_l; [lia|done|]. by vm_compute. Qed.
Lemma pte_of_ok rs va v x : regions_ok rs -> Forall (fun r => r_host r + r_len r <= 2 ^ 64) rs ->
  look rs (pg va) = Some v -> pte_of v x ->
  fits 64 x /\ pte_host x = r_host v /\ 0 < r_host v /\
  (pte_prot x = r_prot v \/ (r_shared v = 0 /\ pte_prot x = Z.land (r_prot v) (not32 PTE_W))).
Proof.
  intros Hok Hb El (p & -> & Hp). pose proof (look_ok rs _ v Hok El) as (_ & Hh & Hf & Ha).
  specialize (Ha (pg_aligned va)). apply aligned_flags0 in Ha.
  assert (H64 : fits 64 (r_host v)).
  { apply look_some in El as (r & Hr & Hc & ->). rewrite list.Forall_forall in Hb. specialize (Hb r Hr).
    unfold r_len in Hb. unfold fits; simpl in *. lia. }
  assert (Hp3 : fits 3 p) by (destruct Hp as [->|[_ ->]]; [done|by apply fits3_noW]).
  split; [apply fits_lor; [lia|done|by apply (fits_weaken 3)]|].
  rewrite host_join, prot_join by done. done.
Qed.
Lemma hinv_host_bound s : hinv s -> Forall (fun r => r_host r + r_len r <= 2 ^ 64) (regs s).
Proof.
  intros Hi. pose proof (hi_back s Hi) as HB. apply (list.Forall_impl _ _ _ HB).
  intros r (hm & E & H1 & H2). pose proof (ho_base _ _ _ (hi_hm s Hi _ _ E)). lia.
Qed.
Lemma as_inv_pte_ok s : as_inv s -> pte_ok (pt s).
Proof.
  intros Hi va. destruct (decide (pte_get (pt s) va = 0)) as [->|Hn]; [done|].
  destruct (ai_pte s Hi va Hn) as (v & El & Hv).
  destruct (pte_of_ok _ va v _ (hi_regs _ (ai_heap s Hi)) (hinv_host_bound s (ai_heap s Hi)) El Hv)
    as (H1 & H2 & H3 & _). split; [done|]. intros _. lia.
Qed.

(** The two maps change inside [lo, hi) only. *)
Lemma as_inv_range s s' lo hi : as_inv s -> hinv s' -> pt_wf (pt s') -> aligned lo -> aligned hi ->
  (forall va, ~ lo <= va < hi -> look (regs s') va = look (regs s) va /\ pte_get (pt s') va = pte_get (pt s) va) ->
  (forall va, lo <= va < hi -> pte_get (pt s') va <> 0 ->
     exists v, look (regs s') (pg va) = Some v /\ pte_of v (pte_get (pt s') va)) ->
  (forall va v, lo <= va < hi -> look (regs s') va = Some v -> r_hostmap v = 0 -> pte_get (pt s') va <> 0) ->
  (forall va va' v v', lo <= va < hi -> look (regs s') va = Some v -> look (regs s') va' = Some v' ->
     r_host v = r_host v' -> va = va') -> as_inv s'.
Proof.
  intros Hi Hh Hp Hlo Hhi Hout Hin Hfull Hinj. split; [done|done|..].
  - intros va Hn. destruct (decide (lo <= va < hi)) as [H|H]; [by apply Hin|].
    destruct (Hout va H) as [_ E]. rewrite E in Hn |- *. destruct (ai_pte s Hi va Hn) as (v & El & Hv).
    exists v. split; [|done]. rewrite <- El. apply Hout.
    pose proof (pg_above va lo Hlo). pose proof (pg_below va hi Hhi). lia.
  - intros va v El H0. destruct (decide (lo <= va < hi)) as [H|H]; [by apply (Hfull va v)|].
    destruct (Hout va H) as [E1 E2]. rewrite E2. apply (ai_full s Hi va v); [congruence|done].
  - intros va va' v v' El El' E. destruct (decide (lo <= va < hi)) as [H|H]; [by apply (Hinj va va' v v')|].
    destruct (decide (lo <= va' < hi)) as [H'|H'].
    + symmetry. by apply (Hinj va' va v' v).
    + rewrite (proj1 (Hout va H)) in El. rewrite (proj1 (Hout va' H')) in El'.
      by apply (ai_inj s Hi va va' v v').
Qed.

(** ** Publishing *)
Lemma sync_heap addr len s : same_heap s (pte_sync_range addr len s).
Proof. split; try done. simpl. lia. Qed.
Lemma set_range_heap addr len host prot s : same_heap s (pte_set_range addr len host prot s).
Proof. split; try done. simpl. lia. Qed.
Lemma set_range_spec s addr len host prot : pt_wf (pt s) -> aligned addr -> aligned len ->
  0 <= addr -> 0 <= len -> addr + len <= GUEST_TASK_SIZE -> 0 <= host ->
  pt_wf (pt (pte_set_range addr len host prot s)) /\
  forall va, pte_get (pt (pte_set_range addr len host prot s)) va =
    if (addr <=? va) && (va <? addr + len)
    then (if host =? 0 then 0 else Z.lor (host + (pg va - addr)) prot) else pte_get (pt s) va.
Proof.
  intros Hw Ha Hl H0 Hl0 Hr Hh. pose proof (in_task_range addr len Hl Hl0 H0 Hr) as Hin.
  destruct (pte_set_loop_spec (npages len) (pt s) addr host prot Hw Hin Hh) as [Hw' Hg].
  split; [exact Hw'|]. intros va. 
  change (pt (pte_set_range addr len host prot s)) with (pte_set_loop (npages len) (pt s) addr host prot).
  rewrite Hg, set_pages_in by done. destruct (_ && _); [|done]. unfold set_val.
  destruct (host =? 0); [done|]. change GUEST_PAGE_SIZE with 4096. do 2 f_equal.
  pose proof (aligned_sub _ _ (pg_aligned va) Ha) as Hd. unfold aligned in Hd.
  pose proof (Z.div_mod (pg va - addr) 4096). lia.
Qed.

(** ** Unmapping *)
Lemma unmap_ok s addr len : as_inv s -> aligned addr -> aligned len -> 0 < len -> 0 <= addr ->
  addr + len <= GUEST_TASK_SIZE ->
  let s' := pte_set_range addr len 0 0 (region_punch addr (addr + len) s) in
  as_inv s' /\
  (forall va, look (regs s') va = if (addr <=? va) && (va <? addr + len) then None else look (regs s) va) /\
  (forall va, pte_get (pt s') va = if (addr <=? va) && (va <? addr + len) then 0 else pte_get (pt s) va).
Proof.
  intros Hi Ha Hl Hl0 H0 Hr. cbn zeta.
  destruct (punch_ok addr (addr + len) Ha (aligned_add _ _ Ha Hl) ltac:(lia) s (ai_heap s Hi)) as (P1 & P2 & P3).
  set (s1 := region_punch addr (addr + len) s) in *.
  assert (Hw1 : pt_wf (pt s1)) by (rewrite (ts_pt _ _ P2); apply (ai_pt s Hi)).
  destruct (set_range_spec s1 addr len 0 0 Hw1 Ha Hl H0 ltac:(lia) Hr ltac:(lia)) as [Hw2 Hg].
  pose proof (set_range_heap addr len 0 0 s1) as Hsh.
  assert (Hlook : forall va, look (regs (pte_set_range addr len 0 0 s1)) va =
            if (addr <=? va) && (va <? addr + len) then None else look (regs s) va).
  { intros va. rewrite (sh_regs _ _ Hsh). apply P3. }
  assert (Hpte : forall va, pte_get (pt (pte_set_range addr len 0 0 s1)) va =
            if (addr <=? va) && (va <? addr + len) then 0 else pte_get (pt s) va).
  { intros va. rewrite Hg, (ts_pt _ _ P2). done. }
  split; [|done].
  assert (Hb : forall va, addr <= va < addr + len -> (addr <=? va) && (va <? addr + len) = true)
    by (intros; lia).
  apply (as_inv_range s _ addr (addr + len)); try done.
  - by apply (hinv_same s1).
  - by apply aligned_add.
  - intros va Hva. rewrite Hlook, Hpte. by replace ((addr <=? va) && (va <? addr + len)) with false by lia.
  - intros va Hva. rewrite Hpte, Hb by done. done.
  - intros va v Hva. rewrite Hlook, Hb by done. done.
  - intros va va' v v' Hva. rewrite Hlook, Hb by done. done.
Qed.

(** ** What the guest sees *)

(** The byte of guest memory at [va], if [va] is mapped. *)
Definition guest_byte s (va : Z) : option Z := (fun v => ms_mem s (r_host v)) <$> look (regs s) va.

(** [s'] has the mappings, the page table and the bytes of [s]. *)
Record same_view s s' : Prop := {
  sv_look va : look (regs s') va = look (regs s) va;
  sv_pte va : pte_get (pt s') va = pte_get (pt s) va;
  sv_byte va : guest_byte s' va = guest_byte s va
}.
Lemma same_view_refl s : same_view s s.
Proof. done. Qed.
Lemma same_view_trans s1 s2 s3 : same_view s1 s2 -> same_view s2 s3 -> same_view s1 s3.
Proof. intros [A1 A2 A3] [B1 B2 B3]. split; intros va; congruence. Qed.

Lemma as_inv_view s s' : as_inv s -> hinv s' -> pt_wf (pt s') ->
  (forall va, look (regs s') va = look (regs s) va) ->
  (forall va, pte_get (pt s') va = pte_get (pt s) va) -> as_inv s'.
Proof.
  intros [A1 A2 A3 A4 A5] Hh Hp Hl Hg. split; [done|done|..].
  - intros va. rewrite Hg, Hl. apply A3.
  - intros va v. rewrite Hg, Hl. apply A4.
  - intros va va' v v'. rewrite !Hl. apply A5.
Qed.
Lemma as_inv_same s s' : as_inv s -> same_heap s s' -> pt s' = pt s -> as_inv s'.
Proof.
  intros Hi Hs Hp. apply (as_inv_view s); [done|apply (hinv_same s); [done|apply Hi]|..].
  - rewrite Hp. apply Hi.
  - intros va. by rewrite (sh_regs _ _ Hs).
  - intros va. by rewrite Hp.
Qed.
Lemma as_inv_drain s : as_inv s -> as_inv (as_drain_retired s) /\ same_view s (as_drain_retired s).
Proof.
  intros Hi. pose proof (hinv_drain s (ai_heap s Hi)) as Hh. rewrite drain_eff in *.
  split; [|done]. by apply (as_inv_view s); [..|apply Hi| |].
Qed.
Lemma account_same s : same_heap s (as_account s) /\ pt (as_account s) = pt s /\ ms_mem (as_account s) = ms_mem s.
Proof.
  unfold as_account, as_procmem. cbn zeta. destruct (as_peak (ms_as s) <? _);
    (split; [split; first [reflexivity|simpl; apply Z.le_refl]|done]).
Qed.
Lemma as_inv_account s : as_inv s -> as_inv (as_account s) /\ same_view s (as_account s).
Proof.
  intros Hi. destruct (account_same s) as (H1 & H2 & H3). split; [by apply (as_inv_same s)|].
  assert (Hl : forall va, look (regs (as_account s)) va = look (regs s) va) by (intros; by rewrite (sh_regs _ _ H1)).
  split; [done|by rewrite H2|]. intros va. unfold guest_byte. by rewrite Hl, H3.
Qed.
(** The tail of a locked wrapper changes nothing the guest can see. *)
Lemma as_inv_finish d rc s : as_inv s ->
  fst (finish d (rc, s)) = rc /\ as_inv (snd (finish d (rc, s))) /\ same_view s (snd (finish d (rc, s))).
Proof.
  intros Hi. unfold finish. split; [done|].
  assert (H1 : as_inv (if rc =? 0 then as_account s else s) /\ same_view s (if rc =? 0 then as_account s else s)).
  { destruct (rc =? 0); [by apply as_inv_account|done]. }
  set (s1 := if rc =? 0 then _ else s) in *. destruct H1 as [H1 V1].
  destruct d; [|done]. destruct (as_inv_drain s1 H1) as [H2 V2]. split; [done|]. by apply (same_view_trans _ s1).
Qed.

(** ** Mapping anonymous memory *)

(** The host address of a mapped byte lies in an allocation of the space. *)
Lemma look_owned s va v : hinv s -> look (regs s) va = Some v ->
  exists p n, owned s p n /\ p <= r_host v < p + n.
Proof.
  intros Hi (r & Hr & Hc & ->)%look_some. pose proof (hi_back s Hi) as HB. rewrite list.Forall_forall in HB.
  destruct (HB r Hr) as (hm & E & H1 & H2). exists (hm_base hm), (hm_len hm).
  split; [left; eauto|]. unfold r_len in H2. simpl. lia.
Qed.
Lemma punched_free lo hi s s' : lo < hi -> regions_ok (regs s') -> punched lo hi s s' -> free_of (regs s') lo hi.
Proof.
  intros Hlt Hok Hp. unfold free_of. rewrite list.Forall_forall. intros q Hq.
  destruct (decide (r_end q <= lo)); [by left|]. destruct (decide (hi <= r_start q)); [by right|]. exfalso.
  assert (Hqo : region_ok q) by (destruct Hok as [HF _]; rewrite list.Forall_forall in HF; by apply HF).
  pose proof (ro_range q Hqo). specialize (Hp (Z.max lo (r_start q))).
  rewrite (look_elem _ _ q Hok Hq) in Hp by lia.
  rewrite (proj2 (andb_true_iff _ _)) in Hp by lia. done.
Qed.

Lemma pagesz_aligned p : p mod os_pagesz = 0 -> aligned p.
Proof.
  destruct os_pagesz_ok as (k & Hk & E). rewrite E. unfold aligned. intros H.
  apply Z.mod_divide in H; [|lia]. apply Z.mod_divide; [lia|]. etransitivity; [|exact H].
  exists (2 ^ (k - 12)). change 4096 with (2 ^ 12). rewrite <- Z.pow_add_r by lia. f_equal. lia.
Qed.

Lemma host_alloc_eff len s h s1 : host_alloc len s = (Some h, s1) ->
  exists o, os_mmap (ms_os s) (ms_maps s) len = (Some h, o) /\
  s1 = upd_ms_mem (zero_bytes h len) (upd_ms_maps (cons (h, len)) (upd_ms_os (fun _ => o) s)).
Proof.
  unfold host_alloc, host_mmap. destruct (host_len_ok len); [|done].
  destruct (os_mmap (ms_os s) (ms_maps s) len) as [[p|] o]; [|done]. intros [= <- <-]. eauto.
Qed.
Lemma host_alloc_none len s s1 : host_alloc len s = (None, s1) -> exists o, s1 = upd_ms_os (fun _ => o) s.
Proof.
  unfold host_alloc, host_mmap. destruct (host_len_ok len).
  - destruct (os_mmap (ms_os s) (ms_maps s) len) as [[p|] o]; [done|]. intros [= <-]. eauto.
  - intros [= <-]. exists (ms_os s). by destruct s.
Qed.

(** [addr, addr + len) is now the anonymous memory [r]; the rest is as it was. *)
Record mapped_anon (addr len prot : Z) s s' : Prop := {
  ma_look va : addr <= va < addr + len -> exists v, look (regs s') va = Some v /\
    r_prot v = prot /\ r_shared v = 0 /\ r_file v = 0 /\ r_special v = 0;
  ma_pte va : addr <= va < addr + len -> pte_prot (pte_get (pt s') va) = prot /\ pte_get (pt s') va <> 0;
  ma_byte va : addr <= va < addr + len -> guest_byte s' va = Some 0;
  ma_out va : ~ addr <= va < addr + len -> look (regs s') va = look (regs s) va /\
    pte_get (pt s') va = pte_get (pt s) va /\ guest_byte s' va = guest_byte s va
}.

(** A fresh allocation put where [r] says, in a space [s] that is [s0] with
    [r]'s range punched out. [r]'s slice may start past the allocation's base,
    as a stack's does; [p] is the permission its entries get, and the pages
    outside [full], which only a file has, get none. *)
Lemma install_gen (full : Z -> bool) s0 s s' s2 x r p : as_inv s0 -> hinv s -> pt s = pt s0 ->
  punched (r_start r) (r_end r) s0 s -> reserved s (hm_base x) (hm_len x) ->
  ms_hmaps s' = <[ms_next s := x]> (ms_hmaps s) -> regs s' = ins_region r (regs s) ->
  as_orphans (ms_as s') = as_orphans (ms_as s) -> as_retired (ms_as s') = as_retired (ms_as s) ->
  ms_maps s' = ms_maps s -> ms_next s' = ms_next s + 1 -> ms_gen s' = ms_gen s ->
  hm_refs x = 1 -> hm_pins x = 0 -> region_ok r -> r_hmap r = ms_next s ->
  hm_base x <= r_host r -> r_host r + r_len r <= hm_base x + hm_len x ->
  same_heap s' s2 -> pt_wf (pt s2) -> 0 <= p ->
  (forall va, pte_get (pt s2) va = if contains va r
     then if full va then Z.lor (r_host r + (pg va - r_start r)) p else 0 else pte_get (pt s0) va) ->
  (r_hostmap r = 0 -> forall va, full va = true) ->
  (p = r_prot r \/ (r_shared r = 0 /\ p = Z.land (r_prot r) (not32 PTE_W))) ->
  as_inv s2 /\
  (forall va, look (regs s2) va = if contains va r then Some (slice va r) else look (regs s0) va).
Proof.
  intros Hi Hh Ept Hpu Hrv E2 E1 E3 E4 E5 E6 E7 Hrf Hpn Hr Eh Hb1 Hb2 Hsh Hw2 Hp0 Hp Hfull Hpr.
  pose proof (hi_regs s Hh) as Hok. pose proof Hr as [R1 R2 R3 R4 R5 R6 R7].
  assert (Hfree : free_of (regs s) (r_start r) (r_end r)) by (apply (punched_free _ _ s0); [lia|done|done]).
  assert (Hh' : hinv s') by (by eapply (hinv_new s s' x r)).
  assert (Hc : forall va, (r_start r <=? va) && (va <? r_end r) = contains va r) by done.
  assert (Hl : forall va, look (regs s2) va = if contains va r then Some (slice va r) else look (regs s0) va).
  { intros va. rewrite (sh_regs _ _ Hsh), E1, look_ins, Hpu, Hc by done. by destruct (contains va r). }
  assert (Hin : forall va, r_start r <= va < r_end r -> contains va r = true) by (intros; by apply contains_iff).
  split; [|done]. apply (as_inv_range s0 _ (r_start r) (r_end r)); try done.
  - by apply (hinv_same s').
  - intros va Hva. rewrite Hl, Hp. rewrite (proj2 (contains_false va r)) by lia. done.
  - intros va Hva. rewrite Hp, Hin by done. destruct (full va); [|done]. intros _. exists (slice (pg va) r). rewrite Hl, Hin.
    + split; [done|]. by exists p.
    + pose proof (pg_above va _ R2). pose proof (pg_below va _ R3). lia.
  - intros va v Hva. rewrite Hl, Hp, Hin by done. intros [= <-] H0. rewrite Hfull by done.
    assert (Hpos : 0 < r_host r + (pg va - r_start r)) by (pose proof (pg_above va _ R2); lia).
    pose proof (lor_pos _ p Hpos Hp0). lia.
  - intros va va' v v' Hva. rewrite Hl, Hin by done. intros [= <-]. rewrite Hl.
    destruct (contains va' r) eqn:Ec; [intros [= <-]; simpl; lia|]. intros El' E.
    assert (Els : look (regs s) va' = Some v').
    { rewrite Hpu, Hc, Ec. done. }
    destruct (look_owned s va' v' Hh Els) as (q & m & Ho & Hq).
    pose proof (rv_disj _ _ _ Hrv q m Ho) as Hd. simpl in E. unfold disj, r_len in *. lia.
Qed.
Lemma install_core s0 s s' s2 x r p : as_inv s0 -> hinv s -> pt s = pt s0 ->
  punched (r_start r) (r_end r) s0 s -> reserved s (hm_base x) (hm_len x) ->
  ms_hmaps s' = <[ms_next s := x]> (ms_hmaps s) -> regs s' = ins_region r (regs s) ->
  as_orphans (ms_as s') = as_orphans (ms_as s) -> as_retired (ms_as s') = as_retired (ms_as s) ->
  ms_maps s' = ms_maps s -> ms_next s' = ms_next s + 1 -> ms_gen s' = ms_gen s ->
  hm_refs x = 1 -> hm_pins x = 0 -> region_ok r -> r_hmap r = ms_next s ->
  hm_base x <= r_host r -> r_host r + r_len r <= hm_base x + hm_len x ->
  same_heap s' s2 -> pt_wf (pt s2) -> 0 <= p ->
  (forall va, pte_get (pt s2) va = if contains va r
     then Z.lor (r_host r + (pg va - r_start r)) p else pte_get (pt s0) va) ->
  (p = r_prot r \/ (r_shared r = 0 /\ p = Z.land (r_prot r) (not32 PTE_W))) ->
  as_inv s2 /\
  (forall va, look (regs s2) va = if contains va r then Some (slice va r) else look (regs s0) va).
Proof.
  intros Hi Hh Ept Hpu Hrv E2 E1 E3 E4 E5 E6 E7 Hrf Hpn Hr Eh Hb1 Hb2 Hsh Hw2 Hp0 Hp Hpr.
  by apply (install_gen (fun _ => true) s0 s s' s2 x r p).
Qed.
Lemma install_ok s0 s s' x r : as_inv s0 -> hinv s -> pt s = pt s0 ->
  punched (r_start r) (r_end r) s0 s -> reserved s (hm_base x) (hm_len x) ->
  ms_hmaps s' = <[ms_next s := x]> (ms_hmaps s) -> regs s' = ins_region r (regs s) ->
  as_orphans (ms_as s') = as_orphans (ms_as s) -> as_retired (ms_as s') = as_retired (ms_as s) ->
  ms_maps s' = ms_maps s -> ms_next s' = ms_next s + 1 -> ms_gen s' = ms_gen s -> pt s' = pt s ->
  hm_refs x = 1 -> hm_pins x = 0 -> region_ok r -> r_hmap r = ms_next s ->
  hm_base x <= r_host r -> r_host r + r_len r <= hm_base x + hm_len x ->
  let s2 := pte_set_range (r_start r) (r_len r) (r_host r) (r_prot r) s' in
  as_inv s2 /\
  (forall va, look (regs s2) va = if contains va r then Some (slice va r) else look (regs s0) va) /\
  (forall va, pte_get (pt s2) va = if contains va r
     then Z.lor (r_host r + (pg va - r_start r)) (r_prot r) else pte_get (pt s0) va).
Proof.
  intros Hi Hh Ept Hpu Hrv E2 E1 E3 E4 E5 E6 E7 E8 Hrf Hpn Hr Eh Hb1 Hb2. cbn zeta.
  pose proof Hr as [R1 R2 R3 R4 R5 R6 R7].
  assert (Hw' : pt_wf (pt s')) by (rewrite E8, Ept; apply Hi).
  assert (Hlen : r_start r + r_len r = r_end r) by (unfold r_len; lia).
  destruct (set_range_spec s' (r_start r) (r_len r) (r_host r) (r_prot r) Hw') as [Hw2 Hg];
    [done|by apply aligned_sub|lia|unfold r_len; lia|lia|lia|].
  pose proof (set_range_heap (r_start r) (r_len r) (r_host r) (r_prot r) s') as Hsh.
  set (s2 := pte_set_range _ _ _ _ s') in *.
  assert (Hp : forall va, pte_get (pt s2) va = if contains va r
     then Z.lor (r_host r + (pg va - r_start r)) (r_prot r) else pte_get (pt s0) va).
  { intros va. rewrite Hg, Hlen, E8, Ept, (proj2 (Z.eqb_neq (r_host r) 0)) by lia. done. }
  assert (H0 : 0 <= r_prot r) by (unfold fits in R6; lia).
  edestruct (install_core s0 s s' s2 x r (r_prot r)) as [I1 I2]; try done; auto.
Qed.

(** After a fresh mmap of the host and the punch of the range. *)
Lemma fresh_then_punch s s1 p n addr len : as_inv s -> 0 < n -> fresh_rng (ms_maps s) p n ->
  ms_maps s1 = (p, n) :: ms_maps s -> ms_hmaps s1 = ms_hmaps s -> ms_as s1 = ms_as s ->
  ms_next s1 = ms_next s -> ms_gen s1 = ms_gen s ->
  aligned addr -> aligned len -> 0 < len -> 0 <= addr -> addr + len <= GUEST_TASK_SIZE ->
  let s2 := region_punch addr (addr + len) s1 in
  as_inv s1 /\ hinv s2 /\ tabstep s1 s2 /\ punched addr (addr + len) s s2 /\ reserved s2 p n.
Proof.
  intros Hi Hn Hf E5 E2 Ea E6 E7 Ha Hl Hl0 H0 Hr. cbn zeta.
  assert (Hs : same_store (upd_ms_maps (fun m => [(p, n)] ++ m) s) s1) by (split; simpl; by rewrite ?Ea).
  assert (Er : regs s1 = regs s) by (unfold regs; by rewrite Ea).
  assert (Hh1 : hinv s1) by (apply (hinv_more_maps s s1 [(p, n)]); [apply Hi|done|done]).
  assert (Ep : pt s1 = pt s) by (unfold pt; by rewrite Ea).
  assert (Hi1 : as_inv s1).
  { apply (as_inv_view s); [done|done|rewrite Ep; apply Hi|by rewrite Er|by rewrite Ep]. }
  destruct (punch_ok addr (addr + len) Ha (aligned_add _ _ Ha Hl) ltac:(lia) s1 Hh1) as (P1 & P2 & P3).
  split; [done|]. split; [done|]. split; [done|]. split.
  - intros va. rewrite P3. by rewrite Er.
  - apply (reserved_tabstep s1); [done|]. apply (reserved_fresh s); try done; [apply Hi|by rewrite Ea].
Qed.

(** The guard every mapping call begins with. *)
Lemma map_guard addr len : 0 <= addr -> 0 <= len ->
  misaligned (Z.lor addr len) || negb (range_ok addr len) || (len =? 0) = false ->
  aligned addr /\ aligned len /\ 0 < len /\ addr + len <= GUEST_TASK_SIZE.
Proof.
  intros Ha Hl. rewrite !orb_false_iff, negb_false_iff, misaligned_false, aligned_lor, range_ok_iff.
  intros [[[? ?] ?] ?]. repeat split; try done; lia.
Qed.

Lemma map_anon_impl_ok s addr len prot : as_inv s -> 0 <= addr -> 0 <= len -> fits 3 prot ->
  let '(rc, s') := guest_map_anon_impl addr len prot s in
  as_inv s' /\ ((rc = 0 /\ mapped_anon addr len prot s s') \/ (rc <> 0 /\ same_view s s')).
Proof.
  intros Hi Ha0 Hl0 Hp. unfold guest_map_anon_impl.
  destruct (misaligned _ || _ || _) eqn:Eg; [split; [done|]; right; done|].
  destruct (map_guard addr len Ha0 Hl0 Eg) as (Ha & Hl & Hpos & Hr).
  destruct (host_alloc len s) as [[host|] s1] eqn:Eal.
  2: { destruct (host_alloc_none len s s1 Eal) as (o & ->).
       split; [apply (as_inv_same s); [done|by split|done]|]. by right. }
  destruct (host_alloc_eff len s host s1 Eal) as (o & Emm & ->).
  pose proof (os_mmap_ok _ _ _ _ _ Emm) as Hf. set (s1 := upd_ms_mem _ _) in *.
  destruct (fresh_then_punch s s1 host len addr len Hi Hpos Hf) as (I1 & I2 & I3 & I4 & I5); try done.
  set (s2 := region_punch addr (addr + len) s1) in *.
  cbn [hmap_new]. set (r := anon_region addr len prot host (ms_next s2)).
  set (x := mkHM host len 1 0 host host false).
  set (s3 := upd_ms_next _ _). set (s4 := region_insert r s3).
  pose proof Hf as (F1 & F2 & F3%pagesz_aligned & F4).
  assert (Hrk : region_ok r).
  { split; simpl; try done; try lia; by apply aligned_add. }
  assert (Elen : r_len r = len) by (unfold r_len; simpl; lia).
  destruct (install_ok s s2 s4 x r) as (J1 & J2 & J3); try done; try (by rewrite (ts_pt _ _ I3));
    try (rewrite Elen; simpl; lia).
  rewrite Elen in *. change (r_start r) with addr in *.
  change (r_host r) with host in *. change (r_prot r) with prot in *.
  set (s5 := pte_set_range addr len host prot s4) in *.
  split; [done|]. left. split; [done|].
  assert (Hc : forall va, addr <= va < addr + len -> contains va r = true) by (intros; by apply contains_iff).
  assert (Em : ms_mem s5 = zero_bytes host len (ms_mem s)) by (change (ms_mem s5) with (ms_mem s2); by rewrite (ts_mem _ _ I3)).
  split.
  - intros va Hva. rewrite J2, Hc by done. by eexists.
  - intros va Hva. rewrite J3, Hc by done. pose proof (pg_above va addr Ha).
    assert (Hh : aligned (host + (pg va - addr))) by (apply aligned_add; [done|apply aligned_sub; [apply pg_aligned|done]]).
    rewrite prot_join by (try apply aligned_flags0; done). split; [done|].
    pose proof (lor_pos (host + (pg va - addr)) prot ltac:(lia) ltac:(unfold fits in Hp; lia)). lia.
  - intros va Hva. unfold guest_byte. rewrite J2, Hc, Em by done. simpl. unfold zero_bytes.
    by rewrite (proj2 (andb_true_iff _ _)) by lia.
  - intros va Hva. rewrite J2, J3. rewrite (proj2 (contains_false va r)) by (simpl; lia).
    split; [done|]. split; [done|]. unfold guest_byte. rewrite J2, Em.
    rewrite (proj2 (contains_false va r)) by (simpl; lia). destruct (look (regs s) va) as [v|] eqn:El; [|done].
    simpl. f_equal. unfold zero_bytes. destruct (_ && _) eqn:E; [|done]. exfalso.
    destruct (look_owned s va v (ai_heap s Hi) El) as (q & m & Ho & Hq).
    destruct (owned_live s q m (ai_heap s Hi) Ho) as [Hlv Hm].
    specialize (F4 (r_host v) ltac:(lia)). specialize (Hlv (r_host v) Hq). congruence.
Qed.
End Thms.
