(* ===== verification/AsProtect.v ===== *)
(** * AsProtect: mprotect

    [guest_protect] (mem.c) on every path: what it refuses and why, that a
    success changes the protection of exactly its range, in the region table
    and in the page table, and that [as_inv] survives even the path on which
    the host refuses half way. *)

From stdpp Require Import gmap.
From S2P Require Import Prelude Types Cpu MemSeam PageTable Regions Epoch AsState AddrSpace AsInv AsSteps AsThms.

Section Protect.
Context {Os : Type} `{!HostOs Os} `{!HostOsOk Os}.
Implicit Types s : MS Os.
Context (addr len prot : Z).

(** What the loop makes of a region. *)
Definition prot_region (r : Region) : Region :=
  if overlaps addr (addr + len) r then r_with_prot prot r else r.
Definition prot_pte (track : bool) (r : Region) (x : Z) : Z :=
  if overlaps addr (addr + len) r
  then prot_val (if track && negb (tr (r_shared r)) then Z.land prot (not32 PTE_W) else prot) x else x.
Definition prot_ptes (track : bool) (l : list Region) (f : Z -> Z) (va : Z) : Z :=
  match as_find_region l va with Some r => prot_pte track r (f va) | None => f va end.

Lemma slice_with_prot va p r : slice va (r_with_prot p r) = r_with_prot p (slice va r).
Proof. done. Qed.
Lemma find_prot rs va : as_find_region (map prot_region rs) va = prot_region <$> as_find_region rs va.
Proof.
  induction rs as [|r rs IH]; [done|]. simpl.
  replace (contains va (prot_region r)) with (contains va r) by (unfold prot_region; by destruct (overlaps _ _ _)).
  by destruct (contains va r).
Qed.
Lemma prot_regions_ok rs : fits 3 prot -> regions_ok rs -> regions_ok (map prot_region rs).
Proof.
  intros Hp. assert (Hb : forall a, r_start (prot_region a) = r_start a /\ r_end (prot_region a) = r_end a)
    by (intros a; unfold prot_region; by destruct (overlaps _ _ _)).
  induction rs as [|r rs IH]; [done|]. intros (Hr & HB & Hrs)%regions_ok_cons. simpl. apply regions_ok_cons.
  split; [|split; [|by apply IH]].
  - unfold prot_region. destruct (overlaps _ _ _); [|done]. by destruct Hr.
  - rewrite list.Forall_forall in *. intros x (y & -> & Hy)%list_elem_of_fmap. specialize (HB y Hy).
    unfold before in *. destruct (Hb r), (Hb y). lia.
Qed.
Lemma prot_backed hms rs : Forall (backed hms) rs -> Forall (backed hms) (map prot_region rs).
Proof.
  rewrite !list.Forall_forall. intros H x (y & -> & Hy)%list_elem_of_fmap.
  destruct (H y Hy) as (hm & ?). exists hm. unfold prot_region. by destruct (overlaps _ _ _).
Qed.
Lemma prot_refcount h rs : refcount h (map prot_region rs) = refcount h rs.
Proof.
  induction rs as [|r rs IH]; [done|]. unfold refcount in *. simpl. rewrite !countb_cons, IH.
  unfold prot_region. by destruct (overlaps _ _ _).
Qed.

(** The host call of one turn changes the host's state alone. *)
Lemma protect_host_eff r s s' : protect_host r addr len prot s = Some s' -> exists o, s' = upd_ms_os (fun _ => o) s.
Proof.
  unfold protect_host. destruct (negb _); [intros [= <-]; exists (ms_os s); by destruct s|].
  destruct (os_pagesz =? GUEST_PAGE_SIZE).
  - destruct (os_mprotect _ _ _ _) as [[] o]; [|done]. intros [= <-]. eauto.
  - destruct (has prot PTE_W); [|intros [= <-]; exists (ms_os s); by destruct s].
    destruct (os_mprotect _ _ _ _) as [[] o]; [|done]. intros [= <-]. eauto.
Qed.

(** Everything but the table, the page table and the host's state is kept. *)
Record protstep s s' : Prop := {
  pr_store : same_store s s';
  pr_mem : ms_mem s' = ms_mem s;
  pr_vf : ms_vf s' = ms_vf s;
  pr_me : ms_me s' = ms_me s
}.
Lemma protstep_trans s1 s2 s3 : protstep s1 s2 -> protstep s2 s3 -> protstep s1 s3.
Proof.
  intros [[A1 A2 A3 A4 A5 A6] A7 A8 A9] [[B1 B2 B3 B4 B5 B6] B7 B8 B9].
  split; [split|..]; congruence.
Qed.

Lemma prot_ptes_step t r l f g va : Forall (before r) l ->
  g va = (if contains va r then prot_pte t r (f va) else f va) ->
  prot_ptes t l g va = prot_ptes t (r :: l) f va.
Proof.
  intros HB Hg. unfold prot_ptes. cbn [as_find_region]. rewrite Hg.
  destruct (contains va r) eqn:Ec; [|done].
  destruct (as_find_region l va) as [q|] eqn:Eq; [|done]. exfalso.
  apply find_region_some in Eq as [Hq Hcq]. apply contains_iff in Ec.
  rewrite list.Forall_forall in HB. specialize (HB q Hq). unfold before in HB. lia.
Qed.
Lemma fits3_prot_val (track : bool) (r : Region) : fits 3 prot ->
  fits 3 (if track && negb (tr (r_shared r)) then Z.land prot (not32 PTE_W) else prot).
Proof. intros Hp. destruct (_ && _); [by apply fits3_noW|done]. Qed.

(** One turn at a region the range covers. *)
Lemma protect_turn_eff i r s o : fits 3 prot -> region_ok r -> overlaps addr (addr + len) r = true ->
  pt_wf (pt s) -> pte_ok (pt s) ->
  let s1 := set_regs (fun rs => <[i := r_with_prot prot r]> rs) (upd_ms_os (fun _ => o) s) in
  let s2 := set_pt (fun t => pte_prot_raw t (r_start r) (r_end r - r_start r) (vf_pte_prot r prot s1)) s1 in
  regs s2 = <[i := r_with_prot prot r]> (regs s) /\ protstep s s2 /\ pt_wf (pt s2) /\ pte_ok (pt s2) /\
  forall va, pte_get (pt s2) va =
    if contains va r then prot_pte (vf_track (ms_vf s)) r (pte_get (pt s) va) else pte_get (pt s) va.
Proof.
  intros Hp Hr Ho Hw Hpo. cbn zeta. destruct Hr as [R1 R2 R3 R4 R5 R6 R7].
  set (p := vf_pte_prot r prot _).
  assert (Hp3 : fits 3 p) by (apply (fits3_prot_val (vf_track (ms_vf s)) r); done).
  assert (Hl : aligned (r_end r - r_start r)) by (by apply aligned_sub).
  destruct (pte_prot_loop_spec (npages (r_end r - r_start r)) (pt s) (r_start r) p Hw Hpo Hp3) as [Hw' Hg].
  { apply in_task_range; [done|lia..]. }
  assert (Hgv : forall va, pte_get (pte_prot_raw (pt s) (r_start r) (r_end r - r_start r) p) va =
    if contains va r then prot_pte (vf_track (ms_vf s)) r (pte_get (pt s) va) else pte_get (pt s) va).
  { intros va. unfold pte_prot_raw. rewrite Hg, set_pages_in by (done || lia).
    replace (r_start r + (r_end r - r_start r)) with (r_end r) by lia. unfold contains, prot_pte. by rewrite Ho. }
  split; [done|]. split; [repeat split|]. split; [exact Hw'|]. split; [|exact Hgv].
  intros va. change (pt _) with (pte_prot_raw (pt s) (r_start r) (r_end r - r_start r) p). rewrite Hgv.
  destruct (contains va r); [|apply Hpo]. unfold prot_pte. rewrite Ho. destruct (Hpo va).
  by apply prot_val_ok; try apply fits3_prot_val.
Qed.

(** What the loop has done when it has been through [dn]. *)
Record prot_done (l1 dn rest : list Region) s s' : Prop := {
  pd_regs : regs s' = l1 ++ map prot_region dn ++ rest;
  pd_step : protstep s s';
  pd_wf : pt_wf (pt s');
  pd_ok : pte_ok (pt s');
  pd_pte va : pte_get (pt s') va = prot_ptes (vf_track (ms_vf s)) dn (pte_get (pt s)) va
}.

(** The loop, from the regions [l2] on: some of them, all on success, are done. *)
Lemma protect_loop_eff n l1 l2 s : fits 3 prot -> regs s = l1 ++ l2 -> (length l2 <= n)%nat ->
  regions_ok l2 -> pt_wf (pt s) -> pte_ok (pt s) ->
  exists dn rest, l2 = dn ++ rest /\
    (fst (protect_loop n (length l1) addr len prot s) = true -> rest = []) /\
    prot_done l1 dn rest s (snd (protect_loop n (length l1) addr len prot s)).
Proof.
  intros Hp. revert l1 l2 s. assert (Hnil : forall l1 l2 s, regs s = l1 ++ l2 -> pt_wf (pt s) -> pte_ok (pt s) -> prot_done l1 [] l2 s s).
  { intros l1 l2 s Er Hw Hpo. by split. }
  induction n as [|n IH]; intros l1 l2 s Er Hn Hok Hw Hpo.
  { destruct l2; [|simpl in Hn; lia]. exists [], []. split; [done|]. split; [done|]. by apply Hnil. }
  destruct l2 as [|r l2]; cbn [protect_loop].
  { exists [], []. split; [done|]. rewrite app_nil_r in Er. rewrite Er, lookup_ge_None_2 by lia.
    split; [done|]. apply Hnil; [by rewrite app_nil_r|done|done]. }
  rewrite Er, lookup_app_r, Nat.sub_diag by lia. cbn [lookup list_lookup].
  apply regions_ok_cons in Hok as (Hr & HB & Hok). simpl in Hn.
  assert (Hgo : forall s2, regs s2 = l1 ++ prot_region r :: l2 -> protstep s s2 -> pt_wf (pt s2) ->
    pte_ok (pt s2) -> (forall va, pte_get (pt s2) va = if contains va r
      then prot_pte (vf_track (ms_vf s)) r (pte_get (pt s) va) else pte_get (pt s) va) ->
    exists dn rest, r :: l2 = dn ++ rest /\
      (fst (protect_loop n (S (length l1)) addr len prot s2) = true -> rest = []) /\
      prot_done l1 dn rest s (snd (protect_loop n (S (length l1)) addr len prot s2))).
  { intros s2 Er2 Hps Hw2 Hpo2 Hg2.
    destruct (IH (l1 ++ [prot_region r]) l2 s2) as (dn & rest & -> & Hrc & [D1 D2 D3 D4 D5]); try done;
      [by rewrite <- app_assoc|lia|].
    rewrite length_app, Nat.add_1_r in *. exists (r :: dn), rest. split; [done|]. split; [done|].
    split; [by rewrite D1, <- app_assoc|by apply (protstep_trans _ s2)|done|done|].
    intros va. rewrite D5, (pr_vf _ _ Hps). apply prot_ptes_step; [|apply Hg2]. by apply Forall_app in HB as [HB _]. }
  destruct ((r_end r <=? addr) || (addr + len <=? r_start r)) eqn:Eo.
  - assert (Ef : overlaps addr (addr + len) r = false) by (unfold overlaps; by rewrite Eo).
    apply Hgo; try done; [unfold prot_region; by rewrite Ef|].
    intros va. unfold prot_pte. rewrite Ef. by destruct (contains va r).
  - assert (Ef : overlaps addr (addr + len) r = true) by (unfold overlaps; by rewrite Eo).
    destruct (protect_host r addr len prot s) as [s1|] eqn:Eh.
    + destruct (protect_host_eff r s s1 Eh) as (o & ->).
      destruct (protect_turn_eff (length l1) r s o Hp Hr Ef Hw Hpo) as (T1 & T2 & T3 & T4 & T5).
      apply Hgo; try done. rewrite T1, Er. unfold prot_region. rewrite Ef.
      by rewrite insert_app_r_alt, Nat.sub_diag by lia.
    + exists [], (r :: l2). split; [done|]. split; [done|]. by apply Hnil.
Qed.

(** The pages of the range all belong to a mapping. *)
Lemma pages_mapped_look n va s : as_inv s -> aligned va -> pages_mapped n va s = true ->
  forall a, va <= a < va + 4096 * Z.of_nat n -> exists v, look (regs s) a = Some v.
Proof.
  intros Hi. revert va. induction n as [|n IH]; intros va Hva Hm a Ha; [lia|].
  cbn [pages_mapped] in Hm. destruct ((pte_get (pt s) va =? 0) && _) eqn:E; [done|].
  change GUEST_PAGE_SIZE with 4096 in Hm.
  destruct (decide (a < va + 4096)) as [Hlt|Hge].
  2: { apply (IH (va + 4096)); [by apply aligned_add|done|lia]. }
  assert (Epg : pg a = va).
  { pose proof (pg_range a). pose proof (pg_above a va Hva).
    pose proof (pg_below a (va + 4096) (aligned_add _ 4096 Hva eq_refl)).
    pose proof (pg_aligned a) as Hpa. unfold aligned in *. pose proof (Z.div_mod (pg a) 4096).
    pose proof (Z.div_mod va 4096). lia. }
  destruct (hi_regs s (ai_heap s Hi)) as [HF _]. rewrite (look_pg _ a HF), Epg.
  apply andb_false_iff in E as [E|E].
  - apply Z.eqb_neq in E. destruct (ai_pte s Hi va E) as (v & Hv & _). rewrite (pg_same va Hva) in Hv.
    rewrite Hv. by eexists.
  - apply bool_decide_eq_false in E. unfold look. destruct (as_find_region (regs s) va); [by eexists|done].
Qed.

(** [s'] is [s] with the range protected [prot]. *)
Record protected s s' : Prop := {
  pp_in va : addr <= va < addr + len ->
    exists v, look (regs s) va = Some v /\ look (regs s') va = Some (r_with_prot prot v) /\
      pte_get (pt s') va =
        prot_val (if vf_track (ms_vf s) && negb (tr (r_shared v)) then Z.land prot (not32 PTE_W) else prot)
          (pte_get (pt s) va);
  pp_out va : ~ addr <= va < addr + len ->
    look (regs s') va = look (regs s) va /\ pte_get (pt s') va = pte_get (pt s) va;
  pp_byte va : guest_byte s' va = guest_byte s va;
  pp_gen : ms_gen s' = ms_gen s + 1;
  pp_flush : t_dgen (ms_me s') = 0
}.

(** The region table and the page table protected alike keep [as_inv]: the
    regions [dn] have been through the loop, those of [rest] have not. *)
Lemma prot_done_inv dn rest s s' : fits 3 prot -> as_inv s -> regs s = dn ++ rest ->
  prot_done [] dn rest s s' -> as_inv s'.
Proof.
  intros Hp Hi Er [D1 D2 D3 D4 D5]. simpl in D1. destruct D2 as [HS Dm Dv _].
  pose proof (hi_regs s (ai_heap s Hi)) as Hok. rewrite Er in Hok.
  pose proof Hok as (Hok1 & Hok2 & Hb)%regions_ok_app.
  assert (Hbd : forall a, r_start (prot_region a) = r_start a /\ r_end (prot_region a) = r_end a)
    by (intros a; unfold prot_region; by destruct (overlaps _ _ _)).
  assert (Hok' : regions_ok (map prot_region dn ++ rest)).
  { apply regions_ok_app. split; [by apply prot_regions_ok|]. split; [done|].
    rewrite list.Forall_forall in *. intros x (y & -> & Hy)%list_elem_of_fmap. specialize (Hb y Hy).
    apply (list.Forall_impl _ _ _ Hb). unfold before. destruct (Hbd y). lia. }
  assert (Hh : hinv s').
  { apply (hinv_retable s); [apply Hi|done|by rewrite D1| |].
    - pose proof (hi_back s (ai_heap s Hi)) as HB. rewrite Er in HB. apply Forall_app in HB as [HB1 HB2].
      rewrite D1. apply Forall_app. split; [by apply prot_backed|done].
    - intros h. rewrite D1, Er. unfold refcount. rewrite !countb_app. f_equal. apply prot_refcount. }
  assert (Hl : forall va, look (regs s') va = match as_find_region dn va with
     | Some r => Some (slice va (prot_region r)) | None => look rest va end).
  { intros va. rewrite D1, look_app. unfold look at 1. rewrite find_prot.
    by destruct (as_find_region dn va). }
  assert (Hl0 : forall va, look (regs s) va = match as_find_region dn va with
     | Some r => Some (slice va r) | None => look rest va end).
  { intros va. rewrite Er, look_app. unfold look at 1. by destruct (as_find_region dn va). }
  assert (Hhost : forall va v', look (regs s') va = Some v' -> exists v, look (regs s) va = Some v /\
     r_host v' = r_host v /\ r_hostmap v' = r_hostmap v).
  { intros va v'. rewrite Hl, Hl0. destruct (as_find_region dn va) as [r|]; [|eauto].
    intros [= <-]. eexists. split; [done|]. unfold prot_region. by destruct (overlaps _ _ _). }
  split; [done|done|..].
  - intros va Hn. rewrite D5 in Hn |- *. unfold prot_ptes in *.
    assert (HF1 : Forall region_ok dn) by apply Hok1.
    rewrite (find_page dn va HF1) in Hn |- *. rewrite Hl.
    assert (Hn0 : pte_get (pt s) va <> 0).
    { destruct (as_find_region dn (pg va)); [|done]. unfold prot_pte, prot_val in Hn.
      destruct (overlaps _ _ _); [|done]. by destruct (Z.eqb_spec (pte_get (pt s) va) 0). }
    destruct (ai_pte s Hi va Hn0) as (v & El & Hv). rewrite Hl0 in El.
    destruct (as_find_region dn (pg va)) as [r|] eqn:Ef; [|eauto]. injection El as <-.
    eexists. split; [done|]. unfold prot_pte, prot_region in *. destruct (overlaps _ _ _) eqn:Eo; [|done].
    unfold prot_val in *. rewrite (proj2 (Z.eqb_neq _ 0) Hn0) in *.
    destruct (pte_of_ok (regs s) va (slice (pg va) r) (pte_get (pt s) va)) as (_ & Eh & _ & _);
      [apply Hi|apply hinv_host_bound, Hi|by rewrite Hl0, Ef|done|].
    unfold pte_host in Eh. rewrite Eh. eexists. split; [done|]. simpl.
    destruct (vf_track (ms_vf s) && negb (tr (r_shared r))) eqn:Et; [right|by left].
    apply andb_true_iff in Et as [_ Et]. unfold tr in Et. split; [|done]. lia.
  - intros va v' El' H0. destruct (Hhost va v' El') as (v & El & _ & E2).
    pose proof (ai_full s Hi va v El ltac:(congruence)) as Hn. rewrite D5. unfold prot_ptes.
    destruct (as_find_region dn va) as [r|]; [|done]. unfold prot_pte, prot_val.
    destruct (overlaps _ _ _); [|done]. rewrite (proj2 (Z.eqb_neq _ 0) Hn).
    destruct (as_inv_pte_ok s Hi va) as [_ Hpos]. specialize (Hpos Hn). unfold pte_host in Hpos.
    pose proof (fits3_prot_val (vf_track (ms_vf s)) r Hp) as H3.
    pose proof (lor_pos _ _ Hpos (proj1 H3)). lia.
  - intros va va' v v' El El' E. destruct (Hhost va v El) as (w & Ew & E1 & _).
    destruct (Hhost va' v' El') as (w' & Ew' & E1' & _). apply (ai_inj s Hi va va' w w'); congruence.
Qed.

(** The table cut at both ends of the range: the same view, and every region
    the range touches lies in it. *)
Lemma split_both_ok s : as_inv s -> aligned addr -> aligned len ->
  let s2 := region_split_at (addr + len) (region_split_at addr s) in
  as_inv s2 /\ tabstep s s2 /\ (forall va, look (regs s2) va = look (regs s) va) /\
  forall r, r ∈ regs s2 -> overlaps addr (addr + len) r = true -> addr <= r_start r /\ r_end r <= addr + len.
Proof.
  intros Hi Ha Hl. cbn zeta.
  destruct (split_at_ok s addr (ai_heap s Hi) Ha) as (A1 & A2 & A3 & A4).
  set (s1 := region_split_at addr s) in *.
  destruct (split_at_ok s1 (addr + len) A1 (aligned_add _ _ Ha Hl)) as (B1 & B2 & B3 & B4).
  pose proof (split_at_keeps s1 (addr + len) addr A4) as A4'. set (s2 := region_split_at (addr + len) s1) in *.
  pose proof (tabstep_trans _ _ _ A2 B2) as Ht.
  assert (HL : forall va, look (regs s2) va = look (regs s) va) by (intros; by rewrite B3).
  split; [|split; [done|split; [done|]]].
  - apply (as_inv_view s); [done|done|rewrite (ts_pt _ _ Ht); apply Hi|done|by rewrite (ts_pt _ _ Ht)].
  - intros r Hr Ho. apply overlaps_iff in Ho. destruct (A4' r Hr), (B4 r Hr); lia.
Qed.

(** The whole loop run, with nothing left over. *)
Lemma protected_intro s s2 s3 s4 : as_inv s -> 0 < len -> tabstep s s2 ->
  (forall va, look (regs s2) va = look (regs s) va) ->
  (forall r, r ∈ regs s2 -> overlaps addr (addr + len) r = true -> addr <= r_start r /\ r_end r <= addr + len) ->
  (forall va, addr <= va < addr + len -> exists v, look (regs s) va = Some v) ->
  prot_done [] (regs s2) [] s2 s3 -> (forall va, look (regs s4) va = look (regs s3) va) ->
  pt s4 = pt s3 -> ms_mem s4 = ms_mem s3 -> ms_gen s4 = ms_gen s3 + 1 -> t_dgen (ms_me s4) = 0 ->
  protected s s4.
Proof.
  intros Hi Hpos Ht HL Hcov Hmap [D1 [HS Dm Dv _] _ _ D5] HL4 Ep Em Eg Ed. rewrite app_nil_r in D1. simpl in D1.
  assert (Hl4 : forall va, look (regs s4) va = (fun r => slice va (prot_region r)) <$> as_find_region (regs s2) va).
  { intros va. rewrite HL4, D1. unfold look. rewrite find_prot. by destruct (as_find_region (regs s2) va). }
  assert (Hp4 : forall va, pte_get (pt s4) va = prot_ptes (vf_track (ms_vf s)) (regs s2) (pte_get (pt s)) va).
  { intros va. rewrite Ep, D5, (ts_vf _ _ Ht), (ts_pt _ _ Ht). done. }
  assert (Hl2 : forall va, look (regs s) va = slice va <$> as_find_region (regs s2) va) by (intros; by rewrite <- HL).
  split; [..|by rewrite Eg, (ss_gen _ _ HS), (ts_gen _ _ Ht)|done].
  - intros va Hva. destruct (Hmap va Hva) as (v & Ev). exists v. split; [done|].
    rewrite Hl4, Hp4. unfold prot_ptes. rewrite Hl2 in Ev.
    destruct (as_find_region (regs s2) va) as [r|] eqn:Ef; [|done]. injection Ev as <-.
    apply find_region_some in Ef as [Hr Hc].
    assert (Eo : overlaps addr (addr + len) r = true) by (apply overlaps_iff; lia).
    simpl. unfold prot_region, prot_pte. by rewrite Eo.
  - intros va Hva. rewrite Hl4, Hp4, Hl2. unfold prot_ptes.
    destruct (as_find_region (regs s2) va) as [r|] eqn:Ef; [|done].
    apply find_region_some in Ef as [Hr Hc]. simpl. unfold prot_region, prot_pte.
    destruct (overlaps addr (addr + len) r) eqn:Eo; [|done]. pose proof (Hcov r Hr Eo). lia.
  - intros va. unfold guest_byte. rewrite Hl4, Hl2, Em, Dm, (ts_mem _ _ Ht).
    destruct (as_find_region (regs s2) va) as [r|]; [|done]. simpl. unfold prot_region.
    by destruct (overlaps _ _ _).
Qed.

Lemma protect_impl_ok s : as_inv s -> 0 <= addr -> 0 < len -> fits 3 prot ->
  let '(rc, s') := guest_protect_impl addr len prot s in
  as_inv s' /\ (rc = 0 -> protected s s') /\
  (forall va, ~ addr <= va < addr + len -> rc <> 0 -> pte_get (pt s') va = pte_get (pt s) va).
Proof.
  intros Hi Ha0 Hpos Hp. unfold guest_protect_impl.
  destruct (misaligned _) eqn:Em; [by split|]. apply misaligned_false, aligned_lor in Em as [Ha Hl].
  destruct (range_ok addr len) eqn:Er; [|by split]. cbn [negb]. apply range_ok_iff in Er as [_ Er].
  destruct (pages_mapped (npages len) addr s) eqn:Epm; [|by split]. cbn [negb].
  destruct (has prot PTE_W && _); [by split|].
  assert (Hmap : forall va, addr <= va < addr + len -> exists v, look (regs s) va = Some v).
  { intros va Hva. apply (pages_mapped_look _ addr s Hi Ha Epm).
    pose proof (npages_len len Hl ltac:(lia)) as En. change GUEST_PAGE_SIZE with 4096 in En. lia. }
  destruct (split_both_ok s Hi Ha Hl) as (Hi2 & Ht & HL & Hcov).
  set (s2 := region_split_at (addr + len) (region_split_at addr s)) in *.
  destruct (protect_loop_eff (length (regs s2)) [] (regs s2) s2 Hp eq_refl (le_n _)) as (dn & rest & Ed & Hrc & HD);
    [apply Hi2|apply Hi2|by apply as_inv_pte_ok|]. cbn [length] in *.
  destruct (protect_loop (length (regs s2)) 0 addr len prot s2) as [rc s3]. cbn [fst snd] in *.
  pose proof (prot_done_inv dn rest s2 s3 Hp Hi2 Ed HD) as Hi3. destruct rc.
  - specialize (Hrc eq_refl) as ->. rewrite app_nil_r in Ed. subst dn.
    set (s4 := flush_me _).
    assert (Hi4 : as_inv s4) by (apply (as_inv_same s3); [done|split; try done; simpl; lia|done]).
    destruct (merge_range_ok s4 addr (addr + len) (ai_heap s4 Hi4)) as (M1 & M2 & M3).
    set (s5 := region_merge_range addr (addr + len) s4) in *.
    split; [|split; [|done]].
    + apply (as_inv_view s4); [done|done|rewrite (ts_pt _ _ M2); apply Hi4|done|by rewrite (ts_pt _ _ M2)].
    + intros _. apply (protected_intro s s2 s3 s5); try done; rewrite ?(ts_pt _ _ M2), ?(ts_mem _ _ M2), ?(ts_gen _ _ M2), ?(ts_me _ _ M2); done.
  - split; [done|]. split; [done|]. intros va Hva _. destruct HD as [_ _ _ _ D5].
    rewrite D5, (ts_pt _ _ Ht). unfold prot_ptes. destruct (as_find_region dn va) as [r|] eqn:Ef; [|done].
    apply find_region_some in Ef as [Hr Hc]. unfold prot_pte.
    destruct (overlaps addr (addr + len) r) eqn:Eo; [|done].
    assert (Hr2 : r ∈ regs s2) by (rewrite Ed; apply elem_of_app; by left).
    pose proof (Hcov r Hr2 Eo). lia.
Qed.
End Protect.
