(* ===== verification/AsMove.v ===== *)
(** * AsMove: mremap's move

    [guest_remap_move] (mem.c) copies the region records and the page-table
    entries of a range to another place and then unmaps the range: the guest
    finds every mapping, permission and byte of the old range at the same
    offset of the new one, holes included, and nothing else changes. *)

From stdpp Require Import gmap.
From S2P Require Import Prelude Types Cpu MemSeam PageTable Regions Epoch AsState AddrSpace AsInv AsSteps AsThms.

(** The mapping [v] of one address, seen at [va]. *)
Definition r_move (va : Z) (v : Region) : Region := r_with_range va (va + 1) (r_host v) (r_file_off v) v.

Lemma slice_move va d pos src e : fits 64 (r_file_off src) ->
  slice va (r_with_range (pos + d) e (r_host src + (pos - r_start src))
              (u64 (r_file_off src + (pos - r_start src))) src) = r_move va (slice (va - d) src).
Proof.
  intros Ho. unfold slice, r_move, r_with_range; simpl. f_equal; [lia|].
  destruct (tr (r_file src)); [|done]. unfold u64. rewrite Zplus_mod_idemp_l. f_equal. lia.
Qed.

Section Move.
Context {Os : Type} `{!HostOs Os} `{!HostOsOk Os}.
Implicit Types s : MS Os.
Context (addr len dst : Z).
Context (Ha : aligned addr) (Hl : aligned len) (Hd : aligned dst) (Hpos : 0 < len).
Context (Ha0 : 0 <= addr) (Hd0 : 0 <= dst).
Context (Har : addr + len <= GUEST_TASK_SIZE) (Hdr : dst + len <= GUEST_TASK_SIZE).
Context (Hdis : dst + len <= addr \/ addr + len <= dst).
Definition delta : Z := dst - addr.

(** [va] is in the part of the destination that answers to [pos] onward. *)
Definition in_dst (pos va : Z) : bool := (pos + delta <=? va) && (va <? dst + len).

(** Free ground by address. *)
Lemma free_by_look rs lo hi : regions_ok rs -> (forall va, lo <= va < hi -> look rs va = None) -> lo < hi ->
  free_of rs lo hi.
Proof.
  intros Hok Hn Hlt. unfold free_of. rewrite list.Forall_forall. intros q Hq.
  destruct (decide (r_end q <= lo)); [by left|]. destruct (decide (hi <= r_start q)); [by right|]. exfalso.
  assert (Hqo : region_ok q) by (destruct Hok as [HF _]; rewrite list.Forall_forall in HF; by apply HF).
  pose proof (ro_range q Hqo). specialize (Hn (Z.max lo (r_start q)) ltac:(lia)).
  rewrite (look_elem _ _ q Hok Hq) in Hn by lia. done.
Qed.

(** The state of the copy when it has come to [pos]. *)
Record move_pre (pos : Z) s : Prop := {
  mp_heap : hinv s;
  mp_wf : pt_wf (pt s);
  mp_ok : pte_ok (pt s);
  mp_free va : in_dst pos va = true -> look (regs s) va = None /\ pte_get (pt s) va = 0;
  mp_src va : pte_get (pt s) va <> 0 -> look (regs s) va <> None
}.

(** One slice copied: from [pos] to [hi], a part of the region [src]. *)
Definition moved_region (pos hi : Z) (src : Region) : Region :=
  r_with_range (dst + (pos - addr)) (dst + (pos - addr) + (hi - pos)) (r_host src + (pos - r_start src))
    (u64 (r_file_off src + (pos - r_start src))) src.
Definition move_slice (pos hi : Z) (src : Region) s : MS Os :=
  set_pt (fun t => pte_copy_loop (npages (hi - pos)) t pos (dst + (pos - addr)))
    (region_insert (moved_region pos hi src) (hmap_ref (r_hmap src) s)).

Lemma move_slice_heap pos hi src s : move_pre pos s -> addr <= pos -> pos < hi -> hi <= addr + len ->
  aligned pos -> aligned hi -> as_find_region (regs s) pos = Some src -> hi <= r_end src ->
  hinv (move_slice pos hi src s) /\ ms_mem (move_slice pos hi src s) = ms_mem s /\
  forall va, look (regs (move_slice pos hi src s)) va =
    if (pos + delta <=? va) && (va <? hi + delta) then r_move va <$> look (regs s) (va - delta) else look (regs s) va.
Proof.
  intros [Hh Hw Hpo Hfr _] Hp1 Hp2 Hp3 Hap Hah Ef He. unfold move_slice. set (nr := moved_region pos hi src).
  apply find_region_some in Ef as [Hsrc Hc].
  pose proof (hi_regs s Hh) as Hok.
  assert (Hso : region_ok src) by (destruct Hok as [HF _]; rewrite list.Forall_forall in HF; by apply HF).
  pose proof (hi_back s Hh) as HB. rewrite list.Forall_forall in HB. destruct (HB src Hsrc) as (hm & Ehm & Hb1 & Hb2).
  assert (Enr : r_start nr = pos + delta /\ r_end nr = hi + delta) by (unfold nr, delta; simpl; lia).
  destruct Enr as [En1 En2].
  assert (Hno : region_ok nr).
  { pose proof Hso as [S1 S2 S3 S4 S5 S6 S7]. assert (Hdl : aligned delta) by (by apply aligned_sub).
    unfold delta in *. split; rewrite ?En1, ?En2; try done; try lia.
    - by apply aligned_add.
    - by apply aligned_add.
    - simpl. apply aligned_add; [done|]. by apply aligned_sub.
    - simpl. lia.
    - simpl. apply fits_u64. }
  assert (Hfree : free_of (regs s) (r_start nr) (r_end nr)).
  { apply free_by_look; [done| |lia]. intros va Hva. apply Hfr. unfold in_dst. apply andb_true_iff.
    unfold delta in *. lia. }
  assert (Er : regs (set_pt (fun t => pte_copy_loop (npages (hi - pos)) t pos (dst + (pos - addr)))
                (region_insert nr (hmap_ref (r_hmap src) s))) = ins_region nr (regs s)).
  { unfold region_insert. by destruct (tr (r_mfdcnt nr)). }
  split; [|split; [unfold region_insert; by destruct (tr (r_mfdcnt nr))|]].
  - eapply (hinv_ref s _ (r_hmap src) hm Hh Ehm).
    + by apply (hinv_refs_pos s src).
    + unfold region_insert. by destruct (tr (r_mfdcnt nr)).
    + rewrite Er. by apply ins_region_ok.
    + rewrite Er, list.Forall_forall. intros q [->|Hq]%ins_region_elem; [|by apply HB].
      exists hm. unfold r_len in *. rewrite En1, En2. simpl. split; [done|]. unfold delta. lia.
    + intros k. rewrite Er. unfold refcount. rewrite countb_ins. unfold minus_one. simpl. lia.
  - intros va. rewrite Er, look_ins by done.
    replace (contains va nr) with ((pos + delta <=? va) && (va <? hi + delta))
      by (unfold contains; by rewrite En1, En2).
    destruct (_ && _) eqn:E; [|done]. rewrite (look_elem (regs s) (va - delta) src Hok Hsrc) by lia. simpl. f_equal.
    unfold nr, moved_region. replace (dst + (pos - addr)) with (pos + delta) by (unfold delta; lia).
    apply slice_move. apply (ro_off src Hso).
Qed.

(** The page-table entries of one slice. *)
Lemma move_slice_pte pos hi src s : move_pre pos s -> addr <= pos -> pos < hi -> hi <= addr + len ->
  aligned pos -> aligned hi ->
  pt_wf (pt (move_slice pos hi src s)) /\
  forall va, pte_get (pt (move_slice pos hi src s)) va =
    if (pos + delta <=? va) && (va <? hi + delta) then pte_get (pt s) (va - delta) else pte_get (pt s) va.
Proof.
  intros [Hh Hw Hpo Hfr _] Hp1 Hp2 Hp3 Hap Hah.
  assert (Ept : pt (move_slice pos hi src s) =
                pte_copy_loop (npages (hi - pos)) (pt s) pos (dst + (pos - addr))).
  { unfold move_slice, region_insert. by destruct (tr (r_mfdcnt _)). }
  rewrite Ept. replace (dst + (pos - addr)) with (pos + delta) by (unfold delta; lia).
  assert (Hal : aligned (hi - pos)) by (by apply aligned_sub).
  assert (Had : aligned delta) by (by apply aligned_sub).
  assert (Hn : GUEST_PAGE_SIZE * Z.of_nat (npages (hi - pos)) = hi - pos) by (apply npages_len; [done|lia]).
  assert (Hap' : apart (Z.of_nat (npages (hi - pos))) pos (pos + delta)).
  { unfold apart. pose proof (page_div pos). pose proof (page_div (pos + delta)). change GUEST_PAGE_SIZE with 4096 in Hn.
    unfold aligned, delta in *. pose proof (Z.div_mod pos 4096). pose proof (Z.div_mod (pos + (dst - addr)) 4096).
    pose proof (aligned_add _ _ Hap Had) as Hx. unfold aligned in Hx. lia. }
  destruct (pte_copy_loop_spec (npages (hi - pos)) (pt s) pos (pos + delta)
     (fun j => pte_get (pt s) (pos + GUEST_PAGE_SIZE * j)) Hw) as [Hw' Hg]; try done.
  { unfold in_task. rewrite Hn. unfold delta. lia. }
  split; [done|]. intros va. rewrite Hg, set_pages_in; [|by apply aligned_add|done|lia].
  replace (pos + delta + (hi - pos)) with (hi + delta) by lia.
  destruct ((pos + delta <=? va) && (va <? hi + delta)) eqn:E; [|done]. unfold copy_val.
  assert (Hz : pte_get (pt s) va = 0) by (apply Hfr; unfold in_dst; unfold delta in *; lia).
  assert (Ev : pte_get (pt s) (pos + GUEST_PAGE_SIZE * ((pg va - (pos + delta)) / 4096)) = pte_get (pt s) (va - delta)).
  { apply pte_get_page. rewrite page_add, !page_div.
    pose proof (aligned_add _ _ Hap Had) as Hx. unfold pg, aligned in *. rewrite page_div.
    pose proof (Z.div_mod delta 4096). pose proof (Z.div_mod pos 4096). wsolve. }
  rewrite Ev, Hz. by destruct (Z.eqb_spec (pte_get (pt s) (va - delta)) 0) as [->|].
Qed.

(** The copy from [pos] on has been made. *)
Record copied (pos : Z) s s' : Prop := {
  cp_heap : hinv s';
  cp_wf : pt_wf (pt s');
  cp_mem : ms_mem s' = ms_mem s;
  cp_look va : look (regs s') va =
    if in_dst pos va then r_move va <$> look (regs s) (va - delta) else look (regs s) va;
  cp_pte va : pte_get (pt s') va = if in_dst pos va then pte_get (pt s) (va - delta) else pte_get (pt s) va
}.

(** What one slice leaves for the rest of the copy. *)
Lemma move_slice_step pos hi src s : move_pre pos s -> addr <= pos -> pos < hi -> hi <= addr + len ->
  aligned pos -> aligned hi -> as_find_region (regs s) pos = Some src -> hi <= r_end src ->
  move_pre hi (move_slice pos hi src s) /\
  forall s', copied hi (move_slice pos hi src s) s' -> copied pos s s'.
Proof.
  intros Hm H1 H2 H3 Hap Hah Ef He.
  destruct (move_slice_heap pos hi src s Hm H1 H2 H3 Hap Hah Ef He) as (A1 & A2 & A3).
  destruct (move_slice_pte pos hi src s Hm H1 H2 H3 Hap Hah) as (B1 & B2).
  set (s1 := move_slice pos hi src s) in *. destruct Hm as [_ _ Hpo Hfr Hsrc].
  assert (Hout : forall va, in_dst hi va = true -> (pos + delta <=? va) && (va <? hi + delta) = false)
    by (intros va; unfold in_dst, delta in *; lia).
  assert (Hsp : forall va, in_dst pos va = in_dst hi va || (pos + delta <=? va) && (va <? hi + delta))
    by (intros va; unfold in_dst, delta in *; zbool; lia).
  assert (Hback : forall va, in_dst hi va = true -> (pos + delta <=? va - delta) && (va - delta <? hi + delta) = false)
    by (intros va; unfold in_dst, delta in *; lia).
  split.
  - split; [done|done|..].
    + intros va. rewrite B2. destruct (_ && _); apply Hpo.
    + intros va Hva. rewrite A3, B2, (Hout va Hva). apply Hfr. by rewrite Hsp, Hva.
    + intros va. rewrite A3, B2. destruct (_ && _); [|by apply Hsrc].
      intros Hn%Hsrc. destruct (look (regs s) (va - delta)); done.
  - intros s' [C1 C2 C3 C4 C5]. split; [done|done|by rewrite C3|..]; intros va.
    + rewrite C4, Hsp, !A3. destruct (in_dst hi va) eqn:E; [|done]. by rewrite (Hback va E).
    + rewrite C5, Hsp, !B2. destruct (in_dst hi va) eqn:E; [|done]. by rewrite (Hback va E).
Qed.

(** A page of no region has no entry, and nothing is copied. *)
Lemma move_hole pos s : move_pre pos s -> addr <= pos -> pos < addr + len -> aligned pos ->
  as_find_region (regs s) pos = None ->
  move_pre (pos + GUEST_PAGE_SIZE) s /\ forall s', copied (pos + GUEST_PAGE_SIZE) s s' -> copied pos s s'.
Proof.
  intros [Hh Hw Hpo Hfr Hsrc] H1 H2 Hap Ef. change GUEST_PAGE_SIZE with 4096.
  assert (Hsub : forall va, in_dst (pos + 4096) va = true -> in_dst pos va = true)
    by (intros va; unfold in_dst; lia).
  assert (Hno : forall va, in_dst pos va = true -> in_dst (pos + 4096) va = false ->
            look (regs s) (va - delta) = None).
  { intros va Hx Hy. assert (Hv : pos <= va - delta < pos + 4096) by (unfold in_dst in *; lia).
    unfold look. rewrite (find_page (regs s)) by apply (hi_regs s Hh).
    replace (pg (va - delta)) with pos; [by rewrite Ef|].
    pose proof (pg_same pos Hap) as <-. unfold pg. f_equal. rewrite !page_div. unfold aligned in Hap. wsolve. }
  split; [by split; auto|]. intros s' [C1 C2 C3 C4 C5]. split; [done|done|done|..]; intros va.
  - rewrite C4. destruct (in_dst (pos + 4096) va) eqn:E; [by rewrite (Hsub va E)|].
    destruct (in_dst pos va) eqn:E'; [|done]. rewrite (Hno va E' E). by apply Hfr.
  - rewrite C5. destruct (in_dst (pos + 4096) va) eqn:E; [by rewrite (Hsub va E)|].
    destruct (in_dst pos va) eqn:E'; [|done]. destruct (Hfr va E') as [_ ->].
    specialize (Hno va E' E). destruct (decide (pte_get (pt s) (va - delta) = 0)) as [->|Hn]; [done|].
    by apply Hsrc in Hn.
Qed.

Lemma copied_end pos s : move_pre pos s -> addr + len <= pos -> copied pos s s.
Proof.
  intros [H1 H2 _ _ _] H. assert (Hn : forall va, in_dst pos va = false) by (intros va; unfold in_dst, delta; lia).
  split; try done; intros va; by rewrite Hn.
Qed.

Lemma move_loop_ok fuel pos s : move_pre pos s -> addr <= pos -> aligned pos ->
  addr + len - pos <= GUEST_PAGE_SIZE * Z.of_nat fuel -> copied pos s (move_loop fuel pos addr len dst s).
Proof.
  change GUEST_PAGE_SIZE with 4096.
  revert pos s. induction fuel as [|f IH]; intros pos s Hm H1 Hap Hf; [apply copied_end; [done|lia]|].
  simpl. destruct (pos <? addr + len) eqn:E; [|apply copied_end; [done|lia]].
  destruct (as_find_region (regs s) pos) as [src|] eqn:Ef.
  - set (hi := if r_end src <? addr + len then _ else _).
    pose proof (find_region_some _ _ _ Ef) as [Hin Hc].
    assert (Hso : region_ok src) by (destruct (hi_regs s (mp_heap _ _ Hm)) as [HF _]; rewrite list.Forall_forall in HF; by apply HF).
    assert (Hh : pos < hi /\ hi <= addr + len /\ hi <= r_end src /\ aligned hi).
    { pose proof (ro_end src Hso). pose proof (aligned_add _ _ Ha Hl). unfold hi. destruct (r_end src <? addr + len) eqn:E2; repeat split; try done; lia. }
    destruct Hh as (Hh1 & Hh2 & Hh3 & Hh4).
    destruct (move_slice_step pos hi src s Hm H1 Hh1 Hh2 Hap Hh4 Ef Hh3) as [Hm' Hcp].
    apply Hcp. apply IH; [done|lia|done|]. pose proof (aligned_sub _ _ Hh4 Hap) as Hq. unfold aligned in Hq.
    pose proof (Z.div_mod (hi - pos) 4096). lia.
  - destruct (move_hole pos s Hm H1 ltac:(lia) Hap Ef) as [Hm' Hcp]. apply Hcp.
    apply IH; [done|change GUEST_PAGE_SIZE with 4096; lia| |change GUEST_PAGE_SIZE with 4096; lia].
    by apply aligned_add.
Qed.

(** What a move does to the guest's view. *)
Record moved s s' : Prop := {
  mv_dst k : 0 <= k < len -> look (regs s') (dst + k) = r_move (dst + k) <$> look (regs s) (addr + k) /\
    pte_get (pt s') (dst + k) = pte_get (pt s) (addr + k) /\ guest_byte s' (dst + k) = guest_byte s (addr + k);
  mv_src va : addr <= va < addr + len -> look (regs s') va = None /\ pte_get (pt s') va = 0;
  mv_out va : ~ addr <= va < addr + len -> ~ dst <= va < dst + len ->
    look (regs s') va = look (regs s) va /\ pte_get (pt s') va = pte_get (pt s) va /\
    guest_byte s' va = guest_byte s va
}.

(** Where the mapping at [va] was. *)
Definition back (va : Z) : Z := if in_dst addr va then va - delta else va.
Definition in_src (va : Z) : bool := (addr <=? va) && (va <? addr + len).
Lemma back_inj va va' : in_src va = false -> in_src va' = false -> back va = back va' -> va = va'.
Proof.
  unfold back, in_src, in_dst, delta.
  intros H1 H2. destruct ((_ <=? va) && (va <? dst + len)) eqn:E1, ((_ <=? va') && (va' <? dst + len)) eqn:E2; lia.
Qed.

(** The maps of a finished move, from the maps before it. *)
Record relocated s s' : Prop := {
  rl_mem : ms_mem s' = ms_mem s;
  rl_look va : look (regs s') va = if in_src va then None else r_move va <$> look (regs s) (back va);
  rl_pte va : pte_get (pt s') va = if in_src va then 0 else pte_get (pt s) (back va)
}.
Lemma r_move_same rs va : r_move va <$> look rs va = look rs va.
Proof.
  destruct (look rs va) as [v|] eqn:E; [|done]. apply look_some in E as (r & _ & _ & ->). simpl. f_equal.
Qed.
Lemma relocated_moved s s' : relocated s s' -> moved s s'.
Proof.
  intros [Hmem Hlk Hpt].
  assert (Hbyte : forall va, in_src va = false -> guest_byte s' va = guest_byte s (back va)).
  { intros va Hs. unfold guest_byte. rewrite Hlk, Hs, Hmem. by destruct (look (regs s) (back va)). }
  split.
  - intros k Hk. assert (Es : in_src (dst + k) = false) by (unfold in_src; lia).
    assert (Eb : back (dst + k) = addr + k).
    { unfold back, in_dst, delta. rewrite (proj2 (andb_true_iff _ _)) by lia. lia. }
    by rewrite Hlk, Hpt, (Hbyte _ Es), Es, Eb.
  - intros va Hva. rewrite Hlk, Hpt. by replace (in_src va) with true by (unfold in_src; lia).
  - intros va H1 H2. assert (Es : in_src va = false) by (unfold in_src; lia).
    assert (Eb : back va = va).
    { unfold back, in_dst, delta. rewrite (proj2 (andb_false_iff _ _)); [done|]. lia. }
    by rewrite Hlk, Hpt, (Hbyte _ Es), Es, Eb, r_move_same.
Qed.
Lemma relocated_inv s s' : as_inv s -> hinv s' -> pt_wf (pt s') -> relocated s s' -> as_inv s'.
Proof.
  intros Hi Hh Hw [_ Hlk Hpt]. assert (Hdl : aligned delta) by (by apply aligned_sub).
  assert (Hpg : forall va, in_src (pg va) = in_src va /\ back (pg va) = pg (back va)).
  { intros va. pose proof (aligned_add _ _ Ha Hl) as Q1. pose proof (aligned_add _ _ Hd Hl) as Q2.
    pose proof (pg_above va addr Ha). pose proof (pg_below va _ Q1).
    pose proof (pg_above va dst Hd). pose proof (pg_below va _ Q2). unfold back, in_src, in_dst.
    replace (addr + delta) with dst by (unfold delta; lia). split; [zbool; lia|].
    replace ((dst <=? pg va) && (pg va <? dst + len)) with ((dst <=? va) && (va <? dst + len)) by (zbool; lia).
    destruct (_ && _); [|done]. unfold pg. rewrite !page_div. unfold aligned in Hdl.
    pose proof (Z.div_mod delta 4096). wsolve. }
  split; [done|done|..].
  - intros va. rewrite Hpt, Hlk. destruct (Hpg va) as [-> ->]. destruct (in_src va); [done|].
    intros Hn. destruct (ai_pte s Hi _ Hn) as (v & -> & p & Hv). exists (r_move (pg va) v). split; [done|].
    exists p. exact Hv.
  - intros va v. rewrite Hpt, Hlk. destruct (in_src va); [done|].
    intros (v0 & E & ->)%fmap_Some. by apply (ai_full s Hi _ v0 E).
  - intros va va' v v'. rewrite !Hlk. destruct (in_src va) eqn:E1; [done|]. destruct (in_src va') eqn:E2; [done|].
    intros (v0 & E0 & ->)%fmap_Some (v1 & E1' & ->)%fmap_Some. simpl. intros E.
    apply (back_inj va va' E1 E2). apply (ai_inj s Hi _ _ v0 v1 E0 E1' E).
Qed.

(** The destination emptied, and the copy made. *)
Lemma move_copied s : as_inv s ->
  let s1 := pte_set_range dst len 0 0 (region_punch dst (dst + len) s) in
  copied addr s1 (move_loop (npages len) addr addr len dst s1).
Proof.
  intros Hi. cbn zeta. set (s1 := pte_set_range dst len 0 0 _).
  destruct (unmap_ok s dst len Hi Hd Hl Hpos Hd0 Hdr) as (I1 & L1 & P1). fold s1 in I1, L1, P1.
  assert (Hdst : forall va, in_dst addr va = (dst <=? va) && (va <? dst + len)).
  { intros va. unfold in_dst. by replace (addr + delta) with dst by (unfold delta; lia). }
  apply move_loop_ok; [|lia|done|rewrite npages_len by (try done; lia); lia].
  split; [apply I1|apply I1|by apply as_inv_pte_ok|..].
  - intros va Hva. rewrite L1, P1, <- Hdst, Hva. done.
  - intros va Hn. destruct (ai_pte s1 I1 va Hn) as (v & Ev & _).
    rewrite look_pg by apply (hi_regs s1 (ai_heap s1 I1)). by rewrite Ev.
Qed.

(** The body of [guest_remap_move_impl] past its guards. *)
Lemma move_body_ok s : as_inv s ->
  let s1 := pte_set_range dst len 0 0 (region_punch dst (dst + len) s) in
  let s2 := pte_sync_range dst len (move_loop (npages len) addr addr len dst s1) in
  let s' := pte_set_range addr len 0 0 (region_punch addr (addr + len) s2) in
  as_inv s' /\ relocated s s'.
Proof.
  intros Hi. cbn zeta. set (s1 := pte_set_range dst len 0 0 _).
  destruct (unmap_ok s dst len Hi Hd Hl Hpos Hd0 Hdr) as (I1 & L1 & P1). fold s1 in I1, L1, P1.
  assert (M1 : ms_mem s1 = ms_mem s).
  { destruct (punch_ok dst (dst + len) Hd (aligned_add _ _ Hd Hl) ltac:(lia) s (ai_heap s Hi)) as (_ & T & _).
    exact (ts_mem _ _ T). }
  assert (Hdst : forall va, in_dst addr va = (dst <=? va) && (va <? dst + len)).
  { intros va. unfold in_dst. by replace (addr + delta) with dst by (unfold delta; lia). }
  destruct (move_copied s Hi) as [C1 C2 C3 C4 C5]. fold s1 in C1, C2, C3, C4, C5.
  set (s2 := pte_sync_range dst len _).
  destruct (punch_ok addr (addr + len) Ha (aligned_add _ _ Ha Hl) ltac:(lia) s2) as (Q1 & Q2 & Q3).
  { by apply (hinv_same (move_loop (npages len) addr addr len dst s1)), C1; apply sync_heap. }
  set (s3 := region_punch addr (addr + len) s2) in *.
  assert (Hw3 : pt_wf (pt s3)) by (rewrite (ts_pt _ _ Q2); exact C2).
  destruct (set_range_spec s3 addr len 0 0 Hw3 Ha Hl Ha0 ltac:(lia) Har ltac:(lia)) as [Hw4 Hg].
  assert (Hrel : relocated s (pte_set_range addr len 0 0 s3)).
  { split.
    - change (ms_mem s3 = ms_mem s). rewrite (ts_mem _ _ Q2). etransitivity; [exact C3|done].
    - intros va. change (look (regs s3) va = if in_src va then None else r_move va <$> look (regs s) (back va)).
      rewrite Q3. change (regs s2) with (regs (move_loop (npages len) addr addr len dst s1)).
      unfold in_src. destruct ((addr <=? va) && (va <? addr + len)) eqn:Es; [done|]. rewrite C4, !L1.
      unfold back. rewrite !Hdst. destruct ((dst <=? va) && (va <? dst + len)) eqn:Ed; [|by rewrite r_move_same].
      rewrite (proj2 (andb_false_iff (dst <=? va - delta) _)); [done|]. unfold delta. lia.
    - intros va. rewrite Hg, (ts_pt _ _ Q2). change (pt s2) with (pt (move_loop (npages len) addr addr len dst s1)).
      unfold in_src. destruct ((addr <=? va) && (va <? addr + len)) eqn:Es; [done|]. rewrite C5, !P1.
      unfold back. rewrite !Hdst. destruct ((dst <=? va) && (va <? dst + len)) eqn:Ed; [|done].
      rewrite (proj2 (andb_false_iff (dst <=? va - delta) _)); [done|]. unfold delta. lia. }
  split; [|done]. apply (relocated_inv s); [done| |done|done].
  by apply (hinv_same s3), Q1; apply set_range_heap.
Qed.
End Move.

Lemma move_impl_ok {Os : Type} `{!HostOs Os} `{!HostOsOk Os} (s : MS Os) addr len dst : as_inv s ->
  0 <= addr -> 0 <= len -> 0 <= dst ->
  let '(rc, s') := guest_remap_move_impl addr len dst s in
  as_inv s' /\ ((rc = 0 /\ moved addr len dst s s') \/ (rc = - EINVAL /\ s' = s)).
Proof.
  intros Hi Ha0 Hl0 Hd0. unfold guest_remap_move_impl.
  destruct (misaligned _ || _) eqn:E1; [by split; [|right]|].
  destruct (negb (range_ok addr len) || negb (range_ok dst len)) eqn:E2; [by split; [|right]|].
  destruct ((dst <? addr + len) && (addr <? dst + len)) eqn:E3; [by split; [|right]|].
  apply orb_false_iff in E1 as [E1 E4]. rewrite misaligned_false, !aligned_lor in E1. destruct E1 as [[Ha Hl] Hd].
  apply orb_false_iff in E2 as [E2 E5]. apply negb_false_iff in E2, E5. rewrite range_ok_iff in E2, E5.
  assert (Hdis : dst + len <= addr \/ addr + len <= dst) by lia.
  destruct (move_body_ok addr len dst Ha Hl Hd ltac:(lia) Ha0 Hd0 ltac:(lia) ltac:(lia) Hdis s Hi) as [H1 H2].
  split; [exact H1|]. left. split; [done|]. apply relocated_moved; [exact Hdis|exact H2].
Qed.
