(* ===== verification/Translate.v ===== *)
(** * Translate: the access path of mem.c

    [translate] turns a guest address into a host one: the D-TLB, the walk of
    the page table on a miss, and the three cold paths that can still produce
    a page: a file that has grown into its mapping ([as_fault_fill]), the hole
    under a stack ([as_stack_grow]) and a page whose write bit the vfork
    tracking took ([as_write_heal]). The address space is then what the core
    reaches guest memory through: it is an instance of [MemSeam]. The lending
    of guest memory to host calls and the copies of the syscall layer are
    here too. *)

From stdpp Require Import gmap.
From S2P Require Import Prelude Types Cpu MemSeam PageTable Regions Epoch AsState AddrSpace.

Definition page_of (va : Z) : Z := Z.land va (not64 GUEST_PAGE_MASK).
Definition page_off (va : Z) : Z := Z.land va GUEST_PAGE_MASK.

Section Translate.
Context {Os : Type} `{!HostOs Os}.
Implicit Types s : MS Os.

(** ** vfork snapshots: [vf_find], [vf_record], [vf_drop] *)

(** The binary search: the index of [va], or where it would go. *)
Fixpoint vf_search (fuel : nat) (l : list (Z * list Z)) (lo hi va : Z) : Z :=
  match fuel with
  | O => - (lo + 1)
  | S f =>
      if lo <=? hi then
        let mid := Z.quot (lo + hi) 2 in
        match l !! Z.to_nat mid with
        | None => - (lo + 1)
        | Some (a, _) =>
            if a =? va then mid
            else if a <? va then vf_search f l (mid + 1) hi va else vf_search f l lo (mid - 1) va
        end
      else - (lo + 1)
  end.
Definition vf_find (l : list (Z * list Z)) (va : Z) : Z :=
  vf_search (S (length l)) l 0 (Z.of_nat (length l) - 1) va.

Definition host_bytes (p : Z) (n : nat) s : list Z := map (fun k => ms_mem s (p + Z.of_nat k)) (seq 0 n).
Definition PAGE_N : nat := Z.to_nat GUEST_PAGE_SIZE.

(** [vf_record]: [false] is its -1, when there is no memory for the copy. *)
Definition vf_record (page host : Z) s : bool * MS Os :=
  let l := vf_pages (ms_vf s) in
  let i := vf_find l page in
  if 0 <=? i then (true, s)
  else if env_nomem (ms_env s) then (false, s)
  else
    let k := Z.to_nat (- i - 1) in
    (true, upd_ms_vf (fun v => mkVf (vf_track v)
                                 (take k l ++ [(page, host_bytes host PAGE_N s)] ++ drop k l) (vf_stacks v)) s).
Definition vf_drop s : MS Os := upd_ms_vf (fun _ => vf_none) s.

(** [as_vfork_track_begin]: from now on private pages wait for their first
    store; the bottom of each stack is noted. *)
Definition stack_bottom (rs : list Region) (i : nat) (r : Region) : bool :=
  tr (r_growsdown r) &&
  match i with
  | O => true
  | S k => match rs !! k with Some q => negb (as_same_vma q r) | None => true end
  end.
Fixpoint track_loop (n : nat) (i : nat) s : MS Os :=
  match n with
  | O => s
  | S k =>
      match regs s !! i with
      | None => s
      | Some r =>
          let s := if stack_bottom (regs s) i r && negb (env_nomem (ms_env s))
                   then upd_ms_vf (fun v => mkVf (vf_track v) (vf_pages v) (vf_stacks v ++ [r_start r])) s
                   else s in
          let s := if tr (r_shared r) || negb (has (r_prot r) PTE_W) then s
                   else set_pt (fun t => pte_prot_raw t (r_start r) (r_end r - r_start r)
                                           (Z.land (r_prot r) (not32 PTE_W))) s in
          track_loop k (S i) s
      end
  end.
Definition as_vfork_track_begin s : MS Os :=
  let s := upd_ms_vf (fun v => mkVf true (vf_pages v) (vf_stacks v)) (vf_drop s) in
  let s := track_loop (length (regs s)) 0 s in
  flush_me (as_gen_bump s).
Definition as_vfork_tracking s : bool := vf_track (ms_vf s).
Definition as_vfork_fork_child s : MS Os := vf_drop s.

(** [as_vfork_note_write]: the pages of [va, va + len), from [page]. *)
Fixpoint note_loop (n : nat) (page e : Z) s : MS Os :=
  match n with
  | O => s
  | S k =>
      if page <? e then
        let pte := pte_get (pt s) page in
        let s :=
          if pte =? 0 then s
          else match as_find_region (regs s) page with
               | None => s
               | Some r => if tr (r_shared r) then s else snd (vf_record page (pte_host pte) s)
               end in
        note_loop k (page + GUEST_PAGE_SIZE) e s
      else s
  end.
Definition as_vfork_note_write (va len : Z) s : MS Os :=
  if negb (vf_track (ms_vf s)) then s
  else note_loop (S (npages len)) (page_of va) (va + len) s.

(** ** The cold paths of a translation *)

(** The direct store [l2->e[L2_IDX(page)] = v] into a live entry. *)
Definition pte_store (t : PT) (va v : Z) : PT :=
  match pt_l1 t !! L1_IDX va with
  | Some l2 => mkPT (<[L1_IDX va := mkL2 (l2_used l2) (l2_store (L2_IDX va) v (l2_e l2))]> (pt_l1 t))
                    (pt_spare t) (pt_n t)
  | None => t
  end.

(** [as_write_heal]: the mended entry, 0 for a genuine fault. *)
Definition as_write_heal (va : Z) s : Z * MS Os :=
  let page := page_of va in
  let pte := pte_get (pt s) page in
  if negb (pte =? 0) && negb (has pte PTE_W) then
    match as_find_region (regs s) page with
    | None => (0, s)
    | Some r =>
        if negb (tr (r_shared r)) && has (r_prot r) PTE_W then
          let '(ok, s) := if vf_track (ms_vf s) then vf_record page (pte_host pte) s else (true, s) in
          if ok then (Z.lor pte PTE_W,
                      set_pt (fun t => pte_store t page (Z.lor pte PTE_W)) s)
          else (0, s)
        else (0, s)
    end
  else (0, s).

(** [as_fault_fill]: the entry of a page its file has grown into, or 0. *)
Definition as_fault_fill (va : Z) s : Z * MS Os :=
  match as_find_region (regs s) va with
  | None => (0, s)
  | Some r =>
      if tr (r_hostmap r) then
        let page := page_of va in
        let hp := r_host r + (page - r_start r) in
        let past := tr (r_anon_shm r) && (r_shm_size r <=? u64 (r_file_off r + (page - r_start r))) in
        if negb past && os_readable (ms_os s) hp then
          let prot := vf_pte_prot r (r_prot r) s in
          (Z.lor hp prot, pte_set_range page GUEST_PAGE_SIZE hp prot s)
        else (0, s)
      else (0, s)
  end.

(** ** Stacks that grow *)
Definition GROW_RW_STEP : Z := Z.shiftl 64 10.

(** Where the room under the slice of region [i] ends. *)
Fixpoint grow_floor (rs : list Region) (j i : nat) (r : Region) (floor : Z) : Z :=
  match rs with
  | [] => floor
  | q :: rs' =>
      let qe := r_host q + (r_end q - r_start q) in
      grow_floor rs' (S j) i r
        (if (j =? i)%nat || negb (r_hmap q =? r_hmap r) then floor
         else if (qe <=? r_host r) && (floor <? qe) then qe else floor)
  end.
(** One try at the host addresses under the allocation [h]; the new floor. *)
Definition grow_try (ext need want h floor : Z) s : Z * MS Os :=
  if floor <=? want then (floor, s)
  else if (ext <? need) || (floor <? ext) || negb (host_len_ok (u64 (hm_len (hm_at s h) + ext))) then (floor, s)
  else
    let hint := floor - ext in
    match os_mmap_at (ms_os s) (ms_maps s) hint ext with
    | (None, o) => (floor, upd_ms_os (fun _ => o) s)
    | (Some p, o) =>
        let s := upd_ms_mem (zero_bytes p ext) (upd_ms_maps (cons (p, ext)) (upd_ms_os (fun _ => o) s)) in
        if p =? hint
        then (p, set_hm h (hm_with_ext p (hm_len (hm_at s h) + ext)) s)
        else (floor, host_munmap p ext s)
    end.
(** [region_grow_down] for region [r] at index [i]; [false] is its -1. *)
Definition region_grow_down (i : nat) (r : Region) (grow : Z) s : bool * MS Os :=
  let hpm := os_pagesz - 1 in
  let host := r_host r in
  if negb (host_len_ok grow) || (host <? grow) then (false, s)
  else
    let want := host - grow in
    let h := r_hmap r in
    let base := hm_base (hm_at s h) in
    let floor := grow_floor (regs s) 0 i r base in
    let '(floor, s) :=
      if (want <? floor) && (floor =? base) && negb (env_force_piece (ms_env s)) then
        let need := Z.land (floor - want + hpm) (not64 hpm) in
        let '(floor, s) := grow_try (u64 (need * 2)) need want h floor s in
        grow_try need need want h floor s
      else (floor, s) in
    if floor <=? want then
      let hm := hm_at s h in
      let lo := Z.land want (not64 hpm) in
      let rw := hm_rw_lo hm in
      let '(ok, s) :=
        if lo <? rw then
          let batch := if GROW_RW_STEP <? rw - hm_base hm then rw - GROW_RW_STEP else hm_base hm in
          let lo := if batch <? lo then batch else lo in
          match os_mprotect (ms_os s) lo (rw - lo) true with
          | (true, o) => (true, set_hm h (fun x => hm_with_fresh lo (hm_fresh_hi x) x) (upd_ms_os (fun _ => o) s))
          | (false, o) => (false, upd_ms_os (fun _ => o) s)
          end
        else (true, s) in
      if negb ok then (false, s)
      else
        let fresh := hm_fresh_hi hm in
        let stale := if fresh <? want then want else fresh in
        let s := if stale <? host then upd_ms_mem (zero_bytes stale (host - stale)) s else s in
        (true, if want <? fresh then set_hm h (fun x => hm_with_fresh (hm_rw_lo x) want x) s else s)
    else (false, s).

(** [region_grow_piece]: the stack goes on in backing of its own. *)
Definition region_grow_piece (i : nat) (r : Region) (addr : Z) s : bool * MS Os :=
  let hpm := os_pagesz - 1 in
  let grow := r_start r - addr in
  let hlen := Z.land (grow + hpm) (not64 hpm) in
  if negb (host_len_ok hlen) then (false, s)
  else match stack_reserve RESERVE_FUEL (stack_room (as_vma_end (regs s) i - addr) s) hlen s with
  | (None, s) => (false, s)
  | (Some (base, room), s) =>
      let '(h, s) := hmap_new base (room + hlen) s in
      let host := base + room + (hlen - grow) in
      let s := set_hm h (hm_with_fresh (base + room) host) s in
      let piece := r_with_backing host h (r_with_range addr (r_start r) host 0 r) in
      let s := region_insert piece s in
      let prot := vf_pte_prot piece (r_prot piece) s in
      (true, set_pt (fun t => pte_set_pages t addr grow host prot) s)
  end.

(** [as_stack_grows_to]: the kernel's tests. *)
Inductive Grows := G_no | G_mapped | G_at (i : nat).
Fixpoint first_above (rs : list Region) (i : nat) (va : Z) : option (nat * Region) :=
  match rs with
  | [] => None
  | r :: rs' => if r_end r <=? va then first_above rs' (S i) va else Some (i, r)
  end.
Definition as_stack_grows_to (va : Z) s : Grows :=
  match first_above (regs s) 0 va with
  | None => G_no
  | Some (i, r) =>
      if negb (tr (r_growsdown r)) then G_no
      else if r_start r <=? va then G_mapped
      else
        let addr := page_of va in
        if addr <? env_min_addr (ms_env s) then G_no
        else if match i with
                | O => false
                | S k => match regs s !! k with
                         | None => false
                         | Some prev => negb (tr (r_growsdown prev)) && has (r_prot prev) PTE_FLAGS &&
                                        (u64 (addr - r_end prev) <? STACK_GUARD_GAP)
                         end
                end then G_no
        else
          let grow := r_start r - addr in
          let size := as_vma_end (regs s) i - addr in
          let stk := env_stack (ms_env s) in
          let cap := env_as (ms_env s) in
          if negb (stk =? RLIM_INFINITY) && (stk <? size) then G_no
          else if negb (cap =? RLIM_INFINITY) &&
                  ((cap <? grow) || (cap - grow <? as_mapped_bytes (regs s))) then G_no
          else if negb (as_mlock_future_ok (r_lock r) grow s) then G_no
          else G_at i
  end.

(** [as_stack_extend] for the region at [i]; [false] is its -1. *)
Definition as_stack_extend (i : nat) (addr : Z) s : bool * MS Os :=
  match regs s !! i with
  | None => (false, s)
  | Some r =>
      let grow := r_start r - addr in
      let '(ok, s) :=
        match region_grow_down i r grow s with
        | (true, s) =>
            let n := r_with_range addr (r_end r) (r_host r - grow) (r_file_off r) r in
            let s := set_regs (fun rs => <[i := n]> rs) s in
            let prot := vf_pte_prot n (r_prot n) s in
            (true, set_pt (fun t => pte_set_pages t addr grow (r_host n) prot) s)
        | (false, s) => region_grow_piece i r addr s
        end in
      if negb ok then (false, s)
      else
        let s := match as_find_region (regs s) addr with
                 | Some n => if has (r_lock n) RL_LOCKED
                             then upd_ms_as (upd_as_locked_vm (fun v => u64 (v + Z.shiftr grow 12))) s else s
                 | None => s
                 end in
        (true, as_account s)
  end.

(** [as_stack_grow]: the entry of [va] then, or 0. *)
Definition as_stack_grow (nogrow : bool) (va : Z) s : Z * MS Os :=
  if nogrow then (0, s)
  else match as_stack_grows_to va s with
       | G_no => (0, s)
       | G_mapped => (pte_get (pt s) va, s)
       | G_at i => match as_stack_extend i (page_of va) s with
                   | (true, s) => (pte_get (pt s) va, s)
                   | (false, s) => (0, s)
                   end
       end.

(** [as_stack_grow_shared]: the parent's stack follows its vfork child's. *)
Definition as_stack_grow_shared (was start : Z) s : Z * MS Os :=
  let start := page_of start in
  match first_above (regs s) 0 was with
  | None => (-1, s)
  | Some (i, r) =>
      if (r_start r <=? was) && tr (r_growsdown r) then
        let i := as_vma_start_idx (regs s) i in
        match regs s !! i with
        | None => (-1, s)
        | Some q =>
            if r_start q <=? start then (0, s)
            else if (env_min_addr (ms_env s) <=? start) &&
                    match i with
                    | O => true
                    | S k => match regs s !! k with Some p => r_end p <=? start | None => true end
                    end
            then match as_stack_extend i start s with (true, s) => (0, s) | (false, s) => (-1, s) end
            else (-1, s)
        end
      else (-1, s)
  end.

(** ** [translate] *)
Definition tlb_sync s : MS Os :=
  let '(p, t) := dtlb_sync (ms_gen s) (ms_pub s, ms_me s) in
  upd_ms_pub (fun _ => p) (upd_ms_me (fun _ => t) s).
Definition tlb_fill (va pte : Z) s : MS Os := upd_ms_me (dtlb_fill (Z.shiftr va 12) pte) s.

(** The entry of [va] on a D-TLB miss, 0 when there is none. *)
Definition walk_miss (nogrow : bool) (va : Z) s : Z * MS Os :=
  let pte := pte_get (pt s) va in
  let '(pte, s) := if pte =? 0 then as_fault_fill va s else (pte, s) in
  let '(pte, s) := if pte =? 0 then as_stack_grow nogrow va s else (pte, s) in
  (pte, if pte =? 0 then s else tlb_fill va pte s).
(** The address looked up: a data access ignores the top byte. *)
Definition data_va (va need : Z) : Z := if need =? PTE_X then u64 va else Z.land (u64 va) A64_TBI_MASK.
Definition host_of (pte va : Z) : Z := pte_host pte + page_off va.
Definition as_translate (nogrow : bool) (va need : Z) s : (option Z * bool) * MS Os :=
  let va := data_va va need in
  if GUEST_TASK_SIZE <=? va then ((None, false), s)
  else
    let s := tlb_sync s in
    let '(pte, s) := match dtlb_hit (ms_me s) (Z.shiftr va 12) with
                     | Some pte => (pte, s)
                     | None => walk_miss nogrow va s
                     end in
    if pte =? 0 then ((None, false), s)
    else if Z.land pte need =? need then ((Some (host_of pte va), false), s)
    else
      let '(h, s) := if need =? PTE_W then as_write_heal va s else (0, s) in
      if h =? 0 then ((None, true), s)
      else ((Some (host_of h va), false), tlb_fill va h s).

(** [va_is_file_hole]: as it is called, with the address the access had. *)
Definition as_file_hole (va : Z) s : bool :=
  match as_find_region (regs s) va with Some r => tr (r_hostmap r) | None => false end.

(** The address space is what the core reaches memory through. *)
#[global] Instance as_seam : MemSeam (MS Os) := {
  translate := as_translate;
  va_is_file_hole := as_file_hole;
  host_get q s := ms_mem s q;
  host_put q b s := upd_ms_mem (fun m a => if a =? q then b else m a) s;
  fcache s := t_fc (ms_me s);
  set_fcache f s := upd_ms_me (with_fc f) s;
  tlb_flush_all := flush_me
}.

End Translate.
