(* ===== verification/Access.v ===== *)
(** * Access: how the syscall layer reaches guest memory (mem.c)

    The copies between host buffers and guest memory, page by page through
    [translate]; the reachability tests; and the lending of guest pages to a
    host system call, with the pins that keep lent backing from being
    released. The bracket against a host bus error (BUS_GUARD, a file cut
    short by another process during the copy) is left out: the host is taken
    to hand over every page an entry names. *)

From stdpp Require Import gmap.
From S2P Require Import Prelude Types Cpu MemSeam PageTable Regions Epoch AsState AddrSpace Translate.

Definition ENAMETOOLONG : Z := 36.
Definition EIO : Z := 5.

(** The part of [len] bytes from [va] that lies in [va]'s page. *)
Definition chunk_of (va len : Z) : Z :=
  let c := GUEST_PAGE_SIZE - Z.land va GUEST_PAGE_MASK in if len <? c then len else c.
(** Every turn of a copy but the first and the last covers a page. *)
Definition copy_fuel (len : Z) : nat := S (S (npages len)).

Section Copies.
Context {Mem : Type} `{MemSeam Mem}.
Local Open Scope exec_scope.

(** memcpy from and to host memory, as byte lists. *)
Fixpoint bytes_at (n : nat) (p : Z) (m : Mem) : list Z :=
  match n with O => [] | S k => host_get p m :: bytes_at k (p + 1) m end.
Fixpoint put_bytes (l : list Z) (p : Z) (m : Mem) : Mem :=
  match l with [] => m | b :: l' => put_bytes l' (p + 1) (host_put p b m) end.

(** [copy_from_guest_walk]: the bytes, [None] for -EFAULT. *)
Fixpoint copy_from_guest_walk (fuel : nat) (va len : Z) : M (St Mem) (option (list Z)) :=
  match fuel with
  | O => ret None
  | S f =>
      if len =? 0 then ret (Some [])
      else
        r <- translateM va PTE_R;
        match fst r with
        | None => ret None
        | Some p =>
            let chunk := chunk_of va len in
            b <- gets (fun s => bytes_at (Z.to_nat chunk) p (s_mem s));
            t <- copy_from_guest_walk f (u64 (va + chunk)) (len - chunk);
            ret (match t with Some t => Some (b ++ t) | None => None end)
        end
  end.
Definition copy_from_guest (va len : Z) : M (St Mem) (option (list Z)) := fun s =>
  if negb (len =? 0) && uaddr_tag_refused va (s_tls s) then Ok None s
  else copy_from_guest_walk (copy_fuel len) va len s.

(** [copy_to_guest_walk]: 0 or -EFAULT. *)
Fixpoint copy_to_guest_walk (fuel : nat) (va : Z) (src : list Z) : M (St Mem) Z :=
  match fuel with
  | O => ret (- EFAULT)
  | S f =>
      if Z.of_nat (length src) =? 0 then ret 0
      else
        r <- translateM va PTE_W;
        match fst r with
        | None => ret (- EFAULT)
        | Some p =>
            let chunk := chunk_of va (Z.of_nat (length src)) in
            modify (upd_mem (put_bytes (take (Z.to_nat chunk) src) p)) ;;
            copy_to_guest_walk f (u64 (va + chunk)) (drop (Z.to_nat chunk) src)
        end
  end.
Definition copy_to_guest (va : Z) (src : list Z) : M (St Mem) Z := fun s =>
  if negb (Z.of_nat (length src) =? 0) && uaddr_tag_refused va (s_tls s) then Ok (- EFAULT) s
  else copy_to_guest_walk (copy_fuel (Z.of_nat (length src))) va src s.

(** The partial copies: what crossed before the first bad page. *)
Fixpoint copy_from_guest_partial_walk (fuel : nat) (va len : Z) : M (St Mem) (list Z) :=
  match fuel with
  | O => ret []
  | S f =>
      if len =? 0 then ret []
      else
        r <- translateM va PTE_R;
        match fst r with
        | None => ret []
        | Some p =>
            let chunk := chunk_of va len in
            b <- gets (fun s => bytes_at (Z.to_nat chunk) p (s_mem s));
            t <- copy_from_guest_partial_walk f (u64 (va + chunk)) (len - chunk);
            ret (b ++ t)
        end
  end.
Definition copy_from_guest_partial (va len : Z) : M (St Mem) (list Z) := fun s =>
  if uaddr_tag_refused va (s_tls s) then Ok [] s
  else copy_from_guest_partial_walk (copy_fuel len) va len s.
Definition copy_from_guest_look (va len : Z) : M (St Mem) (list Z) :=
  saved <- gets (fun s => t_nogrow (s_tls s));
  modify (upd_tls (with_nogrow true)) ;;
  l <- copy_from_guest_partial va len;
  modify (upd_tls (with_nogrow saved)) ;;
  ret l.
Fixpoint copy_to_guest_partial_walk (fuel : nat) (va : Z) (src : list Z) (done : Z) : M (St Mem) Z :=
  match fuel with
  | O => ret done
  | S f =>
      if Z.of_nat (length src) =? 0 then ret done
      else
        r <- translateM va PTE_W;
        match fst r with
        | None => ret done
        | Some p =>
            let chunk := chunk_of va (Z.of_nat (length src)) in
            modify (upd_mem (put_bytes (take (Z.to_nat chunk) src) p)) ;;
            copy_to_guest_partial_walk f (u64 (va + chunk)) (drop (Z.to_nat chunk) src) (done + chunk)
        end
  end.
Definition copy_to_guest_partial (va : Z) (src : list Z) : M (St Mem) Z := fun s =>
  if uaddr_tag_refused va (s_tls s) then Ok 0 s
  else copy_to_guest_partial_walk (copy_fuel (Z.of_nat (length src))) va src 0 s.

(** [copy_str_from_guest]: the string without its NUL, or the error. *)
Fixpoint str_scan (n : nat) (p : Z) (m : Mem) : list Z * bool :=
  match n with
  | O => ([], false)
  | S k => let b := host_get p m in
           if b =? 0 then ([], true)
           else let '(l, e) := str_scan k (p + 1) m in (b :: l, e)
  end.
Fixpoint copy_str_from_guest_walk (fuel : nat) (va n max : Z) : M (St Mem) (list Z + Z) :=
  match fuel with
  | O => ret (inr (- ENAMETOOLONG))
  | S f =>
      if n <? max then
        r <- translateM va PTE_R;
        match fst r with
        | None => ret (inr (- EFAULT))
        | Some p =>
            let chunk := chunk_of va (max - n) in
            q <- gets (fun s => str_scan (Z.to_nat chunk) p (s_mem s));
            if snd q then ret (inl (fst q))
            else
              t <- copy_str_from_guest_walk f (u64 (va + chunk)) (n + chunk) max;
              ret (match t with inl l => inl (fst q ++ l) | inr e => inr e end)
        end
      else ret (inr (- ENAMETOOLONG))
  end.
Definition copy_str_from_guest (va max : Z) : M (St Mem) (list Z + Z) := fun s =>
  if uaddr_tag_refused va (s_tls s) then Ok (inr (- EFAULT)) s
  else copy_str_from_guest_walk (copy_fuel max) va 0 max s.

End Copies.

Section Space.
Context {Os : Type} `{!HostOs Os}.
Local Open Scope exec_scope.

(** [mem_reachable]; the second answer is the mark left in [xfer_hole]. *)
Definition mem_reachable (va size : Z) (acc : AccType) : M (St (MS Os)) (bool * bool) := fun s =>
  if crosses va size then Ok (false, false) s
  else if uaddr_tag_refused va (s_tls s) then Ok (false, false) s
  else
    let need := acc_need acc in
    let '((p, perm), m) := as_translate true va need (s_mem s) in
    let s' := upd_mem (fun _ => m) s in
    match p with
    | Some _ => Ok (true, false) s'
    | None =>
        if perm || t_nogrow (s_tls s) then Ok (false, false) s'
        else match as_stack_grows_to (Z.land va A64_TBI_MASK) m with
             | G_mapped => Ok (true, false) s'
             | G_no => Ok (false, false) s'
             | G_at i => let ok := match regs m !! i with
                                   | Some r => Z.land (r_prot r) need =? need
                                   | None => false
                                   end in Ok (ok, ok) s'
             end
    end.

(** [mem_stack_hole]: how much of the range lies in a stack's hole. *)
Definition mem_stack_hole (va len : Z) (acc : AccType) (s : St (MS Os)) : Z :=
  if (len =? 0) || uaddr_tag_refused va (s_tls s) then 0
  else
    let need := acc_need acc in
    let a := Z.land va A64_TBI_MASK in
    let m := s_mem s in
    if (pte_get (pt m) a =? 0) && bool_decide (as_find_region (regs m) a = None) then
      match as_stack_grows_to a m with
      | G_at i => match regs m !! i with
                  | Some r => if Z.land (r_prot r) need =? need
                              then let run := r_start r - a in if run <? len then run else len
                              else 0
                  | None => 0
                  end
      | _ => 0
      end
    else 0.

(** [mem_stack_touch]. *)
Definition mem_stack_touch (va : Z) (acc : AccType) : M (St (MS Os)) bool := fun s =>
  let '((p, _), m) := as_translate false va (acc_need acc) (s_mem s) in
  Ok (bool_decide (p <> None)) (upd_mem (fun _ => m) s).

(** [as_mlock_populate]: the pages of locked file mappings are faulted in. *)
Fixpoint populate_pages (n : nat) (p stop : Z) (nogrow : bool) (m : MS Os) : Z * MS Os :=
  match n with
  | O => (0, m)
  | S k =>
      if p <? stop then
        match as_translate nogrow p 0 m with
        | ((None, _), m) => (- ENOMEM, m)
        | ((Some _, _), m) => populate_pages k (p + GUEST_PAGE_SIZE) stop nogrow m
        end
      else (0, m)
  end.
Fixpoint populate_loop (fuel : nat) (va e : Z) (nogrow : bool) (m : MS Os) : Z * MS Os :=
  match fuel with
  | O => (0, m)
  | S f =>
      if va <? e then
        match as_next_region (regs m) va with
        | None => (0, m)
        | Some r =>
            if e <=? r_start r then (0, m)
            else
              let va := if va <? r_start r then r_start r else va in
              let stop := if r_end r <? e then r_end r else e in
              let '(err, m) :=
                if (Z.land (r_lock r) (Z.lor RL_LOCKED RL_ONFAULT) =? RL_LOCKED) && negb (tr (r_special r)) then
                  if negb (has (r_prot r) PTE_FLAGS) then (- ENOMEM, m)
                  else if tr (r_hostmap r)
                       then populate_pages (S (npages (stop - va))) va stop nogrow m else (0, m)
                else (0, m) in
              if negb (err =? 0) then (err, m) else populate_loop f stop e nogrow m
        end
      else (0, m)
  end.
Definition as_mlock_populate (start len : Z) (nogrow : bool) (m : MS Os) : Z * MS Os :=
  populate_loop (S (length (regs m))) start (u64 (start + len)) nogrow m.

(** ** Lending: [guest_lend], [guest_unlend] *)
Inductive LendWhy := LEND_ALL | LEND_CUT | LEND_FULL.
(** One run: its host address, its length and the allocation it pins. *)
Record Loan := mkLoan { ln_base : Z; ln_len : Z; ln_pin : Z }.

(** The walk. [own] is the runs of this call, the last one first; [n] the
    runs in use in all; a run of the call's own may be extended. *)
Fixpoint lend_loop (fuel : nat) (va len done need n cap : Z) (own : list Loan) (m : MS Os)
  : Z * LendWhy * list Loan * MS Os :=
  match fuel with
  | O => (done, LEND_ALL, own, m)
  | S f =>
      if done <? len then
        let p := u64 (va + done) in
        let chunk := chunk_of p (len - done) in
        let '((h, _), m) := as_translate true p need m in
        let a := Z.land p A64_TBI_MASK in
        match h, as_find_region (regs m) a with
        | Some h, Some r =>
            if negb (h =? r_host r + (a - r_start r)) then (done, LEND_CUT, own, m)
            else
              let fresh :=
                if cap <=? n then (done, LEND_FULL, own, m)
                else lend_loop f va len (done + chunk) need (n + 1) cap
                       (mkLoan h chunk (r_hmap r) :: own)
                       (set_hm (r_hmap r) (fun x => hm_with_pins (hm_pins x + 1) x) m) in
              match own with
              | l :: own' =>
                  if (ln_pin l =? r_hmap r) && (ln_base l + ln_len l =? h)
                  then lend_loop f va len (done + chunk) need n cap
                         (mkLoan (ln_base l) (ln_len l + chunk) (ln_pin l) :: own') m
                  else fresh
              | [] => fresh
              end
        | _, _ => (done, LEND_CUT, own, m)
        end
      else (done, LEND_ALL, own, m)
  end.
Definition guest_lend (va len n cap : Z) (acc : AccType) (s : St (MS Os))
  : Z * LendWhy * list Loan * St (MS Os) :=
  let need := match acc with ACC_WRITE => PTE_W | _ => PTE_R end in
  if uaddr_tag_refused va (s_tls s) then (0, LEND_CUT, [], s)
  else let '(d, w, own, m) := lend_loop (copy_fuel len) va len 0 need n cap [] (s_mem s) in
       (d, w, rev own, upd_mem (fun _ => m) s).

Definition unlend_one (h : Z) (m : MS Os) : MS Os :=
  let m := set_hm h (fun x => hm_with_pins (hm_pins x - 1) x) m in
  if negb (hm_pins (hm_at m h) =? 0) || negb (hm_refs (hm_at m h) =? 0) then m
  else
    let m := upd_ms_as (upd_as_orphans (fun l => match list_find (eq h) l with
                                                | Some (k, _) => delete k l
                                                | None => l
                                                end)) m in
    free_hm h (as_retire (hm_base (hm_at m h)) (hm_len (hm_at m h)) m).
Definition guest_unlend (pins : list Z) (m : MS Os) : MS Os :=
  match pins with
  | [] => m
  | _ => as_drain_retired (fold_left (fun m h => unlend_one h m) pins m)
  end.

(** [copy_to_guest_code]: the bytes go to the backing, whatever the guest's
    permission, and the touched cache lines' translations are dropped. *)
Fixpoint copy_to_guest_code_walk (fuel : nat) (va : Z) (src : list Z) (last : Z) (nogrow : bool) (m : MS Os)
  : Z * Z * MS Os :=
  match fuel with
  | O => (0, last, m)
  | S f =>
      if Z.of_nat (length src) =? 0 then (0, last, m)
      else
        let a := Z.land va A64_TBI_MASK in
        let chunk := chunk_of a (Z.of_nat (length src)) in
        let '(r, m) :=
          match as_find_region (regs m) a with
          | Some r => (Some r, m)
          | None => let '(pte, m) := as_stack_grow nogrow a m in
                    (if pte =? 0 then None else as_find_region (regs m) a, m)
          end in
        match r with
        | None => (- EFAULT, last, m)
        | Some r =>
            if tr (r_shared r) && negb (has (r_prot r) PTE_W) then (- EIO, last, m)
            else
              let m := put_bytes (take (Z.to_nat chunk) src) (r_host r + (a - r_start r)) m in
              copy_to_guest_code_walk f (u64 (va + chunk)) (drop (Z.to_nat chunk) src) (a + chunk) nogrow m
        end
  end.
Definition copy_to_guest_code (va : Z) (src : list Z) (nogrow : bool) (m : MS Os) : Z * MS Os :=
  let first := Z.land va A64_TBI_MASK in
  let '(r, last, m) := copy_to_guest_code_walk (copy_fuel (Z.of_nat (length src))) va src first nogrow m in
  if r <? 0 then (r, m)
  else
    let lo := Z.land first (not64 63) in
    (0, jit_invalidate_range lo (Z.land (last + 63) (not64 63) - lo) m).

(** ** A host bus error on a file mapping: [as_bus_repair] *)

(** The guest address of the fault, if it was on a file mapping: the
    mapping's entries are dropped. [held] is the address-space lock being
    held by another thread. *)
Definition pte_drop_existing (addr len : Z) (m : MS Os) : MS Os :=
  upd_ms_gen (fun g => g + 1) (set_pt (fun t => pte_drop_loop (npages len) t addr) m).
Definition as_bus_repair (hostaddr : Z) (held : bool) (m : MS Os) : option Z * MS Os :=
  if held then (None, m)
  else match region_by_host_locked (regs m) hostaddr with
       | None => (None, m)
       | Some r =>
           let m := pte_drop_existing (r_start r) (r_end r - r_start r) m in
           let '(p, t) := jit_dtlb_reset (ms_gen m) (ms_pub m, ms_me m) in
           (Some (r_start r + (hostaddr - r_host r)),
            upd_ms_pub (fun _ => p) (upd_ms_me (fun _ => t) m))
       end.

End Space.
