(* ===== verification/AsSeam.v ===== *)
(** * AsSeam: the address space is a memory for the core

    The laws of [MemSeamOk] that the core's theorems rest on hold of mem.c's
    own [translate] on every address space of ordinary memory: no file
    mapping, no growing stack and no vfork tracking, with the D-TLB in any
    state the code can leave it in ([calm]). Such spaces are closed under
    every operation of the interface, so [CalmMem] is an instance, and the
    theorems about instructions are theorems about instructions running on
    mem.c. *)

From stdpp Require Import gmap.
From S2P Require Import Prelude Types Cpu CpuWf MemSeam PageTable Regions Epoch AsState AddrSpace Translate.

Section Calm.
Context {Os : Type} `{!HostOs Os}.
Implicit Types s : MS Os.

(** The D-TLB entries of the current generation are the page table's. *)
Definition tlb_entry_ok (t : PT) (i : Z) (e : Z * Z) : Prop :=
  dtlb_index (fst e) = i /\ (snd e <> 0 -> snd e = pte_get t (Z.shiftl (fst e) 12)).
#[global] Instance tlb_entry_ok_dec t i e : Decision (tlb_entry_ok t i e).
Proof. unfold tlb_entry_ok. apply _. Defined.
Definition coherent s : Prop :=
  t_dgen (ms_me s) = ms_gen s -> map_Forall (tlb_entry_ok (pt s)) (t_dtlb (ms_me s)).
#[global] Instance coherent_dec s : Decision (coherent s).
Proof. unfold coherent. apply _. Defined.

Record calm s : Prop := {
  cm_plain : Forall (fun r => r_hostmap r = 0 /\ r_growsdown r = 0) (regs s);
  cm_track : vf_track (ms_vf s) = false;
  cm_gen : ms_gen s <> 0;
  cm_tlb : coherent s
}.
#[global] Instance calm_dec s : Decision (calm s).
Proof.
  destruct (decide (Forall (fun r => r_hostmap r = 0 /\ r_growsdown r = 0) (regs s))) as [H1|H1];
    [|right; by intros []].
  destruct (decide (vf_track (ms_vf s) = false)) as [H2|H2]; [|right; by intros []].
  destruct (decide (ms_gen s <> 0)) as [H3|H3]; [|right; by intros []].
  destruct (decide (coherent s)) as [H4|H4]; [|right; by intros []].
  left. by split.
Defined.

(** ** The cold paths that a calm space does not take *)
Lemma find_plain rs va r : Forall (fun r => r_hostmap r = 0 /\ r_growsdown r = 0) rs ->
  as_find_region rs va = Some r -> r_hostmap r = 0.
Proof. rewrite list.Forall_forall. intros HF [Hr _]%find_region_some. by apply HF. Qed.
Lemma calm_fill va s : calm s -> as_fault_fill va s = (0, s).
Proof.
  intros Hc. unfold as_fault_fill. destruct (as_find_region (regs s) va) as [r|] eqn:E; [|done].
  by rewrite (find_plain _ _ _ (cm_plain s Hc) E).
Qed.
Lemma first_above_in rs i va j r : first_above rs i va = Some (j, r) -> r ∈ rs.
Proof.
  revert i. induction rs as [|q rs IH]; intros i; [done|]. simpl. destruct (r_end q <=? va).
  - intros H. right. by apply (IH (S i)).
  - intros [= _ <-]. by left.
Qed.
Lemma calm_grow g va s : calm s -> as_stack_grow g va s = (0, s).
Proof.
  intros Hc. unfold as_stack_grow, as_stack_grows_to. destruct g; [done|].
  destruct (first_above (regs s) 0 va) as [[i r]|] eqn:E; [|done].
  apply first_above_in in E. pose proof (cm_plain s Hc) as HF. rewrite list.Forall_forall in HF.
  destruct (HF r E) as [_ H0]. by rewrite H0.
Qed.
Lemma calm_walk g va s : calm s ->
  walk_miss g va s = (pte_get (pt s) va, if pte_get (pt s) va =? 0 then s else tlb_fill va (pte_get (pt s) va) s).
Proof.
  intros Hc. unfold walk_miss. destruct (Z.eqb_spec (pte_get (pt s) va) 0) as [E|E]; cbn zeta.
  - rewrite E, calm_fill by done. simpl. by rewrite calm_grow.
  - apply Z.eqb_neq in E. cbn beta iota. rewrite E. cbn beta iota. by rewrite E.
Qed.

(** [as_write_heal] in a calm space: it mends the entry it finds, or nothing. *)
Definition healable (va : Z) s : bool :=
  let pte := pte_get (pt s) (page_of va) in
  negb (pte =? 0) && negb (has pte PTE_W) &&
  match as_find_region (regs s) (page_of va) with
  | Some r => negb (tr (r_shared r)) && has (r_prot r) PTE_W
  | None => false
  end.
Definition healed (va : Z) s : MS Os :=
  set_pt (fun t => pte_store t (page_of va) (Z.lor (pte_get (pt s) (page_of va)) PTE_W)) s.
Lemma calm_heal va s : calm s ->
  as_write_heal va s = if healable va s then (Z.lor (pte_get (pt s) (page_of va)) PTE_W, healed va s) else (0, s).
Proof.
  intros Hc. unfold as_write_heal, healable, healed. cbn zeta. rewrite (cm_track s Hc).
  destruct (negb (pte_get (pt s) (page_of va) =? 0) && negb (has (pte_get (pt s) (page_of va)) PTE_W)); [|done].
  cbn [andb]. destruct (as_find_region (regs s) (page_of va)) as [r|]; [|done].
  by destruct (negb (tr (r_shared r)) && has (r_prot r) PTE_W).
Qed.

(** ** Calm is kept *)
Lemma page_shiftl q va : Z.shiftr va 12 = q -> page (Z.shiftl q 12) = page va.
Proof. intros <-. unfold page. by rewrite Z.shiftr_shiftl_l. Qed.
Lemma page_page_of va : 0 <= va < GUEST_TASK_SIZE -> page (page_of va) = page va.
Proof.
  intros Hva. unfold page, page_of. rewrite Z.shiftr_land. change (Z.shiftr (not64 GUEST_PAGE_MASK) 12) with (Z.ones 52).
  change GUEST_TASK_SIZE with (2 ^ 47) in Hva. rewrite Z.land_ones, Z.mod_small; [done| |lia].
  rewrite Z.shiftr_div_pow2 by lia. change (2 ^ 12) with 4096. change (2 ^ 52) with 4503599627370496. wsolve.
Qed.
Lemma calm_sync s : calm s -> calm (tlb_sync s) /\ t_dgen (ms_me (tlb_sync s)) = ms_gen (tlb_sync s) /\
  pt (tlb_sync s) = pt s /\ ms_mem (tlb_sync s) = ms_mem s /\ regs (tlb_sync s) = regs s.
Proof.
  intros [H1 H2 H3 H4]. unfold tlb_sync.
  destruct (sync_spec (ms_gen s) (ms_pub s) (ms_me s)) as [Hg Ho].
  destruct (dtlb_sync (ms_gen s) (ms_pub s, ms_me s)) as [p t]. simpl in Hg, Ho. split; [|done].
  split; [done|done|done|]. unfold coherent; simpl. intros _.
  destruct Ho as [[E [= -> ->]]|[_ ->]]; [by apply H4|apply map_Forall_empty].
Qed.
Lemma calm_fill_tlb va pte s : calm s -> pte = pte_get (pt s) va -> calm (tlb_fill va pte s).
Proof.
  intros [H1 H2 H3 H4] Hp. split; [done|done|done|]. unfold coherent; simpl. intros E. specialize (H4 E).
  apply map_Forall_insert_2; [|done]. split; [done|]. simpl. intros _. rewrite Hp.
  apply pte_get_page. symmetry. by apply page_shiftl.
Qed.
Lemma pte_store_get t va v va' : pte_get t va <> 0 -> v <> 0 ->
  pte_get (pte_store t va v) va' = upd_page (pte_get t) va v va'.
Proof.
  intros Hn Hv. unfold pte_store. destruct (pt_l1 t !! L1_IDX va) as [l2|] eqn:E.
  - apply (tab_upd _ _ l2); [done|]. intros j. unfold l2_at, l2_store; cbn [l2_e].
    rewrite (proj2 (Z.eqb_neq v 0) Hv). destruct (Z.eqb_spec (L2_IDX va) j) as [<-|Hj].
    + by rewrite lookup_insert_eq.
    + by rewrite lookup_insert_ne.
  - unfold pte_get in Hn. by rewrite E in Hn.
Qed.
(** A healed entry and its D-TLB slot change together. *)
Lemma calm_healed va s : calm s -> 0 <= va < GUEST_TASK_SIZE -> healable va s = true ->
  calm (tlb_fill va (Z.lor (pte_get (pt s) (page_of va)) PTE_W) (healed va s)).
Proof.
  intros [H1 H2 H3 H4] Hva Hh. split; [done|done|done|]. unfold coherent; simpl. intros E. specialize (H4 E).
  unfold healable in Hh. cbn zeta in Hh. apply andb_true_iff in Hh as [[Hn _]%andb_true_iff _].
  apply negb_true_iff, Z.eqb_neq in Hn. set (pte := pte_get (pt s) (page_of va)) in *.
  assert (Hv : Z.lor pte PTE_W <> 0) by (intros [H0 _]%Z.lor_eq_0_iff; done).
  pose proof (fun va' => pte_store_get (pt s) (page_of va) _ va' Hn Hv) as Hg.
  change (pt (healed va s)) with (pte_store (pt s) (page_of va) (Z.lor pte PTE_W)).
  apply map_Forall_lookup. intros i [q x] [[<- [= <- <-]]|[Hi Hq]]%lookup_insert_Some.
  - split; [done|]. simpl. intros _. rewrite Hg. unfold upd_page.
    by rewrite (page_shiftl _ _ (eq_refl (Z.shiftr va 12))), page_page_of, Z.eqb_refl.
  - destruct (map_Forall_lookup_1 _ _ _ _ H4 Hq) as [Ei Ex]. split; [done|]. simpl in *. intros Hx.
    rewrite (Ex Hx), Hg. unfold upd_page. destruct (Z.eqb_spec (page (page_of va)) (page (Z.shiftl q 12))) as [Eq|]; [|done].
    exfalso. apply Hi. rewrite <- Ei. f_equal. rewrite page_page_of in Eq by done. unfold page in Eq.
    by rewrite Z.shiftr_shiftl_l in Eq.
Qed.

(** ** What [translate] does in a calm space *)
Definition synced s : Prop := t_dgen (ms_me s) = ms_gen s.
Lemma sync_id s : synced s -> tlb_sync s = s.
Proof.
  unfold synced, tlb_sync, dtlb_sync. intros ->. rewrite Z.eqb_refl. by destruct s.
Qed.
Lemma data_va_range va need : 0 <= data_va va need.
Proof.
  unfold data_va. pose proof (fits_u64 va) as Hu. unfold fits in Hu. destruct (need =? PTE_X); [lia|].
  apply Z.land_nonneg. by right.
Qed.
Lemma hit_coherent s q pte : calm s -> synced s -> dtlb_hit (ms_me s) q = Some pte ->
  pte <> 0 /\ pte = pte_get (pt s) (Z.shiftl q 12).
Proof.
  intros Hc Hs. unfold dtlb_hit. destruct (t_dtlb (ms_me s) !! dtlb_index q) as [[q' x]|] eqn:E; [|done].
  destruct (negb (x =? 0) && (q' =? q)) eqn:Eb; [|done]. intros [= <-].
  apply andb_true_iff in Eb as [E0%negb_true_iff%Z.eqb_neq ->%Z.eqb_eq].
  destruct (map_Forall_lookup_1 _ _ _ _ (cm_tlb s Hc Hs) E) as [_ Hx]. auto.
Qed.
Lemma hit_filled s va pte : pte <> 0 -> dtlb_hit (ms_me (tlb_fill va pte s)) (Z.shiftr va 12) = Some pte.
Proof.
  intros Hp. unfold dtlb_hit, tlb_fill; simpl. rewrite lookup_insert_eq, Z.eqb_refl.
  by rewrite (proj2 (Z.eqb_neq pte 0)).
Qed.

(** The entry of [a] in hand and cached, before the permission is judged. *)
Definition at_entry (a : Z) s s1 (pte : Z) : Prop :=
  calm s1 /\ synced s1 /\ ms_mem s1 = ms_mem s /\ pte = pte_get (pt s1) a /\
  (pte <> 0 -> dtlb_hit (ms_me s1) (Z.shiftr a 12) = Some pte).
Lemma calm_entry g a s : calm s ->
  let r := match dtlb_hit (ms_me (tlb_sync s)) (Z.shiftr a 12) with
           | Some pte => (pte, tlb_sync s)
           | None => walk_miss g a (tlb_sync s)
           end in at_entry a s (snd r) (fst r).
Proof.
  intros Hc. cbn zeta. destruct (calm_sync s Hc) as (Hc1 & Hg & _ & Hm & _). set (s1 := tlb_sync s) in *.
  destruct (dtlb_hit (ms_me s1) (Z.shiftr a 12)) as [pte|] eqn:E.
  - destruct (hit_coherent s1 _ _ Hc1 Hg E) as [Hn Hp]. simpl. split; [done|]. split; [done|]. split; [done|].
    split; [|done]. rewrite Hp. apply pte_get_page. by apply page_shiftl.
  - rewrite calm_walk by done. destruct (Z.eqb_spec (pte_get (pt s1) a) 0) as [E0|E0]; simpl.
    + by split.
    + split; [by apply calm_fill_tlb|]. split; [done|]. split; [done|]. split; [done|]. intros _. by apply hit_filled.
Qed.

(** The outcomes of a translation. *)
Inductive outcome_of (need a : Z) s : (option Z * bool) * MS Os -> Prop :=
  | O_range : GUEST_TASK_SIZE <= a -> outcome_of need a s ((None, false), s)
  | O_miss s1 : a < GUEST_TASK_SIZE -> at_entry a s s1 0 -> outcome_of need a s ((None, false), s1)
  | O_ok s1 pte : a < GUEST_TASK_SIZE -> at_entry a s s1 pte -> pte <> 0 -> Z.land pte need = need ->
      outcome_of need a s ((Some (host_of pte a), false), s1)
  | O_perm s1 pte : a < GUEST_TASK_SIZE -> at_entry a s s1 pte -> pte <> 0 -> Z.land pte need <> need ->
      (need = PTE_W -> healable a s1 = false) -> outcome_of need a s ((None, true), s1)
  | O_heal s1 pte : a < GUEST_TASK_SIZE -> at_entry a s s1 pte -> pte <> 0 -> Z.land pte need <> need ->
      need = PTE_W -> healable a s1 = true ->
      outcome_of need a s ((Some (host_of (Z.lor pte PTE_W) a), false),
                           tlb_fill a (Z.lor pte PTE_W) (healed a s1)).
Lemma calm_translate g va need s : calm s ->
  outcome_of need (data_va va need) s (as_translate g va need s).
Proof.
  intros Hc. unfold as_translate. set (a := data_va va need). pose proof (data_va_range va need) as Ha. fold a in Ha.
  destruct (GUEST_TASK_SIZE <=? a) eqn:Er; [apply O_range; lia|]. cbn zeta.
  pose proof (calm_entry g a s Hc) as He. cbn zeta in He.
  destruct (match dtlb_hit _ _ with Some _ => _ | None => _ end) as [pte s1]. simpl in He.
  destruct (Z.eqb_spec pte 0) as [->|Hn]; [apply O_miss; [lia|done]|].
  destruct (Z.eqb_spec (Z.land pte need) need) as [E|E]; [apply O_ok; try done; lia|].
  pose proof He as (Hc1 & _ & _ & Hp & _).
  destruct (Z.eqb_spec need PTE_W) as [Ew|Ew].
  - rewrite calm_heal by done. destruct (healable a s1) eqn:Eh.
    + assert (Eg : pte_get (pt s1) (page_of a) = pte).
      { rewrite Hp. apply pte_get_page, page_page_of. lia. }
      assert (Hv : Z.lor pte PTE_W <> 0) by (intros [H0 _]%Z.lor_eq_0_iff; done).
      rewrite Eg, (proj2 (Z.eqb_neq _ _) Hv).
      apply O_heal; try done; lia.
    + rewrite Z.eqb_refl. apply (O_perm _ _ _ _ pte); try done; lia.
  - rewrite Z.eqb_refl. apply (O_perm _ _ _ _ pte); try done; lia.
Qed.

(** A translation that succeeds leaves its entry in the D-TLB. *)
Lemma calm_some g va need s p b s' : calm s -> as_translate g va need s = ((Some p, b), s') ->
  exists pte, b = false /\ calm s' /\ synced s' /\ ms_mem s' = ms_mem s /\ data_va va need < GUEST_TASK_SIZE /\
    dtlb_hit (ms_me s') (Z.shiftr (data_va va need) 12) = Some pte /\
    Z.land pte need = need /\ p = host_of pte (data_va va need) /\ pte <> 0.
Proof.
  intros Hc E. pose proof (calm_translate g va need s Hc) as H. rewrite E in H.
  pose proof (data_va_range va need) as Ha. set (a := data_va va need) in *.
  inversion H as [| |s1 pte Hr (C1 & C2 & C3 & C4 & C5) Hn Hl| |s1 pte Hr (C1 & C2 & C3 & C4 & C5) Hn Hl Hw Hh]; subst.
  - exists (pte_get (pt s') a). split; [done|]. split; [done|]. auto 10.
  - assert (Ep : pte_get (pt s1) (page_of a) = pte_get (pt s1) a) by (apply pte_get_page, page_page_of; lia).
    pose proof (calm_healed a s1 C1 ltac:(lia) Hh) as Hc2. rewrite Ep in Hc2.
    exists (Z.lor (pte_get (pt s1) a) PTE_W). split; [done|]. split; [done|]. split; [exact C2|].
    split; [exact C3|]. split; [done|]. assert (Hv : Z.lor (pte_get (pt s1) a) PTE_W <> 0) by (intros [H0 _]%Z.lor_eq_0_iff; done).
    split; [by apply hit_filled|]. split; [|by split].
    apply Z.bits_inj'. intros n _. rewrite Z.land_spec, Z.lor_spec. by destruct (Z.testbit _ n), (Z.testbit PTE_W n).
Qed.
(** And a translation of a page in the D-TLB answers from there. *)
Lemma hit_translate g va need s pte : synced s -> data_va va need < GUEST_TASK_SIZE ->
  dtlb_hit (ms_me s) (Z.shiftr (data_va va need) 12) = Some pte -> pte <> 0 -> Z.land pte need = need ->
  as_translate g va need s = ((Some (host_of pte (data_va va need)), false), s).
Proof.
  intros Hs Hr Hh Hn Hl. unfold as_translate. rewrite (proj2 (Z.leb_gt _ _)) by lia.
  rewrite sync_id, Hh by done. cbn zeta beta iota. by rewrite (proj2 (Z.eqb_neq pte 0)), Hl, Z.eqb_refl.
Qed.

(** Two addresses of one page. *)
Lemma same_page_off va va' : Z.shiftr va 12 = Z.shiftr va' 12 ->
  page_off va' - page_off va = va' - va.
Proof.
  rewrite !Z.shiftr_div_pow2 by lia. unfold page_off. change GUEST_PAGE_MASK with (Z.ones 12).
  rewrite !Z.land_ones by lia. pose proof (Z.div_mod va (2 ^ 12)). pose proof (Z.div_mod va' (2 ^ 12)). lia.
Qed.
Lemma data_va_page va va' need : Z.shiftr va 12 = Z.shiftr va' 12 ->
  Z.shiftr (data_va va need) 12 = Z.shiftr (data_va va' need) 12.
Proof.
  intros E. assert (Eu : Z.shiftr (u64 va) 12 = Z.shiftr (u64 va') 12).
  { unfold u64. rewrite <- !Z.land_ones, !Z.shiftr_land by lia. by rewrite E. }
  unfold data_va. destruct (need =? PTE_X); [done|]. by rewrite !Z.shiftr_land, Eu.
Qed.
Lemma data_va_off va need : page_off (data_va va need) = page_off va.
Proof.
  unfold data_va, page_off. change GUEST_PAGE_MASK with (Z.ones 12). unfold u64. rewrite <- Z.land_ones by lia.
  change A64_TBI_MASK with (Z.ones 56). destruct (need =? PTE_X); rewrite <- !Z.land_assoc; done.
Qed.
(** A page below the task's end has no tag. *)
Lemma data_va_need va need need' : data_va va need < GUEST_TASK_SIZE -> data_va va need' < GUEST_TASK_SIZE ->
  data_va va need = data_va va need'.
Proof.
  assert (Hx : u64 va < GUEST_TASK_SIZE -> Z.land (u64 va) A64_TBI_MASK = u64 va).
  { intros H. pose proof (fits_u64 va) as [H0 _]. change GUEST_TASK_SIZE with (2 ^ 47) in H.
    change A64_TBI_MASK with (Z.ones 56). rewrite Z.land_ones, Z.mod_small by lia. done. }
  unfold data_va. destruct (need =? PTE_X), (need' =? PTE_X); intros H1 H2; rewrite ?Hx by done; done.
Qed.
Lemma host_lor_W pte : pte_host (Z.lor pte PTE_W) = pte_host pte.
Proof.
  unfold pte_host. rewrite Z.land_lor_distr_l. change (Z.land PTE_W (not64 PTE_FLAGS)) with 0. apply Z.lor_0_r.
Qed.

(** ** The laws *)
Lemma calm_again g va va' need s p b s' : calm s -> as_translate g va need s = ((Some p, b), s') ->
  Z.shiftr va 12 = Z.shiftr va' 12 -> as_translate g va' need s' = ((Some (p + (va' - va)), false), s').
Proof.
  intros Hc E Hp. destruct (calm_some g va need s p b s' Hc E) as (pte & -> & H1 & H2 & H3 & H4 & H5 & H6 & H7 & H8).
  pose proof (data_va_page va va' need Hp) as Hd.
  rewrite (hit_translate g va' need s' pte); try done; [|..|by rewrite <- Hd].
  - do 3 f_equal. rewrite H7. unfold host_of. rewrite !data_va_off. pose proof (same_page_off va va' Hp). lia.
  - pose proof (data_va_range va' need). revert H4. change GUEST_TASK_SIZE with (2 ^ 35 * 2 ^ 12).
    rewrite !Z.shiftr_div_pow2 in Hd by lia. intros. wsolve.
Qed.
Lemma calm_host g g' va va' need need' s p b s' q b' s'' : calm s ->
  as_translate g va need s = ((Some p, b), s') -> Z.shiftr va 12 = Z.shiftr va' 12 ->
  as_translate g' va' need' s' = ((Some q, b'), s'') -> q = p + (va' - va).
Proof.
  intros Hc E Hp E'. destruct (calm_some g va need s p b s' Hc E) as (pte & -> & H1 & H2 & H3 & H4 & H5 & H6 & H7 & H8).
  destruct (calm_some g' va' need' s' q b' s'' H1 E') as (_ & _ & _ & _ & _ & R4 & _).
  assert (Hd : Z.shiftr (data_va va need) 12 = Z.shiftr (data_va va' need') 12).
  { rewrite (data_va_page va va' need Hp). f_equal. apply data_va_need; [|done].
    pose proof (data_va_page va va' need Hp) as Hd. revert H4. change GUEST_TASK_SIZE with (2 ^ 35 * 2 ^ 12).
    pose proof (data_va_range va' need). rewrite !Z.shiftr_div_pow2 in Hd by lia. intros. wsolve. }
  set (a := data_va va need) in *. set (a' := data_va va' need') in *.
  assert (Hh : q = pte_host pte + page_off a').
  { destruct (hit_coherent s' _ _ H1 H2 H5) as [_ Hx].
    unfold as_translate in E'. fold a' in E'. rewrite (proj2 (Z.leb_gt _ _)) in E' by lia.
    rewrite sync_id, <- Hd, H5 in E' by done. cbn zeta beta iota in E'. rewrite (proj2 (Z.eqb_neq pte 0)) in E' by done.
    destruct (Z.land pte need' =? need'); [by injection E' as <- _ _|].
    destruct (need' =? PTE_W); [|done]. rewrite calm_heal in E' by done.
    assert (Ep : pte_get (pt s') (page_of a') = pte).
    { rewrite Hx. apply pte_get_page. pose proof (data_va_range va' need') as Ha'. fold a' in Ha'.
      rewrite (page_page_of a') by lia. symmetry. by apply page_shiftl. }
    rewrite Ep in E'. destruct (healable a' s'); [|done].
    destruct (Z.lor pte PTE_W =? 0); [done|]. injection E' as <- _ _. unfold host_of. by rewrite host_lor_W. }
  rewrite Hh, H7. unfold host_of, a, a'. rewrite !data_va_off. pose proof (same_page_off va va' Hp). lia.
Qed.

(** Host bytes are no part of a translation. *)
Lemma calm_mem f s : calm s -> calm (upd_ms_mem f s).
Proof. by intros []. Qed.
Lemma calm_put g va need f s : calm s -> as_translate g va need (upd_ms_mem f s) =
  (fst (as_translate g va need s), upd_ms_mem f (snd (as_translate g va need s))).
Proof.
  intros Hc. unfold as_translate. set (a := data_va va need). destruct (GUEST_TASK_SIZE <=? a); [done|]. cbn zeta.
  assert (Es : tlb_sync (upd_ms_mem f s) = upd_ms_mem f (tlb_sync s)).
  { unfold tlb_sync. cbn [ms_gen ms_pub ms_me upd_ms_mem]. by destruct (dtlb_sync _ _). }
  destruct (calm_sync s Hc) as (Hc1 & _). rewrite Es. set (s1 := tlb_sync s) in *.
  change (ms_me (upd_ms_mem f s1)) with (ms_me s1).
  set (e := match dtlb_hit (ms_me s1) (Z.shiftr a 12) with Some pte => (pte, s1) | None => walk_miss g a s1 end).
  assert (Ee : match dtlb_hit (ms_me s1) (Z.shiftr a 12) with
               | Some pte => (pte, upd_ms_mem f s1) | None => walk_miss g a (upd_ms_mem f s1) end
               = (fst e, upd_ms_mem f (snd e)) /\ calm (snd e)).
  { unfold e. destruct (dtlb_hit _ _); [done|]. rewrite !calm_walk by (done || by apply calm_mem).
    change (pt (upd_ms_mem f s1)) with (pt s1). destruct (_ =? 0); [done|]. split; [done|]. by apply calm_fill_tlb. }
  destruct Ee as [-> Hc2]. destruct e as [pte s2]. cbn [fst snd] in *.
  destruct (pte =? 0); [done|]. destruct (Z.land pte need =? need); [done|].
  destruct (need =? PTE_W); [|done]. rewrite !calm_heal by (done || by apply calm_mem).
  change (healable a (upd_ms_mem f s2)) with (healable a s2). destruct (healable a s2); [|done].
  change (pt (upd_ms_mem f s2)) with (pt s2). by destruct (_ =? 0).
Qed.
(** Every translation keeps the space calm and its bytes as they were. *)
Lemma calm_keeps g va need s : calm s ->
  calm (snd (as_translate g va need s)) /\ ms_mem (snd (as_translate g va need s)) = ms_mem s.
Proof.
  intros Hc. pose proof (data_va_range va need) as Ha.
  destruct (calm_translate g va need s Hc) as [|s1 _ H|s1 pte _ H|s1 pte _ H|s1 pte Hr H Hn _ _ Hh];
    [done|by destruct H as (? & _ & ? & _)..|].
  destruct H as (H1 & _ & H3 & Hp & _). simpl. split; [|done].
  assert (Eg : pte_get (pt s1) (page_of (data_va va need)) = pte).
  { rewrite Hp. apply pte_get_page, page_page_of. lia. }
  pose proof (calm_healed (data_va va need) s1 H1 ltac:(lia) Hh) as H. by rewrite Eg in H.
Qed.
Lemma calm_fc f s : calm s -> calm (upd_ms_me (with_fc f) s).
Proof. intros [H1 H2 H3 H4]. by split. Qed.
Lemma calm_flush s : calm s -> calm (flush_me s).
Proof. intros [H1 H2 H3 H4]. split; [done|done|done|]. unfold coherent; simpl. intros E. by rewrite <- E in H3. Qed.

(** ** The instance *)
Definition CalmMem : Type := { s : MS Os | bool_decide (calm s) = true }.
Definition to_calm s (H : calm s) : CalmMem := exist _ s (bool_decide_eq_true_2 _ H).
Definition is_calm (m : CalmMem) : calm (`m) := bool_decide_eq_true_1 _ (proj2_sig m).
Lemma calm_mem_eq (m m' : CalmMem) : `m = `m' -> m = m'.
Proof. intros E. apply (sig_eq_pi _). done. Qed.

#[global] Instance calm_seam : MemSeam CalmMem := {
  translate g va need m :=
    (fst (as_translate g va need (`m)), to_calm _ (proj1 (calm_keeps g va need (`m) (is_calm m))));
  va_is_file_hole va m := as_file_hole va (`m);
  host_get q m := ms_mem (`m) q;
  host_put q b m := to_calm _ (calm_mem (fun f a => if a =? q then b else f a) (`m) (is_calm m));
  fcache m := t_fc (ms_me (`m));
  set_fcache f m := to_calm _ (calm_fc f (`m) (is_calm m));
  tlb_flush_all m := to_calm _ (calm_flush (`m) (is_calm m))
}.
Lemma calm_pair g va need (m : CalmMem) r m' : translate g va need m = (r, m') ->
  as_translate g va need (`m) = (r, `m').
Proof. intros [= <- <-]. simpl. by destruct (as_translate g va need (`m)). Qed.
Lemma pair_calm g va need (m : CalmMem) r m' : as_translate g va need (`m) = (r, `m') ->
  translate g va need m = (r, m').
Proof.
  intros E. apply (f_equal2 pair); [exact (f_equal fst E)|]. apply calm_mem_eq. exact (f_equal snd E).
Qed.
#[global] Instance calm_seam_ok : MemSeamOk CalmMem.
Proof.
  split.
  - intros g va va' need m p b m' E%calm_pair Hp. pose proof (calm_again _ _ _ _ _ _ _ _ (is_calm m) E Hp) as H.
    by apply pair_calm.
  - intros g va need q b m. pose proof (calm_put g va need (fun f a => if a =? q then b else f a) (`m) (is_calm m)) as H.
    by apply pair_calm.
  - intros g g' va va' need need' m p b m' q b' m'' E%calm_pair Hp E'%calm_pair.
    by apply (calm_host _ _ _ _ _ _ _ _ _ _ _ _ _ (is_calm m) E Hp E').
  - intros g va need q m. simpl. by rewrite (proj2 (calm_keeps g va need (`m) (is_calm m))).
  - intros q b m _. simpl. by rewrite Z.eqb_refl.
  - intros q q' b m Hne. simpl. by rewrite (proj2 (Z.eqb_neq q' q)).
Qed.
End Calm.
