(* ===== verification/AsGrow.v ===== *)
(** * AsGrow: stacks

    A stack is made with room below it and grows down over that room, over
    host addresses taken below its allocation, or in a piece of backing of
    its own (mem.c, guest_map_stack, as_stack_extend). The pages it grows
    over read as zeroes, whatever an earlier slice left there, nothing mapped
    moves or changes, and the invariant of the address space is kept. *)

From stdpp Require Import gmap.
From S2P Require Import Prelude Types Cpu MemSeam PageTable Regions Epoch AsState AddrSpace AsInv AsSteps AsThms Translate.

Section Grow.
Context {Os : Type} `{!HostOs Os} `{!HostOsOk Os}.
Implicit Types s : MS Os.

(** ** Steps of the host alone *)
Record host_step s s' : Prop := {
  hs_as : ms_as s' = ms_as s;
  hs_hms : ms_hmaps s' = ms_hmaps s;
  hs_next : ms_next s' = ms_next s;
  hs_gen : ms_gen s' = ms_gen s;
  hs_vf : ms_vf s' = ms_vf s;
  hs_env : ms_env s' = ms_env s;
  hs_live a : live (ms_maps s) a = true -> live (ms_maps s') a = true;
  hs_mem a : live (ms_maps s) a = true -> ms_mem s' a = ms_mem s a
}.
Lemma host_step_refl s : host_step s s.
Proof. by split. Qed.
Lemma host_step_trans s1 s2 s3 : host_step s1 s2 -> host_step s2 s3 -> host_step s1 s3.
Proof.
  intros [] []. split; try congruence; auto. intros a Ha. rewrite hs_mem1, hs_mem0; auto.
Qed.
Lemma host_step_os o s : host_step s (upd_ms_os (fun _ => o) s).
Proof. by split. Qed.
Lemma all_live_step s s' p n : host_step s s' -> all_live (ms_maps s) p n -> all_live (ms_maps s') p n.
Proof. intros Hs H a Ha. by apply (hs_live _ _ Hs), H. Qed.
Lemma hinv_host s s' : host_step s s' -> hinv s -> hinv s'.
Proof.
  intros Hs [H1 H2 H3 H4 H5 H6 H7]. destruct (Hs) as [E1 E2 E3 E4 _ _ _ _].
  assert (Er : regs s' = regs s) by (unfold regs; by rewrite E1). split.
  - by rewrite Er.
  - by rewrite Er, E2.
  - intros h hm. rewrite E2. intros Hh. destruct (H3 h hm Hh).
    split; rewrite ?Er, ?E1, ?E3; try done. by apply (all_live_step s).
  - rewrite E2. apply H4.
  - rewrite E1, E2. apply H5.
  - rewrite E1. apply (list.Forall_impl _ _ _ H6). intros q [Q1 Q2 Q3 Q4].
    split; rewrite ?E2, ?E4; try done. by apply (all_live_step s).
  - by rewrite E1.
Qed.
(** Owned memory keeps its bytes. *)
Lemma owned_bytes s s' p n a : hinv s -> host_step s s' -> owned s p n -> p <= a < p + n ->
  ms_mem s' a = ms_mem s a.
Proof. intros Hi Hs Ho Ha. apply (hs_mem _ _ Hs). destruct (owned_live s p n Hi Ho) as [Hl _]. by apply Hl. Qed.
Lemma as_inv_host s s' : host_step s s' -> as_inv s -> as_inv s' /\ same_view s s'.
Proof.
  intros Hs Hi. assert (Er : regs s' = regs s) by (unfold regs; by rewrite (hs_as _ _ Hs)).
  assert (Ep : pt s' = pt s) by (unfold pt; by rewrite (hs_as _ _ Hs)).
  split; [apply (as_inv_view s); [done|apply (hinv_host s); [done|apply Hi]|rewrite Ep; apply Hi|by rewrite Er|by rewrite Ep]|].
  split; [by rewrite Er|by rewrite Ep|]. intros va. unfold guest_byte. rewrite Er.
  destruct (look (regs s) va) as [v|] eqn:E; [|done]. simpl. f_equal.
  destruct (look_owned s va v (ai_heap s Hi) E) as (p & n & Ho & Ha). by apply (owned_bytes s s' p n _ (ai_heap s Hi)).
Qed.

(** A fresh anonymous mapping, and one given back at once. *)
Lemma fresh_step s p n o : fresh_rng (ms_maps s) p n ->
  let s1 := upd_ms_mem (zero_bytes p n) (upd_ms_maps (cons (p, n)) (upd_ms_os (fun _ => o) s)) in
  host_step s s1 /\ (forall a, p <= a < p + n -> ms_mem s1 a = 0) /\
  forall o', host_step s (host_munmap p n (upd_ms_os (fun _ => o') s1)).
Proof.
  intros (F1 & F2 & F3 & F4). cbn zeta.
  assert (Hm : forall a, live (ms_maps s) a = true -> zero_bytes p n (ms_mem s) a = ms_mem s a).
  { intros a Ha. unfold zero_bytes. destruct ((p <=? a) && (a <? p + n)) eqn:E; [|done].
    rewrite F4 in Ha by lia. done. }
  split; [|split].
  - split; try done. simpl. intros a Ha. apply orb_true_iff. by right.
  - intros a Ha. simpl. unfold zero_bytes. by rewrite (proj2 (andb_true_iff _ _)) by lia.
  - intros o'. split; try done. intros a Ha. cbn [ms_maps host_munmap upd_ms_maps upd_ms_mem upd_ms_os].
    rewrite live_munmap, live_cons, Ha, orb_true_r. apply negb_true_iff, andb_false_iff.
    destruct (decide (p <= a < p + n)); [|lia]. rewrite F4 in Ha by done. done.
Qed.
Lemma host_mmap_step n s : match host_mmap n s with
  | (None, s1) => host_step s s1
  | (Some p, s1) => fresh_rng (ms_maps s) p n /\ host_step s s1 /\ ms_maps s1 = (p, n) :: ms_maps s /\
      (forall a, p <= a < p + n -> ms_mem s1 a = 0) /\
      (forall o', host_step s (host_munmap p n (upd_ms_os (fun _ => o') s1)))
  end.
Proof.
  unfold host_mmap. destruct (os_mmap (ms_os s) (ms_maps s) n) as [[p|] o] eqn:E; [|apply host_step_os].
  pose proof (os_mmap_ok _ _ _ _ _ E) as Hf. destruct (fresh_step s p n o Hf) as (H1 & H2 & H3). done.
Qed.

(** ** Whole host pages *)
Lemma pagesz_pos : 0 < os_pagesz.
Proof. destruct os_pagesz_ok as (k & Hk & ->). lia. Qed.
Lemma land_hpm z : 0 <= z < 2 ^ 64 -> Z.land z (not64 (os_pagesz - 1)) = z - z mod os_pagesz.
Proof.
  destruct os_pagesz_ok as (k & Hk & E). rewrite E. intros Hz.
  replace (2 ^ k - 1) with (Z.ones k) by (rewrite Z.ones_equiv; lia). by apply land_not64_ones; [|lia].
Qed.
Lemma land_hpm_whole z : 0 <= z < 2 ^ 64 ->
  0 <= Z.land z (not64 (os_pagesz - 1)) <= z /\ Z.land z (not64 (os_pagesz - 1)) mod os_pagesz = 0.
Proof.
  intros Hz. rewrite land_hpm by done. pose proof pagesz_pos as Hp.
  pose proof (Z.mod_pos_bound z os_pagesz Hp). pose proof (Z.mod_le z os_pagesz ltac:(lia) Hp).
  split; [lia|]. rewrite Zminus_mod_idemp_r. by rewrite Z.sub_diag.
Qed.
Definition whole_pages (z : Z) : Prop := 0 <= z <= GROW_ROOM_MAX + os_pagesz /\ z mod os_pagesz = 0.
Lemma pagesz_small : os_pagesz <= 2 ^ 30.
Proof. destruct os_pagesz_ok as (k & Hk & ->). apply Z.pow_le_mono_r; lia. Qed.
Lemma stack_room_whole len s : 0 <= len -> whole_pages (stack_room len s).
Proof.
  intros Hl. unfold stack_room, whole_pages. cbn zeta. pose proof pagesz_pos. pose proof pagesz_small.
  change GROW_ROOM_MAX with (2 ^ 30). destruct (_ && _) eqn:E; [|split; [lia|by rewrite Z.mod_0_l by lia]].
  apply andb_true_iff in E as [E _]. change GROW_ROOM_MAX with (2 ^ 30) in E |- *.
  assert (Hb : 0 <= 2 ^ 30 - len + (os_pagesz - 1) < 2 ^ 64) by lia.
  destruct (land_hpm_whole _ Hb) as [H1 H2]. split; [lia|done].
Qed.

(** ** [stack_reserve] *)
Lemma stack_reserve_ok fuel room len s : whole_pages room -> 0 < len ->
  match stack_reserve fuel room len s with
  | (None, s') => host_step s s'
  | (Some (base, room'), s') => whole_pages room' /\ exists s1, host_step s s1 /\ host_step s1 s' /\
      fresh_rng (ms_maps s1) base (room' + len) /\ ms_maps s' = (base, room' + len) :: ms_maps s1 /\
      forall a, base <= a < base + (room' + len) -> ms_mem s' a = 0
  end.
Proof.
  revert room s. induction fuel as [|f IH]; intros room s Hw Hl; [apply host_step_refl|].
  simpl. set (hpm := os_pagesz - 1).
  assert (Hnext : forall s1, host_step s s1 ->
    match (if room =? 0 then (None, s1) else stack_reserve f (Z.land (room / 2) (not64 hpm)) len s1) with
    | (None, s') => host_step s s'
    | (Some (base, room'), s') => whole_pages room' /\ exists s1, host_step s s1 /\ host_step s1 s' /\
        fresh_rng (ms_maps s1) base (room' + len) /\ ms_maps s' = (base, room' + len) :: ms_maps s1 /\
        forall a, base <= a < base + (room' + len) -> ms_mem s' a = 0
    end).
  { intros s1 Hs. destruct (room =? 0) eqn:E0; [done|].
    assert (Hw' : whole_pages (Z.land (room / 2) (not64 hpm))).
    { destruct Hw as [Hw _]. change GROW_ROOM_MAX with (2 ^ 30) in Hw. pose proof pagesz_small.
      assert (Hq : 0 <= room / 2 <= room) by (split; [apply Z.div_pos; lia|apply Z.div_le_upper_bound; lia]).
      destruct (land_hpm_whole (room / 2) ltac:(lia)) as [H1 H2]. split; [fold hpm in H1; change GROW_ROOM_MAX with (2 ^ 30); lia|done]. }
    pose proof (IH _ s1 Hw' Hl) as H. destruct (stack_reserve f _ len s1) as [[[b r']|] s'].
    - destruct H as (H1 & s2 & H2 & H3). split; [done|]. exists s2. split; [by apply (host_step_trans _ s1)|done].
    - by apply (host_step_trans _ s1). }
  destruct (host_len_ok (room + len)); [|by apply Hnext, host_step_refl].
  pose proof (host_mmap_step (room + len) s) as Hm. destruct (host_mmap (room + len) s) as [[p|] s1]; [|by apply Hnext].
  destruct Hm as (Hf & H1 & H2 & H3 & H4). destruct (os_mprotect (ms_os s1) (p + room) len true) as [[] o].
  - split; [done|]. exists s. split; [apply host_step_refl|]. split; [|done].
    apply (host_step_trans _ s1); [done|apply host_step_os].
  - apply Hnext, H4.
Qed.

(** ** [guest_map_stack] *)
Lemma map_stack_impl_ok s addr len prot : as_inv s -> 0 <= addr -> 0 <= len -> fits 3 prot ->
  let '(rc, s') := guest_map_stack_impl addr len prot s in
  as_inv s' /\ ((rc = 0 /\ mapped_anon addr len prot s s') \/ (rc <> 0 /\ same_view s s')).
Proof.
  intros Hi Ha0 Hl0 Hp. unfold guest_map_stack_impl.
  destruct (misaligned _ || _ || _) eqn:Eg; [split; [done|]; by right|].
  destruct (map_guard addr len Ha0 Hl0 Eg) as (Ha & Hl & Hpos & Hr).
  destruct (negb (host_len_ok len)); [split; [done|]; by right|].
  pose proof (stack_reserve_ok RESERVE_FUEL (stack_room len s) len s (stack_room_whole len s Hl0) Hpos) as Hsr.
  destruct (stack_reserve _ _ len s) as [[[base room]|] s1].
  2: { destruct (as_inv_host s s1 Hsr Hi). split; [done|]. by right. }
  destruct Hsr as ([Hw1 Hw2] & s0 & Hs0 & Hs1 & Hf & Emaps & Hz).
  destruct (as_inv_host s s0 Hs0 Hi) as [Hi0 V0].
  destruct (fresh_then_punch s0 s1 base (room + len) addr len Hi0 ltac:(lia) Hf) as (I1 & I2 & I3 & I4 & I5);
    try done; try apply Hs1.
  set (s2 := region_punch addr (addr + len) s1) in *. cbn [hmap_new]. set (h := ms_next s2).
  set (x := mkHM base (room + len) 1 0 (base + room) (base + room) false).
  set (id := if _ =? 0 then 1 else _).
  set (r := mkRegion addr (addr + len) prot 0 0 1 (base + room) h None 0 0 0 0 0 0 0 0 1 id 0 0 0).
  set (s3 := upd_ms_as _ _). set (s4 := region_insert r s3).
  assert (Es : ms_hmaps s4 = <[h := x]> (ms_hmaps s2)).
  { change (ms_hmaps s4) with (match <[h := mkHM base (room + len) 1 0 base base false]> (ms_hmaps s2) !! h with
      | Some y => <[h := hm_with_fresh (base + room) (base + room) y]> (<[h := mkHM base (room + len) 1 0 base base false]> (ms_hmaps s2))
      | None => <[h := mkHM base (room + len) 1 0 base base false]> (ms_hmaps s2) end).
    by rewrite lookup_insert_eq, insert_insert_eq. }
  pose proof Hf as (F1 & F2 & F3%pagesz_aligned & F4).
  assert (Hra : aligned (base + room)) by (apply aligned_add; [done|by apply pagesz_aligned]).
  assert (Hrk : region_ok r) by (split; simpl; try done; try lia; by apply aligned_add).
  assert (Elen : r_len r = len) by (unfold r_len; simpl; lia).
  destruct (install_ok s0 s2 s4 x r) as (J1 & J2 & J3); try done;
    try (rewrite (ts_pt _ _ I3); unfold pt; by rewrite (hs_as _ _ Hs1)); try (rewrite Elen; simpl; lia); try (simpl; lia).
  rewrite Elen in *. change (r_start r) with addr in *.
  change (r_host r) with (base + room) in *. change (r_prot r) with prot in *.
  set (s5 := pte_set_range addr len (base + room) prot s4) in *.
  split; [done|]. left. split; [done|].
  assert (Hc : forall va, addr <= va < addr + len -> contains va r = true) by (intros; by apply contains_iff).
  assert (Em : ms_mem s5 = ms_mem s1) by (change (ms_mem s5) with (ms_mem s2); by rewrite (ts_mem _ _ I3)).
  split.
  - intros va Hva. rewrite J2, Hc by done. by eexists.
  - intros va Hva. rewrite J3, Hc by done. pose proof (pg_above va addr Ha).
    assert (Hh : aligned (base + room + (pg va - addr))) by (apply aligned_add; [done|apply aligned_sub; [apply pg_aligned|done]]).
    rewrite prot_join by (try apply aligned_flags0; done). split; [done|].
    pose proof (lor_pos (base + room + (pg va - addr)) prot ltac:(lia) ltac:(unfold fits in Hp; lia)). lia.
  - intros va Hva. unfold guest_byte. rewrite J2, Hc, Em by done. simpl. f_equal. apply Hz. lia.
  - intros va Hva. pose proof (proj2 (contains_false va r) ltac:(simpl; lia)) as Ec.
    rewrite J2, J3, Ec, (sv_look _ _ V0 va), (sv_pte _ _ V0 va). split; [done|]. split; [done|].
    rewrite <- (sv_byte _ _ V0 va). unfold guest_byte. rewrite J2, Em, Ec.
    destruct (look (regs s0) va) as [v|] eqn:El; [|done]. simpl. f_equal.
    destruct (look_owned s0 va v (ai_heap s0 Hi0) El) as (q & m & Ho & Hq).
    by apply (owned_bytes s0 s1 q m _ (ai_heap s0 Hi0)).
Qed.

(** ** Room below an allocation *)

(** Below [hm_fresh_hi] no slice of the allocation has been, and the bytes
    are the zeroes the host gave. *)
Definition fresh_ok s : Prop := forall h hm, ms_hmaps s !! h = Some hm ->
  hm_fresh_hi hm <= hm_base hm + hm_len hm /\
  (forall a, hm_base hm <= a < hm_fresh_hi hm -> ms_mem s a = 0) /\
  (forall r, r ∈ regs s -> r_hmap r = h -> hm_fresh_hi hm <= r_host r).

(** The allocation [h] of [s] taken down by [ext] fresh bytes. *)
Record extended (h ext : Z) (hm : HostMap) s s' : Prop := {
  ex_as : ms_as s' = ms_as s;
  ex_hms : ms_hmaps s' = <[h := hm_with_ext (hm_base hm - ext) (hm_len hm + ext) hm]> (ms_hmaps s);
  ex_maps : ms_maps s' = (hm_base hm - ext, ext) :: ms_maps s;
  ex_mem : ms_mem s' = zero_bytes (hm_base hm - ext) ext (ms_mem s);
  ex_next : ms_next s' = ms_next s;
  ex_gen : ms_gen s' = ms_gen s;
  ex_vf : ms_vf s' = ms_vf s;
  ex_env : ms_env s' = ms_env s;
  ex_pos : 0 < ext;
  ex_fresh : fresh_rng (ms_maps s) (hm_base hm - ext) ext
}.
Lemma extended_hinv h ext hm s s' : hinv s -> ms_hmaps s !! h = Some hm -> extended h ext hm s s' -> hinv s'.
Proof.
  intros Hi Eh [E1 E2 E3 _ E5 E6 _ _ Hx (F1 & F2 & _ & F4)]. set (hm' := hm_with_ext _ _ hm) in *.
  assert (Er : regs s' = regs s) by (unfold regs; by rewrite E1).
  pose proof (hi_hm s Hi h hm Eh) as [G1 G2 G3 G4 G5 G6].
  assert (Hlive : forall p n, all_live (ms_maps s) p n -> all_live (ms_maps s') p n)
    by (intros; rewrite E3; by apply all_live_cons).
  assert (Hd : forall q m, owned s q m -> disj (hm_base hm) (hm_len hm) q m -> disj (hm_base hm') (hm_len hm') q m).
  { intros q m Ho Hdj. destruct (owned_live s q m Hi Ho) as [Hl Hm].
    pose proof (free_disj _ _ _ _ _ F4 Hl Hx Hm). unfold disj in *. simpl. lia. }
  split.
  - rewrite Er. apply Hi.
  - rewrite Er. apply (list.Forall_impl _ _ _ (hi_back s Hi)). intros r (k & Ek & B1 & B2).
    destruct (decide (r_hmap r = h)) as [E|Hne].
    + exists hm'. rewrite E2, E, lookup_insert_eq. rewrite E, Eh in Ek. injection Ek as <-. simpl. split; [done|]. lia.
    + exists k. by rewrite E2, lookup_insert_ne.
  - intros k x. rewrite E2. intros [[<- <-]|[Hne Hk]]%lookup_insert_Some.
    + split; rewrite ?Er, ?E1, ?E5; simpl; try done; [lia|]. intros a Ha. rewrite E3, live_cons.
      apply orb_true_iff. destruct (decide (a < hm_base hm)); [left; apply in_rng_iff; simpl; lia|].
      right. apply G6. lia.
    + destruct (hi_hm s Hi k x Hk). split; rewrite ?Er, ?E1, ?E5; auto.
  - intros k k' x x' Hne. rewrite E2.
    intros [[<- <-]|[Hn Hk]]%lookup_insert_Some [[<- <-]|[Hn' Hk']]%lookup_insert_Some; try done.
    + apply Hd; [left; eauto|]. by apply (hi_disj s Hi h k').
    + apply disj_sym, Hd; [left; eauto|]. by apply (hi_disj s Hi h k).
    + by apply (hi_disj s Hi k k').
  - intros k. rewrite E1, E2. intros (x & Ex & E0)%(hi_orph s Hi). destruct (decide (h = k)) as [<-|Hne].
    + rewrite lookup_insert_eq. exists hm'. split; [done|]. rewrite Eh in Ex. by injection Ex as <-.
    + rewrite lookup_insert_ne by done. eauto.
  - rewrite E1. rewrite list.Forall_forall. intros q Hq. pose proof (hi_ret s Hi) as HF.
    rewrite list.Forall_forall in HF. destruct (HF q Hq) as [Q1 Q2 Q3 Q4].
    split; rewrite ?E6; auto. intros k x. rewrite E2. intros [[<- <-]|[_ Hk]]%lookup_insert_Some; [|by apply (Q4 k)].
    apply Hd; [right; eauto|by apply (Q4 h)].
  - rewrite E1. apply Hi.
Qed.
Lemma extended_mem h ext hm s s' a : extended h ext hm s s' -> live (ms_maps s) a = true -> ms_mem s' a = ms_mem s a.
Proof.
  intros He Ha. rewrite (ex_mem _ _ _ _ _ He). unfold zero_bytes.
  destruct ((hm_base hm - ext <=? a) && (a <? hm_base hm - ext + ext)) eqn:E; [|done].
  destruct (ex_fresh _ _ _ _ _ He) as (_ & _ & _ & F4). rewrite F4 in Ha by lia. done.
Qed.
Lemma extended_view h ext hm s s' : as_inv s -> fresh_ok s -> ms_hmaps s !! h = Some hm -> extended h ext hm s s' ->
  as_inv s' /\ fresh_ok s' /\ same_view s s'.
Proof.
  intros Hi Hf Eh He. pose proof (extended_hinv h ext hm s s' (ai_heap s Hi) Eh He) as Hh.
  assert (Er : regs s' = regs s) by (unfold regs; by rewrite (ex_as _ _ _ _ _ He)).
  assert (Ep : pt s' = pt s) by (unfold pt; by rewrite (ex_as _ _ _ _ _ He)).
  split; [apply (as_inv_view s); [done|done|rewrite Ep; apply Hi|by rewrite Er|by rewrite Ep]|]. split.
  - intros k x. rewrite (ex_hms _ _ _ _ _ He), Er.
    intros [[<- <-]|[Hne Hk]]%lookup_insert_Some.
    + destruct (Hf h hm Eh) as (H0 & H1 & H2). simpl. split; [lia|]. split; [|done]. intros a Ha. rewrite (ex_mem _ _ _ _ _ He). unfold zero_bytes.
      destruct (_ && _) eqn:E; [done|]. apply H1. lia.
    + destruct (Hf k x Hk) as (H0 & H1 & H2). split; [done|]. split; [|done]. intros a Ha. rewrite (ex_mem _ _ _ _ _ He). unfold zero_bytes.
      destruct (_ && _); [done|]. by apply H1.
  - split; [by rewrite Er|by rewrite Ep|]. intros va. unfold guest_byte. rewrite Er.
    destruct (look (regs s) va) as [v|] eqn:E; [|done]. simpl. f_equal.
    destruct (look_owned s va v (ai_heap s Hi) E) as (p & n & Ho & Ha). apply (extended_mem h ext hm); [done|].
    destruct (owned_live s p n (ai_heap s Hi) Ho) as [Hl _]. by apply Hl.
Qed.
Lemma fresh_ok_host s s' : hinv s -> host_step s s' -> fresh_ok s -> fresh_ok s'.
Proof.
  intros Hi Hs Hf h hm. rewrite (hs_hms _ _ Hs). unfold regs. rewrite (hs_as _ _ Hs). intros Eh.
  destruct (Hf h hm Eh) as (H0 & H1 & H2). split; [done|]. split; [|done]. intros a Ha.
  rewrite (owned_bytes s s' (hm_base hm) (hm_len hm) a Hi Hs); [by apply H1|left; eauto|lia].
Qed.

(** One try at the addresses below: the floor is the allocation's base again. *)
Record tried (h : Z) (hm : HostMap) s (floor' : Z) s' (hm' : HostMap) : Prop := {
  td_inv : as_inv s';
  td_fresh : fresh_ok s';
  td_view : same_view s s';
  td_as : ms_as s' = ms_as s;
  td_vf : ms_vf s' = ms_vf s;
  td_env : ms_env s' = ms_env s;
  td_hm : ms_hmaps s' !! h = Some hm';
  td_floor : floor' = hm_base hm';
  td_top : hm_base hm' + hm_len hm' = hm_base hm + hm_len hm;
  td_rw : hm_rw_lo hm' = hm_rw_lo hm;
  td_fh : hm_fresh_hi hm' = hm_fresh_hi hm
}.
Lemma tried_host h hm s s' : as_inv s -> fresh_ok s -> ms_hmaps s !! h = Some hm -> host_step s s' ->
  tried h hm s (hm_base hm) s' hm.
Proof.
  intros Hi Hf Eh Hs. destruct (as_inv_host s s' Hs Hi) as [H1 H2]. split; try done; try apply Hs.
  - apply (fresh_ok_host s); [apply Hi|done|done].
  - by rewrite (hs_hms _ _ Hs).
Qed.
Lemma grow_try_ok ext need want h s hm : as_inv s -> fresh_ok s -> ms_hmaps s !! h = Some hm -> 0 < need ->
  exists hm', tried h hm s (fst (grow_try ext need want h (hm_base hm) s)) (snd (grow_try ext need want h (hm_base hm) s)) hm'.
Proof.
  intros Hi Hf Eh Hn. unfold grow_try. assert (Hr := tried_host h hm s s Hi Hf Eh (host_step_refl s)).
  destruct (hm_base hm <=? want); [by exists hm|].
  destruct ((ext <? need) || _ || _) eqn:Eg; [by exists hm|].
  destruct (os_mmap_at (ms_os s) (ms_maps s) (hm_base hm - ext) ext) as [[p|] o] eqn:Em.
  2: { exists hm. apply tried_host; done || apply host_step_os. }
  pose proof (os_mmap_at_ok _ _ _ _ _ _ Em) as Hfr. destruct (fresh_step s p ext o Hfr) as (_ & _ & H3).
  set (s1 := upd_ms_mem _ _) in *. cbn zeta. destruct (Z.eqb_spec p (hm_base hm - ext)) as [->|Hne].
  - assert (Eat : hm_at s1 h = hm) by (unfold hm_at; cbn [ms_hmaps s1 upd_ms_mem upd_ms_maps upd_ms_os]; by rewrite Eh).
    rewrite Eat. set (hm' := hm_with_ext (hm_base hm - ext) (hm_len hm + ext) hm).
    assert (He : extended h ext hm s (set_hm h (hm_with_ext (hm_base hm - ext) (hm_len hm + ext)) s1)).
    { rewrite (set_hm_at s1 h _ hm Eh). apply orb_false_iff in Eg as [Eg _].
      apply orb_false_iff in Eg as [Eg _]. split; try done. lia. }
    destruct (extended_view _ _ _ _ _ Hi Hf Eh He) as (V1 & V2 & V3). exists hm'. cbn [fst snd].
    split; try done; [|simpl; lia]. rewrite (ex_hms _ _ _ _ _ He). apply lookup_insert_eq.
  - exists hm. specialize (H3 (ms_os s1)). apply tried_host; [done..|]. by destruct s1.
Qed.
Lemma tried_trans h hm s f1 s1 hm1 f2 s2 hm2 : tried h hm s f1 s1 hm1 -> tried h hm1 s1 f2 s2 hm2 -> tried h hm s f2 s2 hm2.
Proof.
  intros [] []. split; [done|done|by apply (same_view_trans _ s1)|congruence..].
Qed.

(** ** A region grown down *)
Definition r_down (addr : Z) (r : Region) : Region :=
  r_with_range addr (r_end r) (r_host r - (r_start r - addr)) (r_file_off r) r.
Lemma slice_down addr r va : r_file r = 0 -> slice va (r_down addr r) = slice va r.
Proof. intros E. unfold slice, r_down, r_with_range; simpl. rewrite E; simpl. f_equal. lia. Qed.
Lemma down_ok rs i r addr : regions_ok rs -> rs !! i = Some r -> region_ok (r_down addr r) -> r_file r = 0 ->
  addr < r_start r -> free_of rs addr (r_start r) ->
  regions_ok (<[i := r_down addr r]> rs) /\
  forall va, look (<[i := r_down addr r]> rs) va =
    if (addr <=? va) && (va <? r_start r) then Some (slice va r) else look rs va.
Proof.
  intros Hok Ei Hn Hf Hlt Hfree. rewrite (insert_index rs i r _ Ei).
  rewrite (split_at_index rs i r Ei) in Hok, Hfree.
  assert (Hok' : regions_ok (take i rs ++ [r_down addr r] ++ drop (S i) rs)).
  { pose proof Hok as Hq. rewrite !regions_ok_app in Hq |- *. destruct Hq as (H1 & (H2 & H3 & H4) & H5).
    split; [done|]. split; [split; [|split; [done|]]|].
    - apply regions_ok_cons. split; [done|]. split; [constructor|apply regions_ok_nil].
    - apply Forall_cons_iff in H4 as [H4 _]. constructor; [|constructor].
      apply (list.Forall_impl _ _ _ H4). intros q. unfold before. simpl. done.
    - unfold free_of in Hfree. apply Forall_app in Hfree as [Hfree _].
      rewrite list.Forall_forall in *. intros q Hq. specialize (H5 q Hq). specialize (Hfree q Hq).
      apply Forall_app in H5 as [H5 H6]. apply Forall_app. split; [|done].
      apply Forall_cons_iff in H5 as [H5 _]. constructor; [|constructor]. unfold before in *. simpl.
      destruct H1 as [H1 _]. rewrite list.Forall_forall in H1. pose proof (ro_range q (H1 q Hq)). lia. }
  split; [done|]. intros va.
  assert (El : look rs va = look (take i rs ++ [r] ++ drop (S i) rs) va) by (by rewrite <- split_at_index).
  rewrite El, !look_mid by done.
  rewrite !look_cons, look_nil, slice_down by done.
  assert (Hro : region_ok r).
  { destruct Hok as [HF _]. rewrite !Forall_app in HF. destruct HF as (_ & HF & _). by apply Forall_cons_iff in HF as [? _]. }
  pose proof (ro_range r Hro). unfold contains; simpl.
  destruct (addr <=? va) eqn:E1, (va <? r_start r) eqn:E2, (r_start r <=? va) eqn:E3, (va <? r_end r) eqn:E4; simpl; try done; lia.
Qed.

(** ** What [grow_floor] gives *)
Lemma grow_floor_spec rs j i r base :
  base <= grow_floor rs j i r base /\
  (forall k q, rs !! k = Some q -> (j + k)%nat <> i -> r_hmap q = r_hmap r ->
     r_host q + r_len q <= r_host r -> r_host q + r_len q <= grow_floor rs j i r base).
Proof.
  revert j base. induction rs as [|q rs IH]; intros j base; simpl; [split; [lia|done]|].
  set (f := if _ || _ then base else _). destruct (IH (S j) f) as [IH1 IH2].
  assert (Hf : base <= f) by (unfold f; destruct (_ || _); [lia|]; destruct (_ && _) eqn:E; lia).
  split; [lia|]. intros [|k] x Hk Hne Eh Hle.
  - injection Hk as ->. assert (r_host x + r_len x <= f); [|lia]. unfold f, r_len in *.
    rewrite (proj2 (Nat.eqb_neq j i)) by lia. rewrite (proj2 (Z.eqb_eq (r_hmap x) (r_hmap r)) Eh). simpl.
    destruct (_ && _) eqn:E; lia.
  - apply (IH2 k x Hk); [lia|done|done].
Qed.
(** So nothing is mapped between the room's end and the slice. *)
Lemma room_free s i r floor : as_inv s -> regs s !! i = Some r ->
  (forall k q, regs s !! k = Some q -> k <> i -> r_hmap q = r_hmap r ->
     r_host q + r_len q <= r_host r -> r_host q + r_len q <= floor) ->
  hm_base (hm_at s (r_hmap r)) <= floor ->
  forall va v, look (regs s) va = Some v -> ~ (floor <= r_host v < r_host r).
Proof.
  intros Hi Ei Hfl Hb va v El Hv. pose proof (ai_heap s Hi) as Hh. pose proof (hi_regs s Hh) as Hok.
  pose proof El as (q & Hq & Hc & ->)%look_some. apply list_elem_of_lookup_1 in Hq as (k & Hk).
  pose proof (hinv_backed s k q Hh Hk) as (hq & Eq & B1 & B2).
  pose proof (hinv_backed s i r Hh Ei) as (hr & Er & C1 & C2).
  assert (Ehr : hm_at s (r_hmap r) = hr) by (unfold hm_at; by rewrite Er). rewrite Ehr in Hb.
  pose proof (ro_range r (hinv_region s i r Hh Ei)) as Rr. unfold r_len in *. simpl in Hv.
  destruct (decide (k = i)) as [->|Hki]; [assert (q = r) as -> by congruence; lia|].
  destruct (decide (r_hmap q = r_hmap r)) as [E|Hne].
  - destruct (decide (r_host q + (r_end q - r_start q) <= r_host r)) as [Hle|Hgt].
    + specialize (Hfl k q Hk Hki E Hle). lia.
    + assert (Ev : r_start q + (r_host r - r_host q) = r_start r).
      { apply (ai_inj s Hi _ _ (slice (r_start q + (r_host r - r_host q)) q) (slice (r_start r) r)).
        - apply look_elem; [done|by eapply list_elem_of_lookup_2|lia].
        - apply look_elem; [done|by eapply list_elem_of_lookup_2|lia].
        - simpl. lia. }
      apply Hki. apply (index_unique (regs s) k i q r (r_start r)); try done; lia.
  - pose proof (hi_disj s Hh _ _ hq hr Hne Eq Er) as Hd. unfold disj in Hd. lia.
Qed.

(** ** [region_grow_down] *)

(** No other slice of the allocation ends between [fl] and the slice of [r]. *)
Definition clear_below (i : nat) (r : Region) s (fl : Z) : Prop :=
  forall k q, regs s !! k = Some q -> k <> i -> r_hmap q = r_hmap r ->
    r_host q + r_len q <= r_host r -> r_host q + r_len q <= fl.

(** The first half: where the room ends, the allocation extended if need be. *)
Definition grow_room (i : nat) (r : Region) (want : Z) s : Z * MS Os :=
  let base := hm_base (hm_at s (r_hmap r)) in
  let floor := grow_floor (regs s) 0 i r base in
  if (want <? floor) && (floor =? base) && negb (env_force_piece (ms_env s)) then
    let need := Z.land (floor - want + (os_pagesz - 1)) (not64 (os_pagesz - 1)) in
    let '(floor, s) := grow_try (u64 (need * 2)) need want (r_hmap r) floor s in
    grow_try need need want (r_hmap r) floor s
  else (floor, s).
Lemma grow_room_ok i r want s : as_inv s -> fresh_ok s -> regs s !! i = Some r -> 0 <= want < r_host r ->
  r_host r - want <= GUEST_TASK_SIZE ->
  exists hm hm1, ms_hmaps s !! r_hmap r = Some hm /\
    tried (r_hmap r) hm s (hm_base hm1) (snd (grow_room i r want s)) hm1 /\
    hm_base hm1 <= fst (grow_room i r want s) /\
    (fst (grow_room i r want s) <= want -> clear_below i r s want).
Proof.
  intros Hi Hf Ei Hw Hg. pose proof (ai_heap s Hi) as Hh. change GUEST_TASK_SIZE with (2 ^ 47) in Hg.
  destruct (hinv_backed s i r Hh Ei) as (hm & Ehm & B1 & B2). exists hm.
  assert (Eat : hm_at s (r_hmap r) = hm) by (unfold hm_at; by rewrite Ehm).
  unfold grow_room. rewrite Eat. destruct (grow_floor_spec (regs s) 0 i r (hm_base hm)) as [G1 G2].
  set (fl := grow_floor _ _ _ _ _) in *. cbn zeta.
  destruct ((want <? fl) && (fl =? hm_base hm) && negb (env_force_piece (ms_env s))) eqn:Ec.
  - apply andb_true_iff in Ec as [[Ec1 Ec2%Z.eqb_eq]%andb_true_iff _]. rewrite Ec2.
    set (need := Z.land _ _). pose proof pagesz_pos as Hpg. pose proof pagesz_small as Hps.
    assert (Hb : 0 <= hm_base hm - want + (os_pagesz - 1) < 2 ^ 64) by lia.
    assert (Hn : 0 < need).
    { unfold need. rewrite land_hpm by done. pose proof (Z.mod_pos_bound (hm_base hm - want + (os_pagesz - 1)) _ Hpg).
      lia. }
    destruct (grow_try_ok (u64 (need * 2)) need want (r_hmap r) s hm Hi Hf Ehm Hn) as (hm1 & T1).
    destruct (grow_try _ need want (r_hmap r) (hm_base hm) s) as [f1 s1]. cbn [fst snd] in T1.
    rewrite (td_floor _ _ _ _ _ _ T1).
    destruct (grow_try_ok need need want (r_hmap r) s1 hm1 (td_inv _ _ _ _ _ _ T1) (td_fresh _ _ _ _ _ _ T1)
                (td_hm _ _ _ _ _ _ T1) Hn) as (hm2 & T2).
    destruct (grow_try need need want (r_hmap r) (hm_base hm1) s1) as [f2 s2]. cbn [fst snd] in *.
    pose proof (tried_trans _ _ _ _ _ _ _ _ _ T1 T2) as T3. exists hm2.
    rewrite <- (td_floor _ _ _ _ _ _ T3). split; [done|]. split; [done|]. split; [lia|].
    intros _ k q Hk Hne Eq Hle. exfalso. specialize (G2 k q Hk ltac:(lia) Eq Hle).
    destruct (hinv_backed s k q Hh Hk) as (hq & Ehq & Q1 & Q2). rewrite Eq, Ehm in Ehq. injection Ehq as <-.
    pose proof (ro_range q (hinv_region s k q Hh Hk)). unfold r_len in *. lia.
  - exists hm. cbn [fst snd]. split; [done|]. split; [by apply tried_host; [..|apply host_step_refl]|].
    split; [done|]. intros Hle k q Hk Hne Eq Hq. specialize (G2 k q Hk ltac:(lia) Eq Hq). lia.
Qed.

(** Only the marks of the allocation [h] change. *)
Lemma as_inv_marks s s' h hm x : as_inv s -> ms_hmaps s !! h = Some hm ->
  ms_hmaps s' = <[h := x]> (ms_hmaps s) -> ms_as s' = ms_as s -> ms_maps s' = ms_maps s ->
  ms_next s' = ms_next s -> ms_gen s' = ms_gen s ->
  hm_base x = hm_base hm -> hm_len x = hm_len hm -> hm_refs x = hm_refs hm -> hm_pins x = hm_pins hm -> as_inv s'.
Proof.
  intros Hi Eh E2 E1 E5 E6 E7 X1 X2 X3 X4. pose proof (ai_heap s Hi) as Hh.
  assert (Er : regs s' = regs s) by (unfold regs; by rewrite E1).
  assert (Ep : pt s' = pt s) by (unfold pt; by rewrite E1).
  destruct (hi_hm s Hh h hm Eh) as [G1 G2 G3 G4 G5 G6].
  assert (Hh' : hinv s').
  { apply (hinv_set_hm s s' h hm x); rewrite ?E1, ?Er, ?X3, ?X4; try done; try apply Hh.
    intros (y & Ey & E0)%(hi_orph s Hh). rewrite Eh in Ey. by injection Ey as <-. }
  apply (as_inv_view s); [done|done|rewrite Ep; apply Hi|by rewrite Er|by rewrite Ep].
Qed.

(** The second half: the pages made accessible and what an earlier slice left
    there cleared. *)
Definition grow_marks (r : Region) (want : Z) s : bool * MS Os :=
  let h := r_hmap r in
  let host := r_host r in
  let hm := hm_at s h in
  let lo := Z.land want (not64 (os_pagesz - 1)) in
  let rw := hm_rw_lo hm in
  let '(ok, s) :=
    if lo <? rw then
      let batch := if GROW_RW_STEP <? rw - hm_base hm then rw - GROW_RW_STEP else hm_base hm in
      let lo := if batch <? lo then batch else lo in
      match os_mprotect (ms_os s) lo (rw - lo) true with
      | (true, o) => (true, set_hm h (fun x => hm_with_fresh lo (hm_fresh_hi x) x) (upd_ms_os (fun _ => o) s))
      | (false, o) => (false, upd_ms_os (fun _ => o) s)
      end
    else (true, s) in
  if negb ok then (false, s)
  else
    let fresh := hm_fresh_hi hm in
    let stale := if fresh <? want then want else fresh in
    let s := if stale <? host then upd_ms_mem (zero_bytes stale (host - stale)) s else s in
    (true, if want <? fresh then set_hm h (fun x => hm_with_fresh (hm_rw_lo x) want x) s else s).
Lemma region_grow_down_halves i r grow s : region_grow_down i r grow s =
  if negb (host_len_ok grow) || (r_host r <? grow) then (false, s)
  else let '(floor, s) := grow_room i r (r_host r - grow) s in
       if floor <=? r_host r - grow then grow_marks r (r_host r - grow) s else (false, s).
Proof. reflexivity. Qed.

(** The marks: [x] is the record of the allocation afterwards. *)
Lemma grow_marks_ok r want s hm : ms_hmaps s !! r_hmap r = Some hm ->
  match grow_marks r want s with
  | (false, s') => host_step s s'
  | (true, s') => exists x o, let stale := Z.max want (hm_fresh_hi hm) in
      s' = upd_ms_hmaps (fun _ => <[r_hmap r := x]> (ms_hmaps s))
             (upd_ms_mem (fun m => if stale <? r_host r then zero_bytes stale (r_host r - stale) m else m)
                (upd_ms_os (fun _ => o) s)) /\
      hm_base x = hm_base hm /\ hm_len x = hm_len hm /\ hm_refs x = hm_refs hm /\ hm_pins x = hm_pins hm /\
      hm_fresh_hi x = Z.min want (hm_fresh_hi hm)
  end.
Proof.
  intros Eh. unfold grow_marks. assert (Eat : hm_at s (r_hmap r) = hm) by (unfold hm_at; by rewrite Eh).
  rewrite Eat. cbn zeta. set (lo := Z.land _ _). set (lo' := if _ <? lo then _ else lo).
  assert (Hst : (if hm_fresh_hi hm <? want then want else hm_fresh_hi hm) = Z.max want (hm_fresh_hi hm))
    by (clear; destruct (hm_fresh_hi hm <? want) eqn:E; lia).
  assert (Htail : forall o x1, hm_base x1 = hm_base hm -> hm_len x1 = hm_len hm -> hm_refs x1 = hm_refs hm ->
    hm_pins x1 = hm_pins hm -> hm_fresh_hi x1 = hm_fresh_hi hm -> forall s1,
    s1 = upd_ms_hmaps (fun _ => <[r_hmap r := x1]> (ms_hmaps s)) (upd_ms_os (fun _ => o) s) ->
    exists x o', let stale := Z.max want (hm_fresh_hi hm) in
      (if want <? hm_fresh_hi hm then set_hm (r_hmap r) (fun x => hm_with_fresh (hm_rw_lo x) want x)
         (if stale <? r_host r then upd_ms_mem (zero_bytes stale (r_host r - stale)) s1 else s1)
       else (if stale <? r_host r then upd_ms_mem (zero_bytes stale (r_host r - stale)) s1 else s1)) =
      upd_ms_hmaps (fun _ => <[r_hmap r := x]> (ms_hmaps s))
             (upd_ms_mem (fun m => if stale <? r_host r then zero_bytes stale (r_host r - stale) m else m)
                (upd_ms_os (fun _ => o') s)) /\
      hm_base x = hm_base hm /\ hm_len x = hm_len hm /\ hm_refs x = hm_refs hm /\ hm_pins x = hm_pins hm /\
      hm_fresh_hi x = Z.min want (hm_fresh_hi hm)).
  { intros o x1 X1 X2 X3 X4 X5 s1 ->. cbn zeta. set (stale := Z.max _ _).
    destruct (want <? hm_fresh_hi hm) eqn:Ew.
    - exists (hm_with_fresh (hm_rw_lo x1) want x1), o. split; [|repeat split; simpl; try done; lia].
      destruct (stale <? r_host r); unfold set_hm, upd_ms_hmaps, upd_ms_mem, upd_ms_os; cbn [ms_hmaps];
        by rewrite lookup_insert_eq, insert_insert_eq.
    - exists x1, o. split; [by destruct (stale <? r_host r)|]. repeat split; try done. lia. }
  destruct (lo <? hm_rw_lo hm).
  - destruct (os_mprotect (ms_os s) lo' _ true) as [[] o]; [|apply host_step_os]. cbn [negb]. rewrite Hst.
    apply (Htail o (hm_with_fresh lo' (hm_fresh_hi hm) hm)); try done.
    by rewrite (set_hm_at (upd_ms_os (fun _ => o) s) (r_hmap r) _ hm Eh).
  - cbn [negb]. rewrite Hst. apply (Htail (ms_os s) hm); try done.
    rewrite insert_id by done. by destruct s.
Qed.

(** The backing below the slice is there, zeroed, and nothing else's. *)
Record room_made (r : Region) (want : Z) s s' : Prop := {
  rm_hm : exists x, ms_hmaps s' !! r_hmap r = Some x /\ hm_base x <= want /\ hm_fresh_hi x <= want;
  rm_zero a : want <= a < r_host r -> ms_mem s' a = 0;
  rm_free va v : look (regs s) va = Some v -> ~ (want <= r_host v < r_host r)
}.
(** The view, the regions and the flags that decide permissions are kept. *)
Record view_kept s s' : Prop := {
  vk_inv : as_inv s';
  vk_fresh : fresh_ok s';
  vk_view : same_view s s';
  vk_as : ms_as s' = ms_as s;
  vk_vf : ms_vf s' = ms_vf s;
  vk_env : ms_env s' = ms_env s
}.
Lemma tried_kept h hm s f s' hm' : tried h hm s f s' hm' -> view_kept s s'.
Proof. by intros []. Qed.
Lemma kept_host s s' s2 : view_kept s s' -> host_step s' s2 -> view_kept s s2.
Proof.
  intros [K1 K2 K3 K4 K5 K6] Hs. destruct (as_inv_host s' s2 Hs K1) as [A1 A2].
  split; [done| |by apply (same_view_trans _ s')|rewrite (hs_as _ _ Hs); done|by rewrite (hs_vf _ _ Hs)|by rewrite (hs_env _ _ Hs)].
  apply (fresh_ok_host s'); [apply K1|done|done].
Qed.

Lemma grow_down_ok i r grow s : as_inv s -> fresh_ok s -> regs s !! i = Some r -> 0 < grow <= GUEST_TASK_SIZE ->
  match region_grow_down i r grow s with
  | (false, s') => view_kept s s'
  | (true, s') => view_kept s s' /\ room_made r (r_host r - grow) s s' /\ grow <= r_host r
  end.
Proof.
  intros Hi Hf Ei Hg. rewrite region_grow_down_halves. set (want := r_host r - grow).
  destruct (negb (host_len_ok grow) || (r_host r <? grow)) eqn:Eg; [by split|].
  apply orb_false_iff in Eg as [_ Eg].
  destruct (grow_room_ok i r want s Hi Hf Ei ltac:(lia) ltac:(lia)) as (hm & hm1 & Ehm & T & Hb & Hcl).
  destruct (grow_room i r want s) as [floor s1]. cbn [fst snd] in *. pose proof (tried_kept _ _ _ _ _ _ T) as K.
  destruct (floor <=? want) eqn:Ef; [|done].
  pose proof (grow_marks_ok r want s1 hm1 (td_hm _ _ _ _ _ _ T)) as Hm.
  destruct (grow_marks r want s1) as [[] s2]; [|by apply (kept_host _ s1)].
  destruct Hm as (x & o & Es & X1 & X2 & X3 & X4 & X5). cbn zeta in Es. set (stale := Z.max _ _) in *.
  destruct K as [K1 K2 K3 K4 K5 K6]. assert (Er : regs s1 = regs s) by (unfold regs; by rewrite K4).
  assert (Hfree : forall va v, look (regs s) va = Some v -> ~ (want <= r_host v < r_host r)).
  { rewrite <- Er. apply (room_free s1 i r want K1); rewrite ?Er; [done|by apply Hcl; lia|].
    unfold hm_at. rewrite (td_hm _ _ _ _ _ _ T). simpl. lia. }
  assert (I2 : as_inv s2) by (apply (as_inv_marks s1 s2 (r_hmap r) hm1 x K1 (td_hm _ _ _ _ _ _ T)); subst s2; done).
  assert (Em : ms_mem s2 = if stale <? r_host r then zero_bytes stale (r_host r - stale) (ms_mem s1) else ms_mem s1)
    by (by subst s2).
  assert (Hmem : forall a, ms_mem s2 a = ms_mem s1 a \/ (ms_mem s2 a = 0 /\ stale <= a < r_host r)).
  { intros a. rewrite Em. destruct (stale <? r_host r); [|by left]. unfold zero_bytes.
    destruct (_ && _) eqn:E; [right; split; [done|lia]|by left]. }
  destruct (K2 _ _ (td_hm _ _ _ _ _ _ T)) as (Fr0 & Fr1 & Fr2).
  assert (Hf2 : fresh_ok s2).
  { intros k y Ek. assert (Er2 : regs s2 = regs s1) by (by subst s2). rewrite Er2.
    assert (Ek' : <[r_hmap r := x]> (ms_hmaps s1) !! k = Some y) by (by subst s2).
    apply lookup_insert_Some in Ek' as [[<- <-]|[_ Ek']].
    - rewrite X1, X2, X5. split; [lia|]. split; [|intros q Hq Eq; specialize (Fr2 q Hq Eq); lia].
      intros a Ha. destruct (Hmem a) as [->|[-> _]]; [|done]. apply Fr1. lia.
    - destruct (K2 k y Ek') as (Y0 & Y1 & Y2). split; [done|]. split; [|done].
      intros a Ha. destruct (Hmem a) as [->|[-> _]]; [|done]. by apply Y1. }
  split; [|split; [split|lia]].
  - split; [done|done| |by subst s2|by subst s2|by subst s2].
    apply (same_view_trans _ s1); [done|]. split; [by subst s2|by subst s2|]. intros va. unfold guest_byte.
    replace (regs s2) with (regs s1) by (by subst s2).
    destruct (look (regs s1) va) as [v|] eqn:El; [|done]. simpl. f_equal.
    destruct (Hmem (r_host v)) as [->|[_ Hr]]; [done|]. rewrite Er in El. specialize (Hfree va v El). lia.
  - exists x. subst s2. cbn [ms_hmaps upd_ms_hmaps]. rewrite lookup_insert_eq. split; [done|]. lia.
  - intros a Ha. destruct (Hmem a) as [E|[E _]]; [|done].
    destruct (decide (stale <= a)) as [Hs|Hs].
    + rewrite Em. rewrite (proj2 (Z.ltb_lt stale (r_host r))) by lia. unfold zero_bytes.
      by rewrite (proj2 (andb_true_iff _ _)) by lia.
    + rewrite E. apply Fr1. lia.
  - exact Hfree.
Qed.

(** ** The stack after a growth *)
Record grown (addr : Z) (r : Region) s s' : Prop := {
  gw_new va : addr <= va < r_start r -> (exists v, look (regs s') va = Some v /\ r_prot v = r_prot r /\
    r_growsdown v = r_growsdown r /\ r_file v = r_file r /\ r_shared v = r_shared r) /\
    pte_get (pt s') va <> 0 /\ guest_byte s' va = Some 0;
  gw_out va : ~ addr <= va < r_start r -> look (regs s') va = look (regs s) va /\
    pte_get (pt s') va = pte_get (pt s) va /\ guest_byte s' va = guest_byte s va
}.

(** The entries a growth writes. *)
Lemma vf_prot_cases r s : fits 3 (r_prot r) -> let p := vf_pte_prot r (r_prot r) s in
  0 <= p /\ (p = r_prot r \/ (r_shared r = 0 /\ p = Z.land (r_prot r) (not32 PTE_W))).
Proof.
  intros Hp. cbn zeta. unfold vf_pte_prot. destruct (vf_track (ms_vf s) && negb (tr (r_shared r))) eqn:E.
  - apply andb_true_iff in E as [_ E]. unfold tr in E. apply fits3_noW in Hp. unfold fits in Hp.
    split; [lia|]. right. split; [lia|done].
  - unfold fits in Hp. split; [lia|by left].
Qed.
Lemma set_pages_spec s addr len host prot : pt_wf (pt s) -> aligned addr -> aligned len ->
  0 <= addr -> 0 <= len -> addr + len <= GUEST_TASK_SIZE -> 0 < host ->
  pt_wf (pte_set_pages (pt s) addr len host prot) /\
  forall va, pte_get (pte_set_pages (pt s) addr len host prot) va =
    if (addr <=? va) && (va <? addr + len) then Z.lor (host + (pg va - addr)) prot else pte_get (pt s) va.
Proof.
  intros. destruct (set_range_spec s addr len host prot) as [H6 H7]; try done; [lia|].
  split; [exact H6|]. intros va. specialize (H7 va). rewrite (proj2 (Z.eqb_neq host 0)) in H7 by lia. exact H7.
Qed.

(** Tier one: the slice itself grows down over the room. *)
Lemma grow_slice_ok i r addr s s1 : as_inv s -> regs s !! i = Some r -> r_file r = 0 -> aligned addr -> 0 <= addr ->
  addr < r_start r -> free_of (regs s) addr (r_start r) -> (forall va, addr <= va < r_start r -> pte_get (pt s) va = 0) ->
  view_kept s s1 -> room_made r (r_host r - (r_start r - addr)) s s1 ->
  r_start r - addr < r_host r ->
  let n := r_down addr r in
  let s2 := set_regs (fun rs => <[i := n]> rs) s1 in
  let s3 := set_pt (fun t => pte_set_pages t addr (r_start r - addr) (r_host n) (vf_pte_prot n (r_prot n) s2)) s2 in
  as_inv s3 /\ fresh_ok s3 /\ grown addr r s s3.
Proof.
  intros Hi Ei Hfl Ha Ha0 Hlt Hfree Hpz [K1 K2 K3 K4 K5 K6] [(x & Ex & X1 & X2) Hz Hrf] Hhp. cbn zeta.
  set (n := r_down addr r). set (s2 := set_regs _ s1). set (p := vf_pte_prot n (r_prot n) s2).
  set (s3 := set_pt _ s2). set (grow := r_start r - addr) in *.
  pose proof (ai_heap s1 K1) as Hh1. assert (Er : regs s1 = regs s) by (unfold regs; by rewrite K4).
  assert (Ep : pt s1 = pt s) by (unfold pt; by rewrite K4).
  assert (Ei1 : regs s1 !! i = Some r) by (by rewrite Er). pose proof (hinv_region s1 i r Hh1 Ei1) as Rr.
  pose proof Rr as [R1 R2 R3 R4 R5 R6 R7].
  assert (Rn : region_ok n).
  { split; simpl; try done; [lia| |lia]. apply aligned_sub; [done|]. by apply aligned_sub. }
  assert (Hfree1 : free_of (regs s1) addr (r_start r)) by (by rewrite Er).
  destruct (down_ok (regs s1) i r addr (hi_regs _ Hh1) Ei1 Rn Hfl Hlt Hfree1) as [Hok Hlk]. fold n in Hok, Hlk.
  assert (Hh3 : hinv s3).
  { apply (hinv_retable s1); [done|done|exact Hok| |].
    - change (regs s3) with (<[i := n]> (regs s1)). apply list.Forall_insert; [apply (hi_back _ Hh1)|].
      destruct (hinv_backed s1 i r Hh1 Ei1) as (y & Ey & B1 & B2). rewrite Ex in Ey. injection Ey as <-.
      exists x. unfold r_len in *. simpl. split; [done|]. unfold grow in X1. lia.
    - intros h. change (regs s3) with (<[i := n]> (regs s1)). unfold refcount. rewrite (countb_set _ _ i r n Ei1). simpl. lia. }
  destruct (set_pages_spec s2 addr grow (r_host n) p) as [Hw3 Hg]; try done;
    [apply K1|apply aligned_sub; done|unfold grow; lia|unfold grow; lia|simpl; unfold grow in *; lia|].
  replace (addr + grow) with (r_start r) in Hg by (unfold grow; lia).
  destruct (vf_prot_cases n s2 R6) as [Hp0 Hp1]. fold p in Hp0, Hp1.
  assert (Hlk3 : forall va, look (regs s3) va = if (addr <=? va) && (va <? r_start r) then Some (slice va r) else look (regs s) va)
    by (intros va; rewrite <- Er; apply Hlk).
  assert (Hpt3 : forall va, pte_get (pt s3) va = if (addr <=? va) && (va <? r_start r)
            then Z.lor (r_host n + (pg va - addr)) p else pte_get (pt s) va).
  { intros va. change (pt s3) with (pte_set_pages (pt s2) addr grow (r_host n) p). rewrite Hg.
    change (pt s2) with (pt s1). by rewrite Ep. }
  assert (Hin : forall va, addr <= va < r_start r -> (addr <=? va) && (va <? r_start r) = true) by (intros; lia).
  assert (Hhost : forall va, r_host n + (va - addr) = r_host r + (va - r_start r)) by (intros; simpl; lia).
  split; [|split].
  - apply (as_inv_range s _ addr (r_start r)); try done.
    + intros va Hva. rewrite Hlk3, Hpt3. by replace ((addr <=? va) && (va <? r_start r)) with false by lia.
    + intros va Hva _. pose proof (pg_above va _ Ha). pose proof (pg_below va _ R2).
      exists (slice (pg va) r). rewrite Hlk3, Hpt3, !Hin by lia. split; [done|]. exists p. by rewrite Hhost.
    + intros va v Hva _ _. rewrite Hpt3, Hin by done. pose proof (pg_above va _ Ha).
      pose proof (lor_pos (r_host n + (pg va - addr)) p ltac:(simpl; unfold grow in *; lia) Hp0). lia.
    + intros va va' v v' Hva. rewrite Hlk3, Hin by done. intros [= <-]. rewrite Hlk3.
      destruct ((addr <=? va') && (va' <? r_start r)) eqn:E; [intros [= <-]; simpl; lia|].
      intros El' E'. simpl in E'. specialize (Hrf va' v' El'). unfold grow in Hrf. lia.
  - intros h y Ey. destruct (K2 h y Ey) as (Y0 & Y1 & Y2). split; [done|]. split; [done|].
    change (regs s3) with (<[i := n]> (regs s1)). intros q Hq Eq.
    apply list_elem_of_lookup_1 in Hq as (k & Hk). apply list_lookup_insert_Some in Hk as [(-> & <- & _)|[_ Hk]].
    + simpl in Eq. change (ms_hmaps s3) with (ms_hmaps s1) in Ey. rewrite <- Eq, Ex in Ey. injection Ey as <-. simpl. unfold grow in X2. lia.
    + apply Y2; [by eapply list_elem_of_lookup_2|done].
  - assert (Hb : forall va, guest_byte s3 va = (fun v => ms_mem s1 (r_host v)) <$> look (regs s3) va) by done.
    split.
    + intros va Hva. rewrite Hb, Hlk3, Hpt3, Hin by done. split; [by eexists|]. pose proof (pg_above va _ Ha).
      pose proof (lor_pos (r_host n + (pg va - addr)) p ltac:(simpl; unfold grow in *; lia) Hp0). split; [lia|].
      simpl. f_equal. apply Hz. unfold grow. lia.
    + intros va Hva. rewrite Hb, Hlk3, Hpt3. replace ((addr <=? va) && (va <? r_start r)) with false by lia.
      split; [done|]. split; [done|]. rewrite <- (sv_byte _ _ K3 va). unfold guest_byte. by rewrite Er.
Qed.

(** Tier two: a piece of backing of its own. *)
Lemma whole_up n : 0 < n <= GUEST_TASK_SIZE -> aligned n ->
  let h := Z.land (n + (os_pagesz - 1)) (not64 (os_pagesz - 1)) in n <= h /\ aligned (h - n) /\ h < 2 ^ 50.
Proof.
  intros Hn Ha. change GUEST_TASK_SIZE with (2 ^ 47) in Hn. pose proof pagesz_pos as Hp. pose proof pagesz_small as Hs.
  assert (Hb : 0 <= n + (os_pagesz - 1) < 2 ^ 64) by lia. cbn zeta.
  destruct (land_hpm_whole _ Hb) as [H1 H2%pagesz_aligned]. rewrite land_hpm in * by done.
  pose proof (Z.mod_pos_bound (n + (os_pagesz - 1)) _ Hp). split; [lia|]. split; [by apply aligned_sub|]. lia.
Qed.
Lemma grow_piece_ok i r addr s : as_inv s -> fresh_ok s -> regs s !! i = Some r -> aligned addr -> 0 <= addr ->
  addr < r_start r -> free_of (regs s) addr (r_start r) -> (forall va, addr <= va < r_start r -> pte_get (pt s) va = 0) ->
  addr <= as_vma_end (regs s) i ->
  match region_grow_piece i r addr s with
  | (false, s') => view_kept s s'
  | (true, s') => as_inv s' /\ fresh_ok s' /\ grown addr r s s'
  end.
Proof.
  intros Hi Hf Ei Ha Ha0 Hlt Hfree Hpz Hve. pose proof (ai_heap s Hi) as Hh.
  pose proof (hinv_region s i r Hh Ei) as [R1 R2 R3 R4 R5 R6 R7].
  unfold region_grow_piece. set (grow := r_start r - addr). set (hlen := Z.land _ _).
  assert (Hga : aligned grow) by (by apply aligned_sub).
  destruct (whole_up grow ltac:(unfold grow; lia) Hga) as (Hl1 & Hl2 & Hl3). fold hlen in Hl1, Hl2, Hl3.
  destruct (negb (host_len_ok hlen)); [by split|].
  pose proof (stack_reserve_ok RESERVE_FUEL (stack_room (as_vma_end (regs s) i - addr) s) hlen s
                (stack_room_whole (as_vma_end (regs s) i - addr) s ltac:(lia)) ltac:(unfold grow in *; lia)) as Hsr.
  destruct (stack_reserve _ _ hlen s) as [[[base room]|] s1].
  2: { apply (kept_host s s s1); [by split|done]. }
  destruct Hsr as ([Hw1 Hw2%pagesz_aligned] & s0 & Hs0 & Hs1 & Hfr & Emaps & Hz).
  destruct (as_inv_host s s0 Hs0 Hi) as [Hi0 V0].
  destruct (as_inv_host s0 s1 Hs1 Hi0) as [Hi1 V1]. cbn [hmap_new].
  set (h := ms_next s1). set (host := base + room + (hlen - grow)).
  set (x := mkHM base (room + hlen) 1 0 (base + room) host false).
  set (n := r_with_backing host h (r_with_range addr (r_start r) host 0 r)).
  set (s2 := set_hm _ _ _). set (s3 := region_insert n s2). set (p := vf_pte_prot n (r_prot n) s3).
  set (s4 := set_pt _ s3).
  assert (Hins : regs s3 = ins_region n (regs s1) /\ ms_hmaps s3 = ms_hmaps s2 /\ ms_maps s3 = ms_maps s1 /\
    ms_next s3 = ms_next s1 + 1 /\ ms_gen s3 = ms_gen s1 /\ pt s3 = pt s1 /\ ms_mem s3 = ms_mem s1 /\
    as_orphans (ms_as s3) = as_orphans (ms_as s1) /\ as_retired (ms_as s3) = as_retired (ms_as s1)).
  { unfold s3, region_insert. by destruct (tr (r_mfdcnt n)). }
  destruct Hins as (N1 & N2 & N3 & N4 & N5 & N6 & N7 & N8 & N9).
  assert (Es : ms_hmaps s2 = <[h := x]> (ms_hmaps s1)).
  { change (ms_hmaps s2) with (match <[h := mkHM base (room + hlen) 1 0 base base false]> (ms_hmaps s1) !! h with
      | Some y => <[h := hm_with_fresh (base + room) host y]> (<[h := mkHM base (room + hlen) 1 0 base base false]> (ms_hmaps s1))
      | None => <[h := mkHM base (room + hlen) 1 0 base base false]> (ms_hmaps s1) end).
    by rewrite lookup_insert_eq, insert_insert_eq. }
  pose proof Hfr as (F1 & F2 & F3%pagesz_aligned & F4).
  assert (Hha : aligned host) by (apply aligned_add; [by apply aligned_add|done]).
  assert (Er : regs s1 = regs s) by (unfold regs; by rewrite (hs_as _ _ Hs1), (hs_as _ _ Hs0)).
  assert (Hn : region_ok n) by (split; simpl; try done; unfold host; lia).
  assert (Hrv : reserved s1 base (room + hlen)).
  { apply (reserved_fresh s0); try done; [apply Hi0|unfold grow in *; lia|apply Hs1|by rewrite (hs_as _ _ Hs1)]. }
  assert (Hpu : punched addr (r_start r) s1 s1).
  { apply punched_none. intros q Hq. rewrite Er in Hq. unfold free_of in Hfree. rewrite list.Forall_forall in Hfree.
    specialize (Hfree q Hq). unfold overlaps. apply negb_false_iff, orb_true_iff. lia. }
  destruct (set_pages_spec s3 addr grow host p) as [Hw4 Hg]; try done;
    [rewrite N6; apply Hi1|unfold grow; lia|unfold grow; lia|unfold host; lia|].
  replace (addr + grow) with (r_start r) in Hg by (unfold grow; lia). rewrite N6 in Hg.
  destruct (vf_prot_cases n s3 R6) as [Hp0 Hp1]. fold p in Hp0, Hp1.
  assert (Hh1 := ai_heap s1 Hi1).
  assert (Hpt : forall va, pte_get (pt s4) va = if contains va n
            then Z.lor (r_host n + (pg va - r_start n)) p else pte_get (pt s1) va).
  { intros va. change (pt s4) with (pte_set_pages (pt s3) addr grow host p). rewrite N6. apply Hg. }
  destruct (install_core s1 s1 s3 s4 x n p) as [J1 J2]; try done; try (by rewrite ?N2, ?Es);
    try (unfold r_len; simpl; unfold host, grow in *; lia).
  assert (Hc : forall va, contains va n = (addr <=? va) && (va <? r_start r)) by done.
  assert (Hmem : ms_mem s4 = ms_mem s1) by exact N7.
  assert (Hview : same_view s s1) by (by apply (same_view_trans _ s0)).
  split; [done|]. split.
  - intros k y Ey. change (ms_hmaps s4) with (ms_hmaps s3) in Ey. rewrite N2, Es in Ey. rewrite Hmem.
    change (regs s4) with (regs s3). rewrite N1.
    assert (Hf1 : fresh_ok s1) by (apply (fresh_ok_host s0); [apply Hi0|done|apply (fresh_ok_host s); [apply Hi|done|done]]).
    apply lookup_insert_Some in Ey as [[<- <-]|[Hne Ey]].
    + simpl. unfold host. split; [unfold grow in *; lia|]. split; [intros a Hb; apply Hz; unfold grow in *; lia|].
      intros q [->|Hq]%ins_region_elem Eq; [simpl; unfold host; lia|]. exfalso.
      apply list_elem_of_lookup_1 in Hq as (k & Hk). destruct (hinv_backed s1 k q Hh1 Hk) as (y & Ey & _).
      pose proof (ho_id _ _ _ (hi_hm s1 Hh1 _ _ Ey)). unfold h in Eq. lia.
    + destruct (Hf1 k y Ey) as (Y0 & Y1 & Y2). split; [done|]. split; [done|].
      intros q [->|Hq]%ins_region_elem Eq; [simpl in Eq; done|]. by apply Y2.
  - assert (Hb : forall va, guest_byte s4 va = (fun v => ms_mem s1 (r_host v)) <$> look (regs s4) va)
      by (intros va; unfold guest_byte; by rewrite Hmem).
    split.
    + intros va Hva. assert (E : contains va n = true) by (rewrite Hc; lia).
      rewrite Hb, J2, E. split; [by eexists|]. pose proof (pg_above va _ Ha).
      rewrite Hpt, E. simpl (r_host n). simpl (r_start n).
      pose proof (lor_pos (host + (pg va - addr)) p ltac:(unfold host; lia) Hp0). split; [lia|].
      simpl. f_equal. apply Hz. unfold host, grow in *. lia.
    + intros va Hva. assert (E : contains va n = false) by (rewrite Hc; lia).
      rewrite Hb, J2, Hpt, E. split; [apply Hview|]. split; [apply Hview|]. rewrite <- (sv_byte _ _ Hview va). done.
Qed.

(** ** [as_stack_extend] *)

(** What holds of the stacks: fresh room below them, and no file behind. *)
Record stacks_ok s : Prop := {
  so_fresh : fresh_ok s;
  so_anon va v : look (regs s) va = Some v -> r_growsdown v <> 0 -> r_file v = 0
}.
Lemma vma_end_above q rs : regions_ok (q :: rs) -> r_end q <= vma_end_from q rs.
Proof.
  revert q. induction rs as [|p rs IH]; intros q Hok; simpl; [lia|]. destruct (as_same_vma q p); [|lia].
  apply regions_ok_cons in Hok as (Hq & Hb & Hok). specialize (IH p Hok).
  apply Forall_cons_iff in Hb as [Hb _]. unfold before in Hb.
  apply regions_ok_cons in Hok as (Hp & _). pose proof (ro_range p Hp). lia.
Qed.
Lemma vma_end_region rs i r : regions_ok rs -> rs !! i = Some r -> r_end r <= as_vma_end rs i.
Proof.
  intros Hok Ei. unfold as_vma_end. rewrite (drop_S rs r i Ei). apply vma_end_above.
  rewrite (split_at_index rs i r Ei) in Hok. by apply regions_ok_app in Hok as (_ & Hok & _).
Qed.
Lemma gap_pte s lo hi : as_inv s -> free_of (regs s) lo hi -> aligned lo -> aligned hi ->
  forall va, lo <= va < hi -> pte_get (pt s) va = 0.
Proof.
  intros Hi Hf Hlo Hhi va Hva. destruct (decide (pte_get (pt s) va = 0)) as [|Hn]; [done|]. exfalso.
  destruct (ai_pte s Hi va Hn) as (v & (q & Hq & Hc & _)%look_some & _). unfold free_of in Hf. rewrite list.Forall_forall in Hf.
  specialize (Hf q Hq). pose proof (pg_above va lo Hlo). pose proof (pg_below va hi Hhi). lia.
Qed.

(** The growth before the accounting. *)
Definition extend_body (i : nat) (r : Region) (addr : Z) s : bool * MS Os :=
  let grow := r_start r - addr in
  match region_grow_down i r grow s with
  | (true, s) =>
      let n := r_down addr r in
      let s := set_regs (fun rs => <[i := n]> rs) s in
      let prot := vf_pte_prot n (r_prot n) s in
      (true, set_pt (fun t => pte_set_pages t addr grow (r_host n) prot) s)
  | (false, s) => region_grow_piece i r addr s
  end.
Lemma extend_body_ok i r addr s : as_inv s -> fresh_ok s -> regs s !! i = Some r -> r_file r = 0 ->
  aligned addr -> 0 <= addr -> addr < r_start r -> free_of (regs s) addr (r_start r) ->
  match extend_body i r addr s with
  | (false, s') => view_kept s s'
  | (true, s') => as_inv s' /\ fresh_ok s' /\ grown addr r s s'
  end.
Proof.
  intros Hi Hf Ei Hfl Ha Ha0 Hlt Hfree. unfold extend_body.
  pose proof (hinv_region s i r (ai_heap s Hi) Ei) as Rr. pose proof (ro_range r Rr) as R1.
  pose proof (gap_pte s addr (r_start r) Hi Hfree Ha (ro_start r Rr)) as Hpz.
  pose proof (grow_down_ok i r (r_start r - addr) s Hi Hf Ei ltac:(lia)) as Hg.
  destruct (region_grow_down i r (r_start r - addr) s) as [[] s1].
  - destruct Hg as (K & Hrm & Hle). apply (grow_slice_ok i r addr s s1); try done.
    destruct Hrm as [(x & Ex & X1 & _) _ _].
    pose proof (ho_base _ _ _ (hi_hm s1 (ai_heap s1 (vk_inv _ _ K)) _ _ Ex)). lia.
  - destruct Hg as [K1 K2 K3 K4 K5 K6]. assert (Er : regs s1 = regs s) by (unfold regs; by rewrite K4).
    pose proof (vma_end_region (regs s) i r (hi_regs _ (ai_heap s Hi)) Ei) as Hve.
    pose proof (grow_piece_ok i r addr s1 K1 K2) as Hp. rewrite Er in Hp.
    assert (Ep : pt s1 = pt s) by (unfold pt; by rewrite K4). rewrite Ep in Hp.
    specialize (Hp Ei Ha Ha0 Hlt Hfree Hpz ltac:(lia)).
    destruct (region_grow_piece i r addr s1) as [[] s2].
    + destruct Hp as (P1 & P2 & [P3 P4]). split; [done|]. split; [done|]. split; [done|].
      intros va Hva. destruct (P4 va Hva) as (Q1 & Q2 & Q3). rewrite Er in Q1. rewrite Ep in Q2.
      by rewrite Q3, (sv_byte _ _ K3).
    + destruct Hp as [P1 P2 P3 P4 P5 P6]. split; [done|done|by apply (same_view_trans _ s1)|congruence..].
Qed.

Lemma fresh_ok_same s s' : same_heap s s' -> ms_mem s' = ms_mem s -> fresh_ok s -> fresh_ok s'.
Proof. intros Hs Em Hf h hm. rewrite (sh_hms _ _ Hs), (sh_regs _ _ Hs), Em. apply Hf. Qed.
(** The accounting changes nothing the guest sees. *)
Definition stack_account (addr grow : Z) s : MS Os :=
  as_account (match as_find_region (regs s) addr with
              | Some n => if has (r_lock n) RL_LOCKED
                          then upd_ms_as (upd_as_locked_vm (fun v => u64 (v + Z.shiftr grow 12))) s else s
              | None => s
              end).
Lemma stack_account_same addr grow s : as_inv s -> fresh_ok s ->
  as_inv (stack_account addr grow s) /\ fresh_ok (stack_account addr grow s) /\ same_view s (stack_account addr grow s).
Proof.
  intros Hi Hf. unfold stack_account. set (s1 := match _ with Some _ => _ | None => _ end).
  assert (H1 : same_heap s s1 /\ pt s1 = pt s /\ ms_mem s1 = ms_mem s).
  { unfold s1. destruct (as_find_region _ _) as [n|]; [destruct (has _ _)|]; by repeat split. }
  destruct H1 as (A1 & A2 & A3). destruct (account_same s1) as (B1 & B2 & B3).
  pose proof (as_inv_same s s1 Hi A1 A2) as Hi1. destruct (as_inv_account s1 Hi1) as [H2 V2].
  split; [done|]. split.
  - apply (fresh_ok_same s1); [done|done|by apply (fresh_ok_same s)].
  - apply (same_view_trans _ s1); [|done]. split; [by rewrite (sh_regs _ _ A1)|by rewrite A2|].
    intros va. unfold guest_byte. by rewrite (sh_regs _ _ A1), A3.
Qed.
Lemma grown_view addr r s s1 s2 : grown addr r s s1 -> same_view s1 s2 -> grown addr r s s2.
Proof.
  intros [G1 G2] [V1 V2 V3]. split; intros va; rewrite V1, V2, V3; [apply G1|apply G2].
Qed.
Lemma stacks_ok_view s s' : stacks_ok s -> fresh_ok s' -> same_view s s' -> stacks_ok s'.
Proof. intros [_ H2] Hf [V1 _ _]. split; [done|]. intros va v. rewrite V1. apply H2. Qed.

(** The first region that ends above an address, and the gap below it. *)
Lemma first_above_spec rs j va i r : regions_ok rs -> first_above rs j va = Some (i, r) ->
  (j <= i)%nat /\ rs !! (i - j)%nat = Some r /\ va < r_end r /\
  (forall q, q ∈ rs -> r_end q <= va \/ r_start r <= r_start q).
Proof.
  revert j. induction rs as [|q rs IH]; intros j Hok; [done|]. simpl.
  apply regions_ok_cons in Hok as (Hq & Hb & Hok). destruct (r_end q <=? va) eqn:E.
  - intros H. destruct (IH (S j) Hok H) as (H1 & H2 & H3 & H4). split; [lia|].
    replace (i - j)%nat with (S (i - S j)) by lia. split; [done|]. split; [done|].
    intros x [->|Hx]%elem_of_cons; [left; lia|by apply H4].
  - intros [= <- <-]. rewrite Nat.sub_diag. split; [lia|]. split; [done|]. split; [lia|].
    intros x [->|Hx]%elem_of_cons; [by right|]. right. rewrite list.Forall_forall in Hb. specialize (Hb x Hx).
    unfold before in Hb. pose proof (ro_range q Hq). lia.
Qed.
Lemma page_of_pg va : 0 <= va < GUEST_TASK_SIZE -> page_of va = pg va.
Proof.
  intros Hva. unfold page_of. change GUEST_PAGE_MASK with (Z.ones 12). change GUEST_TASK_SIZE with (2 ^ 47) in Hva.
  rewrite land_not64_ones by (unfold fits; lia). unfold pg. rewrite page_div. change (2 ^ 12) with 4096. wsolve.
Qed.

Lemma stack_extend_ok i r addr s : as_inv s -> stacks_ok s -> regs s !! i = Some r -> r_growsdown r <> 0 ->
  aligned addr -> 0 <= addr -> addr < r_start r -> free_of (regs s) addr (r_start r) ->
  let '(ok, s') := as_stack_extend i addr s in
  as_inv s' /\ stacks_ok s' /\ (if ok then grown addr r s s' else same_view s s').
Proof.
  intros Hi Hs Ei Hgd Ha Ha0 Hlt Hfree. pose proof (hinv_region s i r (ai_heap s Hi) Ei) as Rr.
  assert (Hfl : r_file r = 0).
  { pose proof (ro_range r Rr). apply (so_anon s Hs (r_start r) (slice (r_start r) r)); [|done].
    apply look_elem; [apply Hi|by eapply list_elem_of_lookup_2|lia]. }
  pose proof (extend_body_ok i r addr s Hi (so_fresh s Hs) Ei Hfl Ha Ha0 Hlt Hfree) as Hb.
  unfold as_stack_extend. rewrite Ei.
  change (match region_grow_down i r (r_start r - addr) s with
          | (true, s1) => _ | (false, s1) => _ end) with (extend_body i r addr s).
  destruct (extend_body i r addr s) as [[] s1]; cbn [negb].
  - destruct Hb as (B1 & B2 & B3). change (as_account _) with (stack_account addr (r_start r - addr) s1).
    destruct (stack_account_same addr (r_start r - addr) s1 B1 B2) as (C1 & C2 & C3).
    split; [done|]. pose proof (grown_view _ _ _ _ _ B3 C3) as G. split; [|done]. split; [done|].
    intros va v El. destruct (decide (addr <= va < r_start r)) as [Hin|Hout].
    + destruct (gw_new _ _ _ _ G va Hin) as [(w & Ew & _ & E1 & E2 & _) _]. rewrite Ew in El. injection El as <-. by rewrite E2.
    + destruct (gw_out _ _ _ _ G va Hout) as [E _]. rewrite E in El. by apply (so_anon s Hs va).
  - destruct Hb as [K1 K2 K3 _ _ _]. split; [done|]. split; [by apply (stacks_ok_view s)|done].
Qed.

(** ** [as_stack_grow] *)
Lemma stack_grow_ok nogrow va s : as_inv s -> stacks_ok s -> 0 <= va < GUEST_TASK_SIZE -> pte_get (pt s) va = 0 ->
  let '(pte, s') := as_stack_grow nogrow va s in
  as_inv s' /\ stacks_ok s' /\ pte = pte_get (pt s') va /\
  ((pte = 0 /\ same_view s s') \/
   exists i r, as_stack_grows_to va s = G_at i /\ regs s !! i = Some r /\ va < r_start r /\
     free_of (regs s) (pg va) (r_start r) /\ grown (pg va) r s s').
Proof.
  intros Hi Hs Hva Hp. unfold as_stack_grow. destruct nogrow; [split; [done|]; split; [done|]; split; [done|by left]|].
  unfold as_stack_grows_to. destruct (first_above (regs s) 0 va) as [[i r]|] eqn:E;
    [|split; [done|]; split; [done|]; split; [done|by left]].
  destruct (first_above_spec _ _ _ _ _ (hi_regs _ (ai_heap s Hi)) E) as (_ & Ei & Hend & Hgap).
  rewrite Nat.sub_0_r in Ei. destruct (tr (r_growsdown r)) eqn:Egd; cbn [negb];
    [|split; [done|]; split; [done|]; split; [done|by left]].
  destruct (r_start r <=? va) eqn:Est; [split; [done|]; split; [done|]; split; [done|by left]|].
  cbn zeta. repeat (match goal with |- context [if ?b then G_no else _] => destruct b end;
    [split; [done|]; split; [done|]; split; [done|by left]|]).
  rewrite page_of_pg by done. pose proof (hinv_region s i r (ai_heap s Hi) Ei) as Rr.
  pose proof (pg_above va 0 ltac:(done)) as Hp0. pose proof (pg_range va) as Hpr.
  assert (Hfree : free_of (regs s) (pg va) (r_start r)).
  { unfold free_of. rewrite list.Forall_forall. intros q Hq. destruct (Hgap q Hq) as [Hq1|Hq1]; [left|by right].
    destruct (hi_regs _ (ai_heap s Hi)) as [HF _]. rewrite list.Forall_forall in HF.
    pose proof (pg_above va _ (ro_end q (HF q Hq))). lia. }
  pose proof (stack_extend_ok i r (pg va) s Hi Hs Ei) as H. unfold tr in Egd.
  specialize (H ltac:(lia) (pg_aligned va) ltac:(lia) ltac:(pose proof (pg_below va _ (ro_start r Rr)); lia) Hfree).
  destruct (as_stack_extend i (pg va) s) as [[] s1]; destruct H as (H1 & H2 & H3).
  - split; [done|]. split; [done|]. split; [done|]. right. exists i, r. split; [done|]. split; [done|]. split; [lia|]. by split.
  - split; [done|]. split; [done|]. split; [by rewrite (sv_pte _ _ H3)|by left].
Qed.
End Grow.
