(* ===== verification/TransThms.v ===== *)
(** * TransThms: a translation is the mapping

    [translate] answers with the host byte of the guest's mapping and only if
    the mapping allows the access, whatever the D-TLB holds and whichever cold
    path produced the page; and it answers for every byte of ordinary memory
    that is mapped for the access. *)

From stdpp Require Import gmap.
From S2P Require Import Prelude Types Cpu CpuWf MemSeam PageTable Regions Epoch AsState AddrSpace AsInv AsSteps AsThms Translate AsSeam AsGrow.

Section Trans.
Context {Os : Type} `{!HostOs Os} `{!HostOsOk Os}.
Implicit Types s : MS Os.

(** ** What the cold paths leave of the D-TLB *)
Record tlb_kept s s' : Prop := {
  tk_me : ms_me s' = ms_me s; tk_gen : ms_gen s' = ms_gen s; tk_env : ms_env s' = ms_env s
}.
Lemma tlb_kept_refl s : tlb_kept s s.
Proof. done. Qed.
Lemma tlb_kept_trans s1 s2 s3 : tlb_kept s1 s2 -> tlb_kept s2 s3 -> tlb_kept s1 s3.
Proof. intros [] []. split; congruence. Qed.
Lemma reserve_kept fuel room len s : tlb_kept s (snd (stack_reserve fuel room len s)).
Proof.
  revert room s. induction fuel as [|f IH]; intros room s; simpl; [done|]. unfold host_mmap.
  destruct (host_len_ok _); [|destruct (room =? 0); [done|apply IH]].
  destruct (os_mmap _ _ _) as [[p|] o].
  - destruct (os_mprotect _ _ _ _) as [[] o']; [done|]. destruct (room =? 0); [done|].
    eapply tlb_kept_trans; [|apply IH]. done.
  - destruct (room =? 0); [done|]. eapply tlb_kept_trans; [|apply IH]. done.
Qed.
Lemma try_kept ext need want h fl s : tlb_kept s (snd (grow_try ext need want h fl s)).
Proof.
  unfold grow_try. destruct (fl <=? want); [done|]. destruct (_ || _ || _); [done|].
  destruct (os_mmap_at _ _ _ _) as [[p|] o]; [|done]. by destruct (p =? _).
Qed.
Lemma grow_down_kept i r grow s : tlb_kept s (snd (region_grow_down i r grow s)).
Proof.
  rewrite region_grow_down_halves. destruct (_ || _); [done|].
  assert (H1 : tlb_kept s (snd (grow_room i r (r_host r - grow) s))).
  { unfold grow_room. destruct (_ && _ && _); [|done]. cbn zeta.
    pose proof (try_kept (u64 (Z.land (grow_floor (regs s) 0 i r (hm_base (hm_at s (r_hmap r))) - (r_host r - grow) + (os_pagesz - 1))
      (not64 (os_pagesz - 1)) * 2)) (Z.land (grow_floor (regs s) 0 i r (hm_base (hm_at s (r_hmap r))) - (r_host r - grow) + (os_pagesz - 1))
      (not64 (os_pagesz - 1))) (r_host r - grow) (r_hmap r) (grow_floor (regs s) 0 i r (hm_base (hm_at s (r_hmap r)))) s) as H.
    destruct (grow_try _ _ _ _ _ s) as [fl s1]. eapply tlb_kept_trans; [exact H|apply try_kept]. }
  destruct (grow_room _ _ _ s) as [fl s1]. destruct (fl <=? _); [|done]. simpl in H1.
  apply (tlb_kept_trans _ s1); [done|]. unfold grow_marks. cbn zeta.
  set (lo := Z.land _ _). destruct (lo <? _); [destruct (os_mprotect _ _ _ _) as [[] o]; [|done]|]; cbn [negb snd];
    destruct (_ <? r_host r), (_ <? hm_fresh_hi _); done.
Qed.
Lemma insert_kept r s : tlb_kept s (region_insert r s).
Proof. unfold region_insert. by destruct (tr (r_mfdcnt r)). Qed.
Lemma grow_piece_kept i r addr s : tlb_kept s (snd (region_grow_piece i r addr s)).
Proof.
  unfold region_grow_piece. destruct (negb _); [done|]. set (hlen := Z.land _ _).
  pose proof (reserve_kept RESERVE_FUEL (stack_room (as_vma_end (regs s) i - addr) s) hlen s) as H.
  destruct (stack_reserve _ _ _ s) as [[[base room]|] s1]; [|done]. simpl in H.
  apply (tlb_kept_trans _ s1); [done|]. cbn zeta. cbn [hmap_new snd].
  match goal with |- context [region_insert ?n ?x] => destruct (insert_kept n x) as [I1 I2 I3] end.
  split; [exact I1|exact I2|exact I3].
Qed.
Lemma stack_grow_kept nogrow va s : tlb_kept s (snd (as_stack_grow nogrow va s)).
Proof.
  unfold as_stack_grow. destruct nogrow; [done|]. destruct (as_stack_grows_to va s) as [| |i]; [done|done|].
  unfold as_stack_extend. destruct (regs s !! i) as [r|]; [|done].
  assert (H1 : tlb_kept s (snd (extend_body i r (page_of va) s))).
  { unfold extend_body. pose proof (grow_down_kept i r (r_start r - page_of va) s) as H.
    destruct (region_grow_down _ _ _ s) as [[] s1]; [by destruct H|]. apply (tlb_kept_trans _ s1); [done|apply grow_piece_kept]. }
  change (match region_grow_down i r (r_start r - page_of va) s with
          | (true, s1) => _ | (false, s1) => _ end) with (extend_body i r (page_of va) s).
  destruct (extend_body i r (page_of va) s) as [[] s1]; [|done]. cbn [negb snd]. simpl in H1.
  apply (tlb_kept_trans _ s1); [done|]. unfold as_account, as_procmem. cbn zeta.
  destruct (as_find_region (regs s1) (page_of va)) as [n|]; [destruct (has _ _)|]; destruct (_ <? _); done.
Qed.

(** ** A state a thread can be in

    [core_ok] is the part the threads share; [space_ok] adds that the running
    thread's D-TLB is the page table's. *)
Record core_ok s : Prop := {
  co_inv : as_inv s;
  co_stk : stacks_ok s;
  co_gen : 0 < ms_gen s
}.
Record space_ok s : Prop := {
  sp_core : core_ok s;
  sp_tlb : coherent s
}.
Lemma sp_inv s : space_ok s -> as_inv s.
Proof. intros []. by apply co_inv. Qed.

(** ** Entries and mappings *)
Lemma page_off_pg va : page_off va = va - pg va.
Proof.
  unfold page_off, pg. change GUEST_PAGE_MASK with (Z.ones 12). rewrite Z.land_ones, page_div by lia.
  change (2 ^ 12) with 4096. pose proof (Z.div_mod va 4096). lia.
Qed.
(** The entry of [va] names the byte mapped there. *)
Lemma entry_mapping s va pte : as_inv s -> pte = pte_get (pt s) va -> pte <> 0 ->
  exists v, look (regs s) va = Some v /\ host_of pte va = r_host v /\ 0 < r_host v /\
    (forall need, fits 3 need -> Z.land pte need = need -> Z.land (r_prot v) need = need) /\
    (pte_prot pte = r_prot v \/ (r_shared v = 0 /\ pte_prot pte = Z.land (r_prot v) (not32 PTE_W))).
Proof.
  intros Hi -> Hn. destruct (ai_pte s Hi va Hn) as (v0 & El & Hv). set (pte := pte_get (pt s) va) in *.
  pose proof (ai_heap s Hi) as Hh.
  destruct (pte_of_ok _ va v0 pte (hi_regs _ Hh) (hinv_host_bound s Hh) El Hv) as (H64 & Eh & Hpos & Hp).
  exists (slice va v0). rewrite (look_pg (regs s) va) by apply (hi_regs _ Hh). rewrite El. split; [done|].
  apply look_some in El as (r & _ & Hc & ->). simpl in *.
  assert (Hhost : host_of pte va = r_host r + (pg va - r_start r) + (va - pg va)).
  { unfold host_of. rewrite Eh, page_off_pg. lia. }
  split; [done|]. pose proof (pg_range va). split; [lia|]. split; [|done].
  intros need Hf Hl.
  assert (Hl' : Z.land (pte_prot pte) need = need).
  { unfold pte_prot. rewrite <- Z.land_assoc, (Z.land_comm PTE_FLAGS). change PTE_FLAGS with (Z.ones 3).
    rewrite Z.land_ones, (Z.mod_small need) by (unfold fits in Hf; lia). done. }
  destruct Hp as [E|[_ E]]; rewrite E in Hl'; [done|].
  apply Z.bits_inj'. intros n _. apply (f_equal (fun z => Z.testbit z n)) in Hl'. cbn beta in Hl'.
  rewrite !Z.land_spec in Hl'. rewrite Z.land_spec. by destruct (Z.testbit (r_prot r) n), (Z.testbit need n).
Qed.

(** ** The cold paths, on a whole space *)

(** A space changed only where a page was missing. *)
Lemma coherent_gap s s' : coherent s -> tlb_kept s s' ->
  (forall va, pte_get (pt s) va <> 0 -> pte_get (pt s') va = pte_get (pt s) va) -> coherent s'.
Proof.
  intros Hc [Em Eg] Hp. unfold coherent. rewrite Em, Eg. intros E. specialize (Hc E).
  apply map_Forall_lookup. intros i e He. destruct (map_Forall_lookup_1 _ _ _ _ Hc He) as [H1 H2].
  split; [done|]. intros Hn. specialize (H2 Hn). rewrite Hp; [done|]. by rewrite <- H2.
Qed.
(** Mappings and their bytes are kept; new ones may have come. *)
Definition grows_only s s' : Prop := forall va v, look (regs s) va = Some v ->
  look (regs s') va = Some v /\ guest_byte s' va = guest_byte s va.
Lemma grows_view s s' : (forall va, look (regs s') va = look (regs s) va) -> ms_mem s' = ms_mem s -> grows_only s s'.
Proof. intros Hl Hm va v El. rewrite Hl. split; [done|]. unfold guest_byte. by rewrite Hl, Hm. Qed.
Lemma grows_trans s1 s2 s3 : grows_only s1 s2 -> grows_only s2 s3 -> grows_only s1 s3.
Proof. intros H1 H2 va v E. destruct (H1 va v E) as [E1 B1]. destruct (H2 va v E1) as [E2 B2]. split; congruence. Qed.

(** Present entries stay as they are. *)
Definition pt_gap s s' : Prop := forall va, pte_get (pt s) va <> 0 -> pte_get (pt s') va = pte_get (pt s) va.
Lemma core_grow nogrow va s : core_ok s -> 0 <= va < GUEST_TASK_SIZE -> pte_get (pt s) va = 0 ->
  let '(pte, s') := as_stack_grow nogrow va s in
  core_ok s' /\ pte = pte_get (pt s') va /\ grows_only s s' /\ pt_gap s s' /\ tlb_kept s s'.
Proof.
  intros [H1 H2 H3] Hva Hp. pose proof (stack_grow_ok nogrow va s H1 H2 Hva Hp) as Hg.
  pose proof (stack_grow_kept nogrow va s) as Hk. destruct (as_stack_grow nogrow va s) as [pte s']. simpl in Hk.
  destruct Hg as (G1 & G2 & G3 & G4). pose proof Hk as [Em Eg].
  assert (Hkeep : pt_gap s s' /\ grows_only s s').
  { destruct G4 as [[_ [V1 V2 V3]]|(i & r & _ & Ei & Hr & Hf & G)].
    - split; [by intros va' _; apply V2|]. intros va' v El. by rewrite V1.
    - split.
      + intros va' Hn. apply (gw_out _ _ _ _ G). intros Hin. apply Hn.
        apply (gap_pte s (pg va) (r_start r) H1 Hf); [apply pg_aligned|apply (ro_start r), (hinv_region s i r (ai_heap s H1) Ei)|done].
      + intros va' v El. destruct (gw_out _ _ _ _ G va') as (E1 & _ & E3); [|by rewrite E1].
        intros Hin. apply look_some in El as (q & Hq & Hc & _). unfold free_of in Hf. rewrite list.Forall_forall in Hf.
        specialize (Hf q Hq). lia. }
  destruct Hkeep as [Hk1 Hk2]. split; [|done]. split; [done|done|by rewrite Eg].
Qed.
Lemma space_grow nogrow va s : space_ok s -> 0 <= va < GUEST_TASK_SIZE -> pte_get (pt s) va = 0 ->
  let '(pte, s') := as_stack_grow nogrow va s in space_ok s' /\ pte = pte_get (pt s') va /\ grows_only s s'.
Proof.
  intros [Hc Ht] Hva Hp. pose proof (core_grow nogrow va s Hc Hva Hp) as Hg.
  destruct (as_stack_grow nogrow va s) as [pte s']. destruct Hg as (G1 & G2 & G3 & G4 & G5).
  split; [|done]. split; [done|]. by apply (coherent_gap s).
Qed.

Lemma core_same s s' : core_ok s -> as_inv s' -> (forall va, look (regs s') va = look (regs s) va) ->
  fresh_ok s' -> 0 < ms_gen s' -> core_ok s'.
Proof.
  intros [H1 H2 H3] Hi Hl Hf Hg. split; [done| |done]. split; [done|]. intros va v. rewrite Hl. apply H2.
Qed.
Lemma space_same s s' : space_ok s -> as_inv s' -> (forall va, look (regs s') va = look (regs s) va) ->
  fresh_ok s' -> 0 < ms_gen s' -> coherent s' -> space_ok s'.
Proof. intros [H _] Hi Hl Hf Hg Hc. split; [by apply (core_same s)|done]. Qed.
(** The page of a file that has grown is entered, and the change published. *)
Lemma core_fill va s : core_ok s -> 0 <= va < GUEST_TASK_SIZE -> pte_get (pt s) va = 0 ->
  let '(pte, s') := as_fault_fill va s in
  core_ok s' /\ pte = pte_get (pt s') va /\ grows_only s s' /\ (pte = 0 -> s' = s) /\
  (pte <> 0 -> ms_gen s' = ms_gen s + 1 /\ ms_me s' = tlb_flush (ms_me s)).
Proof.
  intros Hs Hva Hp. pose proof Hs as [H1 H2 H3].
  assert (Hno : core_ok s /\ 0 = pte_get (pt s) va /\ grows_only s s /\ (0 = 0 -> s = s) /\
                (0 <> 0 -> ms_gen s = ms_gen s + 1 /\ ms_me s = tlb_flush (ms_me s))).
  { split; [done|]. split; [done|]. split; [|done]. by apply grows_view. }
  unfold as_fault_fill. destruct (as_find_region (regs s) va) as [r|] eqn:Ef; [|done].
  destruct (tr (r_hostmap r)) eqn:Ehm; [|done]. destruct (_ && _) eqn:Eok; [|done]. clear Hno Eok.
  pose proof (find_region_some _ _ _ Ef) as [Hr Hc]. pose proof (ai_heap s H1) as Hh.
  assert (Ro : region_ok r) by (destruct (hi_regs _ Hh) as [HF _]; rewrite list.Forall_forall in HF; by apply HF).
  pose proof Ro as [R1 R2 R3 R4 R5 R6 R7]. rewrite page_of_pg by done. set (hp := r_host r + (pg va - r_start r)).
  destruct (vf_prot_cases r s R6) as [Hp0 Hp1]. set (p := vf_pte_prot r (r_prot r) s) in *.
  pose proof (pg_above va _ R2) as Hpa. pose proof (pg_below va _ R3) as Hpb. pose proof (pg_range va) as Hpr.
  assert (Hpos : 0 < hp) by (unfold hp; lia). pose proof (pg_above va 0 ltac:(done)) as Hp00.
  assert (Hend : pg va + 4096 <= GUEST_TASK_SIZE).
  { pose proof (pg_aligned va) as Q. unfold aligned in Q, R3. pose proof (Z.div_mod (pg va) 4096).
    pose proof (Z.div_mod (r_end r) 4096). lia. }
  destruct (set_range_spec s (pg va) GUEST_PAGE_SIZE hp p (ai_pt s H1) (pg_aligned va)) as [Hw Hg];
    [done|lia|done|change GUEST_PAGE_SIZE with 4096; lia|lia|].
  change GUEST_PAGE_SIZE with 4096 in *. pose proof (set_range_heap (pg va) 4096 hp p s) as Hsh.
  set (s' := pte_set_range (pg va) 4096 hp p s) in *. rewrite (proj2 (Z.eqb_neq hp 0)) in Hg by lia.
  assert (Hl : forall va', look (regs s') va' = look (regs s) va') by done.
  assert (Hin : forall va', pg va <= va' < pg va + 4096 -> pg va' = pg va).
  { intros va' Hv'. unfold pg in *. rewrite !page_div in *. wsolve. }
  assert (Hi' : as_inv s').
  { apply (as_inv_range s _ (pg va) (pg va + 4096) H1); try done.
    - by apply (hinv_same s).
    - apply pg_aligned.
    - apply aligned_add; [apply pg_aligned|done].
    - intros va' Hv'. rewrite Hg. replace ((pg va <=? va') && (va' <? pg va + 4096)) with false by lia. done.
    - intros va' Hv' _. rewrite Hg, (Hin va' Hv'). rewrite (proj2 (andb_true_iff _ _)) by lia.
      rewrite Hl. rewrite (look_elem _ _ r (hi_regs _ Hh) Hr) by lia. eexists. split; [done|].
      exists p. simpl. rewrite Z.sub_diag, Z.add_0_r. done.
    - intros va' v Hv' _ _. rewrite Hg. rewrite (proj2 (andb_true_iff _ _)) by lia.
      rewrite (Hin va' Hv'), Z.sub_diag, Z.add_0_r. pose proof (lor_pos hp p Hpos Hp0). lia.
    - intros va1 va2 v v' _. rewrite !Hl. apply (ai_inj s H1). }
  split; [|split; [|split; [|split; [|done]]]].
  - apply (core_same s); try done; [apply (fresh_ok_same s); [done|done|apply H2]|simpl; lia].
  - rewrite Hg. rewrite (proj2 (andb_true_iff _ _)) by lia. by rewrite Z.sub_diag, Z.add_0_r.
  - by apply grows_view.
  - pose proof (lor_pos hp p Hpos Hp0). lia.
Qed.
Lemma coherent_flushed s : 0 < ms_gen s -> t_dgen (ms_me s) = 0 -> coherent s.
Proof. unfold coherent. lia. Qed.
Lemma space_fill va s : space_ok s -> 0 <= va < GUEST_TASK_SIZE -> pte_get (pt s) va = 0 ->
  let '(pte, s') := as_fault_fill va s in
  space_ok s' /\ pte = pte_get (pt s') va /\ grows_only s s' /\ (pte = 0 -> s' = s).
Proof.
  intros [Hc Ht] Hva Hp. pose proof (core_fill va s Hc Hva Hp) as Hf. destruct (as_fault_fill va s) as [pte s'].
  destruct Hf as (F1 & F2 & F3 & F4 & F5). split; [|done]. split; [done|].
  destruct (decide (pte = 0)) as [E|E]; [by rewrite (F4 E)|]. apply coherent_flushed; [apply F1|]. by rewrite (proj2 (F5 E)).
Qed.

(** ** Healing a write bit *)
Lemma store_is_prot t va pte : pte = pte_get t va -> pte <> 0 -> fits 64 pte ->
  pte_store t va (Z.lor pte PTE_W) = pte_prot_one t va (Z.lor (pte_prot pte) PTE_W).
Proof.
  intros Hp Hn H64. unfold pte_store, pte_prot_one. unfold pte_get in Hp.
  destruct (pt_l1 t !! L1_IDX va) as [l2|]; [|done]. rewrite <- Hp, (proj2 (Z.eqb_neq pte 0)) by done.
  change (Z.land pte (not64 PTE_FLAGS)) with (pte_host pte). by rewrite Z.lor_assoc, (pte_split pte H64).
Qed.
Lemma heal_value h prot : Z.land h PTE_FLAGS = 0 -> has (Z.lor h prot) PTE_W = false -> has prot PTE_W = false.
Proof.
  unfold has. rewrite !negb_false_iff, !Z.eqb_eq. rewrite Z.land_lor_distr_l. by intros _ [_ H]%Z.lor_eq_0_iff.
Qed.
Lemma lor_noW prot : fits 3 prot -> has prot PTE_W = true -> Z.lor (Z.land prot (not32 PTE_W)) PTE_W = prot.
Proof.
  unfold fits. intros Hf. assert (Hc : prot = 0 \/ prot = 1 \/ prot = 2 \/ prot = 3 \/ prot = 4 \/ prot = 5 \/ prot = 6 \/ prot = 7) by lia.
  repeat destruct Hc as [->|Hc]; try done. by subst.
Qed.
Lemma coherent_fill va s : coherent s -> coherent (tlb_fill va (pte_get (pt s) va) s).
Proof.
  intros Hc. unfold coherent; simpl. intros E. specialize (Hc E).
  apply map_Forall_insert_2; [|done]. split; [done|]. simpl. intros _.
  apply pte_get_page. symmetry. by apply page_shiftl.
Qed.
(** A record kept of the page is no part of the space. *)
Lemma vf_record_kept page host s : let s' := snd (vf_record page host s) in
  ms_as s' = ms_as s /\ ms_mem s' = ms_mem s /\ same_heap s s' /\ tlb_kept s s'.
Proof. unfold vf_record. cbn zeta. destruct (0 <=? _); [done|]. by destruct (env_nomem _). Qed.

Lemma healed_inv va r s s1 : let pte := pte_get (pt s) va in
  let s2 := set_pt (fun t => pte_store t (pg va) (Z.lor pte PTE_W)) s1 in
  as_inv s -> 0 <= va < GUEST_TASK_SIZE -> pte <> 0 -> has pte PTE_W = false ->
  as_find_region (regs s) (pg va) = Some r -> has (r_prot r) PTE_W = true ->
  ms_as s1 = ms_as s -> same_heap s s1 ->
  as_inv s2 /\ (forall va', pte_get (pt s2) va' = if page va =? page va' then Z.lor pte PTE_W else pte_get (pt s) va') /\
  (forall va', look (regs s2) va' = look (regs s) va').
Proof.
  intros pte s2 H1 Hva En Ew Ef Epw Q1 Q3.
  assert (Ept : pt s1 = pt s) by (unfold pt; by rewrite Q1).
  assert (Hv : Z.lor pte PTE_W <> 0) by (intros [H0 _]%Z.lor_eq_0_iff; done).
  destruct (as_inv_pte_ok s H1 va) as [H64 Hph]. specialize (Hph En). fold pte in H64, Hph.
  assert (Epg : pte_get (pt s1) (pg va) = pte) by (by rewrite Ept, pte_get_pg).
  pose proof (find_region_some _ _ _ Ef) as [Hr Hc]. pose proof (ai_heap s H1) as Hh.
  assert (Ro : region_ok r) by (destruct (hi_regs _ Hh) as [HF _]; rewrite list.Forall_forall in HF; by apply HF).
  pose proof (pg_range va) as Hpr. pose proof (pg_above va 0 ltac:(done)) as Hp0.
  assert (Hw : pt_wf (pt s2)).
  { change (pt s2) with (pte_store (pt s1) (pg va) (Z.lor pte PTE_W)). rewrite Ept, store_is_prot; [|by rewrite pte_get_pg|done|done].
    apply (pte_prot_one_spec (pt s)); [apply H1|by apply pte_ok_hosted, as_inv_pte_ok| |lia].
    apply Z.lor_nonneg. split; [|done]. unfold pte_prot. apply Z.land_nonneg. by right. }
  assert (Hg : forall va', pte_get (pt s2) va' = if page va =? page va' then Z.lor pte PTE_W else pte_get (pt s) va').
  { intros va'. change (pt s2) with (pte_store (pt s1) (pg va) (Z.lor pte PTE_W)).
    rewrite pte_store_get; [|by rewrite Epg|done]. unfold upd_page. by rewrite page_pg, Ept. }
  assert (Hl : forall va', look (regs s2) va' = look (regs s) va').
  { intros va'. change (regs s2) with (regs s1). unfold regs. by rewrite Q1. }
  split; [|done]. split; [apply (hinv_same s); [destruct Q3; by split|done]|done|..].
  - intros va'. rewrite Hg, Hl. destruct (Z.eqb_spec (page va) (page va')) as [Epp|]; [|apply H1].
    intros _. assert (Epg' : pg va' = pg va) by (unfold pg; by rewrite Epp). rewrite Epg'.
    destruct (ai_pte s H1 va En) as (v & El & p & Ev & Hpv). exists v. split; [done|].
    rewrite (look_elem _ _ r (hi_regs _ Hh) Hr) in El by lia. injection El as <-. simpl in *.
    fold pte in Ev. assert (Hal : Z.land (r_host r + (pg va - r_start r)) PTE_FLAGS = 0).
    { apply aligned_flags0. apply aligned_add; [apply Ro|]. apply aligned_sub; [apply pg_aligned|apply Ro]. }
    rewrite Ev in Ew. apply (heal_value _ _ Hal) in Ew.
    exists (r_prot r). split; [|by left]. destruct Hpv as [->|[_ ->]]; [congruence|].
    rewrite Ev, <- Z.lor_assoc. by rewrite (lor_noW _ (ro_prot r Ro) Epw).
  - intros va' v. rewrite Hg, Hl. destruct (_ =? _); [done|]. apply H1.
  - intros va1 va2 v v'. rewrite !Hl. apply H1.
Qed.
(** The only change is the write bit of one page, which its region has. *)
Lemma core_heal va s h s' : core_ok s -> 0 <= va < GUEST_TASK_SIZE -> as_write_heal va s = (h, s') ->
  (h = 0 /\ s' = s) \/
  (h <> 0 /\ core_ok s' /\ grows_only s s' /\ tlb_kept s s' /\ h = Z.lor (pte_get (pt s) va) PTE_W /\
   pte_get (pt s) va <> 0 /\
   forall va', pte_get (pt s') va' = if page va =? page va' then h else pte_get (pt s) va').
Proof.
  intros Hs Hva E. pose proof Hs as [H1 H2 H3]. unfold as_write_heal in E. cbn zeta in E.
  rewrite page_of_pg, pte_get_pg in E by done. set (pte := pte_get (pt s) va) in *.
  destruct (negb (pte =? 0) && negb (has pte PTE_W)) eqn:Eg; [|injection E as <- <-; by left].
  apply andb_true_iff in Eg as [En Ew]. apply negb_true_iff, Z.eqb_neq in En. apply negb_true_iff in Ew.
  destruct (as_find_region (regs s) (pg va)) as [r|] eqn:Ef; [|injection E as <- <-; by left].
  destruct (negb (tr (r_shared r)) && has (r_prot r) PTE_W) eqn:Er; [|injection E as <- <-; by left].
  apply andb_true_iff in Er as [Esh Epw].
  set (q := if vf_track (ms_vf s) then vf_record (pg va) (pte_host pte) s else (true, s)) in E.
  assert (Hq : ms_as (snd q) = ms_as s /\ ms_mem (snd q) = ms_mem s /\ same_heap s (snd q) /\ tlb_kept s (snd q) /\
               (fst q = false -> snd q = s)).
  { unfold q. destruct (vf_track _); [|done]. destruct (vf_record_kept (pg va) (pte_host pte) s) as (Q1 & Q2 & Q3 & Q4).
    split; [done|]. split; [done|]. split; [done|]. split; [done|]. unfold vf_record. destruct (0 <=? _); [done|]. by destruct (env_nomem _). }
  destruct q as [ok s1]. cbn [fst snd] in Hq. destruct Hq as (Q1 & Q2 & Q3 & Q4 & Q5).
  destruct ok; [|injection E as <- <-; left; split; [done|by apply Q5]]. injection E as <- <-. right.
  destruct (healed_inv va r s s1 H1 Hva En Ew Ef Epw Q1 Q3) as (Hi2 & Hg & Hl). set (s2 := set_pt _ s1) in *.
  split; [intros [H0 _]%Z.lor_eq_0_iff; done|]. split; [|split; [by apply grows_view|split; [by destruct Q4; split|done]]].
  apply (core_same s); try done; [|change (0 < ms_gen s1); by rewrite (tk_gen _ _ Q4)].
  apply (fresh_ok_same s); [by destruct Q3; split|exact Q2|apply H2].
Qed.
Lemma host_fill_heal s s' va h : coherent s -> tlb_kept s s' -> h = pte_get (pt s') va ->
  (forall va', pte_get (pt s') va' = if page va =? page va' then h else pte_get (pt s) va') ->
  coherent (tlb_fill va h s').
Proof.
  intros H4 [K1 K2] Eh Hg. unfold coherent. cbn [ms_me tlb_fill upd_ms_me ms_gen]. rewrite K1, K2.
  cbn [t_dgen dtlb_fill with_dtlb t_dtlb].
  intros E. specialize (H4 E). apply map_Forall_lookup. intros i e [[<- <-]|[Hi He]]%lookup_insert_Some.
  - split; [done|]. simpl. intros _. rewrite Eh. apply pte_get_page. symmetry. by apply page_shiftl.
  - destruct (map_Forall_lookup_1 _ _ _ _ H4 He) as [Ei Ex]. split; [done|]. intros Hx. rewrite (Ex Hx).
    change (pt (tlb_fill va h s')) with (pt s'). rewrite Hg.
    destruct (Z.eqb_spec (page va) (page (Z.shiftl (fst e) 12))) as [Eq|]; [|done].
    exfalso. apply Hi. rewrite <- Ei. f_equal. unfold page in Eq. by rewrite Z.shiftr_shiftl_l in Eq.
Qed.
Lemma lor_has_W z : Z.land (Z.lor z PTE_W) PTE_W = PTE_W.
Proof. apply Z.bits_inj'. intros n _. rewrite Z.land_spec, Z.lor_spec. by destruct (Z.testbit z n), (Z.testbit PTE_W n). Qed.
Lemma space_heal va s h s' : space_ok s -> 0 <= va < GUEST_TASK_SIZE -> as_write_heal va s = (h, s') ->
  (h = 0 /\ s' = s) \/
  (h <> 0 /\ h = pte_get (pt s') va /\ space_ok (tlb_fill va h s') /\ grows_only s s' /\ Z.land h PTE_W = PTE_W).
Proof.
  intros [Hc Ht] Hva E. destruct (core_heal va s h s' Hc Hva E) as [H|(H1 & H2 & H3 & H4 & H5 & _ & H6)]; [by left|right].
  assert (Eh : h = pte_get (pt s') va) by (by rewrite H6, Z.eqb_refl).
  split; [done|]. split; [done|]. split; [|split; [done|rewrite H5; apply lor_has_W]]. split.
  - apply (core_same s'); try done; [by apply (as_inv_same s'); [apply H2|..]|apply H2|apply H2].
  - by apply (host_fill_heal s).
Qed.

(** ** [translate] *)
Lemma space_sync s : space_ok s -> space_ok (tlb_sync s) /\ synced (tlb_sync s) /\
  ms_as (tlb_sync s) = ms_as s /\ ms_mem (tlb_sync s) = ms_mem s /\ ms_env (tlb_sync s) = ms_env s.
Proof.
  intros Hs. pose proof Hs as [[H1 H2 H3] H4]. unfold tlb_sync.
  destruct (sync_spec (ms_gen s) (ms_pub s) (ms_me s)) as [Hg Ho].
  destruct (dtlb_sync (ms_gen s) (ms_pub s, ms_me s)) as [p t]. simpl in Hg, Ho. split; [|done].
  apply (space_same s); try done; [by apply (as_inv_same s)|apply H2|].
  unfold coherent; simpl. intros _. destruct Ho as [[E [= -> ->]]|[_ ->]]; [by apply H4|apply map_Forall_empty].
Qed.
Lemma hit_entry s va pte : space_ok s -> synced s -> dtlb_hit (ms_me s) (Z.shiftr va 12) = Some pte ->
  pte <> 0 /\ pte = pte_get (pt s) va.
Proof.
  intros Hsp Hs. unfold dtlb_hit. destruct (t_dtlb (ms_me s) !! _) as [[q x]|] eqn:E; [|done].
  destruct (negb (x =? 0) && (q =? Z.shiftr va 12)) eqn:Eb; [|done]. intros [= <-].
  apply andb_true_iff in Eb as [E0%negb_true_iff%Z.eqb_neq ->%Z.eqb_eq].
  destruct (map_Forall_lookup_1 _ _ _ _ (sp_tlb s Hsp Hs) E) as [_ Hx]. split; [done|].
  simpl in Hx. rewrite (Hx E0). apply pte_get_page. by apply page_shiftl.
Qed.
Lemma space_filled va s : space_ok s -> space_ok (tlb_fill va (pte_get (pt s) va) s).
Proof.
  intros Hs. pose proof Hs as [[H1 H2 H3] H4]. apply (space_same s); try done; [by apply (as_inv_same s)|apply H2|].
  by apply coherent_fill.
Qed.
(** The walk on a miss, cold paths included. *)
Lemma space_walk nogrow va s : space_ok s -> 0 <= va < GUEST_TASK_SIZE ->
  let '(pte, s') := walk_miss nogrow va s in space_ok s' /\ pte = pte_get (pt s') va /\ grows_only s s'.
Proof.
  intros Hs Hva. unfold walk_miss. cbn zeta. destruct (Z.eqb_spec (pte_get (pt s) va) 0) as [E0|E0].
  - pose proof (space_fill va s Hs Hva E0) as Hf. destruct (as_fault_fill va s) as [p1 s1].
    destruct Hf as (F1 & F2 & F3 & F4). destruct (Z.eqb_spec p1 0) as [E1|E1].
    + rewrite E1 in F2. specialize (F4 E1). subst s1.
      pose proof (space_grow nogrow va s Hs Hva E0) as Hg. destruct (as_stack_grow nogrow va s) as [p2 s2].
      destruct Hg as (G1 & G2 & G3). destruct (p2 =? 0); [done|]. rewrite G2.
      split; [by apply space_filled|]. split; [done|]. intros w v. apply G3.
    + rewrite (proj2 (Z.eqb_neq p1 0)) by done. rewrite F2. split; [by apply space_filled|]. split; [done|]. intros w v. apply F3.
  - cbn beta iota. rewrite (proj2 (Z.eqb_neq _ 0) E0). cbn beta iota. rewrite (proj2 (Z.eqb_neq _ 0) E0).
    split; [by apply space_filled|]. split; [done|]. by apply grows_view.
Qed.
(** The entry a translation judges. *)
Lemma space_entry nogrow va s : space_ok s -> 0 <= va < GUEST_TASK_SIZE ->
  let '(pte, s') := match dtlb_hit (ms_me (tlb_sync s)) (Z.shiftr va 12) with
                    | Some pte => (pte, tlb_sync s)
                    | None => walk_miss nogrow va (tlb_sync s)
                    end in space_ok s' /\ pte = pte_get (pt s') va /\ grows_only s s'.
Proof.
  intros Hs Hva. destruct (space_sync s Hs) as (H1 & H2 & H3 & H4 & _).
  assert (Hg : grows_only s (tlb_sync s)) by (apply grows_view; [|done]; intros; unfold regs; by rewrite H3).
  destruct (dtlb_hit _ _) as [pte|] eqn:E.
  - destruct (hit_entry _ _ _ H1 H2 E) as [_ Hp]. done.
  - pose proof (space_walk nogrow va (tlb_sync s) H1 Hva) as Hw. destruct (walk_miss nogrow va (tlb_sync s)) as [p s1].
    destruct Hw as (W1 & W2 & W3). split; [done|]. split; [done|]. by apply (grows_trans _ (tlb_sync s)).
Qed.

(** What an answer means: the byte of the mapping, which allows the access;
    a refusal is a page without the permission, or no page. *)
Definition answer_ok (need a : Z) s' (r : option Z * bool) : Prop :=
  match r with
  | (Some p, _) => exists v, look (regs s') a = Some v /\ p = r_host v /\ Z.land (r_prot v) need = need
  | (None, true) => pte_get (pt s') a <> 0 /\ Z.land (pte_get (pt s') a) need <> need
  | (None, false) => GUEST_TASK_SIZE <= a \/ pte_get (pt s') a = 0
  end.
Lemma translate_ok nogrow va need s : space_ok s -> fits 3 need ->
  let '(r, s') := as_translate nogrow va need s in
  space_ok s' /\ grows_only s s' /\ answer_ok need (data_va va need) s' r.
Proof.
  intros Hs Hf. unfold as_translate. set (a := data_va va need). pose proof (data_va_range va need) as Ha. fold a in Ha.
  destruct (GUEST_TASK_SIZE <=? a) eqn:Er; [split; [done|]; split; [by apply grows_view|left; lia]|]. cbn zeta.
  pose proof (space_entry nogrow a s Hs ltac:(lia)) as He.
  destruct (match dtlb_hit _ _ with Some _ => _ | None => _ end) as [pte s1]. destruct He as (E1 & E2 & E3).
  destruct (Z.eqb_spec pte 0) as [E0|E0]; [split; [done|]; split; [done|]; right; congruence|].
  destruct (Z.eqb_spec (Z.land pte need) need) as [El|El].
  - split; [done|]. split; [done|]. destruct (entry_mapping s1 a pte (sp_inv s1 E1) E2 E0) as (v & V1 & V2 & _ & V3 & _).
    exists v. split; [done|]. split; [done|]. by apply V3.
  - destruct (Z.eqb_spec need PTE_W) as [Ew|Ew].
    2: { rewrite Z.eqb_refl. split; [done|]. split; [done|]. simpl. by rewrite <- E2. }
    destruct (as_write_heal a s1) as [h s2] eqn:Eh.
    destruct (space_heal a s1 h s2 E1 ltac:(lia) Eh) as [[-> ->]|(Hh & H2 & H3 & H4 & H5)].
    + rewrite Z.eqb_refl. split; [done|]. split; [done|]. simpl. by rewrite <- E2.
    + rewrite (proj2 (Z.eqb_neq h 0)) by done. split; [done|].
      split; [apply (grows_trans _ s1); [done|]; intros w v; apply H4|].
      destruct (entry_mapping (tlb_fill a h s2) a h (sp_inv _ H3) H2 Hh) as (v & V1 & V2 & _ & V3 & _).
      exists v. split; [done|]. split; [done|]. apply V3; [done|]. by rewrite Ew.
Qed.

(** The environment is nobody's to change. *)
Lemma fill_env va s : ms_env (snd (as_fault_fill va s)) = ms_env s.
Proof.
  unfold as_fault_fill. destruct (as_find_region _ _) as [r|]; [|done]. destruct (tr _); [|done]. by destruct (_ && _).
Qed.
Lemma heal_env va s : ms_env (snd (as_write_heal va s)) = ms_env s.
Proof.
  unfold as_write_heal. cbn zeta. destruct (_ && _); [|done]. destruct (as_find_region _ _) as [r|]; [|done].
  destruct (_ && _); [|done]. set (q := if vf_track _ then _ else _).
  assert (Hq : ms_env (snd q) = ms_env s).
  { unfold q. destruct (vf_track _); [|done]. by destruct (vf_record_kept (page_of va) (pte_host (pte_get (pt s) (page_of va))) s) as (_ & _ & _ & [_ _ K]). }
  by destruct q as [[] s1].
Qed.
Lemma translate_env nogrow va need s : ms_env (snd (as_translate nogrow va need s)) = ms_env s.
Proof.
  unfold as_translate. destruct (_ <=? _); [done|]. cbn zeta. set (a := data_va va need).
  assert (E1 : ms_env (tlb_sync s) = ms_env s) by (unfold tlb_sync; by destruct (dtlb_sync _ _)).
  set (e := match dtlb_hit _ _ with Some _ => _ | None => _ end).
  assert (E2 : ms_env (snd e) = ms_env s).
  { unfold e. destruct (dtlb_hit _ _); [done|]. unfold walk_miss. cbn zeta. set (s1 := tlb_sync s) in *.
    set (p := if pte_get (pt s1) a =? 0 then _ else _). assert (E3 : ms_env (snd p) = ms_env s).
    { unfold p. destruct (_ =? 0); [|done]. rewrite fill_env. done. }
    destruct p as [x s2]. cbn [snd] in E3. set (p := if x =? 0 then _ else _). assert (E4 : ms_env (snd p) = ms_env s).
    { unfold p. destruct (x =? 0); [|done]. rewrite (tk_env _ _ (stack_grow_kept nogrow a s2)). done. }
    destruct p as [y s3]. cbn [snd] in E4 |- *. by destruct (y =? 0). }
  destruct e as [pte s1]. cbn [snd] in E2. destruct (pte =? 0); [done|]. destruct (_ =? need); [done|].
  set (p := if need =? PTE_W then _ else _). assert (E3 : ms_env (snd p) = ms_env s).
  { unfold p. destruct (need =? PTE_W); [|done]. by rewrite heal_env. }
  destruct p as [h s2]. cbn [snd] in E3. by destruct (h =? 0).
Qed.

(** ** Ordinary memory is always reachable *)
Lemma translate_complete nogrow va need s v : space_ok s -> need ∈ [PTE_R; PTE_W; PTE_X] ->
  look (regs s) (data_va va need) = Some v -> r_hostmap v = 0 -> Z.land (r_prot v) need = need ->
  env_nomem (ms_env s) = false ->
  fst (as_translate nogrow va need s) = (Some (r_host v), false).
Proof.
  intros Hs Hneed El Hm Hp Hmem. unfold as_translate. set (a := data_va va need) in *.
  pose proof (look_ok _ _ _ (hi_regs _ (ai_heap s (sp_inv s Hs))) El) as (Ha & _).
  rewrite (proj2 (Z.leb_gt _ _)) by lia. cbn zeta. destruct (space_sync s Hs) as (H1 & H2 & H3 & H4 & Henv).
  set (s1 := tlb_sync s) in *. assert (El1 : look (regs s1) a = Some v) by (unfold regs; by rewrite H3).
  assert (Hn : pte_get (pt s1) a <> 0) by (apply (ai_full s1 (sp_inv s1 H1) a v); done).
  set (e := match dtlb_hit _ _ with Some _ => _ | None => _ end).
  assert (He : fst e = pte_get (pt s1) a /\ (snd e = s1 \/ snd e = tlb_fill a (pte_get (pt s1) a) s1)).
  { unfold e. destruct (dtlb_hit (ms_me s1) (Z.shiftr a 12)) as [pte|] eqn:E.
    - destruct (hit_entry s1 a pte H1 H2 E) as [_ ->]. split; [done|by left].
    - unfold walk_miss. cbn zeta. rewrite (proj2 (Z.eqb_neq _ 0) Hn). cbn beta iota.
      rewrite (proj2 (Z.eqb_neq _ 0) Hn). cbn beta iota. rewrite (proj2 (Z.eqb_neq _ 0) Hn). split; [done|by right]. }
  destruct e as [pte s2]. cbn [fst snd] in He. destruct He as [-> He].
  assert (H2s : ms_as s2 = ms_as s1 /\ ms_env s2 = ms_env s1 /\ ms_vf s2 = ms_vf s1) by (by destruct He as [->| ->]).
  destruct H2s as (As & Ae & Av). assert (Ep : pt s2 = pt s1) by (unfold pt; by rewrite As).
  assert (Erg : regs s2 = regs s1) by (unfold regs; by rewrite As). clear He.
  destruct (entry_mapping s1 a _ (sp_inv s1 H1) eq_refl Hn) as (w & W1 & W2 & _ & W3 & W4).
  rewrite El1 in W1. injection W1 as <-. set (pte := pte_get (pt s1) a) in *.
  rewrite (proj2 (Z.eqb_neq pte 0)) by done. destruct (Z.eqb_spec (Z.land pte need) need) as [E|E]; [by rewrite W2|].
  assert (Hland : Z.land pte need = Z.land (pte_prot pte) need).
  { unfold pte_prot. rewrite <- Z.land_assoc. f_equal. by repeat (apply elem_of_cons in Hneed as [->|Hneed]; [done|]); apply elem_of_nil in Hneed. }
  destruct W4 as [W4|[W4 W5]]; [rewrite Hland, W4 in E; done|].
  assert (Hpf : fits 3 (r_prot v)) by apply (look_ok _ _ _ (hi_regs _ (ai_heap s (sp_inv s Hs))) El).
  assert (Ew : need = PTE_W).
  { repeat (apply elem_of_cons in Hneed as [->|Hneed]; [try done|]); [| |by apply elem_of_nil in Hneed];
      exfalso; apply E; rewrite Hland, W5, <- Z.land_assoc; exact Hp. }
  rewrite (proj2 (Z.eqb_eq need PTE_W) Ew). unfold as_write_heal. cbn zeta.
  rewrite page_of_pg, Ep, pte_get_pg by lia. fold pte. rewrite Erg.
  assert (Hw : has pte PTE_W = false).
  { unfold has. rewrite negb_false_iff, Z.eqb_eq. rewrite Ew in Hland. rewrite Hland, W5, <- Z.land_assoc.
    change (Z.land (not32 PTE_W) PTE_W) with 0. apply Z.land_0_r. }
  rewrite (proj2 (Z.eqb_neq pte 0)), Hw by done. cbn [negb andb].
  rewrite <- (find_page (regs s1) a) by apply (hi_regs _ (ai_heap s1 (sp_inv s1 H1))).
  unfold look in El1. apply fmap_Some in El1 as (r & Ef & ->). rewrite Ef. simpl in W4, Hp.
  assert (Hrw : has (r_prot r) PTE_W = true) by (unfold has; rewrite Ew in Hp; by rewrite Hp).
  rewrite W4, Hrw. cbn [tr negb andb Z.eqb].
  set (q := if vf_track (ms_vf s2) then _ else _).
  assert (Hq : fst q = true).
  { unfold q. destruct (vf_track _); [|done]. unfold vf_record. destruct (0 <=? _); [done|]. by rewrite Ae, Henv, Hmem. }
  destruct q as [ok s3]. simpl in Hq. subst ok.
  assert (Hv : Z.lor pte PTE_W <> 0) by (intros [H0 _]%Z.lor_eq_0_iff; done).
  rewrite (proj2 (Z.eqb_neq _ 0) Hv). cbn [fst]. rewrite <- W2. unfold host_of. by rewrite host_lor_W.
Qed.
End Trans.
