(* ===== verification/MmStep.v ===== *)
(** * MmStep: what any mapping operation may do to the shared state

    [mstep] is what the operations of mem.c have in common, whatever they map
    or unmap: the generation never goes back, the epoch table is not touched,
    host memory leaves the allocations only for the quarantine, stamped with a
    generation no older than the one before the call, and new allocations get
    new names. The reachable states of an address space are those its
    operations and the guest's accesses lead to; [space_ok] holds in all of
    them. *)

From stdpp Require Import gmap.
From S2P Require Import Prelude Types Cpu CpuWf MemSeam PageTable Regions Epoch AsState AddrSpace AsInv AsSteps AsThms AsProtect AsMove Translate AsSeam AsGrow TransThms.

Section Step.
Context {Os : Type} `{!HostOs Os} `{!HostOsOk Os}.
Implicit Types s : MS Os.

Definition ids_ok s : Prop := forall h hm, ms_hmaps s !! h = Some hm -> h < ms_next s.
Lemma hinv_ids s : hinv s -> ids_ok s.
Proof. intros Hi h hm E. apply (ho_id _ _ _ (hi_hm s Hi h hm E)). Qed.

(** The host byte [a] is held: by an allocation, or by the quarantine with a
    stamp of [g] or later. *)
Definition covered s (g a : Z) : Prop :=
  (exists h hm, ms_hmaps s !! h = Some hm /\ hm_base hm <= a < hm_base hm + hm_len hm) \/
  (exists q, q ∈ as_retired (ms_as s) /\ rt_addr q <= a < rt_addr q + rt_len q /\ g <= rt_gen q).
Lemma covered_live s g a : hinv s -> covered s g a -> live (ms_maps s) a = true.
Proof.
  intros Hi [(h & hm & E & Ha)|(q & Hq & Ha & _)].
  - by apply (ho_live _ _ _ (hi_hm s Hi h hm E)).
  - pose proof (hi_ret s Hi) as HF. rewrite list.Forall_forall in HF. by apply (rk_live _ _ (HF q Hq)).
Qed.
Lemma look_covered s g va v : hinv s -> look (regs s) va = Some v -> covered s g (r_host v).
Proof.
  intros Hi (r & Hr & Hc & ->)%look_some. pose proof (hi_back s Hi) as HB. rewrite list.Forall_forall in HB.
  destruct (HB r Hr) as (hm & E & H1 & H2). left. exists (r_hmap r), hm. split; [done|].
  unfold r_len in H2. simpl. lia.
Qed.

(** What no mapping operation changes of the address space's own fields, and
    the hint for the next search, which stays a place in the task. *)
Definition as_fixed (a : AS) : Z * Z * Z := (as_nthreads a, as_brk_start a, as_brk a).
Definition as_attr (a : AS) : Z * Z * Z * Z := (as_fixed a, as_mmap_next a).
Definition place_ok (a : AS) : Prop := 0 < as_mmap_next a < 2 ^ 48 /\ aligned (as_mmap_next a).
Lemma attr_both a a' : as_attr a' = as_attr a -> as_fixed a' = as_fixed a /\ (place_ok a -> place_ok a').
Proof. unfold as_attr, place_ok. intros E. injection E as E1 E2 E3 ->. split; [|done]. unfold as_fixed. congruence. Qed.
Record mstep s s' : Prop := {
  mst_gen : ms_gen s <= ms_gen s';
  mst_pub : ms_pub s' = ms_pub s;
  mst_attr : as_fixed (ms_as s') = as_fixed (ms_as s);
  mst_place : place_ok (ms_as s) -> place_ok (ms_as s');
  mst_me : ms_me s' = ms_me s \/ ms_me s' = tlb_flush (ms_me s);
  mst_ids : ids_ok s -> ids_ok s';
  mst_next : ms_next s <= ms_next s';
  mst_env : ms_env s' = ms_env s;
  mst_cov g a : ids_ok s -> g <= ms_gen s -> covered s g a -> covered s' g a;
  mst_hm h hm' : ms_hmaps s' !! h = Some hm' ->
    (exists hm, ms_hmaps s !! h = Some hm /\ hm_base hm' = hm_base hm /\ hm_len hm' = hm_len hm /\
       hm_fresh_hi hm' = hm_fresh_hi hm) \/ ms_next s <= h
}.
Lemma mst_thr s s' : mstep s s' -> as_nthreads (ms_as s') = as_nthreads (ms_as s).
Proof. intros H. pose proof (mst_attr s s' H) as E. by injection E. Qed.
(** A step that leaves the heap's bookkeeping alone. *)
Lemma mstep_soft s s' : ms_gen s' = ms_gen s -> ms_pub s' = ms_pub s ->
  as_attr (ms_as s') = as_attr (ms_as s) -> ms_me s' = ms_me s -> ms_next s' = ms_next s ->
  ms_env s' = ms_env s -> ms_hmaps s' = ms_hmaps s -> as_retired (ms_as s') = as_retired (ms_as s) -> mstep s s'.
Proof.
  intros E1 E2 [E3 Ep]%attr_both E4 E5 E6 E7 E8. split; rewrite ?E1, ?E5; try done; try lia; auto.
  - unfold ids_ok. by rewrite E7, E5.
  - intros g a _ _. unfold covered. by rewrite E7, E8.
  - intros h hm. rewrite E7. eauto 10.
Qed.
Lemma mstep_refl s : mstep s s.
Proof. by apply mstep_soft. Qed.
Lemma mstep_trans s1 s2 s3 : mstep s1 s2 -> mstep s2 s3 -> mstep s1 s3.
Proof.
  intros [A1 A2 A3 Ap A4 A5 A6 A7 A8 A9] [B1 B2 B3 Bp B4 B5 B6 B7 B8 B9].
  split; try congruence; try lia; auto.
  - destruct A4 as [E|E], B4 as [E'|E']; rewrite ?E', ?E; auto.
  - intros g a Hi Hg Hc. apply B8; [auto|lia|auto].
  - intros h hm Hh. destruct (B9 h hm Hh) as [(x & Ex & X1 & X2 & X3)|Hn]; [|right; lia].
    destruct (A9 h x Ex) as [(y & Ey & Y1 & Y2 & Y3)|Hn]; [|by right]. left. exists y. repeat split; try done; congruence.
Qed.
Lemma mstep_regs f s : mstep s (set_regs f s).
Proof. by apply mstep_soft. Qed.
Lemma mstep_pt f s : mstep s (set_pt f s).
Proof. by apply mstep_soft. Qed.
Lemma mstep_sync addr len s : mstep s (pte_sync_range addr len s).
Proof. split; try done; simpl; try lia; auto. intros h hm Hh. left. eauto 10. Qed.
Lemma mstep_set_range addr len host prot s : mstep s (pte_set_range addr len host prot s).
Proof. eapply mstep_trans; [apply mstep_pt|apply mstep_sync]. Qed.
Lemma mstep_insert r s : mstep s (region_insert r s).
Proof. unfold region_insert. destruct (tr (r_mfdcnt r)); by apply mstep_soft. Qed.
Lemma mstep_delete i s : mstep s (region_delete i s).
Proof. unfold region_delete. destruct (regs s !! i) as [r|]; [|apply mstep_refl]. destruct (tr (r_mfdcnt r)); by apply mstep_soft. Qed.
Lemma mstep_locked r lo hi s : mstep s (locked_sub r lo hi s).
Proof. unfold locked_sub. destruct (has _ _); by apply mstep_soft. Qed.

(** A HostMap rewritten, with its extent and mark as they were. *)
Lemma mstep_hm s s' h hm x : ms_hmaps s !! h = Some hm -> ms_hmaps s' = <[h := x]> (ms_hmaps s) ->
  hm_base x = hm_base hm -> hm_len x = hm_len hm -> hm_fresh_hi x = hm_fresh_hi hm ->
  ms_gen s' = ms_gen s -> ms_pub s' = ms_pub s -> as_attr (ms_as s') = as_attr (ms_as s) ->
  ms_me s' = ms_me s -> ms_next s' = ms_next s -> ms_env s' = ms_env s ->
  as_retired (ms_as s') = as_retired (ms_as s) -> mstep s s'.
Proof.
  intros E E7 X1 X2 X3 E1 E2 [E3 Ep]%attr_both E4 E5 E6 E8. split; rewrite ?E1, ?E5; try done; try lia; auto.
  - intros Hi k y. rewrite E7, E5. intros [[<- _]|[_ Hk]]%lookup_insert_Some; eapply Hi; eauto.
  - intros g a _ _ [(k & y & Ek & Ha)|Hq]; [left|right; by rewrite E8]. rewrite E7. destruct (decide (h = k)) as [<-|Hne].
    + exists h, x. rewrite lookup_insert_eq. rewrite E in Ek. injection Ek as <-. split; [done|]. lia.
    + exists k, y. by rewrite lookup_insert_ne.
  - intros k y. rewrite E7. intros [[<- <-]|[_ Hk]]%lookup_insert_Some; left; eauto 10.
Qed.
(** A HostMap gone to the quarantine. *)
Lemma mstep_retired s s' h q : ms_hmaps s' = delete h (ms_hmaps s) ->
  (forall hm, ms_hmaps s !! h = Some hm -> rt_addr q = hm_base hm /\ rt_len q = hm_len hm) -> rt_gen q = ms_gen s ->
  as_retired (ms_as s') = as_retired (ms_as s) ++ [q] ->
  ms_gen s' = ms_gen s -> ms_pub s' = ms_pub s -> as_attr (ms_as s') = as_attr (ms_as s) ->
  ms_me s' = ms_me s -> ms_next s' = ms_next s -> ms_env s' = ms_env s -> mstep s s'.
Proof.
  intros E7 Hq Hqg E8 E1 E2 [E3 Ep]%attr_both E4 E5 E6. split; rewrite ?E1, ?E5; try done; try lia; auto.
  - intros Hi k y. rewrite E7, E5. intros [_ Hk]%lookup_delete_Some. by eapply Hi.
  - intros g a _ Hg [(k & y & Ek & Ha)|(x & Hx & Ha)].
    + destruct (decide (h = k)) as [<-|Hne].
      * right. exists q. rewrite E8. destruct (Hq y Ek) as [-> ->].
        split; [apply elem_of_app; right; by apply list_elem_of_singleton|]. lia.
      * left. exists k, y. by rewrite E7, lookup_delete_ne.
    + right. exists x. rewrite E8. split; [|done]. apply elem_of_app. by left.
  - intros k y. rewrite E7. intros [_ Hk]%lookup_delete_Some. left. eauto 10.
Qed.
Lemma mstep_set_hm h g s : (forall x, hm_base (g x) = hm_base x /\ hm_len (g x) = hm_len x /\ hm_fresh_hi (g x) = hm_fresh_hi x) ->
  mstep s (set_hm h g s).
Proof.
  intros Hg. destruct (ms_hmaps s !! h) as [hm|] eqn:E.
  - rewrite (set_hm_at s h g hm E). destruct (Hg hm) as (G1 & G2 & G3). by apply (mstep_hm s _ h hm (g hm)).
  - unfold set_hm. apply mstep_soft; try done. simpl. by rewrite E.
Qed.
Lemma mstep_ref h s : mstep s (hmap_ref h s).
Proof. by apply mstep_set_hm. Qed.
Lemma mstep_unref h s : mstep s (hmap_unref h s).
Proof.
  destruct (ms_hmaps s !! h) as [hm|] eqn:E.
  - rewrite (hmap_unref_eq s h hm E). unfold unref_result.
    destruct (hm_refs hm - 1 =? 0); [destruct (negb (hm_pins hm =? 0))|].
    + by apply (mstep_hm s _ h hm (hm_with_hostlocked false (hm_with_refs (hm_refs hm - 1) hm))).
    + apply (mstep_retired s _ h (mkRet (hm_base hm) (hm_len hm) (ms_gen s))); try done.
      intros x Ex. rewrite E in Ex. by injection Ex as <-.
    + by apply (mstep_hm s _ h hm (hm_with_refs (hm_refs hm - 1) hm)).
  - assert (Es : forall g, set_hm h g s = s) by (intros g; unfold set_hm, upd_ms_hmaps; rewrite E; by destruct s).
    unfold hmap_unref. rewrite !Es. unfold hm_at. rewrite E. cbn [default hm_refs hm_null Z.eqb hm_pins negb].
    apply (mstep_retired s _ h (mkRet 0 0 (ms_gen s))); try done. intros x Ex. by rewrite E in Ex.
Qed.
(** A new HostMap has a new name. *)
Lemma mstep_new s s' x : ms_hmaps s' = <[ms_next s := x]> (ms_hmaps s) -> ms_next s' = ms_next s + 1 ->
  ms_gen s' = ms_gen s -> ms_pub s' = ms_pub s -> as_attr (ms_as s') = as_attr (ms_as s) ->
  ms_me s' = ms_me s -> ms_env s' = ms_env s -> as_retired (ms_as s') = as_retired (ms_as s) -> mstep s s'.
Proof.
  intros E7 E5 E1 E2 [E3 Ep]%attr_both E4 E6 E8. split; rewrite ?E1, ?E5; try done; try lia; auto.
  - intros Hi k y. rewrite E7, E5. intros [[<- _]|[_ Hk]]%lookup_insert_Some; [lia|]. specialize (Hi k y Hk). lia.
  - intros g a Hi _ [(k & y & Ek & Ha)|Hq]; [left|right; by rewrite E8]. exists k, y. rewrite E7, lookup_insert_ne; [done|].
    intros <-. specialize (Hi _ _ Ek). lia.
  - intros k y. rewrite E7. intros [[<- <-]|[_ Hk]]%lookup_insert_Some; [right; lia|left; eauto 10].
Qed.

(** ** The table's routines *)
Lemma mstep_split va s : mstep s (region_split_at va s).
Proof.
  unfold region_split_at. destruct (straddle _ _ _) as [[i r]|]; [|apply mstep_refl].
  eapply mstep_trans; [apply mstep_ref|]. eapply mstep_trans; [apply mstep_regs|apply mstep_insert].
Qed.
Lemma mstep_merge_loop fuel i lo hi s : mstep s (merge_loop fuel i lo hi s).
Proof.
  revert i s. induction fuel as [|f IH]; intros i s; simpl; [apply mstep_refl|].
  destruct (regs s !! i) as [a|]; [|apply mstep_refl]. destruct (regs s !! S i) as [b|]; [|apply mstep_refl].
  destruct (r_end a <? lo); [apply IH|]. destruct (hi <? r_end a); [apply mstep_refl|].
  destruct (negb _); [apply IH|]. eapply mstep_trans; [|apply IH].
  eapply mstep_trans; [apply mstep_regs|]. eapply mstep_trans; [apply mstep_unref|apply mstep_delete].
Qed.
Lemma mstep_merge lo hi s : mstep s (region_merge_range lo hi s).
Proof. apply mstep_merge_loop. Qed.
Lemma mstep_punch_loop fuel i lo hi s : mstep s (punch_loop fuel i lo hi s).
Proof.
  revert i s. induction fuel as [|f IH]; intros i s; simpl; [apply mstep_refl|].
  destruct (regs s !! i) as [r|]; [|apply mstep_refl]. destruct (_ || _); [apply IH|].
  set (a := if _ <? lo then _ else _). set (b := if hi <? _ then _ else _).
  eapply mstep_trans; [apply (mstep_locked r a b)|]. destruct (_ && _).
  - eapply mstep_trans; [|apply IH]. eapply mstep_trans; [apply mstep_unref|apply mstep_delete].
  - destruct (a =? _); [eapply mstep_trans; [|apply IH]; apply mstep_regs|].
    destruct (b =? _); [eapply mstep_trans; [|apply IH]; apply mstep_regs|].
    eapply mstep_trans; [|apply IH]. eapply mstep_trans; [apply mstep_ref|].
    eapply mstep_trans; [apply mstep_regs|apply mstep_insert].
Qed.
Lemma mstep_punch lo hi s : mstep s (region_punch lo hi s).
Proof. apply mstep_punch_loop. Qed.
Lemma mstep_protect_loop n i addr len prot s : mstep s (snd (protect_loop n i addr len prot s)).
Proof.
  revert i s. induction n as [|n IH]; intros i s; simpl; [apply mstep_refl|].
  destruct (regs s !! i) as [r|]; [|apply mstep_refl]. destruct (_ || _); [apply IH|].
  unfold protect_host. destruct (negb (tr (r_shared r))).
  { eapply mstep_trans; [|apply IH]. eapply mstep_trans; [apply mstep_regs|apply mstep_pt]. }
  assert (Hos : forall o, mstep s (upd_ms_os (fun _ => o) s)) by (intros o; by apply mstep_soft).
  destruct (os_pagesz =? GUEST_PAGE_SIZE); [|destruct (has prot PTE_W)].
  - destruct (os_mprotect _ _ _ _) as [[] o]; [|apply mstep_refl]. eapply mstep_trans; [|apply IH].
    eapply mstep_trans; [apply (Hos o)|]. eapply mstep_trans; [apply mstep_regs|apply mstep_pt].
  - destruct (os_mprotect _ _ _ _) as [[] o]; [|apply mstep_refl]. eapply mstep_trans; [|apply IH].
    eapply mstep_trans; [apply (Hos o)|]. eapply mstep_trans; [apply mstep_regs|apply mstep_pt].
  - eapply mstep_trans; [|apply IH]. eapply mstep_trans; [apply mstep_regs|apply mstep_pt].
Qed.
Lemma mstep_move_loop fuel pos addr len dst s : mstep s (move_loop fuel pos addr len dst s).
Proof.
  revert pos s. induction fuel as [|f IH]; intros pos s; simpl; [apply mstep_refl|].
  destruct (pos <? _); [|apply mstep_refl]. destruct (as_find_region (regs s) pos) as [src|]; [|apply IH].
  eapply mstep_trans; [|apply IH]. eapply mstep_trans; [apply mstep_ref|].
  eapply mstep_trans; [apply mstep_insert|apply mstep_pt].
Qed.
Lemma mstep_reserve fuel room len s : mstep s (snd (stack_reserve fuel room len s)).
Proof.
  revert room s. induction fuel as [|f IH]; intros room s; simpl; [apply mstep_refl|]. unfold host_mmap.
  destruct (host_len_ok _); [|destruct (room =? 0); [apply mstep_refl|apply IH]].
  destruct (os_mmap _ _ _) as [[p|] o].
  - destruct (os_mprotect _ _ _ _) as [[] o']; [by apply mstep_soft|]. destruct (room =? 0); [by apply mstep_soft|].
    eapply mstep_trans; [|apply IH]. by apply mstep_soft.
  - destruct (room =? 0); [by apply mstep_soft|]. eapply mstep_trans; [|apply IH]. by apply mstep_soft.
Qed.

(** ** The stacks' invariant through an operation *)
Lemma fresh_by_look s h F : regions_ok (regs s) ->
  (forall va v, look (regs s) va = Some v -> r_hmap v = h -> F <= r_host v) ->
  forall r, r ∈ regs s -> r_hmap r = h -> F <= r_host r.
Proof.
  intros Hok H r Hr E. pose proof Hok as [HF _]. rewrite list.Forall_forall in HF. pose proof (ro_range r (HF r Hr)).
  specialize (H (r_start r) (slice (r_start r) r)). simpl in H. rewrite Z.sub_diag, Z.add_0_r in H.
  apply H; [|done]. apply look_elem; [done|done|lia].
Qed.
Lemma look_fresh s va v hm : hinv s -> fresh_ok s -> look (regs s) va = Some v -> ms_hmaps s !! r_hmap v = Some hm ->
  hm_fresh_hi hm <= r_host v.
Proof.
  intros Hi Hf (r & Hr & Hc & ->)%look_some Eh. simpl in *. destruct (Hf _ hm Eh) as (_ & _ & H). specialize (H r Hr eq_refl). lia.
Qed.
(** Every mapping of [s'] is one of [s], perhaps elsewhere. *)
Definition maps_from s s' : Prop := forall va v, look (regs s') va = Some v ->
  exists va' v', look (regs s) va' = Some v' /\ r_hmap v' = r_hmap v /\ r_host v' = r_host v /\
    r_growsdown v' = r_growsdown v /\ r_file v' = r_file v.
Lemma fresh_from s s' : mstep s s' -> hinv s -> hinv s' -> ms_next s' = ms_next s ->
  (forall a, ms_mem s a = 0 -> ms_mem s' a = 0) -> maps_from s s' -> fresh_ok s -> fresh_ok s'.
Proof.
  intros Hm Hi Hi' En Hz Hl Hf h hm' Eh.
  destruct (mst_hm _ _ Hm h hm' Eh) as [(hm & E & X1 & X2 & X3)|Hn].
  2: { pose proof (ho_id _ _ _ (hi_hm s' Hi' h hm' Eh)). lia. }
  destruct (Hf h hm E) as (F1 & F2 & F3). rewrite X1, X2, X3. split; [done|]. split; [intros a Ha; by apply Hz, F2|].
  apply (fresh_by_look s'); [apply Hi'|]. intros va v El Ev. destruct (Hl va v El) as (va' & v' & El' & E1 & E2 & _).
  rewrite <- E2. apply (look_fresh s va'); [done|done|done|]. by rewrite E1, Ev.
Qed.
Lemma stacks_from s s' : mstep s s' -> hinv s -> hinv s' -> ms_next s' = ms_next s ->
  (forall a, ms_mem s a = 0 -> ms_mem s' a = 0) -> maps_from s s' -> stacks_ok s -> stacks_ok s'.
Proof.
  intros Hm Hi Hi' En Hz Hl [Hf Ha]. split; [by apply (fresh_from s)|].
  intros va v El. destruct (Hl va v El) as (va' & v' & El' & _ & _ & <- & <-). by apply (Ha va').
Qed.
(** A new allocation and its region. *)
Lemma fresh_added s s' x r : fresh_ok s -> hinv s -> hinv s' ->
  ms_hmaps s' = <[ms_next s := x]> (ms_hmaps s) -> regs s' = ins_region r (regs s) -> r_hmap r = ms_next s ->
  ms_mem s' = ms_mem s -> hm_fresh_hi x <= hm_base x + hm_len x -> hm_fresh_hi x <= r_host r ->
  (forall a, hm_base x <= a < hm_fresh_hi x -> ms_mem s a = 0) -> fresh_ok s'.
Proof.
  intros Hf Hi Hi' E7 E1 Er Em X1 X2 X3 h hm. rewrite E7, E1, Em.
  intros [[<- <-]|[Hne Hh]]%lookup_insert_Some.
  - split; [done|]. split; [done|]. intros q [->|Hq]%ins_region_elem Eq; [done|]. exfalso.
    apply list_elem_of_lookup_1 in Hq as (k & Hk). destruct (hinv_backed s k q Hi Hk) as (y & Ey & _).
    pose proof (ho_id _ _ _ (hi_hm s Hi _ _ Ey)). lia.
  - destruct (Hf h hm Hh) as (F1 & F2 & F3). split; [done|]. split; [done|].
    intros q [->|Hq]%ins_region_elem Eq; [congruence|by apply F3].
Qed.

(** ** Every operation keeps the space *)
(** What a mapping operation leaves: the shared part in order, and either
    nothing a D-TLB depends on has changed or the change is published. *)
Definition tlb_out s s' : Prop :=
  (pt s' = pt s /\ ms_gen s' = ms_gen s /\ ms_me s' = ms_me s) \/ (ms_gen s < ms_gen s' /\ t_dgen (ms_me s') = 0).
Definition core_out s s' : Prop := core_ok s' /\ tlb_out s s'.
Lemma core_out_refl s : core_ok s -> core_out s s.
Proof. intros H. split; [done|]. by left. Qed.
(** Before the quarantine is drained. *)
Definition mut_ok s s' : Prop := mstep s s' /\ core_out s s'.
Lemma mut_ok_refl s : core_ok s -> mut_ok s s.
Proof. intros H. split; [apply mstep_refl|by apply core_out_refl]. Qed.
Lemma core_out_soft s0 s s' : core_out s0 s -> as_inv s' -> regs s' = regs s -> pt s' = pt s -> ms_hmaps s' = ms_hmaps s ->
  ms_mem s' = ms_mem s -> ms_gen s' = ms_gen s -> ms_me s' = ms_me s -> core_out s0 s'.
Proof.
  intros [Hc Ht] Hi E1 E2 E3 E4 E5 E6. split; [|unfold tlb_out; by rewrite E2, E5, E6].
  apply (core_same s); [done|done|by rewrite E1| |rewrite E5; apply Hc]. intros h hm. rewrite E3, E1, E4. apply Hc.
Qed.
Lemma core_drain s0 s : core_out s0 s -> core_out s0 (as_drain_retired s).
Proof.
  intros Hs. destruct (as_inv_drain s (co_inv s (proj1 Hs))) as [Hi _]. rewrite drain_eff in *. by apply (core_out_soft s0 s).
Qed.
Lemma core_account s0 s : core_out s0 s -> core_out s0 (as_account s).
Proof.
  intros Hs. destruct (as_inv_account s (co_inv s (proj1 Hs))) as [Hi _].
  apply (core_out_soft s0 s); try done; unfold as_account, as_procmem; cbn zeta; by destruct (_ <? _).
Qed.
Lemma core_finish s0 d rc s : core_out s0 s -> core_out s0 (snd (finish d (rc, s))).
Proof.
  intros Hs. unfold finish. cbn [snd]. assert (H1 : core_out s0 (if rc =? 0 then as_account s else s)).
  { destruct (rc =? 0); [by apply core_account|done]. }
  destruct d; [by apply core_drain|done].
Qed.
(** An operation that ended with the page table published. *)
Lemma core_published s s' : as_inv s' -> stacks_ok s' -> 0 < ms_gen s -> ms_gen s < ms_gen s' -> t_dgen (ms_me s') = 0 ->
  core_out s s'.
Proof. intros Hi Hs H0 Hg Ht. split; [split; [done|done|lia]|]. by right. Qed.
Lemma core_space s s' : space_ok s -> core_out s s' -> space_ok s'.
Proof.
  intros Hs [Hc [(E1 & E2 & E3)|[Hg Ht]]]; split; try done.
  - unfold coherent. rewrite E1, E2, E3. apply Hs.
  - apply coherent_flushed; [apply Hc|done].
Qed.
Lemma maps_from_view s s' : (forall va, look (regs s') va = look (regs s) va \/ look (regs s') va = None) -> maps_from s s'.
Proof. intros H va v E. destruct (H va) as [H'|H']; [|congruence]. exists va, v. rewrite <- H'. done. Qed.

Lemma unmap_core addr len s : core_ok s -> 0 <= addr -> 0 <= len -> mut_ok s (snd (guest_unmap_impl addr len s)).
Proof.
  intros Hs Ha Hl. unfold guest_unmap_impl. destruct (misaligned _ || _ || _) eqn:E; [by apply mut_ok_refl|]. cbn [snd].
  rewrite !orb_false_iff, negb_false_iff, misaligned_false, aligned_lor, range_ok_iff in E.
  destruct E as [[[Ea El] E0] Er]. pose proof Hs as [H1 H2 H3].
  destruct (unmap_ok s addr len H1 Ea El ltac:(lia) Ha ltac:(lia)) as (U1 & U2 & _).
  destruct (punch_ok addr (addr + len) Ea (aligned_add _ _ Ea El) ltac:(lia) s (ai_heap s H1)) as (_ & T & _).
  set (s' := pte_set_range addr len 0 0 _) in *.
  assert (Hm : mstep s s') by (eapply mstep_trans; [apply mstep_punch|apply mstep_set_range]).
  split; [done|]. apply core_published; [done| |done|pose proof (mst_gen _ _ (mstep_punch addr (addr + len) s)); simpl; lia|reflexivity].
  - apply (stacks_from s); [done|apply H1|apply U1|exact (ts_next _ _ T)| | |done].
    + intros a. change (ms_mem s') with (ms_mem (region_punch addr (addr + len) s)). by rewrite (ts_mem _ _ T).
    + apply maps_from_view. intros va. rewrite U2. destruct (_ && _); [by right|by left].
Qed.
Lemma moved_maps addr len dst s s' : dst + len <= addr \/ addr + len <= dst ->
  moved addr len dst s s' -> maps_from s s'.
Proof.
  intros Hd [M1 M2 M3] va v El. destruct (decide (addr <= va < addr + len)) as [H1|H1].
  { destruct (M2 va H1) as [E _]. congruence. }
  destruct (decide (dst <= va < dst + len)) as [H2|H2].
  - destruct (M1 (va - dst) ltac:(lia)) as [E _]. replace (dst + (va - dst)) with va in E by lia. rewrite E in El.
    apply fmap_Some in El as (w & Ew & ->). by exists (addr + (va - dst)), w.
  - destruct (M3 va H1 H2) as [E _]. rewrite E in El. by exists va, v.
Qed.
Lemma move_loop_mem fuel pos addr len dst s :
  ms_mem (move_loop fuel pos addr len dst s) = ms_mem s /\ ms_next (move_loop fuel pos addr len dst s) = ms_next s.
Proof.
  revert pos s. induction fuel as [|f IH]; intros pos s; simpl; [done|].
  destruct (pos <? _); [|done]. destruct (as_find_region (regs s) pos) as [src|]; [|apply IH].
  set (s1 := set_pt _ _). destruct (IH (if r_end src <? addr + len then r_end src else addr + len) s1) as [-> ->].
  unfold s1, region_insert. by destruct (tr (r_mfdcnt _)).
Qed.
(** The body of a move, step by step. *)
Lemma move_body_step addr len dst s : hinv s -> aligned addr -> aligned len -> aligned dst -> 0 < len ->
  let s1 := pte_set_range dst len 0 0 (region_punch dst (dst + len) s) in
  let s2 := pte_sync_range dst len (move_loop (npages len) addr addr len dst s1) in
  let s' := pte_set_range addr len 0 0 (region_punch addr (addr + len) s2) in
  hinv s2 -> mstep s s' /\ ms_next s' = ms_next s /\ ms_mem s' = ms_mem s /\ t_dgen (ms_me s') = 0 /\ ms_gen s < ms_gen s'.
Proof.
  intros Hi Ha Hl Hd Hp. cbn zeta. set (s1 := pte_set_range dst len 0 0 _). set (s2 := pte_sync_range dst len _). intros Hi2.
  destruct (punch_ok dst (dst + len) Hd (aligned_add _ _ Hd Hl) ltac:(lia) s Hi) as (_ & T1 & _).
  destruct (punch_ok addr (addr + len) Ha (aligned_add _ _ Ha Hl) ltac:(lia) s2 Hi2) as (_ & T2 & _).
  destruct (move_loop_mem (npages len) addr addr len dst s1) as [L1 L2].
  assert (M2 : mstep s s2).
  { eapply mstep_trans; [eapply mstep_trans; [apply mstep_punch|apply mstep_set_range]|].
    eapply mstep_trans; [apply mstep_move_loop|apply mstep_sync]. }
  assert (M3 : mstep s2 (region_punch addr (addr + len) s2)) by apply mstep_punch.
  split; [|split; [|split; [|split; [reflexivity|]]]].
  - eapply mstep_trans; [exact M2|]. eapply mstep_trans; [exact M3|apply mstep_set_range].
  - etransitivity; [exact (ts_next _ _ T2)|]. etransitivity; [exact L2|]. exact (ts_next _ _ T1).
  - etransitivity; [exact (ts_mem _ _ T2)|]. etransitivity; [exact L1|]. exact (ts_mem _ _ T1).
  - pose proof (mst_gen _ _ M2). pose proof (mst_gen _ _ M3).
    change (ms_gen (pte_set_range addr len 0 0 (region_punch addr (addr + len) s2))) with (ms_gen (region_punch addr (addr + len) s2) + 1). lia.
Qed.
Lemma move_core addr len dst s : core_ok s -> 0 <= addr -> 0 <= len -> 0 <= dst ->
  mut_ok s (snd (guest_remap_move_impl addr len dst s)).
Proof.
  intros Hs Ha Hl Hd. pose proof Hs as [H1 H2 H3].
  pose proof (move_impl_ok s addr len dst H1 Ha Hl Hd) as Hm. unfold guest_remap_move_impl in *.
  destruct (misaligned _ || _) eqn:E1; [by apply mut_ok_refl|].
  destruct (negb (range_ok addr len) || negb (range_ok dst len)) eqn:E2; [by apply mut_ok_refl|].
  destruct ((dst <? addr + len) && (addr <? dst + len)) eqn:E3; [by apply mut_ok_refl|]. cbn [snd].
  destruct Hm as [Hi [[_ Hmv]|[? _]]]; [|done].
  apply orb_false_iff in E1 as [E1 E4]. rewrite misaligned_false, !aligned_lor in E1. destruct E1 as [[Aa Al] Ad].
  apply orb_false_iff in E2 as [E2 E5]. apply negb_false_iff in E2, E5. rewrite range_ok_iff in E2, E5.
  assert (Hdis : dst + len <= addr \/ addr + len <= dst) by lia.
  assert (Hh2 : hinv (pte_sync_range dst len (move_loop (npages len) addr addr len dst
                  (pte_set_range dst len 0 0 (region_punch dst (dst + len) s))))).
  { destruct (move_copied addr len dst Aa Al Ad ltac:(lia) Ha Hd ltac:(lia) ltac:(lia) Hdis s H1) as [C1 _ _ _ _].
    eapply hinv_same; [apply sync_heap|exact C1]. }
  destruct (move_body_step addr len dst s (ai_heap s H1) Aa Al Ad ltac:(lia) Hh2) as (M1 & M2 & M3 & M4 & M5).
  split; [done|]. apply core_published; [done| |done|done|exact M4].
  apply (stacks_from s); [done|apply H1|apply Hi|done|by rewrite M3|by apply (moved_maps addr len dst)|done].
Qed.

(** *** Protection *)
Lemma mstep_protect addr len prot s : mstep s (snd (guest_protect_impl addr len prot s)).
Proof.
  unfold guest_protect_impl. destruct (misaligned _); [apply mstep_refl|]. destruct (negb _); [apply mstep_refl|].
  destruct (negb _); [apply mstep_refl|]. destruct (_ && _); [apply mstep_refl|].
  set (s1 := region_split_at (addr + len) (region_split_at addr s)).
  assert (H1 : mstep s s1) by (eapply mstep_trans; apply mstep_split).
  pose proof (mstep_protect_loop (length (regs s1)) 0 addr len prot s1) as H2.
  destruct (protect_loop _ 0 addr len prot s1) as [[] s2]; cbn [snd] in *.
  - eapply mstep_trans; [exact H1|]. eapply mstep_trans; [exact H2|]. eapply mstep_trans; [apply (mstep_sync addr len)|apply mstep_merge].
  - eapply mstep_trans; [exact H1|exact H2].
Qed.
(** A protection that the host has not cut short: it was carried out, or it was
    refused before the permission of any page had changed, by [guest_protect]
    itself or by the host at the first region of the range. *)
Definition protect_whole (addr len prot : Z) s : Prop :=
  fst (guest_protect addr len prot s) = 0 \/ snd (guest_protect addr len prot s) = s \/
  snd (guest_protect addr len prot s) = region_split_at (addr + len) (region_split_at addr s).
Lemma protect_refused addr len prot s : protect_whole addr len prot s -> as_inv s ->
  let '(rc, s') := guest_protect_impl addr len prot s in
  rc = 0 \/ (tabstep s s' /\ forall va, look (regs s') va = look (regs s) va).
Proof.
  unfold protect_whole, guest_protect. intros Hg Hi.
  assert (Ha : snd (guest_protect_impl addr len prot s) = s \/ (aligned addr /\ aligned len)).
  { unfold guest_protect_impl. destruct (misaligned _) eqn:E; [by left|]. right. rewrite misaligned_false, aligned_lor in E. tauto. }
  destruct (guest_protect_impl addr len prot s) as [rc s']. cbn [fst snd] in *.
  destruct Hg as [->|[->| ->]]; [by left|right; by split; [apply tabstep_refl|]|right].
  destruct Ha as [->|[Ha Hl]]; [by split; [apply tabstep_refl|]|].
  destruct (split_both_ok addr len s Hi Ha Hl) as (_ & H1 & H2 & _). by split.
Qed.
Lemma protect_loop_mem n i addr len prot s :
  ms_mem (snd (protect_loop n i addr len prot s)) = ms_mem s /\ ms_next (snd (protect_loop n i addr len prot s)) = ms_next s.
Proof.
  revert i s. induction n as [|n IH]; intros i s; simpl; [done|].
  destruct (regs s !! i) as [r|]; [|done]. destruct (_ || _); [apply IH|].
  destruct (protect_host r addr len prot s) as [s1|] eqn:E; [|done].
  apply protect_host_eff in E as (o & ->). set (s2 := set_pt _ _). by destruct (IH (S i) s2) as [-> ->].
Qed.
Lemma unref_mem h s : ms_mem (hmap_unref h s) = ms_mem s /\ ms_next (hmap_unref h s) = ms_next s.
Proof. unfold hmap_unref. cbn zeta. destruct (_ =? 0); [destruct (negb _)|]; done. Qed.
Lemma delete_mem i s : ms_mem (region_delete i s) = ms_mem s /\ ms_next (region_delete i s) = ms_next s.
Proof. unfold region_delete. destruct (regs s !! i) as [r|]; [|done]. by destruct (tr (r_mfdcnt r)). Qed.
Lemma merge_loop_mem fuel i lo hi s :
  ms_mem (merge_loop fuel i lo hi s) = ms_mem s /\ ms_next (merge_loop fuel i lo hi s) = ms_next s.
Proof.
  revert i s. induction fuel as [|f IH]; intros i s; simpl; [done|].
  destruct (regs s !! i) as [a|]; [|done]. destruct (regs s !! S i) as [b|]; [|done].
  destruct (r_end a <? lo); [apply IH|]. destruct (hi <? r_end a); [done|]. destruct (negb _); [apply IH|].
  set (s1 := set_regs _ s). destruct (IH i (region_delete (S i) (hmap_unref (r_hmap b) s1))) as [-> ->].
  destruct (delete_mem (S i) (hmap_unref (r_hmap b) s1)) as [-> ->]. by destruct (unref_mem (r_hmap b) s1) as [-> ->].
Qed.
Lemma split_mem va s : ms_mem (region_split_at va s) = ms_mem s /\ ms_next (region_split_at va s) = ms_next s.
Proof.
  unfold region_split_at. destruct (straddle _ _ _) as [[i r]|]; [|done]. unfold region_insert. by destruct (tr (r_mfdcnt _)).
Qed.
Lemma protect_mem addr len prot s : let s' := snd (guest_protect_impl addr len prot s) in
  ms_mem s' = ms_mem s /\ ms_next s' = ms_next s.
Proof.
  cbn zeta. unfold guest_protect_impl. destruct (misaligned _); [done|]. destruct (negb _); [done|].
  destruct (negb _); [done|]. destruct (_ && _); [done|]. set (s1 := region_split_at (addr + len) (region_split_at addr s)).
  assert (H1 : ms_mem s1 = ms_mem s /\ ms_next s1 = ms_next s).
  { unfold s1. destruct (split_mem (addr + len) (region_split_at addr s)) as [-> ->]. apply split_mem. }
  destruct H1 as [<- <-]. destruct (protect_loop_mem (length (regs s1)) 0 addr len prot s1) as [<- <-].
  destruct (protect_loop _ 0 addr len prot s1) as [[] s2]; [|done]. cbn [snd].
  apply (merge_loop_mem _ 0 addr (addr + len) (flush_me (as_gen_bump (jit_invalidate_range addr len s2)))).
Qed.
Lemma protect_core addr len prot s : protect_whole addr len prot s -> core_ok s -> 0 <= addr -> 0 < len -> fits 3 prot ->
  mut_ok s (snd (guest_protect_impl addr len prot s)).
Proof.
  intros Hg Hs Ha Hl Hp. pose proof Hs as [H1 H2 H3]. pose proof (protect_impl_ok addr len prot s H1 Ha Hl Hp) as Hpi.
  apply (protect_refused _ _ _ _) in Hg; [|done].
  pose proof (mstep_protect addr len prot s) as Hm.
  destruct (protect_mem addr len prot s) as [E1 E2].
  destruct (guest_protect_impl addr len prot s) as [rc s']. cbn [fst snd] in *. destruct Hpi as (P1 & P2 & _).
  destruct Hg as [E0|[T L]].
  2:{ split; [done|]. split; [|left; split; [apply T|split; apply T]]. apply (core_same s); [done|done|done| |by rewrite (ts_gen _ _ T)].
      apply (fresh_from s); [done|apply H1|apply P1|done|by rewrite E1| |apply H2]. intros va v. rewrite L. intros El. by exists va, v. }
  destruct (P2 E0) as [Q1 Q2 Q3 Q4 Q5]. split; [done|]. apply core_published; [done| |done|lia|done].
  apply (stacks_from s); [done|apply H1|apply P1|done|by rewrite E1| |done].
  intros va v El. destruct (decide (addr <= va < addr + len)) as [Hin|Hout].
  - destruct (Q1 va Hin) as (w & Ew & Ew' & _). rewrite Ew' in El. injection El as <-. by exists va, w.
  - destruct (Q2 va Hout) as [E _]. rewrite E in El. by exists va, v.
Qed.

(** *** New memory *)
Lemma mstep_host s s' : host_step s s' -> ms_pub s' = ms_pub s -> ms_me s' = ms_me s -> mstep s s'.
Proof. intros [E1 E2 E3 E4 E5 E6 _ _] E7 E8. apply mstep_soft; rewrite ?E1; done. Qed.
Lemma alloc_mstep len s : mstep s (snd (host_alloc len s)).
Proof.
  unfold host_alloc, host_mmap. destruct (host_len_ok len); [|apply mstep_refl].
  destruct (os_mmap _ _ _) as [[p|] o]; by apply mstep_soft.
Qed.
(** What comes after the punch: a region over a new allocation, published. *)
Lemma added_gen s s1 s2 s' x r : core_ok s -> mstep s s1 -> hinv s1 -> fresh_ok s1 -> (forall va v, look (regs s1) va = Some v -> r_growsdown v <> 0 -> r_file v = 0) ->
  mstep s' s2 -> same_heap s' s2 -> ms_mem s2 = ms_mem s' -> ms_gen s' < ms_gen s2 -> t_dgen (ms_me s2) = 0 -> as_inv s2 ->
  ms_hmaps s' = <[ms_next s1 := x]> (ms_hmaps s1) -> regs s' = ins_region r (regs s1) -> r_hmap r = ms_next s1 ->
  ms_mem s' = ms_mem s1 -> mstep s1 s' -> ms_gen s' = ms_gen s1 -> (r_growsdown r <> 0 -> r_file r = 0) ->
  free_of (regs s1) (r_start r) (r_end r) -> region_ok r ->
  hm_fresh_hi x <= hm_base x + hm_len x -> hm_fresh_hi x <= r_host r ->
  (forall a, hm_base x <= a < hm_fresh_hi x -> ms_mem s1 a = 0) -> mut_ok s s2.
Proof.
  intros Hs Hm Hi1 Hf1 Ha1 Hm2 Hsh Em2 Hg2 Ht2 Hi2 E7 E1 Er Em Hm' Eg Efile Hfree Hok X1 X2 X3. pose proof Hs as [H1 H2 H3].
  split; [eapply mstep_trans; [exact Hm|]; by eapply mstep_trans|].
  assert (E1' : regs s2 = ins_region r (regs s1)) by (by rewrite (sh_regs _ _ Hsh)).
  apply core_published; [done| |done|pose proof (mst_gen _ _ Hm); lia|done]. split.
  - apply (fresh_added s1 s2 x r); try done; [apply Hi2|by rewrite (sh_hms _ _ Hsh)|congruence].
  - intros va v. rewrite E1', look_ins; [|apply Hi1|done|done].
    destruct (contains va r); [by intros [= <-]|apply Ha1].
Qed.
Lemma added_core s s1 s2 s' x r : core_ok s -> mstep s s1 -> hinv s1 -> fresh_ok s1 -> (forall va v, look (regs s1) va = Some v -> r_growsdown v <> 0 -> r_file v = 0) ->
  s2 = pte_set_range (r_start r) (r_len r) (r_host r) (r_prot r) s' -> as_inv s2 ->
  ms_hmaps s' = <[ms_next s1 := x]> (ms_hmaps s1) -> regs s' = ins_region r (regs s1) -> r_hmap r = ms_next s1 ->
  ms_mem s' = ms_mem s1 -> mstep s1 s' -> ms_gen s' = ms_gen s1 -> r_file r = 0 ->
  free_of (regs s1) (r_start r) (r_end r) -> region_ok r ->
  hm_fresh_hi x <= hm_base x + hm_len x -> hm_fresh_hi x <= r_host r ->
  (forall a, hm_base x <= a < hm_fresh_hi x -> ms_mem s1 a = 0) -> mut_ok s s2.
Proof.
  intros Hs Hm Hi1 Hf1 Ha1 -> Hi2 E7 E1 Er Em Hm' Eg Efile Hfree Hok X1 X2 X3.
  apply (added_gen s s1 _ s' x r); try done; [apply mstep_set_range|apply set_range_heap|simpl; lia].
Qed.

(** After a host mapping and the punch of the range. *)
Lemma punched_core s s1 addr len : core_ok s -> host_step s s1 -> ms_pub s1 = ms_pub s -> ms_me s1 = ms_me s ->
  aligned addr -> aligned len -> 0 < len ->
  let s2 := region_punch addr (addr + len) s1 in
  mstep s s2 /\ hinv s2 /\ fresh_ok s2 /\
  (forall va v, look (regs s2) va = Some v -> r_growsdown v <> 0 -> r_file v = 0) /\
  ms_mem s2 = ms_mem s1 /\ ms_next s2 = ms_next s /\ punched addr (addr + len) s s2.
Proof.
  intros Hs Hh Ep Em Ha Hl Hpos. cbn zeta. pose proof Hs as [H1 H2 H3].
  assert (Hi1 : hinv s1) by (apply (hinv_host s); [done|apply H1]).
  destruct (punch_ok addr (addr + len) Ha (aligned_add _ _ Ha Hl) ltac:(lia) s1 Hi1) as (P1 & P2 & P3).
  set (s2 := region_punch addr (addr + len) s1) in *.
  assert (Er : regs s1 = regs s) by (unfold regs; by rewrite (hs_as _ _ Hh)).
  assert (Hm1 : mstep s1 s2) by apply mstep_punch.
  assert (Hmf : maps_from s1 s2) by (apply maps_from_view; intros va; rewrite P3; destruct (_ && _); [by right|by left]).
  split; [eapply mstep_trans; [by apply mstep_host|done]|]. split; [done|]. split.
  - apply (fresh_from s1); [done|done|done|exact (ts_next _ _ P2)|by rewrite (ts_mem _ _ P2)|done|].
    apply (fresh_ok_host s); [apply H1|done|apply H2].
  - split; [|split; [exact (ts_mem _ _ P2)|split]].
    + intros va v El. destruct (Hmf va v El) as (va' & v' & El' & _ & _ & <- & <-). rewrite Er in El'. by apply (so_anon s H2 va').
    + rewrite (ts_next _ _ P2). apply Hh.
    + intros va. rewrite P3. by rewrite Er.
Qed.
Lemma map_anon_core addr len prot s : core_ok s -> 0 <= addr -> 0 <= len -> fits 3 prot ->
  mut_ok s (snd (guest_map_anon_impl addr len prot s)).
Proof.
  intros Hs Ha0 Hl0 Hp. pose proof (map_anon_impl_ok s addr len prot (co_inv s Hs) Ha0 Hl0 Hp) as Hok.
  unfold guest_map_anon_impl in *. destruct (misaligned _ || _ || _) eqn:Eg; [by apply mut_ok_refl|].
  destruct (map_guard addr len Ha0 Hl0 Eg) as (Ha & Hl & Hpos & Hr).
  destruct (host_alloc len s) as [[host|] s1] eqn:Eal.
  2: { destruct (host_alloc_none len s s1 Eal) as (o & ->). split; [by apply mstep_soft|].
       by apply (core_out_soft s s); [apply core_out_refl|apply Hok|..]. }
  destruct (host_alloc_eff len s host s1 Eal) as (o & Emm & ->). pose proof (os_mmap_ok _ _ _ _ _ Emm) as Hf.
  destruct (fresh_step s host len o Hf) as (Hst & _ & _). set (s1 := upd_ms_mem _ _) in *.
  destruct (punched_core s s1 addr len Hs Hst eq_refl eq_refl Ha Hl Hpos) as (P1 & P2 & P3 & P4 & P5 & P6 & P7).
  set (s2 := region_punch addr (addr + len) s1) in *. cbn [hmap_new snd] in *.
  set (r := anon_region addr len prot host (ms_next s2)) in *. pose proof Hf as (F1 & F2 & F3%pagesz_aligned & F4).
  assert (Hrk : region_ok r) by (split; simpl; try done; try lia; by apply aligned_add).
  assert (Elen : r_len r = len) by (unfold r_len; simpl; lia).
  set (s4 := region_insert r _) in *.
  apply (added_core s s2 (pte_set_range addr len host prot s4) s4 (mkHM host len 1 0 host host false) r); try done.
  all: try (by rewrite Elen). all: try (simpl; lia). all: try apply Hok.
  - by apply (mstep_new s2 _ (mkHM host len 1 0 host host false)).
  - apply (punched_free addr (addr + len) s); [lia|apply P2|done].
Qed.
Lemma host_core s s' : core_ok s -> host_step s s' -> ms_pub s' = ms_pub s -> ms_me s' = ms_me s -> mut_ok s s'.
Proof.
  intros Hs Hh Ep Em. pose proof Hs as [H1 H2 H3]. destruct (as_inv_host s s' Hh H1) as [Hi V].
  split; [by apply mstep_host|]. split; [|left; unfold pt; by rewrite Em, (hs_gen _ _ Hh), (hs_as _ _ Hh)].
  apply (core_same s); [done|done|apply V| |by rewrite (hs_gen _ _ Hh)].
  apply (fresh_ok_host s); [apply H1|done|apply H2].
Qed.
Lemma map_stack_core addr len prot s : core_ok s -> 0 <= addr -> 0 <= len -> fits 3 prot ->
  mut_ok s (snd (guest_map_stack_impl addr len prot s)).
Proof.
  intros Hs Ha0 Hl0 Hp. pose proof (map_stack_impl_ok s addr len prot (co_inv s Hs) Ha0 Hl0 Hp) as Hok.
  unfold guest_map_stack_impl in *. destruct (misaligned _ || _ || _) eqn:Eg; [by apply mut_ok_refl|].
  destruct (map_guard addr len Ha0 Hl0 Eg) as (Ha & Hl & Hpos & Hr). destruct (negb (host_len_ok len)); [by apply mut_ok_refl|].
  pose proof (stack_reserve_ok RESERVE_FUEL (stack_room len s) len s (stack_room_whole len s Hl0) Hpos) as Hsr.
  pose proof (reserve_kept RESERVE_FUEL (stack_room len s) len s) as [Hme _].
  pose proof (mst_pub _ _ (mstep_reserve RESERVE_FUEL (stack_room len s) len s)) as Hpub.
  destruct (stack_reserve _ _ len s) as [[[base room]|] s1]; cbn [snd] in Hme, Hpub; [|by apply (host_core s)].
  destruct Hsr as ([Hw1 Hw2] & s0 & Hs0 & Hs1 & Hf & _ & Hz). pose proof (host_step_trans _ _ _ Hs0 Hs1) as Hh.
  destruct (punched_core s s1 addr len Hs Hh Hpub Hme Ha Hl Hpos) as (P1 & P2 & P3 & P4 & P5 & P6 & P7).
  set (s2 := region_punch addr (addr + len) s1) in *. cbn [hmap_new snd] in *.
  set (id := if _ =? 0 then 1 else _) in *. set (h := ms_next s2) in *.
  set (r := mkRegion addr (addr + len) prot 0 0 1 (base + room) h None 0 0 0 0 0 0 0 0 1 id 0 0 0) in *.
  set (x := mkHM base (room + len) 1 0 (base + room) (base + room) false). set (s4 := region_insert r _) in *.
  pose proof Hf as (F1 & F2 & F3%pagesz_aligned & F4).
  assert (Hra : aligned (base + room)) by (apply aligned_add; [done|by apply pagesz_aligned]).
  assert (Hrk : region_ok r) by (split; simpl; try done; try lia; by apply aligned_add).
  assert (Elen : r_len r = len) by (unfold r_len; simpl; lia).
  assert (Es : ms_hmaps s4 = <[h := x]> (ms_hmaps s2)).
  { change (ms_hmaps s4) with (match <[h := mkHM base (room + len) 1 0 base base false]> (ms_hmaps s2) !! h with
      | Some y => <[h := hm_with_fresh (base + room) (base + room) y]> (<[h := mkHM base (room + len) 1 0 base base false]> (ms_hmaps s2))
      | None => <[h := mkHM base (room + len) 1 0 base base false]> (ms_hmaps s2) end).
    by rewrite lookup_insert_eq, insert_insert_eq. }
  apply (added_core s s2 (pte_set_range addr len (base + room) prot s4) s4 x r); try done.
  all: try (by rewrite Elen). all: try (simpl; lia). all: try apply Hok.
  - by apply (mstep_new s2 _ x).
  - apply (punched_free addr (addr + len) s); [lia|apply P2|done].
  - simpl. intros a Hb. rewrite P5. apply Hz. lia.
Qed.

End Step.
