(* ===== verification/MmReach.v ===== *)
(** * MmReach: the states a guest's operations lead to

    Two more groups of operations of mem.c keep an address space in order:
    those that only rewrite what a mapping is marked with (memory locks, fork
    advice), and the mapping of files. With the operations of [MmStep] they
    make [mm_op]; [mm_reach] is what they and the guest's accesses lead to. *)

From stdpp Require Import gmap.
From Stdlib Require Import String.
From S2P Require Import Prelude Types Cpu CpuWf MemSeam PageTable Regions Epoch AsState AddrSpace AsInv AsSteps AsThms AsProtect AsMove Translate AsSeam AsGrow TransThms MmStep.

(** ** Marks *)

(** A region without its marks: fork advice, lock, special, SysV lock hint and
    path. Nothing else of the space depends on them. *)
Definition bare (r : Region) : Region := r_with_attr (r_prot r) 0 0 0 0 None r.
Definition same_bare (l l' : list Region) : Prop := Forall2 (fun r r' => bare r = bare r') l l'.

Lemma bare_fields r r' : bare r = bare r' -> r_start r = r_start r' /\ r_end r = r_end r' /\ r_prot r = r_prot r' /\
  r_shared r = r_shared r' /\ r_host r = r_host r' /\ r_hmap r = r_hmap r' /\ r_file_off r = r_file_off r' /\
  r_hostmap r = r_hostmap r' /\ r_growsdown r = r_growsdown r' /\ r_file r = r_file r'.
Proof. destruct r, r'. unfold bare, r_with_attr. cbn. intros E. injection E as -> -> -> -> -> -> -> -> -> -> -> -> -> -> -> -> ->. done. Qed.
Lemma bare_slice va r r' : bare r = bare r' -> bare (slice va r) = bare (slice va r').
Proof. destruct r, r'. unfold bare, slice, r_with_attr. cbn. intros E. injection E as -> -> -> -> -> -> -> -> -> -> -> -> -> -> -> -> ->. done. Qed.
Lemma bare_ok r r' : bare r = bare r' -> region_ok r -> region_ok r'.
Proof.
  intros E [H1 H2 H3 H4 H5 H6 H7]. destruct (bare_fields r r' E) as (E1 & E2 & E3 & E4 & E5 & E6 & E7 & _).
  split; rewrite <- ?E1, <- ?E2, <- ?E3, <- ?E5, <- ?E7; done.
Qed.
Lemma bare_before r r' l l' : bare r = bare r' -> same_bare l l' -> Forall (before r) l -> Forall (before r') l'.
Proof.
  intros E H. destruct (bare_fields r r' E) as (_ & E2 & _). induction H as [|q q' l l' Eq H IH]; [done|].
  rewrite !Forall_cons_iff. intros [Hq Hb]. split; [|by apply IH]. destruct (bare_fields q q' Eq) as (E1 & _). unfold before in *. lia.
Qed.
Lemma bare_regions l l' : same_bare l l' -> regions_ok l -> regions_ok l'.
Proof.
  intros H. induction H as [|r r' l l' E H IH]; [done|]. rewrite !regions_ok_cons. intros (Hr & Hb & Hl).
  split; [by apply (bare_ok r)|]. split; [by apply (bare_before r r' l l')|by apply IH].
Qed.
Lemma bare_find l l' va : same_bare l l' -> bare <$> as_find_region l' va = bare <$> as_find_region l va.
Proof.
  intros H. induction H as [|r r' l l' E H IH]; [done|]. simpl. destruct (bare_fields r r' E) as (E1 & E2 & _).
  unfold contains. rewrite E1, E2. destruct (_ && _); [simpl; by rewrite E|done].
Qed.
Lemma bare_look l l' va : same_bare l l' -> bare <$> look l' va = bare <$> look l va.
Proof.
  intros H. pose proof (bare_find l l' va H) as E. unfold look. destruct (as_find_region l' va) as [r'|], (as_find_region l va) as [r|]; try done.
  apply (inj Some) in E. simpl. by rewrite (bare_slice va _ _ E).
Qed.
Lemma bare_backed hms l l' : same_bare l l' -> Forall (backed hms) l -> Forall (backed hms) l'.
Proof.
  intros H. induction H as [|r r' l l' E H IH]; [done|]. rewrite !Forall_cons_iff. intros [(hm & E0 & B1 & B2) Hl]. split; [|by apply IH].
  destruct (bare_fields r r' E) as (E1 & E2 & _ & _ & E5 & E6 & _). exists hm. unfold r_len in *. rewrite <- E6, <- E5, <- E1, <- E2. done.
Qed.
Lemma bare_refcount h l l' : same_bare l l' -> refcount h l' = refcount h l.
Proof.
  intros H. unfold refcount. induction H as [|r r' l l' E H IH]; [done|]. rewrite !countb_cons, IH.
  destruct (bare_fields r r' E) as (_ & _ & _ & _ & _ & -> & _). done.
Qed.
Lemma bare_refl l : same_bare l l.
Proof. induction l; constructor; done. Qed.
Lemma bare_upd f l va : (forall r, bare (f r) = bare r) -> same_bare l (upd_region f l va).
Proof.
  intros Hf. induction l as [|r l IH]; [constructor|]. simpl. destruct (contains va r); (constructor; [|]).
  - by rewrite Hf. - apply bare_refl. - done. - done.
Qed.
Lemma bare_insert l i r x : l !! i = Some r -> bare x = bare r -> same_bare l (<[i := x]> l).
Proof.
  revert i. induction l as [|q l IH]; intros [|i] Hi E; [done..| |]; simpl in *.
  - injection Hi as ->. constructor; [done|apply bare_refl].
  - constructor; [done|by apply IH].
Qed.

Lemma next_region_in rs va best r : next_region_from best rs va = Some r -> r ∈ rs \/ best = Some r.
Proof.
  revert best. induction rs as [|q rs IH]; intros best; cbn [next_region_from]; [by right|].
  destruct (r_end q <=? va); [intros [?|?]%IH; [left; by right|by right]|].
  destruct best as [b|]; [destruct (r_start q <? r_start b)|]; intros [?|H]%IH;
    first [left; by right|injection H as <-; left; by left|by right].
Qed.

Section Marks.
Context {Os : Type} `{!HostOs Os} `{!HostOsOk Os}.
Implicit Types s : MS Os.

(** [s'] maps what [s] maps, its marks aside. *)
Record same_maps s s' : Prop := {
  sm_look va : bare <$> look (regs s') va = bare <$> look (regs s) va;
  sm_pt : pt s' = pt s;
  sm_mem : ms_mem s' = ms_mem s;
  sm_me : ms_me s' = ms_me s;
  sm_gen : ms_gen s' = ms_gen s;
  sm_next : ms_next s' = ms_next s
}.
Lemma same_maps_refl s : same_maps s s.
Proof. done. Qed.
Lemma same_maps_trans s1 s2 s3 : same_maps s1 s2 -> same_maps s2 s3 -> same_maps s1 s3.
Proof. intros [] []. split; congruence. Qed.
Lemma same_maps_tab s s' : tabstep s s' -> (forall va, look (regs s') va = look (regs s) va) -> same_maps s s'.
Proof. intros T H. split; [intros va; by rewrite H|apply T..]. Qed.

(** A step that keeps the heap and what is mapped. *)
Definition marked s s' : Prop := hinv s' /\ mstep s s' /\ same_maps s s'.
Lemma marked_refl s : hinv s -> marked s s.
Proof. intros H. split; [done|]. split; [apply mstep_refl|done]. Qed.
Lemma marked_trans s1 s2 s3 : marked s1 s2 -> (hinv s2 -> marked s2 s3) -> marked s1 s3.
Proof.
  intros (A1 & A2 & A3) H. destruct (H A1) as (B1 & B2 & B3). split; [done|]. split; [by eapply mstep_trans|by eapply same_maps_trans].
Qed.
Lemma marked_split va s : hinv s -> aligned va -> marked s (region_split_at va s).
Proof.
  intros Hi Ha. destruct (split_at_ok s va Hi Ha) as (H1 & H2 & H3 & _). split; [done|].
  split; [apply mstep_split|by apply same_maps_tab].
Qed.
Lemma marked_merge lo hi s : hinv s -> marked s (region_merge_range lo hi s).
Proof.
  intros Hi. destruct (merge_range_ok s lo hi Hi) as (H1 & H2 & H3). split; [done|].
  split; [apply mstep_merge|by apply same_maps_tab].
Qed.
Lemma marked_regs f s : hinv s -> same_bare (regs s) (f (regs s)) -> marked s (set_regs f s).
Proof.
  intros Hi Hb. split; [|split; [apply mstep_regs|]].
  - apply (hinv_retable s); [done|done|by apply (bare_regions (regs s)), Hi|by apply (bare_backed _ (regs s)), Hi|].
    intros h. by apply bare_refcount.
  - split; try done. intros va. by apply bare_look.
Qed.
Lemma marked_as f s : hinv s -> (forall a, as_fixed (f a) = as_fixed a /\ as_mmap_next (f a) = as_mmap_next a /\ as_regions (f a) = as_regions a /\
    as_pt (f a) = as_pt a /\ as_orphans (f a) = as_orphans a /\ as_retired (f a) = as_retired a) -> marked s (upd_ms_as f s).
Proof.
  intros Hi Hf. destruct (Hf (ms_as s)) as (F1 & F2 & F3 & F4 & F5 & F6).
  assert (Er : regs (upd_ms_as f s) = regs s) by exact F3.
  split; [|split].
  - apply (hinv_same s); [|done]. by split.
  - apply mstep_soft; try done. unfold as_attr. simpl. by rewrite F1, F2.
  - split; try done. intros va. by rewrite Er.
Qed.

Lemma same_maps_at s s' va v : same_maps s s' -> look (regs s') va = Some v -> exists w, look (regs s) va = Some w /\ bare w = bare v.
Proof.
  intros H E. pose proof (sm_look _ _ H va) as L. rewrite E in L. destruct (look (regs s) va) as [w|]; [|done].
  exists w. split; [done|]. by apply (inj Some) in L.
Qed.
Lemma same_maps_back s s' va w : same_maps s s' -> look (regs s) va = Some w -> exists v, look (regs s') va = Some v /\ bare w = bare v.
Proof.
  intros H E. pose proof (sm_look _ _ H va) as L. rewrite E in L. destruct (look (regs s') va) as [v|]; [|done].
  exists v. split; [done|]. by apply (inj Some) in L.
Qed.
Lemma bare_pte v w x : bare w = bare v -> pte_of w x -> pte_of v x.
Proof. intros E. destruct (bare_fields w v E) as (_ & _ & E3 & E4 & E5 & _). unfold pte_of. by rewrite E3, E4, E5. Qed.
Lemma marked_inv s s' : as_inv s -> marked s s' -> as_inv s'.
Proof.
  intros [A1 A2 A3 A4 A5] (Hh & _ & M). pose proof (sm_pt _ _ M) as Ep. split; rewrite ?Ep; try done.
  - intros va Hn. destruct (A3 va Hn) as (w & Ew & Hw). destruct (same_maps_back s s' _ w M Ew) as (v & Ev & E). exists v. split; [done|]. by apply (bare_pte v w).
  - intros va v Ev H0. destruct (same_maps_at s s' va v M Ev) as (w & Ew & E). apply (A4 va w Ew).
    destruct (bare_fields w v E) as (_ & _ & _ & _ & _ & _ & _ & E8 & _). congruence.
  - intros va va' v v' Ev Ev' Eh. destruct (same_maps_at s s' va v M Ev) as (w & Ew & E). destruct (same_maps_at s s' va' v' M Ev') as (w' & Ew' & E').
    apply (A5 va va' w w' Ew Ew'). destruct (bare_fields w v E) as (_ & _ & _ & _ & -> & _).
    by destruct (bare_fields w' v' E') as (_ & _ & _ & _ & -> & _).
Qed.
Lemma marked_mut s s' : core_ok s -> marked s s' -> mut_ok s s'.
Proof.
  intros Hs Hm. pose proof Hs as [H1 H2 H3]. pose proof (marked_inv s s' H1 Hm) as Hi. destruct Hm as (Hh & Hst & M). split; [done|].
  assert (Hf : maps_from s s').
  { intros va v Ev. destruct (same_maps_at s s' va v M Ev) as (w & Ew & E). exists va, w. split; [done|].
    by destruct (bare_fields w v E) as (_ & _ & _ & _ & E5 & E6 & _ & _ & E9 & E10). }
  split; [|left; by destruct M]. split; [done| |by rewrite (sm_gen _ _ M)].
  apply (stacks_from s); [done|apply H1|done|apply M| |done|done]. by rewrite (sm_mem _ _ M).
Qed.
Lemma marked_space s s' : space_ok s -> marked s s' -> space_ok s'.
Proof. intros Hs Hm. apply (core_space s); [done|]. by apply marked_mut; [apply Hs|]. Qed.

(** *** Memory locks *)
Lemma bare_lock l r : bare (r_with_lock l r) = bare r.
Proof. done. Qed.
Lemma marked_fixup lo hi flags s : hinv s -> aligned lo -> aligned hi -> marked s (lock_fixup lo hi flags s).
Proof.
  intros Hi Hlo Hhi. unfold lock_fixup. destruct (as_find_region (regs s) lo) as [c|]; [|by apply marked_refl].
  destruct (_ || _); [by apply marked_refl|]. eapply marked_trans; [by apply (marked_split lo)|]. intros Hi1.
  assert (M2 : marked (region_split_at lo s) (region_split_at hi (region_split_at lo s))) by (by apply marked_split).
  set (s2 := region_split_at hi _) in *. eapply marked_trans; [exact M2|]. intros Hi2.
  destruct (as_find_region (regs s2) lo) as [r|]; [|by apply marked_refl].
  match goal with |- marked _ (region_merge_range _ _ (set_regs _ ?x)) => assert (M3 : marked s2 x) end.
  { destruct (negb (has flags RL_LOCKED)); [by apply marked_as|]. destruct (negb _); [by apply marked_as|by apply marked_refl]. }
  eapply marked_trans; [exact M3|]. intros Hi3. eapply marked_trans; [apply (marked_regs (fun rs => upd_region (r_with_lock flags) rs lo)); [done|by apply bare_upd]|].
  intros Hi4. by apply marked_merge.
Qed.
Lemma hinv_find s va r : hinv s -> as_find_region (regs s) va = Some r -> region_ok r /\ r_start r <= va < r_end r.
Proof.
  intros Hi [Hr Hc]%find_region_some. split; [|done]. destruct (hi_regs s Hi) as [HF _]. rewrite list.Forall_forall in HF. by apply HF.
Qed.
Lemma marked_lock_loop fuel va e flags s : hinv s -> aligned va -> aligned e -> marked s (snd (lock_range_loop fuel va e flags s)).
Proof.
  revert va s. induction fuel as [|f IH]; intros va s Hi Ha He; cbn [lock_range_loop]; [by apply marked_refl|].
  destruct (va <? e); [|by apply marked_refl]. destruct (as_find_region (regs s) va) as [r|] eqn:E; [|by apply marked_refl].
  destruct (hinv_find s va r Hi E) as [Hr _]. set (stop := if r_end r <? e then r_end r else e).
  assert (Hst : aligned stop) by (unfold stop; destruct (_ <? _); [apply Hr|done]).
  eapply marked_trans; [by apply (marked_fixup va stop flags)|]. intros Hi'. by apply IH.
Qed.
Lemma marked_lock_new start len flags s : hinv s -> aligned start -> aligned len -> marked s (as_lock_new start len flags s).
Proof. intros. apply marked_lock_loop; [done|done|by apply aligned_add]. Qed.
Lemma aligned_u64 z : aligned z -> aligned (u64 z).
Proof. unfold aligned, u64. intros H. rewrite <- (Znumtheory.Zmod_div_mod 4096 (2 ^ 64)); [done|done|done|]. by exists (2 ^ 52). Qed.
Lemma marked_lock_range start len flags s : hinv s -> aligned start -> aligned len -> marked s (snd (as_lock_range start len flags s)).
Proof.
  intros Hi Ha Hl. unfold as_lock_range. destruct (_ <? start); [by apply marked_refl|]. destruct (_ =? start); [by apply marked_refl|].
  destruct (as_find_region _ _); [|by apply marked_refl]. apply marked_lock_loop; [done|done|]. by apply aligned_u64, aligned_add.
Qed.
Lemma marked_lock_all_loop fuel va flags s : hinv s -> marked s (lock_all_loop fuel va flags s).
Proof.
  revert va s. induction fuel as [|f IH]; intros va s Hi; cbn [lock_all_loop]; [by apply marked_refl|].
  destruct (as_next_region (regs s) va) as [r|] eqn:E; [|by apply marked_refl].
  assert (Hr : region_ok r) by (destruct (hi_regs s Hi) as [HF _]; rewrite list.Forall_forall in HF; apply HF; by destruct (next_region_in (regs s) va None r E)).
  eapply marked_trans; [apply (marked_fixup (r_start r) (r_end r) flags); [done|apply Hr|apply Hr]|]. intros Hi'. by apply IH.
Qed.
Lemma marked_lock_all def current flags s : hinv s -> marked s (as_lock_all def current flags s).
Proof.
  intros Hi. unfold as_lock_all. eapply marked_trans; [by apply (marked_as (upd_as_def_lock (fun _ => def)))|]. intros Hi'.
  destruct current; [by apply marked_lock_all_loop|by apply marked_refl].
Qed.

(** What the locks leave: the pages of the range that are not special carry
    the new lock, everything else is as it was. *)
Definition with_lock (flags : Z) (v : Region) : Region := if tr (r_special v) then v else r_with_lock flags v.
Lemma upd_look f rs va r a : regions_ok rs -> as_find_region rs va = Some r ->
  r_start (f r) = r_start r -> r_end (f r) = r_end r ->
  look (upd_region f rs va) a = if contains a r then Some (slice a (f r)) else look rs a.
Proof.
  intros Hok Hf Es Ee. induction rs as [|q rs IH]; [done|]. apply regions_ok_cons in Hok as (_ & Hb & Hok'). simpl in Hf |- *.
  destruct (contains va q) eqn:Ec.
  - injection Hf as ->. rewrite !look_cons. unfold contains. rewrite Es, Ee. by destruct (_ && _).
  - rewrite !look_cons, (IH Hok' Hf). destruct (contains a q) eqn:Ea; [|done].
    apply find_region_some in Hf as [Hr _]. rewrite Forall_forall in Hb. specialize (Hb r (proj1 (list_elem_of_In _ _) Hr)).
    apply contains_iff in Ea. unfold before in Hb. rewrite (proj2 (contains_false a r)) by lia. done.
Qed.
Lemma slice_lock a flags r : slice a (r_with_lock flags r) = r_with_lock flags (slice a r).
Proof. done. Qed.
Lemma lock_same flags v : r_lock v = flags -> r_with_lock flags v = v.
Proof. intros <-. by destruct v. Qed.
(** Which region an address is in after a cut at [va]. *)
Ltac ifs := repeat match goal with |- context [if ?b then _ else _] => destruct b eqn:? end.
Lemma split_find va s x c : hinv s -> aligned va -> as_find_region (regs s) x = Some c ->
  exists c', as_find_region (regs (region_split_at va s)) x = Some c' /\
    r_start c' = (if (r_start c <? va) && (va <=? x) then va else r_start c) /\ r_end c' = (if (x <? va) && (va <? r_end c) then va else r_end c).
Proof.
  intros Hi Ha Hf. destruct (find_region_some _ _ _ Hf) as [Hc Hx]. pose proof (hi_regs s Hi) as Hok.
  assert (Hno : va <= r_start c \/ r_end c <= va -> (r_start c <? va) && (va <=? x) = false /\ (x <? va) && (va <? r_end c) = false) by lia.
  unfold region_split_at. pose proof (straddle_spec (regs s) 0 va) as Hs. destruct (straddle (regs s) 0 va) as [[i r]|].
  2: { destruct (Hno (Hs c Hc)) as [-> ->]. by exists c. }
  destruct Hs as (k & -> & Hk & Hr). cbn [plus]. change (r_hmap (r_part va (r_end r) r)) with (r_hmap r).
  destruct (step_cut s k r va va Hi Hk) as (H1 & _ & H3); try (done || lia). pose proof (hi_regs _ H1) as Hok'. rewrite H3 in Hok' |- *.
  apply list_elem_of_lookup_1 in Hc as (j & Hj). destruct (decide (k = j)) as [<-|Hne].
  - rewrite Hk in Hj. injection Hj as <-. destruct (decide (x < va)) as [Hlt|Hge].
    + exists (r_with_end va r). split; [apply find_region_unique; [done| |simpl; lia]|simpl; ifs; lia].
      apply ins_region_elem. right. apply list_elem_of_lookup_2 with k. rewrite list_lookup_insert_eq; [done|by apply lookup_lt_Some in Hk].
    + exists (r_part va (r_end r) r). split; [apply find_region_unique; [done| |simpl; lia]|simpl; ifs; lia]. apply ins_region_elem. by left.
  - assert (Hd : va <= r_start c \/ r_end c <= va).
    { destruct (decide (va <= r_start c \/ r_end c <= va)); [done|]. destruct Hne.
      apply (index_unique (regs s) k j r c va Hok); (done || lia). }
    destruct (Hno Hd) as [-> ->]. exists c. split; [|done]. apply find_region_unique; [done| |done].
    apply ins_region_elem. right. apply list_elem_of_lookup_2 with j. by rewrite list_lookup_insert_ne.
Qed.
Lemma fixup_look lo hi flags s c a : hinv s -> aligned lo -> aligned hi -> lo < hi ->
  as_find_region (regs s) lo = Some c -> hi <= r_end c ->
  look (regs (lock_fixup lo hi flags s)) a =
    if (lo <=? a) && (a <? hi) then with_lock flags <$> look (regs s) a else look (regs s) a.
Proof.
  intros Hi Hlo Hhi Hlt Hc He. unfold lock_fixup. rewrite Hc. destruct (find_region_some _ _ _ Hc) as [Hin Hr].
  assert (Hl : lo <= a < hi -> look (regs s) a = Some (slice a c)) by (intros; apply look_elem; [apply Hi|done|lia]).
  destruct (tr (r_special c) || (r_lock c =? flags)) eqn:Es.
  { destruct ((lo <=? a) && (a <? hi)) eqn:Ea; [|done]. rewrite Hl by lia. simpl. f_equal. unfold with_lock.
    change (r_special (slice a c)) with (r_special c). destruct (tr (r_special c)); [done|]. symmetry. apply lock_same. simpl in *. lia. }
  destruct (split_at_ok s lo Hi Hlo) as (Hi1 & _ & L1 & _). set (s1 := region_split_at lo s) in *.
  destruct (split_at_ok s1 hi Hi1 Hhi) as (Hi2 & _ & L2 & _). set (s2 := region_split_at hi s1) in *.
  destruct (split_find lo s lo c Hi Hlo Hc) as (c1 & F1 & A1 & B1). fold s1 in F1.
  destruct (split_find hi s1 lo c1 Hi1 Hhi F1) as (c2 & F2 & A2 & B2). fold s2 in F2.
  assert (E2 : r_start c2 = lo /\ r_end c2 = hi) by (rewrite A2, B2, A1, B1; ifs; lia).
  rewrite F2.
  set (x := if negb (has flags RL_LOCKED) then _ else _) in *.
  assert (Er : regs x = regs s2).
  { unfold x. destruct (negb (has flags RL_LOCKED)); [done|]. by destruct (negb _). }
  assert (M : marked s2 x).
  { unfold x. destruct (negb (has flags RL_LOCKED)); [by apply marked_as|]. destruct (negb _); [by apply marked_as|by apply marked_refl]. }
  destruct M as (Hi3 & _ & _).
  assert (M4 : marked x (set_regs (fun rs => upd_region (r_with_lock flags) rs lo) x)) by (by apply marked_regs, bare_upd).
  destruct M4 as (Hi4 & _ & _). destruct (merge_range_ok _ lo hi Hi4) as (_ & _ & ->).
  change (regs (set_regs (fun rs => upd_region (r_with_lock flags) rs lo) x)) with (upd_region (r_with_lock flags) (regs x) lo).
  rewrite Er, (upd_look _ (regs s2) lo c2 a); [|apply Hi2|done..]. rewrite L2, L1. unfold contains. destruct E2 as [E2 E2']. rewrite E2, E2'.
  destruct ((lo <=? a) && (a <? hi)) eqn:Ea; [|done]. rewrite slice_lock.
  assert (Ec : slice a c2 = slice a c).
  { apply (inj Some). rewrite <- Hl by lia. rewrite <- (L1 a), <- (L2 a). symmetry.
    apply look_elem; [apply Hi2| |lia]. by destruct (find_region_some _ _ _ F2). }
  rewrite Ec, Hl by lia. cbn [fmap option_fmap option_map]. unfold with_lock. change (r_special (slice a c)) with (r_special c).
  apply orb_false_iff in Es as [-> _]. done.
Qed.
Lemma fixup_inv lo hi flags s : hinv s -> aligned lo -> aligned hi -> hinv (lock_fixup lo hi flags s).
Proof. intros H1 H2 H3. apply (marked_fixup lo hi flags s H1 H2 H3). Qed.
(** A range that is mapped throughout is locked throughout. *)
Lemma lock_loop_look fuel va e flags s : hinv s -> aligned va -> aligned e -> e - va < 4096 * Z.of_nat fuel ->
  (forall a, va <= a < e -> look (regs s) a <> None) ->
  let '(rc, s') := lock_range_loop fuel va e flags s in
  rc = 0 /\ forall a, look (regs s') a = if (va <=? a) && (a <? e) then with_lock flags <$> look (regs s) a else look (regs s) a.
Proof.
  revert va s. induction fuel as [|f IH]; intros va s Hi Ha He Hf Hm; cbn [lock_range_loop].
  { split; [done|]. intros a. by replace ((va <=? a) && (a <? e)) with false by lia. }
  destruct (Z.ltb_spec va e) as [Hlt|Hge]; [|split; [done|]; intros a; by replace ((va <=? a) && (a <? e)) with false by lia].
  destruct (as_find_region (regs s) va) as [r|] eqn:E; [|destruct (Hm va ltac:(lia)); unfold look; by rewrite E].
  destruct (hinv_find s va r Hi E) as [Hr Hva]. set (stop := if r_end r <? e then r_end r else e).
  assert (Hst : va < stop <= e /\ stop <= r_end r) by (unfold stop; ifs; lia).
  assert (Hsa : aligned stop) by (unfold stop; ifs; [apply Hr|done]).
  assert (Hpage : va + 4096 <= stop).
  { unfold aligned in *. pose proof (Z.div_mod va 4096). pose proof (Z.div_mod stop 4096). lia. }
  pose proof (fun a => fixup_look va stop flags s r a Hi Ha Hsa ltac:(lia) E ltac:(lia)) as Hx.
  pose proof (fixup_inv va stop flags s Hi Ha Hsa) as Hi'. set (s1 := lock_fixup va stop flags s) in *.
  specialize (IH stop s1 Hi' Hsa He ltac:(lia)). destruct (lock_range_loop f stop e flags s1) as [rc s'].
  destruct IH as [-> Hl]. { intros a Hin. rewrite Hx. replace ((va <=? a) && (a <? stop)) with false by lia. apply Hm. lia. }
  split; [done|]. intros a. rewrite Hl, Hx. destruct ((stop <=? a) && (a <? e)) eqn:E1, ((va <=? a) && (a <? stop)) eqn:E2, ((va <=? a) && (a <? e)) eqn:E3; (done || lia).
Qed.
Lemma lock_new_look start len flags s : hinv s -> aligned start -> aligned len -> 0 <= len ->
  (forall a, start <= a < start + len -> look (regs s) a <> None) -> forall a,
  look (regs (as_lock_new start len flags s)) a = if (start <=? a) && (a <? start + len) then with_lock flags <$> look (regs s) a else look (regs s) a.
Proof.
  intros Hi Ha Hl H0 Hm a. unfold as_lock_new.
  pose proof (lock_loop_look (S (npages len)) start (start + len) flags s Hi Ha (aligned_add _ _ Ha Hl)) as H.
  assert (Hn : start + len - start < 4096 * Z.of_nat (S (npages len))).
  { rewrite Nat2Z.inj_succ. unfold npages. change GUEST_PAGE_MASK with 4095. change GUEST_PAGE_SIZE with 4096.
    rewrite Z2Nat.id by (apply Z.div_pos; lia). pose proof (Z.div_mod (len + 4095) 4096). pose proof (Z.mod_pos_bound (len + 4095) 4096). lia. }
  specialize (H Hn Hm). destruct (lock_range_loop _ _ _ _ s) as [rc s']. apply H.
Qed.

(** *** Fork advice *)
Lemma marked_advice_split va set clear s : hinv s -> aligned va -> marked s (region_split_for_advice va set clear s).
Proof.
  intros Hi Ha. unfold region_split_for_advice. destruct (as_find_region _ _) as [r|]; [|by apply marked_refl].
  destruct (_ =? va); [by apply marked_refl|]. destruct (_ =? _); [by apply marked_refl|]. by apply marked_split.
Qed.
Lemma marked_advise_loop n i addr e set clear anon hole next s : hinv s ->
  marked s (snd (advise_loop n i addr e set clear anon hole next s)).
Proof.
  revert i hole next s. induction n as [|n IH]; intros i hole next s Hi; cbn [advise_loop]; [by apply marked_refl|].
  destruct (regs s !! i) as [r|] eqn:E; [|by apply marked_refl]. destruct (r_end r <=? addr); [by apply IH|].
  destruct (e <=? r_start r); [by apply marked_refl|]. destruct (anon && _); [by apply marked_refl|].
  eapply marked_trans; [apply (marked_regs (fun rs => <[i := r_with_fork (fork_adj set clear (r_forkflags r)) r]> rs)); [done|by apply (bare_insert _ _ r)]|]. intros Hi'. by apply IH.
Qed.
Lemma marked_advise addr len set clear anon s : hinv s -> marked s (snd (guest_fork_advise addr len set clear anon s)).
Proof.
  intros Hi. unfold guest_fork_advise. destruct (misaligned _ || _) eqn:E; [by apply marked_refl|]. destruct (negb _); [by apply marked_refl|].
  apply orb_false_iff in E as [E _]. rewrite misaligned_false, aligned_lor in E. destruct E as [Ha Hl]. cbn zeta.
  assert (M : marked s (region_split_for_advice (addr + len) set clear (region_split_for_advice addr set clear s))).
  { eapply marked_trans; [by apply (marked_advice_split addr set clear)|]. intros Hi1. apply marked_advice_split; [done|by apply aligned_add]. }
  set (s1 := region_split_for_advice (addr + len) set clear _) in *.
  pose proof (fun H => marked_advise_loop (length (regs s1)) 0 addr (addr + len) set clear anon false addr s1 H) as ML.
  destruct (advise_loop _ 0 addr (addr + len) set clear anon false addr s1) as [[[hole next]|] s2]; cbn [snd] in *;
    (eapply marked_trans; [exact M|]; intros H1; eapply marked_trans; [by apply ML|]; intros H2; by apply marked_merge).
Qed.

(** *** Special regions and SysV locks *)
Lemma marked_special va s : hinv s -> marked s (as_set_special va s).
Proof. intros Hi. apply (marked_regs (fun rs => upd_region (r_with_special 1) rs va)); [done|by apply bare_upd]. Qed.
Lemma marked_shm_loop fuel p e on s : hinv s -> marked s (shm_lock_loop fuel p e on s).
Proof.
  revert p s. induction fuel as [|f IH]; intros p s Hi; cbn [shm_lock_loop]; [by apply marked_refl|].
  destruct (p <? e); [|by apply marked_refl]. destruct (as_find_region _ _) as [r|]; [|by apply marked_refl].
  eapply marked_trans; [apply (marked_regs (fun rs => upd_region (r_with_shm_lock (b2z on)) rs p)); [done|by apply bare_upd]|].
  intros Hi'. by apply IH.
Qed.

(** ** Files *)
Lemma file_step s p n off fd o : fresh_rng (ms_maps s) p n ->
  let s1 := file_bytes p off fd n (upd_ms_maps (cons (p, n)) (upd_ms_os (fun _ => o) s)) in
  host_step s s1 /\ ms_maps s1 = (p, n) :: ms_maps s /\ ms_pub s1 = ms_pub s /\ ms_me s1 = ms_me s.
Proof.
  intros (F1 & F2 & F3 & F4). cbn zeta. split; [|done]. split; try done; simpl.
  - intros a Ha. apply orb_true_iff. by right.
  - intros a Ha. destruct ((p <=? a) && (a <? p + n)) eqn:E; [|done]. rewrite F4 in Ha by lia. done.
Qed.
(** What [map_file_host] leaves: a fresh mapping of the host, the pad in front
    of what was asked for included. *)
Definition host_mapped (host pad len : Z) s s1 : Prop :=
  0 <= pad /\ aligned pad /\ exists s0, host_step s s0 /\ host_step s0 s1 /\
  fresh_rng (ms_maps s0) (host - pad) (len + pad) /\ ms_maps s1 = (host - pad, len + pad) :: ms_maps s0.
Lemma map_file_host_ok fd len off shared w s : fits 64 off -> aligned off ->
  match map_file_host fd len off shared w s with
  | (inl _, s1) => host_step s s1 /\ ms_pub s1 = ms_pub s /\ ms_me s1 = ms_me s
  | (inr (host, pad), s1) => host_mapped host pad len s s1 /\ ms_pub s1 = ms_pub s /\ ms_me s1 = ms_me s
  end.
Proof.
  intros Hf Ha. unfold map_file_host, host_mmap_file.
  destruct (os_mmap_file (ms_os s) (ms_maps s) fd len off shared w) as [[e|p] o] eqn:E.
  2: { apply os_mmap_file_ok in E. destruct (file_step s p len off fd o E) as (H1 & H2 & H3 & H4). split; [|done].
       split; [done|]. split; [done|]. exists s. rewrite Z.sub_0_r, Z.add_0_r. by split; [apply host_step_refl|]. }
  destruct (_ || _ || _); [by split; [apply host_step_os|]|]. cbn zeta. destruct (negb _); [by split; [apply host_step_os|]|].
  set (s0 := upd_ms_os (fun _ => o) s). set (al := Z.land off _). set (pad := off - al).
  assert (Hpad : 0 <= pad /\ aligned pad).
  { destruct (land_hpm_whole off Hf) as [H1 H2%pagesz_aligned]. split; [unfold pad, al; lia|by apply aligned_sub]. }
  destruct (os_mmap_file (ms_os s0) (ms_maps s0) fd (len + pad) al shared w) as [[e'|p] o'] eqn:E'.
  { split; [|done]. apply (host_step_trans _ s0); apply host_step_os. }
  apply os_mmap_file_ok in E'. destruct (file_step s0 p (len + pad) al fd o' E') as (H1 & H2 & H3 & H4). split; [|done].
  split; [apply Hpad|]. split; [apply Hpad|]. exists s0. rewrite Z.add_simpl_r. by split; [apply host_step_os|].
Qed.
Lemma same_heap_trans s1 s2 s3 : same_heap s1 s2 -> same_heap s2 s3 -> same_heap s1 s3.
Proof. intros [] []. split; congruence || lia. Qed.
(** The entries of a file: those of the pages [full] picks point into the
    mapping, the others, past the file's end, are empty. *)
Record filled (full : Z -> bool) (addr len host prot : Z) s s' : Prop := {
  fi_step : mstep s s';
  fi_heap : same_heap s s';
  fi_mem : ms_mem s' = ms_mem s;
  fi_gen : ms_gen s < ms_gen s';
  fi_tlb : t_dgen (ms_me s') = 0;
  fi_wf : pt_wf (pt s');
  fi_get va : pte_get (pt s') va = if (addr <=? va) && (va <? addr + len)
    then if full va then Z.lor (host + (pg va - addr)) prot else 0 else pte_get (pt s) va
}.
Section Filled.
Context (addr len host prot : Z) (Ha : aligned addr) (Hl : aligned len) (H0 : 0 <= addr) (Hr : addr + len <= GUEST_TASK_SIZE) (Hh : 0 < host).
Lemma filled_all s : pt_wf (pt s) -> 0 <= len -> filled (fun _ => true) addr len host prot s (pte_set_range addr len host prot s).
Proof.
  intros Hw Hl0. destruct (set_range_spec s addr len host prot Hw) as [W G]; try done; [lia|].
  split; [apply mstep_set_range|apply set_range_heap|done|simpl; lia|done|done|].
  intros va. by rewrite G, (proj2 (Z.eqb_neq host 0)) by lia.
Qed.
Lemma filled_part mapped s : pt_wf (pt s) -> aligned mapped -> 0 <= mapped <= len ->
  filled (fun va => va <? addr + mapped) addr len host prot s
    (pte_set_range (addr + mapped) (len - mapped) 0 0 (if tr mapped then pte_set_range addr mapped host prot s else s)).
Proof.
  intros Hw Hm Hb. set (s1 := if tr mapped then _ else s).
  assert (H1 : mstep s s1 /\ same_heap s s1 /\ ms_mem s1 = ms_mem s /\ ms_gen s <= ms_gen s1 /\ pt_wf (pt s1) /\
    forall va, pte_get (pt s1) va = if (addr <=? va) && (va <? addr + mapped) then Z.lor (host + (pg va - addr)) prot else pte_get (pt s) va).
  { unfold s1. destruct (tr mapped) eqn:E.
    - destruct (set_range_spec s addr mapped host prot Hw) as [W G]; try done; try lia.
      split; [apply mstep_set_range|]. split; [apply set_range_heap|]. split; [done|]. split; [simpl; lia|]. split; [done|].
      intros va. by rewrite G, (proj2 (Z.eqb_neq host 0)) by lia.
    - assert (mapped = 0) as -> by (unfold tr in E; lia). split; [apply mstep_refl|]. split; [done|]. do 3 (split; [done || lia|]).
      intros va. destruct (_ && _) eqn:Ec; [lia|done]. }
  destruct H1 as (A1 & A2 & A3 & A4 & A5 & A6).
  destruct (set_range_spec s1 (addr + mapped) (len - mapped) 0 0 A5) as [W G]; try done; try lia; [by apply aligned_add|by apply aligned_sub|].
  split; [eapply mstep_trans; [exact A1|apply mstep_set_range]|eapply same_heap_trans; [exact A2|apply set_range_heap]|done|simpl; lia|done|done|].
  intros va. rewrite G, A6. destruct (va <? addr + mapped) eqn:E1, (addr <=? va) eqn:E2, (va <? addr + len) eqn:E3, (addr + mapped <=? va) eqn:E4,
    (va <? addr + mapped + (len - mapped)) eqn:E5; simpl; try done; lia.
Qed.
End Filled.
Lemma pg_up_aligned z : aligned (PG_UP z).
Proof. 
  unfold PG_UP. change GUEST_PAGE_MASK with (Z.ones 12). rewrite land_not64_ones; [|apply fits_u64|lia].
  change (2 ^ 12) with 4096. unfold aligned. wsolve.
Qed.
(** The region of a file over its mapping, its entries [filled]. *)
Lemma file_core full addr len prot host pad r s s1 s5 : core_ok s -> host_mapped host pad len s s1 -> ms_pub s1 = ms_pub s -> ms_me s1 = ms_me s ->
  aligned addr -> aligned len -> 0 < len -> 0 <= addr -> addr + len <= GUEST_TASK_SIZE ->
  let s2 := region_punch addr (addr + len) s1 in
  r_mfdcnt r = 0 -> r_growsdown r = 0 -> r_hostmap r = 1 -> r_start r = addr -> r_end r = addr + len -> r_prot r = prot -> r_host r = host ->
  r_hmap r = ms_next s2 -> fits 3 prot -> fits 64 (r_file_off r) ->
  filled full addr len host prot (region_insert r (snd (hmap_new (host - pad) (len + pad) s2))) s5 -> mut_ok s s5.
Proof.
  intros Hs (Hp0 & Hpa & s0 & Hs0 & Hs1 & Hf & Emaps) Hpub Hme Ha Hl Hpos Ha0 Hr s2 Hmf Hgd Hhm R1 R2 R3 R4 R5 Hp Hoff.
  unfold region_insert. rewrite Hmf. set (s4 := if tr 0 then _ else _). intros [F1 F2 F3 F4 F5 F6 F7].
  pose proof (host_step_trans _ _ _ Hs0 Hs1) as Hst. destruct (as_inv_host s s0 Hs0 (co_inv s Hs)) as [Hi0 V0].
  destruct (punched_core s s1 addr len Hs Hst Hpub Hme Ha Hl Hpos) as (P1 & P2 & P3 & P4 & P5 & P6 & P7).
  destruct (fresh_then_punch s0 s1 (host - pad) (len + pad) addr len Hi0 ltac:(lia) Hf) as (I1 & I2 & I3 & I4 & I5);
    try done; try apply Hs1.
  fold s2 in P1, P2, P3, P4, P5, P6, P7, I2, I3, I4, I5. set (x := mkHM (host - pad) (len + pad) 1 0 (host - pad) (host - pad) false).
  destruct Hf as (G1 & G2 & G3%pagesz_aligned & G4).
  assert (Hha : aligned host) by (replace host with (host - pad + pad) by lia; by apply aligned_add).
  assert (Hrk : region_ok r).
  { split; rewrite ?R1, ?R2, ?R3, ?R4; try done; try lia. by apply aligned_add. }
  assert (Hfp : 0 <= prot) by (unfold fits in Hp; lia).
  edestruct (install_gen full s0 s2 s4 s5 x r prot) as [J1 _]; try done; rewrite ?R1, ?R2, ?R4; try done.
  - rewrite (ts_pt _ _ I3). unfold pt. by rewrite (hs_as _ _ Hs1).
  - simpl. lia.
  - unfold r_len. rewrite R1, R2. simpl. lia.
  - intros va. rewrite F7. unfold contains. rewrite R1, R2. destruct (_ && _); [done|].
    change (pt s4) with (pt s2). rewrite (ts_pt _ _ I3). unfold pt. by rewrite (hs_as _ _ Hs1).
  - by rewrite Hhm.
  - by left.
  - apply (added_gen s s2 s5 s4 x r); try done.
    + by apply (mstep_new s2 _ x).
    + rewrite R1, R2. apply (punched_free addr (addr + len) s); [lia|apply P2|done].
    + simpl. lia.
    + rewrite R4. simpl. lia.
    + simpl. lia.
Qed.
Lemma map_file_core addr len prot fd off shared path s : core_ok s -> 0 <= addr -> 0 <= len -> fits 3 prot -> fits 64 off ->
  mut_ok s (snd (guest_map_file_impl addr len prot fd off shared path s)).
Proof.
  intros Hs Ha0 Hl0 Hp Hoff. unfold guest_map_file_impl. destruct (misaligned _ || _ || _) eqn:Eg; [by apply mut_ok_refl|].
  assert (Ho : aligned off /\ misaligned (Z.lor addr len) || negb (range_ok addr len) || (len =? 0) = false).
  { rewrite !orb_false_iff, !misaligned_false, !aligned_lor in *. tauto. }
  destruct Ho as [Ho Eg']. destruct (map_guard addr len Ha0 Hl0 Eg') as (Ha & Hl & Hpos & Hr).
  destruct (negb (host_len_ok len)); [by apply mut_ok_refl|].
  pose proof (map_file_host_ok fd len off shared (negb shared || has prot PTE_W) s Hoff Ho) as Hm.
  destruct (map_file_host fd len off shared _ s) as [[e|[host pad]] s1]; [destruct Hm as (M1 & M2 & M3); by apply (host_core s)|].
  destruct Hm as (M1 & M2 & M3). set (s2 := region_punch addr (addr + len) s1). cbn zeta.
  set (wr := if shared then _ else _). set (st := os_fstat (ms_os s2) fd).
  destruct (match st with Some (d, i, _) => (d, i) | None => (0, 0) end) as [dev ino]. cbn [hmap_new].
  set (r := mkRegion _ _ _ _ _ _ _ _ _ _ _ _ _ _ _ _ _ _ _ _ _ _). set (s3 := upd_ms_next _ _). set (s4 := region_insert r s3).
  assert (Hw : pt_wf (pt s4)).
  { change (pt s4) with (pt s2). destruct M1 as (_ & _ & s0 & H0 & H1 & _). pose proof (host_step_trans _ _ _ H0 H1) as Hst.
    assert (Hi1 : hinv s1) by (apply (hinv_host s); [done|apply Hs]).
    destruct (punch_ok addr (addr + len) Ha (aligned_add _ _ Ha Hl) ltac:(lia) s1 Hi1) as (_ & P2 & _).
    unfold s2. rewrite (ts_pt _ _ P2). unfold pt. rewrite (hs_as _ _ Hst). apply Hs. }
  assert (Hh : 0 < host) by (destruct M1 as (? & _ & ? & _ & _ & (? & _) & _); lia).
  assert (Hd : forall full s5, filled full addr len host prot s4 s5 -> mut_ok s s5) by (intros full s5 Hfi; by apply (file_core full addr len prot host pad r s s1)).
  destruct st as [[[d i] sz]|]; [|by eapply Hd, filled_all; try lia].
  destruct (_ <? _) eqn:Ew; [|by eapply Hd, filled_all; try lia].
  pose proof (pg_up_aligned sz) as Hpu. unfold fits in Hoff. change GUEST_TASK_SIZE with (2 ^ 47) in Hr.
  eapply Hd, filled_part; try done; destruct (off <? PG_UP sz) eqn:Eo; try done; try lia; [by apply aligned_sub|].
  unfold u64 in Ew. destruct (Z_lt_ge_dec (off + len) (2 ^ 64)) as [Hlt|Hge]; [rewrite Z.mod_small in Ew by lia; lia|].
  rewrite <- (Z_mod_plus_full _ (-1)), Z.mod_small in Ew; lia.
Qed.

(** ** The operations *)
Inductive mm_op :=
  | Op_map_anon (addr len prot : Z)
  | Op_map_stack (addr len prot : Z)
  | Op_unmap (addr len : Z)
  | Op_protect (addr len prot : Z)
  | Op_move (addr len dst : Z)
  | Op_find_free (len : Z)
  | Op_translate (nogrow : bool) (va need : Z)
  | Op_store (nogrow : bool) (va b : Z)
  | Op_map_file (addr len prot fd off : Z) (shared : bool) (path : option string)
  | Op_lock (addr len flags : Z)
  | Op_lock_all (def : Z) (current : bool) (flags : Z)
  | Op_advise (addr len set clear : Z) (anon_only : bool)
  | Op_special (va : Z)
  | Op_shm_lock (va len : Z) (on : bool).
Definition store_byte (nogrow : bool) (va b : Z) s : MS Os :=
  match as_translate nogrow va PTE_W s with
  | ((Some p, _), s') => host_put p b s'
  | ((None, _), s') => s'
  end.
Definition mm_exec (op : mm_op) s : MS Os :=
  match op with
  | Op_map_anon addr len prot => snd (guest_map_anon addr len prot s)
  | Op_map_stack addr len prot => snd (guest_map_stack addr len prot s)
  | Op_unmap addr len => snd (guest_unmap addr len s)
  | Op_protect addr len prot => snd (guest_protect addr len prot s)
  | Op_move addr len dst => snd (guest_remap_move addr len dst s)
  | Op_find_free len => snd (as_find_free len s)
  | Op_translate nogrow va need => snd (as_translate nogrow va need s)
  | Op_store nogrow va b => store_byte nogrow va b s
  | Op_map_file addr len prot fd off shared path => snd (guest_map_file addr len prot fd off shared path s)
  | Op_lock addr len flags => snd (as_lock_range addr len flags s)
  | Op_lock_all def current flags => as_lock_all def current flags s
  | Op_advise addr len set clear anon_only => snd (guest_fork_advise addr len set clear anon_only s)
  | Op_special va => as_set_special va s
  | Op_shm_lock va len on => as_shm_lock_hint va len on s
  end.
(** Arguments are unsigned, permissions three bits, the range of a lock whole
    pages, lengths of a protection not empty (the syscall layer rounds the
    former and answers the latter itself). *)
Definition op_ok (op : mm_op) : Prop :=
  match op with
  | Op_map_anon addr len prot | Op_map_stack addr len prot => 0 <= addr /\ 0 <= len /\ fits 3 prot
  | Op_unmap addr len => 0 <= addr /\ 0 <= len
  | Op_protect addr len prot => 0 <= addr /\ 0 < len /\ fits 3 prot
  | Op_move addr len dst => 0 <= addr /\ 0 <= len /\ 0 <= dst
  | Op_find_free len => 0 <= len <= GUEST_TASK_SIZE
  | Op_translate _ _ need => fits 3 need
  | Op_map_file addr len prot _ off _ _ => 0 <= addr /\ 0 <= len /\ fits 3 prot /\ fits 64 off
  | Op_lock addr len _ => aligned addr /\ aligned len
  | Op_store _ _ _ | Op_lock_all _ _ _ | Op_advise _ _ _ _ _ | Op_special _ | Op_shm_lock _ _ _ => True
  end.
(** The host does not cut a change of protection short partway. *)
Definition granted (op : mm_op) s : Prop :=
  match op with Op_protect addr len prot => protect_whole addr len prot s | _ => True end.

(** *** Accesses *)
Lemma put_core va v b s : core_ok s -> look (regs s) va = Some v -> core_ok (host_put (r_host v) b s).
Proof.
  intros Hs El. pose proof Hs as [H1 H2 H3]. apply (core_same s); try done; [by apply (as_inv_same s)|]. intros h hm Eh.
  destruct (so_fresh s H2 h hm Eh) as (F1 & F2 & F3). split; [done|]. split; [|done]. intros a Ha. simpl.
  destruct (Z.eqb_spec a (r_host v)) as [->|]; [|by apply F2]. exfalso.
  apply look_some in El as (r & Hr & Hc & ->). simpl in Ha. destruct (decide (r_hmap r = h)) as [E|Hne].
  - specialize (F3 r Hr E). lia.
  - pose proof (hi_back s (ai_heap s H1)) as HB. rewrite list.Forall_forall in HB. destruct (HB r Hr) as (y & Ey & B1 & B2).
    pose proof (hi_disj s (ai_heap s H1) _ _ _ _ Hne Ey Eh) as Hd. unfold disj, r_len in *. lia.
Qed.
Lemma store_space nogrow va b s : space_ok s -> space_ok (store_byte nogrow va b s).
Proof.
  intros Hs. unfold store_byte. pose proof (translate_ok nogrow va PTE_W s Hs ltac:(done)) as Ht.
  destruct (as_translate nogrow va PTE_W s) as [[[p|] perm] s1]; [|apply Ht]. destruct Ht as ([T1 T2] & _ & (v & El & -> & _)).
  split; [by apply (put_core (data_va va PTE_W))|exact T2].
Qed.
(** The operations that are not accesses: a change of the mappings, and
    perhaps a drain of the quarantine after it. *)
Definition is_access (op : mm_op) : bool :=
  match op with Op_translate _ _ _ | Op_store _ _ _ => true | _ => false end.
Lemma account_mstep s : mstep s (as_account s).
Proof. apply mstep_soft; unfold as_account, as_procmem; cbn zeta; by destruct (_ <? _). Qed.
Lemma finish_mut d rc s s1 : mut_ok s s1 ->
  exists s2, mut_ok s s2 /\ snd (finish d (rc, s1)) = if d : bool then as_drain_retired s2 else s2.
Proof.
  intros [Hm Hc]. unfold finish. cbn [snd]. eexists. split; [|done]. destruct (rc =? 0); [|done].
  split; [|by apply core_account]. eapply mstep_trans; [exact Hm|apply account_mstep].
Qed.
Lemma finish_some d rc s s1 : mut_ok s s1 ->
  exists s2 d', mut_ok s s2 /\ snd (finish d (rc, s1)) = if d' : bool then as_drain_retired s2 else s2.
Proof. intros H. destruct (finish_mut d rc s s1 H) as (s2 & H1 & H2). by exists s2, d. Qed.
(** [as_find_free] finds free ground, or there is none. *)
Lemma pg_up_range len : 0 <= len <= GUEST_TASK_SIZE -> len <= PG_UP len < 2 ^ 48.
Proof.
  change GUEST_TASK_SIZE with (2 ^ 47). intros H. unfold PG_UP. rewrite u64_small by (unfold fits; change GUEST_PAGE_MASK with 4095; lia).
  change GUEST_PAGE_MASK with (Z.ones 12). assert (Hb : 0 <= len + Z.ones 12 < 2 ^ 64) by (change (Z.ones 12) with 4095; lia).
  rewrite land_not64_ones; [|exact Hb|lia]. change (Z.ones 12) with 4095 in *. change (2 ^ 12) with 4096.
  pose proof (Z.mod_pos_bound (len + 4095) 4096). lia.
Qed.
Lemma find_free_ok len s : core_ok s -> 0 <= len <= GUEST_TASK_SIZE -> place_ok (ms_as s) ->
  let '(b, s') := as_find_free len s in
  (0 < b /\ aligned b /\ b + PG_UP len <= FREE_LIMIT /\ gap_free (regs s) b (PG_UP len) /\ as_mmap_next (ms_as s') = b + PG_UP len /\
   forall a, b <= a < b + PG_UP len -> look (regs s) a = None) \/
  (b = 0 /\ s' = s /\ forall c, MMAP_FLOOR <= c -> c + PG_UP len <= FREE_LIMIT -> ~ gap_free (regs s) c (PG_UP len)).
Proof.
  intros Hs Hl [Hn Hal]. unfold as_find_free, as_find_free_impl, as_find_free_scan. cbn zeta.
  pose proof (hi_regs _ (ai_heap s (co_inv s Hs))) as Hok. pose proof Hok as [HF _].
  pose proof (pg_up_range len Hl) as Hp.
  assert (Hah : forall b, (ahead (regs s) b < S (length (regs s)))%nat) by (intros b; pose proof (ahead_le (regs s) b); lia).
  assert (Hfree : forall b, gap_free (regs s) b (PG_UP len) -> forall a, b <= a < b + PG_UP len -> look (regs s) a = None).
  { intros b Hg a Ha. apply (gap_free_free _ _ _ Hok) in Hg. unfold free_of in Hg. rewrite list.Forall_forall in Hg.
    destruct (look (regs s) a) as [v|] eqn:E; [|done]. apply look_some in E as (r & Hr & Hc & _). specialize (Hg r Hr). lia. }
  assert (Hw : forall b, 0 <= b -> b + PG_UP len <= FREE_LIMIT -> u64 (b + PG_UP len) = b + PG_UP len).
  { intros b Hb Hlim. change FREE_LIMIT with (2 ^ 47 - 0x10000000) in Hlim. apply u64_small. unfold fits. lia. }
  assert (Hend : forall c b, aligned c -> (b = c \/ exists r, r ∈ regs s /\ b = r_end r) -> aligned b).
  { intros c b Hc [->|(r & Hr & ->)]; [done|]. rewrite list.Forall_forall in HF. apply (HF r Hr). }
  pose proof (find_free_pass_spec (S (length (regs s))) (regs s) (as_mmap_next (ms_as s)) (PG_UP len) HF ltac:(lia) ltac:(lia) ltac:(lia) ltac:(lia) (Hah _)) as H1.
  destruct (find_free_pass _ (regs s) (as_mmap_next (ms_as s)) (PG_UP len)) as [b|].
  { left. destruct H1 as (A1 & A2 & A3 & A4). split; [lia|]. split; [by apply (Hend _ b Hal)|]. split; [done|]. split; [done|]. split; [apply Hw; [lia|done]|]. by apply Hfree. }
  pose proof (find_free_pass_spec (S (length (regs s))) (regs s) MMAP_FLOOR (PG_UP len) HF ltac:(done) ltac:(lia) ltac:(done) ltac:(lia) (Hah _)) as H2.
  destruct (find_free_pass _ (regs s) MMAP_FLOOR (PG_UP len)) as [b|].
  - left. destruct H2 as (A1 & A2 & A3 & A4). assert (0 < MMAP_FLOOR) by done. split; [lia|]. split; [by apply (Hend MMAP_FLOOR b)|]. split; [done|]. split; [done|]. split; [apply Hw; [lia|done]|]. by apply Hfree.
  - right. split; [done|]. split; [done|]. intros c H3 H4 H5. by apply (H2 c).
Qed.
Lemma find_free_mut len s : core_ok s -> 0 <= len <= GUEST_TASK_SIZE -> mut_ok s (snd (as_find_free len s)).
Proof.
  intros Hs Hl. pose proof (find_free_ok len s Hs Hl) as Hf.
  assert (Hp : place_ok (ms_as s) -> place_ok (ms_as (snd (as_find_free len s)))).
  { intros Hp. specialize (Hf Hp). destruct (as_find_free len s) as [b s']. cbn [snd]. destruct Hf as [(F1 & F2 & F3 & _ & F5 & _)|(_ & -> & _)]; [|done].
    unfold place_ok. rewrite F5. pose proof (pg_up_range len Hl). change FREE_LIMIT with (2 ^ 47 - 0x10000000) in F3.
    split; [lia|]. apply aligned_add; [done|apply pg_up_aligned]. }
  clear Hf. revert Hp. unfold as_find_free, as_find_free_impl. destruct (as_find_free_scan _ _ _); [|intros _; by apply mut_ok_refl].
  cbn [snd]. intros Hp. split.
  - split; try done; try lia; auto. intros h hm Hh. left. eauto 10.
  - apply (core_out_soft s s); try done; [by apply core_out_refl|]. by apply (as_inv_same s); [apply Hs|..].
Qed.
Lemma marked_some s s' : core_ok s -> marked s s' -> exists s1 d, mut_ok s s1 /\ s' = if d : bool then as_drain_retired s1 else s1.
Proof. intros Hs H. exists s', false. split; [by apply marked_mut|done]. Qed.
Lemma exec_mut op s : granted op s -> core_ok s -> op_ok op -> is_access op = false ->
  exists s1 d, mut_ok s s1 /\ mm_exec op s = if d : bool then as_drain_retired s1 else s1.
Proof.
  intros Hg Hs Ho Ha. pose proof (ai_heap s (co_inv s Hs)) as Hh.
  destruct op as [addr len prot|addr len prot|addr len|addr len prot|addr len dst|len|ng va need|ng va b|addr len prot fd off sh path
    |addr len fl|def cur fl|addr len set clear anon|va|va len on]; try done; cbn [mm_exec op_ok granted] in *.
  - destruct Ho as (O1 & O2 & O3). unfold guest_map_anon. pose proof (map_anon_core addr len prot s Hs O1 O2 O3) as H.
    destruct (guest_map_anon_impl addr len prot s). by apply finish_some.
  - destruct Ho as (O1 & O2 & O3). unfold guest_map_stack. pose proof (map_stack_core addr len prot s Hs O1 O2 O3) as H.
    destruct (guest_map_stack_impl addr len prot s). by apply finish_some.
  - destruct Ho as (O1 & O2). unfold guest_unmap. pose proof (unmap_core addr len s Hs O1 O2) as H.
    destruct (guest_unmap_impl addr len s). by apply finish_some.
  - destruct Ho as (O1 & O2 & O3). exists (snd (guest_protect addr len prot s)), false. split; [|done]. by apply protect_core.
  - destruct Ho as (O1 & O2 & O3). unfold guest_remap_move. pose proof (move_core addr len dst s Hs O1 O2 O3) as H.
    destruct (guest_remap_move_impl addr len dst s). by apply finish_some.
  - exists (snd (as_find_free len s)), false. split; [|done]. by apply find_free_mut.
  - destruct Ho as (O1 & O2 & O3 & O4). unfold guest_map_file. pose proof (map_file_core addr len prot fd off sh path s Hs O1 O2 O3 O4) as H.
    destruct (guest_map_file_impl addr len prot fd off sh path s). by apply finish_some.
  - apply marked_some; [done|]. by apply marked_lock_range; [|apply Ho..].
  - apply marked_some; [done|by apply marked_lock_all].
  - apply marked_some; [done|by apply marked_advise].
  - apply marked_some; [done|by apply marked_special].
  - apply marked_some; [done|by apply marked_shm_loop].
Qed.
Lemma exec_space op s : granted op s -> space_ok s -> op_ok op -> space_ok (mm_exec op s).
Proof.
  intros Hg Hs Ho. destruct (is_access op) eqn:Ea.
  - destruct op as [| | | | | |ng va need|ng va b| | | | | |]; try done; cbn [mm_exec op_ok] in *; [|by apply store_space].
    pose proof (translate_ok ng va need s Hs Ho) as H. destruct (as_translate ng va need s). apply H.
  - destruct (exec_mut op s Hg (sp_core s Hs) Ho Ea) as (s1 & d & [_ Hc] & ->). apply (core_space s); [done|].
    destruct d; [by apply core_drain|done].
Qed.

(** The states operations lead to from an empty space. *)
Inductive mm_reach (o : Os) (e : Env) (tid : Z) : MS Os -> Prop :=
  | mr_init : mm_reach o e tid (ms_init o e tid)
  | mr_step s op : mm_reach o e tid s -> op_ok op -> granted op s -> mm_reach o e tid (mm_exec op s).
Lemma init_space (o : Os) e tid : space_ok (ms_init o e tid).
Proof.
  assert (Hn : forall va, pte_get (pt (ms_init o e tid)) va = 0) by done.
  split; [split; [split|by split|done]|by intros _; apply map_Forall_empty].
  - split; [apply regions_ok_nil|exact (List.Forall_nil _)|done|done| |exact (List.Forall_nil _)|exact (FOP_nil _)].
    intros h Hh. change (h ∈ []) in Hh. by apply elem_of_nil in Hh.
  - by split.
  - intros va H. by rewrite Hn in H.
  - done.
  - done.
Qed.
Lemma reach_space o e tid s : mm_reach o e tid s -> space_ok s.
Proof. induction 1 as [|s op _ IH Ho Hg]; [apply init_space|by apply exec_space]. Qed.
End Marks.
