(* ===== verification/Shared.v ===== *)
(** * Shared: what an access does to the state the threads share

    [translate] on behalf of one thread may enter a page, grow a stack or mend
    a write bit. None of it takes host memory away from another thread: what
    was held is held ([astep]), and unless the generation moved every entry of
    the page table still names the same host page ([hosts_kept]). The thread's
    own D-TLB need only agree with the page table on host pages ([tlb_hosts]),
    which is what is left of coherence when another thread mends a page's
    write bit. *)

From stdpp Require Import gmap.
From S2P Require Import Prelude Types Cpu CpuWf MemSeam PageTable Regions Epoch AsState AddrSpace AsInv AsSteps AsThms Translate AsSeam AsGrow TransThms MmStep MmReach.

Section Shared.
Context {Os : Type} `{!HostOs Os} `{!HostOsOk Os}.
Implicit Types s : MS Os.

Record astep s s' : Prop := {
  at_gen : ms_gen s <= ms_gen s';
  at_pub : ms_pub s' = ms_pub s;
  at_attr : as_fixed (ms_as s') = as_fixed (ms_as s);
  at_place : place_ok (ms_as s) -> place_ok (ms_as s');
  at_ids : ids_ok s -> ids_ok s';
  at_cov g a : ids_ok s -> g <= ms_gen s -> covered s g a -> covered s' g a
}.
Lemma at_thr s s' : astep s s' -> as_nthreads (ms_as s') = as_nthreads (ms_as s).
Proof. intros H. pose proof (at_attr s s' H) as E. by injection E. Qed.
Lemma mstep_astep s s' : mstep s s' -> astep s s'.
Proof. intros []. by split. Qed.
Lemma astep_refl s : astep s s.
Proof. apply mstep_astep, mstep_refl. Qed.
Lemma astep_trans s1 s2 s3 : astep s1 s2 -> astep s2 s3 -> astep s1 s3.
Proof.
  intros [A1 A2 A3 Ap A4 A5] [B1 B2 B3 Bp B4 B5]. split; [lia|congruence|congruence|auto|auto|].
  intros g a Hi Hg Hc. apply B5; [auto|lia|auto].
Qed.
(** A HostMap that only got larger. *)
Lemma astep_hm s s' h hm x : ms_hmaps s !! h = Some hm -> ms_hmaps s' = <[h := x]> (ms_hmaps s) ->
  hm_base x <= hm_base hm -> hm_base hm + hm_len hm <= hm_base x + hm_len x ->
  ms_gen s' = ms_gen s -> ms_pub s' = ms_pub s -> ms_next s' = ms_next s -> ms_as s' = ms_as s -> astep s s'.
Proof.
  intros E E7 X1 X2 E1 E2 E5 E8. split; rewrite ?E1, ?E8; try done; try lia.
  - intros Hi k y. rewrite E7, E5. intros [[<- _]|[_ Hk]]%lookup_insert_Some; eapply Hi; eauto.
  - intros g a _ _ [(k & y & Ek & Ha)|Hq]; [left|right; by rewrite E8]. rewrite E7. destruct (decide (h = k)) as [<-|Hne].
    + exists h, x. rewrite lookup_insert_eq. rewrite E in Ek. injection Ek as <-. split; [done|]. lia.
    + exists k, y. by rewrite lookup_insert_ne.
Qed.
Lemma astep_set_hm s h g : (forall x, hm_base (g x) = hm_base x /\ hm_len (g x) = hm_len x) -> astep s (set_hm h g s).
Proof.
  intros Hg. destruct (ms_hmaps s !! h) as [hm|] eqn:E.
  - rewrite (set_hm_at s h g hm E). destruct (Hg hm) as [G1 G2]. apply (astep_hm s _ h hm (g hm)); try done; lia.
  - unfold set_hm. apply mstep_astep, mstep_soft; try done. simpl. by rewrite E.
Qed.

(** ** Growing a stack *)
Lemma try_astep ext need want h s : 0 <= need ->
  let fl := hm_base (hm_at s h) in
  astep s (snd (grow_try ext need want h fl s)) /\
  fst (grow_try ext need want h fl s) = hm_base (hm_at (snd (grow_try ext need want h fl s)) h).
Proof.
  intros Hn. cbn zeta. unfold grow_try. destruct (_ <=? want); [split; [apply astep_refl|done]|].
  destruct ((ext <? need) || _ || _) eqn:Eg; [split; [apply astep_refl|done]|].
  destruct (os_mmap_at _ _ _ _) as [[p|] o]; [|split; [by apply mstep_astep, mstep_soft|done]]. cbn zeta.
  set (s1 := upd_ms_mem _ _). assert (H1 : mstep s s1) by (by apply mstep_soft).
  destruct (Z.eqb_spec p (hm_base (hm_at s h) - ext)) as [->|Hne]; cbn [fst snd].
  2: { split; [|done]. apply mstep_astep. eapply mstep_trans; [exact H1|]. by apply mstep_soft. }
  destruct (ms_hmaps s !! h) as [hm|] eqn:E.
  - assert (Ea : hm_at s h = hm) by (unfold hm_at; by rewrite E). assert (Ea1 : hm_at s1 h = hm) by exact Ea.
    rewrite Ea, Ea1. rewrite (set_hm_at s1 h _ hm E). set (s2 := upd_ms_hmaps _ s1). split.
    + eapply astep_trans; [apply mstep_astep, H1|]. apply (astep_hm s1 s2 h hm (hm_with_ext (hm_base hm - ext) (hm_len hm + ext) hm)); try done; simpl; lia.
    + unfold hm_at. simpl. by rewrite lookup_insert_eq.
  - assert (Ea : hm_at s h = hm_null) by (unfold hm_at; by rewrite E). rewrite Ea in *. cbn [hm_base hm_null] in *.
    assert (Es : set_hm h (hm_with_ext (0 - ext) (hm_len (hm_at s1 h) + ext)) s1 = s1).
    { unfold set_hm, upd_ms_hmaps, s1. simpl. by rewrite E. }
    rewrite Es. split; [by apply mstep_astep|]. change (hm_at s1 h) with (hm_at s h). rewrite Ea. simpl. lia.
Qed.
Lemma room_astep i r want s : astep s (snd (grow_room i r want s)).
Proof.
  unfold grow_room. set (fl := grow_floor _ _ _ _ _). destruct (_ && _ && _) eqn:E; [|apply astep_refl].
  apply andb_true_iff in E as [[E1 E2%Z.eqb_eq]%andb_true_iff _]. apply Z.ltb_lt in E1.
  set (need := Z.land _ _). assert (Hn : 0 <= need).
  { unfold need. apply Z.land_nonneg. left. pose proof pagesz_pos. lia. }
  rewrite E2. destruct (try_astep (u64 (need * 2)) need want (r_hmap r) s Hn) as [H1 H2].
  destruct (grow_try (u64 (need * 2)) need want (r_hmap r) _ s) as [f1 s1]. cbn [fst snd] in *. rewrite H2.
  destruct (try_astep need need want (r_hmap r) s1 Hn) as [H3 _]. by apply (astep_trans _ s1).
Qed.
Lemma marks_astep r want s : astep s (snd (grow_marks r want s)).
Proof.
  unfold grow_marks. cbn zeta. set (lo := Z.land _ _). set (z := if _ <? hm_rw_lo _ then _ else (true, s)).
  assert (Hz : astep s (snd z)).
  { unfold z. destruct (lo <? _); [|apply astep_refl]. destruct (os_mprotect _ _ _ _) as [[] o]; cbn [snd].
    - eapply astep_trans; [|by apply astep_set_hm]. by apply mstep_astep, mstep_soft.
    - by apply mstep_astep, mstep_soft. }
  destruct z as [ok s1]. cbn [snd] in Hz. destruct ok; [|done]. cbn [negb snd].
  set (s2 := if _ <? r_host r then _ else s1).
  assert (H2 : astep s s2).
  { unfold s2. destruct (_ <? r_host r); [|done]. apply (astep_trans _ s1); [done|]. by apply mstep_astep, mstep_soft. }
  destruct (want <? _); [|done]. apply (astep_trans _ s2); [done|]. by apply astep_set_hm.
Qed.
Lemma down_astep i r grow s : astep s (snd (region_grow_down i r grow s)).
Proof.
  rewrite region_grow_down_halves. destruct (_ || _); [apply astep_refl|].
  pose proof (room_astep i r (r_host r - grow) s) as H. destruct (grow_room i r (r_host r - grow) s) as [fl s1].
  cbn [snd] in H. destruct (fl <=? _); [|done]. apply (astep_trans _ s1); [done|apply marks_astep].
Qed.
Lemma piece_astep i r addr s : ids_ok s -> astep s (snd (region_grow_piece i r addr s)).
Proof.
  intros Hi. unfold region_grow_piece. destruct (negb _); [apply astep_refl|]. set (hlen := Z.land _ _).
  pose proof (mstep_reserve RESERVE_FUEL (stack_room (as_vma_end (regs s) i - addr) s) hlen s) as H.
  destruct (stack_reserve _ _ hlen s) as [[[base room]|] s1]; cbn [snd] in *; [|by apply mstep_astep].
  apply (astep_trans _ s1); [by apply mstep_astep|]. cbn zeta. cbn [hmap_new snd].
  set (s2 := upd_ms_next _ _). assert (H2 : mstep s1 s2) by (by apply (mstep_new s1 s2 (mkHM base (room + hlen) 1 0 base base false))).
  apply (astep_trans _ s2); [by apply mstep_astep|].
  eapply astep_trans; [|apply mstep_astep, mstep_pt]. eapply astep_trans; [|apply mstep_astep, mstep_insert]. by apply astep_set_hm.
Qed.
Lemma grow_astep nogrow va s : ids_ok s -> astep s (snd (as_stack_grow nogrow va s)).
Proof.
  intros Hi. unfold as_stack_grow. destruct nogrow; [apply astep_refl|].
  destruct (as_stack_grows_to va s) as [| |i]; [apply astep_refl|apply astep_refl|].
  unfold as_stack_extend. destruct (regs s !! i) as [r|]; [|apply astep_refl].
  assert (H1 : astep s (snd (extend_body i r (page_of va) s))).
  { unfold extend_body. pose proof (down_astep i r (r_start r - page_of va) s) as H.
    destruct (region_grow_down _ _ _ s) as [[] s1]; cbn [snd] in *; (apply (astep_trans _ s1); [done|]).
    - eapply astep_trans; [|apply mstep_astep, mstep_pt]. apply mstep_astep, mstep_regs.
    - apply piece_astep. by apply H. }
  change (match region_grow_down i r (r_start r - page_of va) s with
          | (true, s1) => _ | (false, s1) => _ end) with (extend_body i r (page_of va) s).
  destruct (extend_body i r (page_of va) s) as [[] s1]; [|done]. cbn [negb snd] in *.
  apply (astep_trans _ s1); [done|].
  destruct (as_find_region (regs s1) (page_of va)) as [n|]; [destruct (has _ _)|]; try apply mstep_astep, account_mstep.
  eapply astep_trans; [|apply mstep_astep, account_mstep]. by apply mstep_astep, mstep_soft.
Qed.

(** ** Entries and host pages *)
Definition hosts_kept s s' : Prop := forall va, pte_get (pt s) va <> 0 ->
  pte_get (pt s') va <> 0 /\ pte_host (pte_get (pt s') va) = pte_host (pte_get (pt s) va).
Lemma hosts_refl s s' : pt s' = pt s -> hosts_kept s s'.
Proof. intros E va H. by rewrite E. Qed.
Lemma hosts_trans s1 s2 s3 : hosts_kept s1 s2 -> hosts_kept s2 s3 -> hosts_kept s1 s3.
Proof. intros H1 H2 va H. destruct (H1 va H) as [A1 A2]. destruct (H2 va A1) as [B1 B2]. split; congruence. Qed.

(** A D-TLB whose entries name the page table's host pages. *)
Definition host_entry (t : PT) (i : Z) (e : Z * Z) : Prop :=
  dtlb_index (fst e) = i /\ (snd e <> 0 -> pte_get t (Z.shiftl (fst e) 12) <> 0 /\
    pte_host (snd e) = pte_host (pte_get t (Z.shiftl (fst e) 12))).
Definition tlb_hosts s (t : Tlb) : Prop := map_Forall (host_entry (pt s)) (t_dtlb t).
Lemma tlb_hosts_kept s s' t : hosts_kept s s' -> tlb_hosts s t -> tlb_hosts s' t.
Proof.
  intros Hk Ht i e He. destruct (Ht i e He) as [H1 H2]. split; [done|]. intros Hn. destruct (H2 Hn) as [H3 H4].
  destruct (Hk _ H3) as [K1 K2]. split; congruence.
Qed.
Lemma tlb_hosts_empty s t : t_dtlb t = ∅ -> tlb_hosts s t.
Proof. unfold tlb_hosts. intros ->. apply map_Forall_empty. Qed.
Lemma tlb_hosts_fill s va pte t : tlb_hosts s t -> pte_get (pt s) va <> 0 -> pte_host pte = pte_host (pte_get (pt s) va) ->
  tlb_hosts s (dtlb_fill (Z.shiftr va 12) pte t).
Proof.
  intros Ht Hn Hp. apply map_Forall_insert_2; [|done]. split; [done|]. cbn [fst snd]. intros _.
  rewrite (pte_get_page _ _ va); [done|]. by apply page_shiftl.
Qed.
Lemma tlb_hit_host s t va pte : tlb_hosts s t -> dtlb_hit t (Z.shiftr va 12) = Some pte ->
  pte <> 0 /\ pte_get (pt s) va <> 0 /\ pte_host pte = pte_host (pte_get (pt s) va).
Proof.
  intros Ht. unfold dtlb_hit. destruct (t_dtlb t !! _) as [[q x]|] eqn:E; [|done].
  destruct (negb (x =? 0) && (q =? Z.shiftr va 12)) eqn:Eb; [|done]. intros [= <-].
  apply andb_true_iff in Eb as [E0%negb_true_iff%Z.eqb_neq ->%Z.eqb_eq].
  destruct (map_Forall_lookup_1 _ _ _ _ Ht E) as [_ Hx]. specialize (Hx E0). cbn [fst snd] in Hx.
  rewrite (pte_get_page _ _ va) in Hx; [done|]. by apply page_shiftl.
Qed.
(** The host page of an entry is held by an allocation. *)
Definition covered_page s (g q : Z) : Prop := forall k, 0 <= k < GUEST_PAGE_SIZE -> covered s g (q + k).
Lemma entry_covered s g va : core_ok s -> pte_get (pt s) va <> 0 -> covered_page s g (pte_host (pte_get (pt s) va)).
Proof.
  intros Hc Hn k Hk. pose proof (co_inv s Hc) as Hi. change GUEST_PAGE_SIZE with 4096 in Hk.
  pose proof (pg_range (pg va + k)) as Hr. assert (Epg : pg (pg va + k) = pg va) by (unfold pg in *; rewrite !page_div in *; wsolve).
  assert (En : pte_get (pt s) (pg va + k) = pte_get (pt s) va).
  { apply pte_get_page. pose proof (page_pg (pg va + k)) as E1. rewrite Epg, page_pg in E1. done. }
  destruct (entry_mapping s (pg va + k) (pte_get (pt s) va) Hi ltac:(done) Hn) as (v & El & Eh & _).
  pose proof (look_covered s g _ v (ai_heap s Hi) El) as H. rewrite <- Eh in H.
  unfold host_of in H. rewrite page_off_pg, Epg in H. replace (pg va + k - pg va) with k in H by lia. done.
Qed.
Lemma covered_page_step s s' g q : astep s s' -> ids_ok s -> g <= ms_gen s -> covered_page s g q -> covered_page s' g q.
Proof. intros Ha Hi Hg Hc k Hk. apply Ha; auto. Qed.

(** ** [translate] for a thread whose D-TLB may lag in permissions *)
Record access_ok s s' : Prop := {
  ac_core : core_ok s';
  ac_step : astep s s';
  ac_hosts : ms_gen s' = ms_gen s -> hosts_kept s s'
}.
Lemma access_refl s : core_ok s -> access_ok s s.
Proof. intros H. split; [done|apply astep_refl|]. intros _. by apply hosts_refl. Qed.
Lemma access_trans s1 s2 s3 : access_ok s1 s2 -> access_ok s2 s3 -> access_ok s1 s3.
Proof.
  intros [A1 A2 A3] [B1 B2 B3]. split; [done|by apply (astep_trans _ s2)|]. intros E.
  pose proof (at_gen _ _ A2). pose proof (at_gen _ _ B2). apply (hosts_trans _ s2); [apply A3; lia|apply B3; lia].
Qed.
Lemma core_me s s' : core_ok s -> same_heap s s' -> pt s' = pt s -> ms_mem s' = ms_mem s -> core_ok s'.
Proof.
  intros Hs Hh Hp Hm. pose proof Hs as [H1 H2 H3]. apply (core_same s); [done|by apply (as_inv_same s)|by rewrite (sh_regs _ _ Hh)| |].
  - apply (fresh_ok_same s); [done|done|apply H2].
  - pose proof (sh_gen _ _ Hh). lia.
Qed.
Lemma access_me s f : core_ok s -> access_ok s (upd_ms_me f s).
Proof.
  intros Hs. split; [by apply (core_me s)| |intros _; by apply hosts_refl]. by split.
Qed.

(** The host page of an answer. *)
Definition held_host (va need p : Z) : Z := p - page_off (data_va va need).
(** What the thread's own D-TLB is after: coherent on hosts if it is of the
    current generation, and every entry an old one or a page of the table. *)
Definition tlb_next s s' (t t' : Tlb) : Prop :=
  t_slot t' = t_slot t /\ t_over t' = t_over t /\ t_ptid t' = t_ptid t /\ t_tid t' = t_tid t /\
  (t_dgen t' = t_dgen t \/ (t_dgen t' = 0 /\ ms_gen s < ms_gen s')) /\
  (forall i e, t_dtlb t' !! i = Some e -> t_dtlb t !! i = Some e \/ host_entry (pt s') i e).
Lemma tlb_next_hosts s s' t t' : tlb_next s s' t t' -> hosts_kept s s' -> tlb_hosts s t -> tlb_hosts s' t'.
Proof.
  intros (_ & _ & _ & _ & _ & Hn) Hk Ht i e He. destruct (Hn i e He) as [H|H]; [|done]. by apply (tlb_hosts_kept s s' t Hk Ht).
Qed.
Lemma tlb_next_refl s t : tlb_next s s t t.
Proof. repeat split; auto. Qed.
Lemma tlb_next_trans s1 s2 s3 t1 t2 t3 : ms_gen s1 <= ms_gen s2 -> ms_gen s2 <= ms_gen s3 -> hosts_kept s2 s3 ->
  tlb_next s1 s2 t1 t2 -> tlb_next s2 s3 t2 t3 -> tlb_next s1 s3 t1 t3.
Proof.
  intros G1 G2 Hk (A1 & A2 & A3 & A4 & A5 & A6) (B1 & B2 & B3 & B4 & B5 & B6).
  split; [congruence|]. split; [congruence|]. split; [congruence|]. split; [congruence|]. split.
  - destruct B5 as [B5|[B5 B5']]; [|right; split; [done|lia]]. destruct A5 as [A5|[A5 A5']]; [left; congruence|right; split; [congruence|lia]].
  - intros i e He. destruct (B6 i e He) as [H|H]; [|by right]. destruct (A6 i e H) as [H'|[H1 H2]]; [by left|right].
    split; [done|]. intros Hn. destruct (H2 Hn) as [H3 H4]. destruct (Hk _ H3) as [K1 K2]. split; congruence.
Qed.
(** A fill with an entry of the table. *)
Lemma fill_entry s va pte : pte_get (pt s) va <> 0 -> pte_host pte = pte_host (pte_get (pt s) va) ->
  host_entry (pt s) (dtlb_index (Z.shiftr va 12)) (Z.shiftr va 12, pte).
Proof.
  intros Hn Hp. split; [done|]. cbn [fst snd]. intros _. rewrite (pte_get_page _ _ va); [done|]. by apply page_shiftl.
Qed.
Lemma fill_next s s' t va pte : tlb_next s s' t (ms_me s') -> pte_get (pt s') va <> 0 ->
  pte_host pte = pte_host (pte_get (pt s') va) -> tlb_next s (tlb_fill va pte s') t (ms_me (tlb_fill va pte s')).
Proof.
  intros (A1 & A2 & A3 & A4 & A5 & A6) Hn Hp. repeat (split; [done|]). intros i e. simpl.
  intros [[<- <-]|[_ He]]%lookup_insert_Some; [right; by apply fill_entry|by apply A6].
Qed.
Lemma fill_access s s' va pte : access_ok s s' -> access_ok s (tlb_fill va pte s').
Proof. intros H. apply (access_trans _ s'); [done|]. apply access_me, H. Qed.
Lemma kept_next s s' : tlb_kept s s' -> tlb_next s s' (ms_me s) (ms_me s').
Proof. intros [-> _]. repeat split; auto. Qed.

Lemma walk_shared nogrow va s : core_ok s -> 0 <= va < GUEST_TASK_SIZE ->
  let '(pte, s') := walk_miss nogrow va s in
  access_ok s s' /\ pte = pte_get (pt s') va /\ tlb_next s s' (ms_me s) (ms_me s').
Proof.
  intros Hs Hva. unfold walk_miss. cbn zeta. pose proof (hinv_ids s (ai_heap s (co_inv s Hs))) as Hids.
  destruct (Z.eqb_spec (pte_get (pt s) va) 0) as [E0|E0].
  - pose proof (core_fill va s Hs Hva E0) as Hf. destruct (as_fault_fill va s) as [p1 s1] eqn:Ef.
    destruct Hf as (F1 & F2 & _ & F4 & F5). destruct (Z.eqb_spec p1 0) as [E1|E1].
    + rewrite (F4 E1) in *. pose proof (core_grow nogrow va s Hs Hva E0) as Hg.
      pose proof (grow_astep nogrow va s Hids) as Ha. destruct (as_stack_grow nogrow va s) as [p2 s2].
      destruct Hg as (G1 & G2 & _ & G4 & G5). cbn [snd] in Ha.
      assert (Hac : access_ok s s2) by (split; [done|done|]; intros _ va' Hn; by rewrite (G4 va' Hn)).
      destruct (Z.eqb_spec p2 0) as [E2|E2]; [split; [done|]; split; [done|by apply kept_next]|].
      split; [by apply fill_access|]. split; [done|]. apply fill_next; [by apply kept_next|congruence|congruence].
    + destruct (F5 E1) as [G1 G2]. rewrite (proj2 (Z.eqb_neq p1 0)) by done.
      assert (Hac : access_ok s s1).
      { split; [done| |lia]. unfold as_fault_fill in Ef. destruct (as_find_region (regs s) va) as [r|]; [|congruence].
        destruct (tr (r_hostmap r)); [|congruence]. destruct (_ && _); [|congruence]. injection Ef as _ <-.
        apply mstep_astep, mstep_set_range. }
      split; [by apply fill_access|]. split; [done|]. apply fill_next; [|congruence|congruence].
      rewrite G2. repeat split; auto. right. split; [done|lia].
  - cbn beta iota. rewrite (proj2 (Z.eqb_neq _ 0) E0). cbn beta iota. rewrite (proj2 (Z.eqb_neq _ 0) E0).
    split; [by apply fill_access, access_refl|]. split; [done|]. apply fill_next; [by apply kept_next|done|done].
Qed.
Lemma heal_shared va s h s' : core_ok s -> 0 <= va < GUEST_TASK_SIZE -> as_write_heal va s = (h, s') -> h <> 0 ->
  access_ok s (tlb_fill va h s') /\ h = pte_get (pt s') va /\ tlb_next s (tlb_fill va h s') (ms_me s) (ms_me (tlb_fill va h s')).
Proof.
  intros Hs Hva E Hh. destruct (core_heal va s h s' Hs Hva E) as [[? _]|(_ & H2 & _ & H4 & H5 & Hn & H6)]; [done|].
  assert (Eh : h = pte_get (pt s') va) by (by rewrite H6, Z.eqb_refl).
  assert (Hac : access_ok s s').
  { split; [done| |].
    - apply mstep_astep. unfold as_write_heal in E. cbn zeta in E. destruct (_ && _); [|congruence].
      destruct (as_find_region _ _) as [r|]; [|congruence]. destruct (_ && _); [|congruence].
      destruct (if vf_track (ms_vf s) then _ else _) as [[] s1] eqn:Ev; [|congruence]. injection E as _ <-.
      eapply mstep_trans; [|apply mstep_pt]. destruct (vf_track (ms_vf s)); [|injection Ev as <-; apply mstep_refl].
      unfold vf_record in Ev. destruct (0 <=? _); [injection Ev as <-; apply mstep_refl|].
      destruct (env_nomem _); [done|]. injection Ev as <-. by apply mstep_soft.
    - intros _ va' Hn'. rewrite H6. destruct (Z.eqb_spec (page va) (page va')) as [Ep|]; [|done]. split; [done|].
      rewrite H5, (pte_get_page _ va' va) by done. apply host_lor_W. }
  split; [by apply fill_access|]. split; [done|]. apply fill_next; [by apply kept_next|congruence|congruence].
Qed.

(** The head of [translate]: the D-TLB is of the current generation, and if
    it was not it is empty and the generation published. *)
Definition synced_from s s1 : Prop :=
  s1 = s \/ (t_dgen (ms_me s) <> ms_gen s /\ s1 = tlb_sync s).
Lemma sync_from s : synced_from s (tlb_sync s).
Proof.
  unfold synced_from. destruct (decide (t_dgen (ms_me s) = ms_gen s)) as [E|E]; [left|by right].
  unfold tlb_sync, dtlb_sync. rewrite E, Z.eqb_refl. by destruct s.
Qed.
(** What a translation by one thread does to all. *)
Lemma thread_translate nogrow va need s : core_ok s -> (t_dgen (ms_me s) = ms_gen s -> tlb_hosts s (ms_me s)) ->
  let '(r, s') := as_translate nogrow va need s in
  exists s1, synced_from s s1 /\ access_ok s1 s' /\ tlb_next s1 s' (ms_me s1) (ms_me s') /\
    (s' = s \/ t_dgen (ms_me s1) = ms_gen s1) /\
    forall p, fst r = Some p -> t_dgen (ms_me s1) = ms_gen s1 /\
      pte_get (pt s') (data_va va need) <> 0 /\ held_host va need p = pte_host (pte_get (pt s') (data_va va need)).
Proof.
  intros Hs Ht. unfold as_translate. pose proof (data_va_range va need) as Ha. set (a := data_va va need) in *.
  destruct (GUEST_TASK_SIZE <=? a) eqn:Er.
  { exists s. split; [by left|]. split; [by apply access_refl|]. split; [apply tlb_next_refl|]. split; [by left|done]. }
  cbn zeta. set (s1 := tlb_sync s).
  destruct (sync_spec (ms_gen s) (ms_pub s) (ms_me s)) as [Hg Ho].
  assert (H1 : synced_from s s1 /\ core_ok s1 /\ t_dgen (ms_me s1) = ms_gen s1 /\ tlb_hosts s1 (ms_me s1)).
  { split; [apply sync_from|]. unfold s1, tlb_sync in *. destruct (dtlb_sync (ms_gen s) (ms_pub s, ms_me s)) as [p t]. cbn [snd] in *.
    split; [by apply (core_me s)|]. split; [done|]. destruct Ho as [[E [= -> ->]]|[E Ed]]; [by apply Ht|by apply tlb_hosts_empty]. }
  clearbody s1. destruct H1 as (Y1 & Y2 & Y3 & Y4).
  set (e := match dtlb_hit _ _ with Some _ => _ | None => _ end).
  assert (He : access_ok s1 (snd e) /\ tlb_next s1 (snd e) (ms_me s1) (ms_me (snd e)) /\
    (fst e <> 0 -> pte_get (pt (snd e)) a <> 0 /\ pte_host (fst e) = pte_host (pte_get (pt (snd e)) a))).
  { unfold e. destruct (dtlb_hit (ms_me s1) (Z.shiftr a 12)) as [pte|] eqn:E; cbn [fst snd].
    - split; [by apply access_refl|]. split; [apply tlb_next_refl|]. intros _.
      destruct (tlb_hit_host s1 (ms_me s1) a pte Y4 E) as (_ & H2 & H3). done.
    - pose proof (walk_shared nogrow a s1 Y2 ltac:(lia)) as Hw. destruct (walk_miss nogrow a s1) as [pte s2].
      destruct Hw as (W1 & W2 & W3). cbn [fst snd]. rewrite W2. done. }
  destruct e as [pte s2]. cbn [fst snd] in He. destruct He as (E1 & E2 & E3).
  destruct (Z.eqb_spec pte 0) as [E0|E0]; [exists s1; repeat (split; [done|]); split; [by right|done]|]. specialize (E3 E0). destruct E3 as [E3 E4].
  assert (Hpg : forall h, host_of h a - page_off a = pte_host h) by (intros; unfold host_of; lia).
  destruct (Z.land pte need =? need).
  { exists s1. split; [done|]. split; [done|]. split; [done|]. split; [by right|]. intros p [= <-]. split; [done|]. split; [done|].
    unfold held_host. fold a. by rewrite Hpg. }
  destruct (if need =? PTE_W then as_write_heal a s2 else (0, s2)) as [h s3] eqn:Eh.
  destruct (Z.eqb_spec h 0) as [E5|E5].
  { exists s1. split; [done|]. assert (s3 = s2) as ->.
    { destruct (need =? PTE_W); [|congruence]. destruct (core_heal a s2 h s3 (ac_core _ _ E1) ltac:(lia) Eh) as [[_ ?]|[? _]]; done. }
    repeat (split; [done|]). split; [by right|done]. }
  destruct (need =? PTE_W); [|congruence].
  destruct (heal_shared a s2 h s3 (ac_core _ _ E1) ltac:(lia) Eh E5) as (L1 & L2 & L3).
  exists s1. split; [done|]. split; [by apply (access_trans _ s2)|]. split; [|split; [by right|]].
  - apply (tlb_next_trans s1 s2 _ (ms_me s1) (ms_me s2)); [apply E1|apply L1| |done|done].
    apply (ac_hosts _ _ L1). assert (ms_gen s3 = ms_gen s2); [|done].
    destruct (core_heal a s2 h s3 (ac_core _ _ E1) ltac:(lia) Eh) as [[? _]|(_ & _ & _ & [_ K] & _)]; done.
  - intros p [= <-]. split; [done|]. change (pt (tlb_fill a h s3)) with (pt s3). rewrite <- L2. split; [done|].
    unfold held_host. fold a. by rewrite Hpg.
Qed.
End Shared.
