(* ===== verification/EpochThms.v ===== *)
(** * EpochThms: the table of published epochs

    What each routine on the table does to it, as seen by the thread that
    calls it and by the others: a slot belongs to one thread, the count of
    unregistered threads is exact, and the generation the drain works from is
    no newer than what any registered, unblocked thread has published. *)

From stdpp Require Import gmap.
From S2P Require Import Prelude Types Cpu MemSeam PageTable Epoch.

(** A slot nobody owns is not marked blocked. *)
Record pub_ok (p : Pub) : Prop := {
  po_hi : 0 <= pub_hi p;
  po_free k : ps_tid (slot_at p k) = 0 -> ps_blocked (slot_at p k) = false
}.
(** A thread's claim on its slot. *)
Record slot_ok (p : Pub) (t : Tlb) : Prop := {
  sk_tid : t_tid t <> 0;
  sk_ptid : t_ptid t = 0 \/ t_ptid t = t_tid t;
  sk_slot : 0 <= t_slot t -> t_slot t < pub_hi p /\ t_slot t < AS_PUB_MAX /\
                             ps_tid (slot_at p (t_slot t)) <> 0 /\ t_over t = false
}.
Lemma slot_at_set i v p k : slot_at (set_slot i v p) k = if i =? k then v else slot_at p k.
Proof.
  unfold slot_at, set_slot; simpl. destruct (Z.eqb_spec i k) as [->|Hne]; [by rewrite lookup_insert_eq|by rewrite lookup_insert_ne].
Qed.
Lemma free_slot_some n i p k : free_slot n i p = Some k -> i <= k < i + Z.of_nat n /\ ps_tid (slot_at p k) = 0.
Proof.
  revert i. induction n as [|n IH]; intros i; [done|]. simpl. destruct (Z.eqb_spec (ps_tid (slot_at p i)) 0) as [E|E].
  - intros [= <-]. split; [lia|done].
  - intros H. destruct (IH _ H) as [H1 H2]. split; [lia|done].
Qed.
Lemma pub_cap_range p : 1 <= pub_cap p <= AS_PUB_MAX.
Proof.
  unfold pub_cap. change AS_PUB_MAX with 4096. set (c := match pub_env p with Some e => e | None => 4096 end).
  destruct (Z.ltb_spec c 1); [lia|]. destruct (Z.ltb_spec 4096 c); lia.
Qed.

(** What one thread's routine does to the table: the slots of others are
    theirs still, and the count moves with the thread's own mark. *)
Record pub_step (p : Pub) (t : Tlb) (p' : Pub) (t' : Tlb) : Prop := {
  pp_ok : pub_ok p';
  pp_mine : slot_ok p' t';
  pp_hi : pub_hi p <= pub_hi p';
  pp_other k : 0 <= k -> k <> t_slot t -> ps_tid (slot_at p k) <> 0 ->
    slot_at p' k = slot_at p k /\ t_slot t' <> k;
  pp_over : pub_over p' = pub_over p + b2z (t_over t') - b2z (t_over t);
  pp_new k : 0 <= k -> ps_tid (slot_at p' k) <> 0 -> k = t_slot t' \/ (ps_tid (slot_at p k) <> 0 /\ k <> t_slot t)
}.
Lemma slot_ok_other p t p' t' u : pub_step p t p' t' -> slot_ok p u -> (0 <= t_slot u -> t_slot u <> t_slot t) -> slot_ok p' u.
Proof.
  intros Hp [H1 H2 H3] Hne. split; [done|done|]. intros Hu. destruct (H3 Hu) as (U1 & U2 & U3 & U4).
  destruct (pp_other _ _ _ _ Hp _ Hu (Hne Hu) U3) as [E _]. rewrite E. pose proof (pp_hi _ _ _ _ Hp). split; [lia|done].
Qed.

(** [claim_loop]: a slot of one's own that was free, or a mark. *)
Definition registered (p : Pub) (t : Tlb) (p' : Pub) (t' : Tlb) : Prop :=
  0 <= t_slot t' /\ t_slot t' < pub_hi p' /\ t_slot t' < AS_PUB_MAX /\ ps_tid (slot_at p (t_slot t')) = 0 /\
  (forall k, slot_at p' k = if t_slot t' =? k then mkSlot (t_ptid t) false (ps_gen (slot_at p k)) else slot_at p k) /\
  pub_over p' = pub_over p - b2z (t_over t) /\ t_over t' = false /\ t_ptid t' = t_ptid t.
Definition unregistered (p : Pub) (t : Tlb) (p' : Pub) (t' : Tlb) : Prop :=
  t_slot t' = t_slot t /\ (forall k, slot_at p' k = slot_at p k) /\
  pub_over p' = pub_over p + 1 - b2z (t_over t) /\ t_over t' = true /\ t_ptid t' = t_ptid t.
Lemma claim_done_spec i p t : pub_ok p -> 0 <= i < pub_hi p -> i < AS_PUB_MAX -> ps_tid (slot_at p i) = 0 ->
  let '(p', t') := claim_done i (p, t) in registered p t p' t' /\ pub_hi p' = pub_hi p.
Proof.
  intros Hp Hi Hm Hf. unfold claim_done, registered. rewrite (po_free p Hp i Hf).
  assert (Hs : forall k, slot_at (set_slot i (mkSlot (t_ptid t) false (ps_gen (slot_at p i))) p) k =
                         if i =? k then mkSlot (t_ptid t) false (ps_gen (slot_at p k)) else slot_at p k).
  { intros k. rewrite slot_at_set. by destruct (Z.eqb_spec i k) as [->|]. }
  destruct (t_over t); cbn [t_slot with_pub t_over t_ptid pub_hi set_over set_slot pub_over b2z]; (split; [|done]);
    repeat (split; [done || lia || exact Hs|]); done.
Qed.
Lemma claim_full_spec p t : let '(p', t') := claim_full (p, t) in unregistered p t p' t' /\ pub_hi p' = pub_hi p.
Proof.
  unfold claim_full, unregistered. destruct (t_over t) eqn:E; cbn [t_slot with_pub t_over t_ptid b2z pub_over set_over];
    (split; [|done]); repeat (split; [done || lia|]); done.
Qed.
Lemma claim_loop_spec f p t : pub_ok p ->
  let '(b, (p', t')) := claim_loop f (p, t) in
  pub_hi p <= pub_hi p' /\ if b : bool then registered p t p' t' else unregistered p t p' t'.
Proof.
  revert p. induction f as [|f IH]; intros p Hp; cbn [claim_loop].
  { pose proof (claim_full_spec p t) as H. destruct (claim_full (p, t)) as [p' t']. destruct H as [H E]. split; [lia|done]. }
  pose proof (pub_cap_range p) as Hc. cbn zeta. set (hi := if pub_cap p <? pub_hi p then _ else _).
  pose proof (po_hi p Hp) as H0. assert (Hhi : 0 <= hi <= pub_hi p /\ hi <= pub_cap p) by (unfold hi; destruct (Z.ltb_spec (pub_cap p) (pub_hi p)); lia).
  destruct (free_slot (Z.to_nat hi) 0 p) as [i|] eqn:Ef.
  { apply free_slot_some in Ef as [Hi Hf]. pose proof (claim_done_spec i p t Hp ltac:(lia) ltac:(lia) Hf) as H.
    destruct (claim_done i (p, t)) as [p' t']. destruct H as [H E]. split; [lia|done]. }
  destruct (Z.leb_spec (pub_cap p) hi) as [Hle|Hlt].
  { pose proof (claim_full_spec p t) as H. destruct (claim_full (p, t)) as [p' t']. destruct H as [H E]. split; [lia|done]. }
  assert (Ehi : hi = pub_hi p) by (unfold hi in *; destruct (Z.ltb_spec (pub_cap p) (pub_hi p)); lia).
  set (p1 := set_hi (pub_hi p + 1) p). assert (Hp1 : pub_ok p1) by (split; [simpl; lia|apply Hp]).
  destruct (Z.eqb_spec (ps_tid (slot_at p1 (pub_hi p))) 0) as [E|E].
  - pose proof (claim_done_spec (pub_hi p) p1 t Hp1 ltac:(simpl; lia) ltac:(lia) E) as H.
    destruct (claim_done (pub_hi p) (p1, t)) as [p' t']. destruct H as [H E']. split; [rewrite E'; simpl; lia|exact H].
  - specialize (IH p1 Hp1). destruct (claim_loop f (p1, t)) as [b [p' t']]. destruct IH as [I1 I2]. simpl in I1.
    split; [lia|exact I2].
Qed.

(** [dtlb_publish]: the thread is registered at [gen], or counted. *)
Definition published (gen : Z) (p : Pub) (t : Tlb) (p' : Pub) (t' : Tlb) : Prop :=
  (0 <= t_slot t' /\ ps_gen (slot_at p' (t_slot t')) = gen /\
   ps_blocked (slot_at p' (t_slot t')) = (if t_slot t <? 0 then false else ps_blocked (slot_at p (t_slot t))) /\
   (0 <= t_slot t -> t_slot t' = t_slot t)) \/
  (t_slot t' < 0 /\ t_over t' = true /\ t_slot t < 0).
Lemma pub_ok_set i v p : pub_ok p -> (ps_tid v = 0 -> ps_blocked v = false) -> pub_ok (set_slot i v p).
Proof. intros [H1 H2] Hv. split; [done|]. intros k. rewrite slot_at_set. destruct (i =? k); [done|apply H2]. Qed.
(** A store to one's own slot. *)
Lemma own_slot_step v p t : pub_ok p -> slot_ok p t -> 0 <= t_slot t -> ps_tid v = ps_tid (slot_at p (t_slot t)) ->
  pub_step p t (set_slot (t_slot t) v p) t.
Proof.
  intros Hp Ht Hs Ev. destruct (sk_slot _ _ Ht Hs) as (S1 & S2 & S3 & S4). split; [apply pub_ok_set; [done|congruence]| |simpl; lia| |simpl; lia|].
  - destruct Ht as [T1 T2 _]. split; [done|done|]. intros _. rewrite slot_at_set, Z.eqb_refl, Ev. done.
  - intros k _ Hne _. rewrite slot_at_set. rewrite (proj2 (Z.eqb_neq _ _)) by done. done.
  - intros k _. rewrite slot_at_set. destruct (Z.eqb_spec (t_slot t) k) as [->|]; [by left|by right].
Qed.
Lemma pub_step_id p t : pub_ok p -> slot_ok p t -> pub_step p t p t.
Proof.
  intros Hp Ht. split; [done|done|lia|done|lia|]. intros k Hk Hn. destruct (Z.eq_dec k (t_slot t)); [by left|by right].
Qed.
Lemma pub_step_trans p t p1 t1 p2 t2 : slot_ok p t -> pub_step p t p1 t1 -> pub_step p1 t1 p2 t2 -> pub_step p t p2 t2.
Proof.
  intros Ht [A1 A2 A3 A4 A5 A6] [B1 B2 B3 B4 B5 B6]. split; [done|done|lia| |lia|].
  2: { intros k Hk Hn. destruct (B6 k Hk Hn) as [->|[Hn1 Hk1]]; [by left|]. destruct (A6 k Hk Hn1) as [->|?]; [done|by right]. }
  intros k Hk Hne Hn. destruct (A4 k Hk Hne Hn) as [E1 N1]. rewrite <- E1 in Hn.
  destruct (B4 k Hk ltac:(congruence) Hn) as [E2 N2]. split; congruence.
Qed.
Lemma publish_spec gen p t : pub_ok p -> slot_ok p t ->
  let '(p', t') := dtlb_publish gen (p, t) in pub_step p t p' t' /\ published gen p t p' t'.
Proof.
  intros Hp Ht. unfold dtlb_publish. destruct (Z.ltb_spec (t_slot t) 0) as [Hs|Hs].
  2: { cbn [publish_gen]. split; [by apply own_slot_step|]. left. rewrite slot_at_set, Z.eqb_refl. cbn [ps_gen ps_blocked].
       by rewrite (proj2 (Z.ltb_ge _ _)). }
  unfold dtlb_claim_slot. set (u := if t_ptid t =? 0 then _ else t).
  assert (Hu : t_slot u = t_slot t /\ t_over u = t_over t /\ t_ptid u = t_tid t /\ t_tid u = t_tid t).
  { unfold u. destruct Ht as [_ T2 _]. destruct (Z.eqb_spec (t_ptid t) 0); [done|]. by destruct T2. }
  destruct Hu as (U1 & U2 & U3 & U4). pose proof (claim_loop_spec (Z.to_nat (pub_cap p) + 1) p u Hp) as Hc.
  pose proof (claim_keeps (Z.to_nat (pub_cap p) + 1) p u) as [_ _ _ K4].
  destruct (claim_loop _ (p, u)) as [[] [p1 t1]]; cbn [snd] in K4; destruct Hc as [Hhi Hc].
  - destruct Hc as (C1 & C2 & C3 & C4 & C5 & C6 & C7 & C8). cbn [publish_gen].
    assert (Hok1 : pub_ok p1).
    { split; [pose proof (po_hi p Hp); lia|]. intros k. rewrite C5. destruct (_ =? k); [done|apply Hp]. }
    assert (Hst : pub_step p t p1 t1).
    { split; [done| |done| |rewrite C6, C7, U2; simpl; lia|].
      - split; [rewrite K4, U4; apply Ht|rewrite C8, U3, K4, U4; by right|]. intros _.
        rewrite C5, Z.eqb_refl, U3. split; [done|]. split; [done|]. split; [apply Ht|done].
      - intros k _ _ Hn. rewrite C5. destruct (Z.eqb_spec (t_slot t1) k) as [<-|Hne]; [done|done].
      - intros k Hk. rewrite C5. destruct (Z.eqb_spec (t_slot t1) k) as [<-|Hne]; [by left|]. right. split; [done|lia]. }
    split.
    + apply (pub_step_trans _ _ p1 t1); [done|done|]. by apply own_slot_step; [|apply Hst|..].
    + left. split; [done|]. rewrite slot_at_set, Z.eqb_refl. cbn [ps_gen ps_blocked]. split; [done|].
      split; [|lia]. rewrite C5, Z.eqb_refl. rewrite (proj2 (Z.ltb_lt _ _)) by done. done.
  - destruct Hc as (C1 & C2 & C3 & C4 & C5). split; [|right; split; [lia|]; split; [done|lia]].
    split; [| |done| |rewrite C3, C4, U2; simpl; lia|].
    + split; [pose proof (po_hi p Hp); lia|]. intros k. rewrite C2. apply Hp.
    + split; [rewrite K4, U4; apply Ht|rewrite C5, U3, K4, U4; by right|lia].
    + intros k Hk _ _. rewrite C2. split; [done|lia].
    + intros k Hk Hn. rewrite C2 in Hn. right. split; [done|lia].
Qed.
Lemma blocked_spec b p t : pub_ok p -> slot_ok p t -> let '(p', t') := set_blocked b (p, t) in
  pub_step p t p' t' /\ t' = t /\ (0 <= t_slot t -> ps_blocked (slot_at p' (t_slot t)) = b /\
    ps_gen (slot_at p' (t_slot t)) = ps_gen (slot_at p (t_slot t))).
Proof.
  intros Hp Ht. unfold set_blocked. destruct (Z.ltb_spec (t_slot t) 0) as [Hs|Hs].
  - split; [|split; [done|lia]]. split; [done|done|lia| |lia|]; [intros k Hk _ _; split; [done|lia]|]. intros k Hk Hn. right. split; [done|lia].
  - split; [by apply own_slot_step|]. split; [done|]. intros _. by rewrite slot_at_set, Z.eqb_refl.
Qed.
(** [dtlb_unpublish]: the slot is given back, at generation 0. *)
Lemma unpublish_spec p t : pub_ok p -> slot_ok p t -> let '(p', t') := dtlb_unpublish (p, t) in
  pub_step p t p' t' /\ t_slot t' < 0 /\ t_over t' = false.
Proof.
  intros Hp Ht. unfold dtlb_unpublish. destruct (t_over t) eqn:Eo.
  - assert (Hs : t_slot t < 0).
    { destruct (Z.ltb_spec (t_slot t) 0) as [?|Hs]; [done|]. destruct (sk_slot _ _ Ht Hs) as (_ & _ & _ & ?). congruence. }
    cbn [t_slot with_pub]. rewrite (proj2 (Z.ltb_lt _ _)) by done. split; [|done].
    split; [destruct Hp; by split| |simpl; lia| |rewrite Eo; simpl; lia|].
    + destruct Ht as [T1 T2 _]. split; [done|done|simpl; lia].
    + intros k Hk _ _. split; [done|simpl; lia].
    + intros k Hk Hn. right. split; [done|lia].
  - destruct (Z.ltb_spec (t_slot t) 0) as [Hs|Hs].
    + split; [|done]. split; [done|done|lia| |lia|]; [intros k Hk _ _; split; [done|lia]|]. intros k Hk Hn. right. split; [done|lia].
    + split; [|done]. split; [by apply pub_ok_set| |simpl; lia| |rewrite Eo; simpl; lia|].
      * destruct Ht as [T1 T2 _]. split; [done|done|simpl; lia].
      * intros k Hk Hne _. rewrite slot_at_set. rewrite (proj2 (Z.eqb_neq _ _)) by done. split; [done|simpl; lia].
      * intros k Hk. rewrite slot_at_set. destruct (Z.eqb_spec (t_slot t) k) as [->|]; [done|]. intros Hn. right. split; [done|lia].
Qed.

(** The drain works from a generation every registered, unblocked thread has
    published. *)
Lemma safe_loop_le n i p safe : safe_loop_gen n i p safe <= safe /\
  forall k, i <= k < i + Z.of_nat n -> ps_tid (slot_at p k) <> 0 -> ps_blocked (slot_at p k) = false ->
    safe_loop_gen n i p safe <= ps_gen (slot_at p k).
Proof.
  revert i safe. induction n as [|n IH]; intros i safe; simpl; [split; [lia|intros; lia]|].
  set (x := if ps_tid (slot_at p i) =? 0 then safe else _). destruct (IH (i + 1) x) as [I1 I2].
  assert (Hx : x <= safe) by (unfold x; destruct (_ =? 0); [lia|]; destruct (ps_blocked _); [lia|]; destruct (Z.ltb_spec (ps_gen (slot_at p i)) safe); lia).
  split; [lia|]. intros k Hk Ht Hb. destruct (decide (k = i)) as [->|Hne]; [|apply I2; [lia|done|done]].
  assert (x <= ps_gen (slot_at p i)); [|lia]. unfold x. rewrite (proj2 (Z.eqb_neq _ 0)), Hb by done.
  destruct (Z.ltb_spec (ps_gen (slot_at p i)) safe); lia.
Qed.
Lemma safe_gen_le p t : slot_ok p t -> 0 <= t_slot t -> ps_blocked (slot_at p (t_slot t)) = false ->
  pub_over p = 0 -> dtlb_safe_gen p <= ps_gen (slot_at p (t_slot t)).
Proof.
  intros Ht Hs Hb Ho. destruct (sk_slot _ _ Ht Hs) as (S1 & S2 & S3 & S4). unfold dtlb_safe_gen. rewrite Ho. cbn [negb Z.eqb].
  set (hi := if AS_PUB_MAX <? pub_hi p then _ else _).
  assert (Hhi : t_slot t < hi) by (unfold hi; destruct (_ <? _); lia).
  destruct (safe_loop_le (Z.to_nat hi) 0 p (not64 0)) as [_ H]. apply H; [lia|done|done].
Qed.
(** And the drain is not held back by anything else. *)
Lemma safe_loop_ge n i p safe g : g <= safe ->
  (forall k, i <= k < i + Z.of_nat n -> ps_tid (slot_at p k) <> 0 -> ps_blocked (slot_at p k) = false -> g <= ps_gen (slot_at p k)) ->
  g <= safe_loop_gen n i p safe.
Proof.
  revert i safe. induction n as [|n IH]; intros i safe Hs Hk; simpl; [done|]. apply IH; [|intros k Hr; apply Hk; lia].
  destruct (Z.eqb_spec (ps_tid (slot_at p i)) 0); [done|]. destruct (ps_blocked (slot_at p i)) eqn:Eb; [done|].
  destruct (_ <? _); [|done]. apply Hk; [lia|done|done].
Qed.
Lemma safe_gen_ge p g : pub_over p = 0 -> g <= not64 0 ->
  (forall k, 0 <= k -> ps_tid (slot_at p k) <> 0 -> ps_blocked (slot_at p k) = false -> g <= ps_gen (slot_at p k)) ->
  g <= dtlb_safe_gen p.
Proof.
  intros Ho Hg Hk. unfold dtlb_safe_gen. rewrite Ho. cbn [negb Z.eqb]. apply safe_loop_ge; [done|]. intros k Hr. apply Hk. lia.
Qed.
