(* ===== verification/Threads.v ===== *)
(** * Threads: guest threads on one address space

    A process runs one host thread per guest thread. Each has a D-TLB of its
    own and holds, for the length of an access, host pointers it translated;
    all of them share the rest of [MS]. An action is one atomic piece of what
    a thread does between two points where another may get in: an access
    starting or ending, a block of generated code entered or left, the system
    call dispatch (syscall.c) entered and left, a mapping operation of a
    handler, a thread created or gone. [jit_notify_mapping_change] raises the
    [interrupt] flag of the threads' [JitEnv] on every generation bump; a
    thread that has no [JitEnv] yet is taken to have it raised too, since the
    first block it translates is fetched through [translate]. *)

From stdpp Require Import gmap.
From S2P Require Import Prelude Types Cpu MemSeam PageTable Regions Epoch AsState AddrSpace Translate MmStep MmReach Shared.

Section Threads.
Context {Os : Type} `{!HostOs Os}.
Implicit Types s : MS Os.

(** [M_run]: in the run loop or the interpreter; [M_block]: in generated
    code; [M_sys]: in a system call handler. *)
Inductive Mode := M_gone | M_run | M_block | M_sys.
Record Thr := mkThr { th_tlb : Tlb; th_mode : Mode; th_intr : bool; th_ptrs : list Z }.
Record World := mkW { w_ms : MS Os; w_thr : list Thr }.

Definition th_with_tlb (t : Tlb) (h : Thr) : Thr := mkThr t (th_mode h) (th_intr h) (th_ptrs h).
Definition th_with_mode (m : Mode) (h : Thr) : Thr := mkThr (th_tlb h) m (th_intr h) (th_ptrs h).
Definition th_with_intr (b : bool) (h : Thr) : Thr := mkThr (th_tlb h) (th_mode h) b (th_ptrs h).
Definition th_with_ptrs (l : list Z) (h : Thr) : Thr := mkThr (th_tlb h) (th_mode h) (th_intr h) l.

(** [jit_notify_mapping_change]: every thread's flag is raised. *)
Definition jit_notify_mapping_change (l : list Thr) : list Thr := map (th_with_intr true) l.
(** Thread [h] runs on the shared state, and what it leaves is put back; a
    generation bumped on the way has raised every flag. *)
Definition seen_by (h : Thr) (w : World) : MS Os := upd_ms_me (fun _ => th_tlb h) (w_ms w).
Definition put_back (i : nat) (h : Thr) s (w : World) : World :=
  let thr := <[i := th_with_tlb (ms_me s) h]> (w_thr w) in
  mkW s (if ms_gen s =? ms_gen (w_ms w) then thr else jit_notify_mapping_change thr).

(** The routines on the epoch table, as steps of [MS]. *)
Definition on_pub (f : Pub * Tlb -> Pub * Tlb) s : MS Os :=
  let '(p, t) := f (ms_pub s, ms_me s) in upd_ms_pub (fun _ => p) (upd_ms_me (fun _ => t) s).

Inductive wact :=
  | A_load (i : nat) (nogrow : bool) (va need : Z)   (** an access through [translate] *)
  | A_probe (i : nat) (va : Z)                       (** generated code's D-TLB probe *)
  | A_done (i : nat)                                 (** the access is over *)
  | A_enter (i : nat)                                (** [jit_run] enters a block *)
  | A_leave (i : nat)
  | A_stop (i : nat)                                 (** [as_tlb_quiesce_self] *)
  | A_svc (i : nat)                                  (** [as_tlb_block_begin] *)
  | A_ret (i : nat)                                  (** [as_tlb_block_end] *)
  | A_op (i : nat) (op : mm_op)                      (** a handler's operation *)
  | A_hold (i : nat) (nogrow : bool) (va need : Z)   (** a handler's [translate], its pointer kept *)
  | A_clone (i : nat) (tid : Z)
  | A_exit (i : nat).
Definition act_thr (a : wact) : nat :=
  match a with
  | A_load i _ _ _ | A_probe i _ | A_done i | A_enter i | A_leave i | A_stop i | A_svc i | A_ret i
  | A_op i _ | A_hold i _ _ _ | A_clone i _ | A_exit i => i
  end.

(** An answer of [translate] taken as a held page. *)
Definition take_ptr (i : nat) (h : Thr) (nogrow : bool) (va need : Z) (w : World) : World :=
  match as_translate nogrow va need (seen_by h w) with
  | ((Some p, _), s) => put_back i (th_with_ptrs (held_host va need p :: th_ptrs h) h) s w
  | ((None, _), s) => put_back i h s w
  end.
(** [jit_run] at a block entry: the flag is serviced
    ([jit_service_interrupt]), then the block is entered. *)
Definition jit_service_interrupt (i : nat) (h : Thr) (w : World) : World :=
  put_back i (th_with_intr false (th_with_mode M_block h)) (on_pub (jit_dtlb_reset (ms_gen (w_ms w))) (seen_by h w)) w.
Definition jit_enter (i : nat) (h : Thr) (w : World) : World :=
  if th_intr h then jit_service_interrupt i h w else put_back i (th_with_mode M_block h) (seen_by h w) w.
(** The system call dispatch around a handler. *)
Definition svc_begin (i : nat) (h : Thr) (w : World) : World :=
  put_back i (th_with_mode M_sys h) (on_pub as_tlb_block_begin (seen_by h w)) w.
Definition svc_end (i : nat) (h : Thr) (w : World) : World :=
  put_back i (th_with_mode M_run h) (on_pub as_tlb_block_end (seen_by h w)) w.
Definition mode_eqb (m n : Mode) : bool :=
  match m, n with
  | M_gone, M_gone | M_run, M_run | M_block, M_block | M_sys, M_sys => true
  | _, _ => false
  end.
(** The step of [h], thread [i] of [w]; [None] when the action is not one its
    mode can take. *)
Definition thr_step (a : wact) (h : Thr) (w : World) : option World :=
  let m := th_mode h in
  let idle := match th_ptrs h with [] => true | _ => false end in
  match a with
  | A_load i ng va need =>
      if mode_eqb m M_run || mode_eqb m M_block then Some (take_ptr i h ng va need w) else None
  | A_probe i va =>
      if mode_eqb m M_block then
        match dtlb_hit (th_tlb h) (Z.shiftr (Z.land (u64 va) A64_TBI_MASK) 12) with
        | Some pte => Some (put_back i (th_with_ptrs (pte_host pte :: th_ptrs h) h) (seen_by h w) w)
        | None => None
        end
      else None
  | A_done i => Some (put_back i (th_with_ptrs [] h) (seen_by h w) w)
  | A_enter i =>
      if mode_eqb m M_run && idle then Some (jit_enter i h w) else None
  | A_leave i => if mode_eqb m M_block && idle
                 then Some (put_back i (th_with_mode M_run h) (seen_by h w) w) else None
  | A_stop i => if mode_eqb m M_run && idle
                then Some (put_back i h (on_pub (jit_dtlb_reset (ms_gen (w_ms w))) (seen_by h w)) w) else None
  | A_svc i => if mode_eqb m M_run && idle
               then Some (svc_begin i h w) else None
  | A_ret i => if mode_eqb m M_sys && idle
               then Some (svc_end i h w) else None
  | A_op i op => if mode_eqb m M_sys then Some (put_back i h (mm_exec op (seen_by h w)) w) else None
  | A_hold i ng va need => if mode_eqb m M_sys then Some (take_ptr i h ng va need w) else None
  | A_clone i tid =>
      if mode_eqb m M_sys then
        let w' := put_back i h (as_thread_enter (seen_by h w)) w in
        Some (mkW (w_ms w') (w_thr w' ++ [mkThr (tlb_init tid) M_run false []]))
      else None
  | A_exit i => if mode_eqb m M_run && idle
                then Some (put_back i (th_with_mode M_gone h) (as_thread_exit (seen_by h w)) w) else None
  end.
Definition wexec (a : wact) (w : World) : option World :=
  match w_thr w !! act_thr a with
  | Some h => if mode_eqb (th_mode h) M_gone then None else thr_step a h w
  | None => None
  end.
Fixpoint wrun (l : list wact) (w : World) : option World :=
  match l with
  | [] => Some w
  | a :: l' => match wexec a w with Some w' => wrun l' w' | None => None end
  end.

(** One guest thread, about to run. *)
Definition w_init (o : Os) (e : Env) (tid : Z) : World :=
  mkW (ms_init o e tid) [mkThr (tlb_init tid) M_run false []].

(** Every host page a thread holds is mapped. *)
Definition page_live s (q : Z) : Prop := forall k, 0 <= k < GUEST_PAGE_SIZE -> live (ms_maps s) (q + k) = true.
Definition holds_live (w : World) : Prop :=
  forall i h q, w_thr w !! i = Some h -> q ∈ th_ptrs h -> page_live (w_ms w) q.

(** One pointer at a time, and none in a handler. *)
Definition one_at_a_time (w : World) (a : wact) : bool :=
  match a with
  | A_load i _ _ _ | A_probe i _ => match w_thr w !! i with Some h => match th_ptrs h with [] => true | _ => false end | None => true end
  | A_hold _ _ _ _ => false
  | _ => true
  end.
Definition act_ok (a : wact) : Prop :=
  match a with
  | A_load _ _ _ need | A_hold _ _ _ need => need = PTE_R \/ need = PTE_W \/ need = PTE_X
  | A_op _ op => op_ok op
  | A_clone _ tid => tid <> 0
  | _ => True
  end.
(** No change of protection is cut short by the host. *)
Definition act_granted (w : World) (a : wact) : Prop :=
  match a with
  | A_op i op => match w_thr w !! i with Some h => granted op (seen_by h w) | None => True end
  | _ => True
  end.
End Threads.
Arguments mkThr : clear implicits.
