(* ===== verification/Quarantine.v ===== *)
(** * Quarantine: host memory is released only when no thread can reach it

    The invariant of guest threads on one address space: what a running
    thread holds, and in generated code what its D-TLB names, is held by an
    allocation or waits in the quarantine with a stamp no older than the
    generation the thread has published. It is kept by every action in which
    a thread holds one pointer at a time and a handler none. *)

From stdpp Require Import gmap.
From S2P Require Import Prelude Types Cpu CpuWf MemSeam PageTable Regions Epoch AsState AddrSpace AsInv AsSteps AsThms.
From S2P Require Import Translate AsSeam AsGrow TransThms MmStep MmReach Shared EpochThms Threads.

(** ** Sums over threads *)
Definition tally (f : Thr -> Z) (l : list Thr) : Z := fold_right (fun h a => f h + a) 0 l.
Lemma tally_insert f l i h h' : l !! i = Some h -> tally f (<[i := h']> l) = tally f l + f h' - f h.
Proof.
  revert i. induction l as [|x l IH]; intros [|i] E; try done; simpl in *.
  - injection E as ->. lia.
  - rewrite (IH i E). lia.
Qed.
Lemma tally_app f l l' : tally f (l ++ l') = tally f l + tally f l'.
Proof. induction l as [|x l IH]; simpl; [done|]. rewrite IH. lia. Qed.
Lemma tally_map f g l : (forall h, f (g h) = f h) -> tally f (map g l) = tally f l.
Proof. intros H. induction l as [|x l IH]; simpl; [done|]. by rewrite H, IH. Qed.
Lemma tally_ge f l i h : (forall x, 0 <= f x) -> l !! i = Some h -> f h <= tally f l.
Proof.
  intros Hf. assert (Hp : forall k, 0 <= tally f k) by (induction k as [|x k IH]; simpl; [done|]; specialize (Hf x); lia).
  revert i. induction l as [|x l IH]; intros [|i] E; try done; simpl in *.
  - injection E as ->. specialize (Hp l). lia.
  - specialize (IH i E). specialize (Hf x). lia.
Qed.
Lemma tally_two f l i j h u : (forall x, 0 <= f x) -> i <> j -> l !! i = Some h -> l !! j = Some u -> f h + f u <= tally f l.
Proof.
  intros Hf. revert i j. induction l as [|x l IH]; intros [|i] [|j] Hne E1 E2; try done; simpl in *.
  - injection E1 as ->. pose proof (tally_ge f l j u Hf E2). lia.
  - injection E2 as ->. pose proof (tally_ge f l i h Hf E1). lia.
  - specialize (IH i j ltac:(congruence) E1 E2). specialize (Hf x). lia.
Qed.
Definition f_alive (h : Thr) : Z := if mode_eqb (th_mode h) M_gone then 0 else 1.
Definition f_over (h : Thr) : Z := if mode_eqb (th_mode h) M_gone then 0 else b2z (t_over (th_tlb h)).
Lemma f_alive_pos h : 0 <= f_alive h.
Proof. unfold f_alive. destruct (mode_eqb _ _); lia. Qed.
Lemma f_over_pos h : 0 <= f_over h.
Proof. unfold f_over, b2z. destruct (mode_eqb _ _); [lia|]. destruct (t_over _); lia. Qed.
Lemma mode_eqb_eq m n : mode_eqb m n = true <-> m = n.
Proof. by destruct m, n. Qed.

Section Quarantine.
Context {Os : Type} `{!HostOs Os} `{!HostOsOk Os}.
Implicit Types s : MS Os.
Implicit Types w : World (Os := Os).

(** The generation a thread is known to have reached. *)
Definition pubgen (p : Pub) (t : Tlb) : Z := if t_slot t <? 0 then 0 else ps_gen (slot_at p (t_slot t)).
Definition running (m : Mode) : bool := mode_eqb m M_run || mode_eqb m M_block.

Record thr_ok s (h : Thr) : Prop := {
  ti_slot : slot_ok (ms_pub s) (th_tlb h);
  ti_dgen : 0 <= t_dgen (th_tlb h) <= ms_gen s;
  ti_pub : 0 <= pubgen (ms_pub s) (th_tlb h) <= ms_gen s;
  ti_run : running (th_mode h) = true -> 0 <= t_slot (th_tlb h) ->
    ps_blocked (slot_at (ms_pub s) (t_slot (th_tlb h))) = false;
  ti_none : t_slot (th_tlb h) < 0 -> t_over (th_tlb h) = false ->
    t_dtlb (th_tlb h) = ∅ /\ t_dgen (th_tlb h) = 0 /\ th_ptrs h = [];
  ti_tlb : t_dgen (th_tlb h) = ms_gen s \/ th_intr h = false -> tlb_hosts s (th_tlb h);
  ti_ptrs q : q ∈ th_ptrs h -> running (th_mode h) = true /\ covered_page s (pubgen (ms_pub s) (th_tlb h)) q;
  ti_block i e : th_mode h = M_block -> t_dtlb (th_tlb h) !! i = Some e -> snd e <> 0 ->
    covered_page s (pubgen (ms_pub s) (th_tlb h)) (pte_host (snd e))
}.
Record winv w : Prop := {
  wi_core : core_ok (w_ms w);
  wi_pub : pub_ok (ms_pub (w_ms w));
  wi_thr i h : w_thr w !! i = Some h -> th_mode h <> M_gone -> thr_ok (w_ms w) h;
  wi_gone i h : w_thr w !! i = Some h -> th_mode h = M_gone -> th_ptrs h = [];
  wi_slots i j h u : i <> j -> w_thr w !! i = Some h -> w_thr w !! j = Some u ->
    th_mode h <> M_gone -> th_mode u <> M_gone -> 0 <= t_slot (th_tlb h) -> t_slot (th_tlb h) <> t_slot (th_tlb u);
  wi_count : as_nthreads (ms_as (w_ms w)) = tally f_alive (w_thr w);
  wi_over : pub_over (ms_pub (w_ms w)) = tally f_over (w_thr w);
  wi_owned k : 0 <= k -> ps_tid (slot_at (ms_pub (w_ms w)) k) <> 0 ->
    exists i h, w_thr w !! i = Some h /\ th_mode h <> M_gone /\ t_slot (th_tlb h) = k
}.

(** ** The other threads through a step of one *)
Definition raised (b : bool) (h : Thr) : Thr := if b then th_with_intr true h else h.
Lemma raised_eq b h : th_tlb (raised b h) = th_tlb h /\ th_mode (raised b h) = th_mode h /\ th_ptrs (raised b h) = th_ptrs h /\
  th_intr (raised b h) = b || th_intr h.
Proof. by destruct b. Qed.
Lemma put_back_thr i h s w : w_thr (put_back i h s w) =
  map (raised (negb (ms_gen s =? ms_gen (w_ms w)))) (<[i := th_with_tlb (ms_me s) h]> (w_thr w)).
Proof. unfold put_back. cbn [w_thr]. destruct (_ =? _); [|done]. cbn [negb]. symmetry. apply map_id. Qed.

(** What the step of a thread with D-TLB [t] leaves to the others. *)
Record fair_to_others w (t : Tlb) s : Prop := {
  fo_core : core_ok s;
  fo_pub : pub_step (ms_pub (w_ms w)) t (ms_pub s) (ms_me s);
  fo_gen : ms_gen (w_ms w) <= ms_gen s;
  fo_hosts : ms_gen s = ms_gen (w_ms w) -> hosts_kept (w_ms w) s
}.
Definition covers_kept w s (u : Thr) : Prop :=
  running (th_mode u) = true -> 0 <= t_slot (th_tlb u) \/ t_over (th_tlb u) = true ->
  forall q, covered_page (w_ms w) (pubgen (ms_pub (w_ms w)) (th_tlb u)) q ->
            covered_page s (pubgen (ms_pub (w_ms w)) (th_tlb u)) q.
Lemma other_ok w t s u : fair_to_others w t s -> thr_ok (w_ms w) u ->
  (0 <= t_slot (th_tlb u) -> t_slot (th_tlb u) <> t_slot t) -> covers_kept w s u ->
  thr_ok s (raised (negb (ms_gen s =? ms_gen (w_ms w))) u) /\
  (0 <= t_slot (th_tlb u) -> t_slot (ms_me s) <> t_slot (th_tlb u)).
Proof.
  intros [F1 F2 F3 F4] [T1 T2 T3 T4 T5 T6 T7 T8] Hne Hc. set (b := negb _).
  destruct (raised_eq b u) as (R1 & R2 & R3 & R4).
  assert (Hsl : 0 <= t_slot (th_tlb u) -> slot_at (ms_pub s) (t_slot (th_tlb u)) = slot_at (ms_pub (w_ms w)) (t_slot (th_tlb u)) /\
                t_slot (ms_me s) <> t_slot (th_tlb u)).
  { intros Hs. destruct (sk_slot _ _ T1 Hs) as (_ & _ & S3 & _). by apply (pp_other _ _ _ _ F2); [|apply Hne|]. }
  assert (Hp : pubgen (ms_pub s) (th_tlb u) = pubgen (ms_pub (w_ms w)) (th_tlb u)).
  { unfold pubgen. destruct (Z.ltb_spec (t_slot (th_tlb u)) 0); [done|]. by rewrite (proj1 (Hsl ltac:(lia))). }
  split; [|intros Hs; by apply Hsl]. split; rewrite ?R1, ?R2, ?R3, ?R4, ?Hp.
  - by apply (slot_ok_other (ms_pub (w_ms w)) t _ (ms_me s)).
  - lia.
  - lia.
  - intros Hr Hs. rewrite (proj1 (Hsl Hs)). by apply T4.
  - done.
  - intros Hd. assert (Eg : ms_gen s = ms_gen (w_ms w)).
    { unfold b in Hd. destruct (Z.eqb_spec (ms_gen s) (ms_gen (w_ms w))); [done|]. destruct Hd as [Hd|Hd]; [lia|done]. }
    unfold b in Hd. rewrite Eg, Z.eqb_refl in Hd. apply (tlb_hosts_kept (w_ms w)); [by apply F4|by apply T6].
  - intros q Hq. destruct (T7 q Hq) as [Hr Hcq]. split; [done|]. apply Hc; [done| |done].
    destruct (Z.ltb_spec (t_slot (th_tlb u)) 0) as [Hs|Hs]; [right|by left].
    destruct (t_over (th_tlb u)) eqn:Eo; [done|]. destruct (T5 Hs eq_refl) as (_ & _ & E). rewrite E in Hq. by apply elem_of_nil in Hq.
  - intros i e Hm He Hn. apply Hc; [unfold running; by rewrite Hm| |by apply (T8 i)].
    destruct (Z.ltb_spec (t_slot (th_tlb u)) 0) as [Hs|Hs]; [right|by left].
    destruct (t_over (th_tlb u)) eqn:Eo; [done|]. destruct (T5 Hs eq_refl) as (E & _ & _). rewrite E in He. done.
Qed.
(** A step of thread [i], which becomes [h']. *)
Lemma put_back_inv w i h h' s : winv w -> w_thr w !! i = Some h -> th_mode h <> M_gone ->
  fair_to_others w (th_tlb h) s ->
  (forall j u, j <> i -> w_thr w !! j = Some u -> th_mode u <> M_gone -> covers_kept w s u) ->
  (th_mode h' <> M_gone -> thr_ok s (raised (negb (ms_gen s =? ms_gen (w_ms w))) (th_with_tlb (ms_me s) h'))) ->
  (th_mode h' = M_gone -> th_ptrs h' = [] /\ t_slot (ms_me s) < 0 /\ t_over (ms_me s) = false) ->
  as_nthreads (ms_as s) = as_nthreads (ms_as (w_ms w)) + f_alive h' - 1 -> winv (put_back i h' s w).
Proof.
  intros [W1 W2 W3 W4 W5 W6 W7 W8] Ei Hal Hf Hc Hown Hgone Hn. set (b := negb _) in *. pose proof Hf as [F1 F2 F3 F4].
  assert (Hl : forall j x, w_thr (put_back i h' s w) !! j = Some x ->
    (j = i /\ x = raised b (th_with_tlb (ms_me s) h')) \/ (j <> i /\ exists u, w_thr w !! j = Some u /\ x = raised b u)).
  { intros j x. rewrite put_back_thr. fold b. rewrite list_lookup_fmap. intros (u & Eu & ->)%fmap_Some.
    apply list_lookup_insert_Some in Eu as [(-> & <- & _)|(Hne & Eu)]; [by left|right]. split; [done|]. by exists u. }
  assert (Hoth : forall j u, j <> i -> w_thr w !! j = Some u -> th_mode u <> M_gone ->
    thr_ok s (raised b u) /\ (0 <= t_slot (th_tlb u) -> t_slot (ms_me s) <> t_slot (th_tlb u))).
  { intros j u Hne Eu Hu. apply (other_ok w (th_tlb h)); [done|by apply (W3 j)| |by apply (Hc j)].
    intros Hs E. by apply (W5 j i u h). }
  split.
  - done.
  - apply F2.
  - intros j x Ex Hx. destruct (Hl j x Ex) as [(-> & ->)|(Hne & u & Eu & ->)].
    + apply Hown. by rewrite (proj1 (proj2 (raised_eq b _))) in Hx.
    + apply (Hoth j u Hne Eu). by rewrite (proj1 (proj2 (raised_eq b _))) in Hx.
  - intros j x Ex Hx. destruct (Hl j x Ex) as [(-> & ->)|(Hne & u & Eu & ->)].
    + destruct (raised_eq b (th_with_tlb (ms_me s) h')) as (_ & E2 & E3 & _). rewrite E3. rewrite E2 in Hx. by apply Hgone.
    + destruct (raised_eq b u) as (_ & E2 & E3 & _). rewrite E3. rewrite E2 in Hx. by apply (W4 j).
  - intros j k x y Hjk Ex Ey Hx Hy Hs.
    destruct (Hl j x Ex) as [(-> & ->)|(Hne & u & Eu & ->)], (Hl k y Ey) as [(-> & ->)|(Hne' & u' & Eu' & ->)]; try done.
    all: rewrite ?(proj1 (raised_eq b _)) in *; rewrite ?(proj1 (proj2 (raised_eq b _))) in *; cbn [th_tlb th_with_tlb] in *.
    + destruct (Z.ltb_spec (t_slot (th_tlb u')) 0); [lia|]. by apply (Hoth k u' Hne' Eu' Hy).
    + intros E. by apply (Hoth j u Hne Eu Hx).
    + by apply (W5 j k u u').
  - rewrite put_back_thr. fold b. cbn [put_back w_ms]. rewrite tally_map by (intros x; unfold f_alive; by rewrite (proj1 (proj2 (raised_eq b x)))).
    rewrite (tally_insert f_alive _ i h) by done. rewrite Hn, W6. change (f_alive (th_with_tlb _ h')) with (f_alive h').
    assert (f_alive h = 1); [|lia]. unfold f_alive. destruct (mode_eqb (th_mode h) M_gone) eqn:E; [|done]. by apply mode_eqb_eq in E.
  - rewrite put_back_thr. fold b. cbn [put_back w_ms].
    rewrite tally_map by (intros x; unfold f_over; by rewrite (proj1 (raised_eq b x)), (proj1 (proj2 (raised_eq b x)))).
    rewrite (tally_insert f_over _ i h) by done. rewrite (pp_over _ _ _ _ F2), W7.
    assert (E1 : f_over h = b2z (t_over (th_tlb h))).
    { unfold f_over. destruct (mode_eqb (th_mode h) M_gone) eqn:E; [|done]. by apply mode_eqb_eq in E. }
    assert (E2 : f_over (th_with_tlb (ms_me s) h') = b2z (t_over (ms_me s))); [|lia].
    unfold f_over. cbn [th_mode th_with_tlb th_tlb]. destruct (mode_eqb (th_mode h') M_gone) eqn:E; [|done].
    apply mode_eqb_eq in E. destruct (Hgone E) as (_ & _ & ->). done.
  - intros k Hk Hk1. cbn [put_back w_ms] in Hk1. rewrite put_back_thr. fold b. destruct (pp_new _ _ _ _ F2 k Hk Hk1) as [->|[Hk2 Hk3]].
    + exists i, (raised b (th_with_tlb (ms_me s) h')). destruct (raised_eq b (th_with_tlb (ms_me s) h')) as (-> & -> & _ & _).
      split; [|split; [|done]]; [|intros E; destruct (Hgone E) as (_ & ? & _); lia].
      rewrite list_lookup_fmap, list_lookup_insert_eq; [done|by apply lookup_lt_Some in Ei].
    + destruct (W8 k Hk Hk2) as (j & u & Ej & Hu & Es). exists j, (raised b u). destruct (raised_eq b u) as (-> & -> & _ & _).
      split; [|done]. rewrite list_lookup_fmap, list_lookup_insert_ne, Ej; [done|]. intros ->. rewrite Ei in Ej. injection Ej as ->. done.
Qed.
(** ** Steps on the epoch table alone *)
Lemma table_inv w i h h' f : winv w -> w_thr w !! i = Some h -> th_mode h <> M_gone ->
  (let '(p', t') := f (ms_pub (w_ms w), th_tlb h) in
   pub_step (ms_pub (w_ms w)) (th_tlb h) p' t' /\
   (thr_ok (upd_ms_pub (fun _ => p') (w_ms w)) (th_with_tlb t' h') /\ th_mode h' <> M_gone)) ->
  winv (put_back i h' (on_pub f (seen_by h w)) w).
Proof.
  intros Hw Ei Hal. unfold on_pub, seen_by. cbn [ms_pub ms_me upd_ms_me].
  destruct (f (ms_pub (w_ms w), th_tlb h)) as [p' t']. intros (Hp & Hok & Hm). set (s := upd_ms_pub _ _).
  apply (put_back_inv w i h); try done.
  - split; [by apply (core_me (w_ms w)); [apply Hw|..]|done|simpl; lia|]. intros _. by apply hosts_refl.
  - by intros j u _ _ _ _ _ q Hq.
  - intros _. change (ms_gen s) with (ms_gen (w_ms w)). rewrite Z.eqb_refl. cbn [negb raised].
    destruct Hok as [T1 T2 T3 T4 T5 T6 T7 T8]. by split.
  - unfold f_alive. destruct (mode_eqb (th_mode h') M_gone) eqn:E; [by apply mode_eqb_eq in E|]. simpl. lia.
Qed.
(** A step that only the thread's own record takes part in. *)
Lemma quiet_inv w i h h' : winv w -> w_thr w !! i = Some h -> th_mode h <> M_gone -> th_mode h' <> M_gone ->
  th_tlb h' = th_tlb h -> thr_ok (w_ms w) h' -> winv (put_back i h' (seen_by h w) w).
Proof.
  intros Hw Ei Hal Hm Et Hok. pose proof (wi_thr w Hw i h Ei Hal) as [H1 _ _ _ _ _ _ _].
  replace (put_back i h' (seen_by h w) w) with (put_back i h' (on_pub (fun x => x) (seen_by h w)) w) by done.
  apply table_inv; [done|done|done|]. split; [|split; [|done]].
  - by apply pub_step_id; [apply Hw|].
  - destruct Hok as [T1 T2 T3 T4 T5 T6 T7 T8]. split; cbn [th_tlb th_with_tlb th_mode th_intr th_ptrs]; by rewrite <- ?Et.
Qed.
(** The generation a published thread is known to have reached. *)
Lemma published_gen g p t p' t' : pub_step p t p' t' -> published g p t p' t' -> 0 <= g -> 0 <= pubgen p' t' <= g.
Proof.
  intros Hp Hb Hg. unfold pubgen. destruct (Z.ltb_spec (t_slot t') 0); [lia|].
  destruct Hb as [(_ & -> & _)|(? & _)]; lia.
Qed.
Lemma published_run g p t p' t' : published g p t p' t' -> (0 <= t_slot t -> ps_blocked (slot_at p (t_slot t)) = false) ->
  0 <= t_slot t' -> ps_blocked (slot_at p' (t_slot t')) = false.
Proof.
  intros [(H1 & _ & H3 & H4)|(? & _)] Hb Hs; [|lia]. rewrite H3. destruct (Z.ltb_spec (t_slot t) 0); [done|]. by apply Hb.
Qed.
Lemma slot_ok_dtlb p t d g f : slot_ok p t -> slot_ok p (with_fc f (with_dtlb d g t)).
Proof. by intros []. Qed.
Lemma pub_step_dtlb p t d g f p' t' : pub_step p (with_fc f (with_dtlb d g t)) p' t' -> pub_step p t p' t'.
Proof. by intros []. Qed.
(** [jit_dtlb_reset] by a running thread that holds nothing. *)
Lemma reset_own w i h m b : winv w -> w_thr w !! i = Some h -> th_mode h = M_run -> th_ptrs h = [] -> running m = true ->
  let '(p', t') := jit_dtlb_reset (ms_gen (w_ms w)) (ms_pub (w_ms w), th_tlb h) in
  pub_step (ms_pub (w_ms w)) (th_tlb h) p' t' /\
  thr_ok (upd_ms_pub (fun _ => p') (w_ms w)) (th_with_tlb t' (mkThr (th_tlb h) m b (th_ptrs h))).
Proof.
  intros Hw Ei Hm Hp Hrun. pose proof (wi_thr w Hw i h Ei ltac:(congruence)) as [T1 T2 T3 T4 T5 T6 T7 T8].
  unfold jit_dtlb_reset. set (g := ms_gen (w_ms w)). set (t0 := with_fc None (with_dtlb ∅ g (th_tlb h))).
  pose proof (publish_spec g (ms_pub (w_ms w)) t0 (wi_pub w Hw) (slot_ok_dtlb _ _ _ _ _ T1)) as Hs.
  pose proof (publish_keeps g (ms_pub (w_ms w)) t0) as [K1 K2 _ _].
  destruct (dtlb_publish g (ms_pub (w_ms w), t0)) as [p' t']. cbn [snd] in *. destruct Hs as [S1 S2].
  pose proof (co_gen _ (wi_core w Hw)) as Hg. pose proof (published_gen g _ _ _ _ S1 S2 ltac:(unfold g; lia)) as Hpg.
  split; [by apply (pub_step_dtlb _ _ ∅ g None)|].
  split; cbn [th_tlb th_with_tlb th_mode th_intr th_ptrs ms_pub upd_ms_pub ms_gen].
  - apply S1.
  - rewrite K2. simpl. unfold g. lia.
  - done.
  - intros _ Hsl. apply (published_run g _ t0 _ t' S2); [|done]. cbn [t_slot t0 with_fc with_dtlb]. apply T4. by rewrite Hm.
  - intros H1 H2. destruct S2 as [(? & _)|(_ & ? & _)]; [lia|congruence].
  - intros _. by apply tlb_hosts_empty.
  - rewrite Hp. intros q Hq. by apply elem_of_nil in Hq.
  - intros j e _. by rewrite K1.
Qed.
(** Entering the system call dispatch. *)
Lemma begin_own w i h : winv w -> w_thr w !! i = Some h -> th_mode h = M_run -> th_ptrs h = [] ->
  let '(p', t') := as_tlb_block_begin (ms_pub (w_ms w), th_tlb h) in
  pub_step (ms_pub (w_ms w)) (th_tlb h) p' t' /\
  thr_ok (upd_ms_pub (fun _ => p') (w_ms w)) (th_with_tlb t' (th_with_mode M_sys h)).
Proof.
  intros Hw Ei Hm Hp. pose proof (wi_thr w Hw i h Ei ltac:(congruence)) as [T1 T2 T3 T4 T5 T6 T7 T8].
  unfold as_tlb_block_begin. set (t := th_tlb h) in *. set (p := ms_pub (w_ms w)) in *.
  set (x := if t_slot t <? 0 then _ else _).
  assert (Hx : pub_step p t (fst x) (snd x) /\ same_tlb t (snd x) /\ 0 <= pubgen (fst x) (snd x) <= ms_gen (w_ms w) /\
    (t_slot (snd x) < 0 -> t_over (snd x) = false -> t_slot t < 0 /\ t_over t = false)).
  { unfold x. destruct (Z.ltb_spec (t_slot t) 0) as [Hs|Hs]; cbn [fst snd].
    - pose proof (publish_spec (t_dgen t) p t (wi_pub w Hw) T1) as Hb. pose proof (publish_keeps (t_dgen t) p t) as Hk.
      destruct (dtlb_publish (t_dgen t) (p, t)) as [p1 t1]. destruct Hb as [B1 B2]. cbn [fst snd] in *. split; [done|]. split; [done|].
      pose proof (published_gen _ _ _ _ _ B1 B2 ltac:(lia)). split; [lia|]. intros H1 H2. destruct B2 as [(? & _)|(_ & ? & _)]; [lia|congruence].
    - split; [|split; [done|split; [done|lia]]]. by apply pub_step_id; [apply Hw|]. }
  destruct x as [p1 t1]. cbn [fst snd] in Hx. destruct Hx as (X1 & [Y1 Y2 Y3 Y4] & X3 & X4).
  pose proof (blocked_spec true p1 t1 (pp_ok _ _ _ _ X1) (pp_mine _ _ _ _ X1)) as Hb.
  destruct (set_blocked true (p1, t1)) as [p2 t2]. destruct Hb as (B1 & -> & B3).
  assert (Hpg : pubgen p2 t1 = pubgen p1 t1).
  { unfold pubgen. destruct (Z.ltb_spec (t_slot t1) 0); [done|]. apply B3. lia. }
  split; [by apply (pub_step_trans _ _ p1 t1)|].
  split; cbn [th_tlb th_with_tlb th_with_mode th_mode th_intr th_ptrs ms_pub upd_ms_pub ms_gen]; rewrite ?Hpg, ?Y1, ?Y2.
  - apply B1.
  - done.
  - done.
  - done.
  - intros H1 H2. destruct (X4 H1 H2) as [H3 H4]. apply (T5 H3 H4).
  - unfold tlb_hosts. rewrite Y1. exact T6.
  - rewrite Hp. intros q Hq. by apply elem_of_nil in Hq.
  - done.
Qed.
Lemma end_own w i h : winv w -> w_thr w !! i = Some h -> th_mode h = M_sys -> th_ptrs h = [] ->
  let '(p', t') := as_tlb_block_end (ms_pub (w_ms w), th_tlb h) in
  pub_step (ms_pub (w_ms w)) (th_tlb h) p' t' /\
  thr_ok (upd_ms_pub (fun _ => p') (w_ms w)) (th_with_tlb t' (th_with_mode M_run h)).
Proof.
  intros Hw Ei Hm Hp. pose proof (wi_thr w Hw i h Ei ltac:(congruence)) as [T1 T2 T3 T4 T5 T6 T7 T8].
  pose proof (blocked_spec false (ms_pub (w_ms w)) (th_tlb h) (wi_pub w Hw) T1) as Hb. unfold as_tlb_block_end.
  destruct (set_blocked false _) as [p2 t2]. destruct Hb as (B1 & -> & B3). split; [done|].
  assert (Hpg : pubgen p2 (th_tlb h) = pubgen (ms_pub (w_ms w)) (th_tlb h)).
  { unfold pubgen. destruct (Z.ltb_spec (t_slot (th_tlb h)) 0); [done|]. apply B3. lia. }
  split; cbn [th_tlb th_with_tlb th_with_mode th_mode th_intr th_ptrs ms_pub upd_ms_pub ms_gen]; rewrite ?Hpg; try done.
  - apply B1.
  - intros _ Hs. by apply B3.
  - rewrite Hp. intros q Hq. by apply elem_of_nil in Hq.
Qed.
(** ** A translation *)
Lemma sync_own w i h s1 : winv w -> w_thr w !! i = Some h -> th_mode h <> M_gone -> th_ptrs h = [] ->
  synced_from (seen_by h w) s1 ->
  pub_step (ms_pub (w_ms w)) (th_tlb h) (ms_pub s1) (ms_me s1) /\ thr_ok s1 (th_with_tlb (ms_me s1) h) /\
  same_heap (w_ms w) s1 /\ pt s1 = pt (w_ms w) /\ ms_mem s1 = ms_mem (w_ms w) /\ ms_gen s1 = ms_gen (w_ms w) /\
  as_nthreads (ms_as s1) = as_nthreads (ms_as (w_ms w)).
Proof.
  intros Hw Ei Hal Hp. pose proof (wi_thr w Hw i h Ei Hal) as [T1 T2 T3 T4 T5 T6 T7 T8]. intros [->|[Hd ->]].
  - split; [by apply pub_step_id; [apply Hw|]|split; [by split|done]].
  - unfold seen_by, tlb_sync, dtlb_sync in *. cbn [ms_me ms_gen ms_pub upd_ms_me] in *. set (g := ms_gen (w_ms w)) in *.
    rewrite (proj2 (Z.eqb_neq g _)) by congruence. set (t0 := with_dtlb ∅ g (th_tlb h)).
    assert (Hs0 : slot_ok (ms_pub (w_ms w)) t0) by (by destruct T1).
    pose proof (publish_spec g (ms_pub (w_ms w)) t0 (wi_pub w Hw) Hs0) as Hs.
    pose proof (publish_keeps g (ms_pub (w_ms w)) t0) as [K1 K2 _ _].
    destruct (dtlb_publish g (ms_pub (w_ms w), t0)) as [p' t']. cbn [snd] in *. destruct Hs as [S1 S2].
    pose proof (co_gen _ (wi_core w Hw)) as Hg. pose proof (published_gen g _ _ _ _ S1 S2 ltac:(unfold g; lia)) as Hpg.
    split; [by destruct S1|]. split; [|done].
    split; cbn [th_tlb th_with_tlb th_mode th_intr th_ptrs ms_pub ms_me upd_ms_pub upd_ms_me ms_gen].
    + apply S1.
    + rewrite K2. simpl. unfold g. lia.
    + done.
    + intros Hr Hsl. apply (published_run g _ t0 _ t' S2); [|done]. intros H. by apply T4.
    + intros H1 H2. destruct S2 as [(? & _)|(_ & ? & _)]; [lia|congruence].
    + intros _. by apply tlb_hosts_empty.
    + rewrite Hp. intros q Hq. by apply elem_of_nil in Hq.
    + intros j e _. by rewrite K1.
Qed.
(** A page of the page table, held by a registered running thread. *)
Lemma next_own s1 s' h l : core_ok s' -> access_ok s1 s' -> tlb_next s1 s' (ms_me s1) (ms_me s') ->
  ids_ok s1 -> 0 < ms_gen s1 -> t_dgen (ms_me s1) = ms_gen s1 -> thr_ok s1 (th_with_tlb (ms_me s1) h) -> th_ptrs h = [] ->
  (forall q, q ∈ l -> running (th_mode h) = true /\ forall g, covered_page s' g q) ->
  thr_ok s' (raised (negb (ms_gen s' =? ms_gen s1)) (th_with_tlb (ms_me s') (th_with_ptrs l h))).
Proof.
  intros Hc' [A1 A2 A3] (N1 & N2 & N3 & N4 & N5 & N6) Hids Hpos Hd [T1 T2 T3 T4 T5 T6 T7 T8] Hp Hl.
  cbn [th_tlb th_with_tlb th_mode th_intr th_ptrs] in *. set (b := negb _).
  destruct (raised_eq b (th_with_tlb (ms_me s') (th_with_ptrs l h))) as (R1 & R2 & R3 & R4).
  pose proof (at_gen _ _ A2) as Hg. pose proof (at_pub _ _ A2) as Ep.
  assert (Hpg : pubgen (ms_pub s') (ms_me s') = pubgen (ms_pub s1) (ms_me s1)) by (unfold pubgen; by rewrite Ep, N1).
  assert (Hnew : forall i e, host_entry (pt s') i e -> snd e <> 0 -> forall g, covered_page s' g (pte_host (snd e))).
  { intros i e [_ He] Hn g. destruct (He Hn) as [H1 ->]. by apply entry_covered. }
  split; rewrite ?R1, ?R2, ?R3, ?R4; cbn [th_tlb th_with_tlb th_mode th_intr th_ptrs th_with_ptrs]; rewrite ?Hpg.
  - rewrite Ep. destruct T1 as [S1 S2 S3]. split; rewrite ?N1, ?N2, ?N3, ?N4; done.
  - lia.
  - lia.
  - rewrite Ep, N1. done.
  - rewrite N1, N2. intros H1 H2. destruct (T5 H1 H2) as (_ & H3 & _). lia.
  - intros Hdg. assert (Eg : ms_gen s' = ms_gen s1).
    { unfold b in Hdg. destruct (Z.eqb_spec (ms_gen s') (ms_gen s1)); [done|]. destruct Hdg as [Hdg|Hdg]; [lia|done]. }
    apply (tlb_next_hosts s1 s' (ms_me s1)); [by repeat split|by apply A3|]. apply T6. by left.
  - intros q Hq. destruct (Hl q Hq) as [H1 H2]. split; [done|apply H2].
  - intros i e Hm He Hn. destruct (N6 i e He) as [H|H]; [|by apply (Hnew i)].
    apply (covered_page_step s1); [done|done|lia|]. by apply (T8 i).
Qed.
(** Both together: thread [i] translates; [l] is what it holds after. *)
Lemma translate_inv w i h ng va need : winv w -> w_thr w !! i = Some h -> th_mode h <> M_gone -> th_ptrs h = [] ->
  let '(r, s') := as_translate ng va need (seen_by h w) in
  winv (put_back i h s' w) /\ core_ok s' /\
  (forall p, fst r = Some p -> pte_get (pt s') (data_va va need) <> 0 /\
     held_host va need p = pte_host (pte_get (pt s') (data_va va need)) /\
     (running (th_mode h) = true -> winv (put_back i (th_with_ptrs [held_host va need p] h) s' w))).
Proof.
  intros Hw Ei Hal Hp. pose proof (wi_thr w Hw i h Ei Hal) as Hok. pose proof Hok as [T1 T2 T3 T4 T5 T6 T7 T8].
  set (s := seen_by h w). assert (Hcs : core_ok s) by (by apply (core_me (w_ms w)); [apply Hw|..]).
  pose proof (thread_translate ng va need s Hcs (fun E => T6 (or_introl E))) as Ht.
  destruct (as_translate ng va need s) as [r s']. destruct Ht as (s1 & Hsy & Hac & Hnx & Hcase & Hans).
  destruct (sync_own w i h s1 Hw Ei Hal Hp Hsy) as (S1 & S2 & S3 & S4 & S5 & S6 & S7).
  assert (Hc1 : core_ok s1) by (by apply (core_me (w_ms w)); [apply Hw|..]).
  pose proof (hinv_ids s1 (ai_heap s1 (co_inv s1 Hc1))) as Hids.
  pose proof Hac as [A1 A2 A3]. pose proof Hnx as (N1 & N2 & N3 & N4 & _). pose proof (at_pub _ _ A2) as Ep.
  assert (Hput : forall l, (th_mode h <> M_gone ->
    thr_ok s' (raised (negb (ms_gen s' =? ms_gen s1)) (th_with_tlb (ms_me s') (th_with_ptrs l h)))) ->
    winv (put_back i (th_with_ptrs l h) s' w)).
  { intros l Hl. apply (put_back_inv w i h); try done.
    - split; [done| |pose proof (at_gen _ _ A2); lia|].
      + rewrite Ep. destruct S1 as [P1 P2 P3 P4 P5 P6]. split; [done| |done|by rewrite N1|by rewrite N2|by rewrite N1].
        destruct P2 as [Q1 Q2 Q3]. split; rewrite ?N1, ?N2, ?N3, ?N4; done.
      + intros E va' Hn. rewrite <- S4 in *. apply (A3 ltac:(congruence)). done.
    - intros j u Hj Eu Hu _ _ q Hq. apply (covered_page_step s1); [done|done| |].
      + rewrite S6. apply (wi_thr w Hw j u Eu Hu).
      + intros k Hk. specialize (Hq k Hk). unfold covered in *. by rewrite (sh_hms _ _ S3), (sh_ret _ _ S3).
    - by rewrite <- S6.
    - rewrite (at_thr _ _ A2), S7. unfold f_alive. cbn [th_mode th_with_ptrs].
      destruct (mode_eqb (th_mode h) M_gone) eqn:E; [by apply mode_eqb_eq in E|lia]. }
  assert (Eh : th_with_ptrs [] h = h) by (destruct h; simpl in *; by subst).
  split; [|split; [done|]].
  - rewrite <- Eh at 1. apply Hput. intros _. destruct Hcase as [E|E].
    + rewrite Eh, E, S6. change (ms_gen s) with (ms_gen (w_ms w)). rewrite Z.eqb_refl. by split.
    + apply (next_own s1); try done; [apply Hc1|]. intros q Hq. by apply elem_of_nil in Hq.
  - intros p Ep'. destruct (Hans p Ep') as (D1 & D2 & D3). split; [done|]. split; [done|]. intros Hrun. apply Hput. intros _.
    apply (next_own s1); try done; [apply Hc1|]. intros q ->%list_elem_of_singleton. split; [done|].
    intros g. rewrite D3. by apply entry_covered.
Qed.
(** ** A handler's operation *)
Lemma sys_holds_nothing w i h : winv w -> w_thr w !! i = Some h -> th_mode h = M_sys -> th_ptrs h = [].
Proof.
  intros Hw Ei Hm. pose proof (ti_ptrs _ _ (wi_thr w Hw i h Ei ltac:(congruence))) as H.
  destruct (th_ptrs h) as [|q l]; [done|]. destruct (H q) as [Hr _]; [by left|]. by rewrite Hm in Hr.
Qed.
Lemma drain_covers s g a : drain_safe s <= g -> covered s g a -> covered (as_drain_retired s) g a.
Proof.
  intros Hs. rewrite drain_eff. intros [H|(q & Hq & Ha & Hg)]; [by left|right]. exists q. split; [|done].
  simpl. apply list_elem_of_filter. split; [lia|done].
Qed.
(** The drain of one thread waits for every other that is running. *)
Lemma drain_waits w i h j u s1 : winv w -> w_thr w !! i = Some h -> th_mode h <> M_gone ->
  j <> i -> w_thr w !! j = Some u -> th_mode u <> M_gone -> running (th_mode u) = true ->
  0 <= t_slot (th_tlb u) \/ t_over (th_tlb u) = true ->
  ms_pub s1 = ms_pub (w_ms w) -> as_nthreads (ms_as s1) = as_nthreads (ms_as (w_ms w)) ->
  drain_safe s1 <= pubgen (ms_pub (w_ms w)) (th_tlb u).
Proof.
  intros Hw Ei Hh Hne Ej Hu Hrun Hreg Ep En. pose proof (wi_thr w Hw j u Ej Hu) as [T1 T2 T3 T4 T5 T6 T7 T8].
  assert (Hal : forall x, th_mode x <> M_gone -> f_alive x = 1).
  { intros x Hx. unfold f_alive. destruct (mode_eqb (th_mode x) M_gone) eqn:E; [by apply mode_eqb_eq in E|done]. }
  pose proof (tally_two f_alive (w_thr w) j i u h f_alive_pos Hne Ej Ei) as Hn. rewrite !Hal in Hn by done.
  unfold drain_safe. rewrite En, (wi_count w Hw). rewrite (proj2 (Z.eqb_neq _ 1)) by lia. rewrite Ep.
  destruct (Z.eqb_spec (pub_over (ms_pub (w_ms w))) 0) as [E0|E0].
  2: { unfold dtlb_safe_gen. rewrite (proj2 (Z.eqb_neq _ 0)) by done. simpl. lia. }
  pose proof (tally_ge f_over (w_thr w) j u f_over_pos Ej) as Ho. rewrite <- (wi_over w Hw), E0 in Ho.
  destruct Hreg as [Hs|Hov].
  - unfold pubgen. rewrite (proj2 (Z.ltb_ge _ 0)) by done. by apply safe_gen_le; [| |apply T4|].
  - exfalso. unfold f_over in Ho. rewrite Hov in Ho. destruct (mode_eqb (th_mode u) M_gone) eqn:E; [by apply mode_eqb_eq in E|]. simpl in Ho. lia.
Qed.
(** The operation's own thread. *)
Lemma mut_own w i h s' : winv w -> w_thr w !! i = Some h -> th_mode h = M_sys ->
  core_out (seen_by h w) s' -> ms_pub s' = ms_pub (w_ms w) ->
  ms_me s' = th_tlb h \/ ms_me s' = tlb_flush (th_tlb h) -> ms_gen (w_ms w) <= ms_gen s' ->
  thr_ok s' (raised (negb (ms_gen s' =? ms_gen (w_ms w))) (th_with_tlb (ms_me s') h)).
Proof.
  intros Hw Ei Hm [Hc Hout] Ep Hme Hg. pose proof (wi_thr w Hw i h Ei ltac:(congruence)) as [T1 T2 T3 T4 T5 T6 T7 T8].
  pose proof (sys_holds_nothing w i h Hw Ei Hm) as Hp. set (b := negb _).
  destruct (raised_eq b (th_with_tlb (ms_me s') h)) as (R1 & R2 & R3 & R4).
  assert (Hs : t_slot (ms_me s') = t_slot (th_tlb h) /\ t_over (ms_me s') = t_over (th_tlb h) /\
    t_ptid (ms_me s') = t_ptid (th_tlb h) /\ t_tid (ms_me s') = t_tid (th_tlb h) /\ t_dtlb (ms_me s') = t_dtlb (th_tlb h) /\
    (t_dgen (ms_me s') = t_dgen (th_tlb h) \/ t_dgen (ms_me s') = 0)).
  { destruct Hme as [->| ->]; simpl; auto 10. }
  destruct Hs as (N1 & N2 & N3 & N4 & N5 & N6).
  assert (Hpg : pubgen (ms_pub s') (ms_me s') = pubgen (ms_pub (w_ms w)) (th_tlb h)) by (unfold pubgen; by rewrite Ep, N1).
  split; rewrite ?R1, ?R2, ?R3, ?R4; cbn [th_tlb th_with_tlb th_mode th_intr th_ptrs]; rewrite ?Hpg, ?Hm.
  - rewrite Ep. destruct T1 as [S1 S2 S3]. split; rewrite ?N1, ?N2, ?N3, ?N4; done.
  - lia.
  - lia.
  - done.
  - rewrite N1, N2, N5. intros H1 H2. destruct (T5 H1 H2) as (H3 & H4 & H5). split; [done|]. split; [lia|done].
  - intros Hd. destruct Hout as [(E1 & E2 & E3)|[E1 E2]].
    + change (pt (seen_by h w)) with (pt (w_ms w)) in E1. change (ms_gen (seen_by h w)) with (ms_gen (w_ms w)) in E2.
      change (ms_me (seen_by h w)) with (th_tlb h) in E3.
      unfold b in Hd. rewrite E2, Z.eqb_refl, E3 in Hd. unfold tlb_hosts. rewrite E1, E3. by apply T6.
    + exfalso. change (ms_gen (seen_by h w)) with (ms_gen (w_ms w)) in E1. unfold b in Hd.
      pose proof (co_gen _ (wi_core w Hw)). rewrite (proj2 (Z.eqb_neq (ms_gen s') _)) in Hd by lia. destruct Hd as [Hd|Hd]; [lia|done].
  - rewrite Hp. intros q Hq. by apply elem_of_nil in Hq.
  - done.
Qed.
Lemma mut_inv w i h s1 (d : bool) : winv w -> w_thr w !! i = Some h -> th_mode h = M_sys -> mut_ok (seen_by h w) s1 ->
  winv (put_back i h (if d then as_drain_retired s1 else s1) w).
Proof.
  intros Hw Ei Hm [Hst Hco]. set (s' := if d then _ else s1).
  assert (Hco' : core_out (seen_by h w) s') by (unfold s'; destruct d; [by apply core_drain|done]).
  assert (Es : ms_pub s' = ms_pub s1 /\ ms_me s' = ms_me s1 /\ ms_gen s' = ms_gen s1 /\
               as_nthreads (ms_as s') = as_nthreads (ms_as s1)).
  { unfold s'. destruct d; [|done]. by rewrite drain_eff. }
  destruct Es as (E1 & E2 & E3 & E4). pose proof Hst as [M1 M2 M3 _ M4 M5 _ _ M8 _].
  cbn [seen_by ms_gen ms_pub ms_as ms_me upd_ms_me] in *.
  pose proof (wi_thr w Hw i h Ei ltac:(congruence)) as [T1 _ _ _ _ _ _ _].
  assert (Hme : ms_me s' = th_tlb h \/ ms_me s' = tlb_flush (th_tlb h)) by (by rewrite E2).
  assert (Hown := mut_own w i h s' Hw Ei Hm Hco' ltac:(congruence) Hme ltac:(lia)).
  assert (Hal : th_mode h <> M_gone) by congruence.
  apply (put_back_inv w i h); [done|done|done| | |done|done|].
  - split; [apply Hco'| |lia|].
    + rewrite E1, M2. destruct Hme as [->| ->]; [by apply pub_step_id; [apply Hw|]|]. destruct (pub_step_id _ _ (wi_pub w Hw) T1). split; try done. by destruct T1.
    + intros Eg. destruct Hco' as [_ [(P1 & _)|[P1 _]]]; [by apply hosts_refl|]. cbn [seen_by ms_gen upd_ms_me] in P1. lia.
  - intros j u Hne Eu Hu Hrun Hreg q Hq k Hk.
    assert (Hc1 : covered s1 (pubgen (ms_pub (w_ms w)) (th_tlb u)) (q + k)).
    { apply M8; [|apply (wi_thr w Hw j u Eu Hu)|by apply Hq]. apply (hinv_ids (w_ms w)), (ai_heap _ (co_inv _ (wi_core w Hw))). }
    unfold s'. destruct d; [|done]. apply drain_covers; [|done]. by apply (drain_waits w i h j u); [..|congruence|apply (mst_thr _ _ Hst)].
  - rewrite E4, (mst_thr _ _ Hst). unfold f_alive. rewrite Hm. simpl. lia.
Qed.
Lemma op_inv w i h op : granted op (seen_by h w) -> winv w -> w_thr w !! i = Some h -> th_mode h = M_sys -> op_ok op ->
  winv (put_back i h (mm_exec op (seen_by h w)) w).
Proof.
  intros Hg Hw Ei Hm Ho. assert (Hcs : core_ok (seen_by h w)) by (by apply (core_me (w_ms w)); [apply Hw|..]).
  destruct (is_access op) eqn:Ea.
  2: { destruct (exec_mut op (seen_by h w) Hg Hcs Ho Ea) as (s1 & d & Hmut & ->). by apply mut_inv. }
  pose proof (sys_holds_nothing w i h Hw Ei Hm) as Hp.
  destruct op as [| | | | | |ng va need|ng va b| | | | | |]; try done; cbn [mm_exec].
  - pose proof (translate_inv w i h ng va need Hw Ei ltac:(congruence) Hp) as Ht.
    destruct (as_translate ng va need (seen_by h w)) as [r s']. apply Ht.
  - unfold store_byte. pose proof (translate_inv w i h ng va PTE_W Hw Ei ltac:(congruence) Hp) as Ht.
    destruct (as_translate ng va PTE_W (seen_by h w)) as [[[p|] perm] s']; [|apply Ht].
    destruct Ht as (W1 & W2 & W3). destruct (W3 p eq_refl) as (P1 & P2 & _).
    destruct (entry_mapping s' (data_va va PTE_W) _ (co_inv s' W2) eq_refl P1) as (v & El & Ev & _).
    assert (Ep : p = r_host v) by (unfold held_host in P2; unfold host_of in Ev; lia).
    pose proof (put_core (data_va va PTE_W) v b s' W2 El) as Hput. rewrite <- Ep in Hput.
    destruct W1 as [V1 V2 V3 V4 V5 V6 V7 V8]. split; [exact Hput|exact V2| |exact V4|exact V5|exact V6|exact V7|exact V8].
    intros j x Ej Hx. destruct (V3 j x Ej Hx) as [T1 T2 T3 T4 T5 T6 T7 T8]. by split.
Qed.
(** ** Threads come and go *)
Lemma exit_inv w i h : winv w -> w_thr w !! i = Some h -> th_mode h <> M_gone -> th_ptrs h = [] ->
  winv (put_back i (th_with_mode M_gone h) (as_thread_exit (seen_by h w)) w).
Proof.
  intros Hw Ei Hal Hp. pose proof (wi_thr w Hw i h Ei Hal) as [T1 _ _ _ _ _ _ _].
  unfold as_thread_exit, seen_by. cbn [ms_pub ms_me upd_ms_me].
  pose proof (unpublish_spec (ms_pub (w_ms w)) (th_tlb h) (wi_pub w Hw) T1) as Hu.
  destruct (dtlb_unpublish (ms_pub (w_ms w), th_tlb h)) as [p' t']. destruct Hu as (U1 & U2 & U3). set (s := upd_ms_as _ _).
  apply (put_back_inv w i h); try done.
  - split; [by apply (core_me (w_ms w)); [apply Hw|..]|done|simpl; lia|]. intros _. by apply hosts_refl.
  - by intros j u _ _ _ _ _ q Hq.
  - change (f_alive (th_with_mode M_gone h)) with 0. simpl. lia.
Qed.
Lemma new_thread_ok s tid : tid <> 0 -> 0 < ms_gen s -> thr_ok s (mkThr (tlb_init tid) M_run false []).
Proof.
  intros Ht Hg. split; cbn [th_tlb th_mode th_intr th_ptrs].
  - split; [done|by left|simpl; lia].
  - simpl. lia.
  - unfold pubgen. simpl. lia.
  - simpl. lia.
  - done.
  - intros _. by apply tlb_hosts_empty.
  - intros q Hq. by apply elem_of_nil in Hq.
  - done.
Qed.
Lemma clone_inv w i h tid : winv w -> w_thr w !! i = Some h -> th_mode h = M_sys -> tid <> 0 ->
  let w' := put_back i h (as_thread_enter (seen_by h w)) w in
  winv (mkW (w_ms w') (w_thr w' ++ [mkThr (tlb_init tid) M_run false []])).
Proof.
  intros Hw Ei Hm Htid. cbn zeta. set (w' := put_back i h _ w). set (n := mkThr (tlb_init tid) M_run false []).
  assert (Hal : th_mode h <> M_gone) by congruence. pose proof (wi_thr w Hw i h Ei Hal) as Hok.
  assert (Ew : w_thr w' = w_thr w).
  { unfold w'. rewrite put_back_thr. change (ms_gen (as_thread_enter (seen_by h w))) with (ms_gen (w_ms w)).
    rewrite Z.eqb_refl. change (map (raised (negb true))) with (map (fun x : Thr => x)). rewrite map_id. apply list_insert_id.
    rewrite Ei. by destruct h. }
  assert (Hin : forall j x, (w_thr w' ++ [n]) !! j = Some x -> w_thr w !! j = Some x \/ (j = length (w_thr w) /\ x = n)).
  { intros j x. rewrite Ew. intros [H|[Hge H]]%lookup_app_Some; [by left|right].
    apply list_lookup_singleton_Some in H as [H1 H2]. split; [lia|done]. }
  assert (Hno : forall j x, w_thr w !! j = Some x -> j <> length (w_thr w)).
  { intros j x E%lookup_lt_Some. lia. }
  pose proof (co_gen _ (wi_core w Hw)) as Hg. destruct Hw as [W1 W2 W3 W4 W5 W6 W7 W8].
  split; cbn [w_ms w_thr].
  - by apply (core_me (w_ms w)).
  - exact W2.
  - intros j x Ej Hx. destruct (Hin j x Ej) as [H|(-> & ->)].
    + destruct (W3 j x H Hx) as [T1 T2 T3 T4 T5 T6 T7 T8]. by split.
    + apply (new_thread_ok (w_ms w')); [done|]. simpl. lia.
  - intros j x Ej Hx. destruct (Hin j x Ej) as [H|(-> & ->)]; [by apply (W4 j)|done].
  - intros j k x y Hne Ej Ek Hx Hy Hs. destruct (Hin j x Ej) as [H|(-> & ->)], (Hin k y Ek) as [H'|(-> & ->)].
    + by apply (W5 j k).
    + simpl. lia.
    + simpl in Hs. lia.
    + done.
  - rewrite Ew, tally_app. change (as_nthreads (ms_as (w_ms w'))) with (as_nthreads (ms_as (w_ms w)) + 1). rewrite W6.
    change (tally f_alive [n]) with 1. lia.
  - rewrite Ew, tally_app. change (ms_pub (w_ms w')) with (ms_pub (w_ms w)). rewrite W7.
    change (tally f_over [n]) with 0. lia.
  - intros k Hk Hn. destruct (W8 k Hk Hn) as (j & u & Ej & Hu). exists j, u. split; [|done]. rewrite Ew. by apply lookup_app_l_Some.
Qed.

(** ** Every action *)
Lemma enter_inv w i h : winv w -> w_thr w !! i = Some h -> th_mode h = M_run -> th_ptrs h = [] ->
  winv (put_back i (th_with_mode M_block h) (seen_by h w) w) \/ th_intr h = true.
Proof.
  intros Hw Ei Hm Hp. destruct (th_intr h) eqn:Ein; [by right|left]. pose proof (wi_thr w Hw i h Ei ltac:(congruence)) as [T1 T2 T3 T4 T5 T6 T7 T8].
  apply quiet_inv; [done|done|congruence|done|done|]. split; cbn [th_tlb th_with_mode th_mode th_intr th_ptrs]; try done.
  - intros _. apply T4. by rewrite Hm.
  - rewrite Hp. intros q Hq. by apply elem_of_nil in Hq.
  - intros j e _ He Hn. destruct (T6 (or_intror Ein) j e He) as [_ H]. destruct (H Hn) as [H1 ->].
    apply entry_covered; [apply Hw|done].
Qed.
Lemma step_inv w a w' : act_granted w a -> winv w -> act_ok a -> one_at_a_time w a = true -> wexec a w = Some w' -> winv w'.
Proof.
  intros Hg Hw Ha H1. unfold wexec. destruct (w_thr w !! act_thr a) as [h|] eqn:Ei; [|done].
  destruct (mode_eqb (th_mode h) M_gone) eqn:Egone; [done|].
  assert (Hal : th_mode h <> M_gone) by (intros E; by rewrite E in Egone).
  pose proof (wi_thr w Hw _ h Ei Hal) as Hok. pose proof Hok as [T1 T2 T3 T4 T5 T6 T7 T8].
  assert (Hidle : forall b : bool, b && match th_ptrs h with [] => true | _ => false end = true -> b = true /\ th_ptrs h = []).
  { intros b [-> E]%andb_true_iff. by destruct (th_ptrs h). }
  assert (Hone : match th_ptrs h with [] => true | _ => false end = true -> th_ptrs h = []) by (by destruct (th_ptrs h)).
  destruct a as [i ng va need|i va|i|i|i|i|i|i|i op|i ng va need|i tid|i]; cbn [thr_step act_thr one_at_a_time act_ok act_granted] in *; try done.
  - destruct (mode_eqb (th_mode h) M_run || _) eqn:Er; [|done]. intros [= <-]. rewrite Ei in H1. apply Hone in H1.
    pose proof (translate_inv w i h ng va need Hw Ei Hal H1) as Ht. unfold take_ptr. rewrite H1.
    destruct (as_translate ng va need (seen_by h w)) as [[[p|] perm] s']; [|apply Ht]. by apply Ht.
  - destruct (mode_eqb (th_mode h) M_block) eqn:Er; [|done]. apply mode_eqb_eq in Er.
    destruct (dtlb_hit (th_tlb h) _) as [pte|] eqn:Eh; [|done]. intros [= <-]. rewrite Ei in H1. apply Hone in H1. rewrite H1.
    apply quiet_inv; [done|done|done|done|done|]. split; cbn [th_tlb th_with_ptrs th_mode th_intr th_ptrs]; try done.
    + intros H2 H3. destruct (T5 H2 H3) as (E & _ & _). unfold dtlb_hit in Eh. by rewrite E, lookup_empty in Eh.
    + intros q ->%list_elem_of_singleton. split; [by rewrite Er|]. unfold dtlb_hit in Eh.
      destruct (t_dtlb (th_tlb h) !! _) as [[x y]|] eqn:El; [|done]. destruct (negb (y =? 0) && _) eqn:Eb; [|done].
      injection Eh as <-. apply (T8 _ _ Er El). simpl. intros E0. rewrite E0 in Eb. done.
  - intros [= <-]. apply quiet_inv; try done. split; cbn [th_tlb th_with_ptrs th_mode th_intr th_ptrs]; try done.
    + intros H2 H3. destruct (T5 H2 H3) as (? & ? & ?). done.
    + intros q Hq. by apply elem_of_nil in Hq.
  - destruct (_ && _) eqn:E; [|done]. apply Hidle in E as [Er%mode_eqb_eq Hp].
    intros [= <-]. unfold jit_enter, jit_service_interrupt. destruct (th_intr h) eqn:Ein.
    + apply table_inv; [done|done|done|]. pose proof (reset_own w i h M_block false Hw Ei Er Hp eq_refl) as H.
      destruct (jit_dtlb_reset _ _) as [p' t']. destruct H as [P1 P2]. split; [done|]. split; [exact P2|done].
    + destruct (enter_inv w i h Hw Ei Er Hp) as [H|H]; [done|congruence].
  - destruct (_ && _) eqn:E; [|done]. apply Hidle in E as [Er%mode_eqb_eq Hp]. intros [= <-].
    apply quiet_inv; try done. split; cbn [th_tlb th_with_mode th_mode th_intr th_ptrs]; try done.
    + intros _. apply T4. by rewrite Er.
    + rewrite Hp. intros q Hq. by apply elem_of_nil in Hq.
  - destruct (_ && _) eqn:E; [|done]. apply Hidle in E as [Er%mode_eqb_eq Hp]. intros [= <-].
    apply table_inv; [done|done|done|]. pose proof (reset_own w i h M_run (th_intr h) Hw Ei Er Hp eq_refl) as H.
    destruct (jit_dtlb_reset _ _) as [p' t']. destruct H as [P1 P2]. split; [done|]. split; [|done].
    replace h with (mkThr (th_tlb h) M_run (th_intr h) (th_ptrs h)); [exact P2|]. destruct h; simpl in *; by subst.
  - destruct (_ && _) eqn:E; [|done]. apply Hidle in E as [Er%mode_eqb_eq Hp]. intros [= <-].
    apply table_inv; [done|done|done|]. pose proof (begin_own w i h Hw Ei Er Hp) as H.
    destruct (as_tlb_block_begin _) as [p' t']. by destruct H.
  - destruct (_ && _) eqn:E; [|done]. apply Hidle in E as [Er%mode_eqb_eq Hp]. intros [= <-].
    apply table_inv; [done|done|done|]. pose proof (end_own w i h Hw Ei Er Hp) as H.
    destruct (as_tlb_block_end _) as [p' t']. by destruct H.
  - destruct (mode_eqb (th_mode h) M_sys) eqn:Er; [|done]. apply mode_eqb_eq in Er. intros [= <-]. rewrite Ei in Hg. by apply op_inv.
  - destruct (mode_eqb (th_mode h) M_sys) eqn:Er; [|done]. apply mode_eqb_eq in Er. intros [= <-]. by apply clone_inv.
  - destruct (_ && _) eqn:E; [|done]. apply Hidle in E as [Er%mode_eqb_eq Hp]. intros [= <-]. by apply exit_inv.
Qed.
Lemma init_inv o e tid : tid <> 0 -> winv (w_init (Os := Os) o e tid).
Proof.
  intros Htid. assert (Hl : forall i h, w_thr (w_init o e tid) !! i = Some h -> h = mkThr (tlb_init tid) M_run false []).
  { intros i h E%list_lookup_singleton_Some. by destruct E. }
  split; cbn [w_init w_ms w_thr].
  - apply init_space.
  - split; [done|]. done.
  - intros i h E _. rewrite (Hl i h E). by apply new_thread_ok.
  - intros i h E. rewrite (Hl i h E). done.
  - intros i j h u Hne E1 E2. apply list_lookup_singleton_Some in E1 as [-> _], E2 as [-> _]. done.
  - done.
  - done.
  - done.
Qed.
(** The worlds that disciplined actions lead to. *)
Inductive wreach (o : Os) (e : Env) (tid : Z) : World (Os := Os) -> Prop :=
  | wr_init : wreach o e tid (w_init o e tid)
  | wr_step w a w' : wreach o e tid w -> act_ok a -> act_granted w a -> one_at_a_time w a = true -> wexec a w = Some w' -> wreach o e tid w'.
Lemma reach_winv o e tid w : tid <> 0 -> wreach o e tid w -> winv w.
Proof. intros Ht. induction 1 as [|w a w' _ IH Ha Hg H1 He]; [by apply init_inv|by apply (step_inv w a)]. Qed.
Lemma winv_live w : winv w -> holds_live w.
Proof.
  intros Hw i h q Ei Hq k Hk. assert (Hal : th_mode h <> M_gone).
  { intros E. rewrite (wi_gone w Hw i h Ei E) in Hq. by apply elem_of_nil in Hq. }
  destruct (ti_ptrs _ _ (wi_thr w Hw i h Ei Hal) q Hq) as [_ Hc].
  apply (covered_live _ _ _ (ai_heap _ (co_inv _ (wi_core w Hw))) (Hc k Hk)).
Qed.
End Quarantine.

(** * The quarantine is emptied

    A thread that comes to a block boundary with nothing in hand empties its
    D-TLB and publishes the current generation; a thread in the system call
    dispatch is marked blocked. Once every thread has done one or the other, a
    drain releases everything retired before: nothing else holds the
    quarantine back, because every registered slot has a live owner and, with
    no more threads than slots, none is left unregistered. *)

(** ** A claim fails only on a full table *)
Lemma free_slot_none n i p : free_slot n i p = None -> forall k, i <= k < i + Z.of_nat n -> ps_tid (slot_at p k) <> 0.
Proof.
  revert i. induction n as [|n IH]; intros i; simpl; [lia|]. destruct (Z.eqb_spec (ps_tid (slot_at p i)) 0) as [|Hn]; [done|].
  intros H k Hk. destruct (decide (k = i)) as [->|]; [done|]. apply (IH _ H). lia.
Qed.
Lemma claim_env f p t : pub_env (fst (snd (claim_loop f (p, t)))) = pub_env p.
Proof.
  revert p. induction f as [|f IH]; intros p; simpl; [by destruct (t_over t)|].
  destruct (free_slot _ _ _); [by destruct (t_over t)|]. destruct (pub_cap p <=? _); [by destruct (t_over t)|].
  destruct (ps_tid _ =? 0); [by destruct (t_over t)|apply (IH (set_hi _ p))].
Qed.
Lemma publish_env gen p t : pub_env (fst (dtlb_publish gen (p, t))) = pub_env p.
Proof.
  unfold dtlb_publish. destruct (t_slot t <? 0); [|done]. unfold dtlb_claim_slot. set (u := if t_ptid t =? 0 then _ else t).
  pose proof (claim_env (Z.to_nat (pub_cap p) + 1) p u) as H. by destruct (claim_loop _ (p, u)) as [[] [q v]].
Qed.
Lemma claim_fails f p t : pub_ok p -> (f <> 0)%nat -> pub_cap p < pub_hi p + Z.of_nat f -> fst (claim_loop f (p, t)) = false ->
  forall k, 0 <= k < pub_cap p -> ps_tid (slot_at p k) <> 0.
Proof.
  revert p. induction f as [|f IH]; intros p Hp Hf0 Hf; cbn [claim_loop]; [done|].
  - set (hi := if pub_cap p <? pub_hi p then _ else _). pose proof (po_hi p Hp) as H0.
    destruct (free_slot (Z.to_nat hi) 0 p) as [i|] eqn:Ef; [done|]. pose proof (free_slot_none _ _ _ Ef) as Hn.
    destruct (Z.leb_spec (pub_cap p) hi) as [Hle|Hlt]; [intros _ k Hk; apply Hn; lia|].
    assert (Ehi : hi = pub_hi p) by (unfold hi in *; destruct (Z.ltb_spec (pub_cap p) (pub_hi p)); lia).
    destruct (ps_tid _ =? 0) eqn:E; [done|]. intros H. apply (IH (set_hi (pub_hi p + 1) p)); [|lia|simpl|exact H].
    + split; [simpl; lia|apply Hp].
    + change (pub_cap (set_hi (pub_hi p + 1) p)) with (pub_cap p). lia.
Qed.
Lemma publish_fails gen p t : pub_ok p -> t_slot t < 0 -> t_slot (snd (dtlb_publish gen (p, t))) < 0 ->
  forall k, 0 <= k < pub_cap p -> ps_tid (slot_at p k) <> 0.
Proof.
  intros Hp Hs. unfold dtlb_publish. rewrite (proj2 (Z.ltb_lt _ _)) by done. unfold dtlb_claim_slot.
  set (u := if t_ptid t =? 0 then _ else t). set (f := (Z.to_nat (pub_cap p) + 1)%nat).
  pose proof (claim_loop_spec f p u Hp) as Hc. pose proof (claim_fails f p u Hp) as Hf.
  assert (H : pub_cap p < pub_hi p + Z.of_nat f) by (pose proof (po_hi p Hp); pose proof (pub_cap_range p); unfold f; lia).
  specialize (Hf ltac:(lia) H). destruct (claim_loop f (p, u)) as [[] [q v]]; cbn [fst snd publish_gen] in *.
  - destruct Hc as (_ & C1 & _). lia.
  - intros _. by apply Hf.
Qed.

(** ** More threads than slots, when the table is full *)
Definition f_slots (n : nat) (h : Thr) : Z :=
  if mode_eqb (th_mode h) M_gone then 0 else if (0 <=? t_slot (th_tlb h)) && (t_slot (th_tlb h) <? Z.of_nat n) then 1 else 0.
Lemma f_slots_pos n h : 0 <= f_slots n h <= f_alive h.
Proof. unfold f_slots, f_alive. destruct (mode_eqb _ _); [lia|]. destruct (0 <=? _); destruct (_ <? _); simpl; lia. Qed.
Lemma tally_le f g l : (forall h, f h <= g h) -> tally f l <= tally g l.
Proof. intros H. induction l as [|h l IH]; simpl; [done|]. pose proof (H h). unfold tally in *. simpl in *. lia. Qed.
Lemma tally_lt f g l i h : (forall h, f h <= g h) -> l !! i = Some h -> f h < g h -> tally f l < tally g l.
Proof.
  intros H. revert i. induction l as [|x l IH]; intros i; [done|]. destruct i as [|i]; simpl.
  - intros [= ->] Hl. pose proof (tally_le f g l H) as Ht. unfold tally in *. simpl in *. lia.
  - intros Ei Hl. specialize (IH i Ei Hl). pose proof (H x). unfold tally in *. simpl in *. lia.
Qed.
Lemma f_slots_step n h : f_slots n h <= f_slots (S n) h.
Proof.
  unfold f_slots. destruct (mode_eqb _ _); [done|]. destruct (Z.leb_spec 0 (t_slot (th_tlb h))); [|done]. cbn [andb].
  destruct (Z.ltb_spec (t_slot (th_tlb h)) (Z.of_nat n)), (Z.ltb_spec (t_slot (th_tlb h)) (Z.of_nat (S n))); lia.
Qed.
Lemma slots_count n l : (forall k, 0 <= k < Z.of_nat n -> exists i h, l !! i = Some h /\ th_mode h <> M_gone /\ t_slot (th_tlb h) = k) ->
  Z.of_nat n <= tally (f_slots n) l.
Proof.
  induction n as [|n IH]; intros H.
  - simpl. assert (0 <= tally (f_slots 0) l); [|lia]. induction l as [|x l IHl]; [done|]. simpl. pose proof (f_slots_pos 0 x).
    assert (0 <= tally (f_slots 0) l); [|unfold tally in *; lia]. apply IHl. intros k Hk. lia.
  - specialize (IH ltac:(intros k Hk; apply H; lia)). destruct (H (Z.of_nat n) ltac:(lia)) as (i & h & Ei & Hm & Es).
    assert (tally (f_slots n) l < tally (f_slots (S n)) l); [|lia]. apply (tally_lt _ _ _ i h (f_slots_step n) Ei).
    unfold f_slots. rewrite Es. destruct (mode_eqb (th_mode h) M_gone) eqn:E; [by apply mode_eqb_eq in E|].
    rewrite (proj2 (Z.leb_le 0 _)), (proj2 (Z.ltb_ge _ _)), (proj2 (Z.ltb_lt _ _)) by lia. done.
Qed.

(** ** A round of block boundaries *)
Section QuarLive.
Context {Os : Type} `{!HostOs Os} `{!HostOsOk Os}.
Implicit Types s : MS Os.
Implicit Types w : World (Os := Os).

Definition blocked_in w (h : Thr) : Prop :=
  0 <= t_slot (th_tlb h) /\ ps_blocked (slot_at (ms_pub (w_ms w)) (t_slot (th_tlb h))) = true.
(** Nothing in hand: between blocks, or in a handler and marked so. *)
Definition at_rest w (h : Thr) : Prop :=
  th_ptrs h = [] /\ (th_mode h = M_run \/ th_mode h = M_sys /\ blocked_in w h).
(** Nothing of an older generation held back. *)
Definition passed w (h : Thr) : Prop :=
  blocked_in w h \/ 0 <= t_slot (th_tlb h) /\ ps_gen (slot_at (ms_pub (w_ms w)) (t_slot (th_tlb h))) = ms_gen (w_ms w).

Lemma has_slot w i h gen d f : winv w -> w_thr w !! i = Some h -> th_mode h <> M_gone ->
  as_nthreads (ms_as (w_ms w)) <= pub_cap (ms_pub (w_ms w)) ->
  0 <= t_slot (snd (dtlb_publish gen (ms_pub (w_ms w), with_fc f (with_dtlb d gen (th_tlb h))))).
Proof.
  intros Hw Ei Hal Hn. set (p := ms_pub (w_ms w)). set (t := with_fc _ _).
  destruct (Z.ltb_spec (t_slot (snd (dtlb_publish gen (p, t)))) 0) as [Hs|]; [exfalso|done].
  assert (Ht : t_slot t < 0).
  { destruct (Z.ltb_spec (t_slot t) 0) as [|Hge]; [done|]. unfold dtlb_publish in Hs.
    rewrite (proj2 (Z.ltb_ge _ _)) in Hs by done. cbn [publish_gen snd] in Hs. lia. }
  pose proof (publish_fails gen p t (wi_pub w Hw) Ht Hs) as Hfull. pose proof (pub_cap_range p) as Hc.
  pose proof (slots_count (Z.to_nat (pub_cap p)) (w_thr w)) as Hcnt. rewrite Z2Nat.id in Hcnt by lia.
  assert (H1 := Hcnt (fun k Hk => wi_owned w Hw k (proj1 Hk) (Hfull k Hk))).
  assert (H2 : tally (f_slots (Z.to_nat (pub_cap p))) (w_thr w) < tally f_alive (w_thr w)).
  { apply (tally_lt _ _ _ i h); [intros x; apply f_slots_pos|done|]. unfold f_slots, f_alive.
    destruct (mode_eqb (th_mode h) M_gone) eqn:E; [by apply mode_eqb_eq in E|].
    change (t_slot (th_tlb h)) with (t_slot t). rewrite (proj2 (Z.leb_gt 0 _)) by done. cbn [andb]. lia. }
  rewrite <- (wi_count w Hw) in H2. fold p in Hn. lia.
Qed.

(** What a round of stops keeps, and what one stop brings. *)
Record rest_step (l : list nat) w w' : Prop := {
  rs_inv : winv w';
  rs_gen : ms_gen (w_ms w') = ms_gen (w_ms w);
  rs_as : ms_as (w_ms w') = ms_as (w_ms w);
  rs_maps : ms_maps (w_ms w') = ms_maps (w_ms w);
  rs_cap : pub_cap (ms_pub (w_ms w')) = pub_cap (ms_pub (w_ms w));
  rs_len : length (w_thr w') = length (w_thr w);
  rs_thr j u : w_thr w !! j = Some u -> th_mode u <> M_gone -> exists u', w_thr w' !! j = Some u' /\
    th_mode u' = th_mode u /\ th_ptrs u' = th_ptrs u /\ (passed w u -> passed w' u') /\ (j ∈ l -> passed w' u');
  rs_gone j u : w_thr w !! j = Some u -> th_mode u = M_gone -> w_thr w' !! j = Some u
}.
Lemma rest_refl w : winv w -> rest_step [] w w.
Proof.
  intros Hw. split; try done. intros j u Eu _. exists u. split; [done|]. split; [done|]. split; [done|]. split; [done|].
  by intros ?%elem_of_nil.
Qed.
Lemma rest_trans i l w w1 w2 : rest_step [i] w w1 -> rest_step l w1 w2 -> rest_step (i :: l) w w2.
Proof.
  intros [A1 A2 A3 A4 A5 A6 A7 A8] [B1 B2 B3 B4 B5 B6 B7 B8]. split; try congruence; [|auto].
  intros j u Eu Hm. destruct (A7 j u Eu Hm) as (u1 & E1 & M1 & P1 & Q1 & R1).
  destruct (B7 j u1 E1 ltac:(congruence)) as (u2 & E2 & M2 & P2 & Q2 & R2). exists u2. split; [done|]. split; [congruence|].
  split; [congruence|]. split; [auto|]. intros [->|Hj]%elem_of_cons; [|auto]. apply Q2, R1. by left.
Qed.
Lemma stop_step w i h : winv w -> w_thr w !! i = Some h -> th_mode h = M_run -> th_ptrs h = [] ->
  as_nthreads (ms_as (w_ms w)) <= pub_cap (ms_pub (w_ms w)) ->
  exists w', wexec (A_stop i) w = Some w' /\ rest_step [i] w w'.
Proof.
  intros Hw Ei Hm Hp Hn. unfold wexec. cbn [act_thr]. rewrite Ei, Hm. cbn [mode_eqb thr_step]. rewrite Hm, Hp. cbn [mode_eqb andb].
  eexists. split; [reflexivity|]. pose proof (reset_own w i h M_run (th_intr h) Hw Ei Hm Hp eq_refl) as Hown.
  pose proof (has_slot w i h (ms_gen (w_ms w)) ∅ None Hw Ei ltac:(congruence) Hn) as Hslot.
  pose proof (publish_spec (ms_gen (w_ms w)) (ms_pub (w_ms w)) (with_fc None (with_dtlb ∅ (ms_gen (w_ms w)) (th_tlb h))) (wi_pub w Hw)
    (slot_ok_dtlb _ _ _ _ _ (ti_slot _ _ (wi_thr w Hw i h Ei ltac:(congruence))))) as Hps.
  pose proof (publish_env (ms_gen (w_ms w)) (ms_pub (w_ms w)) (with_fc None (with_dtlb ∅ (ms_gen (w_ms w)) (th_tlb h)))) as Henv.
  assert (Hh : mkThr (th_tlb h) M_run (th_intr h) (th_ptrs h) = h) by (destruct h; simpl in *; by subst). rewrite Hh in Hown.
  assert (Hinv : winv (put_back i h (on_pub (jit_dtlb_reset (ms_gen (w_ms w))) (seen_by h w)) w)).
  { apply table_inv; [done|done|congruence|]. destruct (jit_dtlb_reset _ _) as [p' t']. destruct Hown. split; [done|]. split; [done|congruence]. }
  revert Hinv. unfold on_pub, seen_by, jit_dtlb_reset in *. cbn [ms_pub ms_me upd_ms_me].
  destruct (dtlb_publish _ _) as [p' t']. cbn [fst snd] in *. destruct Hps as [Hst Hpub], Hown as [Hst' _]. set (s := upd_ms_pub _ _). intros Hinv.
  assert (Et : w_thr (put_back i h s w) = <[i := th_with_tlb t' h]> (w_thr w)).
  { rewrite put_back_thr. change (ms_gen s) with (ms_gen (w_ms w)). rewrite Z.eqb_refl. apply map_id. }
  assert (Hnew : passed (put_back i h s w) (th_with_tlb t' h)).
  { right. split; [done|]. destruct Hpub as [(_ & E & _)|(? & _)]; [exact E|lia]. }
  split; try done.
  - cbn [put_back w_ms]. unfold pub_cap. change (ms_pub s) with p'. by rewrite Henv.
  - rewrite Et. apply length_insert.
  - intros j u Eu Hu. rewrite Et. destruct (decide (i = j)) as [<-|Hne].
    + rewrite Ei in Eu. injection Eu as <-. exists (th_with_tlb t' h). rewrite list_lookup_insert_eq by (by apply lookup_lt_Some in Ei). done.
    + exists u. rewrite list_lookup_insert_ne by done. split; [done|]. split; [done|]. split; [done|].
      split; [|by intros ->%list_elem_of_singleton]. intros Hpas.
      assert (Hs : 0 <= t_slot (th_tlb u)) by (by destruct Hpas as [[? _]|[? _]]).
      destruct (sk_slot _ _ (ti_slot _ _ (wi_thr w Hw j u Eu Hu)) Hs) as (_ & _ & S3 & _).
      assert (Es : slot_at p' (t_slot (th_tlb u)) = slot_at (ms_pub (w_ms w)) (t_slot (th_tlb u))).
      { apply (pp_other _ _ _ _ Hst'); [done| |done]. apply (wi_slots w Hw j i u h); try done; congruence. }
      unfold passed, blocked_in. cbn [put_back w_ms]. change (ms_pub s) with p'. change (ms_gen s) with (ms_gen (w_ms w)). by rewrite Es.
  - intros j u Eu Hu. rewrite Et, list_lookup_insert_ne; [done|]. intros <-. congruence.
Qed.
Lemma stops_step l w : winv w -> (forall i, i ∈ l -> exists h, w_thr w !! i = Some h /\ th_mode h = M_run /\ th_ptrs h = []) ->
  as_nthreads (ms_as (w_ms w)) <= pub_cap (ms_pub (w_ms w)) ->
  exists w', wrun (map A_stop l) w = Some w' /\ rest_step l w w'.
Proof.
  revert w. induction l as [|i l IH]; intros w Hw Hl Hn; [exists w; split; [done|by apply rest_refl]|].
  destruct (Hl i) as (h & Ei & Hm & Hp); [by left|]. destruct (stop_step w i h Hw Ei Hm Hp Hn) as (w1 & E1 & R1).
  pose proof R1 as [A1 A2 A3 A4 A5 A6 A7 A8]. destruct (IH w1 A1) as (w2 & E2 & R2).
  - intros j Hj. destruct (Hl j) as (u & Ej & Hu & Pu); [by right|]. destruct (A7 j u Ej ltac:(congruence)) as (u' & ? & ? & ? & _).
    exists u'. split; [done|]. split; congruence.
  - rewrite A3, A5. done.
  - exists w2. split; [|by apply (rest_trans i l w w1)]. cbn [map wrun]. by rewrite E1.
Qed.
(** With everyone past, the drain keeps nothing older. *)
Lemma all_passed_drain w : winv w -> ms_gen (w_ms w) <= not64 0 ->
  (forall i h, w_thr w !! i = Some h -> th_mode h <> M_gone -> passed w h) ->
  ms_gen (w_ms w) <= drain_safe (w_ms w).
Proof.
  intros Hw Hg Hp. unfold drain_safe. destruct (_ =? 1); [done|]. apply safe_gen_ge; [|done|].
  - rewrite (wi_over w Hw). assert (H : forall i h, w_thr w !! i = Some h -> f_over h = 0).
    { intros i h Ei. unfold f_over. destruct (mode_eqb (th_mode h) M_gone) eqn:E; [done|].
      assert (Hm : th_mode h <> M_gone) by (intros E'; by rewrite E' in E). assert (Hs : 0 <= t_slot (th_tlb h)) by (destruct (Hp i h Ei Hm) as [[? _]|[? _]]; done).
      by destruct (sk_slot _ _ (ti_slot _ _ (wi_thr w Hw i h Ei Hm)) Hs) as (_ & _ & _ & ->). }
    clear -H. induction (w_thr w) as [|x l IH]; [done|]. simpl. rewrite (H 0%nat x eq_refl). apply IH. intros i h E. by apply (H (S i)).
  - intros k Hk Ht Hb. destruct (wi_owned w Hw k Hk Ht) as (i & h & Ei & Hm & Es). subst k.
    destruct (Hp i h Ei Hm) as [[_ E]|[_ ->]]; [congruence|done].
Qed.
End QuarLive.
