(* ===== verification/Vfork.v ===== *)
(** * Vfork: what a vfork child wrote, carried to its parent

    The child's first store to a page snapshots it ([vf_record]); at its end
    [as_vfork_flush] compares every snapshot with the page as it is and sends
    the parent the runs of bytes that changed, gaps of up to 16 unchanged
    bytes folded in. Here are the flush and what it promises: the snapshots
    are a sorted table the binary search finds its way in, and a parent whose
    pages are as they were ends up with the child's bytes. *)

From stdpp Require Import gmap.
From S2P Require Import Prelude Types Cpu MemSeam PageTable Regions Epoch AsState AddrSpace Translate.

(** ** The runs of one page *)
Section Runs.
(** [size] is the page's, 4096. *)
Variable size : nat.
Variables was now : list Z.
Definition changed (k : nat) : bool := negb (nth k now 0 =? nth k was 0).
(** The inner loop: the last changed byte of the run that [last] is in. *)
Fixpoint run_last (fuel last j : nat) : nat :=
  match fuel with
  | O => last
  | S f => if (j <? size)%nat && (j - last <=? 16)%nat
           then run_last f (if changed j then j else last) (S j) else last
  end.
(** The outer loop: offset and length of each run, from [off]. *)
Fixpoint runs (fuel off : nat) : list (nat * nat) :=
  match fuel with
  | O => []
  | S f => if (off <? size)%nat then
             if negb (changed off) then runs f (S off)
             else let last := run_last size off (S off) in
                  (off, last - off + 1)%nat :: runs f (S last)
           else []
  end.

Lemma run_last_spec f last j : (last < j)%nat -> (last < size)%nat -> changed last = true ->
  (last <= run_last f last j)%nat /\ (run_last f last j < size)%nat /\ changed (run_last f last j) = true.
Proof.
  revert last j. induction f as [|f IH]; intros last j Hj Hl Hc; simpl; [done|].
  destruct (Nat.ltb_spec j size); [|done]. destruct (j - last <=? 16)%nat; [|done]. cbn [andb].
  destruct (changed j) eqn:E.
  - destruct (IH j (S j)) as (H1 & H2 & H3); [lia|lia|done|]. split; [lia|done].
  - apply IH; [lia|done|done].
Qed.
Record run_ok (off : nat) (r : nat * nat) : Prop := {
  rn_first : changed (fst r) = true;
  rn_last : changed (fst r + snd r - 1) = true;
  rn_range : (off <= fst r)%nat /\ (0 < snd r)%nat /\ (fst r + snd r <= size)%nat
}.
Lemma runs_ok f off : Forall (run_ok off) (runs f off).
Proof.
  revert off. induction f as [|f IH]; intros off; simpl; [constructor|].
  destruct (Nat.ltb_spec off size); [|constructor]. destruct (changed off) eqn:E; cbn [negb].
  - destruct (run_last_spec size off (S off)) as (H1 & H2 & H3); [lia|done|done|]. set (l := run_last _ _ _) in *. constructor.
    + split; simpl; [done| |lia]. by replace (off + (l - off + 1) - 1)%nat with l by lia.
    + eapply list.Forall_impl; [apply IH|]. intros r [R1 R2 R3]. split; [done|done|lia].
  - eapply list.Forall_impl; [apply IH|]. intros r [R1 R2 R3]. split; [done|done|lia].
Qed.
(** Every changed byte is in a run. *)
Lemma runs_all f off k : (off <= k < size)%nat -> (size < off + f)%nat -> changed k = true ->
  exists r, r ∈ runs f off /\ (fst r <= k < fst r + snd r)%nat.
Proof.
  revert off. induction f as [|f IH]; intros off Hk Hf Hc; [lia|]. simpl.
  rewrite (proj2 (Nat.ltb_lt off size)) by lia. destruct (changed off) eqn:E; cbn [negb].
  - destruct (run_last_spec size off (S off)) as (H1 & H2 & H3); [lia|lia|done|]. set (l := run_last _ _ _) in *.
    destruct (decide (k <= l)%nat) as [Hle|Hgt].
    + exists (off, (l - off + 1)%nat). split; [by left|simpl; lia].
    + destruct (IH (S l)) as (r & Hr & H); [lia|lia|done|]. exists r. split; [by right|done].
  - destruct (decide (k = off)) as [->|]; [congruence|]. apply IH; [lia|lia|done].
Qed.
End Runs.
Definition page_runs (was now : list Z) : list (nat * nat) := runs PAGE_N was now (S PAGE_N) 0.

(** ** [as_vfork_flush] *)
Section Flush.
Context {Os : Type} `{!HostOs Os}.
Implicit Types s : MS Os.

(** The callbacks, with the context they work on: [emit] takes an address and
    the bytes, [grow] a stack's old and new start; both answer 0 to go on. *)
Variable Ctx : Type.
Variable emit : Ctx -> Z -> list Z -> Z * Ctx.
Variable grow : Ctx -> Z -> Z -> Z * Ctx.

(** The region [was] is in, while regions start at or below it. *)
Fixpoint stack_at (rs : list Region) (i : nat) (was : Z) : option (nat * Region) :=
  match rs with
  | [] => None
  | r :: rs' => if was <? r_start r then None
                else if r_end r <=? was then stack_at rs' (S i) was else Some (i, r)
  end.
Definition flush_stack s (was : Z) (c : Ctx) : Z * Ctx :=
  match stack_at (regs s) 0 was with
  | None => (0, c)
  | Some (i, r) =>
      let start := as_vma_start (regs s) i in
      if tr (r_growsdown r) && (start <? was) then grow c was start else (0, c)
  end.
(** Callbacks in turn, until one answers something else than 0. *)
Fixpoint each {A} (f : A -> Ctx -> Z * Ctx) (l : list A) (c : Ctx) : Z * Ctx :=
  match l with
  | [] => (0, c)
  | a :: l' => match f a c with (rc, c') => if rc =? 0 then each f l' c' else (rc, c') end
  end.
Definition flush_page s (p : Z * list Z) (c : Ctx) : Z * Ctx :=
  let '(va, was) := p in
  let pte := pte_get (pt s) va in
  if pte =? 0 then (0, c)
  else
    let now := host_bytes (pte_host pte) PAGE_N s in
    each (fun r c => emit c (va + Z.of_nat (fst r)) (take (snd r) (drop (fst r) now))) (page_runs was now) c.
Definition as_vfork_flush s (c : Ctx) : Z * Ctx * MS Os :=
  let '(rc, c) := each (flush_stack s) (vf_stacks (ms_vf s)) c in
  let '(rc, c) := if rc =? 0 then each (flush_page s) (vf_pages (ms_vf s)) c else (rc, c) in
  (rc, c, vf_drop s).
End Flush.

(** ** The table of snapshots *)
Definition vf_sorted (l : list (Z * list Z)) : Prop :=
  forall i j p q, (i < j)%nat -> l !! i = Some p -> l !! j = Some q -> fst p + GUEST_PAGE_SIZE <= fst q.
Record vf_ok (l : list (Z * list Z)) : Prop := {
  vo_sorted : vf_sorted l;
  vo_page p : p ∈ l -> aligned (fst p) /\ length (snd p) = PAGE_N
}.
(** The search: an index where [va] is, or minus one minus the place it
    would take. *)
Lemma vf_search_spec f l lo hi va : vf_ok l -> aligned va ->
  0 <= lo -> lo <= hi + 1 -> hi < Z.of_nat (length l) -> (Z.to_nat (hi + 1 - lo) < f)%nat ->
  (forall i p, (Z.of_nat i < lo) -> l !! i = Some p -> fst p < va) ->
  (forall i p, (hi < Z.of_nat i) -> l !! i = Some p -> va < fst p) ->
  let k := vf_search f l lo hi va in
  (0 <= k /\ exists b, l !! Z.to_nat k = Some (va, b)) \/
  (exists n, k = - Z.of_nat n - 1 /\ (n <= length l)%nat /\
     (forall i p, (i < n)%nat -> l !! i = Some p -> fst p < va) /\
     (forall i p, (n <= i)%nat -> l !! i = Some p -> va < fst p)).
Proof.
  intros Hl Hva. revert lo hi. induction f as [|f IH]; intros lo hi H0 H1 H2 Hf HL HR; [lia|]. cbn zeta. simpl.
  destruct (Z.leb_spec lo hi) as [Hle|Hgt].
  2: { right. exists (Z.to_nat lo). split; [lia|]. split; [lia|]. split; intros i p Hi Hp; [apply (HL i p); [lia|done]|apply (HR i p); [lia|done]]. }
  set (mid := Z.quot (lo + hi) 2). assert (Hm : lo <= mid <= hi).
  { unfold mid. rewrite Z.quot_div_nonneg by lia. split; [apply Z.div_le_lower_bound; lia|apply Z.div_le_upper_bound; lia]. }
  destruct (l !! Z.to_nat mid) as [[a b]|] eqn:E.
  2: { apply lookup_ge_None in E. lia. }
  assert (Hlt : forall i p, (i < Z.to_nat mid)%nat -> l !! i = Some p -> fst p < a).
  { intros i p Hi Hp. pose proof (vo_sorted l Hl i (Z.to_nat mid) p (a, b) Hi Hp E). change GUEST_PAGE_SIZE with 4096 in *. simpl in *. lia. }
  assert (Hgt' : forall i p, (Z.to_nat mid < i)%nat -> l !! i = Some p -> a < fst p).
  { intros i p Hi Hp. pose proof (vo_sorted l Hl (Z.to_nat mid) i (a, b) p Hi E Hp). change GUEST_PAGE_SIZE with 4096 in *. simpl in *. lia. }
  destruct (Z.eqb_spec a va) as [->|Hne]; [left; split; [lia|by exists b]|].
  destruct (Z.ltb_spec a va) as [Hav|Hav].
  - apply IH; [lia|lia|lia|lia| |done]. intros i p Hi Hp. destruct (decide (i = Z.to_nat mid)) as [->|Hn].
    + rewrite E in Hp. injection Hp as <-. done.
    + specialize (Hlt i p ltac:(lia) Hp). lia.
  - apply IH; [lia|lia|lia|lia|done|]. intros i p Hi Hp. destruct (decide (i = Z.to_nat mid)) as [->|Hn].
    + rewrite E in Hp. injection Hp as <-. simpl. lia.
    + specialize (Hgt' i p ltac:(lia) Hp). lia.
Qed.
Lemma vf_find_spec l va : vf_ok l -> aligned va ->
  (0 <= vf_find l va /\ exists b, l !! Z.to_nat (vf_find l va) = Some (va, b)) \/
  (exists n, vf_find l va = - Z.of_nat n - 1 /\ (n <= length l)%nat /\
     (forall i p, (i < n)%nat -> l !! i = Some p -> fst p < va) /\
     (forall i p, (n <= i)%nat -> l !! i = Some p -> va < fst p)).
Proof.
  intros Hl Hva. apply (vf_search_spec _ l 0 _ va); [done|done|lia|lia|lia|lia| |].
  - intros i p Hi. lia.
  - intros i p Hi Hp. apply lookup_lt_Some in Hp. lia.
Qed.
Lemma vf_ok_insert l n page b : vf_ok l -> aligned page -> length b = PAGE_N -> (n <= length l)%nat ->
  (forall i p, (i < n)%nat -> l !! i = Some p -> fst p < page) ->
  (forall i p, (n <= i)%nat -> l !! i = Some p -> page < fst p) -> vf_ok (take n l ++ [(page, b)] ++ drop n l).
Proof.
  intros [H1 H2] Ha Hb Hn HL HR.
  assert (Hgap : forall x y, aligned x -> aligned y -> x < y -> x + GUEST_PAGE_SIZE <= y).
  { unfold aligned. change GUEST_PAGE_SIZE with 4096. intros x y X Y Hxy. pose proof (Z.div_mod x 4096). pose proof (Z.div_mod y 4096). lia. }
  assert (Hin : forall i p, (take n l ++ [(page, b)] ++ drop n l) !! i = Some p ->
    ((i < n)%nat /\ l !! i = Some p) \/ (i = n /\ p = (page, b)) \/ ((n < i)%nat /\ l !! (i - 1)%nat = Some p)).
  { intros i p. assert (Hlen : length (take n l) = n) by (rewrite length_take; lia).
    intros [H|[Hge H]]%lookup_app_Some.
    - left. apply lookup_take_Some in H as [? ?]. done.
    - rewrite Hlen in *. destruct (i - n)%nat as [|k] eqn:Ek; simpl in H.
      + right; left. split; [lia|congruence].
      + right; right. rewrite lookup_drop in H. split; [lia|]. by replace (i - 1)%nat with (n + k)%nat by lia. }
  assert (Hal : forall i p, l !! i = Some p -> aligned (fst p)) by (intros i p E; apply H2; by apply (list_elem_of_lookup_2 l i)).
  split.
  - intros i j p q Hij Hp Hq.
    destruct (Hin i p Hp) as [(I1 & I2)|[(-> & ->)|(I1 & I2)]], (Hin j q Hq) as [(J1 & J2)|[(-> & ->)|(J1 & J2)]]; try lia; simpl.
    + by apply (H1 i j).
    + apply Hgap; [by apply (Hal i)|done|by apply (HL i)].
    + apply (H1 i (j - 1)%nat); [lia|done|done].
    + apply Hgap; [done|by apply (Hal (j - 1)%nat)|apply (HR (j - 1)%nat); [lia|done]].
    + apply (H1 (i - 1)%nat (j - 1)%nat); [lia|done|done].
  - intros p (i & Hi)%list_elem_of_lookup_1. destruct (Hin i p Hi) as [(_ & I2)|[(-> & ->)|(_ & I2)]]; [|done|];
      apply H2; by eapply list_elem_of_lookup_2.
Qed.

Section Record.
Context {Os : Type} `{!HostOs Os}.
Implicit Types s : MS Os.
(** [vf_record] keeps the table in order; the page is in it, as it was at its
    first record; the other snapshots are untouched. *)
Lemma vf_record_spec page host s : vf_ok (vf_pages (ms_vf s)) -> aligned page -> env_nomem (ms_env s) = false ->
  let '(ok, s') := vf_record page host s in
  ok = true /\ vf_ok (vf_pages (ms_vf s')) /\
  (forall p, p ∈ vf_pages (ms_vf s) -> p ∈ vf_pages (ms_vf s')) /\
  exists b, (page, b) ∈ vf_pages (ms_vf s') /\
    ((page, b) ∈ vf_pages (ms_vf s) \/ b = host_bytes host PAGE_N s).
Proof.
  intros Hok Ha Hm. unfold vf_record. set (l := vf_pages (ms_vf s)) in *.
  destruct (vf_find_spec l page Hok Ha) as [(Hk & b & Hb)|(n & Ek & Hn & HL & HR)].
  - rewrite (proj2 (Z.leb_le _ _)) by done. split; [done|]. split; [done|]. split; [done|].
    apply list_elem_of_lookup_2 in Hb. exists b. split; [done|by left].
  - rewrite Ek. rewrite (proj2 (Z.leb_gt _ _)) by lia. rewrite Hm. split; [done|]. cbn [ms_vf upd_ms_vf vf_pages].
    replace (Z.to_nat (- (- Z.of_nat n - 1) - 1)) with n by lia. split; [|split].
    + apply vf_ok_insert; [done|done| |done|done|done]. unfold host_bytes. by rewrite length_map, length_seq.
    + intros p Hp. rewrite <- (take_drop n l) in Hp. apply elem_of_app in Hp as [Hp|Hp]; apply elem_of_app; [by left|right]. by right.
    + exists (host_bytes host PAGE_N s). split; [|by right]. apply elem_of_app. right. by left.
Qed.

(** ** The parent's memory *)
Definition put_run (m : Z -> Z) (va : Z) (data : list Z) : Z * (Z -> Z) :=
  (0, fun a => if (va <=? a) && (a <? va + Z.of_nat (length data)) then nth (Z.to_nat (a - va)) data 0 else m a).
Definition parent_grow (m : Z -> Z) (was start : Z) : Z * (Z -> Z) := (0, m).

Lemma nth_run (now : list Z) o n k : (k < n)%nat -> nth k (take n (drop o now)) 0 = nth (o + k) now 0.
Proof.
  intros Hk. rewrite !nth_lookup. by rewrite lookup_take_lt, lookup_drop.
Qed.
(** The runs of a page, one after the other. *)
Lemma emit_runs va (now : list Z) l m : length now = PAGE_N ->
  Forall (fun r => (fst r + snd r <= PAGE_N)%nat) l ->
  let f := fun r c => put_run c (va + Z.of_nat (fst r)) (take (snd r) (drop (fst r) now)) in
  fst (each (Z -> Z) f l m) = 0 /\
  forall a, snd (each (Z -> Z) f l m) a = m a /\ (forall r, r ∈ l -> ~ va + Z.of_nat (fst r) <= a < va + Z.of_nat (fst r + snd r)) \/
    snd (each (Z -> Z) f l m) a = nth (Z.to_nat (a - va)) now 0 /\ va <= a < va + Z.of_nat PAGE_N.
Proof.
  intros Hn Hl. cbn zeta. revert m. induction l as [|[o n] l IH]; intros m.
  { split; [done|]. intros a. left. split; [done|]. intros r Hr. by apply elem_of_nil in Hr. }
  apply Forall_cons_iff in Hl as [H1 H2]. specialize (IH H2). cbn [each fst snd put_run].
  change (0 =? 0) with true. cbn beta iota. set (m1 := fun a : Z => _). destruct (IH m1) as [I1 I2]. split; [exact I1|].
  intros a. cbn [fst snd] in *. assert (Hlen : length (take n (drop o now)) = n) by (rewrite length_take, length_drop; lia).
  destruct (I2 a) as [(E & Hno)|(E & Hr)]; [|right; by rewrite E].
  destruct ((va + Z.of_nat o <=? a) && (a <? va + Z.of_nat o + Z.of_nat (length (take n (drop o now))))) eqn:Eb.
  - right. rewrite E. unfold m1. rewrite Eb. apply andb_true_iff in Eb as [E1 E2]. rewrite Hlen in E2.
    split; [|lia]. rewrite nth_run by lia. f_equal. lia.
  - left. rewrite E. unfold m1. rewrite Eb. split; [done|]. intros r [->|Hr]%elem_of_cons; [|by apply Hno].
    cbn [fst snd]. rewrite Hlen in Eb. lia.
Qed.
Lemma page_carried s va was m : length was = PAGE_N -> pte_get (pt s) va <> 0 ->
  (forall k, (k < PAGE_N)%nat -> m (va + Z.of_nat k) = nth k was 0) ->
  fst (flush_page (Z -> Z) put_run s (va, was) m) = 0 /\
  (forall k, (k < PAGE_N)%nat -> snd (flush_page (Z -> Z) put_run s (va, was) m) (va + Z.of_nat k) =
     ms_mem s (pte_host (pte_get (pt s) va) + Z.of_nat k)) /\
  (forall a, ~ va <= a < va + Z.of_nat PAGE_N -> snd (flush_page (Z -> Z) put_run s (va, was) m) a = m a).
Proof.
  intros Hw Hn Hm. unfold flush_page. rewrite (proj2 (Z.eqb_neq _ 0) Hn).
  set (now := host_bytes (pte_host (pte_get (pt s) va)) PAGE_N s).
  assert (Hlen : length now = PAGE_N) by (unfold now, host_bytes; by rewrite length_map, length_seq).
  assert (Hnow : forall k, (k < PAGE_N)%nat -> nth k now 0 = ms_mem s (pte_host (pte_get (pt s) va) + Z.of_nat k)).
  { intros k Hk. unfold now, host_bytes. rewrite nth_lookup, list_lookup_fmap, lookup_seq_lt by done. done. }
  pose proof (runs_ok PAGE_N was now (S PAGE_N) 0) as Hro.
  destruct (emit_runs va now (page_runs was now) m Hlen) as [E1 E2].
  { eapply list.Forall_impl; [exact Hro|]. intros r [_ _ R]. lia. }
  cbn zeta in *. set (res := each _ _ _ m) in *. split; [done|]. split.
  - intros k Hk. rewrite <- Hnow by done. destruct (E2 (va + Z.of_nat k)) as [[E Hno]|[E _]]; rewrite E.
    + rewrite Hm by done. destruct (changed was now k) eqn:Ec.
      * destruct (runs_all PAGE_N was now (S PAGE_N) 0 k ltac:(lia) ltac:(lia) Ec) as (r & Hr & Hin). exfalso. apply (Hno r Hr). lia.
      * unfold changed in Ec. apply negb_false_iff, Z.eqb_eq in Ec. done.
    + f_equal. lia.
  - intros a Ha. destruct (E2 a) as [[E _]|[_ Hr]]; [done|lia].
Qed.
Lemma pages_carried s l m : vf_ok l -> (forall va was, (va, was) ∈ l -> pte_get (pt s) va <> 0) ->
  (forall va was k, (va, was) ∈ l -> (k < PAGE_N)%nat -> m (va + Z.of_nat k) = nth k was 0) ->
  fst (each (Z -> Z) (flush_page (Z -> Z) put_run s) l m) = 0 /\
  (forall va was k, (va, was) ∈ l -> (k < PAGE_N)%nat ->
     snd (each (Z -> Z) (flush_page (Z -> Z) put_run s) l m) (va + Z.of_nat k) =
     ms_mem s (pte_host (pte_get (pt s) va) + Z.of_nat k)) /\
  (forall a, (forall va was, (va, was) ∈ l -> ~ va <= a < va + Z.of_nat PAGE_N) ->
     snd (each (Z -> Z) (flush_page (Z -> Z) put_run s) l m) a = m a).
Proof.
  revert m. induction l as [|[va was] l IH]; intros m Hok Hp Hm.
  { split; [done|]. split; [|done]. intros va was k Hin. by apply elem_of_nil in Hin. }
  assert (EP : Z.of_nat PAGE_N = GUEST_PAGE_SIZE) by (unfold PAGE_N; by rewrite Z2Nat.id).
  pose proof (vo_page _ Hok (va, was) ltac:(by left)) as [_ Hlen]. cbn [snd] in Hlen.
  destruct (page_carried s va was m Hlen (Hp va was ltac:(by left)) (fun k => Hm va was k ltac:(by left))) as (P1 & P2 & P3).
  assert (Hdis : forall va' was', (va', was') ∈ l -> va + GUEST_PAGE_SIZE <= va').
  { intros va' was' (j & Hj)%list_elem_of_lookup_1. apply (vo_sorted _ Hok 0%nat (S j) (va, was) (va', was')); [lia|done|done]. }
  assert (Hok' : vf_ok l).
  { destruct Hok as [O1 O2]. split; [intros i j p q Hij Ei Ej; by apply (O1 (S i) (S j)); [lia|..]|intros p Hq; apply O2; by right]. }
  cbn [each]. destruct (flush_page (Z -> Z) put_run s (va, was) m) as [rc m1]. cbn [fst snd] in *. subst rc. cbn [Z.eqb].
  destruct (IH m1 Hok') as (I1 & I2 & I3).
  - intros va' was' Hin. apply (Hp va' was'). by right.
  - intros va' was' k Hin Hk. rewrite P3; [by apply Hm; [right|]|]. specialize (Hdis _ _ Hin). lia.
  - split; [exact I1|]. split.
    + intros va' was' k [Heq|Hin]%elem_of_cons Hk; [injection Heq as -> ->|by apply (I2 va' was')].
      rewrite I3; [by apply P2|]. intros va2 was2 H2. specialize (Hdis _ _ H2). lia.
    + intros a Ha. rewrite I3; [apply P3; apply (Ha va was); by left|]. intros va2 was2 H2. apply (Ha va2 was2). by right.
Qed.
End Record.
