(* ===== verification/CopyThms.v ===== *)
(** * CopyThms: the copies between host buffers and guest memory

    A copy from memory mapped for it returns the guest's bytes, a copy to it
    leaves the given bytes there and no others changed, across pages and
    whatever host memory the pages are in. *)

From stdpp Require Import gmap.
From S2P Require Import Prelude Types Cpu CpuWf MemSeam PageTable Regions Epoch AsState AddrSpace AsInv AsSteps AsThms Translate Access AsSeam AsGrow TransThms MmStep MmReach.

Section Copy.
Context {Os : Type} `{!HostOs Os} `{!HostOsOk Os}.
Implicit Types m : MS Os.
Local Open Scope exec_scope.

(** The byte at [a] is ordinary memory mapped for [need]. *)
Definition plain_byte m (need a : Z) : Prop :=
  exists v, look (regs m) a = Some v /\ r_hostmap v = 0 /\ Z.land (r_prot v) need = need.
Lemma plain_grows m m' need a : grows_only m m' -> plain_byte m need a -> plain_byte m' need a.
Proof. intros Hg (v & El & H). exists v. by rewrite (proj1 (Hg a v El)). Qed.
Lemma data_va_plain va need : 0 <= va < GUEST_TASK_SIZE -> data_va va need = va.
Proof.
  change GUEST_TASK_SIZE with (2 ^ 47). intros H. unfold data_va. assert (E : u64 va = va) by (unfold u64; apply Z.mod_small; lia).
  rewrite E. destruct (need =? PTE_X); [done|]. change A64_TBI_MASK with (Z.ones 56). rewrite Z.land_ones by lia. apply Z.mod_small. lia.
Qed.
(** A translation of ordinary memory. *)
Lemma plain_translate ng va need m : space_ok m -> need ∈ [PTE_R; PTE_W] -> 0 <= va < GUEST_TASK_SIZE -> plain_byte m need va ->
  env_nomem (ms_env m) = false ->
  exists v m', as_translate ng va need m = ((Some (r_host v), false), m') /\ look (regs m') va = Some v /\
    space_ok m' /\ grows_only m m' /\ env_nomem (ms_env m') = false.
Proof.
  intros Hs Hn Hva (v & El & Hm & Hp) He. exists v.
  assert (Hn3 : need ∈ [PTE_R; PTE_W; PTE_X]) by (repeat (apply elem_of_cons in Hn as [->|Hn]; [set_solver|]); by apply elem_of_nil in Hn).
  assert (Hf : fits 3 need) by (repeat (apply elem_of_cons in Hn as [->|Hn]; [done|]); by apply elem_of_nil in Hn).
  pose proof (translate_complete ng va need m v Hs Hn3 ltac:(by rewrite data_va_plain) Hm Hp He) as Hc.
  pose proof (translate_ok ng va need m Hs Hf) as Ht. pose proof (translate_env ng va need m) as Hv.
  destruct (as_translate ng va need m) as [r m']. cbn [fst snd] in *. rewrite Hc. destruct Ht as (T1 & T2 & _).
  exists m'. split; [done|]. split; [apply (T2 va v El)|]. split; [done|]. split; [done|]. by rewrite Hv.
Qed.
(** Neighbours in a page are neighbours in host memory. *)
Lemma page_neighbour m va v k : space_ok m -> look (regs m) va = Some v -> 0 <= k -> k < GUEST_PAGE_SIZE - va mod GUEST_PAGE_SIZE ->
  exists v', look (regs m) (va + k) = Some v' /\ r_host v' = r_host v + k.
Proof.
  intros Hs (r & Hr & Hc & ->)%look_some Hk Hl. pose proof (hi_regs _ (ai_heap m (sp_inv m Hs))) as Hok.
  assert (Ro : region_ok r) by (destruct Hok as [HF _]; rewrite list.Forall_forall in HF; by apply HF).
  pose proof (ro_end r Ro) as He. unfold aligned in He. change GUEST_PAGE_SIZE with 4096 in *.
  exists (slice (va + k) r). split; [|simpl; lia]. apply look_elem; [done|done|].
  pose proof (Z.div_mod (r_end r) 4096). pose proof (Z.div_mod va 4096). pose proof (Z.mod_pos_bound va 4096). lia.
Qed.

(** ** Reading *)
Lemma bytes_at_length n p m : length (bytes_at n p m) = n.
Proof. revert p. induction n as [|n IH]; intros p; simpl; [done|]. by rewrite IH. Qed.
Lemma bytes_at_nth n p m k : (k < n)%nat -> nth k (bytes_at n p m) 0 = ms_mem m (p + Z.of_nat k).
Proof.
  revert p k. induction n as [|n IH]; intros p [|k] Hk; simpl; try lia; [by rewrite Z.add_0_r|].
  rewrite IH by lia. f_equal. lia.
Qed.
Lemma chunk_range va len : 0 <= va -> 0 < len ->
  0 < chunk_of va len <= len /\ chunk_of va len <= GUEST_PAGE_SIZE - va mod GUEST_PAGE_SIZE /\
  (chunk_of va len = len \/ (va + chunk_of va len) mod GUEST_PAGE_SIZE = 0).
Proof.
  intros Hva Hl. unfold chunk_of. change GUEST_PAGE_MASK with (Z.ones 12). rewrite Z.land_ones by lia. change (2 ^ 12) with 4096.
  change GUEST_PAGE_SIZE with 4096. pose proof (Z.mod_pos_bound va 4096). pose proof (Z.div_mod va 4096).
  destruct (Z.ltb_spec len (4096 - va mod 4096)); [lia|]. split; [lia|]. split; [lia|right].
  replace (va + (4096 - va mod 4096)) with ((va / 4096 + 1) * 4096) by lia. by apply Z.mod_mul.
Qed.
(** The turns left: the pages the rest of the range touches. *)
Definition turns (va len : Z) : Z := if len =? 0 then 0 else (va mod GUEST_PAGE_SIZE + len + 4095) / GUEST_PAGE_SIZE.
Lemma turns_step va len : 0 <= va -> 0 < len -> let c := chunk_of va len in
  0 <= turns (va + c) (len - c) < turns va len.
Proof.
  intros Hva Hl. cbn zeta. destruct (chunk_range va len Hva Hl) as (C1 & C2 & C3). set (c := chunk_of va len) in *.
  unfold turns. change GUEST_PAGE_SIZE with 4096 in *. pose proof (Z.mod_pos_bound va 4096).
  rewrite (proj2 (Z.eqb_neq len 0)) by lia. assert (1 <= (va mod 4096 + len + 4095) / 4096) by (apply Z.div_le_lower_bound; lia).
  destruct (Z.eqb_spec (len - c) 0) as [E|E]; [lia|]. destruct C3 as [?|E3]; [lia|]. rewrite E3.
  assert (Ec : va mod 4096 + c = 4096).
  { pose proof (Z.div_mod va 4096). pose proof (Z.div_mod (va + c) 4096).
    assert ((va + c) / 4096 = va / 4096 + 1); [|lia]. wsolve. }
  replace (va mod 4096 + len + 4095) with (0 + (len - c) + 4095 + 1 * 4096) by lia. rewrite Z.div_add by lia.
  split; [apply Z.div_pos; lia|lia].
Qed.
Lemma turns_fuel va len : 0 <= va -> 0 <= len -> (Z.to_nat (turns va len) < copy_fuel len)%nat.
Proof.
  intros Hva Hl. unfold turns, copy_fuel, npages. change GUEST_PAGE_SIZE with 4096. change GUEST_PAGE_MASK with 4095.
  pose proof (Z.mod_pos_bound va 4096). destruct (Z.eqb_spec len 0); [lia|].
  assert ((va mod 4096 + len + 4095) / 4096 <= (len + 4095) / 4096 + 1); [|lia].
  replace ((len + 4095) / 4096 + 1) with ((len + 4095 + 1 * 4096) / 4096) by (by rewrite Z.div_add). apply Z.div_le_mono; lia.
Qed.

(** [len] bytes of the guest's from [va]. *)
Definition guest_has m (va : Z) (l : list Z) : Prop :=
  forall k, (k < length l)%nat -> guest_byte m (va + Z.of_nat k) = Some (nth k l 0).
Lemma guest_has_app m va l l' : guest_has m va l -> guest_has m (va + Z.of_nat (length l)) l' -> guest_has m va (l ++ l').
Proof.
  intros H1 H2 k Hk. rewrite length_app in Hk. destruct (decide (k < length l)%nat) as [Hlt|Hge].
  - rewrite app_nth1 by done. by apply H1.
  - rewrite app_nth2 by lia. replace (va + Z.of_nat k) with (va + Z.of_nat (length l) + Z.of_nat (k - length l)) by lia. apply H2. lia.
Qed.
Lemma guest_has_grows m m' va l : grows_only m m' -> guest_has m va l -> guest_has m' va l.
Proof.
  intros Hg H k Hk. specialize (H k Hk). unfold guest_byte in H. destruct (look (regs m) (va + Z.of_nat k)) as [v|] eqn:E; [|done].
  rewrite (proj2 (Hg _ v E)). unfold guest_byte. by rewrite E.
Qed.
Lemma chunk_read m va v n : space_ok m -> look (regs m) va = Some v -> Z.of_nat n <= GUEST_PAGE_SIZE - va mod GUEST_PAGE_SIZE ->
  guest_has m va (bytes_at n (r_host v) m).
Proof.
  intros Hs El Hn k Hk. rewrite bytes_at_length in Hk. rewrite bytes_at_nth by done.
  destruct (page_neighbour m va v (Z.of_nat k) Hs El ltac:(lia) ltac:(lia)) as (v' & El' & Eh).
  unfold guest_byte. rewrite El'. simpl. by rewrite Eh.
Qed.
Lemma copy_from_walk f va len (s : St (MS Os)) : space_ok (s_mem s) -> 0 <= va -> 0 <= len -> va + len <= GUEST_TASK_SIZE ->
  (forall k, 0 <= k < len -> plain_byte (s_mem s) PTE_R (va + k)) -> env_nomem (ms_env (s_mem s)) = false ->
  (Z.to_nat (turns va len) < f)%nat ->
  exists l m', copy_from_guest_walk f va len s = Ok (Some l) (upd_mem (fun _ => m') s) /\
    Z.of_nat (length l) = len /\ guest_has m' va l /\ space_ok m' /\ grows_only (s_mem s) m'.
Proof.
  revert va len s. induction f as [|f IH]; intros va len s Hs Hva Hl Hr Hp He Hf; [lia|]. cbn [copy_from_guest_walk].
  destruct (Z.eqb_spec len 0) as [->|Hne].
  { exists [], (s_mem s). split; [by destruct s|]. split; [done|]. split; [intros k Hk; simpl in Hk; lia|]. split; [done|by apply grows_view]. }
  destruct (chunk_range va len Hva ltac:(lia)) as (C1 & C2 & _). pose proof (turns_step va len Hva ltac:(lia)) as Ht. cbn zeta in Ht.
  set (c := chunk_of va len) in *. pose proof (Hp 0 ltac:(lia)) as Hp0. rewrite Z.add_0_r in Hp0.
  destruct (plain_translate (t_nogrow (s_tls s)) va PTE_R (s_mem s) Hs ltac:(set_solver) ltac:(lia) Hp0 He) as (v & m1 & E1 & E2 & E3 & E4 & E5).
  unfold bind at 1, translateM at 1. cbn [translate as_seam]. rewrite E1. cbn [fst]. unfold bind at 1, gets at 1. cbn [s_mem upd_mem].
  set (s1 := upd_mem (fun _ => m1) s). set (b := bytes_at (Z.to_nat c) (r_host v) m1).
  assert (Eu : u64 (va + c) = va + c) by (unfold u64; apply Z.mod_small; change GUEST_TASK_SIZE with (2 ^ 47) in Hr; lia).
  rewrite Eu. destruct (IH (va + c) (len - c) s1) as (l & m2 & F1 & F2 & F3 & F4 & F5); try done; [lia|lia|lia| |lia|].
  { intros k Hk. apply (plain_grows (s_mem s)); [done|]. replace (va + c + k) with (va + (c + k)) by lia. apply Hp. lia. }
  unfold bind at 1. rewrite F1. cbn [ret]. assert (Hb : guest_has m1 va b) by (apply chunk_read; [done|done|lia]).
  assert (Hbl : Z.of_nat (length b) = c) by (unfold b; rewrite bytes_at_length; lia).
  exists (b ++ l), m2. split; [by destruct s|]. split; [rewrite length_app; lia|]. split; [|split; [done|by apply (grows_trans _ m1)]].
  apply guest_has_app; [by apply (guest_has_grows m1)|]. by rewrite Hbl.
Qed.

(** ** Writing *)
Lemma put_bytes_mem l p m : let m' := put_bytes l p m in
  ms_as m' = ms_as m /\ ms_me m' = ms_me m /\ ms_gen m' = ms_gen m /\ ms_env m' = ms_env m /\
  forall a, ms_mem m' a = if (p <=? a) && (a <? p + Z.of_nat (length l)) then nth (Z.to_nat (a - p)) l 0 else ms_mem m a.
Proof.
  revert p m. induction l as [|b l IH]; intros p m; cbn zeta; cbn [put_bytes].
  - repeat (split; [done|]). intros a. destruct (Z.leb_spec p a), (Z.ltb_spec a (p + Z.of_nat (length (@nil Z)))); try done. simpl in *. lia.
  - destruct (IH (p + 1) (host_put p b m)) as (I1 & I2 & I3 & I4 & I5). repeat (split; [done|]). intros a. rewrite I5.
    rewrite length_cons. replace (Z.of_nat (S (length l))) with (1 + Z.of_nat (length l)) by lia.
    generalize (Z.of_nat (length l)) (Nat2Z.is_nonneg (length l)). intros n Hn. cbn [host_put as_seam ms_mem upd_ms_mem]. destruct (Z.eqb_spec a p) as [->|Hne].
    + replace ((p + 1 <=? p) && (p <? p + 1 + n)) with false by lia.
      rewrite (proj2 (Z.leb_le p p)), (proj2 (Z.ltb_lt p (p + (1 + n)))) by lia. by rewrite Z.sub_diag.
    + replace ((p <=? a) && (a <? p + (1 + n))) with ((p + 1 <=? a) && (a <? p + 1 + n)) by lia.
      destruct (_ && _) eqn:E; [|done]. destruct (Z.to_nat (a - p)) as [|k] eqn:Ek; [lia|]. cbn [nth]. f_equal. lia.
Qed.
Lemma put_bytes_core l va v m : core_ok m -> (forall k, (k < length l)%nat -> exists v', look (regs m) (va + Z.of_nat k) = Some v' /\ r_host v' = r_host v + Z.of_nat k) ->
  forall p, p = r_host v -> core_ok (put_bytes l p m).
Proof.
  intros Hc Hh p ->. assert (Hgen : forall j n, core_ok n -> regs n = regs m -> (j + length (drop j l) = length l)%nat ->
    core_ok (put_bytes (drop j l) (r_host v + Z.of_nat j) n)).
  { intros j n. remember (length l - j)%nat as d. revert j n Heqd. induction d as [|d IH]; intros j n Hd Hn Er Hj.
    - rewrite drop_ge by lia. done.
    - destruct (drop j l) as [|b l'] eqn:Ed; [done|]. cbn [put_bytes].
      assert (El' : l' = drop (S j) l) by (rewrite <- Nat.add_1_r, <- drop_drop, Ed; done).
      destruct (Hh j ltac:(lia)) as (v' & Ev & Ehv). rewrite <- Er in Ev. pose proof (put_core _ v' b n Hn Ev) as Hput.
      rewrite Ehv in Hput. replace (r_host v + Z.of_nat j + 1) with (r_host v + Z.of_nat (S j)) by lia. rewrite El'.
      apply IH; [lia|exact Hput|exact Er|]. rewrite length_drop. lia. }
  specialize (Hgen 0%nat m Hc eq_refl). cbn [drop] in Hgen. rewrite Z.add_0_r in Hgen. by apply Hgen.
Qed.
(** The bytes of a chunk are there, every other byte of the guest as it was. *)
Lemma chunk_written l va v m : space_ok m -> look (regs m) va = Some v ->
  Z.of_nat (length l) <= GUEST_PAGE_SIZE - va mod GUEST_PAGE_SIZE ->
  let m' := put_bytes l (r_host v) m in
  space_ok m' /\ guest_has m' va l /\ (forall a, look (regs m') a = look (regs m) a) /\
  (forall a, ~ va <= a < va + Z.of_nat (length l) -> guest_byte m' a = guest_byte m a) /\ ms_env m' = ms_env m.
Proof.
  intros Hs El Hl. cbn zeta. destruct (put_bytes_mem l (r_host v) m) as (P1 & P2 & P3 & P4 & P5). set (m' := put_bytes l (r_host v) m) in *.
  assert (Hh : forall k, (k < length l)%nat -> exists v', look (regs m) (va + Z.of_nat k) = Some v' /\ r_host v' = r_host v + Z.of_nat k).
  { intros k Hk. apply page_neighbour; [done|done|lia|lia]. }
  assert (Er : regs m' = regs m) by (unfold regs; by rewrite P1).
  split; [|split; [|split; [|split]]].
  - split; [by apply (put_bytes_core l va v m); [apply Hs| |]|]. unfold coherent, pt. rewrite P1, P2, P3. apply Hs.
  - intros k Hk. destruct (Hh k Hk) as (v' & Ev & Ehv). unfold guest_byte. rewrite Er, Ev. simpl. rewrite P5, Ehv.
    replace ((r_host v <=? r_host v + Z.of_nat k) && (r_host v + Z.of_nat k <? r_host v + Z.of_nat (length l))) with true by lia.
    do 2 f_equal. lia.
  - intros a. by rewrite Er.
  - intros a Ha. unfold guest_byte. rewrite Er. destruct (look (regs m) a) as [w|] eqn:Ew; [|done]. simpl. f_equal. rewrite P5.
    destruct (_ && _) eqn:Eb; [|done]. exfalso. apply andb_true_iff in Eb as [B1 B2].
    destruct (Hh (Z.to_nat (r_host w - r_host v)) ltac:(lia)) as (v' & Ev & Ehv).
    assert (a = va + Z.of_nat (Z.to_nat (r_host w - r_host v))); [|lia].
    apply (ai_inj m (sp_inv m Hs) _ _ w v'); [done|done|lia].
  - done.
Qed.
(** Every mapping is kept, and every byte mapped outside the range. *)
Definition kept_but m m' (lo hi : Z) : Prop := forall a v, look (regs m) a = Some v ->
  look (regs m') a = Some v /\ (~ lo <= a < hi -> guest_byte m' a = guest_byte m a).
Lemma kept_but_trans m1 m2 m3 lo mid hi : kept_but m1 m2 lo mid -> kept_but m2 m3 mid hi -> lo <= mid <= hi -> kept_but m1 m3 lo hi.
Proof.
  intros H1 H2 Hm a v El. destruct (H1 a v El) as [E1 B1]. destruct (H2 a v E1) as [E2 B2]. split; [done|]. intros Ha.
  rewrite B2 by lia. apply B1. lia.
Qed.
Lemma copy_to_walk f va src (s : St (MS Os)) : space_ok (s_mem s) -> 0 <= va -> va + Z.of_nat (length src) <= GUEST_TASK_SIZE ->
  (forall k, 0 <= k < Z.of_nat (length src) -> plain_byte (s_mem s) PTE_W (va + k)) -> env_nomem (ms_env (s_mem s)) = false ->
  (Z.to_nat (turns va (Z.of_nat (length src))) < f)%nat ->
  exists m', copy_to_guest_walk f va src s = Ok 0 (upd_mem (fun _ => m') s) /\ space_ok m' /\ guest_has m' va src /\
    kept_but (s_mem s) m' va (va + Z.of_nat (length src)) /\ env_nomem (ms_env m') = false.
Proof.
  revert va src s. induction f as [|f IH]; intros va src s Hs Hva Hr Hp He Hf; [lia|]. cbn [copy_to_guest_walk].
  set (len := Z.of_nat (length src)) in *. assert (Hl : 0 <= len) by (unfold len; lia). destruct (Z.eqb_spec len 0) as [E0|Hne].
  { exists (s_mem s). split; [by destruct s|]. split; [done|]. split; [intros k Hk; unfold len in E0; lia|]. split; [|done]. intros a v El. done. }
  destruct (chunk_range va len Hva ltac:(lia)) as (C1 & C2 & _). pose proof (turns_step va len Hva ltac:(lia)) as Ht. cbn zeta in Ht.
  set (c := chunk_of va len) in *. pose proof (Hp 0 ltac:(lia)) as Hp0. rewrite Z.add_0_r in Hp0.
  destruct (plain_translate (t_nogrow (s_tls s)) va PTE_W (s_mem s) Hs ltac:(set_solver) ltac:(lia) Hp0 He) as (v & m1 & E1 & E2 & E3 & E4 & E5).
  unfold bind at 1, translateM at 1. cbn [translate as_seam]. rewrite E1. cbn [fst]. unfold seq, bind at 1, modify at 1. cbn [s_mem upd_mem].
  set (b := take (Z.to_nat c) src). assert (Hbl : Z.of_nat (length b) = c) by (unfold b, len in *; rewrite length_take; lia).
  destruct (chunk_written b va v m1 E3 E2 ltac:(lia)) as (W1 & W2 & W3 & W4 & W5). set (m2 := put_bytes b (r_host v) m1) in *.
  assert (K2 : kept_but (s_mem s) m2 va (va + c)).
  { intros a w El. destruct (E4 a w El) as [L1 L2]. split; [by rewrite W3|]. intros Ha. rewrite W4 by lia. done. }
  assert (Hdl : Z.of_nat (length (drop (Z.to_nat c) src)) = len - c) by (rewrite length_drop; unfold len in *; lia).
  assert (Eu : u64 (va + c) = va + c) by (unfold u64; apply Z.mod_small; change GUEST_TASK_SIZE with (2 ^ 47) in Hr; lia).
  rewrite Eu. set (s2 := upd_mem (put_bytes b (r_host v)) (upd_mem (fun _ => m1) s)).
  destruct (IH (va + c) (drop (Z.to_nat c) src) s2) as (m3 & F1 & F2 & F3 & F4 & F5); try done; try lia.
  - rewrite Hdl. intros k Hk. destruct (Hp (c + k) ltac:(lia)) as (w & El & Hw). exists w. replace (va + c + k) with (va + (c + k)) by lia.
    split; [apply (K2 _ w El)|done].
  - change (s_mem s2) with m2. by rewrite W5.
  - rewrite Hdl. lia.
  - rewrite F1. exists m3. split; [by destruct s|]. split; [done|]. rewrite Hdl in F4. split; [|split; [|done]].
    + rewrite <- (take_drop (Z.to_nat c) src). apply guest_has_app; [|fold b; by rewrite Hbl].
      intros k Hk. specialize (W2 k Hk). unfold guest_byte in W2. destruct (look (regs m2) (va + Z.of_nat k)) as [w|] eqn:Ew; [|done].
      assert (Z.of_nat k < c) by (rewrite <- Hbl; fold b in Hk; lia).
      rewrite (proj2 (F4 _ w Ew)) by lia. change (s_mem s2) with m2. unfold guest_byte. rewrite Ew. exact W2.
    + apply (kept_but_trans _ m2 _ _ (va + c)); [done| |lia]. by replace (va + len) with (va + c + (len - c)) by lia.
Qed.
Lemma tag_plain va (t : Tls) : 0 <= va < GUEST_TASK_SIZE -> uaddr_tag_refused va t = false.
Proof.
  change GUEST_TASK_SIZE with (2 ^ 47). intros H. unfold uaddr_tag_refused. rewrite Z.shiftr_div_pow2 by lia. rewrite Z.div_small by lia. done.
Qed.
Lemma copy_from_ok va len (s : St (MS Os)) : space_ok (s_mem s) -> 0 <= va -> 0 <= len -> va + len <= GUEST_TASK_SIZE ->
  (forall k, 0 <= k < len -> plain_byte (s_mem s) PTE_R (va + k)) -> env_nomem (ms_env (s_mem s)) = false ->
  exists l m', copy_from_guest va len s = Ok (Some l) (upd_mem (fun _ => m') s) /\
    Z.of_nat (length l) = len /\ guest_has m' va l /\ space_ok m' /\ grows_only (s_mem s) m'.
Proof.
  intros Hs Hva Hl Hr Hp He. unfold copy_from_guest. destruct (Z.eqb_spec len 0) as [E|E]; cbn [negb andb].
  - apply copy_from_walk; try done. by apply turns_fuel.
  - rewrite tag_plain by lia. apply copy_from_walk; try done. by apply turns_fuel.
Qed.
Lemma copy_to_ok va src (s : St (MS Os)) : space_ok (s_mem s) -> 0 <= va -> va + Z.of_nat (length src) <= GUEST_TASK_SIZE ->
  (forall k, 0 <= k < Z.of_nat (length src) -> plain_byte (s_mem s) PTE_W (va + k)) -> env_nomem (ms_env (s_mem s)) = false ->
  exists m', copy_to_guest va src s = Ok 0 (upd_mem (fun _ => m') s) /\ space_ok m' /\ guest_has m' va src /\
    kept_but (s_mem s) m' va (va + Z.of_nat (length src)) /\ env_nomem (ms_env m') = false.
Proof.
  intros Hs Hva Hr Hp He. unfold copy_to_guest. pose proof (Nat2Z.is_nonneg (length src)) as Hl.
  destruct (Z.eqb_spec (Z.of_nat (length src)) 0) as [E|E]; cbn [negb andb].
  - apply copy_to_walk; try done. by apply turns_fuel.
  - rewrite tag_plain by lia. apply copy_to_walk; try done. by apply turns_fuel.
Qed.
End Copy.
