(* ===== verification/SysMm.v ===== *)
(** * SysMm: the memory system calls

    sys_mm.c: brk, mmap, munmap, mprotect, madvise, mremap, msync, mincore and
    the mlock family, over the address space of mem.c. Each runs under the
    address-space lock and is one step. An answer is the 64-bit word the guest
    gets back in x0: [errno e] is [(u64)(s64)-e]. What the calls ask of the
    host beyond [HostOs], and of the memfd registry and the /proc table, is the
    class [MmHost]; the limits they need beside those of [Env] and the calling
    thread's READ_IMPLIES_EXEC are [MmLim]. *)

From stdpp Require Import gmap.
From Stdlib Require Import String.
From S2P Require Import Prelude Types Cpu MemSeam PageTable Regions Epoch AsState AddrSpace Translate Access.

Definition EPERM : Z := 1.
Definition EBADF : Z := 9.
Definition EAGAIN : Z := 11.
Definition EBUSY : Z := 16.
Definition EEXIST : Z := 17.
Definition ENODEV : Z := 19.
Definition errno (e : Z) : Z := u64 (- e).
(** [r < 0 ? (u64)(s64)r : v]. *)
Definition rc_or (r v : Z) : Z := if r <? 0 then u64 r else v.

Definition PG_DOWN (x : Z) : Z := Z.land x (not64 GUEST_PAGE_MASK).
Definition a64_untag (va : Z) : Z := u64 (Z.shiftr (s64 (Z.shiftl va 8)) 8).

Definition PROT_READ : Z := 1.
Definition PROT_WRITE : Z := 2.
Definition PROT_EXEC : Z := 4.
Definition G_PROT_SEM : Z := 0x8.
Definition G_PROT_GROWSDOWN : Z := 0x01000000.
Definition G_PROT_GROWSUP : Z := 0x02000000.
Definition G_MAP_SHARED : Z := 0x01.
Definition G_MAP_PRIVATE : Z := 0x02.
Definition G_MAP_SHARED_VALIDATE : Z := 0x03.
Definition G_MAP_TYPE : Z := 0x0f.
Definition G_MAP_FIXED : Z := 0x10.
Definition G_MAP_ANONYMOUS : Z := 0x20.
Definition G_MAP_FIXED_NOREPLACE : Z := 0x100000.
Definition G_MAP_GROWSDOWN : Z := 0x0100.
Definition G_MAP_LOCKED : Z := 0x2000.
Definition GROWS_ROOM_MAX : Z := Z.shiftl 64 20.
Definition G_F_SEAL_WRITE : Z := 0x8.
Definition G_F_SEAL_FUTURE_WRITE : Z := 0x10.

(** RLIMIT_DATA, soft and hard, and the caller's READ_IMPLIES_EXEC. *)
Record MmLim := mkLim { ml_data : Z; ml_data_max : Z; ml_rie : bool }.

(** A new anonymous descriptor of the emulator's own ([anon_memfd]), its
    ftruncate, whether a descriptor is a directory or a pipe; a memfd of the
    registry (seals, device, inode, name), whether the host kernel has sealed
    a native one, whether old kernels' refusal is forced, what a descriptor's
    /proc link says; the host's madvise(MADV_REMOVE), the errno of a refused
    mprotect, the bytes a private file
    page has after MADV_DONTNEED, and msync. An error is an errno. *)
Class MmHost (Os : Type) := {
  anon_memfd : Os -> (Z + Z) * Os;
  os_ftruncate : Os -> Z -> Z -> Z * Os;
  os_isdirfifo : Os -> Z -> bool;
  mfd_resolve : Os -> Z -> option (Z * Z * Z * string);
  mfd_kernel_write_sealed : Os -> Z -> bool;
  mfd_seal_map_force_old : Os -> bool;
  memfd_link : Os -> Z -> option string;
  os_madv_remove : Os -> Z -> Z -> Z * Os;
  os_mprotect_errno : Os -> Z;
  os_refault : Os -> Z -> Z;
  os_msync : Os -> Z -> Z -> Z * Os
}.

Section SysMm.
Context {Os : Type} `{!HostOs Os} `{!MmHost Os}.
Implicit Types s : MS Os.

Definition prot_g2pte (prot : Z) : Z :=
  Z.lor (Z.lor (if has prot PROT_READ then PTE_R else 0) (if has prot PROT_WRITE then PTE_W else 0))
        (if has prot PROT_EXEC then PTE_X else 0).
Definition prot_rie (l : MmLim) (prot : Z) : Z := if has prot PROT_READ && ml_rie l then PTE_X else 0.

(** ** Limits *)
Definition as_fits (add : Z) s : bool :=
  let cap := env_as (ms_env s) in
  if cap =? RLIM_INFINITY then true
  else if cap <? add then false
  else as_mapped_bytes (regs s) <=? cap - add.
Definition data_fits (l : MmLim) (add : Z) s : bool :=
  if ml_data l =? RLIM_INFINITY then true
  else
    let cap := if ml_data l =? 0 then ml_data_max l else ml_data l in
    if cap =? RLIM_INFINITY then true
    else if cap <? add then false
    else as_data_bytes (regs s) <=? cap - add.

(** [range_unmapped_bytes], from [va]: a turn passes a region or the gap in
    front of one. *)
Fixpoint unmapped_loop (fuel : nat) (va e free : Z) s : Z :=
  match fuel with
  | O => free
  | S f =>
      if va <? e then
        match as_find_region (regs s) va with
        | Some r => unmapped_loop f (r_end r) e free s
        | None =>
            let stop := match as_next_region (regs s) va with
                        | Some nx => if r_start nx <? e then r_start nx else e
                        | None => e
                        end in
            unmapped_loop f stop e (free + (stop - va)) s
        end
      else free
  end.
Definition range_unmapped_bytes (addr len : Z) s : Z :=
  unmapped_loop (2 * S (length (regs s))) addr (addr + len) 0 s.

(** ** brk: [false] is every "return as->brk" of the growing branch *)
Definition brk_grow (l : MmLim) (old_end new_end : Z) s : bool * MS Os :=
  let n := new_end - old_end in
  if negb (pages_unmapped (npages n) old_end s) then (false, s)
  else if negb (ml_data l =? RLIM_INFINITY) && (ml_data l <? u64 (new_end - as_brk_start (ms_as s))) then (false, s)
  else if negb (as_fits n s) then (false, s)
  else if negb (data_fits l n s) then (false, s)
  else if negb (as_mlock_future_ok (as_def_lock (ms_as s)) n s) then (false, s)
  else
    let '(rc, s) := guest_map_anon old_end n (Z.lor (Z.lor PTE_R PTE_W) (prot_rie l PROT_READ)) s in
    if rc <? 0 then (false, s)
    else (true, if tr (as_def_lock (ms_as s)) then as_lock_new old_end n (as_def_lock (ms_as s)) s else s).
Definition brk_locked (l : MmLim) (a0 : Z) s : Z * MS Os :=
  let brk := as_brk (ms_as s) in
  if (a0 =? 0) || (a0 <? as_brk_start (ms_as s)) then (brk, s)
  else if GUEST_TASK_SIZE <=? a0 then (brk, s)
  else
    let old_end := PG_UP brk in
    let new_end := PG_UP a0 in
    let '(ok, s) :=
      if old_end <? new_end then brk_grow l old_end new_end s
      else if new_end <? old_end then (true, snd (guest_unmap new_end (old_end - new_end) s))
      else (true, s) in
    if ok then (a0, upd_ms_as (upd_as_brk (fun _ => a0)) s) else (brk, s).

(** ** mmap *)

(** Where it goes: an error, or the address. *)
Definition mmap_hint (addr len : Z) s : Z :=
  let hint := PG_DOWN addr in
  let hint := if negb (hint =? 0) && (hint <? env_min_addr (ms_env s)) then env_min_addr (ms_env s) else hint in
  if negb (hint =? 0) && (hint <=? GUEST_TASK_SIZE - len) &&
     negb (existsb (fun r => (as_gap_start r <? hint + len) && (hint <? r_end r)) (regs s))
  then hint else 0.
Definition mmap_stack_place (len : Z) s : Z * MS Os :=
  let stk := env_stack (ms_env s) in
  let room := if stk <? GROWS_ROOM_MAX then PG_UP stk else GROWS_ROOM_MAX in
  let room := (if len <? room then room - len else 0) + STACK_GUARD_GAP in
  if len <=? GUEST_TASK_SIZE - room then
    let '(a, s) := as_find_free (len + room) s in (if a =? 0 then 0 else a + room, s)
  else (0, s).
Definition mmap_place (addr len flags : Z) s : (Z + Z) * MS Os :=
  if has flags (Z.lor G_MAP_FIXED G_MAP_FIXED_NOREPLACE) then
    if misaligned addr then (inl EINVAL, s)
    else if GUEST_TASK_SIZE - len <? addr then (inl ENOMEM, s)
    else if addr <? env_min_addr (ms_env s) then (inl EPERM, s)
    else if has flags G_MAP_FIXED_NOREPLACE && negb (pages_unmapped (npages len) addr s) then (inl EEXIST, s)
    else (inr addr, s)
  else
    let a := mmap_hint addr len s in
    let '(a, s) := if (a =? 0) && has flags G_MAP_GROWSDOWN then mmap_stack_place len s else (a, s) in
    let '(a, s) := if a =? 0 then as_find_free len s else (a, s) in
    if a =? 0 then (inl ENOMEM, s) else (inr a, s).

(** The refusals once the address is chosen; 0 when there is none. *)
Definition mmap_growsdown_err (mtype prot flags fd procfs_err : Z) s : Z :=
  if has flags G_MAP_GROWSDOWN then
    if negb (has flags G_MAP_ANONYMOUS) then
      if negb (procfs_err =? 0) then procfs_err
      else match os_getfl (ms_os s) fd, os_fstat (ms_os s) fd with
           | Some fl, Some _ =>
               if negb (mtype =? G_MAP_PRIVATE) && has prot PROT_WRITE && (Z.land fl O_ACCMODE =? 0) then EACCES
               else if Z.land fl O_ACCMODE =? 1 then EACCES
               else if os_isdirfifo (ms_os s) fd then ENODEV
               else EINVAL
           | _, _ => EBADF
           end
    else if mtype =? G_MAP_SHARED then EINVAL else 0
  else 0.
Definition mmap_lock (flags : Z) s : Z :=
  Z.lor (if has flags G_MAP_LOCKED then RL_LOCKED else 0) (as_def_lock (ms_as s)).
Definition mmap_judge (l : MmLim) (addr len pte prot flags fd procfs_err : Z) s : Z :=
  let mtype := Z.land flags G_MAP_TYPE in
  if has flags G_MAP_LOCKED && (env_memlock (ms_env s) =? 0) && negb (env_ipc_lock (ms_env s)) then EPERM
  else if negb (as_mlock_future_ok (mmap_lock flags s) len s) then EAGAIN
  else if negb (mtype =? G_MAP_SHARED) && negb (mtype =? G_MAP_PRIVATE) &&
          negb ((mtype =? G_MAP_SHARED_VALIDATE) && negb (has flags G_MAP_ANONYMOUS)) then EINVAL
  else
    let e := mmap_growsdown_err mtype prot flags fd procfs_err s in
    if negb (e =? 0) then e
    else
      let add := range_unmapped_bytes addr len s in
      if negb (as_fits add s) then ENOMEM
      else if has pte PTE_W && negb (has flags (Z.lor G_MAP_SHARED G_MAP_GROWSDOWN)) && negb (data_fits l add s)
      then ENOMEM else 0.

(** Writes through the pointer [as_find_region] gave. *)
Definition r_with_anon_shm (n : Z) (r : Region) : Region :=
  mkRegion (r_start r) (r_end r) (r_prot r) (r_shared r) (r_file r) (r_wr_ok r) (r_host r) (r_hmap r) (r_path r)
    (r_file_off r) (r_dev r) (r_ino r) (r_hostmap r) 1 n (r_mfdcnt r) (r_forkflags r) (r_growsdown r)
    (r_stack_id r) (r_lock r) (r_special r) (r_shm_lock r).
Definition r_with_share (sh wr : Z) (r : Region) : Region :=
  mkRegion (r_start r) (r_end r) (r_prot r) sh (r_file r) wr (r_host r) (r_hmap r) (r_path r)
    (r_file_off r) (r_dev r) (r_ino r) (r_hostmap r) (r_anon_shm r) (r_shm_size r) (r_mfdcnt r) (r_forkflags r)
    (r_growsdown r) (r_stack_id r) (r_lock r) (r_special r) (r_shm_lock r).
Definition at_region (f : Region -> Region) (va : Z) s : MS Os := set_regs (fun rs => upd_region f rs va) s.
Definition name_region (p : string) (r : Region) : Region :=
  match r_path r with None => r_with_path (Some p) r | Some _ => r end.

(** MAP_SHARED | MAP_ANONYMOUS: a memfd of the emulator's own. *)
Definition mmap_shared_anon (addr len pte : Z) s : Z * MS Os :=
  match anon_memfd (ms_os s) with
  | (inl e, o) => (- e, upd_ms_os (fun _ => o) s)
  | (inr fd, o) =>
      let ps := if os_pagesz <? 4096 then 4096 else os_pagesz in
      let back := Z.land (u64 (len + ps - 1)) (not64 (ps - 1)) in
      let '(e, o) := os_ftruncate o fd back in
      let s := upd_ms_os (fun _ => o) s in
      if negb (e =? 0) then (- e, s)
      else
        let '(r, s) := guest_map_file addr len pte fd 0 true None s in
        (r, if r =? 0 then at_region (r_with_anon_shm len) addr s else s)
  end.
(** A file: the registry's memfds, a native memfd sealed against writing on
    an old host, and names for the memfds of either kind. *)
Definition mmap_sealed_retry (addr len pte fd off : Z) (shared is_mfd : bool) s : Z * MS Os :=
  let seal_ro := shared && negb is_mfd && negb (has pte PTE_W) in
  let forced := seal_ro && mfd_seal_map_force_old (ms_os s) && mfd_kernel_write_sealed (ms_os s) fd in
  let '(r, s) := if forced then (- EPERM, s) else guest_map_file addr len pte fd off shared None s in
  if (r =? - EPERM) && seal_ro && (forced || mfd_kernel_write_sealed (ms_os s) fd) then
    let '(r, s) := guest_map_file addr len pte fd off false None s in
    (r, if r =? 0 then at_region (r_with_share 1 0) addr s else s)
  else (r, s).
Definition mfd_settle (addr seals dev ino : Z) (name : string) (shared fdwr : bool) s : MS Os :=
  let sealed := has seals (Z.lor G_F_SEAL_WRITE G_F_SEAL_FUTURE_WRITE) in
  match as_find_region (regs s) addr with
  | None => s
  | Some reg =>
      let s := if shared && sealed then at_region (fun r => r_with_share (r_shared r) 0 r) addr s else s in
      let s := at_region (name_region ("/memfd:" ++ name ++ " (deleted)")) addr s in
      if shared && fdwr && negb sealed
      then mapadj dev ino 1 (at_region (r_with_mfdcnt 1) addr s) else s
  end.
Definition mmap_file (addr len pte flags fd off procfs_err : Z) s : Z * MS Os :=
  let shared := has flags G_MAP_SHARED in
  if misaligned off then (- EINVAL, s)
  else if negb (procfs_err =? 0) then (- procfs_err, s)
  else
    match mfd_resolve (ms_os s) fd with
    | Some (seals, dev, ino, name) =>
        let fdwr := match os_getfl (ms_os s) fd with
                    | Some fl => negb (Z.land fl O_ACCMODE =? 0)
                    | None => false
                    end in
        if shared && has seals (Z.lor G_F_SEAL_WRITE G_F_SEAL_FUTURE_WRITE) && has pte PTE_W then (- EPERM, s)
        else
          let '(r, s) := mmap_sealed_retry addr len pte fd off shared true s in
          (r, if r =? 0 then mfd_settle addr seals dev ino name shared fdwr s else s)
    | None =>
        let '(r, s) := mmap_sealed_retry addr len pte fd off shared false s in
        (r, if r =? 0
            then match memfd_link (ms_os s) fd with
                 | Some tgt => at_region (name_region tgt) addr s
                 | None => s
                 end
            else s)
    end.
Definition mmap_make (addr len pte flags fd off procfs_err : Z) s : Z * MS Os :=
  if has flags G_MAP_ANONYMOUS then
    if has flags G_MAP_SHARED then mmap_shared_anon addr len pte s
    else if has flags G_MAP_GROWSDOWN then guest_map_stack addr len pte s
    else guest_map_anon addr len pte s
  else mmap_file addr len pte flags fd off procfs_err s.
Definition mmap_locked (l : MmLim) (a0 a1 a2 a3 a4 a5 procfs_err : Z) s : Z * MS Os :=
  let prot := s32 a2 in let flags := s32 a3 in let fd := s32 a4 in
  if a1 =? 0 then (errno EINVAL, s)
  else
    let len := PG_UP a1 in
    if len =? 0 then (errno ENOMEM, s)
    else if GUEST_TASK_SIZE <? len then (errno ENOMEM, s)
    else
      let pte := Z.lor (prot_g2pte prot) (prot_rie l prot) in
      match mmap_place a0 len flags s with
      | (inl e, s) => (errno e, s)
      | (inr addr, s) =>
          let lock := mmap_lock flags s in
          let e := mmap_judge l addr len pte prot flags fd procfs_err s in
          if negb (e =? 0) then (errno e, s)
          else
            let '(r, s) := mmap_make addr len pte flags fd a5 procfs_err s in
            if r <? 0 then (u64 r, s)
            else (addr, if tr lock then as_lock_new addr len lock s else s)
      end.

(** ** munmap, mprotect *)
Definition sys_munmap (a0 a1 : Z) s : Z * MS Os :=
  let a0 := a64_untag a0 in
  if misaligned a0 then (errno EINVAL, s)
  else let '(r, s) := guest_unmap a0 (PG_UP a1) s in (rc_or r 0, s).

(** PROT_GROWSDOWN and PROT_GROWSUP: an error, or the start to protect from.
    The index of the region found, [first - as->regions], is that of the
    region its start is in. *)
Definition mprotect_start (grows start e : Z) s : Z + Z :=
  if grows =? 0 then inr start
  else match as_next_region (regs s) start with
       | None => inl ENOMEM
       | Some first =>
           if e <=? r_start first then inl ENOMEM
           else if has grows G_PROT_GROWSUP then inl (if start <? r_start first then ENOMEM else EINVAL)
           else if negb (tr (r_growsdown first)) then inl EINVAL
           else match find_index (regs s) 0 (r_start first) with
                | Some i => inr (as_vma_start (regs s) i)
                | None => inr start
                end
       end.
Definition sys_mprotect (l : MmLim) (a0 a1 a2 : Z) s : Z * MS Os :=
  let a0 := a64_untag a0 in
  let both := Z.lor G_PROT_GROWSDOWN G_PROT_GROWSUP in
  let grows := Z.land a2 both in
  let prot := Z.land a2 (not64 grows) in
  if grows =? both then (errno EINVAL, s)
  else if misaligned a0 then (errno EINVAL, s)
  else if a1 =? 0 then (0, s)
  else
    let len := PG_UP a1 in
    let e := u64 (a0 + len) in
    if (len =? 0) || (e <=? a0) then (errno ENOMEM, s)
    else if negb (Z.land prot (not64 (Z.lor (Z.lor PROT_READ PROT_WRITE) (Z.lor PROT_EXEC G_PROT_SEM))) =? 0)
    then (errno EINVAL, s)
    else
      let pte := Z.lor (prot_g2pte (s32 prot)) (prot_rie l (s32 prot)) in
      match mprotect_start grows a0 e s with
      | inl err => (errno err, s)
      | inr start => let '(r, s) := guest_protect start (e - start) pte s in (rc_or r 0, s)
      end.

(** ** madvise *)
Definition G_MADV_NORMAL : Z := 0.
Definition G_MADV_DONTNEED : Z := 4.
Definition G_MADV_FREE : Z := 8.
Definition G_MADV_REMOVE : Z := 9.
Definition G_MADV_DONTFORK : Z := 10.
Definition G_MADV_DOFORK : Z := 11.
Definition G_MADV_WIPEONFORK : Z := 18.
Definition G_MADV_KEEPONFORK : Z := 19.
Definition G_MADV_COLD : Z := 20.
Definition G_MADV_PAGEOUT : Z := 21.
Definition G_MADV_POPULATE_READ : Z := 22.
Definition G_MADV_POPULATE_WRITE : Z := 23.
Definition G_MADV_DONTNEED_LOCKED : Z := 24.
Definition G_MADV_COLLAPSE : Z := 25.
(** 0 to 4 and 8 to 25 are the advice values of the switch. *)
Definition madv_valid (adv : Z) : bool :=
  (G_MADV_NORMAL <=? adv) && (adv <=? G_MADV_DONTNEED) || (G_MADV_FREE <=? adv) && (adv <=? G_MADV_COLLAPSE).

(** The two ends of [lo, hi) that are not whole host pages. *)
Definition partial_pages (lo hi : Z) : (Z * Z) * (Z * Z) * (Z * Z) :=
  let hmask := os_pagesz - 1 in
  let alo := Z.land (lo + hmask) (not64 hmask) in
  let ahi := Z.land hi (not64 hmask) in
  let '(blo, bhi) := if ahi <? alo then (lo, lo) else (alo, ahi) in
  ((alo, ahi), (lo, if blo <? hi then blo else hi), (if lo <? bhi then bhi else lo, hi)).
Definition zero_part (r : Region) (q : Z * Z) (es : Z * MS Os) : Z * MS Os :=
  let '(err, s) := es in
  if negb (err =? 0) || (snd q <=? fst q) then (err, s)
  else
    let pg := Z.land (fst q) (not64 (os_pagesz - 1)) in
    let '(ok, s) := if has (r_prot r) PTE_W then (true, s)
                    else let '(b, o) := os_mprotect (ms_os s) pg os_pagesz true in (b, upd_ms_os (fun _ => o) s) in
    if negb ok then (- os_mprotect_errno (ms_os s), s) else (0, upd_ms_mem (zero_bytes (fst q) (snd q - fst q)) s).
(** [madv_remove]: the walk, answering the error, whether there was a hole,
    and the state. *)
Fixpoint remove_loop (fuel : nat) (va e : Z) (hole : bool) s : Z * bool * MS Os :=
  match fuel with
  | O => (0, hole, s)
  | S f =>
      if va <? e then
        match as_find_region (regs s) va with
        | None => match as_next_region (regs s) va with
                  | Some nx => if e <=? r_start nx then (0, true, s) else remove_loop f (r_start nx) e true s
                  | None => (0, true, s)
                  end
        | Some r =>
            if has (r_lock r) RL_LOCKED then (- EINVAL, hole, s)
            else if negb (tr (r_file r)) && negb (tr (r_shared r)) then (- EINVAL, hole, s)
            else if negb (tr (r_shared r)) || negb (tr (r_wr_ok r)) then (- EACCES, hole, s)
            else
              let stop := if r_end r <? e then r_end r else e in
              let '((alo, ahi), p1, p2) := partial_pages (r_host r + (va - r_start r)) (r_host r + (stop - r_start r)) in
              let '(err, s) :=
                if alo <? ahi then
                  let '(er, o) := os_madv_remove (ms_os s) alo (ahi - alo) in
                  let s := upd_ms_os (fun _ => o) s in
                  if er =? 0 then (0, upd_ms_mem (zero_bytes alo (ahi - alo)) s) else (- er, s)
                else (0, s) in
              if negb (err =? 0) then (err, hole, s)
              else
                let '(err, s) := zero_part r p2 (zero_part r p1 (0, s)) in
                if negb (err =? 0) then (err, hole, s) else remove_loop f stop e hole s
        end
      else (0, hole, s)
  end.
Definition walk_fuel s : nat := 2 * S (length (regs s)).
Definition madv_remove (start e : Z) s : Z * MS Os :=
  let '(err, hole, s) := remove_loop (walk_fuel s) start e false s in
  let s := jit_invalidate_range start (e - start) s in
  (if negb (err =? 0) then u64 err else if hole then errno ENOMEM else 0, s).

(** [madv_populate]: a page that cannot be reached ends it. *)
Fixpoint populate_range (n : nat) (p stop : Z) (acc : AccType) : M (St (MS Os)) Z := fun st =>
  match n with
  | O => Ok 0 st
  | S k => if p <? stop then
             match mem_host_ptr p GUEST_PAGE_SIZE acc st with
             | Ok (Some _) st1 => populate_range k (p + GUEST_PAGE_SIZE) stop acc st1
             | Ok None st1 => Ok (- EFAULT) st1
             | Fault st1 => Fault st1
             | UB => UB
             end
           else Ok 0 st
  end.
Fixpoint populate_walk (fuel : nat) (va e : Z) (write : bool) : M (St (MS Os)) Z := fun st =>
  match fuel with
  | O => Ok 0 st
  | S f =>
      if va <? e then
        match as_find_region (regs (s_mem st)) va with
        | None => Ok (- ENOMEM) st
        | Some r =>
            if negb (has (r_prot r) (if write then PTE_W else PTE_R)) then Ok (- EINVAL) st
            else
              let stop := if r_end r <? e then r_end r else e in
              match populate_range (npages (stop - va)) va stop (if write then ACC_WRITE else ACC_READ) st with
              | Ok err st1 => if negb (err =? 0) then Ok err st1 else populate_walk f stop e write st1
              | Fault st1 => Fault st1
              | UB => UB
              end
        end
      else Ok 0 st
  end.
Definition madv_populate (start e : Z) (write : bool) : M (St (MS Os)) Z := fun st =>
  match populate_walk (npages (e - start)) start e write st with
  | Ok err st1 => Ok (u64 err) st1
  | Fault st1 => Fault st1
  | UB => UB
  end.

(** MADV_DONTNEED on a private file mapping, on a host with 4 KB pages: the
    pages that can be read are the file's again. *)
Definition refault (h : Z) (m : MS Os) : MS Os :=
  upd_ms_mem (fun f a => if (h <=? a) && (a <? h + GUEST_PAGE_SIZE) then os_refault (ms_os m) a else f a) m.
Fixpoint refault_pages (n : nat) (p stop : Z) : M (St (MS Os)) unit := fun st =>
  match n with
  | O => Ok tt st
  | S k => if p <? stop then
             match mem_host_ptr p GUEST_PAGE_SIZE ACC_READ st with
             | Ok (Some h) st1 => refault_pages k (p + GUEST_PAGE_SIZE) stop (upd_mem (refault h) st1)
             | Ok None st1 => refault_pages k (p + GUEST_PAGE_SIZE) stop st1
             | Fault st1 => Fault st1
             | UB => UB
             end
           else Ok tt st
  end.
Definition discard_piece (r : Region) (va stop : Z) : M (St (MS Os)) unit := fun st =>
  if tr (r_file r) || tr (r_shared r) then
    if negb (tr (r_shared r)) && (os_pagesz =? GUEST_PAGE_SIZE) then refault_pages (npages (stop - va)) va stop st
    else Ok tt st
  else Ok tt (upd_mem (upd_ms_mem (zero_bytes (r_host r + (va - r_start r)) (stop - va))) st).
(** The walk of the other advice: the lock error, whether there was a hole. *)
Fixpoint advise_walk (fuel : nat) (va e : Z) (lockrefuse discard hole : bool) : M (St (MS Os)) (Z * bool) := fun st =>
  match fuel with
  | O => Ok (0, hole) st
  | S f =>
      if va <? e then
        match as_find_region (regs (s_mem st)) va with
        | None => match as_next_region (regs (s_mem st)) va with
                  | Some nx => if e <=? r_start nx then Ok (0, true) st
                               else advise_walk f (r_start nx) e lockrefuse discard true st
                  | None => Ok (0, true) st
                  end
        | Some r =>
            let stop := if r_end r <? e then r_end r else e in
            if lockrefuse && has (r_lock r) RL_LOCKED then Ok (- EINVAL, hole) st
            else if discard then
              match discard_piece r va stop st with
              | Ok _ st1 => advise_walk f stop e lockrefuse discard hole st1
              | Fault st1 => Fault st1
              | UB => UB
              end
            else advise_walk f stop e lockrefuse discard hole st
        end
      else Ok (0, hole) st
  end.
Definition is_adv (adv : Z) (l : list Z) : bool := existsb (Z.eqb adv) l.
Definition madv_fork (adv a0 len : Z) (m : MS Os) : Z * MS Os :=
  let set := if adv =? G_MADV_DONTFORK then RF_DONTFORK else if adv =? G_MADV_WIPEONFORK then RF_WIPEONFORK else 0 in
  let clear := if adv =? G_MADV_DOFORK then RF_DONTFORK else if adv =? G_MADV_KEEPONFORK then RF_WIPEONFORK else 0 in
  let '(r, m) := guest_fork_advise a0 len set clear (adv =? G_MADV_WIPEONFORK) m in (u64 r, m).
Definition sys_madvise (a0 a1 a2 : Z) : M (St (MS Os)) Z := fun st =>
  let a0 := a64_untag a0 in
  let adv := s32 a2 in
  if negb (madv_valid adv) then Ok (errno EINVAL) st
  else if misaligned a0 then Ok (errno EINVAL) st
  else
    let len := PG_UP a1 in
    if negb (a1 =? 0) && (len =? 0) then Ok (errno EINVAL) st
    else
      let e := u64 (a0 + len) in
      if e <? a0 then Ok (errno EINVAL) st
      else if e =? a0 then Ok 0 st
      else if is_adv adv [G_MADV_DONTFORK; G_MADV_DOFORK; G_MADV_WIPEONFORK; G_MADV_KEEPONFORK] then
        let '(r, m) := madv_fork adv a0 len (s_mem st) in Ok r (upd_mem (fun _ => m) st)
      else if adv =? G_MADV_REMOVE then
        let '(r, m) := madv_remove a0 e (s_mem st) in Ok r (upd_mem (fun _ => m) st)
      else if is_adv adv [G_MADV_POPULATE_READ; G_MADV_POPULATE_WRITE] then
        madv_populate a0 e (adv =? G_MADV_POPULATE_WRITE) st
      else
        let lockrefuse := is_adv adv [G_MADV_DONTNEED; G_MADV_FREE; G_MADV_COLD; G_MADV_PAGEOUT] in
        let discard := is_adv adv [G_MADV_DONTNEED; G_MADV_FREE; G_MADV_DONTNEED_LOCKED] in
        match advise_walk (walk_fuel (s_mem st)) a0 e lockrefuse discard false st with
        | Ok (lockerr, hole) st1 =>
            let st1 := if discard then upd_mem (jit_invalidate_range a0 len) st1 else st1 in
            Ok (if negb (lockerr =? 0) then u64 lockerr else if hole then errno ENOMEM else 0) st1
        | Fault st1 => Fault st1
        | UB => UB
        end.

(** ** mremap *)
Definition G_MREMAP_MAYMOVE : Z := 1.
Definition G_MREMAP_FIXED : Z := 2.
Definition G_MREMAP_DONTUNMAP : Z := 4.

(** The pages of a range all belong to a mapping. *)
Fixpoint pages_found (n : nat) (va : Z) s : bool :=
  match n with
  | O => true
  | S k => match as_find_region (regs s) va with
           | None => false
           | Some _ => pages_found k (va + GUEST_PAGE_SIZE) s
           end
  end.
(** The checks before anything is changed: an error, or 0. *)
Definition mremap_args (old_addr old_len new_len flags : Z) s : Z :=
  if misaligned old_addr then EINVAL
  else if negb (Z.land flags (not32 (Z.lor (Z.lor G_MREMAP_MAYMOVE G_MREMAP_FIXED) G_MREMAP_DONTUNMAP)) =? 0) then EINVAL
  else if new_len =? 0 then EINVAL
  else if has flags G_MREMAP_FIXED && negb (has flags G_MREMAP_MAYMOVE) then EINVAL
  else if has flags G_MREMAP_DONTUNMAP && (negb (has flags G_MREMAP_MAYMOVE) || negb (old_len =? new_len)) then EINVAL
  else if (GUEST_TASK_SIZE <? old_addr) || (GUEST_TASK_SIZE - old_addr <? old_len) then EFAULT
  else if (old_len =? 0) && bool_decide (as_find_region (regs s) old_addr = None) then EFAULT
  else if negb (pages_found (npages old_len) old_addr s) then EFAULT
  else 0.
Definition mremap_tail (old_addr old_len : Z) s : option Region :=
  as_find_region (regs s) (if old_len =? 0 then old_addr else old_addr + old_len - 1).
Definition tail_prot (t : option Region) : Z := match t with Some r => r_prot r | None => Z.lor PTE_R PTE_W end.
Definition tail_shared (t : option Region) : bool := match t with Some r => tr (r_shared r) | None => false end.
Definition tail_stack (t : option Region) : bool := match t with Some r => tr (r_growsdown r) | None => false end.
Definition mremap_limits (l : MmLim) (t : option Region) (old_len new_len : Z) s : Z :=
  if old_len <? new_len then
    let add := new_len - old_len in
    if match t with Some r => negb (as_mlock_future_ok (r_lock r) add s) | None => false end then EAGAIN
    else if negb (as_fits add s) then ENOMEM
    else if has (tail_prot t) PTE_W && negb (tail_shared t) && negb (tail_stack t) && negb (data_fits l add s) then ENOMEM
    else 0
  else 0.
(** An old length of zero: a second mapping of a shared object. *)
Definition mremap_dup (old_addr new_len flags a4 : Z) s : Z * MS Os :=
  let place :=
    if has flags G_MREMAP_FIXED then
      if misaligned a4 then (inl EINVAL, s)
      else if (GUEST_TASK_SIZE <? a4) || (GUEST_TASK_SIZE - a4 <? new_len) then (inl EINVAL, s)
      else if (a4 <? old_addr) && (old_addr <? a4 + new_len) then (inl EINVAL, s)
      else (inr a4, snd (guest_unmap a4 new_len s))
    else if negb (has flags G_MREMAP_MAYMOVE) then (inl ENOMEM, s)
    else let '(d, s) := as_find_free new_len s in if d =? 0 then (inl ENOMEM, s) else (inr d, s) in
  match place with
  | (inl e, s) => (errno e, s)
  | (inr dst, s) => let '(r, s) := guest_remap_dup old_addr new_len dst s in (rc_or r dst, s)
  end.
(** Staying put: an answer, or [None] to go on with a move. The end of the
    pages looked at, [old_addr + new_len], wraps. *)
Definition mremap_stay (old_addr old_len new_len flags : Z) s : option Z * MS Os :=
  if has flags (Z.lor G_MREMAP_FIXED G_MREMAP_DONTUNMAP) then (None, s)
  else if new_len <=? old_len then
    (Some old_addr, if new_len <? old_len then snd (guest_unmap (old_addr + new_len) (old_len - new_len) s) else s)
  else if pages_unmapped (npages (u64 (old_addr + new_len) - (old_addr + old_len))) (old_addr + old_len) s then
    let '(r, s) := guest_remap_grow old_addr old_len new_len true s in
    if r =? 0 then (Some old_addr, s)
    else if negb (has flags G_MREMAP_MAYMOVE) then (Some (u64 r), s) else (None, s)
  else if negb (has flags G_MREMAP_MAYMOVE) then (Some (errno ENOMEM), s) else (None, s).
(** Where a move goes: an error, or the address. *)
Definition mremap_place (old_addr old_len new_len flags a4 : Z) s : (Z + Z) * MS Os :=
  if has flags G_MREMAP_FIXED then
    if misaligned a4 then (inl EINVAL, s)
    else if (GUEST_TASK_SIZE <? a4) || (GUEST_TASK_SIZE - a4 <? new_len) then (inl EINVAL, s)
    else if (a4 <? old_addr + old_len) && (old_addr <? a4 + new_len) then (inl EINVAL, s)
    else
      let s := snd (guest_unmap a4 new_len s) in
      let s := if new_len <? old_len then snd (guest_unmap (old_addr + new_len) (old_len - new_len) s) else s in
      if a4 <? env_min_addr (ms_env s) then (inl EPERM, s) else (inr a4, s)
  else let '(d, s) := as_find_free new_len s in if d =? 0 then (inl ENOMEM, s) else (inr d, s).
(** The move, growing at the destination; put back when it cannot. *)
Definition mremap_move (old_addr old_len new_len new_addr : Z) s : Z * MS Os :=
  let keep := if old_len <? new_len then old_len else new_len in
  let '(r, s) := guest_remap_move old_addr keep new_addr s in
  if r <? 0 then (u64 r, s)
  else if old_len <? new_len then
    let '(r, s) := guest_remap_grow new_addr old_len new_len false s in
    if r <? 0 then (u64 r, snd (guest_remap_move new_addr keep old_addr s)) else (new_addr, s)
  else (new_addr, s).
Definition mremap_locked (l : MmLim) (a0 a1 a2 a3 a4 : Z) s : Z * MS Os :=
  let old_len := PG_UP a1 in let new_len := PG_UP a2 in let flags := s32 a3 in
  let e := mremap_args a0 old_len new_len flags s in
  if negb (e =? 0) then (errno e, s)
  else
    let t := mremap_tail a0 old_len s in
    if (old_len =? 0) && negb (tail_shared t) then (errno EINVAL, s)
    else
      let e := mremap_limits l t old_len new_len s in
      if negb (e =? 0) then (errno e, s)
      else if old_len =? 0 then mremap_dup a0 new_len flags a4 s
      else
        match mremap_stay a0 old_len new_len flags s with
        | (Some r, s) => (r, s)
        | (None, s) =>
            match mremap_place a0 old_len new_len flags a4 s with
            | (inl e, s) => (errno e, s)
            | (inr new_addr, s) =>
                if has flags G_MREMAP_DONTUNMAP then
                  if negb (as_fits old_len s) then (errno ENOMEM, s)
                  else if has (tail_prot t) PTE_W && negb (tail_shared t) && negb (data_fits l old_len s)
                  then (errno ENOMEM, s)
                  else let '(r, s) := guest_remap_dontunmap a0 old_len new_addr s in (rc_or r new_addr, s)
                else mremap_move a0 old_len new_len new_addr s
            end
        end.
Definition sys_mremap (l : MmLim) (a0 a1 a2 a3 a4 : Z) s : Z * MS Os := mremap_locked l (a64_untag a0) a1 a2 a3 a4 s.

(** ** msync, mincore *)
Definition G_MS_ASYNC : Z := 1.
Definition G_MS_INVALIDATE : Z := 2.
Definition G_MS_SYNC : Z := 4.
(** The walk: the host spans to sync, whether there was a hole, whether a
    locked mapping ended it. *)
Fixpoint msync_walk (fuel : nat) (va e flags : Z) (spans : list (Z * Z)) (hole : bool) s : list (Z * Z) * bool * bool :=
  match fuel with
  | O => (rev spans, hole, false)
  | S f =>
      if va <? e then
        match as_find_region (regs s) va with
        | None => match as_next_region (regs s) va with
                  | Some nx => if e <=? r_start nx then (rev spans, true, false)
                               else msync_walk f (r_start nx) e flags spans true s
                  | None => (rev spans, true, false)
                  end
        | Some r =>
            let stop := if r_end r <? e then r_end r else e in
            if has flags G_MS_INVALIDATE && has (r_lock r) RL_LOCKED then (rev spans, hole, true)
            else
              let hp := r_host r + (va - r_start r) in
              let lo := Z.land hp (not64 (os_pagesz - 1)) in
              msync_walk f stop e flags
                (if has flags G_MS_SYNC && tr (r_shared r) then (lo, stop - va + (hp - lo)) :: spans else spans) hole s
        end
      else (rev spans, hole, false)
  end.
Fixpoint msync_spans (l : list (Z * Z)) s : Z * MS Os :=
  match l with
  | [] => (0, s)
  | (p, n) :: l' => let '(e, o) := os_msync (ms_os s) p n in
                    let s := upd_ms_os (fun _ => o) s in
                    if negb (e =? 0) then (- e, s) else msync_spans l' s
  end.
Definition sys_msync (a0 a1 a2 : Z) s : Z * MS Os :=
  let a0 := a64_untag a0 in
  let flags := s32 a2 in
  if negb (Z.land flags (not32 (Z.lor (Z.lor G_MS_ASYNC G_MS_INVALIDATE) G_MS_SYNC)) =? 0) then (errno EINVAL, s)
  else if misaligned a0 then (errno EINVAL, s)
  else if has flags G_MS_ASYNC && has flags G_MS_SYNC then (errno EINVAL, s)
  else
    let e := u64 (a0 + PG_UP a1) in
    if e <? a0 then (errno ENOMEM, s)
    else if e =? a0 then (0, s)
    else
      let '(spans, hole, busy) := msync_walk (walk_fuel s) a0 e flags [] false s in
      let '(err, s) := msync_spans spans s in
      (if negb (err =? 0) then u64 err else if busy then errno EBUSY else if hole then errno ENOMEM else 0, s).

(** [mincore_locked], from page [i] of [pages]. *)
Fixpoint mincore_loop (n : nat) (i a0 a2 : Z) : M (St (MS Os)) Z := fun st =>
  match n with
  | O => Ok 0 st
  | S k =>
      match as_find_region (regs (s_mem st)) (a0 + Z.shiftl i 12) with
      | None => Ok (errno ENOMEM) st
      | Some _ =>
          match copy_to_guest (u64 (a2 + i)) [1] st with
          | Ok rc st1 => if rc <? 0 then Ok (errno EFAULT) st1 else mincore_loop k (i + 1) a0 a2 st1
          | Fault st1 => Fault st1
          | UB => UB
          end
      end
  end.
Definition mincore_locked (a0 a1 a2 : Z) : M (St (MS Os)) Z := fun st =>
  if misaligned a0 then Ok (errno EINVAL) st
  else if (GUEST_TASK_SIZE <? a0) || (GUEST_TASK_SIZE - a0 <? a1) then Ok (errno ENOMEM) st
  else mincore_loop (Z.to_nat (Z.shiftr (PG_UP a1) 12)) 0 a0 a2 st.
Definition sys_mincore (a0 a1 a2 : Z) : M (St (MS Os)) Z := mincore_locked (a64_untag a0) a1 a2.

(** ** The mlock family *)
Definition can_do_mlock s : bool := negb (env_memlock (ms_env s) =? 0) || env_ipc_lock (ms_env s).
Definition memlock_pages s : Z :=
  if env_memlock (ms_env s) =? RLIM_INFINITY then not64 0 else Z.shiftr (env_memlock (ms_env s)) 12.
(** The pages a lock of the range is charged for. *)
Definition mlock_charge (start len : Z) s : Z :=
  let locked := u64 (Z.shiftr len 12 + as_locked_vm (ms_as s)) in
  if (memlock_pages s <? locked) && negb (env_ipc_lock (ms_env s))
  then u64 (locked - as_locked_pages (regs s) start len) else locked.
Definition do_mlock (nogrow : bool) (start len flags : Z) s : Z * MS Os :=
  let start := a64_untag start in
  if negb (can_do_mlock s) then (errno EPERM, s)
  else
    let len := PG_UP (len + Z.land start GUEST_PAGE_MASK) in
    let start := PG_DOWN start in
    let '(err, s) := if (mlock_charge start len s <=? memlock_pages s) || env_ipc_lock (ms_env s)
                     then as_lock_range start len flags s else (- ENOMEM, s) in
    let s := as_account s in
    if negb (err =? 0) then (u64 err, s)
    else let '(r, s) := as_mlock_populate start len nogrow s in (u64 r, s).
Definition sys_mlock (nogrow : bool) (a0 a1 : Z) s : Z * MS Os := do_mlock nogrow a0 a1 RL_LOCKED s.
Definition sys_mlock2 (nogrow : bool) (a0 a1 a2 : Z) s : Z * MS Os :=
  if negb (Z.land (u32 a2) (not32 1) =? 0) then (errno EINVAL, s)
  else do_mlock nogrow a0 a1 (Z.lor RL_LOCKED (if has (u32 a2) 1 then RL_ONFAULT else 0)) s.
Definition sys_munlock (a0 a1 : Z) s : Z * MS Os :=
  let start := a64_untag a0 in
  let len := PG_UP (a1 + Z.land start GUEST_PAGE_MASK) in
  let '(err, s) := as_lock_range (PG_DOWN start) len 0 s in (u64 err, as_account s).
Definition G_MCL_CURRENT : Z := 1.
Definition G_MCL_FUTURE : Z := 2.
Definition G_MCL_ONFAULT : Z := 4.
Definition sys_mlockall (a0 : Z) s : Z * MS Os :=
  let flags := s32 a0 in
  if (flags =? 0) || negb (Z.land flags (not32 (Z.lor (Z.lor G_MCL_CURRENT G_MCL_FUTURE) G_MCL_ONFAULT)) =? 0) ||
     (flags =? G_MCL_ONFAULT) then (errno EINVAL, s)
  else if negb (can_do_mlock s) then (errno EPERM, s)
  else
    let lock := Z.lor RL_LOCKED (if has flags G_MCL_ONFAULT then RL_ONFAULT else 0) in
    if negb (has flags G_MCL_CURRENT) || (Z.shiftr (as_mapped_bytes (regs s)) 12 <=? memlock_pages s) || env_ipc_lock (ms_env s)
    then (0, as_account (as_lock_all (if has flags G_MCL_FUTURE then lock else 0) (has flags G_MCL_CURRENT) lock s))
    else (errno ENOMEM, as_account s).
Definition sys_munlockall s : Z * MS Os := (0, as_account (as_lock_all 0 true 0 s)).
End SysMm.
