(* ===== verification/MmCount.v ===== *)
(** * MmCount: how much is mapped

    [as_mapped_bytes] adds up the regions; here it is the number of mapped
    pages, so that it can be followed through operations that are known by
    what they do to each byte. *)

From stdpp Require Import gmap.
From S2P Require Import Prelude Types Cpu MemSeam PageTable Regions Epoch AsState AddrSpace AsInv AsSteps AsThms AsProtect AsGrow Translate TransThms MmStep MmReach SysMm.

(** ** Counting *)
Fixpoint cnt (f : Z -> bool) (n : nat) : Z :=
  match n with O => 0 | S k => cnt f k + b2z (f (Z.of_nat k)) end.
Lemma cnt_ext f g n : (forall k, 0 <= k < Z.of_nat n -> f k = g k) -> cnt f n = cnt g n.
Proof. induction n as [|n IH]; intros H; simpl; [done|]. rewrite IH by (intros; apply H; lia). by rewrite (H (Z.of_nat n)) by lia. Qed.
Lemma cnt_or f g n : (forall k, 0 <= k < Z.of_nat n -> f k && g k = false) -> cnt (fun k => f k || g k) n = cnt f n + cnt g n.
Proof.
  induction n as [|n IH]; intros H; simpl; [done|]. rewrite IH by (intros; apply H; lia).
  specialize (H (Z.of_nat n) ltac:(lia)). destruct (f (Z.of_nat n)), (g (Z.of_nat n)); simpl in *; try done; lia.
Qed.
Lemma cnt_le f g n : (forall k, 0 <= k < Z.of_nat n -> f k = true -> g k = true) -> cnt f n <= cnt g n.
Proof.
  induction n as [|n IH]; intros H; simpl; [done|]. specialize (IH ltac:(intros k Hk; apply H; lia)).
  specialize (H (Z.of_nat n) ltac:(lia)). destruct (f (Z.of_nat n)), (g (Z.of_nat n)); simpl in *; lia || (by specialize (H eq_refl)).
Qed.
Definition between (a b k : Z) : bool := (a <=? k) && (k <? b).
Lemma cnt_between a b n : 0 <= a <= b -> cnt (between a b) n = Z.min b (Z.of_nat n) - Z.min a (Z.of_nat n).
Proof.
  intros H. induction n as [|n IH]; [simpl; lia|]. cbn [cnt]. rewrite IH. unfold between.
  destruct (Z.leb_spec a (Z.of_nat n)), (Z.ltb_spec (Z.of_nat n) b); cbn [andb b2z]; lia.
Qed.
Lemma cnt_none f n : (forall k, 0 <= k < Z.of_nat n -> f k = false) -> cnt f n = 0.
Proof. induction n as [|n IH]; intros H; simpl; [done|]. rewrite IH by (intros; apply H; lia). by rewrite H by lia. Qed.

(** ** Mapped pages *)
Lemma task_pages : { n : nat | 4096 * Z.of_nat n = GUEST_TASK_SIZE }.
Proof. exists (Z.to_nat (GUEST_TASK_SIZE / 4096)). rewrite Z2Nat.id by done. done. Qed.
Definition NPAGES : nat := proj1_sig task_pages.
Lemma npages_task : 4096 * Z.of_nat NPAGES = GUEST_TASK_SIZE.
Proof. apply (proj2_sig task_pages). Qed.
Definition mapped (rs : list Region) (k : Z) : bool := existsb (contains (4096 * k)) rs.
Lemma mapped_look rs k : mapped rs k = bool_decide (is_Some (look rs (4096 * k))).
Proof.
  apply eq_true_iff_eq. unfold mapped. rewrite existsb_exists, bool_decide_eq_true. split.
  - intros (r & Hr & Hc). destruct (look rs (4096 * k)) as [v|] eqn:E; [by exists v|]. apply list_elem_of_In in Hr.
    pose proof (look_none _ _ E r Hr). apply contains_iff in Hc. lia.
  - intros [v (r & Hr & Hc & _)%look_some]. exists r. split; [by apply list_elem_of_In|by apply contains_iff].
Qed.
Lemma page_contains r k : region_ok r -> contains (4096 * k) r = between (r_start r / 4096) (r_end r / 4096) k.
Proof.
  intros [_ H1 H2 _ _ _ _]. unfold contains, between. unfold aligned in *.
  pose proof (Z.div_mod (r_start r) 4096 ltac:(lia)). pose proof (Z.div_mod (r_end r) 4096 ltac:(lia)).
  f_equal; [destruct (Z.leb_spec (r_start r) (4096 * k)), (Z.leb_spec (r_start r / 4096) k)|destruct (Z.ltb_spec (4096 * k) (r_end r)), (Z.ltb_spec k (r_end r / 4096))]; try done; lia.
Qed.
Lemma pages_of r : region_ok r -> 4096 * cnt (fun k => contains (4096 * k) r) NPAGES = r_end r - r_start r.
Proof.
  intros Hr. rewrite (cnt_ext _ (between (r_start r / 4096) (r_end r / 4096))) by (intros; by apply page_contains).
  destruct Hr as [[H1 H2] H3 H4 _ _ _ _]. unfold aligned in *. pose proof npages_task as Hn.
  pose proof (Z.div_mod (r_start r) 4096 ltac:(lia)). pose proof (Z.div_mod (r_end r) 4096 ltac:(lia)).
  rewrite cnt_between by lia. lia.
Qed.
Lemma mapped_cons r rs : regions_ok (r :: rs) -> cnt (mapped (r :: rs)) NPAGES = cnt (fun k => contains (4096 * k) r) NPAGES + cnt (mapped rs) NPAGES.
Proof.
  intros (Hr & Hb & _)%regions_ok_cons. rewrite <- cnt_or; [by apply cnt_ext|]. intros k _. apply andb_false_iff.
  destruct (contains (4096 * k) r) eqn:E; [right|by left]. apply not_true_iff_false. intros (q & Hq & Hc)%existsb_exists.
  rewrite list.Forall_forall in Hb. apply list_elem_of_In in Hq. pose proof (Hb q Hq) as H. unfold before in H.
  apply contains_iff in E, Hc. pose proof (ro_range r Hr). lia.
Qed.
Lemma cnt_bound f n : 0 <= cnt f n <= Z.of_nat n.
Proof. induction n as [|n IH]; simpl; [done|]. unfold b2z. destruct (f _); lia. Qed.
(** The sum of the regions is a count of pages: it does not wrap. *)
Lemma mapped_bytes_cnt rs : regions_ok rs -> as_mapped_bytes rs = 4096 * cnt (mapped rs) NPAGES.
Proof.
  intros Hok. unfold as_mapped_bytes. assert (H : forall t, 0 <= t -> t + 4096 * cnt (mapped rs) NPAGES < 2 ^ 64 ->
    fold_left (fun t r => u64 (t + (r_end r - r_start r))) rs t = t + 4096 * cnt (mapped rs) NPAGES).
  { induction rs as [|r rs IH]; intros t Ht Hb; [cbn [fold_left]; rewrite (cnt_none (mapped []) NPAGES (fun _ _ => eq_refl)); lia|].
    pose proof (mapped_cons r rs Hok) as Ec. apply regions_ok_cons in Hok as (Hr & _ & Hok). pose proof (pages_of r Hr) as Ep.
    pose proof (cnt_bound (mapped rs) NPAGES). pose proof (ro_range r Hr). cbn [fold_left].
    rewrite u64_small by (unfold fits; lia). rewrite IH; [lia|done|lia|lia]. }
  rewrite (H 0); [lia|lia|]. pose proof (cnt_bound (mapped rs) NPAGES). pose proof npages_task.
  change GUEST_TASK_SIZE with (2 ^ 47) in *. lia.
Qed.
Lemma mapped_bytes_view rs rs' : regions_ok rs -> regions_ok rs' ->
  (forall a, is_Some (look rs' a) <-> is_Some (look rs a)) -> as_mapped_bytes rs' = as_mapped_bytes rs.
Proof.
  intros H1 H2 Hl. rewrite !mapped_bytes_cnt by done. f_equal. apply cnt_ext. intros k _. rewrite !mapped_look.
  apply bool_decide_ext. apply Hl.
Qed.
Lemma mapped_bytes_less rs rs' : regions_ok rs -> regions_ok rs' ->
  (forall a, is_Some (look rs' a) -> is_Some (look rs a)) -> as_mapped_bytes rs' <= as_mapped_bytes rs.
Proof.
  intros H1 H2 Hl. rewrite !mapped_bytes_cnt by done. apply Z.mul_le_mono_nonneg_l; [lia|]. apply cnt_le. intros k _.
  rewrite !mapped_look, !bool_decide_eq_true. apply Hl.
Qed.
(** The pages of a range that are not mapped. *)
Definition gap_pages (rs : list Region) (lo hi : Z) : Z :=
  cnt (fun k => between (lo / 4096) (hi / 4096) k && negb (mapped rs k)) NPAGES.
Lemma mapped_bytes_more rs rs' lo hi : regions_ok rs -> regions_ok rs' -> aligned lo -> aligned hi ->
  (forall a, is_Some (look rs' a) <-> is_Some (look rs a) \/ lo <= a < hi) ->
  as_mapped_bytes rs' = as_mapped_bytes rs + 4096 * gap_pages rs lo hi.
Proof.
  intros H1 H2 Hlo Hhi Hl. rewrite !mapped_bytes_cnt by done. unfold gap_pages. rewrite <- Z.mul_add_distr_l. f_equal.
  rewrite <- cnt_or by (intros k _; destruct (mapped rs k); by rewrite ?andb_false_r). apply cnt_ext. intros k _.
  apply eq_true_iff_eq. rewrite orb_true_iff, andb_true_iff, negb_true_iff, !mapped_look, !bool_decide_eq_true, Hl.
  rewrite bool_decide_eq_false. unfold between, aligned in *. rewrite andb_true_iff.
  pose proof (Z.div_mod lo 4096 ltac:(lia)). pose proof (Z.div_mod hi 4096 ltac:(lia)).
  destruct (decide (is_Some (look rs (4096 * k)))) as [Hs|Hs]; [by split; left|]. split; [intros [?|?]; [done|]; right; split; [lia|done]|]. intros [?|[? _]]; [by left|right; lia].
Qed.
Lemma gap_pages_free rs lo hi : regions_ok rs -> aligned lo -> aligned hi -> 0 <= lo <= hi -> hi <= GUEST_TASK_SIZE ->
  (forall a, lo <= a < hi -> look rs a = None) -> 4096 * gap_pages rs lo hi = hi - lo.
Proof.
  intros Hok Hlo Hhi Hr Ht Hn. unfold gap_pages, aligned in *. pose proof npages_task.
  pose proof (Z.div_mod lo 4096 ltac:(lia)). pose proof (Z.div_mod hi 4096 ltac:(lia)).
  rewrite (cnt_ext _ (between (lo / 4096) (hi / 4096))); [rewrite cnt_between by lia; lia|]. intros k _.
  destruct (between (lo / 4096) (hi / 4096) k) eqn:E; [|done]. cbn [andb]. rewrite mapped_look, Hn; [done|].
  unfold between in E. lia.
Qed.

(** ** [range_unmapped_bytes] *)
Lemma next_region_spec rs va best : (forall b, best = Some b -> va < r_end b) ->
  match next_region_from best rs va with
  | Some nx => (nx ∈ rs \/ best = Some nx) /\ va < r_end nx /\
               (forall q, q ∈ rs \/ best = Some q -> r_end q <= va \/ r_start nx <= r_start q)
  | None => best = None /\ forall q, q ∈ rs -> r_end q <= va
  end.
Proof.
  revert best. induction rs as [|r rs IH]; intros best Hb; cbn [next_region_from].
  { destruct best as [b|]; [|split; [done|]; by intros q ?%elem_of_nil]. split; [by right|]. split; [by apply Hb|].
    intros q [?%elem_of_nil|[= ->]]; [done|right; lia]. }
  destruct (Z.leb_spec (r_end r) va) as [He|He].
  { specialize (IH best Hb). destruct (next_region_from best rs va) as [nx|].
    - destruct IH as (I1 & I2 & I3). split; [destruct I1; [left; by right|by right]|]. split; [done|].
      intros q [[->|Hq]%elem_of_cons|Hq]; [by left|apply I3; by left|apply I3; by right].
    - destruct IH as [-> I2]. split; [done|]. intros q [->|Hq]%elem_of_cons; [done|by apply I2]. }
  set (b' := match best with None => Some r | Some b => if r_start r <? r_start b then Some r else best end).
  assert (Hb' : forall b, b' = Some b -> va < r_end b).
  { unfold b'. intros b. destruct best as [x|]; [destruct (_ <? _)|]; [by intros [= <-]|by apply Hb|by intros [= <-]]. }
  specialize (IH b' Hb'). replace (match best with None => _ | Some b => _ end) with (next_region_from b' rs va) by (unfold b'; by destruct best).
  assert (Hk : forall x, b' = Some x -> (x = r \/ best = Some x) /\ r_start x <= r_start r /\ (forall q, best = Some q -> r_start x <= r_start q)).
  { intros x. unfold b'. destruct best as [b|]; [|intros [= <-]; split; [by left|]; split; [lia|done]].
    destruct (Z.ltb_spec (r_start r) (r_start b)); intros [= <-]; (split; [auto|]); (split; [lia|]); intros q [= <-]; lia. }
  assert (Hsome : exists x, b' = Some x) by (unfold b'; destruct best as [b|]; [destruct (_ <? _)|]; eauto).
  destruct Hsome as [x Ex]. destruct (Hk x Ex) as (K1 & K2 & K3). destruct (next_region_from b' rs va) as [nx|]; [|destruct IH; congruence].
  destruct IH as (I1 & I2 & I3). split.
  { destruct I1 as [I1|I1]; [left; by right|]. destruct (Hk nx I1) as [[->|?] _]; [left; by left|by right]. }
  split; [done|]. assert (Hx : r_start nx <= r_start x).
  { destruct (I3 x (or_intror Ex)) as [?|?]; [|done]. specialize (Hb' x Ex). lia. }
  intros q [[->|Hq]%elem_of_cons|Hq]; [right; lia|apply I3; by left|right]. specialize (K3 q Hq). lia.
Qed.
Lemma gap_pages_empty rs lo hi : hi <= lo -> gap_pages rs lo hi = 0.
Proof.
  intros H. apply cnt_none. intros k _. apply andb_false_iff. left. unfold between.
  pose proof (Z.div_le_mono hi lo 4096 ltac:(lia) H). destruct (Z.leb_spec (lo / 4096) k), (Z.ltb_spec k (hi / 4096)); simpl; try done; lia.
Qed.
Lemma gap_pages_app rs lo mid hi : lo <= mid <= hi -> gap_pages rs lo hi = gap_pages rs lo mid + gap_pages rs mid hi.
Proof.
  intros H. unfold gap_pages. pose proof (Z.div_le_mono lo mid 4096 ltac:(lia) ltac:(lia)). pose proof (Z.div_le_mono mid hi 4096 ltac:(lia) ltac:(lia)).
  rewrite <- cnt_or.
  - apply cnt_ext. intros k _. unfold between. destruct (Z.leb_spec (lo / 4096) k), (Z.ltb_spec k (mid / 4096)), (Z.leb_spec (mid / 4096) k), (Z.ltb_spec k (hi / 4096));
      cbn [andb orb]; rewrite ?orb_false_r; try done; lia.
  - intros k _. unfold between. destruct (Z.ltb_spec k (mid / 4096)), (Z.leb_spec (mid / 4096) k); rewrite ?andb_false_r; cbn [andb]; rewrite ?andb_false_r; try done; lia.
Qed.
Lemma gap_pages_in rs r lo hi : r ∈ rs -> aligned lo -> aligned hi -> r_start r <= lo -> hi <= r_end r -> gap_pages rs lo hi = 0.
Proof.
  intros Hr Ha Hb H1 H2. apply cnt_none. intros k _. unfold between. apply andb_false_iff.
  destruct (mapped rs k) eqn:E; [by right|left]. apply not_true_iff_false. intros Hk.
  assert (Hc : contains (4096 * k) r = true).
  { apply contains_iff. unfold aligned in *. pose proof (Z.div_mod lo 4096 ltac:(lia)). pose proof (Z.div_mod hi 4096 ltac:(lia)). lia. }
  apply not_true_iff_false in E. apply E. apply existsb_exists. exists r. split; [by apply list_elem_of_In|done].
Qed.

Section MmCount.
Context {Os : Type} `{!HostOs Os} `{!HostOsOk Os}.
Implicit Types s : MS Os.

Definition in_gap (rs : list Region) (va : Z) : nat := match as_find_region rs va with Some _ => 0 | None => 1 end.
Lemma unmapped_loop_spec fuel va e free s : regions_ok (regs s) -> aligned va -> aligned e -> 0 <= va -> e <= GUEST_TASK_SIZE ->
  (2 * ahead (regs s) va + in_gap (regs s) va < fuel)%nat ->
  unmapped_loop fuel va e free s = free + 4096 * gap_pages (regs s) va e.
Proof.
  intros Hok. revert va free. induction fuel as [|f IH]; intros va free Ha He H0 Ht Hf; [lia|]. cbn [unmapped_loop].
  destruct (Z.ltb_spec va e) as [Hlt|Hge]; [|rewrite gap_pages_empty by lia; lia].
  pose proof Hok as [HF _]. rewrite list.Forall_forall in HF. unfold in_gap in Hf.
  destruct (as_find_region (regs s) va) as [r|] eqn:Ef.
  - apply find_region_some in Ef as [Hr Hc]. pose proof (HF r Hr) as [R1 R2 R3 _ _ _ _].
    pose proof (ahead_lt (regs s) va (r_end r) r Hr ltac:(lia) eq_refl) as Hah.
    rewrite IH; [|done|done|lia|lia|unfold in_gap; destruct (as_find_region _ (r_end r)); lia].
    destruct (Z.leb_spec (r_end r) e) as [Hle|Hgt].
    + rewrite (gap_pages_app _ va (r_end r) e) by lia. rewrite (gap_pages_in _ r va (r_end r)); [lia|done|done|done|lia|lia].
    + rewrite (gap_pages_empty _ (r_end r) e) by lia. rewrite (gap_pages_in _ r va e); [lia|done|done|done|lia|lia].
  - pose proof (next_region_spec (regs s) va None ltac:(done)) as Hn. unfold as_next_region.
    assert (Hout : forall q, q ∈ regs s -> va < r_start q \/ r_end q <= va) by (intros q Hq; by apply (find_region_none (regs s) va q)).
    assert (Hgap : forall stop, va <= stop -> stop <= e -> aligned stop -> (forall q, q ∈ regs s -> r_end q <= va \/ stop <= r_start q) ->
      4096 * gap_pages (regs s) va stop = stop - va).
    { intros stop H1 H2 H3 H4. apply gap_pages_free; [done|done|done|lia|lia|]. intros a Hin.
      destruct (look (regs s) a) as [v|] eqn:El; [|done]. apply look_some in El as (q & Hq & Hcq & _). destruct (H4 q Hq); lia. }
    destruct (next_region_from None (regs s) va) as [nx|].
    + destruct Hn as ([Hx|?] & Hx1 & Hx2); [|done]. pose proof (HF nx Hx) as [R1 R2 R3 _ _ _ _].
      destruct (Hout nx Hx) as [Ho|Ho]; [|lia]. destruct (Z.ltb_spec (r_start nx) e) as [Hs|Hs].
      * assert (Hg := Hgap (r_start nx) ltac:(lia) ltac:(lia) R2 (fun q Hq => Hx2 q (or_introl Hq))).
        assert (Hah : (ahead (regs s) (r_start nx) <= ahead (regs s) va)%nat).
        { unfold ahead. clear -Ho. induction (regs s) as [|q l IHl]; [done|]. rewrite !filter_cons. repeat case_decide; simpl; lia. }
        assert (Hfx : exists y, as_find_region (regs s) (r_start nx) = Some y).
        { destruct (as_find_region (regs s) (r_start nx)) as [y|] eqn:Ey; [by exists y|].
          pose proof (find_region_none _ _ nx Ey Hx). lia. }
        destruct Hfx as [y Ey].
        rewrite IH; [|done|done|lia|lia|unfold in_gap; rewrite Ey; lia].
        rewrite (gap_pages_app _ va (r_start nx) e) by lia. lia.
      * assert (Hg := Hgap e ltac:(lia) ltac:(lia) He (fun q Hq => match Hx2 q (or_introl Hq) with or_introl a => or_introl a | or_intror b => or_intror (Z.le_trans _ _ _ Hs b) end)).
        destruct f; cbn [unmapped_loop]; [lia|]. rewrite (proj2 (Z.ltb_ge e e)) by lia. lia.
    + destruct Hn as [_ Hx2]. assert (Hg := Hgap e ltac:(lia) ltac:(lia) He (fun q Hq => or_introl (Hx2 q Hq))).
      destruct f; cbn [unmapped_loop]; [lia|]. rewrite (proj2 (Z.ltb_ge e e)) by lia. lia.
Qed.
Lemma range_unmapped_spec addr len s : regions_ok (regs s) -> aligned addr -> aligned len -> 0 <= addr ->
  addr + len <= GUEST_TASK_SIZE -> range_unmapped_bytes addr len s = 4096 * gap_pages (regs s) addr (addr + len).
Proof.
  intros Hok Ha Hl H0 Ht. unfold range_unmapped_bytes. rewrite unmapped_loop_spec; [lia|done|done|by apply aligned_add|done|done|].
  pose proof (ahead_le (regs s) addr). unfold in_gap. destruct (as_find_region _ addr); lia.
Qed.

(** ** What the operations add *)
Lemma view_bytes s s' : as_inv s -> as_inv s' -> same_view s s' -> as_mapped_bytes (regs s') = as_mapped_bytes (regs s).
Proof.
  intros H1 H2 [V1 _ _]. apply mapped_bytes_view; [apply (hi_regs _ (ai_heap s H1))|apply (hi_regs _ (ai_heap s' H2))|].
  intros a. by rewrite V1.
Qed.
Lemma mapped_anon_bytes addr len prot s s' : as_inv s -> as_inv s' -> aligned addr -> aligned len -> mapped_anon addr len prot s s' ->
  as_mapped_bytes (regs s') = as_mapped_bytes (regs s) + 4096 * gap_pages (regs s) addr (addr + len).
Proof.
  intros H1 H2 Ha Hl [M1 _ _ M4]. apply mapped_bytes_more; [apply (hi_regs _ (ai_heap s H1))|apply (hi_regs _ (ai_heap s' H2))|done|by apply aligned_add|].
  intros a. destruct (decide (addr <= a < addr + len)) as [Hin|Hout].
  - destruct (M1 a Hin) as (v & -> & _). split; [by right|by eexists].
  - destruct (M4 a Hout) as [-> _]. split; [by left|]. by intros [?|?].
Qed.
Lemma grown_bytes addr r s s' : as_inv s -> as_inv s' -> aligned addr -> region_ok r -> 0 <= addr < r_start r -> free_of (regs s) addr (r_start r) ->
  grown addr r s s' -> as_mapped_bytes (regs s') = as_mapped_bytes (regs s) + (r_start r - addr).
Proof.
  intros H1 H2 Ha Hr Hlt Hf [G1 G2]. pose proof (hi_regs _ (ai_heap s H1)) as Hok. destruct Hr as [R1 R2 R3 _ _ _ _].
  rewrite (mapped_bytes_more (regs s) (regs s') addr (r_start r)); [|done|apply (hi_regs _ (ai_heap s' H2))|done|done|].
  - rewrite (gap_pages_free _ addr (r_start r)); [done|done|done|done|lia|lia|]. intros a Hin.
    destruct (look (regs s) a) as [v|] eqn:El; [|done]. apply look_some in El as (q & Hq & Hcq & _).
    unfold free_of in Hf. rewrite list.Forall_forall in Hf. specialize (Hf q Hq). lia.
  - intros a. destruct (decide (addr <= a < r_start r)) as [Hin|Hout].
    + destruct (G1 a Hin) as ((v & -> & _) & _). split; [by right|by eexists].
    + destruct (G2 a Hout) as [-> _]. split; [by left|]. by intros [?|?].
Qed.
End MmCount.
