(* ===== verification/MmCalls.v ===== *)
(** * MmCalls: the memory calls of a guest

    What brk, munmap, mprotect, mmap of private anonymous memory and ordinary
    accesses do to the address space, one call at a time, and the invariant
    they keep together. *)

From stdpp Require Import gmap.
From S2P Require Import Prelude Types Cpu MemSeam PageTable Regions Epoch AsState AddrSpace AsInv AsSteps AsThms.
From S2P Require Import AsProtect AsMove Translate AsGrow TransThms MmStep MmReach SysMm MmCount.

Lemma prot_fits l prot : fits 3 (Z.lor (prot_g2pte prot) (prot_rie l prot)).
Proof.
  unfold prot_g2pte, prot_rie. destruct (has prot PROT_READ && ml_rie l), (has prot PROT_READ), (has prot PROT_WRITE), (has prot PROT_EXEC); done.
Qed.
Lemma brk_prot_fits l : fits 3 (Z.lor (Z.lor PTE_R PTE_W) (prot_rie l PROT_READ)).
Proof. unfold prot_rie. by destruct (has PROT_READ PROT_READ && ml_rie l). Qed.
(** [PG_UP] rounds up, or wraps to zero. *)
Lemma pg_up_spec x : fits 64 x -> aligned (PG_UP x) /\ (x <= PG_UP x < x + 4096 \/ PG_UP x = 0 /\ 2 ^ 64 - 4096 < x).
Proof.
  intros Hx. unfold PG_UP. change GUEST_PAGE_MASK with (Z.ones 12). rewrite land_not64_ones; [|apply fits_u64|lia].
  change (2 ^ 12) with 4096. change (Z.ones 12) with 4095. unfold u64, fits in *. split; [unfold aligned; wsolve|]. wsolve.
Qed.
Lemma aligned_0 : aligned 0.
Proof. done. Qed.
Lemma untag_fits va : fits 64 (a64_untag va).
Proof. apply fits_u64. Qed.

Section MmLife.
Context {Os : Type} `{!HostOs Os} `{!HostOsOk Os} `{!MmHost Os}.
Implicit Types s : MS Os.

(** ** Finishing an operation *)
Lemma finish_mstep d rc s s1 : mstep s s1 -> mstep s (snd (finish d (rc, s1))) \/
  exists s2, mstep s s2 /\ snd (finish d (rc, s1)) = as_drain_retired s2.
Proof.
  intros H. unfold finish. cbn [snd]. assert (H2 : mstep s (if rc =? 0 then as_account s1 else s1)).
  { destruct (rc =? 0); [|done]. eapply mstep_trans; [exact H|apply account_mstep]. }
  destruct d; [right; eauto|by left].
Qed.
Lemma finish_attr d rc s s1 : mstep s s1 -> let s' := snd (finish d (rc, s1)) in
  as_fixed (ms_as s') = as_fixed (ms_as s) /\ (place_ok (ms_as s) -> place_ok (ms_as s')) /\ ms_env s' = ms_env s.
Proof.
  intros H. destruct (finish_mstep d rc s s1 H) as [H2|(s2 & H2 & ->)]; cbn zeta; [by destruct H2|]. rewrite drain_eff. by destruct H2.
Qed.
(** A whole operation: the space, what no operation changes, and its effect. *)
Record op_done (rc : Z) s s' (done refused : Prop) : Prop := {
  od_space : space_ok s';
  od_attr : as_fixed (ms_as s') = as_fixed (ms_as s);
  od_place : place_ok (ms_as s) -> place_ok (ms_as s');
  od_env : ms_env s' = ms_env s;
  od_case : (rc = 0 /\ done) \/ (-4096 < rc < 0 /\ refused)
}.
(** A new private mapping made by the body of [guest_map_anon] or
    [guest_map_stack]. *)
Definition new_memory (addr len prot : Z) s s' : Prop :=
  aligned addr /\ aligned len /\ addr + len <= GUEST_TASK_SIZE /\ mapped_anon addr len prot s s'.
Lemma finish_new addr len prot rc s s1 : space_ok s -> mut_ok s s1 -> as_inv s1 -> rc = 0 \/ -4096 < rc < 0 ->
  (rc = 0 -> aligned addr /\ aligned len /\ addr + len <= GUEST_TASK_SIZE) ->
  (rc = 0 /\ mapped_anon addr len prot s s1) \/ (rc <> 0 /\ same_view s s1) ->
  let '(rc', s') := finish true (rc, s1) in op_done rc' s s' (new_memory addr len prot s s') (same_view s s').
Proof.
  intros Hs [Hm Hc] Hi Hneg Hg H. pose proof (core_space s _ Hs (core_finish _ true rc _ Hc)) as Hsp.
  destruct (finish_attr true rc s _ Hm) as (E1 & E3 & E2). destruct (as_inv_finish true rc s1 Hi) as (_ & _ & [V1 V2 V3]).
  set (s2 := snd (finish true (rc, s1))) in *. change (finish true (rc, s1)) with (rc, s2).
  split; [done|done|done|done|]. destruct H as [[-> [M1 M2 M3 M4]]|[Hne V]]; [left|right].
  - split; [done|]. destruct (Hg eq_refl) as (G1 & G2 & G3). repeat (split; [done|]). split; intros a Ha'; rewrite ?V1, ?V2, ?V3; auto.
  - split; [lia|]. by apply (same_view_trans _ s1).
Qed.
Lemma map_anon_done addr len prot s : space_ok s -> 0 <= addr -> 0 <= len -> fits 3 prot ->
  let '(rc, s') := guest_map_anon addr len prot s in op_done rc s s' (new_memory addr len prot s s') (same_view s s').
Proof.
  intros Hs Ha Hl Hp. pose proof (map_anon_impl_ok s addr len prot (sp_inv s Hs) Ha Hl Hp) as H.
  pose proof (map_anon_core addr len prot s (sp_core s Hs) Ha Hl Hp) as Hmut. unfold guest_map_anon.
  assert (Hg : let rc := fst (guest_map_anon_impl addr len prot s) in (rc = 0 \/ -4096 < rc < 0) /\
    (rc = 0 -> aligned addr /\ aligned len /\ addr + len <= GUEST_TASK_SIZE)).
  { unfold guest_map_anon_impl. destruct (misaligned _ || _ || _) eqn:Eg; [split; [by right|done]|].
    destruct (map_guard addr len Ha Hl Eg) as (G1 & G2 & _ & G3).
    assert (Hr : aligned addr /\ aligned len /\ addr + len <= GUEST_TASK_SIZE) by (split; [done|split; [done|lia]]).
    destruct (host_alloc len s) as [[h|] s1]; cbn zeta; cbn [fst hmap_new]; (split; [by (left + right)|done]). }
  destruct (guest_map_anon_impl addr len prot s) as [rc s1]. destruct H as [Hi H], Hg as [G1 G2]. by apply finish_new.
Qed.
Lemma map_stack_done addr len prot s : space_ok s -> 0 <= addr -> 0 <= len -> fits 3 prot ->
  let '(rc, s') := guest_map_stack addr len prot s in op_done rc s s' (new_memory addr len prot s s') (same_view s s').
Proof.
  intros Hs Ha Hl Hp. pose proof (map_stack_impl_ok s addr len prot (sp_inv s Hs) Ha Hl Hp) as H.
  pose proof (map_stack_core addr len prot s (sp_core s Hs) Ha Hl Hp) as Hmut. unfold guest_map_stack.
  assert (Hg : let rc := fst (guest_map_stack_impl addr len prot s) in (rc = 0 \/ -4096 < rc < 0) /\
    (rc = 0 -> aligned addr /\ aligned len /\ addr + len <= GUEST_TASK_SIZE)).
  { unfold guest_map_stack_impl. destruct (misaligned _ || _ || _) eqn:Eg; [split; [by right|done]|].
    destruct (map_guard addr len Ha Hl Eg) as (G1 & G2 & _ & G3). destruct (host_len_ok len); [|by split; [right|]].
    assert (Hr : aligned addr /\ aligned len /\ addr + len <= GUEST_TASK_SIZE) by (split; [done|split; [done|lia]]).
    destruct (stack_reserve _ _ len s) as [[[b r]|] s1]; [|by split; [right|]].
    destruct (hmap_new b r s1) as [hm s2]. split; [by left|done]. }
  destruct (guest_map_stack_impl addr len prot s) as [rc s1]. destruct H as [Hi H], Hg as [G1 G2]. by apply finish_new.
Qed.
(** The range is gone; the rest is as it was. *)
Definition range_gone (addr len : Z) s s' : Prop :=
  (forall a, addr <= a < addr + len -> look (regs s') a = None) /\
  (forall a, ~ addr <= a < addr + len -> look (regs s') a = look (regs s) a /\ guest_byte s' a = guest_byte s a).
Lemma unmap_done addr len s : space_ok s -> 0 <= addr -> 0 <= len ->
  let '(rc, s') := guest_unmap addr len s in op_done rc s s' (range_gone addr len s s') (same_view s s').
Proof.
  intros Hs Ha Hl. pose proof (unmap_core addr len s (sp_core s Hs) Ha Hl) as [Hm Hc]. unfold guest_unmap.
  pose proof (core_space s _ Hs (core_finish _ true (fst (guest_unmap_impl addr len s)) _ Hc)) as Hsp.
  destruct (finish_attr true (fst (guest_unmap_impl addr len s)) s _ Hm) as (E1 & E3 & E2).
  unfold guest_unmap_impl in *. destruct (misaligned _ || _ || _) eqn:E; cbn [fst snd] in *.
  - destruct (as_inv_finish true (- EINVAL) s (sp_inv s Hs)) as (_ & _ & V).
    change (finish true (- EINVAL, s)) with (- EINVAL, snd (finish true (- EINVAL, s))). split; [done|done|done|done|by right].
  - rewrite !orb_false_iff, negb_false_iff, misaligned_false, aligned_lor, range_ok_iff in E. destruct E as [[[Ea El] E0] Er].
    destruct (unmap_ok s addr len (sp_inv s Hs) Ea El ltac:(lia) Ha ltac:(lia)) as (U1 & U2 & U3).
    pose proof (ts_mem _ _ (proj1 (proj2 (punch_ok addr (addr + len) Ea (aligned_add _ _ Ea El) ltac:(lia) s (ai_heap s (sp_inv s Hs)))))) as Em.
    set (s1 := pte_set_range addr len 0 0 _) in *. destruct (as_inv_finish true 0 s1 U1) as (_ & _ & [V1 V2 V3]).
    change (finish true (0, s1)) with (0, snd (finish true (0, s1))). split; [done|done|done|done|]. left. split; [done|]. split; intros a Ha'.
    + rewrite V1, U2. rewrite (proj2 (andb_true_iff _ _)) by lia. done.
    + rewrite V1, V3, U2. unfold guest_byte. rewrite U2. replace ((addr <=? a) && (a <? addr + len)) with false by lia.
      split; [done|]. change (ms_mem s1) with (ms_mem (region_punch addr (addr + len) s)). by rewrite Em.
Qed.
Lemma protect_done addr len prot s : protect_whole addr len prot s -> space_ok s -> 0 <= addr -> 0 < len -> fits 3 prot ->
  let '(rc, s') := guest_protect addr len prot s in op_done rc s s' (protected addr len prot s s') (same_view s s').
Proof.
  intros Hg Hs Ha Hl Hp. pose proof (protect_core addr len prot s Hg (sp_core s Hs) Ha Hl Hp) as [Hm Hc].
  pose proof (protect_impl_ok addr len prot s (sp_inv s Hs) Ha Hl Hp) as H. pose proof (core_space s _ Hs Hc) as Hsp.
  assert (Hn : fst (guest_protect_impl addr len prot s) = 0 \/ -4096 < fst (guest_protect_impl addr len prot s) < 0).
  { unfold guest_protect_impl. destruct (misaligned _); [by right|]. destruct (negb _); [by right|]. destruct (negb _); [by right|].
    destruct (_ && _); [by right|]. cbn zeta. destruct (protect_loop _ _ _ _ _ _) as [[] s2]; [by left|by right]. }
  apply (protect_refused _ _ _ _) in Hg; [|apply Hs]. unfold guest_protect in *. destruct (guest_protect_impl addr len prot s) as [rc s']. cbn [fst snd] in *. destruct H as (Hi & H & _).
  split; [done|apply Hm|apply Hm|apply Hm|]. destruct Hn as [->|Hn]; [left; split; [done|by apply H]|right]. split; [done|].
  destruct Hg as [->|[T L]]; [lia|]. split; intros va; [apply L|by rewrite (ts_pt _ _ T)|].
  unfold guest_byte. by rewrite L, (ts_mem _ _ T).
Qed.

(** *** The locks on new memory *)

(** The lock new mappings get is [as_lock_all]'s to change. *)
Lemma insert_def r s : as_def_lock (ms_as (region_insert r s)) = as_def_lock (ms_as s).
Proof. unfold region_insert. by destruct (tr (r_mfdcnt r)). Qed.
Lemma delete_def i s : as_def_lock (ms_as (region_delete i s)) = as_def_lock (ms_as s).
Proof. unfold region_delete. destruct (regs s !! i) as [r|]; [|done]. by destruct (tr (r_mfdcnt r)). Qed.
Lemma unref_def h s : as_def_lock (ms_as (hmap_unref h s)) = as_def_lock (ms_as s).
Proof. unfold hmap_unref. cbn zeta. destruct (_ =? 0); [destruct (negb _)|]; done. Qed.
Lemma locked_def r lo hi s : as_def_lock (ms_as (locked_sub r lo hi s)) = as_def_lock (ms_as s).
Proof. unfold locked_sub. by destruct (has _ _). Qed.
Lemma punch_def fuel i lo hi s : as_def_lock (ms_as (punch_loop fuel i lo hi s)) = as_def_lock (ms_as s).
Proof.
  revert i s. induction fuel as [|f IH]; intros i s; simpl; [done|]. destruct (regs s !! i) as [r|]; [|done]. destruct (_ || _); [apply IH|].
  destruct (_ && _); [by rewrite IH, delete_def, unref_def, locked_def|]. destruct (_ =? _); [rewrite IH; apply (locked_def r)|].
  destruct (_ =? _); [rewrite IH; apply (locked_def r)|]. rewrite IH, insert_def. apply (locked_def r).
Qed.
Lemma finish_def d rc s : as_def_lock (ms_as (snd (finish d (rc, s)))) = as_def_lock (ms_as s).
Proof.
  assert (E : as_def_lock (ms_as (if rc =? 0 then as_account s else s)) = as_def_lock (ms_as s)).
  { destruct (rc =? 0); [|done]. unfold as_account, as_procmem. cbn zeta. by destruct (_ <? _). }
  unfold finish. cbn [snd]. destruct d; [by rewrite drain_eff|done].
Qed.
Lemma map_anon_def addr len prot s : as_def_lock (ms_as (snd (guest_map_anon addr len prot s))) = as_def_lock (ms_as s).
Proof.
  unfold guest_map_anon. enough (E : as_def_lock (ms_as (snd (guest_map_anon_impl addr len prot s))) = as_def_lock (ms_as s)).
  { destruct (guest_map_anon_impl addr len prot s) as [rc s1]. by rewrite finish_def. }
  unfold guest_map_anon_impl. destruct (_ || _ || _); [done|]. unfold host_alloc, host_mmap. destruct (host_len_ok len); [|done].
  destruct (os_mmap _ _ _) as [[p|] o]; [|done]. cbn [hmap_new snd]. set (s1 := upd_ms_mem _ _). set (s2 := region_punch addr (addr + len) s1).
  set (s3 := upd_ms_next _ _). transitivity (as_def_lock (ms_as (region_insert (anon_region addr len prot p (ms_next s2)) s3))); [done|].
  rewrite insert_def. transitivity (as_def_lock (ms_as s1)); [apply punch_def|done].
Qed.
Definition locked_range (addr len lock : Z) s : Prop :=
  forall a, addr <= a < addr + len -> exists v, look (regs s) a = Some v /\ r_lock v = lock.
Lemma bare_byte s s' a : same_maps s s' -> guest_byte s' a = guest_byte s a.
Proof.
  intros M. pose proof (sm_look _ _ M a) as E. unfold guest_byte. rewrite (sm_mem _ _ M).
  destruct (look (regs s') a) as [v'|], (look (regs s) a) as [v|]; try done. apply (inj Some) in E. simpl.
  by destruct (bare_fields v' v E) as (_ & _ & _ & _ & -> & _).
Qed.
Lemma lock_new_done addr len pte lock s s1 : space_ok s1 -> 0 <= len -> new_memory addr len pte s s1 ->
  let s' := as_lock_new addr len lock s1 in
  mut_ok s1 s' /\ new_memory addr len pte s s' /\ locked_range addr len lock s'.
Proof.
  intros Hs H0 (N1 & N2 & N3 & [M1 M2 M3 M4]). cbn zeta. pose proof (ai_heap s1 (sp_inv s1 Hs)) as Hi.
  pose proof (marked_lock_new addr len lock s1 Hi N1 N2) as Hmk. pose proof (marked_mut s1 _ (sp_core s1 Hs) Hmk) as Hmut.
  destruct Hmk as (_ & _ & SM).
  assert (Hl : forall a, look (regs (as_lock_new addr len lock s1)) a =
    if (addr <=? a) && (a <? addr + len) then with_lock lock <$> look (regs s1) a else look (regs s1) a).
  { apply lock_new_look; [done|done|done|done|]. intros a Ha. destruct (M1 a Ha) as (v & -> & _). done. }
  set (s' := as_lock_new addr len lock s1) in *.
  assert (Hin : forall a, addr <= a < addr + len -> exists v, look (regs s1) a = Some v /\ r_prot v = pte /\ r_shared v = 0 /\ r_file v = 0 /\
    r_special v = 0 /\ look (regs s') a = Some (r_with_lock lock v)).
  { intros a Ha. destruct (M1 a Ha) as (v & Ev & E1 & E2 & E3 & E4). exists v. rewrite Hl, Ev, (proj2 (andb_true_iff _ _)) by lia.
    repeat (split; [done|]). simpl. unfold with_lock. by rewrite E4. }
  split; [done|]. split; [|intros a Ha; destruct (Hin a Ha) as (v & _ & _ & _ & _ & _ & ->); by eexists].
  split; [done|]. split; [done|]. split; [done|]. split.
  - intros a Ha. destruct (Hin a Ha) as (v & _ & E1 & E2 & E3 & E4 & ->). by eexists.
  - intros a Ha. rewrite (sm_pt _ _ SM). by apply M2.
  - intros a Ha. rewrite (bare_byte s1 s') by done. by apply M3.
  - intros a Ha. rewrite (sm_pt _ _ SM), (bare_byte s1 s'), Hl by done. replace ((addr <=? a) && (a <? addr + len)) with false by lia. by apply M4.
Qed.
End MmLife.

(** * What brk, mmap, munmap and mprotect do

    Each call, from the words the guest passes to the answer in x0: where
    mmap may put a mapping, what the limits let through, and the effect on
    every byte of guest memory. *)

Section MmCalls.
Context {Os : Type} `{!HostOs Os} `{!HostOsOk Os} `{!MmHost Os}.
Implicit Types s : MS Os.

(** ** Ground that is free *)
Definition free_range s (lo n : Z) : Prop := forall a, lo <= a < lo + n -> look (regs s) a = None.
Lemma pages_unmapped_free n va s : regions_ok (regs s) -> aligned va ->
  pages_unmapped n va s = true -> free_range s va (4096 * Z.of_nat n).
Proof.
  intros Hok. revert va. induction n as [|n IH]; intros va Ha H a Hin; [lia|]. cbn [pages_unmapped] in H.
  destruct (as_find_region (regs s) va) as [r|] eqn:E; [done|]. change GUEST_PAGE_SIZE with 4096 in H.
  destruct (decide (a < va + 4096)) as [Hlt|Hge]; [|apply (IH (va + 4096)); [by apply aligned_add|done|lia]].
  destruct (look (regs s) a) as [v|] eqn:El; [|done]. apply look_some in El as (r & Hr & Hc & _).
  pose proof (find_region_none _ _ _ E Hr). pose proof Hok as [HF _]. rewrite list.Forall_forall in HF.
  destruct (HF r Hr) as [_ H2 H3 _ _ _ _]. unfold aligned in *.
  pose proof (Z.div_mod va 4096). pose proof (Z.div_mod (r_start r) 4096). pose proof (Z.div_mod (r_end r) 4096). lia.
Qed.
Lemma npages_aligned len : aligned len -> 0 <= len -> 4096 * Z.of_nat (npages len) = len.
Proof.
  intros Ha Hl. unfold npages, aligned in *. change GUEST_PAGE_MASK with 4095. change GUEST_PAGE_SIZE with 4096.
  rewrite Z2Nat.id by (apply Z.div_pos; lia). pose proof (Z.div_mod len 4096). replace (len + 4095) with (4095 + len / 4096 * 4096) by lia.
  rewrite Z.div_add by lia. change (4095 / 4096) with 0. lia.
Qed.
Lemma pg_up_same len : aligned len -> 0 <= len <= GUEST_TASK_SIZE -> PG_UP len = len.
Proof.
  intros Ha Hl. change GUEST_TASK_SIZE with (2 ^ 47) in Hl. destruct (pg_up_spec len ltac:(unfold fits; lia)) as [H1 [H2|H2]]; [|lia].
  unfold aligned in *. pose proof (Z.div_mod len 4096). pose proof (Z.div_mod (PG_UP len) 4096). lia.
Qed.
Lemma pg_up_nonneg x : 0 <= PG_UP x.
Proof. unfold PG_UP. apply Z.land_nonneg. right. done. Qed.

(** ** Where a mapping goes *)

(** A search changes at most the hint for the next one. *)
Record quiet s s' : Prop := {
  qu_mut : mut_ok s s';
  qu_regs : regs s' = regs s;
  qu_view : same_view s s';
  qu_def : as_def_lock (ms_as s') = as_def_lock (ms_as s)
}.
Lemma quiet_refl s : space_ok s -> quiet s s.
Proof. intros Hs. split; [apply mut_ok_refl, Hs|done..]. Qed.
Lemma find_free_quiet len s : space_ok s -> 0 <= len <= GUEST_TASK_SIZE -> quiet s (snd (as_find_free len s)).
Proof.
  intros Hs Hl. pose proof (find_free_mut len s (sp_core s Hs) Hl) as Hm. unfold as_find_free, as_find_free_impl in *.
  by destruct (as_find_free_scan _ _ _).
Qed.
Lemma find_free_place len s : space_ok s -> place_ok (ms_as s) -> 0 <= len <= GUEST_TASK_SIZE ->
  let '(b, s') := as_find_free len s in quiet s s' /\ 0 <= b /\ (b <> 0 -> free_range s b (PG_UP len)) /\ (b = 0 -> s' = s).
Proof.
  intros Hs Hp Hl. pose proof (find_free_ok len s (sp_core s Hs) Hl Hp) as Hf. pose proof (find_free_quiet len s Hs Hl) as Hq.
  destruct (as_find_free len s) as [b s']. cbn [snd] in Hq. split; [done|].
  destruct Hf as [(F1 & _ & _ & _ & _ & F6)|(-> & -> & _)]; [|done]. split; [lia|]. split; [done|lia].
Qed.
Lemma hint_place a0 len s : regions_ok (regs s) -> fits 64 a0 -> 0 <= env_min_addr (ms_env s) ->
  0 <= mmap_hint a0 len s /\ (mmap_hint a0 len s <> 0 -> free_range s (mmap_hint a0 len s) len).
Proof.
  intros [HF _] Ha Hm. rewrite list.Forall_forall in HF. unfold mmap_hint.
  assert (Hd : 0 <= PG_DOWN a0) by (apply Z.land_nonneg; by right).
  set (h := if _ && _ then env_min_addr _ else _). assert (Hh : 0 <= h) by (unfold h; destruct (_ && _); lia).
  destruct (_ && _ && _) eqn:E; [|done]. split; [done|]. intros _ a Hin.
  apply andb_true_iff in E as [_ E%negb_true_iff]. destruct (look (regs s) a) as [v|] eqn:El; [|done].
  apply look_some in El as (r & Hr & Hc & _). apply not_true_iff_false in E. destruct E. apply existsb_exists.
  exists r. split; [by apply list_elem_of_In|]. pose proof (gap_start_le r ltac:(apply (HF r Hr))). lia.
Qed.
Lemma stack_place_ok len s : space_ok s -> place_ok (ms_as s) -> 0 <= len ->
  let '(b, s') := mmap_stack_place len s in quiet s s' /\ 0 <= b /\ (b <> 0 -> free_range s b len) /\ (b = 0 -> s' = s).
Proof.
  intros Hs Hp Hl. unfold mmap_stack_place. set (room0 := if _ <? GROWS_ROOM_MAX then _ else _).
  set (room := (if len <? room0 then _ else _) + STACK_GUARD_GAP).
  assert (Hr : 0 < room) by (unfold room; change STACK_GUARD_GAP with 1048576; destruct (Z.ltb_spec len room0); lia).
  destruct (Z.leb_spec len (GUEST_TASK_SIZE - room)) as [Hle|Hle]; [|by split; [apply quiet_refl|]].
  pose proof (find_free_place (len + room) s Hs Hp ltac:(lia)) as Hf. pose proof (pg_up_range (len + room) ltac:(lia)) as Hu.
  destruct (as_find_free (len + room) s) as [a s']. destruct Hf as (F1 & F2 & F3 & F4).
  destruct (Z.eqb_spec a 0) as [E|E]; (split; [done|]); [split; [done|]; split; [done|]; intros _; by apply F4|]. split; [lia|]. split; [|lia].
  intros _ x Hx. apply (F3 E). lia.
Qed.
(** Neither MAP_FIXED nor MAP_FIXED_NOREPLACE. *)
Definition unfixed (flags : Z) : bool := negb (has flags (Z.lor G_MAP_FIXED G_MAP_FIXED_NOREPLACE)).
Definition refused (r : Z) s s' : Prop := (exists e, 0 < e < 4096 /\ r = errno e) /\ same_view s s'.
Record placed (a0 len flags addr : Z) s : Prop := {
  pl_pos : 0 <= addr;
  pl_fixed : unfixed flags = false -> addr = a0;
  pl_free : unfixed flags = true \/ has flags G_MAP_FIXED_NOREPLACE = true -> free_range s addr len
}.
Lemma fixed_placed a0 len flags s : unfixed flags = false -> fits 64 a0 ->
  (has flags G_MAP_FIXED_NOREPLACE = true -> free_range s a0 len) -> placed a0 len flags a0 s.
Proof. intros Hu Ha H. split; [apply Ha|done|]. intros [E|E]; [congruence|auto]. Qed.
Lemma free_placed a0 len flags b s : unfixed flags = true -> 0 <= b -> free_range s b len -> placed a0 len flags b s.
Proof. intros Hu Hb Hf. split; [done|congruence|done]. Qed.
Lemma mmap_place_ok a0 len flags s : space_ok s -> place_ok (ms_as s) -> 0 <= env_min_addr (ms_env s) -> fits 64 a0 ->
  aligned len -> 0 < len <= GUEST_TASK_SIZE ->
  match mmap_place a0 len flags s with
  | (inl e, s') => quiet s s' /\ 0 < e < 4096
  | (inr addr, s') => quiet s s' /\ placed a0 len flags addr s
  end.
Proof.
  intros Hs Hp Hm Ha Hal Hl. pose proof (hi_regs _ (ai_heap s (sp_inv s Hs))) as Hok. unfold mmap_place.
  destruct (has flags (Z.lor _ _)) eqn:Ef.
  - assert (Hu : unfixed flags = false) by (unfold unfixed; by rewrite Ef). pose proof (quiet_refl s Hs) as Hq.
    destruct (misaligned a0) eqn:E1; [done|]. destruct (_ <? a0); [done|]. destruct (_ <? _); [done|].
    destruct (has flags G_MAP_FIXED_NOREPLACE) eqn:En; [|split; [done|by apply fixed_placed; rewrite ?En]].
    destruct (pages_unmapped _ _ _) eqn:Eu; [|done]. split; [done|]. apply fixed_placed; [done|done|]. intros _.
    rewrite <- (npages_aligned len) by (done || lia). apply pages_unmapped_free; [done|by apply misaligned_false|done].
  - assert (Hu : unfixed flags = true) by (unfold unfixed; by rewrite Ef).
    destruct (hint_place a0 len s Hok Ha Hm) as [H1 H2]. set (h := mmap_hint a0 len s) in *. cbn zeta.
    pose proof (stack_place_ok len s Hs Hp ltac:(lia)) as Hst.
    set (q := if (h =? 0) && _ then mmap_stack_place len s else (h, s)).
    assert (Hq : let '(b, s') := q in quiet s s' /\ 0 <= b /\ (b <> 0 -> free_range s b len) /\ (b = 0 -> s' = s)).
    { unfold q. destruct (_ && _); [done|]. by split; [apply quiet_refl|]. }
    clear Hst. destruct q as [b s1]. destruct Hq as (Q1 & Q2 & Q3 & Q4). destruct (Z.eqb_spec b 0) as [Eb|Eb].
    + rewrite (Q4 Eb). pose proof (find_free_place len s Hs Hp ltac:(lia)) as Hf. rewrite pg_up_same in Hf by (done || lia).
      destruct (as_find_free len s) as [b2 s2]. destruct Hf as (F1 & F2 & F3 & _).
      destruct (Z.eqb_spec b2 0) as [E2|E2]; [done|]. split; [done|]. apply free_placed; auto.
    + rewrite (proj2 (Z.eqb_neq b 0) Eb). split; [done|]. apply free_placed; auto.
Qed.

(** ** The limits *)
Lemma range_gap addr len s : regions_ok (regs s) -> 0 <= 4096 * gap_pages (regs s) addr (addr + len) <= GUEST_TASK_SIZE.
Proof. intros _. unfold gap_pages. match goal with |- context [cnt ?f ?n] => pose proof (cnt_bound f n) end. pose proof npages_task. lia. Qed.
Lemma mapped_bound rs : regions_ok rs -> 0 <= as_mapped_bytes rs <= GUEST_TASK_SIZE.
Proof. intros H. rewrite mapped_bytes_cnt by done. pose proof (cnt_bound (mapped rs) NPAGES). pose proof npages_task. lia. Qed.
Lemma as_fits_bound add s : regions_ok (regs s) -> 0 <= add <= GUEST_TASK_SIZE -> as_fits add s = true ->
  as_mapped_bytes (regs s) + add <= env_as (ms_env s).
Proof.
  intros Hok Ha. unfold as_fits. pose proof (mapped_bound _ Hok) as Hb. change GUEST_TASK_SIZE with (2 ^ 47) in *.
  destruct (Z.eqb_spec (env_as (ms_env s)) RLIM_INFINITY) as [->|_]; [intros _; change RLIM_INFINITY with (2 ^ 64 - 1); lia|].
  destruct (Z.ltb_spec (env_as (ms_env s)) add); [done|]. lia.
Qed.
Definition small_err (e : Z) : Prop := e = 0 \/ 0 < e < 4096.
Lemma growsdown_anon mtype prot flags fd pe s : has flags G_MAP_ANONYMOUS = true ->
  small_err (mmap_growsdown_err mtype prot flags fd pe s).
Proof.
  intros Ha. unfold mmap_growsdown_err, small_err. destruct (has flags G_MAP_GROWSDOWN); [|by left]. rewrite Ha. cbn [negb].
  destruct (mtype =? G_MAP_SHARED); [by right|by left].
Qed.
Lemma judge_ok l addr len pte prot flags fd pe s : has flags G_MAP_ANONYMOUS = true ->
  let e := mmap_judge l addr len pte prot flags fd pe s in
  small_err e /\ (e = 0 -> as_fits (range_unmapped_bytes addr len s) s = true).
Proof.
  intros Ha. cbn zeta. unfold mmap_judge. cbn zeta. pose proof (growsdown_anon (Z.land flags G_MAP_TYPE) prot flags fd pe s Ha) as Hg.
  destruct (has flags G_MAP_LOCKED && _ && _); [by split; [right|]|]. destruct (negb (as_mlock_future_ok _ _ _)); [by split; [right|]|].
  destruct (_ && _ && _); [by split; [right|]|].
  destruct (Z.eqb_spec (mmap_growsdown_err (Z.land flags G_MAP_TYPE) prot flags fd pe s) 0) as [_|E]; cbn [negb]; [|by split; [exact Hg|]].
  destruct (as_fits _ s); cbn [negb]; [|by split; [right|]].
  destruct (_ && _ && _); [by split; [right|]|by split; [left|]].
Qed.

(** ** mmap of private anonymous memory *)
Record kept_space s s' : Prop := {
  ks_space : space_ok s';
  ks_fixed : as_fixed (ms_as s') = as_fixed (ms_as s);
  ks_place : place_ok (ms_as s) -> place_ok (ms_as s');
  ks_env : ms_env s' = ms_env s
}.
Lemma quiet_kept s s' : space_ok s -> quiet s s' -> kept_space s s'.
Proof. intros Hs [[Hm Hc] _ _]. split; [by apply (core_space s)|apply Hm..]. Qed.
Lemma od_kept rc s s' P Q : op_done rc s s' P Q -> kept_space s s'.
Proof. by intros []. Qed.
Lemma kept_trans s1 s2 s3 : kept_space s1 s2 -> kept_space s2 s3 -> kept_space s1 s3.
Proof. intros [] []. split; [done|congruence|auto|congruence]. Qed.
Definition priv_anon (flags : Z) : bool :=
  has flags G_MAP_ANONYMOUS && negb (has flags G_MAP_SHARED).
Lemma new_memory_from addr len pte s s1 s' : same_view s s1 -> new_memory addr len pte s1 s' -> new_memory addr len pte s s'.
Proof.
  intros [V1 V2 V3] (N1 & N2 & N3 & [M1 M2 M3 M4]). repeat (split; [done|]). split; [done|done|done|].
  intros a Hout. rewrite <- V1, <- V2, <- V3. auto.
Qed.
Lemma make_done addr len pte flags fd off pe s : priv_anon flags = true -> space_ok s -> 0 <= addr -> 0 <= len -> fits 3 pte ->
  let '(rc, s') := mmap_make addr len pte flags fd off pe s in op_done rc s s' (new_memory addr len pte s s') (same_view s s').
Proof.
  unfold priv_anon, mmap_make. intros [-> ->%negb_true_iff]%andb_true_iff Hs Ha Hl Hp.
  destruct (has flags G_MAP_GROWSDOWN); [by apply map_stack_done|by apply map_anon_done].
Qed.
(** The memory asked for is there, where it may be, within the limit. *)
Record mmap_made (a0 len flags pte r : Z) s s' : Prop := {
  mm_placed : placed a0 len flags r s;
  mm_new : new_memory r len pte s s';
  mm_fits : as_fits (range_unmapped_bytes r len s) s = true;
  mm_lock : tr (mmap_lock flags s) = true -> locked_range r len (mmap_lock flags s) s'
}.
Lemma mut_kept s s' : space_ok s -> mut_ok s s' -> kept_space s s'.
Proof. intros Hs [Hm Hc]. split; [by apply (core_space s)|apply Hm..]. Qed.
Lemma refused_err e s s' : 0 < e < 4096 -> same_view s s' -> refused (errno e) s s'.
Proof. intros He V. split; [by exists e|done]. Qed.
Lemma refused_rc rc s s' : -4096 < rc < 0 -> same_view s s' -> refused (u64 rc) s s'.
Proof. intros He V. split; [|done]. exists (- rc). split; [lia|]. unfold errno. by rewrite Z.opp_involutive. Qed.
Lemma regs_fits s s' add : regs s' = regs s -> ms_env s' = ms_env s -> as_fits add s' = as_fits add s.
Proof. intros Hr He. unfold as_fits. by rewrite Hr, He. Qed.
Lemma unmapped_regs fuel va e free s s' : regs s' = regs s -> unmapped_loop fuel va e free s' = unmapped_loop fuel va e free s.
Proof.
  intros Hr. revert va free. induction fuel as [|f IH]; intros va free; [done|]. cbn [unmapped_loop]. rewrite Hr.
  destruct (va <? e); [|done]. destruct (as_find_region _ _); apply IH.
Qed.
Lemma mmap_anon_ok l a0 a1 a2 a3 a4 a5 pe s : space_ok s -> place_ok (ms_as s) ->
  0 <= env_min_addr (ms_env s) -> fits 64 a0 -> fits 64 a1 -> priv_anon (s32 a3) = true ->
  let '(r, s') := mmap_locked l a0 a1 a2 a3 a4 a5 pe s in
  kept_space s s' /\
  (refused r s s' \/ mmap_made a0 (PG_UP a1) (s32 a3) (Z.lor (prot_g2pte (s32 a2)) (prot_rie l (s32 a2))) r s s').
Proof.
  intros Hs Hp Hm Ha0 Ha1 Hf. unfold mmap_locked. cbn zeta. set (flags := s32 a3) in *. set (prot := s32 a2).
  pose proof (quiet_kept s s Hs (quiet_refl s Hs)) as K0.
  assert (Hno : forall e, 0 < e < 4096 -> kept_space s s /\ (refused (errno e) s s \/ mmap_made a0 (PG_UP a1) flags
    (Z.lor (prot_g2pte prot) (prot_rie l prot)) (errno e) s s)) by (intros e He; split; [done|left; by apply refused_err]).
  destruct (a1 =? 0); [by apply Hno|]. destruct (Z.eqb_spec (PG_UP a1) 0) as [|E0]; [by apply Hno|].
  destruct (Z.ltb_spec GUEST_TASK_SIZE (PG_UP a1)) as [|Hl]; [by apply Hno|]. clear Hno.
  set (len := PG_UP a1) in *. destruct (pg_up_spec a1 Ha1) as [Hal _]. fold len in Hal. pose proof (pg_up_nonneg a1) as H0. fold len in H0.
  set (pte := Z.lor _ _). pose proof (prot_fits l prot : fits 3 pte) as Hpte.
  pose proof (mmap_place_ok a0 len flags s Hs Hp Hm Ha0 Hal ltac:(lia)) as Hpl.
  destruct (mmap_place a0 len flags s) as [[e|addr] s1]; destruct Hpl as [Hq Hpl]; pose proof (quiet_kept s s1 Hs Hq) as K1.
  { split; [done|]. left. apply refused_err; [done|apply Hq]. }
  pose proof Hf as [Han _]%andb_true_iff.
  destruct (judge_ok l addr len pte prot flags (s32 a4) pe s1 Han) as [J1 J2].
  destruct (Z.eqb_spec (mmap_judge l addr len pte prot flags (s32 a4) pe s1) 0) as [Ej|Ej]; cbn [negb].
  2: { split; [done|]. left. apply refused_err; [by destruct J1|apply Hq]. }
  pose proof (make_done addr len pte flags (s32 a4) a5 pe s1 Hf (ks_space _ _ K1) (pl_pos _ _ _ _ _ Hpl) H0 Hpte) as Hd1.
  destruct (mmap_make _ _ _ _ _ _ _ s1) as [rc s2]. pose proof (kept_trans s s1 s2 K1 (od_kept _ _ _ _ _ Hd1)) as K2.
  destruct (od_case _ _ _ _ _ Hd1) as [[-> Hn]|[Hr V]].
  - cbn [Z.ltb Z.compare]. assert (El : mmap_lock flags s1 = mmap_lock flags s) by (unfold mmap_lock; by rewrite (qu_def _ _ Hq)).
    rewrite El. pose proof (new_memory_from _ _ _ s s1 s2 (qu_view _ _ Hq) Hn) as Hn'.
    assert (Hfit : as_fits (range_unmapped_bytes addr len s) s = true).
    { specialize (J2 Ej). rewrite (regs_fits s s1) in J2 by (apply Hq || apply K1). unfold range_unmapped_bytes in *.
      rewrite (unmapped_regs _ _ _ _ s s1) in J2 by apply Hq. by rewrite (qu_regs _ _ Hq) in J2. }
    destruct (tr (mmap_lock flags s)) eqn:Et.
    + destruct (lock_new_done addr len pte (mmap_lock flags s) s s2 (ks_space _ _ K2) H0 Hn') as (D1 & D2 & D3).
      split; [apply (kept_trans _ s2); [done|by apply mut_kept; [apply K2|]]|]. right. by split.
    + split; [done|]. right. split; try done. by rewrite Et.
  - rewrite (proj2 (Z.ltb_lt rc 0)) by lia. split; [done|]. left. apply refused_rc; [done|]. apply (same_view_trans _ s1); [apply Hq|done].
Qed.

(** ** munmap, mprotect *)
Lemma munmap_done a0 a1 s : space_ok s -> fits 64 a1 ->
  let '(r, s') := sys_munmap a0 a1 s in
  kept_space s s' /\ (refused r s s' \/ (r = 0 /\ range_gone (a64_untag a0) (PG_UP a1) s s')).
Proof.
  intros Hs Ha1. unfold sys_munmap. set (a := a64_untag a0). pose proof (quiet_kept s s Hs (quiet_refl s Hs)) as K0.
  destruct (misaligned a); [split; [done|left; by apply refused_err]|].
  pose proof (unmap_done a (PG_UP a1) s Hs (proj1 (untag_fits a0)) (pg_up_nonneg a1)) as Hd.
  destruct (guest_unmap a (PG_UP a1) s) as [rc s']. split; [by apply (od_kept _ _ _ _ _ Hd)|].
  destruct (od_case _ _ _ _ _ Hd) as [[-> H]|[H V]]; [by right|left].
  unfold rc_or. rewrite (proj2 (Z.ltb_lt rc 0)) by lia. by apply refused_rc.
Qed.
Lemma vma_start_below rs i r : regions_ok rs -> rs !! i = Some r -> 0 <= as_vma_start rs i <= r_start r.
Proof.
  intros Hok. pose proof Hok as [HF _]. rewrite list.Forall_forall in HF. unfold as_vma_start.
  assert (Hin : forall k q, rs !! k = Some q -> region_ok q) by (intros k q Hk; apply HF, list_elem_of_lookup; eauto).
  revert r. induction i as [|i IH]; intros r Hr; cbn [as_vma_start_idx].
  - rewrite Hr. pose proof (ro_range r (Hin _ _ Hr)). lia.
  - rewrite Hr. pose proof (ro_range r (Hin _ _ Hr)) as H0. destruct (rs !! i) as [a|] eqn:Ea; [|rewrite Hr; lia].
    destruct (as_same_vma a r) eqn:Es; [|rewrite Hr; lia]. specialize (IH a eq_refl). pose proof (ro_range a (Hin _ _ Ea)).
    unfold as_same_vma in Es. rewrite !andb_true_iff in Es. lia.
Qed.
Lemma find_index_some rs j va i : find_index rs j va = Some i -> exists r, rs !! (i - j)%nat = Some r /\ (j <= i)%nat /\ contains va r = true.
Proof.
  revert j. induction rs as [|r rs IH]; intros j; cbn [find_index]; [done|]. destruct (contains va r) eqn:E.
  - intros [= <-]. exists r. rewrite Nat.sub_diag. done.
  - intros (q & Hq & Hle & Hc)%IH. exists q. replace (i - j)%nat with (S (i - S j)) by lia. split; [done|]. split; [lia|done].
Qed.
(** Where a protection starts from: the start asked for, or a stack's. *)
Lemma mprotect_start_ok grows start e s : regions_ok (regs s) -> 0 <= start < e ->
  match mprotect_start grows start e s with
  | inl err => 0 < err < 4096
  | inr st => 0 <= st < e /\ (grows = 0 -> st = start)
  end.
Proof.
  intros Hok Hs. unfold mprotect_start. destruct (Z.eqb_spec grows 0) as [|Hg]; [done|].
  destruct (as_next_region (regs s) start) as [first|]; [|done]. destruct (Z.leb_spec e (r_start first)) as [|He]; [done|].
  destruct (has grows _); [by destruct (_ <? _)|]. destruct (negb _); [done|].
  destruct (find_index (regs s) 0 (r_start first)) as [i|] eqn:Ei; [|done].
  apply find_index_some in Ei as (r & Hr & _ & Hc%contains_iff). rewrite Nat.sub_0_r in Hr.
  pose proof (vma_start_below _ _ _ Hok Hr). split; [lia|done].
Qed.
Lemma mprotect_done l a0 a1 a2 s : (forall addr len prot, 0 <= addr -> 0 < len -> protect_whole addr len prot s) -> space_ok s ->
  let '(r, s') := sys_mprotect l a0 a1 a2 s in
  let grows := Z.land a2 (Z.lor G_PROT_GROWSDOWN G_PROT_GROWSUP) in
  let prot := s32 (Z.land a2 (not64 grows)) in
  kept_space s s' /\
  (refused r s s' \/ (a1 = 0 /\ r = 0 /\ s' = s) \/
   exists start, r = 0 /\ (grows = 0 -> start = a64_untag a0) /\
     protected start (u64 (a64_untag a0 + PG_UP a1) - start) (Z.lor (prot_g2pte prot) (prot_rie l prot)) s s').
Proof.
  intros Hg Hs. unfold sys_mprotect. cbn zeta. set (a := a64_untag a0). set (grows := Z.land a2 _). set (prot := Z.land a2 _).
  pose proof (quiet_kept s s Hs (quiet_refl s Hs)) as K0. pose proof (hi_regs _ (ai_heap s (sp_inv s Hs))) as Hok.
  assert (Hno : forall e, 0 < e < 4096 -> refused (errno e) s s) by (intros e He; by apply refused_err).
  destruct (grows =? _); [by split; [done|left; apply Hno]|]. destruct (misaligned a); [by split; [done|left; apply Hno]|].
  destruct (Z.eqb_spec a1 0) as [->|]; [by split; [done|right; left]|].
  destruct ((PG_UP a1 =? 0) || _) eqn:Ee; [by split; [done|left; apply Hno]|].
  apply orb_false_iff in Ee as [_ Ee%Z.leb_gt]. destruct (negb _); [by split; [done|left; apply Hno]|].
  pose proof (mprotect_start_ok grows a (u64 (a + PG_UP a1)) s Hok (conj (proj1 (untag_fits a0)) Ee)) as Hst.
  destruct (mprotect_start _ _ _ s) as [err|st]; [split; [done|left; by apply Hno]|]. destruct Hst as [S1 S2].
  assert (Hlen : 0 < u64 (a + PG_UP a1) - st) by lia.
  pose proof (protect_done st (u64 (a + PG_UP a1) - st) _ s (Hg _ _ _ (proj1 S1) Hlen) Hs (proj1 S1) ltac:(lia) (prot_fits l (s32 prot))) as Hd.
  destruct (guest_protect _ _ _ s) as [rc s']. split; [by apply (od_kept _ _ _ _ _ Hd)|].
  destruct (od_case _ _ _ _ _ Hd) as [[-> H]|[H V]]; [right; right; by exists st|left].
  unfold rc_or. rewrite (proj2 (Z.ltb_lt rc 0)) by lia. by apply refused_rc.
Qed.

(** ** brk *)
Definition BRK_PROT (l : MmLim) : Z := Z.lor (Z.lor PTE_R PTE_W) (prot_rie l PROT_READ).
(** What the heap's end moving from [b] to [b'] does: pages given are new,
    were free and fit the limit, pages taken are gone. *)
Definition heap_moved (l : MmLim) (b b' : Z) s s' : Prop :=
  (PG_UP b < PG_UP b' -> free_range s (PG_UP b) (PG_UP b' - PG_UP b) /\ as_fits (PG_UP b' - PG_UP b) s = true /\
     new_memory (PG_UP b) (PG_UP b' - PG_UP b) (BRK_PROT l) s s' /\
     (tr (as_def_lock (ms_as s)) = true -> locked_range (PG_UP b) (PG_UP b' - PG_UP b) (as_def_lock (ms_as s)) s')) /\
  (PG_UP b' < PG_UP b -> range_gone (PG_UP b') (PG_UP b - PG_UP b') s s') /\
  (PG_UP b' = PG_UP b -> same_view s s').
Lemma pg_up_task x : 0 <= x <= GUEST_TASK_SIZE -> aligned (PG_UP x) /\ x <= PG_UP x <= GUEST_TASK_SIZE.
Proof.
  intros Hx. pose proof (pg_up_range x Hx) as Hr. assert (H64 : fits 64 x) by (change GUEST_TASK_SIZE with (2 ^ 47) in Hx; unfold fits; lia).
  destruct (pg_up_spec x H64) as [Ha [H|[_ H]]]; [|change GUEST_TASK_SIZE with (2 ^ 47) in Hx; lia]. split; [done|]. change GUEST_TASK_SIZE with (34359738368 * 4096) in *.
  unfold aligned in Ha. pose proof (Z.div_mod (PG_UP x) 4096). lia.
Qed.
Lemma brk_grow_ok l b b' s : space_ok s -> aligned b -> aligned b' -> 0 <= b -> b < b' -> b' <= GUEST_TASK_SIZE ->
  let '(ok, s') := brk_grow l b b' s in kept_space s s' /\
  if ok : bool then free_range s b (b' - b) /\ as_fits (b' - b) s = true /\ new_memory b (b' - b) (BRK_PROT l) s s' /\
    (tr (as_def_lock (ms_as s)) = true -> locked_range b (b' - b) (as_def_lock (ms_as s)) s') else same_view s s'.
Proof.
  intros Hs Ha Ha' H0 Hlt Ht. pose proof (quiet_kept s s Hs (quiet_refl s Hs)) as K0. unfold brk_grow. cbn zeta.
  pose proof (hi_regs _ (ai_heap s (sp_inv s Hs))) as Hok. pose proof (aligned_sub b' b Ha' Ha) as Hn.
  destruct (pages_unmapped _ _ _) eqn:Eu; [|done]. destruct (_ && _); [done|]. destruct (as_fits _ s) eqn:Ef; [|done].
  destruct (data_fits _ _ _); [|done]. destruct (as_mlock_future_ok _ _ _); [|done]. cbn [negb].
  pose proof (map_anon_done b (b' - b) (BRK_PROT l) s Hs H0 ltac:(lia) (brk_prot_fits l)) as Hm. unfold BRK_PROT in Hm at 1.
  pose proof (map_anon_def b (b' - b) (BRK_PROT l) s) as Ed. unfold BRK_PROT in Ed at 1.
  destruct (guest_map_anon _ _ _ s) as [rc s']. pose proof (od_kept _ _ _ _ _ Hm) as K1. cbn [snd] in Ed.
  destruct (od_case _ _ _ _ _ Hm) as [[-> H]|[H V]].
  - cbn [Z.ltb Z.compare]. rewrite Ed. assert (Hfr : free_range s b (b' - b)).
    { pose proof (pages_unmapped_free _ _ _ Hok Ha Eu) as Hfr. by rewrite npages_aligned in Hfr by (done || lia). }
    destruct (tr (as_def_lock (ms_as s))) eqn:Et; [|by split].
    destruct (lock_new_done b (b' - b) (BRK_PROT l) (as_def_lock (ms_as s)) s s' (ks_space _ _ K1) ltac:(lia) H) as (D1 & D2 & D3).
    split; [apply (kept_trans _ s'); [done|by apply mut_kept; [apply K1|]]|done].
  - rewrite (proj2 (Z.ltb_lt rc 0)) by lia. done.
Qed.
(** A call that may move the end of the heap and nothing else of the fields. *)
Record brk_kept s s' : Prop := {
  bk_space : space_ok s';
  bk_start : as_brk_start (ms_as s') = as_brk_start (ms_as s);
  bk_thr : as_nthreads (ms_as s') = as_nthreads (ms_as s);
  bk_place : place_ok (ms_as s) -> place_ok (ms_as s');
  bk_env : ms_env s' = ms_env s
}.
Lemma kept_brk_kept s s' : kept_space s s' -> brk_kept s s' /\ as_brk (ms_as s') = as_brk (ms_as s).
Proof. intros [K1 K2 K3 K4]. injection K2 as E1 E2 E3. by split. Qed.
Lemma set_brk_kept b s s' : kept_space s s' -> brk_kept s (upd_ms_as (upd_as_brk (fun _ => b)) s') /\
  same_view s' (upd_ms_as (upd_as_brk (fun _ => b)) s').
Proof.
  intros K. destruct (kept_brk_kept s s' K) as [[K1 K2 K3 K5 K6] _]. pose proof K1 as [[C1 C2 C3] C4]. split; [|done].
  split; try done. apply (space_same s'); try done; [by apply (as_inv_same s')|apply C2].
Qed.
Lemma heap_moved_view l b b' s s1 s2 : heap_moved l b b' s s1 -> same_view s1 s2 -> heap_moved l b b' s s2.
Proof.
  intros (H1 & H2 & H3) V. pose proof V as [V1 V2 V3]. split; [|split].
  - intros Hlt. destruct (H1 Hlt) as (F & A & (N1 & N2 & N3 & [M1 M2 M3 M4]) & L). split; [done|]. split; [done|]. split.
    + repeat (split; [done|]). split; intros a Ha; rewrite ?V1, ?V2, ?V3; auto.
    + intros Et a Ha. rewrite V1. by apply L.
  - intros Hlt. destruct (H2 Hlt) as [G1 G2]. split; intros a Ha; rewrite ?V1, ?V3; auto.
  - intros E. apply (same_view_trans _ s1); [auto|done].
Qed.
Lemma brk_ok l a0 s : space_ok s -> 0 <= as_brk (ms_as s) <= GUEST_TASK_SIZE -> 0 <= as_brk_start (ms_as s) ->
  let '(r, s') := brk_locked l a0 s in
  brk_kept s s' /\ r = as_brk (ms_as s') /\ 0 <= r <= GUEST_TASK_SIZE /\
  ((r = as_brk (ms_as s) /\ same_view s s') \/
   (r = a0 /\ as_brk_start (ms_as s) <= a0 < GUEST_TASK_SIZE /\ heap_moved l (as_brk (ms_as s)) a0 s s')).
Proof.
  intros Hs Hb Hbs. pose proof (quiet_kept s s Hs (quiet_refl s Hs)) as K0. destruct (kept_brk_kept s s K0) as [B0 _]. unfold brk_locked.
  destruct ((a0 =? 0) || _) eqn:E1; [by split; [|split; [|split; [|left]]]|]. destruct (Z.leb_spec GUEST_TASK_SIZE a0) as [|Ht]; [by split; [|split; [|split; [|left]]]|].
  apply orb_false_iff in E1 as [E0%Z.eqb_neq E1%Z.ltb_ge]. cbn zeta. set (b := as_brk (ms_as s)) in *.
  destruct (pg_up_task b Hb) as [A1 A2]. destruct (pg_up_task a0 ltac:(lia)) as [A3 A4].
  assert (H : let '(ok, s1) := if PG_UP b <? PG_UP a0 then brk_grow l (PG_UP b) (PG_UP a0) s
      else if PG_UP a0 <? PG_UP b then (true, snd (guest_unmap (PG_UP a0) (PG_UP b - PG_UP a0) s)) else (true, s) in
      kept_space s s1 /\ if ok : bool then heap_moved l b a0 s s1 else same_view s s1).
  { destruct (Z.ltb_spec (PG_UP b) (PG_UP a0)) as [L1|L1]; [|destruct (Z.ltb_spec (PG_UP a0) (PG_UP b)) as [L2|L2]].
    - pose proof (brk_grow_ok l (PG_UP b) (PG_UP a0) s Hs A1 A3 ltac:(lia) L1 ltac:(lia)) as Hg.
      destruct (brk_grow l (PG_UP b) (PG_UP a0) s) as [[] s1]; [|done]. destruct Hg as [G1 G2]. split; [done|]. split; [done|]. split; intros; lia.
    - pose proof (unmap_done (PG_UP a0) (PG_UP b - PG_UP a0) s Hs ltac:(lia) ltac:(lia)) as Hu.
      assert (Er : fst (guest_unmap (PG_UP a0) (PG_UP b - PG_UP a0) s) = 0).
      { unfold guest_unmap, guest_unmap_impl. destruct (misaligned _ || _ || _) eqn:E; [|done]. exfalso.
        rewrite !orb_true_iff, negb_true_iff, Z.eqb_eq in E. destruct E as [[E|E]|E].
        - apply not_false_iff_true in E. apply E. apply misaligned_false, aligned_lor. split; [done|by apply aligned_sub].
        - lia.
        - apply not_true_iff_false in E. apply E. apply range_ok_iff. lia. }
      destruct (guest_unmap _ _ s) as [rc s1]. cbn [fst snd] in *. split; [by apply (od_kept _ _ _ _ _ Hu)|].
      destruct (od_case _ _ _ _ _ Hu) as [[_ H]|[H _]]; [|lia]. split; [intros; lia|]. split; [done|intros; lia].
    - split; [done|]. split; [intros; lia|]. split; [intros; lia|done]. }
  destruct (if PG_UP b <? PG_UP a0 then _ else _) as [[] s1]; destruct H as [K H].
  - destruct (set_brk_kept a0 s s1 K) as [S1 S2]. split; [done|]. split; [done|]. split; [lia|]. right. split; [done|]. split; [lia|].
    by apply (heap_moved_view _ _ _ _ s1).
  - destruct (kept_brk_kept s s1 K) as [S1 S2]. split; [done|]. split; [done|]. split; [done|by left].
Qed.
End MmCalls.
