(* ===== verification/MmLimit.v ===== *)
(** * MmLimit: sequences of calls, and mremap

    The calls of [MmCalls] and the accesses between them, which may grow a
    stack: whatever sequence of them a guest makes, the bytes it has mapped
    are never more than the limit allows. Then mremap: a mapping moved there
    and back, and what is left of a growth that is refused. *)

From stdpp Require Import gmap.
From S2P Require Import Prelude Types Cpu CpuWf MemSeam PageTable Regions Epoch AsState AddrSpace AsInv AsSteps AsThms AsProtect AsMove Translate Access AsSeam AsGrow TransThms MmStep MmReach Shared SysMm MmCount MmCalls.

Section MmLimit.
Context {Os : Type} `{!HostOs Os} `{!HostOsOk Os} `{!MmHost Os}.
Implicit Types s : MS Os.
Definition total s : Z := as_mapped_bytes (regs s).
Definition under s : Prop := total s <= env_as (ms_env s).

(** ** Accesses *)
Lemma grows_to_fits va s i r : as_stack_grows_to va s = G_at i -> regs s !! i = Some r -> regions_ok (regs s) ->
  0 <= va < GUEST_TASK_SIZE -> under s -> total s + (r_start r - pg va) <= env_as (ms_env s).
Proof.
  intros H Hi Hok Hva Hu. unfold as_stack_grows_to in H. destruct (first_above (regs s) 0 va) as [[k q]|] eqn:E; [|done].
  destruct (first_above_spec _ _ _ _ _ Hok E) as (_ & Hk & _). rewrite Nat.sub_0_r in Hk.
  destruct (negb (tr _)); [done|]. destruct (_ <=? va); [done|]. cbn zeta in H. destruct (_ <? env_min_addr _); [done|].
  destruct (match k with O => _ | S _ => _ end); [done|]. destruct (negb (env_stack _ =? _) && _); [done|].
  rewrite page_of_pg in H by done. pose proof (mapped_bound _ Hok) as Hb. unfold total in *.
  destruct (negb (env_as (ms_env s) =? RLIM_INFINITY) && _) eqn:Ec; [done|]. destruct (as_mlock_future_ok _ _ _); [|done]. injection H as <-.
  rewrite Hi in Hk. injection Hk as <-. change GUEST_TASK_SIZE with (2 ^ 47) in *.
  destruct (Z.eqb_spec (env_as (ms_env s)) RLIM_INFINITY) as [Ei|Ei]; [|cbn [negb andb] in Ec; apply orb_false_iff in Ec; lia].
  rewrite Ei. pose proof (ro_range r) as Hr. pose proof Hok as [HF _]. rewrite list.Forall_forall in HF.
  specialize (Hr (HF r (list_elem_of_lookup_2 _ _ _ Hi))). change GUEST_TASK_SIZE with (2 ^ 47) in Hr.
  change RLIM_INFINITY with (2 ^ 64 - 1). pose proof (pg_range va). lia.
Qed.
Lemma grow_under nogrow va s : space_ok s -> 0 <= va < GUEST_TASK_SIZE -> pte_get (pt s) va = 0 -> under s ->
  under (snd (as_stack_grow nogrow va s)).
Proof.
  intros Hs Hva Hp Hu. pose proof (stack_grow_ok nogrow va s (sp_inv s Hs) (co_stk s (sp_core s Hs)) Hva Hp) as H.
  pose proof (tk_env _ _ (stack_grow_kept nogrow va s)) as Ee. destruct (as_stack_grow nogrow va s) as [pte s']. cbn [snd] in *.
  destruct H as (G1 & _ & _ & [[_ V]|(i & r & Eg & Ei & Hlt & Hf & Hg)]); unfold under, total; rewrite Ee.
  - rewrite (view_bytes s s') by (done || apply Hs). exact Hu.
  - pose proof (hi_regs _ (ai_heap s (sp_inv s Hs))) as Hok. pose proof (grows_to_fits va s i r Eg Ei Hok Hva Hu).
    pose proof Hok as [HF _]. rewrite list.Forall_forall in HF. pose proof (HF r (list_elem_of_lookup_2 _ _ _ Ei)) as Hr.
    pose proof (pg_range va). rewrite (grown_bytes (pg va) r s s'); try done; [apply Hs|apply pg_aligned|].
    split; [|lia]. unfold pg. rewrite page_div. pose proof (Z.div_pos va 4096). lia.
Qed.
Lemma under_regs s s' : regs s' = regs s -> ms_env s' = ms_env s -> under s -> under s'.
Proof. intros Hr He. unfold under, total. by rewrite Hr, He. Qed.
Lemma fill_regs va s : regs (snd (as_fault_fill va s)) = regs s.
Proof. unfold as_fault_fill. destruct (as_find_region _ _) as [r|]; [|done]. destruct (tr _); [|done]. by destruct (_ && _). Qed.
Lemma heal_regs va s : regs (snd (as_write_heal va s)) = regs s.
Proof.
  unfold as_write_heal. cbn zeta. destruct (_ && _); [|done]. destruct (as_find_region _ _) as [r|]; [|done]. destruct (_ && _); [|done].
  unfold vf_record. destruct (vf_track _); [|done]. destruct (0 <=? _); [done|]. by destruct (env_nomem _).
Qed.
(** What depends on the regions and the environment alone, and survives the
    growth of a stack, survives a translation. *)
Section Kept.
Context (P : MS Os -> Prop) (P_regs : forall s s', regs s' = regs s -> ms_env s' = ms_env s -> P s -> P s')
  (P_grow : forall nogrow va s, space_ok s -> 0 <= va < GUEST_TASK_SIZE -> pte_get (pt s) va = 0 -> P s -> P (snd (as_stack_grow nogrow va s))).
Lemma walk_keeps nogrow va s : space_ok s -> 0 <= va < GUEST_TASK_SIZE -> P s -> P (snd (walk_miss nogrow va s)).
Proof.
  intros Hs Hva Hu. unfold walk_miss. cbn zeta. destruct (Z.eqb_spec (pte_get (pt s) va) 0) as [E0|E0].
  - pose proof (space_fill va s Hs Hva E0) as Hf. pose proof (fill_regs va s) as Er. pose proof (fill_env va s) as Ee.
    destruct (as_fault_fill va s) as [p1 s1]. destruct Hf as (_ & _ & _ & F4). cbn [snd] in *.
    destruct (Z.eqb_spec p1 0) as [E1|E1].
    + rewrite (F4 E1). pose proof (P_grow nogrow va s Hs Hva E0 Hu) as Hg. destruct (as_stack_grow nogrow va s) as [p2 s2]. cbn [snd] in Hg. destruct (p2 =? 0); [exact Hg|by apply (P_regs s2)].
    + rewrite (proj2 (Z.eqb_neq p1 0) E1). cbn [snd]. by apply (P_regs s).
  - rewrite (proj2 (Z.eqb_neq _ 0) E0). cbn beta iota. rewrite (proj2 (Z.eqb_neq _ 0) E0). by apply (P_regs s).
Qed.
Lemma translate_keeps nogrow va need s : space_ok s -> P s -> P (snd (as_translate nogrow va need s)).
Proof.
  intros Hs Hu. unfold as_translate. pose proof (data_va_range va need) as Ha. set (a := data_va va need) in *.
  destruct (GUEST_TASK_SIZE <=? a) eqn:Er; [done|]. cbn zeta. destruct (space_sync s Hs) as (Y1 & _ & Y3 & _ & Y5).
  set (s1 := tlb_sync s) in *. assert (U1 : P s1) by (by apply (P_regs s); [unfold regs; by rewrite Y3|..]). clearbody s1.
  set (e := match dtlb_hit _ _ with Some _ => _ | None => _ end).
  assert (U2 : P (snd e)).
  { unfold e. destruct (dtlb_hit _ _); [done|]. apply walk_keeps; [done|lia|done]. }
  destruct e as [pte s2]. cbn [snd] in U2. destruct (pte =? 0); [done|]. destruct (_ =? need); [done|].
  pose proof (heal_regs a s2) as Hr. pose proof (heal_env a s2) as He.
  destruct (need =? PTE_W); [|done]. destruct (as_write_heal a s2) as [h s3]. cbn [snd] in *.
  pose proof (P_regs s2 s3 Hr He U2). destruct (h =? 0); [done|by apply (P_regs s3)].
Qed.
End Kept.
Lemma translate_under nogrow va need s : space_ok s -> under s -> under (snd (as_translate nogrow va need s)).
Proof. apply (translate_keeps under under_regs grow_under). Qed.

(** Memory that is private throughout. *)
Definition private s : Prop := forall va v, look (regs s) va = Some v -> r_shared v = 0.
Lemma private_regs s s' : regs s' = regs s -> ms_env s' = ms_env s -> private s -> private s'.
Proof. intros Hr _. unfold private. by rewrite Hr. Qed.
Lemma private_view s s' : same_view s s' -> private s -> private s'.
Proof. intros [V _ _] H va v. rewrite V. apply H. Qed.
Lemma private_elem s r : regions_ok (regs s) -> private s -> r ∈ regs s -> r_shared r = 0.
Proof.
  intros Hok Hp Hr. pose proof Hok as [HF _]. rewrite list.Forall_forall in HF. pose proof (ro_range r (HF r Hr)).
  apply (Hp (r_start r) (slice (r_start r) r)). apply look_elem; [done|done|lia].
Qed.
Lemma grow_private nogrow va s : space_ok s -> 0 <= va < GUEST_TASK_SIZE -> pte_get (pt s) va = 0 -> private s ->
  private (snd (as_stack_grow nogrow va s)).
Proof.
  intros Hs Hva Hp Hu. pose proof (stack_grow_ok nogrow va s (sp_inv s Hs) (co_stk s (sp_core s Hs)) Hva Hp) as H.
  destruct (as_stack_grow nogrow va s) as [pte s']. cbn [snd]. destruct H as (_ & _ & _ & [[_ V]|(i & r & _ & Ei & _ & _ & [G1 G2])]); [by apply (private_view s)|].
  intros a v El. destruct (decide (pg va <= a < r_start r)) as [Hin|Hout].
  - destruct (G1 a Hin) as [(w & Ew & _ & _ & _ & E) _]. rewrite Ew in El. injection El as <-. rewrite E.
    apply (private_elem s); [apply (hi_regs _ (ai_heap s (sp_inv s Hs)))|done|by apply list_elem_of_lookup_2 in Ei].
  - destruct (G2 a Hout) as [E _]. rewrite E in El. by apply (Hu a).
Qed.
Lemma translate_private nogrow va need s : space_ok s -> private s -> private (snd (as_translate nogrow va need s)).
Proof. apply (translate_keeps private private_regs grow_private). Qed.
(** The host is not asked about private memory, so it refuses nothing. *)
Lemma protect_loop_private n i addr len prot s : Forall (fun r => r_shared r = 0) (regs s) -> fst (protect_loop n i addr len prot s) = true.
Proof.
  revert i s. induction n as [|n IH]; intros i s HF; simpl; [done|]. destruct (regs s !! i) as [r|] eqn:E; [|done].
  destruct (_ || _); [by apply IH|]. assert (E0 : r_shared r = 0) by (rewrite list.Forall_forall in HF; apply HF; by apply list_elem_of_lookup_2 in E).
  unfold protect_host. rewrite E0. cbn [tr Z.eqb negb]. apply IH. by apply Forall_insert.
Qed.
Lemma protect_private addr len prot s : space_ok s -> 0 <= addr -> 0 < len -> private s -> protect_whole addr len prot s.
Proof.
  intros Hs Ha Hl Hp. unfold protect_whole, guest_protect, guest_protect_impl. destruct (misaligned _) eqn:E1; [by right; left|].
  destruct (negb _); [by right; left|]. destruct (negb _); [by right; left|]. destruct (_ && _); [by right; left|]. cbn zeta. left.
  rewrite misaligned_false, aligned_lor in E1. destruct E1 as [A1 A2].
  destruct (split_at_ok s addr (ai_heap s (sp_inv s Hs)) A1) as (I1 & _ & L1 & _).
  destruct (split_at_ok _ (addr + len) I1 (aligned_add _ _ A1 A2)) as (I2 & _ & L2 & _). set (s2 := region_split_at (addr + len) _) in *.
  assert (Hp2 : private s2) by (intros a v; rewrite L2, L1; apply Hp).
  assert (HF : Forall (fun r => r_shared r = 0) (regs s2)).
  { apply list.Forall_forall. intros r Hr. by apply (private_elem s2); [apply I2|..]. }
  pose proof (protect_loop_private (length (regs s2)) 0 addr len prot s2 HF) as Hl2. destruct (protect_loop _ _ _ _ _ s2) as [[] s3]; done.
Qed.
Lemma coherent_hosts s : space_ok s -> t_dgen (ms_me s) = ms_gen s -> tlb_hosts s (ms_me s).
Proof.
  intros [_ Hc] Hg i e He. destruct (map_Forall_lookup_1 _ _ _ _ (Hc Hg) He) as [H1 H2]. split; [done|]. intros Hn.
  rewrite <- (H2 Hn). done.
Qed.
Lemma translate_kept nogrow va need s : space_ok s -> fits 3 need -> kept_space s (snd (as_translate nogrow va need s)).
Proof.
  intros Hs Hn. pose proof (translate_ok nogrow va need s Hs Hn) as Ht. pose proof (translate_env nogrow va need s) as He.
  pose proof (thread_translate nogrow va need s (sp_core s Hs) (coherent_hosts s Hs)) as Hw.
  destruct (as_translate nogrow va need s) as [r s']. cbn [snd] in *. destruct Ht as (T1 & _ & _).
  destruct Hw as (s1 & Hsy & [_ Ha _] & _). assert (Ea : ms_as s1 = ms_as s).
  { destruct Hsy as [->|[_ ->]]; [done|]. apply (space_sync s Hs). }
  pose proof (at_attr _ _ Ha) as A1. pose proof (at_place _ _ Ha) as A2. rewrite Ea in A1, A2. by split.
Qed.

(** ** The calls *)
Lemma sp_regs s : space_ok s -> regions_ok (regs s).
Proof. intros Hs. apply (hi_regs _ (ai_heap s (sp_inv s Hs))). Qed.
Lemma under_le s s' : total s' <= total s -> ms_env s' = ms_env s -> under s -> under s'.
Proof. unfold under. intros H ->. lia. Qed.
Lemma under_view s s' : space_ok s -> space_ok s' -> same_view s s' -> ms_env s' = ms_env s -> under s -> under s'.
Proof. intros Hs Hs' V. apply under_le. unfold total. rewrite (view_bytes s s'); [done|by apply sp_inv|by apply sp_inv|done]. Qed.
Lemma new_under addr len pte s s' : space_ok s -> space_ok s' -> 0 <= addr -> new_memory addr len pte s s' -> ms_env s' = ms_env s ->
  as_fits (range_unmapped_bytes addr len s) s = true -> under s'.
Proof.
  intros Hs Hs' H0 (N1 & N2 & N3 & N4) He Hf. pose proof (sp_regs s Hs) as Hok. unfold under, total.
  rewrite (mapped_anon_bytes addr len pte s s') by (done || by apply sp_inv). rewrite range_unmapped_spec in Hf by done.
  rewrite He. apply as_fits_bound; [done|by apply range_gap|done].
Qed.
Lemma free_unmapped addr len s : regions_ok (regs s) -> aligned addr -> aligned len -> 0 <= addr -> 0 <= len -> addr + len <= GUEST_TASK_SIZE ->
  free_range s addr len -> range_unmapped_bytes addr len s = len.
Proof.
  intros Hok Ha Hl H0 Hn Ht Hf. rewrite range_unmapped_spec by done.
  rewrite (gap_pages_free (regs s) addr (addr + len)); [lia|done|done|by apply aligned_add|lia|lia|exact Hf].
Qed.
Lemma gone_under addr len s s' : space_ok s -> space_ok s' -> range_gone addr len s s' -> ms_env s' = ms_env s -> under s -> under s'.
Proof.
  intros Hs Hs' [G1 G2]. apply under_le. apply mapped_bytes_less; [by apply sp_regs|by apply sp_regs|]. intros a [v Hv].
  destruct (decide (addr <= a < addr + len)) as [Hin|Hout]; [by rewrite (G1 a Hin) in Hv|]. destruct (G2 a Hout) as [<- _]. by exists v.
Qed.
Lemma protected_under addr len prot s s' : space_ok s -> space_ok s' -> protected addr len prot s s' -> ms_env s' = ms_env s -> under s -> under s'.
Proof.
  intros Hs Hs' [P1 P2 _ _ _]. apply under_le. unfold total. rewrite (mapped_bytes_view (regs s) (regs s')); [done|by apply sp_regs|by apply sp_regs|].
  intros a. destruct (decide (addr <= a < addr + len)) as [Hin|Hout]; [|by destruct (P2 a Hout) as [-> _]].
  destruct (P1 a Hin) as (v & -> & -> & _). by split.
Qed.
Lemma moved_under l b b' s s' : space_ok s -> space_ok s' -> heap_moved l b b' s s' -> ms_env s' = ms_env s ->
  0 <= b <= GUEST_TASK_SIZE -> 0 <= b' <= GUEST_TASK_SIZE -> under s -> under s'.
Proof.
  intros Hs Hs' (H1 & H2 & H3) He Hb Hb' Hu. destruct (pg_up_task b Hb) as [A1 A2]. destruct (pg_up_task b' Hb') as [A3 A4].
  destruct (Z.lt_trichotomy (PG_UP b) (PG_UP b')) as [Hlt|[E|Hlt]].
  - destruct (H1 Hlt) as (F1 & F2 & F3 & _). apply (new_under (PG_UP b) (PG_UP b' - PG_UP b) (BRK_PROT l) s s' Hs Hs' ltac:(lia) F3 He).
    rewrite free_unmapped; [done|by apply sp_regs|done|by apply aligned_sub|lia|lia|lia|done].
  - apply (under_view s s'); auto.
  - by apply (gone_under _ _ s s' Hs Hs' (H2 Hlt)).
Qed.

(** One thing a guest does. *)
Inductive guest_call :=
  | C_brk (l : MmLim) (a0 : Z)
  | C_mmap (l : MmLim) (a0 a1 a2 a3 a4 a5 procfs_err : Z)
  | C_munmap (a0 a1 : Z)
  | C_mprotect (l : MmLim) (a0 a1 a2 : Z)
  | C_mlock2 (nogrow : bool) (a0 a1 a2 : Z)
  | C_munlock (a0 a1 : Z)
  | C_mlockall (a0 : Z)
  | C_munlockall
  | C_access (nogrow : bool) (va need : Z)
  | C_store (nogrow : bool) (va b : Z).
Definition call_exec (c : guest_call) s : MS Os :=
  match c with
  | C_brk l a0 => snd (brk_locked l a0 s)
  | C_mmap l a0 a1 a2 a3 a4 a5 pe => snd (mmap_locked l a0 a1 a2 a3 a4 a5 pe s)
  | C_munmap a0 a1 => snd (sys_munmap a0 a1 s)
  | C_mprotect l a0 a1 a2 => snd (sys_mprotect l a0 a1 a2 s)
  | C_mlock2 ng a0 a1 a2 => snd (sys_mlock2 ng a0 a1 a2 s)
  | C_munlock a0 a1 => snd (sys_munlock a0 a1 s)
  | C_mlockall a0 => snd (sys_mlockall a0 s)
  | C_munlockall => snd (sys_munlockall s)
  | C_access ng va need => snd (as_translate ng va need s)
  | C_store ng va b => store_byte ng va b s
  end.
(** Arguments are words; mmap is of private anonymous memory. *)
Definition call_ok (c : guest_call) : Prop :=
  match c with
  | C_mmap _ a0 a1 _ a3 _ _ _ => fits 64 a0 /\ fits 64 a1 /\ priv_anon (s32 a3) = true
  | C_munmap _ a1 => fits 64 a1
  | C_access _ _ need => fits 3 need
  | _ => True
  end.
Record life (e : Env) s : Prop := {
  lf_env : ms_env s = e;
  lf_space : space_ok s;
  lf_place : place_ok (ms_as s);
  lf_priv : private s;
  lf_brk : 0 <= as_brk (ms_as s) <= GUEST_TASK_SIZE;
  lf_start : 0 <= as_brk_start (ms_as s);
  lf_min : 0 <= env_min_addr (ms_env s);
  lf_under : under s
}.
Lemma life_kept e s s' : life e s -> kept_space s s' -> private s' -> under s' -> life e s'.
Proof.
  intros [L0 L1 L2 L3 L4 L5 L6 L7] K Hp Hu. destruct (kept_brk_kept s s' K) as [[K1 K2 _ K5 K6] K7].
  split; [congruence|done|auto|done|by rewrite K7|by rewrite K2|by rewrite K6|done].
Qed.
Lemma life_view e s s' : life e s -> kept_space s s' -> same_view s s' -> life e s'.
Proof.
  intros L K V. apply (life_kept _ s); [done|done|apply (private_view s); [done|apply L]|].
  apply (under_view s); [apply L|apply K|done|apply K|apply L].
Qed.
Lemma new_private addr len pte s s' : new_memory addr len pte s s' -> private s -> private s'.
Proof.
  intros (_ & _ & _ & [M1 _ _ M4]) Hp a v El. destruct (decide (addr <= a < addr + len)) as [Hin|Hout].
  - destruct (M1 a Hin) as (w & Ew & _ & E & _). rewrite Ew in El. by injection El as <-.
  - destruct (M4 a Hout) as [E _]. rewrite E in El. by apply (Hp a).
Qed.
Lemma gone_private addr len s s' : range_gone addr len s s' -> private s -> private s'.
Proof.
  intros [G1 G2] Hp a v El. destruct (decide (addr <= a < addr + len)) as [Hin|Hout]; [by rewrite (G1 a Hin) in El|].
  destruct (G2 a Hout) as [E _]. rewrite E in El. by apply (Hp a).
Qed.
Lemma protected_private addr len prot s s' : protected addr len prot s s' -> private s -> private s'.
Proof.
  intros [P1 P2 _ _ _] Hp a v El. destruct (decide (addr <= a < addr + len)) as [Hin|Hout].
  - destruct (P1 a Hin) as (w & Ew & Ew' & _). rewrite Ew' in El. injection El as <-. by apply (Hp a w).
  - destruct (P2 a Hout) as [E _]. rewrite E in El. by apply (Hp a).
Qed.
Lemma moved_private l b b' s s' : heap_moved l b b' s s' -> private s -> private s'.
Proof.
  intros (H1 & H2 & H3) Hp. destruct (Z.lt_trichotomy (PG_UP b) (PG_UP b')) as [Hlt|[E|Hlt]].
  - destruct (H1 Hlt) as (_ & _ & N & _). by apply (new_private _ _ _ s s' N).
  - apply (private_view s); auto.
  - by apply (gone_private _ _ s s' (H2 Hlt)).
Qed.
(** Locks change marks only. *)
Lemma marked_life e s s' : life e s -> marked s s' -> life e s'.
Proof.
  intros L M. pose proof L as [_ L1 _ L3 _ _ _ L7]. pose proof (mut_kept s s' L1 (marked_mut s s' (sp_core s L1) M)) as K.
  pose proof (ks_space _ _ K) as Hs'. destruct M as (_ & _ & M). apply (life_kept _ s); [done|done| |].
  - intros a v El. destruct (same_maps_at s s' a v M El) as (w & Ew & E). destruct (bare_fields w v E) as (_ & _ & _ & <- & _). by apply (L3 a).
  - apply (under_le s); [|apply K|done]. unfold total. rewrite (mapped_bytes_view (regs s) (regs s')); [done|by apply sp_regs|by apply sp_regs|].
    intros a. pose proof (sm_look _ _ M a) as E. by destruct (look (regs s') a), (look (regs s) a).
Qed.
Lemma account_life e s : life e s -> life e (as_account s).
Proof.
  intros L. pose proof L as [_ L1 _ _ _ _ _ _]. assert (K : mut_ok s (as_account s)).
  { split; [apply account_mstep|]. apply core_account, core_out_refl, L1. }
  assert (Er : regs (as_account s) = regs s) by (unfold as_account, as_procmem; cbn zeta; by destruct (_ <? _)).
  assert (Ee : ms_env (as_account s) = ms_env s) by apply K.
  apply (life_kept _ s); [done|by apply mut_kept|by apply (private_regs s); [..|apply L]|by apply (under_regs s); [..|apply L]].
Qed.
Lemma mmap_life e l a0 a1 a2 a3 a4 a5 pe s : life e s -> fits 64 a0 -> fits 64 a1 -> priv_anon (s32 a3) = true ->
  life e (snd (mmap_locked l a0 a1 a2 a3 a4 a5 pe s)).
Proof.
  intros L H0 H1 H3. pose proof L as [_ L1 L2 L3 _ _ L6 L7]. pose proof (mmap_anon_ok l a0 a1 a2 a3 a4 a5 pe s L1 L2 L6 H0 H1 H3) as Hm.
  destruct (mmap_locked _ _ _ _ _ _ _ _ s) as [r s']. cbn [snd]. destruct Hm as [K Hm].
  pose proof (ks_space _ _ K) as Hs'. pose proof (ks_env _ _ K) as He. destruct Hm as [[_ V]|[P N F _]]; [by apply (life_view _ s)|].
  apply (life_kept _ s); [done|done|by apply (new_private _ _ _ s s' N)|by apply (new_under _ _ _ s s' L1 Hs' (pl_pos _ _ _ _ _ P) N)].
Qed.
Lemma brk_life e l a0 s : life e s -> life e (snd (brk_locked l a0 s)).
Proof.
  intros L. pose proof L as [L0 L1 L2 L3 L4 L5 L6 L7]. pose proof (brk_ok l a0 s L1 L4 L5) as Hb.
  destruct (brk_locked l a0 s) as [r s']. cbn [snd]. destruct Hb as ([K1 K2 _ K5 K6] & Hr & Hrb & Hc).
  split; [congruence|done|auto| |by rewrite <- Hr|by rewrite K2|by rewrite K6|].
  - destruct Hc as [[_ V]|(-> & Hra & Hm)]; [by apply (private_view s)|by apply (moved_private _ _ _ s s' Hm)].
  - destruct Hc as [[_ V]|(-> & Hra & Hm)]; [by apply (under_view s)|]. apply (moved_under _ _ _ s s' L1 K1 Hm K6); done || lia.
Qed.
Lemma access_life e ng va need s : life e s -> fits 3 need -> life e (snd (as_translate ng va need s)).
Proof.
  intros L Hn. apply (life_kept _ s); [done|by apply translate_kept; [apply L|]|apply translate_private; apply L|apply translate_under; apply L].
Qed.
Lemma store_life e ng va b s : life e s -> life e (store_byte ng va b s).
Proof.
  intros L. pose proof (access_life e ng va PTE_W s L ltac:(done)) as L'. pose proof L as [_ L1 _ _ _ _ _ _]. pose proof (store_space ng va b s L1) as Hs.
  unfold store_byte in *. destruct (as_translate ng va PTE_W s) as [[[p|] x] s']; cbn [snd] in *; [|done].
  destruct L' as [A1 A2 A3 A4 A5 A6 A7 A8]. by split.
Qed.
(** mlock faults the pages of file mappings in. *)
Lemma populate_pages_life e fuel va stop ng s : life e s -> life e (snd (populate_pages fuel va stop ng s)).
Proof.
  revert va s. induction fuel as [|f IH]; intros va s L; cbn [populate_pages]; [done|]. destruct (va <? stop); [|done].
  pose proof (access_life e ng va 0 s L ltac:(done)) as L'. destruct (as_translate ng va 0 s) as [[[p|] x] s']; cbn [snd] in L'; [|done].
  by apply IH.
Qed.
Lemma populate_life e fuel va stop ng s : life e s -> life e (snd (populate_loop fuel va stop ng s)).
Proof.
  revert va s. induction fuel as [|f IH]; intros va s L; cbn [populate_loop]; [done|]. destruct (va <? stop); [|done].
  destruct (as_next_region (regs s) va) as [r|]; [|done]. destruct (stop <=? r_start r); [done|]. cbn zeta.
  set (q := if _ && _ then _ else _). assert (Lq : life e (snd q)).
  { unfold q. destruct (_ && _); [|done]. destruct (negb _); [done|]. destruct (tr (r_hostmap r)); [by apply populate_pages_life|done]. }
  destruct q as [err s']. destruct (negb _); [done|by apply IH].
Qed.
Lemma pg_down_aligned z : aligned (PG_DOWN (a64_untag z)).
Proof.
  unfold PG_DOWN. change GUEST_PAGE_MASK with (Z.ones 12). rewrite land_not64_ones; [|apply untag_fits|lia].
  change (2 ^ 12) with 4096. unfold aligned. wsolve.
Qed.
Lemma lock_range_life e start len flags s : life e s -> aligned start -> aligned len -> life e (snd (as_lock_range start len flags s)).
Proof. intros L Ha Hl. apply (marked_life _ s); [done|]. apply marked_lock_range; [apply (ai_heap s (sp_inv s (lf_space _ _ L)))|done|done]. Qed.
Lemma lock_all_life e def cur flags s : life e s -> life e (as_lock_all def cur flags s).
Proof. intros L. apply (marked_life _ s); [done|]. apply marked_lock_all, (ai_heap s (sp_inv s (lf_space _ _ L))). Qed.
Lemma mlock_life e ng a0 a1 flags s : life e s -> life e (snd (do_mlock ng a0 a1 flags s)).
Proof.
  intros L. unfold do_mlock. destruct (negb _); [done|]. cbn zeta. set (len := PG_UP _). pose proof (pg_down_aligned a0) as Ha.
  pose proof (lock_range_life e (PG_DOWN (a64_untag a0)) len flags s L Ha (pg_up_aligned _)) as L1.
  set (q := if _ || _ then _ else _). assert (Lq : life e (snd q)) by (unfold q; by destruct (_ || _)).
  destruct q as [err s1]. cbn [snd] in Lq. apply account_life in Lq. destruct (negb _); [done|].
  pose proof (populate_life e (S (length (regs (as_account s1)))) (PG_DOWN (a64_untag a0)) (u64 (PG_DOWN (a64_untag a0) + len)) ng _ Lq) as L2.
  unfold as_mlock_populate. by destruct (populate_loop _ _ _ _ _).
Qed.
Lemma call_life e c s : life e s -> call_ok c -> life e (call_exec c s).
Proof.
  intros L Hc. pose proof L as [_ L1 _ L3 _ _ _ L7].
  destruct c as [l a0|l a0 a1 a2 a3 a4 a5 pe|a0 a1|l a0 a1 a2|ng a0 a1 a2|a0 a1|a0| |ng va need|ng va b]; cbn [call_exec call_ok] in *.
  - by apply brk_life.
  - destruct Hc as (C1 & C2 & C3). by apply mmap_life.
  - pose proof (munmap_done a0 a1 s L1 Hc) as H. destruct (sys_munmap a0 a1 s) as [r s']. destruct H as [K H]. cbn [snd].
    pose proof (ks_space _ _ K). pose proof (ks_env _ _ K). destruct H as [[_ V]|[_ G]]; [by apply (life_view _ s)|].
    apply (life_kept _ s); [done|done|by apply (gone_private _ _ s s' G)|by apply (gone_under _ _ s s' L1 ltac:(done) G)].
  - assert (Hg : forall addr len prot, 0 <= addr -> 0 < len -> protect_whole addr len prot s) by (intros; by apply protect_private).
    pose proof (mprotect_done l a0 a1 a2 s Hg L1) as H. destruct (sys_mprotect l a0 a1 a2 s) as [r s']. destruct H as [K H]. cbn [snd].
    pose proof (ks_space _ _ K) as Hs'. pose proof (ks_env _ _ K) as He.
    destruct H as [[_ V]|[(_ & _ & ->)|(st & _ & _ & P)]]; [by apply (life_view _ s)|done|].
    apply (life_kept _ s); [done|done|by apply (protected_private _ _ _ s s' P)|by apply (protected_under _ _ _ s s' L1 Hs' P)].
  - unfold sys_mlock2. destruct (negb _); [done|]. by apply mlock_life.
  - unfold sys_munlock. cbn zeta. pose proof (lock_range_life e (PG_DOWN (a64_untag a0)) (PG_UP (a1 + Z.land (a64_untag a0) GUEST_PAGE_MASK)) 0 s L
      (pg_down_aligned a0) (pg_up_aligned _)) as L2. destruct (as_lock_range _ _ _ s) as [err s']. by apply account_life.
  - unfold sys_mlockall. cbn zeta. destruct (_ || _ || _); [done|]. destruct (negb _); [done|].
    destruct (_ || _ || _); apply account_life; [by apply lock_all_life|done].
  - by apply account_life, lock_all_life.
  - by apply access_life.
  - by apply store_life.
Qed.

(** The states a guest's calls lead to, from an empty space whose heap starts
    at [b]. *)
Definition mm_start (o : Os) (e : Env) (tid b : Z) : MS Os :=
  upd_ms_as (fun a => upd_as_brk (fun _ => b) (upd_as_brk_start (fun _ => b) a)) (ms_init o e tid).
Inductive call_reach (o : Os) (e : Env) (tid b : Z) : MS Os -> Prop :=
  | cr_init : call_reach o e tid b (mm_start o e tid b)
  | cr_call s c : call_reach o e tid b s -> call_ok c -> call_reach o e tid b (call_exec c s).
Lemma start_life o e tid b : 0 <= b <= GUEST_TASK_SIZE -> 0 <= env_min_addr e -> 0 <= env_as e -> life e (mm_start o e tid b).
Proof.
  intros Hb Hm Ha. pose proof (init_space o e tid) as Hi. pose proof Hi as [[C1 C2 C3] C4].
  split; [done| |done|by intros a v|done|exact (proj1 Hb)|done|done].
  apply (space_same (ms_init o e tid)); [done|by apply (as_inv_same (ms_init o e tid))|done|apply C2|done|done].
Qed.
Lemma reach_life o e tid b s : 0 <= b <= GUEST_TASK_SIZE -> 0 <= env_min_addr e -> 0 <= env_as e ->
  call_reach o e tid b s -> life e s.
Proof. intros Hb Hm Ha. induction 1 as [|s c _ IH Hc]; [by apply start_life|by apply call_life]. Qed.
End MmLimit.

Section MmRemap.
Context {Os : Type} `{!HostOs Os} `{!HostOsOk Os} `{!MmHost Os}.
Implicit Types s : MS Os.

(** The moves that are not refused; the way back is one too. *)
Definition movable (addr len dst : Z) : bool :=
  negb (misaligned (Z.lor (Z.lor addr len) dst) || (len =? 0)) &&
  negb (negb (range_ok addr len) || negb (range_ok dst len)) && negb ((dst <? addr + len) && (addr <? dst + len)).
Lemma move_rc addr len dst s : fst (guest_remap_move_impl addr len dst s) = if movable addr len dst then 0 else - EINVAL.
Proof.
  unfold guest_remap_move_impl, movable. destruct (misaligned _ || _); [done|]. destruct (negb (range_ok addr len) || _); [done|].
  by destruct (_ && _).
Qed.
Lemma movable_back addr len dst : movable addr len dst = true -> movable dst len addr = true /\ (dst + len <= addr \/ addr + len <= dst).
Proof.
  unfold movable. rewrite !andb_true_iff, !negb_true_iff, !orb_false_iff, !andb_false_iff, !negb_false_iff, !misaligned_false, !aligned_lor.
  intros [[[[[H1 H2] H3] H4] [H5 H6]] H7]. split; [repeat split; try done; tauto|]. lia.
Qed.
Lemma move_done addr len dst s : as_inv s -> 0 <= addr -> 0 <= len -> 0 <= dst ->
  let '(rc, s') := guest_remap_move addr len dst s in
  as_inv s' /\ rc = (if movable addr len dst then 0 else - EINVAL) /\
  ((rc = 0 /\ moved addr len dst s s') \/ (rc <> 0 /\ same_view s s')).
Proof.
  intros Hi Ha Hl Hd. unfold guest_remap_move. pose proof (move_impl_ok s addr len dst Hi Ha Hl Hd) as H.
  pose proof (move_rc addr len dst s) as R. destruct (guest_remap_move_impl addr len dst s) as [rc s1]. destruct H as [I1 H].
  destruct (as_inv_finish true rc s1 I1) as (_ & J1 & V). set (t := snd (finish true (rc, s1))) in *.
  change (finish true (rc, s1)) with (rc, t). split; [done|]. split; [done|]. pose proof V as [V1 V2 V3].
  destruct H as [[-> [A1 A2 A3]]|[Hn W]]; [left|right; split; [by rewrite Hn|by rewrite <- W]].
  split; [done|]. split; intros x Hx; rewrite ?V1, ?V2, ?V3; auto.
Qed.
(** There and back, with anything between that the guest does not see. *)
Lemma moved_back addr len dst s s1 t s2 : dst + len <= addr \/ addr + len <= dst ->
  (forall a, dst <= a < dst + len -> look (regs s) a = None) ->
  moved addr len dst s s1 -> same_view s1 t -> moved dst len addr t s2 ->
  forall a, guest_byte s2 a = guest_byte s a /\ (r_prot <$> look (regs s2) a) = (r_prot <$> look (regs s) a).
Proof.
  intros Hdis Hfree [A1 A2 A3] [V1 V2 V3] [B1 B2 B3] a.
  destruct (decide (addr <= a < addr + len)) as [Hin|Hout]; [|destruct (decide (dst <= a < dst + len)) as [Hd'|Hd']].
  - destruct (B1 (a - addr) ltac:(lia)) as (C1 & _ & C3). replace (addr + (a - addr)) with a in C1, C3 by lia.
    rewrite C1, C3, V1, V3. destruct (A1 (a - addr) ltac:(lia)) as (D1 & _ & D3). replace (addr + (a - addr)) with a in D1, D3 by lia.
    rewrite D1, D3. split; [done|]. by destruct (look (regs s) a).
  - destruct (B2 a Hd') as [C1 _]. unfold guest_byte. by rewrite C1, Hfree.
  - destruct (B3 a Hd' Hout) as (C1 & _ & C3). rewrite C1, C3, V1, V3. by destruct (A3 a Hout Hd') as (-> & _ & ->).
Qed.

(** ** A growth that is refused changes nothing but the host *)
Definition host_only s s' : Prop := exists o, s' = upd_ms_os (fun _ => o) s.
Lemma host_only_refl s : host_only s s.
Proof. exists (ms_os s). by destruct s. Qed.
Lemma host_only_trans s1 s2 s3 : host_only s1 s2 -> host_only s2 s3 -> host_only s1 s3.
Proof. intros [o ->] [o' ->]. by exists o'. Qed.
Lemma host_only_ok s s' : host_only s s' -> as_inv s -> as_inv s' /\ same_view s s' /\ ms_as s' = ms_as s /\ ms_env s' = ms_env s.
Proof. intros [o ->] Hi. split; [by apply (as_inv_same s)|done]. Qed.
Lemma mremap_refused p n n' f s s' : host_mremap p n n' f s = (None, s') -> host_only s s'.
Proof.
  unfold host_mremap. destruct (os_mremap _ _ _ _ _ _) as [[q|] o]; [|intros [= <-]; by exists o].
  destruct (q =? p); [done|]. by destruct (n =? 0).
Qed.
Lemma alloc_refused n s s' : host_alloc n s = (None, s') -> host_only s s'.
Proof. intros E. destruct (host_alloc_none n s s' E) as (o & ->). by exists o. Qed.
Lemma extend_move_refused r extra ip s s' : extend_move r extra ip s = (None, s') -> host_only s s'.
Proof.
  unfold extend_move. cbn zeta. intros H.
  assert (Ht : exists t, host_only s t /\ (if tr (r_shared r)
    then match host_mremap (r_host r - Z.land (r_host r) (os_pagesz - 1)) 0 (r_end r - r_start r + extra + Z.land (r_host r) (os_pagesz - 1)) 1 t with
         | (Some _, _) => False | (None, t1) => t1 = s' end
    else match host_alloc (r_end r - r_start r + extra) t with (None, t1) => t1 = s' | (Some _, _) => t = s' end \/ t = s')).
  { destruct (_ && _ && _); [destruct (host_mremap (r_host r) _ _ 1 s) as [[p|] t] eqn:E; [by destruct (p =? r_host r)|]|].
    - exists t. split; [by apply mremap_refused in E|]. destruct (tr (r_shared r)); [by destruct (host_mremap _ _ _ _ t) as [[q|] t1]; [|injection H as ->]|].
      destruct (_ && _); [|injection H as ->; by right]. left. by destruct (host_alloc _ t) as [[q|] t1]; [|injection H as ->].
    - exists s. split; [apply host_only_refl|]. destruct (tr (r_shared r)); [by destruct (host_mremap _ _ _ _ s) as [[q|] t1]; [|injection H as ->]|].
      destruct (_ && _); [|injection H as ->; by right]. left. by destruct (host_alloc _ s) as [[q|] t1]; [|injection H as ->]. }
  destruct Ht as (t & Ht & Hc). apply (host_only_trans _ t); [done|]. destruct (tr (r_shared r)).
  - destruct (host_mremap _ _ _ _ t) as [[q|] t1] eqn:E; [done|]. subst t1. by apply mremap_refused in E.
  - destruct Hc as [Hc|<-]; [|apply host_only_refl]. destruct (host_alloc _ t) as [[q|] t1] eqn:E; [subst t; apply host_only_refl|].
    subst t1. by apply alloc_refused in E.
Qed.
Lemma backing_refused i extra ip s : let '(rc, s') := region_extend_backing i extra ip s in
  rc = 0 \/ (rc = - ENOMEM /\ host_only s s').
Proof.
  pose proof (host_only_refl s) as H0. unfold region_extend_backing. destruct (regs s !! i) as [r|]; [|by right]. cbn zeta.
  destruct (negb _ || negb _); [by right|].
  set (q := if _ =? _ then host_mremap _ _ _ _ s else (None, s)).
  assert (Hq : fst q = None -> host_only s (snd q)).
  { unfold q. destruct (_ =? _); [|done]. destruct (host_mremap _ _ _ _ s) as [[p|] t] eqn:E; [done|]. intros _. by apply mremap_refused in E. }
  destruct q as [[p|] t]; [by left|]. specialize (Hq eq_refl). cbn [snd] in Hq.
  destruct (extend_move r extra ip t) as [[[[]|[nb pad]]|] t2] eqn:E; [by left|by left|right]. split; [done|].
  apply (host_only_trans _ t); [done|by apply extend_move_refused in E].
Qed.
Lemma grow_refused addr old new ip s : let '(rc, s') := guest_remap_grow_impl addr old new ip s in
  rc = 0 \/ (-4096 < rc < 0 /\ host_only s s').
Proof.
  pose proof (host_only_refl s) as H0. unfold guest_remap_grow_impl. destruct (_ || _); [by right|]. destruct (negb _); [by right|].
  destruct (find_index _ _ _) as [i|]; [|by right]. destruct (regs s !! i) as [r|]; [|by right]. destruct (negb _); [by right|].
  destruct (negb _); [by right|]. destruct (_ && _); [by right|]. cbn zeta.
  pose proof (backing_refused i (new - old) ip s) as Hb. destruct (region_extend_backing i (new - old) ip s) as [rc t].
  destruct Hb as [->|[-> Hh]]; [|by right]. cbn [Z.ltb Z.compare]. destruct (regs t !! i) as [r'|]; [|by left].
  destruct (tr (r_hostmap r')); by left.
Qed.
Lemma refused_finish rc s t : space_ok s -> host_only s t -> rc < 0 ->
  kept_space s (snd (finish true (rc, t))) /\ same_view s (snd (finish true (rc, t))).
Proof.
  intros Hs [o ->] Hr. set (t := upd_ms_os (fun _ => o) s). pose proof (host_core s t (sp_core s Hs) (host_step_os o s) eq_refl eq_refl) as [Hm Hc].
  destruct (finish_attr true rc s t Hm) as (E1 & E3 & E2). pose proof (core_space s _ Hs (core_finish _ true rc t Hc)) as Hsp.
  assert (Hi : as_inv t) by (by apply (as_inv_same s); [apply sp_inv|..]).
  destruct (as_inv_finish true rc t Hi) as (_ & _ & V). split; [by split|]. by apply (same_view_trans _ t).
Qed.
Lemma grow_done addr old new ip s : space_ok s -> let '(rc, s') := guest_remap_grow addr old new ip s in
  rc = 0 \/ (-4096 < rc < 0 /\ kept_space s s' /\ same_view s s').
Proof.
  intros Hs. unfold guest_remap_grow. pose proof (grow_refused addr old new ip s) as H.
  destruct (guest_remap_grow_impl addr old new ip s) as [rc t]. destruct H as [->|[Hr Hh]]; [by left|right].
  change (finish true (rc, t)) with (rc, snd (finish true (rc, t))). split; [done|]. apply refused_finish; [done|done|lia].
Qed.
Lemma dup_refused addr len dst s : let '(rc, s') := guest_remap_dup_impl addr len dst s in
  rc = 0 \/ (-4096 < rc < 0 /\ host_only s s').
Proof.
  pose proof (host_only_refl s) as H0. unfold guest_remap_dup_impl. destruct (_ || _); [by right|]. destruct (negb _); [by right|].
  destruct (as_find_region _ _) as [r|]; [|by right]. destruct (negb _); [by right|]. destruct (negb _); [by right|]. cbn zeta.
  destruct (negb _); [by right|]. destruct (host_mremap _ _ _ _ s) as [[p|] t] eqn:E; [|right; split; [done|by apply mremap_refused in E]].
  by left.
Qed.
Lemma dup_done addr len dst s : space_ok s -> let '(rc, s') := guest_remap_dup addr len dst s in
  rc = 0 \/ (-4096 < rc < 0 /\ kept_space s s' /\ same_view s s').
Proof.
  intros Hs. unfold guest_remap_dup. pose proof (dup_refused addr len dst s) as H.
  destruct (guest_remap_dup_impl addr len dst s) as [rc t]. destruct H as [->|[Hr Hh]]; [by left|right].
  change (finish true (rc, t)) with (rc, snd (finish true (rc, t))). split; [done|]. apply refused_finish; [done|done|lia].
Qed.

(** ** mremap *)
Definition same_memory s s' : Prop := forall a, guest_byte s' a = guest_byte s a /\
  (r_prot <$> look (regs s') a) = (r_prot <$> look (regs s) a).
Definition is_errno (r : Z) : Prop := exists e, 0 < e < 4096 /\ r = errno e.
Lemma view_memory s s' : same_view s s' -> same_memory s s'.
Proof. intros [V1 _ V3] a. by rewrite V1, V3. Qed.
Lemma memory_trans s1 s2 s3 : same_memory s1 s2 -> same_memory s2 s3 -> same_memory s1 s3.
Proof. intros H1 H2 a. destruct (H1 a), (H2 a). split; congruence. Qed.
Lemma address_no_errno r : 0 <= r <= GUEST_TASK_SIZE -> ~ is_errno r.
Proof.
  intros Hr (e & He & ->). change GUEST_TASK_SIZE with (2 ^ 47) in Hr. revert Hr. unfold errno, u64.
  rewrite <- (Z.mod_unique (- e) (2 ^ 64) (-1) (2 ^ 64 - e)) by lia. lia.
Qed.
(** A call that is refused only with the memory as it was. *)
Definition clean (r : Z) s s' : Prop := is_errno r -> same_memory s s'.
Lemma clean_same r s s' : same_view s s' -> clean r s s'.
Proof. intros V _. by apply view_memory. Qed.
Lemma clean_addr r s s' : 0 <= r <= GUEST_TASK_SIZE -> clean r s s'.
Proof. intros Hr He. by destruct (address_no_errno r Hr). Qed.
Lemma clean_from r s s1 s' : same_view s s1 -> clean r s1 s' -> clean r s s'.
Proof. intros V H He. apply (memory_trans _ s1); [by apply view_memory|by apply H]. Qed.
Lemma found_place len s : space_ok s -> place_ok (ms_as s) -> aligned len -> 0 <= len <= GUEST_TASK_SIZE ->
  let '(b, s') := as_find_free len s in quiet s s' /\ (b <> 0 -> aligned b /\ 0 <= b /\ b + len <= GUEST_TASK_SIZE /\ free_range s b len).
Proof.
  intros Hs Hp Ha Hl. pose proof (find_free_ok len s (sp_core s Hs) Hl Hp) as Hf. pose proof (find_free_quiet len s Hs Hl) as Hq.
  rewrite pg_up_same in Hf by done. destruct (as_find_free len s) as [b s']. cbn [snd] in Hq. split; [done|].
  destruct Hf as [(F1 & F2 & F3 & _ & _ & F6)|(-> & _)]; [|done]. intros _. change FREE_LIMIT with (GUEST_TASK_SIZE - 0x10000000) in F3.
  split; [done|]. split; [lia|]. split; [lia|done].
Qed.
(** The move, put back when the growth at the destination is refused. *)
Lemma move_clean old_addr old_len new_len dst s : space_ok s -> 0 <= old_addr -> 0 < old_len < new_len -> 0 <= dst ->
  dst + new_len <= GUEST_TASK_SIZE -> free_range s dst new_len ->
  let '(r, s') := mremap_move old_addr old_len new_len dst s in clean r s s'.
Proof.
  intros Hs Ha Hl Hd Ht Hf. unfold mremap_move. cbn zeta. rewrite (proj2 (Z.ltb_lt old_len new_len)) by lia.
  pose proof (move_done old_addr old_len dst s (sp_inv s Hs) Ha ltac:(lia) Hd) as H1.
  pose proof (move_core old_addr old_len dst s (sp_core s Hs) Ha ltac:(lia) Hd) as Hmc. unfold guest_remap_move in H1 at 1.
  unfold guest_remap_move at 1. destruct (guest_remap_move_impl old_addr old_len dst s) as [rc t].
  pose proof (core_space s _ Hs (core_finish _ true rc _ (proj2 Hmc))) as Hs1. cbn [snd] in Hs1.
  set (s1 := snd (finish true (rc, t))) in *. change (finish true (rc, t)) with (rc, s1) in H1 |- *.
  destruct H1 as (_ & R1 & H1). destruct H1 as [[-> M]|[Hn V]].
  2: { destruct (rc <? 0) eqn:E; [by apply clean_same|]. exfalso. destruct (movable _ _ _); [done|by rewrite R1 in E]. }
  cbn [Z.ltb Z.compare]. pose proof (grow_done dst old_len new_len false s1 Hs1) as Hg.
  destruct (guest_remap_grow dst old_len new_len false s1) as [rc2 s2]. destruct Hg as [->|(Hr & K & V)]; [by apply clean_addr; lia|].
  rewrite (proj2 (Z.ltb_lt rc2 0)) by lia. intros _.
  pose proof (move_done dst old_len old_addr s2 (sp_inv s2 (ks_space _ _ K)) Hd ltac:(lia) Ha) as H3.
  destruct (guest_remap_move dst old_len old_addr s2) as [rc3 s3]. destruct H3 as (_ & R3 & H3). cbn [snd].
  destruct (movable old_addr old_len dst) eqn:Em; [|done]. destruct (movable_back _ _ _ Em) as [Em' Hdis]. rewrite Em' in R3.
  destruct H3 as [[_ M']|[? _]]; [|lia]. intros a.
  apply (moved_back old_addr old_len dst s s1 s2 s3 Hdis); [|done|done|done]. intros x Hx. apply Hf. lia.
Qed.
(** The checks in front let only ranges of the task through. *)
Lemma args_range a old_len new_len flags s : mremap_args a old_len new_len flags s = 0 ->
  a <= GUEST_TASK_SIZE /\ old_len <= GUEST_TASK_SIZE - a.
Proof.
  unfold mremap_args. destruct (misaligned a); [done|]. destruct (negb (_ =? 0)); [done|]. destruct (new_len =? 0); [done|].
  destruct (has flags G_MREMAP_FIXED && _); [done|]. destruct (has flags G_MREMAP_DONTUNMAP && _); [done|].
  destruct ((GUEST_TASK_SIZE <? a) || _) eqn:E; [done|]. intros _. apply orb_false_iff in E. lia.
Qed.
Definition only_maymove (flags : Z) : bool := negb (has flags (Z.lor G_MREMAP_FIXED G_MREMAP_DONTUNMAP)).
Lemma only_bits flags : only_maymove flags = true -> has flags G_MREMAP_FIXED = false /\ has flags G_MREMAP_DONTUNMAP = false.
Proof.
  unfold only_maymove, has. rewrite negb_involutive, Z.eqb_eq, Z.land_lor_distr_r. intros [H1 H2]%Z.lor_eq_0_iff. by rewrite H1, H2.
Qed.
Lemma dup_clean a new_len flags a4 s : space_ok s -> place_ok (ms_as s) -> only_maymove flags = true ->
  aligned new_len -> 0 <= new_len <= GUEST_TASK_SIZE ->
  let '(r, s') := mremap_dup a new_len flags a4 s in clean r s s'.
Proof.
  intros Hs Hp [F1 _]%only_bits Ha Hl. unfold mremap_dup. rewrite F1. cbn zeta.
  destruct (negb _); [by apply clean_same|]. pose proof (found_place new_len s Hs Hp Ha Hl) as Hf.
  destruct (as_find_free new_len s) as [d s1]. destruct Hf as [Q Hf]. destruct (Z.eqb_spec d 0) as [|Hd]; [apply clean_same, Q|].
  destruct (Hf Hd) as (_ & D1 & D2 & _). pose proof (dup_done a new_len d s1 (ks_space _ _ (quiet_kept s s1 Hs Q))) as Hdd.
  destruct (guest_remap_dup a new_len d s1) as [rc s2]. destruct Hdd as [->|(Hr & _ & V)]; [apply (clean_addr d); lia|].
  apply clean_same. apply (same_view_trans _ s1); [apply Q|done].
Qed.
Lemma stay_clean a old_len new_len flags s : space_ok s -> only_maymove flags = true -> 0 <= a <= GUEST_TASK_SIZE ->
  match mremap_stay a old_len new_len flags s with
  | (Some r, s') => clean r s s'
  | (None, s') => old_len < new_len /\ kept_space s s' /\ same_view s s'
  end.
Proof.
  intros Hs Hf Ha. unfold mremap_stay. apply negb_true_iff in Hf. rewrite Hf. pose proof (quiet_kept s s Hs (quiet_refl s Hs)) as K0.
  destruct (Z.leb_spec new_len old_len) as [|Hlt]; [by apply clean_addr|].
  destruct (pages_unmapped _ _ s); [|by destruct (negb _); [apply clean_same|]].
  pose proof (grow_done a old_len new_len true s Hs) as Hg. destruct (guest_remap_grow a old_len new_len true s) as [rc s1].
  destruct Hg as [->|(Hr & K & V)]; [by apply clean_addr|]. rewrite (proj2 (Z.eqb_neq rc 0)) by lia.
  destruct (negb _); [by apply clean_same|done].
Qed.
Lemma mremap_clean l a0 a1 a2 a3 a4 s : space_ok s -> place_ok (ms_as s) -> fits 64 a1 -> fits 64 a2 -> PG_UP a2 <= GUEST_TASK_SIZE ->
  only_maymove (s32 a3) = true -> let '(r, s') := sys_mremap l a0 a1 a2 a3 a4 s in clean r s s'.
Proof.
  intros Hs Hp H1 H2 Ht Hf. unfold sys_mremap, mremap_locked. cbn zeta. set (a := a64_untag a0). pose proof (proj1 (untag_fits a0)) as Ha. fold a in Ha.
  destruct (pg_up_spec a2 H2) as [A2 _]. pose proof (pg_up_nonneg a2) as N2. pose proof (pg_up_nonneg a1) as N1.
  set (ol := PG_UP a1) in *. set (nl := PG_UP a2) in *. set (flags := s32 a3) in *.
  destruct (Z.eqb_spec (mremap_args a ol nl flags s) 0) as [Ea|Ea]; cbn [negb]; [|by apply clean_same].
  destruct (args_range _ _ _ _ _ Ea) as [R1 R2]. destruct (_ && _); [by apply clean_same|]. set (t := mremap_tail a ol s).
  destruct (negb (mremap_limits l t ol nl s =? 0)); [by apply clean_same|].
  destruct (Z.eqb_spec ol 0) as [|E0]; [by apply dup_clean|].
  pose proof (stay_clean a ol nl flags s Hs Hf ltac:(lia)) as Hst. destruct (mremap_stay a ol nl flags s) as [[r|] s1]; [done|].
  destruct Hst as (Hlt & K & V). unfold mremap_place. destruct (only_bits flags Hf) as [F1 F2]. rewrite F1.
  pose proof (found_place nl s1 (ks_space _ _ K) (ks_place _ _ K Hp) A2 ltac:(lia)) as Hfp.
  destruct (as_find_free nl s1) as [d s2]. destruct Hfp as [Q Hfp]. pose proof (same_view_trans _ _ _ V (qu_view _ _ Q)) as V2.
  destruct (Z.eqb_spec d 0) as [|Hd]; [by apply clean_same|]. destruct (Hfp Hd) as (_ & D1 & D2 & D3). rewrite F2.
  pose proof (move_clean a ol nl d s2 (ks_space _ _ (quiet_kept s1 s2 (ks_space _ _ K) Q)) ltac:(lia) ltac:(lia) D1 D2) as Hm.
  destruct (mremap_move a ol nl d s2) as [r s3]. apply (clean_from _ s s2 s3 V2). apply Hm.
  intros x Hx. rewrite (qu_regs _ _ Q). by apply D3.
Qed.
End MmRemap.
