(* ===== verification/SimHost.v ===== *)
(** * SimHost: host kernels the theorems can be run on

    Two instances of [HostOs] that meet [HostOsOk]: [Sim], which maps every
    request above everything mapped so far and grants every protection, and
    [Strict], which refuses protection changes once a number of them have
    been made. Page size 4096. *)

From stdpp Require Import gmap.
From S2P Require Import Prelude Types Cpu MemSeam PageTable Regions Epoch AsState AddrSpace AsInv.

(** The first page above every mapping. *)
Definition sim_top (maps : list (Z * Z)) : Z :=
  fold_right (fun q t => Z.max t ((fst q + snd q + 4095) / 4096 * 4096)) 4096 maps.
Lemma sim_top_above maps q : q ∈ maps -> fst q + snd q <= sim_top maps.
Proof.
  induction maps as [|p maps IH]; [by intros ?%elem_of_nil|]. simpl. intros [->|Hq]%elem_of_cons.
  - pose proof (Z.div_mod (fst p + snd p + 4095) 4096). pose proof (Z.mod_pos_bound (fst p + snd p + 4095) 4096). lia.
  - specialize (IH Hq). lia.
Qed.
Lemma sim_top_page maps : 4096 <= sim_top maps /\ sim_top maps mod 4096 = 0.
Proof.
  induction maps as [|p maps [IH1 IH2]]; [done|]. simpl. split; [lia|].
  destruct (Z.max_spec (sim_top maps) ((fst p + snd p + 4095) / 4096 * 4096)) as [[_ ->]|[_ ->]]; [|done].
  by apply Z.mod_mul.
Qed.
Definition sim_alloc (maps : list (Z * Z)) (n : Z) : option Z :=
  if sim_top maps + n <=? 2 ^ 64 then Some (sim_top maps) else None.

Inductive Sim := sim.
Inductive Strict := strict (grants : nat).
#[global] Instance sim_os : HostOs Sim := {
  os_pagesz := 4096;
  os_mmap o maps n := (sim_alloc maps n, o);
  os_mmap_at o maps hint n := (sim_alloc maps n, o);
  os_mmap_file o maps fd n off sh w := (match sim_alloc maps n with Some p => inr p | None => inl ENOMEM end, o);
  os_file_bytes o fd off := 0;
  os_mremap o maps p n n' f := (None, o);
  os_mprotect o p n w := (true, o);
  os_getfl o fd := Some 2;
  os_fstat o fd := Some (1, fd, 4096);
  os_readable o p := false
}.
#[global] Instance strict_os : HostOs Strict := {
  os_pagesz := 4096;
  os_mmap o maps n := (sim_alloc maps n, o);
  os_mmap_at o maps hint n := (sim_alloc maps n, o);
  os_mmap_file o maps fd n off sh w := (match sim_alloc maps n with Some p => inr p | None => inl ENOMEM end, o);
  os_file_bytes o fd off := 0;
  os_mremap o maps p n n' f := (None, o);
  os_mprotect o p n w := match o with strict (S k) => (true, strict k) | strict O => (false, o) end;
  os_getfl o fd := Some 2;
  os_fstat o fd := Some (1, fd, 65536);
  os_readable o p := false
}.
Lemma sim_alloc_fresh maps n p : sim_alloc maps n = Some p -> 0 < p /\ p + n <= 2 ^ 64 /\ p mod 4096 = 0 /\ rng_free maps p n.
Proof.
  unfold sim_alloc. destruct (sim_top maps + n <=? 2 ^ 64) eqn:E; [|done]. intros [= <-].
  pose proof (sim_top_page maps) as [H1 H2]. split; [lia|]. split; [lia|]. split; [done|].
  intros a Ha. unfold live. apply not_true_iff_false. intros (q & Hq & Hr)%existsb_exists.
  apply in_rng_iff in Hr. apply list_elem_of_In in Hq. pose proof (sim_top_above maps q Hq). lia.
Qed.
Lemma sim_file_fresh (maps : list (Z * Z)) (n p : Z) :
  match sim_alloc maps n with Some p => inr p | None => inl ENOMEM end = (inr p : Z + Z) -> sim_alloc maps n = Some p.
Proof. destruct (sim_alloc maps n); [|done]. by intros [= <-]. Qed.
#[global] Instance sim_os_ok : HostOsOk Sim.
Proof.
  split; simpl.
  - exists 12. done.
  - intros o maps n p o' E. injection E as E. by apply sim_alloc_fresh.
  - intros o maps hint n p o' E. injection E as E. by apply sim_alloc_fresh.
  - intros o maps fd n off sh w p o' E. injection E as E. by apply sim_alloc_fresh, sim_file_fresh.
  - done.
  - done.
Qed.
#[global] Instance strict_os_ok : HostOsOk Strict.
Proof.
  split; simpl.
  - exists 12. done.
  - intros o maps n p o' E. injection E as E. by apply sim_alloc_fresh.
  - intros o maps hint n p o' E. injection E as E. by apply sim_alloc_fresh.
  - intros o maps fd n off sh w p o' E. injection E as E. by apply sim_alloc_fresh, sim_file_fresh.
  - done.
  - done.
Qed.

(** Limits with nothing in the way. *)
Definition sim_env : Env := mkEnv RLIM_INFINITY RLIM_INFINITY RLIM_INFINITY true 65536 false false.
Definition sim_init : MS Sim := ms_init sim sim_env 100.
