(* ===== verification/Simd.v ===== *)
(** * Simd: lanes, saturation and shifts of core/exec_fpsimd.c

    The element views of a vector register, the FPSR bits kept aside in
    [g_fpexc], the immediate expansions, and the 64-bit kernels of the
    saturating, shifting and narrowing instructions. A kernel that can
    saturate gives its value and whether it raised FPSR.QC. *)

From S2P Require Import Prelude Types Cpu.

(** ** Element views *)

(** The width [velem_get] and [velem_set] switch to. *)
Definition ebits (size : Z) : Z :=
  match size with 0 => 8 | 1 => 16 | 2 => 32 | _ => 64 end.

(** Element [i] of the [w]-bit view of a V128, and its update. *)
Definition vget (w : Z) (v : V128) (i : Z) : Z := Z.land (Z.shiftr v (w * i)) (Z.ones w).
Definition vset (w : Z) (v : V128) (i x : Z) : V128 :=
  Z.lor (Z.ldiff v (Z.shiftl (Z.ones w) (w * i))) (Z.shiftl (Z.land x (Z.ones w)) (w * i)).
Arguments vget : simpl never.
Arguments vset : simpl never.

(** An index inside the array of the [w]-bit view. *)
Definition in_lane (w i : Z) : bool := (0 <=? i) && (w * i <? 128).

Section Lanes.
Context {S : Type}.
Local Open Scope exec_scope.

(** [v.b[i]], [v.h[i]], [v.s[i]], [v.d[i]], read and written: an index past
    the union is outside C's rules. *)
Definition el (w : Z) (v : V128) (i : Z) : M S Z :=
  if in_lane w i then ret (vget w v i) else ub.
Definition set_el (w : Z) (v : V128) (i x : Z) : M S V128 :=
  if in_lane w i then ret (vset w v i x) else ub.

Definition velem_get (v : V128) (size idx : Z) : M S Z := el (ebits size) v idx.
Definition velem_set (v : V128) (size idx val : Z) : M S V128 := set_el (ebits size) v idx val.

(** [for (i = 0; i < n; i++)] over an accumulator. *)
Definition for_up {A} (n : Z) (a : A) (body : Z -> A -> M S A) : M S A :=
  for_loop (Z.to_nat n) 0 body a.
(** The loop that fills elements [base], [base + 1], ... of [r]. *)
Definition fill (w n base : Z) (r : V128) (body : Z -> M S Z) : M S V128 :=
  for_up n r (fun i r => v <- body i; set_el w r (base + i) v).
End Lanes.

(** The mask of an element, [esize == 64 ? ~0ULL : (1ULL << esize) - 1]. *)
Definition mask_of (esize : Z) : Z :=
  if 64 <=? esize then not64 0 else u64 (Z.shiftl 1 esize) - 1.

(** ** Immediates *)
Definition rep8 (b : Z) : Z := u64 (Z.land b 0xff * 0x0101010101010101).
Definition rep16 (h : Z) : Z := u64 (Z.land h 0xffff * 0x0001000100010001).
Definition rep32 (w : Z) : Z :=
  let w := Z.land w 0xffffffff in Z.lor w (u64 (Z.shiftl w 32)).

(** The fields of an 8-bit FP immediate, assembled at the three widths. *)
Definition vfp_imm32 (imm8 : Z) : Z :=
  let s := BIT imm8 7 in let b6 := BIT imm8 6 in let e := Z.land (Z.shiftr imm8 4) 3 in
  let exp8 := Z.lor (Z.lor (Z.shiftl (b2z (b6 =? 0)) 7)
                           (Z.shiftl (if b6 =? 0 then 0 else 0x1f) 2)) e in
  Z.lor (Z.lor (u32 (Z.shiftl s 31)) (u32 (Z.shiftl exp8 23)))
        (u32 (Z.shiftl (Z.land imm8 0xf) 19)).
Definition vfp_imm64 (imm8 : Z) : Z :=
  let s := BIT imm8 7 in let b6 := BIT imm8 6 in let e := Z.land (Z.shiftr imm8 4) 3 in
  let exp11 := Z.lor (Z.lor (Z.shiftl (b2z (b6 =? 0)) 10)
                            (Z.shiftl (if b6 =? 0 then 0 else 0xff) 2)) e in
  Z.lor (Z.lor (u64 (Z.shiftl s 63)) (u64 (Z.shiftl exp11 52)))
        (u64 (Z.shiftl (Z.land imm8 0xf) 48)).

(** The bit-to-byte expansion of the 64-bit MOVI. *)
Fixpoint movi_bytes (n : nat) (i imm8 v : Z) : Z :=
  match n with
  | O => v
  | Datatypes.S n' =>
      let v := if Z.land (Z.shiftr imm8 i) 1 =? 0 then v
               else Z.lor v (u64 (Z.shiftl 0xff (i * 8))) in
      movi_bytes n' (i + 1) imm8 v
  end.

Definition expand_imm (op cmode imm8 : Z) : Z :=
  let hi := Z.land (Z.shiftr cmode 1) 7 in let lo := Z.land cmode 1 in
  match hi with
  | 0 => rep32 imm8
  | 1 => rep32 (u64 (Z.shiftl imm8 8))
  | 2 => rep32 (u64 (Z.shiftl imm8 16))
  | 3 => rep32 (u64 (Z.shiftl imm8 24))
  | 4 => rep16 imm8
  | 5 => rep16 (u64 (Z.shiftl imm8 8))
  | 6 => if negb (lo =? 0) then rep32 (Z.lor (u64 (Z.shiftl imm8 16)) 0xffff)
         else rep32 (Z.lor (u64 (Z.shiftl imm8 8)) 0xff)
  | _ => if (lo =? 0) && (op =? 0) then rep8 imm8
         else if (lo =? 0) && (op =? 1) then movi_bytes 8 0 imm8 0
         else if (lo =? 1) && (op =? 0) then rep32 (vfp_imm32 imm8)
         else vfp_imm64 imm8
  end.

(** ** Signed and wrapping arithmetic on elements *)
Definition INT64_MAX : Z := 2 ^ 63 - 1.
Definition INT64_MIN : Z := - 2 ^ 63.

Definition sx (v esize : Z) : Z := s64 (sign_extend v esize).
Definition wadd (x y : Z) : Z := s64 (u64 x + u64 y).
Definition wsub (x y : Z) : Z := s64 (u64 x - u64 y).
Definition wmul (x y : Z) : Z := s64 (u64 x * u64 y).
Definition wabs (x : Z) : Z := if x <? 0 then u64 (0 - u64 x) else u64 x.

(** ** Saturation: the value, and whether FPSR.QC was raised *)
Definition smax_of (e : Z) : Z := if 64 <=? e then INT64_MAX else Z.shiftl 1 (e - 1) - 1.
Definition smin_of (e : Z) : Z := if 64 <=? e then INT64_MIN else - Z.shiftl 1 (e - 1).

Definition sat_s (v e : Z) : Z * bool :=
  if smax_of e <? v then (u64 (smax_of e), true)
  else if v <? smin_of e then (u64 (smin_of e), true)
  else (u64 v, false).
Definition sat_umask (v emask : Z) : Z * bool :=
  if emask <? v then (emask, true) else (v, false).
Definition sat_u (v e : Z) : Z * bool :=
  let max := if 64 <=? e then not64 0 else u64 (Z.shiftl 1 e) - 1 in
  if v <? 0 then (0, true)
  else if max <? u64 v then (max, true)
  else (u64 v, false).
Definition sat_neg (v e : Z) : Z * bool :=
  if (64 <=? e) && (v =? INT64_MIN) then (u64 INT64_MAX, true) else sat_s (- v) e.
Definition ssat_add (a b e : Z) : Z * bool :=
  if e <? 64 then sat_s (a + b) e else
  let r := s64 (u64 a + u64 b) in
  if Z.land (Z.lxor a r) (Z.lxor b r) <? 0
  then (if a <? 0 then u64 INT64_MIN else u64 INT64_MAX, true)
  else (u64 r, false).
Definition ssat_sub (a b e : Z) : Z * bool :=
  if e <? 64 then sat_s (a - b) e else
  let r := s64 (u64 a - u64 b) in
  if Z.land (Z.lxor a b) (Z.lxor a r) <? 0
  then (if a <? 0 then u64 INT64_MIN else u64 INT64_MAX, true)
  else (u64 r, false).
Definition usat_add (a b e : Z) : Z * bool :=
  let r := u64 (a + b) in
  if e <? 64 then
    let m := u64 (Z.shiftl 1 e) - 1 in
    if m <? r then (m, true) else (r, false)
  else if r <? a then (not64 0, true) else (r, false).
Definition usqadd_sat (d sa e : Z) : Z * bool :=
  if 0 <=? sa then usat_add d (u64 sa) e else
  let mag := u64 (0 - u64 sa) in
  if d <? mag then (0, true) else (u64 (d - mag), false).
Definition usat_sub (a b : Z) : Z * bool :=
  if a <? b then (0, true) else (u64 (a - b), false).

(** SQRDMLAH/SQRDMLSH: the sum at double width, kept in two 64-bit words. *)
Definition sqrdmlah_op (d a b esize : Z) (sub : bool) : Z * bool :=
  let base := s64 (u64 (Z.shiftl (u64 d) esize)) + Z.shiftl 1 (esize - 1) in
  let p := a * b in
  let lo := u64 base in let hi := if base <? 0 then not64 0 else 0 in
  let plo := u64 (Z.shiftl (u64 p) 1) in let phi := if p <? 0 then not64 0 else 0 in
  let '(lo, hi) :=
    if sub then (u64 (lo - plo), u64 (hi - (phi + b2z (lo <? plo))))
    else let t := u64 (lo + plo) in (t, u64 (hi + (phi + b2z (t <? lo)))) in
  sat_s (s64 (Z.lor (u64 (Z.shiftl hi (64 - esize))) (Z.shiftr lo esize))) esize.

Definition suqadd_sat (d a e : Z) : Z * bool :=
  let emask := mask_of e in
  let sd := sx d e in
  let ua := Z.land a emask in
  if e <? 64 then sat_s (sd + s64 ua) e else
  let lim := if 0 <=? sd then u64 (u64 INT64_MAX - u64 sd)
             else u64 (u64 INT64_MAX + u64 (- u64 sd)) in
  if lim <? ua then (u64 INT64_MAX, true) else (u64 (u64 sd + ua), false).

(** ** Shifts *)

(** [vreg_shift]: left by [sh] when it is not negative, right by [-sh]
    otherwise. *)
Definition vreg_shift (val sh e : Z) (sgn round sat : bool) : Z * bool :=
  let emask := mask_of e in
  if 0 <=? sh then
    if negb sat then (if 64 <=? sh then 0 else Z.land (u64 (Z.shiftl val sh)) emask, false)
    else if sgn then
      let sv := sx val e in
      let max := smax_of e in let min := smin_of e in
      if sv =? 0 then (0, false)
      else if (e <=? sh) || (64 <=? sh) then
        (Z.land (u64 (if 0 <? sv then max else min)) emask, true)
      else if 0 <? sv then
        if Z.shiftr max sh <? sv then (u64 max, true)
        else (Z.land (u64 (Z.shiftl (u64 sv) sh)) emask, false)
      else if sv <? Z.shiftr min sh then (Z.land (u64 min) emask, true)
      else (Z.land (u64 (Z.shiftl (u64 sv) sh)) emask, false)
    else
      let uv := Z.land val emask in
      if uv =? 0 then (0, false)
      else if 64 <=? sh then (emask, true)
      else if Z.shiftr emask sh <? uv then (emask, true)
      else (Z.land (u64 (Z.shiftl uv sh)) emask, false)
  else
  let rs := - sh in
  if sgn then
    let sv := sx val e in
    if 64 <=? rs then
      (if round then 0 else Z.land (u64 (if sv <? 0 then -1 else 0)) emask, false)
    else
      let w := Z.shiftr sv rs in
      let w := if round && (1 <=? rs) then w + Z.land (Z.shiftr sv (rs - 1)) 1 else w in
      (Z.land (u64 w) emask, false)
  else
    let uv := Z.land val emask in
    if 64 <=? rs then
      (if negb round then 0
       else if rs =? 64 then Z.land (Z.land (Z.shiftr uv 63) 1) emask else 0, false)
    else
      let w := Z.shiftr uv rs in
      let w := if round && (1 <=? rs) then u64 (w + Z.land (Z.shiftr uv (rs - 1)) 1) else w in
      (Z.land w emask, false).

(** [sat_s64_to], for [e] below 64. *)
Definition sat_s64_to (v e : Z) : Z * bool :=
  let max := Z.shiftl 1 (e - 1) - 1 in let min := - Z.shiftl 1 (e - 1) in
  if max <? v then (u64 max, true)
  else if v <? min then (u64 min, true)
  else (u64 v, false).

(** [narrow_shr]: a [2*esize]-bit lane shifted right into [esize] bits. The
    guard's subtractions are unsigned. *)
Definition narrow_shr (src esize shift : Z) (round nonsat signed_src sat_unsigned : bool) : Z * bool :=
  if (32 <=? u32 (esize - 1)) || (u32 (2 * esize - 1) <=? u32 (shift - 1)) then (0, false) else
  let emask := u64 (Z.shiftl 1 esize) - 1 in
  let ushr := let w := Z.shiftr src shift in
              if round then u64 (w + Z.land (Z.shiftr src (shift - 1)) 1) else w in
  if nonsat then (Z.land ushr emask, false)
  else if signed_src then
    let sv := sx src (2 * esize) in
    let w := Z.shiftr sv shift in
    let w := if round then w + Z.land (Z.shiftr sv (shift - 1)) 1 else w in
    if sat_unsigned then if w <? 0 then (0, true) else sat_umask (u64 w) emask
    else sat_s64_to w esize
  else sat_umask ushr emask.

Definition sqshlu_sat (sv sh emask : Z) : Z * bool :=
  if sv <? 0 then (0, true)
  else if sv =? 0 then (0, false)
  else if Z.shiftr emask sh <? u64 sv then (emask, true)
  else (Z.land (u64 (Z.shiftl (u64 sv) sh)) emask, false).

Definition sqdmull_sat (sa sb e : Z) : Z * bool :=
  let p := wmul sa sb in
  let hi := if 64 <? e then INT64_MAX else Z.shiftl 1 (e - 2) in
  if hi <=? p then (u64 (smax_of e), true)
  else if p <? - hi then (u64 (smin_of e), true)
  else (u64 (u64 p * 2), false).

(** ** FPSR.QC *)
Definition FPSR_IOC : Z := 0x01.
Definition FPSR_DZC : Z := 0x02.
Definition FPSR_OFC : Z := 0x04.
Definition FPSR_UFC : Z := 0x08.
Definition FPSR_IXC : Z := 0x10.
Definition FPSR_QC : Z := Z.shiftl 1 27.
Definition FPCR_FZ16 : Z := Z.shiftl 1 19.
Definition FPCR_FZ : Z := Z.shiftl 1 24.

Section Qc.
Context {Mem : Type}.
Local Open Scope exec_scope.

(** [g_fpexc |= f]. *)
Definition fpexc_or (f : Z) : M (St Mem) unit :=
  modify (upd_tls (fun t => with_fpexc (Z.lor (t_fpexc t) f) t)).
(** The effect of a kernel on the thread: its value, and QC if it raised it. *)
Definition qc (r : Z * bool) : M (St Mem) Z :=
  (if snd r then fpexc_or FPSR_QC else ret tt) ;; ret (fst r).
End Qc.
