(* ===== verification/SimdExec.v ===== *)
(** * SimdExec: the integer vector instructions of core/exec_fpsimd.c

    One definition per encoding group, with the lane function of the group
    beside it. A lane function gives [None] where the source ends in
    [fpsimd_undef]. The floating-point arithmetic is the [FpUnit] of the
    model: the handlers that are FP throughout, and the FP branch of the
    mixed ones, under the condition that selects it. *)

From S2P Require Import Prelude Types Cpu Simd.

(** The host's exception flags, as [fetestexcept] reports them. *)
Record FeFlags := mkFe {
  fe_invalid : bool; fe_divbyzero : bool; fe_overflow : bool;
  fe_underflow : bool; fe_inexact : bool
}.

(** What is computed with the host's floating point. The names ending in
    [_arm] are the FP branches of handlers modelled here. *)
Class FpUnit (Mem : Type) := {
  fetestexcept : M (St Mem) FeFlags;
  feclearexcept : M (St Mem) unit;
  fpcr_host_sync : Z -> M (St Mem) unit;
  exec_fp_scalar : Z -> M (St Mem) unit;
  exec_fp_dp3 : Z -> M (St Mem) unit;
  simd_three_same_fp : Z -> M (St Mem) unit;
  simd_three_same_fp16 : Z -> M (St Mem) unit;
  simd_indexed_fp : Z -> M (St Mem) unit;
  simd_two_misc_fp : Z -> M (St Mem) unit;
  simd_two_misc_fp16 : Z -> M (St Mem) unit;
  simd_scalar_cvt_fp16 : Z -> M (St Mem) unit;
  fcmla_core : forall size Q Rn Rm Rd rot midx : Z, M (St Mem) unit;
  fcadd_core : forall size Q Rn Rm Rd rot : Z, M (St Mem) unit;
  indexed_fhm_arm : Z -> M (St Mem) unit;
  across_arm : Z -> M (St Mem) unit;
  shift_fixed_arm : Z -> M (St Mem) unit;
  scalar_shift_fixed_arm : Z -> M (St Mem) unit;
  scalar_cvt_arm : Z -> M (St Mem) unit;
  scalar_three_same_arm : Z -> M (St Mem) unit;
  scalar_pairwise_arm : Z -> M (St Mem) unit;
  scalar_indexed_arm : Z -> M (St Mem) unit
}.

(** ** Pure parts *)

(** The element size and index of the copy group: the lowest bit set in
    [imm5]. *)
Definition copy_size (imm5 : Z) : Z :=
  if has imm5 1 then 0 else if has imm5 2 then 1 else if has imm5 4 then 2 else 3.
Definition simd_copy_enc_valid (op imm4 imm5 Q : Z) : bool :=
  if Z.land imm5 0xf =? 0 then false else
  let size := copy_size imm5 in
  if negb (op =? 0) then true else
  match imm4 with
  | 0x0 | 0x1 => negb ((size =? 3) && (Q =? 0))
  | 0x3 => true
  | 0x5 => size <=? (if Q =? 0 then 1 else 2)
  | 0x7 => if Q =? 0 then size <=? 2 else size =? 3
  | _ => false
  end.

(** [u64] results that raise nothing. *)
Definition plain (v : Z) : option (Z * bool) := Some (u64 v, false).
Definition mask_if (b : bool) (emask : Z) : option (Z * bool) :=
  Some (if b then emask else 0, false).

(** Carryless 8x8 multiply. *)
Fixpoint pmull8_loop (n : nat) (i a b r : Z) : Z :=
  match n with
  | O => r
  | S n' =>
      let r := if Z.land (Z.shiftr a i) 1 =? 0 then r
               else Z.lxor r (u16 (Z.shiftl b i)) in
      pmull8_loop n' (i + 1) a b r
  end.
Definition pmull8 (a b : Z) : Z := pmull8_loop 8 0 a b 0.

(** The logical group of three-same, on one doubleword. *)
Definition logical64 (U size a b d : Z) : Z :=
  if U =? 0 then
    match size with
    | 0 => Z.land a b
    | 1 => Z.land a (not64 b)
    | 2 => Z.lor a b
    | _ => Z.lor a (not64 b)
    end
  else
    match size with
    | 0 => Z.lxor a b
    | 1 => Z.lxor b (Z.land (Z.lxor b a) d)
    | 2 => Z.lxor d (Z.land (Z.lxor d a) b)
    | _ => Z.lxor d (Z.land (Z.lxor d a) (not64 b))
    end.

(** The pairwise fold of ADDP, S/UMAXP and S/UMINP. *)
Definition pairwise_fold (U opc esize x y : Z) : Z :=
  if opc =? 0x17 then u64 (x + y)
  else if opc =? 0x14 then
    if (if U =? 0 then sx y esize <? sx x esize else y <? x) then x else y
  else
    if (if U =? 0 then sx x esize <? sx y esize else x <? y) then x else y.

(** One lane of three-same: [a], [b] and [d] are the elements of Vn, Vm and
    Vd, [key] is [(U << 5) | opc]. *)
Definition three_same_lane (key esize a b d : Z) : option (Z * bool) :=
  let emask := mask_of esize in
  let sa := sx a esize in let sb := sx b esize in
  let ua := Z.land a emask in let ub := Z.land b emask in
  let sh := s8 (Z.land b 0xff) in
  match key with
  | 0x10 => plain (a + b)
  | 0x30 => plain (a - b)
  | 0x11 => mask_if (negb (Z.land a b =? 0)) emask
  | 0x31 => mask_if (a =? b) emask
  | 0x06 => mask_if (sb <? sa) emask
  | 0x26 => mask_if (b <? a) emask
  | 0x07 => mask_if (sb <=? sa) emask
  | 0x27 => mask_if (b <=? a) emask
  | 0x0c => Some (if sb <? sa then a else b, false)
  | 0x2c => Some (if b <? a then a else b, false)
  | 0x0d => Some (if sa <? sb then a else b, false)
  | 0x2d => Some (if a <? b then a else b, false)
  | 0x13 => plain (a * b)
  | 0x33 => Some (Z.land (pmull8 (u8 a) (u8 b)) 0xff, false)
  | 0x12 => plain (d + a * b)
  | 0x32 => plain (d - a * b)
  | 0x00 => plain (Z.shiftr (wadd sa sb) 1)
  | 0x20 => Some (Z.shiftr (u64 (a + b)) 1, false)
  | 0x02 => plain (Z.shiftr (wadd (wadd sa sb) 1) 1)
  | 0x22 => Some (Z.shiftr (u64 (a + b + 1)) 1, false)
  | 0x04 => plain (Z.shiftr (wsub sa sb) 1)
  | 0x24 => plain (Z.shiftr (wsub (s64 ua) (s64 ub)) 1)
  | 0x01 => Some (ssat_add sa sb esize)
  | 0x21 => Some (usat_add ua ub esize)
  | 0x05 => Some (ssat_sub sa sb esize)
  | 0x25 => Some (usat_sub ua ub)
  | 0x08 => Some (vreg_shift a sh esize true false false)
  | 0x28 => Some (vreg_shift a sh esize false false false)
  | 0x0a => Some (vreg_shift a sh esize true true false)
  | 0x2a => Some (vreg_shift a sh esize false true false)
  | 0x09 => Some (vreg_shift a sh esize true false true)
  | 0x29 => Some (vreg_shift a sh esize false false true)
  | 0x0b => Some (vreg_shift a sh esize true true true)
  | 0x2b => Some (vreg_shift a sh esize false true true)
  | 0x0e => Some (wabs (wsub sa sb), false)
  | 0x2e => plain (if ub <? ua then ua - ub else ub - ua)
  | 0x0f => plain (d + wabs (wsub sa sb))
  | 0x2f => plain (d + (if ub <? ua then ua - ub else ub - ua))
  | 0x16 => Some (sat_s (Z.shiftr (wmul sa sb) (esize - 1)) esize)
  | 0x36 => Some (sat_s (Z.shiftr (wadd (wmul sa sb) (Z.shiftl 1 (esize - 2))) (esize - 1)) esize)
  | _ => None
  end.

(** The scalar three-same switch: the subset of the above that exists there.
    The comparisons are on the masked elements. *)
Definition scalar_three_same_lane (key esize a b : Z) : option (Z * bool) :=
  let emask := mask_of esize in
  let sa := sx a esize in let sb := sx b esize in
  let ua := Z.land a emask in let ub := Z.land b emask in
  let sh := s8 (Z.land b 0xff) in
  match key with
  | 0x01 => Some (ssat_add sa sb esize)
  | 0x21 => Some (usat_add ua ub esize)
  | 0x05 => Some (ssat_sub sa sb esize)
  | 0x25 => Some (usat_sub ua ub)
  | 0x06 => mask_if (sb <? sa) emask
  | 0x26 => mask_if (ub <? ua) emask
  | 0x07 => mask_if (sb <=? sa) emask
  | 0x27 => mask_if (ub <=? ua) emask
  | 0x08 => Some (vreg_shift a sh esize true false false)
  | 0x28 => Some (vreg_shift a sh esize false false false)
  | 0x09 => Some (vreg_shift a sh esize true false true)
  | 0x29 => Some (vreg_shift a sh esize false false true)
  | 0x0a => Some (vreg_shift a sh esize true true false)
  | 0x2a => Some (vreg_shift a sh esize false true false)
  | 0x0b => Some (vreg_shift a sh esize true true true)
  | 0x2b => Some (vreg_shift a sh esize false true true)
  | 0x10 => plain (a + b)
  | 0x30 => plain (a - b)
  | 0x11 => mask_if (negb (Z.land ua ub =? 0)) emask
  | 0x31 => mask_if (ua =? ub) emask
  | 0x16 => Some (sat_s (Z.shiftr (wmul sa sb) (esize - 1)) esize)
  | 0x36 => Some (sat_s (Z.shiftr (wadd (wmul sa sb) (Z.shiftl 1 (esize - 2))) (esize - 1)) esize)
  | _ => None
  end.

(** One lane of the long forms of three-different. *)
Definition three_diff_lane (U opc esize a b d : Z) : option (Z * bool * bool) :=
  let sa := sx a esize in let sb := sx b esize in
  let uu := negb (U =? 0) in
  let adiff := if uu then u64 (if b <? a then a - b else b - a)
               else u64 (if sb <? sa then wsub sa sb else wsub sb sa) in
  let prod := if uu then u64 (a * b) else u64 (wmul sa sb) in
  let one v := Some (u64 v, false, false) in
  let two f := if uu then None else
               let '(p, q) := sqdmull_sat sa sb (2 * esize) in
               let '(v, q') := f (s64 p) in Some (v, q, q') in
  match opc with
  | 0x0 => one (if uu then a + b else wadd sa sb)
  | 0x2 => one (if uu then a - b else wsub sa sb)
  | 0x5 => one (d + adiff)
  | 0x7 => one adiff
  | 0x8 => one (d + prod)
  | 0xa => one (d - prod)
  | 0xc => one prod
  | 0x9 => two (fun p => ssat_add (sx d (2 * esize)) p (2 * esize))
  | 0xb => two (fun p => ssat_sub (sx d (2 * esize)) p (2 * esize))
  | 0xd => if uu then None else
           let '(p, q) := sqdmull_sat sa sb (2 * esize) in Some (p, q, false)
  | _ => None
  end.

(** One step of the across-lanes reductions. *)
Definition across_step (key esize acc e : Z) : option Z :=
  match key with
  | 0x1b => Some (u64 (acc + e))
  | 0x0a => Some (if sx e esize <? sx acc esize then acc else e)
  | 0x2a => Some (if e <? acc then acc else e)
  | 0x1a => Some (if sx acc esize <? sx e esize then acc else e)
  | 0x3a => Some (if acc <? e then acc else e)
  | _ => None
  end.

(** The counting loops of CLZ and CLS: from bit [n - 1] down. *)
Fixpoint vclz_loop (n : nat) (val cnt : Z) : Z :=
  match n with
  | O => cnt
  | S n' => if negb (Z.land val (Z.shiftl 1 (Z.of_nat n')) =? 0) then cnt
            else vclz_loop n' val (cnt + 1)
  end.
Fixpoint vcls_loop (n : nat) (val msb cnt : Z) : Z :=
  match n with
  | O => cnt
  | S n' => if Z.land (Z.shiftr val (Z.of_nat n')) 1 =? msb
            then vcls_loop n' val msb (cnt + 1) else cnt
  end.
Definition popcount8 (a : Z) : Z :=
  fold_left (fun s i => s + Z.land (Z.shiftr a i) 1) [0;1;2;3;4;5;6;7] 0.

(** One lane of two-register misc. *)
Definition two_misc_lane (key esize a d : Z) : option (Z * bool) :=
  let emask := mask_of esize in
  let sa := sx a esize in
  let val := Z.land a emask in
  match key with
  | 0x08 => mask_if (0 <? sa) emask
  | 0x28 => mask_if (0 <=? sa) emask
  | 0x09 => mask_if (a =? 0) emask
  | 0x29 => mask_if (sa <=? 0) emask
  | 0x0a => mask_if (sa <? 0) emask
  | 0x05 => Some (popcount8 (Z.land a 0xff), false)
  | 0x0b => Some (wabs sa, false)
  | 0x2b => plain (0 - a)
  | 0x24 => Some (vclz_loop (Z.to_nat esize) val 0, false)
  | 0x04 => let msb := Z.land (Z.shiftr val (esize - 1)) 1 in
            Some (vcls_loop (Z.to_nat (esize - 1)) val msb 0, false)
  | 0x03 => Some (suqadd_sat d a esize)
  | 0x23 => Some (usqadd_sat (Z.land d emask) sa esize)
  | 0x07 => Some (if sa <? 0 then sat_neg sa esize else sat_s sa esize)
  | 0x27 => Some (sat_neg sa esize)
  | _ => None
  end.
(** The scalar form: the same lanes without CNT, CLZ and CLS. *)
Definition scalar_two_misc_lane (key esize a d : Z) : option (Z * bool) :=
  match key with
  | 0x07 | 0x27 | 0x03 | 0x23 | 0x08 | 0x28 | 0x09 | 0x29 | 0x0a | 0x0b | 0x2b =>
      two_misc_lane key esize a d
  | _ => None
  end.

(** SQXTN/UQXTN (opc 0x14) and SQXTUN (0x12). *)
Definition xtn_sat (U opc esz src : Z) : Z * bool :=
  if opc =? 0x12 then sat_u (sx src (2 * esz)) esz
  else if U =? 0 then sat_s (sx src (2 * esz)) esz
  else sat_umask src (mask_of esz).

Fixpoint rbit8_loop (n : nat) (k x y : Z) : Z :=
  match n with
  | O => y
  | S n' => rbit8_loop n' (k + 1) x
              (if Z.land x (Z.shiftl 1 k) =? 0 then y else Z.lor y (Z.shiftl 1 (7 - k)))
  end.

(** [immh] gives the element size of the shift-by-immediate groups. *)
Definition shift_size (immh : Z) : Z :=
  if has immh 8 then 3 else if has immh 4 then 2 else if has immh 2 then 1 else 0.
Definition narrow_args (U opc : Z) : bool * bool * bool * bool :=
  let lo := (opc =? 0x10) || (opc =? 0x11) in
  let round := (opc =? 0x11) || (opc =? 0x13) in
  let nonsat := lo && (U =? 0) in
  let signed_src := if nonsat then false else if lo then true else U =? 0 in
  let sat_unsigned := if lo then true else U =? 1 in
  (round, nonsat, signed_src, sat_unsigned).

(** Accumulate on top of a kernel that raises nothing. *)
Definition plus (d : Z) (r : Z * bool) : option (Z * bool) := Some (u64 (d + fst r), snd r).

(** One lane of shift by immediate. *)
Definition shift_imm_lane (key esize immhb a d : Z) : option (Z * bool) :=
  let emask := mask_of esize in
  let lsh := immhb - esize in let rsh := - (2 * esize - immhb) in
  match key with
  | 0x0a => plain (Z.shiftl a lsh)
  | 0x00 => Some (vreg_shift a rsh esize true false false)
  | 0x20 => Some (vreg_shift a rsh esize false false false)
  | 0x2a => Some (Z.lor (u64 (Z.shiftl a lsh)) (Z.land d (u64 (Z.shiftl 1 lsh) - 1)), false)
  | 0x28 => let sh := 2 * esize - immhb in
            let ins := if esize <=? sh then 0 else Z.shiftr emask sh in
            Some (Z.lor (if esize <=? sh then 0 else Z.shiftr (Z.land a emask) sh)
                        (Z.land d (not64 ins)), false)
  | 0x02 => plus d (vreg_shift a rsh esize true false false)
  | 0x22 => plus d (vreg_shift a rsh esize false false false)
  | 0x04 => Some (vreg_shift a rsh esize true true false)
  | 0x24 => Some (vreg_shift a rsh esize false true false)
  | 0x06 => plus d (vreg_shift a rsh esize true true false)
  | 0x26 => plus d (vreg_shift a rsh esize false true false)
  | 0x0e => Some (vreg_shift a lsh esize true false true)
  | 0x2e => Some (vreg_shift a lsh esize false false true)
  | 0x2c => Some (sqshlu_sat (sx a esize) lsh emask)
  | _ => None
  end.
(** One D register of the scalar form, as its own switch spells it. *)
Definition scalar_shift_lane (key immhb a d : Z) : option (Z * bool) :=
  let rsh := - (128 - immhb) in let sh := 128 - immhb in let lsh := immhb - 64 in
  match key with
  | 0x0a => plain (Z.shiftl a lsh)
  | 0x00 => plain (Z.shiftr (s64 a) (if 64 <=? sh then 63 else sh))
  | 0x20 => Some (if 64 <=? sh then 0 else Z.shiftr a sh, false)
  | 0x2a => Some (Z.lor (u64 (Z.shiftl a lsh)) (Z.land d (u64 (Z.shiftl 1 lsh) - 1)), false)
  | 0x28 => let keep := if 64 <=? sh then not64 0 else not64 (Z.shiftr (not64 0) sh) in
            Some (Z.lor (if 64 <=? sh then 0 else Z.shiftr a sh) (Z.land d keep), false)
  | 0x02 => plus d (vreg_shift a rsh 64 true false false)
  | 0x22 => plus d (vreg_shift a rsh 64 false false false)
  | 0x04 => Some (vreg_shift a rsh 64 true true false)
  | 0x24 => Some (vreg_shift a rsh 64 false true false)
  | 0x06 => plus d (vreg_shift a rsh 64 true true false)
  | 0x26 => plus d (vreg_shift a rsh 64 false true false)
  | 0x0e => Some (vreg_shift a lsh 64 true false true)
  | 0x2e => Some (vreg_shift a lsh 64 false false true)
  | 0x2c => Some (sqshlu_sat (s64 a) lsh (not64 0))
  | _ => None
  end.

(** ** Handlers *)
Section Exec.
Context {Mem : Type} `{FpUnit Mem}.
Local Open Scope exec_scope.

(** [fpsimd_undef] logs the word and raises; every caller returns after it. *)
Definition fpsimd_undef {A} : M (St Mem) A := undefined.

(** A lane's outcome: UNDEFINED, or its value with QC raised as needed. *)
Definition lane (r : option (Z * bool)) : M (St Mem) Z :=
  match r with None => fpsimd_undef | Some vq => qc vq end.

Definition simd_modified_imm (insn : Z) : M (St Mem) unit :=
  let Q := BITb insn 30 in let op := BIT insn 29 in
  let cmode := BITS insn 15 12 in let Rd := BITS insn 4 0 in
  let imm8 := Z.lor (Z.shiftl (BITS insn 18 16) 5) (BITS insn 9 5) in
  let hi := Z.land (Z.shiftr cmode 1) 7 in let lo := Z.land cmode 1 in
  if (lo =? 1) && (hi <=? 5) then
    let v := expand_imm 0 cmode imm8 in
    vd <- reg_v Rd;
    let f x := if op =? 0 then Z.lor x v else Z.land x (not64 v) in
    set_v Rd (v_mk (f (v_d0 vd)) (if Q then f (v_d1 vd) else 0))
  else
    let v := expand_imm op cmode imm8 in
    let v := if (op =? 1) && negb (hi =? 7) then not64 v else v in
    set_v Rd (v_mk v (if Q then v else 0)).

Definition simd_copy (insn : Z) : M (St Mem) unit :=
  let Q := BIT insn 30 in let op := BIT insn 29 in
  let imm5 := BITS insn 20 16 in let imm4 := BITS insn 14 11 in
  let Rn := BITS insn 9 5 in let Rd := BITS insn 4 0 in
  if negb (simd_copy_enc_valid op imm4 imm5 Q) then fpsimd_undef else
  let size := copy_size imm5 in
  let index := Z.shiftr imm5 (size + 1) in
  let lanes := Z.shiftr (Z.shiftr 16 size) (if Q =? 0 then 1 else 0) in
  if op =? 1 then
    let idx2 := Z.shiftr imm4 size in
    vn <- reg_v Rn; e <- velem_get vn size idx2;
    vd <- reg_v Rd; r <- velem_set vd size index e; set_v Rd r
  else match imm4 with
  | 0x0 =>
      vn <- reg_v Rn; e <- velem_get vn size index;
      r <- fill (ebits size) lanes 0 0 (fun _ => ret e); set_v Rd r
  | 0x1 =>
      e <- reg_x Rn; r <- fill (ebits size) lanes 0 0 (fun _ => ret e); set_v Rd r
  | 0x3 =>
      x <- reg_x Rn; vd <- reg_v Rd; r <- velem_set vd size index x; set_v Rd r
  | 0x5 =>
      vn <- reg_v Rn; e <- velem_get vn size index;
      let v := sign_extend e (Z.shiftl 8 size) in
      set_x Rd (if Q =? 0 then u32 v else v)
  | 0x7 =>
      vn <- reg_v Rn; e <- velem_get vn size index;
      set_x Rd (if Q =? 0 then u32 e else e)
  | _ => fpsimd_undef
  end.

Definition simd_scalar_copy (insn : Z) : M (St Mem) unit :=
  let imm5 := BITS insn 20 16 in let Rn := BITS insn 9 5 in let Rd := BITS insn 4 0 in
  let size := copy_size imm5 in
  let index := Z.shiftr imm5 (size + 1) in
  vn <- reg_v Rn; e <- velem_get vn size index;
  r <- velem_set 0 size 0 e; set_v Rd r.

Definition simd_three_same (insn : Z) : M (St Mem) unit :=
  let Q := BITb insn 30 in let U := BIT insn 29 in let size := BITS insn 23 22 in
  let Rm := BITS insn 20 16 in let opc := BITS insn 15 11 in
  let Rn := BITS insn 9 5 in let Rd := BITS insn 4 0 in
  if 0x18 <=? opc then simd_three_same_fp insn else
  vn <- reg_v Rn; vm <- reg_v Rm; vd <- reg_v Rd;
  if opc =? 0x03 then
    let f a b d := logical64 U size a b d in
    set_v Rd (v_mk (f (v_d0 vn) (v_d0 vm) (v_d0 vd))
                   (if Q then f (v_d1 vn) (v_d1 vm) (v_d1 vd) else 0))
  else
  let esize := Z.shiftl 8 size in
  let n := Z.shiftr (if Q then 16 else 8) size in
  let emask := mask_of esize in
  if (U =? 1) && (opc =? 0x13) && negb (size =? 0) then fpsimd_undef else
  if ((opc =? 0x17) && (U =? 0)) || (opc =? 0x14) || (opc =? 0x15) then
    r <- for_up (n / 2) 0 (fun i r =>
      n0 <- velem_get vn size (2 * i); n1 <- velem_get vn size (2 * i + 1);
      m0 <- velem_get vm size (2 * i); m1 <- velem_get vm size (2 * i + 1);
      let lo := pairwise_fold U opc esize n0 n1 in
      let hi := pairwise_fold U opc esize m0 m1 in
      r <- velem_set r size i (Z.land lo emask);
      velem_set r size (n / 2 + i) (Z.land hi emask));
    set_v Rd r
  else
    r <- fill (ebits size) n 0 0 (fun i =>
      a <- velem_get vn size i; b <- velem_get vm size i; d <- velem_get vd size i;
      v <- lane (three_same_lane (Z.lor (Z.shiftl U 5) opc) esize a b d);
      ret (Z.land v emask));
    set_v Rd r.

(** The dot product of four byte pairs, added to [acc] modulo 2^32. *)
Definition dot4 (U : Z) (vn vm : V128) (i j : Z) (acc : Z) : M (St Mem) Z :=
  for_up 4 acc (fun k acc =>
    x <- el 8 vn (4 * i + k); y <- el 8 vm (4 * j + k);
    ret (u32 (acc + (if U =? 0 then u32 (s8 x * s8 y) else u32 (x * y))))).

Definition simd_indexed (insn : Z) : M (St Mem) unit :=
  let Q := BIT insn 30 in let U := BIT insn 29 in let size := BITS insn 23 22 in
  let opc := BITS insn 15 12 in let Rn := BITS insn 9 5 in let Rd := BITS insn 4 0 in
  let L := BIT insn 21 in let H := BIT insn 11 in let M_ := BIT insn 20 in
  let uu := negb (U =? 0) in
  if uu && (Z.land opc 0x9 =? 0x1) then
    let rot := Z.land (Z.shiftr opc 1) 3 in let Rm5 := BITS insn 20 16 in
    if size =? 1 then
      let index := Z.lor (Z.shiftl H 1) L in
      if (Q =? 0) && (1 <? index) then fpsimd_undef
      else fcmla_core size Q Rn Rm5 Rd rot index
    else if (size =? 2) && negb (Q =? 0) then fcmla_core size Q Rn Rm5 Rd rot H
    else fpsimd_undef
  else if (opc =? 0x9) || (negb uu && ((opc =? 0x1) || (opc =? 0x5))) then simd_indexed_fp insn
  else if (size =? 2) && ((negb uu && ((opc =? 0x0) || (opc =? 0x4))) ||
                          (uu && ((opc =? 0x8) || (opc =? 0xc)))) then indexed_fhm_arm insn
  else if negb ((size =? 1) || (size =? 2)) then fpsimd_undef else
  let Rm := if size =? 1 then BITS insn 19 16 else BITS insn 20 16 in
  let index := if size =? 1 then Z.lor (Z.lor (Z.shiftl H 2) (Z.shiftl L 1)) M_
               else Z.lor (Z.shiftl H 1) L in
  let esize := Z.shiftl 8 size in
  let emask := u64 (Z.shiftl 1 esize) - 1 in
  let n := Z.shiftr (if Q =? 0 then 8 else 16) size in
  let ndest := 64 / esize in let base := if Q =? 0 then 0 else ndest in
  let dsize := size + 1 in
  let dmask := mask_of (2 * esize) in
  vn <- reg_v Rn; vm <- reg_v Rm; vd <- reg_v Rd;
  elt <- velem_get vm size index;
  let elt := Z.land elt emask in let selt := sx elt esize in
  r <- (if ((opc =? 0x8) && negb uu) || ((opc =? 0x0) && uu) || ((opc =? 0x4) && uu) then
    fill (ebits size) n 0 0 (fun i =>
      a <- velem_get vn size i; d <- velem_get vd size i;
      let prod := u64 (Z.land a emask * elt) in
      let v := if opc =? 0x8 then prod
               else if opc =? 0x0 then u64 (d + prod) else u64 (d - prod) in
      ret (Z.land v emask))
  else if (opc =? 0xa) || (opc =? 0x2) || (opc =? 0x6) then
    fill (ebits dsize) ndest 0 0 (fun i =>
      a <- velem_get vn size (base + i); d <- velem_get vd dsize i;
      let a := Z.land a emask in
      let prod := if uu then u64 (elt * a) else u64 (selt * sx a esize) in
      let v := if opc =? 0xa then prod
               else if opc =? 0x2 then u64 (d + prod) else u64 (d - prod) in
      ret (Z.land v dmask))
  else if negb uu && ((opc =? 0xc) || (opc =? 0xd)) then
    fill (ebits size) n 0 0 (fun i =>
      a <- velem_get vn size i;
      let p := sx (Z.land a emask) esize * selt in
      let pre := if opc =? 0xd then Z.shiftr (p + Z.shiftl 1 (esize - 2)) (esize - 1)
                 else Z.shiftr p (esize - 1) in
      v <- qc (sat_s pre esize);
      ret (Z.land v emask))
  else if negb uu && ((opc =? 0xb) || (opc =? 0x3) || (opc =? 0x7)) then
    fill (ebits dsize) ndest 0 0 (fun i =>
      a <- velem_get vn size (base + i); d <- velem_get vd dsize i;
      pr <- qc (sqdmull_sat (sx (Z.land a emask) esize) selt (2 * esize));
      if opc =? 0xb then ret pr
      else if opc =? 0x3 then qc (ssat_add (sx d (2 * esize)) (s64 pr) (2 * esize))
      else qc (ssat_sub (sx d (2 * esize)) (s64 pr) (2 * esize)))
  else if uu && ((opc =? 0xd) || (opc =? 0xf)) then
    fill (ebits size) n 0 0 (fun i =>
      d <- velem_get vd size i; a <- velem_get vn size i;
      v <- qc (sqrdmlah_op (sx d esize) (sx a esize) selt esize (opc =? 0xf));
      ret (Z.land v emask))
  else if (opc =? 0xe) && (size =? 2) then
    fill 32 (if Q =? 0 then 2 else 4) 0 0 (fun i =>
      acc <- el 32 vd i; dot4 U vn vm i index acc)
  else fpsimd_undef);
  set_v Rd r.

Definition simd_three_diff (insn : Z) : M (St Mem) unit :=
  let Q := BIT insn 30 in let U := BIT insn 29 in let size := BITS insn 23 22 in
  let opc := BITS insn 15 12 in
  let Rm := BITS insn 20 16 in let Rn := BITS insn 9 5 in let Rd := BITS insn 4 0 in
  if (size =? 3) || ((size =? 0) && ((opc =? 0x9) || (opc =? 0xb) || (opc =? 0xd)))
  then fpsimd_undef else
  let esize := Z.shiftl 8 size in let ndest := 64 / esize in
  let base := if Q =? 0 then 0 else ndest in let dsize := size + 1 in
  let emask := u64 (Z.shiftl 1 esize) - 1 in
  let dmask := mask_of (2 * esize) in
  vn <- reg_v Rn; vm <- reg_v Rm; vd <- reg_v Rd;
  r <- (if (opc =? 0x4) || (opc =? 0x6) then
    fill (ebits size) ndest base (if Q =? 0 then 0 else vd) (fun i =>
      a <- velem_get vn dsize i; b <- velem_get vm dsize i;
      let wide := if opc =? 0x4 then u64 (a + b) else u64 (a - b) in
      let wide := if U =? 0 then wide else u64 (wide + Z.shiftl 1 (esize - 1)) in
      ret (Z.land (Z.shiftr wide esize) emask))
  else if (opc =? 0x1) || (opc =? 0x3) then
    fill (ebits dsize) ndest 0 0 (fun i =>
      wa <- velem_get vn dsize i; nb <- velem_get vm size (base + i);
      let nb := Z.land nb emask in
      let ext := if U =? 0 then u64 (sx nb esize) else nb in
      ret (Z.land (if opc =? 0x1 then u64 (wa + ext) else u64 (wa - ext)) dmask))
  else
    fill (ebits dsize) ndest 0 0 (fun i =>
      a <- velem_get vn size (base + i); b <- velem_get vm size (base + i);
      d <- velem_get vd dsize i;
      match three_diff_lane U opc esize (Z.land a emask) (Z.land b emask) d with
      | None => fpsimd_undef
      | Some (v, q, q') =>
          (if q || q' then fpexc_or FPSR_QC else ret tt) ;; ret (Z.land v dmask)
      end));
  set_v Rd r.

Definition simd_across (insn : Z) : M (St Mem) unit :=
  let Q := BITb insn 30 in let U := BIT insn 29 in let size := BITS insn 23 22 in
  let opc := BITS insn 16 12 in let Rn := BITS insn 9 5 in let Rd := BITS insn 4 0 in
  let fp := (opc =? 0x0c) || (opc =? 0x0f) in
  if ((U =? 1) && fp) || ((U =? 0) && (BIT insn 22 =? 0) && fp) then across_arm insn else
  let esize := Z.shiftl 8 size in
  let n := Z.shiftr (if Q then 16 else 8) size in
  let emask := mask_of esize in
  vn <- reg_v Rn;
  if opc =? 0x03 then
    let dmask := mask_of (2 * esize) in
    acc <- for_up n 0 (fun i acc =>
      e <- velem_get vn size i;
      let e := Z.land e emask in
      ret (u64 (acc + (if U =? 0 then u64 (sx e esize) else e))));
    set_v Rd (v_mk (Z.land acc dmask) 0)
  else
    acc <- velem_get vn size 0;
    acc <- for_up (n - 1) acc (fun i acc =>
      e <- velem_get vn size (i + 1);
      match across_step (Z.lor (Z.shiftl U 5) opc) esize acc e with
      | None => fpsimd_undef
      | Some acc => ret acc
      end);
    set_v Rd (v_mk (Z.land acc emask) 0).

(** REV64/REV32/REV16: the three nested loops of the source, on bytes. *)
Definition rev_bytes (vn : V128) (total cb eb : Z) : M (St Mem) V128 :=
  for_up (total / cb) 0 (fun g r =>
    let base := g * cb in
    for_up (cb / eb) r (fun e r =>
      for_up eb r (fun k r =>
        b <- el 8 vn (base + e * eb + k);
        set_el 8 r (base + (cb / eb - 1 - e) * eb + k) b))).

Definition simd_two_misc (insn : Z) : M (St Mem) unit :=
  let Q := BITb insn 30 in let U := BIT insn 29 in let size := BITS insn 23 22 in
  let opc := BITS insn 16 12 in let Rn := BITS insn 9 5 in let Rd := BITS insn 4 0 in
  if ((0x0c <=? opc) && (opc <=? 0x0f)) || (0x16 <=? opc) then simd_two_misc_fp insn else
  vn <- reg_v Rn; vd <- reg_v Rd;
  let esz := Z.shiftl 8 size in
  let total := if Q then 16 else 8 in
  let nd := 64 / esz in let base := if Q then nd else 0 in
  if (opc =? 0x05) && (U =? 1) && (size =? 0) then
    set_v Rd (v_mk (not64 (v_d0 vn)) (if Q then not64 (v_d1 vn) else 0))
  else if (opc =? 0x00) || ((opc =? 0x01) && (U =? 0)) then
    let container := if opc =? 0x01 then 16 else if U =? 0 then 64 else 32 in
    if container <=? esz then fpsimd_undef else
    r <- rev_bytes vn total (container / 8) (esz / 8); set_v Rd r
  else if (opc =? 0x12) && (U =? 0) && negb (size =? 3) then
    r <- fill (ebits size) nd base (if Q then vd else 0) (fun i => velem_get vn (size + 1) i);
    set_v Rd r
  else if (opc =? 0x05) && (U =? 1) && (size =? 1) then
    r <- fill 8 total 0 0 (fun b => x <- el 8 vn b; ret (rbit8_loop 8 0 x 0));
    set_v Rd r
  else if (opc =? 0x02) || (opc =? 0x06) then
    let dmask := mask_of (2 * esz) in
    r <- fill (ebits (size + 1)) (Z.shiftr total size / 2) 0 0 (fun i =>
      e0 <- velem_get vn size (2 * i); e1 <- velem_get vn size (2 * i + 1);
      let sum := if U =? 0 then u64 (wadd (sx e0 esz) (sx e1 esz)) else u64 (e0 + e1) in
      sum <- (if opc =? 0x06 then d <- velem_get vd (size + 1) i; ret (u64 (sum + d)) else ret sum);
      ret (Z.land sum dmask));
    set_v Rd r
  else if (opc =? 0x14) || ((opc =? 0x12) && (U =? 1)) then
    r <- fill (ebits size) nd base (if Q then vd else 0) (fun i =>
      src <- velem_get vn (size + 1) i;
      nv <- qc (xtn_sat U opc esz src);
      ret (Z.land nv (mask_of esz)));
    set_v Rd r
  else if (opc =? 0x13) && (U =? 1) then
    r <- fill (ebits (size + 1)) nd 0 0 (fun i =>
      x <- velem_get vn size (base + i);
      ret (Z.land (if 64 <=? esz then 0 else u64 (Z.shiftl (Z.land x (mask_of esz)) esz))
                  (mask_of (2 * esz))));
    set_v Rd r
  else
    let n := Z.shiftr total size in
    r <- fill (ebits size) n 0 0 (fun i =>
      a <- velem_get vn size i; d <- velem_get vd size i;
      v <- lane (two_misc_lane (Z.lor (Z.shiftl U 5) opc) esz a d);
      ret (Z.land v (mask_of esz)));
    set_v Rd r.

Definition simd_shift_imm (insn : Z) : M (St Mem) unit :=
  let Q := BITb insn 30 in let U := BIT insn 29 in
  let immh := BITS insn 22 19 in let immb := BITS insn 18 16 in
  let opc := BITS insn 15 11 in let Rn := BITS insn 9 5 in let Rd := BITS insn 4 0 in
  let immhb := Z.lor (Z.shiftl immh 3) immb in
  let size := shift_size immh in
  let esize := Z.shiftl 8 size in
  let nd := 64 / esize in let base := if Q then nd else 0 in
  if (opc =? 0x1c) || (opc =? 0x1f) then
    (if size =? 0 then fpsimd_undef else shift_fixed_arm insn) else
  vn <- reg_v Rn; vd <- reg_v Rd;
  if opc =? 0x14 then
    let shift := immhb - esize in
    r <- fill (ebits (size + 1)) nd 0 0 (fun i =>
      s <- velem_get vn size (base + i);
      ret (if U =? 0 then u64 (Z.shiftl (u64 (sx s esize)) shift) else u64 (Z.shiftl s shift)));
    set_v Rd r
  else if (0x10 <=? opc) && (opc <=? 0x13) then
    if has immh 8 then fpsimd_undef else
    let shift := 2 * esize - immhb in
    let '(round, nonsat, signed_src, sat_unsigned) := narrow_args U opc in
    let emask := u64 (Z.shiftl 1 esize) - 1 in
    let smask := mask_of (2 * esize) in
    r <- fill (ebits size) nd base (if Q then vd else 0) (fun i =>
      src <- velem_get vn (size + 1) i;
      nv <- qc (narrow_shr (Z.land src smask) esize shift round nonsat signed_src sat_unsigned);
      ret (Z.land nv emask));
    set_v Rd r
  else
    let n := Z.shiftr (if Q then 16 else 8) size in
    r <- fill (ebits size) n 0 0 (fun i =>
      a <- velem_get vn size i; d <- velem_get vd size i;
      v <- lane (shift_imm_lane (Z.lor (Z.shiftl U 5) opc) esize immhb a d);
      ret (Z.land v (mask_of esize)));
    set_v Rd r.

(** ** Table lookup, permutes and extract *)

(** The table of TBL/TBX: [nregs] registers from [Rn], wrapping at 32. *)
Fixpoint tbl_table (n : nat) (r Rn : Z) : M (St Mem) (list V128) :=
  match n with
  | O => ret []
  | S n' => t <- reg_v (Z.land (Rn + r) 31); ts <- tbl_table n' (r + 1) Rn; ret (t :: ts)
  end.
(** [table[ix]], for an index below the table's bytes. *)
Definition tbl_byte (ts : list V128) (ix : Z) : M (St Mem) Z :=
  match ts !! Z.to_nat (ix / 16) with
  | Some t => el 8 t (ix mod 16)
  | None => ub
  end.

Definition simd_tbl (insn : Z) : M (St Mem) unit :=
  let Q := BITb insn 30 in let Rm := BITS insn 20 16 in
  let nregs := BITS insn 14 13 + 1 in let op := BITb insn 12 in
  let Rn := BITS insn 9 5 in let Rd := BITS insn 4 0 in
  let tbytes := nregs * 16 in let nbyte := if Q then 16 else 8 in
  idx <- reg_v Rm; old <- reg_v Rd;
  ts <- tbl_table (Z.to_nat nregs) 0 Rn;
  res <- fill 8 nbyte 0 0 (fun i =>
    ix <- el 8 idx i;
    if ix <? tbytes then tbl_byte ts ix
    else if op then el 8 old i else ret 0);
  set_v Rd res.

Definition simd_permute (insn : Z) : M (St Mem) unit :=
  let Q := BITb insn 30 in let size := BITS insn 23 22 in let Rm := BITS insn 20 16 in
  let opc := BITS insn 14 12 in let Rn := BITS insn 9 5 in let Rd := BITS insn 4 0 in
  let lanes := Z.shiftr (if Q then 16 else 8) size in let half := lanes / 2 in
  n <- reg_v Rn; m <- reg_v Rm;
  let interleave (src : Z -> Z) :=
    for_up half 0 (fun p r =>
      x <- velem_get n size (src p); r <- velem_set r size (2 * p) x;
      y <- velem_get m size (src p); velem_set r size (2 * p + 1) y) in
  if (opc =? 1) || (opc =? 5) then
    r <- fill (ebits size) lanes 0 0 (fun e =>
      let s := 2 * e + b2z (opc =? 5) in
      if s <? lanes then velem_get n size s else velem_get m size (s - lanes));
    set_v Rd r
  else if (opc =? 2) || (opc =? 6) then
    r <- interleave (fun p => 2 * p + b2z (opc =? 6)); set_v Rd r
  else if (opc =? 3) || (opc =? 7) then
    r <- interleave (fun p => (if opc =? 7 then half else 0) + p); set_v Rd r
  else fpsimd_undef.

Definition simd_ext (insn : Z) : M (St Mem) unit :=
  let Q := BITb insn 30 in let Rm := BITS insn 20 16 in let imm4 := BITS insn 14 11 in
  let Rn := BITS insn 9 5 in let Rd := BITS insn 4 0 in
  let nbyte := if Q then 16 else 8 in
  n <- reg_v Rn; m <- reg_v Rm;
  r <- fill 8 nbyte 0 0 (fun i =>
    let j := i + imm4 in
    if j <? nbyte then el 8 n j else el 8 m (j - nbyte));
  set_v Rd r.

(** ** Scalar forms *)

(** A result in element 0, the rest of the register zero. *)
Definition set_scalar (Rd size v : Z) : M (St Mem) unit :=
  r <- velem_set 0 size 0 v; set_v Rd r.

Definition simd_scalar_shift (insn : Z) : M (St Mem) unit :=
  let U := BIT insn 29 in let immh := BITS insn 22 19 in let immb := BITS insn 18 16 in
  let opc := BITS insn 15 11 in let Rn := BITS insn 9 5 in let Rd := BITS insn 4 0 in
  let immhb := Z.lor (Z.shiftl immh 3) immb in
  let size := shift_size immh in
  let esize := Z.shiftl 8 size in
  if (0x10 <=? opc) && (opc <=? 0x13) then
    if has immh 8 then fpsimd_undef else
    let shift := 2 * esize - immhb in
    let '(round, nonsat, signed_src, sat_unsigned) := narrow_args U opc in
    let emask := u64 (Z.shiftl 1 esize) - 1 in
    let smask := mask_of (2 * esize) in
    vn <- reg_v Rn; src <- velem_get vn (size + 1) 0;
    nv <- qc (narrow_shr (Z.land src smask) esize shift round nonsat signed_src sat_unsigned);
    set_scalar Rd size (Z.land nv emask)
  else if (opc =? 0x1c) || (opc =? 0x1f) then
    (if size =? 0 then fpsimd_undef else scalar_shift_fixed_arm insn)
  else if negb (has immh 8) then fpsimd_undef else
    vn <- reg_v Rn; vd <- reg_v Rd;
    v <- lane (scalar_shift_lane (Z.lor (Z.shiftl U 5) opc) immhb (v_d0 vn) (v_d0 vd));
    set_v Rd (v_mk v 0).

Definition simd_scalar_three_same (insn : Z) : M (St Mem) unit :=
  let U := BIT insn 29 in let opc := BITS insn 15 11 in let Rm := BITS insn 20 16 in
  let Rn := BITS insn 9 5 in let Rd := BITS insn 4 0 in
  if 0x18 <=? opc then scalar_three_same_arm insn else
  let size := BITS insn 23 22 in let esize := Z.shiftl 8 size in
  vn <- reg_v Rn; vm <- reg_v Rm;
  a <- velem_get vn size 0; b <- velem_get vm size 0;
  v <- lane (scalar_three_same_lane (Z.lor (Z.shiftl U 5) opc) esize a b);
  set_scalar Rd size (Z.land v (mask_of esize)).

Definition simd_scalar_pairwise (insn : Z) : M (St Mem) unit :=
  let U := BIT insn 29 in let opc := BITS insn 16 12 in
  let Rn := BITS insn 9 5 in let Rd := BITS insn 4 0 in
  if (U =? 0) && (opc =? 0x1b) then
    vn <- reg_v Rn; set_v Rd (v_mk (u64 (v_d0 vn + v_d1 vn)) 0)
  else if (U =? 1) && ((opc =? 0x0c) || (opc =? 0x0d) || (opc =? 0x0f)) then scalar_pairwise_arm insn
  else fpsimd_undef.

Definition simd_scalar_three_diff (insn : Z) : M (St Mem) unit :=
  let size := BITS insn 23 22 in let opc := BITS insn 15 12 in
  let Rm := BITS insn 20 16 in let Rn := BITS insn 9 5 in let Rd := BITS insn 4 0 in
  let esize := Z.shiftl 8 size in let emask := mask_of esize in
  vn <- reg_v Rn; vm <- reg_v Rm; vd <- reg_v Rd;
  a <- velem_get vn size 0; b <- velem_get vm size 0;
  pr <- qc (sqdmull_sat (sx (Z.land a emask) esize) (sx (Z.land b emask) esize) (2 * esize));
  d <- velem_get vd (size + 1) 0;
  v <- (if opc =? 0xd then ret pr
        else if opc =? 0x9 then qc (ssat_add (sx d (2 * esize)) (s64 pr) (2 * esize))
        else if opc =? 0xb then qc (ssat_sub (sx d (2 * esize)) (s64 pr) (2 * esize))
        else fpsimd_undef);
  set_scalar Rd (size + 1) v.

Definition simd_scalar_indexed (insn : Z) : M (St Mem) unit :=
  let uu := BITb insn 29 in let size := BITS insn 23 22 in let opc := BITS insn 15 12 in
  let Rn := BITS insn 9 5 in let Rd := BITS insn 4 0 in
  let H := BIT insn 11 in let L := BIT insn 21 in let M_ := BIT insn 20 in
  if (opc =? 0x9) || (negb uu && ((opc =? 0x1) || (opc =? 0x5))) then
    (if (size =? 3) || (size =? 2) then scalar_indexed_arm insn else fpsimd_undef) else
  if negb ((size =? 1) || (size =? 2)) then fpsimd_undef else
  let Rm := if size =? 1 then BITS insn 19 16 else BITS insn 20 16 in
  let index := if size =? 1 then Z.lor (Z.lor (Z.shiftl H 2) (Z.shiftl L 1)) M_
               else Z.lor (Z.shiftl H 1) L in
  let esize := Z.shiftl 8 size in let emask := u64 (Z.shiftl 1 esize) - 1 in
  vn <- reg_v Rn; vm <- reg_v Rm; vd <- reg_v Rd;
  a <- velem_get vn size 0; e <- velem_get vm size index;
  let sa := sx (Z.land a emask) esize in let se := sx (Z.land e emask) esize in
  if negb uu && ((opc =? 0xc) || (opc =? 0xd)) then
    let p := sa * se in
    let p := if opc =? 0xd then p + Z.shiftl 1 (esize - 2) else p in
    v <- qc (sat_s (Z.shiftr p (esize - 1)) esize);
    set_scalar Rd size (Z.land v emask)
  else if uu && ((opc =? 0xd) || (opc =? 0xf)) then
    d <- velem_get vd size 0;
    v <- qc (sqrdmlah_op (sx d esize) sa se esize (opc =? 0xf));
    set_scalar Rd size (Z.land v emask)
  else if negb uu && ((opc =? 0xb) || (opc =? 0x3) || (opc =? 0x7)) then
    pr <- qc (sqdmull_sat sa se (2 * esize));
    d <- velem_get vd (size + 1) 0;
    v <- (if opc =? 0xb then ret pr
          else if opc =? 0x3 then qc (ssat_add (sx d (2 * esize)) (s64 pr) (2 * esize))
          else qc (ssat_sub (sx d (2 * esize)) (s64 pr) (2 * esize)));
    set_scalar Rd (size + 1) v
  else fpsimd_undef.

Definition simd_three_same_extra (insn : Z) : M (St Mem) unit :=
  let Q := BIT insn 30 in let U := BIT insn 29 in let size := BITS insn 23 22 in
  let opc := BITS insn 14 11 in
  let Rm := BITS insn 20 16 in let Rn := BITS insn 9 5 in let Rd := BITS insn 4 0 in
  if (U =? 1) && (opc <=? 1) then
    if negb (size =? 1) && negb (size =? 2) then fpsimd_undef else
    let esize := Z.shiftl 8 size in let emask := u64 (Z.shiftl 1 esize) - 1 in
    vn <- reg_v Rn; vm <- reg_v Rm; vd <- reg_v Rd;
    r <- fill (ebits size) (Z.shiftr (if Q =? 0 then 8 else 16) size) 0 0 (fun i =>
      d <- velem_get vd size i; a <- velem_get vn size i; b <- velem_get vm size i;
      v <- qc (sqrdmlah_op (sx d esize) (sx a esize) (sx b esize) esize (negb (opc =? 0)));
      ret (Z.land v emask));
    set_v Rd r
  else if opc =? 0x2 then
    if negb (size =? 2) then fpsimd_undef else
    vn <- reg_v Rn; vm <- reg_v Rm; vd <- reg_v Rd;
    r <- for_up (if Q =? 0 then 2 else 4) vd (fun i r =>
      acc <- el 32 r i; acc <- dot4 U vn vm i i acc; set_el 32 r i acc);
    set_v Rd (if Q =? 0 then v_mk (v_d0 r) 0 else r)
  else if (U =? 1) && (Z.land opc 0xc =? 0x8) then
    if (size =? 0) || ((size =? 3) && (Q =? 0)) then fpsimd_undef
    else fcmla_core size Q Rn Rm Rd (Z.land opc 3) (-1)
  else if (U =? 1) && (Z.land opc 0xd =? 0xc) then
    if (size =? 0) || ((size =? 3) && (Q =? 0)) then fpsimd_undef
    else fcadd_core size Q Rn Rm Rd (Z.land (Z.shiftr opc 1) 1)
  else fpsimd_undef.

Definition simd_scalar_three_same_extra (insn : Z) : M (St Mem) unit :=
  let U := BIT insn 29 in let size := BITS insn 23 22 in let opc := BITS insn 14 11 in
  let Rm := BITS insn 20 16 in let Rn := BITS insn 9 5 in let Rd := BITS insn 4 0 in
  if negb (U =? 1) || (1 <? opc) || (negb (size =? 1) && negb (size =? 2)) then fpsimd_undef else
  let esize := Z.shiftl 8 size in let emask := u64 (Z.shiftl 1 esize) - 1 in
  vn <- reg_v Rn; vm <- reg_v Rm; vd <- reg_v Rd;
  d <- velem_get vd size 0; a <- velem_get vn size 0; b <- velem_get vm size 0;
  v <- qc (sqrdmlah_op (sx d esize) (sx a esize) (sx b esize) esize (negb (opc =? 0)));
  set_scalar Rd size (Z.land v emask).

(** [simd_scalar_cvt]: the FP conversions in front, the integer scalar
    two-register misc group behind them. *)
Definition simd_scalar_cvt (insn : Z) : M (St Mem) unit :=
  let U := BIT insn 29 in let o2 := BIT insn 23 in let sz := BIT insn 22 in
  let opc := BITS insn 16 12 in let Rn := BITS insn 9 5 in let Rd := BITS insn 4 0 in
  if ((o2 =? 0) && (opc =? 0x1d)) ||
     ((opc =? 0x1a) || (opc =? 0x1b) || ((opc =? 0x1c) && (o2 =? 0))) ||
     ((opc =? 0x16) && (U =? 1) && (o2 =? 0) && (sz =? 1)) ||
     ((opc =? 0x1d) && (o2 =? 1)) || ((0x0c <=? opc) && (opc <=? 0x0e)) ||
     ((opc =? 0x1f) && (o2 =? 1)) then scalar_cvt_arm insn else
  let size := BITS insn 23 22 in let esize := Z.shiftl 8 size in
  vn <- reg_v Rn; vd <- reg_v Rd;
  if (opc =? 0x14) || ((opc =? 0x12) && (U =? 1)) then
    src <- velem_get vn (size + 1) 0;
    nv <- qc (xtn_sat U opc esize src);
    set_scalar Rd size (Z.land nv (mask_of esize))
  else
    a <- velem_get vn size 0; d <- velem_get vd size 0;
    v <- lane (scalar_two_misc_lane (Z.lor (Z.shiftl U 5) opc) esize a d);
    set_scalar Rd size (Z.land v (mask_of esize)).
End Exec.
