(* ===== verification/Crypto.v ===== *)
(** * Crypto: the cryptographic instructions of core/exec_fpsimd.c

    SHA-1, SHA-256, SHA-512, the SHA-3 helpers, AES and the carryless
    multiplies, on the element views of the vector registers. *)

From S2P Require Import Prelude Types Cpu Simd SimdExec.

(** ** Round functions *)
Definition rol32 (x n : Z) : Z :=
  let n := Z.land n 31 in
  if n =? 0 then x else Z.lor (u32 (Z.shiftl x n)) (Z.shiftr x (32 - n)).
Definition rol64 (x n : Z) : Z :=
  let n := Z.land n 63 in
  if n =? 0 then x else Z.lor (u64 (Z.shiftl x n)) (Z.shiftr x (64 - n)).

Definition sha_ch (x y z : Z) : Z := Z.lxor (Z.land x y) (Z.land (not32 x) z).
Definition sha_maj (x y z : Z) : Z := Z.lxor (Z.lxor (Z.land x y) (Z.land x z)) (Z.land y z).
Definition sha_par (x y z : Z) : Z := Z.lxor (Z.lxor x y) z.
Definition sha256_bsig0 (x : Z) : Z := Z.lxor (Z.lxor (ror32 x 2) (ror32 x 13)) (ror32 x 22).
Definition sha256_bsig1 (x : Z) : Z := Z.lxor (Z.lxor (ror32 x 6) (ror32 x 11)) (ror32 x 25).
Definition sha256_ssig0 (x : Z) : Z := Z.lxor (Z.lxor (ror32 x 7) (ror32 x 18)) (Z.shiftr x 3).
Definition sha256_ssig1 (x : Z) : Z := Z.lxor (Z.lxor (ror32 x 17) (ror32 x 19)) (Z.shiftr x 10).

Definition sha512_ch (x y z : Z) : Z := Z.lxor (Z.land x y) (Z.land (not64 x) z).
Definition sha512_maj (x y z : Z) : Z := Z.lxor (Z.lxor (Z.land x y) (Z.land x z)) (Z.land y z).
Definition sha512_S0 (x : Z) : Z := Z.lxor (Z.lxor (ror64 x 28) (ror64 x 34)) (ror64 x 39).
Definition sha512_S1 (x : Z) : Z := Z.lxor (Z.lxor (ror64 x 14) (ror64 x 18)) (ror64 x 41).
Definition sha512_s0 (x : Z) : Z := Z.lxor (Z.lxor (ror64 x 1) (ror64 x 8)) (Z.shiftr x 7).
Definition sha512_s1 (x : Z) : Z := Z.lxor (Z.lxor (ror64 x 19) (ror64 x 61)) (Z.shiftr x 6).

(** The four words of a register, and a register from four words. *)
Definition s_of (v : V128) (i : Z) : Z := vget 32 v i.
Definition v_of_s (a b c d : Z) : V128 :=
  vset 32 (vset 32 (vset 32 (vset 32 0 0 a) 1 b) 2 c) 3 d.

(** ** SHA-256 *)

(** One round of the loop of [sha256_hash]. *)
Definition sha256_round (w : Z) (xy : V128 * V128) : V128 * V128 :=
  let '(x, y) := xy in
  let chs := sha_ch (s_of y 0) (s_of y 1) (s_of y 2) in
  let maj := sha_maj (s_of x 0) (s_of x 1) (s_of x 2) in
  let t := u32 (s_of y 3 + sha256_bsig1 (s_of y 0) + chs + w) in
  let x3 := u32 (t + s_of x 3) in
  let y3 := u32 (t + sha256_bsig0 (s_of x 0) + maj) in
  (v_of_s y3 (s_of x 0) (s_of x 1) (s_of x 2),
   v_of_s x3 (s_of y 0) (s_of y 1) (s_of y 2)).
Definition sha256_hash (x y w : V128) (part1 : bool) : V128 :=
  let r := fold_left (fun xy e => sha256_round (s_of w e) xy) [0; 1; 2; 3] (x, y) in
  if part1 then fst r else snd r.
Definition sha256_su0 (x y : V128) : V128 :=
  let f t e := u32 (sha256_ssig0 t + s_of x e) in
  v_of_s (f (s_of x 1) 0) (f (s_of x 2) 1) (f (s_of x 3) 2) (f (s_of y 0) 3).
Definition sha256_su1 (x y z : V128) : V128 :=
  let r0 := u32 (sha256_ssig1 (s_of z 2) + s_of x 0 + s_of y 1) in
  let r1 := u32 (sha256_ssig1 (s_of z 3) + s_of x 1 + s_of y 2) in
  let r2 := u32 (sha256_ssig1 r0 + s_of x 2 + s_of y 3) in
  let r3 := u32 (sha256_ssig1 r1 + s_of x 3 + s_of z 0) in
  v_of_s r0 r1 r2 r3.

(** One round of SHA1C/SHA1P/SHA1M: the vector [d] and the word [e]. *)
Definition sha1_round (op w : Z) (de : V128 * Z) : V128 * Z :=
  let '(d, e) := de in
  let f := if op =? 0 then sha_ch else if op =? 1 then sha_par else sha_maj in
  let t := f (s_of d 1) (s_of d 2) (s_of d 3) in
  let t := u32 (t + (rol32 (s_of d 0) 5 + e + w)) in
  (v_of_s t (s_of d 0) (rol32 (s_of d 1) 30) (s_of d 2), s_of d 3).

(** ** AES *)
Definition aes_sbox : list Z :=
  [ 0x63; 0x7c; 0x77; 0x7b; 0xf2; 0x6b; 0x6f; 0xc5; 0x30; 0x01; 0x67; 0x2b; 0xfe; 0xd7; 0xab; 0x76;
    0xca; 0x82; 0xc9; 0x7d; 0xfa; 0x59; 0x47; 0xf0; 0xad; 0xd4; 0xa2; 0xaf; 0x9c; 0xa4; 0x72; 0xc0;
    0xb7; 0xfd; 0x93; 0x26; 0x36; 0x3f; 0xf7; 0xcc; 0x34; 0xa5; 0xe5; 0xf1; 0x71; 0xd8; 0x31; 0x15;
    0x04; 0xc7; 0x23; 0xc3; 0x18; 0x96; 0x05; 0x9a; 0x07; 0x12; 0x80; 0xe2; 0xeb; 0x27; 0xb2; 0x75;
    0x09; 0x83; 0x2c; 0x1a; 0x1b; 0x6e; 0x5a; 0xa0; 0x52; 0x3b; 0xd6; 0xb3; 0x29; 0xe3; 0x2f; 0x84;
    0x53; 0xd1; 0x00; 0xed; 0x20; 0xfc; 0xb1; 0x5b; 0x6a; 0xcb; 0xbe; 0x39; 0x4a; 0x4c; 0x58; 0xcf;
    0xd0; 0xef; 0xaa; 0xfb; 0x43; 0x4d; 0x33; 0x85; 0x45; 0xf9; 0x02; 0x7f; 0x50; 0x3c; 0x9f; 0xa8;
    0x51; 0xa3; 0x40; 0x8f; 0x92; 0x9d; 0x38; 0xf5; 0xbc; 0xb6; 0xda; 0x21; 0x10; 0xff; 0xf3; 0xd2;
    0xcd; 0x0c; 0x13; 0xec; 0x5f; 0x97; 0x44; 0x17; 0xc4; 0xa7; 0x7e; 0x3d; 0x64; 0x5d; 0x19; 0x73;
    0x60; 0x81; 0x4f; 0xdc; 0x22; 0x2a; 0x90; 0x88; 0x46; 0xee; 0xb8; 0x14; 0xde; 0x5e; 0x0b; 0xdb;
    0xe0; 0x32; 0x3a; 0x0a; 0x49; 0x06; 0x24; 0x5c; 0xc2; 0xd3; 0xac; 0x62; 0x91; 0x95; 0xe4; 0x79;
    0xe7; 0xc8; 0x37; 0x6d; 0x8d; 0xd5; 0x4e; 0xa9; 0x6c; 0x56; 0xf4; 0xea; 0x65; 0x7a; 0xae; 0x08;
    0xba; 0x78; 0x25; 0x2e; 0x1c; 0xa6; 0xb4; 0xc6; 0xe8; 0xdd; 0x74; 0x1f; 0x4b; 0xbd; 0x8b; 0x8a;
    0x70; 0x3e; 0xb5; 0x66; 0x48; 0x03; 0xf6; 0x0e; 0x61; 0x35; 0x57; 0xb9; 0x86; 0xc1; 0x1d; 0x9e;
    0xe1; 0xf8; 0x98; 0x11; 0x69; 0xd9; 0x8e; 0x94; 0x9b; 0x1e; 0x87; 0xe9; 0xce; 0x55; 0x28; 0xdf;
    0x8c; 0xa1; 0x89; 0x0d; 0xbf; 0xe6; 0x42; 0x68; 0x41; 0x99; 0x2d; 0x0f; 0xb0; 0x54; 0xbb; 0x16 ].
Definition aes_inv_sbox : list Z :=
  [ 0x52; 0x09; 0x6a; 0xd5; 0x30; 0x36; 0xa5; 0x38; 0xbf; 0x40; 0xa3; 0x9e; 0x81; 0xf3; 0xd7; 0xfb;
    0x7c; 0xe3; 0x39; 0x82; 0x9b; 0x2f; 0xff; 0x87; 0x34; 0x8e; 0x43; 0x44; 0xc4; 0xde; 0xe9; 0xcb;
    0x54; 0x7b; 0x94; 0x32; 0xa6; 0xc2; 0x23; 0x3d; 0xee; 0x4c; 0x95; 0x0b; 0x42; 0xfa; 0xc3; 0x4e;
    0x08; 0x2e; 0xa1; 0x66; 0x28; 0xd9; 0x24; 0xb2; 0x76; 0x5b; 0xa2; 0x49; 0x6d; 0x8b; 0xd1; 0x25;
    0x72; 0xf8; 0xf6; 0x64; 0x86; 0x68; 0x98; 0x16; 0xd4; 0xa4; 0x5c; 0xcc; 0x5d; 0x65; 0xb6; 0x92;
    0x6c; 0x70; 0x48; 0x50; 0xfd; 0xed; 0xb9; 0xda; 0x5e; 0x15; 0x46; 0x57; 0xa7; 0x8d; 0x9d; 0x84;
    0x90; 0xd8; 0xab; 0x00; 0x8c; 0xbc; 0xd3; 0x0a; 0xf7; 0xe4; 0x58; 0x05; 0xb8; 0xb3; 0x45; 0x06;
    0xd0; 0x2c; 0x1e; 0x8f; 0xca; 0x3f; 0x0f; 0x02; 0xc1; 0xaf; 0xbd; 0x03; 0x01; 0x13; 0x8a; 0x6b;
    0x3a; 0x91; 0x11; 0x41; 0x4f; 0x67; 0xdc; 0xea; 0x97; 0xf2; 0xcf; 0xce; 0xf0; 0xb4; 0xe6; 0x73;
    0x96; 0xac; 0x74; 0x22; 0xe7; 0xad; 0x35; 0x85; 0xe2; 0xf9; 0x37; 0xe8; 0x1c; 0x75; 0xdf; 0x6e;
    0x47; 0xf1; 0x1a; 0x71; 0x1d; 0x29; 0xc5; 0x89; 0x6f; 0xb7; 0x62; 0x0e; 0xaa; 0x18; 0xbe; 0x1b;
    0xfc; 0x56; 0x3e; 0x4b; 0xc6; 0xd2; 0x79; 0x20; 0x9a; 0xdb; 0xc0; 0xfe; 0x78; 0xcd; 0x5a; 0xf4;
    0x1f; 0xdd; 0xa8; 0x33; 0x88; 0x07; 0xc7; 0x31; 0xb1; 0x12; 0x10; 0x59; 0x27; 0x80; 0xec; 0x5f;
    0x60; 0x51; 0x7f; 0xa9; 0x19; 0xb5; 0x4a; 0x0d; 0x2d; 0xe5; 0x7a; 0x9f; 0x93; 0xc9; 0x9c; 0xef;
    0xa0; 0xe0; 0x3b; 0x4d; 0xae; 0x2a; 0xf5; 0xb0; 0xc8; 0xeb; 0xbb; 0x3c; 0x83; 0x53; 0x99; 0x61;
    0x17; 0x2b; 0x04; 0x7e; 0xba; 0x77; 0xd6; 0x26; 0xe1; 0x69; 0x14; 0x63; 0x55; 0x21; 0x0c; 0x7d ].
Definition aes_shift : list Z := [ 0; 5; 10; 15; 4; 9; 14; 3; 8; 13; 2; 7; 12; 1; 6; 11 ].
Definition aes_inv_shift : list Z := [ 0; 13; 10; 7; 4; 1; 14; 11; 8; 5; 2; 15; 12; 9; 6; 3 ].

Fixpoint aes_gfmul_loop (n : nat) (a b p : Z) : Z :=
  match n with
  | O => p
  | S n' =>
      let p := if Z.land b 1 =? 0 then p else Z.lxor p a in
      let hi := Z.land a 0x80 in
      let a := u8 (Z.shiftl a 1) in
      let a := if hi =? 0 then a else Z.lxor a 0x1b in
      aes_gfmul_loop n' a (Z.shiftr b 1) p
  end.
Definition aes_gfmul (a b : Z) : Z := aes_gfmul_loop 8 a b 0.

(** One column of [aes_mixcols]. *)
Definition xor4 (a b c d : Z) : Z := Z.lxor (Z.lxor (Z.lxor a b) c) d.
Definition aes_mixcol (inv : bool) (a0 a1 a2 a3 : Z) : Z * Z * Z * Z :=
  let g := aes_gfmul in
  if negb inv then
    (xor4 (g a0 2) (g a1 3) a2 a3, xor4 a0 (g a1 2) (g a2 3) a3,
     xor4 a0 a1 (g a2 2) (g a3 3), xor4 (g a0 3) a1 a2 (g a3 2))
  else
    (xor4 (g a0 14) (g a1 11) (g a2 13) (g a3 9), xor4 (g a0 9) (g a1 14) (g a2 11) (g a3 13),
     xor4 (g a0 13) (g a1 9) (g a2 14) (g a3 11), xor4 (g a0 11) (g a1 13) (g a2 9) (g a3 14)).

(** ** Carryless multiply *)
Fixpoint pmull64_loop (n : nat) (i a b rl rh : Z) : Z * Z :=
  match n with
  | O => (rl, rh)
  | S n' =>
      if Z.land (Z.shiftr a i) 1 =? 0 then pmull64_loop n' (i + 1) a b rl rh
      else pmull64_loop n' (i + 1) a b (Z.lxor rl (u64 (Z.shiftl b i)))
             (if i =? 0 then rh else Z.lxor rh (Z.shiftr b (64 - i)))
  end.
(** [pmull64]: the low and the high doubleword. *)
Definition pmull64 (a b : Z) : Z * Z := pmull64_loop 64 0 a b 0 0.

(** ** Handlers *)
Section Exec.
Context {Mem : Type}.
Local Open Scope exec_scope.

(** One pass of the loop of [aes_mixcols]. *)
Definition aes_mixcol_at (v : V128) (inv : bool) (col : Z) (r : V128) : M (St Mem) V128 :=
  a0 <- el 8 v (col * 4); a1 <- el 8 v (col * 4 + 1);
  a2 <- el 8 v (col * 4 + 2); a3 <- el 8 v (col * 4 + 3);
  let '(o0, o1, o2, o3) := aes_mixcol inv a0 a1 a2 a3 in
  r <- set_el 8 r (col * 4) o0; r <- set_el 8 r (col * 4 + 1) o1;
  r <- set_el 8 r (col * 4 + 2) o2; set_el 8 r (col * 4 + 3) o3.
Definition aes_mixcols (v : V128) (inv : bool) : M (St Mem) V128 :=
  for_up 4 0 (aes_mixcol_at v inv).

Definition crypto_sha3 (insn : Z) : M (St Mem) unit :=
  let op := BITS insn 14 12 in
  let Rm := BITS insn 20 16 in let Rn := BITS insn 9 5 in let Rd := BITS insn 4 0 in
  d <- reg_v Rd; n <- reg_v Rn; m <- reg_v Rm;
  match op with
  | 0 | 1 | 2 =>
      set_v Rd (fst (fold_left (fun de i => sha1_round op (s_of m i) de) [0; 1; 2; 3] (d, s_of n 0)))
  | 3 =>
      let d0 := Z.lxor (v_d0 d) (Z.lxor (v_d1 d) (v_d0 m)) in
      let d1 := Z.lxor (v_d1 d) (Z.lxor (v_d0 n) (v_d1 m)) in
      set_v Rd (v_mk d0 d1)
  | 4 => set_v Rd (sha256_hash d n m true)
  | 5 => set_v Rd (sha256_hash n d m false)
  | 6 => set_v Rd (sha256_su1 d n m)
  | _ => undefined
  end.

Definition crypto_sha2 (insn : Z) : M (St Mem) unit :=
  let op := BITS insn 16 12 in let Rn := BITS insn 9 5 in let Rd := BITS insn 4 0 in
  d <- reg_v Rd; n <- reg_v Rn;
  match op with
  | 0 => set_v Rd (vset 32 0 0 (rol32 (s_of n 0) 30))
  | 1 =>
      let d0 := rol32 (Z.lxor (s_of d 0) (s_of n 1)) 1 in
      let d1 := rol32 (Z.lxor (s_of d 1) (s_of n 2)) 1 in
      let d2 := rol32 (Z.lxor (s_of d 2) (s_of n 3)) 1 in
      let d3 := rol32 (Z.lxor (s_of d 3) d0) 1 in
      set_v Rd (v_of_s d0 d1 d2 d3)
  | 2 => set_v Rd (sha256_su0 d n)
  | _ => undefined
  end.

(** [aes_sbox[x]] and [in.b[aes_shift[i]]]: reads of constant tables. *)
Definition table_at (t : list Z) (i : Z) : M (St Mem) Z :=
  match t !! Z.to_nat i with Some x => ret x | None => ub end.
Definition aes_sub (sbox shift : list Z) (v : V128) : M (St Mem) V128 :=
  fill 8 16 0 0 (fun i => j <- table_at shift i; x <- el 8 v j; table_at sbox x).

Definition crypto_aes (insn : Z) : M (St Mem) unit :=
  let op := BITS insn 16 12 in let Rn := BITS insn 9 5 in let Rd := BITS insn 4 0 in
  n <- reg_v Rn; d <- reg_v Rd;
  let xored := fill 8 16 0 n (fun i => x <- el 8 d i; y <- el 8 n i; ret (u8 (Z.lxor x y))) in
  match op with
  | 4 => v <- xored; r <- aes_sub aes_sbox aes_shift v; set_v Rd r
  | 5 => v <- xored; r <- aes_sub aes_inv_sbox aes_inv_shift v; set_v Rd r
  | 6 => r <- aes_mixcols n false; set_v Rd r
  | 7 => r <- aes_mixcols n true; set_v Rd r
  | _ => undefined
  end.

Definition crypto_pmull (insn : Z) : M (St Mem) unit :=
  let Q := BITb insn 30 in let size := BITS insn 23 22 in
  let Rm := BITS insn 20 16 in let Rn := BITS insn 9 5 in let Rd := BITS insn 4 0 in
  vn <- reg_v Rn; vm <- reg_v Rm;
  if size =? 3 then
    a <- el 64 vn (b2z Q); b <- el 64 vm (b2z Q);
    let '(lo, hi) := pmull64 a b in set_v Rd (v_mk lo hi)
  else if size =? 0 then
    let base := if Q then 8 else 0 in
    r <- fill 16 8 0 0 (fun j =>
      a <- el 8 vn (base + j); b <- el 8 vm (base + j); ret (pmull8 a b));
    set_v Rd r
  else undefined.

Definition crypto_sha3_512 (insn : Z) : M (St Mem) unit :=
  let Rm := BITS insn 20 16 in let Ra := BITS insn 14 10 in
  let Rn := BITS insn 9 5 in let Rd := BITS insn 4 0 in
  n <- reg_v Rn; m <- reg_v Rm;
  let n0 := v_d0 n in let n1 := v_d1 n in let m0 := v_d0 m in let m1 := v_d1 m in
  if (BIT insn 23 =? 0) && (BIT insn 15 =? 0) then
    a <- reg_v Ra;
    let a0 := v_d0 a in let a1 := v_d1 a in
    match BITS insn 22 21 with
    | 0 => set_v Rd (v_mk (Z.lxor (Z.lxor n0 m0) a0) (Z.lxor (Z.lxor n1 m1) a1))
    | 1 => set_v Rd (v_mk (Z.lxor n0 (Z.land m0 (not64 a0))) (Z.lxor n1 (Z.land m1 (not64 a1))))
    | _ => undefined
    end
  else if BITS insn 23 21 =? 4 then
    let imm6 := BITS insn 15 10 in
    set_v Rd (v_mk (ror64 (Z.lxor n0 m0) imm6) (ror64 (Z.lxor n1 m1) imm6))
  else if (BITS insn 23 21 =? 3) && (BIT insn 15 =? 1) && (BITS insn 14 12 =? 0) then
    d <- reg_v Rd;
    let d0 := v_d0 d in let d1 := v_d1 d in
    match BITS insn 11 10 with
    | 0 =>
        let d1 := u64 (d1 + (sha512_S1 m1 + sha512_ch m1 n0 n1)) in
        let t := u64 (d1 + m0) in
        let d0 := u64 (d0 + (sha512_S1 t + sha512_ch t m1 n0)) in
        set_v Rd (v_mk d0 d1)
    | 1 =>
        let d1 := u64 (d1 + (sha512_S0 m0 + sha512_maj n0 m1 m0)) in
        let d0 := u64 (d0 + (sha512_S0 d1 + sha512_maj d1 m0 m1)) in
        set_v Rd (v_mk d0 d1)
    | 2 =>
        set_v Rd (v_mk (u64 (d0 + sha512_s1 n0 + m0)) (u64 (d1 + sha512_s1 n1 + m1)))
    | _ => set_v Rd (v_mk (Z.lxor n0 (rol64 m0 1)) (Z.lxor n1 (rol64 m1 1)))
    end
  else if (BITS insn 23 21 =? 6) && (BITS insn 20 16 =? 0) && (BITS insn 15 10 =? 0x20) then
    d <- reg_v Rd;
    set_v Rd (v_mk (u64 (v_d0 d + sha512_s0 (v_d1 d))) (u64 (v_d1 d + sha512_s0 n0)))
  else undefined.
End Exec.
