(* ===== verification/FpSimd.v ===== *)
(** * FpSimd: the dispatcher of core/exec_fpsimd.c

    [exec_fpsimd] with its decode conditions in the order of the source, and
    [fpsr_sync]. With an [FpUnit] for the floating-point arithmetic they are
    the [Hooks] of the core. *)

From S2P Require Import Prelude Types Cpu Simd SimdExec Crypto.

Section Exec.
Context {Mem : Type} `{FpUnit Mem}.
Local Open Scope exec_scope.

(** [fold_host_fpexc] on a host without an FPSR of its own. *)
Definition fold_host_fpexc : M (St Mem) unit :=
  e <- fetestexcept;
  if negb (fe_invalid e || fe_divbyzero e || fe_overflow e || fe_underflow e || fe_inexact e)
  then ret tt else
  (if fe_invalid e then fpexc_or FPSR_IOC else ret tt) ;;
  (if fe_divbyzero e then fpexc_or FPSR_DZC else ret tt) ;;
  (if fe_overflow e then fpexc_or FPSR_OFC else ret tt) ;;
  (if fe_underflow e then fpexc_or FPSR_UFC else ret tt) ;;
  (if fe_inexact e then fpexc_or FPSR_IXC else ret tt) ;;
  feclearexcept.

Definition fp_sync : M (St Mem) unit :=
  fold_host_fpexc ;;
  pend <- gets (fun s => t_fpexc (s_tls s));
  fpsr <- getc c_fpsr;
  putc (with_fpsr (u32 (Z.lor fpsr pend))) ;;
  modify (upd_tls (with_fpexc 0)).

Definition fpsimd (insn : Z) : M (St Mem) unit :=
  let b := BIT insn in let f := BITS insn in
  fpcr <- getc c_fpcr;
  modify (upd_tls (fun t => with_fz16 (has fpcr FPCR_FZ16) (with_fz (has fpcr FPCR_FZ) t))) ;;
  fpcr_host_sync fpcr ;;
  if Z.land insn 0x7f000000 =? 0x1e000000 then exec_fp_scalar insn
  else if Z.land insn 0x7f000000 =? 0x1f000000 then exec_fp_dp3 insn
  else if (b 31 =? 0) && (f 28 24 =? 0x0e) && (f 21 17 =? 0x18) && (b 11 =? 1) && (b 10 =? 0)
  then simd_across insn
  else if (b 31 =? 0) && (f 28 24 =? 0x0e) && (f 21 17 =? 0x10) && (b 11 =? 1) && (b 10 =? 0)
  then simd_two_misc insn
  else if (b 31 =? 0) && (f 28 24 =? 0x0e) && (b 22 =? 1) && (f 21 17 =? 0x1c) && (b 11 =? 1)
          && (b 10 =? 0)
  then simd_two_misc_fp16 insn
  else if (f 28 24 =? 0x1e) && (f 21 17 =? 0x10) && (b 11 =? 1) && (b 10 =? 0)
  then simd_scalar_cvt insn
  else if (f 28 24 =? 0x1e) && (b 22 =? 1) && (f 21 17 =? 0x1c) && (b 11 =? 1) && (b 10 =? 0)
  then simd_scalar_cvt_fp16 insn
  else if (f 31 24 =? 0x4e) && (f 23 22 =? 0) && (f 21 17 =? 0x14) && (f 11 10 =? 2)
  then crypto_aes insn
  else if (f 31 24 =? 0x5e) && (f 23 21 =? 0) && (b 15 =? 0) && (f 11 10 =? 0)
  then crypto_sha3 insn
  else if (f 31 24 =? 0x5e) && (f 23 22 =? 0) && (f 21 17 =? 0x14) && (f 11 10 =? 2)
  then crypto_sha2 insn
  else if (b 31 =? 0) && (f 28 24 =? 0x0e) && (b 29 =? 0) && (b 21 =? 1) && (f 15 12 =? 0xe)
          && (f 11 10 =? 0)
  then crypto_pmull insn
  else if f 31 24 =? 0xce then crypto_sha3_512 insn
  else if (f 28 24 =? 0x1e) && (b 21 =? 1) && (b 10 =? 1) then simd_scalar_three_same insn
  else if (f 28 24 =? 0x1e) && (b 21 =? 1) && (f 11 10 =? 0) then simd_scalar_three_diff insn
  else if (f 28 24 =? 0x1e) && (f 21 17 =? 0x18) && (b 11 =? 1) && (b 10 =? 0)
  then simd_scalar_pairwise insn
  else if (f 28 24 =? 0x1e) && (b 21 =? 0) && (b 15 =? 1) && (b 10 =? 1)
  then simd_scalar_three_same_extra insn
  else if (f 28 24 =? 0x1f) && (b 10 =? 0) then simd_scalar_indexed insn
  else if (b 31 =? 0) && (f 28 24 =? 0x0e) && (b 21 =? 1) && (f 11 10 =? 0)
          && negb (f 15 12 =? 0xe)
  then simd_three_diff insn
  else if (b 31 =? 0) && (b 29 =? 0) && (f 28 24 =? 0x0e) && (f 23 21 =? 0) && (b 15 =? 0)
          && (f 11 10 =? 0)
  then simd_tbl insn
  else if (b 31 =? 0) && (b 29 =? 1) && (f 28 24 =? 0x0e) && (f 23 22 =? 0) && (b 21 =? 0)
          && (b 15 =? 0) && (b 10 =? 0)
  then simd_ext insn
  else if (b 31 =? 0) && (b 29 =? 0) && (f 28 24 =? 0x0e) && (b 21 =? 0) && (b 15 =? 0)
          && (f 11 10 =? 2)
  then simd_permute insn
  else if (b 31 =? 0) && (f 28 24 =? 0x0e) && (b 22 =? 1) && (b 21 =? 0) && (f 15 14 =? 0)
          && (b 10 =? 1)
  then simd_three_same_fp16 insn
  else if (b 31 =? 0) && (f 28 24 =? 0x0e) && (b 21 =? 0) && (b 15 =? 1) && (b 10 =? 1)
  then simd_three_same_extra insn
  else if (b 31 =? 0) && (f 28 24 =? 0x0e) && (b 21 =? 1) && (b 10 =? 1)
  then simd_three_same insn
  else if (b 31 =? 0) && (f 28 19 =? 0x1e0) && (b 10 =? 1) then simd_modified_imm insn
  else if (b 31 =? 0) && (f 28 23 =? 0x1e) && (b 10 =? 1) && negb (f 22 19 =? 0)
  then simd_shift_imm insn
  else if (f 28 23 =? 0x3e) && (b 10 =? 1) && negb (f 22 19 =? 0) then simd_scalar_shift insn
  else if (b 31 =? 0) && (f 28 21 =? 0x70) && (b 15 =? 0) && (b 10 =? 1) then simd_copy insn
  else if (f 31 21 =? 0x2f0) && (b 15 =? 0) && (f 14 11 =? 0) && (b 10 =? 1)
  then simd_scalar_copy insn
  else if (b 31 =? 0) && (f 28 24 =? 0x0f) && (b 10 =? 0) then simd_indexed insn
  else fpsimd_undef.
End Exec.

(** ** The words that compute with the host's floating point

    [host_float] takes the decisions of [fpsimd] and of the handlers that are
    floating point only in part, and is true of every word that reaches a
    member of [FpUnit] other than the host's environment. *)
Definition float_across (insn : Z) : bool :=
  let fp := (BITS insn 16 12 =? 0x0c) || (BITS insn 16 12 =? 0x0f) in
  ((BIT insn 29 =? 1) && fp) || ((BIT insn 29 =? 0) && (BIT insn 22 =? 0) && fp).
Definition float_two_misc (insn : Z) : bool :=
  let opc := BITS insn 16 12 in ((0x0c <=? opc) && (opc <=? 0x0f)) || (0x16 <=? opc).
Definition float_scalar_cvt (insn : Z) : bool :=
  let U := BIT insn 29 in let o2 := BIT insn 23 in let sz := BIT insn 22 in let opc := BITS insn 16 12 in
  ((o2 =? 0) && (opc =? 0x1d)) || ((opc =? 0x1a) || (opc =? 0x1b) || ((opc =? 0x1c) && (o2 =? 0))) ||
  ((opc =? 0x16) && (U =? 1) && (o2 =? 0) && (sz =? 1)) ||
  ((opc =? 0x1d) && (o2 =? 1)) || ((0x0c <=? opc) && (opc <=? 0x0e)) || ((opc =? 0x1f) && (o2 =? 1)).
Definition float_three_same (insn : Z) : bool := 0x18 <=? BITS insn 15 11.
Definition float_scalar_pairwise (insn : Z) : bool :=
  let opc := BITS insn 16 12 in (BIT insn 29 =? 1) && ((opc =? 0x0c) || (opc =? 0x0d) || (opc =? 0x0f)).
Definition float_scalar_indexed (insn : Z) : bool :=
  let opc := BITS insn 15 12 in let size := BITS insn 23 22 in
  ((opc =? 0x9) || (negb (BITb insn 29) && ((opc =? 0x1) || (opc =? 0x5)))) && ((size =? 3) || (size =? 2)).
Definition float_three_same_extra (insn : Z) : bool :=
  let opc := BITS insn 14 11 in (BIT insn 29 =? 1) && ((Z.land opc 0xc =? 0x8) || (Z.land opc 0xd =? 0xc)).
Definition float_shift (insn : Z) : bool := (BITS insn 15 11 =? 0x1c) || (BITS insn 15 11 =? 0x1f).
Definition float_indexed (insn : Z) : bool :=
  let uu := negb (BIT insn 29 =? 0) in let opc := BITS insn 15 12 in
  (uu && (Z.land opc 0x9 =? 0x1)) || ((opc =? 0x9) || (negb uu && ((opc =? 0x1) || (opc =? 0x5)))) ||
  ((BITS insn 23 22 =? 2) && ((negb uu && ((opc =? 0x0) || (opc =? 0x4))) || (uu && ((opc =? 0x8) || (opc =? 0xc))))).
Definition host_float (insn : Z) : bool :=
  let b := BIT insn in let f := BITS insn in
  if Z.land insn 0x7f000000 =? 0x1e000000 then true
  else if Z.land insn 0x7f000000 =? 0x1f000000 then true
  else if (b 31 =? 0) && (f 28 24 =? 0x0e) && (f 21 17 =? 0x18) && (b 11 =? 1) && (b 10 =? 0)
  then float_across insn
  else if (b 31 =? 0) && (f 28 24 =? 0x0e) && (f 21 17 =? 0x10) && (b 11 =? 1) && (b 10 =? 0)
  then float_two_misc insn
  else if (b 31 =? 0) && (f 28 24 =? 0x0e) && (b 22 =? 1) && (f 21 17 =? 0x1c) && (b 11 =? 1)
          && (b 10 =? 0)
  then true
  else if (f 28 24 =? 0x1e) && (f 21 17 =? 0x10) && (b 11 =? 1) && (b 10 =? 0)
  then float_scalar_cvt insn
  else if (f 28 24 =? 0x1e) && (b 22 =? 1) && (f 21 17 =? 0x1c) && (b 11 =? 1) && (b 10 =? 0)
  then true
  else if (f 31 24 =? 0x4e) && (f 23 22 =? 0) && (f 21 17 =? 0x14) && (f 11 10 =? 2) then false
  else if (f 31 24 =? 0x5e) && (f 23 21 =? 0) && (b 15 =? 0) && (f 11 10 =? 0) then false
  else if (f 31 24 =? 0x5e) && (f 23 22 =? 0) && (f 21 17 =? 0x14) && (f 11 10 =? 2) then false
  else if (b 31 =? 0) && (f 28 24 =? 0x0e) && (b 29 =? 0) && (b 21 =? 1) && (f 15 12 =? 0xe)
          && (f 11 10 =? 0)
  then false
  else if f 31 24 =? 0xce then false
  else if (f 28 24 =? 0x1e) && (b 21 =? 1) && (b 10 =? 1) then float_three_same insn
  else if (f 28 24 =? 0x1e) && (b 21 =? 1) && (f 11 10 =? 0) then false
  else if (f 28 24 =? 0x1e) && (f 21 17 =? 0x18) && (b 11 =? 1) && (b 10 =? 0)
  then float_scalar_pairwise insn
  else if (f 28 24 =? 0x1e) && (b 21 =? 0) && (b 15 =? 1) && (b 10 =? 1) then false
  else if (f 28 24 =? 0x1f) && (b 10 =? 0) then float_scalar_indexed insn
  else if (b 31 =? 0) && (f 28 24 =? 0x0e) && (b 21 =? 1) && (f 11 10 =? 0)
          && negb (f 15 12 =? 0xe)
  then false
  else if (b 31 =? 0) && (b 29 =? 0) && (f 28 24 =? 0x0e) && (f 23 21 =? 0) && (b 15 =? 0)
          && (f 11 10 =? 0)
  then false
  else if (b 31 =? 0) && (b 29 =? 1) && (f 28 24 =? 0x0e) && (f 23 22 =? 0) && (b 21 =? 0)
          && (b 15 =? 0) && (b 10 =? 0)
  then false
  else if (b 31 =? 0) && (b 29 =? 0) && (f 28 24 =? 0x0e) && (b 21 =? 0) && (b 15 =? 0)
          && (f 11 10 =? 2)
  then false
  else if (b 31 =? 0) && (f 28 24 =? 0x0e) && (b 22 =? 1) && (b 21 =? 0) && (f 15 14 =? 0)
          && (b 10 =? 1)
  then true
  else if (b 31 =? 0) && (f 28 24 =? 0x0e) && (b 21 =? 0) && (b 15 =? 1) && (b 10 =? 1)
  then float_three_same_extra insn
  else if (b 31 =? 0) && (f 28 24 =? 0x0e) && (b 21 =? 1) && (b 10 =? 1)
  then float_three_same insn
  else if (b 31 =? 0) && (f 28 19 =? 0x1e0) && (b 10 =? 1) then false
  else if (b 31 =? 0) && (f 28 23 =? 0x1e) && (b 10 =? 1) && negb (f 22 19 =? 0)
  then float_shift insn
  else if (f 28 23 =? 0x3e) && (b 10 =? 1) && negb (f 22 19 =? 0) then float_shift insn
  else if (b 31 =? 0) && (f 28 21 =? 0x70) && (b 15 =? 0) && (b 10 =? 1) then false
  else if (f 31 21 =? 0x2f0) && (b 15 =? 0) && (f 14 11 =? 0) && (b 10 =? 1) then false
  else if (b 31 =? 0) && (f 28 24 =? 0x0f) && (b 10 =? 0) then float_indexed insn
  else false.
(** The words the decoder sends to [exec_fpsimd]. *)
Definition fp_class (insn : Z) : bool :=
  (Z.land (Z.shiftr insn 25) 0xf =? 0x7) || (Z.land (Z.shiftr insn 25) 0xf =? 0xf).
Definition float_insn (insn : Z) : bool := fp_class insn && host_float insn.
