(* ===== verification/SimdLanes.v ===== *)
(** * SimdLanes: the algebra of vector elements

    What reading and writing an element means bit by bit, when two registers
    are equal, and what the element loops compute: [fill] with a body that
    reads registers and may raise QC gives the vector of the body's values. *)

From S2P Require Import Prelude Types Cpu CpuWf Simd SimdExec.

(** A register field. *)
Lemma reg_field insn hi lo : hi = lo + 4 -> 0 <= BITS insn hi lo < 32.
Proof. intros ->. apply BITS_range; [lia|]. by replace (lo + 4 - lo + 1) with 5 by lia. Qed.

(** The four element widths. *)
Definition lane_w (w : Z) : Prop := w = 8 \/ w = 16 \/ w = 32 \/ w = 64.
(** Case analysis on a width, with the element counts computed. *)
Ltac widths H :=
  destruct H as [->|[->|[->| ->]]];
  change (128 / 8) with 16 in *; change (128 / 16) with 8 in *; change (128 / 32) with 4 in *;
  change (128 / 64) with 2 in *; change (64 / 8) with 8 in *; change (64 / 16) with 4 in *;
  change (64 / 32) with 2 in *; change (64 / 64) with 1 in *.
Lemma ebits_w size : lane_w (ebits size).
Proof. unfold lane_w, ebits. repeat case_match; auto. Qed.
Lemma in_lane_spec w i : lane_w w -> in_lane w i = true <-> 0 <= i < 128 / w.
Proof. intros Hw. unfold in_lane. widths Hw; lia. Qed.
Lemma in_lane_true w i : lane_w w -> 0 <= i < 128 / w -> in_lane w i = true.
Proof. intros. by apply in_lane_spec. Qed.

(** ** Bits *)
Lemma vget_bits w v i k : 0 <= w -> 0 <= i -> 0 <= k ->
  Z.testbit (vget w v i) k = (k <? w) && Z.testbit v (w * i + k).
Proof.
  intros Hw Hi Hk. unfold vget. rewrite Z.land_spec, Z.testbit_ones_nonneg by lia.
  rewrite Z.shiftr_spec by lia. rewrite andb_comm. f_equal. f_equal. lia.
Qed.
Lemma vset_bits w v i x k : 0 <= w -> 0 <= i -> 0 <= k ->
  Z.testbit (vset w v i x) k =
  if (w * i <=? k) && (k <? w * i + w) then Z.testbit x (k - w * i) else Z.testbit v k.
Proof.
  intros Hw Hi Hk. unfold vset. assert (0 <= w * i) by nia.
  rewrite Z.lor_spec, Z.ldiff_spec, !Z.shiftl_spec, Z.land_spec by lia.
  destruct (Z.leb_spec (w * i) k); cbn [andb].
  - rewrite Z.testbit_ones_nonneg by lia.
    replace (k - w * i <? w) with (k <? w * i + w) by lia.
    destruct (k <? w * i + w); simpl; by rewrite ?andb_false_r, ?andb_true_r, ?orb_false_r.
  - rewrite !(Z.testbit_neg_r _ (k - w * i)) by lia. simpl. by rewrite andb_true_r, orb_false_r.
Qed.
Lemma fits_vget w v i : 0 <= w -> fits w (vget w v i).
Proof.
  intros Hw. unfold vget. rewrite Z.land_ones by lia. apply Z.mod_pos_bound.
  apply Z.pow_pos_nonneg; lia.
Qed.
Lemma fits_vget64 w v i : lane_w w -> fits 64 (vget w v i).
Proof.
  intros Hw. apply (fits_weaken w); [apply fits_vget|];
    by destruct Hw as [->|[->|[->| ->]]].
Qed.
Lemma fits_vset w v i x : lane_w w -> in_lane w i = true -> fits 128 v -> fits 128 (vset w v i x).
Proof.
  intros Hw Hi Hv. apply in_lane_spec in Hi; [|done].
  assert (0 < w /\ 0 <= w * i /\ w * i + w <= 128)
    by (widths Hw; lia).
  apply fits_bits in Hv as [Hv0 Hv]; [|lia]. apply fits_bits; [lia|]. split.
  - unfold vset. apply Z.lor_nonneg. split; [apply Z.ldiff_nonneg; lia|].
    apply Z.shiftl_nonneg, Z.land_nonneg. right. pose proof (Z.ones_equiv w).
    pose proof (Z.pow_pos_nonneg 2 w). lia.
  - intros k Hk. rewrite vset_bits by lia. replace (k <? w * i + w) with false by lia.
    rewrite andb_false_r. by apply Hv.
Qed.

Lemma vget_vset_eq w v i x : lane_w w -> 0 <= i -> vget w (vset w v i x) i = x mod 2 ^ w.
Proof.
  intros Hw Hi. assert (0 < w) by (widths Hw; lia).
  apply Z.bits_inj'. intros k Hk. rewrite vget_bits, vset_bits by nia.
  destruct (Z.ltb_spec k w); cbn [andb].
  - rewrite (proj2 (andb_true_iff _ _)) by lia. rewrite Z.mod_pow2_bits_low by lia. f_equal. lia.
  - by rewrite Z.mod_pow2_bits_high by lia.
Qed.
Lemma vget_vset_ne w v i j x : lane_w w -> 0 <= i -> 0 <= j -> i <> j ->
  vget w (vset w v i x) j = vget w v j.
Proof.
  intros Hw Hi Hj Hij. assert (0 < w) by (widths Hw; lia).
  apply Z.bits_inj'. intros k Hk. rewrite !vget_bits, vset_bits by nia.
  destruct (Z.ltb_spec k w); cbn [andb]; [|done].
  rewrite (proj2 (andb_false_iff _ _)); [done|]. assert (j < i \/ i < j) by lia.
  destruct (Z.leb_spec (w * i) (w * j + k)); [|by left]. right. apply Z.ltb_ge. nia.
Qed.
Lemma vget_vset w v i j x : lane_w w -> 0 <= i -> 0 <= j ->
  vget w (vset w v i x) j = if i =? j then x mod 2 ^ w else vget w v j.
Proof.
  intros. destruct (Z.eqb_spec i j) as [->|]; [by apply vget_vset_eq|by apply vget_vset_ne].
Qed.
Lemma vget_lxor w a b i : 0 <= w -> 0 <= i ->
  vget w (Z.lxor a b) i = Z.lxor (vget w a i) (vget w b i).
Proof.
  intros. apply Z.bits_inj'. intros k Hk. rewrite Z.lxor_spec, !vget_bits, Z.lxor_spec by lia.
  by destruct (k <? w).
Qed.
Lemma vget_0 w i : vget w 0 i = 0.
Proof. unfold vget. by rewrite Z.shiftr_0_l, Z.land_0_l. Qed.

(** Two registers with the same elements are the same register. *)
Lemma v_ext w (v v' : V128) : lane_w w -> fits 128 v -> fits 128 v' ->
  (forall i, 0 <= i < 128 / w -> vget w v i = vget w v' i) -> v = v'.
Proof.
  intros Hw Hv Hv' He. apply Z.bits_inj'. intros k Hk. destruct (Z.lt_ge_cases k 128).
  - assert (0 < w /\ 0 <= k / w < 128 / w) as [? Hq]
      by (widths Hw; Z.to_euclidean_division_equations; lia).
    pose proof (Z.mod_pos_bound k w). pose proof (Z.div_mod k w).
    specialize (He _ Hq). apply (f_equal (fun z => Z.testbit z (k mod w))) in He.
    rewrite !vget_bits in He by lia. rewrite (proj2 (Z.ltb_lt _ _)) in He by lia.
    by replace (w * (k / w) + k mod w) with k in He by lia.
  - by rewrite !(fits_testbit 128 _ k) by (done || lia).
Qed.

(** The doubleword views. *)
Lemma v_d0_vget v : v_d0 v = vget 64 v 0.
Proof. unfold v_d0, vget, u64. by rewrite Z.mul_0_r, Z.shiftr_0_r, Z.land_ones by lia. Qed.
Lemma v_d1_vget v : v_d1 v = vget 64 v 1.
Proof. unfold v_d1, vget, u64. by rewrite Z.land_ones by lia. Qed.
Lemma fits_v128_mk a b : fits 128 (v_mk a b).
Proof.
  unfold v_mk. pose proof (fits_u64 a). pose proof (fits_u64 b).
  apply fits_lor; [lia|by apply (fits_weaken 64)|]. unfold fits in *.
  rewrite Z.shiftl_mul_pow2 by lia. lia.
Qed.
Lemma v_mk_bits a b k : 0 <= k ->
  Z.testbit (v_mk a b) k = if k <? 64 then Z.testbit a k else (k <? 128) && Z.testbit b (k - 64).
Proof.
  intros Hk. unfold v_mk, u64. rewrite Z.lor_spec, Z.shiftl_spec by lia.
  destruct (Z.ltb_spec k 64).
  - rewrite Z.mod_pow2_bits_low by lia. by rewrite (Z.testbit_neg_r _ (k - 64)), orb_false_r by lia.
  - rewrite Z.mod_pow2_bits_high by lia. destruct (Z.ltb_spec k 128); simpl.
    + by rewrite Z.mod_pow2_bits_low by lia.
    + by rewrite Z.mod_pow2_bits_high by lia.
Qed.
(** A register with a zero upper doubleword has zero upper elements. *)
Lemma vget_v_mk_lo w a b i : lane_w w -> 0 <= i < 64 / w -> vget w (v_mk a b) i = vget w (u64 a) i.
Proof.
  intros Hw Hi. assert (0 < w /\ 0 <= w * i /\ w * i + w <= 64)
    by (widths Hw; lia).
  apply Z.bits_inj'. intros k Hk. rewrite !vget_bits by lia.
  destruct (Z.ltb_spec k w); cbn [andb]; [|done]. rewrite v_mk_bits by lia.
  rewrite (proj2 (Z.ltb_lt _ _)) by lia. unfold u64. by rewrite Z.mod_pow2_bits_low by lia.
Qed.

(** ** Loops *)
Lemma bind_run {S A B} (m : M S A) (k : A -> M S B) s a s' :
  m s = Ok a s' -> bind m k s = k a s'.
Proof. intros E. unfold bind. by rewrite E. Qed.
(** Run the first action of a handler, with the lemma that says what it does. *)
Ltac run1 lem := erewrite bind_run; [|lem]; cbv beta.

Section Loops.
Context {Mem : Type}.
Implicit Types s : St Mem.

(** The state after QC was raised, or not. *)
Definition qcs (b : bool) (s : St Mem) : St Mem :=
  if b then upd_tls (fun t => with_fpexc (Z.lor (t_fpexc t) FPSR_QC) t) s else s.
Lemma qcs_qcs b b' s : qcs b (qcs b' s) = qcs (b || b') s.
Proof.
  destruct b, b'; try done. unfold qcs, upd_tls. simpl. f_equal. unfold with_fpexc. simpl.
  by rewrite <- Z.lor_assoc, Z.lor_diag.
Qed.
Lemma qcs_cpu b s : s_cpu (qcs b s) = s_cpu s.
Proof. by destruct b. Qed.
Lemma qc_run r s : qc r s = Ok (fst r) (qcs (snd r) s).
Proof. unfold qc, bind, fpexc_or, qcs. by destruct (snd r). Qed.

(** The vector a loop over [n] elements from [i] builds, and whether any of
    them raised QC. *)
Fixpoint vfill (w base : Z) (n : nat) (i : Z) (r : V128) (g : Z -> Z) : V128 :=
  match n with
  | O => r
  | S k => vfill w base k (i + 1) (vset w r (base + i) (g i)) g
  end.
Fixpoint anyq (n : nat) (i : Z) (q : Z -> bool) : bool :=
  match n with O => false | S k => q i || anyq k (i + 1) q end.

Lemma anyq_spec n i q : anyq n i q = true <-> exists j, i <= j < i + Z.of_nat n /\ q j = true.
Proof.
  revert i. induction n as [|n IH]; intros i; cbn [anyq].
  - split; [done|]. intros (j & ? & _). lia.
  - rewrite orb_true_iff, IH. split.
    + intros [H|(j & Hj & H)]; [exists i|exists j]; split; (done || lia).
    + intros (j & Hj & H). destruct (Z.eq_dec j i) as [->|]; [by left|].
      right. exists j. split; [lia|done].
Qed.
Lemma anyq_false n i : anyq n i (fun _ => false) = false.
Proof. revert i. induction n; intros i; simpl; auto. Qed.

Lemma vfill_vget w base n i r g j : lane_w w -> 0 <= base -> 0 <= i -> 0 <= j ->
  vget w (vfill w base n i r g) j =
  if (base + i <=? j) && (j <? base + i + Z.of_nat n) then g (j - base) mod 2 ^ w else vget w r j.
Proof.
  intros Hw Hb. revert i r. induction n as [|n IH]; intros i r Hi Hj; cbn [vfill].
  - rewrite Z.add_0_r. destruct (Z.leb_spec (base + i) j); cbn [andb]; [|done].
    by rewrite (proj2 (Z.ltb_ge _ _)) by lia.
  - rewrite IH, vget_vset, Nat2Z.inj_succ by (done || lia).
    destruct (Z.eqb_spec (base + i) j) as [<-|].
    + rewrite (proj2 (Z.leb_gt _ (base + i))), Z.leb_refl by lia. cbn [andb].
      rewrite (proj2 (Z.ltb_lt _ _)) by lia.
      by replace (base + i - base) with i by lia.
    + replace (base + (i + 1) <=? j) with (base + i <=? j) by lia.
      by replace (base + (i + 1) + Z.of_nat n) with (base + i + Z.succ (Z.of_nat n)) by lia.
Qed.
Lemma fits_vfill w base n i r g : lane_w w -> 0 <= base -> 0 <= i ->
  base + i + Z.of_nat n <= 128 / w -> fits 128 r -> fits 128 (vfill w base n i r g).
Proof.
  intros Hw Hb. revert i r. induction n as [|n IH]; intros i r Hi Hn Hr; cbn [vfill]; [done|].
  apply IH; [lia|lia|]. apply fits_vset; [done| |done]. apply in_lane_true; [done|lia].
Qed.

(** [fill] with a body that gives [g i] and raises QC when [q i]. *)
Lemma fill_loop w n base i r body (g : Z -> Z) (q : Z -> bool) s :
  lane_w w -> 0 <= base -> 0 <= i -> base + i + Z.of_nat n <= 128 / w ->
  (forall j s', i <= j < i + Z.of_nat n -> body j s' = Ok (g j) (qcs (q j) s')) ->
  for_loop n i (fun i r => bind (body i) (fun v => set_el w r (base + i) v)) r s =
  Ok (vfill w base n i r g) (qcs (anyq n i q) s).
Proof.
  intros Hw Hb. revert i r s. induction n as [|n IH]; intros i r s Hi Hn Hbody; cbn [for_loop vfill anyq]; [done|].
  unfold bind at 1 2. rewrite Hbody by lia. unfold set_el. rewrite in_lane_true by (done || lia).
  cbn [ret]. unfold ret. rewrite IH; [|lia|lia|intros; apply Hbody; lia].
  rewrite qcs_qcs. by rewrite orb_comm.
Qed.
Lemma fill_run w n base r body (g : Z -> Z) (q : Z -> bool) s :
  lane_w w -> 0 <= n -> 0 <= base -> base + n <= 128 / w ->
  (forall j s', 0 <= j < n -> body j s' = Ok (g j) (qcs (q j) s')) ->
  fill w n base r body s =
  Ok (vfill w base (Z.to_nat n) 0 r g) (qcs (anyq (Z.to_nat n) 0 q) s).
Proof. intros. unfold fill, for_up. apply fill_loop; try done; try lia. intros. auto with lia. Qed.

(** A vector register written. *)
Definition setv (n : Z) (v : V128) (s : St Mem) : St Mem :=
  upd_cpu (fun c => with_v (<[Z.to_nat n := v]> (c_v c)) c) s.
Lemma set_v_run n v s : st_wf s -> 0 <= n < 32 -> set_v n v s = Ok tt (setv n v s).
Proof.
  intros Hs Hn. unfold set_v. by rewrite (proj2 (Nat.ltb_lt _ _)) by (destruct Hs; lia).
Qed.
Lemma setv_wf n v s : st_wf s -> fits 128 v -> st_wf (setv n v s).
Proof. intros. by apply wf_with_v. Qed.
Lemma vval_setv n m v s : st_wf s -> 0 <= n < 32 -> 0 <= m < 32 ->
  vval (setv n v s) m = if n =? m then v else vval s m.
Proof.
  intros Hs Hn Hm. unfold vval, setv. simpl. destruct (Z.eqb_spec n m) as [->|].
  - rewrite list_lookup_insert_eq; [done|]. destruct Hs. lia.
  - rewrite list_lookup_insert_ne by lia. done.
Qed.
Lemma qcs_wf b s : st_wf s -> st_wf (qcs b s).
Proof. unfold st_wf. by rewrite qcs_cpu. Qed.
Lemma vval_qcs b s n : vval (qcs b s) n = vval s n.
Proof. unfold vval. by rewrite qcs_cpu. Qed.

(** An element inside the register is read. *)
Lemma el_run w v i s : lane_w w -> 0 <= i < 128 / w -> el w v i s = Ok (vget w v i) s.
Proof. intros. unfold el. by rewrite in_lane_true. Qed.
Lemma velem_get_run v size i s : 0 <= i < 128 / ebits size ->
  velem_get v size i s = Ok (vget (ebits size) v i) s.
Proof. intros. apply el_run; [apply ebits_w|done]. Qed.
End Loops.
