(* ===== verification/SimdSafe.v ===== *)
(** * SimdSafe: the vector instructions keep a well-formed CPU

    No element index leaves its register, in unallocated encodings either, and
    every result has its register's width; with an FP unit that promises as
    much, the whole of [fpsimd] does. *)

From S2P Require Import Prelude Types Cpu CpuWf Simd SimdExec Crypto FpSimd SimdLanes.

(** What the floating-point side promises. *)
Class FpUnitOk (Mem : Type) `{FpUnit Mem} := {
  fe_test_ok : safe False (st_wf (Mem:=Mem)) fetestexcept (fun _ => True);
  fe_clear_ok : safe False (st_wf (Mem:=Mem)) feclearexcept (fun _ => True);
  host_sync_ok v : safe False (st_wf (Mem:=Mem)) (fpcr_host_sync v) (fun _ => True);
  fp_handlers_ok insn m : In m
    [exec_fp_scalar insn; exec_fp_dp3 insn; simd_three_same_fp insn; simd_three_same_fp16 insn;
     simd_indexed_fp insn; simd_two_misc_fp insn; simd_two_misc_fp16 insn;
     simd_scalar_cvt_fp16 insn; indexed_fhm_arm insn; across_arm insn; shift_fixed_arm insn;
     scalar_shift_fixed_arm insn; scalar_cvt_arm insn; scalar_three_same_arm insn;
     scalar_pairwise_arm insn; scalar_indexed_arm insn] ->
    safe False (st_wf (Mem:=Mem)) m (fun _ => True);
  fcmla_ok size Q Rn Rm Rd rot midx :
    safe False (st_wf (Mem:=Mem)) (fcmla_core size Q Rn Rm Rd rot midx) (fun _ => True);
  fcadd_ok size Q Rn Rm Rd rot :
    safe False (st_wf (Mem:=Mem)) (fcadd_core size Q Rn Rm Rd rot) (fun _ => True)
}.

(** ** Element counts *)
Lemma size_cases size : 0 <= size < 4 -> size = 0 \/ size = 1 \/ size = 2 \/ size = 3.
Proof. lia. Qed.
Ltac sizes H := apply size_cases in H as [->|[->|[->| ->]]].
Lemma n_lanes size (q : bool) : 0 <= size < 4 ->
  0 <= Z.shiftr (if q then 16 else 8) size <= 128 / ebits size.
Proof. intros H. sizes H; destruct q; vm_compute; split; congruence. Qed.
Lemma n_lanes' size (q : bool) : 0 <= size < 4 ->
  0 <= Z.shiftr (if q then 8 else 16) size <= 128 / ebits size.
Proof. intros H. sizes H; destruct q; vm_compute; split; congruence. Qed.
Lemma n_lanes0 size : 0 <= size < 4 -> 0 < 128 / ebits size.
Proof. intros H. by sizes H. Qed.
Lemma n_dest size : 0 <= size < 4 ->
  0 <= 64 / Z.shiftl 8 size /\ 64 / Z.shiftl 8 size + 64 / Z.shiftl 8 size <= 128 / ebits size /\
  64 / Z.shiftl 8 size <= 128 / ebits (size + 1).
Proof. intros H. sizes H; vm_compute; repeat split; congruence. Qed.
Lemma n_pairs size (q : bool) : 0 <= size < 4 ->
  Z.shiftr (if q then 16 else 8) size / 2 <= 128 / ebits (size + 1).
Proof. intros H. sizes H; destruct q; vm_compute; congruence. Qed.
Lemma half_twice n : 0 <= n -> 0 <= n / 2 /\ 2 * (n / 2) <= n.
Proof. intros. Z.to_euclidean_division_equations. lia. Qed.

Section Rules.
Context {Mem : Type} (U : Prop).
Notation SafeQ := (safe U (st_wf (Mem:=Mem))).
Notation Safe m := (safe U (st_wf (Mem:=Mem)) m (fun _ => True)).

Lemma safe_el w v i : lane_w w -> 0 <= i < 128 / w -> SafeQ (el w v i) (fits w).
Proof.
  intros Hw Hi. unfold el. rewrite in_lane_true by done. apply safe_ret, fits_vget. widths Hw; lia.
Qed.
Lemma safe_set_el w v i x : lane_w w -> 0 <= i < 128 / w -> fits 128 v ->
  SafeQ (set_el w v i x) (fits 128).
Proof.
  intros Hw Hi Hv. unfold set_el. rewrite in_lane_true by done. apply safe_ret, fits_vset; try done.
  by apply in_lane_true.
Qed.
Lemma safe_velem_get v size i : 0 <= i < 128 / ebits size ->
  SafeQ (velem_get v size i) (fits (ebits size)).
Proof. intros. apply safe_el; [apply ebits_w|done]. Qed.
Lemma safe_velem_set v size i x : 0 <= i < 128 / ebits size -> fits 128 v ->
  SafeQ (velem_set v size i x) (fits 128).
Proof. intros. apply safe_set_el; [apply ebits_w|done..]. Qed.
Lemma safe_for_up {A} (I : A -> Prop) n a (body : Z -> A -> M (St Mem) A) :
  I a -> (forall j a, 0 <= j < n -> I a -> SafeQ (body j a) I) -> SafeQ (for_up n a body) I.
Proof. intros Ha Hb. apply safe_for_loop; [|done]. intros j a' Hj. apply Hb. lia. Qed.
Lemma safe_fill w n base r body : lane_w w -> 0 <= base -> base + n <= 128 / w -> fits 128 r ->
  (forall i, 0 <= i < n -> Safe (body i)) -> SafeQ (fill w n base r body) (fits 128).
Proof.
  intros Hw Hb Hn Hr Hbody. apply safe_for_up; [done|]. intros j a Hj Ha.
  eapply safe_bind; [by apply Hbody|]. intros v _. apply safe_set_el; [done|lia|done].
Qed.
Lemma safe_tls f : Safe (modify (upd_tls (Mem:=Mem) f)).
Proof. by apply safe_modify. Qed.
Lemma safe_qc r : Safe (qc r).
Proof. intros s Hs. rewrite qc_run. split; [done|]. unfold st_wf. by rewrite qcs_cpu. Qed.
Lemma safe_lane r : Safe (lane r).
Proof. destruct r; [apply safe_qc|apply safe_undefined]. Qed.
Lemma safe_set_scalar Rd size v : 0 <= Rd < 32 -> 0 <= size < 5 -> Safe (set_scalar Rd size v).
Proof.
  intros HR Hs. unfold set_scalar. eapply safe_bind; [|intros; by apply safe_set_v].
  apply safe_velem_set; [|auto with word]. split; [done|].
  destruct (Z.eq_dec size 4) as [->|]; [done|]. apply n_lanes0. lia.
Qed.
End Rules.

(** A register number chosen between two fields. *)
Ltac reg_choice :=
  match goal with |- context [reg_v (if ?b then ?x else ?y)] =>
    assert (0 <= (if b then x else y) < 32) by (destruct b; reg_range);
    generalize dependent (if b then x else y); intros
  end.
Ltac fp_arm insn := apply (fp_handlers_ok insn); simpl; tauto.
(** One step through a vector handler. Element indices are left to [lia],
    with the counts of the lemmas above in the context. *)
Ltac vside := solve [lia | repeat case_match; lia].
Ltac vstep :=
  cbv zeta;
  lazymatch goal with
  | |- safe _ _ (bind (if ?b then _ else _) _) _ => destruct b
  | |- safe _ _ (if ?b then _ else _) _ => destruct b
  | |- safe _ _ (bind (fill _ _ _ _ _) _) _ =>
      eapply safe_bind; [apply safe_fill; [apply ebits_w || (unfold lane_w; tauto)|try vside|try vside| |intros ? ?]|intros ? ?; cbv beta]
  | |- safe _ _ (bind (for_up _ _ _) _) _ =>
      eapply safe_bind; [apply (safe_for_up _ (fits 128)); [|intros ? ? ? ?]|intros ? ?; cbv beta]
  | |- safe _ _ (velem_set _ _ _ _) _ => apply safe_velem_set; [try vside|try done]
  | |- safe _ _ (set_el _ _ _ _) _ => apply safe_set_el; [unfold lane_w; tauto|try vside|try done]
  | |- safe _ _ (bind (velem_get _ _ _) _) _ =>
      eapply safe_bind; [apply safe_velem_get; try vside|intros ? ?; cbv beta]
  | |- safe _ _ (bind (velem_set _ _ _ _) _) _ =>
      eapply safe_bind; [apply safe_velem_set; [try vside|try done]|intros ? ?; cbv beta]
  | |- safe _ _ (bind (el _ _ _) _) _ =>
      eapply safe_bind; [apply safe_el; [unfold lane_w; tauto|try vside]|intros ? ?; cbv beta]
  | |- safe _ _ (bind (qc _) _) _ => eapply safe_bind; [apply safe_qc|intros ? _; cbv beta]
  | |- safe _ _ (bind (lane _) _) _ => eapply safe_bind; [apply safe_lane|intros ? _; cbv beta]
  | |- safe _ _ (qc _) _ => apply safe_qc
  | |- safe _ _ (velem_get _ _ _) _ => eapply safe_weaken; [apply safe_velem_get; try vside|done]
  | |- safe _ _ (el _ _ _) _ => eapply safe_weaken; [apply safe_el; [unfold lane_w; tauto|try vside]|done]
  | |- safe _ _ (set_scalar _ _ _) _ => apply safe_set_scalar; [reg_range|try vside]
  | |- safe _ _ (bind fpsimd_undef _) _ => apply (safe_bind _ _ _ _ (fun _ => False)); [apply safe_undefined|intros ? []]
  | |- safe _ _ fpsimd_undef _ => apply safe_undefined
  | |- fits 128 0 => by apply fits_0
  | |- fits 128 (if _ then _ else _) => case_match; [try done|try done]
  | |- fits 128 (v_mk _ _) => apply fits_v128_mk
  | |- safe _ _ (ret _) (fun _ => True) => by apply safe_ret
  | |- _ => safe_step
  end.
(** The range of an element-size field, and the counts that follow. *)
Ltac size_field insn Hsz :=
  assert (Hsz : 0 <= BITS insn 23 22 < 4) by (apply BITS_range; [lia|reflexivity]);
  pose proof (n_lanes0 _ Hsz); pose proof (n_dest _ Hsz) as (? & ? & ?).

Section Handlers.
Context {Mem : Type} `{FpUnitOk Mem}.
Notation SafeQ := (safe False (st_wf (Mem:=Mem))).
Notation Safe m := (safe False (st_wf (Mem:=Mem)) m (fun _ => True)).

Lemma safe_modified_imm insn : Safe (simd_modified_imm insn).
Proof. unfold simd_modified_imm. repeat vstep. Qed.

Lemma copy_size_range imm5 : 0 <= copy_size imm5 < 4.
Proof. unfold copy_size. repeat case_match; lia. Qed.
(** The index behind the lowest set bit stays in the register. *)
Lemma copy_index imm5 : 0 <= imm5 < 32 ->
  0 <= Z.shiftr imm5 (copy_size imm5 + 1) < 128 / ebits (copy_size imm5).
Proof.
  intros Hi. pose proof (copy_size_range imm5) as Hc. rewrite Z.shiftr_div_pow2 by lia.
  sizes Hc; [change (128 / _) with 16|change (128 / _) with 8|change (128 / _) with 4|change (128 / _) with 2];
    change (2 ^ (0 + 1)) with 2; change (2 ^ (1 + 1)) with 4; change (2 ^ (2 + 1)) with 8;
    change (2 ^ (3 + 1)) with 16; Z.to_euclidean_division_equations; lia.
Qed.
Lemma copy_lanes size (q : bool) : 0 <= size < 4 ->
  0 <= Z.shiftr (Z.shiftr 16 size) (if q then 1 else 0) <= 128 / ebits size.
Proof. intros Hs. sizes Hs; destruct q; vm_compute; split; congruence. Qed.
Lemma copy_index2 imm4 size : 0 <= imm4 < 16 -> 0 <= size < 4 ->
  0 <= Z.shiftr imm4 size < 128 / ebits size.
Proof.
  intros Hi Hs. rewrite Z.shiftr_div_pow2 by lia.
  sizes Hs; [change (128 / _) with 16|change (128 / _) with 8|change (128 / _) with 4|change (128 / _) with 2];
    change (2 ^ 0) with 1; change (2 ^ 1) with 2; change (2 ^ 2) with 4; change (2 ^ 3) with 8;
    Z.to_euclidean_division_equations; lia.
Qed.
Lemma fits_elem64 size v : fits (ebits size) v -> fits 64 v.
Proof. intros. eapply fits_weaken; [done|]. pose proof (ebits_w size) as Hw. widths Hw; lia. Qed.
Lemma ebits_shiftl size : 0 <= size < 4 -> Z.shiftl 8 size = ebits size.
Proof. intros Hs. by sizes Hs. Qed.
Lemma safe_copy insn : Safe (simd_copy insn).
Proof.
  unfold simd_copy. cbv zeta. vstep; [apply safe_undefined|].
  assert (H5 : 0 <= BITS insn 20 16 < 32) by (apply BITS_range; [lia|reflexivity]).
  assert (H4 : 0 <= BITS insn 14 11 < 16) by (apply BITS_range; [lia|reflexivity]).
  pose proof (copy_size_range (BITS insn 20 16)) as Hc. pose proof (copy_index _ H5).
  pose proof (copy_index2 _ _ H4 Hc). pose proof (copy_lanes _ (BIT insn 30 =? 0) Hc).
  generalize dependent (copy_size (BITS insn 20 16)). intros size. intros.
  assert (Hsx : forall e, fits (ebits size) e -> fits 64 (sign_extend e (Z.shiftl 8 size))).
  { intros e He. rewrite ebits_shiftl by done. apply fits_sign_extend; [|done].
    pose proof (ebits_w size) as Hw. widths Hw; lia. }
  repeat vstep; try case_match; eauto using fits_elem64 with word.
Qed.
Lemma safe_scalar_copy insn : Safe (simd_scalar_copy insn).
Proof.
  unfold simd_scalar_copy. cbv zeta.
  assert (H5 : 0 <= BITS insn 20 16 < 32) by (apply BITS_range; [lia|reflexivity]).
  pose proof (copy_size_range (BITS insn 20 16)) as Hc. pose proof (copy_index _ H5).
  pose proof (n_lanes0 _ Hc). repeat vstep.
Qed.
Lemma safe_three_same insn : Safe (simd_three_same insn).
Proof.
  unfold simd_three_same. cbv zeta. vstep; [fp_arm insn|]. size_field insn Hsz. pose proof (n_lanes _ (BITb insn 30) Hsz).
  pose proof (half_twice (Z.shiftr (if BITb insn 30 then 16 else 8) (BITS insn 23 22)) ltac:(lia)).
  repeat vstep.
Qed.

(** The index of a by-element form, for halfwords and words. *)
Lemma by_elem_index insn : 0 <= Z.lor (Z.lor (Z.shiftl (BIT insn 11) 2) (Z.shiftl (BIT insn 21) 1)) (BIT insn 20) < 8 /\
  0 <= Z.lor (Z.shiftl (BIT insn 11) 1) (BIT insn 21) < 4.
Proof.
  destruct (BIT_cases insn 11) as [-> | ->], (BIT_cases insn 20) as [-> | ->], (BIT_cases insn 21) as [-> | ->];
    vm_compute; repeat split; congruence.
Qed.
Lemma safe_dot4 U vn vm i j acc : 0 <= i < 4 -> 0 <= j < 4 -> Safe (dot4 U vn vm i j acc).
Proof.
  intros Hi Hj. unfold dot4. apply (safe_for_up _ (fun _ => True)); [done|]. intros k a Hk _.
  assert (128 / 8 = 16) by done. repeat vstep.
Qed.
Lemma safe_indexed insn : Safe (simd_indexed insn).
Proof.
  unfold simd_indexed. cbv zeta. destruct (by_elem_index insn) as [HiH HiS].
  vstep; [repeat vstep; first [apply fcmla_ok | apply safe_undefined]|].
  vstep; [fp_arm insn|]. vstep; [fp_arm insn|]. safe_step; [apply safe_undefined|].
  size_field insn Hsz. pose proof (n_lanes' _ (BIT insn 30 =? 0) Hsz).
  assert (Hix : 0 <= (if BITS insn 23 22 =? 1
    then Z.lor (Z.lor (Z.shiftl (BIT insn 11) 2) (Z.shiftl (BIT insn 21) 1)) (BIT insn 20)
    else Z.lor (Z.shiftl (BIT insn 11) 1) (BIT insn 21)) < 128 / ebits (BITS insn 23 22)).
  { rewrite negb_false_iff, orb_true_iff, !Z.eqb_eq in E. destruct E as [-> | ->]; done. }
  clear E HiH HiS. reg_choice. assert (H32 : 128 / 32 = 4) by done.
  destruct ((BITS insn 15 12 =? 14) && (BITS insn 23 22 =? 2)) eqn:Ed; repeat vstep.
  apply safe_dot4; [vside|]. apply andb_true_iff in Ed as [_ Ed%Z.eqb_eq].
  rewrite Ed in Hix |- *. exact Hix.
Qed.

Lemma safe_three_diff insn : Safe (simd_three_diff insn).
Proof.
  unfold simd_three_diff. cbv zeta. size_field insn Hsz. repeat vstep.
  eapply safe_bind; [apply safe_tls|]. intros. by apply safe_ret.
Qed.
Lemma safe_across insn : Safe (simd_across insn).
Proof.
  unfold simd_across. cbv zeta. vstep; [fp_arm insn|]. size_field insn Hsz.
  pose proof (n_lanes _ (BITb insn 30) Hsz). vstep. vstep.
  - eapply safe_bind; [apply (safe_for_up _ (fun _ => True)); [done|]; intros; repeat vstep|].
    intros; repeat vstep.
  - vstep. eapply safe_bind; [apply (safe_for_up _ (fun _ => True)); [done|]|intros; repeat vstep].
    intros. vstep. destruct (across_step _ _ _ _); repeat vstep.
Qed.
(** The byte positions of REV: group [g], element [e] of the group, byte [k]. *)
Lemma rev_pos total cb eb g e k : 0 < eb -> 0 < cb -> 0 <= g < total / cb -> 0 <= e < cb / eb ->
  0 <= k < eb -> 0 <= g * cb + e * eb + k < total.
Proof.
  intros. assert (e * eb + eb <= cb) by (Z.to_euclidean_division_equations; nia).
  assert (g * cb + cb <= total) by (Z.to_euclidean_division_equations; nia). nia.
Qed.
Lemma safe_rev_bytes v total cb eb : 0 < eb -> 0 < cb -> total <= 16 ->
  SafeQ (rev_bytes v total cb eb) (fits 128).
Proof.
  intros He Hc Ht. unfold rev_bytes. assert (H16 : 128 / 8 = 16) by done.
  apply safe_for_up; [by apply fits_0|]. intros g r Hg Hr. cbv zeta.
  apply safe_for_up; [done|]. intros e r' Hj Hr'. apply safe_for_up; [done|]. intros k r'' Hk Hr''.
  pose proof (rev_pos total cb eb g e k). pose proof (rev_pos total cb eb g (cb / eb - 1 - e) k).
  repeat vstep.
Qed.
Lemma safe_two_misc insn : Safe (simd_two_misc insn).
Proof.
  unfold simd_two_misc. cbv zeta. vstep; [fp_arm insn|]. size_field insn Hsz.
  pose proof (n_lanes _ (BITb insn 30) Hsz). pose proof (n_pairs _ (BITb insn 30) Hsz).
  pose proof (half_twice (Z.shiftr (if BITb insn 30 then 16 else 8) (BITS insn 23 22)) ltac:(lia)).
  assert (H16 : 128 / 8 = 16) by done.
  assert (He : 0 < Z.shiftl 8 (BITS insn 23 22) / 8) by by sizes Hsz.
  repeat vstep.
  eapply safe_bind; [apply safe_rev_bytes; [done|by repeat case_match|by case_match]|].
  intros; repeat vstep.
Qed.

Lemma shift_size_range immh : 0 <= shift_size immh < 4.
Proof. unfold shift_size. repeat case_match; lia. Qed.
Lemma safe_shift_imm insn : Safe (simd_shift_imm insn).
Proof.
  unfold simd_shift_imm. cbv zeta. pose proof (shift_size_range (BITS insn 22 19)) as Hsz.
  pose proof (n_lanes _ (BITb insn 30) Hsz). pose proof (n_dest _ Hsz) as (? & ? & ?).
  generalize dependent (shift_size (BITS insn 22 19)). intros size; intros.
  vstep; [vstep; [apply safe_undefined|fp_arm insn]|]. repeat vstep.
Qed.
Lemma safe_tbl_table n r Rn : SafeQ (tbl_table n r Rn) (fun ts => length ts = n).
Proof.
  revert r. induction n as [|n IH]; intros r; cbn [tbl_table]; [by apply safe_ret|].
  eapply safe_bind; [apply safe_reg_v|].
  - change 31 with (Z.ones 5). rewrite Z.land_ones by lia. apply (Z.mod_pos_bound _ 32). lia.
  - intros t _. eapply safe_bind; [apply IH|]. intros ts <-. by apply safe_ret.
Qed.
Lemma safe_tbl_byte ts ix : 0 <= ix < 16 * Z.of_nat (length ts) -> Safe (tbl_byte ts ix).
Proof.
  intros Hix. unfold tbl_byte.
  assert (0 <= ix / 16 < Z.of_nat (length ts)) by (Z.to_euclidean_division_equations; lia).
  destruct (lookup_lt_is_Some_2 ts (Z.to_nat (ix / 16))) as [t ->]; [lia|].
  pose proof (Z.mod_pos_bound ix 16). assert (128 / 8 = 16) by done. repeat vstep.
Qed.
Lemma safe_tbl insn : Safe (simd_tbl insn).
Proof.
  unfold simd_tbl. cbv zeta. assert (128 / 8 = 16) by done.
  assert (Hn : 0 <= BITS insn 14 13 < 4) by (apply BITS_range; [lia|reflexivity]).
  vstep. vstep. eapply safe_bind; [apply safe_tbl_table|]. intros ts Hts. cbv beta in Hts. vstep; [by apply fits_0| |vstep].
  vstep. safe_step; [|repeat vstep].
  match goal with Hf : fits 8 _ |- _ => destruct Hf as [? _] end. apply safe_tbl_byte. lia.
Qed.
Lemma safe_permute insn : Safe (simd_permute insn).
Proof.
  unfold simd_permute. cbv zeta. size_field insn Hsz. pose proof (n_lanes _ (BITb insn 30) Hsz) as Hn.
  set (lanes := Z.shiftr (if BITb insn 30 then 16 else 8) (BITS insn 23 22)) in *.
  pose proof (half_twice lanes ltac:(lia)). pose proof (b2z_range (BITS insn 14 12 =? 5)).
  pose proof (b2z_range (BITS insn 14 12 =? 6)).
  assert (Heven : lanes = 1 \/ 2 * (lanes / 2) = lanes).
  { subst lanes. clear -Hsz. sizes Hsz; destruct (BITb insn 30); vm_compute; tauto. }
  vstep. vstep. vstep; [vstep; [by apply fits_0| |repeat vstep]|vstep; [|vstep; [|repeat vstep]]].
  - safe_step; [repeat vstep|]. apply Z.ltb_ge in E. vstep.
  - repeat vstep.
  - destruct (BITS insn 14 12 =? 7); repeat vstep.
Qed.
Lemma safe_ext insn : Safe (simd_ext insn).
Proof.
  unfold simd_ext. cbv zeta. assert (128 / 8 = 16) by done.
  assert (0 <= BITS insn 14 11 < 16) by (apply BITS_range; [lia|reflexivity]).
  vstep. vstep. vstep; [by apply fits_0| |repeat vstep].
  safe_step; [apply Z.ltb_lt in E|apply Z.ltb_ge in E]; destruct (BITb insn 30); repeat vstep.
Qed.

(** ** Scalar forms *)
Lemma safe_scalar_shift insn : Safe (simd_scalar_shift insn).
Proof.
  unfold simd_scalar_shift. cbv zeta. pose proof (shift_size_range (BITS insn 22 19)) as Hsz.
  pose proof (n_dest _ Hsz) as (? & ? & ?). assert (0 < 128 / ebits (shift_size (BITS insn 22 19) + 1)).
  { clear -Hsz. by sizes Hsz. }
  generalize dependent (shift_size (BITS insn 22 19)). intros size; intros.
  vstep; [repeat vstep|]. vstep; [vstep; [apply safe_undefined|fp_arm insn]|]. repeat vstep.
Qed.
Lemma safe_scalar_three_same insn : Safe (simd_scalar_three_same insn).
Proof. unfold simd_scalar_three_same. cbv zeta. vstep; [fp_arm insn|]. size_field insn Hsz. repeat vstep. Qed.
Lemma safe_scalar_pairwise insn : Safe (simd_scalar_pairwise insn).
Proof. unfold simd_scalar_pairwise. cbv zeta. vstep; [repeat vstep|]. vstep; [fp_arm insn|vstep]. Qed.
Lemma n_lanes1 size : 0 <= size < 4 -> 0 < 128 / ebits (size + 1).
Proof. intros Hs. by sizes Hs. Qed.
Lemma safe_scalar_three_diff insn : Safe (simd_scalar_three_diff insn).
Proof.
  unfold simd_scalar_three_diff. cbv zeta. size_field insn Hsz. pose proof (n_lanes1 _ Hsz). repeat vstep.
Qed.
Lemma safe_scalar_indexed insn : Safe (simd_scalar_indexed insn).
Proof.
  unfold simd_scalar_indexed. cbv zeta. destruct (by_elem_index insn) as [HiH HiS].
  vstep; [vstep; [fp_arm insn|vstep]|]. safe_step; [apply safe_undefined|].
  size_field insn Hsz. pose proof (n_lanes1 _ Hsz).
  assert (Hix : 0 <= (if BITS insn 23 22 =? 1
    then Z.lor (Z.lor (Z.shiftl (BIT insn 11) 2) (Z.shiftl (BIT insn 21) 1)) (BIT insn 20)
    else Z.lor (Z.shiftl (BIT insn 11) 1) (BIT insn 21)) < 128 / ebits (BITS insn 23 22)).
  { rewrite negb_false_iff, orb_true_iff, !Z.eqb_eq in E. destruct E as [-> | ->]; done. }
  clear E HiH HiS. reg_choice. repeat vstep.
Qed.
Lemma safe_three_same_extra insn : Safe (simd_three_same_extra insn).
Proof.
  unfold simd_three_same_extra. cbv zeta. size_field insn Hsz.
  pose proof (n_lanes' _ (BIT insn 30 =? 0) Hsz). assert (128 / 32 = 4) by done.
  vstep; [repeat vstep|]. vstep; [|repeat vstep; first [apply fcmla_ok|apply fcadd_ok]].
  vstep; [vstep|]. vstep. vstep. vstep. eapply safe_bind; [|intros; repeat vstep].
  apply safe_for_up; [done|]. intros i r Hi Hr. vstep.
  eapply safe_bind; [apply safe_dot4; vside|]. intros. vstep.
Qed.
Lemma safe_scalar_three_same_extra insn : Safe (simd_scalar_three_same_extra insn).
Proof. unfold simd_scalar_three_same_extra. cbv zeta. size_field insn Hsz. repeat vstep. Qed.
Lemma safe_scalar_cvt insn : Safe (simd_scalar_cvt insn).
Proof.
  unfold simd_scalar_cvt. cbv zeta. vstep; [fp_arm insn|]. size_field insn Hsz.
  pose proof (n_lanes1 _ Hsz). repeat vstep.
Qed.

(** ** Crypto *)
Lemma fits_v_of_s a b c d : fits 128 (v_of_s a b c d).
Proof.
  assert (lane_w 32) by (unfold lane_w; tauto).
  unfold v_of_s. repeat apply fits_vset; done.
Qed.
Hint Resolve fits_v_of_s fits_v128_mk : word.
Lemma fits_sha256_hash x y w p : fits 128 (sha256_hash x y w p).
Proof. unfold sha256_hash. cbn [fold_left]. destruct p; apply fits_v_of_s. Qed.
Lemma safe_crypto_sha3 insn : Safe (crypto_sha3 insn).
Proof.
  unfold crypto_sha3. cbv zeta. vstep. vstep. vstep.
  assert (forall v, fits 128 v -> Safe (set_v (BITS insn 4 0) v)) as Hset
    by (intros; apply safe_set_v; [reg_range|done]).
  repeat match goal with |- safe _ _ (match ?x with _ => _ end) _ => destruct x end;
    first [apply safe_undefined | apply Hset];
    first [apply fits_sha256_hash | unfold sha256_su1; apply fits_v_of_s | apply fits_v128_mk | apply fits_v_of_s].
Qed.
Lemma safe_crypto_sha2 insn : Safe (crypto_sha2 insn).
Proof.
  unfold crypto_sha2. cbv zeta. vstep. vstep.
  assert (forall v, fits 128 v -> Safe (set_v (BITS insn 4 0) v)) as Hset
    by (intros; apply safe_set_v; [reg_range|done]).
  repeat match goal with |- safe _ _ (match ?x with _ => _ end) _ => destruct x end;
    first [apply safe_undefined | apply Hset];
    first [apply fits_v_of_s | unfold sha256_su0; apply fits_v_of_s
          | apply fits_vset; [unfold lane_w; tauto|done|by apply fits_0]].
Qed.
Lemma safe_table_at (P : Z -> Prop) t i : Forall P t -> 0 <= i < Z.of_nat (length t) ->
  SafeQ (table_at (Mem:=Mem) t i) P.
Proof.
  intros Hf Hi. unfold table_at. destruct (t !! Z.to_nat i) as [x|] eqn:E.
  - apply safe_ret. by eapply (Forall_lookup_1 _ t).
  - apply lookup_ge_None in E. lia.
Qed.
Lemma safe_aes_sub sbox shift v : length sbox = 256%nat -> length shift = 16%nat ->
  Forall (fun j => 0 <= j < 16) shift -> SafeQ (aes_sub (Mem:=Mem) sbox shift v) (fits 128).
Proof.
  intros Hs Hsh Hf. unfold aes_sub. assert (H16 : 128 / 8 = 16) by done.
  apply safe_fill; [unfold lane_w; tauto|lia|lia|by apply fits_0|]. intros i Hi.
  eapply safe_bind; [apply (safe_table_at _ _ _ Hf); lia|]. intros j Hj. cbv beta in Hj.
  vstep. apply safe_table_at; [by apply Forall_true|]. rewrite Hs. assumption.
Qed.
Lemma safe_mixcols v inv : SafeQ (aes_mixcols (Mem:=Mem) v inv) (fits 128).
Proof.
  unfold aes_mixcols, aes_mixcol_at. assert (H16 : 128 / 8 = 16) by done.
  apply safe_for_up; [by apply fits_0|]. intros col r Hc Hr. repeat vstep.
  destruct (aes_mixcol _ _ _ _ _) as [[[]]]. 
  do 3 (eapply safe_bind; [apply safe_set_el; [unfold lane_w; tauto|lia|done]|intros ? ?; cbv beta]). vstep.
Qed.
Lemma safe_crypto_aes insn : Safe (crypto_aes insn).
Proof.
  unfold crypto_aes. cbv zeta. vstep. vstep. assert (H16 : 128 / 8 = 16) by done.
  assert (Hx : forall sb sh, length sb = 256%nat -> length sh = 16%nat -> Forall (fun j => 0 <= j < 16) sh ->
    Safe (bind (fill 8 16 0 a (fun i => bind (el 8 a0 i) (fun x => bind (el 8 a i) (fun y => ret (u8 (Z.lxor x y))))))
      (fun v => bind (aes_sub sb sh v) (fun r => set_v (BITS insn 4 0) r)))).
  { intros. vstep; [done|repeat vstep|]. eapply safe_bind; [by apply safe_aes_sub|]. intros; repeat vstep. }
  assert (Hm : forall b, Safe (bind (aes_mixcols a b) (fun r => set_v (BITS insn 4 0) r))).
  { intros. eapply safe_bind; [apply safe_mixcols|]. intros; repeat vstep. }
  repeat match goal with |- safe _ _ (match ?x with _ => _ end) _ => destruct x end;
    lazymatch goal with
    | |- safe _ _ undefined _ => apply safe_undefined
    | |- safe _ _ (bind (aes_mixcols _ _) _) _ => apply Hm
    | |- _ => apply Hx; [reflexivity..|by repeat constructor]
    end.
Qed.
Lemma safe_crypto_pmull insn : Safe (crypto_pmull insn).
Proof.
  unfold crypto_pmull. cbv zeta. assert (128 / 8 = 16 /\ 128 / 16 = 8 /\ 128 / 64 = 2) as (? & ? & ?) by done.
  pose proof (b2z_range (BITb insn 30)). vstep. vstep. vstep; [|repeat vstep].
  vstep. vstep. destruct (pmull64 _ _). repeat vstep.
Qed.
Lemma safe_sha3_512 insn : Safe (crypto_sha3_512 insn).
Proof.
  unfold crypto_sha3_512. cbv zeta. vstep. vstep.
  assert (forall a b, Safe (set_v (BITS insn 4 0) (v_mk a b))) as Hset
    by (intros; apply safe_set_v; [reg_range|apply fits_v128_mk]).
  vstep; [vstep|vstep; [apply Hset|vstep; [vstep|vstep; [vstep; apply Hset|apply safe_undefined]]]];
    repeat match goal with |- safe _ _ (match ?x with _ => _ end) _ => destruct x end;
    first [apply safe_undefined | apply Hset].
Qed.

(** ** The dispatcher and the flags *)
Lemma safe_fpexc_or f : Safe (fpexc_or (Mem:=Mem) f).
Proof. apply safe_tls. Qed.
Lemma safe_fold_host : Safe fold_host_fpexc.
Proof.
  unfold fold_host_fpexc. eapply safe_bind; [apply fe_test_ok|]. intros e _.
  assert (forall b f (k : M (St Mem) unit), Safe k -> Safe (bind (if b : bool then fpexc_or f else ret tt) (fun _ : unit => k))) as Hif.
  { intros b f k Hk. apply (safe_bind _ _ _ _ (fun _ => True)); [|by intros].
    destruct b; [apply safe_fpexc_or|by apply safe_ret]. }
  vstep; [by apply safe_ret|]. repeat apply Hif. apply fe_clear_ok.
Qed.
Lemma safe_fp_sync : Safe fp_sync.
Proof.
  unfold fp_sync. eapply safe_bind; [apply safe_fold_host|]. intros _ _.
  eapply safe_bind; [by apply (safe_gets _ _ _ (fun _ => True))|]. intros pend _.
  eapply safe_bind; [by apply (safe_getc _ _ (fun _ => True))|]. intros fpsr _.
  eapply safe_bind; [|intros; apply safe_tls]. apply safe_putc. intros c Hc.
  apply wf_with_fpsr; [apply fits_u32|done].
Qed.
Lemma safe_fpsimd insn : Safe (fpsimd insn).
Proof.
  unfold fpsimd. cbv zeta. eapply safe_bind; [by apply (safe_getc _ _ (fun _ => True))|]. intros fpcr _.
  eapply safe_bind; [apply safe_tls|]. intros _ _. eapply safe_bind; [apply host_sync_ok|]. intros _ _.
  repeat (match goal with |- safe _ _ (if ?b then _ else _) _ => destruct b end;
    [first [fp_arm insn | auto using safe_across, safe_two_misc, safe_scalar_cvt, safe_crypto_aes,
       safe_crypto_sha3, safe_crypto_sha2, safe_crypto_pmull, safe_sha3_512, safe_scalar_three_same,
       safe_scalar_three_diff, safe_scalar_pairwise, safe_scalar_three_same_extra, safe_scalar_indexed,
       safe_three_diff, safe_tbl, safe_ext, safe_permute, safe_three_same_extra, safe_three_same,
       safe_modified_imm, safe_shift_imm, safe_scalar_shift, safe_copy, safe_scalar_copy, safe_indexed]|]).
  apply safe_undefined.
Qed.
End Handlers.
