(* ===== verification/Alu.v ===== *)
(** * Alu: the arithmetic helpers of core/decode.c

    Add with carry and its flags, the shifter, the extender, the logical
    immediate decoder with its memo table, and the table-driven CRC32. *)

From stdpp Require Import gmap.
From S2P Require Import Prelude Types Cpu.
Open Scope Z_scope.

(** [add_with_carry]: result and flag word. The source skips the flag
    arithmetic when the caller discards it; the result is the same. *)
Definition add_with_carry (x y cin : Z) (is64 : bool) : Z * Z :=
  if is64 then
    let t := u64 (x + y) in
    let res := u64 (t + cin) in
    let C := (t <? x) || (res <? t) in
    let V := negb (Z.shiftr (Z.land (not64 (Z.lxor x y)) (Z.lxor x res)) 63 =? 0) in
    let N := negb (Z.shiftr res 63 =? 0) in
    let Zf := res =? 0 in
    (res, mk_nzcv N Zf C V)
  else
    let xx := u32 x in let yy := u32 y in
    let u := u64 (xx + yy + cin) in
    let res := u32 u in
    let C := negb (Z.land (Z.shiftr u 32) 1 =? 0) in
    let s := s32 xx + s32 yy + cin in
    let V := negb (s32 res =? s) in
    let N := negb (Z.shiftr res 31 =? 0) in
    let Zf := res =? 0 in
    (res, mk_nzcv N Zf C V).

(** [set_logical_flags]: the flag word it stores in [nzcv]. *)
Definition logical_flags (res : Z) (is64 : bool) : Z :=
  if is64 then Z.lor (if negb (Z.shiftr res 63 =? 0) then PS_N else 0)
                     (if res =? 0 then PS_Z else 0)
  else let r := u32 res in
       Z.lor (if negb (Z.shiftr r 31 =? 0) then PS_N else 0)
             (if r =? 0 then PS_Z else 0).

(** [shift_reg]. *)
Definition shift_reg (v type amount : Z) (is64 : bool) : Z :=
  let w := if is64 then 64 else 32 in
  let amount := Z.land amount (w - 1) in
  let v := if is64 then v else u32 v in
  match type with
  | 0 => u64 (Z.shiftl v amount)
  | 1 => if is64 then Z.shiftr v amount else Z.shiftr (u32 v) amount
  | 2 => if is64 then u64 (Z.shiftr (s64 v) amount)
         else u32 (Z.shiftr (s32 (u32 v)) amount)
  | _ => if is64 then ror64 v amount else ror32 (u32 v) amount
  end.

(** [extend_reg]. *)
Definition extend_reg (v option shift : Z) : Z :=
  let out := match Z.land option 3 with
             | 0 => u8 v | 1 => u16 v | 2 => u32 v | _ => v end in
  let out := if has option 4 then
               let bits := match Z.land option 3 with
                           | 0 => 8 | 1 => 16 | 2 => 32 | _ => 64 end in
               sign_extend out bits
             else out in
  u64 (Z.shiftl out shift).

(** [ror_within]. *)
Definition ror_within (v r width : Z) : Z :=
  if width =? 64 then ror64 v r
  else
    let v := u32 v in let r := r mod width in
    if r =? 0 then v
    else Z.land (Z.lor (Z.shiftr v r) (u64 (Z.shiftl v (width - r)))) 0xffffffff.

(** ** Logical immediates *)

(** The replication loop [for (i = 0; i < 64; i += esize)], from [i] up. *)
Fixpoint replicate_elem (fuel : nat) (esize w i acc : Z) : Z :=
  match fuel with
  | O => acc
  | S f => if i <? 64
           then replicate_elem f esize w (i + esize) (Z.lor acc (u64 (Z.shiftl w i)))
           else acc
  end.

(** [decode_bitmasks_slow]: (wmask, tmask), or [None] for its [false]. *)
Definition decode_bitmasks_slow (immN imms immr : Z) : option (Z * Z) :=
  let nimms := Z.lor (Z.shiftl (Z.land immN 1) 6) (Z.land (not32 imms) 0x3f) in
  if nimms =? 0 then None else
  let len := Z.log2 nimms in                 (* 31 - clz(nimms) *)
  if len <? 1 then None else
  let levels := Z.shiftl 1 len - 1 in
  let S := Z.land imms levels in
  let R := Z.land immr levels in
  let diff := Z.land (u32 (S - R)) levels in
  let esize := Z.shiftl 1 len in
  let emask := if esize =? 64 then not64 0 else Z.shiftl 1 esize - 1 in
  let welem := Z.land (ones (S + 1)) emask in
  let telem := Z.land (ones (diff + 1)) emask in
  let r := R mod esize in
  let w := if r =? 0 then welem
           else Z.land (Z.lor (Z.shiftr welem r) (u64 (Z.shiftl welem (esize - r)))) emask in
  Some (replicate_elem 32 esize w 0 0, replicate_elem 32 esize telem 0 0).

(** The memo table in front of it: an entry is the masks and a state, 0
    unfilled, 1 accepted, 2 refused. The table starts zeroed. *)
Record MemoEnt := mkMemo { me_w : Z; me_t : Z; me_state : Z }.
Abbreviation Memo := (gmap Z MemoEnt).
Definition memo_zero : MemoEnt := mkMemo 0 0 0.
Definition memo_at (memo : Memo) (key : Z) : MemoEnt := default memo_zero (memo !! key).

Definition memo_key (immN imms immr : Z) : Z :=
  Z.lor (Z.lor (Z.shiftl (Z.land immN 1) 12) (Z.shiftl (Z.land immr 0x3f) 6))
        (Z.land imms 0x3f).

(** The three stores that fill an entry, in the order of the source. *)
Definition memo_fill (immN imms immr : Z) : list (MemoEnt -> MemoEnt) :=
  match decode_bitmasks_slow immN imms immr with
  | Some (w, t) => [ fun e => mkMemo (me_w e) (me_t e) 1;
                     fun e => mkMemo w (me_t e) (me_state e);
                     fun e => mkMemo (me_w e) t (me_state e) ]
  | None => [ fun e => mkMemo (me_w e) (me_t e) 2;
              fun e => mkMemo 0 (me_t e) (me_state e);
              fun e => mkMemo (me_w e) 0 (me_state e) ]
  end.
(** The answer from a filled entry. *)
Definition memo_answer (e : MemoEnt) (immN : Z) (is64 : bool) : option (Z * Z) :=
  if me_state e =? 2 then None
  else if negb is64 && negb (immN =? 0) then None
  else if is64 then Some (me_w e, me_t e) else Some (u32 (me_w e), u32 (me_t e)).

(** [decode_bitmasks] with its table. *)
Definition decode_bitmasks_memo (memo : Memo) (immN imms immr : Z) (is64 : bool) :
    Memo * option (Z * Z) :=
  let key := memo_key immN imms immr in
  let memo := if me_state (memo_at memo key) =? 0
              then <[key := fold_left (fun e st => st e) (memo_fill immN imms immr)
                              (memo_at memo key)]> memo
              else memo in
  (memo, memo_answer (memo_at memo key) immN is64).

(** What [decode_bitmasks] computes whatever its table holds
    ([decode_bitmasks_memo_spec]); the instruction handlers use this. *)
Definition decode_bitmasks (immN imms immr : Z) (is64 : bool) : option (Z * Z) :=
  match decode_bitmasks_slow immN imms immr with
  | Some (w, t) =>
      if negb is64 && negb (immN =? 0) then None
      else if is64 then Some (w, t) else Some (u32 w, u32 t)
  | None => None
  end.

(** ** CRC32 *)

(** One step of the bit loop of [crc32_tab_init]. *)
Definition crc_bit (poly c : Z) : Z :=
  Z.lxor (Z.shiftr c 1) (Z.land poly (u32 (- Z.land c 1))).
Definition crc_byte (poly c : Z) : Z := Nat.iter 8 (crc_bit poly) c.

(** [crc32_tab_init]: row 0, then each row from the one before. *)
Definition crc32_row0 (poly : Z) : list Z :=
  map (fun i => crc_byte poly (Z.of_nat i)) (seq 0 256).
Definition tab_at (t : list Z) (i : Z) : Z := default 0 (t !! Z.to_nat i).
Definition crc32_next_row (row0 prev : list Z) : list Z :=
  map (fun e => Z.lxor (Z.shiftr e 8) (tab_at row0 (Z.land e 0xff))) prev.
Definition crc32_tab_init (poly : Z) : list (list Z) :=
  let t0 := crc32_row0 poly in
  let t1 := crc32_next_row t0 t0 in let t2 := crc32_next_row t0 t1 in
  let t3 := crc32_next_row t0 t2 in let t4 := crc32_next_row t0 t3 in
  let t5 := crc32_next_row t0 t4 in let t6 := crc32_next_row t0 t5 in
  let t7 := crc32_next_row t0 t6 in
  [t0; t1; t2; t3; t4; t5; t6; t7].

(** The byte loop of [crc32_step], from byte [i]. *)
Fixpoint crc32_bytes (t0 : list Z) (n : nat) (i acc data : Z) : Z :=
  match n with
  | O => acc
  | S k =>
      let idx := Z.land (Z.lxor acc (u32 (Z.shiftr data (8 * i)))) 0xff in
      crc32_bytes t0 k (i + 1) (Z.lxor (Z.shiftr acc 8) (tab_at t0 idx)) data
  end.

(** [crc32_step] on the tables of [poly] (built on first use). *)
Definition crc32_step (acc data bytes poly : Z) : Z :=
  let tabs := crc32_tab_init poly in
  let t := fun j => default [] (tabs !! (j : nat)) in
  if bytes =? 8 then
    let acc := Z.lxor acc (u32 data) in
    let hi := u32 (Z.shiftr data 32) in
    let T := fun j i => tab_at (t j) i in
    Z.lxor (Z.lxor (Z.lxor (Z.lxor (Z.lxor (Z.lxor (Z.lxor
      (T 7%nat (Z.land acc 0xff)) (T 6%nat (Z.land (Z.shiftr acc 8) 0xff)))
      (T 5%nat (Z.land (Z.shiftr acc 16) 0xff))) (T 4%nat (Z.shiftr acc 24)))
      (T 3%nat (Z.land hi 0xff))) (T 2%nat (Z.land (Z.shiftr hi 8) 0xff)))
      (T 1%nat (Z.land (Z.shiftr hi 16) 0xff))) (T 0%nat (Z.shiftr hi 24))
  else crc32_bytes (t 0%nat) (Z.to_nat bytes) 0 acc data.
