(* ===== verification/AluSpec.v ===== *)
(** * AluSpec: what the arithmetic helpers compute

    The architecture's AddWithCarry and the meaning of the condition codes
    after a compare. *)

From S2P Require Import Prelude Types Cpu CpuWf Alu.

(** ** Top bits *)
Lemma top_bit w z : 0 < w -> fits w z -> Z.testbit z (w - 1) = (2 ^ (w - 1) <=? z).
Proof.
  intros Hw [H0 H1]. assert (2 ^ w = 2 * 2 ^ (w - 1)) as E.
  { rewrite <- Z.pow_succ_r by lia. f_equal. lia. }
  rewrite Z.testbit_eqb by lia. assert (0 < 2 ^ (w - 1)) by (apply Z.pow_pos_nonneg; lia).
  destruct (Z.leb_spec (2 ^ (w - 1)) z).
  - replace (z / 2 ^ (w - 1)) with 1; [done|]. apply Z.div_unique with (z - 2 ^ (w - 1)); lia.
  - by rewrite Z.div_small by lia.
Qed.
Lemma shiftr_top w z : 0 < w -> fits w z ->
  negb (Z.shiftr z (w - 1) =? 0) = Z.testbit z (w - 1).
Proof.
  intros Hw Hz. rewrite top_bit by done. destruct Hz as [H0 H1].
  assert (2 ^ w = 2 * 2 ^ (w - 1)) as E.
  { rewrite <- Z.pow_succ_r by lia. f_equal. lia. }
  assert (0 < 2 ^ (w - 1)) by (apply Z.pow_pos_nonneg; lia).
  rewrite Z.shiftr_div_pow2 by lia. destruct (Z.leb_spec (2 ^ (w - 1)) z).
  - replace (z / 2 ^ (w - 1)) with 1; [done|]. apply Z.div_unique with (z - 2 ^ (w - 1)); lia.
  - by rewrite Z.div_small by lia.
Qed.
Lemma signed_neg w z : 0 < w -> fits w z -> (signed w z <? 0) = (2 ^ (w - 1) <=? z).
Proof.
  intros Hw [H0 H1]. unfold signed. rewrite Z.mod_small by lia.
  assert (2 ^ w = 2 * 2 ^ (w - 1)) as E.
  { rewrite <- Z.pow_succ_r by lia. f_equal. lia. }
  destruct (Z.ltb_spec z (2 ^ (w - 1))); lia.
Qed.

(** ** AddWithCarry *)
Definition width (is64 : bool) : Z := if is64 then 64 else 32.

(** The architecture's AddWithCarry on the low [w] bits: the result, and NZCV
    from comparing it with the unsigned and the signed sum. *)
Definition AddWithCarry (w x y cin : Z) : Z * Z :=
  let usum := x mod 2 ^ w + y mod 2 ^ w + cin in
  let ssum := signed w x + signed w y + cin in
  let r := usum mod 2 ^ w in
  (r, mk_nzcv (signed w r <? 0) (r =? 0) (negb (r =? usum)) (negb (signed w r =? ssum))).

Lemma add_with_carry_64 x y cin : fits 64 x -> fits 64 y -> 0 <= cin <= 1 ->
  add_with_carry x y cin true = AddWithCarry 64 x y cin.
Proof.
  intros Hx Hy Hc. unfold add_with_carry, AddWithCarry.
  rewrite (Z.mod_small x), (Z.mod_small y) by done.
  assert (u64 (u64 (x + y) + cin) = (x + y + cin) mod 2 ^ 64) as -> by wsolve.
  pose proof (fits_u64 (x + y + cin)) as Hr. unfold u64 in Hr at 1.
  set (r := (x + y + cin) mod 2 ^ 64) in *. fold (u64 (x + y)).
  f_equal. f_equal.
  - rewrite (shiftr_top 64) by done. by rewrite signed_neg, top_bit by done.
  - unfold fits in *. unfold r. wsolve.
  - rewrite (shiftr_top 64) by (done || auto with word).
    change (64 - 1) with 63. rewrite Z.land_spec. unfold not64, u64.
    rewrite Z.mod_pow2_bits_low, Z.lnot_spec, !Z.lxor_spec by lia.
    change 63 with (64 - 1). rewrite !top_bit by done.
    unfold signed. rewrite (Z.mod_small x), (Z.mod_small y), (Z.mod_small r) by done.
    unfold fits in *.
    assert (r = x + y + cin \/ r = x + y + cin - 2 ^ 64) as Er by (unfold r; wsolve).
    change (64 - 1) with 63 in *.
    destruct (Z.leb_spec (2 ^ 63) x), (Z.leb_spec (2 ^ 63) y), (Z.leb_spec (2 ^ 63) r);
      simpl; repeat (case_match; try lia).
Qed.

Lemma add_with_carry_32 x y cin : 0 <= cin <= 1 ->
  add_with_carry x y cin false = AddWithCarry 32 x y cin.
Proof.
  intros Hc. unfold add_with_carry, AddWithCarry. fold (u32 x) (u32 y).
  pose proof (fits_u32 x) as Hx. pose proof (fits_u32 y) as Hy.
  assert (signed 32 x = s32 (u32 x)) as -> by (apply signed_cong; unfold u32; by rewrite Z.mod_mod).
  assert (signed 32 y = s32 (u32 y)) as -> by (apply signed_cong; unfold u32; by rewrite Z.mod_mod).
  set (a := u32 x) in *. set (b := u32 y) in *. unfold fits in Hx, Hy.
  rewrite (u64_small (a + b + cin)) by (unfold fits; lia).
  fold (u32 (a + b + cin)). pose proof (fits_u32 (a + b + cin)) as Hr.
  set (r := u32 (a + b + cin)) in *. f_equal. f_equal.
  - rewrite (shiftr_top 32) by done. by rewrite signed_neg, top_bit by done.
  - change (Z.land (Z.shiftr (a + b + cin) 32) 1) with (BIT (a + b + cin) 32).
    rewrite BIT_mod, Z.shiftr_div_pow2 by lia. unfold r. wsolve.
Qed.

Lemma add_with_carry_spec x y cin is64 : fits 64 x -> fits 64 y -> 0 <= cin <= 1 ->
  add_with_carry x y cin is64 = AddWithCarry (width is64) x y cin.
Proof. destruct is64; intros; [by apply add_with_carry_64|by apply add_with_carry_32]. Qed.

Lemma fits_awc_fst x y cin is64 : fits 64 (fst (add_with_carry x y cin is64)).
Proof.
  destruct is64; cbn -[Z.pow]; [apply fits_u64|].
  eapply fits_weaken; [apply fits_u32|lia].
Qed.
Lemma fits_awc_snd x y cin is64 : fits 32 (snd (add_with_carry x y cin is64)).
Proof. destruct is64; apply fits_mk_nzcv. Qed.

(** ** Compare, then test a condition *)

(** The signed difference of two [w]-bit values wraps at most once. *)
Lemma signed_sub w a b : 0 < w ->
  exists k, signed w (a - b) = signed w a - signed w b + k * 2 ^ w /\ -1 <= k <= 1.
Proof.
  intros Hw. pose proof (signed_range w a Hw). pose proof (signed_range w b Hw).
  pose proof (signed_range w (a - b) Hw).
  assert (2 ^ w = 2 * 2 ^ (w - 1)) as E.
  { rewrite <- Z.pow_succ_r by lia. f_equal. lia. }
  assert (0 < 2 ^ (w - 1)) by (apply Z.pow_pos_nonneg; lia).
  assert ((signed w (a - b)) mod 2 ^ w = (signed w a - signed w b) mod 2 ^ w) as Em.
  { rewrite signed_mod by lia. rewrite Zminus_mod, (Zminus_mod (signed w a)).
    by rewrite !signed_mod by lia. }
  exists ((signed w (a - b)) / 2 ^ w - (signed w a - signed w b) / 2 ^ w).
  pose proof (Z.div_mod (signed w (a - b)) (2 ^ w)).
  pose proof (Z.div_mod (signed w a - signed w b) (2 ^ w)).
  split; nia.
Qed.

(** The flags of [n - m] on the low [w] bits. *)
Lemma sub_flags w n m : 0 < w ->
  let a := n mod 2 ^ w in let b := m mod 2 ^ w in
  AddWithCarry w n (Z.lnot m) 1 =
  ((n - m) mod 2 ^ w,
   mk_nzcv (signed w (n - m) <? 0) (a =? b) (b <=? a)
           (negb (signed w (n - m) =? signed w n - signed w m))).
Proof.
  intros Hw a b. assert (0 < 2 ^ w) by (apply Z.pow_pos_nonneg; lia).
  pose proof (Z.mod_pos_bound n (2 ^ w)) as Ha. pose proof (Z.mod_pos_bound m (2 ^ w)) as Hb.
  assert (Z.lnot m mod 2 ^ w = 2 ^ w - 1 - b) as Eb.
  { unfold Z.lnot. symmetry. apply Z.mod_unique with (- (m / 2 ^ w) - 1); [lia|].
    pose proof (Z.div_mod m (2 ^ w)). unfold b. lia. }
  assert (signed w (Z.lnot m) = -1 - signed w m) as Es.
  { unfold signed. rewrite Eb. fold b.
    assert (2 ^ w = 2 * 2 ^ (w - 1)) by (rewrite <- Z.pow_succ_r by lia; f_equal; lia).
    destruct (Z.ltb_spec b (2 ^ (w - 1))), (Z.ltb_spec (2 ^ w - 1 - b) (2 ^ (w - 1))); lia. }
  unfold AddWithCarry. rewrite Eb, Es. fold a.
  replace (a + (2 ^ w - 1 - b) + 1) with (a - b + 1 * 2 ^ w) by lia.
  assert ((a - b + 1 * 2 ^ w) mod 2 ^ w = (n - m) mod 2 ^ w) as Er.
  { rewrite Z.mod_add by lia. unfold a, b. by rewrite <- Zminus_mod. }
  assert ((n - m) mod 2 ^ w = if b <=? a then a - b else a - b + 2 ^ w) as Ed.
  { rewrite Zminus_mod. fold a b. destruct (Z.leb_spec b a); [apply Z.mod_small; lia|].
    symmetry. apply Z.mod_unique with (-1); lia. }
  rewrite Er. f_equal.
  rewrite (signed_cong w ((n - m) mod 2 ^ w) (n - m)) by (apply Z.mod_mod; lia).
  f_equal; [| |f_equal; f_equal; lia].
  - rewrite Ed. destruct (Z.leb_spec b a); lia.
  - rewrite Ed. destruct (Z.leb_spec b a); lia.
Qed.

Lemma cond_holds_mk n z c v k : 0 <= k < 16 ->
  cond_holds (mk_nzcv n z c v) k =
  (let r := match Z.shiftr k 1 with
            | 0 => z | 1 => c | 2 => n | 3 => v | 4 => c && negb z
            | 5 => Bool.eqb n v | 6 => Bool.eqb n v && negb z | _ => true end in
   if negb (Z.land k 1 =? 0) && negb (k =? 0xf) then negb r else r).
Proof.
  intros. unfold cond_holds. by destruct (has_mk_nzcv n z c v) as (-> & -> & -> & ->).
Qed.

(** What each condition means after comparing [n] with [m] at width [w]. *)
Definition cond_meaning (w n m k : Z) : bool :=
  let a := n mod 2 ^ w in let b := m mod 2 ^ w in
  let sa := signed w n in let sb := signed w m in
  let d := signed w (n - m) in
  match k with
  | 0 => a =? b | 1 => negb (a =? b)                   (* EQ NE *)
  | 2 => b <=? a | 3 => a <? b                         (* HS LO *)
  | 4 => d <? 0 | 5 => 0 <=? d                         (* MI PL *)
  | 6 => negb (d =? sa - sb) | 7 => d =? sa - sb       (* VS VC *)
  | 8 => b <? a | 9 => a <=? b                         (* HI LS *)
  | 10 => sb <=? sa | 11 => sa <? sb                   (* GE LT *)
  | 12 => sb <? sa | 13 => sa <=? sb                   (* GT LE *)
  | _ => true                                          (* AL NV *)
  end.

Lemma signed_inj w a b : 0 < w -> signed w a = signed w b <-> a mod 2 ^ w = b mod 2 ^ w.
Proof.
  intros Hw. split; [|apply signed_cong]. intros E.
  rewrite <- (signed_mod w a), <- (signed_mod w b) by done. by rewrite E.
Qed.

Lemma cmp_conditions w n m k : 0 < w -> 0 <= k < 16 ->
  cond_holds (snd (AddWithCarry w n (Z.lnot m) 1)) k = cond_meaning w n m k.
Proof.
  intros Hw Hk. rewrite sub_flags by done. simpl. rewrite cond_holds_mk by done.
  pose proof (signed_sub w n m Hw) as (q & Hq & Hqr).
  pose proof (signed_range w n Hw). pose proof (signed_range w m Hw).
  pose proof (signed_range w (n - m) Hw). pose proof (signed_inj w n m Hw) as Hinj.
  assert (2 ^ w = 2 * 2 ^ (w - 1)) as E by (rewrite <- Z.pow_succ_r by lia; f_equal; lia).
  assert (0 < 2 ^ (w - 1)) by (apply Z.pow_pos_nonneg; lia).
  unfold cond_meaning. set (a := n mod 2 ^ w) in *. set (b := m mod 2 ^ w) in *.
  generalize dependent (signed w n). generalize dependent (signed w m).
  generalize dependent (signed w (n - m)). clearbody a b. intros d sa sb.
  assert (q = -1 \/ q = 0 \/ q = 1) as [-> | [-> | ->]] by lia; intros;
  (assert (k = 0 \/ k = 1 \/ k = 2 \/ k = 3 \/ k = 4 \/ k = 5 \/ k = 6 \/ k = 7 \/ k = 8 \/
    k = 9 \/ k = 10 \/ k = 11 \/ k = 12 \/ k = 13 \/ k = 14 \/ k = 15) as Ek by lia;
   repeat (destruct Ek as [-> |Ek]; [simpl; lia|]); subst k; simpl; lia).
Qed.

(** * The table-driven CRC32 is bit-serial polynomial division

    [crc32_step] (decode.c) uses a byte table and, for eight bytes,
    slicing-by-8 over eight tables. Both are the reflected bit-serial CRC. *)

(** The reference: one data bit at a time, least significant first. *)
Fixpoint crc_serial (n : nat) (poly acc data : Z) : Z :=
  match n with
  | O => acc
  | S k => crc_serial k poly (crc_bit poly (Z.lxor acc (Z.land data 1))) (Z.shiftr data 1)
  end.

Section Crc.
Context (poly : Z).
Notation step := (crc_bit poly).
Notation steps n := (Nat.iter n (crc_bit poly)).

Lemma land_1_cases a : Z.land a 1 = 0 \/ Z.land a 1 = 1.
Proof. pose proof (BIT_cases a 0) as H. unfold BIT in H. by rewrite Z.shiftr_0_r in H. Qed.

(** The step is linear over exclusive or. *)
Lemma crc_bit_lxor a b : step (Z.lxor a b) = Z.lxor (step a) (step b).
Proof.
  unfold crc_bit. rewrite Z.shiftr_lxor.
  assert (Z.land (Z.lxor a b) 1 = Z.lxor (Z.land a 1) (Z.land b 1)) as ->.
  { apply Z.bits_inj'. intros i Hi. rewrite Z.land_spec, !Z.lxor_spec, !Z.land_spec.
    by destruct (Z.testbit a i), (Z.testbit b i), (Z.testbit 1 i). }
  set (p := Z.land poly).
  assert (forall x y, Z.lxor (Z.lxor (Z.shiftr a 1) (Z.shiftr b 1)) (Z.lxor x y) =
    Z.lxor (Z.lxor (Z.shiftr a 1) x) (Z.lxor (Z.shiftr b 1) y)) as Hx.
  { intros. apply Z.bits_inj'. intros i Hi. rewrite !Z.lxor_spec.
    by destruct (Z.testbit (Z.shiftr a 1) i), (Z.testbit (Z.shiftr b 1) i),
      (Z.testbit x i), (Z.testbit y i). }
  rewrite <- Hx. f_equal.
  destruct (land_1_cases a) as [-> | ->], (land_1_cases b) as [-> | ->]; simpl;
    rewrite ?Z.lxor_nilpotent; unfold p; rewrite ?Z.land_0_r, ?Z.lxor_0_l, ?Z.lxor_0_r; done.
Qed.
Lemma steps_lxor n a b : steps n (Z.lxor a b) = Z.lxor (steps n a) (steps n b).
Proof. induction n as [|n IH]; simpl; [done|]. by rewrite IH, crc_bit_lxor. Qed.

(** A zero low bit is shifted out, so [n] zero bits are. *)
Lemma crc_bit_double a : step (2 * a) = a.
Proof.
  unfold crc_bit. assert (Z.land (2 * a) 1 = 0) as ->.
  { change 1 with (Z.ones 1). rewrite Z.land_ones by lia. change (2 ^ 1) with 2.
    rewrite Z.mul_comm. by apply Z.mod_mul. }
  change (u32 (-0)) with 0. rewrite Z.land_0_r, Z.lxor_0_r, Z.shiftr_div_pow2 by lia.
  change (2 ^ 1) with 2. rewrite Z.mul_comm. by apply Z.div_mul.
Qed.
Lemma steps_S n a : steps (S n) a = steps n (step a).
Proof. by rewrite Nat.iter_succ_r. Qed.
Lemma steps_add n k a : steps (n + k) a = steps n (steps k a).
Proof. apply Nat.iter_add. Qed.
Lemma steps_shiftl n a : steps n (Z.shiftl a (Z.of_nat n)) = a.
Proof.
  induction n as [|n IH]; [by rewrite Z.shiftl_0_r|]. rewrite steps_S.
  replace (Z.shiftl a (Z.of_nat (S n))) with (2 * Z.shiftl a (Z.of_nat n)).
  - by rewrite crc_bit_double.
  - rewrite !Z.shiftl_mul_pow2, Nat2Z.inj_succ, Z.pow_succ_r by lia. lia.
Qed.

(** A word is its low [n] bits and the rest. *)
Lemma split_low n v : 0 <= n -> v = Z.lxor (Z.land v (Z.ones n)) (Z.shiftl (Z.shiftr v n) n).
Proof.
  intros Hn. apply Z.bits_inj'. intros i Hi.
  rewrite Z.lxor_spec, Z.land_spec, Z.testbit_ones_nonneg, Z.shiftl_spec by lia.
  destruct (Z.ltb_spec i n).
  - by rewrite (Z.testbit_neg_r _ (i - n)), andb_true_r, xorb_false_r by lia.
  - rewrite andb_false_r, xorb_false_l, Z.shiftr_spec by lia. f_equal. lia.
Qed.

Lemma crc_serial_steps n acc data :
  crc_serial n poly acc data = steps n (Z.lxor acc (Z.land data (Z.ones (Z.of_nat n)))).
Proof.
  revert acc data. induction n as [|n IH]; intros acc data.
  - simpl. by rewrite Z.land_0_r, Z.lxor_0_r.
  - cbn [crc_serial]. rewrite IH, steps_S. f_equal.
    rewrite !crc_bit_lxor, Z.lxor_assoc. f_equal.
    set (d := Z.land data (Z.ones (Z.of_nat (S n)))).
    assert (Z.land data 1 = Z.land d (Z.ones 1)) as ->.
    { unfold d. rewrite <- Z.land_assoc. f_equal. change 1 with (Z.ones 1) at 1.
      apply Z.bits_inj'. intros i Hi. rewrite Z.land_spec, !Z.testbit_ones_nonneg by lia.
      destruct (Z.ltb_spec i 1), (Z.ltb_spec i (Z.of_nat (S n))); (done || lia). }
    assert (Z.land (Z.shiftr data 1) (Z.ones (Z.of_nat n)) = Z.shiftr d 1) as ->.
    { unfold d. rewrite Z.shiftr_land. f_equal. rewrite Nat2Z.inj_succ.
      apply Z.bits_inj'. intros i Hi. rewrite Z.shiftr_spec, !Z.testbit_ones_nonneg by lia. zbool. }
    rewrite (split_low 1 d) at 3 by lia. rewrite crc_bit_lxor. f_equal.
    rewrite Z.shiftl_mul_pow2 by lia. change (2 ^ 1) with 2.
    by rewrite Z.mul_comm, crc_bit_double.
Qed.

(** Eight steps of a word: its low byte's entry, and the rest shifted. *)
Lemma steps8 v : steps 8 v = Z.lxor (Z.shiftr v 8) (steps 8 (Z.land v 0xff)).
Proof.
  rewrite (split_low 8 v) at 1 by lia. rewrite steps_lxor, (steps_shiftl 8).
  apply Z.lxor_comm.
Qed.

(** ** The tables *)
Lemma row0_at i : 0 <= i < 256 -> tab_at (crc32_row0 poly) i = steps 8 i.
Proof.
  intros Hi. unfold tab_at, crc32_row0. rewrite list_lookup_fmap, lookup_seq_lt by lia.
  simpl. by rewrite Z2Nat.id by lia.
Qed.
Lemma land_ff v : 0 <= Z.land v 0xff < 256.
Proof. change 0xff with (Z.ones 8). rewrite Z.land_ones by lia. by apply Z.mod_pos_bound. Qed.

(** Row [k] of the tables holds [8 * (k + 1)] steps of its index. *)
Definition row_ok (k : nat) (row : list Z) : Prop :=
  length row = 256%nat /\ forall i, 0 <= i < 256 -> tab_at row i = steps (8 * (k + 1)) i.
Lemma row0_ok : row_ok 0 (crc32_row0 poly).
Proof. split; [done|]. apply row0_at. Qed.
Lemma next_row_ok k row : row_ok k row -> row_ok (S k) (crc32_next_row (crc32_row0 poly) row).
Proof.
  intros [Hl Hr]. split; [unfold crc32_next_row; by rewrite length_map|].
  intros i Hi. unfold tab_at, crc32_next_row. rewrite list_lookup_fmap.
  destruct (lookup_lt_is_Some_2 row (Z.to_nat i)) as [e He]; [lia|].
  rewrite He. cbn [fmap option_fmap option_map from_option default].
  rewrite row0_at by apply land_ff. rewrite <- steps8.
  assert (e = steps (8 * (k + 1)) i) as ->
    by (rewrite <- Hr by done; unfold tab_at; by rewrite He).
  replace (8 * (S k + 1))%nat with (8 + 8 * (k + 1))%nat by lia. by rewrite steps_add.
Qed.

Lemma tabs_ok (k : nat) : (k < 8)%nat -> row_ok k (default [] (crc32_tab_init poly !! k)).
Proof.
  intros Hk. unfold crc32_tab_init.
  pose proof row0_ok as H0. pose proof (next_row_ok _ _ H0) as H1.
  pose proof (next_row_ok _ _ H1) as H2. pose proof (next_row_ok _ _ H2) as H3.
  pose proof (next_row_ok _ _ H3) as H4. pose proof (next_row_ok _ _ H4) as H5.
  pose proof (next_row_ok _ _ H5) as H6. pose proof (next_row_ok _ _ H6) as H7.
  do 8 (destruct k as [|k]; [assumption|]). lia.
Qed.
Lemma tab_val k i : (k < 8)%nat -> 0 <= i < 256 ->
  tab_at (default [] (crc32_tab_init poly !! k)) i = steps (8 * (k + 1)) i.
Proof. intros Hk Hi. by apply (tabs_ok k Hk). Qed.

(** ** The byte loop and slicing-by-8 *)
Lemma crc32_bytes_steps n i acc data : 0 <= i ->
  crc32_bytes (crc32_row0 poly) n i acc data =
  steps (8 * n) (Z.lxor acc (Z.land (Z.shiftr data (8 * i)) (Z.ones (8 * Z.of_nat n)))).
Proof.
  revert i acc. induction n as [|n IH]; intros i acc Hi.
  - simpl. by rewrite Z.land_0_r, Z.lxor_0_r.
  - cbn [crc32_bytes]. rewrite row0_at by apply land_ff.
    set (d := Z.land (Z.shiftr data (8 * i)) (Z.ones (8 * Z.of_nat (S n)))).
    assert (Z.land (Z.lxor acc (u32 (Z.shiftr data (8 * i)))) 0xff =
            Z.land (Z.lxor acc d) 0xff) as ->.
    { change 0xff with (Z.ones 8). apply Z.bits_inj'. intros j Hj.
      rewrite !Z.land_spec, !Z.lxor_spec, Z.testbit_ones_nonneg by lia.
      destruct (Z.ltb_spec j 8); [|by rewrite !andb_false_r]. rewrite !andb_true_r. f_equal.
      unfold u32, d. rewrite Z.mod_pow2_bits_low, Z.land_spec, Z.testbit_ones_nonneg by lia.
      rewrite (proj2 (Z.ltb_lt _ _)) by lia. by rewrite andb_true_r. }
    assert (Z.lxor (Z.shiftr acc 8) (steps 8 (Z.land (Z.lxor acc d) 0xff)) =
            Z.lxor (steps 8 (Z.lxor acc d)) (Z.shiftr d 8)) as ->.
    { rewrite (steps8 (Z.lxor acc d)), Z.shiftr_lxor.
      rewrite (Z.lxor_assoc (Z.shiftr acc 8)), (Z.lxor_comm (Z.shiftr d 8)), Z.lxor_assoc.
      rewrite Z.lxor_assoc, Z.lxor_nilpotent. by rewrite Z.lxor_0_r. }
    assert (Z.land (Z.shiftr data (8 * (i + 1))) (Z.ones (8 * Z.of_nat n)) = Z.shiftr d 8) as Ed.
    { unfold d. rewrite Z.shiftr_land, Z.shiftr_shiftr by lia. f_equal; [f_equal; lia|].
      apply Z.bits_inj'. intros j Hj. rewrite Z.shiftr_spec, !Z.testbit_ones_nonneg by lia. zbool. }
    rewrite IH, Ed by lia. rewrite Z.lxor_assoc, Z.lxor_nilpotent, Z.lxor_0_r.
    replace (8 * S n)%nat with (8 * n + 8)%nat by lia. by rewrite steps_add.
Qed.

(** [k] bytes above, [8 * (8 - k)] steps left. *)
Lemma steps_byte j v : (j < 8)%nat ->
  steps 64 (Z.shiftl v (8 * Z.of_nat j)) = steps (8 * (7 - j + 1)) v.
Proof.
  intros Hj. replace 64%nat with (8 * (7 - j + 1) + 8 * j)%nat by lia.
  rewrite steps_add. replace (8 * Z.of_nat j) with (Z.of_nat (8 * j)) by lia.
  by rewrite steps_shiftl.
Qed.

(** A 64-bit word as the exclusive or of its bytes in place. *)
Lemma word_bytes v : fits 64 v ->
  let b j := Z.shiftl (Z.land (Z.shiftr v (8 * j)) 0xff) (8 * j) in
  v = Z.lxor (Z.lxor (Z.lxor (Z.lxor (Z.lxor (Z.lxor (Z.lxor (b 0) (b 1)) (b 2)) (b 3))
        (b 4)) (b 5)) (b 6)) (b 7).
Proof.
  intros Hv b. apply Z.bits_inj'. intros i Hi. rewrite !Z.lxor_spec.
  assert (Hb : forall j, 0 <= j -> Z.testbit (b j) i =
    if (8 * j <=? i) && (i <? 8 * j + 8) then Z.testbit v i else false).
  { intros j Hj. unfold b. rewrite Z.shiftl_spec by lia. change 0xff with (Z.ones 8).
    destruct (Z.leb_spec (8 * j) i); simpl; [|by rewrite Z.testbit_neg_r by lia].
    rewrite Z.land_spec, Z.testbit_ones_nonneg, Z.shiftr_spec by lia.
    replace (i - 8 * j + 8 * j) with i by lia.
    destruct (Z.ltb_spec (i - 8 * j) 8), (Z.ltb_spec i (8 * j + 8)); try lia;
      by rewrite ?andb_true_r, ?andb_false_r. }
  rewrite !Hb by lia. destruct (Z.lt_ge_cases i 64).
  - repeat match goal with |- context [?a && ?b] => destruct (a && b) eqn:? end;
      rewrite ?xorb_false_l, ?xorb_false_r; try done; exfalso; lia.
  - rewrite (fits_testbit 64 v i) by (done || lia).
    by repeat match goal with |- context [if ?c then _ else _] => destruct c end.
Qed.

Lemma crc32_slice8 acc data : fits 32 acc -> fits 64 data ->
  crc32_step acc data 8 poly = steps 64 (Z.lxor acc data).
Proof.
  intros Ha Hd. unfold crc32_step. cbn [Z.eqb Pos.eqb].
  set (v := Z.lxor acc data). assert (Hv : fits 64 v).
  { apply fits_lxor; [lia| |done]. eapply fits_weaken; [done|lia]. }
  assert (Hlo : forall j, 0 <= j < 4 ->
    Z.land (Z.shiftr (Z.lxor acc (u32 data)) (8 * j)) 0xff = Z.land (Z.shiftr v (8 * j)) 0xff).
  { intros j Hj. change 0xff with (Z.ones 8). apply Z.bits_inj'. intros i Hi.
    rewrite !Z.land_spec, !Z.testbit_ones_nonneg, !Z.shiftr_spec by lia.
    destruct (Z.ltb_spec i 8); [|by rewrite !andb_false_r]. unfold v, u32.
    by rewrite !Z.lxor_spec, Z.mod_pow2_bits_low by lia. }
  assert (Hhi : forall j, 0 <= j < 4 ->
    Z.land (Z.shiftr (u32 (Z.shiftr data 32)) (8 * j)) 0xff =
    Z.land (Z.shiftr v (8 * (j + 4))) 0xff).
  { intros j Hj. change 0xff with (Z.ones 8). apply Z.bits_inj'. intros i Hi.
    rewrite !Z.land_spec, !Z.testbit_ones_nonneg, !Z.shiftr_spec by lia.
    destruct (Z.ltb_spec i 8); [|by rewrite !andb_false_r]. unfold v, u32.
    rewrite Z.lxor_spec, (fits_testbit 32 acc), xorb_false_l by (done || lia).
    rewrite Z.mod_pow2_bits_low, Z.shiftr_spec by lia. f_equal. f_equal. lia. }
  assert (Htop : forall x, fits 32 x -> Z.shiftr x 24 = Z.land (Z.shiftr x (8 * 3)) 0xff).
  { intros x Hx. change 0xff with (Z.ones 8). rewrite Z.land_ones, Z.mod_small; [done| |lia].
    rewrite Z.shiftr_div_pow2 by lia. unfold fits in Hx.
    split; [apply Z.div_pos; lia|apply Z.div_lt_upper_bound; lia]. }
  rewrite (Htop (Z.lxor acc (u32 data))) by (apply fits_lxor; auto with word; lia).
  rewrite (Htop (u32 (Z.shiftr data 32))) by auto with word.
  pose proof (Hlo 0 ltac:(lia)) as E0. change (8 * 0) with 0 in E0.
  pose proof (Hlo 1 ltac:(lia)) as E1. change (8 * 1) with 8 in E1.
  pose proof (Hlo 2 ltac:(lia)) as E2. change (8 * 2) with 16 in E2.
  pose proof (Hhi 0 ltac:(lia)) as E4. change (8 * 0) with 0 in E4.
  pose proof (Hhi 1 ltac:(lia)) as E5. change (8 * 1) with 8 in E5.
  pose proof (Hhi 2 ltac:(lia)) as E6. change (8 * 2) with 16 in E6.
  rewrite Z.shiftr_0_r in E0 at 1. rewrite Z.shiftr_0_r in E4 at 1.
  rewrite E0, E1, E2, E4, E5, E6, (Hlo 3), (Hhi 3) by lia.
  rewrite !tab_val by (lia || apply land_ff).
  rewrite (word_bytes v Hv) at 9. rewrite !steps_lxor.
  pose proof (fun j w H => eq_sym (steps_byte j w H)) as Hs.
  rewrite (Hs 0%nat), (Hs 1%nat), (Hs 2%nat), (Hs 3%nat), (Hs 4%nat), (Hs 5%nat), (Hs 6%nat),
    (Hs 7%nat) by lia.
  done.
Qed.

Lemma crc32_step_serial acc data bytes : fits 32 acc -> fits 64 data ->
  In bytes [1; 2; 4; 8] ->
  crc32_step acc data bytes poly = crc_serial (Z.to_nat (8 * bytes)) poly acc data.
Proof.
  intros Ha Hd Hb. rewrite crc_serial_steps. destruct (Z.eq_dec bytes 8) as [-> |Hne].
  - rewrite crc32_slice8 by done. f_equal. f_equal. symmetry.
    rewrite Z.land_ones by (cbn; lia). by apply Z.mod_small.
  - unfold crc32_step. rewrite (proj2 (Z.eqb_neq _ _)) by done.
    change (default [] (crc32_tab_init poly !! 0%nat)) with (crc32_row0 poly).
    rewrite crc32_bytes_steps by lia. rewrite Z.mul_0_r, Z.shiftr_0_r.
    destruct Hb as [<- |[<- |[<- |[<- |[]]]]]; done.
Qed.

(** The result fits the 32-bit accumulator. *)
Lemma fits_crc_bit c : fits 32 poly -> fits 32 c -> fits 32 (step c).
Proof.
  intros. unfold crc_bit. apply fits_lxor; [lia|apply fits_shiftr; [lia..|done]|].
  apply fits_land; [lia|done|auto with word].
Qed.
Lemma fits_serial n acc data : fits 32 poly -> fits 32 acc -> fits 32 (crc_serial n poly acc data).
Proof.
  intros Hp. revert acc data. induction n as [|n IH]; intros acc data Ha; [done|].
  cbn [crc_serial]. apply IH, fits_crc_bit; [done|]. apply fits_lxor; [lia|done|].
  destruct (land_1_cases data) as [-> | ->]; unfold fits; cbn; lia.
Qed.
End Crc.

Lemma fits_crc32_step acc data bytes poly : fits 32 poly -> fits 32 acc -> fits 64 data ->
  In bytes [1; 2; 4; 8] -> fits 32 (crc32_step acc data bytes poly).
Proof. intros. rewrite crc32_step_serial by done. by apply fits_serial. Qed.
