(* ===== verification/DpExec.v ===== *)
(** * DpExec: the data-processing groups of core/decode.c

    [dp_immediate] and [dp_register], one definition per encoding class, with
    every guard that makes an encoding UNDEFINED. *)

From S2P Require Import Prelude Types Cpu Alu.

(** The value of SBFM/BFM/UBFM from its source, the old destination and the
    two masks. *)
Definition bfm_value (sf : bool) (opc immr imms src rd wmask tmask : Z) : Z :=
  let ror := ror_within src immr (if sf then 64 else 32) in
  let bot := if opc =? 1 then Z.lor (Z.land rd (not64 wmask)) (Z.land ror wmask)
             else Z.land ror wmask in
  let top := if opc =? 0 then
               if Z.land (Z.shiftr src imms) 1 =? 0 then 0 else not64 0
             else if opc =? 2 then 0
             else rd in
  Z.lor (Z.land top (not64 tmask)) (Z.land bot tmask).

Section Dp.
Context {Mem : Type}.
Local Open Scope exec_scope.

(** ** Data processing, immediate *)

(** ADR / ADRP. *)
Definition dp_pcrel (insn : Z) : M (St Mem) unit :=
  let Rd := BITS insn 4 0 in
  let immlo := BITS insn 30 29 in let immhi := BITS insn 23 5 in
  let imm := sign_extend (Z.lor (u64 (Z.shiftl immhi 2)) immlo) 21 in
  cur <- getc c_cur_insn_pc;
  if negb (BITb insn 31) then set_x Rd (u64 (cur + imm))
  else set_x Rd (u64 (Z.land cur (not64 0xfff) + u64 (Z.shiftl imm 12))).

(** ADD/SUB (immediate). *)
Definition dp_addsub_imm (insn : Z) : M (St Mem) unit :=
  let sf := BITb insn 31 in
  let Rd := BITS insn 4 0 in let Rn := BITS insn 9 5 in
  let op := BITb insn 30 in let S := BITb insn 29 in let sh := BITb insn 22 in
  let imm := BITS insn 21 10 in
  let imm := if sh then Z.shiftl imm 12 else imm in
  n <- reg_xsp Rn;
  let '(r, fl) := if op then add_with_carry n (not64 imm) 1 sf
                  else add_with_carry n imm 0 sf in
  if S then putc (with_nzcv fl) ;; set_x_sz Rd sf r
  else set_xsp Rd (if sf then r else u32 r).

(** AND/ORR/EOR/ANDS (immediate). *)
Definition dp_logical_imm (insn : Z) : M (St Mem) unit :=
  let sf := BITb insn 31 in
  let Rd := BITS insn 4 0 in let Rn := BITS insn 9 5 in
  let opc := BITS insn 30 29 in let N := BIT insn 22 in
  let immr := BITS insn 21 16 in let imms := BITS insn 15 10 in
  match decode_bitmasks N imms immr sf with
  | None => undefined
  | Some (wmask, _) =>
      n <- reg_x Rn;
      let r := match opc with
               | 0 => Z.land n wmask
               | 1 => Z.lor n wmask
               | 2 => Z.lxor n wmask
               | _ => Z.land n wmask
               end in
      let r := if sf then r else u32 r in
      if opc =? 3 then putc (with_nzcv (logical_flags r sf)) ;; set_x Rd r
      else set_xsp Rd r
  end.

(** MOVN/MOVZ/MOVK. *)
Definition dp_movewide (insn : Z) : M (St Mem) unit :=
  let sf := BITb insn 31 in
  let Rd := BITS insn 4 0 in
  let opc := BITS insn 30 29 in let hw := BITS insn 22 21 in
  let imm16 := BITS insn 20 5 in
  if negb sf && (2 <=? hw) then undefined else
  let shift := hw * 16 in
  let imm := u64 (Z.shiftl imm16 shift) in
  if opc =? 0 then set_x_sz Rd sf (not64 imm)
  else if opc =? 2 then set_x_sz Rd sf imm
  else if opc =? 3 then
    cur <- reg_x Rd;
    set_x_sz Rd sf (Z.lor (Z.land cur (not64 (u64 (Z.shiftl 0xffff shift)))) imm)
  else undefined.

(** SBFM/BFM/UBFM. *)
Definition dp_bitfield (insn : Z) : M (St Mem) unit :=
  let sf := BITb insn 31 in
  let Rd := BITS insn 4 0 in let Rn := BITS insn 9 5 in
  let opc := BITS insn 30 29 in let N := BIT insn 22 in
  let immr := BITS insn 21 16 in let imms := BITS insn 15 10 in
  if (opc =? 3) || negb (N =? b2z sf) then undefined else
  match decode_bitmasks N imms immr sf with
  | None => undefined
  | Some (wmask, tmask) =>
      src <- reg_x Rn;
      rd <- reg_x Rd;
      set_x_sz Rd sf (bfm_value sf opc immr imms src rd wmask tmask)
  end.

(** EXTR. *)
Definition dp_extract (insn : Z) : M (St Mem) unit :=
  let sf := BITb insn 31 in
  let Rd := BITS insn 4 0 in let Rn := BITS insn 9 5 in
  let Rm := BITS insn 20 16 in let imms := BITS insn 15 10 in
  if negb (BITS insn 30 29 =? 0) || negb (BIT insn 22 =? b2z sf)
     || negb (BIT insn 21 =? 0) || (negb sf && has imms 0x20) then undefined else
  hi <- reg_x Rn;
  lo <- reg_x Rm;
  let lsb := imms in
  let r := if sf then
             if lsb =? 0 then lo
             else Z.lor (u64 (Z.shiftl hi (64 - lsb))) (Z.shiftr lo lsb)
           else
             let h := u32 hi in let l := u32 lo in
             if lsb =? 0 then l
             else Z.lor (u32 (Z.shiftl h (32 - lsb))) (Z.shiftr l lsb) in
  set_x_sz Rd sf r.

Definition dp_immediate (insn : Z) : M (St Mem) unit :=
  let t := BITS insn 28 23 in
  if (t =? 0x20) || (t =? 0x21) then dp_pcrel insn
  else if t =? 0x22 then dp_addsub_imm insn
  else if t =? 0x24 then dp_logical_imm insn
  else if t =? 0x25 then dp_movewide insn
  else if t =? 0x26 then dp_bitfield insn
  else if t =? 0x27 then dp_extract insn
  else undefined.

(** ** Data processing, register *)

(** Logical (shifted register). *)
Definition dp_logical_reg (insn : Z) : M (St Mem) unit :=
  let sf := BITb insn 31 in
  let Rd := BITS insn 4 0 in let Rn := BITS insn 9 5 in let Rm := BITS insn 20 16 in
  let opc := BITS insn 30 29 in let shift := BITS insn 23 22 in
  let N := BITb insn 21 in let imm6 := BITS insn 15 10 in
  if negb sf && has imm6 0x20 then undefined else
  m <- reg_x Rm;
  let op2 := shift_reg m shift imm6 sf in
  let op2 := if N then not64 op2 else op2 in
  n <- reg_x Rn;
  let r := match opc with
           | 0 => Z.land n op2
           | 1 => Z.lor n op2
           | 2 => Z.lxor n op2
           | _ => Z.land n op2
           end in
  let r := if sf then r else u32 r in
  (if opc =? 3 then putc (with_nzcv (logical_flags r sf)) else ret tt) ;;
  set_x Rd r.

(** ADD/SUB (shifted and extended register). *)
Definition dp_addsub_reg (insn : Z) : M (St Mem) unit :=
  let sf := BITb insn 31 in
  let Rd := BITS insn 4 0 in let Rn := BITS insn 9 5 in let Rm := BITS insn 20 16 in
  let ext := BITb insn 21 in
  let op := BITb insn 30 in let S := BITb insn 29 in
  p <- (if ext then
          let option := BITS insn 15 13 in let imm3 := BITS insn 12 10 in
          if (4 <? imm3) || negb (BITS insn 23 22 =? 0) then undefined else
          m <- reg_x Rm;
          n <- reg_xsp Rn;
          ret (extend_reg m option imm3, n)
        else
          let shift := BITS insn 23 22 in let imm6 := BITS insn 15 10 in
          if (shift =? 3) || (negb sf && has imm6 0x20) then undefined else
          m <- reg_x Rm;
          n <- reg_x Rn;
          ret (shift_reg m shift imm6 sf, n));
  let '(op2, n) := p in
  let '(r, fl) := if op then add_with_carry n (not64 op2) 1 sf
                  else add_with_carry n op2 0 sf in
  if S then putc (with_nzcv fl) ;; set_x_sz Rd sf r
  else if ext then set_xsp Rd (if sf then r else u32 r)
  else set_x_sz Rd sf r.

(** Three-source multiplies. *)
Definition dp_3source (insn : Z) : M (St Mem) unit :=
  let sf := BITb insn 31 in
  let Rd := BITS insn 4 0 in let Rn := BITS insn 9 5 in let Rm := BITS insn 20 16 in
  let op31 := BITS insn 23 21 in let o0 := BIT insn 15 in let Ra := BITS insn 14 10 in
  if negb (BITS insn 30 29 =? 0) then undefined else
  if negb sf && negb (op31 =? 0) then undefined else
  n <- reg_x Rn;
  m <- reg_x Rm;
  a <- reg_x Ra;
  let smul := u64 (s32 (u32 n) * s32 (u32 m)) in
  let umul := u64 (u32 n * u32 m) in
  match Z.lor (Z.shiftl op31 1) o0 with
  | 0x0 => set_x_sz Rd sf (u64 (a + u64 (n * m)))
  | 0x1 => set_x_sz Rd sf (u64 (a - u64 (n * m)))
  | 0x2 => set_x_sz Rd sf (u64 (a + smul))
  | 0x3 => set_x_sz Rd sf (u64 (a - smul))
  | 0x4 => set_x_sz Rd sf (u64 (smulh64 (s64 n) (s64 m)))
  | 0xa => set_x_sz Rd sf (u64 (a + umul))
  | 0xb => set_x_sz Rd sf (u64 (a - umul))
  | 0xc => set_x_sz Rd sf (umulh64 n m)
  | _ => undefined
  end.

(** ADC/SBC, RMIF, SETF8/SETF16. *)
Definition dp_addsub_carry (insn : Z) : M (St Mem) unit :=
  let sf := BITb insn 31 in
  let Rd := BITS insn 4 0 in let Rn := BITS insn 9 5 in let Rm := BITS insn 20 16 in
  if BITS insn 15 10 =? 0 then
    let op := BITb insn 30 in let S := BITb insn 29 in
    nzcv <- getc c_nzcv;
    let cin := if has nzcv PS_C then 1 else 0 in
    m <- reg_x Rm;
    n <- reg_x Rn;
    let '(r, fl) := if op then add_with_carry n (not64 m) cin sf
                    else add_with_carry n m cin sf in
    (if S then putc (with_nzcv fl) else ret tt) ;;
    set_x_sz Rd sf r
  else if BITb insn 31 && negb (BITb insn 30) && BITb insn 29
          && (BITS insn 14 10 =? 1) && (BIT insn 4 =? 0) then
    let imm6 := BITS insn 20 15 in let mask := BITS insn 3 0 in
    t <- reg_x Rn;
    let t := if imm6 =? 0 then t
             else Z.lor (Z.shiftr t imm6) (u64 (Z.shiftl t (64 - imm6))) in
    nzcv <- getc c_nzcv;
    let nib := Z.lor (Z.land (Z.land (Z.shiftr nzcv 28) 0xf) (not32 mask))
                     (Z.land (u32 t) mask) in
    putc (with_nzcv (u32 (Z.shiftl nib 28)))
  else if negb (BITb insn 31) && negb (BITb insn 30) && BITb insn 29
          && (BITS insn 20 16 =? 0)
          && ((BITS insn 15 10 =? 0x02) || (BITS insn 15 10 =? 0x12))
          && (BITS insn 4 0 =? 0x0d) then
    let msb := if BITb insn 14 then 15 else 7 in
    w <- reg_x Rn;
    nzcv <- getc c_nzcv;
    let f := Z.land nzcv PS_C in
    let f := if has (Z.shiftr w msb) 1 then Z.lor f PS_N else f in
    let f := if Z.land w (Z.shiftl 2 msb - 1) =? 0 then Z.lor f PS_Z else f in
    let f := if has (Z.lxor (Z.shiftr w (msb + 1)) (Z.shiftr w msb)) 1
             then Z.lor f PS_V else f in
    putc (with_nzcv f)
  else undefined.

(** CCMP/CCMN. *)
Definition dp_condcmp (insn : Z) : M (St Mem) unit :=
  let sf := BITb insn 31 in
  let Rn := BITS insn 9 5 in let Rm := BITS insn 20 16 in
  if negb (BITb insn 29) || BITb insn 10 || BITb insn 4 then undefined else
  let op := BITb insn 30 in
  let cond := BITS insn 15 12 in let nzcv := BITS insn 3 0 in
  let is_imm := BITb insn 11 in
  n <- reg_x Rn;
  m <- (if is_imm then ret (BITS insn 20 16) else reg_x Rm);
  flags <- getc c_nzcv;
  if cond_holds flags cond then
    putc (with_nzcv (snd (if op then add_with_carry n (not64 m) 1 sf
                          else add_with_carry n m 0 sf)))
  else
    putc (with_nzcv (mk_nzcv (has nzcv 8) (has nzcv 4) (has nzcv 2) (has nzcv 1))).

(** CSEL/CSINC/CSINV/CSNEG. *)
Definition dp_condsel (insn : Z) : M (St Mem) unit :=
  let sf := BITb insn 31 in
  let Rd := BITS insn 4 0 in let Rn := BITS insn 9 5 in let Rm := BITS insn 20 16 in
  if BITb insn 29 || BITb insn 11 then undefined else
  let op := BITb insn 30 in let o2 := BITb insn 10 in
  let cond := BITS insn 15 12 in
  n <- reg_x Rn;
  m <- reg_x Rm;
  flags <- getc c_nzcv;
  let r := if cond_holds flags cond then n
           else if negb op && negb o2 then m
           else if negb op && o2 then u64 (m + 1)
           else if op && negb o2 then not64 m
           else u64 (0 - m) in
  set_x_sz Rd sf r.

(** [__builtin_bswap32], [__builtin_bswap64]. *)
Definition byte_at (v i : Z) : Z := Z.land (Z.shiftr v (8 * i)) 0xff.
Definition bswap32 (v : Z) : Z :=
  Z.lor (Z.lor (Z.lor (Z.shiftl (byte_at v 0) 24) (Z.shiftl (byte_at v 1) 16))
               (Z.shiftl (byte_at v 2) 8)) (byte_at v 3).
Definition bswap64 (v : Z) : Z :=
  Z.lor (Z.shiftl (bswap32 (u32 v)) 32) (bswap32 (u32 (Z.shiftr v 32))).
(** [__builtin_clz] of a non-zero word of width [w]. *)
Definition clz (w v : Z) : Z := w - 1 - Z.log2 v.

(** The bit-reversal loop of RBIT. *)
Fixpoint rbit_loop (n : nat) (i w v o : Z) : Z :=
  match n with
  | O => o
  | S k => rbit_loop k (i + 1) w v
             (if has (Z.shiftr v i) 1 then Z.lor o (u64 (Z.shiftl 1 (w - 1 - i))) else o)
  end.
Definition rbit (w v : Z) : Z := rbit_loop (Z.to_nat w) 0 w v 0.

(** The pair-swapping loop of REV16. *)
Fixpoint rev16_loop (n : nat) (i v o : Z) : Z :=
  match n with
  | O => o
  | S k => rev16_loop k (i + 2) v
             (Z.lor (Z.lor o (u64 (Z.shiftl (byte_at v i) ((i + 1) * 8))))
                    (u64 (Z.shiftl (byte_at v (i + 1)) (i * 8))))
  end.

(** The leading-sign loop of CLS. *)
Fixpoint cls_loop (n : nat) (v sign cnt : Z) : Z :=
  match n with
  | O => cnt
  | S k => if Z.land (Z.shiftr v (Z.of_nat k)) 1 =? sign
           then cls_loop k v sign (cnt + 1) else cnt
  end.

(** One-source: RBIT, REV16, REV32/REV, REV, CLZ, CLS. *)
Definition dp_1source (insn : Z) : M (St Mem) unit :=
  let sf := BITb insn 31 in
  let Rd := BITS insn 4 0 in let Rn := BITS insn 9 5 in
  let opcode := BITS insn 15 10 in
  n <- reg_x Rn;
  match opcode with
  | 0x00 => set_x_sz Rd sf (if sf then rbit 64 n else rbit 32 (u32 n))
  | 0x01 => set_x_sz Rd sf (rev16_loop (if sf then 4 else 2) 0 n 0)
  | 0x02 => set_x_sz Rd sf
              (if sf then
                 Z.lor (bswap32 (Z.land n 0xffffffff))
                       (u64 (Z.shiftl (bswap32 (Z.land (Z.shiftr n 32) 0xffffffff)) 32))
               else bswap32 (u32 n))
  | 0x03 => set_x_sz Rd sf (bswap64 n)
  | 0x04 => set_x_sz Rd sf (if sf then (if n =? 0 then 64 else clz 64 n)
                            else (if u32 n =? 0 then 32 else clz 32 (u32 n)))
  | 0x05 =>
      let w := if sf then 64 else 32 in
      let v := if sf then n else u32 n in
      let sign := Z.land (Z.shiftr v (w - 1)) 1 in
      set_x_sz Rd sf (cls_loop (Z.to_nat (w - 1)) v sign 0)
  | _ => undefined
  end.

(** Two-source: divides, variable shifts, CRC32. *)
Definition udiv (sf : bool) (n m : Z) : Z :=
  if sf then (if m =? 0 then 0 else n / m)
  else let a := u32 n in let b := u32 m in if b =? 0 then 0 else a / b.
Definition sdiv (sf : bool) (n m : Z) : Z :=
  if sf then
    let a := s64 n in let b := s64 m in
    if b =? 0 then 0
    else u64 (if (b =? -1) && (a =? - 2 ^ 63) then a else Z.quot a b)
  else
    let a := s32 (u32 n) in let b := s32 (u32 m) in
    if b =? 0 then 0
    else u32 (if (b =? -1) && (a =? - 2 ^ 31) then a else Z.quot a b).

Definition dp_2source (insn : Z) : M (St Mem) unit :=
  let sf := BITb insn 31 in
  let Rd := BITS insn 4 0 in let Rn := BITS insn 9 5 in let Rm := BITS insn 20 16 in
  let opcode := BITS insn 15 10 in
  n <- reg_x Rn;
  m <- reg_x Rm;
  match opcode with
  | 0x02 => set_x_sz Rd sf (udiv sf n m)
  | 0x03 => set_x_sz Rd sf (sdiv sf n m)
  | 0x08 => set_x_sz Rd sf (shift_reg n 0 (u32 m) sf)
  | 0x09 => set_x_sz Rd sf (shift_reg n 1 (u32 m) sf)
  | 0x0a => set_x_sz Rd sf (shift_reg n 2 (u32 m) sf)
  | 0x0b => set_x_sz Rd sf (shift_reg n 3 (u32 m) sf)
  | 0x10 => set_x_sz Rd sf (crc32_step (u32 n) m 1 0xEDB88320)
  | 0x11 => set_x_sz Rd sf (crc32_step (u32 n) m 2 0xEDB88320)
  | 0x12 => set_x_sz Rd sf (crc32_step (u32 n) m 4 0xEDB88320)
  | 0x13 => set_x_sz Rd sf (crc32_step (u32 n) m 8 0xEDB88320)
  | 0x14 => set_x_sz Rd sf (crc32_step (u32 n) m 1 0x82F63B78)
  | 0x15 => set_x_sz Rd sf (crc32_step (u32 n) m 2 0x82F63B78)
  | 0x16 => set_x_sz Rd sf (crc32_step (u32 n) m 4 0x82F63B78)
  | 0x17 => set_x_sz Rd sf (crc32_step (u32 n) m 8 0x82F63B78)
  | _ => undefined
  end.

Definition dp_register (insn : Z) : M (St Mem) unit :=
  let op24 := BITS insn 28 24 in
  if op24 =? 0x0a then dp_logical_reg insn
  else if op24 =? 0x0b then dp_addsub_reg insn
  else if op24 =? 0x1b then dp_3source insn
  else if op24 =? 0x1a then
    let op21 := BITS insn 28 21 in
    if op21 =? 0xd0 then dp_addsub_carry insn
    else if op21 =? 0xd2 then dp_condcmp insn
    else if op21 =? 0xd4 then dp_condsel insn
    else if op21 =? 0xd6 then
      if BITb insn 30 then dp_1source insn else dp_2source insn
    else undefined
  else undefined.

End Dp.
