(* ===== verification/Atomics.v ===== *)
(** * Atomics: LSE atomics, compare-and-swap and the exclusives of decode.c

    The host's [__atomic] builtins act on the translated host address. One
    instruction is one atomic step of this model, so a read-modify-write is a
    load, a computation and a store with nothing in between; the memory
    orders ([lse_order]) and the host fences have no effect on such a step.
    Interference of other threads is a change of the memory between steps. *)

From S2P Require Import Prelude Types Cpu MemSeam.

Section Atomics.
Context {Mem : Type} `{MemSeam Mem}.
Local Open Scope exec_scope.

(** The cast to the [bytes]-wide unsigned and signed C types. *)
Definition trunc (bytes v : Z) : Z := v mod 2 ^ (8 * bytes).
Definition strunc (bytes v : Z) : Z := signed (8 * bytes) v.

(** [__atomic_load_n], [__atomic_store_n] on a [bytes]-wide location. *)
Definition at_load (bytes hp : Z) : M (St Mem) Z :=
  gets (fun s => host_load (Z.to_nat bytes) hp (s_mem s)).
Definition at_store (bytes hp v : Z) : M (St Mem) unit :=
  modify (upd_mem (host_store (Z.to_nat bytes) hp v)).
(** Strong [__atomic_compare_exchange_n]: success, and the value the
    location held. *)
Definition at_cas (bytes hp exp want : Z) : M (St Mem) (bool * Z) :=
  old <- at_load bytes hp;
  if old =? exp then at_store bytes hp want ;; ret (true, old)
  else ret (false, old).

Definition atomic_align_fault {A} (va : Z) (write : bool) : M (St Mem) A :=
  fault (cpu_raise_sync (esr_make EC_DABORT_LOWER (iss_dabort write FSC_ALIGN)) va).
Definition atomic_trans_fault {A} (va : Z) (write : bool) : M (St Mem) A :=
  fault (cpu_raise_sync (esr_make EC_DABORT_LOWER (iss_dabort write FSC_TRANS_L3)) va).

(** The value LD<op> stores, from the old value [o] and the operand, both of
    the location's width (the switch of [LSE_RMW]). *)
Definition lse_result (bytes opc o opnd : Z) : Z :=
  match opc with
  | 0 => trunc bytes (o + opnd)
  | 1 => Z.land o (trunc bytes (Z.lnot opnd))
  | 2 => Z.lxor o opnd
  | 3 => Z.lor o opnd
  | 4 => if strunc bytes opnd <? strunc bytes o then o else opnd
  | 5 => if strunc bytes o <? strunc bytes opnd then o else opnd
  | 6 => if opnd <? o then o else opnd
  | _ => if o <? opnd then o else opnd
  end.
(** [LSE_RMW]: the old value. *)
Definition LSE_RMW (bytes hp o3 opc operand : Z) : M (St Mem) Z :=
  o <- at_load bytes hp;
  let opnd := trunc bytes operand in
  if negb (o3 =? 0) && (opc =? 0) then at_store bytes hp opnd ;; ret o
  else at_store bytes hp (lse_result bytes opc o opnd) ;; ret o.

Definition ldst_atomic (insn : Z) : M (St Mem) unit :=
  let size := BITS insn 31 30 in
  let Rs := BITS insn 20 16 in let o3 := BIT insn 15 in let opc := BITS insn 14 12 in
  let Rn := BITS insn 9 5 in let Rt := BITS insn 4 0 in
  let bytes := Z.shiftl 1 size in
  if negb (o3 =? 0) && negb (opc =? 0) then
    if opc =? 4 then
      va <- reg_xsp Rn;
      v <- mem_read va bytes;
      set_x Rt v
    else undefined
  else
    va <- reg_xsp Rn;
    operand <- reg_x Rs;
    if negb (Z.land va (bytes - 1) =? 0) then atomic_align_fault va true else
    hp <- mem_host_ptr va bytes ACC_WRITE;
    match hp with
    | None =>
        rp <- mem_host_ptr va bytes ACC_READ;
        match rp with
        | Some _ => atomic_align_fault va true
        | None => atomic_trans_fault va true
        end
    | Some hp =>
        old <- LSE_RMW bytes hp o3 opc operand;
        set_x Rt old
    end.

(** CAS/CASA/CASL/CASAL. *)
Definition ldst_cas (insn : Z) : M (St Mem) unit :=
  let size := BITS insn 31 30 in
  let Rs := BITS insn 20 16 in let Rn := BITS insn 9 5 in let Rt := BITS insn 4 0 in
  let bytes := Z.shiftl 1 size in
  va <- reg_xsp Rn;
  if negb (Z.land va (bytes - 1) =? 0) then atomic_align_fault va true else
  hp <- mem_host_ptr va bytes ACC_WRITE;
  match hp with
  | None => atomic_trans_fault va true
  | Some hp =>
      cmp <- reg_x Rs;
      newv <- reg_x Rt;
      r <- at_cas bytes hp (trunc bytes cmp) (trunc bytes newv);
      set_x Rs (snd r)
  end.

(** CASP/CASPA/CASPL/CASPAL, the build with [__int128]. *)
Definition ldst_casp (insn : Z) : M (St Mem) unit :=
  let sz := BITb insn 30 in
  let Rs := BITS insn 20 16 in let Rn := BITS insn 9 5 in let Rt := BITS insn 4 0 in
  let bytes := if sz then 16 else 8 in
  va <- reg_xsp Rn;
  if negb (Z.land va (bytes - 1) =? 0) then atomic_align_fault va true else
  hp <- mem_host_ptr va bytes ACC_WRITE;
  match hp with
  | None => atomic_trans_fault va true
  | Some hp =>
      s0 <- reg_x Rs;
      s1 <- reg_x (Rs + 1);
      t0 <- reg_x Rt;
      t1 <- reg_x (Rt + 1);
      if negb sz then
        let cmp := Z.lor (Z.land s0 0xffffffff) (u64 (Z.shiftl s1 32)) in
        let newv := Z.lor (Z.land t0 0xffffffff) (u64 (Z.shiftl t1 32)) in
        r <- at_cas 8 hp cmp newv;
        set_x Rs (u32 (snd r)) ;;
        set_x (Rs + 1) (u32 (Z.shiftr (snd r) 32))
      else
        let cmp := Z.lor s0 (Z.shiftl s1 64) in
        let newv := Z.lor t0 (Z.shiftl t1 64) in
        r <- at_cas 16 hp cmp newv;
        set_x Rs (u64 (snd r)) ;;
        set_x (Rs + 1) (u64 (Z.shiftr (snd r) 64))
  end.

(** LDAR / STLR. *)
Definition ldst_ordered (L : bool) (va bytes Rt : Z) : M (St Mem) unit :=
  hp <- mem_host_ptr va bytes (if L then ACC_READ else ACC_WRITE);
  if L then
    match hp with
    | Some hp => v <- at_load bytes hp; set_x Rt v
    | None => v <- mem_read va bytes; set_x Rt v
    end
  else
    v <- reg_x Rt;
    match hp with
    | Some hp => at_store bytes hp (trunc bytes v)
    | None => mem_write va bytes v
    end.

(** The reservation LDXR / LDXP leaves. *)
Definition set_monitor (va size : Z) : M (St Mem) unit :=
  putc (fun c => with_excl_size size (with_excl_addr va (with_excl_valid true c))).

(** LDXR / LDAXR. *)
Definition ldxr (va bytes Rt : Z) : M (St Mem) unit :=
  v <- mem_read va bytes;
  set_x Rt v ;;
  set_monitor va bytes ;;
  putc (with_excl_val v).

(** Does the monitor hold a reservation of exactly [va, va+size)? *)
Definition monitor_hit (va size : Z) : M (St Mem) bool :=
  getc (fun c => c_excl_valid c && (c_excl_addr c =? va) && (c_excl_size c =? size)).

(** STXR / STLXR. *)
Definition stxr (va bytes Rs Rt : Z) : M (St Mem) unit :=
  hit <- monitor_hit va bytes;
  res <- (if hit : bool then
            hp <- mem_host_ptr va bytes ACC_WRITE;
            match hp with
            | Some hp =>
                want <- reg_x Rt;
                exp <- getc c_excl_val;
                r <- at_cas bytes hp (trunc bytes exp) (trunc bytes want);
                ret (if fst r : bool then 0 else 1)
            | None =>
                t <- reg_x Rt;
                mem_write va bytes t ;;
                ret 0
            end
          else ret 1);
  set_x Rs res ;;
  putc (with_excl_valid false).

(** LDXP / LDAXP. *)
Definition ldxp (va bytes Rt Rt2 : Z) : M (St Mem) unit :=
  a <- mem_read va bytes;
  b <- mem_read (u64 (va + bytes)) bytes;
  set_x Rt a ;;
  set_x Rt2 b ;;
  set_monitor va (bytes * 2) ;;
  putc (fun c => with_excl_val2 b (with_excl_val a c)).

(** STXP / STLXP. A pair of anything but doublewords takes the 8-byte path. *)
Definition stxp (va bytes Rs Rt Rt2 : Z) : M (St Mem) unit :=
  hit <- monitor_hit va (bytes * 2);
  res <- (if hit : bool then
            hp <- mem_host_ptr va (if bytes =? 8 then 16 else 8) ACC_WRITE;
            match hp with
            | Some hp =>
                e0 <- getc c_excl_val;
                e1 <- getc c_excl_val2;
                t0 <- reg_x Rt;
                t1 <- reg_x Rt2;
                r <- (if bytes =? 8 then
                        at_cas 16 hp (Z.lor e0 (Z.shiftl e1 64)) (Z.lor t0 (Z.shiftl t1 64))
                      else
                        at_cas 8 hp (Z.lor (Z.land e0 0xffffffff) (u64 (Z.shiftl e1 32)))
                                    (Z.lor (Z.land t0 0xffffffff) (u64 (Z.shiftl t1 32))));
                ret (if fst r : bool then 0 else 1)
            | None => ret 1
            end
          else ret 1);
  set_x Rs res ;;
  putc (with_excl_valid false).

Definition ldst_exclusive (insn : Z) : M (St Mem) unit :=
  let size := BITS insn 31 30 in
  let o2 := BITb insn 23 in let L := BITb insn 22 in let o1 := BITb insn 21 in
  let Rs := BITS insn 20 16 in let Rt2 := BITS insn 14 10 in
  let Rn := BITS insn 9 5 in let Rt := BITS insn 4 0 in
  let bytes := Z.shiftl 1 size in
  va <- reg_xsp Rn;
  if o2 && o1 then ldst_cas insn
  else if negb o2 && o1 && (BIT insn 31 =? 0) then ldst_casp insn
  else if o2 then ldst_ordered L va bytes Rt
  else if negb o1 then
    if L then ldxr va bytes Rt else stxr va bytes Rs Rt
  else if L then ldxp va bytes Rt Rt2
  else stxp va bytes Rs Rt Rt2.

End Atomics.
