(* ===== verification/Mops.v ===== *)
(** * Mops: the memory copy and memory set instructions of decode.c

    SETP/SETM/SETE and CPY[F]P/M/E. Each loop of the source is a [while]
    whose bound is above the largest size a stage can meet; [MOPS_FUEL] is
    that bound and MopsProofs.v shows that it is never reached. *)

From S2P Require Import Prelude Types Cpu MemSeam.

Section Mops.
Context {Mem : Type} `{MemSeam Mem}.
Local Open Scope exec_scope.

Definition mops_page_limit (addr : Z) : Z :=
  u64 (Z.land (u64 (addr + 0x1000)) (not64 0xfff) - addr).
Definition mops_page_limit_rev (addr : Z) : Z := Z.land addr 0xfff + 1.

Definition mops_iss (insn : Z) (wrong_option : bool) : Z :=
  let is_set := BITS insn 23 22 =? 3 in
  let options := if is_set then BITS insn 13 12 else BITS insn 15 12 in
  let epilogue := if is_set then BITS insn 15 14 =? 2 else BITS insn 23 22 =? 2 in
  Z.lor (Z.lor (Z.lor (Z.lor (Z.lor (Z.lor (Z.lor
    (Z.shiftl (b2z is_set) 24) (Z.shiftl options 19)) (Z.shiftl (b2z epilogue) 18))
    (Z.shiftl (b2z wrong_option) 17)) (Z.shiftl 1 16))
    (Z.shiftl (BITS insn 4 0) 10)) (Z.shiftl (BITS insn 20 16) 5)) (BITS insn 9 5).

Definition mop_exception {A} (insn : Z) (wrong_option : bool) : M (St Mem) A :=
  fault (cpu_raise_sync (esr_make EC_MOP (mops_iss insn wrong_option)) 0).

(** [mops_enabled_ok]: at EL0 the family needs SCTLR_EL1.MSCEn. *)
Definition mops_enabled_ok : M (St Mem) unit := fun s =>
  let c := s_cpu s in
  if c_el c =? 0 then
    match r_sctlr (c_sys c) !! 1%nat with
    | Some v => if Z.land (Z.shiftr v 33) 1 =? 0 then undefined s else Ok tt s
    | None => UB
    end
  else Ok tt s.

(** [memset], [memmove] on host memory. *)
Fixpoint host_set (n : nat) (p b : Z) (m : Mem) : Mem :=
  match n with O => m | S k => host_set k (p + 1) b (host_put p b m) end.
Fixpoint host_get_bytes (n : nat) (p : Z) (m : Mem) : list Z :=
  match n with O => [] | S k => u8 (host_get p m) :: host_get_bytes k (p + 1) m end.
Fixpoint host_put_bytes (p : Z) (l : list Z) (m : Mem) : Mem :=
  match l with [] => m | b :: l => host_put_bytes (p + 1) l (host_put p b m) end.
Definition host_move (n : nat) (w r : Z) (m : Mem) : Mem :=
  host_put_bytes w (host_get_bytes n r m) m.

(** One bounded memset step: the bytes it did (a fault stops the run). *)
Definition mops_set_step (toaddr setsize data : Z) : M (St Mem) Z :=
  let n := Z.min (mops_page_limit toaddr) setsize in
  hp <- mem_host_ptr toaddr (u32 n) ACC_WRITE;
  match hp with
  | Some hp => modify (upd_mem (host_set (Z.to_nat n) hp data)) ;; ret n
  | None => mem_write toaddr 1 data ;; ret 1
  end.

(** One bounded copy step. With [rev] the addresses are of the last byte. *)
Definition mops_copy_step (toaddr fromaddr copysize : Z) (rev : bool) : M (St Mem) Z :=
  let n := if rev then mops_page_limit_rev toaddr else mops_page_limit toaddr in
  let m := if rev then mops_page_limit_rev fromaddr else mops_page_limit fromaddr in
  let n := if m <? n then m else n in
  let n := if copysize <? n then copysize else n in
  w <- mem_host_ptr (if rev then u64 (toaddr - (n - 1)) else toaddr) (u32 n) ACC_WRITE;
  r <- mem_host_ptr (if rev then u64 (fromaddr - (n - 1)) else fromaddr) (u32 n) ACC_READ;
  match w, r with
  | Some w, Some r => modify (upd_mem (host_move (Z.to_nat n) w r)) ;; ret n
  | _, _ =>
      byte <- mem_read fromaddr 1;
      mem_write toaddr 1 byte ;;
      ret 1
  end.

(** No stage has more than 2^64 - 1 bytes to do and every step does one. *)
Definition MOPS_FUEL : positive := (2 ^ 64)%positive.

(** The SETP loop on (toaddr, setsize, stagesetsize). *)
Definition setp_body (Rd Rn data : Z) (a : Z * Z * Z) :
    M (St Mem) ((Z * Z * Z) + (Z * Z)) :=
  let '(toaddr, setsize, stagesetsize) := a in
  if stagesetsize =? 0 then ret (inr (toaddr, setsize)) else
  set_x Rd toaddr ;;
  set_x Rn setsize ;;
  step <- mops_set_step toaddr stagesetsize data;
  ret (inl (u64 (toaddr + step), u64 (setsize - step), u64 (stagesetsize - step))).

Definition mops_setp (Rd Rn data : Z) : M (St Mem) unit :=
  toaddr <- reg_x Rd;
  setsize <- reg_x Rn;
  let setsize := if 0x7fffffffffffffff <? setsize then 0x7fffffffffffffff else setsize in
  let stagesetsize := Z.min (mops_page_limit toaddr) setsize in
  r <- while MOPS_FUEL (setp_body Rd Rn data) (toaddr, setsize, stagesetsize);
  e <- loop_exit r;
  let '(toaddr, setsize) := e in
  set_x Rd (u64 (toaddr + setsize)) ;;
  set_x Rn (u64 (0 - setsize)) ;;
  putc (with_nzcv 0).

(** The SETM/SETE loop. *)
Definition setm_body (Rn data : Z) (a : Z * Z * Z) : M (St Mem) ((Z * Z * Z) + unit) :=
  let '(toaddr, setsize, stagesetsize) := a in
  if stagesetsize =? 0 then ret (inr tt) else
  step <- mops_set_step toaddr setsize data;
  let setsize' := u64 (setsize - step) in
  set_x Rn (u64 (0 - setsize')) ;;
  ret (inl (u64 (toaddr + step), setsize',
            if stagesetsize <=? step then 0 else u64 (stagesetsize - step))).

Definition mops_set (insn stage : Z) : M (St Mem) unit :=
  let Rd := BITS insn 4 0 in let Rn := BITS insn 9 5 in let Rs := BITS insn 20 16 in
  s <- reg_x Rs;
  let data := u8 s in
  if stage =? 0 then mops_setp Rd Rn data else
  xn <- reg_x Rn;
  if xn =? 0 then ret tt else
  nzcv <- getc c_nzcv;
  if has nzcv PS_C then mop_exception insn true else
  d <- reg_x Rd;
  let toaddr := u64 (d + xn) in let setsize := u64 (0 - xn) in
  if (stage =? 2) && (0x1000 <=? setsize) then mop_exception insn false else
  let stagesetsize := if stage =? 1 then Z.land setsize (not64 0xfff) else setsize in
  r <- while MOPS_FUEL (setm_body Rn data) (toaddr, setsize, stagesetsize);
  loop_exit r.

(** The forward CPYP loop on (toaddr, fromaddr, copysize, stagecopysize). *)
Definition cpyp_fwd_body (Rd Rs Rn : Z) (a : Z * Z * Z * Z) :
    M (St Mem) ((Z * Z * Z * Z) + (Z * Z * Z)) :=
  let '(toaddr, fromaddr, copysize, stagecopysize) := a in
  if stagecopysize =? 0 then ret (inr (toaddr, fromaddr, copysize)) else
  set_x Rd toaddr ;;
  set_x Rs fromaddr ;;
  set_x Rn copysize ;;
  step <- mops_copy_step toaddr fromaddr stagecopysize false;
  ret (inl (u64 (toaddr + step), u64 (fromaddr + step), u64 (copysize - step),
            u64 (stagecopysize - step))).

(** The backward CPYP loop on (t, f, copysize, stagecopysize). *)
Definition cpyp_rev_body (Rn : Z) (a : Z * Z * Z * Z) :
    M (St Mem) ((Z * Z * Z * Z) + Z) :=
  let '(t, f, copysize, stagecopysize) := a in
  if stagecopysize =? 0 then ret (inr copysize) else
  set_x Rn copysize ;;
  step <- mops_copy_step t f stagecopysize true;
  ret (inl (u64 (t - step), u64 (f - step), u64 (copysize - step),
            u64 (stagecopysize - step))).

(** The copy size a prologue works with, and its direction. *)
Definition cpyp_size (move : bool) (copysize : Z) : Z :=
  if move then (if 0x007fffffffffffff <? copysize then 0x007fffffffffffff else copysize)
  else if 0x7fffffffffffffff <? copysize then 0x7fffffffffffffff else copysize.
Definition cpyp_fwd (move : bool) (toaddr fromaddr copysize : Z) : bool :=
  if move then
    let fs := Z.land fromaddr 0xffffffffffffff in
    let ts := Z.land toaddr 0xffffffffffffff in
    let fe := Z.land (u64 (fromaddr + copysize)) 0xffffffffffffff in
    negb ((fs <? ts) && (ts <? fe))
  else true.

Definition mops_cpyp (Rd Rs Rn : Z) (move : bool) : M (St Mem) unit :=
  toaddr <- reg_x Rd;
  fromaddr <- reg_x Rs;
  copysize <- reg_x Rn;
  let copysize := cpyp_size move copysize in
  (if cpyp_fwd move toaddr fromaddr copysize then
     let stage := Z.min (Z.min (mops_page_limit toaddr) (mops_page_limit fromaddr)) copysize in
     r <- while MOPS_FUEL (cpyp_fwd_body Rd Rs Rn) (toaddr, fromaddr, copysize, stage);
     e <- loop_exit r;
     let '(toaddr, fromaddr, copysize) := e in
     set_x Rd (u64 (toaddr + copysize)) ;;
     set_x Rs (u64 (fromaddr + copysize)) ;;
     set_x Rn (u64 (0 - copysize))
   else
     let t := u64 (toaddr + copysize - 1) in let f := u64 (fromaddr + copysize - 1) in
     let stage := Z.min (Z.min (mops_page_limit_rev t) (mops_page_limit_rev f)) copysize in
     r <- while MOPS_FUEL (cpyp_rev_body Rn) (t, f, copysize, stage);
     copysize <- loop_exit r;
     set_x Rn copysize) ;;
  putc (with_nzcv 0).

(** The CPY[F]M / CPY[F]E loop on (toaddr, fromaddr, copysize). *)
Definition cpym_body (Rn stage : Z) (fwd : bool) (a : Z * Z * Z) :
    M (St Mem) ((Z * Z * Z) + unit) :=
  let '(toaddr, fromaddr, copysize) := a in
  if negb (if stage =? 1 then 0x1000 <=? copysize else 0 <? copysize) then ret (inr tt) else
  step <- mops_copy_step toaddr fromaddr copysize (negb fwd);
  let copysize := u64 (copysize - step) in
  set_x Rn (if fwd then u64 (0 - copysize) else copysize) ;;
  ret (inl (if fwd then u64 (toaddr + step) else u64 (toaddr - step),
            if fwd then u64 (fromaddr + step) else u64 (fromaddr - step),
            copysize)).

Definition mops_cpy (insn stage : Z) (move : bool) : M (St Mem) unit :=
  let Rd := BITS insn 4 0 in let Rn := BITS insn 9 5 in let Rs := BITS insn 20 16 in
  if stage =? 0 then mops_cpyp Rd Rs Rn move else
  xn <- reg_x Rn;
  if xn =? 0 then ret tt else
  nzcv <- getc c_nzcv;
  if has nzcv PS_C then mop_exception insn true else
  let fwd := negb move || (s64 xn <? 0) in
  d <- reg_x Rd;
  f <- reg_x Rs;
  let copysize := if fwd then u64 (0 - xn) else xn in
  let toaddr := if fwd then u64 (d + xn) else u64 (d + copysize - 1) in
  let fromaddr := if fwd then u64 (f + xn) else u64 (f + copysize - 1) in
  if (stage =? 2) && (0x1000 <=? copysize) then mop_exception insn false else
  r <- while MOPS_FUEL (cpym_body Rn stage fwd) (toaddr, fromaddr, copysize);
  loop_exit r.

Definition mops (insn : Z) : M (St Mem) unit :=
  let op1 := BITS insn 23 22 in
  let Rd := BITS insn 4 0 in let Rn := BITS insn 9 5 in let Rs := BITS insn 20 16 in
  if negb (BITS insn 31 30 =? 0) then undefined
  else if op1 =? 3 then
    let stage := BITS insn 15 14 in
    if BITb insn 26 || (stage =? 3) || (Rs =? Rn) || (Rs =? Rd) || (Rn =? Rd)
       || (Rd =? 31) || (Rn =? 31) then undefined
    else mops_enabled_ok ;; mops_set insn stage
  else
    if (Rs =? Rn) || (Rs =? Rd) || (Rn =? Rd) || (Rd =? 31) || (Rs =? 31) || (Rn =? 31)
    then undefined
    else mops_enabled_ok ;; mops_cpy insn op1 (BITb insn 26).

End Mops.
