(* ===== verification/LdSt.v ===== *)
(** * LdSt: the load/store group of core/decode.c

    Register, pair, literal, RCpc-unscaled and AdvSIMD structure loads and
    stores, and the group's dispatcher [loads_stores]. A faulting access
    stops the handler before its base-register writeback. *)

From S2P Require Import Prelude Types Cpu MemSeam Alu Atomics Mops.

Section LdSt.
Context {Mem : Type} `{MemSeam Mem}.
Local Open Scope exec_scope.

Definition ldst_extended_offset (insn size : Z) : M (St Mem) Z :=
  let Rm := BITS insn 20 16 in let option := BITS insn 15 13 in
  let S := BITb insn 12 in
  let shift := if S then size else 0 in
  m <- reg_x Rm;
  ret (extend_reg m option shift).

Definition do_load (Rt va size opc : Z) : M (St Mem) unit :=
  let bytes := Z.shiftl 1 size in
  if (opc =? 2) && (size =? 3) then ret tt else
  raw <- mem_read va bytes;
  let sign := (opc =? 2) || (opc =? 3) in
  let ext64 := if opc =? 2 then true else if opc =? 3 then false else size =? 3 in
  let val := if sign then sign_extend raw (bytes * 8) else raw in
  let val := if negb ext64 then u32 val else val in
  set_x Rt val.

Definition vreg_load (Vt va bytes : Z) : M (St Mem) unit :=
  val <- (if bytes =? 16 then mem_read128 va
          else t <- mem_read va bytes; ret (v_mk t 0));
  set_v Vt val.
Definition vreg_store (Vt va bytes : Z) : M (St Mem) unit :=
  v <- reg_v Vt;
  if bytes =? 16 then mem_write128 va v else mem_write va bytes (v_d0 v).

(** FEAT_LRCPC2: LDAPUR / STLUR. *)
Definition ldst_rcpc_unscaled (insn : Z) : M (St Mem) unit :=
  let size := BITS insn 31 30 in let opc := BITS insn 23 22 in
  let Rn := BITS insn 9 5 in let Rt := BITS insn 4 0 in
  if ((opc =? 2) && (size =? 3)) || ((opc =? 3) && (2 <=? size)) then undefined else
  base <- reg_xsp Rn;
  let va := u64 (base + sign_extend (BITS insn 20 12) 9) in
  if opc =? 0 then t <- reg_x Rt; mem_write va (Z.shiftl 1 size) t
  else do_load Rt va size opc.

(** Base-register writeback of the single-register forms. *)
Inductive writeback := WB_NONE | WB_POST | WB_PRE.

(** The access of [ldst_register] at [va], then its writeback: [base'] is the
    post-index value. *)
Definition ldst_access (insn va base' : Z) (wb : writeback) : M (St Mem) unit :=
  let size := BITS insn 31 30 in let opc := BITS insn 23 22 in
  let Rn := BITS insn 9 5 in let Rt := BITS insn 4 0 in
  let V := BITb insn 26 in
  let is_load := if V then has opc 1 else negb (opc =? 0) in
  let bytes := if V && has opc 2 then 16 else Z.shiftl 1 size in
  if negb V && (opc =? 3) && (2 <=? size) then undefined else
  (if V then if is_load then vreg_load Rt va bytes else vreg_store Rt va bytes
   else if is_load then do_load Rt va size opc
        else t <- reg_x Rt; mem_write va bytes t) ;;
  match wb with
  | WB_NONE => ret tt
  | WB_POST => set_xsp Rn base'
  | WB_PRE => set_xsp Rn va
  end.

Definition ldst_register (insn : Z) : M (St Mem) unit :=
  let size := BITS insn 31 30 in let opc := BITS insn 23 22 in
  let Rn := BITS insn 9 5 in
  let V := BITb insn 26 in
  if V && has opc 2 && negb (size =? 0) then undefined else
  let scale := if V && has opc 2 then 4 else size in
  base <- reg_xsp Rn;
  if BITb insn 24 then
    ldst_access insn (u64 (base + Z.shiftl (BITS insn 21 10) scale)) base WB_NONE
  else if BITb insn 21 then
    if (BITS insn 11 10 =? 0) && negb V then ldst_atomic insn
    else if negb (BITS insn 11 10 =? 2) then undefined
    else
      off <- ldst_extended_offset insn scale;
      ldst_access insn (u64 (base + off)) base WB_NONE
  else
    let mode := BITS insn 11 10 in
    let imm9 := sign_extend (BITS insn 20 12) 9 in
    if (mode =? 0) || (mode =? 2) then
      if (mode =? 2) && V then undefined
      else ldst_access insn (u64 (base + imm9)) base WB_NONE
    else if mode =? 1 then ldst_access insn base (u64 (base + imm9)) WB_POST
    else ldst_access insn (u64 (base + imm9)) base WB_PRE.

(** The transfer of [ldst_pair] at [addr]. *)
Definition ldst_pair_access (insn esz addr : Z) : M (St Mem) unit :=
  let opc := BITS insn 31 30 in let V := BITb insn 26 in let L := BITb insn 22 in
  let Rt2 := BITS insn 14 10 in let Rt := BITS insn 4 0 in
  let signed_word := negb V && (opc =? 1) in
  let addr2 := u64 (addr + esz) in
  if V then
    if L then vreg_load Rt addr esz ;; vreg_load Rt2 addr2 esz
    else vreg_store Rt addr esz ;; vreg_store Rt2 addr2 esz
  else if L then
    if esz =? 8 then
      v <- mem_read128 addr;
      set_x Rt (v_d0 v) ;;
      set_x Rt2 (v_d1 v)
    else
      a <- mem_read addr esz;
      b <- mem_read addr2 esz;
      if signed_word then set_x Rt (sign_extend a 32) ;; set_x Rt2 (sign_extend b 32)
      else set_x Rt (u32 a) ;; set_x Rt2 (u32 b)
  else
    if esz =? 8 then
      a <- reg_x Rt;
      b <- reg_x Rt2;
      mem_write128 addr (v_mk a b)
    else
      a <- reg_x Rt;
      mem_write addr esz a ;;
      b <- reg_x Rt2;
      mem_write addr2 esz b.

Definition ldst_pair (insn : Z) : M (St Mem) unit :=
  let opc := BITS insn 31 30 in let V := BITb insn 26 in
  let mode := BITS insn 25 23 in
  let imm7 := sign_extend (BITS insn 21 15) 7 in
  let Rn := BITS insn 9 5 in
  if opc =? 3 then undefined else
  let scale := if V then opc + 2 else if opc =? 2 then 3 else 2 in
  let esz := Z.shiftl 1 scale in
  let offset := u64 (Z.shiftl imm7 scale) in
  base <- reg_xsp Rn;
  let disp := u64 (base + offset) in
  match mode with
  | 0 => ldst_pair_access insn esz disp
  | 1 => ldst_pair_access insn esz base ;; set_xsp Rn disp
  | 2 => ldst_pair_access insn esz disp
  | 3 => ldst_pair_access insn esz disp ;; set_xsp Rn disp
  | _ => undefined
  end.

Definition ldst_literal (insn : Z) : M (St Mem) unit :=
  let opc := BITS insn 31 30 in let V := BITb insn 26 in
  let Rt := BITS insn 4 0 in
  let off := u64 (Z.shiftl (sign_extend (BITS insn 23 5) 19) 2) in
  cur <- getc c_cur_insn_pc;
  let va := u64 (cur + off) in
  if V then
    if opc =? 3 then undefined else vreg_load Rt va (Z.shiftl 4 opc)
  else
    match opc with
    | 0 => raw <- mem_read va 4; set_x Rt (u32 raw)
    | 1 => raw <- mem_read va 8; set_x Rt raw
    | 2 => raw <- mem_read va 4; set_x Rt (sign_extend raw 32)
    | _ => ret tt
    end.

(** ** AdvSIMD structures *)

(** [memcpy] of [ebytes] bytes out of and into a vector register at byte
    [off]: outside the 16 bytes of the union is outside C's rules. *)
Definition v_get_bytes (v : V128) (off ebytes : Z) : Z :=
  Z.land (Z.shiftr v (8 * off)) (Z.ones (8 * ebytes)).
Definition v_put_bytes (v : V128) (off ebytes t : Z) : V128 :=
  Z.lor (Z.land v (Z.lnot (Z.shiftl (Z.ones (8 * ebytes)) (8 * off))))
        (Z.shiftl (Z.land t (Z.ones (8 * ebytes))) (8 * off)).
Definition lane_get (vt off ebytes : Z) : M (St Mem) Z :=
  if 16 <? off + ebytes then ub else
  v <- reg_v vt;
  ret (v_get_bytes v off ebytes).
Definition lane_put (vt off ebytes t : Z) : M (St Mem) unit :=
  if 16 <? off + ebytes then ub else
  v <- reg_v vt;
  set_v vt (v_put_bytes v off ebytes t).

(** (nregs, sel) of a multiple-structure opcode. *)
Definition vector_multi_shape (opcode : Z) : option (Z * Z) :=
  match opcode with
  | 0x0 => Some (4, 4)
  | 0x2 => Some (4, 1)
  | 0x4 => Some (3, 3)
  | 0x6 => Some (3, 1)
  | 0x7 => Some (1, 1)
  | 0x8 => Some (2, 2)
  | 0xa => Some (2, 1)
  | _ => None
  end.

(** The contiguous form: whole registers. *)
Definition vector_multi_contig (Q L : bool) (Rt regbytes r addr : Z) : M (St Mem) Z :=
  let vt := Z.land (Rt + r) 31 in
  (if L then
     v <- (if Q then mem_read128 addr else t <- mem_read addr 8; ret (v_mk t 0));
     set_v vt v
   else
     v <- reg_v vt;
     if Q then mem_write128 addr v else mem_write addr 8 (v_d0 v)) ;;
  ret (u64 (addr + regbytes)).
(** One element of the de-interleaved form. *)
Definition vector_multi_elem (L : bool) (Rt ebytes e r addr : Z) : M (St Mem) Z :=
  let vt := Z.land (Rt + r) 31 in
  let off := e * ebytes in
  (if L then t <- mem_read addr ebytes; lane_put vt off ebytes t
   else t <- lane_get vt off ebytes; mem_write addr ebytes t) ;;
  ret (u64 (addr + ebytes)).

(** The post-index writeback of the structure forms. *)
Definition vector_post (insn base total : Z) : M (St Mem) unit :=
  let Rm := BITS insn 20 16 in let Rn := BITS insn 9 5 in
  if BITb insn 23 then
    inc <- (if Rm =? 31 then ret total else reg_x Rm);
    set_xsp Rn (u64 (base + inc))
  else ret tt.

Definition ldst_vector_multi (insn : Z) : M (St Mem) unit :=
  let Q := BITb insn 30 in let L := BITb insn 22 in
  let opcode := BITS insn 15 12 in let size := BITS insn 11 10 in
  let Rn := BITS insn 9 5 in let Rt := BITS insn 4 0 in
  match vector_multi_shape opcode with
  | None => undefined
  | Some (nregs, sel) =>
      let regbytes := if Q then 16 else 8 in
      base <- reg_xsp Rn;
      (if sel =? 1 then
         for_loop (Z.to_nat nregs) 0 (vector_multi_contig Q L Rt regbytes) base
       else
         let ebytes := Z.shiftl 1 size in let elems := regbytes / ebytes in
         (if L then for_loop (Z.to_nat nregs) 0
                      (fun r _ => set_v (Z.land (Rt + r) 31) 0) tt
          else ret tt) ;;
         for_loop (Z.to_nat elems) 0
           (fun e => for_loop (Z.to_nat nregs) 0 (vector_multi_elem L Rt ebytes e)) base) ;;
      vector_post insn base (nregs * regbytes)
  end.

(** (replicate, ebytes, index) of a single-structure encoding, [None] when
    it is unallocated. *)
Definition vector_single_shape (insn : Z) : option (bool * Z * Z) :=
  let Q := BIT insn 30 in let L := BITb insn 22 in
  let opcode := BITS insn 15 13 in let S := BIT insn 12 in
  let size := BITS insn 11 10 in
  match Z.shiftr opcode 1 with
  | 0 => Some (false, 1, Z.lor (Z.lor (Z.shiftl Q 3) (Z.shiftl S 2)) size)
  | 1 => if has size 1 then None
         else Some (false, 2, Z.lor (Z.lor (Z.shiftl Q 2) (Z.shiftl S 1)) (Z.shiftr size 1))
  | 2 => if has size 2 then None
         else if Z.land size 1 =? 0 then Some (false, 4, Z.lor (Z.shiftl Q 1) S)
         else if negb (S =? 0) then None
         else Some (false, 8, Q)
  | _ => if negb L || negb (S =? 0) then None
         else Some (true, Z.shiftl 1 size, 0)
  end.

(** The replication loop of LD1R ... LD4R. *)
Fixpoint replicate_lanes (n : nat) (i ebytes elem : Z) (v : V128) : V128 :=
  match n with
  | O => v
  | S k => replicate_lanes k (i + 1) ebytes elem (v_put_bytes v (i * ebytes) ebytes elem)
  end.

Definition vector_single_reg (L replicate : bool) (Rt ebytes index Qbytes r addr : Z) :
    M (St Mem) Z :=
  let vt := Z.land (Rt + r) 31 in
  (if replicate then
     elem <- mem_read addr ebytes;
     set_v vt (replicate_lanes (Z.to_nat (Qbytes / ebytes)) 0 ebytes elem 0)
   else if L then
     elem <- mem_read addr ebytes;
     lane_put vt (index * ebytes) ebytes elem
   else
     elem <- lane_get vt (index * ebytes) ebytes;
     mem_write addr ebytes elem) ;;
  ret (u64 (addr + ebytes)).

Definition ldst_vector_single (insn : Z) : M (St Mem) unit :=
  let Q := BITb insn 30 in let L := BITb insn 22 in let R := BIT insn 21 in
  let opcode := BITS insn 15 13 in
  let Rn := BITS insn 9 5 in let Rt := BITS insn 4 0 in
  let selem := Z.lor (Z.shiftl (Z.land opcode 1) 1) R + 1 in
  match vector_single_shape insn with
  | None => undefined
  | Some (replicate, ebytes, index) =>
      base <- reg_xsp Rn;
      for_loop (Z.to_nat selem) 0
        (vector_single_reg L replicate Rt ebytes index (if Q then 16 else 8)) base ;;
      vector_post insn base (selem * ebytes)
  end.

Definition loads_stores (insn : Z) : M (St Mem) unit :=
  let b2927 := BITS insn 29 27 in
  if b2927 =? 0x7 then ldst_register insn
  else if b2927 =? 0x5 then ldst_pair insn
  else if (b2927 =? 0x3) && (BITS insn 25 24 =? 0) then ldst_literal insn
  else if (b2927 =? 0x1) && (BITS insn 26 24 =? 0) then ldst_exclusive insn
  else if (b2927 =? 0x1) && (BIT insn 26 =? 1) && (BIT insn 25 =? 0) && (BIT insn 24 =? 0)
  then ldst_vector_multi insn
  else if (b2927 =? 0x1) && (BIT insn 26 =? 1) && (BIT insn 25 =? 0) && (BIT insn 24 =? 1)
  then ldst_vector_single insn
  else if (b2927 =? 0x3) && (BIT insn 26 =? 0) && (BITS insn 25 24 =? 1)
          && (BIT insn 21 =? 0) && (BITS insn 11 10 =? 0)
  then ldst_rcpc_unscaled insn
  else if (b2927 =? 0x3) && (BITS insn 25 24 =? 1) && (BIT insn 21 =? 0)
          && (BITS insn 11 10 =? 1)
  then mops insn
  else undefined.

End LdSt.
