(* ===== verification/Sysreg.v ===== *)
(** * Sysreg: system registers (core/sysreg.c)

    MRS, MSR (register and immediate), SYS and the EL0 gate in front of them.
    The generic-timer count and the folding of pending FP flags come from the
    host; they are the [Hooks] of the model. [timer_update] has no provider
    in the program (a weak symbol tested against NULL), so its call is
    absent. *)

From S2P Require Import Prelude Types Cpu MemSeam Mops.

(** What the core takes from outside the integer core: the host clock read by
    [gt_count], the FP flag folding [fpsr_sync] and the FP/SIMD unit
    [exec_fpsimd] (exec_fpsimd.c). *)
Class Hooks (Mem : Type) := {
  gt_count : bool -> M (St Mem) Z;
  fpsr_sync : M (St Mem) unit;
  exec_fpsimd : Z -> M (St Mem) unit
}.

(** A C [switch] over integer labels: the first case whose label matches. *)
Fixpoint switch {A} (key : Z) (cases : list (Z * A)) (dflt : A) : A :=
  match cases with
  | [] => dflt
  | (k, a) :: rest => if key =? k then a else switch key rest dflt
  end.

Definition KEY (op0 op1 crn crm op2 : Z) : Z :=
  Z.lor (Z.lor (Z.lor (Z.lor (Z.shiftl op0 16) (Z.shiftl op1 13)) (Z.shiftl crn 9))
               (Z.shiftl crm 5)) op2.

Definition SCTLR_UMA : Z := Z.shiftl 1 9.
Definition SCTLR_DZE : Z := Z.shiftl 1 14.
Definition SCTLR_UCT : Z := Z.shiftl 1 15.
Definition SCTLR_UCI : Z := Z.shiftl 1 26.
Definition CNTK_EL0PCTEN : Z := Z.shiftl 1 0.
Definition CNTK_EL0VCTEN : Z := Z.shiftl 1 1.
Definition CNTK_EL0VTEN : Z := Z.shiftl 1 8.
Definition CNTK_EL0PTEN : Z := Z.shiftl 1 9.

(** [el0_allowed] under SCTLR_EL1 and CNTKCTL_EL1. *)
Definition el0_allowed (sctlr kctl : Z) (L : bool) (op0 op1 CRn CRm op2 Rt : Z) : bool :=
  match op0 with
  | 0 =>
      if L || negb (CRn =? 4) || negb (Rt =? 31) then false
      else if (op1 =? 0) && (CRm =? 0) && (op2 <=? 2) then true
      else if (op1 =? 3) && ((op2 =? 6) || (op2 =? 7)) then has sctlr SCTLR_UMA
      else false
  | 1 =>
      if L || negb (op1 =? 3) || negb (CRn =? 7) || negb (op2 =? 1) then false
      else if CRm =? 4 then has sctlr SCTLR_DZE
      else if (CRm =? 5) || (CRm =? 10) || (CRm =? 11) || (CRm =? 14)
      then has sctlr SCTLR_UCI
      else false
  | 2 => false
  | _ =>
      switch (KEY 3 op1 CRn CRm op2)
        [ (KEY 3 3 4 2 0, true);                    (* NZCV *)
          (KEY 3 3 4 4 0, true);                    (* FPCR *)
          (KEY 3 3 4 4 1, true);                    (* FPSR *)
          (KEY 3 3 13 0 2, true);                   (* TPIDR_EL0 *)
          (KEY 3 3 13 0 3, L);                      (* TPIDRRO_EL0 *)
          (KEY 3 3 0 0 7, L);                       (* DCZID_EL0 *)
          (KEY 3 3 0 0 1, L && has sctlr SCTLR_UCT);        (* CTR_EL0 *)
          (KEY 3 3 4 2 1, has sctlr SCTLR_UMA);             (* DAIF *)
          (KEY 3 3 14 0 0, L && has kctl (Z.lor CNTK_EL0PCTEN CNTK_EL0VCTEN)); (* CNTFRQ *)
          (KEY 3 3 14 0 1, L && has kctl CNTK_EL0PCTEN);    (* CNTPCT_EL0 *)
          (KEY 3 3 14 0 2, L && has kctl CNTK_EL0VCTEN);    (* CNTVCT_EL0 *)
          (KEY 3 3 14 2 0, has kctl CNTK_EL0PTEN);          (* CNTP_* *)
          (KEY 3 3 14 2 1, has kctl CNTK_EL0PTEN);
          (KEY 3 3 14 2 2, has kctl CNTK_EL0PTEN);
          (KEY 3 3 14 3 0, has kctl CNTK_EL0VTEN);          (* CNTV_* *)
          (KEY 3 3 14 3 1, has kctl CNTK_EL0VTEN);
          (KEY 3 3 14 3 2, has kctl CNTK_EL0VTEN) ]
        false
  end.

Section Sysreg.
Context {Mem : Type} `{MemSeam Mem} `{Hooks Mem}.
Local Open Scope exec_scope.

(** [c->bank[i]], read and written. *)
Definition bank_get (f : SysRegs -> list Z) (i : Z) : M (St Mem) Z := fun s =>
  match f (c_sys (s_cpu s)) !! Z.to_nat i with
  | Some v => Ok v s
  | None => UB
  end.
Definition bank_set (f : SysRegs -> list Z) (w : list Z -> SysRegs -> SysRegs) (i v : Z) :
    M (St Mem) unit := fun s =>
  if (Z.to_nat i <? length (f (c_sys (s_cpu s))))%nat
  then Ok tt (upd_cpu (fun c => with_sys (w (<[Z.to_nat i := v]> (f (c_sys c))) (c_sys c)) c) s)
  else UB.
Definition sys_get (f : SysRegs -> Z) : M (St Mem) Z := getc (fun c => f (c_sys c)).
Definition sys_set (w : Z -> SysRegs -> SysRegs) (v : Z) : M (St Mem) unit :=
  putc (fun c => with_sys (w v (c_sys c)) c).
Definition flushM : M (St Mem) unit := modify (upd_mem tlb_flush_all).

Definition msr_immediate (insn : Z) : M (St Mem) unit :=
  let op1 := Z.land (Z.shiftr insn 16) 7 in let op2 := Z.land (Z.shiftr insn 5) 7 in
  let crm := Z.land (Z.shiftr insn 8) 0xf in
  nzcv <- getc c_nzcv;
  let zf := has nzcv PS_Z in let cf := has nzcv PS_C in let vf := has nzcv PS_V in
  if (op1 =? 0) && (op2 =? 5) then putc (with_sp_sel (Z.land crm 1))
  else if (op1 =? 0) && (crm =? 0) && (op2 =? 0) then putc (with_nzcv (Z.lxor nzcv PS_C))
  else if (op1 =? 0) && (crm =? 0) && (op2 =? 1) then
    putc (with_nzcv (mk_nzcv (negb cf && negb zf) (zf && cf) (cf || zf) (negb cf && zf)))
  else if (op1 =? 0) && (crm =? 0) && (op2 =? 2) then
    putc (with_nzcv (Z.lor (if zf || vf then PS_Z else 0) (if cf && negb vf then PS_C else 0)))
  else if (op1 =? 3) && (op2 =? 6) then
    putc (fun c => with_daif (Z.lor (c_daif c) (Z.shiftl (Z.land crm 0xf) 6)) c)
  else if (op1 =? 3) && (op2 =? 7) then
    putc (fun c => with_daif
            (Z.land (c_daif c) (not32 (Z.shiftl (Z.land crm 0xf) 6))) c)
  else ret tt.

(** The eight-word fallback of DC ZVA. *)
Fixpoint zva_loop (n : nat) (i base : Z) : M (St Mem) unit :=
  match n with
  | O => ret tt
  | S k => mem_write (u64 (base + i)) 8 0 ;; zva_loop k (i + 8) base
  end.

Definition sys_op (CRn CRm op2 Rt : Z) : M (St Mem) unit :=
  if CRn =? 8 then flushM
  else if CRn =? 7 then
    if (CRm =? 4) && (op2 =? 1) then
      t <- reg_x Rt;
      let base := Z.land t (not64 63) in
      hp <- mem_host_ptr base 64 ACC_WRITE;
      match hp with
      | Some hp => modify (upd_mem (host_set 64 hp 0))
      | None => zva_loop 8 0 base
      end
    else ret tt
  else ret tt.

(** CNTx_TVAL: the signed 32-bit view of what is left. *)
Definition tval_view (cval count : Z) : Z := u64 (s32 (u64 (cval - count))).
(** CNTx_CTL with ISTATUS. *)
Definition timer_ctl (ctl cval count : Z) : Z :=
  let v := Z.land ctl 3 in
  if has ctl 1 && (cval <=? count) then Z.lor v 4 else v.

Definition mrs_cases : list (Z * M (St Mem) Z) :=
  [ (KEY 3 0 0 0 0, ret 0x411fd070);                (* MIDR_EL1 *)
    (KEY 3 0 0 0 5, sys_get r_mpidr);
    (KEY 3 0 0 0 6, ret 0);
    (KEY 3 3 0 0 1, ret 0x8444c004);                (* CTR_EL0 *)
    (KEY 3 3 0 0 7, ret 4);                         (* DCZID_EL0 *)
    (KEY 3 0 0 4 0, ret 0x110011);                  (* ID_AA64PFR0_EL1 *)
    (KEY 3 0 0 4 1, ret 0);
    (KEY 3 0 0 5 0, ret 0x10305106);                (* ID_AA64DFR0_EL1 *)
    (KEY 3 0 0 5 1, ret 0);
    (KEY 3 0 0 6 0, ret 0x21100110212120);          (* ID_AA64ISAR0_EL1 *)
    (KEY 3 0 0 6 1, ret 0x211000);                  (* ID_AA64ISAR1_EL1 *)
    (KEY 3 0 0 6 2, ret 0x10000);                   (* ID_AA64ISAR2_EL1 *)
    (KEY 3 0 0 7 0, ret 0x0F001124);                (* ID_AA64MMFR0_EL1 *)
    (KEY 3 0 0 7 1, ret 0);
    (KEY 3 0 0 7 2, ret 0);
    (KEY 3 0 1 0 0, bank_get r_sctlr 1);
    (KEY 3 0 1 0 1, ret 0);
    (KEY 3 0 1 0 2, sys_get r_cpacr_el1);
    (KEY 3 0 2 0 0, bank_get r_ttbr0 1);
    (KEY 3 0 2 0 1, bank_get r_ttbr1 1);
    (KEY 3 0 2 0 2, bank_get r_tcr 1);
    (KEY 3 0 10 2 0, bank_get r_mair 1);
    (KEY 3 0 10 3 0, bank_get r_amair 1);
    (KEY 3 0 12 0 0, bank_get r_vbar 1);
    (KEY 3 0 5 1 0, ret 0);
    (KEY 3 0 5 1 1, ret 0);
    (KEY 3 0 5 2 0, bank_get r_esr 1);
    (KEY 3 0 6 0 0, bank_get r_far 1);
    (KEY 3 0 7 4 0, sys_get r_par_el1);
    (KEY 3 0 13 0 1, sys_get r_contextidr_el1);
    (KEY 3 0 13 0 4, bank_get r_tpidr 1);
    (KEY 3 3 13 0 2, bank_get r_tpidr 0);
    (KEY 3 3 13 0 3, sys_get r_tpidrro_el0);
    (KEY 2 0 0 2 2, sys_get r_mdscr_el1);
    (KEY 3 0 4 2 2, getc (fun c => u64 (Z.shiftl (c_el c) 2)));
    (KEY 3 0 4 2 0, getc c_sp_sel);
    (KEY 3 3 4 2 0, getc (fun c => Z.land (c_nzcv c) 0xf0000000));
    (KEY 3 3 4 2 1, getc (fun c =>
       Z.land (c_daif c) (Z.lor (Z.lor (Z.lor PS_D PS_A) PS_I) PS_F)));
    (KEY 3 3 4 4 0, getc c_fpcr);
    (KEY 3 3 4 4 1, fpsr_sync ;; getc c_fpsr);
    (KEY 3 0 4 0 0, bank_get r_spsr 1);
    (KEY 3 0 4 0 1, bank_get r_elr 1);
    (KEY 3 0 4 1 0, fun s => match c_sp_el (s_cpu s) !! 0%nat with
                             | Some v => Ok v s | None => UB end);
    (KEY 3 3 14 0 0, sys_get r_cntfrq);
    (KEY 3 3 14 0 1, gt_count false);
    (KEY 3 3 14 0 2, gt_count true);
    (KEY 3 3 14 2 0, n <- gt_count false; sys_get (fun r => tval_view (r_cntp_cval r) n));
    (KEY 3 3 14 2 1, ctl <- sys_get r_cntp_ctl;
                     if has ctl 1 then
                       n <- gt_count false;
                       sys_get (fun r => timer_ctl ctl (r_cntp_cval r) n)
                     else ret (Z.land ctl 3));
    (KEY 3 3 14 2 2, sys_get r_cntp_cval);
    (KEY 3 3 14 3 0, n <- gt_count true; sys_get (fun r => tval_view (r_cntv_cval r) n));
    (KEY 3 3 14 3 1, ctl <- sys_get r_cntv_ctl;
                     if has ctl 1 then
                       n <- gt_count true;
                       sys_get (fun r => timer_ctl ctl (r_cntv_cval r) n)
                     else ret (Z.land ctl 3));
    (KEY 3 3 14 3 2, sys_get r_cntv_cval);
    (KEY 3 0 14 1 0, sys_get r_cntkctl_el1) ].

Definition mrs_value (key : Z) : M (St Mem) Z := switch key mrs_cases (ret 0).
Definition do_mrs (key Rt : Z) : M (St Mem) unit := v <- mrs_value key; set_x Rt v.
Definition sysreg_id_read (CRm op2 : Z) : M (St Mem) Z := mrs_value (KEY 3 0 0 CRm op2).

Definition msr_cases (v : Z) : list (Z * M (St Mem) unit) :=
  [ (KEY 3 0 1 0 0, bank_set r_sctlr with_sctlr 1 v ;; flushM);
    (KEY 3 0 1 0 2, sys_set with_cpacr_el1 v);
    (KEY 3 0 2 0 0, bank_set r_ttbr0 with_ttbr0 1 v ;; flushM);
    (KEY 3 0 2 0 1, bank_set r_ttbr1 with_ttbr1 1 v ;; flushM);
    (KEY 3 0 2 0 2, bank_set r_tcr with_tcr 1 v ;; flushM);
    (KEY 3 0 10 2 0, bank_set r_mair with_mair 1 v);
    (KEY 3 0 10 3 0, bank_set r_amair with_amair 1 v);
    (KEY 3 0 12 0 0, bank_set r_vbar with_vbar 1 v);
    (KEY 3 0 5 2 0, bank_set r_esr with_esr 1 v);
    (KEY 3 0 6 0 0, bank_set r_far with_far 1 v);
    (KEY 3 0 7 4 0, sys_set with_par_el1 v);
    (KEY 3 0 13 0 1, sys_set with_contextidr_el1 v);
    (KEY 3 0 13 0 4, bank_set r_tpidr with_tpidr 1 v);
    (KEY 3 3 13 0 2, bank_set r_tpidr with_tpidr 0 v);
    (KEY 3 3 13 0 3, sys_set with_tpidrro_el0 v);
    (KEY 2 0 0 2 2, sys_set with_mdscr_el1 v);
    (KEY 3 0 4 2 0, putc (with_sp_sel (Z.land v 1)));
    (KEY 3 3 4 2 0, putc (with_nzcv (u32 (Z.land v 0xf0000000))));
    (KEY 3 3 4 2 1, putc (with_daif
       (u32 (Z.land v (Z.lor (Z.lor (Z.lor PS_D PS_A) PS_I) PS_F)))));
    (KEY 3 3 4 4 0, putc (with_fpcr (u32 v)));
    (KEY 3 3 4 4 1, fpsr_sync ;; putc (with_fpsr (u32 v)));
    (KEY 3 0 4 0 0, bank_set r_spsr with_spsr 1 v);
    (KEY 3 0 4 0 1, bank_set r_elr with_elr 1 v);
    (KEY 3 0 4 1 0, fun s =>
       if (0 <? length (c_sp_el (s_cpu s)))%nat
       then Ok tt (upd_cpu (fun c => with_sp_el (<[0%nat := v]> (c_sp_el c)) c) s)
       else UB);
    (KEY 3 3 14 0 0, sys_set with_cntfrq v);
    (KEY 3 3 14 2 0, n <- gt_count false; sys_set with_cntp_cval (u64 (n + s32 v)));
    (KEY 3 3 14 2 1, sys_set with_cntp_ctl v);
    (KEY 3 3 14 2 2, sys_set with_cntp_cval v);
    (KEY 3 3 14 3 0, n <- gt_count true; sys_set with_cntv_cval (u64 (n + s32 v)));
    (KEY 3 3 14 3 1, sys_set with_cntv_ctl v);
    (KEY 3 3 14 3 2, sys_set with_cntv_cval v);
    (KEY 3 0 14 1 0, sys_set with_cntkctl_el1 v) ].

Definition do_msr (key Rt : Z) : M (St Mem) unit :=
  v <- reg_x Rt;
  switch key (msr_cases v) (ret tt).

(** The EL0 gate of [sysreg_exec]. *)
Definition el0_gate (L : bool) (op0 op1 CRn CRm op2 Rt : Z) : M (St Mem) unit :=
  el <- getc c_el;
  if el =? 0 then
    sctlr <- bank_get r_sctlr 1;
    kctl <- sys_get r_cntkctl_el1;
    if el0_allowed sctlr kctl L op0 op1 CRn CRm op2 Rt then ret tt else undefined
  else ret tt.

Definition sysreg_exec (insn : Z) : M (St Mem) unit :=
  let L := negb (Z.land (Z.shiftr insn 21) 1 =? 0) in
  let op0 := Z.land (Z.shiftr insn 19) 3 in let op1 := Z.land (Z.shiftr insn 16) 7 in
  let CRn := Z.land (Z.shiftr insn 12) 0xf in let CRm := Z.land (Z.shiftr insn 8) 0xf in
  let op2 := Z.land (Z.shiftr insn 5) 7 in let Rt := Z.land insn 0x1f in
  el0_gate L op0 op1 CRn CRm op2 Rt ;;
  if op0 =? 0 then msr_immediate insn
  else if op0 =? 1 then
    if negb L then sys_op CRn CRm op2 Rt else set_x Rt 0
  else
    let key := KEY op0 op1 CRn CRm op2 in
    if L then do_mrs key Rt else do_msr key Rt.

Definition sysreg_init : M (St Mem) unit :=
  bank_set r_sctlr with_sctlr 1
    (Z.lor (Z.lor (Z.lor (Z.lor 0x00C50838 SCTLR_DZE) SCTLR_UCT) SCTLR_UCI) (Z.shiftl 1 33)) ;;
  sys_set with_cntkctl_el1 CNTK_EL0VCTEN ;;
  sys_set with_cpacr_el1 0 ;;
  sys_set with_mdscr_el1 0 ;;
  fpsr_sync ;;
  putc (with_fpsr 0).

End Sysreg.
