(* ===== verification/Decode.v ===== *)
(** * Decode: branches, the top-level dispatch and the step (decode.c, cpu.c)

    [branch_system], [exec_a64], and from cpu.c [cpu_reset] and [cpu_step].
    HVC and SMC have no conduit in this program ([smccc_conduit] is a weak
    symbol without a provider), so both are UNDEFINED. The per-instruction
    debug facilities of [cpu_step] are off. *)

From S2P Require Import Prelude Types Cpu MemSeam Alu DpExec Atomics Mops LdSt Sysreg.

Section Decode.
Context {Mem : Type} `{MemSeam Mem} `{Hooks Mem}.
Local Open Scope exec_scope.

(** [c->pc = c->cur_insn_pc + (sign_extend(field, bits) << 2)]. *)
Definition branch_to (field bits : Z) : M (St Mem) unit :=
  putc (fun c => with_pc
    (u64 (c_cur_insn_pc c + u64 (Z.shiftl (sign_extend field bits) 2))) c).

(** SVC, HVC, SMC, BRK, HLT. *)
Definition exception_gen (insn : Z) : M (St Mem) unit :=
  let opc := BITS insn 23 21 in let ll := BITS insn 1 0 in let imm16 := BITS insn 20 5 in
  el <- getc c_el;
  if (opc =? 0) && (ll =? 1) then
    pc <- getc c_pc;
    fault (exception_take (esr_make EC_SVC64 imm16) 0 pc)
  else if (opc =? 0) && (ll =? 2) then undefined
  else if (opc =? 0) && (ll =? 3) then undefined
  else if (opc =? 1) && (ll =? 0) then fault (cpu_raise_sync (esr_make EC_BRK64 imm16) 0)
  else if (opc =? 2) && (ll =? 0) && negb (el =? 0) then putc (with_stop true)
  else undefined.

(** BR, BLR, RET, ERET. *)
Definition branch_reg (insn : Z) : M (St Mem) unit :=
  let opc := BITS insn 24 21 in let Rn := BITS insn 9 5 in
  tgt <- reg_x Rn;
  match opc with
  | 0 => putc (with_pc tgt)
  | 1 => cur <- getc c_cur_insn_pc;
         set_x 30 (u64 (cur + 4)) ;; putc (with_pc tgt)
  | 2 => t <- reg_x Rn; putc (with_pc t)
  | 4 => el <- getc c_el;
         if el =? 0 then undefined else
         spsr <- bank_get r_spsr el;
         elr <- bank_get r_elr el;
         putc (cpu_unpack_spsr (u32 spsr)) ;;
         putc (with_pc elr)
  | _ => undefined
  end.

Definition branch_system (insn : Z) : M (St Mem) unit :=
  let top6 := BITS insn 31 26 in
  if top6 =? 0x05 then branch_to (BITS insn 25 0) 26
  else if top6 =? 0x25 then
    cur <- getc c_cur_insn_pc;
    set_x 30 (u64 (cur + 4)) ;;
    branch_to (BITS insn 25 0) 26
  else if (BITS insn 31 24 =? 0x54) && (BIT insn 4 =? 0) then
    nzcv <- getc c_nzcv;
    if cond_holds nzcv (BITS insn 3 0) then branch_to (BITS insn 23 5) 19 else ret tt
  else if BITS insn 30 25 =? 0x1a then
    let sf := BITb insn 31 in let op := BITb insn 24 in let Rt := BITS insn 4 0 in
    v <- reg_x_sz Rt sf;
    if (if op then negb (v =? 0) else v =? 0) then branch_to (BITS insn 23 5) 19 else ret tt
  else if BITS insn 30 25 =? 0x1b then
    let op := BITb insn 24 in
    let bitpos := Z.lor (Z.shiftl (BIT insn 31) 5) (BITS insn 23 19) in
    let Rt := BITS insn 4 0 in
    v <- reg_x Rt;
    let set := has (Z.shiftr v bitpos) 1 in
    if (if op then set else negb set) then branch_to (BITS insn 18 5) 14 else ret tt
  else if BITS insn 31 24 =? 0xd4 then exception_gen insn
  else if BITS insn 31 25 =? 0x6b then branch_reg insn
  else if BITS insn 31 24 =? 0xd5 then
    let L := BIT insn 21 in let op0 := BITS insn 20 19 in let op1 := BITS insn 18 16 in
    let CRn := BITS insn 15 12 in let CRm := BITS insn 11 8 in
    let op2 := BITS insn 7 5 in let Rt := BITS insn 4 0 in
    if (L =? 0) && (op0 =? 0) && (op1 =? 3) && (CRn =? 2) && (Rt =? 31) then
      if (CRm =? 0) && ((op2 =? 2) || (op2 =? 3)) then putc (with_halted true) else ret tt
    else if (L =? 0) && (op0 =? 0) && (op1 =? 3) && (CRn =? 3) && (Rt =? 31) then
      if op2 =? 2 then putc (with_excl_valid false) else ret tt
    else sysreg_exec insn
  else undefined.

Definition exec_a64 (insn : Z) : M (St Mem) unit :=
  match Z.land (Z.shiftr insn 25) 0xf with
  | 0x8 | 0x9 => dp_immediate insn
  | 0xa | 0xb => branch_system insn
  | 0x4 | 0x6 | 0xc | 0xe => loads_stores insn
  | 0x5 | 0xd => dp_register insn
  | 0x7 | 0xf => exec_fpsimd insn
  | _ => undefined
  end.

(** ** cpu.c *)

Definition zero_sysregs : SysRegs :=
  let z4 := replicate 4 0 in
  mkSysRegs z4 z4 z4 z4 z4 z4 z4 z4 z4 z4 z4 z4 0 0 0 0 0 0 0 0 0 0 0 0.
Definition zero_cpu : CPU :=
  mkCPU (replicate 31 0) 0 0 0 0 0 (replicate 4 0) (replicate 32 0) 0 0 zero_sysregs
        false 0 0 0 0 false false false false 0 0.

Definition cpu_reset (entry reset_el : Z) : M (St Mem) unit :=
  putc (fun _ => with_sys (with_mpidr (Z.shiftl 1 31) (with_cntfrq 24000000 zero_sysregs))
    (with_nzcv 0 (with_daif (Z.lor (Z.lor (Z.lor PS_D PS_A) PS_I) PS_F)
      (with_sp_sel 1 (with_el (u8 reset_el) (with_pc entry zero_cpu)))))) ;;
  sysreg_init.

Inductive StepResult := STEP_OK | STEP_HALT.

(** Run a handler that returns nothing: its caller goes on in the state it
    left, whether or not it recorded an exception. *)
Definition call {A} (m : M (St Mem) A) : M (St Mem) unit := fun s =>
  match m s with Ok _ s' => Ok tt s' | Fault s' => Ok tt s' | UB => UB end.

(** [cpu_step]. *)
Definition cpu_step : M (St Mem) StepResult := fun s =>
  let c := s_cpu s in
  if c_stop c then Ok STEP_HALT s
  else if c_fiq_line c && negb (has (c_daif c) PS_F)
  then Ok STEP_OK (exception_take 0 0 (c_pc c) s)
  else if c_irq_line c && negb (has (c_daif c) PS_I)
  then Ok STEP_OK (exception_take 0 0 (c_pc c) s)
  else if c_halted c then Ok STEP_OK s
  else
    let s := upd_cpu (fun c => with_cur_insn_pc (c_pc c) c) s in
    match mem_ifetch (c_pc c) s with
    | UB => UB
    | Fault s' => Ok STEP_OK s'
    | Ok insn s' =>
        (putc (fun c => with_pc (u64 (c_pc c + 4)) c) ;;
         call (exec_a64 insn) ;;
         putc (fun c => with_icount (u64 (c_icount c + 1)) c) ;;
         stop <- getc c_stop;
         ret (if stop : bool then STEP_HALT else STEP_OK)) s'
    end.

End Decode.
