(* ===== verification/AsClaims.v ===== *)
(** * AsClaims: what the address space promises its callers

    The theorems about mem.c, for any host kernel that keeps what mmap(2) and
    mremap(2) promise: the invariant of every state the operations reach, what
    each operation does to every byte of guest memory, that [translate]
    refines the map of the guest's memory, the copies, and the vfork
    write-back. *)

From stdpp Require Import gmap.
From S2P Require Import Prelude Types Cpu CpuWf MemSeam PageTable Regions Epoch AsState AddrSpace AsInv AsSteps AsThms.
From S2P Require Import AsProtect AsMove Translate Access AsSeam AsGrow TransThms MmStep MmReach Vfork CopyThms MmLimit SimHost.
From S2P Require Import Decode.

Section Claims.
Context {Os : Type} `{!HostOs Os} `{!HostOsOk Os}.
Implicit Types s : MS Os.

(** C6: in every state that the operations of [mm_op] lead to from an empty
    address space (mapping of anonymous memory, stacks and files, unmapping,
    protecting, moving, searching, locking, fork advice, marks, accesses with
    the stack growth they cause, and stores), where the host cut no mprotect
    short partway ([granted]), the region table, the page table, the host
    allocations, the quarantine, the stacks' reserved room and the thread's
    D-TLB agree with each other. The growth and duplication of mremap,
    MREMAP_DONTUNMAP, resized files, fork and vfork are not among the
    operations. [protect_refused_partway] is why the host's refusal matters. *)
Theorem reachable_space_ok (o : Os) e tid s : mm_reach o e tid s -> space_ok s.
Proof. apply reach_space. Qed.

(** C35: the page table of every state that the operations of [mm_op] lead to
    from an empty address space, where the host cut no mprotect short partway,
    is well formed (the growth and duplication of mremap, MREMAP_DONTUNMAP,
    resized files, fork and vfork are not among the operations): tables have
    their exact number of entries in use, every entry is a 64-bit word whose
    high part is a page-aligned host address and whose low bits are the
    permission, and the regions are sorted, disjoint and page aligned. *)
Theorem reachable_page_table (o : Os) e tid s : mm_reach o e tid s ->
  pt_wf (pt s) /\ regions_ok (regs s) /\
  forall va, fits 64 (pte_get (pt s) va) /\
    (pte_get (pt s) va <> 0 -> 0 < pte_host (pte_get (pt s) va) /\ aligned (pte_host (pte_get (pt s) va)) /\
       pte_get (pt s) va = Z.lor (pte_host (pte_get (pt s) va)) (pte_prot (pte_get (pt s) va))).
Proof.
  intros Hr. pose proof (sp_inv s (reach_space o e tid s Hr)) as Hi. pose proof (hi_regs _ (ai_heap s Hi)) as Hok.
  split; [apply Hi|]. split; [done|]. intros va. destruct (as_inv_pte_ok s Hi va) as [H64 Hp]. split; [done|]. intros Hn.
  split; [by apply Hp|]. split; [|symmetry; by apply pte_split]. destruct (ai_pte s Hi va Hn) as (v & El & Hv).
  destruct (pte_of_ok _ va v _ Hok (hinv_host_bound s (ai_heap s Hi)) El Hv) as (_ & -> & _).
  destruct (look_ok _ _ _ Hok El) as (_ & _ & _ & Ha). apply Ha, pg_aligned.
Qed.

(** C4: a translation, D-TLB and cold paths included, answers with the host
    byte of the mapping the address has, and only if the mapping allows the
    access; a refusal says whether there is a page at all. Whatever it does to
    the table, every byte that was mapped stays mapped with its value. *)
Theorem translate_refines nogrow va need s : space_ok s -> fits 3 need ->
  let '(r, s') := as_translate nogrow va need s in
  let a := data_va va need in
  space_ok s' /\
  (forall a' v, look (regs s) a' = Some v -> look (regs s') a' = Some v /\ guest_byte s' a' = guest_byte s a') /\
  match r with
  | (Some p, _) => exists v, look (regs s') a = Some v /\ p = r_host v /\ Z.land (r_prot v) need = need /\
                             guest_byte s' a = Some (host_get p s')
  | (None, true) => pte_get (pt s') a <> 0 /\ Z.land (pte_get (pt s') a) need <> need
  | (None, false) => GUEST_TASK_SIZE <= a \/ pte_get (pt s') a = 0
  end.
Proof.
  intros Hs Hf. pose proof (translate_ok nogrow va need s Hs Hf) as Ht.
  destruct (as_translate nogrow va need s) as [[[p|] []] s']; destruct Ht as (H1 & H2 & H3); (split; [done|]); (split; [done|]); try done;
    destruct H3 as (v & El & -> & Hp); exists v; (repeat split; try done); unfold guest_byte; by rewrite El.
Qed.

(** A byte of ordinary memory that is mapped for an access is always
    reached: the walk, the D-TLB and the mending of write bits never refuse
    it. *)
Theorem translate_reaches nogrow va need s v : space_ok s -> need = PTE_R \/ need = PTE_W \/ need = PTE_X ->
  look (regs s) (data_va va need) = Some v -> r_hostmap v = 0 -> Z.land (r_prot v) need = need ->
  env_nomem (ms_env s) = false ->
  fst (as_translate nogrow va need s) = (Some (r_host v), false).
Proof. intros Hs Hn. apply translate_complete; [done|]. destruct Hn as [->|[->| ->]]; set_solver. Qed.

(** [guest_map_anon] answers 0 with exactly the range asked for mapped:
    private, with the permission asked for, every byte zero; or it answers an
    error. Nothing outside the range changes, and on an error nothing at all. *)
Theorem map_anon_spec addr len prot s : space_ok s -> 0 <= addr -> 0 <= len -> fits 3 prot ->
  let '(rc, s') := guest_map_anon addr len prot s in
  (rc = 0 /\ mapped_anon addr len prot s s') \/ (rc <> 0 /\ same_view s s').
Proof.
  intros Hs Ha Hl Hp. pose proof (map_anon_impl_ok s addr len prot (sp_inv s Hs) Ha Hl Hp) as H. unfold guest_map_anon.
  destruct (guest_map_anon_impl addr len prot s) as [rc s1]. destruct H as [Hi H].
  destruct (as_inv_finish true rc s1 Hi) as (_ & _ & [V1 V2 V3]). set (s2 := snd (finish true (rc, s1))) in *.
  change (finish true (rc, s1)) with (rc, s2). destruct H as [[-> [M1 M2 M3 M4]]|[Hne V]]; [left|right].
  - split; [done|]. split; intros a Ha'; rewrite ?V1, ?V2, ?V3; auto.
  - split; [done|]. by apply (same_view_trans _ s1).
Qed.

(** [guest_unmap] on a range of whole pages answers 0 and leaves no byte
    of it mapped and every other byte as it was; any other range is refused
    with EINVAL and nothing changes. *)
Theorem unmap_spec addr len s : space_ok s -> 0 <= addr -> 0 <= len ->
  let '(rc, s') := guest_unmap addr len s in
  (rc = 0 /\ (forall a, addr <= a < addr + len -> look (regs s') a = None /\ pte_get (pt s') a = 0) /\
   (forall a, ~ addr <= a < addr + len -> look (regs s') a = look (regs s) a /\ guest_byte s' a = guest_byte s a)) \/
  (rc = - EINVAL /\ same_view s s' /\ (misaligned (Z.lor addr len) = true \/ len = 0 \/ range_ok addr len = false)).
Proof.
  intros Hs Ha Hl. unfold guest_unmap, guest_unmap_impl. destruct (misaligned _ || _ || _) eqn:E.
  - right. destruct (as_inv_finish true (- EINVAL) s (sp_inv s Hs)) as (_ & _ & V). split; [done|]. split; [done|].
    apply orb_true_iff in E as [[E|E]%orb_true_iff|E]; [by left|right; left; lia|right; right; by apply negb_true_iff].
  - rewrite !orb_false_iff, negb_false_iff, misaligned_false, aligned_lor, range_ok_iff in E. destruct E as [[[Ea El] E0] Er].
    destruct (unmap_ok s addr len (sp_inv s Hs) Ea El ltac:(lia) Ha ltac:(lia)) as (U1 & U2 & U3).
    pose proof (ts_mem _ _ (proj1 (proj2 (punch_ok addr (addr + len) Ea (aligned_add _ _ Ea El) ltac:(lia) s (ai_heap s (sp_inv s Hs)))))) as Em.
    set (s1 := pte_set_range addr len 0 0 _) in *. destruct (as_inv_finish true 0 s1 U1) as (_ & _ & [V1 V2 V3]).
    change (finish true (0, s1)) with (0, snd (finish true (0, s1))). left. split; [done|]. split; intros a Ha'.
    + rewrite V1, V2, U2, U3. rewrite (proj2 (andb_true_iff _ _)) by lia. done.
    + rewrite V1, V3, U2. unfold guest_byte. rewrite U2. replace ((addr <=? a) && (a <? addr + len)) with false by lia.
      split; [done|]. change (ms_mem s1) with (ms_mem (region_punch addr (addr + len) s)). by rewrite Em.
Qed.

(** [guest_protect] answering 0 has given exactly the range the
    permission asked for, kept every byte of memory, and published the change:
    the generation moved and the caller's D-TLB is to be emptied. *)
Theorem protect_spec addr len prot s : space_ok s -> 0 <= addr -> 0 < len -> fits 3 prot ->
  fst (guest_protect addr len prot s) = 0 -> protected addr len prot s (snd (guest_protect addr len prot s)).
Proof.
  intros Hs Ha Hl Hp. unfold guest_protect. pose proof (protect_impl_ok addr len prot s (sp_inv s Hs) Ha Hl Hp) as H.
  destruct (guest_protect_impl addr len prot s) as [rc s']. cbn [fst snd]. intros ->. by apply H.
Qed.

(** C33: a mapping moved to free ground and back is as it was: every byte is
    mapped and reads as before, at its old address. *)
Theorem move_roundtrip addr len dst s : space_ok s -> 0 <= addr -> 0 <= len -> 0 <= dst ->
  (forall a, dst <= a < dst + len -> look (regs s) a = None) ->
  let '(rc, s1) := guest_remap_move addr len dst s in
  let '(rc', s2) := guest_remap_move dst len addr s1 in
  rc = 0 -> rc' = 0 /\ forall a, guest_byte s2 a = guest_byte s a /\
    (r_prot <$> look (regs s2) a) = (r_prot <$> look (regs s) a).
Proof.
  intros Hs Ha Hl Hd Hfree. pose proof (move_done addr len dst s (sp_inv s Hs) Ha Hl Hd) as H1.
  destruct (guest_remap_move addr len dst s) as [rc s1]. destruct H1 as (I1 & R1 & H1).
  pose proof (move_done dst len addr s1 I1 Hd Hl Ha) as H2. destruct (guest_remap_move dst len addr s1) as [rc' s2].
  destruct H2 as (_ & R2 & H2). intros ->. destruct (movable addr len dst) eqn:Em; [|done].
  destruct (movable_back addr len dst Em) as [Em' Hdis]. rewrite Em' in R2. split; [done|].
  destruct H1 as [[_ M]|[? _]]; [|done]. destruct H2 as [[_ M']|[? _]]; [|done].
  apply (moved_back addr len dst s s1 s1 s2); done.
Qed.

(** A list of guest bytes is what the memory says it is. *)
Lemma guest_has_inj s va l l' : guest_has s va l -> guest_has s va l' -> length l = length l' -> l = l'.
Proof.
  intros H1 H2 E. apply (nth_ext _ _ 0 0); [done|]. intros k Hk. specialize (H1 k Hk). specialize (H2 k ltac:(lia)). congruence.
Qed.
(** No region at a range's pages. *)
Lemma unmapped_at s addr len : forallb (fun r => (r_end r <=? addr) || (addr + len <=? r_start r)) (regs s) = true ->
  forall a, addr <= a < addr + len -> look (regs s) a = None.
Proof.
  intros H a Ha. destruct (look (regs s) a) as [v|] eqn:E; [|done]. apply look_some in E as (r & Hr & Hc & _).
  rewrite forallb_forall in H. apply list_elem_of_In in Hr. specialize (H r Hr). lia.
Qed.
Lemma each_quiet {A} (C : Type) (f : A -> C -> Z * C) l c : (forall a c, f a c = (0, c)) -> each C f l c = (0, c).
Proof. intros H. induction l as [|a l IH]; [done|]. simpl. rewrite H. exact IH. Qed.
(** [as_find_free] answers a page-aligned range that no mapping touches
    and no stack's guard gap either, below the ceiling; it answers 0 only if
    there is no such range above the mmap floor. *)
Theorem find_free_spec len s : space_ok s -> 0 <= len <= GUEST_TASK_SIZE -> place_ok (ms_as s) ->
  let '(b, s') := as_find_free len s in
  (0 < b /\ aligned b /\ b + PG_UP len <= FREE_LIMIT /\ gap_free (regs s) b (PG_UP len) /\ as_mmap_next (ms_as s') = b + PG_UP len /\
   forall a, b <= a < b + PG_UP len -> look (regs s) a = None) \/
  (b = 0 /\ s' = s /\ forall c, MMAP_FLOOR <= c -> c + PG_UP len <= FREE_LIMIT -> ~ gap_free (regs s) c (PG_UP len)).
Proof. intros Hs Hl Hp. apply find_free_ok; [apply Hs|done|done]. Qed.

(** C34: an access in the gap below a stack grows it, if the kernel's tests
    allow, by exactly the pages from the access up to the stack's old start:
    mapped with the stack's permission, every byte zero; or nothing the guest
    can see changes. *)
Theorem stack_growth_spec va s : space_ok s -> 0 <= va < GUEST_TASK_SIZE -> pte_get (pt s) va = 0 ->
  let '(pte, s') := as_stack_grow false va s in
  space_ok s' /\ pte = pte_get (pt s') va /\
  ((pte = 0 /\ same_view s s') \/
   exists i r, as_stack_grows_to va s = G_at i /\ regs s !! i = Some r /\ va < r_start r /\
     (forall a, pg va <= a < r_start r -> (r_prot <$> look (regs s') a) = Some (r_prot r) /\
        pte_get (pt s') a <> 0 /\ guest_byte s' a = Some 0) /\
     (forall a, ~ pg va <= a < r_start r -> look (regs s') a = look (regs s) a /\ guest_byte s' a = guest_byte s a)).
Proof.
  intros Hs Hva Hp. pose proof (space_grow false va s Hs Hva Hp) as H1.
  pose proof (stack_grow_ok false va s (sp_inv s Hs) (co_stk s (sp_core s Hs)) Hva Hp) as H2.
  destruct (as_stack_grow false va s) as [pte s']. destruct H1 as (H1 & _ & _). destruct H2 as (_ & _ & H3 & H4).
  split; [done|]. split; [done|]. destruct H4 as [H4|(i & r & E1 & E2 & E3 & _ & [G1 G2])]; [by left|right].
  exists i, r. repeat (split; [done|]). split.
  - intros a Ha. destruct (G1 a Ha) as ((v & El & Hpr & _) & Hn & Hb). rewrite El. simpl. by rewrite Hpr.
  - intros a Ha. by destruct (G2 a Ha) as (A1 & _ & A3).
Qed.

(** Bytes copied to guest memory that is mapped for reading and writing
    are read back by a copy from it, whatever pages the range spans; the copy
    to it succeeds, and every byte mapped outside the range is as it was. *)
Theorem copy_roundtrip va src (s : St (MS Os)) : space_ok (s_mem s) -> 0 <= va ->
  va + Z.of_nat (length src) <= GUEST_TASK_SIZE ->
  (forall k, 0 <= k < Z.of_nat (length src) -> plain_byte (s_mem s) PTE_R (va + k) /\ plain_byte (s_mem s) PTE_W (va + k)) ->
  env_nomem (ms_env (s_mem s)) = false ->
  exists m m', copy_to_guest va src s = Ok 0 (upd_mem (fun _ => m) s) /\
    copy_from_guest va (Z.of_nat (length src)) (upd_mem (fun _ => m) s) = Ok (Some src) (upd_mem (fun _ => m') s) /\
    kept_but (s_mem s) m va (va + Z.of_nat (length src)).
Proof.
  intros Hs Hva Hr Hp He. destruct (copy_to_ok va src s Hs Hva Hr (fun k H => proj2 (Hp k H)) He) as (m & W1 & W2 & W3 & W4 & W5).
  destruct (copy_from_ok va (Z.of_nat (length src)) (upd_mem (fun _ => m) s)) as (l & m' & R1 & R2 & R3 & R4 & R5); try done; [lia| |].
  { intros k Hk. destruct (proj1 (Hp k Hk)) as (v & El & Hv). exists v. split; [apply (W4 _ v El)|done]. }
  exists m, m'. split; [done|]. split; [|done]. rewrite R1. replace l with src; [by destruct s|].
  apply (guest_has_inj m' va); [by apply (guest_has_grows m)|done|lia].
Qed.

(** When a vfork child's writes are flushed into a parent whose pages
    are as the child's snapshots found them, every byte of every page the
    child wrote to, and that is still mapped, becomes the child's, and no
    other byte of the parent changes. *)
Theorem vfork_flush_carries s m : vf_ok (vf_pages (ms_vf s)) ->
  (forall va was, (va, was) ∈ vf_pages (ms_vf s) -> pte_get (pt s) va <> 0) ->
  (forall va was k, (va, was) ∈ vf_pages (ms_vf s) -> (k < PAGE_N)%nat -> m (va + Z.of_nat k) = nth k was 0) ->
  let '(rc, m', s') := as_vfork_flush (Z -> Z) put_run parent_grow s m in
  rc = 0 /\ s' = vf_drop s /\
  (forall va was k, (va, was) ∈ vf_pages (ms_vf s) -> (k < PAGE_N)%nat ->
     m' (va + Z.of_nat k) = ms_mem s (pte_host (pte_get (pt s) va) + Z.of_nat k)) /\
  (forall a, (forall va was, (va, was) ∈ vf_pages (ms_vf s) -> ~ va <= a < va + Z.of_nat PAGE_N) -> m' a = m a).
Proof.
  intros Hok Hmap Hm. unfold as_vfork_flush. rewrite (each_quiet (Z -> Z)).
  2: { intros was c. unfold flush_stack. destruct (stack_at _ _ _) as [[i r]|]; [|done]. by destruct (_ && _). }
  cbn [Z.eqb]. destruct (pages_carried s (vf_pages (ms_vf s)) m Hok Hmap Hm) as (P1 & P2 & P3).
  destruct (each (Z -> Z) (flush_page (Z -> Z) put_run s) (vf_pages (ms_vf s)) m) as [rc m']. done.
Qed.
End Claims.

(** ** The theorems at work, on the simulated host *)

(** Two pages mapped at 64 KiB; a third one at 128 KiB. *)
Definition demo : MS Sim := mm_exec (Op_map_anon 131072 4096 3) (mm_exec (Op_map_anon 65536 8192 3) sim_init).
Lemma demo_reach : mm_reach sim sim_env 100 demo.
Proof. unfold demo. repeat (apply mr_step; [|by vm_compute|done]). apply mr_init. Qed.
Lemma demo_space : space_ok demo.
Proof. apply (reach_space sim sim_env 100), demo_reach. Qed.

(** A shared mapping of a file, locked, made read-only, and read. *)
Definition file_ops : list mm_op :=
  [Op_map_file 196608 8192 3 5 0 true None; Op_lock 196608 8192 1; Op_protect 196608 4096 1; Op_translate true 65540 1].
Definition demo_file : MS Sim := fold_left (fun s op => mm_exec op s) file_ops demo.
Lemma demo_file_reach : mm_reach sim sim_env 100 demo_file.
Proof.
  unfold demo_file, file_ops. cbn [fold_left]. do 4 (apply mr_step; [|by vm_compute|first [done|left; by vm_compute]]). apply demo_reach.
Qed.
Lemma reachable_space_ok_witness : space_ok demo_file.
Proof. apply (reachable_space_ok sim sim_env 100 demo_file), demo_file_reach. Defined.
Lemma reachable_page_table_witness : pt_wf (pt demo_file) /\ regions_ok (regs demo_file) /\ pte_get (pt demo_file) 65536 <> 0 /\
  pte_prot (pte_get (pt demo_file) 196608) = 1.
Proof.
  destruct (reachable_page_table sim sim_env 100 demo_file demo_file_reach) as (H1 & H2 & _).
  split; [exact H1|]. split; [exact H2|]. by vm_compute.
Defined.
Lemma translate_refines_witness : let '(r, s') := as_translate true 65540 PTE_W demo in
  space_ok s' /\ exists v, look (regs s') 65540 = Some v /\ fst r = Some (r_host v).
Proof.
  pose proof (translate_refines true 65540 PTE_W demo demo_space ltac:(done)) as H. revert H.
  assert (E : is_Some (fst (fst (as_translate true 65540 PTE_W demo)))) by (vm_compute; eauto).
  destruct (as_translate true 65540 PTE_W demo) as [[[p|] b] s']; [|by destruct E].
  intros (H1 & _ & (v & El & -> & _)). split; [exact H1|]. exists v. split; [exact El|reflexivity].
Defined.
Lemma translate_reaches_witness : fst (as_translate true 65540 PTE_W demo) = (Some 4100, false).
Proof.
  destruct (look (regs demo) (data_va 65540 PTE_W)) as [v|] eqn:E; [|by vm_compute in E].
  assert (Hv : r_host v = 4100 /\ r_hostmap v = 0 /\ r_prot v = 3) by (vm_compute in E; by injection E as <-).
  destruct Hv as (V1 & V2 & V3). rewrite <- V1.
  apply (translate_reaches true 65540 PTE_W demo v demo_space); [auto|exact E|exact V2|rewrite V3; reflexivity|reflexivity].
Defined.
Lemma map_anon_spec_witness : fst (guest_map_anon 65536 8192 3 sim_init) = 0 /\
  mapped_anon 65536 8192 3 sim_init (snd (guest_map_anon 65536 8192 3 sim_init)).
Proof.
  pose proof (map_anon_spec 65536 8192 3 sim_init (init_space sim sim_env 100) ltac:(done) ltac:(done) ltac:(done)) as H.
  assert (E : fst (guest_map_anon 65536 8192 3 sim_init) = 0) by reflexivity.
  destruct (guest_map_anon 65536 8192 3 sim_init) as [rc s']. cbn [fst snd] in *. by destruct H as [H|[? _]].
Defined.
Lemma unmap_spec_witness : fst (guest_unmap 65536 4096 demo) = 0 /\
  look (regs (snd (guest_unmap 65536 4096 demo))) 65536 = None.
Proof.
  pose proof (unmap_spec 65536 4096 demo demo_space ltac:(done) ltac:(done)) as H.
  assert (E : fst (guest_unmap 65536 4096 demo) = 0) by reflexivity.
  destruct (guest_unmap 65536 4096 demo) as [rc s']. cbn [fst snd] in *. destruct H as [(_ & H & _)|[E2 _]]; [|by rewrite E2 in E].
  split; [exact E|]. apply (H 65536). lia.
Defined.
Lemma protect_spec_witness : protected 65536 4096 1 demo (snd (guest_protect 65536 4096 1 demo)).
Proof. apply (protect_spec 65536 4096 1 demo demo_space); [lia|lia|done|reflexivity]. Defined.
Lemma move_roundtrip_witness :
  guest_byte (snd (guest_remap_move 262144 4096 65536 (snd (guest_remap_move 65536 4096 262144 demo)))) 65537
    = guest_byte demo 65537.
Proof.
  pose proof (move_roundtrip 65536 4096 262144 demo demo_space ltac:(done) ltac:(done) ltac:(done)) as H.
  assert (Hf : forall a, 262144 <= a < 262144 + 4096 -> look (regs demo) a = None).
  { intros a Ha. apply (unmapped_at demo 262144 4096); [by vm_compute|lia]. }
  specialize (H Hf). assert (E : fst (guest_remap_move 65536 4096 262144 demo) = 0) by reflexivity.
  destruct (guest_remap_move 65536 4096 262144 demo) as [rc s1]. cbn [fst snd] in E |- *.
  destruct (guest_remap_move 262144 4096 65536 s1) as [rc' s2]. cbn [snd]. destruct (H E) as [_ H2]. apply (H2 65537).
Defined.
Lemma find_free_spec_witness : 0 < fst (as_find_free 5000 demo) /\ look (regs demo) (fst (as_find_free 5000 demo)) = None.
Proof.
  pose proof (find_free_spec 5000 demo demo_space ltac:(done) ltac:(by vm_compute)) as H.
  assert (E : fst (as_find_free 5000 demo) <> 0) by (apply Z.eqb_neq; vm_compute; reflexivity).
  destruct (as_find_free 5000 demo) as [b s']. cbn [fst snd] in *. destruct H as [(H1 & H2 & H3 & H4 & H5 & H6)|[? _]]; [|done].
  split; [exact H1|]. apply H6. assert (0 < PG_UP 5000) by done. lia.
Defined.
(** A stack of one page at 1 MiB. *)
Definition demo_stack : MS Sim := mm_exec (Op_map_stack 1048576 4096 3) sim_init.
Lemma demo_stack_space : space_ok demo_stack.
Proof. by apply exec_space; [|apply init_space|by vm_compute]. Qed.
Lemma stack_growth_spec_witness : fst (as_stack_grow false 1040000 demo_stack) <> 0 /\
  guest_byte (snd (as_stack_grow false 1040000 demo_stack)) 1040000 = Some 0.
Proof.
  pose proof (stack_growth_spec 1040000 demo_stack demo_stack_space ltac:(done) ltac:(by vm_compute)) as H.
  assert (E : fst (as_stack_grow false 1040000 demo_stack) <> 0) by (apply Z.eqb_neq; vm_compute; reflexivity).
  destruct (as_stack_grow false 1040000 demo_stack) as [pte s']. cbn [fst snd] in *. split; [exact E|].
  destruct H as (_ & _ & [[? _]|(i & r & _ & _ & Hr & Hin & _)]); [done|].
  apply (Hin 1040000). change (pg 1040000) with 1036288. lia.
Defined.
(** A run of bytes over the boundary of the two pages at 64 KiB. *)
Definition demo_st : St (MS Sim) := mkSt zero_cpu (mkTls false 0 0 false 0 false 0 false false) demo.
Lemma demo_plain need k : need = PTE_R \/ need = PTE_W -> 0 <= k < 4 -> plain_byte demo need (69630 + k).
Proof.
  intros Hn Hk. assert (Hc : k = 0 \/ k = 1 \/ k = 2 \/ k = 3) by lia. unfold plain_byte.
  destruct Hn as [->| ->]; destruct Hc as [->|[->|[->| ->]]]; (eexists; split; [vm_compute; reflexivity|]; by vm_compute).
Qed.
Lemma copy_roundtrip_witness : exists m m', copy_to_guest 69630 [1; 2; 3; 4] demo_st = Ok 0 (upd_mem (fun _ => m) demo_st) /\
  copy_from_guest 69630 4 (upd_mem (fun _ => m) demo_st) = Ok (Some [1; 2; 3; 4]) (upd_mem (fun _ => m') demo_st).
Proof.
  destruct (copy_roundtrip 69630 [1; 2; 3; 4] demo_st demo_space ltac:(done) ltac:(done)) as (m & m' & H1 & H2 & _).
  - intros k Hk. simpl in Hk. split; apply demo_plain; auto.
  - reflexivity.
  - exists m, m'. split; [exact H1|exact H2].
Defined.
(** The child writes one byte of the page at 64 KiB; its snapshot is all
    zeros, as the parent's page is. *)
Definition demo_child : MS Sim := snd (as_translate true 65540 PTE_W (as_vfork_track_begin demo)).
Definition demo_child' : MS Sim := host_put 4100 7 demo_child.
Lemma demo_child_page : exists z, vf_pages (ms_vf demo_child') = [(65536, z)] /\ length z = PAGE_N /\ forall k, nth k z 0 = 0.
Proof. exists (repeat 0 PAGE_N). split; [by vm_compute|]. split; [apply repeat_length|]. intros k. apply nth_repeat. Qed.
Lemma vfork_flush_carries_witness :
  let '(rc, m', _) := as_vfork_flush (Z -> Z) put_run parent_grow demo_child' (fun _ => 0) in rc = 0 /\ m' 65540 = 7 /\ m' 65541 = 0.
Proof.
  destruct demo_child_page as (z & Ep & Ez & Hz). pose proof (vfork_flush_carries demo_child' (fun _ => 0)) as H.
  destruct (as_vfork_flush (Z -> Z) put_run parent_grow demo_child' (fun _ => 0)) as [[rc m'] s'].
  rewrite Ep in H. destruct H as (H1 & _ & H2 & _).
  - split; [|intros p ->%list_elem_of_singleton; split; [done|exact Ez]].
    intros i j p q Hij E1 E2. apply list_lookup_singleton_Some in E1 as [-> _], E2 as [-> _]. lia.
  - intros va was [= -> _]%list_elem_of_singleton. by vm_compute.
  - intros va was k [= -> ->]%list_elem_of_singleton _. symmetry. apply Hz.
  - split; [exact H1|]. pose proof (fun k => H2 65536 z k ltac:(by apply list_elem_of_singleton)) as Hk.
    split; [exact (Hk 4%nat ltac:(apply Nat.ltb_lt; reflexivity))|exact (Hk 5%nat ltac:(apply Nat.ltb_lt; reflexivity))].
Defined.

(** * Where mem.c does not do what it says

    Each theorem runs the definitions on a concrete state. *)

(** [guest_protect_impl] on two adjacent shared file mappings, with a host
    that grants the first protection and refuses the second: the answer is
    -EACCES, yet the first page has lost its write permission in the page
    table, and the generation was not bumped, so D-TLBs keep the old entry. *)
Definition two_shared : MS Strict :=
  snd (guest_map_file 69632 4096 3 5 4096 true None (snd (guest_map_file 65536 4096 3 5 0 true None (ms_init (strict 1) sim_env 100)))).
Lemma protect_refused_partway :
  let s' := snd (guest_protect 65536 8192 1 two_shared) in
  fst (guest_protect 65536 8192 1 two_shared) = - EACCES /\
  pte_prot (pte_get (pt two_shared) 65536) = 3 /\ pte_prot (pte_get (pt s') 65536) = 1 /\
  pte_prot (pte_get (pt s') 69632) = 3 /\ ms_gen s' = ms_gen two_shared.
Proof. by vm_compute. Qed.

(** A page past the end of a mapped file is a bus error, but not when the
    pointer carries a tag: [translate] drops the tag, [va_is_file_hole] is
    asked with it. *)
Definition past_eof : MS Sim := snd (guest_map_file 65536 8192 3 5 0 true None sim_init).
Definition tagged (va : Z) : Z := Z.lor (Z.shiftl 165 56) va.
Lemma tagged_hole_is_translation_fault :
  fst (as_translate true 69632 PTE_R past_eof) = (None, false) /\ as_file_hole 69632 past_eof = true /\
  fst (as_translate true (tagged 69632) PTE_R past_eof) = (None, false) /\ as_file_hole (tagged 69632) past_eof = false.
Proof. by vm_compute. Qed.

(** Two threads after tracking was dropped in a forked child: B read the page
    before A's store made it writable again; B's own store then misses in its
    stale D-TLB entry, [as_write_heal] finds the table entry writable and
    answers 0, and the store faults though the page is writable. *)
Definition tracked : MS Sim := as_vfork_fork_child (as_vfork_track_begin demo).
Definition b_read : MS Sim := snd (as_translate true 65536 PTE_R tracked).
Definition a_wrote : MS Sim :=
  upd_ms_me (fun _ => ms_me b_read) (snd (as_translate true 65536 PTE_W (upd_ms_me (fun _ => tlb_init 101) b_read))).
Lemma stale_heal_faults :
  fst (as_translate true 65536 PTE_W a_wrote) = (None, true) /\ pte_prot (pte_get (pt a_wrote) 65536) = 3.
Proof. by vm_compute. Qed.

(** Two changed bytes with fifteen unchanged ones between them go to the
    parent as one run, the unchanged ones included. *)
Definition was_page : list Z := repeat 0 PAGE_N.
Definition now_page : list Z := <[16%nat := 1]> (<[0%nat := 1]> was_page).
Lemma unchanged_bytes_sent :
  page_runs was_page now_page = [(0%nat, 17%nat)] /\
  forall k, (0 < k < 16)%nat -> nth k now_page 0 = nth k was_page 0.
Proof.
  split; [by vm_compute|]. intros k Hk. unfold now_page. assert (E : forall j l, j <> k -> nth k (<[j := 1]> l) 0 = nth k l 0).
  { intros j l Hne. rewrite !nth_lookup. by rewrite list_lookup_insert_ne. }
  rewrite !E by lia. done.
Qed.
