(* ===== verification/MmClaims.v ===== *)
(** * MmClaims: what the memory system calls promise a guest

    The theorems about sys_mm.c, for any host that keeps what mmap(2)
    promises, and the calls at work on the simulated host. *)

From stdpp Require Import gmap.
From Stdlib Require Import String.
From S2P Require Import Prelude Types Cpu CpuWf MemSeam PageTable Regions Epoch AsState AddrSpace AsInv AsSteps AsThms AsProtect Translate AsSeam AsGrow TransThms MmStep MmReach Shared SysMm MmCount MmCalls MmLimit SimHost.

Section MmClaims.
Context {Os : Type} `{!HostOs Os} `{!HostOsOk Os} `{!MmHost Os}.
Implicit Types s : MS Os.

(** C8: whatever brk, mmap (of private anonymous memory, MAP_LOCKED,
    MAP_GROWSDOWN and MAP_FIXED included), munmap, mprotect, mlock, munlock
    and mlockall calls a guest makes, with accesses and stores between them
    that may grow its stacks, the bytes it has mapped are never more than
    RLIMIT_AS: each growth is charged for the pages of its range that were not
    mapped, and the sum of the regions never wraps. Nothing is assumed of the
    host's mprotect, which private memory never calls. *)
Theorem rlimit_as_bound (o : Os) e tid b s : 0 <= b <= GUEST_TASK_SIZE -> 0 <= env_min_addr e ->
  0 <= env_as e -> call_reach o e tid b s -> as_mapped_bytes (regs s) <= env_as e.
Proof.
  intros Hb Hm Ha Hr. pose proof (reach_life o e tid b s Hb Hm Ha Hr) as L.
  pose proof (lf_under _ _ L) as Hu. unfold under in Hu. by rewrite (lf_env _ _ L) in Hu.
Qed.

(** C30: mmap of private anonymous memory answers an errno with nothing
    changed, or a page-aligned address inside the task: then exactly the pages
    of the length asked for are mapped there, private, zero, with the
    permission asked for, and every other byte is as it was. Without
    MAP_FIXED, and with MAP_FIXED_NOREPLACE, no byte of the range was mapped
    before; with either the address is the one asked for. With MAP_LOCKED, or
    after mlockall(MCL_FUTURE), every page carries that lock. *)
Theorem mmap_anon_spec l a0 a1 prot flags fd off pe s : space_ok s -> place_ok (ms_as s) ->
  0 <= env_min_addr (ms_env s) -> fits 64 a0 -> fits 64 a1 ->
  has (s32 flags) G_MAP_ANONYMOUS = true -> has (s32 flags) G_MAP_SHARED = false ->
  let '(r, s') := mmap_locked l a0 a1 prot flags fd off pe s in
  let len := PG_UP a1 in
  let pte := Z.lor (prot_g2pte (s32 prot)) (prot_rie l (s32 prot)) in
  let lock := mmap_lock (s32 flags) s in
  space_ok s' /\
  (((exists e, 0 < e < 4096 /\ r = errno e) /\ same_view s s') \/
   (aligned r /\ 0 <= r /\ r + len <= GUEST_TASK_SIZE /\ mapped_anon r len pte s s' /\
    (has (s32 flags) (Z.lor G_MAP_FIXED G_MAP_FIXED_NOREPLACE) = true -> r = a0) /\
    (has (s32 flags) (Z.lor G_MAP_FIXED G_MAP_FIXED_NOREPLACE) = false \/ has (s32 flags) G_MAP_FIXED_NOREPLACE = true ->
     forall a, r <= a < r + len -> look (regs s) a = None) /\
    (tr lock = true -> forall a, r <= a < r + len -> exists v, look (regs s') a = Some v /\ r_lock v = lock))).
Proof.
  intros Hs Hp Hm H0 H1 Ha Hsh. assert (H3 : priv_anon (s32 flags) = true) by (unfold priv_anon; by rewrite Ha, Hsh).
  pose proof (mmap_anon_ok l a0 a1 prot flags fd off pe s Hs Hp Hm H0 H1 H3) as H.
  destruct (mmap_locked _ _ _ _ _ _ _ _ s) as [r s']. destruct H as [K H]. split; [apply K|].
  destruct H as [H|[[P1 P2 P3] (N1 & _ & N3 & N4) _ L]]; [by left|right]. unfold unfixed in *.
  repeat (split; [done|]). split; [intros E; apply P2; by rewrite E|]. split; [|done].
  intros [E|E]; apply P3; [left; by rewrite E|by right].
Qed.

(** C32: brk answers with the end of the heap it leaves. When the end moves,
    it is to where the guest asked, above the heap's start: the pages it
    gains were free and are now private, zero and readable and writable, and
    carry the lock of mlockall(MCL_FUTURE) when there is one; the pages it
    loses are gone; every other byte is as it was. When it does not move,
    nothing changes. *)
Theorem brk_spec l a0 s : space_ok s -> 0 <= as_brk (ms_as s) <= GUEST_TASK_SIZE -> 0 <= as_brk_start (ms_as s) ->
  let '(r, s') := brk_locked l a0 s in
  let old := PG_UP (as_brk (ms_as s)) in
  let lock := as_def_lock (ms_as s) in
  space_ok s' /\ r = as_brk (ms_as s') /\
  ((r = as_brk (ms_as s) /\ same_view s s') \/
   (r = a0 /\ as_brk_start (ms_as s) <= a0 < GUEST_TASK_SIZE /\
    (old < PG_UP a0 -> mapped_anon old (PG_UP a0 - old) (BRK_PROT l) s s' /\ (forall a, old <= a < PG_UP a0 -> look (regs s) a = None) /\
       (tr lock = true -> forall a, old <= a < PG_UP a0 -> exists v, look (regs s') a = Some v /\ r_lock v = lock)) /\
    (PG_UP a0 < old -> range_gone (PG_UP a0) (old - PG_UP a0) s s') /\
    (PG_UP a0 = old -> same_view s s'))).
Proof.
  intros Hs Hb Hst. pose proof (brk_ok l a0 s Hs Hb Hst) as H. destruct (brk_locked l a0 s) as [r s'].
  destruct H as (K & Hr & _ & H). split; [apply K|]. split; [done|].
  destruct H as [H|(E & Hra & M1 & M2 & M3)]; [by left|right]. split; [done|]. split; [done|]. split; [|done].
  intros Hlt. destruct (M1 Hlt) as (F1 & _ & (_ & _ & _ & N) & L). split; [done|].
  split; [intros a Ha; apply F1; lia|]. intros Et a Ha. apply L; [done|lia].
Qed.

(** C31: mremap without MREMAP_FIXED and MREMAP_DONTUNMAP, whether
    MREMAP_MAYMOVE lets it move the mapping or not, asked for a length inside
    the task, that answers an errno has changed nothing: every byte is mapped
    with the permission and the value it had, even when the mapping had
    already been moved and its growth there was refused. *)
Theorem mremap_error_keeps l a0 a1 a2 flags a4 s : space_ok s -> place_ok (ms_as s) -> fits 64 a1 -> fits 64 a2 ->
  PG_UP a2 <= GUEST_TASK_SIZE -> has (s32 flags) (Z.lor G_MREMAP_FIXED G_MREMAP_DONTUNMAP) = false ->
  let '(r, s') := sys_mremap l a0 a1 a2 flags a4 s in
  (exists e, 0 < e < 4096 /\ r = errno e) ->
  forall a, guest_byte s' a = guest_byte s a /\ (r_prot <$> look (regs s') a) = (r_prot <$> look (regs s) a).
Proof.
  intros Hs Hp H1 H2 Ht Hf. apply mremap_clean; try done. unfold only_maymove. by rewrite Hf.
Qed.
End MmClaims.

(** ** The calls at work *)
#[global] Instance sim_mm : MmHost Sim := {
  anon_memfd o := (inr 3, o);
  os_ftruncate o fd n := (0, o);
  os_isdirfifo o fd := false;
  mfd_resolve o fd := None;
  mfd_kernel_write_sealed o fd := false;
  mfd_seal_map_force_old o := false;
  memfd_link o fd := None;
  os_madv_remove o p n := (0, o);
  os_mprotect_errno o := EACCES;
  os_refault o a := 0;
  os_msync o p n := (0, o)
}.
Definition no_lim : MmLim := mkLim RLIM_INFINITY RLIM_INFINITY false.
(** RLIMIT_AS of four pages. *)
Definition tight_env : Env := mkEnv RLIM_INFINITY 16384 RLIM_INFINITY true 65536 false false.
Definition call_anon (a n : Z) : guest_call := C_mmap no_lim a n 3 (Z.lor G_MAP_PRIVATE G_MAP_ANONYMOUS) (-1) 0 0.
(** A page of heap, three pages mapped, the first of them read-only, all of
    it locked, and a fifth page refused. *)
Definition full : MS Sim := call_exec (C_mlockall 3) (call_exec (C_mprotect no_lim 0x6000000000 4096 1)
  (call_exec (call_anon 0 12288) (call_exec (C_brk no_lim 69632) (mm_start sim tight_env 100 65536)))).
Lemma full_reach : call_reach sim tight_env 100 65536 (call_exec (call_anon 0 4096) full).
Proof. unfold full. repeat (apply cr_call; [|by vm_compute]). apply cr_init. Qed.
Lemma rlimit_as_bound_witness : as_mapped_bytes (regs (call_exec (call_anon 0 4096) full)) <= 16384 /\
  as_mapped_bytes (regs full) = 16384.
Proof.
  split; [|by vm_compute]. apply (rlimit_as_bound sim tight_env 100 65536); [by vm_compute|done|done|apply full_reach].
Defined.
Definition heap : MS Sim := mm_start sim sim_env 100 65536.
Lemma heap_life : life sim_env heap.
Proof. by apply start_life. Qed.
Definition PRIV : Z := Z.lor G_MAP_PRIVATE G_MAP_ANONYMOUS.
(** New memory is to be locked from here on. *)
Definition locking : MS Sim := call_exec (C_mlockall G_MCL_FUTURE) heap.
Lemma locking_life : life sim_env locking.
Proof. apply call_life; [apply heap_life|done]. Qed.
Lemma mmap_anon_spec_witness :
  let '(r, s') := mmap_locked no_lim 0 8192 3 (Z.lor PRIV G_MAP_LOCKED) (-1) 0 0 heap in
  mapped_anon r 8192 3 heap s' /\ exists v, look (regs s') r = Some v /\ r_lock v = RL_LOCKED.
Proof.
  pose proof heap_life as [_ L1 L2 _ _ _ L6 _].
  pose proof (mmap_anon_spec no_lim 0 8192 3 (Z.lor PRIV G_MAP_LOCKED) (-1) 0 0 heap L1 L2 L6 ltac:(done) ltac:(done) ltac:(done) ltac:(done)) as H.
  assert (E : fst (mmap_locked no_lim 0 8192 3 (Z.lor PRIV G_MAP_LOCKED) (-1) 0 0 heap) = 0x6000000000) by (vm_compute; reflexivity).
  destruct (mmap_locked no_lim 0 8192 3 (Z.lor PRIV G_MAP_LOCKED) (-1) 0 0 heap) as [r s']. cbn [fst] in E.
  destruct H as [_ [[He _]|(_ & _ & _ & M & _ & _ & HL)]].
  - exfalso. apply (address_no_errno r); [rewrite E; by vm_compute|exact He].
  - split; [exact M|]. apply (HL eq_refl r). change (PG_UP 8192) with 8192. lia.
Defined.
Lemma brk_spec_witness : let '(r, s') := brk_locked no_lim 73728 locking in r = 73728 /\ mapped_anon 65536 8192 3 locking s' /\
  exists v, look (regs s') 65536 = Some v /\ r_lock v = RL_LOCKED.
Proof.
  pose proof locking_life as [_ L1 _ _ L4 L5 _ _]. pose proof (brk_spec no_lim 73728 locking L1 L4 L5) as H.
  assert (E : fst (brk_locked no_lim 73728 locking) = 73728) by (by vm_compute).
  destruct (brk_locked no_lim 73728 locking) as [r s']. cbn [fst] in E. destruct H as (_ & _ & [[E2 _]|(_ & _ & M & _)]); [by rewrite E in E2|].
  split; [exact E|]. destruct (M ltac:(by vm_compute)) as (M1 & _ & M2). split; [exact M1|]. apply (M2 eq_refl 65536). by vm_compute.
Defined.
(** A page of a shared file: the simulated host does not resize a mapping of
    it, so the page is moved, its growth there refused, and moved back. *)
Definition shared_file : MS Sim := mm_exec (Op_map_file 65536 4096 3 5 0 true None) heap.
Lemma shared_file_space : space_ok shared_file /\ place_ok (ms_as shared_file).
Proof. split; [|by vm_compute]. by apply exec_space; [|apply heap_life|by vm_compute]. Qed.
Lemma file_refused : fst (sys_mremap no_lim 65536 4096 8192 G_MREMAP_MAYMOVE 0 shared_file) = errno ENOMEM.
Proof. vm_compute. reflexivity. Qed.
Lemma mremap_error_keeps_witness : fst (sys_mremap no_lim 65536 4096 8192 G_MREMAP_MAYMOVE 0 shared_file) = errno ENOMEM /\
  ms_gen shared_file + 2 <= ms_gen (snd (sys_mremap no_lim 65536 4096 8192 G_MREMAP_MAYMOVE 0 shared_file)) /\
  forall a, guest_byte (snd (sys_mremap no_lim 65536 4096 8192 G_MREMAP_MAYMOVE 0 shared_file)) a = guest_byte shared_file a.
Proof.
  split; [exact file_refused|]. split; [by vm_compute|].
  pose proof (mremap_error_keeps no_lim 65536 4096 8192 G_MREMAP_MAYMOVE 0 shared_file (proj1 shared_file_space) (proj2 shared_file_space)
    ltac:(split; by vm_compute) ltac:(split; by vm_compute) ltac:(by vm_compute) ltac:(by vm_compute)) as H.
  pose proof file_refused as E. destruct (sys_mremap no_lim 65536 4096 8192 G_MREMAP_MAYMOVE 0 shared_file) as [r s']. cbn [fst snd] in *. intros a. apply H.
  exists ENOMEM. split; [split; by vm_compute|exact E].
Defined.

(** ** A length that wraps *)

(** A page where the next search starts, and one above it. *)
Definition bystander : MS Sim := call_exec (C_mmap no_lim 0x6000100000 4096 3 (Z.lor G_MAP_FIXED PRIV) (-1) 0 0)
  (call_exec (C_mmap no_lim 0x6000000000 4096 3 (Z.lor G_MAP_FIXED PRIV) (-1) 0 0) heap).
Definition wrapped : Z * MS Sim := sys_mremap no_lim 0x6000100000 4096 (2 ^ 64 - 0x6000000000) G_MREMAP_MAYMOVE 0 bystander.
(** mremap does not bound its new length, and [base + len] wraps in
    [as_find_free]: the search takes the next base for free whatever is there.
    The call answers ENOMEM, the page that was there is gone, and the hint is
    0: the next mmap is refused, and the one after is placed under
    vm.mmap_min_addr. *)
Lemma mremap_length_wraps : fst wrapped = errno ENOMEM /\
  guest_byte bystander 0x6000000000 = Some 0 /\ guest_byte (snd wrapped) 0x6000000000 = None /\
  let '(r1, s1) := mmap_locked no_lim 0 4096 3 PRIV (-1) 0 0 (snd wrapped) in
  r1 = errno ENOMEM /\ fst (mmap_locked no_lim 0 4096 3 PRIV (-1) 0 0 s1) = 4096 /\ env_min_addr (ms_env s1) = 65536.
Proof. vm_compute. repeat split. Qed.
