(* ===== verification/Predecode.v ===== *)
(** * Predecode: the operand pre-decoder (predecode.h, predecode.c)

    The dense opcodes, a decode-cache entry, and [pd_fill], which classifies
    an instruction word into an entry. *)

From S2P Require Import Prelude Types Cpu Alu.

Definition PD_BITS : Z := 14.
Definition PD_SIZE : Z := Z.shiftl 1 PD_BITS.
Definition PD_MASK : Z := PD_SIZE - 1.

Inductive PDOp : Type :=
| PD_GENERIC | PD_NOP | PD_B | PD_BL | PD_BCOND | PD_CBZ64 | PD_CBZ32 | PD_CBNZ64
| PD_CBNZ32 | PD_TBZ | PD_TBNZ | PD_BR | PD_BLR | PD_ADD64I | PD_ADD32I | PD_SUB64I
| PD_SUB32I | PD_ADDS64I | PD_ADDS32I | PD_SUBS64I | PD_SUBS32I | PD_AND64I | PD_AND32I
| PD_ORR64I | PD_ORR32I | PD_EOR64I | PD_EOR32I | PD_ANDS64I | PD_ANDS32I | PD_MOVI
| PD_MOVK64 | PD_MOVK32 | PD_ADR | PD_ADRP | PD_LSL64I | PD_LSL32I | PD_LSR64I | PD_LSR32I
| PD_ASR64I | PD_ASR32I | PD_UBFX64 | PD_UBFX32 | PD_UBFIZ64 | PD_UBFIZ32 | PD_SBFX64
| PD_SBFX32 | PD_EXTR64 | PD_EXTR32 | PD_AND64 | PD_AND32 | PD_BIC64 | PD_BIC32 | PD_ORR64
| PD_ORR32 | PD_ORN64 | PD_ORN32 | PD_EOR64 | PD_EOR32 | PD_EON64 | PD_EON32 | PD_ANDS64
| PD_ANDS32 | PD_BICS64 | PD_BICS32 | PD_AND64S | PD_AND32S | PD_ORR64S | PD_ORR32S
| PD_EOR64S | PD_EOR32S | PD_ANDS64S | PD_ANDS32S | PD_ADD64R | PD_ADD32R | PD_SUB64R
| PD_SUB32R | PD_ADDS64R | PD_ADDS32R | PD_SUBS64R | PD_SUBS32R | PD_ADD64RS | PD_ADD32RS
| PD_SUB64RS | PD_SUB32RS | PD_ADDS64RS | PD_ADDS32RS | PD_SUBS64RS | PD_SUBS32RS
| PD_ADDX64 | PD_ADDX32 | PD_SUBX64 | PD_SUBX32 | PD_ADDSX64 | PD_ADDSX32 | PD_SUBSX64
| PD_SUBSX32 | PD_MADD64 | PD_MADD32 | PD_MSUB64 | PD_MSUB32 | PD_SMADDL | PD_SMSUBL
| PD_UMADDL | PD_UMSUBL | PD_SMULH | PD_UMULH | PD_CSEL64 | PD_CSEL32 | PD_CSINC64
| PD_CSINC32 | PD_CSINV64 | PD_CSINV32 | PD_CSNEG64 | PD_CSNEG32 | PD_CCMP64I | PD_CCMP32I
| PD_CCMP64R | PD_CCMP32R | PD_CCMN64I | PD_CCMN32I | PD_CCMN64R | PD_CCMN32R | PD_REV64
| PD_REVW | PD_CLZ64 | PD_CLZ32 | PD_UDIV64 | PD_UDIV32 | PD_SDIV64 | PD_SDIV32 | PD_LSLV64
| PD_LSLV32 | PD_LSRV64 | PD_LSRV32 | PD_ASRV64 | PD_ASRV32 | PD_RORV64 | PD_RORV32
| PD_LDR64U | PD_LDR32U | PD_LDRB | PD_LDRH | PD_LDRSB64 | PD_LDRSB32 | PD_LDRSH64
| PD_LDRSH32 | PD_LDRSW | PD_STR64U | PD_STR32U | PD_STRB | PD_STRH | PD_LDR64PRE
| PD_LDR64POST | PD_LDR32PRE | PD_LDR32POST | PD_STR64PRE | PD_STR64POST | PD_STR32PRE
| PD_STR32POST | PD_LDRBPOST | PD_STRBPOST | PD_LDR64RO | PD_LDR32RO | PD_LDRBRO
| PD_LDRHRO | PD_STR64RO | PD_STR32RO | PD_STRBRO | PD_STRHRO | PD_LDRLIT64 | PD_LDRLIT32
| PD_LDRLITV | PD_LDP64 | PD_LDP64PRE | PD_LDP64POST | PD_LDP32 | PD_LDP32PRE
| PD_LDP32POST | PD_STP64 | PD_STP64PRE | PD_STP64POST | PD_STP32 | PD_STP32PRE
| PD_STP32POST | PD_LDRQ | PD_STRQ | PD_LDRV | PD_STRV | PD_LDRQPRE | PD_LDRQPOST
| PD_STRQPRE | PD_STRQPOST | PD_LDPQ | PD_LDPQPRE | PD_LDPQPOST | PD_STPQ | PD_STPQPRE
| PD_STPQPOST | PD_LDPD | PD_LDPDPRE | PD_LDPDPOST | PD_STPD | PD_STPDPRE | PD_STPDPOST.

(** The enumeration in the source order, and the dense id of an opcode. *)
Definition pd_ops : list PDOp :=
  [ PD_GENERIC; PD_NOP; PD_B; PD_BL; PD_BCOND; PD_CBZ64; PD_CBZ32; PD_CBNZ64; PD_CBNZ32;
    PD_TBZ; PD_TBNZ; PD_BR; PD_BLR; PD_ADD64I; PD_ADD32I; PD_SUB64I; PD_SUB32I; PD_ADDS64I;
    PD_ADDS32I; PD_SUBS64I; PD_SUBS32I; PD_AND64I; PD_AND32I; PD_ORR64I; PD_ORR32I;
    PD_EOR64I; PD_EOR32I; PD_ANDS64I; PD_ANDS32I; PD_MOVI; PD_MOVK64; PD_MOVK32; PD_ADR;
    PD_ADRP; PD_LSL64I; PD_LSL32I; PD_LSR64I; PD_LSR32I; PD_ASR64I; PD_ASR32I; PD_UBFX64;
    PD_UBFX32; PD_UBFIZ64; PD_UBFIZ32; PD_SBFX64; PD_SBFX32; PD_EXTR64; PD_EXTR32; PD_AND64;
    PD_AND32; PD_BIC64; PD_BIC32; PD_ORR64; PD_ORR32; PD_ORN64; PD_ORN32; PD_EOR64; PD_EOR32;
    PD_EON64; PD_EON32; PD_ANDS64; PD_ANDS32; PD_BICS64; PD_BICS32; PD_AND64S; PD_AND32S;
    PD_ORR64S; PD_ORR32S; PD_EOR64S; PD_EOR32S; PD_ANDS64S; PD_ANDS32S; PD_ADD64R; PD_ADD32R;
    PD_SUB64R; PD_SUB32R; PD_ADDS64R; PD_ADDS32R; PD_SUBS64R; PD_SUBS32R; PD_ADD64RS;
    PD_ADD32RS; PD_SUB64RS; PD_SUB32RS; PD_ADDS64RS; PD_ADDS32RS; PD_SUBS64RS; PD_SUBS32RS;
    PD_ADDX64; PD_ADDX32; PD_SUBX64; PD_SUBX32; PD_ADDSX64; PD_ADDSX32; PD_SUBSX64;
    PD_SUBSX32; PD_MADD64; PD_MADD32; PD_MSUB64; PD_MSUB32; PD_SMADDL; PD_SMSUBL; PD_UMADDL;
    PD_UMSUBL; PD_SMULH; PD_UMULH; PD_CSEL64; PD_CSEL32; PD_CSINC64; PD_CSINC32; PD_CSINV64;
    PD_CSINV32; PD_CSNEG64; PD_CSNEG32; PD_CCMP64I; PD_CCMP32I; PD_CCMP64R; PD_CCMP32R;
    PD_CCMN64I; PD_CCMN32I; PD_CCMN64R; PD_CCMN32R; PD_REV64; PD_REVW; PD_CLZ64; PD_CLZ32;
    PD_UDIV64; PD_UDIV32; PD_SDIV64; PD_SDIV32; PD_LSLV64; PD_LSLV32; PD_LSRV64; PD_LSRV32;
    PD_ASRV64; PD_ASRV32; PD_RORV64; PD_RORV32; PD_LDR64U; PD_LDR32U; PD_LDRB; PD_LDRH;
    PD_LDRSB64; PD_LDRSB32; PD_LDRSH64; PD_LDRSH32; PD_LDRSW; PD_STR64U; PD_STR32U; PD_STRB;
    PD_STRH; PD_LDR64PRE; PD_LDR64POST; PD_LDR32PRE; PD_LDR32POST; PD_STR64PRE; PD_STR64POST;
    PD_STR32PRE; PD_STR32POST; PD_LDRBPOST; PD_STRBPOST; PD_LDR64RO; PD_LDR32RO; PD_LDRBRO;
    PD_LDRHRO; PD_STR64RO; PD_STR32RO; PD_STRBRO; PD_STRHRO; PD_LDRLIT64; PD_LDRLIT32;
    PD_LDRLITV; PD_LDP64; PD_LDP64PRE; PD_LDP64POST; PD_LDP32; PD_LDP32PRE; PD_LDP32POST;
    PD_STP64; PD_STP64PRE; PD_STP64POST; PD_STP32; PD_STP32PRE; PD_STP32POST; PD_LDRQ;
    PD_STRQ; PD_LDRV; PD_STRV; PD_LDRQPRE; PD_LDRQPOST; PD_STRQPRE; PD_STRQPOST; PD_LDPQ;
    PD_LDPQPRE; PD_LDPQPOST; PD_STPQ; PD_STPQPRE; PD_STPQPOST; PD_LDPD; PD_LDPDPRE;
    PD_LDPDPOST; PD_STPD; PD_STPDPRE; PD_STPDPOST ].
Definition pd_id (op : PDOp) : Z :=
  match op with
  | PD_GENERIC => 0 | PD_NOP => 1 | PD_B => 2 | PD_BL => 3 | PD_BCOND => 4 | PD_CBZ64 => 5
  | PD_CBZ32 => 6 | PD_CBNZ64 => 7 | PD_CBNZ32 => 8 | PD_TBZ => 9 | PD_TBNZ => 10
  | PD_BR => 11 | PD_BLR => 12 | PD_ADD64I => 13 | PD_ADD32I => 14 | PD_SUB64I => 15
  | PD_SUB32I => 16 | PD_ADDS64I => 17 | PD_ADDS32I => 18 | PD_SUBS64I => 19
  | PD_SUBS32I => 20 | PD_AND64I => 21 | PD_AND32I => 22 | PD_ORR64I => 23
  | PD_ORR32I => 24 | PD_EOR64I => 25 | PD_EOR32I => 26 | PD_ANDS64I => 27
  | PD_ANDS32I => 28 | PD_MOVI => 29 | PD_MOVK64 => 30 | PD_MOVK32 => 31 | PD_ADR => 32
  | PD_ADRP => 33 | PD_LSL64I => 34 | PD_LSL32I => 35 | PD_LSR64I => 36 | PD_LSR32I => 37
  | PD_ASR64I => 38 | PD_ASR32I => 39 | PD_UBFX64 => 40 | PD_UBFX32 => 41
  | PD_UBFIZ64 => 42 | PD_UBFIZ32 => 43 | PD_SBFX64 => 44 | PD_SBFX32 => 45
  | PD_EXTR64 => 46 | PD_EXTR32 => 47 | PD_AND64 => 48 | PD_AND32 => 49 | PD_BIC64 => 50
  | PD_BIC32 => 51 | PD_ORR64 => 52 | PD_ORR32 => 53 | PD_ORN64 => 54 | PD_ORN32 => 55
  | PD_EOR64 => 56 | PD_EOR32 => 57 | PD_EON64 => 58 | PD_EON32 => 59 | PD_ANDS64 => 60
  | PD_ANDS32 => 61 | PD_BICS64 => 62 | PD_BICS32 => 63 | PD_AND64S => 64 | PD_AND32S => 65
  | PD_ORR64S => 66 | PD_ORR32S => 67 | PD_EOR64S => 68 | PD_EOR32S => 69
  | PD_ANDS64S => 70 | PD_ANDS32S => 71 | PD_ADD64R => 72 | PD_ADD32R => 73
  | PD_SUB64R => 74 | PD_SUB32R => 75 | PD_ADDS64R => 76 | PD_ADDS32R => 77
  | PD_SUBS64R => 78 | PD_SUBS32R => 79 | PD_ADD64RS => 80 | PD_ADD32RS => 81
  | PD_SUB64RS => 82 | PD_SUB32RS => 83 | PD_ADDS64RS => 84 | PD_ADDS32RS => 85
  | PD_SUBS64RS => 86 | PD_SUBS32RS => 87 | PD_ADDX64 => 88 | PD_ADDX32 => 89
  | PD_SUBX64 => 90 | PD_SUBX32 => 91 | PD_ADDSX64 => 92 | PD_ADDSX32 => 93
  | PD_SUBSX64 => 94 | PD_SUBSX32 => 95 | PD_MADD64 => 96 | PD_MADD32 => 97
  | PD_MSUB64 => 98 | PD_MSUB32 => 99 | PD_SMADDL => 100 | PD_SMSUBL => 101
  | PD_UMADDL => 102 | PD_UMSUBL => 103 | PD_SMULH => 104 | PD_UMULH => 105
  | PD_CSEL64 => 106 | PD_CSEL32 => 107 | PD_CSINC64 => 108 | PD_CSINC32 => 109
  | PD_CSINV64 => 110 | PD_CSINV32 => 111 | PD_CSNEG64 => 112 | PD_CSNEG32 => 113
  | PD_CCMP64I => 114 | PD_CCMP32I => 115 | PD_CCMP64R => 116 | PD_CCMP32R => 117
  | PD_CCMN64I => 118 | PD_CCMN32I => 119 | PD_CCMN64R => 120 | PD_CCMN32R => 121
  | PD_REV64 => 122 | PD_REVW => 123 | PD_CLZ64 => 124 | PD_CLZ32 => 125 | PD_UDIV64 => 126
  | PD_UDIV32 => 127 | PD_SDIV64 => 128 | PD_SDIV32 => 129 | PD_LSLV64 => 130
  | PD_LSLV32 => 131 | PD_LSRV64 => 132 | PD_LSRV32 => 133 | PD_ASRV64 => 134
  | PD_ASRV32 => 135 | PD_RORV64 => 136 | PD_RORV32 => 137 | PD_LDR64U => 138
  | PD_LDR32U => 139 | PD_LDRB => 140 | PD_LDRH => 141 | PD_LDRSB64 => 142
  | PD_LDRSB32 => 143 | PD_LDRSH64 => 144 | PD_LDRSH32 => 145 | PD_LDRSW => 146
  | PD_STR64U => 147 | PD_STR32U => 148 | PD_STRB => 149 | PD_STRH => 150
  | PD_LDR64PRE => 151 | PD_LDR64POST => 152 | PD_LDR32PRE => 153 | PD_LDR32POST => 154
  | PD_STR64PRE => 155 | PD_STR64POST => 156 | PD_STR32PRE => 157 | PD_STR32POST => 158
  | PD_LDRBPOST => 159 | PD_STRBPOST => 160 | PD_LDR64RO => 161 | PD_LDR32RO => 162
  | PD_LDRBRO => 163 | PD_LDRHRO => 164 | PD_STR64RO => 165 | PD_STR32RO => 166
  | PD_STRBRO => 167 | PD_STRHRO => 168 | PD_LDRLIT64 => 169 | PD_LDRLIT32 => 170
  | PD_LDRLITV => 171 | PD_LDP64 => 172 | PD_LDP64PRE => 173 | PD_LDP64POST => 174
  | PD_LDP32 => 175 | PD_LDP32PRE => 176 | PD_LDP32POST => 177 | PD_STP64 => 178
  | PD_STP64PRE => 179 | PD_STP64POST => 180 | PD_STP32 => 181 | PD_STP32PRE => 182
  | PD_STP32POST => 183 | PD_LDRQ => 184 | PD_STRQ => 185 | PD_LDRV => 186 | PD_STRV => 187
  | PD_LDRQPRE => 188 | PD_LDRQPOST => 189 | PD_STRQPRE => 190 | PD_STRQPOST => 191
  | PD_LDPQ => 192 | PD_LDPQPRE => 193 | PD_LDPQPOST => 194 | PD_STPQ => 195
  | PD_STPQPRE => 196 | PD_STPQPOST => 197 | PD_LDPD => 198 | PD_LDPDPRE => 199
  | PD_LDPDPOST => 200 | PD_STPD => 201 | PD_STPDPRE => 202 | PD_STPDPOST => 203
  end.
(** The opcode of an id: the [u8] arithmetic [base_id + kind]. *)
Definition pd_of_id (i : Z) : PDOp := default PD_GENERIC (pd_ops !! Z.to_nat i).
(** [e->op == PD_X]. *)
Definition pd_is (a b : PDOp) : bool := pd_id a =? pd_id b.

(** [PDEnt]. *)
Record PDEnt := mkPDEnt {
  pd_insn : Z;
  pd_op : PDOp;
  pd_rd : Z;
  pd_rn : Z;
  pd_rm : Z;
  pd_imm : Z
}.
Definition set_op (op : PDOp) (e : PDEnt) : PDEnt :=
  mkPDEnt (pd_insn e) op (pd_rd e) (pd_rn e) (pd_rm e) (pd_imm e).
Definition set_rd (v : Z) (e : PDEnt) : PDEnt :=
  mkPDEnt (pd_insn e) (pd_op e) (u8 v) (pd_rn e) (pd_rm e) (pd_imm e).
Definition set_rm (v : Z) (e : PDEnt) : PDEnt :=
  mkPDEnt (pd_insn e) (pd_op e) (pd_rd e) (pd_rn e) (u8 v) (pd_imm e).
Definition set_imm (v : Z) (e : PDEnt) : PDEnt :=
  mkPDEnt (pd_insn e) (pd_op e) (pd_rd e) (pd_rn e) (pd_rm e) v.
Definition op_imm (op : PDOp) (v : Z) (e : PDEnt) : PDEnt := set_imm v (set_op op e).

(** [sf ? a : b] on opcodes. *)
Definition sel (b : bool) (x y : PDOp) : PDOp := if b then x else y.

(** [pd_bitmasks]. *)
Definition pd_bitmasks (immN imms immr : Z) (is64 : bool) : option Z :=
  let width := if is64 then 64 else 32 in
  let nimms := Z.lor (Z.shiftl (Z.land immN 1) 6) (Z.land (not32 imms) 0x3f) in
  if nimms =? 0 then None else
  let len := Z.log2 nimms in
  if len <? 1 then None else
  if width <? Z.shiftl 1 len then None else
  let levels := Z.shiftl 1 len - 1 in
  let S := Z.land imms levels in
  let R := Z.land immr levels in
  let esize := Z.shiftl 1 len in
  let emask := if esize =? 64 then not64 0 else Z.shiftl 1 esize - 1 in
  let welem := Z.land (ones (S + 1)) emask in
  let r := R mod esize in
  let w := if r =? 0 then welem
           else Z.land (Z.lor (Z.shiftr welem r) (u64 (Z.shiftl welem (esize - r)))) emask in
  let wm := replicate_elem 32 esize w 0 0 in
  Some (if is64 then wm else u32 wm).

(** The bitfield aliases of [fill_dp_imm]. *)
Definition fill_bitfield (insn : Z) (e : PDEnt) : PDEnt :=
  let sf := BITb insn 31 in
  let opc := BITS insn 30 29 in let N := BIT insn 22 in
  let immr := BITS insn 21 16 in let imms := BITS insn 15 10 in
  let width := if sf then 64 else 32 in
  if (if sf then negb (N =? 1) else negb (N =? 0) || (32 <=? immr) || (32 <=? imms)) then e
  else if opc =? 2 then
    if imms =? width - 1 then set_rm immr (set_op (sel sf PD_LSR64I PD_LSR32I) e)
    else if immr =? imms + 1 then
      set_rm (width - 1 - imms) (set_op (sel sf PD_LSL64I PD_LSL32I) e)
    else if immr <=? imms then
      set_imm (ones (imms - immr + 1)) (set_rm immr (set_op (sel sf PD_UBFX64 PD_UBFX32) e))
    else
      set_imm (ones (imms + 1))
        (set_rm (width - immr) (set_op (sel sf PD_UBFIZ64 PD_UBFIZ32) e))
  else if opc =? 0 then
    if imms =? width - 1 then set_rm immr (set_op (sel sf PD_ASR64I PD_ASR32I) e)
    else if immr <=? imms then
      set_imm (width - 1 - imms + immr)
        (set_rm (width - 1 - imms) (set_op (sel sf PD_SBFX64 PD_SBFX32) e))
    else e
  else e.

Definition fill_dp_imm (insn : Z) (e : PDEnt) : PDEnt :=
  let t := BITS insn 28 23 in
  let sf := BITb insn 31 in
  if (t =? 0x20) || (t =? 0x21) then
    let immlo := BITS insn 30 29 in let immhi := BITS insn 23 5 in
    let imm := sign_extend (Z.lor (u64 (Z.shiftl immhi 2)) immlo) 21 in
    if negb sf then op_imm PD_ADR imm e
    else op_imm PD_ADRP (u64 (Z.shiftl imm 12)) e
  else if t =? 0x22 then
    let op := BITb insn 30 in let S := BITb insn 29 in let sh := BITb insn 22 in
    let imm := BITS insn 21 10 in
    let imm := if sh then Z.shiftl imm 12 else imm in
    if S then op_imm (if op then sel sf PD_SUBS64I PD_SUBS32I
                      else sel sf PD_ADDS64I PD_ADDS32I) (if op then not64 imm else imm) e
    else op_imm (if op then sel sf PD_SUB64I PD_SUB32I
                 else sel sf PD_ADD64I PD_ADD32I) imm e
  else if t =? 0x24 then
    let opc := BITS insn 30 29 in let N := BIT insn 22 in
    let immr := BITS insn 21 16 in let imms := BITS insn 15 10 in
    match pd_bitmasks N imms immr sf with
    | None => e
    | Some wmask =>
        op_imm (match opc with
                | 0 => sel sf PD_AND64I PD_AND32I
                | 1 => sel sf PD_ORR64I PD_ORR32I
                | 2 => sel sf PD_EOR64I PD_EOR32I
                | _ => sel sf PD_ANDS64I PD_ANDS32I
                end) wmask e
    end
  else if t =? 0x25 then
    let opc := BITS insn 30 29 in let hw := BITS insn 22 21 in
    let imm16 := BITS insn 20 5 in
    if negb sf && (2 <=? hw) then e else
    let shift := hw * 16 in
    if opc =? 0 then
      let r := not64 (u64 (Z.shiftl imm16 shift)) in
      op_imm PD_MOVI (if sf then r else u32 r) e
    else if opc =? 2 then
      let r := u64 (Z.shiftl imm16 shift) in
      op_imm PD_MOVI (if sf then r else u32 r) e
    else if opc =? 3 then
      set_imm (u64 (Z.shiftl imm16 shift)) (set_rm shift (set_op (sel sf PD_MOVK64 PD_MOVK32) e))
    else e
  else if t =? 0x26 then fill_bitfield insn e
  else if t =? 0x27 then
    let imms := BITS insn 15 10 in
    if negb (BITS insn 30 29 =? 0) || negb (BIT insn 22 =? b2z sf) || negb (BIT insn 21 =? 0)
    then e
    else if sf then op_imm PD_EXTR64 imms e
    else if imms <? 32 then op_imm PD_EXTR32 imms e
    else e
  else e.

(** [sign_extend(field, bits) << 2]. *)
Definition branch_disp (field bits : Z) : Z := u64 (Z.shiftl (sign_extend field bits) 2).

Definition fill_branch (insn : Z) (e : PDEnt) : PDEnt :=
  let top6 := BITS insn 31 26 in
  if top6 =? 0x05 then op_imm PD_B (branch_disp (BITS insn 25 0) 26) e
  else if top6 =? 0x25 then op_imm PD_BL (branch_disp (BITS insn 25 0) 26) e
  else if (BITS insn 31 24 =? 0x54) && (BIT insn 4 =? 0) then
    set_imm (branch_disp (BITS insn 23 5) 19) (set_rd (BITS insn 3 0) (set_op PD_BCOND e))
  else if BITS insn 30 25 =? 0x1a then
    let sf := BITb insn 31 in let op := BITb insn 24 in
    op_imm (if op then sel sf PD_CBNZ64 PD_CBNZ32 else sel sf PD_CBZ64 PD_CBZ32)
           (branch_disp (BITS insn 23 5) 19) e
  else if BITS insn 30 25 =? 0x1b then
    set_imm (branch_disp (BITS insn 18 5) 14)
      (set_rm (Z.lor (Z.shiftl (BIT insn 31) 5) (BITS insn 23 19))
        (set_op (sel (BITb insn 24) PD_TBNZ PD_TBZ) e))
  else if BITS insn 31 25 =? 0x6b then
    let opc := BITS insn 24 21 in
    if (opc =? 0) || (opc =? 2) then set_op PD_BR e
    else if opc =? 1 then set_op PD_BLR e
    else e
  else if BITS insn 31 24 =? 0xd5 then
    let L := BIT insn 21 in let op0 := BITS insn 20 19 in let op1 := BITS insn 18 16 in
    let CRn := BITS insn 15 12 in let CRm := BITS insn 11 8 in
    let op2 := BITS insn 7 5 in let Rt := BITS insn 4 0 in
    if (L =? 0) && (op0 =? 0) && (op1 =? 3) && (CRn =? 2) && (Rt =? 31)
       && negb ((CRm =? 0) && ((op2 =? 2) || (op2 =? 3)))
    then set_op PD_NOP e
    else e
  else e.

(** [ldst_int_id]; [None] is its 0. *)
Definition ldst_int_id (size opc : Z) : option PDOp :=
  match Z.lor (Z.shiftl size 2) opc with
  | 0x0 => Some PD_STRB | 0x1 => Some PD_LDRB
  | 0x2 => Some PD_LDRSB64 | 0x3 => Some PD_LDRSB32
  | 0x4 => Some PD_STRH | 0x5 => Some PD_LDRH
  | 0x6 => Some PD_LDRSH64 | 0x7 => Some PD_LDRSH32
  | 0x8 => Some PD_STR32U | 0x9 => Some PD_LDR32U
  | 0xa => Some PD_LDRSW
  | 0xc => Some PD_STR64U | 0xd => Some PD_LDR64U
  | 0xe => Some PD_NOP
  | _ => None
  end.

(** The literal forms of [fill_ldst]. *)
Definition fill_literal (insn : Z) (e : PDEnt) : PDEnt :=
  let opc := BITS insn 31 30 in
  let disp := branch_disp (BITS insn 23 5) 19 in
  if BITb insn 26 then
    if opc =? 3 then e
    else set_imm disp (set_rm (Z.shiftl 4 opc) (set_op PD_LDRLITV e))
  else
    set_imm disp (if opc =? 0 then set_op PD_LDRLIT32 e
                  else if opc =? 1 then set_op PD_LDRLIT64 e
                  else if opc =? 3 then set_op PD_NOP e
                  else e).

(** The pair forms. *)
Definition fill_pair (insn : Z) (e : PDEnt) : PDEnt :=
  let opc := BITS insn 31 30 in let mode := BITS insn 25 23 in
  let V := BITb insn 26 in let L := BITb insn 22 in
  if 3 <? mode then e else
  let kind := if mode =? 1 then 2 else if mode =? 3 then 1 else 0 in
  let shape :=
    if V then
      if opc =? 2 then Some (4, sel L PD_LDPQ PD_STPQ)
      else if opc =? 1 then Some (3, sel L PD_LDPD PD_STPD)
      else None
    else
      if opc =? 2 then Some (3, sel L PD_LDP64 PD_STP64)
      else if opc =? 0 then Some (2, sel L PD_LDP32 PD_STP32)
      else None in
  match shape with
  | None => e
  | Some (scale, base_id) =>
      set_imm (u64 (Z.shiftl (sign_extend (BITS insn 21 15) 7) scale))
        (set_rm (BITS insn 14 10) (set_op (pd_of_id (u8 (pd_id base_id + kind))) e))
  end.

(** The single-register forms: unsigned offset, register offset, imm9. *)
Definition fill_ldst_uoff (insn : Z) (e : PDEnt) : PDEnt :=
  let size := BITS insn 31 30 in let opc := BITS insn 23 22 in
  let V := BITb insn 26 in let imm12 := BITS insn 21 10 in
  if V then
    if has opc 2 then
      if negb (size =? 0) then e
      else op_imm (sel (has opc 1) PD_LDRQ PD_STRQ) (Z.shiftl imm12 4) e
    else
      set_imm (Z.shiftl imm12 size)
        (set_rm (Z.shiftl 1 size) (set_op (sel (has opc 1) PD_LDRV PD_STRV) e))
  else
    match ldst_int_id size opc with
    | None => e
    | Some id => op_imm id (Z.shiftl imm12 size) e
    end.

Definition fill_ldst_roff (insn : Z) (e : PDEnt) : PDEnt :=
  let size := BITS insn 31 30 in let opc := BITS insn 23 22 in
  let V := BITb insn 26 in
  if negb (BITS insn 11 10 =? 2) || V then e else
  let id := match Z.lor (Z.shiftl size 2) opc with
            | 0x0 => Some PD_STRBRO | 0x1 => Some PD_LDRBRO
            | 0x4 => Some PD_STRHRO | 0x5 => Some PD_LDRHRO
            | 0x8 => Some PD_STR32RO | 0x9 => Some PD_LDR32RO
            | 0xc => Some PD_STR64RO | 0xd => Some PD_LDR64RO
            | _ => None
            end in
  match id with
  | None => e
  | Some id => op_imm id (Z.lor (Z.shiftl (BITS insn 15 13) 3)
                                (if BITb insn 12 then size else 0)) e
  end.

Definition fill_ldst_imm9 (insn : Z) (e : PDEnt) : PDEnt :=
  let size := BITS insn 31 30 in let opc := BITS insn 23 22 in
  let V := BITb insn 26 in
  let mode := BITS insn 11 10 in
  let imm9 := sign_extend (BITS insn 20 12) 9 in
  if (mode =? 0) || (mode =? 2) then
    if V then
      if mode =? 2 then e
      else if has opc 2 then
        if negb (size =? 0) then e
        else op_imm (sel (has opc 1) PD_LDRQ PD_STRQ) imm9 e
      else set_imm imm9 (set_rm (Z.shiftl 1 size) (set_op (sel (has opc 1) PD_LDRV PD_STRV) e))
    else
      match ldst_int_id size opc with
      | None => e
      | Some id => op_imm id imm9 e
      end
  else
    let post := mode =? 1 in
    if V then
      if has opc 2 && (size =? 0) then
        op_imm (if has opc 1 then sel post PD_LDRQPOST PD_LDRQPRE
                else sel post PD_STRQPOST PD_STRQPRE) imm9 e
      else e
    else if (size =? 3) && (opc =? 1) then op_imm (sel post PD_LDR64POST PD_LDR64PRE) imm9 e
    else if (size =? 3) && (opc =? 0) then op_imm (sel post PD_STR64POST PD_STR64PRE) imm9 e
    else if (size =? 2) && (opc =? 1) then op_imm (sel post PD_LDR32POST PD_LDR32PRE) imm9 e
    else if (size =? 2) && (opc =? 0) then op_imm (sel post PD_STR32POST PD_STR32PRE) imm9 e
    else if (size =? 0) && (opc =? 1) && post then op_imm PD_LDRBPOST imm9 e
    else if (size =? 0) && (opc =? 0) && post then op_imm PD_STRBPOST imm9 e
    else e.

Definition fill_ldst (insn : Z) (e : PDEnt) : PDEnt :=
  let b2927 := BITS insn 29 27 in
  if (b2927 =? 0x3) && (BITS insn 25 24 =? 0) then fill_literal insn e
  else if b2927 =? 0x5 then fill_pair insn e
  else if b2927 =? 0x7 then
    if BITb insn 24 then fill_ldst_uoff insn e
    else if BITb insn 21 then fill_ldst_roff insn e
    else fill_ldst_imm9 insn e
  else e.

(** Logical (shifted register) of [fill_dp_reg]. *)
Definition fill_logical_reg (insn : Z) (e : PDEnt) : PDEnt :=
  let sf := BITb insn 31 in
  let opc := BITS insn 30 29 in let shift := BITS insn 23 22 in
  let N := BIT insn 21 in let imm6 := BITS insn 15 10 in
  let n := negb (N =? 0) in
  if negb sf && (32 <=? imm6) then e
  else if (shift =? 0) && (imm6 =? 0) then
    set_op (match opc with
            | 0 => if n then sel sf PD_BIC64 PD_BIC32 else sel sf PD_AND64 PD_AND32
            | 1 => if n then sel sf PD_ORN64 PD_ORN32 else sel sf PD_ORR64 PD_ORR32
            | 2 => if n then sel sf PD_EON64 PD_EON32 else sel sf PD_EOR64 PD_EOR32
            | _ => if n then sel sf PD_BICS64 PD_BICS32 else sel sf PD_ANDS64 PD_ANDS32
            end) e
  else
    op_imm (match opc with
            | 0 => sel sf PD_AND64S PD_AND32S
            | 1 => sel sf PD_ORR64S PD_ORR32S
            | 2 => sel sf PD_EOR64S PD_EOR32S
            | _ => sel sf PD_ANDS64S PD_ANDS32S
            end) (Z.lor (Z.lor (Z.shiftl N 8) (Z.shiftl shift 6)) imm6) e.

(** Add/subtract (register). *)
Definition fill_addsub_reg (insn : Z) (e : PDEnt) : PDEnt :=
  let sf := BITb insn 31 in let op := BITb insn 30 in let S := BITb insn 29 in
  if BITb insn 21 then
    if (4 <? BITS insn 12 10) || negb (BITS insn 23 22 =? 0) then e
    else op_imm (if op then if S then sel sf PD_SUBSX64 PD_SUBSX32 else sel sf PD_SUBX64 PD_SUBX32
                 else if S then sel sf PD_ADDSX64 PD_ADDSX32 else sel sf PD_ADDX64 PD_ADDX32)
           (Z.lor (Z.shiftl (BITS insn 15 13) 3) (BITS insn 12 10)) e
  else
    let shift := BITS insn 23 22 in let imm6 := BITS insn 15 10 in
    if shift =? 3 then e
    else if negb sf && (32 <=? imm6) then e
    else if (shift =? 0) && (imm6 =? 0) then
      set_op (if op then if S then sel sf PD_SUBS64R PD_SUBS32R else sel sf PD_SUB64R PD_SUB32R
              else if S then sel sf PD_ADDS64R PD_ADDS32R else sel sf PD_ADD64R PD_ADD32R) e
    else
      op_imm (if op then if S then sel sf PD_SUBS64RS PD_SUBS32RS
                         else sel sf PD_SUB64RS PD_SUB32RS
              else if S then sel sf PD_ADDS64RS PD_ADDS32RS
                   else sel sf PD_ADD64RS PD_ADD32RS)
             (Z.lor (Z.shiftl shift 6) imm6) e.

(** Three-source. *)
Definition fill_3source (insn : Z) (e : PDEnt) : PDEnt :=
  let sf := BITb insn 31 in
  if negb (BITS insn 30 29 =? 0) then e else
  let key := Z.lor (Z.shiftl (BITS insn 23 21) 1) (BIT insn 15) in
  let e := set_imm (BITS insn 14 10) e in
  let e := match key with
           | 0x0 => set_op (sel sf PD_MADD64 PD_MADD32) e
           | 0x1 => set_op (sel sf PD_MSUB64 PD_MSUB32) e
           | 0x2 => if sf then set_op PD_SMADDL e else e
           | 0x3 => if sf then set_op PD_SMSUBL e else e
           | 0x4 => if sf then set_op PD_SMULH e else e
           | 0xa => if sf then set_op PD_UMADDL e else e
           | 0xb => if sf then set_op PD_UMSUBL e else e
           | 0xc => if sf then set_op PD_UMULH e else e
           | _ => e
           end in
  if pd_is (pd_op e) PD_GENERIC then set_imm 0 e else e.

(** The conditional compares, conditional selects, one- and two-source forms. *)
Definition fill_cond_src (insn : Z) (e : PDEnt) : PDEnt :=
  let sf := BITb insn 31 in
  let op21 := BITS insn 28 21 in
  if op21 =? 0xd2 then
    if negb (BITb insn 29) || BITb insn 10 || BITb insn 4 then e else
    let op := BITb insn 30 in let is_imm := BITb insn 11 in
    let nzcv := BITS insn 3 0 in
    let flags := mk_nzcv (has nzcv 8) (has nzcv 4) (has nzcv 2) (has nzcv 1) in
    op_imm (if op then if is_imm then sel sf PD_CCMP64I PD_CCMP32I else sel sf PD_CCMP64R PD_CCMP32R
            else if is_imm then sel sf PD_CCMN64I PD_CCMN32I else sel sf PD_CCMN64R PD_CCMN32R)
      (Z.lor (Z.lor (BITS insn 15 12) (Z.shiftl (BITS insn 20 16) 8)) (Z.shiftl flags 32)) e
  else if op21 =? 0xd4 then
    if BITb insn 29 || BITb insn 11 then e else
    let op := BITb insn 30 in let o2 := BITb insn 10 in
    op_imm (if op then if o2 then sel sf PD_CSNEG64 PD_CSNEG32 else sel sf PD_CSINV64 PD_CSINV32
            else if o2 then sel sf PD_CSINC64 PD_CSINC32 else sel sf PD_CSEL64 PD_CSEL32)
      (BITS insn 15 12) e
  else if op21 =? 0xd6 then
    let opcode := BITS insn 15 10 in
    if BITb insn 30 then
      if (opcode =? 0x02) && negb sf then set_op PD_REVW e
      else if (opcode =? 0x03) && sf then set_op PD_REV64 e
      else if opcode =? 0x04 then set_op (sel sf PD_CLZ64 PD_CLZ32) e
      else e
    else
      match opcode with
      | 0x02 => set_op (sel sf PD_UDIV64 PD_UDIV32) e
      | 0x03 => set_op (sel sf PD_SDIV64 PD_SDIV32) e
      | 0x08 => set_op (sel sf PD_LSLV64 PD_LSLV32) e
      | 0x09 => set_op (sel sf PD_LSRV64 PD_LSRV32) e
      | 0x0a => set_op (sel sf PD_ASRV64 PD_ASRV32) e
      | 0x0b => set_op (sel sf PD_RORV64 PD_RORV32) e
      | _ => e
      end
  else e.

Definition fill_dp_reg (insn : Z) (e : PDEnt) : PDEnt :=
  let op24 := BITS insn 28 24 in
  if op24 =? 0x0a then fill_logical_reg insn e
  else if op24 =? 0x0b then fill_addsub_reg insn e
  else if op24 =? 0x1b then fill_3source insn e
  else if op24 =? 0x1a then fill_cond_src insn e
  else e.

(** [pd_fill]: the entry it leaves for [insn] (every field is assigned). *)
Definition pd_fill (insn : Z) : PDEnt :=
  let e := mkPDEnt insn PD_GENERIC (u8 (Z.land insn 31)) (u8 (Z.land (Z.shiftr insn 5) 31))
                   (u8 (Z.land (Z.shiftr insn 16) 31)) 0 in
  match Z.land (Z.shiftr insn 25) 0xf with
  | 0x8 | 0x9 => fill_dp_imm insn e
  | 0xa | 0xb => fill_branch insn e
  | 0x4 | 0x6 | 0xc | 0xe => fill_ldst insn e
  | 0x5 | 0xd => fill_dp_reg insn e
  | _ => e
  end.
