(* ===== verification/Bitfield.v ===== *)
(** * Bitfield: logical immediates

    The bit patterns [decode_bitmasks] produces, checked on every one of its
    2^13 keys against the architecture's definition; the transparency of its
    memo table, and what another thread sees of an entry while it is filled;
    the pre-decoder's copy of the routine. *)

From stdpp Require Import gmap.
From S2P Require Import Prelude Types Cpu Alu AluSpec DpExec Predecode.
Open Scope Z_scope.

(** ** Logical immediates *)

(** The architecture's decoding of [N:immr:imms]: the element size is given by
    the highest set bit of [N:NOT(imms)]. *)
Definition bm_len (N imms : Z) : Z := Z.log2 (64 * N + (63 - imms)).
Definition bm_valid (N imms : Z) : bool := 2 <=? 64 * N + (63 - imms).
Definition bm_wbit (N imms immr i : Z) : bool :=
  let esize := 2 ^ bm_len N imms in
  (i + immr mod esize) mod esize <=? imms mod esize.
Definition bm_tbit (N imms immr i : Z) : bool :=
  let esize := 2 ^ bm_len N imms in
  i mod esize <=? (imms mod esize - immr mod esize) mod esize.

Definition zrange (n : nat) : list Z := map Z.of_nat (seq 0 n).
Lemma zrange_in n z : 0 <= z < Z.of_nat n -> In z (zrange n).
Proof.
  intros. unfold zrange. apply in_map_iff. exists (Z.to_nat z). split; [lia|].
  apply in_seq. lia.
Qed.

(** One key of the decoder against the definition, bit by bit. *)
Definition bm_check (N imms immr : Z) : bool :=
  match decode_bitmasks_slow N imms immr with
  | None => negb (bm_valid N imms)
  | Some (w, t) =>
      bm_valid N imms && (0 <=? w) && (w <? 2 ^ 64) && (0 <=? t) && (t <? 2 ^ 64) &&
      forallb (fun i => Bool.eqb (Z.testbit w i) (bm_wbit N imms immr i)
                        && Bool.eqb (Z.testbit t i) (bm_tbit N imms immr i)) (zrange 64)
  end.
(** A check of every 13-bit key. *)
Definition all_keys (f : Z -> Z -> Z -> bool) : bool :=
  forallb (fun N => forallb (fun imms => forallb (f N imms) (zrange 64)) (zrange 64)) (zrange 2).
Lemma all_keys_spec f N imms immr : all_keys f = true ->
  0 <= N < 2 -> 0 <= imms < 64 -> 0 <= immr < 64 -> f N imms immr = true.
Proof.
  unfold all_keys. intros H HN Hs Hr.
  rewrite forallb_forall in H. specialize (H N (zrange_in 2 _ HN)). cbv beta in H.
  rewrite forallb_forall in H. specialize (H imms (zrange_in 64 _ Hs)). cbv beta in H.
  rewrite forallb_forall in H. exact (H immr (zrange_in 64 _ Hr)).
Qed.
Lemma bm_check_all : all_keys bm_check = true.
Proof. vm_compute. reflexivity. Qed.
Lemma bm_check_true N imms immr :
  0 <= N < 2 -> 0 <= imms < 64 -> 0 <= immr < 64 -> bm_check N imms immr = true.
Proof. exact (all_keys_spec bm_check N imms immr bm_check_all). Qed.

Lemma decode_bitmasks_slow_bits N imms immr w t :
  0 <= N < 2 -> 0 <= imms < 64 -> 0 <= immr < 64 ->
  decode_bitmasks_slow N imms immr = Some (w, t) ->
  bm_valid N imms = true /\ fits 64 w /\ fits 64 t /\
  forall i, 0 <= i < 64 -> Z.testbit w i = bm_wbit N imms immr i /\
                          Z.testbit t i = bm_tbit N imms immr i.
Proof.
  intros HN Hs Hr E. pose proof (bm_check_true N imms immr HN Hs Hr) as H.
  unfold bm_check in H. rewrite E in H. rewrite !andb_true_iff in H.
  destruct H as [[[[[Hv H1] H2] H3] H4] Hf]. unfold fits.
  split; [done|]. split; [lia|]. split; [lia|]. intros i Hi.
  rewrite forallb_forall in Hf. specialize (Hf i (zrange_in 64 i Hi)). cbv beta in Hf.
  rewrite andb_true_iff, !eqb_true_iff in Hf. exact Hf.
Qed.
Lemma decode_bitmasks_slow_none N imms immr :
  0 <= N < 2 -> 0 <= imms < 64 -> 0 <= immr < 64 ->
  decode_bitmasks_slow N imms immr = None <-> bm_valid N imms = false.
Proof.
  intros HN Hs Hr. pose proof (bm_check_true N imms immr HN Hs Hr) as H.
  unfold bm_check in H. destruct (decode_bitmasks_slow N imms immr) as [[w t]|].
  - rewrite !andb_true_iff in H. destruct H as [[[[[-> _] _] _] _] _]. done.
  - by destruct (bm_valid N imms).
Qed.

(** *** The memo table *)

(** An entry of the table is unfilled, or holds the slow path's answer for
    every key that maps to it. *)
Definition memo_ok (memo : Memo) : Prop :=
  forall immN imms immr, 0 <= immN < 2 -> 0 <= imms < 64 -> 0 <= immr < 64 ->
  let e := memo_at memo (memo_key immN imms immr) in
  me_state e = 0 \/
  match decode_bitmasks_slow immN imms immr with
  | Some (w, t) => e = mkMemo w t 1
  | None => me_state e = 2
  end.

Lemma memo_key_lin immN imms immr : 0 <= immN < 2 -> 0 <= imms < 64 -> 0 <= immr < 64 ->
  memo_key immN imms immr = 4096 * immN + 64 * immr + imms.
Proof.
  intros. unfold memo_key. change 0x3f with (Z.ones 6). change 1 with (Z.ones 1) at 1.
  rewrite !Z.land_ones by lia.
  rewrite (Z.mod_small immN), (Z.mod_small imms), (Z.mod_small immr) by (cbn; lia).
  rewrite !Z.shiftl_mul_pow2 by lia.
  rewrite <- (Z.add_nocarry_lor (immN * 2 ^ 12) (immr * 2 ^ 6)),
    <- (Z.add_nocarry_lor (immN * 2 ^ 12 + immr * 2 ^ 6) imms); [lia| |].
  - apply Z.bits_inj'. intros i Hi. rewrite Z.land_spec, Z.bits_0.
    destruct (Z.lt_ge_cases i 6).
    + replace (immN * 2 ^ 12 + immr * 2 ^ 6) with ((immN * 2 ^ 6 + immr) * 2 ^ 6) by lia.
      by rewrite Z.mul_pow2_bits_low by lia.
    + rewrite (fits_testbit 6 imms), andb_false_r; [done|unfold fits; cbn; lia|lia].
  - apply Z.bits_inj'. intros i Hi. rewrite Z.land_spec, Z.bits_0.
    destruct (Z.lt_ge_cases i 12).
    + by rewrite Z.mul_pow2_bits_low by lia.
    + rewrite (fits_testbit 12 (immr * 2 ^ 6)), andb_false_r; [done|unfold fits; cbn; lia|lia].
Qed.

Lemma memo_fill_run immN imms immr e :
  fold_left (fun e st => st e) (memo_fill immN imms immr) e =
  match decode_bitmasks_slow immN imms immr with
  | Some (w, t) => mkMemo w t 1
  | None => mkMemo 0 0 2
  end.
Proof. unfold memo_fill. by destruct (decode_bitmasks_slow immN imms immr) as [[w t]|]. Qed.

Lemma memo_at_insert memo k k' e :
  memo_at (<[k := e]> memo) k' = if decide (k' = k) then e else memo_at memo k'.
Proof.
  unfold memo_at. case_decide as E; [subst; by rewrite lookup_insert_eq|].
  by rewrite lookup_insert_ne by done.
Qed.

Lemma decode_bitmasks_memo_spec memo immN imms immr is64 :
  0 <= immN < 2 -> 0 <= imms < 64 -> 0 <= immr < 64 -> memo_ok memo ->
  snd (decode_bitmasks_memo memo immN imms immr is64) = decode_bitmasks immN imms immr is64 /\
  memo_ok (fst (decode_bitmasks_memo memo immN imms immr is64)).
Proof.
  intros HN Hs Hr Hok. unfold decode_bitmasks_memo. simpl.
  set (key := memo_key immN imms immr).
  destruct (me_state (memo_at memo key) =? 0) eqn:Est.
  - rewrite memo_at_insert, decide_True, memo_fill_run by done. split.
    + unfold memo_answer, decode_bitmasks.
      by destruct (decode_bitmasks_slow immN imms immr) as [[w t]|].
    + intros N' s' r' HN' Hs' Hr'. cbv zeta. rewrite memo_at_insert. case_decide as E.
      * unfold key in E. rewrite !memo_key_lin in E by done.
        assert (N' = immN /\ s' = imms /\ r' = immr) as (-> & -> & ->) by lia.
        right. by destruct (decode_bitmasks_slow immN imms immr) as [[w t]|].
      * by apply Hok.
  - split; [|done]. destruct (Hok immN imms immr HN Hs Hr) as [H|H]; [fold key in H; lia|].
    fold key in H. unfold memo_answer, decode_bitmasks.
    destruct (decode_bitmasks_slow immN imms immr) as [[w t]|]; [by rewrite H|by rewrite H].
Qed.

(** *** Publication of an entry

    The table is shared by the guest's threads and filled without a lock: a
    thread that looks while another fills sees a prefix of its stores. *)
Definition memo_seen (k : nat) (stores : list (MemoEnt -> MemoEnt)) : MemoEnt :=
  fold_left (fun e st => st e) (firstn k stores) memo_zero.
(** What such a thread answers with; [None] when it sees the entry unfilled
    and computes for itself. *)
Definition memo_other_thread (k immN imms immr : Z) (is64 : bool) : option (option (Z * Z)) :=
  let e := memo_seen (Z.to_nat k) (memo_fill immN imms immr) in
  if me_state e =? 0 then None else Some (memo_answer e immN is64).

(** The pre-decoder's copy computes the same write mask. *)
Definition pd_check (b : bool) (N imms immr : Z) : bool :=
  bool_decide (pd_bitmasks N imms immr b = option_map fst (decode_bitmasks N imms immr b)).
Lemma pd_check_all b : all_keys (pd_check b) = true.
Proof. destruct b; vm_compute; reflexivity. Qed.
Lemma pd_bitmasks_eq N imms immr b :
  0 <= N < 2 -> 0 <= imms < 64 -> 0 <= immr < 64 ->
  pd_bitmasks N imms immr b = option_map fst (decode_bitmasks N imms immr b).
Proof.
  intros HN Hs Hr. pose proof (all_keys_spec _ N imms immr (pd_check_all b) HN Hs Hr) as H.
  unfold pd_check in H. by apply bool_decide_eq_true in H.
Qed.

(** * What UBFM and SBFM compute, bit by bit

    The masks of [decode_bitmasks] in the bitfield encodings, the bits of
    [bfm_value], and the shift and extract aliases as shifts of the source. *)

(** The encodings the aliases use: N is the width bit, and both fields are
    below the width. *)
Lemma bitfield_masks (sf : bool) immr imms : let W := width sf in
  0 <= immr < W -> 0 <= imms < W ->
  exists w t, decode_bitmasks (b2z sf) imms immr sf = Some (w, t) /\
  forall i, 0 <= i < W -> Z.testbit w i = ((i + immr) mod W <=? imms) /\
                         Z.testbit t i = (i <=? (imms - immr) mod W).
Proof.
  intros W Hr Hs. assert (HW : W = 64 \/ W = 32) by (destruct sf; auto).
  assert (HN : 0 <= b2z sf < 2) by (destruct sf; simpl; lia).
  assert (Hlen : 2 ^ bm_len (b2z sf) imms = W).
  { unfold bm_len. assert (Z.log2 (64 * b2z sf + (63 - imms)) = if sf then 6 else 5) as ->.
    { apply Z.log2_unique; destruct sf; unfold W, width in *; simpl; lia. }
    by destruct sf. }
  assert (Hv : bm_valid (b2z sf) imms = true)
    by (unfold bm_valid; destruct sf; unfold W, width in *; simpl; lia).
  unfold decode_bitmasks.
  destruct (decode_bitmasks_slow (b2z sf) imms immr) as [[w t]|] eqn:E.
  2:{ apply decode_bitmasks_slow_none in E; [congruence|lia..]. }
  apply decode_bitmasks_slow_bits in E as (_ & _ & _ & Hb); [|lia..].
  assert (forall i, 0 <= i < W -> Z.testbit w i = ((i + immr) mod W <=? imms) /\
                                 Z.testbit t i = (i <=? (imms - immr) mod W)) as Hbits.
  { intros i Hi. destruct (Hb i) as [-> ->]; [lia|]. unfold bm_wbit, bm_tbit. rewrite Hlen.
    by rewrite (Z.mod_small immr), (Z.mod_small imms), (Z.mod_small i) by lia. }
  destruct sf; simpl; [by eauto|]. do 2 eexists. split; [done|]. intros i Hi.
  unfold u32. rewrite !Z.mod_pow2_bits_low by (unfold W, width in Hi; lia). by apply Hbits.
Qed.

Lemma ror_within_bits (sf : bool) v r i : let W := width sf in
  fits 64 v -> 0 <= r < W -> 0 <= i < W ->
  Z.testbit (ror_within v r W) i = Z.testbit v ((i + r) mod W).
Proof.
  intros W Hv Hr Hi. unfold ror_within, W, width in *. destruct sf; simpl in *.
  { by apply ror64_bits; [|lia..]. }
  rewrite (Z.mod_small r) by lia. unfold u32. destruct (Z.eqb_spec r 0) as [-> |].
  { rewrite Z.add_0_r, Z.mod_pow2_bits_low, (Z.mod_small i) by lia. done. }
  change 0xffffffff with (Z.ones 32). rewrite Z.land_ones, Z.mod_pow2_bits_low by lia.
  unfold u64. rewrite Z.lor_spec, Z.shiftr_spec, (Z.mod_pow2_bits_low _ 64), Z.shiftl_spec by lia.
  destruct (Z.lt_ge_cases (i + r) 32).
  - rewrite (Z.testbit_neg_r _ (i - (32 - r))), orb_false_r by lia.
    by rewrite Z.mod_pow2_bits_low, (Z.mod_small (i + r)) by lia.
  - rewrite Z.mod_pow2_bits_high, orb_false_l by lia.
    rewrite Z.mod_pow2_bits_low by lia. f_equal.
    replace (i + r) with (i - (32 - r) + 1 * 32) by lia. rewrite Z.mod_add by lia.
    by rewrite Z.mod_small by lia.
Qed.

Lemma land1_testbit v k : 0 <= k -> (Z.land (Z.shiftr v k) 1 =? 0) = negb (Z.testbit v k).
Proof.
  intros Hk. change (Z.land (Z.shiftr v k) 1) with (BIT v k). rewrite BIT_mod.
  rewrite Z.testbit_eqb, Z.shiftr_div_pow2 by lia.
  pose proof (Z.mod_pos_bound (v / 2 ^ k) 2). zbool.
Qed.
Lemma not64_0_bit i : 0 <= i < 64 -> Z.testbit (not64 0) i = true.
Proof. intros. unfold not64, u64. by rewrite Z.mod_pow2_bits_low, Z.lnot_spec, Z.bits_0 by lia. Qed.
Lemma not64_bit v i : 0 <= i < 64 -> Z.testbit (not64 v) i = negb (Z.testbit v i).
Proof. intros. unfold not64, u64. by rewrite Z.mod_pow2_bits_low, Z.lnot_spec by lia. Qed.

(** Bit [i] of UBFM ([sign] false) and SBFM ([sign] true) of [v]. *)
Definition xbfm_bit (W R S v i : Z) (sign : bool) : bool :=
  if i <=? (S - R) mod W
  then if (i + R) mod W <=? S then Z.testbit v ((i + R) mod W) else false
  else if sign then Z.testbit v S else false.

Lemma bfm_value_bits (sf sign : bool) immr imms v rd w t i : let W := width sf in
  fits 64 v -> 0 <= immr < W -> 0 <= imms < W -> 0 <= i < W ->
  decode_bitmasks (b2z sf) imms immr sf = Some (w, t) ->
  Z.testbit (bfm_value sf (if sign then 0 else 2) immr imms v rd w t) i =
  xbfm_bit W immr imms v i sign.
Proof.
  intros W Hv Hr Hs Hi E. destruct (bitfield_masks sf immr imms Hr Hs) as (w' & t' & E' & Hb).
  rewrite E' in E. injection E as -> ->. destruct (Hb i Hi) as [Hw Ht].
  assert (HW : W = 64 \/ W = 32) by (destruct sf; auto).
  unfold bfm_value, xbfm_bit. fold W in Hw, Ht |- *.
  change (if sf then 64 else 32) with (width sf). fold W.
  pose proof (ror_within_bits sf v immr i Hv Hr Hi) as Hror. cbv zeta in Hror. fold W in Hror.
  rewrite Z.lor_spec, !Z.land_spec, not64_bit, Ht by lia.
  destruct sign; simpl.
  - rewrite land1_testbit by lia.
    rewrite Z.land_spec, Hw, Hror.
    destruct (Z.testbit v imms); simpl; rewrite ?not64_0_bit, ?Z.bits_0 by lia;
      destruct (i <=? _), (_ <=? imms); simpl; by rewrite ?andb_true_r, ?andb_false_r.
  - rewrite Z.bits_0, Z.land_spec, Hw, Hror.
    destruct (i <=? _), (_ <=? imms); simpl; by rewrite ?andb_true_r, ?andb_false_r.
Qed.

(** Two results of width [W] that agree on their bits. *)
Definition trunc_to (sf : bool) (v : Z) : Z := if sf then v else u32 v.
Lemma fits_width_64 (sf : bool) v : fits (width sf) v -> fits 64 v.
Proof. intros. eapply fits_weaken; [done|destruct sf; simpl; lia]. Qed.
Lemma eq_by_bits (sf : bool) a b : fits 64 a -> fits (width sf) b ->
  (forall i, 0 <= i < width sf -> Z.testbit a i = Z.testbit b i) -> trunc_to sf a = b.
Proof.
  intros Ha Hb H. apply Z.bits_inj'. intros i Hi.
  destruct (Z.lt_ge_cases i (width sf)) as [Hl|Hl].
  - rewrite <- H by lia. unfold trunc_to. destruct sf; [done|]. unfold u32.
    by rewrite Z.mod_pow2_bits_low by (simpl in Hl; lia).
  - rewrite (fits_testbit (width sf) b) by (done || destruct sf; simpl in *; lia).
    unfold trunc_to. destruct sf; simpl in *.
    + by rewrite (fits_testbit 64 a) by (done || lia).
    + unfold u32. by rewrite Z.mod_pow2_bits_high by lia.
Qed.

(** An arithmetic shift right of the [W]-bit reading of [v]. *)
Lemma sar_bits (sf : bool) v k i : let W := width sf in
  0 <= k -> 0 <= i < W ->
  Z.testbit (Z.shiftr (signed W v) k) i = Z.testbit v (Z.min (i + k) (W - 1)).
Proof.
  intros W Hk Hi. assert (HW : W = 64 \/ W = 32) by (destruct sf; auto).
  rewrite Z.shiftr_spec by lia. unfold signed.
  pose proof (Z.mod_pos_bound v (2 ^ W)) as Hm. assert (0 < 2 ^ W) by (destruct HW as [-> | ->]; lia).
  assert (Htop : Z.testbit v (W - 1) = (2 ^ (W - 1) <=? v mod 2 ^ W)).
  { rewrite <- top_bit; [|lia|unfold fits; lia]. by rewrite Z.mod_pow2_bits_low by lia. }
  destruct (Z.ltb_spec (v mod 2 ^ W) (2 ^ (W - 1))).
  - destruct (Z.lt_ge_cases (i + k) W).
    + rewrite Z.mod_pow2_bits_low by lia. f_equal. lia.
    + rewrite Z.mod_pow2_bits_high by lia. rewrite Z.min_r, Htop by lia. zbool.
  - replace (v mod 2 ^ W - 2 ^ W) with (Z.lnot (2 ^ W - 1 - v mod 2 ^ W)) by (unfold Z.lnot; lia).
    rewrite Z.lnot_spec by lia. destruct (Z.lt_ge_cases (i + k) W).
    + rewrite Z.min_l by lia. rewrite <- (Z.mod_pow2_bits_low v W (i + k)) by lia.
      replace (2 ^ W - 1 - v mod 2 ^ W) with (Z.lnot (v mod 2 ^ W) + 1 * 2 ^ W)
        by (unfold Z.lnot; lia).
      rewrite <- (Z.mod_pow2_bits_low (Z.lnot _ + _) W) by lia. rewrite Z.mod_add by lia.
      rewrite Z.mod_pow2_bits_low, Z.lnot_spec by lia. apply negb_involutive.
    + rewrite Z.min_r, Htop by lia. rewrite (fits_testbit W); [simpl; zbool|unfold fits; lia|lia].
Qed.

(** ** The aliases *)
Section Aliases.
Context (sf : bool) (R S v rd w t : Z).
Notation W := (width sf).
Hypothesis (Hv : fits 64 v) (Hrd : fits 64 rd) (Hr : 0 <= R < W) (Hs : 0 <= S < W).
Hypothesis (E : decode_bitmasks (b2z sf) S R sf = Some (w, t)).

Lemma W_cases : W = 64 \/ W = 32.
Proof. destruct sf; auto. Qed.
Lemma fits_bfm (sign : bool) : fits 64 (bfm_value sf (if sign then 0 else 2) R S v rd w t).
Proof.
  assert (HN : 0 <= b2z sf < 2) by (destruct sf; simpl; lia). pose proof W_cases.
  unfold decode_bitmasks in E.
  destruct (decode_bitmasks_slow (b2z sf) S R) as [[w' t']|] eqn:E'; [|done].
  apply decode_bitmasks_slow_bits in E' as (_ & Hw & Ht & _); [|lia..].
  assert (Htt : fits 64 t) by (destruct sf; simpl in E; injection E as <- <-; auto with word).
  unfold bfm_value. apply fits_lor; [lia| |].
  - apply fits_land; [lia| |apply fits_not64]. destruct sign; simpl; auto with word.
  - rewrite Z.land_comm. apply fits_land_l; [lia|done|].
    assert (Hw0 : 0 <= w) by (destruct sf; simpl in E; injection E as <- <-;
      [apply Hw|apply fits_u32]).
    destruct sign; simpl; apply Z.land_nonneg; by right.
Qed.
(** A result is determined by its bits. *)
Lemma bfm_eq (sign : bool) b : fits W b ->
  (forall i, 0 <= i < W -> xbfm_bit W R S v i sign = Z.testbit b i) ->
  trunc_to sf (bfm_value sf (if sign then 0 else 2) R S v rd w t) = b.
Proof.
  intros Hb H. apply eq_by_bits; [apply fits_bfm|done|]. intros i Hi.
  rewrite <- H by done. by apply bfm_value_bits.
Qed.
Lemma fits_trunc x : fits 64 x -> fits W (trunc_to sf x).
Proof. intros. destruct sf; simpl; [done|apply fits_u32]. Qed.
Lemma trunc_bit x i : 0 <= i < W -> Z.testbit (trunc_to sf x) i = Z.testbit x i.
Proof.
  intros. destruct sf; simpl; [done|]. unfold u32. by rewrite Z.mod_pow2_bits_low by (simpl in *; lia).
Qed.
Lemma trunc_bit_high x i : fits 64 x -> W <= i -> Z.testbit (trunc_to sf x) i = false.
Proof. intros. pose proof W_cases. eapply fits_testbit; [by apply fits_trunc|lia]. Qed.

Lemma lsr_alias : S = W - 1 ->
  trunc_to sf (bfm_value sf 2 R S v rd w t) = Z.shiftr (trunc_to sf v) R.
Proof.
  intros ES. pose proof W_cases. apply (bfm_eq false).
  - apply fits_shiftr; [lia..|by apply fits_trunc].
  - intros i Hi. unfold xbfm_bit. rewrite Z.shiftr_spec by lia.
    rewrite (Z.mod_small (S - R)) by lia. destruct (Z.leb_spec i (S - R)).
    + rewrite Z.mod_small, trunc_bit by lia. zbool.
    + by rewrite trunc_bit_high by (done || lia).
Qed.
Lemma lsl_alias : S < W - 1 -> R = S + 1 ->
  trunc_to sf (bfm_value sf 2 R S v rd w t) = trunc_to sf (u64 (Z.shiftl v (W - 1 - S))).
Proof.
  intros HS ER. pose proof W_cases. apply (bfm_eq false); [apply fits_trunc, fits_u64|].
  intros i Hi. unfold xbfm_bit. rewrite trunc_bit by done. unfold u64.
  rewrite Z.mod_pow2_bits_low, Z.shiftl_spec by lia.
  assert ((S - R) mod W = W - 1) as -> by (symmetry; apply Z.mod_unique with (-1); lia).
  rewrite (proj2 (Z.leb_le _ _)) by lia. destruct (Z.lt_ge_cases i (W - R)).
  - rewrite (Z.mod_small (i + R)) by lia. rewrite (proj2 (Z.leb_gt _ _)) by lia.
    by rewrite Z.testbit_neg_r by lia.
  - assert ((i + R) mod W = i - (W - R)) as -> by (symmetry; apply Z.mod_unique with 1; lia).
    rewrite (proj2 (Z.leb_le _ _)) by lia. f_equal. lia.
Qed.
Lemma ubfx_alias : R <= S ->
  trunc_to sf (bfm_value sf 2 R S v rd w t) = Z.land (Z.shiftr v R) (ones (S - R + 1)).
Proof.
  intros HRS. pose proof W_cases. rewrite ones_ones by lia.
  assert (Hf : fits W (Z.land (Z.shiftr v R) (Z.ones (S - R + 1)))).
  { rewrite Z.land_ones by lia. apply fits_weaken with (S - R + 1); [|lia].
    apply Z.mod_pos_bound, Z.pow_pos_nonneg; lia. }
  apply (bfm_eq false); [done|]. intros i Hi. unfold xbfm_bit.
  rewrite Z.land_spec, Z.testbit_ones_nonneg, Z.shiftr_spec, (Z.mod_small (S - R)) by lia.
  destruct (Z.leb_spec i (S - R)).
  - rewrite Z.mod_small by lia. rewrite (proj2 (Z.leb_le _ _)), (proj2 (Z.ltb_lt _ _)) by lia.
    by rewrite andb_true_r.
  - rewrite (proj2 (Z.ltb_ge _ _)) by lia. by rewrite andb_false_r.
Qed.
Lemma ubfiz_alias : S + 1 < R ->
  trunc_to sf (bfm_value sf 2 R S v rd w t) =
  trunc_to sf (u64 (Z.shiftl (Z.land v (ones (S + 1))) (W - R))).
Proof.
  intros HRS. pose proof W_cases. apply (bfm_eq false); [apply fits_trunc, fits_u64|].
  intros i Hi. unfold xbfm_bit. rewrite trunc_bit by done. unfold u64.
  rewrite ones_ones, Z.mod_pow2_bits_low, Z.shiftl_spec, Z.land_spec by lia.
  assert ((S - R) mod W = S - R + W) as -> by (symmetry; apply Z.mod_unique with (-1); lia).
  destruct (Z.lt_ge_cases i (W - R)).
  - rewrite (Z.mod_small (i + R)) by lia. rewrite (Z.testbit_neg_r v (i - (W - R))) by lia. zbool.
  - assert ((i + R) mod W = i - (W - R)) as -> by (symmetry; apply Z.mod_unique with 1; lia).
    rewrite Z.testbit_ones_nonneg by lia.
    destruct (Z.leb_spec i (S - R + W)), (Z.leb_spec (i - (W - R)) S),
      (Z.ltb_spec (i - (W - R)) (S + 1)); try lia; by rewrite ?andb_true_r, ?andb_false_r.
Qed.
Lemma fits_trunc_any x : fits W (if sf then u64 x else u32 x).
Proof. destruct sf; [apply fits_u64|apply fits_u32]. Qed.
Lemma width_mod_bit x i : 0 <= i < W -> Z.testbit (if sf then u64 x else u32 x) i = Z.testbit x i.
Proof.
  intros. destruct sf; unfold u64, u32; rewrite Z.mod_pow2_bits_low; simpl in *; lia || done.
Qed.
Lemma asr_alias : S = W - 1 ->
  trunc_to sf (bfm_value sf 0 R S v rd w t) =
  (if sf then u64 (Z.shiftr (signed W v) R) else u32 (Z.shiftr (signed W v) R)).
Proof.
  intros ES. pose proof W_cases. apply (bfm_eq true); [apply fits_trunc_any|].
  intros i Hi. rewrite width_mod_bit, sar_bits by lia. unfold xbfm_bit.
  rewrite (Z.mod_small (S - R)) by lia. destruct (Z.leb_spec i (S - R)).
  - rewrite Z.mod_small, Z.min_l by lia. zbool.
  - by rewrite Z.min_r, ES by lia.
Qed.
Lemma sbfx_alias : R <= S -> S < W - 1 ->
  trunc_to sf (bfm_value sf 0 R S v rd w t) =
  (if sf then u64 (Z.shiftr (signed W (Z.shiftl v (W - 1 - S))) (W - 1 - S + R))
   else u32 (Z.shiftr (signed W (Z.shiftl v (W - 1 - S))) (W - 1 - S + R))).
Proof.
  intros HRS ES. pose proof W_cases. apply (bfm_eq true); [apply fits_trunc_any|].
  intros i Hi. rewrite width_mod_bit, sar_bits by lia. unfold xbfm_bit.
  rewrite (Z.mod_small (S - R)) by lia. rewrite Z.shiftl_spec by lia.
  destruct (Z.leb_spec i (S - R)).
  - rewrite Z.mod_small, Z.min_l by lia. rewrite (proj2 (Z.leb_le _ _)) by lia. f_equal. lia.
  - rewrite Z.min_r by lia. f_equal. lia.
Qed.
End Aliases.
