(* ===== verification/DpSafe.v ===== *)
(** * DpSafe: the data-processing handlers keep a well-formed CPU

    Every result of the arithmetic helpers has its register's width, so the
    two data-processing groups preserve well-formedness and never leave
    defined behaviour. *)

From S2P Require Import Prelude Types Cpu CpuWf Alu AluSpec Predecode Bitfield DpExec.

(** ** Widths of the results *)
Lemma fits_64_of_32 z : fits 32 z -> fits 64 z.
Proof. intros. by eapply fits_weaken; [done|lia]. Qed.
Lemma land_ge0 a b : 0 <= b -> 0 <= Z.land a b.
Proof. intros. apply Z.land_nonneg. by right. Qed.
#[export] Hint Resolve fits_awc_fst fits_awc_snd : word.
#[export] Hint Extern 1 (0 <= Z.land _ _) => (apply land_ge0; (lia || (case_match; lia))) : word.

Lemma fits_small n z : 0 <= z < n -> n <= 2 ^ 64 -> fits 64 z.
Proof. unfold fits. lia. Qed.
Lemma fits_BITS64 insn hi lo : lo <= hi -> hi - lo < 64 -> fits 64 (BITS insn hi lo).
Proof. intros. eapply fits_weaken; [by apply fits_BITS|lia]. Qed.
Lemma fits_PS_N : fits 32 PS_N. Proof. apply fits_PS; simpl; tauto. Qed.
Lemma fits_PS_Z : fits 32 PS_Z. Proof. apply fits_PS; simpl; tauto. Qed.
Lemma fits_PS_C : fits 32 PS_C. Proof. apply fits_PS; simpl; tauto. Qed.
Lemma fits_PS_V : fits 32 PS_V. Proof. apply fits_PS; simpl; tauto. Qed.
#[export] Hint Resolve fits_PS_N fits_PS_Z fits_PS_C fits_PS_V : word.
#[export] Hint Extern 1 (fits 64 (BITS _ _ _)) => (apply fits_BITS64; lia) : word.

Lemma fits_logical_flags r b : fits 32 (logical_flags r b).
Proof. destruct b; cbn -[Z.pow PS_N PS_Z u32]; repeat case_match; vm_compute; split; congruence. Qed.
Lemma fits_shift_reg v t a b : fits 64 v -> fits 64 (shift_reg v t a b).
Proof.
  intros Hv. unfold shift_reg. set (k := Z.land a _).
  assert (0 <= k) by (apply land_ge0; destruct b; lia).
  assert (fits 64 (Z.shiftr (u32 v) k)) by (apply fits_shiftr; auto with word; lia).
  destruct b; cbv zeta; rewrite ?u32_u32;
    destruct t as [|[p|[p|p|]|]|p]; auto with word;
    solve [apply fits_ror64; done | apply fits_64_of_32, fits_ror32; auto with word
          | apply fits_shiftr; auto with word; lia].
Qed.
Lemma fits_extend_reg v o k : fits 64 (extend_reg v o k).
Proof. apply fits_u64. Qed.
Lemma fits_ror_within v r w : fits 64 v -> fits 64 (ror_within v r w).
Proof.
  intros Hv. unfold ror_within. case_match; [by apply fits_ror64|].
  cbv zeta. case_match; [auto with word|]. apply fits_64_of_32.
  change 0xffffffff with (Z.ones 32). rewrite Z.land_ones by lia.
  by apply Z.mod_pos_bound.
Qed.
Lemma fits_decode_bitmasks N imms immr b w t :
  0 <= N < 2 -> 0 <= imms < 64 -> 0 <= immr < 64 ->
  decode_bitmasks N imms immr b = Some (w, t) -> fits 64 w /\ fits 64 t.
Proof.
  intros HN Hs Hr. unfold decode_bitmasks.
  destruct (decode_bitmasks_slow N imms immr) as [[w' t']|] eqn:E; [|done].
  apply decode_bitmasks_slow_bits in E as (_ & Hw & Ht & _); [|done..].
  destruct b; simpl; [|destruct (N =? 0); [|done]]; intros [= <- <-]; auto with word.
Qed.
Lemma fits_byte v i : 0 <= byte_at v i < 256.
Proof. apply land_ff. Qed.
Lemma fits_bswap32 v : fits 32 (bswap32 v).
Proof.
  unfold bswap32.
  assert (forall i k, 0 <= k <= 24 -> fits 32 (Z.shiftl (byte_at v i) k)) as H.
  { intros i k Hk. pose proof (fits_byte v i). rewrite Z.shiftl_mul_pow2 by lia.
    pose proof (Z.pow_le_mono_r 2 k 24). unfold fits. nia. }
  repeat (apply fits_lor; [lia| |]); [apply H; lia..|]. rewrite <- (Z.shiftl_0_r (byte_at v 3)).
  apply H; lia.
Qed.
Lemma fits_bswap64 v : fits 64 (bswap64 v).
Proof.
  unfold bswap64. apply fits_lor; [lia| |apply fits_64_of_32, fits_bswap32].
  pose proof (fits_bswap32 (u32 v)) as H. unfold fits in *. rewrite Z.shiftl_mul_pow2 by lia. lia.
Qed.
Lemma fits_rbit w v : fits 64 (rbit w v).
Proof.
  unfold rbit. generalize 0 at 1 as i. assert (fits 64 0) as H0 by auto with word.
  revert H0. generalize 0 as o. induction (Z.to_nat w) as [|n IH]; intros o Ho i; simpl; [done|].
  apply IH. case_match; [|done]. apply fits_lor; auto with word; lia.
Qed.
Lemma fits_rev16 n i v o : fits 64 o -> fits 64 (rev16_loop n i v o).
Proof.
  revert i o. induction n as [|n IH]; intros i o Ho; simpl; [done|]. apply IH.
  repeat (apply fits_lor; [lia| |]); auto with word.
Qed.
Lemma cls_loop_range n v sign cnt : 0 <= cnt -> 0 <= cls_loop n v sign cnt <= cnt + Z.of_nat n.
Proof.
  revert cnt. induction n as [|n IH]; intros cnt Hc; simpl; [lia|]. case_match; [|lia].
  specialize (IH (cnt + 1)). lia.
Qed.
Lemma fits_clz w v : 0 <= w <= 64 -> fits w v -> v <> 0 -> fits 64 (clz w v).
Proof.
  intros Hw [H0 H1] Hv. unfold clz, fits. pose proof (Z.log2_nonneg v).
  assert (Z.log2 v < w) by (apply Z.log2_lt_pow2; lia). lia.
Qed.
Lemma fits_udiv sf n m : fits 64 n -> fits 64 m -> fits 64 (udiv sf n m).
Proof.
  intros Hn Hm. assert (forall a b, fits 64 a -> 0 < b -> fits 64 (a / b)) as H.
  { unfold fits. intros a b Ha Hb. split; [apply Z.div_pos; lia|].
    apply Z.le_lt_trans with a; [|lia]. apply Z.div_le_upper_bound; nia. }
  unfold udiv. pose proof (fits_u32 m) as Hm'. destruct sf; cbv zeta.
  - case_match; [auto with word|]. apply H; [done|]. unfold fits in Hm. lia.
  - case_match; [auto with word|]. apply H; [auto with word|]. unfold fits in Hm'. lia.
Qed.
Lemma fits_sdiv sf n m : fits 64 (sdiv sf n m).
Proof. unfold sdiv. destruct sf; cbv zeta; case_match; auto with word. Qed.
Lemma fits_umulh64 a b : fits 64 (umulh64 a b).
Proof. apply fits_u64. Qed.
#[export] Hint Resolve fits_logical_flags fits_shift_reg fits_extend_reg fits_ror_within
  fits_bswap64 fits_rbit fits_udiv fits_sdiv fits_umulh64 fits_ones : word.
#[export] Hint Extern 1 (fits 64 (bswap32 _)) => (apply fits_64_of_32, fits_bswap32) : word.

(** ** The handlers *)
Section DpSafe.
Context {Mem : Type} (U : Prop).
Notation Safe m := (safe U (st_wf (Mem:=Mem)) m (fun _ => True)).

(** A pair built by [add_with_carry]. *)
Lemma fits_if_awc (b : bool) p q : (exists x y c s, p = add_with_carry x y c s) ->
  (exists x y c s, q = add_with_carry x y c s) ->
  fits 64 (fst (if b then p else q)) /\ fits 32 (snd (if b then p else q)).
Proof.
  intros (x & y & c & s & ->) (x' & y' & c' & s' & ->). destruct b; auto with word.
Qed.

Ltac awc_pair :=
  match goal with
  | |- context [let '(r, fl) := ?p in _] =>
      let H := fresh "Hp" in
      assert (fits 64 (fst p) /\ fits 32 (snd p)) as H by (apply fits_if_awc; eauto 10);
      destruct p as [? ?]; cbn [fst snd] in H; destruct H
  end.

Lemma safe_dp_pcrel insn : Safe (dp_pcrel insn).
Proof. unfold dp_pcrel. repeat safe_step; auto with word. Qed.
Lemma safe_dp_addsub_imm insn : Safe (dp_addsub_imm insn).
Proof. unfold dp_addsub_imm. safe_step. cbv zeta. awc_pair. repeat safe_step; auto with word. Qed.
Lemma safe_dp_logical_imm insn : Safe (dp_logical_imm insn).
Proof.
  unfold dp_logical_imm. cbv zeta.
  destruct (decode_bitmasks _ _ _ _) as [[w t]|] eqn:E; [|safe_step].
  apply fits_decode_bitmasks in E as [Hw Ht]; [|repeat field; lia..].
  repeat safe_step; repeat case_match; auto with word.
Qed.
Lemma safe_dp_movewide insn : Safe (dp_movewide insn).
Proof. unfold dp_movewide. repeat safe_step; auto with word. Qed.
Lemma safe_dp_bitfield insn : Safe (dp_bitfield insn).
Proof.
  unfold dp_bitfield. safe_step; [safe_step|].
  destruct (decode_bitmasks _ _ _ _) as [[w t]|] eqn:Ebm; [|safe_step].
  apply fits_decode_bitmasks in Ebm as [Hw Ht]; [|repeat field; lia..].
  repeat safe_step. unfold bfm_value.
  apply fits_lor; [lia|apply fits_land; [lia| |]..]; auto with word.
Qed.
Lemma safe_dp_extract insn : Safe (dp_extract insn).
Proof.
  unfold dp_extract. repeat safe_step. assert (0 <= BITS insn 15 10) by (field; lia).
  repeat case_match; auto with word; apply fits_64_of_32; auto with word.
Qed.
Lemma safe_dp_immediate insn : Safe (dp_immediate insn).
Proof.
  unfold dp_immediate. safe_cases;
    auto using safe_dp_pcrel, safe_dp_addsub_imm, safe_dp_logical_imm, safe_dp_movewide,
      safe_dp_bitfield, safe_dp_extract, safe_undefined.
Qed.

Lemma safe_dp_logical_reg insn : Safe (dp_logical_reg insn).
Proof. unfold dp_logical_reg. repeat safe_step; repeat case_match; auto 8 with word. Qed.
Lemma safe_dp_addsub_reg insn : Safe (dp_addsub_reg insn).
Proof.
  unfold dp_addsub_reg. cbv zeta.
  eapply safe_bind with (Q := fun p => fits 64 (fst p) /\ fits 64 (snd p)).
  - repeat safe_step; auto with word.
  - intros [op2 n] [H1 H2]. awc_pair. repeat safe_step; auto with word.
Qed.
Lemma safe_dp_3source insn : Safe (dp_3source insn).
Proof.
  unfold dp_3source. repeat safe_step; auto with word.
Qed.
Lemma safe_dp_addsub_carry insn : Safe (dp_addsub_carry insn).
Proof.
  unfold dp_addsub_carry. safe_step.
  - do 3 safe_step. cbv zeta. awc_pair. repeat safe_step; auto with word.
  - repeat safe_step; repeat case_match; auto 9 with safe word.
Qed.
Lemma safe_dp_condcmp insn : Safe (dp_condcmp insn).
Proof.
  unfold dp_condcmp. repeat safe_step; repeat case_match; auto 9 using wf_with_nzcv with word.
Qed.
Lemma safe_dp_condsel insn : Safe (dp_condsel insn).
Proof. unfold dp_condsel. repeat safe_step; repeat case_match; auto with word. Qed.
Lemma fits_1source_clz n (sf : bool) : fits 64 n ->
  fits 64 (if sf then (if n =? 0 then 64 else clz 64 n)
           else (if u32 n =? 0 then 32 else clz 32 (u32 n))).
Proof.
  intros Hn. destruct sf; case_match; try (unfold fits; cbn; lia).
  - apply fits_clz; [lia|done|lia].
  - apply fits_clz; [lia|auto with word|lia].
Qed.
Lemma fits_1source_cls n v sign : 0 <= n <= 64 -> fits 64 (cls_loop (Z.to_nat n) v sign 0).
Proof. intros. pose proof (cls_loop_range (Z.to_nat n) v sign 0). unfold fits. lia. Qed.
Lemma fits_rev32 n :
  fits 64 (Z.lor (bswap32 (Z.land n 0xffffffff))
                 (u64 (Z.shiftl (bswap32 (Z.land (Z.shiftr n 32) 0xffffffff)) 32))).
Proof. apply fits_lor; auto with word; lia. Qed.
Lemma safe_dp_1source insn : Safe (dp_1source insn).
Proof.
  unfold dp_1source. repeat safe_step;
    auto using fits_1source_clz, fits_rev16, fits_rev32 with word;
    apply fits_1source_cls; case_match; lia.
Qed.
Lemma safe_dp_2source insn : Safe (dp_2source insn).
Proof.
  assert (forall n m b p, fits 64 n -> fits 64 m -> In b [1; 2; 4; 8] ->
    In p [0xEDB88320; 0x82F63B78] -> fits 64 (crc32_step (u32 n) m b p)) as Hcrc.
  { intros n m b p Hn Hm Hb Hp. apply fits_64_of_32, fits_crc32_step; auto with word.
    destruct Hp as [<-|[<-|[]]]; unfold fits; lia. }
  unfold dp_2source. repeat safe_step; auto with word; apply Hcrc; try done; simpl; auto.
Qed.
Lemma safe_dp_register insn : Safe (dp_register insn).
Proof.
  unfold dp_register. safe_cases;
    auto using safe_dp_logical_reg, safe_dp_addsub_reg, safe_dp_3source, safe_dp_addsub_carry,
      safe_dp_condcmp, safe_dp_condsel, safe_dp_1source, safe_dp_2source, safe_undefined.
Qed.
End DpSafe.
