(* ===== verification/LdStSafe.v ===== *)
(** * LdStSafe: the load/store handlers keep a well-formed CPU

    The load/store group, the atomics and the memory copy/set instructions
    preserve well-formedness, stay inside every array and buffer, and their
    loops end; the one exception is CASP with a register field of 31. *)

From S2P Require Import Prelude Types Cpu CpuWf MemSeam Alu AluSpec Atomics Mops LdSt DpSafe.

Lemma fits_sign_extend' x bits : fits 64 x -> fits 64 (sign_extend x bits).
Proof. intros. unfold sign_extend. case_match; auto with word. Qed.
Lemma shiftl_size s : 0 <= s < 4 -> 1 <= Z.shiftl 1 s <= 8.
Proof.
  intros. assert (s = 0 \/ s = 1 \/ s = 2 \/ s = 3) as [-> |[-> |[-> | ->]]] by lia;
    vm_compute; split; congruence.
Qed.
#[export] Hint Resolve fits_sign_extend' : word.

(** The access sizes a handler passes. *)
Ltac mem_size :=
  solve [ lia
        | match goal with
          | |- context [Z.shiftl 1 (BITS ?i ?h ?l)] =>
              let H := fresh in
              pose proof (shiftl_size (BITS i h l) ltac:(repeat field; lia)) as H; lia
          end
        | repeat case_match; lia ].

Section MemSafe.
Context {Mem : Type} `{MemSeam Mem} (U : Prop).
Notation SafeQ := (safe U (st_wf (Mem:=Mem))).

Lemma safe_mem_read64 va size : 0 <= size <= 8 -> SafeQ (mem_read va size) (fits 64).
Proof.
  intros Hz. eapply safe_weaken; [by apply safe_mem_read|]. cbv beta.
  intros v Hv. eapply fits_weaken; [done|lia].
Qed.
Lemma safe_at_load bytes hp : 0 <= bytes <= 16 -> SafeQ (at_load bytes hp) (fits (8 * bytes)).
Proof.
  intros Hb. apply safe_gets. intros s _.
  pose proof (fits_host_load (Z.to_nat bytes) hp (s_mem s)) as Hf. by rewrite Z2Nat.id in Hf by lia.
Qed.
Lemma safe_at_store bytes hp v : SafeQ (at_store bytes hp v) (fun _ => True).
Proof. apply safe_upd_mem. Qed.
Lemma safe_at_cas bytes hp e w : 0 <= bytes <= 16 ->
  SafeQ (at_cas bytes hp e w) (fun r => fits (8 * bytes) (snd r)).
Proof.
  intros Hb. unfold at_cas. eapply safe_bind; [by apply safe_at_load|]. intros old Ho.
  apply safe_if; intros E.
  - eapply safe_bind; [apply safe_at_store|]. intros [] _. by apply safe_ret.
  - by apply safe_ret.
Qed.
Lemma safe_align_fault {A} va w (Q : A -> Prop) : SafeQ (atomic_align_fault va w) Q.
Proof. apply safe_raise. Qed.
Lemma safe_trans_fault {A} va w (Q : A -> Prop) : SafeQ (atomic_trans_fault va w) Q.
Proof. apply safe_raise. Qed.
End MemSafe.
#[export] Hint Extern 1 (safe _ _ (mem_read _ _) _) => (apply safe_mem_read64; mem_size) : safe.
#[export] Hint Extern 1 (safe _ _ (mem_write _ _ _) _) => (apply safe_mem_write; mem_size) : safe.
#[export] Hint Extern 1 (safe _ _ (at_load _ _) _) => (apply safe_at_load; mem_size) : safe.
#[export] Hint Extern 1 (safe _ _ (at_cas _ _ _ _) _) => (apply safe_at_cas; mem_size) : safe.
#[export] Hint Resolve safe_at_store safe_align_fault safe_trans_fault : safe.

Section AtomicSafe.
Context {Mem : Type} `{MemSeam Mem} (U : Prop).
Notation Safe m := (safe U (st_wf (Mem:=Mem)) m (fun _ => True)).

Lemma safe_LSE_RMW bytes hp o3 opc v : 1 <= bytes <= 8 ->
  safe U (st_wf (Mem:=Mem)) (LSE_RMW bytes hp o3 opc v) (fits 64).
Proof.
  intros Hb. unfold LSE_RMW. eapply safe_bind; [apply safe_at_load; lia|]. intros o Ho.
  assert (fits 64 o) by (eapply fits_weaken; [done|lia]).
  repeat safe_step; auto.
Qed.
Lemma safe_ldst_atomic insn : Safe (ldst_atomic insn).
Proof.
  unfold ldst_atomic. cbv zeta.
  pose proof (shiftl_size (BITS insn 31 30) ltac:(field; lia)) as Hb.
  set (bytes := Z.shiftl 1 _) in *. repeat safe_step; auto.
  eapply safe_bind; [by apply safe_LSE_RMW|]. intros old Hold. repeat safe_step; auto.
Qed.
Lemma fits_8b b v : fits (8 * b) v -> b <= 8 -> fits 64 v.
Proof. intros. eapply fits_weaken; [done|lia]. Qed.
Lemma safe_ldst_cas insn : Safe (ldst_cas insn).
Proof.
  unfold ldst_cas. cbv zeta.
  pose proof (shiftl_size (BITS insn 31 30) ltac:(field; lia)) as Hb.
  set (bytes := Z.shiftl 1 _) in *. repeat safe_step; auto.
  cbv beta in *. eapply fits_8b; [done|lia].
Qed.

(** CASP reads and writes [x[Rs + 1]] and [x[Rt + 1]]: a field of 31 is
    outside the array. *)
Lemma safe_reg_x_succ n : 0 <= n < 32 -> (n = 31 -> U) ->
  safe U (st_wf (Mem:=Mem)) (reg_x (n + 1)) (fits 64).
Proof.
  intros Hn HU. destruct (Z.eq_dec n 31) as [-> |].
  - intros s Hs. unfold reg_x. simpl. rewrite lookup_ge_None_2; [by apply HU|].
    destruct Hs. rewrite wf_x. cbn. lia.
  - apply safe_reg_x. lia.
Qed.
Lemma safe_set_x_succ n v : 0 <= n < 32 -> fits 64 v -> (n = 31 -> U) -> Safe (set_x (n + 1) v).
Proof.
  intros Hn Hv HU. destruct (Z.eq_dec n 31) as [-> |].
  - intros s Hs. unfold set_x. simpl. destruct Hs. rewrite wf_x. by apply HU.
  - apply safe_set_x; [lia|done].
Qed.
Lemma safe_ldst_casp insn :
  (BITS insn 20 16 = 31 \/ BITS insn 4 0 = 31 -> U) -> Safe (ldst_casp insn).
Proof.
  intros HU. unfold ldst_casp. cbv zeta.
  assert (HRs : 0 <= BITS insn 20 16 < 32) by (field; lia).
  assert (HRt : 0 <= BITS insn 4 0 < 32) by (field; lia).
  safe_step. safe_step; [safe_step|]. eapply safe_bind; [apply safe_mem_host_ptr|].
  intros [hp|] _; [|apply safe_trans_fault].
  eapply safe_bind; [by apply safe_reg_x|]. intros s0 Hs0.
  eapply safe_bind; [apply safe_reg_x_succ; [done|tauto]|]. intros s1 Hs1.
  eapply safe_bind; [by apply safe_reg_x|]. intros t0 Ht0.
  eapply safe_bind; [apply safe_reg_x_succ; [done|tauto]|]. intros t1 Ht1.
  safe_step; (eapply safe_bind; [apply safe_at_cas; lia|]); intros [ok old] _;
    (eapply safe_bind; [apply safe_set_x; auto with word|]); intros [] _;
    apply safe_set_x_succ; auto with word; tauto.
Qed.

Lemma safe_ldst_ordered L va bytes Rt : 1 <= bytes <= 8 -> 0 <= Rt < 32 ->
  Safe (ldst_ordered L va bytes Rt).
Proof.
  intros Hb HRt. unfold ldst_ordered. repeat safe_step; auto.
  all: try solve [eapply safe_weaken; [eauto with safe|done]].
  cbv beta in *. eapply fits_8b; [done|lia].
Qed.
Lemma safe_set_monitor va size : fits 64 va -> Safe (set_monitor va size).
Proof. intros. apply safe_putc. intros. by repeat apply wf_with_excl_size || apply wf_with_excl_addr || apply wf_with_excl_valid. Qed.
Lemma safe_ldxr va bytes Rt : 1 <= bytes <= 8 -> 0 <= Rt < 32 -> fits 64 va ->
  Safe (ldxr va bytes Rt).
Proof.
  intros. unfold ldxr. do 2 safe_step. eapply safe_bind; [by apply safe_set_monitor|].
  intros [] _. by safe_step.
Qed.
Lemma safe_excl_vals :
  safe U (st_wf (Mem:=Mem)) (getc c_excl_val) (fits 64) /\
  safe U (st_wf (Mem:=Mem)) (getc c_excl_val2) (fits 64).
Proof. split; apply safe_getc; intros c Hc; apply (wf_excl c Hc). Qed.
Lemma safe_monitor_hit va size : safe U (st_wf (Mem:=Mem)) (monitor_hit va size) (fun _ => True).
Proof. by apply safe_getc. Qed.
Lemma safe_stxr va bytes Rs Rt : 1 <= bytes <= 8 -> 0 <= Rt < 32 -> 0 <= Rs < 32 ->
  Safe (stxr va bytes Rs Rt).
Proof.
  intros. unfold stxr. eapply safe_bind; [apply safe_monitor_hit|]. intros hit _.
  eapply safe_bind with (Q := fits 64).
  - destruct hit; repeat safe_step; auto with word; case_match; unfold fits; lia.
  - intros res Hres. repeat safe_step; auto using wf_with_excl_valid.
Qed.
Lemma safe_ldxp va bytes Rt Rt2 : 1 <= bytes <= 8 -> 0 <= Rt < 32 -> 0 <= Rt2 < 32 ->
  fits 64 va -> Safe (ldxp va bytes Rt Rt2).
Proof.
  intros. unfold ldxp. do 4 safe_step. eapply safe_bind; [by apply safe_set_monitor|].
  intros [] _. by safe_step.
Qed.
Lemma safe_stxp va bytes Rs Rt Rt2 : 0 <= Rt < 32 -> 0 <= Rt2 < 32 -> 0 <= Rs < 32 ->
  Safe (stxp va bytes Rs Rt Rt2).
Proof.
  intros. unfold stxp. eapply safe_bind; [apply safe_monitor_hit|]. intros hit _.
  eapply safe_bind with (Q := fits 64).
  - destruct hit; repeat safe_step; auto with word; repeat case_match; unfold fits; lia.
  - intros res Hres. repeat safe_step; auto using wf_with_excl_valid.
Qed.

(** The encodings of CASP with a register field of 31. *)
Definition casp_wild (insn : Z) : Prop :=
  BITb insn 23 = false /\ BITb insn 21 = true /\ BIT insn 31 = 0 /\
  (BITS insn 20 16 = 31 \/ BITS insn 4 0 = 31).

Lemma safe_ldst_exclusive insn : (casp_wild insn -> U) -> Safe (ldst_exclusive insn).
Proof.
  intros HU. unfold ldst_exclusive. cbv zeta.
  pose proof (shiftl_size (BITS insn 31 30) ltac:(field; lia)) as Hb.
  set (bytes := Z.shiftl 1 _) in *.
  assert (HRs : 0 <= BITS insn 20 16 < 32) by (field; lia).
  assert (HRt : 0 <= BITS insn 4 0 < 32) by (field; lia).
  assert (HRt2 : 0 <= BITS insn 14 10 < 32) by (field; lia).
  safe_step. safe_step; [apply safe_ldst_cas|]. safe_step.
  - apply safe_ldst_casp. intros Hr. apply HU. unfold casp_wild.
    destruct (BITb insn 23), (BITb insn 21); try done.
    destruct (Z.eqb_spec (BIT insn 31) 0); [|done]. done.
  - repeat safe_step; auto using safe_ldst_ordered, safe_ldxr, safe_stxr, safe_ldxp, safe_stxp.
Qed.
End AtomicSafe.

(** * The memory copy/set instructions end and stay in bounds

    One bounded step does at least one byte and no more than it was asked;
    so every loop's measure falls and its bound is never reached. *)

Lemma mops_page_limit_eq addr : fits 64 addr -> mops_page_limit addr = 4096 - addr mod 4096.
Proof.
  intros Ha. unfold mops_page_limit. change 0xfff with (Z.ones 12).
  rewrite land_not64_ones by (auto with word || lia). unfold fits in Ha. wsolve.
Qed.
Lemma mops_page_limit_rev_eq addr : mops_page_limit_rev addr = addr mod 4096 + 1.
Proof. unfold mops_page_limit_rev. change 0xfff with (Z.ones 12). by rewrite Z.land_ones by lia. Qed.
Lemma mops_page_limit_range addr : fits 64 addr -> 1 <= mops_page_limit addr <= 4096.
Proof. intros Ha. rewrite mops_page_limit_eq by done. pose proof (Z.mod_pos_bound addr 4096). lia. Qed.
Lemma mops_page_limit_rev_range addr : 1 <= mops_page_limit_rev addr <= 4096.
Proof. rewrite mops_page_limit_rev_eq. pose proof (Z.mod_pos_bound addr 4096). lia. Qed.

Lemma MOPS_FUEL_val : Z.pos MOPS_FUEL = 2 ^ 64.
Proof. reflexivity. Qed.

Section MopsSafe.
Context {Mem : Type} `{MemSeam Mem} (U : Prop).
Notation SafeQ := (safe U (st_wf (Mem:=Mem))).
Notation Safe m := (safe U (st_wf (Mem:=Mem)) m (fun _ => True)).

Lemma safe_mops_set_step a n d : fits 64 a -> 1 <= n ->
  SafeQ (mops_set_step a n d) (fun step => 1 <= step <= n).
Proof.
  intros Ha Hn. pose proof (mops_page_limit_range a Ha). unfold mops_set_step. cbv zeta.
  eapply safe_bind; [apply safe_mem_host_ptr|]. intros [hp|] _.
  - eapply safe_bind; [apply safe_upd_mem|]. intros [] _. apply safe_ret. lia.
  - eapply safe_bind; [apply safe_mem_write; lia|]. intros [] _. apply safe_ret. lia.
Qed.
Lemma safe_mops_copy_step t f n rev : fits 64 t -> fits 64 f -> 1 <= n ->
  SafeQ (mops_copy_step t f n rev) (fun step => 1 <= step <= n).
Proof.
  intros Ht Hf Hn. pose proof (mops_page_limit_range t Ht). pose proof (mops_page_limit_range f Hf).
  pose proof (mops_page_limit_rev_range t). pose proof (mops_page_limit_rev_range f).
  unfold mops_copy_step. cbv zeta.
  set (k := if n <? _ then _ else _).
  assert (1 <= k <= n) by (unfold k; repeat case_match; lia).
  eapply safe_bind; [apply safe_mem_host_ptr|]. intros w _.
  eapply safe_bind; [apply safe_mem_host_ptr|]. intros r _.
  assert (SafeQ (bind (mem_read f 1) (fun byte => bind (mem_write t 1 byte) (fun _ => ret 1)))
    (fun step => 1 <= step <= n)).
  { eapply safe_bind; [apply safe_mem_read; lia|]. intros b _.
    eapply safe_bind; [apply safe_mem_write; lia|]. intros [] _. apply safe_ret. lia. }
  destruct w as [w|], r as [r|]; [|done..].
  eapply safe_bind; [apply safe_upd_mem|]. intros [] _. apply safe_ret. lia.
Qed.

(** The loops: what each iterate satisfies. *)
Definition setp_inv (a : Z * Z * Z) : Prop :=
  let '(t, n, st) := a in fits 64 t /\ fits 64 n /\ 0 <= st < 2 ^ 64.
Lemma safe_setp_loop Rd Rn d a : 0 <= Rd < 32 -> 0 <= Rn < 32 -> setp_inv a ->
  SafeQ (bind (while MOPS_FUEL (setp_body Rd Rn d) a) loop_exit)
    (fun r => fits 64 (fst r) /\ fits 64 (snd r)).
Proof.
  intros HRd HRn Ha. apply safe_loop with (I := setp_inv) (meas := fun a => snd a).
  - intros [[t n] st]. simpl. lia.
  - intros [[t n] st] (Ht & Hn & Hst). unfold setp_body. safe_step; [by apply safe_ret|].
    do 2 safe_step. eapply safe_bind; [apply safe_mops_set_step; [done|lia]|]. intros step [Hs1 Hs2].
    apply safe_ret. unfold setp_inv. rewrite (u64_small (st - step)) by (unfold fits; lia).
    simpl. split; [split; [apply fits_u64|split; [apply fits_u64|lia]]|lia].
  - done.
  - destruct a as [[t n] st]. destruct Ha as (_ & _ & Ha). simpl. rewrite MOPS_FUEL_val. lia.
Qed.
Lemma safe_mops_setp Rd Rn d : 0 <= Rd < 32 -> 0 <= Rn < 32 -> Safe (mops_setp Rd Rn d).
Proof.
  intros HRd HRn. unfold mops_setp. do 2 safe_step. cbv zeta.
  rewrite <- safe_assoc. eapply safe_bind.
  - apply safe_setp_loop; [done..|]. pose proof (mops_page_limit_range a ltac:(done)).
    assert (fits 64 (if 0x7fffffffffffffff <? a0 then 0x7fffffffffffffff else a0))
      by (case_match; [unfold fits; lia|done]).
    unfold setp_inv. split; [done|]. split; [done|]. unfold fits in *. lia.
  - intros [t n] [Ht Hn]. repeat safe_step.
Qed.

Definition setm_inv (a : Z * Z * Z) : Prop :=
  let '(t, n, st) := a in fits 64 t /\ fits 64 n /\ 0 <= st <= n.
Lemma safe_setm_loop Rn d a : 0 <= Rn < 32 -> setm_inv a ->
  Safe (bind (while MOPS_FUEL (setm_body Rn d) a) loop_exit).
Proof.
  intros HRn Ha. apply safe_loop with (I := setm_inv) (meas := fun a => snd a).
  - intros [[t n] st]. simpl. lia.
  - intros [[t n] st] (Ht & Hn & Hst). unfold setm_body. safe_step; [by apply safe_ret|].
    eapply safe_bind; [apply safe_mops_set_step; [done|lia]|]. intros step [Hs1 Hs2]. cbv zeta.
    safe_step. apply safe_ret. unfold setm_inv, fits in *.
    rewrite (u64_small (n - step)) by (unfold fits; lia). simpl.
    destruct (Z.leb_spec st step); [|rewrite (u64_small (st - step)) by (unfold fits; lia)];
      pose proof (fits_u64 (t + step)); unfold fits in *; lia.
  - done.
  - destruct a as [[t n] st]. destruct Ha as (_ & Hn & Ha). unfold fits in Hn. simpl.
    rewrite MOPS_FUEL_val. lia.
Qed.
Lemma safe_mop_exception {A} insn w (Q : A -> Prop) : SafeQ (mop_exception insn w) Q.
Proof. apply safe_raise. Qed.
Lemma land_page_le n : fits 64 n -> 0 <= Z.land n (not64 0xfff) <= n.
Proof.
  intros Hn. change 0xfff with (Z.ones 12). rewrite land_not64_ones by (done || lia).
  pose proof (Z.mod_pos_bound n (2 ^ 12)). pose proof (Z.mod_le n (2 ^ 12)).
  unfold fits in Hn. lia.
Qed.
Lemma safe_mops_set insn stage : Safe (mops_set insn stage).
Proof.
  unfold mops_set. do 2 safe_step; [apply safe_mops_setp; auto with safe|].
  do 2 safe_step; [by safe_step|]. do 2 safe_step; [apply safe_mop_exception|].
  do 2 safe_step; [apply safe_mop_exception|]. cbv zeta. apply safe_setm_loop; [auto with safe|].
  unfold setm_inv. split; [auto with word|]. split; [auto with word|].
  pose proof (fits_u64 (0 - a0)) as Hn. case_match; [by apply land_page_le|].
  unfold fits in Hn. lia.
Qed.

Definition cpyp_inv (a : Z * Z * Z * Z) : Prop :=
  let '(t, f, n, st) := a in fits 64 t /\ fits 64 f /\ fits 64 n /\ 0 <= st < 2 ^ 64.
Lemma safe_cpyp_fwd_loop Rd Rs Rn a : 0 <= Rd < 32 -> 0 <= Rs < 32 -> 0 <= Rn < 32 ->
  cpyp_inv a ->
  SafeQ (bind (while MOPS_FUEL (cpyp_fwd_body Rd Rs Rn) a) loop_exit)
    (fun r => fits 64 (fst (fst r)) /\ fits 64 (snd (fst r)) /\ fits 64 (snd r)).
Proof.
  intros HRd HRs HRn Ha. apply safe_loop with (I := cpyp_inv) (meas := fun a => snd a).
  - intros [[[t f] n] st]. simpl. lia.
  - intros [[[t f] n] st] (Ht & Hf & Hn & Hst). unfold cpyp_fwd_body.
    safe_step; [by apply safe_ret|]. do 3 safe_step.
    eapply safe_bind; [apply safe_mops_copy_step; [done..|lia]|]. intros step [Hs1 Hs2].
    apply safe_ret. unfold cpyp_inv. rewrite (u64_small (st - step)) by (unfold fits; lia).
    simpl. repeat split; try apply fits_u64; lia.
  - done.
  - destruct a as [[[t f] n] st]. destruct Ha as (_ & _ & _ & Ha). simpl. rewrite MOPS_FUEL_val. lia.
Qed.
Lemma safe_cpyp_rev_loop Rn a : 0 <= Rn < 32 -> cpyp_inv a ->
  SafeQ (bind (while MOPS_FUEL (cpyp_rev_body Rn) a) loop_exit) (fits 64).
Proof.
  intros HRn Ha. apply safe_loop with (I := cpyp_inv) (meas := fun a => snd a).
  - intros [[[t f] n] st]. simpl. lia.
  - intros [[[t f] n] st] (Ht & Hf & Hn & Hst). unfold cpyp_rev_body.
    safe_step; [by apply safe_ret|]. safe_step.
    eapply safe_bind; [apply safe_mops_copy_step; [done..|lia]|]. intros step [Hs1 Hs2].
    apply safe_ret. unfold cpyp_inv. rewrite (u64_small (st - step)) by (unfold fits; lia).
    simpl. repeat split; try apply fits_u64; lia.
  - done.
  - destruct a as [[[t f] n] st]. destruct Ha as (_ & _ & _ & Ha). simpl. rewrite MOPS_FUEL_val. lia.
Qed.
Lemma fits_cpyp_size move n : fits 64 n -> fits 64 (cpyp_size move n).
Proof. intros. unfold cpyp_size. repeat case_match; try done; unfold fits; lia. Qed.
Lemma safe_mops_cpyp Rd Rs Rn move : 0 <= Rd < 32 -> 0 <= Rs < 32 -> 0 <= Rn < 32 ->
  Safe (mops_cpyp Rd Rs Rn move).
Proof.
  intros HRd HRs HRn. unfold mops_cpyp. do 3 safe_step. cbv zeta.
  pose proof (fits_cpyp_size move a1 ltac:(done)) as Hn. set (n := cpyp_size move a1) in *.
  eapply safe_bind with (Q := fun _ => True); [|intros [] _; by safe_step].
  safe_step; rewrite <- safe_assoc.
  - eapply safe_bind.
    + apply safe_cpyp_fwd_loop; [done..|]. unfold cpyp_inv.
      pose proof (mops_page_limit_range a ltac:(done)). pose proof (mops_page_limit_range a0 ltac:(done)).
      repeat split; try done; unfold fits in *; lia.
    + intros [[t f] m] (Ht & Hf & Hm). repeat safe_step.
  - eapply safe_bind.
    + apply safe_cpyp_rev_loop; [done|]. unfold cpyp_inv.
      pose proof (mops_page_limit_rev_range (u64 (a + n - 1))).
      pose proof (mops_page_limit_rev_range (u64 (a0 + n - 1))).
      repeat split; try apply fits_u64; try apply Hn; unfold fits in *; lia.
    + intros m Hm. repeat safe_step.
Qed.

Definition cpym_inv (a : Z * Z * Z) : Prop :=
  let '(t, f, n) := a in fits 64 t /\ fits 64 f /\ fits 64 n.
Lemma safe_cpym_loop Rn stage fwd a : 0 <= Rn < 32 -> cpym_inv a ->
  Safe (bind (while MOPS_FUEL (cpym_body Rn stage fwd) a) loop_exit).
Proof.
  intros HRn Ha. apply safe_loop with (I := cpym_inv) (meas := fun a => snd a).
  - intros [[t f] n] (_ & _ & Hn). simpl. unfold fits in Hn. lia.
  - intros [[t f] n] (Ht & Hf & Hn). unfold cpym_body. safe_step; [by apply safe_ret|].
    assert (1 <= n) by (destruct (stage =? 1); simpl in *; lia).
    eapply safe_bind; [apply safe_mops_copy_step; [done..|lia]|]. intros step [Hs1 Hs2]. cbv zeta.
    safe_step. apply safe_ret. unfold cpym_inv.
    rewrite (u64_small (n - step)) by (unfold fits in *; lia). simpl.
    unfold fits in Hn. split; [|lia].
    destruct fwd; repeat split; try apply fits_u64; unfold fits; lia.
  - done.
  - destruct a as [[t f] n]. destruct Ha as (_ & _ & Hn). unfold fits in Hn. simpl.
    rewrite MOPS_FUEL_val. lia.
Qed.
Lemma safe_mops_cpy insn stage move : Safe (mops_cpy insn stage move).
Proof.
  unfold mops_cpy. safe_step; [apply safe_mops_cpyp; auto with safe|].
  do 2 safe_step; [by safe_step|]. do 2 safe_step; [apply safe_mop_exception|].
  do 3 safe_step; [apply safe_mop_exception|]. cbv zeta.
  apply safe_cpym_loop; [auto with safe|].
  unfold cpym_inv. repeat split; repeat case_match; try apply fits_u64; unfold fits in *; lia.
Qed.

Lemma safe_mops_enabled_ok : Safe mops_enabled_ok.
Proof.
  intros s Hs. unfold mops_enabled_ok. destruct (c_el (s_cpu s) =? 0); [|by split].
  pose proof (wf_bank _ Hs) as Hb. apply Forall_inv in Hb as [Hl _].
  destruct (lookup_lt_is_Some_2 (r_sctlr (c_sys (s_cpu s))) 1) as [v ->]; [lia|].
  destruct (_ =? 0); [by apply st_wf_raise|by split].
Qed.
Lemma safe_mops insn : Safe (mops insn).
Proof.
  unfold mops. safe_cases; try apply safe_undefined;
    (eapply safe_bind; [apply safe_mops_enabled_ok|]); intros [] _;
    [apply safe_mops_set|apply safe_mops_cpy].
Qed.
End MopsSafe.
