(* ===== verification/ExecSafe.v ===== *)
(** * ExecSafe: one instruction keeps a well-formed CPU

    The remaining load/store handlers, the system registers, the branches,
    and with them [exec_a64] and [cpu_step]: from a well-formed CPU no
    instruction leaves defined behaviour, except CASP with a register field
    of 31, and the CPU is well-formed afterwards. *)

From S2P Require Import Prelude Types Cpu CpuWf MemSeam Alu AluSpec DpExec Atomics Mops LdSt.
From S2P Require Import Sysreg Decode DpSafe LdStSafe.

(** What the hooks promise: they keep the CPU well-formed and give values of
    their width. *)
Class HooksOk (Mem : Type) `{Hooks Mem} := {
  gt_count_ok virt : safe False (st_wf (Mem:=Mem)) (gt_count virt) (fits 64);
  fpsr_sync_ok : safe False (st_wf (Mem:=Mem)) fpsr_sync (fun _ => True);
  exec_fpsimd_ok insn : safe False (st_wf (Mem:=Mem)) (exec_fpsimd insn) (fun _ => True)
}.

Section LdSt.
Context {Mem : Type} `{MemSeam Mem} (U : Prop).
Notation SafeQ := (safe U (st_wf (Mem:=Mem))).
Notation Safe m := (safe U (st_wf (Mem:=Mem)) m (fun _ => True)).

Lemma safe_ldst_extended_offset insn size : SafeQ (ldst_extended_offset insn size) (fits 64).
Proof. unfold ldst_extended_offset. by repeat safe_step. Qed.
Lemma safe_do_load Rt va size opc : 0 <= Rt < 32 -> 0 <= size < 4 -> Safe (do_load Rt va size opc).
Proof.
  intros HRt Hs. pose proof (shiftl_size size Hs). unfold do_load. cbv zeta.
  set (bytes := Z.shiftl 1 size) in *. repeat safe_step; repeat case_match; auto with word.
Qed.
Lemma safe_vreg_load Vt va bytes : 0 <= Vt < 32 -> 0 <= bytes <= 8 \/ bytes = 16 ->
  Safe (vreg_load Vt va bytes).
Proof.
  intros HV Hb. unfold vreg_load. repeat safe_step; try done. all: auto with word.
Qed.
Lemma safe_vreg_store Vt va bytes : 0 <= Vt < 32 -> 0 <= bytes <= 8 \/ bytes = 16 ->
  Safe (vreg_store Vt va bytes).
Proof. intros HV Hb. unfold vreg_store. repeat safe_step. Qed.
Lemma safe_ldst_rcpc_unscaled insn : Safe (ldst_rcpc_unscaled insn).
Proof.
  unfold ldst_rcpc_unscaled. repeat safe_step.
  apply safe_do_load; repeat field; lia.
Qed.
Lemma safe_ldst_access insn va base wb : fits 64 va -> fits 64 base ->
  Safe (ldst_access insn va base wb).
Proof.
  intros Hva Hbase. unfold ldst_access. cbv zeta.
  assert (HRt : 0 <= BITS insn 4 0 < 32) by (field; lia).
  assert (Hsz : 0 <= BITS insn 31 30 < 4) by (field; lia).
  pose proof (shiftl_size _ Hsz) as Hb. set (by_ := Z.shiftl 1 _) in *.
  safe_step; [apply safe_undefined|].
  eapply safe_bind with (Q := fun _ => True); [|intros [] _; repeat safe_step].
  destruct (BITb insn 26); cbn [andb].
  - destruct (has (BITS insn 23 22) 2); destruct (has (BITS insn 23 22) 1);
      solve [apply safe_vreg_load; [done|lia] | apply safe_vreg_store; [done|lia]].
  - destruct (negb (BITS insn 23 22 =? 0)); [by apply safe_do_load|]. repeat safe_step.
Qed.
Lemma safe_ldst_register insn : Safe (ldst_register insn).
Proof.
  unfold ldst_register. cbv zeta. safe_step; [apply safe_undefined|]. safe_step.
  safe_cases; lazymatch goal with
    | |- safe _ _ (ldst_access _ _ _ _) _ => apply safe_ldst_access; auto with word
    | |- safe _ _ (ldst_atomic _) _ => apply safe_ldst_atomic
    | |- safe _ _ undefined _ => apply safe_undefined
    | |- _ => idtac
    end.
  eapply safe_bind; [apply safe_ldst_extended_offset|]. intros off Hoff.
  apply safe_ldst_access; auto with word.
Qed.
Lemma safe_ldst_pair_access insn esz addr :
  (if BITb insn 26 then esz = 4 \/ esz = 8 \/ esz = 16 else esz = 4 \/ esz = 8) ->
  Safe (ldst_pair_access insn esz addr).
Proof.
  intros He. unfold ldst_pair_access. cbv zeta.
  assert (HRt : 0 <= BITS insn 4 0 < 32) by (field; lia).
  assert (HRt2 : 0 <= BITS insn 14 10 < 32) by (field; lia).
  destruct (BITb insn 26).
  - destruct (BITb insn 22); (eapply safe_bind;
      [|intros [] _]); solve [apply safe_vreg_load; [done|lia] | apply safe_vreg_store; [done|lia]].
  - assert (1 <= esz <= 8) by lia. repeat safe_step; auto with word.
    all: try (apply safe_mem_write; lia).
Qed.
Lemma safe_ldst_pair insn : Safe (ldst_pair insn).
Proof.
  unfold ldst_pair. cbv zeta. safe_step; [safe_step|].
  assert (Hopc : 0 <= BITS insn 31 30 < 3) by (clear -E; pose proof (BITS_range insn 31 30 4); lia).
  assert (forall addr, Safe (ldst_pair_access insn (Z.shiftl 1
    (if BITb insn 26 then BITS insn 31 30 + 2 else if BITS insn 31 30 =? 2 then 3 else 2)) addr)) as Ha.
  { intros addr. apply safe_ldst_pair_access. destruct (BITb insn 26).
    - assert (BITS insn 31 30 = 0 \/ BITS insn 31 30 = 1 \/ BITS insn 31 30 = 2) as Hc by lia.
      destruct Hc as [-> |[-> | ->]]; vm_compute; tauto.
    - destruct (BITS insn 31 30 =? 2); vm_compute; tauto. }
  safe_step. repeat safe_step; try apply Ha.
  all: eapply safe_bind; [apply Ha|]; intros [] _; repeat safe_step.
Qed.
Lemma safe_ldst_literal insn : Safe (ldst_literal insn).
Proof.
  unfold ldst_literal. cbv zeta. assert (HRt : 0 <= BITS insn 4 0 < 32) by (field; lia).
  safe_step. safe_step.
  - safe_step; [safe_step|]. apply safe_vreg_load; [done|].
    assert (BITS insn 31 30 = 0 \/ BITS insn 31 30 = 1 \/ BITS insn 31 30 = 2) as Hc
      by (pose proof (BITS_range insn 31 30 4); lia).
    destruct Hc as [-> |[-> | ->]]; vm_compute; intuition congruence.
  - repeat safe_step.
Qed.
End LdSt.

(** ** AdvSIMD structures *)
Lemma land31 v : 0 <= Z.land v 31 < 32.
Proof. change 31 with (Z.ones 5). rewrite Z.land_ones by lia. by apply Z.mod_pos_bound. Qed.
#[export] Hint Extern 1 (0 <= Z.land _ 31 < 32) => (apply land31) : safe.

Lemma fits_v_put_bytes v off eb t : fits 128 v -> 0 <= off -> 0 <= eb -> off + eb <= 16 ->
  fits 128 (v_put_bytes v off eb t).
Proof.
  intros Hv Ho He Hb. unfold v_put_bytes. apply fits_lor; [lia| |].
  - apply fits_bits in Hv as [H0 Hv]; [|lia]. apply fits_bits; [lia|].
    split; [apply Z.land_nonneg; lia|]. intros i Hi. by rewrite Z.land_spec, Hv.
  - rewrite Z.land_ones by lia.
    apply fits_weaken with (8 * eb + 8 * off); [|lia].
    apply fits_shiftl; [lia..|]. apply Z.mod_pos_bound, Z.pow_pos_nonneg; lia.
Qed.
Lemma fits_v_get_bytes v off eb : 0 <= eb <= 8 -> fits 64 (v_get_bytes v off eb).
Proof.
  intros. unfold v_get_bytes. rewrite Z.land_ones by lia.
  apply fits_weaken with (8 * eb); [|lia]. apply Z.mod_pos_bound, Z.pow_pos_nonneg; lia.
Qed.
Lemma fits_replicate_lanes n i eb e v : fits 128 v -> 0 <= i -> 0 <= eb ->
  (i + Z.of_nat n) * eb <= 16 -> fits 128 (replicate_lanes n i eb e v).
Proof.
  revert i v. induction n as [|n IH]; intros i v Hv Hi He Hb; simpl; [done|].
  apply IH; [|lia..]. apply fits_v_put_bytes; [done|nia..].
Qed.

(** (ebytes, index) of a single-structure encoding stays in a register. *)
Lemma vector_single_shape_range insn r eb ix :
  vector_single_shape insn = Some (r, eb, ix) ->
  1 <= eb <= 8 /\ 0 <= ix /\ (ix + 1) * eb <= 16 /\ (8 / eb * eb = 8 /\ 16 / eb * eb = 16).
Proof.
  unfold vector_single_shape. cbv zeta.
  pose proof (BITS_range insn 11 10 4 ltac:(lia) eq_refl) as Hs.
  destruct (BIT_cases insn 30) as [-> | ->], (BIT_cases insn 12) as [-> | ->].
  all: set (sz := BITS insn 11 10) in *; clearbody sz;
    assert (sz = 0 \/ sz = 1 \/ sz = 2 \/ sz = 3) as [-> |[-> |[-> | ->]]] by lia;
    destruct (Z.shiftr (BITS insn 15 13) 1) as [|[p|[p|p|]|]|p], (BITb insn 22); cbn;
    intros [= <- <- <-]; vm_compute; intuition congruence.
Qed.

Section Vector.
Context {Mem : Type} `{MemSeam Mem} (U : Prop).
Notation SafeQ := (safe U (st_wf (Mem:=Mem))).
Notation Safe m := (safe U (st_wf (Mem:=Mem)) m (fun _ => True)).

Lemma safe_lane_get vt off eb : 0 <= vt < 32 -> 0 <= eb <= 8 -> off + eb <= 16 ->
  SafeQ (lane_get vt off eb) (fits 64).
Proof.
  intros. unfold lane_get. rewrite (proj2 (Z.ltb_ge _ _)) by lia. safe_step.
  apply safe_ret. by apply fits_v_get_bytes.
Qed.
Lemma safe_lane_put vt off eb t : 0 <= vt < 32 -> 0 <= eb -> 0 <= off -> off + eb <= 16 ->
  Safe (lane_put vt off eb t).
Proof.
  intros. unfold lane_put. rewrite (proj2 (Z.ltb_ge _ _)) by lia. repeat safe_step.
  by apply fits_v_put_bytes.
Qed.
Lemma safe_vector_multi_contig Q L Rt rb r addr : fits 64 addr ->
  SafeQ (vector_multi_contig Q L Rt rb r addr) (fits 64).
Proof. intros. unfold vector_multi_contig. destruct L, Q; repeat safe_step; auto. Qed.
Lemma safe_vector_multi_elem L Rt eb e r addr : 1 <= eb <= 8 -> 0 <= e -> (e + 1) * eb <= 16 ->
  SafeQ (vector_multi_elem L Rt eb e r addr) (fits 64).
Proof.
  intros. unfold vector_multi_elem. cbv zeta. destruct L.
  - repeat safe_step. eapply safe_bind; [apply safe_lane_put; auto with safe; nia|].
    intros [] _. by safe_step.
  - rewrite safe_assoc. eapply safe_bind; [apply safe_lane_get; auto with safe; nia|].
    intros t Ht. repeat safe_step.
Qed.
Lemma safe_vector_post insn base total : Safe (vector_post insn base total).
Proof. unfold vector_post. repeat safe_step. Qed.

Lemma safe_ldst_vector_multi insn : Safe (ldst_vector_multi insn).
Proof.
  unfold ldst_vector_multi. cbv zeta.
  destruct (vector_multi_shape _) as [[nregs sel]|]; [|apply safe_undefined].
  assert (Hsz : 0 <= BITS insn 11 10 < 4) by (field; lia).
  pose proof (shiftl_size _ Hsz) as Hb. set (eb := Z.shiftl 1 _) in *.
  set (rb := if BITb insn 30 then 16 else 8). assert (8 <= rb <= 16) by (unfold rb; case_match; lia).
  clearbody rb.
  safe_step. eapply safe_bind with (Q := fits 64); [|intros; apply safe_vector_post].
  safe_step.
  - apply safe_for_loop; [|done]. intros. by apply safe_vector_multi_contig.
  - eapply safe_bind with (Q := fun _ => True).
    + safe_step; [|by apply safe_ret]. apply safe_for_loop; [|done]. intros. safe_step.
    + intros _ _. apply safe_for_loop; [|done]. intros e a' He Ha'.
      apply safe_for_loop; [|done]. intros r a'' Hr _. apply safe_vector_multi_elem; [done|lia|].
      assert (Z.of_nat (Z.to_nat (rb / eb)) = rb / eb) as En
        by (apply Z2Nat.id, Z.div_pos; lia).
      pose proof (Z.mul_div_le rb eb). nia.
Qed.
Lemma safe_vector_single_reg L rep Rt eb ix Qb r addr : 1 <= eb <= 8 -> 0 <= ix ->
  (ix + 1) * eb <= 16 -> 0 <= Qb -> Qb / eb * eb <= 16 ->
  SafeQ (vector_single_reg L rep Rt eb ix Qb r addr) (fits 64).
Proof.
  intros He Hi Hb HQ Hq. unfold vector_single_reg. cbv zeta. destruct rep; [|destruct L].
  - repeat safe_step. apply fits_replicate_lanes; [auto with word|lia..|].
    rewrite Z2Nat.id by (apply Z.div_pos; lia). lia.
  - repeat safe_step. eapply safe_bind; [apply safe_lane_put; auto with safe; nia|].
    intros [] _. by safe_step.
  - rewrite safe_assoc. eapply safe_bind; [apply safe_lane_get; auto with safe; nia|].
    intros t Ht. repeat safe_step.
Qed.
Lemma safe_ldst_vector_single insn : Safe (ldst_vector_single insn).
Proof.
  unfold ldst_vector_single. cbv zeta.
  destruct (vector_single_shape insn) as [[[rep eb] ix]|] eqn:E; [|apply safe_undefined].
  apply vector_single_shape_range in E as (He & Hi & Hb & Hq8 & Hq16).
  safe_step. eapply safe_bind with (Q := fits 64); [|intros; apply safe_vector_post].
  apply safe_for_loop; [|done]. intros. apply safe_vector_single_reg; try done;
    case_match; lia.
Qed.
Lemma safe_loads_stores insn :
  (BITS insn 29 27 = 1 /\ BITS insn 26 24 = 0 /\ casp_wild insn -> U) -> Safe (loads_stores insn).
Proof.
  intros HU. unfold loads_stores. cbv zeta.
  destruct (BITS insn 29 27 =? 7); [apply safe_ldst_register|].
  destruct (BITS insn 29 27 =? 5); [apply safe_ldst_pair|].
  destruct (_ && _); [apply safe_ldst_literal|].
  destruct (_ && _) eqn:E;
    [apply safe_ldst_exclusive; intros Hw; apply HU; split; [lia|split; [lia|done]]|].
  destruct (_ && _ && _ && _); [apply safe_ldst_vector_multi|].
  destruct (_ && _ && _ && _); [apply safe_ldst_vector_single|].
  destruct (_ && _ && _ && _ && _); [apply safe_ldst_rcpc_unscaled|].
  destruct (_ && _ && _ && _); [apply safe_mops|].
  apply safe_undefined.
Qed.
End Vector.

(** ** System registers *)

(** The banks are arrays of four 64-bit registers. *)
Definition bank (f : SysRegs -> list Z) : Prop :=
  forall c, cpu_wf c -> length (f (c_sys c)) = 4%nat /\ Forall (fits 64) (f (c_sys c)).
Definition bank_setter (f : SysRegs -> list Z) (w : list Z -> SysRegs -> SysRegs) : Prop :=
  forall c i v, cpu_wf c -> fits 64 v ->
  cpu_wf (with_sys (w (<[i := v]> (f (c_sys c))) (c_sys c)) c).
Definition single (f : SysRegs -> Z) : Prop := forall c, cpu_wf c -> fits 64 (f (c_sys c)).
Definition single_setter (w : Z -> SysRegs -> SysRegs) : Prop :=
  forall c v, cpu_wf c -> fits 64 v -> cpu_wf (with_sys (w v (c_sys c)) c).

Ltac forall_inv :=
  repeat match goal with
  | H : Forall _ (_ :: _) |- _ => apply Forall_cons_1 in H as [? H]
  | H : Forall _ [] |- _ => clear H
  | H : _ /\ _ |- _ => destruct H
  end.
Ltac solve_bank :=
  match goal with
  | |- bank _ => intros ? []; forall_inv; auto
  | |- single _ => intros ? []; forall_inv; auto
  | |- bank_setter _ _ =>
      intros ? ? ? [] ?; constructor; cbn -[Z.pow insert]; auto; forall_inv;
      repeat apply Forall_cons_2; auto using Forall_nil_2;
      split; [by rewrite length_insert|by apply Forall_insert]
  | |- single_setter _ =>
      intros ? ? [] ?; constructor; cbn -[Z.pow insert]; auto; forall_inv;
      repeat apply Forall_cons_2; auto using Forall_nil_2
  end.
#[export] Hint Extern 1 (bank _) => solve_bank : safe.
#[export] Hint Extern 1 (single _) => solve_bank : safe.
#[export] Hint Extern 1 (bank_setter _ _) => solve_bank : safe.
#[export] Hint Extern 1 (single_setter _) => solve_bank : safe.

Section Sys.
Context {Mem : Type} `{MemSeam Mem} `{HooksOk Mem} (U : Prop).
Notation SafeQ := (safe U (st_wf (Mem:=Mem))).
Notation Safe m := (safe U (st_wf (Mem:=Mem)) m (fun _ => True)).

Lemma safe_bank_get f i : bank f -> 0 <= i < 4 -> SafeQ (bank_get f i) (fits 64).
Proof.
  intros Hf Hi s Hs. unfold bank_get. destruct (Hf _ Hs) as [Hl Hv].
  destruct (lookup_lt_is_Some_2 (f (c_sys (s_cpu s))) (Z.to_nat i)) as [v E]; [lia|].
  rewrite E. split; [|done]. by eapply (Forall_lookup_1 _ (f _)).
Qed.
Lemma safe_bank_set f w i v : bank f -> bank_setter f w -> 0 <= i < 4 -> fits 64 v ->
  Safe (bank_set f w i v).
Proof.
  intros Hf Hw Hi Hv s Hs. unfold bank_set. destruct (Hf _ Hs) as [Hl _].
  rewrite (proj2 (Nat.ltb_lt _ _)) by lia. split; [done|]. by apply Hw.
Qed.
Lemma safe_sys_get f : single f -> SafeQ (sys_get f) (fits 64).
Proof. intros Hf. by apply safe_getc. Qed.
Lemma safe_sys_set w v : single_setter w -> fits 64 v -> Safe (sys_set w v).
Proof. intros Hw Hv. apply safe_putc. intros c Hc. by apply Hw. Qed.
Lemma safe_flushM : Safe flushM.
Proof. apply safe_upd_mem. Qed.
Lemma safe_any {A} (m : M (St Mem) A) Q : safe False (st_wf (Mem:=Mem)) m Q -> SafeQ m Q.
Proof. intros Hm s Hs. specialize (Hm s Hs). by destruct (m s). Qed.
Lemma safe_gt_count v : SafeQ (gt_count v) (fits 64).
Proof. apply safe_any, gt_count_ok. Qed.
Lemma safe_fpsr_sync : Safe fpsr_sync.
Proof. apply safe_any, fpsr_sync_ok. Qed.
Lemma safe_switch {A} key (cases : list (Z * M (St Mem) A)) d Q :
  Forall (fun p => SafeQ (snd p) Q) cases -> SafeQ d Q -> SafeQ (switch key cases d) Q.
Proof.
  intros Hc Hd. induction Hc as [|[k m] rest Hm _ IH]; simpl; [done|]. by case_match.
Qed.

Lemma safe_msr_immediate insn : Safe (msr_immediate insn).
Proof.
  unfold msr_immediate. cbv zeta.
  assert (Hcrm : 0 <= Z.land (Z.shiftr insn 8) 0xf < 16).
  { change 0xf with (Z.ones 4). rewrite Z.land_ones by lia. by apply Z.mod_pos_bound. }
  set (crm := Z.land (Z.shiftr insn 8) 0xf) in *. clearbody crm.
  assert (Hsh : fits 32 (Z.shiftl (Z.land crm 0xf) 6)).
  { assert (fits 4 (Z.land crm 0xf)) by (apply fits_land; [lia|unfold fits; cbn; lia..]).
    eapply fits_weaken; [apply (fits_shiftl 4 6); [lia..|done]|lia]. }
  safe_step. safe_cases; try (safe_step; fail).
  apply safe_putc; intros c Hc. apply wf_with_sp_sel; [done|].
  apply fits_land; [lia|unfold fits; lia..].
Qed.
Lemma safe_zva_loop n i base : Safe (zva_loop n i base).
Proof.
  revert i. induction n as [|n IH]; intros i; simpl; [by safe_step|].
  eapply safe_bind; [apply safe_mem_write; lia|]. intros [] _. apply IH.
Qed.
Lemma safe_sys_op CRn CRm op2 Rt : 0 <= Rt < 32 -> Safe (sys_op CRn CRm op2 Rt).
Proof.
  intros HRt. unfold sys_op. repeat safe_step; [apply safe_flushM|apply safe_zva_loop].
Qed.

Lemma fits_timer_ctl ctl cval n : fits 64 ctl -> fits 64 (timer_ctl ctl cval n).
Proof.
  intros. unfold timer_ctl. cbv zeta.
  assert (fits 64 (Z.land ctl 3)) by (apply fits_land; [lia|done|unfold fits; lia]).
  case_match; [|done]. apply fits_lor; [lia|done|unfold fits; lia].
Qed.
Lemma safe_timer_ctl v f g : single f ->
  SafeQ (bind (sys_get f) (fun ctl =>
    if has ctl 1 then bind (gt_count v) (fun n => sys_get (fun r => timer_ctl ctl (g r) n))
    else ret (Z.land ctl 3))) (fits 64).
Proof.
  intros Hf. eapply safe_bind; [by apply safe_sys_get|]. intros ctl Hctl. safe_step.
  - eapply safe_bind; [apply safe_gt_count|]. intros n _. apply safe_getc.
    intros. by apply fits_timer_ctl.
  - apply safe_ret. apply fits_land; [lia|done|unfold fits; lia].
Qed.
Lemma safe_const v : 0 <= v < 2 ^ 64 -> SafeQ (ret v) (fits 64).
Proof. intros. by apply safe_ret. Qed.
Lemma fits_64_32_land v m : fits 32 v -> 0 <= m -> fits 64 (Z.land v m).
Proof. intros. apply fits_64_of_32, fits_land_l; [lia|done|done]. Qed.

Lemma safe_mrs_cases : Forall (fun p => SafeQ (snd p) (fits 64)) mrs_cases.
Proof.
  unfold mrs_cases. repeat (apply Forall_cons_2; [cbn [snd]|]); try apply Forall_nil_2;
  lazymatch goal with
  | |- safe _ _ (ret _) _ => apply safe_const; lia
  | |- safe _ _ (sys_get _) _ => apply safe_sys_get; solve_bank
  | |- safe _ _ (bank_get _ _) _ => apply safe_bank_get; [solve_bank|lia]
  | |- safe _ _ (gt_count _) _ => apply safe_gt_count
  | |- safe _ _ (bind (gt_count _) _) _ =>
      eapply safe_bind; [apply safe_gt_count|]; intros n _; apply safe_getc; intros; apply fits_u64
  | |- safe _ _ (bind (sys_get _) _) _ => apply safe_timer_ctl; solve_bank
  | |- safe _ _ (bind fpsr_sync _) _ =>
      eapply safe_bind; [apply safe_fpsr_sync|]; intros [] _; apply safe_getc;
      intros c Hc; apply fits_64_of_32, (wf_fp c Hc)
  | |- safe _ _ (getc c_fpcr) _ => apply safe_getc; intros c Hc; apply fits_64_of_32, (wf_fp c Hc)
  | |- _ => idtac
  end.
  - apply safe_getc. intros. apply fits_u64.
  - apply safe_getc. intros c Hc. eapply fits_weaken; [by apply wf_sp_sel|lia].
  - apply safe_getc. intros c Hc. apply fits_64_32_land; [by apply wf_nzcv|lia].
  - apply safe_getc. intros c Hc. apply fits_64_32_land; [by apply wf_daif|vm_compute; congruence].
  - intros s Hs. destruct (lookup_lt_is_Some_2 (c_sp_el (s_cpu s)) 0) as [v E];
      [rewrite (wf_sp _ Hs); lia|].
    rewrite E. split; [|done]. eapply (Forall_lookup_1 _ (c_sp_el _)); [by apply wf_sps|done].
Qed.
Lemma safe_do_mrs key Rt : 0 <= Rt < 32 -> Safe (do_mrs key Rt).
Proof.
  intros. unfold do_mrs. eapply safe_bind.
  - apply safe_switch; [apply safe_mrs_cases|apply safe_const; lia].
  - intros v Hv. by safe_step.
Qed.

Lemma fits_s32_add n v : fits 64 (u64 (n + s32 v)).
Proof. apply fits_u64. Qed.
Lemma safe_msr_cases v : fits 64 v -> Forall (fun p => Safe (snd p)) (msr_cases v).
Proof.
  intros Hv.
  unfold msr_cases. repeat (apply Forall_cons_2; [cbn [snd]|]); try apply Forall_nil_2;
  lazymatch goal with
  | |- safe _ _ (sys_set _ _) _ => apply safe_sys_set; [solve_bank|done]
  | |- safe _ _ (bank_set _ _ _ _) _ => apply safe_bank_set; [solve_bank|solve_bank|lia|done]
  | |- safe _ _ (bind (bank_set _ _ _ _) _) _ =>
      eapply safe_bind; [apply safe_bank_set; [solve_bank|solve_bank|lia|done]|];
      intros [] _; apply safe_flushM
  | |- safe _ _ (bind (gt_count _) _) _ =>
      eapply safe_bind; [apply safe_gt_count|]; intros n _;
      apply safe_sys_set; [solve_bank|apply fits_u64]
  | |- safe _ _ (bind fpsr_sync _) _ =>
      eapply safe_bind; [apply safe_fpsr_sync|]; intros [] _; by safe_step
  | |- safe _ _ (putc (with_sp_sel _)) _ =>
      apply safe_putc; intros; apply wf_with_sp_sel; [done|];
      eapply fits_weaken; [apply (fits_BITS v 0 0); lia|lia]
  | |- safe _ _ (putc _) _ => by safe_step
  | |- _ => idtac
  end.
  - intros s Hs. rewrite (proj2 (Nat.ltb_lt _ _)) by (rewrite (wf_sp _ Hs); lia).
    split; [done|]. unfold st_wf. simpl. by apply (wf_with_sp_el _ 0).
Qed.
Lemma safe_do_msr key Rt : 0 <= Rt < 32 -> Safe (do_msr key Rt).
Proof.
  intros. unfold do_msr. safe_step. apply safe_switch; [by apply safe_msr_cases|by apply safe_ret].
Qed.
Lemma safe_el0_gate L op0 op1 CRn CRm op2 Rt : Safe (el0_gate L op0 op1 CRn CRm op2 Rt).
Proof.
  unfold el0_gate. safe_step. safe_step; [|by apply safe_ret].
  eapply safe_bind; [apply safe_bank_get; [solve_bank|lia]|]. intros sctlr _.
  eapply safe_bind; [apply safe_sys_get; solve_bank|]. intros kctl _.
  safe_step; [by apply safe_ret|safe_step].
Qed.
Lemma safe_sysreg_exec insn : Safe (sysreg_exec insn).
Proof.
  unfold sysreg_exec. cbv zeta. pose proof (land31 insn) as HRt.
  change 0x1f with 31. set (Rt := Z.land insn 31) in *.
  eapply safe_bind; [apply safe_el0_gate|]. intros [] _.
  safe_step; [apply safe_msr_immediate|].
  safe_step; [safe_step; [by apply safe_sys_op|by safe_step]|].
  safe_step; [by apply safe_do_mrs|by apply safe_do_msr].
Qed.

(** ** Branches and the dispatch *)
Lemma safe_branch_to field bits : Safe (branch_to field bits).
Proof. unfold branch_to. safe_step. Qed.
Lemma safe_exception_gen insn : Safe (exception_gen insn).
Proof.
  unfold exception_gen. cbv zeta. safe_step. safe_cases; try (safe_step; fail).
  eapply safe_bind; [apply (safe_getc _ c_pc (fits 64)); intros; by apply wf_pc|]. intros pc Hpc.
  apply safe_fault. intros s Hs. by apply st_wf_exception_take.
Qed.
Lemma wf_unpack spsr c : cpu_wf c -> cpu_wf (cpu_unpack_spsr spsr c).
Proof.
  intros Hc. unfold cpu_unpack_spsr. cbv zeta.
  assert (Hl : forall v m, 0 <= m < 2 ^ 32 -> fits 32 (Z.land v m)).
  { intros v m Hm. rewrite Z.land_comm. apply fits_bits; [lia|].
    split; [apply Z.land_nonneg; lia|]. intros i Hi.
    by rewrite Z.land_spec, (fits_testbit 32 m i) by (done || lia). }
  apply wf_with_sp_sel; [|apply fits_weaken with 1; [apply (fits_BITS _ 0 0); lia|lia]].
  apply wf_with_el.
  { pose proof (BITS_range (Z.land spsr 15) 3 2 4 ltac:(lia) eq_refl) as Hr.
    change (0 <= BITS (Z.land spsr 15) 3 2 <= 3). lia. }
  apply wf_with_daif; [apply Hl; vm_compute; split; congruence|].
  apply wf_with_nzcv; [apply Hl; vm_compute; split; congruence|done].
Qed.
Lemma safe_branch_reg insn : Safe (branch_reg insn).
Proof.
  unfold branch_reg. cbv zeta. safe_step. repeat safe_step.
  all: cbv beta in *; eapply safe_bind; [apply safe_bank_get; [solve_bank|lia]|]; intros spsr _.
  all: eapply safe_bind; [apply safe_bank_get; [solve_bank|lia]|]; intros elr Helr.
  all: eapply safe_bind; [apply safe_putc; intros; by apply wf_unpack|]; intros [] _.
  all: safe_step.
Qed.
Lemma safe_branch_system insn : Safe (branch_system insn).
Proof.
  unfold branch_system. cbv zeta. repeat safe_step;
  lazymatch goal with
  | |- safe _ _ (branch_to _ _) _ => apply safe_branch_to
  | |- safe _ _ (exception_gen _) _ => apply safe_exception_gen
  | |- safe _ _ (branch_reg _) _ => apply safe_branch_reg
  | |- safe _ _ (sysreg_exec _) _ => apply safe_sysreg_exec
  end.
Qed.

(** The encodings the decoder does not execute safely: CASP (bits 29:24
    001000, o2 = 0, o1 = 1, bit 31 = 0) with Rs or Rt equal to 31. *)
Definition wild_insn (insn : Z) : Prop :=
  BITS insn 29 27 = 1 /\ BITS insn 26 24 = 0 /\ casp_wild insn.

Lemma safe_exec_a64 insn : (wild_insn insn -> U) -> Safe (exec_a64 insn).
Proof.
  intros HU. unfold exec_a64.
  pose proof (safe_any _ _ (exec_fpsimd_ok insn)) as Hf.
  pose proof (safe_dp_immediate U insn (Mem:=Mem)) as Hi.
  pose proof (safe_dp_register U insn (Mem:=Mem)) as Hr.
  pose proof (safe_branch_system insn) as Hb. pose proof (safe_loads_stores U insn HU) as Hl.
  pose proof (safe_undefined U (fun _ : unit => True) (Mem:=Mem)) as Hu.
  destruct (Z.land (Z.shiftr insn 25) 0xf) as [|p|p]; [assumption| |assumption].
  do 4 (destruct p as [p|p|]; try assumption).
Qed.
End Sys.
