(* ===== verification/FlatMem.v ===== *)
(** * FlatMem: the smallest address space that keeps the seam's laws

    Sixteen pages of identity-mapped, fully permitted memory, an idle clock
    and no FP unit. It shows that the laws of [MemSeamOk] and [HooksOk] can
    hold together, and gives the theorems concrete machines to run on. *)

From stdpp Require Import gmap.
From S2P Require Import Prelude Types Cpu CpuWf MemSeam Sysreg Decode ExecSafe.

Record FlatMem := mkFlat { fl_bytes : gmap Z Z; fl_fcache : option (Z * Z) }.

Definition flat_mapped (va : Z) : bool := (0 <=? va) && (va <? 0x10000).

#[export] Instance flat_seam : MemSeam FlatMem := {
  translate g va need m := ((if flat_mapped va then Some va else None, false), m);
  va_is_file_hole va m := false;
  host_get p m := default 0 (fl_bytes m !! p);
  host_put p b m := mkFlat (<[p := b]> (fl_bytes m)) (fl_fcache m);
  fcache m := fl_fcache m;
  set_fcache f m := mkFlat (fl_bytes m) f;
  tlb_flush_all m := mkFlat (fl_bytes m) None
}.

Lemma flat_mapped_page va va' : Z.shiftr va 12 = Z.shiftr va' 12 ->
  flat_mapped va = true -> flat_mapped va' = true.
Proof.
  unfold flat_mapped. rewrite !Z.shiftr_div_pow2, !andb_true_iff, !Z.leb_le, !Z.ltb_lt by lia.
  intros. wsolve.
Qed.

#[export] Instance flat_seam_ok : MemSeamOk FlatMem.
Proof.
  constructor; simpl.
  - intros g va va' need m p b m' E Hp. destruct (flat_mapped va) eqn:Ef; [|done].
    injection E as <- <- <-. rewrite (flat_mapped_page _ _ Hp Ef). do 3 f_equal. lia.
  - done.
  - intros g g' va va' need need' m p b m' q b' m'' E Hp E'. destruct (flat_mapped va) eqn:Ef; [|done].
    injection E as <- <- <-. rewrite (flat_mapped_page _ _ Hp Ef) in E'. injection E' as <- <- <-. lia.
  - done.
  - intros q b m _. by rewrite lookup_insert_eq.
  - intros q q' b m Hq. by rewrite lookup_insert_ne.
Qed.

#[export] Instance flat_hooks : Hooks FlatMem := {
  gt_count virt := ret 0;
  fpsr_sync := ret tt;
  exec_fpsimd insn := undefined
}.
#[export] Instance flat_hooks_ok : HooksOk FlatMem.
Proof.
  constructor; simpl.
  - intros virt. apply safe_ret. by apply fits_0.
  - by apply safe_ret.
  - intros insn. apply safe_undefined.
Qed.

(** A machine at EL0 with the given registers, all memory zero, about to run
    the instruction at 0x1000. *)
Definition flat_tls : Tls := mkTls false 0 0 false 0 false 0 false false.
Definition flat_st (xs : list Z) : St FlatMem :=
  mkSt (with_pc 0x1004 (with_cur_insn_pc 0x1000
         (with_x (xs ++ replicate (31 - length xs) 0) zero_cpu)))
       flat_tls (mkFlat ∅ None).

Lemma zero_cpu_wf : cpu_wf zero_cpu.
Proof.
  constructor; simpl; repeat (apply List.Forall_cons || apply List.Forall_nil || split);
    vm_compute; try done; repeat constructor; done.
Qed.
Lemma flat_st_wf xs : (length xs <=? 31)%nat && forallb (fun v => (0 <=? v) && (v <? 2 ^ 64)) xs = true ->
  st_wf (flat_st xs).
Proof.
  intros [Hl Hf]%andb_true_iff. apply Nat.leb_le in Hl.
  assert (HF : Forall (fits 64) xs).
  { apply List.Forall_forall. intros v Hv. rewrite forallb_forall in Hf. specialize (Hf v Hv).
    unfold fits. lia. }
  apply wf_with_pc; [done|]. apply wf_with_cur; [done|].
  pose proof zero_cpu_wf as []. constructor; simpl; auto.
  - rewrite length_app, length_replicate. lia.
  - apply Forall_app. split; [done|]. apply Forall_replicate. by apply fits_0.
Qed.
