(* ===== verification/ExecThms.v ===== *)
(** * ExecThms: the encoding that is not safe, and the saved status

    [safe_exec_a64] (ExecSafe) and [exec_a64_safe] (FpHooks) leave one encoding
    out; here is what it does. *)

From S2P Require Import Prelude Types Cpu CpuWf MemSeam Alu AluSpec DpExec Atomics LdSt Sysreg Decode LdStSafe ExecSafe.
From S2P Require Import FlatMem.

Section Core.
Context {Mem : Type} `{MemSeam Mem} `{HooksOk Mem}.
Implicit Types s : St Mem.

Lemma loads_stores_of_fields insn : BITS insn 29 27 = 1 -> BITS insn 26 24 = 0 ->
  Z.land (Z.shiftr insn 25) 0xf = 4.
Proof.
  unfold BITS. change 0xf with (Z.ones 4). rewrite !Z.land_ones, !Z.shiftr_div_pow2 by lia. wsolve.
Qed.
Lemma reg_x_32 s : st_wf s -> reg_x 32 s = UB.
Proof.
  intros [Hx]. unfold reg_x. simpl. by rewrite lookup_ge_None_2 by (rewrite Hx; vm_compute; lia).
Qed.

(** The encoding [exec_a64_safe] leaves out is no oversight of the proof: CASP
    with Rs or Rt equal to 31 and an aligned, writable address indexes the
    register file past its end. *)
Theorem exec_a64_casp_oob insn s p s1 : st_wf s -> wild_insn insn ->
  let va := spval s (BITS insn 9 5) in
  let bytes := if BITb insn 30 then 16 else 8 in
  Z.land va (bytes - 1) = 0 -> mem_host_ptr va bytes ACC_WRITE s = Ok (Some p) s1 ->
  exec_a64 insn s = UB.
Proof.
  intros Hs (E1 & E2 & E23 & E21 & E31 & Hr) va bytes Ha Hp.
  pose proof (safe_mem_host_ptr True va bytes ACC_WRITE s Hs) as Hs1. rewrite Hp in Hs1.
  destruct Hs1 as [_ Hs1].
  unfold exec_a64. rewrite (loads_stores_of_fields insn E1 E2). unfold loads_stores. cbv zeta.
  rewrite E1, E2. cbn [Z.eqb Pos.eqb andb]. unfold ldst_exclusive. cbv zeta.
  rewrite E23, E21, E31. cbn [negb andb Z.eqb].
  assert (Hrn : 0 <= BITS insn 9 5 < 32) by (apply BITS_range; [lia|reflexivity]).
  assert (HRs : 0 <= BITS insn 20 16 < 32) by (apply BITS_range; [lia|reflexivity]).
  assert (HRt : 0 <= BITS insn 4 0 < 32) by (apply BITS_range; [lia|reflexivity]).
  unfold bind at 1. rewrite reg_xsp_ok by done.
  unfold ldst_casp. cbv zeta. fold bytes. unfold bind at 1. rewrite reg_xsp_ok by done. fold va.
  rewrite Ha. cbn [negb Z.eqb]. unfold bind at 1. rewrite Hp.
  unfold bind at 1. rewrite reg_x_ok by done. destruct (decide (BITS insn 20 16 = 31)) as [E|Hne].
  { rewrite E. change (31 + 1) with 32. unfold bind at 1. by rewrite reg_x_32. }
  destruct Hr as [?|E]; [done|].
  unfold bind at 1. rewrite reg_x_ok by (done || lia). unfold bind at 1. rewrite reg_x_ok by done.
  rewrite E. change (31 + 1) with 32. unfold bind at 1. by rewrite reg_x_32.
Qed.
End Core.

(** [casp x31(+1), x0, [x2]] at address 0x2000. *)
Lemma exec_a64_casp_oob_witness : exec_a64 0x483f7c40 (flat_st [0; 0; 0x2000]) = UB.
Proof.
  apply (exec_a64_casp_oob 0x483f7c40 (flat_st [0; 0; 0x2000]) 0x2000 (flat_st [0; 0; 0x2000])).
  - by apply flat_st_wf.
  - repeat split. by left.
  - reflexivity.
  - reflexivity.
Defined.

(** * The saved program status round-trips (exception.c) *)

(** ** The saved program status *)
Definition PS_NZCV : Z := Z.lor (Z.lor (Z.lor PS_N PS_Z) PS_C) PS_V.
Definition PS_DAIF : Z := Z.lor (Z.lor (Z.lor PS_D PS_A) PS_I) PS_F.

(** What [cpu_pack_spsr] saves, [cpu_unpack_spsr] restores: the flags, the
    interrupt masks, the exception level and the selected stack pointer, in
    whatever CPU it is unpacked. *)
Theorem spsr_roundtrip c c' : cpu_wf c ->
  let r := cpu_unpack_spsr (cpu_pack_spsr c) c' in
  c_nzcv r = Z.land (c_nzcv c) PS_NZCV /\ c_daif r = Z.land (c_daif c) PS_DAIF /\
  c_el r = c_el c /\ c_sp_sel r = (if c_sp_sel c =? 0 then 0 else 1).
Proof.
  intros Hc. cbn -[cpu_pack_spsr]. unfold cpu_pack_spsr. fold PS_NZCV PS_DAIF.
  set (md := Z.lor (u32 (Z.shiftl (c_el c) 2)) (if c_sp_sel c =? 0 then 0 else 1)).
  set (n := Z.land (c_nzcv c) PS_NZCV). set (d := Z.land (c_daif c) PS_DAIF).
  assert (Hn : Z.land n PS_NZCV = n /\ Z.land n PS_DAIF = 0 /\ Z.land n 0xf = 0).
  { unfold n. rewrite <- !Z.land_assoc. split_and!; [f_equal; reflexivity|apply Z.land_0_r..]. }
  assert (Hd : Z.land d PS_NZCV = 0 /\ Z.land d PS_DAIF = d /\ Z.land d 0xf = 0).
  { unfold d. rewrite <- !Z.land_assoc. split_and!; [apply Z.land_0_r|f_equal; reflexivity|apply Z.land_0_r]. }
  assert (Hm : Z.land md PS_NZCV = 0 /\ Z.land md PS_DAIF = 0 /\ Z.land md 0xf = md /\
    Z.land (Z.shiftr md 2) 3 = c_el c /\ Z.land md 1 = (if c_sp_sel c =? 0 then 0 else 1)).
  { unfold md. destruct (wf_el c Hc) as [H0 H3]. revert H0 H3. generalize (c_el c). intros el H0 H3.
    assert (el = 0 \/ el = 1 \/ el = 2 \/ el = 3) as [-> |[-> |[-> | ->]]] by lia;
      destruct (c_sp_sel c =? 0); vm_compute; auto. }
  destruct Hn as (N1 & N2 & N3), Hd as (D1 & D2 & D3), Hm as (M1 & M2 & M3 & M4 & M5).
  rewrite !Z.land_lor_distr_l, N1, N2, N3, D1, D2, D3, M1, M2, M3.
  rewrite !Z.lor_0_r, !Z.lor_0_l. done.
Qed.
(** EL1h with C set and IRQs masked. *)
Lemma spsr_roundtrip_witness :
  let c := with_nzcv PS_C (with_daif PS_I (with_el 1 (with_sp_sel 1 (s_cpu (flat_st []))))) in
  c_el (cpu_unpack_spsr (cpu_pack_spsr c) (s_cpu (flat_st []))) = 1 /\ cpu_pack_spsr c = 0x20000085.
Proof.
  intros c. split; [|reflexivity]. apply (spsr_roundtrip c (s_cpu (flat_st []))).
  apply wf_with_nzcv; [vm_compute; split; congruence|]. apply wf_with_daif; [vm_compute; split; congruence|].
  apply wf_with_el; [lia|]. apply wf_with_sp_sel; [|vm_compute; split; congruence].
  apply (flat_st_wf []). reflexivity.
Defined.
