(* ===== verification/AluThms.v ===== *)
(** * AluThms: flags, bitmask immediates and wide multiplies

    What a compare leaves for the condition codes, the bits of the decoded
    masks, the memo table in front of them (alone, and shared by threads), and
    the limb multiplies. *)

From stdpp Require Import gmap.
From S2P Require Import Prelude Types Cpu CpuWf Alu AluSpec DpExec Bitfield FlatMem.

(** ** A register write *)
Section SetX.
Context {Mem : Type}.
Implicit Types s : St Mem.

Lemma set_x_ok s n v : st_wf s -> 0 <= n < 32 -> exists s', set_x n v s = Ok tt s' /\
  s_mem s' = s_mem s /\ c_nzcv (s_cpu s') = c_nzcv (s_cpu s) /\
  forall k, 0 <= k < 32 -> xval s' k = if (k =? n) && negb (k =? 31) then v else xval s k.
Proof.
  intros Hs Hn. unfold set_x. destruct (Z.eqb_spec n 31) as [-> |Hne].
  { exists s. split_and!; try done. intros k Hk. by destruct (k =? 31). }
  assert (Hl : (Z.to_nat n < length (c_x (s_cpu s)))%nat) by (destruct Hs as [Hx]; lia).
  rewrite (proj2 (Nat.ltb_lt _ _) Hl). eexists. split_and!; try done.
  intros k Hk. unfold xval. simpl. destruct (Z.eqb_spec k 31) as [-> |Hk31]; [by rewrite andb_false_r|].
  rewrite andb_true_r. destruct (Z.eqb_spec k n) as [-> |Hkn].
  - by rewrite list_lookup_insert_eq.
  - by rewrite list_lookup_insert_ne by lia.
Qed.
(** ... with the flags written before it. *)
Lemma set_flags_x_ok s n v f : st_wf s -> 0 <= n < 32 -> exists s',
  bind (putc (with_nzcv f)) (fun _ => set_x n v) s = Ok tt s' /\
  s_mem s' = s_mem s /\ c_nzcv (s_cpu s') = f /\
  forall k, 0 <= k < 32 -> xval s' k = if (k =? n) && negb (k =? 31) then v else xval s k.
Proof.
  intros Hs Hn. unfold bind, putc, modify. set (s1 := upd_cpu (with_nzcv f) s).
  assert (Hl : length (c_x (s_cpu s1)) = 31%nat) by (destruct Hs as [Hx]; done).
  unfold set_x. destruct (Z.eqb_spec n 31) as [-> |Hne].
  { exists s1. split_and!; try done. intros k Hk. by destruct (k =? 31). }
  rewrite (proj2 (Nat.ltb_lt _ _)) by lia. eexists. split_and!; try done.
  intros k Hk. unfold xval. simpl. destruct (Z.eqb_spec k 31) as [-> |Hk31]; [by rewrite andb_false_r|].
  rewrite andb_true_r. destruct (Z.eqb_spec k n) as [-> |Hkn].
  - by rewrite list_lookup_insert_eq by (simpl in *; lia).
  - by rewrite list_lookup_insert_ne by lia.
Qed.
End SetX.

Section AluThms.
Context {Mem : Type}.
Implicit Types s : St Mem.

(** SUBS/CMP with an immediate writes the difference at its width, and
    every one of the sixteen condition codes then means the comparison it is
    named after, signed and unsigned. *)
Theorem cmp_imm_conditions insn s : st_wf s ->
  BITS insn 28 23 = 0x22 -> BITb insn 30 = true -> BITb insn 29 = true ->
  let w := width (BITb insn 31) in
  let n := spval s (BITS insn 9 5) in
  let m := if BITb insn 22 then Z.shiftl (BITS insn 21 10) 12 else BITS insn 21 10 in
  exists s', dp_immediate insn s = Ok tt s' /\
    (BITS insn 4 0 <> 31 -> xval s' (BITS insn 4 0) = (n - m) mod 2 ^ w) /\
    forall k, 0 <= k < 16 -> cond_holds (c_nzcv (s_cpu s')) k = cond_meaning w n m k.
Proof.
  intros Hs Ht Eop ES w n m. unfold dp_immediate. cbv zeta. rewrite Ht. cbn [Z.eqb Pos.eqb orb].
  unfold dp_addsub_imm. cbv zeta. rewrite Eop, ES. fold m.
  assert (Hn : fits 64 n) by (apply fits_spval; [done|apply BITS_range; [lia|reflexivity]]).
  unfold bind at 1. rewrite reg_xsp_ok by (done || (apply BITS_range; [lia|reflexivity])). fold n.
  assert (Hm : fits 64 m).
  { pose proof (BITS_range insn 21 10 4096 ltac:(lia) eq_refl). unfold m, fits.
    destruct (BITb insn 22); rewrite ?Z.shiftl_mul_pow2 by lia; lia. }
  rewrite add_with_carry_spec by (done || apply fits_not64 || lia). fold w.
  assert (E : AddWithCarry w n (not64 m) 1 = AddWithCarry w n (Z.lnot m) 1).
  { unfold AddWithCarry. rewrite (signed_cong w (not64 m) (Z.lnot m)).
    - by replace (not64 m mod 2 ^ w) with (Z.lnot m mod 2 ^ w)
        by (unfold w, width; destruct (BITb insn 31); wsolve).
    - unfold w, width; destruct (BITb insn 31); wsolve. }
  rewrite E, (surjective_pairing (AddWithCarry _ _ _ _)).
  destruct (set_flags_x_ok s (BITS insn 4 0)
    (if BITb insn 31 then fst (AddWithCarry w n (Z.lnot m) 1) else u32 (fst (AddWithCarry w n (Z.lnot m) 1)))
    (snd (AddWithCarry w n (Z.lnot m) 1)) Hs) as (s' & E' & _ & Ef & Ex);
    [apply BITS_range; [lia|reflexivity]|].
  exists s'. split; [exact E'|]. rewrite Ef. split.
  - intros Hne. rewrite Ex by (apply BITS_range; [lia|reflexivity]).
    rewrite Z.eqb_refl, (proj2 (Z.eqb_neq _ _) Hne). cbn [andb negb].
    rewrite sub_flags by (unfold w, width; destruct (BITb insn 31); lia). cbn [fst].
    unfold w, width. destruct (BITb insn 31); [done|]. apply u32_small, fits_u32.
  - intros k Hk. apply cmp_conditions; [|done]. unfold w, width. destruct (BITb insn 31); lia.
Qed.
End AluThms.

(** [cmp x1, #5] with x1 = 3: LT holds and HS does not. *)
Lemma cmp_imm_conditions_witness :
  exists s', dp_immediate 0xf100143f (flat_st [0; 3]) = Ok tt s' /\
    cond_holds (c_nzcv (s_cpu s')) 11 = true /\ cond_holds (c_nzcv (s_cpu s')) 2 = false.
Proof.
  destruct (cmp_imm_conditions 0xf100143f (flat_st [0; 3]) (flat_st_wf [0; 3] eq_refl)
    eq_refl eq_refl eq_refl) as (s' & E & _ & Hc).
  exists s'. split; [exact E|]. rewrite !Hc by lia. split; reflexivity.
Defined.

(** C37: the bitmask-immediate decoder answers exactly on the encodings that name
    an element size (and, at 32 bits, one that fits); its masks are the architecture's rotated run of ones, replicated, bit by
    bit, and nothing above the operand width. *)
Theorem decode_bitmasks_bits N imms immr (sf : bool) :
  0 <= N < 2 -> 0 <= imms < 64 -> 0 <= immr < 64 ->
  match decode_bitmasks N imms immr sf with
  | Some (w, t) =>
      bm_valid N imms = true /\ (sf = false -> N = 0) /\
      forall i, 0 <= i ->
        Z.testbit w i = (i <? width sf) && bm_wbit N imms immr i /\
        Z.testbit t i = (i <? width sf) && bm_tbit N imms immr i
  | None => bm_valid N imms = false \/ (sf = false /\ N = 1)
  end.
Proof.
  intros HN Hs Hr. unfold decode_bitmasks.
  destruct (decode_bitmasks_slow N imms immr) as [[w t]|] eqn:E.
  2:{ left. by apply decode_bitmasks_slow_none in E. }
  apply decode_bitmasks_slow_bits in E as (Hv & Fw & Ft & Hb); [|done..].
  destruct sf; cbn [negb andb].
  - split_and!; [done|done|]. intros i Hi. cbn [width]. destruct (Z.ltb_spec i 64); [by apply Hb|].
    by rewrite !(fits_testbit 64) by (done || lia).
  - destruct (Z.eqb_spec N 0); cbn [negb]; [|right; split; [done|lia]].
    split_and!; [done|done|]. intros i Hi. cbn [width]. unfold u32.
    destruct (Z.ltb_spec i 32); [|by rewrite !Z.mod_pow2_bits_high by lia].
    rewrite !Z.mod_pow2_bits_low by lia. apply Hb. lia.
Qed.
(** N=0, imms=0b111100, immr=1: 0x8080... rotated: the element 0b10. *)
Lemma decode_bitmasks_bits_witness :
  decode_bitmasks 0 0x3c 1 true = Some (0xaaaaaaaaaaaaaaaa, 0xffffffffffffffff) /\
  bm_wbit 0 0x3c 1 1 = true.
Proof.
  pose proof (decode_bitmasks_bits 0 0x3c 1 true ltac:(lia) ltac:(lia) ltac:(lia)) as P.
  vm_compute (decode_bitmasks _ _ _ _) in P |- *. destruct P as (_ & _ & P).
  split; [reflexivity|]. destruct (P 1) as [P1 _]; [lia|]. vm_compute in P1. exact eq_refl.
Defined.

(** *** The memo table *)
(** A thread's requests in order, each leaving the table for the next. *)
Fixpoint memo_run (memo : Memo) (reqs : list (Z * Z * Z * bool)) : list (option (Z * Z)) :=
  match reqs with
  | [] => []
  | (N, imms, immr, sf) :: rest =>
      let '(memo', r) := decode_bitmasks_memo memo N imms immr sf in r :: memo_run memo' rest
  end.
Definition req_ok (r : Z * Z * Z * bool) : Prop :=
  let '(N, imms, immr, sf) := r in 0 <= N < 2 /\ 0 <= imms < 64 /\ 0 <= immr < 64.

Lemma memo_ok_empty : memo_ok ∅.
Proof. intros N imms immr _ _ _. left. unfold memo_at. by rewrite lookup_empty. Qed.

(** Caching is transparent: from the zeroed table, any sequence of
    requests gets, request by request, what the uncached decoder computes. *)
Theorem memo_transparent reqs : Forall req_ok reqs ->
  memo_run ∅ reqs = map (fun '(N, imms, immr, sf) => decode_bitmasks N imms immr sf) reqs.
Proof.
  intros Hr. pose proof memo_ok_empty as Hok. revert Hok. generalize (∅ : gmap Z MemoEnt).
  induction Hr as [|[[[N imms] immr] sf] rest (HN & Hs & Hi) _ IH]; intros memo Hok; [done|].
  cbn [memo_run map]. destruct (decode_bitmasks_memo_spec memo N imms immr sf HN Hs Hi Hok) as [E Hok'].
  destruct (decode_bitmasks_memo memo N imms immr sf) as [memo' r]. cbn in E, Hok'. subst r.
  f_equal. by apply IH.
Qed.
Lemma memo_transparent_witness :
  memo_run ∅ [(0, 0x3c, 0, true); (0, 0x3c, 0, false)] =
  [Some (0x5555555555555555, 0x5555555555555555); Some (0x55555555, 0x55555555)].
Proof.
  rewrite memo_transparent.
  - vm_compute. reflexivity.
  - repeat constructor; lia.
Defined.

Lemma wmask_nonzero N imms immr w t : 0 <= N < 2 -> 0 <= imms < 64 -> 0 <= immr < 64 ->
  decode_bitmasks_slow N imms immr = Some (w, t) -> w <> 0.
Proof.
  intros HN Hs Hr E. apply decode_bitmasks_slow_bits in E as (Hv & _ & _ & Hb); [|done..].
  intros ->. unfold bm_valid in Hv. set (L := 2 ^ bm_len N imms).
  assert (HL : 0 < L <= 64).
  { unfold L, bm_len. split; [apply Z.pow_pos_nonneg; [lia|apply Z.log2_nonneg]|].
    apply Z.le_trans with (2 ^ 6); [|lia]. apply Z.pow_le_mono_r; [lia|].
    assert (Z.log2 (64 * N + (63 - imms)) < 7); [apply Z.log2_lt_pow2; lia|lia]. }
  destruct (Hb ((- immr) mod L)) as [H1 _].
  { pose proof (Z.mod_pos_bound (- immr) L ltac:(lia)). lia. }
  rewrite Z.bits_0 in H1. symmetry in H1. unfold bm_wbit in H1. fold L in H1.
  rewrite <- Z.add_mod, Z.add_opp_diag_l, Z.mod_0_l in H1 by lia. apply Z.leb_gt in H1.
  pose proof (Z.mod_pos_bound imms L ltac:(lia)). lia.
Qed.

(** The table is not safe to share: for every valid encoding, a thread
    that looks after the first store of another thread's fill takes the entry
    for filled and answers with empty masks, which is never the answer; once
    the fill is complete it answers right. *)
Theorem memo_publication_race N imms immr :
  0 <= N < 2 -> 0 <= imms < 64 -> 0 <= immr < 64 -> bm_valid N imms = true ->
  memo_other_thread 1 N imms immr true = Some (Some (0, 0)) /\
  decode_bitmasks N imms immr true <> Some (0, 0) /\
  memo_other_thread 3 N imms immr true = Some (decode_bitmasks N imms immr true).
Proof.
  intros HN Hs Hr Hv.
  destruct (decode_bitmasks_slow N imms immr) as [[w t]|] eqn:E.
  2:{ apply decode_bitmasks_slow_none in E; [congruence|done..]. }
  pose proof (wmask_nonzero N imms immr w t HN Hs Hr E) as Hw.
  unfold memo_other_thread, memo_fill, decode_bitmasks. rewrite E.
  split_and!; [done| |done]. cbn [negb andb]. congruence.
Qed.
Lemma memo_publication_race_witness :
  memo_other_thread 1 1 0 0 true = Some (Some (0, 0)) /\ decode_bitmasks 1 0 0 true = Some (1, 1).
Proof.
  split; [|reflexivity].
  apply (memo_publication_race 1 0 0); [lia|lia|lia|reflexivity].
Defined.

(** An immediate whose run of ones fills the whole element, which the
    architecture reserves for the logical instructions, is accepted: at 64
    bits it decodes to the all-ones mask instead of being undefined. *)
Theorem reserved_bitmask_accepted immr : 0 <= immr < 64 ->
  exists t, decode_bitmasks 1 0x3f immr true = Some (2 ^ 64 - 1, t).
Proof.
  intros Hr.
  assert (Hall : forallb (fun r => match decode_bitmasks 1 0x3f r true with
    | Some (w, _) => w =? 2 ^ 64 - 1 | None => false end) (seqZ 0 64) = true) by (vm_compute; reflexivity).
  rewrite forallb_forall in Hall. specialize (Hall immr ltac:(apply list_elem_of_In, elem_of_seqZ; lia)).
  destruct (decode_bitmasks 1 0x3f immr true) as [[w t]|]; [|done].
  apply Z.eqb_eq in Hall as ->. by exists t.
Qed.
Lemma reserved_bitmask_accepted_witness : exists t, decode_bitmasks 1 0x3f 5 true = Some (2 ^ 64 - 1, t).
Proof. apply (reserved_bitmask_accepted 5). lia. Defined.

(** *** Multiplies *)
(** The 32-bit-limb multiplies of a host without 128-bit integers compute
    the high half of the exact unsigned and signed products. *)
Theorem mulh_limbs_exact a b : fits 64 a -> fits 64 b ->
  umulh64_limbs a b = a * b / 2 ^ 64 /\
  smulh64_limbs (s64 a) (s64 b) = s64 a * s64 b / 2 ^ 64.
Proof.
  intros Ha Hb. pose proof (signed_range 64 a ltac:(lia)) as Ra. pose proof (signed_range 64 b ltac:(lia)) as Rb.
  fold s64 in Ra, Rb. change (64 - 1) with 63 in *. split.
  - rewrite umulh64_limbs_correct by done. unfold umulh64. rewrite Z.shiftr_div_pow2 by lia.
    apply u64_small. unfold fits in *. split; [apply Z.div_pos; nia|apply Z.div_lt_upper_bound; nia].
  - rewrite smulh64_limbs_correct by done. unfold smulh64. rewrite Z.shiftr_div_pow2 by lia.
    apply signed_small; [lia|]. split; [apply Z.div_le_lower_bound; nia|apply Z.div_lt_upper_bound; nia].
Qed.
Lemma mulh_limbs_exact_witness :
  umulh64_limbs 0xffffffffffffffff 0xffffffffffffffff = 0xfffffffffffffffe /\
  smulh64_limbs (s64 0x8000000000000000) (s64 2) = -1.
Proof.
  split.
  - refine (eq_trans (proj1 (mulh_limbs_exact _ _ _ _)) _); [split; lia..|reflexivity].
  - refine (eq_trans (proj2 (mulh_limbs_exact 0x8000000000000000 2 _ _)) _); [split; lia..|reflexivity].
Defined.
