(* ===== verification/DpThms.v ===== *)
(** * DpThms: data-processing instructions end to end

    CRC32, the bitfield moves and the one-source group, from the instruction
    word to the register written. *)

From stdpp Require Import gmap.
From S2P Require Import Prelude Types Cpu CpuWf Alu AluSpec DpExec Bitfield FlatMem.
From S2P Require Import AluThms.

Section DpThms.
Context {Mem : Type}.
Implicit Types s : St Mem.
Local Open Scope exec_scope.

(** C38: the CRC32 and CRC32C instructions, byte to doubleword, put into Rd the
    bit-serial CRC of the operand over the low word of Rn. *)
Theorem crc32_insn insn s sz : st_wf s ->
  BITS insn 28 24 = 0x1a -> BITS insn 28 21 = 0xd6 -> BITb insn 30 = false ->
  0 <= sz < 4 -> BITS insn 4 0 <> 31 ->
  forall castagnoli : bool, BITS insn 15 10 = (if castagnoli then 0x14 else 0x10) + sz ->
  exists s', dp_register insn s = Ok tt s' /\
    xval s' (BITS insn 4 0) =
      crc_serial (Z.to_nat (8 * 2 ^ sz)) (if castagnoli then 0x82f63b78 else 0xedb88320)
        (u32 (xval s (BITS insn 9 5))) (xval s (BITS insn 20 16)).
Proof.
  intros Hs E24 E21 E30 Hsz Hd castagnoli Eo.
  assert (HRd : 0 <= BITS insn 4 0 < 32) by (apply BITS_range; [lia|reflexivity]).
  assert (HRn : 0 <= BITS insn 9 5 < 32) by (apply BITS_range; [lia|reflexivity]).
  assert (HRm : 0 <= BITS insn 20 16 < 32) by (apply BITS_range; [lia|reflexivity]).
  unfold dp_register. cbv zeta. rewrite E24, E21, E30. cbn [Z.eqb Pos.eqb].
  unfold dp_2source. cbv zeta. unfold bind. rewrite !reg_x_ok by done.
  set (n := u32 (xval s (BITS insn 9 5))). set (m := xval s (BITS insn 20 16)).
  assert (Hn : fits 32 n) by apply fits_u32. assert (Hm : fits 64 m) by by apply fits_xval.
  set (poly := if castagnoli then 0x82f63b78 else 0xedb88320).
  assert (Hp : fits 32 poly) by (unfold poly, fits; destruct castagnoli; lia).
  set (v := crc32_step n m (2 ^ sz) poly).
  assert (Hb : In (2 ^ sz) [1; 2; 4; 8]).
  { assert (sz = 0 \/ sz = 1 \/ sz = 2 \/ sz = 3) as [-> |[-> |[-> | ->]]] by lia; vm_compute; auto. }
  destruct (set_x_ok s (BITS insn 4 0) (if BITb insn 31 then v else u32 v) Hs HRd) as (s' & E & _ & _ & Ex).
  exists s'. split.
  - rewrite <- E, Eo. clear -Hsz. 
    assert (sz = 0 \/ sz = 1 \/ sz = 2 \/ sz = 3) as [-> |[-> |[-> | ->]]] by lia; by destruct castagnoli.
  - rewrite Ex, Z.eqb_refl, (proj2 (Z.eqb_neq _ _) Hd) by done. cbn [andb negb].
    rewrite <- (crc32_step_serial poly n m (2 ^ sz)) by done. fold v.
    destruct (BITb insn 31); [done|]. apply u32_small. by apply fits_crc32_step.
Qed.

(** UBFM and SBFM (and so LSL, LSR, ASR, the extends and the extracts)
    write, bit by bit, the field of Rn the two immediates select, zero- or
    sign-filled above. *)
Theorem bitfield_insn insn s (sign : bool) : st_wf s ->
  let sf := BITb insn 31 in
  let immr := BITS insn 21 16 in let imms := BITS insn 15 10 in
  BITS insn 28 23 = 0x26 -> BITS insn 30 29 = (if sign then 0 else 2) ->
  BITb insn 22 = sf -> immr < width sf -> imms < width sf -> BITS insn 4 0 <> 31 ->
  exists s', dp_immediate insn s = Ok tt s' /\
    forall i, 0 <= i -> Z.testbit (xval s' (BITS insn 4 0)) i =
      (i <? width sf) && xbfm_bit (width sf) immr imms (xval s (BITS insn 9 5)) i sign.
Proof.
  intros Hs sf immr imms Ht Eo EN Hr Hm Hd.
  assert (HRd : 0 <= BITS insn 4 0 < 32) by (apply BITS_range; [lia|reflexivity]).
  assert (HRn : 0 <= BITS insn 9 5 < 32) by (apply BITS_range; [lia|reflexivity]).
  assert (Hr' : 0 <= immr < width sf) by (pose proof (BITS_range insn 21 16 64 ltac:(lia) eq_refl : 0 <= immr < 64); lia).
  assert (Hm' : 0 <= imms < width sf) by (pose proof (BITS_range insn 15 10 64 ltac:(lia) eq_refl : 0 <= imms < 64); lia).
  unfold dp_immediate. cbv zeta. rewrite Ht. cbn [Z.eqb Pos.eqb orb].
  unfold dp_bitfield. cbv zeta. fold sf immr imms. rewrite BIT_b2z, EN, Z.eqb_refl.
  destruct (bitfield_masks sf immr imms Hr' Hm') as (w & t & E & _). rewrite E.
  assert (Eg : (BITS insn 30 29 =? 3) || negb true = false) by (rewrite Eo; by destruct sign).
  rewrite Eg. unfold bind. rewrite !reg_x_ok by done. rewrite Eo.
  set (src := xval s (BITS insn 9 5)). set (rd := xval s (BITS insn 4 0)).
  set (v := bfm_value sf (if sign then 0 else 2) immr imms src rd w t).
  destruct (set_x_ok s (BITS insn 4 0) (trunc_to sf v) Hs HRd) as (s' & E' & _ & _ & Ex).
  exists s'. split; [exact E'|]. intros i Hi.
  rewrite Ex, Z.eqb_refl, (proj2 (Z.eqb_neq _ _) Hd) by done. cbn [andb negb].
  assert (Hsrc : fits 64 src) by by apply fits_xval.
  destruct (Z.ltb_spec i (width sf)).
  - rewrite (trunc_bit sf immr imms w t Hr' Hm' E) by lia. cbn [andb]. by apply bfm_value_bits.
  - apply (trunc_bit_high sf immr imms w t Hr' Hm' E); [|done]. by apply (fits_bfm sf immr imms src rd w t).
Qed.
End DpThms.

(** [crc32cx w0, w1, x2]: the Castagnoli CRC of the eight bytes 1 to 8 in ASCII. *)
Lemma crc32_insn_witness :
  exists s', dp_register 0x9ac25c20 (flat_st [0; 0xffffffff; 0x3837363534333231]) = Ok tt s' /\
    xval s' 0 = 0x9f787f65.
Proof.
  destruct (crc32_insn 0x9ac25c20 (flat_st [0; 0xffffffff; 0x3837363534333231]) 3
    (flat_st_wf [0; 0xffffffff; 0x3837363534333231] eq_refl) eq_refl eq_refl eq_refl ltac:(lia)
    ltac:(discriminate) true eq_refl) as (s' & E & Ex).
  exists s'. split; [exact E|]. refine (eq_trans Ex _). vm_compute. reflexivity.
Defined.
(** [sbfx x0, x1, #4, #8] of 0xff0. *)
Lemma bitfield_insn_witness :
  exists s', dp_immediate 0x93442c20 (flat_st [0; 0xff0]) = Ok tt s' /\
    Z.testbit (xval s' 0) 63 = true.
Proof.
  destruct (bitfield_insn 0x93442c20 (flat_st [0; 0xff0]) true (flat_st_wf [0; 0xff0] eq_refl)
    eq_refl eq_refl eq_refl ltac:(vm_compute; reflexivity) ltac:(vm_compute; reflexivity)
    ltac:(discriminate)) as (s' & E & Ex).
  exists s'. split; [exact E|]. refine (eq_trans (Ex 63 ltac:(lia)) _). reflexivity.
Defined.

(** ** The loops of the one-source group *)
Lemma has1_testbit v i : 0 <= i -> has (Z.shiftr v i) 1 = Z.testbit v i.
Proof. intros Hi. unfold has. by rewrite land1_testbit, negb_involutive. Qed.
Lemma rbit_loop_bits n i w v o j : 0 <= i -> i + Z.of_nat n = w -> w <= 64 -> 0 <= j ->
  Z.testbit (rbit_loop n i w v o) j =
  Z.testbit o j || ((j <? w - i) && Z.testbit v (w - 1 - j)).
Proof.
  revert i o. induction n as [|n IH]; intros i o Hi Hn Hw Hj; cbn [rbit_loop].
  { rewrite (proj2 (Z.ltb_ge _ _)) by lia. by rewrite orb_false_r. }
  rewrite IH, has1_testbit by lia.
  assert (Hu : u64 (Z.shiftl 1 (w - 1 - i)) = 2 ^ (w - 1 - i)).
  { rewrite shiftl_1_pow by lia. apply u64_small. split; [lia|]. apply Z.pow_lt_mono_r; lia. }
  rewrite Hu. destruct (Z.testbit v i) eqn:E.
  - rewrite Z.lor_spec, Z.pow2_bits_eqb by lia. destruct (Z.eqb_spec (w - 1 - i) j) as [<- |].
    + replace (w - 1 - (w - 1 - i)) with i by lia. rewrite E.
      rewrite (proj2 (Z.ltb_lt (w - 1 - i) (w - i))) by lia. by rewrite !orb_true_r.
    + rewrite orb_false_r. f_equal. destruct (Z.ltb_spec j (w - (i + 1))), (Z.ltb_spec j (w - i)); try done; lia.
  - f_equal. destruct (Z.ltb_spec j (w - (i + 1))), (Z.ltb_spec j (w - i)); try done; try lia.
    replace (w - 1 - j) with i by lia. by rewrite E.
Qed.
Lemma rbit_bits w v j : 0 <= w <= 64 -> 0 <= j < w -> Z.testbit (rbit w v) j = Z.testbit v (w - 1 - j).
Proof.
  intros Hw Hj. unfold rbit. rewrite rbit_loop_bits by lia. rewrite Z.bits_0.
  by rewrite (proj2 (Z.ltb_lt _ _)) by lia.
Qed.

Lemma clz_bits w v : 0 < w -> fits w v -> let r := if v =? 0 then w else clz w v in
  0 <= r <= w /\ (forall j, w - r <= j < w -> Z.testbit v j = false) /\
  (r < w -> Z.testbit v (w - 1 - r) = true).
Proof.
  intros Hw [H0 H1]. cbv zeta. destruct (Z.eqb_spec v 0) as [-> |Hv].
  { split_and!; [lia|lia| |lia]. intros. apply Z.bits_0. }
  unfold clz. pose proof (Z.log2_nonneg v). assert (Z.log2 v < w) by (apply Z.log2_lt_pow2; lia).
  split_and!; [lia|lia| |].
  - intros j Hj. apply Z.bits_above_log2; lia.
  - intros _. replace (w - 1 - (w - 1 - Z.log2 v)) with (Z.log2 v) by lia. apply Z.bit_log2. lia.
Qed.

Lemma sign_test v k sign : 0 <= k -> (sign = 0 \/ sign = 1) ->
  (Z.land (Z.shiftr v k) 1 =? sign) = eqb (Z.testbit v k) (negb (sign =? 0)).
Proof.
  intros Hk Hs. change (Z.land (Z.shiftr v k) 1) with (BIT v k). rewrite BIT_b2z.
  assert (BITb v k = Z.testbit v k) as ->.
  { unfold BITb, BIT. by rewrite land1_testbit, negb_involutive. }
  by destruct Hs as [-> | ->], (Z.testbit v k).
Qed.
Lemma cls_loop_bits n v sign cnt : (sign = 0 \/ sign = 1) ->
  let r := cls_loop n v sign cnt - cnt in
  0 <= r <= Z.of_nat n /\
  (forall j, Z.of_nat n - r <= j < Z.of_nat n -> Z.testbit v j = negb (sign =? 0)) /\
  (r < Z.of_nat n -> Z.testbit v (Z.of_nat n - 1 - r) = (sign =? 0)).
Proof.
  intros Hs. revert cnt. induction n as [|n IH]; intros cnt; cbn [cls_loop]; cbv zeta.
  { rewrite Z.sub_diag. split_and!; lia. }
  rewrite sign_test by (done || lia).
  destruct (eqb (Z.testbit v (Z.of_nat n)) (negb (sign =? 0))) eqn:E.
  - apply eqb_prop in E. specialize (IH (cnt + 1)). cbv zeta in IH.
    set (r := cls_loop n v sign (cnt + 1)) in *. destruct IH as (H1 & H2 & H3).
    split_and!; [lia|lia| |].
    + intros j Hj. destruct (Z.eq_dec j (Z.of_nat n)) as [-> |]; [done|]. apply H2. lia.
    + intros Hr. rewrite <- H3 by lia. f_equal. lia.
  - rewrite Z.sub_diag. split_and!; [lia|lia|lia|]. intros _.
    replace (Z.of_nat (S n) - 1 - 0) with (Z.of_nat n) by lia.
    destruct (Z.testbit v (Z.of_nat n)), (sign =? 0); done.
Qed.

Section OneSource.
Context {Mem : Type}.
Implicit Types s : St Mem.

(** RBIT, CLZ and CLS at either width: the mirrored word, the exact number
    of leading zeroes (the width for zero), and the exact number of copies of
    the sign bit below it. *)
Theorem one_source_insn insn s : st_wf s ->
  BITS insn 28 24 = 0x1a -> BITS insn 28 21 = 0xd6 -> BITb insn 30 = true -> BITS insn 4 0 <> 31 ->
  BITS insn 15 10 = 0 \/ BITS insn 15 10 = 4 \/ BITS insn 15 10 = 5 ->
  let w := width (BITb insn 31) in
  let v := xval s (BITS insn 9 5) mod 2 ^ w in
  exists s', dp_register insn s = Ok tt s' /\
    let r := xval s' (BITS insn 4 0) in
    (BITS insn 15 10 = 0 -> forall i, 0 <= i < w -> Z.testbit r i = Z.testbit v (w - 1 - i)) /\
    (BITS insn 15 10 = 4 -> 0 <= r <= w /\ (forall j, w - r <= j < w -> Z.testbit v j = false) /\
       (r < w -> Z.testbit v (w - 1 - r) = true)) /\
    (BITS insn 15 10 = 5 -> 0 <= r <= w - 1 /\
       (forall j, w - 1 - r <= j < w -> Z.testbit v j = Z.testbit v (w - 1)) /\
       (r < w - 1 -> Z.testbit v (w - 2 - r) = negb (Z.testbit v (w - 1)))).
Proof.
  intros Hs E24 E21 E30 Hd Ho w v.
  assert (HRd : 0 <= BITS insn 4 0 < 32) by (apply BITS_range; [lia|reflexivity]).
  assert (HRn : 0 <= BITS insn 9 5 < 32) by (apply BITS_range; [lia|reflexivity]).
  assert (HW : w = 64 \/ w = 32) by (unfold w; destruct (BITb insn 31); auto).
  pose proof (fits_xval s (BITS insn 9 5) Hs HRn) as Hn.
  assert (Ev : v = if BITb insn 31 then xval s (BITS insn 9 5) else u32 (xval s (BITS insn 9 5))).
  { unfold v, w. destruct (BITb insn 31); [by apply Z.mod_small|done]. }
  assert (Hv : fits w v).
  { unfold v, fits. apply Z.mod_pos_bound. destruct HW as [-> | ->]; lia. }
  unfold dp_register. cbv zeta. rewrite E24, E21, E30. cbn [Z.eqb Pos.eqb].
  unfold dp_1source. cbv zeta. unfold bind. rewrite reg_x_ok by done.
  set (sg := Z.land (Z.shiftr v (w - 1)) 1).
  assert (Hsg : sg = 0 \/ sg = 1) by (pose proof (BIT_range v (w - 1)); unfold sg, BIT in *; lia).
  assert (Esg : Z.testbit v (w - 1) = negb (sg =? 0)).
  { unfold sg. rewrite land1_testbit by (destruct HW; lia). by rewrite negb_involutive. }
  set (val := if BITS insn 15 10 =? 0 then rbit w v
              else if BITS insn 15 10 =? 4 then (if v =? 0 then w else clz w v)
              else cls_loop (Z.to_nat (w - 1)) v sg 0).
  pose proof (clz_bits w v ltac:(lia) Hv) as Hclz. cbv zeta in Hclz.
  pose proof (cls_loop_bits (Z.to_nat (w - 1)) v sg 0 Hsg) as Hcls. cbv zeta in Hcls.
  rewrite Z2Nat.id, Z.sub_0_r in Hcls by lia.
  destruct (set_x_ok s (BITS insn 4 0) (if BITb insn 31 then val else u32 val) Hs HRd)
    as (s' & E & _ & _ & Ex).
  exists s'. split.
  { rewrite <- E. unfold val, sg. rewrite Ev. unfold w, set_x_sz. clear -Ho.
    destruct Ho as [-> |[-> | ->]]; destruct (BITb insn 31); cbn [width Z.eqb Pos.eqb]; reflexivity. }
  rewrite Ex, Z.eqb_refl, (proj2 (Z.eqb_neq _ _) Hd) by done. cbn [andb negb].
  assert (Esz : BITS insn 15 10 <> 0 -> (if BITb insn 31 then val else u32 val) = val).
  { intros Hne. destruct (BITb insn 31); [done|]. apply u32_small. unfold val, fits.
    rewrite (proj2 (Z.eqb_neq _ _) Hne). destruct (BITS insn 15 10 =? 4); destruct HW; lia. }
  split_and!.
  - intros Eo i Hi. assert (Z.testbit (if BITb insn 31 then val else u32 val) i = Z.testbit val i) as ->.
    { revert Hi. unfold w, width. destruct (BITb insn 31); [done|]. intros Hi. unfold u32.
      by rewrite Z.mod_pow2_bits_low by lia. }
    unfold val. rewrite Eo. apply rbit_bits; destruct HW; lia.
  - intros Eo. rewrite Esz by lia. unfold val. rewrite Eo. cbn [Z.eqb Pos.eqb]. exact Hclz.
  - intros Eo. rewrite Esz by lia. unfold val. rewrite Eo. cbn [Z.eqb Pos.eqb].
    rewrite Esg. destruct Hcls as (H1 & H2 & H3). split_and!; [lia|lia| |].
    + intros j Hj. destruct (Z.eq_dec j (w - 1)) as [-> |]; [done|]. apply H2. lia.
    + intros Hr. rewrite negb_involutive, <- H3 by lia. f_equal. lia.
Qed.
End OneSource.
(** [cls x0, x1] of -2. *)
Lemma one_source_insn_witness :
  exists s', dp_register 0xdac01420 (flat_st [0; 0xfffffffffffffffe]) = Ok tt s' /\ xval s' 0 <= 63.
Proof.
  destruct (one_source_insn 0xdac01420 (flat_st [0; 0xfffffffffffffffe])
    (flat_st_wf [0; 0xfffffffffffffffe] eq_refl) eq_refl eq_refl eq_refl ltac:(discriminate)
    ltac:(right; right; reflexivity)) as (s' & E & _ & _ & Hc).
  exists s'. split; [exact E|]. apply (Hc eq_refl).
Defined.
