(* ===== verification/Precise.v ===== *)
(** * Precise: faults leave the integer state alone

    A handler reads and accesses memory first ([quiet]) and writes registers
    last ([nofault]); so whatever faults in it, faults before the first
    register write. *)

From S2P Require Import Prelude Types Cpu CpuWf MemSeam Alu DpExec Atomics Mops LdSt Sysreg Decode.
From S2P Require Import ExecSafe FlatMem.

(** ** Preciseness, compositionally *)
Section Precise.
Context {Mem : Type} `{MemSeam Mem}.
Implicit Types s : St Mem.

(** What a program can see of a thread's integer state. *)
Definition same_regs s s' : Prop :=
  c_x (s_cpu s') = c_x (s_cpu s) /\ c_sp_el (s_cpu s') = c_sp_el (s_cpu s) /\
  c_nzcv (s_cpu s') = c_nzcv (s_cpu s) /\ c_cur_insn_pc (s_cpu s') = c_cur_insn_pc (s_cpu s).
(** An exception taken with the instruction still to run. *)
Definition restartable s s' : Prop :=
  same_regs s s' /\ c_pc (s_cpu s') = c_cur_insn_pc (s_cpu s) /\ pe_valid (s_tls s') = true.

Definition quiet {A} (m : M (St Mem) A) : Prop := forall s,
  match m s with Ok _ s' => same_regs s s' | Fault s' => restartable s s' | UB => True end.
Definition precise {A} (m : M (St Mem) A) : Prop := forall s,
  match m s with Fault s' => restartable s s' | _ => True end.
Definition nofault {A} (m : M (St Mem) A) : Prop := forall s,
  match m s with Fault _ => False | _ => True end.

Lemma same_refl s : same_regs s s. Proof. done. Qed.
Lemma same_trans s1 s2 s3 : same_regs s1 s2 -> same_regs s2 s3 -> same_regs s1 s3.
Proof. unfold same_regs. intros (-> & -> & -> & ->). done. Qed.
Lemma restart_trans s1 s2 s3 : same_regs s1 s2 -> restartable s2 s3 -> restartable s1 s3.
Proof.
  intros H12 (H23 & Hp & Hv). split_and!; [by eapply same_trans| |done].
  rewrite Hp. apply H12.
Qed.

Lemma quiet_bind {A B} (m : M (St Mem) A) (k : A -> M (St Mem) B) :
  quiet m -> (forall a, quiet (k a)) -> quiet (bind m k).
Proof.
  intros Hm Hk s. unfold bind. specialize (Hm s). destruct (m s) as [a s1|s1|]; [|done..].
  specialize (Hk a s1). destruct (k a s1); [by eapply same_trans|by eapply restart_trans|done].
Qed.
Lemma precise_bind {A B} (m : M (St Mem) A) (k : A -> M (St Mem) B) :
  quiet m -> (forall a, precise (k a)) -> precise (bind m k).
Proof.
  intros Hm Hk s. unfold bind. specialize (Hm s). destruct (m s) as [a s1|s1|]; [|done..].
  specialize (Hk a s1). destruct (k a s1); [done|by eapply restart_trans|done].
Qed.
Lemma precise_tail {A B} (m : M (St Mem) A) (k : A -> M (St Mem) B) :
  precise m -> (forall a, nofault (k a)) -> precise (bind m k).
Proof.
  intros Hm Hk s. unfold bind. specialize (Hm s). destruct (m s) as [a s1|s1|]; [|done..].
  specialize (Hk a s1). by destruct (k a s1).
Qed.
Lemma nofault_bind {A B} (m : M (St Mem) A) (k : A -> M (St Mem) B) :
  nofault m -> (forall a, nofault (k a)) -> nofault (bind m k).
Proof.
  intros Hm Hk s. unfold bind. specialize (Hm s). destruct (m s) as [a s1|s1|]; [|done..].
  apply Hk.
Qed.
Lemma quiet_precise {A} (m : M (St Mem) A) : quiet m -> precise m.
Proof. intros Hm s. specialize (Hm s). by destruct (m s). Qed.
Lemma nofault_precise {A} (m : M (St Mem) A) : nofault m -> precise m.
Proof. intros Hm s. specialize (Hm s). by destruct (m s). Qed.

(** The accessors. *)
Lemma quiet_ret {A} (a : A) : quiet (ret a). Proof. intros s. done. Qed.
Lemma quiet_gets {A} (f : St Mem -> A) : quiet (gets f). Proof. intros s. done. Qed.
Lemma quiet_getc {A} (f : CPU -> A) : quiet (getc f). Proof. intros s. done. Qed.
Lemma quiet_upd_mem f : quiet (modify (upd_mem f)). Proof. intros s. done. Qed.
Lemma quiet_reg_x n : quiet (reg_x n).
Proof. intros s. unfold reg_x. destruct (n =? 31); [done|]. by destruct (_ !! _). Qed.
Lemma quiet_reg_xsp n : quiet (reg_xsp n).
Proof. intros s. unfold reg_xsp. destruct (n =? 31); by destruct (_ !! _). Qed.
Lemma quiet_reg_v n : quiet (reg_v n).
Proof. intros s. unfold reg_v. by destruct (_ !! _). Qed.
Lemma quiet_set_v n v : quiet (set_v n v).
Proof. intros s. unfold set_v. by destruct (_ <? _)%nat. Qed.
Lemma restart_raise esr far s : restartable s (cpu_raise_sync esr far s).
Proof. done. Qed.
Lemma quiet_raise {A} esr far : quiet (A:=A) (fault (cpu_raise_sync esr far)).
Proof. intros s. apply restart_raise. Qed.
Lemma quiet_dabort {A} va w p : quiet (A:=A) (raise_dabort va w p).
Proof. intros s. apply restart_raise. Qed.
Lemma quiet_translateM va need : quiet (translateM va need).
Proof. intros s. unfold translateM. by destruct (translate _ _ _ _). Qed.
Lemma quiet_ld_le p n : quiet (ld_le p n).
Proof. intros s. unfold ld_le. by destruct (n <=? 8). Qed.
Lemma quiet_st_le p n v : quiet (st_le p n v).
Proof. intros s. unfold st_le. by destruct (n <=? 8). Qed.
Lemma quiet_ub {A} : quiet (A:=A) ub. Proof. intros s. done. Qed.

Lemma nofault_ret {A} (a : A) : nofault (ret a). Proof. intros s. done. Qed.
Lemma nofault_putc f : nofault (putc (Mem:=Mem) f). Proof. intros s. done. Qed.
Lemma nofault_set_x n v : nofault (set_x (Mem:=Mem) n v).
Proof. intros s. unfold set_x. destruct (n =? 31); [done|]. by destruct (_ <? _)%nat. Qed.
Lemma nofault_set_xsp n v : nofault (set_xsp (Mem:=Mem) n v).
Proof. intros s. unfold set_xsp. cbv zeta. destruct (n =? 31); by destruct (_ <? _)%nat. Qed.
Lemma nofault_reg_x n : nofault (reg_x (Mem:=Mem) n).
Proof. intros s. unfold reg_x. destruct (n =? 31); [done|]. by destruct (_ !! _). Qed.
End Precise.

Create HintDb precise discriminated.
#[export] Hint Constants Opaque : precise.
#[export] Hint Resolve quiet_ret quiet_gets quiet_getc quiet_upd_mem quiet_reg_x quiet_reg_xsp
  quiet_reg_v quiet_set_v quiet_raise quiet_dabort quiet_translateM quiet_ld_le quiet_st_le quiet_ub
  nofault_ret nofault_putc nofault_set_x nofault_set_xsp nofault_reg_x : precise.

(** Run the rules through a handler. *)
Ltac quiet_tac :=
  cbv zeta;
  lazymatch goal with
  | |- quiet (bind _ _) => apply quiet_bind; [quiet_tac|intros; quiet_tac]
  | |- quiet (if ?b then _ else _) => destruct b; quiet_tac
  | |- quiet (match ?x with _ => _ end) => destruct x; quiet_tac
  | |- quiet undefined => apply quiet_raise
  | |- quiet _ => solve [auto with precise]
  end.
Ltac nofault_tac :=
  cbv zeta;
  lazymatch goal with
  | |- nofault (bind _ _) => apply nofault_bind; [nofault_tac|intros; nofault_tac]
  | |- nofault (if ?b then _ else _) => destruct b; nofault_tac
  | |- nofault (match ?x with _ => _ end) => destruct x; nofault_tac
  | |- nofault (set_x_sz _ _ _) => apply nofault_set_x
  | |- nofault _ => solve [auto with precise]
  end.
Ltac precise_tac :=
  cbv zeta;
  lazymatch goal with
  | |- precise (bind _ _) =>
      first [ apply precise_bind; [quiet_tac|intros; precise_tac]
            | apply precise_tail; [precise_tac|intros; nofault_tac] ]
  | |- precise (if ?b then _ else _) => destruct b; precise_tac
  | |- precise (match ?x with _ => _ end) => destruct x; precise_tac
  | |- precise _ => first [ solve [auto with precise] | apply nofault_precise; nofault_tac
                          | apply quiet_precise; quiet_tac ]
  end.

Section Handlers.
Context {Mem : Type} `{MemSeam Mem} `{Hooks Mem}.

Lemma quiet_mem_read va n : quiet (mem_read (Mem:=Mem) va n).
Proof. unfold mem_read, mem_read_page. quiet_tac. Qed.
Lemma quiet_mem_write va n v : quiet (mem_write (Mem:=Mem) va n v).
Proof. unfold mem_write, mem_write_page. quiet_tac. Qed.
Lemma quiet_mem_read128 va : quiet (mem_read128 (Mem:=Mem) va).
Proof. unfold mem_read128, mem_read, mem_read_page. quiet_tac. Qed.
Lemma quiet_mem_write128 va v : quiet (mem_write128 (Mem:=Mem) va v).
Proof. unfold mem_write128, mem_write, mem_write_page. quiet_tac. Qed.
Lemma quiet_mem_host_ptr va n acc : quiet (mem_host_ptr (Mem:=Mem) va n acc).
Proof.
  intros s. unfold mem_host_ptr. destruct (crosses va n); [done|].
  destruct (uaddr_tag_refused va (s_tls s)); [done|].
  unfold bind, translateM. by destruct (translate _ _ _ _).
Qed.
Lemma quiet_at_load n p : quiet (at_load (Mem:=Mem) n p). Proof. unfold at_load. quiet_tac. Qed.
Lemma quiet_at_store n p v : quiet (at_store (Mem:=Mem) n p v). Proof. unfold at_store. quiet_tac. Qed.
Hint Resolve quiet_mem_read quiet_mem_write quiet_mem_read128 quiet_mem_write128 quiet_mem_host_ptr
  quiet_at_load quiet_at_store : precise.
Lemma quiet_at_cas n p e w : quiet (at_cas (Mem:=Mem) n p e w).
Proof. unfold at_cas. quiet_tac. Qed.
Hint Resolve quiet_at_cas : precise.
Lemma quiet_for_loop {A} n i (body : Z -> A -> M (St Mem) A) a :
  (forall i a, quiet (body i a)) -> quiet (for_loop n i body a).
Proof.
  intros Hb. revert i a. induction n as [|n IH]; intros i a; cbn [for_loop]; [apply quiet_ret|].
  apply quiet_bind; [apply Hb|intros; apply IH].
Qed.

Lemma precise_do_load Rt va size opc : precise (do_load (Mem:=Mem) Rt va size opc).
Proof. unfold do_load. precise_tac. Qed.
Lemma precise_vreg_load Vt va n : quiet (vreg_load (Mem:=Mem) Vt va n).
Proof. unfold vreg_load. quiet_tac. Qed.
Lemma precise_vreg_store Vt va n : quiet (vreg_store (Mem:=Mem) Vt va n).
Proof. unfold vreg_store. quiet_tac. Qed.
Hint Resolve precise_do_load precise_vreg_load precise_vreg_store : precise.
Lemma precise_ldst_access insn va base wb : precise (ldst_access (Mem:=Mem) insn va base wb).
Proof. unfold ldst_access. precise_tac. Qed.
Lemma precise_ldst_atomic insn : precise (ldst_atomic (Mem:=Mem) insn).
Proof. unfold ldst_atomic, LSE_RMW, atomic_align_fault, atomic_trans_fault. precise_tac. Qed.
Hint Resolve precise_ldst_access precise_ldst_atomic : precise.
Lemma precise_ldst_register insn : precise (ldst_register (Mem:=Mem) insn).
Proof. unfold ldst_register, ldst_extended_offset. precise_tac. Qed.
Lemma precise_ldst_pair insn : precise (ldst_pair (Mem:=Mem) insn).
Proof. unfold ldst_pair, ldst_pair_access. precise_tac. Qed.
Lemma precise_ldst_literal insn : precise (ldst_literal (Mem:=Mem) insn).
Proof. unfold ldst_literal. precise_tac. Qed.
Lemma precise_ldst_exclusive insn : precise (ldst_exclusive (Mem:=Mem) insn).
Proof.
  unfold ldst_exclusive, ldst_cas, ldst_casp, ldst_ordered, ldxr, stxr, ldxp, stxp, set_monitor,
    monitor_hit, atomic_align_fault, atomic_trans_fault. precise_tac.
Qed.
Lemma precise_rcpc insn : precise (ldst_rcpc_unscaled (Mem:=Mem) insn).
Proof. unfold ldst_rcpc_unscaled. precise_tac. Qed.
Lemma quiet_lane_put vt off n t : quiet (lane_put (Mem:=Mem) vt off n t).
Proof. unfold lane_put. quiet_tac. Qed.
Lemma quiet_lane_get vt off n : quiet (lane_get (Mem:=Mem) vt off n).
Proof. unfold lane_get. quiet_tac. Qed.
Hint Resolve quiet_lane_put quiet_lane_get quiet_for_loop : precise.
Lemma precise_vector_post insn base total : precise (vector_post (Mem:=Mem) insn base total).
Proof. unfold vector_post. precise_tac. Qed.
Lemma precise_vector_multi insn : precise (ldst_vector_multi (Mem:=Mem) insn).
Proof.
  unfold ldst_vector_multi. destruct (vector_multi_shape _) as [[nregs sel]|]; [|precise_tac]. cbv zeta.
  apply precise_bind; [quiet_tac|intros base]. apply precise_bind; [|intros; apply precise_vector_post].
  destruct (sel =? 1).
  - apply quiet_for_loop. intros. unfold vector_multi_contig. quiet_tac.
  - apply quiet_bind.
    + destruct (BITb insn 22); [|apply quiet_ret]. apply quiet_for_loop. intros. apply quiet_set_v.
    + intros _. apply quiet_for_loop. intros. apply quiet_for_loop. intros.
      unfold vector_multi_elem. quiet_tac.
Qed.
Lemma precise_vector_single insn : precise (ldst_vector_single (Mem:=Mem) insn).
Proof.
  unfold ldst_vector_single. destruct (vector_single_shape _) as [[[rep eb] ix]|]; [|precise_tac]. cbv zeta.
  apply precise_bind; [quiet_tac|intros base]. apply precise_bind; [|intros; apply precise_vector_post].
  apply quiet_for_loop. intros. unfold vector_single_reg. quiet_tac.
Qed.

(** The encodings of the memory copy and set instructions, which update their
    registers as they progress and restart from there. *)
Definition mops_insn (insn : Z) : bool :=
  (BITS insn 29 27 =? 3) && (BITS insn 25 24 =? 1) && (BIT insn 21 =? 0) && (BITS insn 11 10 =? 1).

(** C26: a load or store other than the memory copy and set instructions
    ([mops_insn]), which advance their registers and restart from there, that
    takes an exception is restartable: the exception is recorded, the PC is
    back at the instruction, and no general register, stack pointer or flag
    has changed (no base-register writeback, no half of a register pair),
    whatever the addressing mode: register, pair, literal, exclusive and
    atomic, SIMD structure, RCpc. *)
Theorem loads_stores_precise insn (s s' : St Mem) : mops_insn insn = false ->
  loads_stores insn s = Fault s' -> restartable s s'.
Proof.
  intros Hm E. assert (Hp : precise (loads_stores (Mem:=Mem) insn)).
  2:{ specialize (Hp s). by rewrite E in Hp. }
  unfold loads_stores. cbv zeta. fold (mops_insn insn). rewrite Hm.
  repeat match goal with |- precise (if ?b then _ else _) => destruct b end;
    auto using precise_ldst_register, precise_ldst_pair, precise_ldst_literal, precise_ldst_exclusive,
      precise_vector_multi, precise_vector_single, precise_rcpc.
  apply quiet_precise, quiet_raise.
Qed.
End Handlers.

(** [ldp x0, x1, [x2], #16] with x2 outside memory: x2 keeps its value. *)
Lemma loads_stores_precise_witness :
  exists s', loads_stores 0xa8c10440 (flat_st [1; 2; 0x20000]) = Fault s' /\
    xval s' 2 = 0x20000 /\ c_pc (s_cpu s') = 0x1000.
Proof.
  destruct (loads_stores 0xa8c10440 (flat_st [1; 2; 0x20000])) as [a s'|s'|] eqn:E;
    [vm_compute in E; discriminate| |vm_compute in E; discriminate].
  pose proof (loads_stores_precise 0xa8c10440 (flat_st [1; 2; 0x20000]) s' eq_refl E)
    as ((Ex & _) & Hp & _).
  exists s'. split; [reflexivity|]. unfold xval. rewrite Ex, Hp. split; reflexivity.
Defined.
