(* ===== verification/El0.v ===== *)
(** * El0: user code stays in its level

    The privileged part of the CPU, the handlers that keep it when they start
    at EL0, and the EL0 gate in front of the system registers. *)

From S2P Require Import Prelude Types Cpu CpuWf MemSeam Alu DpExec Atomics Mops LdSt Sysreg Decode.
From S2P Require Import ExecSafe FlatMem.

(** ** What EL0 code must not change *)

(** The registers the gate opens only when EL1 says so: DAIF under
    SCTLR_EL1.UMA, the physical timer under CNTKCTL_EL1.EL0PTEN, the virtual
    one under CNTKCTL_EL1.EL0VTEN. While the bit is clear they count as
    privileged. *)
Definition gated (c : CPU) : list Z :=
  let r := c_sys c in
  (if has (nth 1 (r_sctlr r) 0) SCTLR_UMA then [] else [c_daif c]) ++
  (if has (r_cntkctl_el1 r) CNTK_EL0PTEN then [] else [r_cntp_ctl r; r_cntp_cval r]) ++
  (if has (r_cntkctl_el1 r) CNTK_EL0VTEN then [] else [r_cntv_ctl r; r_cntv_cval r]).
Definition priv (c : CPU) : Z * Z * list (list Z) * list Z * list Z * (bool * bool) :=
  (c_el c, c_sp_sel c,
   [r_sctlr (c_sys c); r_ttbr0 (c_sys c); r_ttbr1 (c_sys c); r_tcr (c_sys c); r_mair (c_sys c);
    r_amair (c_sys c); r_vbar (c_sys c); r_esr (c_sys c); r_far (c_sys c); r_elr (c_sys c);
    r_spsr (c_sys c); drop 1 (r_tpidr (c_sys c)); drop 1 (c_sp_el c)],
   [r_tpidrro_el0 (c_sys c); r_contextidr_el1 (c_sys c); r_cpacr_el1 (c_sys c);
    r_mdscr_el1 (c_sys c); r_par_el1 (c_sys c); r_mpidr (c_sys c); r_cntfrq (c_sys c);
    r_cntkctl_el1 (c_sys c)],
   gated c, (c_irq_line c, c_fiq_line c)).

Section Confined.
Context {Mem : Type} `{MemSeam Mem}.
Implicit Types s : St Mem.

(** From EL0, [m] leaves the privileged state as it was on every path. *)
Definition confined {A} (m : M (St Mem) A) : Prop := forall s, c_el (s_cpu s) = 0 ->
  match m s with Ok _ s' => priv (s_cpu s') = priv (s_cpu s)
               | Fault s' => priv (s_cpu s') = priv (s_cpu s) | UB => True end.

Lemma priv_el c c' : priv c' = priv c -> c_el c' = c_el c.
Proof. unfold priv. intros E. by injection E. Qed.
Lemma confined_bind {A B} (m : M (St Mem) A) (k : A -> M (St Mem) B) :
  confined m -> (forall a, confined (k a)) -> confined (bind m k).
Proof.
  intros Hm Hk s Hs. unfold bind. specialize (Hm s Hs). destruct (m s) as [a s1|s1|]; [|done..].
  specialize (Hk a s1). rewrite (priv_el _ _ Hm) in Hk. specialize (Hk Hs).
  destruct (k a s1); [by rewrite Hk..|done].
Qed.
(** A handler that starts by reading the state. *)
Lemma confined_getc {A B} (f : CPU -> A) (k : A -> M (St Mem) B) :
  (forall c, c_el c = 0 -> confined (k (f c))) -> confined (bind (getc f) k).
Proof. intros Hk s Hs. unfold bind, getc, gets. by apply (Hk (s_cpu s) Hs s). Qed.
Lemma confined_while {A B} p (body : A -> M (St Mem) (A + B)) a :
  (forall a, confined (body a)) -> confined (while p body a).
Proof.
  intros Hb. assert (Hr : forall b : B, confined (ret (S:=St Mem) (inr (A:=A) b))) by done.
  revert a. induction p as [q IH|q IH|]; intros a; cbn [while]; [| |apply Hb].
  - apply confined_bind; [apply Hb|]. intros [a'|b]; [|apply Hr].
    apply confined_bind; [apply IH|]. intros [a''|b]; [apply IH|apply Hr].
  - apply confined_bind; [apply IH|]. intros [a'|b]; [apply IH|apply Hr].
Qed.
Lemma confined_for_loop {A} n i (body : Z -> A -> M (St Mem) A) a :
  (forall i a, confined (body i a)) -> confined (for_loop n i body a).
Proof.
  intros Hb. revert i a. induction n as [|n IH]; intros i a; cbn [for_loop]; [by intros s|].
  apply confined_bind; [apply Hb|intros; apply IH].
Qed.

Lemma confined_ret {A} (a : A) : confined (ret a). Proof. by intros s. Qed.
Lemma confined_ub {A} : confined (A:=A) ub. Proof. by intros s. Qed.
Lemma confined_gets {A} (f : St Mem -> A) : confined (gets f). Proof. by intros s. Qed.
Lemma confined_getc0 {A} (f : CPU -> A) : confined (getc f). Proof. by intros s. Qed.
Lemma confined_upd_mem f : confined (modify (upd_mem f)). Proof. by intros s. Qed.
Lemma confined_upd_tls f : confined (modify (upd_tls f)). Proof. by intros s. Qed.
Lemma confined_raise {A} esr far : confined (A:=A) (fault (cpu_raise_sync esr far)). Proof. by intros s. Qed.
Lemma confined_dabort {A} va w p : confined (A:=A) (raise_dabort va w p). Proof. by intros s. Qed.
Lemma confined_putc f : (forall c, priv (f c) = priv c) -> confined (putc f).
Proof. intros Hf s Hs. apply Hf. Qed.
Lemma confined_reg_x n : confined (reg_x n).
Proof. intros s Hs. unfold reg_x. destruct (n =? 31); [done|]. by destruct (_ !! _). Qed.
Lemma confined_reg_xsp n : confined (reg_xsp n).
Proof. intros s Hs. unfold reg_xsp. destruct (n =? 31); by destruct (_ !! _). Qed.
Lemma confined_reg_v n : confined (reg_v n).
Proof. intros s Hs. unfold reg_v. by destruct (_ !! _). Qed.
Lemma confined_set_x n v : confined (set_x n v).
Proof. intros s Hs. unfold set_x. destruct (n =? 31); [done|]. by destruct (_ <? _)%nat. Qed.
Lemma confined_set_xsp n v : confined (set_xsp n v).
Proof.
  intros s Hs. unfold set_xsp. cbv zeta. destruct (n =? 31); [|by destruct (_ <? _)%nat].
  assert (E : cpu_cur_sp (s_cpu s) = 0%nat) by (unfold cpu_cur_sp; rewrite Hs; by destruct (_ =? 0)).
  rewrite E. destruct (_ <? _)%nat; [|done]. unfold priv, gated. simpl. by destruct (c_sp_el (s_cpu s)).
Qed.
Lemma confined_set_v n v : confined (set_v n v).
Proof. intros s Hs. unfold set_v. by destruct (_ <? _)%nat. Qed.
Lemma confined_bank_get f i : confined (bank_get f i).
Proof. intros s Hs. unfold bank_get. by destruct (_ !! _). Qed.
Lemma confined_translateM va need : confined (translateM va need).
Proof. intros s Hs. unfold translateM. by destruct (translate _ _ _ _). Qed.
Lemma confined_ld_le p n : confined (ld_le p n).
Proof. intros s Hs. unfold ld_le. by destruct (n <=? 8). Qed.
Lemma confined_st_le p n v : confined (st_le p n v).
Proof. intros s Hs. unfold st_le. by destruct (n <=? 8). Qed.
Lemma confined_mem_host_ptr va n acc : confined (mem_host_ptr va n acc).
Proof.
  intros s Hs. unfold mem_host_ptr. destruct (crosses va n); [done|].
  destruct (uaddr_tag_refused va (s_tls s)); [done|].
  unfold bind, translateM. by destruct (translate _ _ _ _).
Qed.
Lemma confined_mops_enabled : confined mops_enabled_ok.
Proof.
  intros s Hs. unfold mops_enabled_ok. cbv zeta. destruct (_ =? 0); [|done].
  destruct (_ !! _) as [v|]; [|done]. by destruct (_ =? 0).
Qed.
End Confined.

Create HintDb confined discriminated.
#[export] Hint Constants Opaque : confined.
#[export] Hint Resolve confined_ret confined_ub confined_gets confined_getc0 confined_upd_mem
  confined_upd_tls confined_raise confined_dabort confined_reg_x confined_reg_xsp confined_reg_v
  confined_set_x confined_set_xsp confined_set_v confined_bank_get confined_translateM
  confined_ld_le confined_st_le confined_mem_host_ptr confined_mops_enabled : confined.

Ltac confine :=
  cbv zeta;
  lazymatch goal with
  | |- confined (bind _ _) => apply confined_bind; [confine|intros; confine]
  | |- confined (if ?b then _ else _) => destruct b; confine
  | |- confined (match ?x with _ => _ end) => destruct x; confine
  | |- confined (putc _) => apply confined_putc; intros; reflexivity
  | |- confined undefined => apply confined_raise
  | |- confined (set_x_sz _ _ _) => apply confined_set_x
  | |- confined (while _ _ _) => apply confined_while; intros; confine
  | |- confined (for_loop _ _ _ _) => apply confined_for_loop; intros; confine
  | |- confined _ => solve [auto with confined]
  end.

Section Handlers.
Context {Mem : Type} `{MemSeam Mem} `{Hooks Mem}.
Notation Conf m := (confined (Mem:=Mem) m).

Lemma confined_mem_read va n : Conf (mem_read va n).
Proof. unfold mem_read, mem_read_page. confine. Qed.
Lemma confined_mem_write va n v : Conf (mem_write va n v).
Proof. unfold mem_write, mem_write_page. confine. Qed.
Hint Resolve confined_mem_read confined_mem_write : confined.
Lemma confined_mem_read128 va : Conf (mem_read128 va).
Proof. unfold mem_read128. confine. Qed.
Lemma confined_mem_write128 va v : Conf (mem_write128 va v).
Proof. unfold mem_write128. confine. Qed.
Hint Resolve confined_mem_read128 confined_mem_write128 : confined.
Lemma confined_at_cas n p e w : Conf (at_cas n p e w).
Proof. unfold at_cas, at_load, at_store. confine. Qed.
Hint Resolve confined_at_cas : confined.

Lemma confined_dp_immediate insn : Conf (dp_immediate insn).
Proof.
  unfold dp_immediate, dp_pcrel, dp_addsub_imm, dp_logical_imm, dp_movewide, dp_bitfield, dp_extract.
  confine.
Qed.
Lemma confined_dp_reg1 insn : Conf (dp_logical_reg insn) /\ Conf (dp_addsub_reg insn) /\
  Conf (dp_3source insn) /\ Conf (dp_addsub_carry insn).
Proof.
  unfold dp_logical_reg, dp_addsub_reg, dp_3source, dp_addsub_carry. split_and!; confine.
Qed.
Lemma confined_dp_reg2 insn : Conf (dp_condcmp insn) /\ Conf (dp_condsel insn) /\
  Conf (dp_1source insn) /\ Conf (dp_2source insn).
Proof. unfold dp_condcmp, dp_condsel, dp_1source, dp_2source. split_and!; confine. Qed.
Lemma confined_dp_register insn : Conf (dp_register insn).
Proof.
  destruct (confined_dp_reg1 insn) as (? & ? & ? & ?). destruct (confined_dp_reg2 insn) as (? & ? & ? & ?).
  unfold dp_register. cbv zeta. repeat match goal with |- confined (if ?b then _ else _) => destruct b end;
    auto; apply confined_raise.
Qed.

Lemma confined_vreg_load Vt va n : Conf (vreg_load Vt va n).
Proof. unfold vreg_load. confine. Qed.
Lemma confined_vreg_store Vt va n : Conf (vreg_store Vt va n).
Proof. unfold vreg_store. confine. Qed.
Lemma confined_do_load Rt va size opc : Conf (do_load Rt va size opc).
Proof. unfold do_load. confine. Qed.
Lemma confined_ldst_atomic insn : Conf (ldst_atomic insn).
Proof. unfold ldst_atomic, LSE_RMW, at_load, at_store, atomic_align_fault, atomic_trans_fault. confine. Qed.
Hint Resolve confined_vreg_load confined_vreg_store confined_do_load confined_ldst_atomic : confined.
Lemma confined_ldst insn : Conf (ldst_register insn) /\ Conf (ldst_pair insn) /\
  Conf (ldst_literal insn) /\ Conf (ldst_rcpc_unscaled insn).
Proof.
  unfold ldst_register, ldst_access, ldst_extended_offset, ldst_pair, ldst_pair_access, ldst_literal,
    ldst_rcpc_unscaled. split_and!; confine.
Qed.
Lemma confined_ldst_exclusive insn : Conf (ldst_exclusive insn).
Proof.
  unfold ldst_exclusive, ldst_cas, ldst_casp, ldst_ordered, ldxr, stxr, ldxp, stxp, set_monitor,
    monitor_hit, atomic_align_fault, atomic_trans_fault, at_load, at_store. confine.
Qed.
Lemma confined_vector insn : Conf (ldst_vector_multi insn) /\ Conf (ldst_vector_single insn).
Proof.
  unfold ldst_vector_multi, ldst_vector_single, vector_multi_contig, vector_multi_elem,
    vector_single_reg, vector_post, lane_get, lane_put. split_and!; confine.
Qed.
Lemma confined_loop_exit {A B} (r : A + B) : Conf (loop_exit r).
Proof. destruct r; [apply confined_ub|apply confined_ret]. Qed.
Hint Resolve confined_loop_exit : confined.
Lemma confined_mops insn : Conf (mops insn).
Proof.
  unfold mops, mops_set, mops_setp, setp_body, setm_body, mops_cpy, mops_cpyp, cpyp_fwd_body,
    cpyp_rev_body, cpym_body, mops_set_step, mops_copy_step, mop_exception. confine.
Qed.
Lemma confined_loads_stores insn : Conf (loads_stores insn).
Proof.
  destruct (confined_ldst insn) as (? & ? & ? & ?). pose proof (confined_ldst_exclusive insn). destruct (confined_vector insn).
  pose proof (confined_mops insn). unfold loads_stores. cbv zeta.
  repeat match goal with |- confined (if ?b then _ else _) => destruct b end; auto; apply confined_raise.
Qed.
End Handlers.

(** The parts outside the integer core keep out of the privileged state. *)
Class HooksConfined (Mem : Type) `{Hooks Mem} := {
  gt_count_confined virt : confined (Mem:=Mem) (gt_count virt);
  fpsr_sync_confined : confined (Mem:=Mem) fpsr_sync;
  exec_fpsimd_confined insn : confined (Mem:=Mem) (exec_fpsimd insn)
}.

(** Decide the closed key comparisons of a [switch]. *)
Ltac switch_step :=
  match goal with |- context [switch ?k ((?k', ?a) :: ?r) ?d] =>
    let v := eval vm_compute in (k =? k') in
    lazymatch v with
    | true => change (switch k ((k', a) :: r) d) with a
    | false => change (switch k ((k', a) :: r) d) with (switch k r d)
    end
  end.

Section Sys.
Context {Mem : Type} `{MemSeam Mem} `{HooksConfined Mem}.
Notation Conf m := (confined (Mem:=Mem) m).
Hint Resolve gt_count_confined fpsr_sync_confined exec_fpsimd_confined : confined.
Hint Resolve confined_mem_read confined_mem_write : confined.

Lemma confined_zva n i base : Conf (zva_loop n i base).
Proof. revert i. induction n as [|n IH]; intros i; cbn [zva_loop]; confine. Qed.
Hint Resolve confined_zva : confined.
Lemma confined_sys_op CRn CRm op2 Rt : Conf (sys_op CRn CRm op2 Rt).
Proof. unfold sys_op, flushM. confine. Qed.
Lemma confined_switch {A} key (cases : list (Z * M (St Mem) A)) d :
  Conf d -> Forall (fun c => Conf (snd c)) cases -> Conf (switch key cases d).
Proof.
  intros Hd Hc. induction Hc as [|[k a] l Ha _ IH]; [done|]. cbn [switch]. by destruct (key =? k).
Qed.
Lemma confined_mrs_value key : Conf (mrs_value key).
Proof.
  apply confined_switch; [apply confined_ret|]. unfold mrs_cases, sys_get.
  repeat (apply Forall_cons_2; [cbn [snd]; try confine|]); [|apply Forall_nil_2].
  intros s Hs. by destruct (_ !! _).
Qed.

(** *** Under the configuration the gate read *)
Definition config (sctlr kctl : Z) (c : CPU) : Prop := r_sctlr (c_sys c) !! 1%nat = Some sctlr /\ r_cntkctl_el1 (c_sys c) = kctl.
Lemma config_priv sctlr kctl c c' : priv c' = priv c -> config sctlr kctl c -> config sctlr kctl c'.
Proof.
  intros E. assert (E1 : r_sctlr (c_sys c') = r_sctlr (c_sys c)) by (unfold priv in E; congruence).
  assert (E2 : r_cntkctl_el1 (c_sys c') = r_cntkctl_el1 (c_sys c)) by (unfold priv in E; congruence). unfold config. by rewrite E1, E2.
Qed.
(** [confined] for a CPU of that configuration. *)
Definition confined_at {A} (sctlr kctl : Z) (m : M (St Mem) A) : Prop := forall s, c_el (s_cpu s) = 0 -> config sctlr kctl (s_cpu s) ->
  match m s with Ok _ s' => priv (s_cpu s') = priv (s_cpu s)
               | Fault s' => priv (s_cpu s') = priv (s_cpu s) | UB => True end.
Lemma confined_at_any {A} sctlr kctl (m : M (St Mem) A) : Conf m -> confined_at sctlr kctl m.
Proof. intros Hm s Hs _. by apply Hm. Qed.
Lemma confined_at_bind {A B} sctlr kctl (m : M (St Mem) A) (k : A -> M (St Mem) B) :
  Conf m -> (forall a, confined_at sctlr kctl (k a)) -> confined_at sctlr kctl (bind m k).
Proof.
  intros Hm Hk s Hs Hc. unfold bind. specialize (Hm s Hs). destruct (m s) as [a s1|s1|]; [|done..].
  assert (Hs1 : c_el (s_cpu s1) = 0) by (by rewrite (priv_el _ _ Hm)).
  specialize (Hk a s1 Hs1 (config_priv _ _ _ _ Hm Hc)). destruct (k a s1); [by rewrite Hk..|done].
Qed.
Lemma confined_at_putc sctlr kctl f : (forall c, config sctlr kctl c -> priv (f c) = priv c) -> confined_at sctlr kctl (putc f).
Proof. intros Hf s Hs Hc. by apply Hf. Qed.
(** Writes of what the configuration has opened. *)
Lemma daif_open sctlr kctl g : has sctlr SCTLR_UMA = true -> confined_at sctlr kctl (putc (fun c => with_daif (g c) c)).
Proof.
  intros Hu. apply confined_at_putc. intros c [E _]. unfold priv, gated. simpl. rewrite !(nth_lookup_Some _ _ _ _ E).
  by rewrite Hu.
Qed.
Ltac timer_open := lazymatch goal with Hb : has ?k _ = true |- confined_at _ ?k (putc _) =>
  apply confined_at_putc; intros c [_ E]; unfold priv, gated; cbn -[u64 has]; rewrite E, Hb; reflexivity end.

(** What [el0_allowed] lets an EL0 MSR write, and under which bit. *)
Definition el0_writable (sctlr kctl key : Z) : Prop :=
  In key [KEY 3 3 4 2 0; KEY 3 3 4 4 0; KEY 3 3 4 4 1; KEY 3 3 13 0 2] \/
  (has sctlr SCTLR_UMA = true /\ key = KEY 3 3 4 2 1) \/
  (has kctl CNTK_EL0PTEN = true /\ In key [KEY 3 3 14 2 0; KEY 3 3 14 2 1; KEY 3 3 14 2 2]) \/
  (has kctl CNTK_EL0VTEN = true /\ In key [KEY 3 3 14 3 0; KEY 3 3 14 3 1; KEY 3 3 14 3 2]).
Lemma el0_write_keys sctlr kctl op0 op1 CRn CRm op2 Rt : 2 <= op0 < 4 ->
  el0_allowed sctlr kctl false op0 op1 CRn CRm op2 Rt = true ->
  op0 = 3 /\ el0_writable sctlr kctl (KEY 3 op1 CRn CRm op2).
Proof.
  intros Ho. assert (op0 = 2 \/ op0 = 3) as [-> | ->] by lia; [done|]. unfold el0_allowed.
  generalize (KEY 3 op1 CRn CRm op2). intros key Ha. split; [done|]. unfold el0_writable.
  cbn [switch andb] in Ha. revert Ha.
  repeat match goal with |- (if key =? ?k then _ else _) = true -> _ =>
    destruct (Z.eqb_spec key k) as [-> |]; [intros Ha; first [discriminate | cbn [In]; tauto]|] end.
  discriminate.
Qed.
Lemma confined_bank_set0 v : Conf (bank_set r_tpidr with_tpidr 0 v).
Proof.
  intros s Hs. unfold bank_set. destruct (_ <? _)%nat; [|done]. unfold priv, gated. simpl.
  by destruct (r_tpidr (c_sys (s_cpu s))).
Qed.
Hint Resolve confined_bank_set0 : confined.
Lemma confined_msr sctlr kctl key v : el0_writable sctlr kctl key -> confined_at sctlr kctl (switch key (msr_cases v) (ret tt)).
Proof.
  intros [Hk|[[Hb ->]|[[Hb Hk]|[Hb Hk]]]]; unfold msr_cases, sys_set, flushM.
  - apply confined_at_any. repeat (destruct Hk as [<- |Hk]; [repeat switch_step; confine|]). destruct Hk.
  - repeat switch_step. by apply (daif_open sctlr kctl (fun _ => _)).
  - repeat (destruct Hk as [<- |Hk]; [repeat switch_step; try (apply confined_at_bind; [apply gt_count_confined|intros n]); timer_open|]). done.
  - repeat (destruct Hk as [<- |Hk]; [repeat switch_step; try (apply confined_at_bind; [apply gt_count_confined|intros n]); timer_open|]). done.
Qed.

Lemma confined_msr_immediate insn sctlr kctl (L : bool) op0 CRn CRm Rt :
  op0 = 0 ->
  el0_allowed sctlr kctl L op0 (Z.land (Z.shiftr insn 16) 7) CRn CRm (Z.land (Z.shiftr insn 5) 7) Rt = true ->
  confined_at sctlr kctl (msr_immediate insn).
Proof.
  intros -> Ha. unfold msr_immediate. cbv zeta. revert Ha. unfold el0_allowed.
  set (op1 := Z.land (Z.shiftr insn 16) 7). set (op2 := Z.land (Z.shiftr insn 5) 7).
  destruct (L || _ || _); [done|]. intros Ha.
  assert ((op1 =? 0) && (op2 =? 5) = false) as ->.
  { destruct (Z.eqb_spec op1 0) as [E|]; [|done]. rewrite E in Ha. cbn [Z.eqb Pos.eqb andb] in *.
    destruct (Z.eqb_spec op2 5) as [E2|]; [|done]. rewrite E2 in Ha.
    by destruct (CRm =? 0). }
  assert (Hd : (op1 =? 3) && ((op2 =? 6) || (op2 =? 7)) = true -> has sctlr SCTLR_UMA = true).
  { intros E. rewrite E in Ha. destruct (Z.eqb_spec op1 0) as [E1|]; [rewrite E1 in E; done|done]. }
  apply confined_at_bind; [apply confined_getc0|intros nzcv].
  do 3 (match goal with |- confined_at _ _ (if ?b then _ else _) => destruct b end; [apply confined_at_any; confine|]).
  destruct (op1 =? 3); cbn [andb] in *; [|apply confined_at_any; confine].
  destruct (op2 =? 6); [apply daif_open; auto|]. destruct (op2 =? 7); [apply daif_open; auto|apply confined_at_any; confine].
Qed.

Lemma confined_sysreg_exec insn : Conf (sysreg_exec insn).
Proof.
  unfold sysreg_exec. cbv zeta.
  set (L := negb _). set (op0 := Z.land (Z.shiftr insn 19) 3). set (op1 := Z.land (Z.shiftr insn 16) 7).
  set (CRn := Z.land (Z.shiftr insn 12) 0xf). set (CRm := Z.land (Z.shiftr insn 8) 0xf).
  set (op2 := Z.land (Z.shiftr insn 5) 7). set (Rt := Z.land insn 0x1f).
  assert (Ho : 0 <= op0 < 4).
  { unfold op0. change 3 with (Z.ones 2). rewrite Z.land_ones by lia. by apply Z.mod_pos_bound. }
  set (body := (if op0 =? 0 then msr_immediate insn else _) : M (St Mem) unit).
  assert (Hbody : forall sctlr kctl, el0_allowed sctlr kctl L op0 op1 CRn CRm op2 Rt = true -> confined_at sctlr kctl body).
  { intros sctlr kctl Ha. unfold body. destruct (Z.eqb_spec op0 0) as [E0|].
    { by apply (confined_msr_immediate insn sctlr kctl L op0 CRn CRm Rt E0). }
    destruct (Z.eqb_spec op0 1); [apply confined_at_any; destruct (negb L); [apply confined_sys_op|apply confined_set_x]|].
    destruct L.
    - apply confined_at_any. unfold do_mrs. apply confined_bind; [apply confined_mrs_value|intros; apply confined_set_x].
    - apply el0_write_keys in Ha as [E3 Hk]; [|lia]. rewrite E3. unfold do_msr.
      apply confined_at_bind; [apply confined_reg_x|intros v]. by apply confined_msr. }
  clearbody body. intros s Hs. unfold bind at 1. unfold el0_gate, bind at 1, getc at 1, gets at 1.
  rewrite Hs. cbn [Z.eqb].
  unfold bind at 1, bank_get. destruct (r_sctlr _ !! _) as [sctlr|] eqn:Esc; [|done].
  unfold bind at 1, sys_get, getc at 1, gets at 1.
  destruct (el0_allowed sctlr _ L op0 op1 CRn CRm op2 Rt) eqn:Ea; [|done]. unfold ret.
  by apply (Hbody _ _ Ea s Hs).
Qed.
Hint Resolve confined_sysreg_exec : confined.

(** Two reads of an entry that ERET makes only above EL0. *)
Lemma confined_branch_reg insn : Conf (branch_reg insn).
Proof.
  unfold branch_reg. cbv zeta. apply confined_bind; [apply confined_reg_x|intros tgt].
  assert (Heret : Conf (bind (getc c_el) (fun el => if el =? 0 then undefined else
    bind (bank_get r_spsr el) (fun spsr => bind (bank_get r_elr el) (fun elr =>
      bind (putc (cpu_unpack_spsr (u32 spsr))) (fun _ => putc (with_pc elr))))))).
  { apply confined_getc. intros c Hc. rewrite Hc. apply confined_raise. }
  destruct (BITS insn 24 21) as [|p|p]; [confine| |confine].
  repeat (destruct p as [p|p|]; [try confine..|]); try confine; assumption.
Qed.
Hint Resolve confined_branch_reg : confined.
Lemma confined_take {A} esr far r : Conf (fault (A:=A) (exception_take esr far r)).
Proof. by intros s. Qed.
Hint Resolve confined_take : confined.
Lemma confined_exception_gen insn : Conf (exception_gen insn).
Proof. unfold exception_gen. confine. Qed.
Hint Resolve confined_exception_gen : confined.
Lemma confined_branch_system insn : Conf (branch_system insn).
Proof. unfold branch_system, branch_to, reg_x_sz. confine. Qed.

Lemma confined_exec_a64 insn : Conf (exec_a64 insn).
Proof.
  pose proof (confined_dp_immediate insn (Mem:=Mem)) as P1. pose proof (confined_branch_system insn) as P2.
  pose proof (confined_loads_stores insn (Mem:=Mem)) as P3. pose proof (confined_dp_register insn (Mem:=Mem)) as P4.
  pose proof (exec_fpsimd_confined insn) as P5.
  assert (P6 : Conf (undefined (A:=unit))) by apply confined_raise.
  unfold exec_a64. destruct (Z.land (Z.shiftr insn 25) 0xf) as [|p|p]; [done| |done].
  do 4 (destruct p as [p|p|]; try assumption).
Qed.

End Sys.

#[export] Instance flat_hooks_confined : HooksConfined FlatMem.
Proof. by constructor. Qed.
