(* ===== verification/CryptoThms.v ===== *)
(** * CryptoThms: the cryptographic instructions against their standards

    AES against FIPS 197 (the S-box from its field inverse and affine map,
    ShiftRows on the state matrix, MixColumns over GF(2^8)), SHA-256 against
    FIPS 180-4, and PMULL against the product of polynomials over GF(2). *)

From Stdlib Require Import ZifyNat ZifyBool.
From S2P Require Import Prelude Types Cpu CpuWf Simd SimdExec Crypto SimdLanes SimdSafe FlatMem.

(** ** Polynomials over GF(2) *)

(** The parity of [f i], ..., [f (i + n - 1)]. *)
Fixpoint parity (n : nat) (i : Z) (f : Z -> bool) : bool :=
  match n with O => false | S k => xorb (f i) (parity k (i + 1) f) end.
(** Coefficient [k] of the product of [a], of degree below [n], and [b]. *)
Definition poly_coeff (n : nat) (a b k : Z) : bool :=
  parity n 0 (fun i => Z.testbit a i && Z.testbit b (k - i)).

Lemma land_shiftr_1 a i : 0 <= i -> (Z.land (Z.shiftr a i) 1 =? 0) = negb (Z.testbit a i).
Proof.
  intros Hi. change 1 with (Z.ones 1). rewrite Z.land_ones by lia. change (2 ^ 1) with 2.
  rewrite <- Z.bit0_mod, Z.shiftr_spec by lia. rewrite Z.add_0_l. by destruct (Z.testbit a i).
Qed.

(** [pmull64] keeps the product in two doublewords. *)
Lemma pmull64_loop_bits n i a b rl rh : fits 64 b -> 0 <= i -> i + Z.of_nat n <= 64 ->
  let '(lo, hi) := pmull64_loop n i a b rl rh in forall k, 0 <= k < 64 ->
  Z.testbit lo k = xorb (Z.testbit rl k) (parity n i (fun j => Z.testbit a j && Z.testbit b (k - j))) /\
  Z.testbit hi k = xorb (Z.testbit rh k) (parity n i (fun j => Z.testbit a j && Z.testbit b (k + 64 - j))).
Proof.
  intros Hb. revert i rl rh. induction n as [|n IH]; intros i rl rh Hi Hn; cbn [pmull64_loop].
  - intros k Hk. cbn [parity]. by rewrite !xorb_false_r.
  - rewrite land_shiftr_1 by done.
    set (rl' := Z.lxor rl (u64 (Z.shiftl b i))).
    set (rh' := if i =? 0 then rh else Z.lxor rh (Z.shiftr b (64 - i))).
    destruct (Z.testbit a i) eqn:Ea; cbn [negb].
    + specialize (IH (i + 1) rl' rh' ltac:(lia) ltac:(lia)).
      destruct (pmull64_loop n (i + 1) a b rl' rh') as [lo hi]. intros k Hk.
      destruct (IH k Hk) as [-> ->]. cbn [parity]. rewrite Ea. cbn [andb]. split.
      * subst rl'. unfold u64. rewrite Z.lxor_spec, Z.mod_pow2_bits_low, Z.shiftl_spec by lia.
        by rewrite xorb_assoc.
      * rewrite <- xorb_assoc. f_equal. subst rh'. destruct (Z.eqb_spec i 0) as [->|].
        -- rewrite (fits_testbit 64 b (k + 64 - 0)) by (done || lia). by rewrite xorb_false_r.
        -- rewrite Z.lxor_spec, Z.shiftr_spec by lia. do 2 f_equal. lia.
    + specialize (IH (i + 1) rl rh ltac:(lia) ltac:(lia)).
      destruct (pmull64_loop n (i + 1) a b rl rh) as [lo hi]. intros k Hk.
      destruct (IH k Hk) as [-> ->]. cbn [parity]. by rewrite Ea.
Qed.
Lemma pmull64_bits a b k : fits 64 b -> 0 <= k < 128 ->
  Z.testbit (v_mk (fst (pmull64 a b)) (snd (pmull64 a b))) k = poly_coeff 64 a b k.
Proof.
  intros Hb Hk. pose proof (pmull64_loop_bits 64 0 a b 0 0 Hb ltac:(lia) ltac:(lia)) as H.
  unfold pmull64. destruct (pmull64_loop _ _ _ _ _ _) as [lo hi]. rewrite v_mk_bits by lia. cbn [fst snd].
  destruct (Z.ltb_spec k 64).
  - destruct (H k) as [-> _]; [lia|]. by rewrite Z.bits_0, xorb_false_l.
  - rewrite (proj2 (Z.ltb_lt k 128)) by lia. destruct (H (k - 64)) as [_ ->]; [lia|].
    rewrite Z.bits_0, xorb_false_l. unfold poly_coeff.
    replace (k - 64 + 64) with k by lia. done.
Qed.
Lemma pmull8_loop_bits n i a b r k : fits 8 b -> 0 <= i -> i + Z.of_nat n <= 8 -> 0 <= k < 16 ->
  Z.testbit (pmull8_loop n i a b r) k =
  xorb (Z.testbit r k) (parity n i (fun j => Z.testbit a j && Z.testbit b (k - j))).
Proof.
  intros Hb. revert i r. induction n as [|n IH]; intros i r Hi Hn Hk; cbn [pmull8_loop parity].
  - by rewrite xorb_false_r.
  - rewrite land_shiftr_1, IH by lia. rewrite <- xorb_assoc. f_equal.
    destruct (Z.testbit a i); cbn [negb andb]; [|by rewrite xorb_false_r].
    unfold u16. by rewrite Z.lxor_spec, Z.mod_pow2_bits_low, Z.shiftl_spec by lia.
Qed.
Lemma pmull8_bits a b k : fits 8 b -> 0 <= k < 16 -> Z.testbit (pmull8 a b) k = poly_coeff 8 a b k.
Proof. intros. unfold pmull8. rewrite pmull8_loop_bits by (done || lia). by rewrite Z.bits_0, xorb_false_l. Qed.

(** ** SHA-256 as FIPS 180-4 states it *)
Definition Rotr (n x : Z) : Z := Z.lor (Z.shiftr x n) (Z.shiftl x (32 - n) mod 2 ^ 32).
Definition Ch (x y z : Z) : Z := Z.lxor (Z.land x y) (Z.ldiff z x).
Definition Maj (x y z : Z) : Z := Z.lxor (Z.lxor (Z.land x y) (Z.land x z)) (Z.land y z).
Definition Sigma0 (x : Z) : Z := Z.lxor (Z.lxor (Rotr 2 x) (Rotr 13 x)) (Rotr 22 x).
Definition Sigma1 (x : Z) : Z := Z.lxor (Z.lxor (Rotr 6 x) (Rotr 11 x)) (Rotr 25 x).
Definition sigma0 (x : Z) : Z := Z.lxor (Z.lxor (Rotr 7 x) (Rotr 18 x)) (Z.shiftr x 3).
Definition sigma1 (x : Z) : Z := Z.lxor (Z.lxor (Rotr 17 x) (Rotr 19 x)) (Z.shiftr x 10).

(** One round on the working variables a, ..., h; [kw] is K_t + W_t. *)
Definition fips_round (st : list Z) (kw : Z) : list Z :=
  match st with
  | [a; b; c; d; e; f; g; h] =>
      let T1 := h + Sigma1 e + Ch e f g + kw in
      let T2 := Sigma0 a + Maj a b c in
      [(T1 + T2) mod 2 ^ 32; a; b; c; (d + T1) mod 2 ^ 32; e; f; g]
  | _ => st
  end.
(** The message schedule: from W_(t-16), ..., W_(t-1) to W_t, and one step of
    that window. *)
Definition fips_word (ws : list Z) : Z :=
  match ws with
  | [w0; w1; _; _; _; _; _; _; _; w9; _; _; _; _; w14; _] =>
      (sigma1 w14 + w9 + sigma0 w1 + w0) mod 2 ^ 32
  | _ => 0
  end.
Definition fips_slide (ws : list Z) : list Z := tail ws ++ [fips_word ws].

(** The four words of a register, low to high. *)
Definition words (v : V128) : list Z := [s_of v 0; s_of v 1; s_of v 2; s_of v 3].

Lemma s_of_v_of_s a b c d : s_of (v_of_s a b c d) 0 = u32 a /\ s_of (v_of_s a b c d) 1 = u32 b /\
  s_of (v_of_s a b c d) 2 = u32 c /\ s_of (v_of_s a b c d) 3 = u32 d.
Proof.
  assert (lane_w 32) by (unfold lane_w; tauto). unfold s_of, v_of_s.
  by repeat split; rewrite !vget_vset by (done || lia).
Qed.
Lemma words_v_of_s a b c d : words (v_of_s a b c d) = [u32 a; u32 b; u32 c; u32 d].
Proof. unfold words. by destruct (s_of_v_of_s a b c d) as (-> & -> & -> & ->). Qed.
Lemma fits_s_of v i : fits 32 (s_of v i).
Proof. by apply fits_vget. Qed.

Lemma ror32_Rotr x n : 0 < n < 32 -> ror32 x n = Rotr n x.
Proof.
  intros Hn. unfold ror32, Rotr. change 31 with (Z.ones 5). rewrite Z.land_ones by lia.
  rewrite (Z.mod_small n) by lia. by rewrite (proj2 (Z.eqb_neq n 0)) by lia.
Qed.
Lemma sha_ch_Ch x y z : fits 32 z -> sha_ch x y z = Ch x y z.
Proof.
  intros Hz. unfold sha_ch, Ch. f_equal. apply Z.bits_inj'. intros i Hi.
  rewrite Z.land_spec, Z.ldiff_spec. unfold not32, u32. destruct (Z.lt_ge_cases i 32).
  - rewrite Z.mod_pow2_bits_low, Z.lnot_spec by lia. apply andb_comm.
  - rewrite (fits_testbit 32 z i) by (done || lia). by rewrite andb_false_r.
Qed.
Lemma sha256_sigmas x : sha256_bsig0 x = Sigma0 x /\ sha256_bsig1 x = Sigma1 x /\
  sha256_ssig0 x = sigma0 x /\ sha256_ssig1 x = sigma1 x.
Proof.
  unfold sha256_bsig0, sha256_bsig1, sha256_ssig0, sha256_ssig1.
  by rewrite !ror32_Rotr by lia.
Qed.

(** One pass of the loop of [sha256_hash] is a round. *)
Lemma sha256_round_fips w xy :
  words (fst (sha256_round w xy)) ++ words (snd (sha256_round w xy)) =
  fips_round (words (fst xy) ++ words (snd xy)) w.
Proof.
  destruct xy as [x y]. cbn [sha256_round fst snd]. rewrite !words_v_of_s. unfold words. cbn [app fips_round].
  destruct (sha256_sigmas (s_of x 0)) as (-> & _). destruct (sha256_sigmas (s_of y 0)) as (_ & -> & _).
  rewrite sha_ch_Ch by apply fits_s_of. fold (Maj (s_of x 0) (s_of x 1) (s_of x 2)).
  rewrite !(u32_small (s_of _ _)) by apply fits_s_of. unfold sha_maj, Maj.
  set (T1 := s_of y 3 + _ + _ + w).
  assert (forall z, u32 (u32 (u32 T1 + z)) = (T1 + z) mod 2 ^ 32) as Hm.
  { intros z. rewrite u32_u32. unfold u32. by rewrite Z.add_mod_idemp_l by lia. }
  rewrite <- Z.add_assoc, !Hm. by rewrite (Z.add_comm T1 (s_of x 3)).
Qed.

Lemma sha256_loop_fips w es xy :
  let r := fold_left (fun xy e => sha256_round (s_of w e) xy) es xy in
  words (fst r) ++ words (snd r) =
  fold_left fips_round (map (s_of w) es) (words (fst xy) ++ words (snd xy)).
Proof.
  revert xy. induction es as [|e es IH]; intros xy; [done|]. cbv zeta in IH |- *.
  cbn [fold_left map]. by rewrite IH, sha256_round_fips.
Qed.
Lemma sha256_hash_fips x y w :
  words (sha256_hash x y w true) ++ words (sha256_hash x y w false) =
  fold_left fips_round (words w) (words x ++ words y).
Proof. apply (sha256_loop_fips w [0; 1; 2; 3] (x, y)). Qed.
(** SHA256SU0 then SHA256SU1 slide the schedule by four words. *)
Lemma sha256_su_fips w0 w4 w8 w12 :
  words w4 ++ words w8 ++ words w12 ++ words (sha256_su1 (sha256_su0 w0 w4) w8 w12) =
  fips_slide (fips_slide (fips_slide (fips_slide (words w0 ++ words w4 ++ words w8 ++ words w12)))).
Proof.
  unfold sha256_su1. rewrite words_v_of_s, !u32_u32. unfold sha256_su0.
  destruct (s_of_v_of_s (u32 (sha256_ssig0 (s_of w0 1) + s_of w0 0)) (u32 (sha256_ssig0 (s_of w0 2) + s_of w0 1))
    (u32 (sha256_ssig0 (s_of w0 3) + s_of w0 2)) (u32 (sha256_ssig0 (s_of w4 0) + s_of w0 3))) as (-> & -> & -> & ->).
  rewrite !u32_u32. unfold words, fips_slide. cbn [app tail fips_word].
  assert (forall a b c d, u32 (sha256_ssig1 a + u32 (sha256_ssig0 b + c) + d) =
    (sigma1 a + d + sigma0 b + c) mod 2 ^ 32) as Hw.
  { intros a b c d. destruct (sha256_sigmas a) as (_ & _ & _ & ->). destruct (sha256_sigmas b) as (_ & _ & -> & _).
    unfold u32. rewrite Z.add_shuffle0, Z.add_mod_idemp_r by lia. f_equal. lia. }
  by rewrite !Hw.
Qed.

Section Insns.
Context {Mem : Type}.
Implicit Types s : St Mem.

Ltac run_v := run1 ltac:(apply reg_v_ok; [assumption|by apply reg_field]).
Ltac run_el := run1 ltac:(apply el_run; [unfold lane_w; tauto|]).

Lemma pmull_long insn s : st_wf s -> BITS insn 23 22 = 0 ->
  let q := if BITb insn 30 then 8 else 0 in
  exists r, crypto_pmull insn s = Ok tt (setv (BITS insn 4 0) r s) /\ fits 128 r /\
    forall j, 0 <= j < 8 -> vget 16 r j =
      pmull8 (vget 8 (vval s (BITS insn 9 5)) (q + j)) (vget 8 (vval s (BITS insn 20 16)) (q + j)) mod 2 ^ 16.
Proof.
  intros Hs Hsz q. unfold crypto_pmull. cbv zeta. rewrite Hsz. cbn [Z.eqb Pos.eqb].
  set (g := fun j => pmull8 (vget 8 (vval s (BITS insn 9 5)) (q + j)) (vget 8 (vval s (BITS insn 20 16)) (q + j))).
  exists (vfill 16 0 8 0 0 g). assert (lane_w 16 /\ lane_w 8) as [? ?] by (unfold lane_w; tauto).
  assert (fits 128 (vfill 16 0 8 0 0 g)) by (apply fits_vfill; [done|lia|lia|done|done]).
  split; [|split; [done|]].
  - do 2 run_v. run1 ltac:(apply (fill_run 16 8 0 0 _ g (fun _ => false)); [done|lia|lia|done|]).
    + rewrite anyq_false. apply set_v_run; [done|by apply reg_field].
    + intros j s' Hj. unfold bind, ret. rewrite !el_run; [done|done| |done|];
        (change (128 / 8) with 16; subst q; case_match; lia).
  - intros j Hj. rewrite vfill_vget by (done || lia). rewrite (proj2 (andb_true_iff _ _)) by lia.
    unfold g. by rewrite Z.sub_0_r.
Qed.

(** C11: PMULL and PMULL2 multiply polynomials over GF(2): the 64-bit form gives
    the 128-bit product of the chosen doublewords, the 8-bit form the eight
    16-bit products of the chosen bytes, coefficient by coefficient; no other
    register, flag or byte changes. *)
Theorem pmull_product insn s : st_wf s -> BITS insn 23 22 = 3 \/ BITS insn 23 22 = 0 ->
  let q := b2z (BITb insn 30) in
  let n := vval s (BITS insn 9 5) in let m := vval s (BITS insn 20 16) in
  exists r, crypto_pmull insn s = Ok tt (setv (BITS insn 4 0) r s) /\ fits 128 r /\
    (BITS insn 23 22 = 3 -> forall k, 0 <= k < 128 ->
       Z.testbit r k = poly_coeff 64 (vget 64 n q) (vget 64 m q) k) /\
    (BITS insn 23 22 = 0 -> forall j k, 0 <= j < 8 -> 0 <= k < 16 ->
       Z.testbit (vget 16 r j) k = poly_coeff 8 (vget 8 n (8 * q + j)) (vget 8 m (8 * q + j)) k).
Proof.
  intros Hs [Hsz|Hsz] q n m; rewrite Hsz.
  - exists (v_mk (fst (pmull64 (vget 64 n q) (vget 64 m q))) (snd (pmull64 (vget 64 n q) (vget 64 m q)))).
    split; [|split; [apply fits_v128_mk|split; [|done]]].
    + unfold crypto_pmull. cbv zeta. rewrite Hsz. cbn [Z.eqb Pos.eqb]. fold q.
      pose proof (b2z_range (BITb insn 30)). assert (lane_w 64) by (unfold lane_w; tauto).
      assert (0 <= q < 128 / 64) by (subst q; change (128 / 64) with 2; lia).
      do 2 run_v. fold n m. do 2 (run_el; [|done]). destruct (pmull64 _ _). cbn [fst snd]. apply set_v_run; [done|by apply reg_field].
    + intros _ k Hk. apply pmull64_bits; [by apply fits_vget|done].
  - destruct (pmull_long insn s Hs Hsz) as (r & Hr & Hf & Hl). exists r.
    split; [done|split; [done|split; [done|]]]. intros _ j k Hj Hk. rewrite Hl by done.
    rewrite Z.mod_pow2_bits_low by lia. replace (8 * q) with (if BITb insn 30 then 8 else 0)
      by (subst q; by destruct (BITb insn 30)).
    apply pmull8_bits; [by apply fits_vget|done].
Qed.

(** C14: SHA256H followed by SHA256H2 on the same schedule words runs four rounds
    of FIPS 180-4: with a..d in X, e..h in Y and a copy of X kept for the
    second instruction, X and Y afterwards hold the eight working variables
    after the rounds for the four K_t + W_t words of W. *)
Theorem sha256_rounds h h2 s :
  let X := BITS h 4 0 in let Y := BITS h 9 5 in let W := BITS h 20 16 in let T := BITS h2 9 5 in
  st_wf s -> BITS h 14 12 = 4 -> BITS h2 14 12 = 5 -> BITS h2 4 0 = Y -> BITS h2 20 16 = W ->
  X <> Y -> X <> W -> X <> T -> vval s T = vval s X ->
  exists s1 s2, crypto_sha3 h s = Ok tt s1 /\ crypto_sha3 h2 s1 = Ok tt s2 /\
    words (vval s2 X) ++ words (vval s2 Y) =
    fold_left fips_round (words (vval s W)) (words (vval s X) ++ words (vval s Y)).
Proof.
  intros X Y W T Hs H4 H5 HY HW XY XW XT HT.
  assert (0 <= X < 32 /\ 0 <= Y < 32 /\ 0 <= W < 32 /\ 0 <= T < 32) as (? & ? & ? & ?)
    by (repeat split; by apply reg_field).
  set (r := sha256_hash (vval s X) (vval s Y) (vval s W) true).
  assert (Hs1 : st_wf (setv X r s)) by (apply setv_wf; [done|apply fits_sha256_hash]).
  eexists _, _. repeat split.
  - unfold crypto_sha3. cbv zeta. rewrite H4. do 3 run_v. fold X Y W. by apply set_v_run.
  - unfold crypto_sha3. cbv zeta. rewrite H5, HY, HW. fold T.
    do 3 run1 ltac:(apply reg_v_ok; done). by apply set_v_run.
  - fold r. rewrite !vval_setv by done. rewrite !Z.eqb_refl, (proj2 (Z.eqb_neq Y X)) by done.
    rewrite !(proj2 (Z.eqb_neq X _)) by done. rewrite HT. apply sha256_hash_fips.
Qed.

(** SHA256SU0 followed by SHA256SU1 extends the message schedule of
    FIPS 180-4: from the sixteen words of four registers the destination gets
    the next four. *)
Theorem sha256_schedule u0 u1 s :
  let A := BITS u0 4 0 in let B := BITS u0 9 5 in let C := BITS u1 9 5 in let D := BITS u1 20 16 in
  st_wf s -> BITS u0 16 12 = 2 -> BITS u1 14 12 = 6 -> BITS u1 4 0 = A -> A <> C -> A <> D ->
  exists s1 s2, crypto_sha2 u0 s = Ok tt s1 /\ crypto_sha3 u1 s1 = Ok tt s2 /\
    words (vval s B) ++ words (vval s C) ++ words (vval s D) ++ words (vval s2 A) =
    fips_slide (fips_slide (fips_slide (fips_slide
      (words (vval s A) ++ words (vval s B) ++ words (vval s C) ++ words (vval s D))))).
Proof.
  intros A B C D Hs H2 H6 HA AC AD.
  assert (0 <= A < 32 /\ 0 <= B < 32 /\ 0 <= C < 32 /\ 0 <= D < 32) as (? & ? & ? & ?)
    by (repeat split; by apply reg_field).
  set (r := sha256_su0 (vval s A) (vval s B)).
  assert (Hs1 : st_wf (setv A r s)) by (apply setv_wf; [done|apply fits_v_of_s]).
  eexists _, _. repeat split.
  - unfold crypto_sha2. cbv zeta. rewrite H2. do 2 run_v. fold A B. by apply set_v_run.
  - unfold crypto_sha3. cbv zeta. rewrite H6, HA. fold C D.
    do 3 run1 ltac:(apply reg_v_ok; done). by apply set_v_run.
  - fold r. rewrite !vval_setv by done. rewrite !Z.eqb_refl.
    rewrite !(proj2 (Z.eqb_neq A _)) by done. apply sha256_su_fips.
Qed.
End Insns.

(** Registers for the instances: V0 and its copy V3 hold a..d of the SHA-256
    initial state, V1 e..h, V2 and V4 to V7 words of a schedule. *)
Definition sha_st : St FlatMem :=
  fold_left (fun s nv => setv (fst nv) (snd nv) s)
    [(0, 0xa54ff53a3c6ef372bb67ae856a09e667); (3, 0xa54ff53a3c6ef372bb67ae856a09e667);
     (1, 0x5be0cd191f83d9ab9b05688c510e527f); (2, 0xe9b5dba5b5c0fbcf71374491a3ec9318);
     (4, 0x61626380); (5, 0); (6, 0); (7, 0x00000018000000000000000000000000)] (flat_st []).
Lemma sha_st_wf : st_wf sha_st.
Proof. repeat apply setv_wf; [by apply flat_st_wf|by vm_compute..]. Qed.

Lemma pmull_product_witness : exists r, crypto_pmull 0x0ee2e020 sha_st = Ok tt (setv 0 r sha_st) /\
  Z.testbit r 5 = poly_coeff 64 0x9b05688c510e527f 0x71374491a3ec9318 5.
Proof.
  destruct (pmull_product 0x0ee2e020 sha_st sha_st_wf (or_introl eq_refl)) as (r & Hr & _ & H3 & _).
  exists r. split; [exact Hr|]. rewrite (H3 eq_refl 5) by lia. by vm_compute.
Defined.
Lemma sha256_rounds_witness : exists s1 s2, crypto_sha3 0x5e024020 sha_st = Ok tt s1 /\
  crypto_sha3 0x5e025061 s1 = Ok tt s2 /\
  words (vval s2 0) ++ words (vval s2 1) =
  fold_left fips_round [0xa3ec9318; 0x71374491; 0xb5c0fbcf; 0xe9b5dba5]
    [0x6a09e667; 0xbb67ae85; 0x3c6ef372; 0xa54ff53a; 0x510e527f; 0x9b05688c; 0x1f83d9ab; 0x5be0cd19].
Proof.
  destruct (sha256_rounds 0x5e024020 0x5e025061 sha_st sha_st_wf eq_refl eq_refl eq_refl eq_refl
    ltac:(by vm_compute) ltac:(by vm_compute) ltac:(by vm_compute) eq_refl) as (s1 & s2 & R1 & R2 & Hw).
  exists s1, s2. split; [exact R1|split; [exact R2|]]. etransitivity; [exact Hw|]. by vm_compute.
Defined.
Lemma sha256_schedule_witness : exists s1 s2, crypto_sha2 0x5e2828a4 sha_st = Ok tt s1 /\
  crypto_sha3 0x5e0760c4 s1 = Ok tt s2 /\
  words (vval s2 4) = drop 12 (fips_slide (fips_slide (fips_slide (fips_slide
    [0x61626380; 0; 0; 0; 0; 0; 0; 0; 0; 0; 0; 0; 0; 0; 0; 0x18])))).
Proof.
  destruct (sha256_schedule 0x5e2828a4 0x5e0760c4 sha_st sha_st_wf eq_refl eq_refl eq_refl
    ltac:(by vm_compute) ltac:(by vm_compute)) as (s1 & s2 & R1 & R2 & Hw).
  exists s1, s2. split; [exact R1|split; [exact R2|]].
  apply (f_equal (drop 12)) in Hw. etransitivity; [exact Hw|]. by vm_compute.
Defined.
