(* ===== verification/AesThms.v ===== *)
(** * AesThms: AES as FIPS 197 states it

    The field GF(2^8), the S-box from its inverse and affine map, and
    MixColumns on the state matrix, each stated independently of the tables
    and loops of the code, with the proofs that the code computes them. *)

From Stdlib Require Import ZifyNat ZifyBool Btauto.
From S2P Require Import Prelude Types Cpu CpuWf Simd SimdExec Crypto SimdLanes SimdSafe FlatMem CryptoThms.

(** ** The field *)

(** The product of two polynomials of degree below 8 over GF(2), and its
    remainder by x^8 + x^4 + x^3 + x + 1. *)
Definition poly_mul8 (a b : Z) : Z :=
  fold_left (fun p i => if Z.testbit a i then Z.lxor p (Z.shiftl b i) else p) [0; 1; 2; 3; 4; 5; 6; 7] 0.
Definition gf_reduce (p : Z) : Z :=
  fold_left (fun p k => if Z.testbit p k then Z.lxor p (Z.shiftl 0x11b (k - 8)) else p)
    [14; 13; 12; 11; 10; 9; 8] p.
Definition gf_mul (a b : Z) : Z := gf_reduce (poly_mul8 a b).
(** The inverse, 0 for 0: the power 254. *)
Definition gf_inv (x : Z) : Z :=
  let x2 := gf_mul x x in let x4 := gf_mul x2 x2 in let x8 := gf_mul x4 x4 in
  let x16 := gf_mul x8 x8 in let x32 := gf_mul x16 x16 in let x64 := gf_mul x32 x32 in
  let x128 := gf_mul x64 x64 in
  fold_left gf_mul [x4; x8; x16; x32; x64; x128] x2.
(** The affine map of the S-box. *)
Definition rotl8 (x n : Z) : Z := Z.lor (Z.shiftl x n mod 2 ^ 8) (Z.shiftr x (8 - n)).
Definition affine (y : Z) : Z :=
  Z.lxor (Z.lxor (Z.lxor (Z.lxor (Z.lxor y (rotl8 y 1)) (rotl8 y 2)) (rotl8 y 3)) (rotl8 y 4)) 0x63.
Definition fips_sbox (x : Z) : Z := affine (gf_inv x).

(** ** The state: row [r] and column [c] are byte [4 c + r] *)
Definition at_ (v : V128) (r c : Z) : Z := vget 8 v (4 * c + r).
(** A row of MixColumns: the circulant matrix of [coef]. *)
Definition fips_mix (coef : list Z) (v : V128) (r c : Z) : Z :=
  fold_left (fun acc k => Z.lxor acc (gf_mul (at_ v k c) (nth (Z.to_nat ((k - r) mod 4)) coef 0))) [0; 1; 2; 3] 0.
Definition mix_coef : list Z := [2; 3; 1; 1].
Definition inv_mix_coef : list Z := [14; 11; 13; 9].

(** ** Facts about bytes, by enumeration *)
Definition bytes : list Z := map Z.of_nat (seq 0 256).
Lemma byte_all (P : Z -> bool) : forallb P bytes = true -> forall x, fits 8 x -> P x = true.
Proof.
  intros H x [H0 H1]. rewrite forallb_forall in H. apply H. unfold bytes.
  apply in_map_iff. exists (Z.to_nat x). split; [lia|]. apply in_seq. change (2 ^ 8) with 256 in H1. lia.
Qed.
Definition sub_byte (t : list Z) (x : Z) : Z := nth (Z.to_nat x) t 0.

(** The inverse is one. *)
Lemma gf_inv_mul x : fits 8 x -> x <> 0 -> gf_mul x (gf_inv x) = 1.
Proof.
  intros Hx Hn. apply (byte_all (fun x => (x =? 0) || (gf_mul x (gf_inv x) =? 1))) in Hx; [lia|].
  vm_compute. reflexivity.
Qed.
Lemma sbox_fips x : fits 8 x -> sub_byte aes_sbox x = fips_sbox x.
Proof.
  intros Hx. apply Z.eqb_eq.
  by apply (byte_all (fun x => sub_byte aes_sbox x =? fips_sbox x)) in Hx; [|vm_compute].
Qed.
Lemma inv_sbox_sbox x : fits 8 x -> sub_byte aes_inv_sbox (sub_byte aes_sbox x) = x.
Proof.
  intros Hx. apply Z.eqb_eq.
  by apply (byte_all (fun x => sub_byte aes_inv_sbox (sub_byte aes_sbox x) =? x)) in Hx; [|vm_compute].
Qed.
Lemma sbox_inv_sbox x : fits 8 x -> sub_byte aes_sbox (sub_byte aes_inv_sbox x) = x.
Proof.
  intros Hx. apply Z.eqb_eq.
  by apply (byte_all (fun x => sub_byte aes_sbox (sub_byte aes_inv_sbox x) =? x)) in Hx; [|vm_compute].
Qed.
Lemma sub_byte_fits t x : Forall (fits 8) t -> fits 8 (sub_byte t x).
Proof.
  intros Ht. unfold sub_byte. destruct (nth_in_or_default (Z.to_nat x) t 0) as [Hi| ->]; [|done].
  by eapply (proj1 (List.Forall_forall _ _) Ht).
Qed.
Lemma bytes_of_bool t : forallb (fun x => (0 <=? x) && (x <? 256)) t = true -> Forall (fits 8) t.
Proof.
  intros H. apply List.Forall_forall. intros x Hx. rewrite forallb_forall in H. specialize (H x Hx).
  unfold fits. change (2 ^ 8) with 256. lia.
Qed.
Lemma sbox_bytes : Forall (fits 8) aes_sbox /\ Forall (fits 8) aes_inv_sbox.
Proof. by split; apply bytes_of_bool. Qed.
(** The code's multiplication by the constants of MixColumns. *)
Lemma gfmul_gf a k : fits 8 a -> In k [2; 3; 9; 11; 13; 14] -> aes_gfmul a k = gf_mul a k.
Proof.
  intros Ha Hk. apply Z.eqb_eq.
  apply (byte_all (fun a => forallb (fun k => aes_gfmul a k =? gf_mul a k) [2; 3; 9; 11; 13; 14])) in Ha;
    [|vm_compute; reflexivity].
  rewrite forallb_forall in Ha. by apply Ha.
Qed.
Lemma gf_mul_1 a : fits 8 a -> gf_mul a 1 = a.
Proof. intros Ha. apply Z.eqb_eq. by apply (byte_all (fun a => gf_mul a 1 =? a)) in Ha; [|vm_compute]. Qed.

(** Multiplication by a constant is linear, by the shape of the loop. *)
Definition xtime (a : Z) : Z :=
  let a' := u8 (Z.shiftl a 1) in if Z.land a 0x80 =? 0 then a' else Z.lxor a' 0x1b.
Lemma land_80 a : Z.land a 0x80 = if Z.testbit a 7 then 0x80 else 0.
Proof.
  apply Z.bits_inj'. intros i Hi. rewrite Z.land_spec. change 0x80 with (2 ^ 7).
  rewrite Z.pow2_bits_eqb by lia. destruct (Z.eqb_spec 7 i) as [<-|].
  - destruct (Z.testbit a 7); [by rewrite Z.pow2_bits_true|by rewrite Z.bits_0].
  - rewrite andb_false_r. destruct (Z.testbit a 7); [by rewrite Z.pow2_bits_false|by rewrite Z.bits_0].
Qed.
Lemma xtime_xor a b : xtime (Z.lxor a b) = Z.lxor (xtime a) (xtime b).
Proof.
  assert (Hs : u8 (Z.shiftl (Z.lxor a b) 1) = Z.lxor (u8 (Z.shiftl a 1)) (u8 (Z.shiftl b 1))).
  { apply Z.bits_inj'. intros i Hi. unfold u8. rewrite Z.lxor_spec. destruct (Z.lt_ge_cases i 8).
    - by rewrite !Z.mod_pow2_bits_low, Z.shiftl_lxor, Z.lxor_spec by lia.
    - by rewrite !Z.mod_pow2_bits_high by lia. }
  unfold xtime. rewrite Hs, !land_80, Z.lxor_spec. generalize (u8 (Z.shiftl a 1)) (u8 (Z.shiftl b 1)).
  intros x y. destruct (Z.testbit a 7), (Z.testbit b 7); simpl Z.eqb; cbv iota.
  - rewrite Z.lxor_assoc, <- (Z.lxor_assoc 0x1b), (Z.lxor_comm 0x1b), Z.lxor_assoc, Z.lxor_nilpotent.
    by rewrite Z.lxor_0_r.
  - rewrite !Z.lxor_assoc. f_equal. apply Z.lxor_comm.
  - by rewrite Z.lxor_assoc.
  - done.
Qed.
Lemma gfmul_loop_xor n a a' b p p' :
  aes_gfmul_loop n (Z.lxor a a') b (Z.lxor p p') = Z.lxor (aes_gfmul_loop n a b p) (aes_gfmul_loop n a' b p').
Proof.
  revert a a' b p p'. induction n as [|n IH]; intros a a' b p p'; cbn [aes_gfmul_loop]; [done|].
  fold (xtime a) (xtime a') (xtime (Z.lxor a a')). rewrite xtime_xor, <- IH. f_equal.
  case_match; [done|]. rewrite !Z.lxor_assoc. f_equal. rewrite <- !Z.lxor_assoc. f_equal. apply Z.lxor_comm.
Qed.
Lemma gfmul_xor a a' k : aes_gfmul (Z.lxor a a') k = Z.lxor (aes_gfmul a k) (aes_gfmul a' k).
Proof. apply (gfmul_loop_xor 8 a a' k 0 0). Qed.

(** ** MixColumns and its inverse *)
Lemma xor4_transpose a b c d e f g h i j k l m n o p :
  xor4 (xor4 a b c d) (xor4 e f g h) (xor4 i j k l) (xor4 m n o p) =
  xor4 (xor4 a e i m) (xor4 b f j n) (xor4 c g k o) (xor4 d h l p).
Proof. unfold xor4. apply Z.bits_inj'. intros z _. rewrite !Z.lxor_spec. btauto. Qed.
Lemma gfmul_xor4 a b c d k :
  aes_gfmul (xor4 a b c d) k = xor4 (aes_gfmul a k) (aes_gfmul b k) (aes_gfmul c k) (aes_gfmul d k).
Proof. unfold xor4. by rewrite !gfmul_xor. Qed.
(** The products of the two circulant matrices, entry by entry. *)
Definition inv_mix_entries (x : Z) : list Z :=
  let g := aes_gfmul in
  [xor4 (g (g x 2) 14) (g x 11) (g x 13) (g (g x 3) 9);
   xor4 (g (g x 3) 14) (g (g x 2) 11) (g x 13) (g x 9);
   xor4 (g x 14) (g (g x 3) 11) (g (g x 2) 13) (g x 9);
   xor4 (g x 14) (g x 11) (g (g x 3) 13) (g (g x 2) 9);
   xor4 (g (g x 2) 9) (g x 14) (g x 11) (g (g x 3) 13);
   xor4 (g (g x 3) 9) (g (g x 2) 14) (g x 11) (g x 13);
   xor4 (g x 9) (g (g x 3) 14) (g (g x 2) 11) (g x 13);
   xor4 (g x 9) (g x 14) (g (g x 3) 11) (g (g x 2) 13);
   xor4 (g (g x 2) 13) (g x 9) (g x 14) (g (g x 3) 11);
   xor4 (g (g x 3) 13) (g (g x 2) 9) (g x 14) (g x 11);
   xor4 (g x 13) (g (g x 3) 9) (g (g x 2) 14) (g x 11);
   xor4 (g x 13) (g x 9) (g (g x 3) 14) (g (g x 2) 11);
   xor4 (g (g x 2) 11) (g x 13) (g x 9) (g (g x 3) 14);
   xor4 (g (g x 3) 11) (g (g x 2) 13) (g x 9) (g x 14);
   xor4 (g x 11) (g (g x 3) 13) (g (g x 2) 9) (g x 14);
   xor4 (g x 11) (g x 13) (g (g x 3) 9) (g (g x 2) 14)].
Lemma inv_mix_id x : fits 8 x -> inv_mix_entries x =
  [x; 0; 0; 0; 0; x; 0; 0; 0; 0; x; 0; 0; 0; 0; x].
Proof.
  intros Hx. apply (byte_all (fun x => bool_decide (inv_mix_entries x =
    [x; 0; 0; 0; 0; x; 0; 0; 0; 0; x; 0; 0; 0; 0; x]))) in Hx.
  - by apply bool_decide_eq_true in Hx.
  - vm_compute. reflexivity.
Qed.
Lemma xor4_0 a : xor4 a 0 0 0 = a /\ xor4 0 a 0 0 = a /\ xor4 0 0 a 0 = a /\ xor4 0 0 0 a = a.
Proof. unfold xor4. by rewrite !Z.lxor_0_l, !Z.lxor_0_r. Qed.
Lemma mixcol_inverts a0 a1 a2 a3 : fits 8 a0 -> fits 8 a1 -> fits 8 a2 -> fits 8 a3 ->
  let '(o0, o1, o2, o3) := aes_mixcol false a0 a1 a2 a3 in
  aes_mixcol true o0 o1 o2 o3 = (a0, a1, a2, a3).
Proof.
  intros H0 H1 H2 H3. apply inv_mix_id in H0, H1, H2, H3.
  injection H0 as A0 A1 A2 A3 A4 A5 A6 A7 A8 A9 A10 A11 A12 A13 A14 A15.
  injection H1 as B0 B1 B2 B3 B4 B5 B6 B7 B8 B9 B10 B11 B12 B13 B14 B15.
  injection H2 as C0 C1 C2 C3 C4 C5 C6 C7 C8 C9 C10 C11 C12 C13 C14 C15.
  injection H3 as D0 D1 D2 D3 D4 D5 D6 D7 D8 D9 D10 D11 D12 D13 D14 D15.
  unfold aes_mixcol. cbn [negb]. rewrite !gfmul_xor4. repeat apply f_equal2.
  - rewrite xor4_transpose, A0, B1, C2, D3. apply xor4_0.
  - rewrite xor4_transpose, A4, B5, C6, D7. apply xor4_0.
  - rewrite xor4_transpose, A8, B9, C10, D11. apply xor4_0.
  - rewrite xor4_transpose, A12, B13, C14, D15. apply xor4_0.
Qed.

Lemma fits_gfmul a k : fits 8 a -> In k [2; 3; 9; 11; 13; 14] -> fits 8 (aes_gfmul a k).
Proof.
  intros Ha Hk.
  apply (byte_all (fun a => forallb (fun k => (0 <=? aes_gfmul a k) && (aes_gfmul a k <? 256)) [2; 3; 9; 11; 13; 14])) in Ha;
    [|vm_compute; reflexivity].
  rewrite forallb_forall in Ha. specialize (Ha k Hk). unfold fits. change (2 ^ 8) with 256. lia.
Qed.
Lemma fits_xor4 w a b c d : 0 <= w -> fits w a -> fits w b -> fits w c -> fits w d -> fits w (xor4 a b c d).
Proof. intros. unfold xor4. by repeat apply fits_lxor. Qed.
(** The shift tables move row [r] by [r] columns. *)
Lemma aes_shift_rows r c : 0 <= r < 4 -> 0 <= c < 4 ->
  nth (Z.to_nat (4 * c + r)) aes_shift 0 = 4 * ((c + r) mod 4) + r /\
  nth (Z.to_nat (4 * c + r)) aes_inv_shift 0 = 4 * ((c - r) mod 4) + r.
Proof.
  intros Hr Hc. assert (r = 0 \/ r = 1 \/ r = 2 \/ r = 3) as [-> | [-> | [-> | ->]]] by lia;
    assert (c = 0 \/ c = 1 \/ c = 2 \/ c = 3) as [-> | [-> | [-> | ->]]] by lia; done.
Qed.

(** * The AES instructions against FIPS 197

    What AESE, AESD, AESMC and AESIMC write, byte by byte of the state matrix,
    and the round trip of a round. *)
From Stdlib Require Import ZifyNat ZifyBool.

(** ** The instructions *)
Section Insns.
Context {Mem : Type}.
Implicit Types s : St Mem.

Lemma w8 : lane_w 8.
Proof. unfold lane_w. tauto. Qed.
Lemma fits_b v i : fits 8 (vget 8 v i).
Proof. by apply fits_vget. Qed.

(** A register is determined by the bytes of its state matrix. *)
Definition sub_shift (sbox shift : list Z) (v : V128) : V128 :=
  vfill 8 0 16 0 0 (fun i => sub_byte sbox (vget 8 v (nth (Z.to_nat i) shift 0))).
Lemma sub_shift_byte sbox shift v i : Forall (fits 8) sbox -> 0 <= i < 16 ->
  vget 8 (sub_shift sbox shift v) i = sub_byte sbox (vget 8 v (nth (Z.to_nat i) shift 0)).
Proof.
  intros Hb Hi. unfold sub_shift. rewrite vfill_vget by (apply w8 || lia).
  rewrite (proj2 (andb_true_iff _ _)) by lia. rewrite Z.sub_0_r. apply Z.mod_small.
  by apply sub_byte_fits.
Qed.
Lemma fits_sub_shift sbox shift v : fits 128 (sub_shift sbox shift v).
Proof. apply fits_vfill; [apply w8|lia|lia|done|by apply fits_0]. Qed.
Lemma table_at_run t i s : 0 <= i < Z.of_nat (length t) -> table_at t i s = Ok (nth (Z.to_nat i) t 0) s.
Proof.
  intros Hi. unfold table_at. destruct (t !! Z.to_nat i) as [x|] eqn:E.
  - apply nth_lookup_Some with (d := 0) in E. by rewrite E.
  - apply lookup_ge_None in E. lia.
Qed.
Lemma aes_sub_run sbox shift v s : length sbox = 256%nat -> length shift = 16%nat ->
  Forall (fun j => 0 <= j < 16) shift -> aes_sub sbox shift v s = Ok (sub_shift sbox shift v) s.
Proof.
  intros Hb Hs Hj. unfold aes_sub. rewrite (fill_run 8 16 0 0 _
    (fun i => sub_byte sbox (vget 8 v (nth (Z.to_nat i) shift 0))) (fun _ => false)); [|apply w8|lia|lia|done|].
  - rewrite anyq_false. unfold sub_shift. cbn [qcs]. reflexivity.
  - intros j s' Hi. rewrite (bind_run _ _ _ _ _ (table_at_run shift j s' ltac:(lia))).
    assert (0 <= nth (Z.to_nat j) shift 0 < 16).
    { apply (proj1 (List.Forall_forall _ _) Hj), nth_In. lia. }
    run1 ltac:(apply el_run; [apply w8|done]). apply table_at_run. rewrite Hb. apply fits_b.
Qed.

(** AddRoundKey. *)
Lemma xored_run n d s : fits 128 n -> fits 128 d ->
  fill 8 16 0 n (fun i => bind (el 8 d i) (fun x => bind (el 8 n i) (fun y => ret (u8 (Z.lxor x y))))) s
  = Ok (Z.lxor d n) s.
Proof.
  intros Hn Hd. rewrite (fill_run 8 16 0 n _ (fun i => u8 (Z.lxor (vget 8 d i) (vget 8 n i))) (fun _ => false));
    [|apply w8|lia|lia|done|].
  - rewrite anyq_false. f_equal. apply (v_ext 8); [apply w8| |by apply fits_lxor|].
    + apply fits_vfill; [apply w8|lia|lia|done|done].
    + intros i Hi. change (128 / 8) with 16 in Hi. rewrite vfill_vget by (apply w8 || lia).
      rewrite (proj2 (andb_true_iff _ _)) by lia. rewrite Z.sub_0_r, u8_small.
      * rewrite Z.mod_small by (apply fits_lxor; [lia|apply fits_b..]).
        by rewrite vget_lxor by lia.
      * apply fits_lxor; [lia|apply fits_b..].
  - intros j s' Hj. run1 ltac:(apply el_run; [apply w8|done]). run1 ltac:(apply el_run; [apply w8|done]). done.
Qed.

(** MixColumns, column by column. *)
Definition comp (o : Z * Z * Z * Z) (k : Z) : Z :=
  let '(o0, o1, o2, o3) := o in match k with 0 => o0 | 1 => o1 | 2 => o2 | _ => o3 end.
Definition column (inv : bool) (v : V128) (c : Z) : Z * Z * Z * Z :=
  aes_mixcol inv (at_ v 0 c) (at_ v 1 c) (at_ v 2 c) (at_ v 3 c).
Definition put_column (r : V128) (c : Z) (o : Z * Z * Z * Z) : V128 :=
  vset 8 (vset 8 (vset 8 (vset 8 r (c * 4) (comp o 0)) (c * 4 + 1) (comp o 1)) (c * 4 + 2) (comp o 2))
    (c * 4 + 3) (comp o 3).
Lemma put_column_byte r c o c' k : 0 <= c -> 0 <= c' -> 0 <= k < 4 ->
  vget 8 (put_column r c o) (4 * c' + k) = if c =? c' then comp o k mod 2 ^ 8 else vget 8 r (4 * c' + k).
Proof.
  intros Hc Hc' Hk. unfold put_column. rewrite !vget_vset by (apply w8 || lia).
  destruct (Z.eqb_spec c c') as [->|].
  - assert (k = 0 \/ k = 1 \/ k = 2 \/ k = 3) as [-> | [-> | [-> | ->]]] by lia;
      rewrite ?(proj2 (Z.eqb_neq _ _)) by lia; by rewrite (proj2 (Z.eqb_eq _ _)) by lia.
  - by rewrite !(proj2 (Z.eqb_neq _ _)) by lia.
Qed.
Lemma fits_put_column r c o : 0 <= c < 4 -> fits 128 r -> fits 128 (put_column r c o).
Proof.
  intros Hc Hr. unfold put_column.
  repeat (apply fits_vset; [apply w8|apply in_lane_true; [apply w8|change (128 / 8) with 16; lia]|]). done.
Qed.
Fixpoint put_columns (inv : bool) (v : V128) (n : nat) (c : Z) (r : V128) : V128 :=
  match n with
  | O => r
  | S k => put_columns inv v k (c + 1) (put_column r c (column inv v c))
  end.
Lemma mixcol_at_run v inv c r s : 0 <= c < 4 ->
  aes_mixcol_at v inv c r s = Ok (put_column r c (column inv v c)) s.
Proof.
  intros Hc. unfold aes_mixcol_at.
  do 4 run1 ltac:(apply el_run; [apply w8|change (128 / 8) with 16; lia]).
  assert (Hl : forall r i x, 0 <= i < 16 -> set_el 8 r i x s = Ok (vset 8 r i x) s).
  { intros r' i x Hi. unfold set_el. by rewrite in_lane_true by (apply w8 || done). }
  unfold put_column, column, at_. rewrite !(Z.mul_comm 4 c), Z.add_0_r.
  destruct (aes_mixcol _ _ _ _ _) as [[[o0 o1] o2] o3]. cbn [comp].
  do 3 run1 ltac:(apply Hl; lia). apply Hl. lia.
Qed.
Lemma mixcols_loop v inv n c r s : 0 <= c -> c + Z.of_nat n <= 4 ->
  for_loop n c (aes_mixcol_at v inv) r s = Ok (put_columns inv v n c r) s.
Proof.
  revert c r. induction n as [|n IH]; intros c r Hc Hn; cbn [for_loop put_columns]; [done|].
  run1 ltac:(apply mixcol_at_run; lia). apply IH; lia.
Qed.
Lemma mixcols_run v inv s : aes_mixcols v inv s = Ok (put_columns inv v 4 0 0) s.
Proof. apply mixcols_loop; lia. Qed.
Lemma put_columns_byte inv v n c r c' k : 0 <= c -> 0 <= c' -> 0 <= k < 4 ->
  vget 8 (put_columns inv v n c r) (4 * c' + k) =
  if (c <=? c') && (c' <? c + Z.of_nat n) then comp (column inv v c') k mod 2 ^ 8
  else vget 8 r (4 * c' + k).
Proof.
  revert c r. induction n as [|n IH]; intros c r Hc Hc' Hk; cbn [put_columns].
  - by rewrite (proj2 (andb_false_iff _ _)) by lia.
  - rewrite IH, put_column_byte by lia. destruct (Z.eqb_spec c c') as [<-|].
    + rewrite (proj2 (andb_false_iff _ _)) by lia. by rewrite (proj2 (andb_true_iff _ _)) by lia.
    + by replace ((c + 1 <=? c') && (c' <? c + 1 + Z.of_nat n))
        with ((c <=? c') && (c' <? c + Z.of_nat (S n))) by lia.
Qed.
Lemma fits_put_columns inv v n c r : 0 <= c -> c + Z.of_nat n <= 4 -> fits 128 r ->
  fits 128 (put_columns inv v n c r).
Proof.
  revert c r. induction n as [|n IH]; intros c r Hc Hn Hr; cbn [put_columns]; [done|].
  apply IH; [lia|lia|]. apply fits_put_column; [lia|done].
Qed.

(** The code's column is the matrix product. *)
Ltac nths :=
  repeat match goal with |- context [nth (Z.to_nat ?e) ?l 0] =>
    let v := eval vm_compute in (nth (Z.to_nat e) l 0) in change (nth (Z.to_nat e) l 0) with v
  end.
Lemma column_fips inv v r c : 0 <= r < 4 ->
  comp (column inv v c) r = fips_mix (if inv then inv_mix_coef else mix_coef) v r c /\
  fits 8 (comp (column inv v c) r).
Proof.
  intros Hr. unfold column, aes_mixcol, fips_mix. cbn [fold_left]. rewrite Z.lxor_0_l.
  assert (Hb : forall k, fits 8 (at_ v k c)) by (intros; apply fits_b).
  assert (Hg : forall k j, In j [2; 3; 9; 11; 13; 14] -> aes_gfmul (at_ v k c) j = gf_mul (at_ v k c) j)
    by (intros; by apply gfmul_gf).
  assert (Hf : forall k j, In j [2; 3; 9; 11; 13; 14] -> fits 8 (aes_gfmul (at_ v k c) j))
    by (intros; by apply fits_gfmul).
  assert (r = 0 \/ r = 1 \/ r = 2 \/ r = 3) as [-> | [-> | [-> | ->]]] by lia;
    (destruct inv; cbn [negb comp]; nths;
     (split; [unfold xor4; rewrite !Hg by (simpl; tauto); by rewrite ?gf_mul_1 by done
             |apply fits_xor4; first [done | apply Hf; simpl; tauto]])).
Qed.
Lemma mixed_at inv v r c : 0 <= r < 4 -> 0 <= c < 4 ->
  at_ (put_columns inv v 4 0 0) r c = fips_mix (if inv then inv_mix_coef else mix_coef) v r c.
Proof.
  intros Hr Hc. unfold at_. rewrite put_columns_byte by lia. rewrite (proj2 (andb_true_iff _ _)) by lia.
  destruct (column_fips inv v r c Hr) as [<- Hf]. by apply Z.mod_small.
Qed.
Lemma shift_idx : length aes_shift = 16%nat /\ length aes_inv_shift = 16%nat /\
  Forall (fun j => 0 <= j < 16) aes_shift /\ Forall (fun j => 0 <= j < 16) aes_inv_shift.
Proof. repeat split; by repeat constructor. Qed.

(** What each AES instruction leaves in its destination. *)
Definition aes_result (op : Z) (d n : V128) : V128 :=
  match op with
  | 4 => sub_shift aes_sbox aes_shift (Z.lxor d n)
  | 5 => sub_shift aes_inv_sbox aes_inv_shift (Z.lxor d n)
  | 6 => put_columns false n 4 0 0
  | _ => put_columns true n 4 0 0
  end.
Lemma fits_aes_result op d n : fits 128 (aes_result op d n).
Proof.
  assert (forall b, fits 128 (put_columns b n 4 0 0)) as Hp
    by (intros; apply fits_put_columns; [lia|lia|by apply fits_0]).
  unfold aes_result. repeat match goal with |- fits _ (match ?x with _ => _ end) => destruct x end;
    lazymatch goal with |- fits _ (sub_shift _ _ _) => apply fits_sub_shift | |- _ => apply Hp end.
Qed.
Lemma crypto_aes_run insn s : st_wf s -> 4 <= BITS insn 16 12 <= 7 ->
  crypto_aes insn s = Ok tt (setv (BITS insn 4 0)
    (aes_result (BITS insn 16 12) (vval s (BITS insn 4 0)) (vval s (BITS insn 9 5))) s).
Proof.
  intros Hs Hop. unfold crypto_aes. cbv zeta. destruct shift_idx as (L1 & L2 & F1 & F2).
  do 2 run1 ltac:(apply reg_v_ok; [done|by apply reg_field]).
  assert (fits 128 (vval s (BITS insn 4 0)) /\ fits 128 (vval s (BITS insn 9 5))) as [? ?]
    by (split; (apply fits_vval; [done|by apply reg_field])).
  assert (Hset : forall v, set_v (BITS insn 4 0) v s = Ok tt (setv (BITS insn 4 0) v s))
    by (intros; apply set_v_run; [done|by apply reg_field]).
  assert (BITS insn 16 12 = 4 \/ BITS insn 16 12 = 5 \/ BITS insn 16 12 = 6 \/ BITS insn 16 12 = 7)
    as [-> | [-> | [-> | ->]]] by lia; cbn [aes_result].
  - run1 ltac:(by apply xored_run). run1 ltac:(by apply aes_sub_run). apply Hset.
  - run1 ltac:(by apply xored_run). run1 ltac:(by apply aes_sub_run). apply Hset.
  - run1 ltac:(apply mixcols_run). apply Hset.
  - run1 ltac:(apply mixcols_run). apply Hset.
Qed.

(** The bytes of a result, by the operation. *)
Lemma sub_at sbox shift v r c : Forall (fits 8) sbox -> 0 <= r < 4 -> 0 <= c < 4 ->
  at_ (sub_shift sbox shift v) r c = sub_byte sbox (vget 8 v (nth (Z.to_nat (4 * c + r)) shift 0)).
Proof. intros. apply sub_shift_byte; [done|lia]. Qed.

(** C12: the four AES instructions are the transformations of FIPS 197 on the state
    matrix: AESE adds the round key, shifts row r left by r and substitutes
    with the affine image of the field inverse; AESD adds the key, shifts right
    and inverts that substitution; AESMC and AESIMC multiply every column by
    the two circulant matrices over GF(2^8). Only the destination changes. *)
Theorem aes_fips insn s : st_wf s -> 4 <= BITS insn 16 12 <= 7 ->
  let d := vval s (BITS insn 4 0) in let n := vval s (BITS insn 9 5) in
  exists v, crypto_aes insn s = Ok tt (setv (BITS insn 4 0) v s) /\ fits 128 v /\
    forall r c, 0 <= r < 4 -> 0 <= c < 4 ->
    (BITS insn 16 12 = 4 -> at_ v r c = fips_sbox (at_ (Z.lxor d n) r ((c + r) mod 4))) /\
    (BITS insn 16 12 = 5 -> fips_sbox (at_ v r c) = at_ (Z.lxor d n) r ((c - r) mod 4)) /\
    (BITS insn 16 12 = 6 -> at_ v r c = fips_mix mix_coef n r c) /\
    (BITS insn 16 12 = 7 -> at_ v r c = fips_mix inv_mix_coef n r c).
Proof.
  intros Hs Hop d n. exists (aes_result (BITS insn 16 12) d n). destruct sbox_bytes as [B1 B2].
  split; [by apply crypto_aes_run|split; [apply fits_aes_result|]]. intros r c Hr Hc.
  destruct (aes_shift_rows r c Hr Hc) as [S1 S2].
  repeat split; intros ->; cbn [aes_result].
  - rewrite sub_at, S1 by done. apply sbox_fips, fits_b.
  - rewrite <- sbox_fips by (apply sub_byte_fits, B2 || (rewrite sub_at by done; by apply sub_byte_fits)).
    rewrite sub_at, S2 by done. apply sbox_inv_sbox, fits_b.
  - by apply (mixed_at false).
  - by apply (mixed_at true).
Qed.

(** ** A round and its inverse *)
Lemma aes_v_ext (v v' : V128) : fits 128 v -> fits 128 v' ->
  (forall r c, 0 <= r < 4 -> 0 <= c < 4 -> at_ v r c = at_ v' r c) -> v = v'.
Proof.
  intros Hv Hv' H. apply (v_ext 8); [apply w8|done|done|]. change (128 / 8) with 16. intros i Hi.
  specialize (H (i mod 4) (i / 4)). unfold at_ in H.
  replace (4 * (i / 4) + i mod 4) with i in H by (pose proof (Z.div_mod i 4); lia).
  apply H; [by apply Z.mod_pos_bound|]. Z.to_euclidean_division_equations. lia.
Qed.
Lemma inv_sub_shift v : fits 128 v -> sub_shift aes_inv_sbox aes_inv_shift (sub_shift aes_sbox aes_shift v) = v.
Proof.
  intros Hv. destruct sbox_bytes as [B1 B2]. apply aes_v_ext; [apply fits_sub_shift|done|].
  intros r c Hr Hc. rewrite sub_at by done. destruct (aes_shift_rows r c Hr Hc) as [_ ->].
  pose proof (Z.mod_pos_bound (c - r) 4 ltac:(lia)) as Hc'.
  change (vget 8 ?v (4 * ?c + r)) with (at_ v r c). rewrite sub_at by done.
  destruct (aes_shift_rows r _ Hr Hc') as [-> _]. rewrite inv_sbox_sbox by apply fits_b.
  unfold at_. f_equal. f_equal. rewrite Z.add_mod_idemp_l by lia. f_equal.
  replace (c - r + r) with c by lia. by apply Z.mod_small.
Qed.
Lemma inv_put_columns v : fits 128 v -> put_columns true (put_columns false v 4 0 0) 4 0 0 = v.
Proof.
  intros Hv. apply aes_v_ext; [apply fits_put_columns; [lia|lia|by apply fits_0]|done|].
  intros r c Hr Hc. unfold at_ at 1. rewrite put_columns_byte by lia. rewrite (proj2 (andb_true_iff _ _)) by lia.
  assert (Hin : forall k, 0 <= k < 4 -> at_ (put_columns false v 4 0 0) k c = comp (column false v c) k).
  { intros k Hk. rewrite mixed_at by done. by destruct (column_fips false v k c Hk) as [-> _]. }
  pose proof (mixcol_inverts _ _ _ _ (fits_b v (4 * c + 0)) (fits_b v (4 * c + 1)) (fits_b v (4 * c + 2))
    (fits_b v (4 * c + 3))) as Hm.
  unfold column at 1. rewrite !Hin by lia. fold (at_ v 0 c) (at_ v 1 c) (at_ v 2 c) (at_ v 3 c) in Hm.
  fold (column false v c) in Hm. destruct (column false v c) as [[[o0 o1] o2] o3]. cbn [comp]. rewrite Hm.
  assert (r = 0 \/ r = 1 \/ r = 2 \/ r = 3) as [-> | [-> | [-> | ->]]] by lia; cbn [comp];
    apply Z.mod_small, fits_b.
Qed.

(** C13: a round is undone: AESE and AESMC, then AESIMC and AESD with a zero key,
    leave in the register what AddRoundKey alone would. *)
Theorem aes_round_inverts e m im dd s :
  let D := BITS e 4 0 in let N := BITS e 9 5 in let Z := BITS dd 9 5 in
  st_wf s -> BITS e 16 12 = 4 -> BITS m 16 12 = 6 -> BITS im 16 12 = 7 -> BITS dd 16 12 = 5 ->
  BITS m 4 0 = D -> BITS m 9 5 = D -> BITS im 4 0 = D -> BITS im 9 5 = D -> BITS dd 4 0 = D ->
  Z <> D -> vval s Z = 0 ->
  exists s1 s2 s3 s4, crypto_aes e s = Ok tt s1 /\ crypto_aes m s1 = Ok tt s2 /\
    crypto_aes im s2 = Ok tt s3 /\ crypto_aes dd s3 = Ok tt s4 /\
    vval s4 D = Z.lxor (vval s D) (vval s N) /\ st_wf s4.
Proof.
  intros D N Z Hs O4 O6 O7 O5 D1 D2 D3 D4 D5 ZD HZ.
  assert (0 <= D < 32 /\ 0 <= N < 32 /\ 0 <= Z < 32) as (HD & HN & HZr) by (repeat split; by apply reg_field).
  set (x := Z.lxor (vval s D) (vval s N)).
  assert (Hx : fits 128 x) by (apply fits_lxor; [lia|by apply fits_vval..]).
  set (y := sub_shift aes_sbox aes_shift x). set (z := put_columns false y 4 0 0).
  assert (Hy : fits 128 y) by apply fits_sub_shift.
  assert (Hz : fits 128 z) by (apply fits_put_columns; [lia|lia|by apply fits_0]).
  set (s1 := setv D y s). set (s2 := setv D z s1). set (s3 := setv D y s2). set (s4 := setv D x s3).
  assert (W1 : st_wf s1) by by apply setv_wf. assert (W2 : st_wf s2) by by apply setv_wf.
  assert (W3 : st_wf s3) by by apply setv_wf. assert (W4 : st_wf s4) by by apply setv_wf.
  assert (V : forall v s', st_wf s' -> vval (setv D v s') D = v)
    by (intros; rewrite vval_setv by done; by rewrite Z.eqb_refl).
  exists s1, s2, s3, s4. refine (conj _ (conj _ (conj _ (conj _ (conj (V _ _ W3) W4))))).
  - rewrite crypto_aes_run by (done || lia). by rewrite O4.
  - rewrite crypto_aes_run by (done || lia). rewrite O6, D1, D2. unfold s1. by rewrite V by done.
  - rewrite crypto_aes_run by (done || lia). rewrite O7, D3, D4. unfold s2. rewrite V by done.
    cbn [aes_result]. unfold z. by rewrite inv_put_columns by done.
  - rewrite crypto_aes_run by (done || lia). rewrite O5, D5. fold Z. unfold s3. rewrite V by done.
    assert (E : vval (setv D y s2) Z = 0).
    { unfold s2, s1. rewrite !vval_setv by done. by rewrite !(proj2 (Z.eqb_neq D Z)) by done. }
    rewrite E. cbn [aes_result]. rewrite Z.lxor_0_r. unfold y. by rewrite inv_sub_shift by done.
Qed.
End Insns.

(** Registers for the instances: V0 a block, V1 a key, V31 zero. *)
Definition aes_st : St FlatMem :=
  setv 0 0x00112233445566778899aabbccddeeff (setv 1 0x0f0e0d0c0b0a09080706050403020100 (flat_st [])).
Lemma aes_st_wf : st_wf aes_st.
Proof. repeat apply setv_wf; [by apply flat_st_wf|by vm_compute..]. Qed.
Lemma aes_fips_witness : exists v, crypto_aes 0x4e284820 aes_st = Ok tt (setv 0 v aes_st) /\
  at_ v 1 3 = fips_sbox (at_ (Z.lxor (vval aes_st 0) (vval aes_st 1)) 1 0).
Proof.
  destruct (aes_fips 0x4e284820 aes_st aes_st_wf ltac:(by vm_compute)) as (v & Hr & _ & Hv).
  exists v. split; [exact Hr|]. destruct (Hv 1 3 ltac:(lia) ltac:(lia)) as [H4 _].
  rewrite (H4 eq_refl). by vm_compute.
Defined.
Lemma aes_round_inverts_witness : exists s1 s2 s3 s4, crypto_aes 0x4e284820 aes_st = Ok tt s1 /\
  crypto_aes 0x4e286800 s1 = Ok tt s2 /\ crypto_aes 0x4e287800 s2 = Ok tt s3 /\
  crypto_aes 0x4e285be0 s3 = Ok tt s4 /\ vval s4 0 = 0x0f1f2f3f4f5f6f7f8f9fafbfcfdfefff.
Proof.
  destruct (aes_round_inverts 0x4e284820 0x4e286800 0x4e287800 0x4e285be0 aes_st aes_st_wf
    eq_refl eq_refl eq_refl eq_refl eq_refl eq_refl eq_refl eq_refl eq_refl ltac:(done) eq_refl)
    as (s1 & s2 & s3 & s4 & R1 & R2 & R3 & R4 & Hv & _).
  exists s1, s2, s3, s4. split; [exact R1|]. split; [exact R2|]. split; [exact R3|]. split; [exact R4|].
  etransitivity; [exact Hv|]. by vm_compute.
Defined.
