(* ===== verification/FpHooks.v ===== *)
(** * FpHooks: the FP/SIMD executor behind the core's hooks

    [fpsimd], [fp_sync] and the clock of loop.c as the [Hooks] of the core, over
    any FP unit. A word that does not compute with the host's floating point
    does the same on a unit without arithmetic ([off_exec]), which keeps every
    promise the core asks of its hooks; so the theorems about instructions
    cover the vector and crypto ones, and assume nothing of the source. *)

From S2P Require Import Prelude Types Cpu CpuWf MemSeam Simd SimdExec Crypto FpSimd SimdLanes SimdSafe.
From S2P Require Import Alu DpExec Atomics LdSt Sysreg Decode LdStSafe ExecSafe FlatMem ExecThms El0.

(** The FP unit keeps out of the privileged state. *)
Class FpUnitConfined (Mem : Type) `{FpUnit Mem} := {
  fe_test_confined : confined (Mem:=Mem) fetestexcept;
  fe_clear_confined : confined (Mem:=Mem) feclearexcept;
  host_sync_confined v : confined (Mem:=Mem) (fpcr_host_sync v);
  fp_handlers_confined insn m : In m
    [exec_fp_scalar insn; exec_fp_dp3 insn; simd_three_same_fp insn; simd_three_same_fp16 insn;
     simd_indexed_fp insn; simd_two_misc_fp insn; simd_two_misc_fp16 insn;
     simd_scalar_cvt_fp16 insn; indexed_fhm_arm insn; across_arm insn; shift_fixed_arm insn;
     scalar_shift_fixed_arm insn; scalar_cvt_arm insn; scalar_three_same_arm insn;
     scalar_pairwise_arm insn; scalar_indexed_arm insn] ->
    confined (Mem:=Mem) m;
  fcmla_confined size Q Rn Rm Rd rot midx :
    confined (Mem:=Mem) (fcmla_core size Q Rn Rm Rd rot midx);
  fcadd_confined size Q Rn Rm Rd rot : confined (Mem:=Mem) (fcadd_core size Q Rn Rm Rd rot)
}.

(** ** The hooks *)
Section Hooks.
Context {Mem : Type} `{FpUnit Mem}.

Definition fpu_hooks (gt : bool -> M (St Mem) Z) : Hooks Mem :=
  {| gt_count := gt; fpsr_sync := fp_sync; exec_fpsimd := fpsimd |}.

Lemma fpu_hooks_ok `{!FpUnitOk Mem} gt : (forall virt, safe False (st_wf (Mem:=Mem)) (gt virt) (fits 64)) ->
  @HooksOk Mem (fpu_hooks gt).
Proof. intros Hg. constructor; simpl; [done|apply safe_fp_sync|apply safe_fpsimd]. Qed.
End Hooks.

(** ** Confinement *)
Section Confine.
Context {Mem : Type} `{FpUnitConfined Mem}.
Notation Conf m := (confined (Mem:=Mem) m).

Lemma confined_el w v i : Conf (el w v i).
Proof. unfold el. confine. Qed.
Lemma confined_set_el w v i x : Conf (set_el w v i x).
Proof. unfold set_el. confine. Qed.
Lemma confined_fpexc_or f : Conf (fpexc_or f).
Proof. apply confined_upd_tls. Qed.
Lemma confined_qc r : Conf (qc r).
Proof. unfold qc, fpexc_or. confine. Qed.
Lemma confined_lane r : Conf (lane r).
Proof. destruct r; [apply confined_qc|apply confined_raise]. Qed.
Lemma confined_for_up {A} n (a : A) body : (forall i a, Conf (body i a)) -> Conf (for_up n a body).
Proof. apply confined_for_loop. Qed.
Lemma confined_fill w n base r body : (forall i, Conf (body i)) -> Conf (fill w n base r body).
Proof. intros Hb. apply confined_for_up. intros. apply confined_bind; [apply Hb|intros; apply confined_set_el]. Qed.
Lemma confined_fp insn m : In m
    [exec_fp_scalar insn; exec_fp_dp3 insn; simd_three_same_fp insn; simd_three_same_fp16 insn;
     simd_indexed_fp insn; simd_two_misc_fp insn; simd_two_misc_fp16 insn;
     simd_scalar_cvt_fp16 insn; indexed_fhm_arm insn; across_arm insn; shift_fixed_arm insn;
     scalar_shift_fixed_arm insn; scalar_cvt_arm insn; scalar_three_same_arm insn;
     scalar_pairwise_arm insn; scalar_indexed_arm insn] -> Conf m.
Proof. apply fp_handlers_confined. Qed.

(** [confine] with the element loops and the FP arms. *)
Ltac vconfine :=
  cbv zeta;
  lazymatch goal with
  | |- confined (bind _ _) => apply confined_bind; [vconfine|intros; vconfine]
  | |- confined (if ?b then _ else _) => destruct b; vconfine
  | |- confined (match ?x with _ => _ end) => destruct x; vconfine
  | |- confined (for_up _ _ _) => apply confined_for_up; intros; vconfine
  | |- confined (fill _ _ _ _ _) => apply confined_fill; intros; vconfine
  | |- confined (el _ _ _) => apply confined_el
  | |- confined (set_el _ _ _ _) => apply confined_set_el
  | |- confined (velem_get _ _ _) => apply confined_el
  | |- confined (velem_set _ _ _ _) => apply confined_set_el
  | |- confined (lane _) => apply confined_lane
  | |- confined (qc _) => apply confined_qc
  | |- confined (fpexc_or _) => apply confined_upd_tls
  | |- confined fpsimd_undef => apply confined_raise
  | |- confined undefined => apply confined_raise
  | |- confined (fcmla_core _ _ _ _ _ _ _) => apply fcmla_confined
  | |- confined (fcadd_core _ _ _ _ _ _) => apply fcadd_confined
  | |- confined (set_v _ _) => apply confined_set_v
  | |- confined (set_scalar _ _ _) => unfold set_scalar; vconfine
  | |- confined (reg_v _) => apply confined_reg_v
  | |- confined (reg_x _) => apply confined_reg_x
  | |- confined (set_x _ _) => apply confined_set_x
  | |- confined (ret _) => apply confined_ret
  | |- confined ub => apply confined_ub
  | |- confined (?f ?insn) => apply (confined_fp insn); cbn [In]; tauto
  end.

Lemma confined_simd1 insn : Conf (simd_modified_imm insn) /\ Conf (simd_copy insn) /\
  Conf (simd_scalar_copy insn) /\ Conf (simd_three_same insn).
Proof. unfold simd_modified_imm, simd_copy, simd_scalar_copy, simd_three_same. split_and!; vconfine. Qed.
Lemma confined_simd2 insn : Conf (simd_indexed insn) /\ Conf (simd_three_diff insn) /\
  Conf (simd_across insn) /\ Conf (simd_two_misc insn) /\ Conf (simd_shift_imm insn).
Proof.
  unfold simd_indexed, dot4, simd_three_diff, simd_across, simd_two_misc, rev_bytes, simd_shift_imm.
  split_and!; vconfine.
Qed.
Lemma confined_tbl_byte ts ix : Conf (tbl_byte ts ix).
Proof. unfold tbl_byte. vconfine. Qed.
Lemma confined_simd3 insn : Conf (simd_permute insn) /\ Conf (simd_ext insn) /\
  Conf (simd_scalar_shift insn) /\ Conf (simd_scalar_three_same insn) /\ Conf (simd_scalar_pairwise insn).
Proof.
  unfold simd_permute, simd_ext, simd_scalar_shift, simd_scalar_three_same, simd_scalar_pairwise.
  split_and!; vconfine.
Qed.
Lemma confined_simd4 insn : Conf (simd_scalar_three_diff insn) /\ Conf (simd_scalar_indexed insn) /\
  Conf (simd_three_same_extra insn) /\ Conf (simd_scalar_three_same_extra insn) /\ Conf (simd_scalar_cvt insn).
Proof.
  unfold simd_scalar_three_diff, simd_scalar_indexed, simd_three_same_extra, dot4,
    simd_scalar_three_same_extra, simd_scalar_cvt.
  split_and!; vconfine.
Qed.
Lemma confined_crypto insn : Conf (crypto_sha3 insn) /\ Conf (crypto_sha2 insn) /\
  Conf (crypto_aes insn) /\ Conf (crypto_pmull insn) /\ Conf (crypto_sha3_512 insn).
Proof.
  unfold crypto_sha3, crypto_sha2, crypto_aes, aes_sub, table_at, aes_mixcols, aes_mixcol_at, crypto_pmull,
    crypto_sha3_512.
  split_and!; vconfine.
Qed.
Lemma confined_tbl_table n r Rn : Conf (tbl_table n r Rn).
Proof. revert r. induction n as [|n IH]; intros r; cbn [tbl_table]; [apply confined_ret|].
  apply confined_bind; [apply confined_reg_v|intros]. apply confined_bind; [apply IH|intros; apply confined_ret].
Qed.
Lemma confined_tbl insn : Conf (simd_tbl insn).
Proof.
  unfold simd_tbl. cbv zeta. do 2 (apply confined_bind; [apply confined_reg_v|intros]).
  apply confined_bind; [apply confined_tbl_table|intros ts]. unfold tbl_byte. vconfine.
Qed.
Lemma confined_fp_sync : Conf fp_sync.
Proof.
  unfold fp_sync, fold_host_fpexc. apply confined_bind; [|intros; confine].
  apply confined_bind; [apply fe_test_confined|intros e]. destruct (negb _); [apply confined_ret|].
  repeat (apply confined_bind; [vconfine|intros _]). apply fe_clear_confined.
Qed.
Lemma confined_fpsimd insn : Conf (fpsimd insn).
Proof.
  destruct (confined_simd1 insn) as (? & ? & ? & ?). destruct (confined_simd2 insn) as (? & ? & ? & ? & ?).
  destruct (confined_simd3 insn) as (? & ? & ? & ? & ?). destruct (confined_simd4 insn) as (? & ? & ? & ? & ?).
  destruct (confined_crypto insn) as (? & ? & ? & ? & ?). pose proof (confined_tbl insn).
  unfold fpsimd. cbv zeta. apply confined_bind; [apply confined_getc0|intros fpcr].
  apply confined_bind; [apply confined_upd_tls|intros _]. apply confined_bind; [apply host_sync_confined|intros _].
  repeat (match goal with |- confined (if ?b then _ else _) => destruct b end;
    [first [assumption | apply (confined_fp insn); cbn [In]; tauto]|]). apply confined_raise.
Qed.
Lemma fpu_hooks_confined gt : (forall virt, Conf (gt virt)) -> @HooksConfined Mem (fpu_hooks gt).
Proof. intros Hg. constructor; simpl; [done|apply confined_fp_sync|apply confined_fpsimd]. Qed.
End Confine.

(** ** Words without host floating point

    What is asked of the host for them: fetestexcept(3), feclearexcept(3) and
    the mirror of FPCR.FZ act on the host's floating-point environment, not on
    the guest's CPU. *)
Class FenvOk (Mem : Type) `{FpUnit Mem} := {
  fe_test_host (s : St Mem) : exists e m, fetestexcept s = Ok e (upd_mem (fun _ => m) s);
  fe_clear_host (s : St Mem) : exists m, feclearexcept s = Ok tt (upd_mem (fun _ => m) s);
  host_sync_host v (s : St Mem) : exists m, fpcr_host_sync v s = Ok tt (upd_mem (fun _ => m) s)
}.

(** The unit with its arithmetic taken out. *)
Definition unit_off {Mem} (U : FpUnit Mem) : FpUnit Mem := {|
  fetestexcept := @fetestexcept Mem U;
  feclearexcept := @feclearexcept Mem U;
  fpcr_host_sync := @fpcr_host_sync Mem U;
  exec_fp_scalar _ := undefined; exec_fp_dp3 _ := undefined;
  simd_three_same_fp _ := undefined; simd_three_same_fp16 _ := undefined;
  simd_indexed_fp _ := undefined; simd_two_misc_fp _ := undefined;
  simd_two_misc_fp16 _ := undefined; simd_scalar_cvt_fp16 _ := undefined;
  fcmla_core _ _ _ _ _ _ _ := undefined; fcadd_core _ _ _ _ _ _ := undefined;
  indexed_fhm_arm _ := undefined; across_arm _ := undefined; shift_fixed_arm _ := undefined;
  scalar_shift_fixed_arm _ := undefined; scalar_cvt_arm _ := undefined;
  scalar_three_same_arm _ := undefined; scalar_pairwise_arm _ := undefined;
  scalar_indexed_arm _ := undefined
|}.

Section Off.
Context {Mem : Type} (U : FpUnit Mem).
Notation off := (unit_off U).

Lemma unit_off_ok `{!FenvOk Mem} : @FpUnitOk Mem off.
Proof.
  constructor; simpl; try (intros; apply safe_undefined).
  - intros s Hs. by destruct (fe_test_host s) as (e & m & ->).
  - intros s Hs. by destruct (fe_clear_host s) as (m & ->).
  - intros v s Hs. by destruct (host_sync_host v s) as (m & ->).
  - intros insn m Hm. repeat (destruct Hm as [<-|Hm]; [apply safe_undefined|]). done.
Qed.
Lemma unit_off_confined `{!FenvOk Mem} : @FpUnitConfined Mem off.
Proof.
  constructor; simpl; try (intros; apply confined_raise).
  - intros s Hs. by destruct (fe_test_host s) as (e & m & ->).
  - intros s Hs. by destruct (fe_clear_host s) as (m & ->).
  - intros v s Hs. by destruct (host_sync_host v s) as (m & ->).
  - intros insn m Hm. repeat (destruct Hm as [<-|Hm]; [apply confined_raise|]). done.
Qed.

(** The mixed handlers, each outside its floating-point part. *)
Lemma off_across insn : float_across insn = false -> @simd_across Mem U insn = @simd_across Mem off insn.
Proof. unfold float_across, simd_across. cbv zeta. intros ->. reflexivity. Qed.
Lemma off_two_misc insn : float_two_misc insn = false -> @simd_two_misc Mem U insn = @simd_two_misc Mem off insn.
Proof. unfold float_two_misc, simd_two_misc. cbv zeta. intros ->. reflexivity. Qed.
Lemma off_scalar_cvt insn : float_scalar_cvt insn = false -> @simd_scalar_cvt Mem U insn = @simd_scalar_cvt Mem off insn.
Proof. unfold float_scalar_cvt, simd_scalar_cvt. cbv zeta. intros ->. reflexivity. Qed.
Lemma off_three_same insn : float_three_same insn = false -> @simd_three_same Mem U insn = @simd_three_same Mem off insn.
Proof. unfold float_three_same, simd_three_same. cbv zeta. intros ->. reflexivity. Qed.
Lemma off_scalar_three_same insn : float_three_same insn = false -> @simd_scalar_three_same Mem U insn = @simd_scalar_three_same Mem off insn.
Proof. unfold float_three_same, simd_scalar_three_same. cbv zeta. intros ->. reflexivity. Qed.
Lemma off_scalar_pairwise insn : float_scalar_pairwise insn = false -> @simd_scalar_pairwise Mem U insn = @simd_scalar_pairwise Mem off insn.
Proof. unfold float_scalar_pairwise, simd_scalar_pairwise. cbv zeta. intros ->. reflexivity. Qed.
Lemma off_scalar_indexed insn : float_scalar_indexed insn = false -> @simd_scalar_indexed Mem U insn = @simd_scalar_indexed Mem off insn.
Proof.
  unfold float_scalar_indexed, simd_scalar_indexed. cbv zeta. intros E.
  destruct ((BITS insn 15 12 =? 9) || _); [|reflexivity]. cbn [andb] in E. by rewrite E.
Qed.
Lemma off_three_same_extra insn : float_three_same_extra insn = false -> @simd_three_same_extra Mem U insn = @simd_three_same_extra Mem off insn.
Proof.
  unfold float_three_same_extra, simd_three_same_extra. cbv zeta. intros E. destruct (BIT insn 29 =? 1); [|reflexivity].
  cbn [andb] in *. apply orb_false_iff in E as [-> ->]. reflexivity.
Qed.
Lemma off_shift_imm insn : float_shift insn = false -> @simd_shift_imm Mem U insn = @simd_shift_imm Mem off insn.
Proof. unfold float_shift, simd_shift_imm. cbv zeta. intros ->. reflexivity. Qed.
Lemma off_scalar_shift insn : float_shift insn = false -> @simd_scalar_shift Mem U insn = @simd_scalar_shift Mem off insn.
Proof. unfold float_shift, simd_scalar_shift. cbv zeta. intros ->. reflexivity. Qed.
Lemma off_indexed insn : float_indexed insn = false -> @simd_indexed Mem U insn = @simd_indexed Mem off insn.
Proof.
  unfold float_indexed, simd_indexed. cbv zeta. rewrite !orb_false_iff. intros [[-> E] ->].
  rewrite (proj2 (orb_false_iff _ _) E). reflexivity.
Qed.

(** One step of the two dispatches, in parallel with [host_float]. *)
Lemma off_branch {A} (c h k : bool) (a a' b b' : A) : (h = false -> a = a') -> (k = false -> b = b') ->
  (if c then h else k) = false -> (if c then a else b) = (if c then a' else b').
Proof. destruct c; auto. Qed.
Lemma off_fpsimd insn s : host_float insn = false -> @fpsimd Mem U insn s = @fpsimd Mem off insn s.
Proof.
  intros Hf. unfold fpsimd, bind. cbv zeta. unfold getc, gets, modify. cbv beta iota.
  change (@fpcr_host_sync Mem off) with (@fpcr_host_sync Mem U).
  destruct (fpcr_host_sync _ _) as [[] s2|s2|]; [|done..].
  match goal with |- ?f s2 = ?g s2 => enough (E : f = g) by (by rewrite E) end.
  revert Hf. unfold host_float. cbv zeta.
  repeat (apply off_branch; [lazymatch goal with
    | |- true = false -> _ => discriminate
    | |- _ -> simd_across _ = _ => apply off_across
    | |- _ -> simd_two_misc _ = _ => apply off_two_misc
    | |- _ -> simd_scalar_cvt _ = _ => apply off_scalar_cvt
    | |- _ -> simd_three_same _ = _ => apply off_three_same
    | |- _ -> simd_scalar_three_same _ = _ => apply off_scalar_three_same
    | |- _ -> simd_scalar_pairwise _ = _ => apply off_scalar_pairwise
    | |- _ -> simd_scalar_indexed _ = _ => apply off_scalar_indexed
    | |- _ -> simd_three_same_extra _ = _ => apply off_three_same_extra
    | |- _ -> simd_shift_imm _ = _ => apply off_shift_imm
    | |- _ -> simd_scalar_shift _ = _ => apply off_scalar_shift
    | |- _ -> simd_indexed _ = _ => apply off_indexed
    | |- _ => reflexivity end|]).
  reflexivity.
Qed.
(** The system instructions use the clock and the flags of the hooks only. *)
Lemma branch_system_hooks `{!MemSeam Mem} gt sync (x y : Z -> M (St Mem) unit) insn :
  @branch_system Mem _ {| gt_count := gt; fpsr_sync := sync; exec_fpsimd := x |} insn =
  @branch_system Mem _ {| gt_count := gt; fpsr_sync := sync; exec_fpsimd := y |} insn.
Proof. reflexivity. Qed.
(** The other classes do not reach the unit. *)
Lemma off_exec `{!MemSeam Mem} gt insn s : float_insn insn = false ->
  @exec_a64 Mem _ (@fpu_hooks Mem U gt) insn s = @exec_a64 Mem _ (@fpu_hooks Mem off gt) insn s.
Proof.
  unfold float_insn, fp_class, exec_a64. intros Hf. pose proof (off_fpsimd insn s) as Hfp.
  pose proof (branch_system_hooks gt fp_sync (@fpsimd Mem U) (@fpsimd Mem off) insn) as Hb.
  destruct (Z.land (Z.shiftr insn 25) 0xf) as [|p|p]; [done| |done].
  do 4 (try destruct p as [p|p|]); lazymatch goal with
  | |- exec_fpsimd _ _ = _ => apply Hfp; exact Hf
  | |- branch_system _ _ = _ => exact (f_equal (fun m => m s) Hb)
  | |- _ => reflexivity end.
Qed.
End Off.

(** ** The core with its vector unit *)

(** [gt_count] of loop.c: the monotonic clock in ticks of 24 MHz; the host's
    [clock_gettime] gives seconds and nanoseconds. *)
Definition loop_gt_count {Mem} (clock : Mem -> Z * Z) (virt : bool) : M (St Mem) Z := fun s =>
  let '(sec, nsec) := clock (s_mem s) in
  let ns := u64 (u64 sec * 1000000000 + u64 nsec) in
  Ok (u64 (ns * 3) / 125) s.
Definition core_hooks {Mem} `{FpUnit Mem} (clock : Mem -> Z * Z) : Hooks Mem := fpu_hooks (loop_gt_count clock).

Section Core.
Context {Mem : Type} `{MemSeam Mem} (U : FpUnit Mem) `{!FenvOk Mem} (clock : Mem -> Z * Z).
Notation off_hooks := (@core_hooks Mem (unit_off U) clock).

Lemma gt_safe virt : safe False (st_wf (Mem:=Mem)) (loop_gt_count clock virt) (fits 64).
Proof.
  intros s Hs. unfold loop_gt_count. destruct (clock (s_mem s)) as [sec nsec]. split; [|done]. set (t := u64 _).
  assert (Ht : fits 64 t) by apply fits_u64. unfold fits in *. split; [apply Z.div_pos; lia|].
  apply Z.le_lt_trans with t; [|lia]. apply Z.div_le_upper_bound; lia.
Qed.
Lemma gt_confined virt : confined (Mem:=Mem) (loop_gt_count clock virt).
Proof. intros s Hs. unfold loop_gt_count. by destruct (clock (s_mem s)). Qed.
Lemma off_hooks_ok : @HooksOk Mem off_hooks.
Proof. apply (@fpu_hooks_ok Mem (unit_off U) (unit_off_ok U)), gt_safe. Qed.
Lemma off_hooks_confined : @HooksConfined Mem off_hooks.
Proof. apply (@fpu_hooks_confined Mem (unit_off U) (unit_off_confined U)), gt_confined. Qed.
Lemma safe_exec_core insn : ~ wild_insn insn -> float_insn insn = false ->
  safe False (st_wf (Mem:=Mem)) (@exec_a64 Mem _ (core_hooks clock) insn) (fun _ => True).
Proof.
  intros Hw Hf s Hs. unfold core_hooks. rewrite (off_exec U) by done.
  exact (@safe_exec_a64 Mem _ off_hooks off_hooks_ok False insn Hw s Hs).
Qed.


(** C9: user code cannot raise its privilege: run at EL0, no instruction word
    but those that compute with the host's floating point changes the
    exception level, the stack-pointer selection, the stack pointer of another
    level, the interrupt lines, or any system register other than NZCV, FPCR,
    FPSR and TPIDR_EL0, whether it completes or traps. DAIF is among what it
    cannot change unless SCTLR_EL1.UMA is set, the physical timer unless
    CNTKCTL_EL1.EL0PTEN is, the virtual timer unless CNTKCTL_EL1.EL0VTEN is.
    Of a wild CASP, which leaves C, nothing is said. *)
Theorem exec_a64_el0_confined insn (s : St Mem) : c_el (s_cpu s) = 0 -> float_insn insn = false ->
  match @exec_a64 Mem _ (core_hooks clock) insn s with
  | Ok _ s' => priv (s_cpu s') = priv (s_cpu s)
  | Fault s' => priv (s_cpu s') = priv (s_cpu s)
  | UB => True
  end.
Proof.
  intros Hs Hf. unfold core_hooks. rewrite (off_exec U) by done.
  exact (@confined_exec_a64 Mem _ off_hooks off_hooks_confined insn s Hs).
Qed.
End Core.

(** A unit that leaves every floating-point instruction UNDEFINED, on a host
    that raises no flag. *)
#[export] Instance no_fp : FpUnit FlatMem := {|
  fetestexcept := ret (mkFe false false false false false);
  feclearexcept := ret tt;
  fpcr_host_sync _ := ret tt;
  exec_fp_scalar _ := undefined; exec_fp_dp3 _ := undefined;
  simd_three_same_fp _ := undefined; simd_three_same_fp16 _ := undefined;
  simd_indexed_fp _ := undefined; simd_two_misc_fp _ := undefined;
  simd_two_misc_fp16 _ := undefined; simd_scalar_cvt_fp16 _ := undefined;
  fcmla_core _ _ _ _ _ _ _ := undefined; fcadd_core _ _ _ _ _ _ := undefined;
  indexed_fhm_arm _ := undefined; across_arm _ := undefined; shift_fixed_arm _ := undefined;
  scalar_shift_fixed_arm _ := undefined; scalar_cvt_arm _ := undefined;
  scalar_three_same_arm _ := undefined; scalar_pairwise_arm _ := undefined;
  scalar_indexed_arm _ := undefined |}.
Lemma upd_mem_same (s : St FlatMem) : upd_mem (fun _ => s_mem s) s = s.
Proof. by destruct s. Qed.
#[export] Instance no_fp_fenv : FenvOk FlatMem.
Proof. constructor; intros; [eexists|..]; exists (s_mem s); by rewrite upd_mem_same. Qed.
(** Three seconds and a half after boot. *)
Definition flat_clock (m : FlatMem) : Z * Z := (3, 500000000).
Definition flat_core : Hooks FlatMem := core_hooks flat_clock.

(** [sqadd v0.16b, v1.16b, v2.16b] with a lane that saturates. *)
Definition sqadd_st : St FlatMem := setv 1 0x0102807f (setv 2 0x0304ff01 (flat_st [])).
Lemma sqadd_st_wf : st_wf sqadd_st.
Proof. repeat apply setv_wf; [by apply flat_st_wf|by vm_compute..]. Qed.
(** [msr daifset, #2] at EL0 with UMA clear traps and leaves DAIF alone. *)
Lemma exec_a64_el0_confined_witness :
  match @exec_a64 FlatMem _ flat_core 0xd50342df (flat_st [0x80000]) with
  | Fault s' => priv (s_cpu s') = priv (s_cpu (flat_st [0x80000])) /\ c_daif (s_cpu s') = 0 /\ pe_valid (s_tls s') = true
  | _ => False end.
Proof.
  pose proof (exec_a64_el0_confined no_fp flat_clock 0xd50342df (flat_st [0x80000]) eq_refl eq_refl) as P. unfold flat_core.
  destruct (exec_a64 0xd50342df (flat_st [0x80000])) as [a s'|s'|] eqn:E;
    [vm_compute in E; discriminate| |vm_compute in E; discriminate].
  split; [exact P|]. vm_compute in E. by injection E as <-.
Defined.
