(* ===== verification/SimdThms.v ===== *)
(** * SimdThms: the saturating and shifting kernels in exact integers

    The reference is arithmetic on unbounded integers followed by one clamp to
    the element's range, as the architecture writes it; the kernels work in 64
    bits. [masked] is what a lane keeps of a kernel's result. *)

From Stdlib Require Import ZifyNat ZifyBool.
From S2P Require Import Prelude Types Cpu CpuWf Simd SimdExec SimdLanes SimdSafe FlatMem FpHooks.

(** ** Reference *)
Definition clamp (lo hi v : Z) : Z := Z.max lo (Z.min v hi).
(** Saturation to a signed or unsigned element: its bits, and whether the
    value was changed. *)
Definition ssat (e v : Z) : Z * bool :=
  let c := clamp (- 2 ^ (e - 1)) (2 ^ (e - 1) - 1) v in (c mod 2 ^ e, negb (c =? v)).
Definition usat (e v : Z) : Z * bool :=
  let c := clamp 0 (2 ^ e - 1) v in (c, negb (c =? v)).
(** A shift left by [sh], or right by [-sh] with optional rounding. *)
Definition shift_ref (v sh : Z) (round : bool) : Z :=
  if 0 <=? sh then v * 2 ^ sh
  else (v + (if round then 2 ^ (- sh - 1) else 0)) / 2 ^ (- sh).

Definition masked (e : Z) (r : Z * bool) : Z * bool := (Z.land (fst r) (mask_of e), snd r).

(** ** Widths *)
Lemma pow_split e : 0 < e -> 2 ^ e = 2 * 2 ^ (e - 1).
Proof. intros. rewrite <- Z.pow_succ_r by lia. f_equal. lia. Qed.
Lemma pow_le64 e : 0 <= e <= 64 -> 0 < 2 ^ e <= 2 ^ 64.
Proof. intros. split; [apply Z.pow_pos_nonneg; lia|apply Z.pow_le_mono_r; lia]. Qed.
Lemma mask_of_ones e : 0 <= e <= 64 -> mask_of e = Z.ones e.
Proof. intros. apply ones_ones. done. Qed.
Lemma mask_of_pow e : 0 <= e <= 64 -> mask_of e = 2 ^ e - 1.
Proof. intros. rewrite mask_of_ones, Z.ones_equiv by done. lia. Qed.
Lemma land_mask e v : 0 <= e <= 64 -> Z.land v (mask_of e) = v mod 2 ^ e.
Proof. intros. rewrite mask_of_ones by done. apply Z.land_ones. lia. Qed.
(** The low bits survive a 64-bit cast. *)
Lemma u64_mod e v : 0 <= e <= 64 -> u64 v mod 2 ^ e = v mod 2 ^ e.
Proof.
  intros. unfold u64. replace (2 ^ 64) with (2 ^ e * 2 ^ (64 - e)) by (rewrite <- Z.pow_add_r by lia; f_equal; lia).
  pose proof (Z.pow_pos_nonneg 2 e). pose proof (Z.pow_pos_nonneg 2 (64 - e)).
  rewrite Z.rem_mul_r by lia. rewrite Z.add_mod, Z.mul_comm, Z.mod_mul, Z.add_0_r, !Z.mod_mod by lia. done.
Qed.
Lemma signed_pow64 z : - 2 ^ 63 <= z < 2 ^ 63 -> s64 z = z.
Proof. intros. by apply signed_small. Qed.
Lemma s64_u64 z : - 2 ^ 63 <= z < 2 ^ 63 -> s64 (u64 z) = z.
Proof.
  intros. rewrite <- (signed_pow64 z) at 2 by done. apply signed_cong. unfold u64. apply Z.mod_mod. lia.
Qed.
Lemma signed_bounds e v : 0 < e <= 64 -> - 2 ^ 63 <= signed e v < 2 ^ 63.
Proof.
  intros. pose proof (signed_range e v ltac:(lia)). assert (2 ^ (e - 1) <= 2 ^ 63) by (apply Z.pow_le_mono_r; lia). lia.
Qed.
Lemma sx_signed e v : 0 < e <= 64 -> fits e v -> sx v e = signed e v.
Proof.
  intros He Hv. unfold sx. destruct (Z.eq_dec e 64) as [->|]; [done|].
  rewrite sign_extend_signed by (done || lia). apply s64_u64, signed_bounds. lia.
Qed.
Lemma signed_lane e v : 0 < e -> fits e v -> signed e v mod 2 ^ e = v.
Proof. intros. rewrite signed_mod by done. by apply Z.mod_small. Qed.

(** ** Saturation *)
Lemma smax_spec e : 0 < e <= 64 -> smax_of e = 2 ^ (e - 1) - 1 /\ smin_of e = - 2 ^ (e - 1).
Proof.
  intros. unfold smax_of, smin_of. destruct (Z.leb_spec 64 e).
  - by assert (e = 64) as -> by lia.
  - by rewrite shiftl_1_pow by lia.
Qed.
Lemma ssat_cases e v : 0 < e -> ssat e v =
  if 2 ^ (e - 1) - 1 <? v then ((2 ^ (e - 1) - 1) mod 2 ^ e, true)
  else if v <? - 2 ^ (e - 1) then ((- 2 ^ (e - 1)) mod 2 ^ e, true) else (v mod 2 ^ e, false).
Proof.
  intros He. unfold ssat, clamp. pose proof (Z.pow_pos_nonneg 2 (e - 1)).
  destruct (Z.ltb_spec (2 ^ (e - 1) - 1) v); [|destruct (Z.ltb_spec v (- 2 ^ (e - 1)))].
  - rewrite Z.min_r, Z.max_r by lia. f_equal. lia.
  - rewrite Z.min_l, Z.max_l by lia. f_equal. lia.
  - rewrite Z.min_l, Z.max_r by lia. f_equal. lia.
Qed.
Lemma usat_cases e v : 0 <= e -> usat e v =
  if v <? 0 then (0, true) else if 2 ^ e - 1 <? v then (2 ^ e - 1, true) else (v, false).
Proof.
  intros He. unfold usat, clamp. pose proof (Z.pow_pos_nonneg 2 e).
  destruct (Z.ltb_spec v 0); [|destruct (Z.ltb_spec (2 ^ e - 1) v)].
  - rewrite Z.min_l, Z.max_l by lia. f_equal. lia.
  - rewrite Z.min_r, Z.max_r by lia. f_equal. lia.
  - rewrite Z.min_l, Z.max_r by lia. f_equal. lia.
Qed.
Lemma masked_u64 e v q : 0 <= e <= 64 -> masked e (u64 v, q) = (v mod 2 ^ e, q).
Proof. intros. unfold masked. cbn [fst snd]. by rewrite land_mask, u64_mod by done. Qed.
Lemma masked_small e v q : 0 <= e <= 64 -> fits e v -> masked e (v, q) = (v, q).
Proof. intros. unfold masked. cbn [fst snd]. rewrite land_mask by done. by rewrite Z.mod_small. Qed.
Lemma masked_if e (b : bool) x y : masked e (if b then x else y) = if b then masked e x else masked e y.
Proof. by destruct b. Qed.

Lemma sat_s_spec e v : 0 < e <= 64 -> masked e (sat_s v e) = ssat e v.
Proof.
  intros He. rewrite ssat_cases by lia. unfold sat_s. destruct (smax_spec e He) as [-> ->].
  rewrite !masked_if, !masked_u64 by lia. done.
Qed.
Lemma sat_neg_spec e v : 0 < e <= 64 -> - 2 ^ (e - 1) <= v < 2 ^ (e - 1) ->
  masked e (sat_neg v e) = ssat e (- v).
Proof.
  intros He Hv. unfold sat_neg. destruct (Z.leb_spec 64 e); cbn [andb]; [|apply sat_s_spec; lia].
  assert (e = 64) as -> by lia. destruct (Z.eqb_spec v INT64_MIN) as [->|]; [done|by apply sat_s_spec].
Qed.
(** Two signs in a bitwise test. *)
Lemma land_lxor_neg a b c d : (Z.land (Z.lxor a b) (Z.lxor c d) <? 0) =
  negb (Bool.eqb (a <? 0) (b <? 0)) && negb (Bool.eqb (c <? 0) (d <? 0)).
Proof.
  assert (Hx : forall x y, (Z.lxor x y <? 0) = negb (Bool.eqb (x <? 0) (y <? 0))).
  { intros x y. pose proof (Z.lxor_nonneg x y). destruct (Z.ltb_spec (Z.lxor x y) 0), (Z.ltb_spec x 0), (Z.ltb_spec y 0);
      simpl; lia. }
  rewrite <- !Hx. pose proof (Z.land_neg (Z.lxor a b) (Z.lxor c d)).
  destruct (Z.ltb_spec (Z.land (Z.lxor a b) (Z.lxor c d)) 0), (Z.ltb_spec (Z.lxor a b) 0), (Z.ltb_spec (Z.lxor c d) 0);
    simpl; lia.
Qed.
Lemma s64_sum z : - 2 ^ 64 <= z < 2 ^ 64 -> s64 z =
  if z <? - 2 ^ 63 then z + 2 ^ 64 else if z <? 2 ^ 63 then z else z - 2 ^ 64.
Proof.
  intros. unfold s64, signed. change (64 - 1) with 63.
  repeat case_match; Z.to_euclidean_division_equations; lia.
Qed.
Definition srange (e v : Z) : Prop := - 2 ^ (e - 1) <= v < 2 ^ (e - 1).
Lemma signed_srange e v : 0 < e -> srange e (signed e v).
Proof. intros. by apply signed_range. Qed.
(** The two overflow tests on 64-bit elements. *)
Lemma u64_s64_sum a b : s64 (u64 a + u64 b) = s64 (a + b) /\ s64 (u64 a - u64 b) = s64 (a - b).
Proof. split; apply signed_cong; unfold u64; [by rewrite <- Z.add_mod by lia|by rewrite <- Zminus_mod]. Qed.
Lemma ssat_add_spec e a b : 0 < e <= 64 -> srange e a -> srange e b ->
  masked e (ssat_add a b e) = ssat e (a + b).
Proof.
  intros He Ha Hb. unfold ssat_add. destruct (Z.ltb_spec e 64); [by apply sat_s_spec|].
  assert (e = 64) as -> by lia. unfold srange in *. change (64 - 1) with 63 in *.
  cbv zeta. rewrite (proj1 (u64_s64_sum a b)), land_lxor_neg, masked_if, !masked_u64 by lia.
  rewrite ssat_cases by lia. change (64 - 1) with 63. rewrite (s64_sum (a + b)) by lia.
  unfold INT64_MIN, INT64_MAX.
  repeat match goal with |- context [?x <? ?y] => destruct (Z.ltb_spec x y); try lia end; simpl Bool.eqb; cbn [negb andb];
    rewrite ?masked_u64 by lia; done.
Qed.
Lemma ssat_sub_spec e a b : 0 < e <= 64 -> srange e a -> srange e b ->
  masked e (ssat_sub a b e) = ssat e (a - b).
Proof.
  intros He Ha Hb. unfold ssat_sub. destruct (Z.ltb_spec e 64); [by apply sat_s_spec|].
  assert (e = 64) as -> by lia. unfold srange in *. change (64 - 1) with 63 in *.
  cbv zeta. rewrite (proj2 (u64_s64_sum a b)), land_lxor_neg, masked_if, !masked_u64 by lia.
  rewrite ssat_cases by lia. change (64 - 1) with 63. rewrite (s64_sum (a - b)) by lia.
  unfold INT64_MIN, INT64_MAX.
  repeat match goal with |- context [?x <? ?y] => destruct (Z.ltb_spec x y); try lia end; simpl Bool.eqb; cbn [negb andb];
    rewrite ?masked_u64 by lia; done.
Qed.
Lemma usat_add_spec e a b : 0 < e <= 64 -> fits e a -> fits e b ->
  masked e (usat_add a b e) = usat e (a + b).
Proof.
  intros He Ha Hb. pose proof (pow_le64 e ltac:(lia)). rewrite usat_cases by lia. unfold usat_add, fits in *.
  destruct (Z.ltb_spec e 64).
  - assert (2 ^ e <= 2 ^ 63) by (apply Z.pow_le_mono_r; lia).
    rewrite shiftl_1_pow, (u64_small (2 ^ e)), (u64_small (a + b)) by (unfold fits; lia).
    rewrite (proj2 (Z.ltb_ge (a + b) 0)) by lia. rewrite masked_if.
    destruct (Z.ltb_spec (2 ^ e - 1) (a + b)); apply masked_small; unfold fits; lia.
  - assert (e = 64) as -> by lia. rewrite (proj2 (Z.ltb_ge (a + b) 0)), masked_if by lia.
    change (not64 0) with (2 ^ 64 - 1).
    assert (u64 (a + b) = if 2 ^ 64 - 1 <? a + b then a + b - 2 ^ 64 else a + b) as ->.
    { unfold u64. case_match; Z.to_euclidean_division_equations; lia. }
    destruct (Z.ltb_spec (2 ^ 64 - 1) (a + b)).
    + rewrite (proj2 (Z.ltb_lt _ a)) by lia. apply masked_small; unfold fits; lia.
    + rewrite (proj2 (Z.ltb_ge _ a)) by lia. apply masked_small; unfold fits; lia.
Qed.
Lemma usat_sub_spec e a b : 0 < e <= 64 -> fits e a -> fits e b ->
  masked e (usat_sub a b) = usat e (a - b).
Proof.
  intros He Ha Hb. pose proof (pow_le64 e ltac:(lia)). rewrite usat_cases by lia. unfold usat_sub, fits in *.
  replace (a - b <? 0) with (a <? b) by lia. rewrite masked_if.
  destruct (Z.ltb_spec a b); [apply masked_small; unfold fits; lia|].
  rewrite (proj2 (Z.ltb_ge (2 ^ e - 1) _)), u64_small by (unfold fits; lia).
  apply masked_small; unfold fits; lia.
Qed.

(** ** Shifts *)

(** The rounding of a right shift is the last bit shifted out. *)
Lemma round_shift x r : 1 <= r ->
  (x + 2 ^ (r - 1)) / 2 ^ r = Z.shiftr x r + Z.land (Z.shiftr x (r - 1)) 1.
Proof.
  intros Hr. rewrite (Z.land_ones (Z.shiftr x (r - 1)) 1 ltac:(lia) : Z.land _ 1 = _), !Z.shiftr_div_pow2 by lia.
  rewrite (pow_split r) by lia. set (h := 2 ^ (r - 1)). assert (0 < h) by (apply Z.pow_pos_nonneg; lia).
  change (2 ^ 1) with 2. replace (2 * h) with (h * 2) by lia.
  rewrite <- !Z.div_div by lia. replace (x + h) with (x + 1 * h) by lia. rewrite Z.div_add by lia.
  set (y := x / h). Z.to_euclidean_division_equations; lia.
Qed.
Lemma shiftr_round x r (round : bool) : 1 <= r ->
  (if round then Z.shiftr x r + Z.land (Z.shiftr x (r - 1)) 1 else Z.shiftr x r) =
  shift_ref x (- r) round.
Proof.
  intros Hr. unfold shift_ref. rewrite (proj2 (Z.leb_gt 0 (- r))) by lia. rewrite Z.opp_involutive.
  destruct round; [by rewrite round_shift|]. by rewrite Z.add_0_r, Z.shiftr_div_pow2 by lia.
Qed.
(** A right shift stays in the range of its operand. *)
Lemma shift_ref_range lo hi v r round : 1 <= r -> lo <= 0 -> 0 < hi -> lo <= v < hi ->
  lo <= shift_ref v (- r) round < hi.
Proof.
  intros Hr Hlo Hhi Hv. unfold shift_ref. rewrite (proj2 (Z.leb_gt 0 (- r))) by lia.
  rewrite Z.opp_involutive, (pow_split r) by lia. set (h := 2 ^ (r - 1)).
  assert (0 < h) by (apply Z.pow_pos_nonneg; lia).
  split; [apply Z.div_le_lower_bound; [lia|]|apply Z.div_lt_upper_bound; [lia|]];
    destruct round; nia.
Qed.
(** Far right shifts leave the sign, or nothing when they round. *)
Lemma shift_ref_far v r (round : bool) : 64 <= r -> - 2 ^ 63 <= v < 2 ^ 63 ->
  shift_ref v (- r) round = if round then 0 else if v <? 0 then -1 else 0.
Proof.
  intros Hr Hv. unfold shift_ref. rewrite (proj2 (Z.leb_gt 0 (- r))) by lia. rewrite Z.opp_involutive.
  assert (2 ^ 63 <= 2 ^ (r - 1)) by (apply Z.pow_le_mono_r; lia). rewrite (pow_split r) by lia.
  destruct round; [apply Z.div_small; lia|]. rewrite Z.add_0_r. destruct (Z.ltb_spec v 0).
  - symmetry. apply Z.div_unique with (v + 2 * 2 ^ (r - 1)); lia.
  - apply Z.div_small. lia.
Qed.

Lemma ssat_in e v : 0 < e -> srange e v -> ssat e v = (v mod 2 ^ e, false).
Proof.
  intros He Hv. rewrite ssat_cases by done. unfold srange in Hv.
  by rewrite (proj2 (Z.ltb_ge _ _)), (proj2 (Z.ltb_ge _ _)) by lia.
Qed.
Lemma usat_in e v : 0 <= e -> fits e v -> usat e v = (v, false).
Proof.
  intros He Hv. rewrite usat_cases by done. unfold fits in Hv.
  by rewrite (proj2 (Z.ltb_ge _ _)), (proj2 (Z.ltb_ge _ _)) by lia.
Qed.
Lemma fits_mod e v : 0 <= e -> fits e (v mod 2 ^ e).
Proof. intros. apply Z.mod_pos_bound, Z.pow_pos_nonneg; lia. Qed.
Lemma masked_land e v q : 0 <= e <= 64 -> masked e (Z.land v (mask_of e), q) = (v mod 2 ^ e, q).
Proof. intros. rewrite land_mask by done. apply masked_small; [done|]. by apply fits_mod; lia. Qed.
Lemma masked_0 e q : 0 <= e <= 64 -> masked e (0, q) = (0, q).
Proof. intros. apply masked_small; [done|]. by apply fits_0; lia. Qed.
Lemma masked_max e q : 0 <= e <= 64 -> masked e (mask_of e, q) = (2 ^ e - 1, q).
Proof.
  intros He. pose proof (pow_le64 e He). rewrite mask_of_pow by done. apply masked_small; [done|]. unfold fits. lia.
Qed.
(** Shifting the bits left is multiplying, modulo the width. *)
Lemma shl_mod e v w sh : 0 <= e <= 64 -> 0 <= sh -> v mod 2 ^ e = w mod 2 ^ e ->
  u64 (Z.shiftl v sh) mod 2 ^ e = (w * 2 ^ sh) mod 2 ^ e.
Proof.
  intros He Hs E. pose proof (pow_le64 e He). rewrite u64_mod, Z.shiftl_mul_pow2 by lia.
  rewrite <- Z.mul_mod_idemp_l, E, Z.mul_mod_idemp_l by lia. done.
Qed.
Lemma shl_far e v sh : 0 <= e <= sh -> (v * 2 ^ sh) mod 2 ^ e = 0.
Proof.
  intros. replace (2 ^ sh) with (2 ^ (sh - e) * 2 ^ e) by (rewrite <- Z.pow_add_r by lia; f_equal; lia).
  rewrite Z.mul_assoc. apply Z.mod_mul. pose proof (Z.pow_pos_nonneg 2 e). lia.
Qed.
Lemma shiftr_lt m v sh : 0 <= sh -> (Z.shiftr m sh <? v) = (m <? v * 2 ^ sh).
Proof.
  intros Hs. rewrite Z.shiftr_div_pow2 by done. pose proof (Z.pow_pos_nonneg 2 sh ltac:(lia) Hs).
  pose proof (Z.div_mod m (2 ^ sh)). pose proof (Z.mod_pos_bound m (2 ^ sh)).
  destruct (Z.ltb_spec (m / 2 ^ sh) v), (Z.ltb_spec m (v * 2 ^ sh)); [done| | |done]; nia.
Qed.
(** A left operand of an arithmetic right shift by less than its exponent. *)
Lemma shiftr_min k v sh : 0 <= sh <= k -> (v <? Z.shiftr (- 2 ^ k) sh) = (v * 2 ^ sh <? - 2 ^ k).
Proof.
  intros Hs. rewrite Z.shiftr_div_pow2 by lia.
  replace (2 ^ k) with (2 ^ (k - sh) * 2 ^ sh) by (rewrite <- Z.pow_add_r by lia; f_equal; lia).
  pose proof (Z.pow_pos_nonneg 2 sh). rewrite <- Z.mul_opp_l, Z.div_mul by lia.
  destruct (Z.ltb_spec v (- 2 ^ (k - sh))), (Z.ltb_spec (v * 2 ^ sh) (- 2 ^ (k - sh) * 2 ^ sh)); [done| | |done]; nia.
Qed.

(** What the architecture's shift by register gives a lane. *)
Definition vshift_ref (a sh e : Z) (sgn round sat : bool) : Z * bool :=
  let x := shift_ref (if sgn then signed e a else a) sh round in
  if sat then if sgn then ssat e x else usat e x else (x mod 2 ^ e, false).

Lemma shift_ref_left v sh round : 0 <= sh -> shift_ref v sh round = v * 2 ^ sh.
Proof. intros. unfold shift_ref. by rewrite (proj2 (Z.leb_le 0 sh)). Qed.

Lemma vreg_shl_plain a sh e sgn round : 0 < e <= 64 -> 0 <= sh -> fits e a ->
  masked e (vreg_shift a sh e sgn round false) = vshift_ref a sh e sgn round false.
Proof.
  intros He Hs Ha. unfold vreg_shift, vshift_ref. rewrite (proj2 (Z.leb_le 0 sh)) by done. simpl negb. cbv iota.
  rewrite shift_ref_left by done.
  assert ((if sgn then signed e a else a) mod 2 ^ e = a mod 2 ^ e) as E
    by (destruct sgn; [apply signed_mod; lia|done]).
  destruct (Z.leb_spec 64 sh).
  - rewrite masked_0, shl_far by lia. done.
  - rewrite masked_land by lia. f_equal. apply shl_mod; [lia|lia|done].
Qed.

Lemma vreg_shr_signed a r e round sat : 0 < e <= 64 -> 1 <= r -> fits e a ->
  masked e (vreg_shift a (- r) e true round sat) = vshift_ref a (- r) e true round sat.
Proof.
  intros He Hr Ha. unfold vreg_shift, vshift_ref. rewrite (proj2 (Z.leb_gt 0 (- r))) by lia. cbv zeta.
  rewrite Z.opp_involutive, sx_signed by done. pose proof (signed_bounds e a He) as Hb.
  assert (masked e (shift_ref (signed e a) (- r) round mod 2 ^ e, false) =
    if sat then ssat e (shift_ref (signed e a) (- r) round)
    else (shift_ref (signed e a) (- r) round mod 2 ^ e, false)) as <-.
  { rewrite masked_small by (lia || (apply fits_mod; lia)). destruct sat; [|done]. rewrite ssat_in; [done|lia|].
    pose proof (signed_range e a ltac:(lia)). pose proof (Z.pow_pos_nonneg 2 (e - 1)).
    pose proof (shift_ref_range (- 2 ^ (e - 1)) (2 ^ (e - 1)) (signed e a) r round). unfold srange. lia. }
  destruct (Z.leb_spec 64 r).
  - rewrite shift_ref_far by lia. destruct round; [by rewrite Z.mod_0_l by lia|].
    by rewrite land_mask, u64_mod by lia.
  - rewrite (proj2 (Z.leb_le 1 r)), andb_true_r by done. rewrite shiftr_round by done.
    by rewrite land_mask, u64_mod by lia.
Qed.

Lemma vreg_shr_unsigned a r e round sat : 0 < e <= 64 -> 1 <= r -> fits e a ->
  masked e (vreg_shift a (- r) e false round sat) = vshift_ref a (- r) e false round sat.
Proof.
  intros He Hr Ha. pose proof (pow_le64 e ltac:(lia)). unfold vreg_shift, vshift_ref.
  rewrite (proj2 (Z.leb_gt 0 (- r))) by lia. cbv zeta.
  rewrite Z.opp_involutive, (land_mask e a), (Z.mod_small a) by (lia || exact Ha).
  pose proof (shift_ref_range 0 (2 ^ e) a r round Hr) as Hx. unfold fits in Ha. specialize (Hx ltac:(lia) ltac:(lia) Ha).
  assert ((if sat then usat e (shift_ref a (- r) round) else (shift_ref a (- r) round mod 2 ^ e, false)) =
    (shift_ref a (- r) round, false)) as ->.
  { destruct sat; [rewrite usat_in by (unfold fits; lia); done|]. by rewrite Z.mod_small by lia. }
  destruct (Z.leb_spec 64 r).
  - pose proof (Z.pow_le_mono_r 2 64 r).
    rewrite <- (shiftr_round a r round Hr), (Z.shiftr_div_pow2 a r), (Z.div_small a) by lia.
    destruct round; simpl negb; cbv iota; [|by rewrite masked_0 by lia].
    rewrite Z.add_0_l. destruct (Z.eqb_spec r 64) as [->|].
    + rewrite masked_land by lia. rewrite Z.mod_small; [done|].
      rewrite (Z.land_ones _ 1 ltac:(lia) : Z.land _ 1 = _). pose proof (Z.mod_pos_bound (Z.shiftr a (64 - 1)) (2 ^ 1)).
      pose proof (Z.pow_le_mono_r 2 1 e). lia.
    + pose proof (Z.pow_le_mono_r 2 64 (r - 1)). by rewrite Z.shiftr_div_pow2, Z.div_small, masked_0 by lia.
  - rewrite (proj2 (Z.leb_le 1 r)), andb_true_r by done. rewrite masked_land by lia.
    rewrite <- (shiftr_round a r round Hr) in *. destruct round; [rewrite u64_mod by lia|]; by rewrite Z.mod_small by lia.
Qed.

(** Saturating left shifts. *)
Lemma vreg_sqshl a sh e round : 0 < e <= 64 -> 0 <= sh -> fits e a ->
  masked e (vreg_shift a sh e true round true) = vshift_ref a sh e true round true.
Proof.
  intros He Hs Ha. unfold vreg_shift, vshift_ref. rewrite (proj2 (Z.leb_le 0 sh)) by done. cbv beta iota zeta.
  rewrite shift_ref_left, sx_signed by done. destruct (smax_spec e He) as [-> ->]. simpl negb. cbv iota.
  pose proof (signed_srange e a ltac:(lia)) as Hr. set (v := signed e a) in *. unfold srange in Hr.
  pose proof (pow_split e ltac:(lia)). pose proof (Z.pow_pos_nonneg 2 sh ltac:(lia) Hs).
  assert (0 < 2 ^ (e - 1)) by (apply Z.pow_pos_nonneg; lia).
  rewrite ssat_cases by lia. destruct (Z.eqb_spec v 0) as [->|Hv].
  { rewrite masked_0 by lia. simpl. by rewrite (proj2 (Z.ltb_ge _ _)), (proj2 (Z.ltb_ge _ _)) by lia. }
  assert ((e <=? sh) || (64 <=? sh) = (e <=? sh)) as -> by lia.
  destruct (Z.leb_spec e sh) as [Hes|Hes].
  { pose proof (Z.pow_le_mono_r 2 e sh). rewrite masked_land, u64_mod by lia. destruct (Z.ltb_spec 0 v).
    - rewrite (proj2 (Z.ltb_lt _ _)) by nia. done.
    - rewrite (proj2 (Z.ltb_ge _ _)), (proj2 (Z.ltb_lt _ _)) by nia. done. }
  assert (masked e (Z.land (u64 (Z.shiftl (u64 v) sh)) (mask_of e), false) = ((v * 2 ^ sh) mod 2 ^ e, false)) as E.
  { rewrite masked_land by lia. f_equal. apply shl_mod; [lia|done|]. apply u64_mod. lia. }
  rewrite !masked_if, E, masked_u64, masked_land, u64_mod by lia.
  rewrite shiftr_lt by done.
  assert ((v <? Z.shiftr (- 2 ^ (e - 1)) sh) = (v * 2 ^ sh <? - 2 ^ (e - 1))) as ->.
  { apply shiftr_min; lia. }
  destruct (Z.ltb_spec 0 v); [|rewrite (proj2 (Z.ltb_ge (2 ^ (e - 1) - 1) _)) by nia; done].
  by rewrite (proj2 (Z.ltb_ge (v * 2 ^ sh) _)) by nia.
Qed.
Lemma vreg_uqshl a sh e round : 0 < e <= 64 -> 0 <= sh -> fits e a ->
  masked e (vreg_shift a sh e false round true) = vshift_ref a sh e false round true.
Proof.
  intros He Hs Ha. pose proof (pow_le64 e ltac:(lia)). unfold vreg_shift, vshift_ref.
  rewrite (proj2 (Z.leb_le 0 sh)) by done. cbv beta iota zeta. simpl negb. cbv iota.
  rewrite shift_ref_left, (land_mask e a), (Z.mod_small a) by (lia || exact Ha). unfold fits in Ha.
  pose proof (Z.pow_pos_nonneg 2 sh ltac:(lia) Hs). rewrite usat_cases, (proj2 (Z.ltb_ge (a * 2 ^ sh) 0)) by nia.
  destruct (Z.eqb_spec a 0) as [->|Hv].
  { rewrite masked_0 by lia. simpl. by rewrite (proj2 (Z.ltb_ge _ _)) by lia. }
  rewrite !masked_if, masked_max, masked_land, shiftr_lt, mask_of_pow by lia. destruct (Z.leb_spec 64 sh).
  { pose proof (Z.pow_le_mono_r 2 64 sh). by rewrite (proj2 (Z.ltb_lt _ _)) by nia. }
  destruct (Z.ltb_spec (2 ^ e - 1) (a * 2 ^ sh)); [done|]. rewrite (shl_mod e a a) by lia. by rewrite Z.mod_small by nia.
Qed.

(** The shift by register is the architecture's, for every signed byte of shift. *)
Lemma vreg_shift_spec a sh e sgn round sat : 0 < e <= 64 -> fits e a ->
  masked e (vreg_shift a sh e sgn round sat) = vshift_ref a sh e sgn round sat.
Proof.
  intros He Ha. destruct (Z.leb_spec 0 sh).
  - destruct sat; [|by apply vreg_shl_plain]. destruct sgn; [by apply vreg_sqshl|by apply vreg_uqshl].
  - replace sh with (- - sh) by lia. destruct sgn; [apply vreg_shr_signed|apply vreg_shr_unsigned]; (done || lia).
Qed.

(** * The vector three-same group against exact integers

    [three_same_ref] states the group's operations on unbounded integers: the
    operands as signed or unsigned elements, one arithmetic expression, then a
    reduction or a clamp to the element.  The handler computes in 64 bits with
    wrap-around, masks and range tests; the theorem says that it agrees in every
    lane, clears the upper half, and raises FPSR.QC exactly when a lane clamps. *)

(** ** Reference *)

(** The operation of [key] = U:opcode on [e]-bit elements of Vn, Vm and Vd: the
    result and whether it was saturated.  [None]: the encoding is not an
    integer element-wise operation, or has no such element size. *)
Definition three_same_ref (key e : Z) : option (Z -> Z -> Z -> Z * bool) :=
  let S := signed e in
  let sh b := signed 8 b in
  let wrap (f : Z -> Z -> Z -> Z) := Some (fun a b d => (f a b d mod 2 ^ e, false)) in
  let test (f : Z -> Z -> bool) := Some (fun a b (_ : Z) => (if f a b then 2 ^ e - 1 else 0, false)) in
  let upto w (r : option (Z -> Z -> Z -> Z * bool)) := if e <=? w then r else None in
  let shift sgn round sat := Some (fun a b (_ : Z) => vshift_ref a (sh b) e sgn round sat) in
  match key with
  | 0x10 => wrap (fun a b _ => a + b)
  | 0x30 => wrap (fun a b _ => a - b)
  | 0x11 => test (fun a b => negb (Z.land a b =? 0))
  | 0x31 => test (fun a b => a =? b)
  | 0x06 => test (fun a b => S b <? S a)
  | 0x26 => test (fun a b => b <? a)
  | 0x07 => test (fun a b => S b <=? S a)
  | 0x27 => test (fun a b => b <=? a)
  | 0x0c => upto 32 (wrap (fun a b _ => Z.max (S a) (S b)))
  | 0x2c => upto 32 (wrap (fun a b _ => Z.max a b))
  | 0x0d => upto 32 (wrap (fun a b _ => Z.min (S a) (S b)))
  | 0x2d => upto 32 (wrap (fun a b _ => Z.min a b))
  | 0x13 => upto 32 (wrap (fun a b _ => a * b))
  | 0x12 => upto 32 (wrap (fun a b d => d + a * b))
  | 0x32 => upto 32 (wrap (fun a b d => d - a * b))
  | 0x00 => upto 32 (wrap (fun a b _ => (S a + S b) / 2))
  | 0x20 => upto 32 (wrap (fun a b _ => (a + b) / 2))
  | 0x02 => upto 32 (wrap (fun a b _ => (S a + S b + 1) / 2))
  | 0x22 => upto 32 (wrap (fun a b _ => (a + b + 1) / 2))
  | 0x04 => upto 32 (wrap (fun a b _ => (S a - S b) / 2))
  | 0x24 => upto 32 (wrap (fun a b _ => (a - b) / 2))
  | 0x01 => Some (fun a b _ => ssat e (S a + S b))
  | 0x21 => Some (fun a b _ => usat e (a + b))
  | 0x05 => Some (fun a b _ => ssat e (S a - S b))
  | 0x25 => Some (fun a b _ => usat e (a - b))
  | 0x08 => shift true false false
  | 0x28 => shift false false false
  | 0x0a => shift true true false
  | 0x2a => shift false true false
  | 0x09 => shift true false true
  | 0x29 => shift false false true
  | 0x0b => shift true true true
  | 0x2b => shift false true true
  | 0x0e => upto 32 (wrap (fun a b _ => Z.abs (S a - S b)))
  | 0x2e => upto 32 (wrap (fun a b _ => Z.abs (a - b)))
  | 0x0f => upto 32 (wrap (fun a b d => d + Z.abs (S a - S b)))
  | 0x2f => upto 32 (wrap (fun a b d => d + Z.abs (a - b)))
  | 0x16 => upto 32 (Some (fun a b _ => ssat e (2 * S a * S b / 2 ^ e)))
  | 0x36 => upto 32 (Some (fun a b _ => ssat e ((2 * S a * S b + 2 ^ (e - 1)) / 2 ^ e)))
  | _ => None
  end.

(** ** Lanes *)
Section Lanes.
Context (e : Z) (He : lane_w e).
Local Lemma e_pos : 8 <= e <= 64.
Proof. destruct He as [->|[->|[->| ->]]]; lia. Qed.

Lemma plain_lane v : exists r, plain v = Some r /\ masked e r = (v mod 2 ^ e, false).
Proof. eexists. split; [done|]. apply masked_u64. pose proof e_pos. lia. Qed.
Lemma test_lane b : exists r, mask_if b (mask_of e) = Some r /\
  masked e r = (if b then 2 ^ e - 1 else 0, false).
Proof.
  pose proof e_pos. eexists. split; [done|]. destruct b; [apply masked_max|apply masked_0]; lia.
Qed.
Lemma masked_any v q : masked e (v, q) = (v mod 2 ^ e, q).
Proof. pose proof e_pos. unfold masked. cbn [fst snd]. by rewrite land_mask by lia. Qed.

Lemma wadd_small x y : - 2 ^ 63 <= x + y < 2 ^ 63 -> wadd x y = x + y.
Proof. intros. unfold wadd. destruct (u64_s64_sum x y) as [-> _]. by apply signed_pow64. Qed.
Lemma wsub_small x y : - 2 ^ 63 <= x - y < 2 ^ 63 -> wsub x y = x - y.
Proof. intros. unfold wsub. destruct (u64_s64_sum x y) as [_ ->]. by apply signed_pow64. Qed.
Lemma wmul_small x y : - 2 ^ 63 <= x * y < 2 ^ 63 -> wmul x y = x * y.
Proof.
  intros. unfold wmul. rewrite <- (signed_pow64 (x * y)) by done. apply signed_cong. unfold u64.
  by rewrite <- Z.mul_mod by lia.
Qed.
Lemma wabs_abs x : - 2 ^ 63 <= x < 2 ^ 63 -> wabs x = Z.abs x.
Proof.
  intros. unfold wabs. destruct (Z.ltb_spec x 0).
  - rewrite <- (u64_small (Z.abs x)) by (unfold fits; lia). unfold u64.
    rewrite Zminus_mod_idemp_r. f_equal. lia.
  - rewrite u64_small by (unfold fits; lia). lia.
Qed.

Lemma signed32 a : e <= 32 -> - 2 ^ 31 <= signed e a < 2 ^ 31.
Proof.
  intros. pose proof e_pos. pose proof (signed_range e a ltac:(lia)).
  pose proof (Z.pow_le_mono_r 2 (e - 1) 31). lia.
Qed.
Lemma elem32 a : e <= 32 -> fits e a -> 0 <= a < 2 ^ 32.
Proof. intros Hw Ha. unfold fits in Ha. pose proof (Z.pow_le_mono_r 2 e 32). lia. Qed.
(** The element chosen by its signed value. *)
Lemma pick_signed (c : bool) a b :
  (if c then a else b) mod 2 ^ e = (if c then signed e a else signed e b) mod 2 ^ e.
Proof. pose proof e_pos. by destruct c; rewrite signed_mod by lia. Qed.
Lemma max_if x y : (if y <? x then x else y) = Z.max x y.
Proof. destruct (Z.ltb_spec y x); lia. Qed.
Lemma min_if x y : (if x <? y then x else y) = Z.min x y.
Proof. destruct (Z.ltb_spec x y); lia. Qed.

(** The doubling multiplies keep the high half of twice the product. *)
Lemma double_high p r : 2 <= e -> (2 * p + 2 * r) / 2 ^ e = Z.shiftr (p + r) (e - 1).
Proof.
  intros. pose proof (Z.pow_pos_nonneg 2 (e - 1)). rewrite Z.shiftr_div_pow2, (pow_split e) by lia.
  rewrite <- Z.mul_add_distr_l. by rewrite Z.div_mul_cancel_l by lia.
Qed.
Lemma prod32 a b : e <= 32 -> - 2 ^ 62 <= signed e a * signed e b <= 2 ^ 62.
Proof. intros H. pose proof (signed32 a H). pose proof (signed32 b H). nia. Qed.

Lemma shiftr_1 x : Z.shiftr x 1 = x / 2.
Proof. by rewrite Z.shiftr_div_pow2. Qed.
Lemma abs_diff a b : (if b <? a then a - b else b - a) = Z.abs (a - b).
Proof. destruct (Z.ltb_spec b a); lia. Qed.
Lemma s8_low b : s8 (Z.land b 255) = signed 8 b.
Proof. apply signed_cong. rewrite (Z.land_ones b 8 ltac:(lia) : Z.land b 255 = _). apply Z.mod_mod. lia. Qed.
Ltac sums32 a b :=
  let H := match goal with H : e <= 32 |- _ => H end in
  pose proof (signed32 a H); pose proof (signed32 b H); pose proof (prod32 a b H).

(** Every lane of the handler is the reference's. *)
Lemma three_same_lane_ref key f a b d : three_same_ref key e = Some f ->
  fits e a -> fits e b -> fits e d ->
  exists r, three_same_lane key e a b d = Some r /\ masked e r = f a b d.
Proof.
  intros Hf Ha Hb Hd. pose proof e_pos. assert (He' : 0 < e <= 64) by lia.
  assert (Hm : forall v, fits e v -> Z.land v (mask_of e) = v)
    by (intros v Hv; rewrite land_mask by lia; by apply Z.mod_small).
  unfold three_same_lane. cbv zeta. rewrite (Hm a Ha), (Hm b Hb), !sx_signed by (done || lia).
  unfold three_same_ref in Hf. cbv zeta in Hf.
  destruct key as [|p|p]; [|do 6 (try destruct p as [p|p|])|]; try discriminate Hf; cbv beta iota in Hf |- *;
    try (destruct (Z.leb_spec e 32); [|discriminate Hf]); injection Hf as <-.
  all: rewrite ?shiftr_1, ?abs_diff, ?s8_low in *.
  all: try (rewrite ?(wadd_small (signed e a) (signed e b)), ?wadd_small, ?(wsub_small (signed e a) (signed e b)),
    ?wmul_small, ?wabs_abs by (sums32 a b; lia)).
  all: try apply plain_lane; try apply test_lane.
  all: eexists; (split; [done|]).
  all: try (apply (vreg_shift_spec a (signed 8 b) e); done).
  all: try (first [apply usat_add_spec|apply usat_sub_spec|apply ssat_add_spec|apply ssat_sub_spec];
    first [done | apply signed_srange; lia]).
  all: try (pose proof (elem32 a ltac:(done) Ha); pose proof (elem32 b ltac:(done) Hb);
    rewrite ?u64_small, ?(signed_pow64 a), ?(signed_pow64 b), ?wsub_small by (unfold fits; lia)).
  all: rewrite ?masked_any, ?u64_mod by lia.
  all: try reflexivity.
  all: try (first [rewrite max_if|rewrite min_if|rewrite pick_signed, max_if|rewrite pick_signed, min_if]; reflexivity).
  all: rewrite sat_s_spec by lia; f_equal; sums32 a b.
  - pose proof (Z.pow_le_mono_r 2 (e - 2) 31). pose proof (Z.pow_pos_nonneg 2 (e - 2)).
    rewrite shiftl_1_pow, wadd_small by lia.
    rewrite <- double_high by lia. f_equal. rewrite (pow_split (e - 1)) by lia.
    replace (e - 1 - 1) with (e - 2) by lia. lia.
  - rewrite <- (Z.add_0_r (signed e a * _)), <- double_high by lia. f_equal. lia.
Qed.
End Lanes.

(** ** The instruction *)
Section Insn.
Context {Mem : Type} `{FpUnit Mem}.
Implicit Types s : St Mem.

(** An element loop whose lanes are [f] of the operands' elements. *)
Lemma lanes_run (size n : Z) vn vm vd (f : Z -> Z -> Z -> Z * bool) op s :
  0 <= size < 4 -> 0 <= n <= 128 / ebits size ->
  (forall a b d, fits (ebits size) a -> fits (ebits size) b -> fits (ebits size) d ->
    exists r, op a b d = Some r /\ masked (ebits size) r = f a b d) ->
  let at_ i := f (vget (ebits size) vn i) (vget (ebits size) vm i) (vget (ebits size) vd i) in
  fill (ebits size) n 0 0 (fun i =>
      bind (velem_get vn size i) (fun a => bind (velem_get vm size i) (fun b =>
      bind (velem_get vd size i) (fun d => bind (lane (op a b d)) (fun v =>
      ret (Z.land v (mask_of (ebits size)))))))) s =
  Ok (vfill (ebits size) 0 (Z.to_nat n) 0 0 (fun i => fst (at_ i)))
     (qcs (anyq (Z.to_nat n) 0 (fun i => snd (at_ i))) s).
Proof.
  intros Hsz Hn Hop at_. pose proof (ebits_w size) as Hw. apply (fill_run (ebits size) n 0 0); [done|lia|lia|lia|].
  intros j s' Hj. unfold bind. rewrite !velem_get_run by lia.
  destruct (Hop (vget (ebits size) vn j) (vget (ebits size) vm j) (vget (ebits size) vd j)) as (r & -> & Hr);
    [apply fits_vget; destruct Hw as [->|[->|[->| ->]]]; lia..|].
  cbn [lane]. rewrite qc_run. unfold ret, at_. rewrite <- Hr. done.
Qed.
(** The operations of the reference are the ones the element loop reaches. *)
Definition reaches_loop (U opc : Z) : bool :=
  (opc <? 0x18) && negb (opc =? 3) && negb ((U =? 1) && (opc =? 0x13)) &&
  negb (((opc =? 0x17) && (U =? 0)) || (opc =? 0x14) || (opc =? 0x15)).
Lemma ref_reaches_loop U opc w : 0 <= U < 2 -> 0 <= opc < 32 -> lane_w w ->
  three_same_ref (Z.lor (Z.shiftl U 5) opc) w <> None -> reaches_loop U opc = true.
Proof.
  intros HU Hopc Hw Hr.
  assert (forallb (fun U => forallb (fun opc => forallb (fun w =>
      match three_same_ref (Z.lor (Z.shiftl U 5) opc) w with Some _ => reaches_loop U opc | None => true end)
    [8; 16; 32; 64]) (List.map Z.of_nat (List.seq 0 32))) [0; 1] = true) as Hall by (vm_compute; reflexivity).
  rewrite forallb_forall in Hall. specialize (Hall U). rewrite forallb_forall in Hall.
  specialize (Hall ltac:(cbn [In]; lia) opc). rewrite forallb_forall in Hall.
  assert (In opc (List.map Z.of_nat (List.seq 0 32))) as Hin.
  { apply in_map_iff. exists (Z.to_nat opc). split; [lia|]. apply in_seq. lia. }
  specialize (Hall Hin w). assert (In w [8; 16; 32; 64]) as Hiw
    by (destruct Hw as [->|[->|[->| ->]]]; cbn [In]; tauto).
  specialize (Hall Hiw). by destruct (three_same_ref _ w).
Qed.
Lemma fits_masked w r : lane_w w -> fits w (fst (masked w r)).
Proof.
  intros Hw. assert (0 <= w <= 64) by (destruct Hw as [->|[->|[->| ->]]]; lia).
  unfold masked. cbn [fst]. rewrite land_mask by done. apply fits_mod. lia.
Qed.
Lemma shiftl8_ebits size : 0 <= size < 4 -> Z.shiftl 8 size = ebits size.
Proof. intros Hs. by sizes Hs. Qed.

(** C10: an integer three-same vector instruction (add, subtract, compare,
    maximum, multiply, halving, absolute difference, saturating add and
    subtract, every shift by register, doubling multiply) gives in each lane
    the exact integer result of [three_same_ref], reduced or clamped to the
    element; the lanes above the vector's length are zero; no other register
    changes, and FPSR.QC is raised exactly when some lane was clamped. *)
Theorem three_same_exact insn s f :
  let size := BITS insn 23 22 in let w := ebits size in
  let n := Z.shiftr (if BITb insn 30 then 16 else 8) size in
  let lane_of i := f (vget w (vval s (BITS insn 9 5)) i) (vget w (vval s (BITS insn 20 16)) i)
                     (vget w (vval s (BITS insn 4 0)) i) in
  st_wf s -> three_same_ref (Z.lor (Z.shiftl (BIT insn 29) 5) (BITS insn 15 11)) w = Some f ->
  exists r q, simd_three_same insn s = Ok tt (setv (BITS insn 4 0) r (qcs q s)) /\ fits 128 r /\
    (forall i, 0 <= i < n -> vget w r i = fst (lane_of i)) /\
    (forall i, n <= i < 128 / w -> vget w r i = 0) /\
    (q = true <-> exists i, 0 <= i < n /\ snd (lane_of i) = true).
Proof.
  intros size w n lane_of Hs Hf. set (U := BIT insn 29) in *. set (opc := BITS insn 15 11) in *.
  assert (Hsz : 0 <= size < 4) by (apply BITS_range; [lia|reflexivity]).
  assert (HU : 0 <= U < 2) by (pose proof (BIT_range insn 29); lia).
  assert (Hopc : 0 <= opc < 32) by (by apply reg_field).
  assert (Hw : lane_w w) by apply ebits_w.
  pose proof (n_lanes size (BITb insn 30) Hsz) as Hn. fold n w in Hn.
  pose proof (ref_reaches_loop U opc w HU Hopc Hw ltac:(by rewrite Hf)) as Hl. unfold reaches_loop in Hl.
  assert (Hop : forall a b d, fits w a -> fits w b -> fits w d ->
    exists r, three_same_lane (Z.lor (Z.shiftl U 5) opc) w a b d = Some r /\ masked w r = f a b d)
    by (intros; by apply three_same_lane_ref).
  pose proof (lanes_run size n (vval s (BITS insn 9 5)) (vval s (BITS insn 20 16)) (vval s (BITS insn 4 0))
    f _ s Hsz Hn Hop) as Hrun. cbv zeta in Hrun. fold w in Hrun.
  eexists _, _. split; [|split; [|split; [|split]]].
  - unfold simd_three_same. cbv zeta. fold size U opc n. rewrite (proj2 (Z.leb_gt 0x18 opc)) by lia.
    do 3 run1 ltac:(apply reg_v_ok; [assumption|by apply reg_field]).
    rewrite (proj2 (Z.eqb_neq opc 3)) by lia. rewrite shiftl8_ebits by done. fold w.
    replace ((U =? 1) && (opc =? 19) && negb (size =? 0)) with false by lia.
    replace ((opc =? 23) && (U =? 0) || (opc =? 20) || (opc =? 21)) with false by lia.
    run1 ltac:(exact Hrun). apply set_v_run; [by apply qcs_wf|by apply reg_field].
  - apply fits_vfill; [done|lia|lia|lia|done].
  - intros i Hi. rewrite vfill_vget by (done || lia). rewrite (proj2 (andb_true_iff _ _)) by lia.
    rewrite Z.sub_0_r. fold (lane_of i). apply Z.mod_small.
    assert (0 <= w) by (destruct Hw as [->|[->|[->| ->]]]; lia).
    destruct (Hop (vget w (vval s (BITS insn 9 5)) i) (vget w (vval s (BITS insn 20 16)) i)
      (vget w (vval s (BITS insn 4 0)) i)) as (r & _ & Hr); [by apply fits_vget..|].
    unfold lane_of. rewrite <- Hr. by apply fits_masked.
  - intros i Hi. rewrite vfill_vget by (done || lia). rewrite (proj2 (andb_false_iff _ _)) by lia. apply vget_0.
  - rewrite anyq_spec. by setoid_rewrite Z2Nat.id; [|lia].
Qed.
End Insn.

(** [sqadd v0.16b, v1.16b, v2.16b]: lanes 0 and 1 clamp, lane 3 does not. *)
Lemma three_same_exact_witness : exists r q,
  simd_three_same 0x4e220c20 sqadd_st = Ok tt (setv 0 r (qcs q sqadd_st)) /\
  vget 8 r 0 = 0x7f /\ vget 8 r 1 = 0x80 /\ vget 8 r 3 = 4 /\ q = true.
Proof.
  destruct (three_same_exact 0x4e220c20 sqadd_st (fun a b _ => ssat 8 (signed 8 a + signed 8 b))
    sqadd_st_wf eq_refl) as (r & q & Hr & _ & Hl & _ & Hq).
  exists r, q. split; [exact Hr|].
  split; [etransitivity; [apply (Hl 0); vm_compute; split; congruence|by vm_compute]|].
  split; [etransitivity; [apply (Hl 1); vm_compute; split; congruence|by vm_compute]|].
  split; [etransitivity; [apply (Hl 3); vm_compute; split; congruence|by vm_compute]|].
  apply Hq. exists 0. split; [vm_compute; split; congruence|by vm_compute].
Defined.
