(* ===== verification/MemThms.v ===== *)
(** * MemThms: the memory accessors and the exclusive monitor

    Stored bytes come back, translation does not disturb them, and
    load-exclusive/store-exclusive pairs behave as a compare-and-swap. *)

From stdpp Require Import gmap.
From S2P Require Import Prelude Types Cpu CpuWf MemSeam Alu DpExec Atomics Mops LdSt Sysreg Decode.
From S2P Require Import LdStSafe ExecSafe FlatMem AluThms.

Section Host.
Context {Mem : Type} `{MemSeamOk Mem}.
Implicit Types m : Mem.

Lemma host_get_store n p v m q : q < p \/ p + Z.of_nat n <= q ->
  host_get q (host_store n p v m) = host_get q m.
Proof.
  revert p v m. induction n as [|n IH]; intros p v m Hq; [done|]. cbn [host_store].
  rewrite IH by lia. apply host_get_put_ne. lia.
Qed.
Lemma host_load_ext n p m m' : (forall q, p <= q < p + Z.of_nat n -> host_get q m = host_get q m') ->
  host_load n p m = host_load n p m'.
Proof.
  revert p. induction n as [|n IH]; intros p Hq; [done|]. cbn [host_load].
  rewrite (Hq p), (IH (p + 1)) by (intros; try apply Hq; lia). done.
Qed.
(** Little-endian bytes come back as they were stored. *)
Lemma host_load_store n p v m : host_load n p (host_store n p v m) = v mod 2 ^ (8 * Z.of_nat n).
Proof.
  revert p v m. induction n as [|n IH]; intros p v m; [by rewrite Z.mod_1_r|]. cbn [host_load host_store].
  rewrite IH, host_get_store, host_get_put_eq by (lia || apply fits_u8).
  apply Z.bits_inj'. intros i Hi. unfold u8. rewrite Zmod_mod, Z.lor_spec, Z.shiftl_spec by lia.
  destruct (Z.lt_ge_cases i 8).
  - rewrite Z.mod_pow2_bits_low by lia. rewrite (Z.testbit_neg_r _ (i - 8)), orb_false_r by lia.
    by rewrite Z.mod_pow2_bits_low by lia.
  - rewrite Z.mod_pow2_bits_high, orb_false_l by lia.
    destruct (Z.lt_ge_cases i (8 * Z.of_nat (S n))).
    + rewrite !Z.mod_pow2_bits_low, Z.shiftr_spec by lia. f_equal. lia.
    + by rewrite !Z.mod_pow2_bits_high by lia.
Qed.
Lemma translate_load n g va need p m : host_load n p (snd (translate g va need m)) = host_load n p m.
Proof. apply host_load_ext. intros. apply translate_get. Qed.
Lemma translate_host_store n g va need p v m :
  translate g va need (host_store n p v m) =
  (fst (translate g va need m), host_store n p v (snd (translate g va need m))).
Proof.
  revert p v m. induction n as [|n IH]; intros p v m; simpl; [by destruct (translate _ _ _ _)|].
  by rewrite IH, translate_put.
Qed.
End Host.

Section MemThms.
Context {Mem : Type} `{MemSeamOk Mem}.
Implicit Types s : St Mem.
Local Open Scope exec_scope.

(** C29: a store and a load of the same bytes of one page, at any alignment and
    size, round-trip: on a page that is writable and readable both succeed,
    the load returns the value stored, truncated to the access, and no other
    byte of memory has changed. *)
Theorem mem_write_read va size v s p b m1 q b' m2 : 0 <= size <= 8 -> crosses va size = false ->
  translate (t_nogrow (s_tls s)) va PTE_W (s_mem s) = ((Some p, b), m1) ->
  translate (t_nogrow (s_tls s)) va PTE_R m1 = ((Some q, b'), m2) ->
  exists s1 s2, mem_write va size v s = Ok tt s1 /\ mem_read va size s1 = Ok (v mod 2 ^ (8 * size)) s2 /\
    forall a, a < p \/ p + size <= a -> host_get a (s_mem s2) = host_get a (s_mem s).
Proof.
  intros Hz Hc Ew Er. pose proof (translate_host _ _ _ _ _ _ _ _ _ _ _ _ _ Ew eq_refl Er) as Eq.
  rewrite Z.sub_diag, Z.add_0_r in Eq. subst q.
  unfold mem_write, mem_read, mem_write_page, mem_read_page. rewrite Hc. unfold bind, translateM. rewrite Ew.
  unfold st_le, ld_le. rewrite (proj2 (Z.leb_le _ _)) by lia. eexists _, _. split; [reflexivity|].
  cbn [s_tls s_mem upd_mem]. rewrite translate_host_store, Er. cbn [fst snd]. split.
  - cbn [upd_mem s_mem]. by rewrite host_load_store, Z2Nat.id by lia.
  - intros a Ha. cbn [upd_mem s_mem]. rewrite host_get_store by lia.
    pose proof (translate_get (t_nogrow (s_tls s)) va PTE_R a m1) as E1.
    pose proof (translate_get (t_nogrow (s_tls s)) va PTE_W a (s_mem s)) as E2.
    rewrite Er in E1. rewrite Ew in E2. cbn [snd] in *. congruence.
Qed.

(** ** The exclusive monitor *)

(** A store-exclusive by cases: without a matching reservation it fails and
    touches nothing; with one it compares and swaps. *)
Lemma stxr_miss va bytes Rs Rt s : st_wf s -> 0 <= Rs < 32 ->
  c_excl_valid (s_cpu s) && (c_excl_addr (s_cpu s) =? va) && (c_excl_size (s_cpu s) =? bytes) = false ->
  exists s', stxr va bytes Rs Rt s = Ok tt s' /\ (Rs <> 31 -> xval s' Rs = 1) /\
    s_mem s' = s_mem s /\ c_excl_valid (s_cpu s') = false.
Proof.
  intros Hs HRs Hh. unfold stxr, monitor_hit, bind at 1, getc at 1, gets at 1. rewrite Hh.
  unfold bind at 1, ret. destruct (set_x_ok s Rs 1 Hs HRs) as (s' & E & Em & _ & Ex).
  unfold bind. rewrite E. eexists. split_and!; [done| |done|done].
  intros Hne. change (xval _ Rs) with (xval s' Rs). rewrite Ex by done.
  by rewrite Z.eqb_refl, (proj2 (Z.eqb_neq _ _) Hne).
Qed.
Lemma stxr_hit va bytes Rs Rt s s1 p : st_wf s -> 0 <= Rs < 32 -> 0 <= Rt < 32 ->
  c_excl_valid (s_cpu s) && (c_excl_addr (s_cpu s) =? va) && (c_excl_size (s_cpu s) =? bytes) = true ->
  mem_host_ptr va bytes ACC_WRITE s = Ok (Some p) s1 ->
  let n := Z.to_nat bytes in
  let ok := host_load n p (s_mem s1) =? trunc bytes (c_excl_val (s_cpu s1)) in
  exists s', stxr va bytes Rs Rt s = Ok tt s' /\
    (Rs <> 31 -> xval s' Rs = if ok then 0 else 1) /\ c_excl_valid (s_cpu s') = false /\
    s_mem s' = if ok then host_store n p (trunc bytes (xval s1 Rt)) (s_mem s1) else s_mem s1.
Proof.
  intros Hs HRs HRt Hh Hp n ok.
  pose proof (safe_mem_host_ptr True va bytes ACC_WRITE s Hs) as Hs1. rewrite Hp in Hs1.
  destruct Hs1 as [_ Hs1].
  unfold stxr, monitor_hit, bind at 1, getc at 1, gets at 1. rewrite Hh.
  unfold bind at 1. unfold bind at 1. rewrite Hp.
  unfold bind at 1. rewrite reg_x_ok by done. unfold bind at 1, getc at 1, gets at 1.
  unfold bind at 1, at_cas, bind at 1, at_load, gets. fold n ok.
  destruct ok.
  - unfold bind at 1, at_store, modify, ret.
    set (s2 := upd_mem (host_store (Z.to_nat bytes) p (trunc bytes (xval s1 Rt))) s1).
    assert (Hs2 : st_wf s2) by done. cbn [fst].
    destruct (set_x_ok s2 Rs 0 Hs2 HRs) as (s' & E & Em & _ & Ex).
    unfold bind. rewrite E. eexists. split_and!; [done| |done|done].
    intros Hne. change (xval _ Rs) with (xval s' Rs). rewrite Ex by done.
    by rewrite Z.eqb_refl, (proj2 (Z.eqb_neq _ _) Hne).
  - unfold ret. cbn [fst]. destruct (set_x_ok s1 Rs 1 Hs1 HRs) as (s' & E & Em & _ & Ex).
    unfold bind. rewrite E. eexists. split_and!; [done| |done|done].
    intros Hne. change (xval _ Rs) with (xval s' Rs). rewrite Ex by done.
    by rewrite Z.eqb_refl, (proj2 (Z.eqb_neq _ _) Hne).
Qed.

(** What a load-exclusive that returned has done. *)
Lemma ldxr_ok va bytes Rt s s1 : st_wf s -> 0 <= bytes <= 8 -> 0 <= Rt < 32 -> crosses va bytes = false ->
  ldxr va bytes Rt s = Ok tt s1 ->
  exists p b, translate (t_nogrow (s_tls s)) va PTE_R (s_mem s) = ((Some p, b), s_mem s1) /\
    c_excl_valid (s_cpu s1) = true /\ c_excl_addr (s_cpu s1) = va /\ c_excl_size (s_cpu s1) = bytes /\
    c_excl_val (s_cpu s1) = host_load (Z.to_nat bytes) p (s_mem s1).
Proof.
  intros Hs Hb HRt Hc. unfold ldxr, mem_read, mem_read_page. rewrite Hc.
  unfold bind at 1. unfold bind at 1, translateM.
  destruct (translate _ va PTE_R (s_mem s)) as [[[p|] b] m1] eqn:Et; [|done].
  unfold ld_le. rewrite (proj2 (Z.leb_le _ _)) by lia.
  set (s0 := upd_mem (fun _ => m1) s). assert (Hs0 : st_wf s0) by done.
  destruct (set_x_ok s0 Rt (host_load (Z.to_nat bytes) p (s_mem s0)) Hs0 HRt) as (s' & E & Em & _).
  unfold bind. rewrite E. intros [= <-].
  exists p, b. change (s_mem (upd_cpu _ _)) with (s_mem s'). rewrite Em. done.
Qed.

(** C28: load-exclusive then store-exclusive of the same bytes succeeds when
    nothing came between (status 0, the new value in memory, the reservation
    gone), and a second store-exclusive then fails with memory untouched. *)
Theorem exclusive_pair va bytes Rt s s1 s2 p Rs Rt2 : st_wf s -> In bytes [1; 2; 4; 8] ->
  fits 64 va -> 0 <= Rt < 32 -> 0 <= Rs < 31 -> 0 <= Rt2 < 32 ->
  ldxr va bytes Rt s = Ok tt s1 -> mem_host_ptr va bytes ACC_WRITE s1 = Ok (Some p) s2 ->
  exists s3 s4, stxr va bytes Rs Rt2 s1 = Ok tt s3 /\ xval s3 Rs = 0 /\
    host_load (Z.to_nat bytes) p (s_mem s3) = trunc bytes (xval s1 Rt2) /\
    stxr va bytes Rs Rt2 s3 = Ok tt s4 /\ xval s4 Rs = 1 /\ s_mem s4 = s_mem s3.
Proof.
  intros Hs Hb Hva HRt HRs HRt2 El Ep.
  assert (Hz : 0 <= bytes <= 8) by (cbn in Hb; lia).
  assert (Hc : crosses va bytes = false).
  { unfold mem_host_ptr in Ep. by destruct (crosses va bytes). }
  pose proof (safe_ldxr True va bytes Rt ltac:(cbn in Hb; lia) HRt Hva s Hs) as Hs1.
  rewrite El in Hs1. destruct Hs1 as [_ Hs1].
  destruct (ldxr_ok va bytes Rt s s1 Hs Hz HRt Hc El) as (p0 & b & Et & Hv & Ha & Hsz & Hval).
  assert (Hhit : c_excl_valid (s_cpu s1) && (c_excl_addr (s_cpu s1) =? va) &&
    (c_excl_size (s_cpu s1) =? bytes) = true) by (rewrite Hv, Ha, Hsz, !Z.eqb_refl; done).
  assert (Hp : p = p0 /\ host_load (Z.to_nat bytes) p (s_mem s2) = host_load (Z.to_nat bytes) p (s_mem s1)
    /\ s_cpu s2 = s_cpu s1).
  { unfold mem_host_ptr in Ep. rewrite Hc in Ep. destruct (uaddr_tag_refused va (s_tls s1)); [done|].
    revert Ep. unfold bind, translateM.
    destruct (translate (t_nogrow (s_tls s1)) va _ (s_mem s1)) as [[r b'] m2] eqn:Et2.
    cbn. intros [= -> <-]. split_and!; [|cbn|done].
    - pose proof (translate_host _ _ _ _ _ _ _ _ _ _ _ _ _ Et eq_refl Et2). lia.
    - pose proof (translate_load (Z.to_nat bytes) (t_nogrow (s_tls s1)) va (acc_need ACC_WRITE) p (s_mem s1)) as E.
      by rewrite Et2 in E. }
  destruct Hp as (<- & Hl & Hcpu).
  destruct (stxr_hit va bytes Rs Rt2 s1 s2 p Hs1 ltac:(lia) HRt2 Hhit Ep) as (s3 & E3 & Hr & Hx & Hm).
  assert (Hok : (host_load (Z.to_nat bytes) p (s_mem s2) =? trunc bytes (c_excl_val (s_cpu s2))) = true).
  { apply Z.eqb_eq. rewrite Hcpu, Hl, Hval. unfold trunc. symmetry. apply Z.mod_small.
    pose proof (fits_host_load (Z.to_nat bytes) p (s_mem s1)) as Hf. by rewrite Z2Nat.id in Hf by lia. }
  rewrite Hok in Hr, Hm.
  pose proof (safe_stxr True va bytes Rs Rt2 ltac:(cbn in Hb; lia) HRt2 ltac:(lia) s1 Hs1) as Hs3.
  rewrite E3 in Hs3. destruct Hs3 as [_ Hs3].
  destruct (stxr_miss va bytes Rs Rt2 s3 Hs3 ltac:(lia)) as (s4 & E4 & Hr4 & Hm4 & _); [by rewrite Hx|].
  exists s3, s4. split_and!; [done|apply Hr; lia| |done|apply Hr4; lia|done].
  rewrite Hm, host_load_store, Z2Nat.id by lia. unfold trunc at 1. rewrite Zmod_mod.
  unfold trunc, xval. by rewrite Hcpu.
Qed.
End MemThms.

(** A byte-misaligned word on the flat machine, and [ldxr]/[stxr] at 0x2000. *)
Lemma mem_write_read_witness : exists s1 s2,
  mem_write 0x2001 4 0xdeadbeef01 (flat_st []) = Ok tt s1 /\ mem_read 0x2001 4 s1 = Ok 0xadbeef01 s2 /\
  forall a, a < 0x2001 \/ 0x2001 + 4 <= a -> host_get a (s_mem s2) = host_get a (s_mem (flat_st [])).
Proof.
  assert (Ew : translate false 0x2001 PTE_W (s_mem (flat_st [])) = ((Some 0x2001, false), s_mem (flat_st [])))
    by reflexivity.
  assert (Er : translate false 0x2001 PTE_R (s_mem (flat_st [])) = ((Some 0x2001, false), s_mem (flat_st [])))
    by reflexivity.
  exact (mem_write_read 0x2001 4 0xdeadbeef01 (flat_st []) 0x2001 false _ 0x2001 false _ ltac:(lia) eq_refl Ew Er).
Defined.
Lemma exclusive_pair_witness : exists s1 s3,
  ldxr 0x2000 8 0 (flat_st [0; 7]) = Ok tt s1 /\ stxr 0x2000 8 2 1 s1 = Ok tt s3 /\ xval s3 2 = 0.
Proof.
  destruct (ldxr 0x2000 8 0 (flat_st [0; 7])) as [[] s1|s1|] eqn:E1; [|vm_compute in E1; discriminate..].
  destruct (exclusive_pair 0x2000 8 0 (flat_st [0; 7]) s1 s1 0x2000 2 1
    (flat_st_wf [0; 7] eq_refl) ltac:(cbn; auto) ltac:(split; lia) ltac:(lia) ltac:(lia) ltac:(lia) E1)
    as (s3 & s4 & E3 & Hr & _).
  - vm_compute in E1. injection E1 as <-. reflexivity.
  - exists s1, s3. split; [reflexivity|]. split; assumption.
Defined.
