(* ===== verification/PdExec.v ===== *)
(** * PdExec: the pre-decoded handlers and the threaded run loop (predecode.c)

    One definition per label of [pd_run], the dispatch table [pd_tab], the
    per-thread decode cache, and [pd_run] itself: a handler's tail [NEXT] is
    the loop that fetches, validates and dispatches the next instruction. *)

From stdpp Require Import gmap.
From S2P Require Import Prelude Types Cpu MemSeam Alu DpExec LdSt Sysreg Decode Predecode.
Open Scope Z_scope.

(** ** The helpers transcribed from decode.c *)
Definition pd_awc (x y cin : Z) (is64 : bool) : Z * Z :=
  if is64 then
    let t := u64 (x + y) in
    let res := u64 (t + cin) in
    let C := (t <? x) || (res <? t) in
    let V := negb (u32 (Z.shiftr (Z.land (not64 (Z.lxor x y)) (Z.lxor x res)) 63) =? 0) in
    let N := negb (u32 (Z.shiftr res 63) =? 0) in
    (res, mk_nzcv N (res =? 0) C V)
  else
    let xx := u32 x in let yy := u32 y in
    let u := u64 (xx + yy + cin) in
    let res := u32 u in
    let C := negb (u32 (Z.land (Z.shiftr u 32) 1) =? 0) in
    let s := s32 xx + s32 yy + cin in
    let V := negb (s32 res =? s) in
    let N := negb (Z.shiftr res 31 =? 0) in
    (res, mk_nzcv N (res =? 0) C V).

Definition pd_logical_flags (res : Z) (is64 : bool) : Z :=
  let r := if is64 then res else u32 res in
  let f := if negb (Z.shiftr r (if is64 then 63 else 31) =? 0) then Z.lor 0 PS_N else 0 in
  if r =? 0 then Z.lor f PS_Z else f.

Definition pd_shift_reg (v type amount : Z) (is64 : bool) : Z :=
  let w := if is64 then 64 else 32 in
  let amount := Z.land amount (w - 1) in
  let v := if is64 then v else u32 v in
  match type with
  | 0 => u64 (Z.shiftl v amount)
  | 1 => if is64 then Z.shiftr v amount else Z.shiftr (u32 v) amount
  | 2 => if is64 then u64 (Z.shiftr (s64 v) amount)
         else u32 (Z.shiftr (s32 (u32 v)) amount)
  | _ => if is64 then ror64 v amount else ror32 (u32 v) amount
  end.

Definition pd_extend_reg (v option shift : Z) : Z :=
  let out := match Z.land option 3 with
             | 0 => u8 v | 1 => u16 v | 2 => u32 v | _ => v end in
  let out := if has option 4 then
               let bits := match Z.land option 3 with
                           | 0 => 8 | 1 => 16 | 2 => 32 | _ => 64 end in
               sign_extend out bits
             else out in
  u64 (Z.shiftl out shift).

(** [g_pdcache], by index. *)
Abbreviation PDCache := (gmap Z PDEnt).

Section PdExec.
Context {Mem : Type} `{MemSeam Mem} `{Hooks Mem}.
Local Open Scope exec_scope.

(** ** The labels *)
Definition L_NOP (e : PDEnt) : M (St Mem) unit := ret tt.

(** [c->pc = c->cur_insn_pc + e->imm]. *)
Definition pd_jump (e : PDEnt) : M (St Mem) unit :=
  putc (fun c => with_pc (u64 (c_cur_insn_pc c + pd_imm e)) c).
(** [set_x(c, 30, c->cur_insn_pc + 4)]. *)
Definition pd_link : M (St Mem) unit :=
  cur <- getc c_cur_insn_pc; set_x 30 (u64 (cur + 4)).

Definition L_B (e : PDEnt) : M (St Mem) unit := pd_jump e.
Definition L_BL (e : PDEnt) : M (St Mem) unit := pd_link ;; pd_jump e.
Definition L_BCOND (e : PDEnt) : M (St Mem) unit :=
  nzcv <- getc c_nzcv; if cond_holds nzcv (pd_rd e) then pd_jump e else ret tt.
Definition L_CBZ64 (e : PDEnt) : M (St Mem) unit :=
  v <- reg_x (pd_rd e); if v =? 0 then pd_jump e else ret tt.
Definition L_CBZ32 (e : PDEnt) : M (St Mem) unit :=
  v <- reg_x (pd_rd e); if u32 v =? 0 then pd_jump e else ret tt.
Definition L_CBNZ64 (e : PDEnt) : M (St Mem) unit :=
  v <- reg_x (pd_rd e); if negb (v =? 0) then pd_jump e else ret tt.
Definition L_CBNZ32 (e : PDEnt) : M (St Mem) unit :=
  v <- reg_x (pd_rd e); if negb (u32 v =? 0) then pd_jump e else ret tt.
Definition L_TBZ (e : PDEnt) : M (St Mem) unit :=
  v <- reg_x (pd_rd e); if negb (has (Z.shiftr v (pd_rm e)) 1) then pd_jump e else ret tt.
Definition L_TBNZ (e : PDEnt) : M (St Mem) unit :=
  v <- reg_x (pd_rd e); if has (Z.shiftr v (pd_rm e)) 1 then pd_jump e else ret tt.
Definition L_BR (e : PDEnt) : M (St Mem) unit := t <- reg_x (pd_rn e); putc (with_pc t).
Definition L_BLR (e : PDEnt) : M (St Mem) unit :=
  tgt <- reg_x (pd_rn e); pd_link ;; putc (with_pc tgt).

(** add/sub immediate *)
Definition L_ADD64I (e : PDEnt) : M (St Mem) unit :=
  n <- reg_xsp (pd_rn e); set_xsp (pd_rd e) (u64 (n + pd_imm e)).
Definition L_ADD32I (e : PDEnt) : M (St Mem) unit :=
  n <- reg_xsp (pd_rn e); set_xsp (pd_rd e) (u32 (u64 (n + pd_imm e))).
Definition L_SUB64I (e : PDEnt) : M (St Mem) unit :=
  n <- reg_xsp (pd_rn e); set_xsp (pd_rd e) (u64 (n - pd_imm e)).
Definition L_SUB32I (e : PDEnt) : M (St Mem) unit :=
  n <- reg_xsp (pd_rn e); set_xsp (pd_rd e) (u32 (u64 (n - pd_imm e))).
(** [c->nzcv = fl; set_x(c, rd, r)], truncated when not [is64]. *)
Definition set_flags_x (rd : Z) (is64 : bool) (rf : Z * Z) : M (St Mem) unit :=
  putc (with_nzcv (snd rf)) ;; set_x rd (if is64 then fst rf else u32 (fst rf)).
Definition L_ADDS64I (e : PDEnt) : M (St Mem) unit :=
  n <- reg_xsp (pd_rn e); set_flags_x (pd_rd e) true (pd_awc n (pd_imm e) 0 true).
Definition L_ADDS32I (e : PDEnt) : M (St Mem) unit :=
  n <- reg_xsp (pd_rn e); set_flags_x (pd_rd e) false (pd_awc n (pd_imm e) 0 false).
Definition L_SUBS64I (e : PDEnt) : M (St Mem) unit :=
  n <- reg_xsp (pd_rn e); set_flags_x (pd_rd e) true (pd_awc n (pd_imm e) 1 true).
Definition L_SUBS32I (e : PDEnt) : M (St Mem) unit :=
  n <- reg_xsp (pd_rn e); set_flags_x (pd_rd e) false (pd_awc n (pd_imm e) 1 false).

(** logical immediate *)
Definition L_AND64I (e : PDEnt) : M (St Mem) unit :=
  n <- reg_x (pd_rn e); set_xsp (pd_rd e) (Z.land n (pd_imm e)).
Definition L_AND32I (e : PDEnt) : M (St Mem) unit :=
  n <- reg_x (pd_rn e); set_xsp (pd_rd e) (u32 (Z.land n (pd_imm e))).
Definition L_ORR64I (e : PDEnt) : M (St Mem) unit :=
  n <- reg_x (pd_rn e); set_xsp (pd_rd e) (Z.lor n (pd_imm e)).
Definition L_ORR32I (e : PDEnt) : M (St Mem) unit :=
  n <- reg_x (pd_rn e); set_xsp (pd_rd e) (u32 (Z.lor n (pd_imm e))).
Definition L_EOR64I (e : PDEnt) : M (St Mem) unit :=
  n <- reg_x (pd_rn e); set_xsp (pd_rd e) (Z.lxor n (pd_imm e)).
Definition L_EOR32I (e : PDEnt) : M (St Mem) unit :=
  n <- reg_x (pd_rn e); set_xsp (pd_rd e) (u32 (Z.lxor n (pd_imm e))).
Definition L_ANDS64I (e : PDEnt) : M (St Mem) unit :=
  n <- reg_x (pd_rn e);
  let r := Z.land n (pd_imm e) in
  putc (with_nzcv (pd_logical_flags r true)) ;; set_x (pd_rd e) r.
Definition L_ANDS32I (e : PDEnt) : M (St Mem) unit :=
  n <- reg_x (pd_rn e);
  let r := u32 (Z.land n (pd_imm e)) in
  putc (with_nzcv (pd_logical_flags r false)) ;; set_x (pd_rd e) r.

(** move wide / PC-relative *)
Definition L_MOVI (e : PDEnt) : M (St Mem) unit := set_x (pd_rd e) (pd_imm e).
Definition movk_value (e : PDEnt) (v : Z) : Z :=
  Z.lor (Z.land v (not64 (u64 (Z.shiftl 0xffff (pd_rm e))))) (pd_imm e).
Definition L_MOVK64 (e : PDEnt) : M (St Mem) unit :=
  v <- reg_x (pd_rd e); set_x (pd_rd e) (movk_value e v).
Definition L_MOVK32 (e : PDEnt) : M (St Mem) unit :=
  v <- reg_x (pd_rd e); set_x (pd_rd e) (u32 (movk_value e v)).
Definition L_ADR (e : PDEnt) : M (St Mem) unit :=
  cur <- getc c_cur_insn_pc; set_x (pd_rd e) (u64 (cur + pd_imm e)).
Definition L_ADRP (e : PDEnt) : M (St Mem) unit :=
  cur <- getc c_cur_insn_pc; set_x (pd_rd e) (u64 (Z.land cur (not64 0xfff) + pd_imm e)).

(** bitfield aliases *)
Definition L_LSL64I (e : PDEnt) : M (St Mem) unit :=
  n <- reg_x (pd_rn e); set_x (pd_rd e) (u64 (Z.shiftl n (pd_rm e))).
Definition L_LSL32I (e : PDEnt) : M (St Mem) unit :=
  n <- reg_x (pd_rn e); set_x (pd_rd e) (u32 (u64 (Z.shiftl n (pd_rm e)))).
Definition L_LSR64I (e : PDEnt) : M (St Mem) unit :=
  n <- reg_x (pd_rn e); set_x (pd_rd e) (Z.shiftr n (pd_rm e)).
Definition L_LSR32I (e : PDEnt) : M (St Mem) unit :=
  n <- reg_x (pd_rn e); set_x (pd_rd e) (Z.shiftr (u32 n) (pd_rm e)).
Definition L_ASR64I (e : PDEnt) : M (St Mem) unit :=
  n <- reg_x (pd_rn e); set_x (pd_rd e) (u64 (Z.shiftr (s64 n) (pd_rm e))).
Definition L_ASR32I (e : PDEnt) : M (St Mem) unit :=
  n <- reg_x (pd_rn e); set_x (pd_rd e) (u32 (Z.shiftr (s32 (u32 n)) (pd_rm e))).
Definition L_UBFX64 (e : PDEnt) : M (St Mem) unit :=
  n <- reg_x (pd_rn e); set_x (pd_rd e) (Z.land (Z.shiftr n (pd_rm e)) (pd_imm e)).
Definition L_UBFX32 (e : PDEnt) : M (St Mem) unit :=
  n <- reg_x (pd_rn e); set_x (pd_rd e) (Z.land (Z.shiftr n (pd_rm e)) (pd_imm e)).
Definition L_UBFIZ64 (e : PDEnt) : M (St Mem) unit :=
  n <- reg_x (pd_rn e); set_x (pd_rd e) (u64 (Z.shiftl (Z.land n (pd_imm e)) (pd_rm e))).
Definition L_UBFIZ32 (e : PDEnt) : M (St Mem) unit :=
  n <- reg_x (pd_rn e); set_x (pd_rd e) (u32 (u64 (Z.shiftl (Z.land n (pd_imm e)) (pd_rm e)))).
Definition L_SBFX64 (e : PDEnt) : M (St Mem) unit :=
  n <- reg_x (pd_rn e);
  set_x (pd_rd e) (u64 (Z.shiftr (s64 (u64 (Z.shiftl n (pd_rm e)))) (pd_imm e))).
Definition L_SBFX32 (e : PDEnt) : M (St Mem) unit :=
  n <- reg_x (pd_rn e);
  set_x (pd_rd e) (u32 (Z.shiftr (s32 (u32 (Z.shiftl (u32 n) (pd_rm e)))) (pd_imm e))).
Definition L_EXTR64 (e : PDEnt) : M (St Mem) unit :=
  hi <- reg_x (pd_rn e);
  lo <- reg_x (pd_rm e);
  set_x (pd_rd e) (if negb (pd_imm e =? 0)
    then Z.lor (u64 (Z.shiftl hi (64 - pd_imm e))) (Z.shiftr lo (pd_imm e)) else lo).
Definition L_EXTR32 (e : PDEnt) : M (St Mem) unit :=
  hi <- reg_x (pd_rn e);
  lo <- reg_x (pd_rm e);
  let h := u32 hi in let l := u32 lo in
  set_x (pd_rd e) (if negb (pd_imm e =? 0)
    then u32 (Z.lor (u32 (Z.shiftl h (32 - pd_imm e))) (Z.shiftr l (pd_imm e))) else l).

(** Two-register forms: [set_x(c, rd, f(x[rn], x[rm]))]. *)
Definition pd_rr (e : PDEnt) (f : Z -> Z -> Z) : M (St Mem) unit :=
  n <- reg_x (pd_rn e); m <- reg_x (pd_rm e); set_x (pd_rd e) (f n m).

(** logical shifted register, LSL #0 *)
Definition L_AND64 (e : PDEnt) := pd_rr e (fun n m => Z.land n m).
Definition L_AND32 (e : PDEnt) := pd_rr e (fun n m => u32 (Z.land n m)).
Definition L_BIC64 (e : PDEnt) := pd_rr e (fun n m => Z.land n (not64 m)).
Definition L_BIC32 (e : PDEnt) := pd_rr e (fun n m => u32 (Z.land n (not64 m))).
Definition L_ORR64 (e : PDEnt) := pd_rr e (fun n m => Z.lor n m).
Definition L_ORR32 (e : PDEnt) := pd_rr e (fun n m => u32 (Z.lor n m)).
Definition L_ORN64 (e : PDEnt) := pd_rr e (fun n m => Z.lor n (not64 m)).
Definition L_ORN32 (e : PDEnt) := pd_rr e (fun n m => u32 (Z.lor n (not64 m))).
Definition L_EOR64 (e : PDEnt) := pd_rr e (fun n m => Z.lxor n m).
Definition L_EOR32 (e : PDEnt) := pd_rr e (fun n m => u32 (Z.lxor n m)).
Definition L_EON64 (e : PDEnt) := pd_rr e (fun n m => Z.lxor n (not64 m)).
Definition L_EON32 (e : PDEnt) := pd_rr e (fun n m => u32 (Z.lxor n (not64 m))).
(** ANDS/BICS: the result's flags, then the result. *)
Definition pd_rr_flags (e : PDEnt) (is64 : bool) (f : Z -> Z -> Z) : M (St Mem) unit :=
  n <- reg_x (pd_rn e);
  m <- reg_x (pd_rm e);
  let r := if is64 then f n m else u32 (f n m) in
  putc (with_nzcv (pd_logical_flags r is64)) ;; set_x (pd_rd e) r.
Definition L_ANDS64 (e : PDEnt) := pd_rr_flags e true (fun n m => Z.land n m).
Definition L_ANDS32 (e : PDEnt) := pd_rr_flags e false (fun n m => Z.land n m).
Definition L_BICS64 (e : PDEnt) := pd_rr_flags e true (fun n m => Z.land n (not64 m)).
Definition L_BICS32 (e : PDEnt) := pd_rr_flags e false (fun n m => Z.land n (not64 m)).

(** [e->op == a || e->op == b || ...]. *)
Definition op_in (e : PDEnt) (l : list PDOp) : bool := existsb (pd_is (pd_op e)) l.

(** logical shifted register with a shift *)
Definition L_AND64S (e : PDEnt) : M (St Mem) unit :=
  let is64 := op_in e [PD_AND64S; PD_ORR64S; PD_EOR64S; PD_ANDS64S] in
  m <- reg_x (pd_rm e);
  let op2 := pd_shift_reg m (Z.land (u32 (Z.shiftr (pd_imm e) 6)) 3)
                          (Z.land (u32 (pd_imm e)) 63) is64 in
  let op2 := if has (pd_imm e) 256 then not64 op2 else op2 in
  n <- reg_x (pd_rn e);
  let r := if op_in e [PD_AND64S; PD_AND32S; PD_ANDS64S; PD_ANDS32S] then Z.land n op2
           else if op_in e [PD_ORR64S; PD_ORR32S] then Z.lor n op2
           else Z.lxor n op2 in
  let r := if is64 then r else u32 r in
  (if op_in e [PD_ANDS64S; PD_ANDS32S] then putc (with_nzcv (pd_logical_flags r is64))
   else ret tt) ;;
  set_x (pd_rd e) r.

(** add/sub shifted register, LSL #0 *)
Definition L_ADD64R (e : PDEnt) := pd_rr e (fun n m => u64 (n + m)).
Definition L_ADD32R (e : PDEnt) := pd_rr e (fun n m => u32 (u64 (n + m))).
Definition L_SUB64R (e : PDEnt) := pd_rr e (fun n m => u64 (n - m)).
Definition L_SUB32R (e : PDEnt) := pd_rr e (fun n m => u32 (u64 (n - m))).
(** ADDS/SUBS. *)
Definition pd_rr_awc (e : PDEnt) (is64 : bool) (f : Z -> Z -> Z * Z) : M (St Mem) unit :=
  n <- reg_x (pd_rn e); m <- reg_x (pd_rm e); set_flags_x (pd_rd e) is64 (f n m).
Definition L_ADDS64R (e : PDEnt) := pd_rr_awc e true (fun n m => pd_awc n m 0 true).
Definition L_ADDS32R (e : PDEnt) := pd_rr_awc e false (fun n m => pd_awc n m 0 false).
Definition L_SUBS64R (e : PDEnt) := pd_rr_awc e true (fun n m => pd_awc n (not64 m) 1 true).
Definition L_SUBS32R (e : PDEnt) := pd_rr_awc e false (fun n m => pd_awc n (not64 m) 1 false).

(** add/sub shifted register with a shift *)
Definition L_ADD64RS (e : PDEnt) : M (St Mem) unit :=
  let is64 := op_in e [PD_ADD64RS; PD_SUB64RS; PD_ADDS64RS; PD_SUBS64RS] in
  let sub := op_in e [PD_SUB64RS; PD_SUB32RS; PD_SUBS64RS; PD_SUBS32RS] in
  let S := op_in e [PD_ADDS64RS; PD_ADDS32RS; PD_SUBS64RS; PD_SUBS32RS] in
  m <- reg_x (pd_rm e);
  let op2 := pd_shift_reg m (Z.land (u32 (Z.shiftr (pd_imm e) 6)) 3)
                          (Z.land (u32 (pd_imm e)) 63) is64 in
  n <- reg_x (pd_rn e);
  let '(r, fl) := if sub then pd_awc n (not64 op2) 1 is64 else pd_awc n op2 0 is64 in
  (if S then putc (with_nzcv fl) else ret tt) ;;
  set_x_sz (pd_rd e) is64 r.

(** add/sub extended register *)
Definition L_ADDX64 (e : PDEnt) : M (St Mem) unit :=
  let is64 := op_in e [PD_ADDX64; PD_SUBX64; PD_ADDSX64; PD_SUBSX64] in
  let sub := op_in e [PD_SUBX64; PD_SUBX32; PD_SUBSX64; PD_SUBSX32] in
  let S := op_in e [PD_ADDSX64; PD_ADDSX32; PD_SUBSX64; PD_SUBSX32] in
  m <- reg_x (pd_rm e);
  let op2 := pd_extend_reg m (Z.land (u32 (Z.shiftr (pd_imm e) 3)) 7)
                           (Z.land (u32 (pd_imm e)) 7) in
  n <- reg_xsp (pd_rn e);
  let '(r, fl) := if sub then pd_awc n (not64 op2) 1 is64 else pd_awc n op2 0 is64 in
  if S then putc (with_nzcv fl) ;; set_x_sz (pd_rd e) is64 r
  else set_xsp (pd_rd e) (if is64 then r else u32 r).

(** 3-source: [set_x(c, rd, f(x[Ra], x[rn], x[rm]))]. *)
Definition pd_3r (e : PDEnt) (f : Z -> Z -> Z -> Z) : M (St Mem) unit :=
  a <- reg_x (u32 (pd_imm e));
  n <- reg_x (pd_rn e);
  m <- reg_x (pd_rm e);
  set_x (pd_rd e) (f a n m).
Definition L_MADD64 (e : PDEnt) := pd_3r e (fun a n m => u64 (a + u64 (n * m))).
Definition L_MADD32 (e : PDEnt) := pd_3r e (fun a n m => u32 (u64 (a + u64 (n * m)))).
Definition L_MSUB64 (e : PDEnt) := pd_3r e (fun a n m => u64 (a - u64 (n * m))).
Definition L_MSUB32 (e : PDEnt) := pd_3r e (fun a n m => u32 (u64 (a - u64 (n * m)))).
Definition L_SMADDL (e : PDEnt) :=
  pd_3r e (fun a n m => u64 (a + u64 (s32 (u32 n) * s32 (u32 m)))).
Definition L_SMSUBL (e : PDEnt) :=
  pd_3r e (fun a n m => u64 (a - u64 (s32 (u32 n) * s32 (u32 m)))).
Definition L_UMADDL (e : PDEnt) := pd_3r e (fun a n m => u64 (a + u64 (u32 n * u32 m))).
Definition L_UMSUBL (e : PDEnt) := pd_3r e (fun a n m => u64 (a - u64 (u32 n * u32 m))).
Definition L_SMULH (e : PDEnt) := pd_rr e (fun n m => u64 (smulh64 (s64 n) (s64 m))).
Definition L_UMULH (e : PDEnt) := pd_rr e (fun n m => umulh64 n m).

(** conditional select *)
Definition L_CSEL64 (e : PDEnt) : M (St Mem) unit :=
  let is64 := op_in e [PD_CSEL64; PD_CSINC64; PD_CSINV64; PD_CSNEG64] in
  nzcv <- getc c_nzcv;
  r <- (if cond_holds nzcv (u32 (pd_imm e)) then reg_x (pd_rn e)
        else
          m <- reg_x (pd_rm e);
          ret (if op_in e [PD_CSEL64; PD_CSEL32] then m
               else if op_in e [PD_CSINC64; PD_CSINC32] then u64 (m + 1)
               else if op_in e [PD_CSINV64; PD_CSINV32] then not64 m
               else u64 (0 - m)));
  set_x_sz (pd_rd e) is64 r.

(** conditional compare *)
Definition L_CCMP64I (e : PDEnt) : M (St Mem) unit :=
  let is64 := op_in e [PD_CCMP64I; PD_CCMP64R; PD_CCMN64I; PD_CCMN64R] in
  let cmp := op_in e [PD_CCMP64I; PD_CCMP32I; PD_CCMP64R; PD_CCMP32R] in
  let is_imm := op_in e [PD_CCMP64I; PD_CCMP32I; PD_CCMN64I; PD_CCMN32I] in
  nzcv <- getc c_nzcv;
  if cond_holds nzcv (Z.land (u32 (pd_imm e)) 15) then
    n <- reg_x (pd_rn e);
    m <- (if is_imm then ret (Z.land (Z.shiftr (pd_imm e) 8) 31) else reg_x (pd_rm e));
    putc (with_nzcv (snd (if cmp then pd_awc n (not64 m) 1 is64 else pd_awc n m 0 is64)))
  else putc (with_nzcv (u32 (Z.shiftr (pd_imm e) 32))).

(** 1-source *)
Definition pd_r (e : PDEnt) (f : Z -> Z) : M (St Mem) unit :=
  n <- reg_x (pd_rn e); set_x (pd_rd e) (f n).
Definition L_REV64 (e : PDEnt) := pd_r e bswap64.
Definition L_REVW (e : PDEnt) := pd_r e (fun n => bswap32 (u32 n)).
Definition L_CLZ64 (e : PDEnt) := pd_r e (fun n => if n =? 0 then 64 else clz 64 n).
Definition L_CLZ32 (e : PDEnt) :=
  pd_r e (fun n => if u32 n =? 0 then 32 else clz 32 (u32 n)).

(** 2-source *)
Definition L_UDIV64 (e : PDEnt) := pd_rr e (fun n m => if m =? 0 then 0 else n / m).
Definition L_UDIV32 (e : PDEnt) :=
  pd_rr e (fun n m => if u32 m =? 0 then 0 else u32 n / u32 m).
Definition L_SDIV64 (e : PDEnt) := pd_rr e (fun n m =>
  let a := s64 n in let b := s64 m in
  if b =? 0 then 0 else u64 (if (b =? -1) && (a =? - 2 ^ 63) then a else Z.quot a b)).
Definition L_SDIV32 (e : PDEnt) := pd_rr e (fun n m =>
  let a := s32 (u32 n) in let b := s32 (u32 m) in
  if b =? 0 then 0 else u32 (if (b =? -1) && (a =? - 2 ^ 31) then a else Z.quot a b)).
Definition L_LSLV64 (e : PDEnt) := pd_rr e (fun n m => pd_shift_reg n 0 (u32 m) true).
Definition L_LSLV32 (e : PDEnt) := pd_rr e (fun n m => u32 (pd_shift_reg n 0 (u32 m) false)).
Definition L_LSRV64 (e : PDEnt) := pd_rr e (fun n m => pd_shift_reg n 1 (u32 m) true).
Definition L_LSRV32 (e : PDEnt) := pd_rr e (fun n m => u32 (pd_shift_reg n 1 (u32 m) false)).
Definition L_ASRV64 (e : PDEnt) := pd_rr e (fun n m => pd_shift_reg n 2 (u32 m) true).
Definition L_ASRV32 (e : PDEnt) := pd_rr e (fun n m => u32 (pd_shift_reg n 2 (u32 m) false)).
Definition L_RORV64 (e : PDEnt) := pd_rr e (fun n m => pd_shift_reg n 3 (u32 m) true).
Definition L_RORV32 (e : PDEnt) := pd_rr e (fun n m => u32 (pd_shift_reg n 3 (u32 m) false)).

(** integer load/store, va = base + imm *)
Definition pd_va (e : PDEnt) : M (St Mem) Z :=
  b <- reg_xsp (pd_rn e); ret (u64 (b + pd_imm e)).
Definition pd_load (e : PDEnt) (bytes : Z) (f : Z -> Z) : M (St Mem) unit :=
  va <- pd_va e; v <- mem_read va bytes; set_x (pd_rd e) (f v).
Definition pd_store (e : PDEnt) (bytes : Z) : M (St Mem) unit :=
  va <- pd_va e; t <- reg_x (pd_rd e); mem_write va bytes t.
Definition L_LDR64U (e : PDEnt) := pd_load e 8 (fun v => v).
Definition L_LDR32U (e : PDEnt) := pd_load e 4 u32.
Definition L_LDRB (e : PDEnt) := pd_load e 1 (fun v => v).
Definition L_LDRH (e : PDEnt) := pd_load e 2 (fun v => v).
Definition L_LDRSB64 (e : PDEnt) := pd_load e 1 (fun v => sign_extend v 8).
Definition L_LDRSB32 (e : PDEnt) := pd_load e 1 (fun v => u32 (sign_extend v 8)).
Definition L_LDRSH64 (e : PDEnt) := pd_load e 2 (fun v => sign_extend v 16).
Definition L_LDRSH32 (e : PDEnt) := pd_load e 2 (fun v => u32 (sign_extend v 16)).
Definition L_LDRSW (e : PDEnt) := pd_load e 4 (fun v => sign_extend v 32).
Definition L_STR64U (e : PDEnt) := pd_store e 8.
Definition L_STR32U (e : PDEnt) := pd_store e 4.
Definition L_STRB (e : PDEnt) := pd_store e 1.
Definition L_STRH (e : PDEnt) := pd_store e 2.

(** pre/post-indexed *)
Definition pd_load_pre (e : PDEnt) (bytes : Z) (f : Z -> Z) : M (St Mem) unit :=
  va <- pd_va e;
  v <- mem_read va bytes;
  set_x (pd_rd e) (f v) ;;
  set_xsp (pd_rn e) va.
Definition pd_load_post (e : PDEnt) (bytes : Z) (f : Z -> Z) : M (St Mem) unit :=
  base <- reg_xsp (pd_rn e);
  v <- mem_read base bytes;
  set_x (pd_rd e) (f v) ;;
  set_xsp (pd_rn e) (u64 (base + pd_imm e)).
Definition pd_store_pre (e : PDEnt) (bytes : Z) : M (St Mem) unit :=
  va <- pd_va e;
  t <- reg_x (pd_rd e);
  mem_write va bytes t ;;
  set_xsp (pd_rn e) va.
Definition pd_store_post (e : PDEnt) (bytes : Z) : M (St Mem) unit :=
  base <- reg_xsp (pd_rn e);
  t <- reg_x (pd_rd e);
  mem_write base bytes t ;;
  set_xsp (pd_rn e) (u64 (base + pd_imm e)).
Definition L_LDR64PRE (e : PDEnt) := pd_load_pre e 8 (fun v => v).
Definition L_LDR64POST (e : PDEnt) := pd_load_post e 8 (fun v => v).
Definition L_LDR32PRE (e : PDEnt) := pd_load_pre e 4 u32.
Definition L_LDR32POST (e : PDEnt) := pd_load_post e 4 u32.
Definition L_STR64PRE (e : PDEnt) := pd_store_pre e 8.
Definition L_STR64POST (e : PDEnt) := pd_store_post e 8.
Definition L_STR32PRE (e : PDEnt) := pd_store_pre e 4.
Definition L_STR32POST (e : PDEnt) := pd_store_post e 4.
Definition L_LDRBPOST (e : PDEnt) := pd_load_post e 1 (fun v => v).
Definition L_STRBPOST (e : PDEnt) := pd_store_post e 1.

(** register offset *)
Definition L_LDR64RO (e : PDEnt) : M (St Mem) unit :=
  base <- reg_xsp (pd_rn e);
  m <- reg_x (pd_rm e);
  let va := u64 (base + pd_extend_reg m (Z.land (u32 (Z.shiftr (pd_imm e) 3)) 7)
                                        (Z.land (u32 (pd_imm e)) 7)) in
  if op_in e [PD_LDR64RO] then v <- mem_read va 8; set_x (pd_rd e) v
  else if op_in e [PD_LDR32RO] then v <- mem_read va 4; set_x (pd_rd e) (u32 v)
  else if op_in e [PD_LDRBRO] then v <- mem_read va 1; set_x (pd_rd e) v
  else if op_in e [PD_LDRHRO] then v <- mem_read va 2; set_x (pd_rd e) v
  else if op_in e [PD_STR64RO] then t <- reg_x (pd_rd e); mem_write va 8 t
  else if op_in e [PD_STR32RO] then t <- reg_x (pd_rd e); mem_write va 4 t
  else if op_in e [PD_STRBRO] then t <- reg_x (pd_rd e); mem_write va 1 t
  else t <- reg_x (pd_rd e); mem_write va 2 t.

(** literal *)
Definition pd_lit_va (e : PDEnt) : M (St Mem) Z :=
  getc (fun c => u64 (c_cur_insn_pc c + pd_imm e)).
Definition L_LDRLIT64 (e : PDEnt) : M (St Mem) unit :=
  va <- pd_lit_va e; v <- mem_read va 8; set_x (pd_rd e) v.
Definition L_LDRLIT32 (e : PDEnt) : M (St Mem) unit :=
  va <- pd_lit_va e; v <- mem_read va 4; set_x (pd_rd e) (u32 v).
Definition L_LDRLITV (e : PDEnt) : M (St Mem) unit :=
  va <- pd_lit_va e;
  if pd_rm e =? 16 then v <- mem_read128 va; set_v (pd_rd e) v
  else t <- mem_read va (pd_rm e); set_v (pd_rd e) (v_mk t 0).

(** The address of a pair form and its writeback. *)
Definition pd_pair_addr (e : PDEnt) (post : bool) (base : Z) : Z :=
  if post then base else u64 (base + pd_imm e).
Definition pd_pair_wb (e : PDEnt) (wb post : bool) (base : Z) : M (St Mem) unit :=
  if wb then set_xsp (pd_rn e) (if post then u64 (base + pd_imm e) else pd_pair_addr e post base)
  else ret tt.

(** integer pairs *)
Definition L_LDP64 (e : PDEnt) : M (St Mem) unit :=
  let is64 := op_in e [PD_LDP64; PD_LDP64PRE; PD_LDP64POST] in
  let post := op_in e [PD_LDP64POST; PD_LDP32POST] in
  let wb := post || op_in e [PD_LDP64PRE; PD_LDP32PRE] in
  let esz := if is64 then 8 else 4 in
  base <- reg_xsp (pd_rn e);
  let addr := pd_pair_addr e post base in
  a <- mem_read addr esz;
  b <- mem_read (u64 (addr + esz)) esz;
  set_x (pd_rd e) (if is64 then a else u32 a) ;;
  set_x (pd_rm e) (if is64 then b else u32 b) ;;
  pd_pair_wb e wb post base.
Definition L_STP64 (e : PDEnt) : M (St Mem) unit :=
  let is64 := op_in e [PD_STP64; PD_STP64PRE; PD_STP64POST] in
  let post := op_in e [PD_STP64POST; PD_STP32POST] in
  let wb := post || op_in e [PD_STP64PRE; PD_STP32PRE] in
  let esz := if is64 then 8 else 4 in
  base <- reg_xsp (pd_rn e);
  let addr := pd_pair_addr e post base in
  a <- reg_x (pd_rd e);
  mem_write addr esz a ;;
  b <- reg_x (pd_rm e);
  mem_write (u64 (addr + esz)) esz b ;;
  pd_pair_wb e wb post base.

(** FP/SIMD register load/store *)
Definition L_LDRQ (e : PDEnt) : M (St Mem) unit :=
  va <- pd_va e; v <- mem_read128 va; set_v (pd_rd e) v.
Definition L_STRQ (e : PDEnt) : M (St Mem) unit :=
  va <- pd_va e; v <- reg_v (pd_rd e); mem_write128 va v.
Definition L_LDRV (e : PDEnt) : M (St Mem) unit :=
  va <- pd_va e; t <- mem_read va (pd_rm e); set_v (pd_rd e) (v_mk t 0).
Definition L_STRV (e : PDEnt) : M (St Mem) unit :=
  va <- pd_va e; v <- reg_v (pd_rd e); mem_write va (pd_rm e) (v_d0 v).
Definition L_LDRQPRE (e : PDEnt) : M (St Mem) unit :=
  va <- pd_va e; v <- mem_read128 va; set_v (pd_rd e) v ;; set_xsp (pd_rn e) va.
Definition L_LDRQPOST (e : PDEnt) : M (St Mem) unit :=
  base <- reg_xsp (pd_rn e);
  v <- mem_read128 base;
  set_v (pd_rd e) v ;;
  set_xsp (pd_rn e) (u64 (base + pd_imm e)).
Definition L_STRQPRE (e : PDEnt) : M (St Mem) unit :=
  va <- pd_va e; v <- reg_v (pd_rd e); mem_write128 va v ;; set_xsp (pd_rn e) va.
Definition L_STRQPOST (e : PDEnt) : M (St Mem) unit :=
  base <- reg_xsp (pd_rn e);
  v <- reg_v (pd_rd e);
  mem_write128 base v ;;
  set_xsp (pd_rn e) (u64 (base + pd_imm e)).

(** FP/SIMD pairs *)
Definition L_LDPQ (e : PDEnt) : M (St Mem) unit :=
  let post := op_in e [PD_LDPQPOST] in
  let wb := post || op_in e [PD_LDPQPRE] in
  base <- reg_xsp (pd_rn e);
  let addr := pd_pair_addr e post base in
  v <- mem_read128 addr;
  set_v (pd_rd e) v ;;
  w <- mem_read128 (u64 (addr + 16));
  set_v (pd_rm e) w ;;
  pd_pair_wb e wb post base.
Definition L_STPQ (e : PDEnt) : M (St Mem) unit :=
  let post := op_in e [PD_STPQPOST] in
  let wb := post || op_in e [PD_STPQPRE] in
  base <- reg_xsp (pd_rn e);
  let addr := pd_pair_addr e post base in
  v <- reg_v (pd_rd e);
  mem_write128 addr v ;;
  w <- reg_v (pd_rm e);
  mem_write128 (u64 (addr + 16)) w ;;
  pd_pair_wb e wb post base.
Definition L_LDPD (e : PDEnt) : M (St Mem) unit :=
  let post := op_in e [PD_LDPDPOST] in
  let wb := post || op_in e [PD_LDPDPRE] in
  base <- reg_xsp (pd_rn e);
  let addr := pd_pair_addr e post base in
  t <- mem_read addr 8;
  set_v (pd_rd e) (v_mk t 0) ;;
  u <- mem_read (u64 (addr + 8)) 8;
  set_v (pd_rm e) (v_mk u 0) ;;
  pd_pair_wb e wb post base.
Definition L_STPD (e : PDEnt) : M (St Mem) unit :=
  let post := op_in e [PD_STPDPOST] in
  let wb := post || op_in e [PD_STPDPRE] in
  base <- reg_xsp (pd_rn e);
  let addr := pd_pair_addr e post base in
  v <- reg_v (pd_rd e);
  mem_write addr 8 (v_d0 v) ;;
  w <- reg_v (pd_rm e);
  mem_write (u64 (addr + 8)) 8 (v_d0 w) ;;
  pd_pair_wb e wb post base.

(** [pd_tab]: the label of an opcode, run on its entry; [PD_GENERIC] goes to
    [exec_a64]. *)
Definition pd_tab (insn : Z) (e : PDEnt) : M (St Mem) unit :=
  match pd_op e with
  | PD_GENERIC => exec_a64 insn
  | PD_NOP => L_NOP e
  | PD_B => L_B e
  | PD_BL => L_BL e
  | PD_BCOND => L_BCOND e
  | PD_CBZ64 => L_CBZ64 e
  | PD_CBZ32 => L_CBZ32 e
  | PD_CBNZ64 => L_CBNZ64 e
  | PD_CBNZ32 => L_CBNZ32 e
  | PD_TBZ => L_TBZ e
  | PD_TBNZ => L_TBNZ e
  | PD_BR => L_BR e
  | PD_BLR => L_BLR e
  | PD_ADD64I => L_ADD64I e
  | PD_ADD32I => L_ADD32I e
  | PD_SUB64I => L_SUB64I e
  | PD_SUB32I => L_SUB32I e
  | PD_ADDS64I => L_ADDS64I e
  | PD_ADDS32I => L_ADDS32I e
  | PD_SUBS64I => L_SUBS64I e
  | PD_SUBS32I => L_SUBS32I e
  | PD_AND64I => L_AND64I e
  | PD_AND32I => L_AND32I e
  | PD_ORR64I => L_ORR64I e
  | PD_ORR32I => L_ORR32I e
  | PD_EOR64I => L_EOR64I e
  | PD_EOR32I => L_EOR32I e
  | PD_ANDS64I => L_ANDS64I e
  | PD_ANDS32I => L_ANDS32I e
  | PD_MOVI => L_MOVI e
  | PD_MOVK64 => L_MOVK64 e
  | PD_MOVK32 => L_MOVK32 e
  | PD_ADR => L_ADR e
  | PD_ADRP => L_ADRP e
  | PD_LSL64I => L_LSL64I e
  | PD_LSL32I => L_LSL32I e
  | PD_LSR64I => L_LSR64I e
  | PD_LSR32I => L_LSR32I e
  | PD_ASR64I => L_ASR64I e
  | PD_ASR32I => L_ASR32I e
  | PD_UBFX64 => L_UBFX64 e
  | PD_UBFX32 => L_UBFX32 e
  | PD_UBFIZ64 => L_UBFIZ64 e
  | PD_UBFIZ32 => L_UBFIZ32 e
  | PD_SBFX64 => L_SBFX64 e
  | PD_SBFX32 => L_SBFX32 e
  | PD_EXTR64 => L_EXTR64 e
  | PD_EXTR32 => L_EXTR32 e
  | PD_AND64 => L_AND64 e
  | PD_AND32 => L_AND32 e
  | PD_BIC64 => L_BIC64 e
  | PD_BIC32 => L_BIC32 e
  | PD_ORR64 => L_ORR64 e
  | PD_ORR32 => L_ORR32 e
  | PD_ORN64 => L_ORN64 e
  | PD_ORN32 => L_ORN32 e
  | PD_EOR64 => L_EOR64 e
  | PD_EOR32 => L_EOR32 e
  | PD_EON64 => L_EON64 e
  | PD_EON32 => L_EON32 e
  | PD_ANDS64 => L_ANDS64 e
  | PD_ANDS32 => L_ANDS32 e
  | PD_BICS64 => L_BICS64 e
  | PD_BICS32 => L_BICS32 e
  | PD_AND64S | PD_AND32S | PD_ORR64S | PD_ORR32S | PD_EOR64S | PD_EOR32S | PD_ANDS64S
    | PD_ANDS32S => L_AND64S e
  | PD_ADD64R => L_ADD64R e
  | PD_ADD32R => L_ADD32R e
  | PD_SUB64R => L_SUB64R e
  | PD_SUB32R => L_SUB32R e
  | PD_ADDS64R => L_ADDS64R e
  | PD_ADDS32R => L_ADDS32R e
  | PD_SUBS64R => L_SUBS64R e
  | PD_SUBS32R => L_SUBS32R e
  | PD_ADD64RS | PD_ADD32RS | PD_SUB64RS | PD_SUB32RS | PD_ADDS64RS | PD_ADDS32RS
    | PD_SUBS64RS | PD_SUBS32RS => L_ADD64RS e
  | PD_ADDX64 | PD_ADDX32 | PD_SUBX64 | PD_SUBX32 | PD_ADDSX64 | PD_ADDSX32 | PD_SUBSX64
    | PD_SUBSX32 => L_ADDX64 e
  | PD_MADD64 => L_MADD64 e
  | PD_MADD32 => L_MADD32 e
  | PD_MSUB64 => L_MSUB64 e
  | PD_MSUB32 => L_MSUB32 e
  | PD_SMADDL => L_SMADDL e
  | PD_SMSUBL => L_SMSUBL e
  | PD_UMADDL => L_UMADDL e
  | PD_UMSUBL => L_UMSUBL e
  | PD_SMULH => L_SMULH e
  | PD_UMULH => L_UMULH e
  | PD_CSEL64 | PD_CSEL32 | PD_CSINC64 | PD_CSINC32 | PD_CSINV64 | PD_CSINV32 | PD_CSNEG64
    | PD_CSNEG32 => L_CSEL64 e
  | PD_CCMP64I | PD_CCMP32I | PD_CCMP64R | PD_CCMP32R | PD_CCMN64I | PD_CCMN32I
    | PD_CCMN64R | PD_CCMN32R => L_CCMP64I e
  | PD_REV64 => L_REV64 e
  | PD_REVW => L_REVW e
  | PD_CLZ64 => L_CLZ64 e
  | PD_CLZ32 => L_CLZ32 e
  | PD_UDIV64 => L_UDIV64 e
  | PD_UDIV32 => L_UDIV32 e
  | PD_SDIV64 => L_SDIV64 e
  | PD_SDIV32 => L_SDIV32 e
  | PD_LSLV64 => L_LSLV64 e
  | PD_LSLV32 => L_LSLV32 e
  | PD_LSRV64 => L_LSRV64 e
  | PD_LSRV32 => L_LSRV32 e
  | PD_ASRV64 => L_ASRV64 e
  | PD_ASRV32 => L_ASRV32 e
  | PD_RORV64 => L_RORV64 e
  | PD_RORV32 => L_RORV32 e
  | PD_LDR64U => L_LDR64U e
  | PD_LDR32U => L_LDR32U e
  | PD_LDRB => L_LDRB e
  | PD_LDRH => L_LDRH e
  | PD_LDRSB64 => L_LDRSB64 e
  | PD_LDRSB32 => L_LDRSB32 e
  | PD_LDRSH64 => L_LDRSH64 e
  | PD_LDRSH32 => L_LDRSH32 e
  | PD_LDRSW => L_LDRSW e
  | PD_STR64U => L_STR64U e
  | PD_STR32U => L_STR32U e
  | PD_STRB => L_STRB e
  | PD_STRH => L_STRH e
  | PD_LDR64PRE => L_LDR64PRE e
  | PD_LDR64POST => L_LDR64POST e
  | PD_LDR32PRE => L_LDR32PRE e
  | PD_LDR32POST => L_LDR32POST e
  | PD_STR64PRE => L_STR64PRE e
  | PD_STR64POST => L_STR64POST e
  | PD_STR32PRE => L_STR32PRE e
  | PD_STR32POST => L_STR32POST e
  | PD_LDRBPOST => L_LDRBPOST e
  | PD_STRBPOST => L_STRBPOST e
  | PD_LDR64RO | PD_LDR32RO | PD_LDRBRO | PD_LDRHRO | PD_STR64RO | PD_STR32RO | PD_STRBRO
    | PD_STRHRO => L_LDR64RO e
  | PD_LDRLIT64 => L_LDRLIT64 e
  | PD_LDRLIT32 => L_LDRLIT32 e
  | PD_LDRLITV => L_LDRLITV e
  | PD_LDP64 | PD_LDP64PRE | PD_LDP64POST | PD_LDP32 | PD_LDP32PRE | PD_LDP32POST => L_LDP64 e
  | PD_STP64 | PD_STP64PRE | PD_STP64POST | PD_STP32 | PD_STP32PRE | PD_STP32POST => L_STP64 e
  | PD_LDRQ => L_LDRQ e
  | PD_STRQ => L_STRQ e
  | PD_LDRV => L_LDRV e
  | PD_STRV => L_STRV e
  | PD_LDRQPRE => L_LDRQPRE e
  | PD_LDRQPOST => L_LDRQPOST e
  | PD_STRQPRE => L_STRQPRE e
  | PD_STRQPOST => L_STRQPOST e
  | PD_LDPQ | PD_LDPQPRE | PD_LDPQPOST => L_LDPQ e
  | PD_STPQ | PD_STPQPRE | PD_STPQPOST => L_STPQ e
  | PD_LDPD | PD_LDPDPRE | PD_LDPDPOST => L_LDPD e
  | PD_STPD | PD_STPDPRE | PD_STPDPOST => L_STPD e
  end.

(** ** The run loop *)

(** A never-filled entry of [g_pdcache] is all zeroes. *)
Definition zero_ent : PDEnt := mkPDEnt 0 PD_GENERIC 0 0 0 0.
Definition pd_index (pc : Z) : Z := Z.land (Z.shiftr pc 2) PD_MASK.
Definition pd_slot (cache : PDCache) (pc : Z) : PDEnt := default zero_ent (cache !! pd_index pc).
(** Validate the entry at [pc] against the live word, filling it if it
    differs. *)
Definition pd_lookup (cache : PDCache) (pc insn : Z) : PDCache * PDEnt :=
  let e := pd_slot cache pc in
  if pd_insn e =? insn then (cache, e)
  else (<[pd_index pc := pd_fill insn]> cache, pd_fill insn).

(** Fetch at [pc] with [cur_insn_pc] set and [pc] advanced; [None] when the
    fetch recorded an abort. *)
Definition fetch_next : M (St Mem) (option Z) := fun s =>
  let s := upd_cpu (fun c => with_cur_insn_pc (c_pc c) c) s in
  match mem_ifetch (c_pc (s_cpu s)) s with
  | Ok insn s' => Ok (Some insn) (upd_cpu (fun c => with_pc (u64 (c_pc c + 4)) c) s')
  | Fault s' => Ok None s'
  | UB => UB
  end.
Definition count_insn : M (St Mem) unit :=
  putc (fun c => with_icount (u64 (c_icount c + 1)) c).

(** The tests of [NEXT] between two instructions; [sig] is the value
    [g_sig_npend] has there, which the host's signal handler sets. *)
Definition must_leave (sig : bool) (s : St Mem) : bool :=
  c_stop (s_cpu s) || c_halted (s_cpu s) || pe_valid (s_tls s) || sig.

(** The outcome of running the loop for at most [n] instructions. *)
Inductive run_result (C : Type) :=
| Returned (c : C) (s : St Mem)
| Running (c : C) (s : St Mem)
| Undef.

(** [pd_run] for at most [n] instructions; [sig i] is [g_sig_npend] after the
    [i]th of them. *)
Fixpoint pd_run (n : nat) (sig : nat -> bool) (i : nat) (cache : PDCache) (s : St Mem) :
    run_result PDCache :=
  match n with
  | O => Running _ cache s
  | S k =>
      match fetch_next s with
      | UB => Undef _
      | Fault s' => Returned _ cache s'
      | Ok None s' => Returned _ cache s'
      | Ok (Some insn) s' =>
          let '(cache, e) := pd_lookup cache (c_cur_insn_pc (s_cpu s')) insn in
          match (call (pd_tab insn e) ;; count_insn) s' with
          | UB => Undef _
          | Fault s'' | Ok _ s'' =>
              if must_leave (sig i) s'' then Returned _ cache s''
              else pd_run k sig (S i) cache s''
          end
      end
  end.

(** The single-step engine of [emu_loop] (the -nopd branch) iterated under the
    same tests: the reference for [pd_run]. *)
Fixpoint nopd_run (n : nat) (sig : nat -> bool) (i : nat) (s : St Mem) : run_result unit :=
  match n with
  | O => Running _ tt s
  | S k =>
      match fetch_next s with
      | UB => Undef _
      | Fault s' => Returned _ tt s'
      | Ok None s' => Returned _ tt s'
      | Ok (Some insn) s' =>
          match (call (exec_a64 insn) ;; count_insn) s' with
          | UB => Undef _
          | Fault s'' | Ok _ s'' =>
              if must_leave (sig i) s'' then Returned _ tt s''
              else nopd_run k sig (S i) s''
          end
      end
  end.

End PdExec.
