(* ===== verification/PdEquiv.v ===== *)
(** * PdEquiv: the pre-decoded engine executes what the decoder does

    For every instruction word and every well-formed CPU, dispatching the
    entry [pd_fill] makes of the word has the effect of [exec_a64] on it:
    the same state, the same exception. *)

From S2P Require Import Prelude Types Cpu CpuWf MemSeam Alu AluSpec DpExec Atomics LdSt Sysreg.
From S2P Require Import Decode Predecode Bitfield PdExec.

(** ** The helpers and their originals *)
Lemma pd_awc_eq x y cin b : fits 64 x -> pd_awc x y cin b = add_with_carry x y cin b.
Proof.
  intros Hx. unfold pd_awc, add_with_carry. destruct b.
  - set (r := u64 (u64 (x + y) + cin)). assert (Hr : fits 64 r) by apply fits_u64.
    assert (H63 : forall z, fits 64 z -> u32 (Z.shiftr z 63) = Z.shiftr z 63).
    { intros z Hz. apply u32_small. unfold fits in *. rewrite Z.shiftr_div_pow2 by lia.
      split; [apply Z.div_pos; lia|apply Z.div_lt_upper_bound; lia]. }
    by rewrite !H63 by auto with word.
  - change (Z.land (Z.shiftr (u64 (u32 x + u32 y + cin)) 32) 1)
      with (BIT (u64 (u32 x + u32 y + cin)) 32).
    rewrite (u32_small (BIT _ _)); [done|]. pose proof (BIT_range (u64 (u32 x + u32 y + cin)) 32).
    unfold fits. lia.
Qed.
Lemma pd_logical_flags_eq r b : pd_logical_flags r b = logical_flags r b.
Proof.
  unfold pd_logical_flags, logical_flags. destruct b; cbv zeta.
  - destruct (negb _), (_ =? 0); done.
  - destruct (negb _), (_ =? 0); done.
Qed.
Lemma pd_shift_reg_eq v t a b : pd_shift_reg v t a b = shift_reg v t a b.
Proof. done. Qed.
Lemma pd_extend_reg_eq v o k : pd_extend_reg v o k = extend_reg v o k.
Proof. done. Qed.

(** The results of add and subtract without the flags. *)
Lemma awc_add64 n m : fst (add_with_carry n m 0 true) = u64 (n + m).
Proof. unfold add_with_carry. simpl. wsolve. Qed.
Lemma awc_sub64 n m : fst (add_with_carry n (not64 m) 1 true) = u64 (n - m).
Proof. unfold add_with_carry. simpl. wsolve. Qed.
Lemma awc_add32 n m : u32 (fst (add_with_carry n m 0 false)) = u32 (u64 (n + m)).
Proof. unfold add_with_carry. simpl. wsolve. Qed.
Lemma awc_sub32 n m : u32 (fst (add_with_carry n (not64 m) 1 false)) = u32 (u64 (n - m)).
Proof. unfold add_with_carry. simpl. wsolve. Qed.

(** A two-bit field, and a single bit tested through a mask. *)
Lemma BITS_cases2 insn hi lo : hi = lo + 1 ->
  BITS insn hi lo = 0 \/ BITS insn hi lo = 1 \/ BITS insn hi lo = 2 \/ BITS insn hi lo = 3.
Proof.
  intros ->. pose proof (fits_BITS insn (lo + 1) lo ltac:(lia)) as Hr.
  replace (lo + 1 - lo + 1) with 2 in Hr by lia. unfold fits in Hr. lia.
Qed.
Lemma land1_testbit_eq v k : 0 <= k -> Z.testbit v k = negb (Z.land v (Z.shiftl 1 k) =? 0).
Proof.
  intros Hk. rewrite shiftl_1_pow by lia.
  assert (Z.land v (2 ^ k) = if Z.testbit v k then 2 ^ k else 0) as ->.
  { apply Z.bits_inj'. intros i Hi. rewrite Z.land_spec, Z.pow2_bits_eqb by lia.
    destruct (Z.eqb_spec k i) as [-> |].
    - rewrite andb_true_r. destruct (Z.testbit v i) eqn:E;
        rewrite ?Z.pow2_bits_eqb, ?Z.eqb_refl, ?Z.bits_0 by lia; done.
    - rewrite andb_false_r. destruct (Z.testbit v k); rewrite ?Z.pow2_bits_eqb, ?Z.bits_0 by lia; zbool. }
  assert (0 < 2 ^ k) by (apply Z.pow_pos_nonneg; lia).
  destruct (Z.testbit v k); zbool.
Qed.

(** ** The entry before classification *)
Definition ent0 (insn : Z) : PDEnt :=
  mkPDEnt insn PD_GENERIC (BITS insn 4 0) (BITS insn 9 5) (BITS insn 20 16) 0.
Lemma u8_reg f : 0 <= f < 32 -> u8 f = f.
Proof. intros. apply u8_small. unfold fits. lia. Qed.
Lemma ent0_eq insn :
  mkPDEnt insn PD_GENERIC (u8 (Z.land insn 31)) (u8 (Z.land (Z.shiftr insn 5) 31))
          (u8 (Z.land (Z.shiftr insn 16) 31)) 0 = ent0 insn.
Proof.
  unfold ent0. change (Z.land (Z.shiftr insn 5) 31) with (BITS insn 9 5).
  change (Z.land (Z.shiftr insn 16) 31) with (BITS insn 20 16).
  assert (Z.land insn 31 = BITS insn 4 0) as ->.
  { unfold BITS. by rewrite Z.shiftr_0_r. }
  by rewrite !u8_reg by (apply BITS_range; [lia|reflexivity]).
Qed.

Section Equiv.
Context {Mem : Type} `{MemSeam Mem} `{Hooks Mem}.
Implicit Types s : St Mem.
Local Open Scope exec_scope.

(** ** Running the accessors on a well-formed state *)
Lemma bind_reg_x {A} n (k : Z -> M (St Mem) A) s : st_wf s -> 0 <= n < 32 ->
  bind (reg_x n) k s = k (xval s n) s.
Proof. intros. unfold bind. by rewrite reg_x_ok. Qed.
Lemma bind_reg_xsp {A} n (k : Z -> M (St Mem) A) s : st_wf s -> 0 <= n < 32 ->
  bind (reg_xsp n) k s = k (spval s n) s.
Proof. intros. unfold bind. by rewrite reg_xsp_ok. Qed.
Lemma bind_reg_v {A} n (k : Z -> M (St Mem) A) s : st_wf s -> 0 <= n < 32 ->
  bind (reg_v n) k s = k (vval s n) s.
Proof. intros. unfold bind. by rewrite reg_v_ok. Qed.
Lemma bind_getc {A B} (f : CPU -> B) (k : B -> M (St Mem) A) s :
  bind (getc f) k s = k (f (s_cpu s)) s.
Proof. done. Qed.
Lemma bind_ret {A B} (b : B) (k : B -> M (St Mem) A) s : bind (ret b) k s = k b s.
Proof. done. Qed.

End Equiv.
(** Run the reads at the head of both sides. *)
Ltac regs :=
  repeat first
  [ rewrite bind_reg_x by (done || (apply BITS_range; [lia|reflexivity]))
  | rewrite bind_reg_xsp by (done || (apply BITS_range; [lia|reflexivity]))
  | rewrite bind_reg_v by (done || (apply BITS_range; [lia|reflexivity]))
  | rewrite bind_getc | rewrite bind_ret ].
Ltac pd_cbn :=
  cbn [pd_insn pd_op pd_rd pd_rn pd_rm pd_imm set_op set_rd set_rm set_imm op_imm sel ent0 pd_tab].

Section EquivDp.
Context {Mem : Type} `{MemSeam Mem} `{Hooks Mem}.
Implicit Types s : St Mem.
Local Open Scope exec_scope.

Lemma equiv_addsub_imm insn s : st_wf s ->
  BITS insn 28 23 = 0x22 ->
  pd_tab insn (fill_dp_imm insn (ent0 insn)) s = dp_addsub_imm insn s.
Proof.
  intros Hs Ht. unfold fill_dp_imm, dp_addsub_imm. rewrite Ht. cbn [Z.eqb Pos.eqb orb].
  set (imm := if BITb insn 22 then _ else _).
  assert (Hn : fits 64 (spval s (BITS insn 9 5)))
    by (apply fits_spval; [done|apply BITS_range; [lia|reflexivity]]).
  destruct (BITb insn 29), (BITb insn 30), (BITb insn 31); pd_cbn;
    unfold L_ADD64I, L_ADD32I, L_SUB64I, L_SUB32I, L_ADDS64I, L_ADDS32I, L_SUBS64I, L_SUBS32I,
      set_flags_x; pd_cbn; cbv zeta; regs; rewrite ?pd_awc_eq by done.
  all: repeat match goal with |- context [let '(r, fl) := ?p in _] =>
         rewrite (surjective_pairing p) end.
  all: unfold set_x_sz; try reflexivity.
  all: rewrite ?awc_add64, ?awc_sub64, ?awc_add32, ?awc_sub32; reflexivity.
Qed.

(** An entry left GENERIC goes to the decoder. *)
Lemma generic insn e s : pd_op e = PD_GENERIC -> pd_tab insn e s = exec_a64 insn s.
Proof. intros E. unfold pd_tab. by rewrite E. Qed.

Lemma equiv_pcrel insn s : st_wf s ->
  (BITS insn 28 23 =? 0x20) || (BITS insn 28 23 =? 0x21) = true ->
  pd_tab insn (fill_dp_imm insn (ent0 insn)) s = dp_pcrel insn s.
Proof.
  intros Hs Ht. unfold fill_dp_imm, dp_pcrel. rewrite Ht. cbv zeta.
  by destruct (BITb insn 31); pd_cbn.
Qed.

Lemma equiv_logical_imm insn s : st_wf s -> exec_a64 insn s = dp_logical_imm insn s ->
  BITS insn 28 23 = 0x24 ->
  pd_tab insn (fill_dp_imm insn (ent0 insn)) s = dp_logical_imm insn s.
Proof.
  intros Hs Hx Ht. unfold fill_dp_imm. rewrite Ht. cbn [Z.eqb Pos.eqb orb]. cbv zeta.
  rewrite pd_bitmasks_eq by (repeat field; lia). revert Hx. unfold dp_logical_imm. cbv zeta.
  destruct (decode_bitmasks _ _ _ _) as [[w t]|]; cbn [option_map fst]; intros Hx;
    [clear Hx|by rewrite generic].
  destruct (BITS_cases2 insn 30 29) as [-> |[-> |[-> | ->]]]; [done| | | |];
    destruct (BITb insn 31); pd_cbn; cbn [Z.eqb Pos.eqb];
    unfold L_AND64I, L_AND32I, L_ORR64I, L_ORR32I, L_EOR64I, L_EOR32I, L_ANDS64I, L_ANDS32I;
    pd_cbn; regs; cbv zeta; rewrite ?pd_logical_flags_eq; reflexivity.
Qed.

Lemma equiv_movewide insn s : st_wf s -> exec_a64 insn s = dp_movewide insn s ->
  BITS insn 28 23 = 0x25 ->
  pd_tab insn (fill_dp_imm insn (ent0 insn)) s = dp_movewide insn s.
Proof.
  intros Hs Hx Ht. unfold fill_dp_imm. rewrite Ht. cbn [Z.eqb Pos.eqb orb]. cbv zeta.
  revert Hx. unfold dp_movewide. cbv zeta.
  destruct (_ && _); intros Hx; [by rewrite generic|].
  assert (Hhw : u8 (BITS insn 22 21 * 16) = BITS insn 22 21 * 16).
  { apply u8_small. unfold fits. pose proof (BITS_range insn 22 21 4 ltac:(lia) eq_refl). lia. }
  destruct (BITS_cases2 insn 30 29) as [E|[E|[E|E]]]; [done| | | |]; rewrite E in *;
    cbn [Z.eqb Pos.eqb] in *; [|by rewrite generic|..];
    destruct (BITb insn 31); pd_cbn;
    unfold L_MOVI, L_MOVK64, L_MOVK32, movk_value, set_x_sz; pd_cbn; rewrite ?Hhw; reflexivity.
Qed.

Lemma equiv_extract insn s : st_wf s -> exec_a64 insn s = dp_extract insn s ->
  BITS insn 28 23 = 0x27 ->
  pd_tab insn (fill_dp_imm insn (ent0 insn)) s = dp_extract insn s.
Proof.
  intros Hs Hx Ht. unfold fill_dp_imm. rewrite Ht. cbn [Z.eqb Pos.eqb orb]. cbv zeta.
  revert Hx. unfold dp_extract. cbv zeta. intros Hx.
  destruct (negb (BITS insn 30 29 =? 0) || negb (BIT insn 22 =? b2z (BITb insn 31))
     || negb (BIT insn 21 =? 0)); [by rewrite generic|]. cbn [orb] in *.
  pose proof (BITS_range insn 15 10 64 ltac:(lia) eq_refl) as Hi.
  assert (Hhas : has (BITS insn 15 10) 32 = negb (BITS insn 15 10 <? 32)).
  { unfold has. change 32 with (Z.shiftl 1 5) at 1.
    rewrite <- (land1_testbit_eq (BITS insn 15 10) 5) by lia.
    change 5 with (6 - 1). rewrite top_bit by (unfold fits; cbn; lia). zbool. }
  rewrite Hhas in *.
  destruct (BITb insn 31); cbn [negb andb] in *.
  - pd_cbn. unfold L_EXTR64, set_x_sz. pd_cbn. regs. by destruct (BITS insn 15 10 =? 0).
  - destruct (BITS insn 15 10 <? 32) eqn:E; cbn [negb] in *; [|by rewrite generic].
    pd_cbn. unfold L_EXTR32, set_x_sz. pd_cbn. regs. cbv zeta.
    destruct (BITS insn 15 10 =? 0); cbn [negb]; [by rewrite u32_u32|done].
Qed.
End EquivDp.

(** ** The bitfield aliases *)
Lemma signed_of_mod w z : signed w (z mod 2 ^ w) = signed w z.
Proof. unfold signed. by rewrite Zmod_mod. Qed.
Lemma s32_u32_shiftl v k : 0 <= k -> s32 (u32 (Z.shiftl (u32 v) k)) = signed 32 (Z.shiftl v k).
Proof.
  intros. unfold s32, u32. rewrite signed_of_mod. unfold signed.
  rewrite !Z.shiftl_mul_pow2 by lia. by rewrite Zmult_mod_idemp_l.
Qed.

(** The alias label's write, given the value UBFM or SBFM computes. *)
Lemma bitfield_set {Mem} (sf : bool) rd a b :
  trunc_to sf a = b -> set_x (Mem:=Mem) rd b = set_x_sz rd sf a.
Proof. intros <-. done. Qed.

(** The write of a bitfield alias in terms of the shift its lemma gives, and
    that shift as its label computes it. *)
Ltac alias lem :=
  match goal with E : decode_bitmasks _ _ _ ?sf = Some _ |- context [set_x_sz ?rd ?sf ?v] =>
    erewrite <- (bitfield_set sf rd v); [|eapply lem; (eassumption || lia)]
  end.
Ltac label :=
  pd_cbn; unfold L_LSL64I, L_LSL32I, L_LSR64I, L_LSR32I, L_ASR64I, L_ASR32I, L_UBFX64, L_UBFX32,
    L_UBFIZ64, L_UBFIZ32, L_SBFX64, L_SBFX32; pd_cbn; regs;
  rewrite ?u8_small by (unfold fits; lia); try reflexivity.

Section EquivBf.
Context {Mem : Type} `{MemSeam Mem} `{Hooks Mem}.
Implicit Types s : St Mem.
Local Open Scope exec_scope.

Lemma equiv_bitfield insn s : st_wf s -> exec_a64 insn s = dp_bitfield insn s ->
  BITS insn 28 23 = 0x26 ->
  pd_tab insn (fill_dp_imm insn (ent0 insn)) s = dp_bitfield insn s.
Proof.
  intros Hs Hx Ht. unfold fill_dp_imm. rewrite Ht. cbn [Z.eqb Pos.eqb orb]. cbv zeta.
  unfold fill_bitfield. cbv zeta. change (if BITb insn 31 then 64 else 32) with (width (BITb insn 31)).
  set (sf := BITb insn 31). set (R := BITS insn 21 16). set (S := BITS insn 15 10).
  pose proof (BITS_range insn 21 16 64 ltac:(lia) eq_refl : 0 <= R < 64).
  pose proof (BITS_range insn 15 10 64 ltac:(lia) eq_refl : 0 <= S < 64).
  destruct (if sf then negb (BIT insn 22 =? 1) else _) eqn:Eg; [by rewrite generic|].
  assert (HN : BIT insn 22 = b2z sf).
  { destruct sf; simpl; [destruct (Z.eqb_spec (BIT insn 22) 1); [done|discriminate]|].
    destruct (Z.eqb_spec (BIT insn 22) 0); [done|discriminate]. }
  assert (HR : 0 <= R < width sf /\ 0 <= S < width sf).
  { destruct sf; simpl; [done|]. apply orb_false_iff in Eg as [Eg ?].
    apply orb_false_iff in Eg as [_ ?]. lia. }
  destruct HR as [HR HS].
  revert Hx. unfold dp_bitfield. cbv zeta. fold sf R S.
  rewrite HN, Z.eqb_refl. cbn [negb].
  destruct (bitfield_masks sf R S HR HS) as (w & t & Hbm & _). rewrite Hbm.
  assert (Hd : fits 64 (xval s (BITS insn 4 0)))
    by (apply fits_xval; [done|apply BITS_range; [lia|reflexivity]]).
  assert (Hn : fits 64 (xval s (BITS insn 9 5)))
    by (apply fits_xval; [done|apply BITS_range; [lia|reflexivity]]).
  assert (Hu : forall z, 0 <= z < 64 -> u8 z = z) by (intros; apply u8_small; unfold fits; lia).
  assert (HW : width sf = 64 \/ width sf = 32) by (destruct sf; auto).
  destruct (BITS_cases2 insn 30 29) as [E|[E|[E|E]]]; [done| | | |]; rewrite E; cbn [Z.eqb Pos.eqb orb];
    intros Hx; [|by rewrite generic| |by rewrite generic].
  - destruct (Z.eqb_spec S (width sf - 1)); [|destruct (Z.leb_spec R S)]; [| |by rewrite generic].
    all: regs.
    + alias asr_alias. destruct sf; label.
      unfold s32, u32. by rewrite signed_of_mod.
    + alias sbfx_alias. destruct sf; label; rewrite ?(u64_small (_ + _)) by (unfold fits; lia).
      * unfold s64, u64. by rewrite signed_of_mod.
      * by rewrite s32_u32_shiftl by lia.
  - destruct (Z.eqb_spec S (width sf - 1)); [|destruct (Z.eqb_spec R (S + 1)); [|destruct (Z.leb_spec R S)]].
    all: regs.
    + alias lsr_alias. destruct sf; label.
    + alias lsl_alias. destruct sf; label.
    + alias ubfx_alias. destruct sf; label.
    + alias ubfiz_alias. destruct sf; label.
Qed.

Lemma equiv_dp_imm insn s : st_wf s -> exec_a64 insn s = dp_immediate insn s ->
  pd_tab insn (fill_dp_imm insn (ent0 insn)) s = dp_immediate insn s.
Proof.
  intros Hs Hx. unfold dp_immediate in *. cbv zeta in *.
  destruct (_ || _) eqn:E1; [by apply equiv_pcrel|].
  destruct (Z.eqb_spec (BITS insn 28 23) 0x22); [by apply equiv_addsub_imm|].
  destruct (Z.eqb_spec (BITS insn 28 23) 0x24); [by apply equiv_logical_imm|].
  destruct (Z.eqb_spec (BITS insn 28 23) 0x25); [by apply equiv_movewide|].
  destruct (Z.eqb_spec (BITS insn 28 23) 0x26); [by apply equiv_bitfield|].
  destruct (Z.eqb_spec (BITS insn 28 23) 0x27); [by apply equiv_extract|].
  rewrite generic; [done|]. unfold fill_dp_imm. cbv zeta. rewrite E1.
  by rewrite !(proj2 (Z.eqb_neq _ _)) by done.
Qed.
End EquivBf.
