(* ===== verification/PdEquivReg.v ===== *)
(** * PdEquivReg: the register data-processing group

    The pre-decoded labels of the register forms against [dp_register]: the
    fields packed into an entry come back out, and the specialised labels
    compute what the general handlers do. *)

From S2P Require Import Prelude Types Cpu CpuWf MemSeam Alu AluSpec DpExec Atomics LdSt Sysreg.
From S2P Require Import Decode Predecode Bitfield PdExec PdEquiv.

(** Decide the opcode tests of a label. *)
Ltac run_pd_is :=
  cbn [existsb]; repeat match goal with |- context [pd_is ?a ?b] =>
    let v := eval vm_compute in (pd_is a b) in change (pd_is a b) with v end;
  cbn [orb].

(** ** Fields packed into an entry's immediate *)
Lemma lor_pack b k a : 0 <= k -> fits k a -> Z.lor (Z.shiftl b k) a = b * 2 ^ k + a.
Proof.
  intros Hk Ha. rewrite <- Z.add_lor_land, Z.shiftl_mul_pow2 by lia.
  assert (Z.land (b * 2 ^ k) a = 0) as ->; [|lia].
  apply Z.bits_inj'. intros i Hi. rewrite Z.land_spec, Z.bits_0.
  destruct (Z.lt_ge_cases i k).
  - by rewrite Z.mul_pow2_bits_low by lia.
  - by rewrite (fits_testbit k a), andb_false_r by (done || lia).
Qed.
Lemma land_3 v : Z.land v 3 = v mod 4. Proof. by apply (Z.land_ones v 2). Qed.
Lemma land_7 v : Z.land v 7 = v mod 8. Proof. by apply (Z.land_ones v 3). Qed.
Lemma land_15 v : Z.land v 15 = v mod 16. Proof. by apply (Z.land_ones v 4). Qed.
Lemma land_31 v : Z.land v 31 = v mod 32. Proof. by apply (Z.land_ones v 5). Qed.
Lemma land_63 v : Z.land v 63 = v mod 64. Proof. by apply (Z.land_ones v 6). Qed.
Ltac unpack :=
  rewrite ?land_3, ?land_7, ?land_15, ?land_31, ?land_63, ?Z.shiftr_div_pow2 by lia; wsolve.

(** (N, shift, imm6) of the logical shifted-register forms. *)
Lemma unpack_shift n sh i : 0 <= n < 2 -> 0 <= sh < 4 -> 0 <= i < 64 ->
  let imm := Z.lor (Z.lor (Z.shiftl n 8) (Z.shiftl sh 6)) i in
  Z.land (u32 (Z.shiftr imm 6)) 3 = sh /\ Z.land (u32 imm) 63 = i /\
  has imm 256 = negb (n =? 0).
Proof.
  intros Hn Hsh Hi. cbv zeta. replace 8 with (2 + 6) by lia.
  rewrite <- Z.shiftl_shiftl by lia. rewrite <- Z.shiftl_lor, lor_pack by (unfold fits; lia).
  rewrite (lor_pack n 2) by (unfold fits; lia). split_and!; [unpack..|].
  unfold has. change 256 with (Z.shiftl 1 8) at 1. rewrite <- (land1_testbit_eq _ 8) by lia.
  rewrite Z.testbit_eqb by lia.
  replace (((n * 2 ^ 2 + sh) * 2 ^ 6 + i) / 2 ^ 8) with n by wsolve.
  destruct (Z.eqb_spec n 0); [by subst|]. by replace n with 1 by lia.
Qed.
Lemma unpack_shift0 sh i : 0 <= sh < 4 -> 0 <= i < 64 ->
  let imm := Z.lor (Z.shiftl sh 6) i in
  Z.land (u32 (Z.shiftr imm 6)) 3 = sh /\ Z.land (u32 imm) 63 = i.
Proof.
  intros Hsh Hi. cbv zeta. rewrite lor_pack by (unfold fits; lia). split; unpack.
Qed.
(** (option, imm3) of the extended-register forms. *)
Lemma unpack_extend o i : 0 <= o < 8 -> 0 <= i < 8 ->
  let imm := Z.lor (Z.shiftl o 3) i in
  Z.land (u32 (Z.shiftr imm 3)) 7 = o /\ Z.land (u32 imm) 7 = i.
Proof.
  intros Ho Hi. cbv zeta. rewrite lor_pack by (unfold fits; lia). split; unpack.
Qed.
(** (cond, imm5, flags) of the conditional compares. *)
Lemma unpack_ccmp cd i f : 0 <= cd < 16 -> 0 <= i < 32 -> fits 32 f ->
  let imm := Z.lor (Z.lor cd (Z.shiftl i 8)) (Z.shiftl f 32) in
  Z.land (u32 imm) 15 = cd /\ Z.land (Z.shiftr imm 8) 31 = i /\ u32 (Z.shiftr imm 32) = f.
Proof.
  intros Hc Hi Hf. cbv zeta. rewrite (Z.lor_comm _ (Z.shiftl f 32)), (Z.lor_comm cd).
  rewrite (lor_pack i 8) by (unfold fits; lia).
  rewrite lor_pack by (unfold fits; lia). unfold fits in Hf. split_and!; unpack.
Qed.
Lemma has_0x20 i : 0 <= i < 64 -> has i 0x20 = (32 <=? i).
Proof.
  intros Hi. unfold has. change 0x20 with (Z.shiftl 1 5) at 1.
  rewrite <- (land1_testbit_eq i 5) by lia.
  change 5 with (6 - 1). rewrite top_bit by (unfold fits; cbn; lia). zbool.
Qed.

(** ** Truncated bitwise operations *)
Lemma u32_land a b : u32 (Z.land a b) = Z.land (u32 a) (u32 b).
Proof. unfold u32. rewrite <- !Z.land_ones by lia. apply Z.bits_inj'. intros i Hi.
  rewrite !Z.land_spec. destruct (Z.testbit a i), (Z.testbit b i), (Z.testbit (Z.ones 32) i); done. Qed.
Lemma u32_lor a b : u32 (Z.lor a b) = Z.lor (u32 a) (u32 b).
Proof. unfold u32. rewrite <- !Z.land_ones by lia. apply Z.land_lor_distr_l. Qed.
Lemma u32_lxor a b : u32 (Z.lxor a b) = Z.lxor (u32 a) (u32 b).
Proof. unfold u32. rewrite <- !Z.land_ones by lia. apply Z.bits_inj'. intros i Hi.
  rewrite ?Z.lxor_spec, ?Z.land_spec, ?Z.lxor_spec.
  destruct (Z.testbit a i), (Z.testbit b i), (Z.testbit (Z.ones 32) i); done. Qed.
Lemma u32_not64_u32 a : u32 (not64 (u32 a)) = u32 (not64 a). Proof. wsolve. Qed.
(** A 32-bit addition reads the low halves. *)
Lemma awc_u32_r x y c : add_with_carry x (u32 y) c false = add_with_carry x y c false.
Proof. unfold add_with_carry. by rewrite u32_u32. Qed.
Lemma awc_not_u32_r x y c :
  add_with_carry x (not64 (u32 y)) c false = add_with_carry x (not64 y) c false.
Proof. unfold add_with_carry. by rewrite u32_not64_u32. Qed.
(** A shift by zero. *)
Lemma shift_reg_0 v sf : fits 64 v -> shift_reg v 0 0 sf = if sf then v else u32 v.
Proof.
  intros Hv. unfold shift_reg. rewrite Z.land_0_l, Z.shiftl_0_r.
  destruct sf; [by apply u64_small|apply u64_u32].
Qed.

(** Results that already fit 32 bits. *)
Lemma u32_bswap32 v : u32 (bswap32 v) = bswap32 v.
Proof.
  apply u32_small. unfold bswap32, byte_at.
  assert (Hb : forall i k, 0 <= k <= 24 -> 0 <= i -> fits 32 (Z.shiftl (Z.land (Z.shiftr v i) 0xff) k)).
  { intros i k Hk Hi. apply fits_weaken with (8 + k); [|lia]. apply fits_shiftl; [lia..|].
    change 0xff with (Z.ones 8). rewrite Z.land_ones by lia. by apply Z.mod_pos_bound. }
  pose proof (Hb (8 * 3) 0 ltac:(lia) ltac:(lia)) as H0. rewrite Z.shiftl_0_r in H0.
  repeat (apply fits_lor; [lia| |]); auto; apply Hb; lia.
Qed.
Lemma u32_clz v : fits 32 v ->
  u32 (if v =? 0 then 32 else clz 32 v) = if v =? 0 then 32 else clz 32 v.
Proof.
  intros Hv. apply u32_small. unfold clz. destruct (Z.eqb_spec v 0); [unfold fits; lia|].
  unfold fits in *. pose proof (Z.log2_nonneg v).
  assert (Z.log2 v < 32) by (apply Z.log2_lt_pow2; lia). lia.
Qed.
Lemma u32_udiv n m : u32 (udiv false n m) = if u32 m =? 0 then 0 else u32 n / u32 m.
Proof.
  unfold udiv. destruct (Z.eqb_spec (u32 m) 0); [done|]. apply u32_small.
  pose proof (fits_u32 n) as [? ?]. pose proof (fits_u32 m) as [? ?].
  split; [apply Z.div_pos; lia|]. apply Z.div_lt_upper_bound; nia.
Qed.
Lemma u32_sdiv n m : u32 (sdiv false n m) = sdiv false n m.
Proof. unfold sdiv. destruct (_ =? 0); [done|apply u32_u32]. Qed.
Lemma z16_cases k : 0 <= k < 16 ->
  k = 0 \/ k = 1 \/ k = 2 \/ k = 3 \/ k = 4 \/ k = 5 \/ k = 6 \/ k = 7 \/ k = 8 \/ k = 9 \/ k = 10 \/
  k = 11 \/ k = 12 \/ k = 13 \/ k = 14 \/ k = 15.
Proof. lia. Qed.

Section EquivReg.
Context {Mem : Type} `{MemSeam Mem} `{Hooks Mem}.
Implicit Types s : St Mem.
Local Open Scope exec_scope.

Lemma equiv_logical_reg insn s : st_wf s -> exec_a64 insn s = dp_logical_reg insn s ->
  pd_tab insn (fill_logical_reg insn (ent0 insn)) s = dp_logical_reg insn s.
Proof.
  intros Hs Hx. revert Hx. unfold fill_logical_reg, dp_logical_reg. cbv zeta.
  pose proof (BITS_range insn 15 10 64 ltac:(lia) eq_refl) as Hi.
  pose proof (BITS_range insn 23 22 4 ltac:(lia) eq_refl) as Hsh.
  pose proof (BIT_range insn 21) as HN.
  rewrite has_0x20 by done. destruct (negb (BITb insn 31) && _); intros Hx; [by rewrite generic|clear Hx].
  assert (Hm : fits 64 (xval s (BITS insn 20 16)))
    by (apply fits_xval; [done|apply BITS_range; [lia|reflexivity]]).
  regs. change (negb (BIT insn 21 =? 0)) with (BITb insn 21).
  destruct (_ && _) eqn:E0.
  - apply andb_true_iff in E0 as [E1%Z.eqb_eq E2%Z.eqb_eq]. rewrite E1, E2.
    rewrite shift_reg_0 by done.
    destruct (BITS_cases2 insn 30 29) as [-> |[-> |[-> | ->]]]; [done| | | |];
    destruct (BITb insn 31), (BITb insn 21); pd_cbn; cbn [Z.eqb Pos.eqb];
    unfold L_AND64, L_AND32, L_BIC64, L_BIC32, L_ORR64, L_ORR32, L_ORN64, L_ORN32, L_EOR64, L_EOR32,
      L_EON64, L_EON32, L_ANDS64, L_ANDS32, L_BICS64, L_BICS32, pd_rr, pd_rr_flags; pd_cbn; regs; cbv zeta;
    rewrite ?pd_logical_flags_eq; try reflexivity.
    all: rewrite ?u32_land, ?u32_lor, ?u32_lxor, ?u32_u32, ?u32_not64_u32; reflexivity.
  - destruct (unpack_shift (BIT insn 21) (BITS insn 23 22) (BITS insn 15 10)) as (U1 & U2 & U3);
      [lia..|]. change (negb (BIT insn 21 =? 0)) with (BITb insn 21) in U3.
    destruct (BITS_cases2 insn 30 29) as [-> |[-> |[-> | ->]]]; [done| | | |];
    destruct (BITb insn 31); pd_cbn; cbn [Z.eqb Pos.eqb];
    unfold L_AND64S, op_in; pd_cbn; cbv zeta; rewrite U1, U2, U3; run_pd_is;
    regs; rewrite ?pd_logical_flags_eq; reflexivity.
Qed.

Lemma equiv_addsub_ext insn s : st_wf s -> exec_a64 insn s = dp_addsub_reg insn s ->
  BITb insn 21 = true ->
  pd_tab insn (fill_addsub_reg insn (ent0 insn)) s = dp_addsub_reg insn s.
Proof.
  intros Hs Hx Ee. revert Hx. unfold fill_addsub_reg, dp_addsub_reg. cbv zeta. rewrite Ee.
  pose proof (BITS_range insn 15 13 8 ltac:(lia) eq_refl) as Ho.
  pose proof (BITS_range insn 12 10 8 ltac:(lia) eq_refl) as Hi.
  destruct (_ || _); intros Hx; [by rewrite generic|clear Hx].
  assert (Hn : fits 64 (spval s (BITS insn 9 5)))
    by (apply fits_spval; [done|apply BITS_range; [lia|reflexivity]]).
  destruct (unpack_extend (BITS insn 15 13) (BITS insn 12 10)) as (U1 & U2); [lia..|].
  rewrite bind_assoc. regs. rewrite bind_assoc. regs.
  destruct (BITb insn 29), (BITb insn 30), (BITb insn 31); pd_cbn;
    unfold L_ADDX64, op_in; pd_cbn; cbv zeta; rewrite U1, U2; run_pd_is;
    regs; rewrite ?pd_awc_eq, ?pd_extend_reg_eq by done; reflexivity.
Qed.

Lemma equiv_addsub_shift insn s : st_wf s -> exec_a64 insn s = dp_addsub_reg insn s ->
  BITb insn 21 = false ->
  pd_tab insn (fill_addsub_reg insn (ent0 insn)) s = dp_addsub_reg insn s.
Proof.
  intros Hs Hx Ee. revert Hx. unfold fill_addsub_reg, dp_addsub_reg. cbv zeta. rewrite Ee.
  pose proof (BITS_range insn 15 10 64 ltac:(lia) eq_refl) as Hi.
  pose proof (BITS_range insn 23 22 4 ltac:(lia) eq_refl) as Hsh.
  rewrite has_0x20 by done.
  destruct (BITS insn 23 22 =? 3); cbn [orb]; [intros Hx; by rewrite generic|].
  destruct (negb (BITb insn 31) && _); intros Hx; [by rewrite generic|clear Hx].
  assert (Hm : fits 64 (xval s (BITS insn 20 16)))
    by (apply fits_xval; [done|apply BITS_range; [lia|reflexivity]]).
  assert (Hn : fits 64 (xval s (BITS insn 9 5)))
    by (apply fits_xval; [done|apply BITS_range; [lia|reflexivity]]).
  rewrite bind_assoc. regs. rewrite bind_assoc. regs.
  destruct (_ && _) eqn:E0.
  - apply andb_true_iff in E0 as [E1%Z.eqb_eq E2%Z.eqb_eq]. rewrite E1, E2.
    rewrite shift_reg_0 by done.
    destruct (BITb insn 29), (BITb insn 30), (BITb insn 31); pd_cbn;
    unfold L_ADD64R, L_ADD32R, L_SUB64R, L_SUB32R, L_ADDS64R, L_ADDS32R, L_SUBS64R, L_SUBS32R,
      pd_rr, pd_rr_awc, set_flags_x, set_x_sz; pd_cbn; regs; rewrite ?pd_awc_eq by done.
    all: repeat match goal with |- context [let '(r, fl) := ?p in _] =>
         rewrite (surjective_pairing p) end.
    all: rewrite ?awc_u32_r, ?awc_not_u32_r, ?awc_add64, ?awc_sub64, ?awc_add32, ?awc_sub32; reflexivity.
  - destruct (unpack_shift0 (BITS insn 23 22) (BITS insn 15 10)) as (U1 & U2); [lia..|].
    destruct (BITb insn 29), (BITb insn 30), (BITb insn 31); pd_cbn;
    unfold L_ADD64RS, op_in; pd_cbn; cbv zeta; rewrite U1, U2; run_pd_is;
    regs; rewrite ?pd_awc_eq, ?pd_shift_reg_eq by done.
    all: repeat match goal with |- context [let '(r, fl) := ?p in _] =>
         rewrite (surjective_pairing p) end.
    all: reflexivity.
Qed.

Lemma equiv_3source insn s : st_wf s -> exec_a64 insn s = dp_3source insn s ->
  pd_tab insn (fill_3source insn (ent0 insn)) s = dp_3source insn s.
Proof.
  intros Hs Hx. revert Hx. unfold fill_3source, dp_3source. cbv zeta.
  pose proof (BITS_range insn 23 21 8 ltac:(lia) eq_refl) as Ho.
  destruct (negb (BITS insn 30 29 =? 0)); intros Hx; [by rewrite generic|].
  rewrite (lor_pack _ 1) in * by (lia || (pose proof (BIT_range insn 15); unfold fits; lia)).
  assert (Ha : u32 (BITS insn 14 10) = BITS insn 14 10).
  { apply u32_small. pose proof (BITS_range insn 14 10 32 ltac:(lia) eq_refl). unfold fits; lia. }
  set (k := BITS insn 23 21 * 2 ^ 1 + BIT insn 15) in *.
  assert (Hk : 0 <= k < 16) by (unfold k; pose proof (BIT_range insn 15); lia).
  assert (Hko : BITS insn 23 21 = 0 <-> k < 2) by (unfold k; pose proof (BIT_range insn 15); lia).
  clearbody k. revert Hx.
  destruct (Z.eqb_spec (BITS insn 23 21) 0); destruct (BITb insn 31); cbn [negb andb];
    apply z16_cases in Hk; decompose [or] Hk; clear Hk; subst k;
    first [ exfalso; lia | intros Hx; by rewrite generic | intros _ ];
    pd_cbn; run_pd_is; pd_cbn;
    unfold L_MADD64, L_MADD32, L_MSUB64, L_MSUB32, L_SMADDL, L_SMSUBL, L_UMADDL, L_UMSUBL, L_SMULH,
      L_UMULH, pd_3r, pd_rr, set_x_sz; pd_cbn; rewrite ?Ha; regs; reflexivity.
Qed.

Lemma equiv_ccmp insn s : st_wf s -> exec_a64 insn s = dp_condcmp insn s ->
  BITS insn 28 21 = 0xd2 ->
  pd_tab insn (fill_cond_src insn (ent0 insn)) s = dp_condcmp insn s.
Proof.
  intros Hs Hx E. revert Hx. unfold fill_cond_src, dp_condcmp. cbv zeta. rewrite E. cbn [Z.eqb Pos.eqb].
  destruct (_ || _ || _); intros Hx; [by rewrite generic|clear Hx].
  assert (Hn : fits 64 (xval s (BITS insn 9 5)))
    by (apply fits_xval; [done|apply BITS_range; [lia|reflexivity]]).
  set (fl := mk_nzcv _ _ _ _).
  destruct (unpack_ccmp (BITS insn 15 12) (BITS insn 20 16) fl) as (U1 & U2 & U3);
    [apply BITS_range; [lia|reflexivity]..|apply fits_mk_nzcv|].
  destruct (BITb insn 30), (BITb insn 31), (BITb insn 11); pd_cbn;
    unfold L_CCMP64I, op_in; pd_cbn; cbv zeta; rewrite U1, U2, U3; run_pd_is; regs;
    (destruct (cond_holds _ _); [|reflexivity]); regs; rewrite ?pd_awc_eq by done; reflexivity.
Qed.

Lemma equiv_csel insn s : st_wf s -> exec_a64 insn s = dp_condsel insn s ->
  BITS insn 28 21 = 0xd4 ->
  pd_tab insn (fill_cond_src insn (ent0 insn)) s = dp_condsel insn s.
Proof.
  intros Hs Hx E. revert Hx. unfold fill_cond_src, dp_condsel. cbv zeta. rewrite E. cbn [Z.eqb Pos.eqb].
  destruct (_ || _); intros Hx; [by rewrite generic|clear Hx].
  assert (Hc : u32 (BITS insn 15 12) = BITS insn 15 12).
  { apply u32_small. pose proof (BITS_range insn 15 12 16 ltac:(lia) eq_refl). unfold fits; lia. }
  destruct (BITb insn 30), (BITb insn 31), (BITb insn 10); pd_cbn;
    unfold L_CSEL64, op_in; pd_cbn; cbv zeta; rewrite Hc; run_pd_is; regs;
    destruct (cond_holds _ _); rewrite ?bind_assoc; regs; reflexivity.
Qed.

Lemma equiv_1source insn s : st_wf s -> exec_a64 insn s = dp_1source insn s ->
  BITS insn 28 21 = 0xd6 -> BITb insn 30 = true ->
  pd_tab insn (fill_cond_src insn (ent0 insn)) s = dp_1source insn s.
Proof.
  intros Hs Hx E E30. revert Hx. unfold fill_cond_src, dp_1source. cbv zeta.
  rewrite E, E30. cbn [Z.eqb Pos.eqb]. intros Hx.
  destruct (Z.eqb_spec (BITS insn 15 10) 2) as [E1|];
    [|destruct (Z.eqb_spec (BITS insn 15 10) 3) as [E1|];
      [|destruct (Z.eqb_spec (BITS insn 15 10) 4) as [E1|]; [|by rewrite generic]]];
    rewrite E1 in *; destruct (BITb insn 31); cbn [andb negb] in *; rewrite ?generic by done;
    try done; pd_cbn; unfold L_REVW, L_REV64, L_CLZ64, L_CLZ32, pd_r, set_x_sz; pd_cbn; regs;
    rewrite ?u32_bswap32, ?u32_clz by apply fits_u32; reflexivity.
Qed.

Lemma equiv_2source insn s : st_wf s -> exec_a64 insn s = dp_2source insn s ->
  BITS insn 28 21 = 0xd6 -> BITb insn 30 = false ->
  pd_tab insn (fill_cond_src insn (ent0 insn)) s = dp_2source insn s.
Proof.
  intros Hs Hx E E30. revert Hx. unfold fill_cond_src, dp_2source. cbv zeta.
  rewrite E, E30. cbn [Z.eqb Pos.eqb].
  pose proof (BITS_range insn 15 10 64 ltac:(lia) eq_refl) as Hk.
  assert (Hn : fits 64 (xval s (BITS insn 9 5)))
    by (apply fits_xval; [done|apply BITS_range; [lia|reflexivity]]).
  set (k := BITS insn 15 10) in *. clearbody k.
  destruct (Z.lt_ge_cases k 16) as [Hlt|Hge].
  2:{ intros Hx. rewrite generic; [done|]. destruct k as [|p|p]; [lia| |lia].
      do 5 (destruct p as [p|p|]; try reflexivity; try lia). }
  pose proof (z16_cases k (conj (proj1 Hk) Hlt)) as Hk'.
  decompose [or] Hk'; clear Hk'; subst k; intros Hx; try by rewrite generic.
  all: destruct (BITb insn 31); pd_cbn;
    unfold L_UDIV64, L_UDIV32, L_SDIV64, L_SDIV32, L_LSLV64, L_LSLV32, L_LSRV64, L_LSRV32, L_ASRV64,
      L_ASRV32, L_RORV64, L_RORV32, pd_rr, set_x_sz; pd_cbn; regs; rewrite ?u32_udiv, ?u32_sdiv; reflexivity.
Qed.

Lemma equiv_dp_reg insn s : st_wf s -> exec_a64 insn s = dp_register insn s ->
  pd_tab insn (fill_dp_reg insn (ent0 insn)) s = dp_register insn s.
Proof.
  intros Hs Hx. unfold dp_register, fill_dp_reg in *. cbv zeta in *.
  destruct (BITS insn 28 24 =? 0x0a); [by apply equiv_logical_reg|].
  destruct (BITS insn 28 24 =? 0x0b).
  { destruct (BITb insn 21) eqn:E; [by apply equiv_addsub_ext|by apply equiv_addsub_shift]. }
  destruct (BITS insn 28 24 =? 0x1b); [by apply equiv_3source|].
  destruct (BITS insn 28 24 =? 0x1a); [|by rewrite generic].
  destruct (Z.eqb_spec (BITS insn 28 21) 0xd0) as [E|_].
  { rewrite generic; [done|]. unfold fill_cond_src. cbv zeta. by rewrite E. }
  destruct (Z.eqb_spec (BITS insn 28 21) 0xd2); [by apply equiv_ccmp|].
  destruct (Z.eqb_spec (BITS insn 28 21) 0xd4); [by apply equiv_csel|].
  destruct (Z.eqb_spec (BITS insn 28 21) 0xd6).
  { destruct (BITb insn 30) eqn:E; [by apply equiv_1source|by apply equiv_2source]. }
  rewrite generic; [done|]. unfold fill_cond_src. cbv zeta.
  by rewrite !(proj2 (Z.eqb_neq _ _)) by done.
Qed.
End EquivReg.
