(* ===== verification/PdEquivMem.v ===== *)
(** * PdEquivMem: the branch and load/store groups

    The labels of the branches and of the load/store forms against
    [branch_system] and [loads_stores]. The integer pair forms make two
    8-byte accesses where the decoder makes one 16-byte access: the two agree
    because a page that was translated stays translated. *)

From S2P Require Import Prelude Types Cpu CpuWf MemSeam Alu AluSpec DpExec Atomics LdSt Sysreg Decode Predecode.
From S2P Require Import Bitfield MemThms PdExec PdEquiv PdEquivReg.

Lemma BITS_31_25 insn : BITS insn 31 25 = BITS insn 31 24 / 2.
Proof.
  unfold BITS. rewrite !Z.land_ones, !Z.shiftr_div_pow2 by lia. wsolve.
Qed.

Section EquivBr.
Context {Mem : Type} `{MemSeam Mem} `{Hooks Mem}.
Implicit Types s : St Mem.
Local Open Scope exec_scope.

Lemma equiv_branch insn s : st_wf s -> exec_a64 insn s = branch_system insn s ->
  pd_tab insn (fill_branch insn (ent0 insn)) s = branch_system insn s.
Proof.
  intros Hs. unfold fill_branch, branch_system. cbv zeta.
  destruct (BITS insn 31 26 =? 5); [done|].
  destruct (BITS insn 31 26 =? 37); [done|].
  destruct (_ && (BIT insn 4 =? 0)).
  { intros _. pd_cbn. unfold L_BCOND. pd_cbn. regs.
    rewrite u8_small; [done|]. pose proof (BITS_range insn 3 0 16 ltac:(lia) eq_refl). unfold fits; lia. }
  destruct (BITS insn 30 25 =? 0x1a).
  { intros _. unfold reg_x_sz. rewrite bind_assoc.
    destruct (BITb insn 31), (BITb insn 24); pd_cbn; unfold L_CBZ64, L_CBZ32, L_CBNZ64, L_CBNZ32; pd_cbn;
      regs; reflexivity. }
  destruct (BITS insn 30 25 =? 0x1b).
  { intros _. assert (Hu : u8 (Z.lor (Z.shiftl (BIT insn 31) 5) (BITS insn 23 19)) =
      Z.lor (Z.shiftl (BIT insn 31) 5) (BITS insn 23 19)).
    { pose proof (BIT_range insn 31). pose proof (BITS_range insn 23 19 32 ltac:(lia) eq_refl).
      rewrite lor_pack by (unfold fits; lia). apply u8_small. unfold fits; lia. }
    destruct (BITb insn 24); pd_cbn; unfold L_TBZ, L_TBNZ; pd_cbn; rewrite Hu; regs; reflexivity. }
  destruct (Z.eqb_spec (BITS insn 31 24) 0xd4) as [E|_].
  { rewrite BITS_31_25, E. cbn. intros Hx. by rewrite generic. }
  destruct (BITS insn 31 25 =? 0x6b).
  { unfold branch_reg. cbv zeta. intros Hx.
    destruct (BITS insn 24 21 =? 0) eqn:E0; [|destruct (BITS insn 24 21 =? 2) eqn:E2;
      [|destruct (BITS insn 24 21 =? 1) eqn:E1]]; cbn [orb]; [..|by rewrite generic].
    - apply Z.eqb_eq in E0. by rewrite E0.
    - apply Z.eqb_eq in E2. rewrite E2. pd_cbn. unfold L_BR. pd_cbn. regs. done.
    - apply Z.eqb_eq in E1. rewrite E1. pd_cbn. unfold L_BLR, pd_link. pd_cbn. regs.
      rewrite bind_assoc. done. }
  destruct (BITS insn 31 24 =? 0xd5); [|intros Hx; by rewrite generic].
  destruct (_ && _ && _ && (BITS insn 15 12 =? 2) && _) eqn:E; cbn [andb];
    [|intros Hx; by rewrite generic].
  intros Hx. destruct ((BITS insn 11 8 =? 0) && _); cbn [negb]; [by rewrite generic|done].
Qed.
End EquivBr.

(** ** Single-register loads and stores *)
(** Two continuations that agree on what [m] promises. *)
Lemma bind_safe {S A B} (P : S -> Prop) (m : M S A) Q (k k' : A -> M S B) s :
  safe True P m Q -> P s -> (forall a s', Q a -> P s' -> k a s' = k' a s') ->
  bind m k s = bind m k' s.
Proof.
  intros Hm Hs Hk. unfold bind. specialize (Hm s Hs). destruct (m s); [|done..]. destruct Hm. by apply Hk.
Qed.

Lemma bind_ret_r {S} (m : M S unit) s : bind m (fun _ => ret tt) s = m s.
Proof. unfold bind. by destruct (m s) as [[] ?|?|]. Qed.

(** Evaluate the sizes of an access whose size field is known. *)
Ltac closed_sizes :=
  repeat match goal with
  | |- context [Z.shiftl 1 ?k] => let v := eval vm_compute in (Z.shiftl 1 k) in change (Z.shiftl 1 k) with v
  end;
  cbn [negb andb orb Z.eqb Pos.eqb Z.leb Z.compare Pos.compare Pos.compare_cont Z.mul Pos.mul].
Ltac closed_lor :=
  match goal with |- context [Z.lor (Z.shiftl ?a 2) ?b] =>
    let v := eval vm_compute in (Z.lor (Z.shiftl a 2) b) in
    change (Z.lor (Z.shiftl a 2) b) with v end; cbn match.
Ltac closed_id :=
  match goal with |- context [ldst_int_id ?a ?b] =>
    let v := eval vm_compute in (ldst_int_id a b) in change (ldst_int_id a b) with v end.

Section EquivMem.
Context {Mem : Type} `{MemSeam Mem} `{Hooks Mem}.
Implicit Types s : St Mem.
Local Open Scope exec_scope.

Lemma bind_mem_read {A} va size (k k' : Z -> M (St Mem) A) s : st_wf s -> 0 <= size <= 8 ->
  (forall v s', fits (8 * size) v -> st_wf s' -> k v s' = k' v s') ->
  bind (mem_read va size) k s = bind (mem_read va size) k' s.
Proof. intros Hs Hz. eapply bind_safe; [by apply safe_mem_read|done]. Qed.

(** A zero-extending load of less than 8 bytes. *)
Lemma load_u32 va size rt s : st_wf s -> 0 <= size <= 4 ->
  bind (mem_read va size) (fun v => set_x rt v) s =
  bind (mem_read va size) (fun v => set_x rt (u32 v)) s.
Proof.
  intros Hs Hz. apply bind_mem_read; [done|lia|]. intros v s' Hv _.
  rewrite u32_small; [done|]. eapply fits_weaken; [done|lia].
Qed.

Lemma vreg_load_eq vt va b s :
  vreg_load vt va b s =
  (if b =? 16 then v <- mem_read128 va; set_v vt v
   else t <- mem_read va b; set_v vt (v_mk t 0)) s.
Proof. unfold vreg_load. destruct (b =? 16); [done|]. by rewrite bind_assoc. Qed.

Lemma equiv_literal insn s : st_wf s -> exec_a64 insn s = ldst_literal insn s ->
  pd_tab insn (fill_literal insn (ent0 insn)) s = ldst_literal insn s.
Proof.
  intros Hs. unfold fill_literal, ldst_literal. cbv zeta.
  destruct (BITS_cases2 insn 31 30) as [-> |[-> |[-> | ->]]]; [done| | | |];
    destruct (BITb insn 26); cbn [Z.eqb Pos.eqb]; intros Hx; try by rewrite generic.
  all: pd_cbn; unfold L_LDRLITV, L_LDRLIT32, L_LDRLIT64, pd_lit_va, branch_disp; pd_cbn; regs.
  all: try done.
  all: by rewrite vreg_load_eq.
Qed.

(** Unsigned-offset, unscaled and unprivileged integer forms: the label that
    [ldst_int_id] names loads and stores as [ldst_access] does. *)
Lemma equiv_ldst_int insn id imm s : st_wf s ->
  BITb insn 26 = false -> ldst_int_id (BITS insn 31 30) (BITS insn 23 22) = Some id ->
  pd_tab insn (op_imm id imm (ent0 insn)) s =
  bind (reg_xsp (BITS insn 9 5)) (fun base => ldst_access insn (u64 (base + imm)) base WB_NONE) s.
Proof.
  intros Hs HV Hid. regs. unfold ldst_access. cbv zeta. rewrite HV. revert Hid.
  destruct (BITS_cases2 insn 31 30) as [-> |[-> |[-> | ->]]]; [done| | | |];
  destruct (BITS_cases2 insn 23 22) as [-> |[-> |[-> | ->]]]; try done;
  closed_id; intros [= <-]; pd_cbn;
  unfold L_STRB, L_LDRB, L_LDRSB64, L_LDRSB32, L_STRH, L_LDRH, L_LDRSH64, L_LDRSH32, L_STR32U, L_LDR32U,
    L_LDRSW, L_STR64U, L_LDR64U, L_NOP, pd_load, pd_store, pd_va; pd_cbn; rewrite ?bind_assoc; regs.
  all: unfold do_load; closed_sizes; rewrite ?bind_ret_r; regs.
  all: first [ reflexivity | rewrite load_u32 by (done || lia); reflexivity ].
Qed.

(** The FP/SIMD forms without writeback. *)
Lemma equiv_ldst_q insn imm s : st_wf s ->
  BITb insn 26 = true -> has (BITS insn 23 22) 2 = true ->
  pd_tab insn (op_imm (sel (has (BITS insn 23 22) 1) PD_LDRQ PD_STRQ) imm (ent0 insn)) s =
  bind (reg_xsp (BITS insn 9 5)) (fun base => ldst_access insn (u64 (base + imm)) base WB_NONE) s.
Proof.
  intros Hs EV Eq. regs. unfold ldst_access. cbv zeta. rewrite EV, Eq. cbn [andb negb].
  destruct (has (BITS insn 23 22) 1); pd_cbn; unfold L_LDRQ, L_STRQ, pd_va; pd_cbn;
    rewrite ?bind_assoc; regs; rewrite bind_ret_r; [done|]. unfold vreg_store. by regs.
Qed.
Lemma equiv_ldst_v insn imm s : st_wf s ->
  BITb insn 26 = true -> has (BITS insn 23 22) 2 = false ->
  pd_tab insn (set_imm imm (set_rm (Z.shiftl 1 (BITS insn 31 30))
    (set_op (sel (has (BITS insn 23 22) 1) PD_LDRV PD_STRV) (ent0 insn)))) s =
  bind (reg_xsp (BITS insn 9 5)) (fun base => ldst_access insn (u64 (base + imm)) base WB_NONE) s.
Proof.
  intros Hs EV Eq. regs. unfold ldst_access. cbv zeta. rewrite EV, Eq. cbn [andb negb].
  destruct (has (BITS insn 23 22) 1); pd_cbn; unfold L_LDRV, L_STRV, pd_va; pd_cbn;
    rewrite ?bind_assoc; regs; rewrite bind_ret_r; rewrite ?vreg_load_eq; unfold vreg_store;
    destruct (BITS_cases2 insn 31 30) as [-> |[-> |[-> | ->]]]; try done; by regs.
Qed.

Lemma equiv_uoff insn s : st_wf s -> exec_a64 insn s = ldst_register insn s ->
  BITb insn 24 = true ->
  pd_tab insn (fill_ldst_uoff insn (ent0 insn)) s = ldst_register insn s.
Proof.
  intros Hs. unfold fill_ldst_uoff, ldst_register. cbv zeta. intros Hx E24. rewrite E24 in *.
  destruct (BITb insn 26) eqn:EV; cbn [andb] in *.
  - destruct (has (BITS insn 23 22) 2) eqn:Eq; cbn [andb] in *; [|by apply equiv_ldst_v].
    destruct (negb (BITS insn 31 30 =? 0)); [by rewrite generic|by apply equiv_ldst_q].
  - destruct (ldst_int_id _ _) as [id|] eqn:Eid; [|by rewrite generic]. by apply equiv_ldst_int.
Qed.

Lemma equiv_roff insn s : st_wf s -> exec_a64 insn s = ldst_register insn s ->
  BITb insn 24 = false -> BITb insn 21 = true ->
  pd_tab insn (fill_ldst_roff insn (ent0 insn)) s = ldst_register insn s.
Proof.
  intros Hs. unfold fill_ldst_roff, ldst_register. cbv zeta. intros Hx E24 E21.
  rewrite E24, E21 in *.
  destruct (Z.eqb_spec (BITS insn 11 10) 2) as [E|]; cbn [negb orb] in *; [|by rewrite generic].
  rewrite E in *. destruct (BITb insn 26) eqn:EV; cbn [andb orb Z.eqb negb] in *; [by rewrite generic|].
  pose proof (BITS_range insn 15 13 8 ltac:(lia) eq_refl) as Ho.
  pose proof (BITS_range insn 31 30 4 ltac:(lia) eq_refl) as Hz.
  set (sh := if BITb insn 12 then BITS insn 31 30 else 0) in *.
  assert (Hsh : 0 <= sh < 8) by (unfold sh; destruct (BITb insn 12); lia).
  destruct (unpack_extend (BITS insn 15 13) sh) as (U1 & U2); [lia..|].
  revert Hx. regs. unfold ldst_extended_offset, ldst_access. cbv zeta. rewrite EV. fold sh.
  rewrite !bind_assoc. regs. intros Hx. clearbody sh. clear Hz. revert Hx.
  destruct (BITS_cases2 insn 31 30) as [-> |[-> |[-> | ->]]]; [done| | | |];
  destruct (BITS_cases2 insn 23 22) as [-> |[-> |[-> | ->]]]; try done;
  intros Hx; try by rewrite generic.
  all: clear Hx; closed_lor; pd_cbn; unfold L_LDR64RO, op_in; pd_cbn; cbv zeta; rewrite U1, U2; run_pd_is.
  all: unfold do_load; closed_sizes; rewrite ?bind_ret_r; regs; rewrite pd_extend_reg_eq.
  all: first [ reflexivity | rewrite load_u32 by (done || lia); reflexivity ].
Qed.

Lemma equiv_imm9_plain insn s : st_wf s -> exec_a64 insn s = ldst_register insn s ->
  BITb insn 24 = false -> BITb insn 21 = false ->
  (BITS insn 11 10 =? 0) || (BITS insn 11 10 =? 2) = true ->
  pd_tab insn (fill_ldst_imm9 insn (ent0 insn)) s = ldst_register insn s.
Proof.
  intros Hs. unfold fill_ldst_imm9, ldst_register. cbv zeta. intros Hx E24 E21 Em.
  rewrite E24, E21, Em in *.
  destruct (BITb insn 26) eqn:EV; cbn [andb] in *; rewrite ?andb_false_r, ?andb_true_r in *.
  - destruct (BITS insn 11 10 =? 2); [by rewrite generic|].
    destruct (has (BITS insn 23 22) 2) eqn:Eq; cbn [andb] in *; [|by apply equiv_ldst_v].
    destruct (negb (BITS insn 31 30 =? 0)); [by rewrite generic|by apply equiv_ldst_q].
  - destruct (ldst_int_id _ _) as [id|] eqn:Eid; [|by rewrite generic]. by apply equiv_ldst_int.
Qed.

(** Pre- and post-indexed: the forms with a label of their own. *)
Lemma equiv_imm9_wb_v insn s : st_wf s -> exec_a64 insn s = ldst_register insn s ->
  BITb insn 24 = false -> BITb insn 21 = false ->
  (BITS insn 11 10 =? 0) || (BITS insn 11 10 =? 2) = false -> BITb insn 26 = true ->
  pd_tab insn (fill_ldst_imm9 insn (ent0 insn)) s = ldst_register insn s.
Proof.
  intros Hs. unfold fill_ldst_imm9, ldst_register. cbv zeta. intros Hx E24 E21 Em EV.
  rewrite E24, E21, Em, EV in *. cbn [andb] in *.
  destruct (has (BITS insn 23 22) 2) eqn:Eq; cbn [andb] in *; [|by rewrite generic].
  destruct (BITS insn 31 30 =? 0); cbn [negb] in *; [clear Hx|by rewrite generic].
  regs. unfold ldst_access. cbv zeta. rewrite EV, Eq. cbn [andb negb].
  destruct (BITS insn 11 10 =? 1), (has (BITS insn 23 22) 1); pd_cbn;
    unfold L_LDRQPOST, L_LDRQPRE, L_STRQPOST, L_STRQPRE, pd_va, vreg_load, vreg_store; pd_cbn;
    cbn [Z.eqb Pos.eqb]; rewrite ?bind_assoc; regs; rewrite ?bind_assoc; regs; done.
Qed.

Lemma equiv_imm9_wb insn s : st_wf s -> exec_a64 insn s = ldst_register insn s ->
  BITb insn 24 = false -> BITb insn 21 = false ->
  (BITS insn 11 10 =? 0) || (BITS insn 11 10 =? 2) = false -> BITb insn 26 = false ->
  pd_tab insn (fill_ldst_imm9 insn (ent0 insn)) s = ldst_register insn s.
Proof.
  intros Hs. unfold fill_ldst_imm9, ldst_register. cbv zeta. intros Hx E24 E21 Em EV.
  rewrite E24, E21, Em, EV in *. cbn [andb] in *. revert Hx. regs. 
  unfold ldst_access. cbv zeta. rewrite EV.
  destruct (BITS_cases2 insn 31 30) as [-> |[-> |[-> | ->]]]; [done| | | |];
  destruct (BITS_cases2 insn 23 22) as [-> |[-> |[-> | ->]]]; try done;
  destruct (BITS insn 11 10 =? 1); cbn [andb Z.eqb Pos.eqb];
  intros Hx; try by rewrite generic.
  all: clear Hx; pd_cbn; 
    unfold L_LDR64PRE, L_LDR64POST, L_LDR32PRE, L_LDR32POST, L_STR64PRE, L_STR64POST, L_STR32PRE,
      L_STR32POST, L_LDRBPOST, L_STRBPOST, pd_load_pre, pd_load_post, pd_store_pre, pd_store_post,
      pd_va, do_load; pd_cbn; closed_sizes; rewrite ?bind_assoc; regs; rewrite ?bind_assoc; regs.
  all: try reflexivity.
  apply bind_mem_read; [done|lia|]. intros v s' Hv _.
  rewrite (u32_small v); [done|]. eapply fits_weaken; [done|lia].
Qed.
End EquivMem.

(** * The load/store pairs, and the whole pre-decoder

    A 16-byte access as two 8-byte ones, the pair labels, and the main lemma:
    for every instruction word, the entry [pd_fill] makes runs as [exec_a64]
    does. *)

(** ** A 16-byte access as two of 8 bytes *)
Lemma page_offset_add va k : 0 <= k -> Z.land va GUEST_PAGE_MASK + k < GUEST_PAGE_SIZE ->
  Z.land (va + k) GUEST_PAGE_MASK = Z.land va GUEST_PAGE_MASK + k /\
  Z.shiftr (va + k) 12 = Z.shiftr va 12.
Proof.
  change GUEST_PAGE_MASK with (Z.ones 12). rewrite !Z.land_ones, !Z.shiftr_div_pow2 by lia.
  unfold GUEST_PAGE_SIZE. intros. split; wsolve.
Qed.
Lemma halves_in_page va : fits 64 va -> crosses va 16 = false ->
  u64 (va + 8) = va + 8 /\ crosses va 8 = false /\ crosses (va + 8) 8 = false /\
  Z.shiftr va 12 = Z.shiftr (va + 8) 12.
Proof.
  intros Hva Hc. unfold crosses in *. apply Z.ltb_ge in Hc.
  destruct (page_offset_add va 8) as [E1 E2]; [lia..|]. rewrite E1. split_and!.
  - apply u64_small. revert Hc. change GUEST_PAGE_MASK with (Z.ones 12).
    rewrite Z.land_ones by lia. unfold GUEST_PAGE_SIZE. wsolve.
  - apply Z.ltb_ge. lia.
  - apply Z.ltb_ge. lia.
  - done.
Qed.

Section Halves.
Context {Mem : Type} `{MemSeamOk Mem}.
Implicit Types s : St Mem.
Local Open Scope exec_scope.

Lemma v_mk_host_load p (m : Mem) : host_load 16 p m = v_mk (host_load 8 p m) (host_load 8 (p + 8) m).
Proof.
  rewrite (host_load_app 8 8). unfold v_mk.
  by rewrite !u64_small by apply (fits_host_load 8).
Qed.
Lemma v_d0_mk a b : v_d0 (v_mk a b) = u64 a.
Proof.
  unfold v_d0, v_mk. unfold u64 at 1. rewrite <- Z.land_ones, Z.land_lor_distr_l by lia.
  rewrite !Z.land_ones by lia. fold (u64 (u64 a)). rewrite u64_u64.
  rewrite Z.shiftl_mul_pow2, Z.mod_mul by lia. apply Z.lor_0_r.
Qed.
Lemma v_d1_mk a b : v_d1 (v_mk a b) = u64 b.
Proof.
  unfold v_d1, v_mk. rewrite Z.shiftr_lor, Z.shiftr_shiftl_l by lia.
  assert (Z.shiftr (u64 a) 64 = 0) as ->.
  { pose proof (fits_u64 a) as [? ?]. rewrite Z.shiftr_div_pow2 by lia. apply Z.div_small. lia. }
  rewrite Z.lor_0_l, Z.shiftl_0_r. apply u64_u64.
Qed.

Lemma mem_read128_halves va s : fits 64 va ->
  mem_read128 va s =
  (a <- mem_read va 8; b <- mem_read (u64 (va + 8)) 8; ret (v_mk a b)) s.
Proof.
  intros Hva. unfold mem_read128. destruct (crosses va 16) eqn:Ec; [done|].
  destruct (halves_in_page va Hva Ec) as (-> & C1 & C2 & Hp). unfold mem_read. rewrite C1, C2.
  unfold mem_read_page, translateM, bind at 1 2 3 4.
  destruct (translate _ va PTE_R (s_mem s)) as [[[p|] b] m'] eqn:Et; [|done].
  unfold ld_le. cbn -[host_load]. unfold bind. cbn [s_tls s_mem upd_mem].
  rewrite (translate_again _ _ _ _ _ _ _ _ Et Hp). cbn -[host_load].
  unfold gets, ret. cbn -[host_load]. rewrite v_mk_host_load. by replace (p + (va + 8 - va)) with (p + 8) by lia.
Qed.

Lemma mem_write128_halves va a b s : fits 64 va -> fits 64 a -> fits 64 b ->
  mem_write128 va (v_mk a b) s =
  (mem_write va 8 a ;; mem_write (u64 (va + 8)) 8 b) s.
Proof.
  intros Hva Ha Hb. unfold mem_write128. rewrite v_d0_mk, v_d1_mk. destruct (crosses va 16) eqn:Ec.
  { by rewrite (u64_small a), (u64_small b). }
  destruct (halves_in_page va Hva Ec) as (-> & C1 & C2 & Hp). unfold mem_write. rewrite C1, C2.
  unfold mem_write_page, translateM, bind at 1 2 3.
  destruct (translate _ va PTE_W (s_mem s)) as [[[p|] c] m'] eqn:Et; [|done].
  unfold st_le. cbn -[host_store]. unfold bind. cbn [s_tls s_mem upd_mem].
  rewrite translate_host_store, (translate_again _ _ _ _ _ _ _ _ Et Hp). cbn -[host_store].
  unfold modify, upd_mem. cbn -[host_store]. do 2 f_equal.
  rewrite (host_store_app 8 8). replace (p + (va + 8 - va)) with (p + 8) by lia.
  rewrite (host_store_mod 8 (p + 8) _ b), (host_store_mod 8 p (v_mk a b) a); [done| |].
  - apply v_d0_mk.
  - apply v_d1_mk.
Qed.

(** A store leaves the registers and the thread's words alone. *)
Lemma mem_write_page_cpu va size v s s' : mem_write_page va size v s = Ok tt s' ->
  s_cpu s' = s_cpu s /\ s_tls s' = s_tls s.
Proof.
  unfold mem_write_page, translateM, bind, st_le, raise_dabort.
  destruct (translate _ _ _ _) as [[[p|] c] m']; [|done]. destruct (size <=? 8); [|done].
  by intros [= <-].
Qed.
Lemma mem_write_cpu va size v s s' : mem_write va size v s = Ok tt s' ->
  s_cpu s' = s_cpu s /\ s_tls s' = s_tls s.
Proof.
  unfold mem_write, bind. destruct (crosses va size); [|apply mem_write_page_cpu].
  destruct (mem_write_page va _ v s) as [[] s1|s1|] eqn:E; [|done..].
  apply mem_write_page_cpu in E as [E1 E2]. intros [E3 E4]%mem_write_page_cpu.
  split; congruence.
Qed.
(** A register read after a store gives what it gave before. *)
Lemma mem_write_reg_x {A} va size v n (k : Z -> M (St Mem) A) s : st_wf s -> 0 <= n < 32 ->
  (mem_write va size v ;; b <- reg_x n; k b) s = (mem_write va size v ;; k (xval s n)) s.
Proof.
  intros Hs Hn. unfold bind at 1 3. destruct (mem_write va size v s) as [[] s'|s'|] eqn:E; [|done..].
  apply mem_write_cpu in E as [E _]. rewrite bind_reg_x; [|unfold st_wf in *; by rewrite E|done].
  unfold xval. by rewrite E.
Qed.
End Halves.

Lemma bind_head {S A B} (m m' : M S A) (k : A -> M S B) s : m s = m' s -> bind m k s = bind m' k s.
Proof. unfold bind. by intros ->. Qed.

(** The label of a pair entry, its opcode and mode known. *)
Ltac pair_label :=
  pd_cbn;
  repeat match goal with |- context [pd_of_id ?x] =>
    let v := eval vm_compute in (pd_of_id x) in change (pd_of_id x) with v end;
  pd_cbn; unfold L_LDP64, L_STP64, L_LDPQ, L_STPQ, L_LDPD, L_STPD, op_in, pd_pair_wb, pd_pair_addr;
  pd_cbn; run_pd_is; cbn [negb]; cbv zeta; repeat match goal with H : u8 (BITS _ _ _) = _ |- _ => rewrite H; clear H end; regs.

(** The transfer of the integer pair labels. *)
Definition pair_int {Mem} `{MemSeam Mem} (is64 L : bool) (rt rt2 addr : Z) : M (St Mem) unit := (
  let esz := if is64 then 8 else 4 in
  if L then
    a <- mem_read addr esz;
    b <- mem_read (u64 (addr + esz)) esz;
    set_x rt (if is64 then a else u32 a) ;; set_x rt2 (if is64 then b else u32 b)
  else
    a <- reg_x rt;
    mem_write addr esz a ;;
    b <- reg_x rt2;
    mem_write (u64 (addr + esz)) esz b)%exec.

(** Equality of two sequences up to association. *)
Ltac reassoc :=
  rewrite ?bind_assoc; regs;
  repeat first [ reflexivity | rewrite ?bind_assoc, ?bind_ret, ?bind_ret_r; reflexivity
               | rewrite ?bind_assoc, ?bind_ret; apply bind_ext; intros ].
Ltac pair_modes P :=
  cbv beta iota in P;
  match goal with
  | EV : BITb _ 26 = false, Eo : BITS _ 31 30 = _, Hb : fits 64 (spval _ _),
    Hm : _ = 0 \/ _ |- _ =>
      destruct Hm as [-> |[-> |[-> | ->]]]; cbn match;
      rewrite ?(bind_head _ _ _ _ (P _ (fits_u64 _) EV Eo)), ?(bind_head _ _ _ _ (P _ Hb EV Eo)),
        ?(P _ (fits_u64 _) EV Eo);
      destruct (BITb _ 22); pair_label; rewrite <- ?(bind_ret_r (pair_int _ _ _ _ _)); unfold pair_int; reassoc
  end.

Section EquivPair.
Context {Mem : Type} `{MemSeamOk Mem} `{Hooks Mem}.
Implicit Types s : St Mem.
Local Open Scope exec_scope.

Lemma pair_int_eq insn (is64 : bool) addr s : st_wf s -> fits 64 addr -> BITb insn 26 = false ->
  BITS insn 31 30 = (if is64 then 2 else 0) ->
  ldst_pair_access insn (if is64 then 8 else 4) addr s =
  pair_int is64 (BITb insn 22) (BITS insn 4 0) (BITS insn 14 10) addr s.
Proof.
  intros Hs Ha EV Eo. unfold ldst_pair_access, pair_int. cbv zeta. rewrite EV, Eo.
  destruct is64; cbn [Z.eqb Pos.eqb negb andb]; [|done].
  destruct (BITb insn 22).
  - rewrite (bind_head _ _ _ _ (mem_read128_halves addr s Ha)), !bind_assoc.
    apply bind_mem_read; [done|lia|]. intros a s1 Fa W1. rewrite !bind_assoc.
    apply bind_mem_read; [done|lia|]. intros b s2 Fb W2. rewrite bind_ret, v_d0_mk, v_d1_mk.
    by rewrite !u64_small.
  - regs. rewrite mem_write_reg_x by (done || (apply BITS_range; [lia|reflexivity])).
    apply mem_write128_halves; [done|apply fits_xval; [done|apply BITS_range; [lia|reflexivity]]..].
Qed.

Lemma equiv_pair_int insn s : st_wf s -> exec_a64 insn s = ldst_pair insn s ->
  BITb insn 26 = false ->
  pd_tab insn (fill_pair insn (ent0 insn)) s = ldst_pair insn s.
Proof.
  intros Hs. unfold fill_pair, ldst_pair. cbv zeta. intros Hx EV. rewrite EV in *.
  pose proof (BITS_range insn 25 23 8 ltac:(lia) eq_refl) as Hm.
  destruct (Z.ltb_spec 3 (BITS insn 25 23)); [by rewrite generic|].
  assert (Hm' : BITS insn 25 23 = 0 \/ BITS insn 25 23 = 1 \/ BITS insn 25 23 = 2 \/ BITS insn 25 23 = 3) by lia.
  assert (Hr2 : u8 (BITS insn 14 10) = BITS insn 14 10) by (apply u8_reg, BITS_range; [lia|reflexivity]).
  destruct (BITS_cases2 insn 31 30) as [Eo|[Eo|[Eo|Eo]]]; [done| | | |]; rewrite Eo in *;
    cbn [Z.eqb Pos.eqb] in *; [|by rewrite generic| |by rewrite generic]; clear Hx; regs.
  all: change (Z.shiftl 1 2) with 4; change (Z.shiftl 1 3) with 8.
  all: assert (Hb : fits 64 (spval s (BITS insn 9 5)))
    by (apply fits_spval; [done|apply BITS_range; [lia|reflexivity]]).
  - pose proof (fun a => pair_int_eq insn false a s Hs) as P. pair_modes P.
  - pose proof (fun a => pair_int_eq insn true a s Hs) as P. pair_modes P.
Qed.

Lemma equiv_pair_v insn s : st_wf s -> exec_a64 insn s = ldst_pair insn s ->
  BITb insn 26 = true ->
  pd_tab insn (fill_pair insn (ent0 insn)) s = ldst_pair insn s.
Proof.
  intros Hs. unfold fill_pair, ldst_pair. cbv zeta. intros Hx EV. rewrite EV in *.
  pose proof (BITS_range insn 25 23 8 ltac:(lia) eq_refl) as Hm.
  destruct (Z.ltb_spec 3 (BITS insn 25 23)); [by rewrite generic|].
  assert (Hm' : BITS insn 25 23 = 0 \/ BITS insn 25 23 = 1 \/ BITS insn 25 23 = 2 \/ BITS insn 25 23 = 3) by lia.
  assert (Hr2 : u8 (BITS insn 14 10) = BITS insn 14 10) by (apply u8_reg, BITS_range; [lia|reflexivity]).
  destruct (BITS_cases2 insn 31 30) as [Eo|[Eo|[Eo|Eo]]]; [done| | | |]; rewrite Eo in *;
    cbn [Z.eqb Pos.eqb] in *; [by rewrite generic| | |by rewrite generic]; clear Hx; regs.
  all: change (Z.shiftl 1 (1 + 2)) with 8; change (Z.shiftl 1 (2 + 2)) with 16;
    change (1 + 2) with 3; change (2 + 2) with 4.
  all: unfold ldst_pair_access; cbv zeta; rewrite EV; cbn [negb andb].
  all: destruct Hm' as [-> |[-> |[-> | ->]]], (BITb insn 22); cbn match; pair_label;
    unfold vreg_load, vreg_store; cbn [Z.eqb Pos.eqb]; reassoc.
Qed.
End EquivPair.

(** ** The whole pre-decoder *)
Section EquivAll.
Context {Mem : Type} `{MemSeamOk Mem} `{Hooks Mem}.
Implicit Types s : St Mem.

Lemma equiv_ldst insn s : st_wf s -> exec_a64 insn s = loads_stores insn s ->
  pd_tab insn (fill_ldst insn (ent0 insn)) s = loads_stores insn s.
Proof.
  intros Hs Hx. unfold loads_stores, fill_ldst in *. cbv zeta in *.
  destruct (Z.eqb_spec (BITS insn 29 27) 7) as [E|].
  { rewrite E. cbn [Z.eqb Pos.eqb andb]. destruct (BITb insn 24) eqn:E24; [by apply equiv_uoff|].
    destruct (BITb insn 21) eqn:E21; [by apply equiv_roff|].
    destruct ((BITS insn 11 10 =? 0) || (BITS insn 11 10 =? 2)) eqn:Em; [by apply equiv_imm9_plain|].
    destruct (BITb insn 26) eqn:EV; [by apply equiv_imm9_wb_v|by apply equiv_imm9_wb]. }
  destruct (Z.eqb_spec (BITS insn 29 27) 5) as [E|].
  { rewrite E. cbn [Z.eqb Pos.eqb andb].
    destruct (BITb insn 26) eqn:EV; [by apply equiv_pair_v|by apply equiv_pair_int]. }
  destruct ((BITS insn 29 27 =? 3) && (BITS insn 25 24 =? 0)); [by apply equiv_literal|].
  by rewrite generic.
Qed.

(** Dispatching a word's entry is executing the word. *)
Lemma pd_fill_exec insn s : st_wf s -> pd_tab insn (pd_fill insn) s = exec_a64 insn s.
Proof.
  intros Hs. unfold pd_fill. cbv zeta. rewrite ent0_eq.
  pose proof (equiv_dp_imm insn s Hs) as P1. pose proof (equiv_branch insn s Hs) as P2.
  pose proof (equiv_ldst insn s Hs) as P3. pose proof (equiv_dp_reg insn s Hs) as P4.
  pose proof (generic insn (ent0 insn) s eq_refl) as P5.
  unfold exec_a64 in P1, P2, P3, P4 |- *.
  assert (Hr : 0 <= Z.land (Z.shiftr insn 25) 0xf < 16).
  { change 0xf with (Z.ones 4). rewrite Z.land_ones by lia. by apply Z.mod_pos_bound. }
  revert P1 P2 P3 P4 P5. unfold exec_a64.
  pose proof (z16_cases _ Hr) as Hc. decompose [or] Hc; clear Hc;
    match goal with E : Z.land _ _ = _ |- _ => rewrite E end; auto.
Qed.
End EquivAll.
