(* ===== verification/PdThms.v ===== *)
(** * PdThms: the decode cache and the threaded run loop

    A valid cache holds at every slot the entry of the word in its tag; the
    loop keeps it valid, and its runs are those of the single-step engine. *)

From stdpp Require Import gmap.
From S2P Require Import Prelude Types Cpu CpuWf MemSeam Alu DpExec LdSt Sysreg Decode Predecode ExecSafe FlatMem PdExec.
From S2P Require Import PdEquiv PdEquivMem.

(** An entry keeps the word it was made from. *)
Lemma pd_insn_fill insn : pd_insn (pd_fill insn) = insn.
Proof.
  unfold pd_fill. cbv zeta. rewrite ent0_eq.
  assert (Ht : pd_insn (ent0 insn) = insn) by done. revert Ht. generalize (ent0 insn). intros e He.
  unfold fill_dp_imm, fill_branch, fill_ldst, fill_dp_reg, fill_bitfield, fill_literal, fill_pair,
    fill_ldst_uoff, fill_ldst_roff, fill_ldst_imm9, fill_logical_reg, fill_addsub_reg, fill_3source,
    fill_cond_src, op_imm.
  cbv zeta. repeat case_match; cbn [pd_insn set_op set_imm set_rm set_rd]; try exact He.
Qed.

(** ** The decode cache *)

(** Every slot holds the entry of the word in its tag; an unfilled slot is
    all zeroes, which is the entry of word 0. *)
Definition cache_ok (cache : PDCache) : Prop :=
  forall i e, cache !! i = Some e -> e = pd_fill (pd_insn e).

Lemma zero_ent_ok : zero_ent = pd_fill 0.
Proof. reflexivity. Qed.
Lemma cache_ok_empty : cache_ok ∅.
Proof. intros i e. by rewrite lookup_empty. Qed.
Lemma pd_slot_ok cache pc : cache_ok cache -> pd_slot cache pc = pd_fill (pd_insn (pd_slot cache pc)).
Proof.
  intros Hc. unfold pd_slot. destruct (cache !! pd_index pc) as [e|] eqn:E; simpl; [by eapply Hc|].
  apply zero_ent_ok.
Qed.
Lemma pd_lookup_ok cache pc insn : cache_ok cache ->
  cache_ok (fst (pd_lookup cache pc insn)) /\ snd (pd_lookup cache pc insn) = pd_fill insn.
Proof.
  intros Hc. unfold pd_lookup. cbv zeta. destruct (Z.eqb_spec (pd_insn (pd_slot cache pc)) insn) as [E|].
  - split; [done|]. simpl. rewrite (pd_slot_ok cache pc Hc). by rewrite E.
  - split; [|done]. intros i e. simpl. rewrite lookup_insert.
    case_decide; [|apply Hc]. intros [= <-]. by rewrite pd_insn_fill.
Qed.

(** ** The threaded loop refines the single-step one *)
Definition forget {Mem} (r : run_result (Mem:=Mem) PDCache) : run_result (Mem:=Mem) unit :=
  match r with
  | Returned _ _ s => Returned _ tt s
  | Running _ _ s => Running _ tt s
  | Undef _ => Undef _
  end.

Section Run.
Context {Mem : Type} `{MemSeamOk Mem} `{HooksOk Mem}.
Implicit Types s : St Mem.

Lemma safe_fetch_next : safe True (st_wf (Mem:=Mem)) fetch_next (fun _ => True).
Proof.
  intros s Hs. unfold fetch_next. cbv zeta.
  set (s1 := upd_cpu _ s). assert (Hs1 : st_wf s1) by (apply wf_with_cur; [apply Hs|done]).
  pose proof (safe_mem_ifetch True (c_pc (s_cpu s1)) s1 Hs1) as Hf.
  destruct (mem_ifetch (c_pc (s_cpu s1)) s1) as [insn s2|s2|]; [|done..].
  split; [done|]. apply wf_with_pc; [apply fits_u64|apply Hf].
Qed.
Lemma safe_step_insn insn : safe True (st_wf (Mem:=Mem)) (bind (call (exec_a64 insn)) (fun _ => count_insn)) (fun _ => True).
Proof.
  intros s Hs. unfold bind, call, count_insn.
  pose proof (safe_exec_a64 True insn (fun _ => I) s Hs) as Hx.
  destruct (exec_a64 insn s) as [[] s'|s'|]; [destruct Hx|..]; try done; simpl;
    (split; [done|]); by apply wf_with_icount.
Qed.

(** [pd_run] from a valid cache ends where the single-step engine does, and
    leaves a valid cache and a well-formed state. *)
Lemma pd_run_ok n sig i cache s : st_wf s -> cache_ok cache ->
  forget (pd_run n sig i cache s) = nopd_run n sig i s /\
  match pd_run n sig i cache s with
  | Returned _ c' s' | Running _ c' s' => cache_ok c' /\ st_wf s'
  | Undef _ => True
  end.
Proof.
  revert i cache s. induction n as [|n IH]; intros i cache s Hs Hc; [done|].
  cbn [pd_run nopd_run]. pose proof (safe_fetch_next s Hs) as Hf.
  destruct (fetch_next s) as [[insn|] s1|s1|]; try done; [|naive_solver..]. destruct Hf as [_ H1s].
  destruct (pd_lookup_ok cache (c_cur_insn_pc (s_cpu s1)) insn Hc) as [Hc' He].
  destruct (pd_lookup cache _ insn) as [cache' e]. simpl in Hc', He. subst e.
  rewrite (bind_head (call (pd_tab insn (pd_fill insn))) (call (exec_a64 insn)))
    by (unfold call; by rewrite pd_fill_exec).
  pose proof (safe_step_insn insn s1 H1s) as Hw.
  destruct (bind (call (exec_a64 insn)) _ s1) as [[] s2|s2|]; [destruct Hw as [_ Hw]|..]; try done;
    destruct (must_leave (sig i) s2); try done; by apply IH.
Qed.
End Run.

(** * The pre-decoded engine and reset, stated end to end *)

Section PdThms.
Context {Mem : Type} `{MemSeamOk Mem} `{HooksOk Mem}.
Implicit Types s : St Mem.

(** C2: for every instruction word and every well-formed state, dispatching
    the entry the pre-decoder makes of the word has exactly the effect of the
    decoder on the word: same registers, same memory, same exception. *)
Theorem pd_dispatch_is_exec insn s : st_wf s -> pd_tab insn (pd_fill insn) s = exec_a64 insn s.
Proof. apply pd_fill_exec. Qed.

(** C3: the threaded loop with its decode cache refines the single-step
    engine: from any valid cache (the zeroed one, or one left by earlier runs
    over code that has since been rewritten), for any number of steps and any
    arrival of signals, it reaches the same state and leaves for the same
    reason. *)
Theorem pd_run_is_nopd_run n sig i cache s : st_wf s -> cache_ok cache ->
  forget (pd_run n sig i cache s) = nopd_run n sig i s.
Proof. apply pd_run_ok. Qed.

(** The run loop keeps the decode cache valid and the state well-formed,
    so what it leaves behind can be run again. *)
Theorem pd_run_keeps_cache n sig i cache s : st_wf s -> cache_ok cache ->
  match pd_run n sig i cache s with
  | Returned _ c' s' => cache_ok c' /\ st_wf s'
  | Running _ c' s' => cache_ok c' /\ st_wf s'
  | Undef _ => True
  end.
Proof. apply pd_run_ok. Qed.

Lemma sysreg_init_safe : safe False (st_wf (Mem:=Mem)) sysreg_init (fun _ => True).
Proof.
  unfold sysreg_init.
  eapply safe_bind; [apply safe_bank_set; [solve_bank|solve_bank|lia|vm_compute; split; congruence]|].
  intros [] _. do 3 (eapply safe_bind; [apply safe_sys_set; [solve_bank|vm_compute; split; congruence]|]; intros [] _).
  eapply safe_bind; [apply safe_fpsr_sync|]. intros [] _. by safe_step.
Qed.

(** Reset establishes the invariant the other theorems start from: from
    any state whatsoever, a CPU reset to an entry point at any of the four
    exception levels is well-formed. *)
Theorem cpu_reset_wf entry el s : fits 64 entry -> 0 <= el <= 3 ->
  match cpu_reset entry el s with
  | Ok _ s' => st_wf s'
  | Fault s' => st_wf s'
  | UB => False
  end.
Proof.
  intros He Hel. unfold cpu_reset, bind at 1, putc, modify.
  set (s0 := upd_cpu _ s).
  assert (Hs0 : st_wf s0).
  { unfold s0, st_wf. cbn [s_cpu upd_cpu]. pose proof zero_cpu_wf as Hz.
    assert (Eel : u8 el = el) by (apply u8_small; unfold fits; lia). rewrite Eel.
    assert (Hc : cpu_wf (with_nzcv 0 (with_daif (Z.lor (Z.lor (Z.lor PS_D PS_A) PS_I) PS_F)
      (with_sp_sel 1 (with_el el (with_pc entry zero_cpu)))))).
    { apply wf_with_nzcv; [by apply fits_0|]. apply wf_with_daif; [vm_compute; split; congruence|].
      apply wf_with_sp_sel; [|vm_compute; split; congruence]. apply wf_with_el; [done|]. by apply wf_with_pc. }
    destruct Hc. constructor; cbn; auto.
    repeat (apply List.Forall_cons || apply List.Forall_nil); split; vm_compute; done. }
  pose proof (sysreg_init_safe s0 Hs0) as Hi. destruct (sysreg_init s0); [apply Hi|done..].
Qed.
End PdThms.

(** The program [add x0, x0, #1; b .-4] at 0x1000. *)
Definition loop_prog : gmap Z Z :=
  list_to_map (zip (seqZ 0x1000 8) [0x00; 0x04; 0x00; 0x91; 0xff; 0xff; 0xff; 0x17]).
Definition loop_st : St FlatMem :=
  mkSt (with_pc 0x1000 zero_cpu) flat_tls (mkFlat loop_prog None).
Lemma loop_st_wf : st_wf loop_st.
Proof. apply wf_with_pc; [done|apply zero_cpu_wf]. Qed.

Lemma pd_dispatch_is_exec_witness :
  pd_tab 0x91001020 (pd_fill 0x91001020) (flat_st [0; 38]) = exec_a64 0x91001020 (flat_st [0; 38]) /\
  pd_op (pd_fill 0x91001020) = PD_ADD64I.
Proof. split; [|reflexivity]. apply pd_dispatch_is_exec, flat_st_wf. reflexivity. Defined.
Lemma pd_run_is_nopd_run_witness :
  exists s', forget (pd_run 6 (fun _ => false) 0 ∅ loop_st) = Running _ tt s' /\ xval s' 0 = 3.
Proof.
  destruct (nopd_run 6 (fun _ => false) 0 loop_st) as [[] s'|[] s'|] eqn:E;
    [vm_compute in E; discriminate| |vm_compute in E; discriminate].
  exists s'. split.
  - rewrite (pd_run_is_nopd_run 6 (fun _ => false) 0 ∅ loop_st loop_st_wf cache_ok_empty). exact E.
  - vm_compute in E. injection E as <-. reflexivity.
Defined.
Lemma pd_run_keeps_cache_witness :
  match pd_run 4 (fun _ => false) 0 ∅ loop_st with
  | Running _ c' s' => cache_ok c' /\ st_wf s' | _ => False end.
Proof.
  pose proof (pd_run_keeps_cache 4 (fun _ => false) 0 ∅ loop_st loop_st_wf cache_ok_empty) as P.
  destruct (pd_run 4 (fun _ => false) 0 ∅ loop_st) as [c s'|c s'|] eqn:E;
    [vm_compute in E; discriminate|exact P|vm_compute in E; discriminate].
Defined.
Lemma cpu_reset_wf_witness :
  match cpu_reset 0x400000 0 (flat_st []) with Ok _ s' => st_wf s' | Fault _ => False | UB => False end.
Proof.
  pose proof (cpu_reset_wf 0x400000 0 (flat_st []) ltac:(split; lia) ltac:(lia)) as P.
  destruct (cpu_reset 0x400000 0 (flat_st [])) eqn:E;
    [exact P|vm_compute in E; discriminate..].
Defined.
