(* ===== verification/Loop.v ===== *)
(** * Loop: the run loop's exception dispatch (loop.c)

    One turn of [emu_loop]: an engine runs, then the exception it recorded
    (exception.c) is dispatched: to the syscall layer, to the delivery of a
    guest signal, or to the two jobs the loop does itself in the kernel's
    place, the ID registers EL0 may read and the restart of a memory
    copy/set whose stages do not agree. The syscall layer and signal delivery
    are other components: the hand-off to them is a value. *)

From stdpp Require Import gmap.
From S2P Require Import Prelude Types Cpu MemSeam Sysreg Decode PdExec.

Definition SIGILL : Z := 4.
Definition SIGTRAP : Z := 5.
Definition SIGBUS : Z := 7.
Definition SIGSEGV : Z := 11.

(** What the loop hands over: nothing, a syscall, or a fault to deliver
    ([sig_deliver_fault]'s signal, code and address). *)
Inductive Action :=
| A_NONE
| A_SYSCALL
| A_SIGNAL (sig code addr : Z).

(** [id_el0_view]: (CRm, op2, visible, hidden). *)
Definition id_el0_view : list (Z * Z * Z * Z) :=
  [ (4, 0, 0x000f000f00ff0000, 0x0000000000000011);
    (4, 1, 0x0000f0000f000fff, 0);
    (4, 2, 0x0000000f00000ff0, 0);
    (4, 4, 0x0fffff0f0ffff0ff, 0);
    (4, 5, 0xbff1ffff73810001, 0);
    (4, 7, 0x00000000fc008003, 0);
    (5, 0, 0, 0x0000000000000006);
    (6, 0, 0xf0fffffff0fffff0, 0);
    (6, 1, 0xf0fff0ffffffffff, 0);
    (6, 2, 0x0fff000000ffffff, 0);
    (6, 3, 0x00000000f00f00f0, 0);
    (7, 0, 0xf000000000000000, 0x00000111ff000000);
    (7, 1, 0x0000f00000000000, 0);
    (7, 2, 0x0000000f00000000, 0);
    (7, 3, 0x00000000000f0000, 0) ].

Section Loop.
Context {Mem : Type} `{MemSeam Mem} `{Hooks Mem}.
Local Open Scope exec_scope.

(** The search of [emulate_id_mrs] through the table. *)
Fixpoint id_view_read (crm op2 : Z) (l : list (Z * Z * Z * Z)) : M (St Mem) Z :=
  match l with
  | [] => ret 0
  | (c, o, visible, hidden) :: rest =>
      if (c =? crm) && (o =? op2) then
        v <- sysreg_id_read crm op2; ret (Z.lor (Z.land v visible) hidden)
      else id_view_read crm op2 rest
  end.

(** The value of an ID register at EL0; [None] where the MRS stays
    undefined. *)
Definition id_mrs_value (crm op2 : Z) : M (St Mem) (option Z) :=
  if crm =? 0 then
    if op2 =? 0 then v <- sysreg_id_read 0 0; ret (Some v)
    else if op2 =? 5 then ret (Some (Z.shiftl 1 31))
    else if negb (op2 =? 6) then ret None
    else ret (Some 0)
  else v <- id_view_read crm op2 id_el0_view; ret (Some v).

(** [emulate_id_mrs]; a fetch that fails has recorded its own exception. *)
Definition emulate_id_mrs : M (St Mem) bool := fun s =>
  match mem_ifetch (c_pc (s_cpu s)) s with
  | UB => UB
  | Fault s' => Ok false s'
  | Ok insn s' =>
      (if negb (Z.land insn 0xfff00000 =? 0xd5300000) then ret false else
       let op0 := Z.lor 2 (Z.land (Z.shiftr insn 19) 1) in
       let op1 := Z.land (Z.shiftr insn 16) 7 in
       let crn := Z.land (Z.shiftr insn 12) 15 in
       let crm := Z.land (Z.shiftr insn 8) 15 in
       let op2 := Z.land (Z.shiftr insn 5) 7 in
       if negb (op0 =? 3) || negb (op1 =? 0) || negb (crn =? 0) || (crm =? 1) || (7 <? crm)
       then ret false else
       v <- id_mrs_value crm op2;
       match v with
       | None => ret false
       | Some v =>
           set_x (Z.land insn 31) v ;;
           putc (fun c => with_pc (u64 (c_pc c + 4)) c) ;;
           ret true
       end) s'
  end.

(** The EC_MOP case: put the registers back in the prologue's format and the
    PC at the prologue. *)
Definition mops_restart (esr : Z) : M (St Mem) unit :=
  let wrong_option := has (Z.shiftr esr 17) 1 in
  let option_a := has (Z.shiftr esr 16) 1 in
  let dreg := Z.land (Z.shiftr esr 10) 0x1f in
  let sreg := Z.land (Z.shiftr esr 5) 0x1f in
  let nreg := Z.land esr 0x1f in
  dst <- reg_x dreg;
  src <- reg_x sreg;
  size <- reg_x nreg;
  nzcv <- getc c_nzcv;
  let '(dst, src, size) :=
    if has (Z.shiftr esr 24) 1 then
      if xorb option_a wrong_option then (u64 (dst + size), src, u64 (0 - size))
      else (dst, src, size)
    else if negb (xorb option_a wrong_option) then
      if has nzcv PS_N then (u64 (dst - size), u64 (src - size), size) else (dst, src, size)
    else if negb (Z.shiftr size 63 =? 0) then (u64 (dst + size), u64 (src + size), u64 (0 - size))
    else (dst, src, size) in
  set_x dreg dst ;;
  set_x sreg src ;;
  set_x nreg size ;;
  putc (fun c => with_pc (u64 (c_pc c - (if has (Z.shiftr esr 18) 1 then 8 else 4))) c).

(** The two abort cases. *)
Definition abort_signal (fsc far : Z) : Action :=
  if fsc =? FSC_EXTERNAL then A_SIGNAL SIGBUS 2 far
  else A_SIGNAL SIGSEGV (if (FSC_PERM_L0 <=? fsc) && (fsc <=? FSC_PERM_L3) then 2 else 1) far.

(** The dispatch of a recorded exception. [sig] is [g_sig_npend] and [due]
    what [emu_callout_due] answers at an SVC. *)
Definition dispatch (sig due : bool) : M (St Mem) Action :=
  valid <- gets (fun s => pe_valid (s_tls s));
  if negb valid then ret A_NONE else
  modify (upd_tls (with_pe_valid false)) ;;
  esr <- gets (fun s => pe_esr (s_tls s));
  far <- gets (fun s => pe_far (s_tls s));
  pc <- getc c_pc;
  match Z.shiftr esr 26 with
  | 0x15 =>
      if sig && due then putc (fun c => with_pc (u64 (c_pc c - 4)) c) ;; ret A_NONE
      else ret A_SYSCALL
  | 0x24 | 0x25 | 0x20 | 0x21 => ret (abort_signal (Z.land esr 0x3f) far)
  | 0x22 | 0x26 => ret (A_SIGNAL SIGBUS 1 far)
  | 0x3C => ret (A_SIGNAL SIGTRAP 1 pc)
  | 0x27 => mops_restart esr ;; ret A_NONE
  | 0x00 =>
      ok <- emulate_id_mrs;
      if ok : bool then ret A_NONE else pc' <- getc c_pc; ret (A_SIGNAL SIGILL 1 pc')
  | _ => ret (A_SIGNAL SIGILL 1 pc)
  end.

(** The single-step engine (-nopd). *)
Definition engine_nopd : M (St Mem) unit := fun s =>
  match fetch_next s with
  | Ok (Some insn) s' => (call (exec_a64 insn) ;; count_insn) s'
  | Ok None s' | Fault s' => Ok tt s'
  | UB => UB
  end.

(** The threaded engine, the default: [pd_run] on the decode cache. A turn that
    has not left it after [n] instructions is cut off there. *)
Definition engine_pd (n : nat) (sig : nat -> bool) (cache : PDCache) : M (St Mem) unit := fun s =>
  match pd_run n sig 0 cache s with
  | Returned _ _ s' | Running _ _ s' => Ok tt s'
  | Undef _ => UB
  end.

(** One turn of the loop, from the stop test to the dispatch; [None] when the
    loop returns. *)
Definition loop_turn (engine : M (St Mem) unit) (sig due : bool) : M (St Mem) (option Action) :=
  stop <- getc c_stop;
  if stop : bool then ret None else
  engine ;;
  putc (fun c => if c_halted c then with_halted false c else c) ;;
  a <- dispatch sig due;
  ret (Some a).

End Loop.
