(* ===== verification/LoopThms.v ===== *)
(** * LoopThms: what the run loop makes of an exception

    A turn of the loop is safe; a refused access, a misaligned PC, a system
    call, an ID-register read and a copy/set stage mismatch end as a kernel
    would have it. *)

From stdpp Require Import gmap.
From S2P Require Import Prelude Types Cpu CpuWf MemSeam Alu Atomics Mops LdSt Sysreg Decode.
From S2P Require Import Simd SimdExec FpSimd ExecSafe FlatMem AluThms DpThms Precise FpHooks PdExec PdEquivMem PdThms Loop.

Section LoopSafe.
Context {Mem : Type} `{MemSeam Mem} `{HooksOk Mem}.
Local Open Scope exec_scope.
Implicit Types s : St Mem.
Notation Safe m := (safe False (st_wf (Mem:=Mem)) m (fun _ => True)).

Lemma safe_upd_tls f : Safe (modify (upd_tls f)).
Proof. by apply safe_modify. Qed.

Lemma safe_sysreg_id_read crm op2 : safe False (st_wf (Mem:=Mem)) (sysreg_id_read crm op2) (fits 64).
Proof.
  apply safe_switch; [apply safe_mrs_cases|]. apply safe_ret. by apply fits_0.
Qed.
Lemma view_fits : Forall (fun e => fits 64 (snd (fst e)) /\ fits 64 (snd e)) id_el0_view.
Proof. repeat (apply Forall_cons_2; [vm_compute; intuition discriminate|]). apply Forall_nil_2. Qed.
Lemma safe_id_view_read crm op2 l : Forall (fun e => fits 64 (snd (fst e)) /\ fits 64 (snd e)) l ->
  safe False (st_wf (Mem:=Mem)) (id_view_read crm op2 l) (fits 64).
Proof.
  induction l as [|[[[c o] vis] hid] l IH]; intros Hl; cbn [id_view_read].
  { apply safe_ret. by apply fits_0. }
  apply Forall_cons_1 in Hl as [[Hv Hh] Hl]. destruct (_ && _); [|by apply IH].
  eapply safe_bind; [apply safe_sysreg_id_read|]. intros v Hf. apply safe_ret. auto with word.
Qed.
Lemma safe_id_mrs_value crm op2 : safe False (st_wf (Mem:=Mem)) (id_mrs_value crm op2)
  (fun o => match o with Some v => fits 64 v | None => True end).
Proof.
  assert (H0' : fits 64 0) by (by apply fits_0).
  unfold id_mrs_value. destruct (crm =? 0).
  - destruct (op2 =? 0); [eapply safe_bind; [apply safe_sysreg_id_read|]; intros v Hv; by apply safe_ret|].
    destruct (op2 =? 5); [by apply safe_ret|]. destruct (negb _); by apply safe_ret.
  - eapply safe_bind; [apply safe_id_view_read, view_fits|]. intros v Hv. by apply safe_ret.
Qed.
Lemma land31_range v : 0 <= Z.land v 31 < 32.
Proof. change 31 with (Z.ones 5). rewrite Z.land_ones by lia. apply Z.mod_pos_bound. lia. Qed.
Lemma safe_emulate_id_mrs : Safe emulate_id_mrs.
Proof.
  intros s Hs. unfold emulate_id_mrs. pose proof (safe_mem_ifetch False (c_pc (s_cpu s)) s Hs) as Hf.
  destruct (mem_ifetch (c_pc (s_cpu s)) s) as [insn s1|s1|]; [destruct Hf as [_ Hf]|done|done].
  revert s1 Hf. change (Safe (if negb (Z.land insn 0xfff00000 =? 0xd5300000) then ret false else
    let op0 := Z.lor 2 (Z.land (Z.shiftr insn 19) 1) in
    let op1 := Z.land (Z.shiftr insn 16) 7 in let crn := Z.land (Z.shiftr insn 12) 15 in
    let crm := Z.land (Z.shiftr insn 8) 15 in let op2 := Z.land (Z.shiftr insn 5) 7 in
    if negb (op0 =? 3) || negb (op1 =? 0) || negb (crn =? 0) || (crm =? 1) || (7 <? crm)
    then ret false else
    v <- id_mrs_value crm op2;
    match v with
    | None => ret false
    | Some v => set_x (Z.land insn 31) v ;; putc (fun c => with_pc (u64 (c_pc c + 4)) c) ;; ret true
    end)).
  safe_cases; try by apply safe_ret. eapply safe_bind; [apply safe_id_mrs_value|].
  intros [v|] Hv; cbv beta; [|by apply safe_ret].
  eapply safe_bind; [apply safe_set_x; [apply land31_range|done]|intros [] _]. repeat safe_step.
Qed.
Lemma safe_mops_restart esr : Safe (mops_restart esr).
Proof.
  assert (Hr : forall v, 0 <= Z.land v 0x1f < 32) by apply land31_range.
  unfold mops_restart. cbv zeta. do 3 (eapply safe_bind; [apply safe_reg_x, Hr|intros ? ?]).
  eapply safe_bind; [safe_leaf|intros nzcv _].
  lazymatch goal with |- safe _ _ (match ?e with _ => _ end) _ => set (t := e) end.
  assert (Ht : fits 64 (fst (fst t)) /\ fits 64 (snd (fst t)) /\ fits 64 (snd t)).
  { unfold t. repeat case_match; cbn [fst snd]; auto with word. }
  destruct t as [[d f] n]. cbn [fst snd] in Ht. destruct Ht as (? & ? & ?).
  do 3 (eapply safe_bind; [by apply safe_set_x|intros [] _]). repeat safe_step.
Qed.
Lemma safe_dispatch sig due : Safe (dispatch sig due).
Proof.
  unfold dispatch. eapply safe_bind; [by apply (safe_gets _ _ _ (fun _ => True))|intros valid _].
  destruct (negb valid); [by apply safe_ret|].
  eapply safe_bind; [apply safe_upd_tls|intros [] _].
  do 2 (eapply safe_bind; [by apply (safe_gets _ _ _ (fun _ => True))|intros ? _]).
  eapply safe_bind; [safe_leaf|intros pc _]. rename a into esr.
  assert (Hmop : Safe (mops_restart esr ;; ret A_NONE)).
  { eapply safe_bind; [apply safe_mops_restart|intros; by apply safe_ret]. }
  assert (Hid : Safe (ok <- emulate_id_mrs;
      if ok : bool then ret A_NONE else pc' <- getc c_pc; ret (A_SIGNAL SIGILL 1 pc'))).
  { eapply safe_bind; [apply safe_emulate_id_mrs|intros ok _]. destruct ok; repeat safe_step. }
  assert (Hsvc : Safe (if sig && due then putc (fun c => with_pc (u64 (c_pc c - 4)) c) ;; ret A_NONE
      else ret A_SYSCALL)) by (repeat safe_step).
  assert (Hret : forall a, Safe (ret a : M (St Mem) Action)) by (intros; by apply safe_ret).
  destruct (Z.shiftr esr 26) as [|p|p]; [exact Hid| |apply Hret].
  do 6 (try destruct p as [p|p|]); try apply Hret; assumption.
Qed.

Lemma safe_fetch_next_def s : st_wf s ->
  match fetch_next s with Ok _ s' => True /\ st_wf s' | Fault s' => st_wf s' | UB => False end.
Proof.
  intros Hs. unfold fetch_next. cbv zeta.
  set (s1 := upd_cpu _ s). assert (Hs1 : st_wf s1) by (apply wf_with_cur; [apply Hs|done]).
  pose proof (safe_mem_ifetch False (c_pc (s_cpu s1)) s1 Hs1) as Hf.
  destruct (mem_ifetch (c_pc (s_cpu s1)) s1) as [insn s2|s2|]; [|done..].
  split; [done|]. apply wf_with_pc; [apply fits_u64|apply Hf].
Qed.

End LoopSafe.

(** ** A turn, by either interpreter *)
Section Turn.
Context {Mem : Type} `{MemSeamOk Mem} (U : FpUnit Mem) `{!FenvOk Mem} (clock : Mem -> Z * Z).
Local Open Scope exec_scope.
Implicit Types s : St Mem.
#[local] Instance turn_hooks : Hooks Mem := core_hooks clock.

(** What no turn may end in, and what every one must leave. *)
Definition turn_ok {A} (r : outcome (St Mem) A) : Prop :=
  match r with Ok _ s' => st_wf s' | Fault s' => st_wf s' | UB => False end.
(** The words the next [n] instructions are: neither a wild CASP nor one that
    computes with the host's floating point. *)
Fixpoint clean_run (n : nat) (sig : nat -> bool) (i : nat) s : Prop :=
  match n with
  | O => True
  | S k =>
      match fetch_next s with
      | Ok (Some insn) s1 =>
          ~ wild_insn insn /\ float_insn insn = false /\
          match (call (exec_a64 insn) ;; count_insn) s1 with
          | Ok _ s2 | Fault s2 => if must_leave (sig i) s2 then True else clean_run k sig (S i) s2
          | UB => True
          end
      | _ => True
      end
  end.

Lemma step_ok insn s : st_wf s -> ~ wild_insn insn -> float_insn insn = false ->
  match (call (exec_a64 insn) ;; count_insn) s with Ok _ s' => st_wf s' | Fault s' => st_wf s' | UB => False end.
Proof.
  intros Hs Hw Hf. unfold bind, call, count_insn. pose proof (safe_exec_core U clock insn Hw Hf s Hs) as Hx. unfold turn_hooks.
  destruct (exec_a64 insn s) as [[] s2|s2|]; [destruct Hx|..]; try done; simpl; by apply wf_with_icount.
Qed.
Lemma engine_pd_ok n sig i cache s : st_wf s -> cache_ok cache -> clean_run n sig i s ->
  match pd_run n sig i cache s with
  | Returned _ _ s' | Running _ _ s' => st_wf s'
  | Undef _ => False
  end.
Proof.
  revert i cache s. induction n as [|n IH]; intros i cache s Hs Hc Hr; [done|]. cbn [pd_run clean_run] in *.
  pose proof (safe_fetch_next_def s Hs) as Hf. destruct (fetch_next s) as [[insn|] s1|s1|]; try done; [|naive_solver..].
  destruct Hf as [_ H1s]. destruct Hr as (Hw & Hfl & Hr).
  destruct (pd_lookup_ok cache (c_cur_insn_pc (s_cpu s1)) insn Hc) as [Hc' He].
  destruct (pd_lookup cache _ insn) as [cache' e]. simpl in Hc', He. subst e.
  rewrite (bind_head (call (pd_tab insn (Predecode.pd_fill insn))) (call (exec_a64 insn)))
    by (unfold call; by rewrite pd_fill_exec).
  pose proof (step_ok insn s1 H1s Hw Hfl) as Hx.
  destruct (bind (call (exec_a64 insn)) _ s1) as [[] s2|s2|]; try done;
    destruct (must_leave (sig i) s2); try done; by apply IH.
Qed.
Lemma engine_nopd_ok s : st_wf s -> match fetch_next s with Ok (Some insn) _ => ~ wild_insn insn /\ float_insn insn = false | _ => True end ->
  turn_ok (engine_nopd s).
Proof.
  intros Hs. unfold engine_nopd. pose proof (safe_fetch_next_def s Hs) as Hf.
  destruct (fetch_next s) as [[insn|] s1|s1|]; [|naive_solver..]. intros [Hw Hfl]. by apply step_ok; [apply Hf|..].
Qed.
(** The dispatch uses the clock and the flags of the hooks only. *)
Lemma dispatch_hooks gt sync (x y : Z -> M (St Mem) unit) sig due :
  @dispatch Mem _ {| gt_count := gt; fpsr_sync := sync; exec_fpsimd := x |} sig due =
  @dispatch Mem _ {| gt_count := gt; fpsr_sync := sync; exec_fpsimd := y |} sig due.
Proof. reflexivity. Qed.
Lemma turn_from engine sig due s : st_wf s -> turn_ok (engine s) -> turn_ok (loop_turn engine sig due s).
Proof.
  intros Hs He. unfold loop_turn, bind at 1, getc, gets. destruct (c_stop (s_cpu s)); [exact Hs|].
  unfold bind at 1. destruct (engine s) as [[] s1|s1|]; [|done..]. simpl in He.
  pose proof (@safe_dispatch Mem _ _ (off_hooks_ok U clock) sig due) as Hd.
  unfold core_hooks, fpu_hooks in Hd. rewrite (dispatch_hooks _ _ _ (@fpsimd Mem U)) in Hd.
  set (s2 := upd_cpu (fun c => if c_halted c then with_halted false c else c) s1).
  assert (Hs2 : st_wf s2) by (unfold s2, st_wf; cbn [s_cpu upd_cpu]; destruct (c_halted (s_cpu s1)); [by apply wf_with_halted|done]).
  specialize (Hd s2 Hs2). unfold bind, putc, modify. fold s2. unfold turn_hooks, core_hooks, fpu_hooks.
  destruct (dispatch sig due s2) as [a s3|s3|]; [by destruct Hd|done..].
Qed.

End Turn.

(** ** Faults become signals *)
Section Faults.
Context {Mem : Type} `{MemSeam Mem} `{Hooks Mem}.
Local Open Scope exec_scope.
Implicit Types s : St Mem.

(** A data access the address space refuses ends as the signal a kernel
    sends for it: SIGSEGV/SEGV_ACCERR when the page is there but forbids it,
    SIGBUS/BUS_ADRERR past the end of a mapped file, SIGSEGV/SEGV_MAPERR
    otherwise; with the accessed address (tag included), the PC at the
    faulting instruction and no register changed. *)
Theorem data_fault_signal sig due (write : bool) va size v s perm m1 : crosses va size = false ->
  translate (t_nogrow (s_tls s)) va (if write then PTE_W else PTE_R) (s_mem s) = ((None, perm), m1) ->
  exists s1 s2,
    (if write then mem_write va size v else mem_read va size ;; ret tt) s = Fault s1 /\
    dispatch sig due s1 =
      Ok (if perm then A_SIGNAL SIGSEGV 2 va
          else if va_is_file_hole va m1 then A_SIGNAL SIGBUS 2 va else A_SIGNAL SIGSEGV 1 va) s2 /\
    pe_valid (s_tls s2) = false /\ c_pc (s_cpu s2) = c_cur_insn_pc (s_cpu s) /\
    c_x (s_cpu s2) = c_x (s_cpu s) /\ s_mem s2 = m1.
Proof.
  intros Hc Ht. unfold mem_write, mem_read, mem_write_page, mem_read_page, translateM, bind.
  rewrite Hc. destruct write; rewrite Ht; unfold raise_dabort; destruct perm; cbn [s_mem upd_mem];
    try destruct (va_is_file_hole va m1); eexists _, _; split_and!; try reflexivity.
Qed.

(** A misaligned PC is a PC-alignment fault (SIGBUS/BUS_ADRALN at that
    address) even when the fetch cache holds the page it points into. *)
Theorem misaligned_pc_sigbus sig due s :
  c_stop (s_cpu s) = false -> Z.land (c_pc (s_cpu s)) 3 <> 0 ->
  match fcache (s_mem s) with Some (page, _) => Z.land page 0xfff = 0 | None => True end ->
  exists s', loop_turn engine_nopd sig due s = Ok (Some (A_SIGNAL SIGBUS 1 (c_pc (s_cpu s)))) s' /\
    c_pc (s_cpu s') = c_pc (s_cpu s) /\ c_x (s_cpu s') = c_x (s_cpu s).
Proof.
  intros Hst Hm Hfc. set (pc := c_pc (s_cpu s)) in *.
  assert (Hslow : forall s1, s_mem s1 = s_mem s -> mem_ifetch pc s1 = mem_ifetch_slow pc s1).
  { intros s1 E. unfold mem_ifetch. rewrite E. destruct (fcache (s_mem s)) as [[page host]|]; [|done].
    destruct (Z.eqb_spec (IFETCH_KEY pc) page) as [Ek|]; [|done]. exfalso. apply Hm.
    rewrite <- Ek in Hfc. unfold IFETCH_KEY in Hfc. rewrite <- Z.land_assoc in Hfc.
    change (Z.land (not64 0xffc) 0xfff) with 3 in Hfc. exact Hfc. }
  unfold loop_turn, bind at 1, getc, gets. rewrite Hst. unfold bind at 1, engine_nopd, fetch_next. cbv zeta.
  cbn [upd_cpu s_cpu c_pc with_cur_insn_pc]. fold pc. rewrite Hslow by done.
  unfold mem_ifetch_slow. rewrite (proj2 (Z.eqb_neq _ _) Hm). cbn [negb].
  unfold fault, cpu_raise_sync, exception_take. cbn [upd_cpu upd_tls s_cpu s_tls].
  unfold bind at 1, putc, modify. cbn [upd_cpu upd_tls s_cpu s_tls c_halted with_excl_valid with_pc with_cur_insn_pc].
  destruct (c_halted (s_cpu s)) eqn:Eh; eexists; (split; [reflexivity|]); cbn; by rewrite Eh.
Qed.

(** An unaligned LSE atomic is reported as SIGSEGV/SEGV_MAPERR, not as the
    bus error its comment announces. *)
Theorem atomic_align_is_segv sig due va write s :
  exists s1 s2, (atomic_align_fault va write : M (St Mem) unit) s = Fault s1 /\
    dispatch sig due s1 = Ok (A_SIGNAL SIGSEGV 1 va) s2.
Proof. destruct write; eexists _, _; split; reflexivity. Qed.
End Faults.

(** ** Syndromes *)
Lemma esr_make_ec ec iss : 0 <= ec < 64 -> Z.shiftr (esr_make ec iss) 26 = ec.
Proof.
  intros He. unfold esr_make. rewrite !Z.shiftr_lor, (Z.shiftr_land iss).
  change (Z.shiftr 0x1ffffff 26) with 0. change (Z.shiftr (Z.shiftl 1 25) 26) with 0.
  rewrite Z.land_0_r, !Z.lor_0_r. change 0x3f with (Z.ones 6). rewrite Z.land_ones, Z.mod_small by lia.
  rewrite Z.shiftl_mul_pow2, Z.shiftr_div_pow2 by lia. rewrite u64_small by (unfold fits; lia).
  by rewrite Z.div_mul.
Qed.
Lemma esr_make_bit ec iss i : 0 <= i < 25 -> Z.testbit (esr_make ec iss) i = Z.testbit iss i.
Proof.
  intros Hi. unfold esr_make. rewrite !Z.lor_spec, Z.land_spec.
  change 0x1ffffff with (Z.ones 25). rewrite Z.ones_spec_low, andb_true_r by lia.
  unfold u64. rewrite Z.mod_pow2_bits_low, !Z.shiftl_spec, !(Z.testbit_neg_r _ (i - _)) by lia. done.
Qed.

(** ** System calls *)
Section Svc.
Context {Mem : Type} `{MemSeam Mem} `{HooksOk Mem}.
Local Open Scope exec_scope.
Implicit Types s : St Mem.

Lemma svc_exec insn s : BITS insn 31 24 = 0xd4 -> BITS insn 23 21 = 0 -> BITS insn 1 0 = 1 ->
  exec_a64 insn s = Fault (exception_take (esr_make EC_SVC64 (BITS insn 20 5)) 0 (c_pc (s_cpu s)) s).
Proof.
  intros E1 E2 E3.
  assert (E4 : Z.land (Z.shiftr insn 25) 0xf = 0xa /\ BITS insn 31 26 = 0x35 /\ BITS insn 30 25 = 0x2a).
  { revert E1. unfold BITS. change 0xf with (Z.ones 4). rewrite !Z.land_ones, !Z.shiftr_div_pow2 by lia.
    intros E1. split_and!; wsolve. }
  destruct E4 as (E4 & E5 & E6). unfold exec_a64. rewrite E4. unfold branch_system. cbv zeta.
  rewrite E1, E5, E6. cbn [Z.eqb Pos.eqb andb]. unfold exception_gen. cbv zeta.
  rewrite E2, E3. cbn [Z.eqb Pos.eqb andb]. reflexivity.
Qed.

Lemma mem_ifetch_cpu va s insn s1 : mem_ifetch va s = Ok insn s1 -> s_cpu s1 = s_cpu s /\ s_tls s1 = s_tls s.
Proof.
  unfold mem_ifetch, mem_ifetch_slow, translateM, bind, fault, modify, gets.
  destruct (fcache (s_mem s)) as [[page host]|]; [destruct (_ =? page); [by intros [= _ <-]|]|];
    (destruct (negb _); [done|]); destruct (translate _ _ _ _) as [[[p|] perm] m1]; try done;
    by intros [= _ <-].
Qed.
Lemma fetch_next_cpu s insn s1 : fetch_next s = Ok (Some insn) s1 ->
  s_cpu s1 = with_pc (u64 (c_pc (s_cpu s) + 4)) (with_cur_insn_pc (c_pc (s_cpu s)) (s_cpu s)) /\
  s_tls s1 = s_tls s.
Proof.
  unfold fetch_next. cbv zeta. destruct (mem_ifetch _ _) as [i s2|s2|] eqn:E; try done.
  intros [= _ <-]. apply mem_ifetch_cpu in E as [E1 E2]. cbn [upd_cpu s_cpu s_tls] in *. by rewrite E1.
Qed.

(** A system call is handed over with the PC after the SVC; unless a
    deliverable signal (or a call-out) arrived first, in which case the PC is
    back at the SVC, nothing is dispatched and the call runs after the
    handler. No register changes either way. *)
Theorem svc_turn sig due insn s s1 : st_wf s -> c_stop (s_cpu s) = false ->
  fetch_next s = Ok (Some insn) s1 ->
  BITS insn 31 24 = 0xd4 -> BITS insn 23 21 = 0 -> BITS insn 1 0 = 1 ->
  exists s', loop_turn engine_nopd sig due s =
      Ok (Some (if sig && due then A_NONE else A_SYSCALL)) s' /\
    c_pc (s_cpu s') = (if sig && due then c_pc (s_cpu s) else u64 (c_pc (s_cpu s) + 4)) /\
    c_x (s_cpu s') = c_x (s_cpu s) /\ pe_valid (s_tls s') = false.
Proof.
  intros Hs Hst Hf E1 E2 E3. unfold loop_turn, bind at 1, getc, gets. rewrite Hst.
  unfold bind at 1, engine_nopd. rewrite Hf. unfold bind at 1, call. rewrite (svc_exec _ _ E1 E2 E3).
  apply fetch_next_cpu in Hf as [Ec Et].
  unfold count_insn, bind at 1, putc, modify. unfold dispatch, bind, gets, modify, putc.
  set (esr := esr_make EC_SVC64 (BITS insn 20 5)).
  assert (Eec : Z.shiftr esr 26 = 0x15) by (by apply esr_make_ec).
  assert (Epc : u64 (u64 (c_pc (s_cpu s) + 4) - 4) = c_pc (s_cpu s)).
  { pose proof (wf_pc _ Hs) as Hp. revert Hp. clear. wsolve. }
  destruct (c_halted (s_cpu s1)) eqn:Eh;
    cbn [exception_take upd_cpu upd_tls s_cpu s_tls c_halted with_icount with_excl_valid with_pc pe_valid
         with_pe_far with_pe_esr with_pe_valid pe_esr pe_far negb]; rewrite Eec;
    destruct (sig && due); eexists; (split; [reflexivity|]); cbn; rewrite ?Eh; cbn; by rewrite Ec.
Qed.
End Svc.

(** ** Memory copy and set: restarting at the prologue *)
Lemma mops_iss_bits insn w : let set := BITS insn 23 22 =? 3 in let iss := mops_iss insn w in
  Z.testbit iss 24 = set /\
  Z.testbit iss 18 = (if set then BITS insn 15 14 =? 2 else BITS insn 23 22 =? 2) /\
  Z.testbit iss 17 = w /\ Z.testbit iss 16 = true /\
  forall i, 0 <= i < 5 -> Z.testbit iss (i + 10) = Z.testbit (BITS insn 4 0) i /\
    Z.testbit iss (i + 5) = Z.testbit (BITS insn 20 16) i /\
    Z.testbit iss i = Z.testbit (BITS insn 9 5) i.
Proof.
  cbv zeta. unfold mops_iss. cbv zeta. set (set := BITS insn 23 22 =? 3).
  set (ep := if set then _ else _ =? 2). set (opt := if set then BITS insn 13 12 else _).
  assert (Ho : fits 4 opt).
  { unfold opt. destruct set; [eapply fits_weaken; [apply fits_BITS; lia|lia]|by apply fits_BITS]. }
  assert (Hd : fits 5 (BITS insn 4 0)) by (by apply fits_BITS).
  assert (Hs : fits 5 (BITS insn 20 16)) by (by apply fits_BITS).
  assert (Hn : fits 5 (BITS insn 9 5)) by (by apply fits_BITS).
  generalize dependent (BITS insn 4 0). generalize dependent (BITS insn 20 16).
  generalize dependent (BITS insn 9 5). intros n Hn s Hs d Hd. clearbody ep set opt.
  assert (Hb : forall b j, 0 < j -> Z.testbit (b2z b) j = false) by (intros [] j Hj; [by rewrite Z.bits_above_log2|apply Z.bits_0]).
  assert (Hb0 : forall b, Z.testbit (b2z b) 0 = b) by (by intros []).
  assert (H1 : forall j, 0 < j -> Z.testbit 1 j = false) by (intros; by rewrite Z.bits_above_log2).
  split_and!; [| | | |intros i Hi; split_and!];
    rewrite !Z.lor_spec, !Z.shiftl_spec by lia;
    repeat match goal with
    | |- context [Z.testbit (b2z ?b) ?j] =>
        first [rewrite (Z.testbit_neg_r (b2z b) j) by lia | rewrite (Hb b j) by lia
              | replace j with 0 by lia; rewrite Hb0]
    end;
    rewrite ?(Z.testbit_neg_r _ (_ - _)), ?H1, ?(fits_testbit 4 opt), ?(fits_testbit 5 d), ?(fits_testbit 5 s),
      ?(fits_testbit 5 n) by (done || lia); cbn [orb]; rewrite ?orb_false_r, ?Z.add_simpl_r; try done.
Qed.

Lemma field5 e k f : 0 <= k -> 0 <= f < 32 -> (forall i, 0 <= i < 5 -> Z.testbit e (i + k) = Z.testbit f i) ->
  Z.land (Z.shiftr e k) 0x1f = f.
Proof.
  intros Hk Hf Hb. apply Z.bits_inj'. intros i Hi. rewrite Z.land_spec, Z.shiftr_spec by lia.
  change 0x1f with (Z.ones 5). destruct (Z.lt_ge_cases i 5).
  - rewrite Z.ones_spec_low, andb_true_r by lia. by apply Hb.
  - rewrite Z.ones_spec_high, andb_false_r by lia. symmetry. apply (fits_testbit 5); [unfold fits; lia|lia].
Qed.

Section MopsRestart.
Context {Mem : Type} `{MemSeam Mem} `{Hooks Mem}.
Local Open Scope exec_scope.
Implicit Types s : St Mem.

Lemma set_x_run s n v : st_wf s -> 0 <= n < 32 -> fits 64 v -> exists s', set_x n v s = Ok tt s' /\
  st_wf s' /\ c_pc (s_cpu s') = c_pc (s_cpu s) /\
  forall k, 0 <= k < 32 -> xval s' k = if (k =? n) && negb (k =? 31) then v else xval s k.
Proof.
  intros Hs Hn Hv. destruct (set_x_ok s n v Hs Hn) as (s' & E & _ & _ & Hx). exists s'.
  pose proof (safe_set_x False n v Hn Hv s Hs) as Hw. rewrite E in Hw.
  split_and!; [done|apply Hw| |done]. revert E. unfold set_x. destruct (n =? 31); [by intros [= <-]|].
  destruct (_ <? _)%nat; [|done]. by intros [= <-].
Qed.

(** What the restart leaves in (dst, src, size), from what the stage had. *)
Definition restart_regs (set wrong negative_flag : bool) (d f n : Z) : Z * Z * Z :=
  if wrong then if negb set && negative_flag then (u64 (d - n), u64 (f - n), n) else (d, f, n)
  else if set then (u64 (d + n), f, u64 (0 - n))
  else if negb (Z.shiftr n 63 =? 0) then (u64 (d + n), u64 (f + n), u64 (0 - n)) else (d, f, n).

Lemma mops_restart_run insn w s : st_wf s ->
  let Rd := BITS insn 4 0 in let Rs := BITS insn 20 16 in let Rn := BITS insn 9 5 in
  let set := BITS insn 23 22 =? 3 in
  let stage := if set then BITS insn 15 14 else BITS insn 23 22 in
  stage = 1 \/ stage = 2 -> Rs <> Rn -> Rs <> Rd -> Rn <> Rd -> Rd <> 31 -> Rn <> 31 ->
  set = true \/ Rs <> 31 ->
  exists s', mops_restart (esr_make EC_MOP (mops_iss insn w)) s = Ok tt s' /\
    c_pc (s_cpu s') = u64 (c_pc (s_cpu s) - 4 * stage) /\
    (xval s' Rd, xval s' Rs, xval s' Rn) =
      restart_regs set w (has (c_nzcv (s_cpu s)) PS_N) (xval s Rd) (xval s Rs) (xval s Rn) /\
    forall k, 0 <= k < 32 -> k <> Rd -> k <> Rs -> k <> Rn -> xval s' k = xval s k.
Proof.
  intros Hs Rd Rs Rn set stage Hst Hsn Hsd Hnd Hd31 Hn31 Hs31.
  destruct (mops_iss_bits insn w) as (B24 & B18 & B17 & B16 & Bf). cbv zeta in *. fold set in B24, B18.
  set (e := esr_make EC_MOP (mops_iss insn w)).
  assert (Hbit : forall i, 0 <= i < 25 -> has (Z.shiftr e i) 1 = Z.testbit (mops_iss insn w) i).
  { intros i Hi. rewrite has1_testbit by lia. by apply esr_make_bit. }
  assert (Hrd : 0 <= Rd < 32) by (apply BITS_range; [lia|reflexivity]).
  assert (Hrs : 0 <= Rs < 32) by (apply BITS_range; [lia|reflexivity]).
  assert (Hrn : 0 <= Rn < 32) by (apply BITS_range; [lia|reflexivity]).
  assert (Ed : Z.land (Z.shiftr e 10) 0x1f = Rd).
  { apply field5; [lia|done|]. intros i Hi. unfold e. rewrite esr_make_bit by lia. by apply Bf. }
  assert (Es : Z.land (Z.shiftr e 5) 0x1f = Rs).
  { apply field5; [lia|done|]. intros i Hi. unfold e. rewrite esr_make_bit by lia. by apply Bf. }
  assert (En : Z.land e 0x1f = Rn).
  { rewrite <- (Z.shiftr_0_r e). apply field5; [lia|done|]. intros i Hi. rewrite Z.add_0_r.
    unfold e. rewrite esr_make_bit by lia. by apply Bf. }
  unfold mops_restart. cbv zeta. rewrite !Hbit, Ed, Es, En, B24, B18, B17, B16 by lia.
  rewrite xorb_true_l. unfold bind at 1. rewrite reg_x_ok by done. unfold bind at 1. rewrite reg_x_ok by done.
  unfold bind at 1. rewrite reg_x_ok by done. unfold bind at 1, getc, gets.
  pose proof (fits_xval s Rd Hs Hrd) as Fd. pose proof (fits_xval s Rs Hs Hrs) as Fs.
  pose proof (fits_xval s Rn Hs Hrn) as Fn. set (d := xval s Rd) in *. set (f := xval s Rs) in *.
  set (n := xval s Rn) in *. set (neg := has (c_nzcv (s_cpu s)) PS_N).
  match goal with |- context [match ?t with (_, _) => _ end s] => set (r := t) end.
  assert (Er : r = restart_regs set w neg d f n).
  { unfold r, restart_regs. destruct set, w, neg; reflexivity. }
  assert (Hr : fits 64 (fst (fst r)) /\ fits 64 (snd (fst r)) /\ fits 64 (snd r)).
  { rewrite Er. unfold restart_regs. repeat case_match; cbn [fst snd]; auto with word. }
  assert (Hf31 : Rs = 31 -> snd (fst r) = f).
  { intros E31. destruct Hs31 as [Eset|]; [|done]. rewrite Er, Eset. unfold restart_regs. by destruct w. }
  rewrite <- Er. clearbody r. clear Er. destruct r as [[d' f'] n']. cbn [fst snd] in *. destruct Hr as (Gd & Gf & Gn).
  destruct (set_x_run s Rd d' Hs Hrd Gd) as (s1 & E1 & W1 & P1 & X1).
  destruct (set_x_run s1 Rs f' W1 Hrs Gf) as (s2 & E2 & W2 & P2 & X2).
  destruct (set_x_run s2 Rn n' W2 Hrn Gn) as (s3 & E3 & W3 & P3 & X3).
  unfold bind. rewrite E1, E2, E3. unfold putc, modify. eexists. split; [reflexivity|].
  change (xval (upd_cpu _ s3)) with (xval s3). split_and!.
  - cbn [upd_cpu s_cpu with_pc c_pc]. rewrite P3, P2, P1. f_equal. unfold stage in *.
    destruct set, Hst as [E|E]; rewrite E; reflexivity.
  - rewrite !X3, !X2, !X1 by done. rewrite !Z.eqb_refl.
    rewrite (proj2 (Z.eqb_neq Rd Rn)), (proj2 (Z.eqb_neq Rd Rs)), (proj2 (Z.eqb_neq Rs Rn)),
      (proj2 (Z.eqb_neq Rd 31)), (proj2 (Z.eqb_neq Rn 31)), (proj2 (Z.eqb_neq Rs Rd)) by congruence.
    cbn [andb negb]. f_equal. f_equal. destruct (Z.eqb_spec Rs 31) as [E31|]; [|done].
    rewrite Hf31 by done. done.
  - intros k Hk K1 K2 K3. rewrite X3, X2, X1 by done.
    by rewrite (proj2 (Z.eqb_neq k Rn)), (proj2 (Z.eqb_neq k Rs)), (proj2 (Z.eqb_neq k Rd)) by done.
Qed.

Lemma exec_mops insn s : mops_insn insn = true -> exec_a64 insn s = mops insn s.
Proof.
  unfold mops_insn. rewrite !andb_true_iff. intros [[[E1 E2] E3] E4]. pose proof E2 as E2'. revert E2'.
  rewrite Z.eqb_eq in E1, E2. intros E2'.
  assert (Hc : Z.land (Z.shiftr insn 25) 0xf = 0xc \/ Z.land (Z.shiftr insn 25) 0xf = 0xe).
  { revert E1 E2. unfold BITS. change 0xf with (Z.ones 4). rewrite !Z.land_ones, !Z.shiftr_div_pow2 by lia.
    intros. wsolve. }
  assert (Hl : loads_stores insn s = mops insn s).
  { unfold loads_stores. cbv zeta. rewrite E1, E2, E3, E4. cbn [Z.eqb Pos.eqb andb].
    rewrite !(Z.eqb_sym _ 0). rewrite Z.eqb_eq in E4. rewrite E4. cbn [Z.eqb]. by rewrite !andb_false_r. }
  unfold exec_a64. by destruct Hc as [-> | ->].
Qed.

(** A SET or CPY main or epilogue instruction ([stage] 1 or 2) the decoder
    accepts: operand registers distinct, none of them XZR but SET's value. *)
Definition mops_stage (insn : Z) : Z := if BITS insn 23 22 =? 3 then BITS insn 15 14 else BITS insn 23 22.
Definition mops_accepted (insn : Z) : Prop :=
  let Rd := BITS insn 4 0 in let Rs := BITS insn 20 16 in let Rn := BITS insn 9 5 in
  let set := BITS insn 23 22 =? 3 in
  mops_insn insn = true /\ BITS insn 31 30 = 0 /\ (mops_stage insn = 1 \/ mops_stage insn = 2) /\
  (Rs <> Rn /\ Rs <> Rd /\ Rn <> Rd /\ Rd <> 31 /\ Rn <> 31) /\
  (if set then BITb insn 26 = false else Rs <> 31).
(** What a stage still has to do, in bytes. *)
Definition mops_remaining (insn xn : Z) : Z :=
  if (BITS insn 23 22 =? 3) || negb (BITb insn 26) || (s64 xn <? 0) then u64 (0 - xn) else xn.

Lemma mops_trap insn s : st_wf s -> mops_accepted insn -> mops_enabled_ok s = Ok tt s ->
  let xn := xval s (BITS insn 9 5) in let C := has (c_nzcv (s_cpu s)) PS_C in
  xn <> 0 -> C = true \/ mops_stage insn = 2 /\ 0x1000 <= mops_remaining insn xn ->
  exec_a64 insn s = Fault (cpu_raise_sync (esr_make EC_MOP (mops_iss insn C)) 0 s).
Proof.
  intros Hs (Hm & Hsz & Hst & (Hsn & Hsd & Hnd & Hd & Hn) & Hk) Hen xn C Hxn Htrap.
  rewrite exec_mops by done. unfold mops. cbv zeta. rewrite Hsz. cbn [Z.eqb negb].
  assert (Hrd : 0 <= BITS insn 4 0 < 32) by (apply BITS_range; [lia|reflexivity]).
  assert (Hrs : 0 <= BITS insn 20 16 < 32) by (apply BITS_range; [lia|reflexivity]).
  assert (Hrn : 0 <= BITS insn 9 5 < 32) by (apply BITS_range; [lia|reflexivity]).
  unfold mops_stage, mops_remaining in *. cbv zeta in *.
  rewrite (proj2 (Z.eqb_neq _ _) Hsn), (proj2 (Z.eqb_neq _ _) Hsd), (proj2 (Z.eqb_neq _ _) Hnd),
    (proj2 (Z.eqb_neq _ _) Hd), (proj2 (Z.eqb_neq _ _) Hn).
  destruct (Z.eqb_spec (BITS insn 23 22) 3) as [E3|E3].
  - rewrite Hk, (proj2 (Z.eqb_neq (BITS insn 15 14) 3)) by lia. cbn [orb]. unfold bind at 1. rewrite Hen.
    unfold mops_set. cbv zeta. unfold bind at 1. rewrite reg_x_ok by done.
    rewrite (proj2 (Z.eqb_neq (BITS insn 15 14) 0)) by lia. unfold bind at 1. rewrite reg_x_ok by done.
    fold xn. rewrite (proj2 (Z.eqb_neq _ _) Hxn). unfold bind at 1, getc, gets. fold C.
    destruct C; [reflexivity|]. destruct Htrap as [|[E2 Hrem]]; [done|]. cbn [orb] in Hrem.
    unfold bind at 1. rewrite reg_x_ok by done. rewrite E2, (proj2 (Z.leb_le _ _) Hrem). reflexivity.
  - rewrite (proj2 (Z.eqb_neq _ _) Hk). cbn [orb]. unfold bind at 1. rewrite Hen. unfold mops_cpy. cbv zeta.
    rewrite (proj2 (Z.eqb_neq (BITS insn 23 22) 0)) by lia. unfold bind at 1. rewrite reg_x_ok by done.
    fold xn. rewrite (proj2 (Z.eqb_neq _ _) Hxn). unfold bind at 1, getc, gets. fold C.
    destruct C; [reflexivity|]. destruct Htrap as [|[E2 Hrem]]; [done|]. cbn [orb] in Hrem.
    unfold bind at 1. rewrite reg_x_ok by done. unfold bind at 1. rewrite reg_x_ok by done.
    rewrite E2, (proj2 (Z.leb_le _ _) Hrem). reflexivity.
Qed.

(** A main or epilogue copy/set instruction whose state does not fit it
    (another option's flags, or an epilogue facing a page or more) is
    restarted at its prologue: the trap is taken by the loop itself, no signal
    is sent, the PC is back one or two instructions, and the three operand
    registers describe in the prologue's format exactly what is left to do;
    every other register keeps its value. *)
Theorem mops_trap_restarts sig due insn s : st_wf s -> mops_accepted insn -> mops_enabled_ok s = Ok tt s ->
  let Rd := BITS insn 4 0 in let Rs := BITS insn 20 16 in let Rn := BITS insn 9 5 in
  let C := has (c_nzcv (s_cpu s)) PS_C in
  xval s Rn <> 0 -> C = true \/ mops_stage insn = 2 /\ 0x1000 <= mops_remaining insn (xval s Rn) ->
  exists s1 s2, exec_a64 insn s = Fault s1 /\ dispatch sig due s1 = Ok A_NONE s2 /\
    c_pc (s_cpu s2) = u64 (c_cur_insn_pc (s_cpu s) - 4 * mops_stage insn) /\
    (xval s2 Rd, xval s2 Rs, xval s2 Rn) =
      restart_regs (BITS insn 23 22 =? 3) C (has (c_nzcv (s_cpu s)) PS_N) (xval s Rd) (xval s Rs) (xval s Rn) /\
    forall k, 0 <= k < 32 -> k <> Rd -> k <> Rs -> k <> Rn -> xval s2 k = xval s k.
Proof.
  intros Hs Ha Hen Rd Rs Rn C Hxn Htrap. eexists. rewrite (mops_trap insn s Hs Ha Hen Hxn Htrap).
  fold C. set (s1 := cpu_raise_sync _ _ s).
  destruct Ha as (Hm & Hsz & Hst & (Hsn & Hsd & Hnd & Hd & Hn) & Hk).
  assert (Hs1 : st_wf (upd_tls (with_pe_valid false) s1)) by (by apply st_wf_raise).
  destruct (mops_restart_run insn C _ Hs1 Hst Hsn Hsd Hnd Hd Hn) as (s2 & E & P & X & O).
  { destruct (BITS insn 23 22 =? 3); [by left|by right]. }
  exists s2. split; [reflexivity|]. split; [|by split_and!].
  pose proof (esr_make_ec 0x27 (mops_iss insn C) ltac:(lia)) as Eec. unfold EC_MOP in E.
  change (dispatch sig due s1 = Ok A_NONE s2). unfold dispatch, bind, getc, gets, modify.
  change (pe_valid (s_tls s1)) with true. cbn [negb].
  change (pe_esr (s_tls (upd_tls (with_pe_valid false) s1))) with (esr_make 0x27 (mops_iss insn C)).
  rewrite Eec, E. reflexivity.
Qed.
End MopsRestart.

(** ** The ID registers at EL0 *)
Section IdRegs.
Context {Mem : Type} `{MemSeam Mem} `{HooksOk Mem}.
Local Open Scope exec_scope.
Implicit Types s : St Mem.

(** MRS Xrt, of register (3, 0, 0, crm, op2). *)
Definition id_mrs (crm op2 rt : Z) : Z := 0xd5380000 + crm * 2 ^ 8 + op2 * 2 ^ 5 + rt.
(** The registers of that space a kernel answers for. *)
Definition id_answered (crm op2 : Z) : bool :=
  (crm =? 0) && ((op2 =? 0) || (op2 =? 5) || (op2 =? 6)) || (2 <=? crm) && (crm <=? 7).
(** EL0's view of a register whose CPU value is [raw]. *)
Definition id_el0_value (crm op2 raw : Z) : Z :=
  if crm =? 0 then if op2 =? 0 then raw else if op2 =? 5 then 2 ^ 31 else 0
  else match List.find (fun '(c, o, _, _) => (c =? crm) && (o =? op2)) id_el0_view with
       | Some (_, _, visible, hidden) => Z.lor (Z.land raw visible) hidden
       | None => 0
       end.

Ltac enum_le8 x :=
  let Hx := fresh in
  assert (Hx : x = 0 \/ x = 1 \/ x = 2 \/ x = 3 \/ x = 4 \/ x = 5 \/ x = 6 \/ x = 7) by lia;
  destruct Hx as [-> |[-> |[-> |[-> |[-> |[-> |[-> | ->]]]]]]].

Lemma id_not_el0 sctlr kctl crm op2 rt : 0 <= crm < 8 -> 0 <= op2 < 8 ->
  el0_allowed sctlr kctl true 3 0 0 crm op2 rt = false.
Proof. intros Hc Ho. enum_le8 crm; enum_le8 op2; reflexivity. Qed.

Lemma id_value_run crm op2 s : 0 <= op2 < 8 -> id_answered crm op2 = true ->
  exists raw, sysreg_id_read crm op2 s = Ok raw s /\
    forall s', id_mrs_value crm op2 s' = Ok (Some (id_el0_value crm op2 raw)) s'.
Proof.
  intros Ho Ha. assert (Hc : 0 <= crm < 8) by (unfold id_answered in Ha; lia).
  enum_le8 crm; enum_le8 op2; try discriminate Ha; eexists; (split; [reflexivity|]); reflexivity.
Qed.

(** The fields of the word, checked on every one of them. *)
Definition id_fields_ok (crm op2 rt : Z) : bool :=
  let insn := id_mrs crm op2 rt in
  forallb (fun p => fst p =? snd p)
    [(Z.land (Z.shiftr insn 25) 0xf, 0xa); (BITS insn 31 26, 0x35); (BITS insn 31 24, 0xd5);
     (BITS insn 30 25, 0x2a); (BITS insn 31 25, 0x6a); (BIT insn 21, 1); (Z.land (Z.shiftr insn 21) 1, 1);
     (Z.land (Z.shiftr insn 19) 3, 3); (Z.land (Z.shiftr insn 19) 1, 1); (Z.land (Z.shiftr insn 16) 7, 0);
     (Z.land (Z.shiftr insn 12) 0xf, 0); (Z.land (Z.shiftr insn 8) 0xf, crm);
     (Z.land (Z.shiftr insn 5) 7, op2); (Z.land insn 0x1f, rt); (Z.land insn 0xfff00000, 0xd5300000)].
Lemma id_fields crm op2 rt : 0 <= crm < 8 -> 0 <= op2 < 8 -> 0 <= rt < 32 -> id_fields_ok crm op2 rt = true.
Proof.
  intros Hc Ho Ht.
  assert (Hall : forallb (fun c => forallb (fun o => forallb (id_fields_ok c o) (seqZ 0 32)) (seqZ 0 8))
    (seqZ 0 8) = true) by (vm_compute; reflexivity).
  rewrite forallb_forall in Hall. specialize (Hall crm). rewrite forallb_forall in Hall.
  assert (Hin : forall n k, 0 <= k < n -> In k (seqZ 0 n)).
  { intros n k Hk. apply list_elem_of_In, elem_of_seqZ. lia. }
  specialize (Hall (Hin 8 crm Hc) op2 (Hin 8 op2 Ho)). rewrite forallb_forall in Hall. by apply Hall, Hin.
Qed.

Lemma id_mrs_undefined crm op2 rt s : 0 <= crm < 8 -> 0 <= op2 < 8 -> 0 <= rt < 32 -> st_wf s ->
  c_el (s_cpu s) = 0 ->
  exec_a64 (id_mrs crm op2 rt) s = Fault (cpu_raise_sync (esr_make EC_UNKNOWN 0) 0 s).
Proof.
  intros Hc Ho Ht Hs He. pose proof (id_fields crm op2 rt Hc Ho Ht) as Hf. unfold id_fields_ok in Hf. cbv zeta in Hf.
  set (insn := id_mrs crm op2 rt) in *. cbn [forallb fst snd] in Hf. rewrite !andb_true_iff, !Z.eqb_eq in Hf.
  destruct Hf as (F1 & F2 & F3 & F4 & F5 & F6 & F7 & F8 & F9 & F10 & F11 & F12 & F13 & F14 & _).
  unfold exec_a64. rewrite F1. unfold branch_system. cbv zeta. rewrite F2, F3, F4, F5, F6.
  cbn [Z.eqb Pos.eqb andb]. unfold sysreg_exec. cbv zeta. rewrite F7, F8, F10, F11, F12, F13, F14.
  cbn [Z.eqb negb]. unfold bind at 1, el0_gate, bind at 1, getc, gets. rewrite He. cbn [Z.eqb].
  unfold bind at 1. pose proof (safe_bank_get False r_sctlr 1 ltac:(solve_bank) ltac:(lia) s Hs) as Hb.
  assert (Eb : exists v, bank_get r_sctlr 1 s = Ok v s).
  { unfold bank_get in *. destruct (_ !! _); [by eexists|done]. }
  destruct Eb as [v ->]. unfold bind at 1, sys_get, getc, gets. by rewrite id_not_el0.
Qed.

(** The word at [pc] is [insn], through the fetch cache. *)
Definition cached (pc insn : Z) (m : Mem) : Prop :=
  exists host, fcache m = Some (IFETCH_KEY pc, host) /\ host_load 4 (host + Z.land pc 0xfff) m = insn.
Lemma cached_fetch pc insn s : cached pc insn (s_mem s) -> mem_ifetch pc s = Ok insn s.
Proof. intros (host & E & Hl). unfold mem_ifetch. by rewrite E, Z.eqb_refl, Hl. Qed.

Lemma emulate_id_mrs_run crm op2 rt v s : 0 <= crm < 8 -> 0 <= op2 < 8 -> 0 <= rt < 32 -> crm <> 1 ->
  cached (c_pc (s_cpu s)) (id_mrs crm op2 rt) (s_mem s) -> id_mrs_value crm op2 s = Ok (Some v) s -> st_wf s ->
  exists s', emulate_id_mrs s = Ok true s' /\ c_pc (s_cpu s') = u64 (c_pc (s_cpu s) + 4) /\ s_mem s' = s_mem s /\
    s_tls s' = s_tls s /\
    forall k, 0 <= k < 32 -> xval s' k = if (k =? rt) && negb (k =? 31) then v else xval s k.
Proof.
  intros Hc Ho Ht Hc1 Hca Hv Hs. pose proof (id_fields crm op2 rt Hc Ho Ht) as Hf. unfold id_fields_ok in Hf. cbv zeta in Hf.
  unfold emulate_id_mrs. rewrite (cached_fetch _ _ _ Hca). set (insn := id_mrs crm op2 rt) in *.
  cbn [forallb fst snd] in Hf. rewrite !andb_true_iff, !Z.eqb_eq in Hf.
  destruct Hf as (_ & _ & _ & _ & _ & _ & _ & _ & F9 & F10 & F11 & F12 & F13 & F14 & F15 & _).
  cbv zeta. rewrite F9, F10, F11, F12, F13, F14, F15, (proj2 (Z.eqb_neq crm 1) Hc1), (proj2 (Z.ltb_ge 7 crm)) by lia.
  change (Z.lor 2 1 =? 3) with true. rewrite Z.eqb_refl. cbn [negb Z.eqb orb].
  unfold bind at 1. rewrite Hv. destruct (set_x_ok s rt v Hs Ht) as (s1 & E1 & M1 & _ & X1).
  assert (P1 : c_pc (s_cpu s1) = c_pc (s_cpu s) /\ s_tls s1 = s_tls s).
  { revert E1. unfold set_x. destruct (rt =? 31); [by intros [= <-]|].
    destruct (_ <? _)%nat; [|done]. by intros [= <-]. }
  unfold bind. rewrite E1. eexists. split; [reflexivity|]. cbn [upd_cpu s_cpu s_tls s_mem with_pc c_pc].
  destruct P1 as [-> ->]. done.
Qed.

Lemma wf_putc_halted s : st_wf s -> st_wf (upd_cpu (fun c => if c_halted c then with_halted false c else c) s).
Proof. intros Hs. unfold st_wf. cbn. destruct (c_halted (s_cpu s)); [by apply wf_with_halted|done]. Qed.

(** EL0 reads the ID registers as a kernel presents them: the MRS is
    undefined to the core, and the turn of the loop answers it with the fields
    of the CPU's value a kernel shows, every other field at its safe value,
    and goes on behind it; no signal is sent and nothing else changes. *)
Theorem id_mrs_emulated sig due crm op2 rt s : st_wf s -> c_stop (s_cpu s) = false -> c_el (s_cpu s) = 0 ->
  0 <= op2 < 8 -> 0 <= rt < 32 -> id_answered crm op2 = true ->
  cached (c_pc (s_cpu s)) (id_mrs crm op2 rt) (s_mem s) ->
  exists raw s', sysreg_id_read crm op2 s = Ok raw s /\
    loop_turn engine_nopd sig due s = Ok (Some A_NONE) s' /\
    c_pc (s_cpu s') = u64 (c_pc (s_cpu s) + 4) /\ s_mem s' = s_mem s /\ pe_valid (s_tls s') = false /\
    forall k, 0 <= k < 32 ->
      xval s' k = if (k =? rt) && negb (k =? 31) then id_el0_value crm op2 raw else xval s k.
Proof.
  intros Hs Hst He Ho Ht Ha Hca. assert (Hc : 0 <= crm < 8 /\ crm <> 1) by (unfold id_answered in Ha; lia).
  destruct Hc as [Hc Hc1]. destruct (id_value_run crm op2 s Ho Ha) as (raw & Er & Hval). exists raw.
  unfold loop_turn, bind at 1, getc, gets. rewrite Hst. unfold bind at 1, engine_nopd, fetch_next. cbv zeta.
  set (s0 := upd_cpu (fun c => with_cur_insn_pc (c_pc c) c) s).
  assert (Hw0 : st_wf s0) by (apply wf_with_cur; [apply Hs|done]).
  change (c_pc (s_cpu s0)) with (c_pc (s_cpu s)).
  rewrite (cached_fetch _ (id_mrs crm op2 rt) s0 Hca). set (s1 := upd_cpu (fun c => with_pc (u64 (c_pc c + 4)) c) s0).
  assert (Hw1 : st_wf s1) by (apply wf_with_pc; [apply fits_u64|done]).
  unfold bind at 1, call. rewrite id_mrs_undefined by done.
  assert (Hd : forall s2, st_wf s2 -> s_mem s2 = s_mem s -> c_pc (s_cpu s2) = c_pc (s_cpu s) ->
    c_x (s_cpu s2) = c_x (s_cpu s) -> pe_valid (s_tls s2) = true -> pe_esr (s_tls s2) = esr_make EC_UNKNOWN 0 ->
    exists s', dispatch sig due s2 = Ok A_NONE s' /\ c_pc (s_cpu s') = u64 (c_pc (s_cpu s) + 4) /\
      s_mem s' = s_mem s /\ pe_valid (s_tls s') = false /\
      forall k, 0 <= k < 32 -> xval s' k = if (k =? rt) && negb (k =? 31) then id_el0_value crm op2 raw else xval s k).
  { intros s2 W2 M2 P2 X2 V2 E2. set (s3 := upd_tls (with_pe_valid false) s2).
    destruct (emulate_id_mrs_run crm op2 rt (id_el0_value crm op2 raw) s3) as (s4 & E4 & P4 & M4 & T4 & X4); try done.
    { change (cached (c_pc (s_cpu s2)) (id_mrs crm op2 rt) (s_mem s2)). by rewrite P2, M2. }
    exists s4. unfold dispatch, bind, gets, modify, getc, gets. rewrite V2. cbn [negb]. fold s3.
    change (pe_esr (s_tls s3)) with (pe_esr (s_tls s2)). rewrite E2. change (Z.shiftr (esr_make EC_UNKNOWN 0) 26) with 0.
    cbv beta iota. rewrite E4. split_and!; [done|by rewrite P4, <- P2|by rewrite M4, <- M2|by rewrite T4|].
    intros k Hk. rewrite X4 by done. unfold xval. cbn [s3 upd_tls s_cpu]. by rewrite X2. }
  unfold count_insn, putc, modify, bind.
  match goal with |- context [dispatch sig due ?x] => set (s2 := x) end.
  destruct (Hd s2) as (s' & -> & D).
  - unfold s2. apply (wf_putc_halted). apply wf_with_icount, st_wf_raise, Hw1.
  - done.
  - unfold s2. cbn. destruct (c_halted (s_cpu s)); reflexivity.
  - unfold s2. cbn. destruct (c_halted (s_cpu s)); reflexivity.
  - done.
  - done.
  - exists s'. by split_and!; [| |apply D..].
Qed.
End IdRegs.

(** ** Instances *)

(** A machine about to run the words at 0x1000 with x0.. as given. *)
Definition word_bytes (w : Z) : list Z :=
  [Z.land w 0xff; Z.land (Z.shiftr w 8) 0xff; Z.land (Z.shiftr w 16) 0xff; Z.land (Z.shiftr w 24) 0xff].
Definition run_st (w : Z) (xs : list Z) : St FlatMem :=
  mkSt (with_pc 0x1000 (s_cpu (flat_st xs))) flat_tls
    (mkFlat (list_to_map (zip (seqZ 0x1000 4) (word_bytes w))) (Some (0x1000, 0x1000))).
Lemma run_st_wf w xs :
  (length xs <=? 31)%nat && forallb (fun v => (0 <=? v) && (v <? 2 ^ 64)) xs = true -> st_wf (run_st w xs).
Proof. intros Hx. apply wf_with_pc; [done|]. by apply (flat_st_wf xs). Qed.

(** [add x0, x1, #4; svc #0] at 0x1000, by the threaded engine. *)
Definition add_svc : St FlatMem :=
  mkSt (with_pc 0x1000 (s_cpu (flat_st [0; 38]))) flat_tls
    (mkFlat (list_to_map (zip (seqZ 0x1000 8) (word_bytes 0x91001020 ++ word_bytes 0xd4000001))) (Some (0x1000, 0x1000))).
Lemma add_svc_wf : st_wf add_svc.
Proof. apply wf_with_pc; [done|]. by apply (flat_st_wf [0; 38]). Qed.
Lemma data_fault_signal_witness : exists s1 s2 : St FlatMem,
  mem_write 0x20000 8 7 (flat_st []) = Fault s1 /\
  dispatch false false s1 = Ok (A_SIGNAL SIGSEGV 1 0x20000) s2 /\
  pe_valid (s_tls s2) = false /\ c_pc (s_cpu s2) = 0x1000 /\
  c_x (s_cpu s2) = c_x (s_cpu (flat_st [])) /\ s_mem s2 = s_mem (flat_st []).
Proof.
  assert (Ht : translate false 0x20000 PTE_W (s_mem (flat_st [])) = ((None, false), s_mem (flat_st []))) by reflexivity.
  destruct (data_fault_signal false false true 0x20000 8 7 (flat_st []) false (s_mem (flat_st [])) eq_refl Ht)
    as (s1 & s2 & P).
  exists s1, s2. exact P.
Defined.
Lemma misaligned_pc_sigbus_witness :
  let s := upd_cpu (with_pc 0x1002) (run_st 0 []) in
  exists s', loop_turn engine_nopd false false s = Ok (Some (A_SIGNAL SIGBUS 1 0x1002)) s' /\
    c_pc (s_cpu s') = 0x1002 /\ c_x (s_cpu s') = c_x (s_cpu s).
Proof.
  apply (misaligned_pc_sigbus false false (upd_cpu (with_pc 0x1002) (run_st 0 [])));
    [reflexivity|vm_compute; discriminate|reflexivity].
Defined.
(** [svc #0] with a signal pending and due. *)
Lemma svc_turn_witness : exists s', loop_turn engine_nopd true true (run_st 0xd4000001 [1; 2]) = Ok (Some A_NONE) s' /\
  c_pc (s_cpu s') = 0x1000 /\ c_x (s_cpu s') = c_x (s_cpu (run_st 0xd4000001 [1; 2])) /\ pe_valid (s_tls s') = false.
Proof.
  destruct (fetch_next (run_st 0xd4000001 [1; 2])) as [[insn|] s1|s1|] eqn:E; try (vm_compute in E; discriminate).
  assert (Ei : insn = 0xd4000001) by (vm_compute in E; congruence). subst insn.
  apply (svc_turn true true 0xd4000001 (run_st 0xd4000001 [1; 2]) s1); try reflexivity; [|exact E].
  apply run_st_wf. reflexivity.
Defined.
(** [mrs x3, id_aa64isar0_el1]. *)
Lemma id_mrs_emulated_witness : exists raw s',
  sysreg_id_read 6 0 (run_st (id_mrs 6 0 3) []) = Ok raw (run_st (id_mrs 6 0 3) []) /\
  loop_turn engine_nopd false false (run_st (id_mrs 6 0 3) []) = Ok (Some A_NONE) s' /\
  c_pc (s_cpu s') = 0x1004 /\ s_mem s' = s_mem (run_st (id_mrs 6 0 3) []) /\ pe_valid (s_tls s') = false /\
  forall k, 0 <= k < 32 ->
    xval s' k = if (k =? 3) && negb (k =? 31) then id_el0_value 6 0 raw else xval (run_st (id_mrs 6 0 3) []) k.
Proof.
  apply (id_mrs_emulated false false 6 0 3 (run_st (id_mrs 6 0 3) []));
    [apply run_st_wf; reflexivity|reflexivity|reflexivity|lia|lia|reflexivity|].
  exists 0x1000. split; reflexivity.
Defined.
(** [sete [x0]!, x1!, x2] with 8192 bytes left up to 0x9000. *)
Definition sete_st : St FlatMem :=
  upd_cpu (fun c => with_sys (with_sctlr [0; 2 ^ 33; 0; 0] (c_sys c)) c) (flat_st [0x9000; 2 ^ 64 - 0x2000; 5]).
Lemma sete_st_wf : st_wf sete_st.
Proof.
  pose proof (flat_st_wf [0x9000; 2 ^ 64 - 0x2000; 5] eq_refl) as []. constructor; try assumption.
  cbn in wf_bank |- *. apply Forall_cons_1 in wf_bank as [_ Hb]. apply Forall_cons_2; [|exact Hb].
  split; [reflexivity|]. repeat (apply Forall_cons_2; [vm_compute; intuition discriminate|]). apply Forall_nil_2.
Qed.
Lemma mops_trap_restarts_witness : exists s1 s2,
  exec_a64 0x19c28420 sete_st = Fault s1 /\ dispatch false false s1 = Ok A_NONE s2 /\
  c_pc (s_cpu s2) = 0xff8 /\ (xval s2 0, xval s2 2, xval s2 1) = (0x7000, 5, 0x2000) /\
  forall k, 0 <= k < 32 -> k <> 0 -> k <> 2 -> k <> 1 -> xval s2 k = xval sete_st k.
Proof.
  apply (mops_trap_restarts false false 0x19c28420 sete_st);
    [exact sete_st_wf| |reflexivity|vm_compute; discriminate|right; split; vm_compute; congruence].
  unfold mops_accepted. vm_compute. intuition discriminate.
Defined.
