(* ===== verification/Seccomp.v ===== *)
(** * Seccomp: the guest's seccomp-BPF (sys_seccomp.c)

    The classic-BPF checker and interpreter, the filter chain with its
    budget, the gate in front of every guest syscall, and the operations that
    install filters and modes. A guest filter's array and its length are one
    list. Memory of the guest, the allocator and the tracer are what the code
    gets from outside, and arguments here. *)

From S2P Require Import Prelude Types Cpu.

Definition ENOSYS : Z := 38.
Definition EOPNOTSUPP : Z := 95.
Definition SIGKILL : Z := 9.
Definition SIGSYS : Z := 31.

(** ** Classic BPF *)
Record GSockFilter := mkFilter { f_code : Z; f_jt : Z; f_jf : Z; f_k : Z }.

Definition BPF_CLASS (c : Z) : Z := Z.land c 0x07.
Definition BPF_MODE (c : Z) : Z := Z.land c 0xe0.
Definition BPF_OP (c : Z) : Z := Z.land c 0xf0.
Definition BPF_SRC (c : Z) : Z := Z.land c 0x08.
Definition BPF_MEMWORDS : Z := 16.
Definition G_BPF_MAXINSNS : Z := 4096.
(** [sizeof(GSeccompData)]. *)
Definition SECCOMP_DATA_SIZE : Z := 64.

(** One instruction of [bpf_validate]'s loop at [pc] in a program of [len];
    the codes are those of the source's cases. *)
Definition bpf_insn_ok (len pc : Z) (i : GSockFilter) : bool :=
  let code := f_code i in let k := f_k i in
  match code with
  | 0x20 =>                                                    (* LD|W|ABS *)
      negb ((SECCOMP_DATA_SIZE <=? k) || has k 3)
  | 0x80 | 0x81                                                (* LD/LDX|W|LEN *)
  | 0x00 | 0x01                                                (* LD/LDX|IMM *)
  | 0x07 | 0x87                                                (* TAX TXA *)
  | 0x06 | 0x16 => true                                        (* RET|K RET|A *)
  | 0x60 | 0x61 | 0x02 | 0x03 => negb (BPF_MEMWORDS <=? k)     (* LD/LDX|MEM ST STX *)
  | 0x04 | 0x0c | 0x14 | 0x1c | 0x24 | 0x2c                    (* ADD SUB MUL *)
  | 0x54 | 0x5c | 0x44 | 0x4c | 0xa4 | 0xac                    (* AND OR XOR *)
  | 0x6c | 0x7c | 0x3c | 0x84 => true                          (* LSH|X RSH|X DIV|X NEG *)
  | 0x64 | 0x74 => negb (32 <=? k)                             (* LSH|K RSH|K *)
  | 0x34 => negb (k =? 0)                                      (* DIV|K *)
  | 0x05 => negb (u32 (len - pc - 1) <=? k)                    (* JA *)
  | 0x15 | 0x1d | 0x25 | 0x2d | 0x35 | 0x3d | 0x45 | 0x4d =>   (* JEQ JGT JGE JSET *)
      negb ((u32 (len - pc - 1) <=? f_jt i) || (u32 (len - pc - 1) <=? f_jf i))
  | _ => false
  end.

(** The loop of [bpf_validate] from [pc]. *)
Fixpoint bpf_insns_ok (len pc : Z) (f : list GSockFilter) : bool :=
  match f with
  | [] => true
  | i :: rest => bpf_insn_ok len pc i && bpf_insns_ok len (pc + 1) rest
  end.

(** [bpf_validate]: 0 or -EINVAL. *)
Definition bpf_validate (f : list GSockFilter) : Z :=
  let len := Z.of_nat (length f) in
  if (len =? 0) || (G_BPF_MAXINSNS <? len) then - EINVAL
  else if negb (bpf_insns_ok len 0 f) then - EINVAL
  else match f !! Nat.pred (length f) with
       | Some i => if BPF_CLASS (f_code i) =? 0x06 then 0 else - EINVAL
       | None => - EINVAL
       end.

(** [ebpf_len]: the length of the kernel's conversion. *)
Definition ebpf_insn_len (i : GSockFilter) : Z :=
  let code := f_code i in
  match BPF_CLASS code with
  | 0x04 => if code =? 0x3c then 5 else 1
  | 0x05 =>
      if BPF_OP code =? 0 then 1
      else (if (BPF_SRC code =? 0) && (s32 (f_k i) <? 0) then 1 else 0)
           + (if f_jf i =? 0 then 1
              else if (f_jt i =? 0) && negb (BPF_OP code =? 0x40) then 1 else 2)
  | 0x06 => if Z.land code 0x18 =? 0 then 2 else 1
  | _ => 1
  end.
Fixpoint ebpf_len_loop (n : Z) (f : list GSockFilter) : Z :=
  match f with
  | [] => n
  | i :: rest => ebpf_len_loop (u32 (n + ebpf_insn_len i)) rest
  end.
Definition ebpf_len (f : list GSockFilter) : Z := ebpf_len_loop 3 f.

(** ** The interpreter *)

(** [GSeccompData] as the bytes a filter reads. *)
Fixpoint le_bytes (n : nat) (v : Z) : list Z :=
  match n with O => [] | S k => u8 v :: le_bytes k (Z.shiftr v 8) end.
Record GSeccompData := mkData { d_nr : Z; d_arch : Z; d_ip : Z; d_args : list Z }.
Definition data_bytes (d : GSeccompData) : list Z :=
  le_bytes 4 (d_nr d) ++ le_bytes 4 (d_arch d) ++ le_bytes 8 (d_ip d)
  ++ concat (map (le_bytes 8) (d_args d)).
(** [memcpy(&A, data + k, 4)]; [None] outside the bytes. *)
Definition data_load (data : list Z) (k : Z) : option Z :=
  if (0 <=? k) && (k + 4 <=? Z.of_nat (length data)) then
    let b i := default 0 (data !! Z.to_nat (k + i)) in
    Some (Z.lor (Z.lor (Z.lor (b 0) (Z.shiftl (b 1) 8)) (Z.shiftl (b 2) 16)) (Z.shiftl (b 3) 24))
  else None.

(** The interpreter's registers, and what an instruction leads to: the next
    one, the program's answer, or an access outside [mem] or [data]. *)
Record BpfState := mkBpf { b_pc : Z; b_A : Z; b_X : Z; b_mem : list Z }.
Inductive BpfStep := BpfNext (s : BpfState) | BpfRet (v : Z) | BpfUB.

Definition set_A (s : BpfState) (v : Z) : BpfStep :=
  BpfNext (mkBpf (b_pc s) v (b_X s) (b_mem s)).
Definition set_X (s : BpfState) (v : Z) : BpfStep :=
  BpfNext (mkBpf (b_pc s) (b_A s) v (b_mem s)).
Definition load_mem (s : BpfState) (k : Z) (f : Z -> BpfStep) : BpfStep :=
  match b_mem s !! Z.to_nat k with Some v => f v | None => BpfUB end.
Definition store_mem (s : BpfState) (k v : Z) : BpfStep :=
  if (Z.to_nat k <? length (b_mem s))%nat
  then BpfNext (mkBpf (b_pc s) (b_A s) (b_X s) (<[Z.to_nat k := v]> (b_mem s)))
  else BpfUB.

Definition bpf_alu (s : BpfState) (op v : Z) : BpfStep :=
  let A := b_A s in
  match op with
  | 0x00 => set_A s (u32 (A + v))
  | 0x10 => set_A s (u32 (A - v))
  | 0x20 => set_A s (u32 (A * v))
  | 0x30 => if v =? 0 then BpfRet 0 else set_A s (A / v)
  | 0x50 => set_A s (Z.land A v)
  | 0x40 => set_A s (Z.lor A v)
  | 0xa0 => set_A s (Z.lxor A v)
  | 0x60 => set_A s (u32 (Z.shiftl A (Z.land v 31)))
  | 0x70 => set_A s (Z.shiftr A (Z.land v 31))
  | 0x80 => set_A s (u32 (0 - A))
  | _ => BpfNext s
  end.
Definition bpf_test (A op v : Z) : bool :=
  match op with
  | 0x10 => A =? v
  | 0x20 => v <? A
  | 0x30 => v <=? A
  | 0x40 => negb (Z.land A v =? 0)
  | _ => false
  end.
Definition bpf_jump (s : BpfState) (off : Z) : BpfStep :=
  BpfNext (mkBpf (u32 (b_pc s + off)) (b_A s) (b_X s) (b_mem s)).

(** The body of [bpf_run]'s loop on instruction [i] (before [pc++]). *)
Definition bpf_exec (data : list Z) (i : GSockFilter) (s : BpfState) : BpfStep :=
  let code := f_code i in let k := f_k i in
  match BPF_CLASS code with
  | 0x00 =>
      if BPF_MODE code =? 0x20 then
        match data_load data k with Some v => set_A s v | None => BpfUB end
      else if BPF_MODE code =? 0x00 then set_A s k
      else if BPF_MODE code =? 0x60 then load_mem s k (set_A s)
      else set_A s SECCOMP_DATA_SIZE
  | 0x01 =>
      if BPF_MODE code =? 0x00 then set_X s k
      else if BPF_MODE code =? 0x60 then load_mem s k (set_X s)
      else set_X s SECCOMP_DATA_SIZE
  | 0x02 => store_mem s k (b_A s)
  | 0x03 => store_mem s k (b_X s)
  | 0x04 => bpf_alu s (BPF_OP code) (if BPF_SRC code =? 0x08 then b_X s else k)
  | 0x05 =>
      if BPF_OP code =? 0x00 then bpf_jump s k
      else
        let v := if BPF_SRC code =? 0x08 then b_X s else k in
        bpf_jump s (if bpf_test (b_A s) (BPF_OP code) v then f_jt i else f_jf i)
  | 0x06 => BpfRet (if has code 0x10 then b_A s else k)
  | _ => if Z.land code 0xf8 =? 0x00 then set_X s (b_A s) else set_A s (b_X s)
  end.

(** How a run of the loop can end: a RET, running off the end (the source's
    final [return 0]), outside an array, or at the bound of this model. *)
Inductive BpfEnd := EndRet (v : Z) | EndFell | EndUB | EndFuel.

Fixpoint bpf_loop (n : nat) (f : list GSockFilter) (data : list Z) (s : BpfState) : BpfEnd :=
  match n with
  | O => EndFuel
  | S n' =>
      match f !! Z.to_nat (b_pc s) with
      | None => EndFell
      | Some i =>
          match bpf_exec data i s with
          | BpfUB => EndUB
          | BpfRet v => EndRet v
          | BpfNext s' =>
              bpf_loop n' f data (mkBpf (u32 (b_pc s' + 1)) (b_A s') (b_X s') (b_mem s'))
          end
      end
  end.
Definition bpf_start : BpfState := mkBpf 0 0 0 (replicate 16 0).
(** [bpf_run] with its end: one step more than the program has instructions
    is enough, as every jump is forward. *)
Definition bpf_end (f : list GSockFilter) (d : GSeccompData) : BpfEnd :=
  bpf_loop (S (length f)) f (data_bytes d) bpf_start.
Definition bpf_run (f : list GSockFilter) (d : GSeccompData) : Z :=
  match bpf_end f d with EndRet v => v | _ => 0 end.

(** ** The chain *)
Record SeccompProg := mkProg { p_elen : Z; p_insns : list GSockFilter }.
(** The fields of [struct Machine] the file uses; [m_filters] is the chain,
    newest first, and [m_published] what the shared registry holds. *)
Record Machine := mkMachine {
  m_mode : Z;
  m_filters : list SeccompProg;
  m_no_new_privs : bool;
  m_fake_root : bool;
  m_published : Z * Z
}.

Definition RET_ACTION_FULL : Z := 0xffff0000.
Definition RET_ACTION : Z := 0x7fff0000.
Definition RET_DATA : Z := 0x0000ffff.
Definition RET_KILL_PROCESS : Z := 0x80000000.
Definition RET_KILL_THREAD : Z := 0.
Definition RET_TRAP : Z := 0x00030000.
Definition RET_ERRNO : Z := 0x00050000.
Definition RET_TRACE : Z := 0x7ff00000.
Definition RET_LOG : Z := 0x7ffc0000.
Definition RET_ALLOW : Z := 0x7fff0000.

Fixpoint chain_fold (l : list SeccompProg) (d : GSeccompData) (ret : Z) : Z :=
  match l with
  | [] => ret
  | p :: rest =>
      let cur := bpf_run (p_insns p) d in
      chain_fold rest d (if Z.land cur RET_ACTION <? Z.land ret RET_ACTION then cur else ret)
  end.
Definition seccomp_run_chain (m : Machine) (d : GSeccompData) : Z :=
  chain_fold (m_filters m) d RET_ALLOW.

Definition MAX_INSNS_PER_PATH : Z := 32768.
Fixpoint chain_total (total : Z) (l : list SeccompProg) : Z :=
  match l with [] => total | p :: rest => chain_total (u64 (total + (p_elen p + 4))) rest end.
Definition chain_has_room (m : Machine) (elen : Z) : bool :=
  chain_total elen (m_filters m) <=? MAX_INSNS_PER_PATH.

(** ** The gate *)
Definition MODE_STRICT : Z := 1.
Definition MODE_FILTER : Z := 2.
Definition AUDIT_ARCH_AARCH64 : Z := 0xc00000b7.
Definition strict_allows (nr : Z) : bool :=
  (nr =? 63) || (nr =? 64) || (nr =? 93) || (nr =? 139).

(** What the gate decides: run the call (0); do not, with a result (1) or with
    a result and a SIGSYS (2); run it as the tracer left it (3); or the guest
    dies by a signal. *)
Inductive Gate :=
| G_RUN
| G_SKIP (ret : Z)
| G_TRAP (ret data : Z)
| G_RUN_CHANGED
| G_KILL (sig : Z).

(** The tracer: whether it traces this thread and its options; and the stop
    it makes of a seccomp event, from the event's message and the thread's x
    registers to those registers, the PC and itself as they are afterwards (it
    may have detached, or changed its options). *)
Record Tracer := mkTracer { tr_active : bool; tr_options : Z }.
Definition Report : Type := Z -> list Z -> list Z * Z * Tracer.
Definition O_SUSPEND_SECCOMP : Z := 0x00200000.
Definition O_TRACESECCOMP : Z := 0x80.

(** The data of a call: number, PC and the six argument registers. *)
Definition gate_data (nr pc : Z) (args : list Z) : GSeccompData :=
  mkData (u32 nr) AUDIT_ARCH_AARCH64 pc args.

(** [seccomp_gate] up to its RET_TRACE case; [inr] is that case, with the
    action. *)
Definition gate_judge (m : Machine) (tr : Tracer) (nr pc : Z) (args : list Z) : Gate + Z :=
  if tr_active tr && has (tr_options tr) O_SUSPEND_SECCOMP then inl G_RUN
  else if (m_mode m =? MODE_STRICT) && strict_allows nr then inl G_RUN
  else if m_mode m =? MODE_STRICT then inl (G_KILL SIGKILL)
  else
    let action := seccomp_run_chain m (gate_data nr pc args) in
    match Z.land action RET_ACTION_FULL with
    | 0x7fff0000 | 0x7ffc0000 => inl G_RUN
    | 0x00050000 =>
        let e := Z.land action RET_DATA in
        inl (G_SKIP (- (if 4095 <? e then 4095 else e)))
    | 0x00030000 => inl (G_TRAP (- ENOSYS) (Z.land action RET_DATA))
    | 0x7ff00000 => inr action
    | _ => inl (G_KILL SIGSYS)
    end.
(** The second judgement, after a tracer has seen the call ([recheck]). *)
Definition gate_recheck (m : Machine) (tr : Tracer) (nr pc : Z) (args : list Z) : Gate :=
  match gate_judge m tr nr pc args with inl g => g | inr _ => G_RUN end.

Definition seccomp_gate (m : Machine) (tr : Tracer) (report : Report) (pc : Z) (x : list Z) (nr : Z)
    (args : list Z) : Gate :=
  match gate_judge m tr nr pc args with
  | inl g => g
  | inr action =>
      if negb (tr_active tr) || negb (has (tr_options tr) O_TRACESECCOMP) then G_SKIP (- ENOSYS)
      else
        let '(x', pc', tr') := report (Z.land action RET_DATA) x in
        let x8 := default 0 (x' !! 8%nat) in
        if s64 x8 <? 0 then G_SKIP (s64 (default 0 (x' !! 0%nat)))
        else match gate_recheck m tr' x8 pc' (firstn 6 x') with
             | G_RUN => G_RUN_CHANGED
             | g => g
             end
  end.

(** ** Installing *)
Definition may_assign_mode (m : Machine) (mode : Z) : bool := (m_mode m =? 0) || (m_mode m =? mode).
Definition seccomp_status (m : Machine) : Z * Z := (m_mode m, Z.of_nat (length (m_filters m))).
(** [assign_mode] on a chain, then [seccomp_publish_locked]. *)
Definition enter_mode (m : Machine) (filters : list SeccompProg) (mode : Z) : Machine :=
  mkMachine mode filters (m_no_new_privs m) (m_fake_root m) (mode, Z.of_nat (length filters)).

(** TSYNC, LOG, SPEC_ALLOW, TSYNC_ESRCH. *)
Definition FILTER_FLAGS : Z := 0x17.

(** What [seccomp_install] gets from outside: the program header's length
    ([None]: EFAULT), whether [malloc] succeeds, the guest's array of
    instructions by index ([None]: EFAULT). *)
Record InstallArgs := mkInstall {
  ia_len : option Z;
  ia_malloc : bool;
  ia_insns : option (nat -> GSockFilter)
}.

Definition seccomp_install (m : Machine) (flags : Z) (a : InstallArgs) : Z * Machine :=
  if negb (Z.land flags (not64 FILTER_FLAGS) =? 0) then (- EINVAL, m) else
  match ia_len a with
  | None => (- EFAULT, m)
  | Some len =>
      if (len =? 0) || (G_BPF_MAXINSNS <? len) then (- EINVAL, m)
      else if negb (m_no_new_privs m) && negb (m_fake_root m) then (- EACCES, m)
      else if negb (ia_malloc a) then (- ENOMEM, m)
      else match ia_insns a with
           | None => (- EFAULT, m)
           | Some arr =>
               let insns := map arr (seq 0 (Z.to_nat len)) in
               let r := bpf_validate insns in
               if r <? 0 then (r, m) else
               let p := mkProg (ebpf_len insns) insns in
               if negb (may_assign_mode m MODE_FILTER) then (- EINVAL, m)
               else if negb (chain_has_room m (p_elen p)) then (- ENOMEM, m)
               else (0, enter_mode m (p :: m_filters m) MODE_FILTER)
           end
  end.

Definition seccomp_set_strict (m : Machine) : Z * Machine :=
  if negb (may_assign_mode m MODE_STRICT) then (- EINVAL, m)
  else (0, enter_mode m (m_filters m) MODE_STRICT).

Definition seccomp_prctl_set (m : Machine) (mode : Z) (a : InstallArgs) : Z * Machine :=
  if mode =? MODE_STRICT then seccomp_set_strict m
  else if mode =? MODE_FILTER then seccomp_install m 0 a
  else (- EINVAL, m).

(** The [seccomp] system call; [act] is the word GET_ACTION_AVAIL copies in. *)
Definition sys_seccomp (m : Machine) (a0 a1 a2 : Z) (a : InstallArgs) (act : option Z) :
    Z * Machine :=
  let op := u32 a0 in let flags := u32 a1 in
  match op with
  | 0 => if negb (flags =? 0) || negb (a2 =? 0) then (- EINVAL, m) else seccomp_set_strict m
  | 1 => seccomp_install m flags a
  | 2 =>
      if negb (flags =? 0) then (- EINVAL, m) else
      match act with
      | None => (- EFAULT, m)
      | Some act =>
          if existsb (Z.eqb act) [RET_KILL_PROCESS; RET_KILL_THREAD; RET_TRAP; RET_ERRNO; RET_TRACE;
                                  RET_LOG; RET_ALLOW]
          then (0, m) else (- EOPNOTSUPP, m)
      end
  | _ => (- EINVAL, m)
  end.
