(* ===== verification/SeccompThms.v ===== *)
(** * SeccompThms: what the seccomp sandbox guarantees

    A program the checker accepts always answers; the chain's answer is its
    most severe filter's; the operations keep the mode, the chain, its budget
    and the published registry consistent, and are one-way. *)

From S2P Require Import Prelude Types Cpu Seccomp.

(** ** Validated programs *)

(** A program whose fields have the widths of [GSockFilter]. *)
Definition filter_wf (i : GSockFilter) : Prop :=
  fits 16 (f_code i) /\ fits 8 (f_jt i) /\ fits 8 (f_jf i) /\ fits 32 (f_k i).

Lemma insns_ok_lookup len pc f j i : bpf_insns_ok len pc f = true -> f !! j = Some i ->
  bpf_insn_ok len (pc + Z.of_nat j) i = true.
Proof.
  revert pc j. induction f as [|a f IH]; intros pc j Hok Hj; [done|].
  cbn [bpf_insns_ok] in Hok. apply andb_true_iff in Hok as [Ha Hf].
  destruct j as [|j]; cbn in Hj.
  - injection Hj as <-. by rewrite Z.add_0_r.
  - replace (pc + Z.of_nat (S j)) with (pc + 1 + Z.of_nat j) by lia. by apply IH.
Qed.
Lemma validate_inv f : bpf_validate f = 0 ->
  (0 < length f)%nat /\ Z.of_nat (length f) <= 4096 /\ bpf_insns_ok (Z.of_nat (length f)) 0 f = true /\
  exists i, f !! Nat.pred (length f) = Some i /\ BPF_CLASS (f_code i) = 6.
Proof.
  unfold bpf_validate. cbv zeta. destruct (_ || _) eqn:E1; [done|].
  apply orb_false_iff in E1 as [E1 E2]. unfold G_BPF_MAXINSNS in E2.
  destruct (bpf_insns_ok _ _ _) eqn:E3; [|done]. cbn [negb].
  destruct (f !! _) as [i|]; [|done]. destruct (Z.eqb_spec (BPF_CLASS (f_code i)) 6); [|done].
  intros _. split_and!; [lia|lia|done|by eauto].
Qed.

(** The codes the checker accepts. *)
Definition bpf_codes : list Z :=
  [0x20; 0x80; 0x81; 0x00; 0x01; 0x07; 0x87; 0x06; 0x16; 0x60; 0x61; 0x02; 0x03; 0x04; 0x0c; 0x14; 0x1c;
   0x24; 0x2c; 0x54; 0x5c; 0x44; 0x4c; 0xa4; 0xac; 0x6c; 0x7c; 0x3c; 0x84; 0x64; 0x74; 0x34; 0x05; 0x15;
   0x1d; 0x25; 0x2d; 0x35; 0x3d; 0x45; 0x4d].
Lemma insn_ok_code len pc i : bpf_insn_ok len pc i = true -> In (f_code i) bpf_codes.
Proof.
  unfold bpf_insn_ok. cbv zeta. destruct (f_code i) as [|p|p]; [cbn; tauto| |done].
  do 8 (try (destruct p as [p|p|]; try done)); intros _; cbn [In bpf_codes]; tauto.
Qed.

(** Decide the closed field extractions of a known code. *)
Ltac closed_bits :=
  repeat match goal with |- context [Z.land ?a ?b] =>
    let v := eval vm_compute in (Z.land a b) in
    lazymatch v with Z0 => idtac | Zpos _ => idtac end; change (Z.land a b) with v end;
  cbn [Z.eqb Pos.eqb].

(** The interpreter's invariant: registers are words, scratch memory is whole. *)
Definition bpf_inv (s : BpfState) : Prop :=
  fits 32 (b_A s) /\ fits 32 (b_X s) /\ length (b_mem s) = 16%nat /\ Forall (fits 32) (b_mem s).

(** One checked instruction, from a state with the invariant at [pc]: it
    answers with a word, or moves on to a later instruction of the program. *)
Definition step_good (len : Z) (s : BpfState) (r : BpfStep) : Prop :=
  match r with
  | BpfNext s' => bpf_inv s' /\ b_pc s <= b_pc s' /\ b_pc s' + 1 < len
  | BpfRet v => fits 32 v
  | BpfUB => False
  end.

Lemma good_A len s v : bpf_inv s -> b_pc s + 1 < len -> fits 32 v -> step_good len s (set_A s v).
Proof. intros (? & ? & ? & ?) ? ?. unfold step_good, bpf_inv. cbn. split_and!; auto; lia. Qed.
Lemma good_X len s v : bpf_inv s -> b_pc s + 1 < len -> fits 32 v -> step_good len s (set_X s v).
Proof. intros (? & ? & ? & ?) ? ?. unfold step_good, bpf_inv. cbn. split_and!; auto; lia. Qed.
Lemma mem_lookup s k : bpf_inv s -> 0 <= k < 16 -> exists v, b_mem s !! Z.to_nat k = Some v /\ fits 32 v.
Proof.
  intros (_ & _ & Hl & Hm) Hk. destruct (lookup_lt_is_Some_2 (b_mem s) (Z.to_nat k)) as [v Hv]; [lia|].
  exists v. split; [done|]. by eapply (Forall_lookup_1 _ (b_mem s)).
Qed.
Lemma good_store len s k v : bpf_inv s -> b_pc s + 1 < len -> 0 <= k < 16 -> fits 32 v ->
  step_good len s (store_mem s k v).
Proof.
  intros (? & ? & Hl & Hm) ? ? ?. unfold store_mem. rewrite (proj2 (Nat.ltb_lt _ _)) by lia.
  unfold step_good, bpf_inv. cbn. split_and!; try lia; auto; [by rewrite length_insert|by apply Forall_insert].
Qed.
Lemma good_jump len s off : bpf_inv s -> 0 <= b_pc s -> 0 <= off < len - b_pc s - 1 -> len <= 4096 ->
  step_good len s (bpf_jump s off).
Proof.
  intros (? & ? & ? & ?) Hp Ho Hl. unfold step_good, bpf_jump, bpf_inv. cbn.
  rewrite u32_small by (unfold fits; lia). split_and!; auto; lia.
Qed.
Lemma fits_data_load data k v : Forall (fits 8) data -> data_load data k = Some v -> fits 32 v.
Proof.
  intros Hd. unfold data_load. destruct (_ && _); [|done]. intros [= <-].
  assert (Hb : forall i, fits 8 (default 0 (data !! Z.to_nat (k + i)))).
  { intros i. destruct (data !! Z.to_nat (k + i)) as [b|] eqn:E; [|by apply fits_0].
    by eapply (Forall_lookup_1 _ data). }
  assert (Hs : forall i j, 0 <= j <= 24 -> fits 32 (Z.shiftl (default 0 (data !! Z.to_nat (k + i))) j)).
  { intros i j Hj. specialize (Hb i). unfold fits in *. rewrite Z.shiftl_mul_pow2 by lia.
    assert (2 ^ j <= 2 ^ 24) by (apply Z.pow_le_mono_r; lia). assert (0 < 2 ^ j) by (apply Z.pow_pos_nonneg; lia). nia. }
  repeat (apply fits_lor; [lia| |]); auto; try (apply Hs; lia). eapply fits_weaken; [apply Hb|lia].
Qed.

Lemma fits_alu s op v len : bpf_inv s -> b_pc s + 1 < len -> fits 32 v ->
  step_good len s (bpf_alu s op v).
Proof.
  intros Hs Hl Hv. assert (Hn : step_good len s (BpfNext s)) by (unfold step_good; split_and!; [done|lia..]).
  assert (HA : fits 32 (b_A s)) by apply Hs.
  assert (Hg : forall w, fits 32 w -> step_good len s (set_A s w)) by (intros; by apply good_A).
  pose proof (Hg _ (fits_u32 (b_A s + v))). pose proof (Hg _ (fits_u32 (b_A s - v))).
  pose proof (Hg _ (fits_u32 (b_A s * v))). pose proof (Hg _ (fits_u32 (0 - b_A s))).
  pose proof (Hg _ (fits_u32 (Z.shiftl (b_A s) (Z.land v 31)))).
  assert (step_good len s (set_A s (Z.land (b_A s) v))) by auto with word.
  assert (step_good len s (set_A s (Z.lor (b_A s) v))) by auto with word.
  assert (step_good len s (set_A s (Z.lxor (b_A s) v))) by auto with word.
  assert (step_good len s (set_A s (Z.shiftr (b_A s) (Z.land v 31)))).
  { apply Hg, fits_shiftr; [lia| |done]. apply Z.land_nonneg. lia. }
  assert (step_good len s (if v =? 0 then BpfRet 0 else set_A s (b_A s / v))).
  { destruct (Z.eqb_spec v 0); [by apply fits_0|]. apply Hg. unfold fits in *.
    split; [apply Z.div_pos; lia|apply Z.div_lt_upper_bound; nia]. }
  unfold bpf_alu. cbv zeta. destruct op as [|p|p]; [assumption| |assumption].
  do 8 (try (destruct p as [p|p|]; try assumption)).
Qed.

Lemma data_load_ok data k : length data = 64%nat -> 0 <= k ->
  (SECCOMP_DATA_SIZE <=? k) || has k 3 = false -> exists v, data_load data k = Some v.
Proof.
  intros Hl Hk [H1 H2]%orb_false_iff. unfold SECCOMP_DATA_SIZE, has in *. apply negb_false_iff in H2.
  change 3 with (Z.ones 2) in H2. rewrite Z.land_ones in H2 by lia. apply Z.eqb_eq in H2.
  unfold data_load. rewrite Hl, (proj2 (Z.leb_le 0 k)) by lia. rewrite (proj2 (Z.leb_le _ _)); [by eauto|].
  revert H1 H2. change (2 ^ 2) with 4. intros. assert (k < 64) by lia. Z.to_euclidean_division_equations. lia.
Qed.

Lemma bpf_exec_good len data i s : 0 <= b_pc s -> b_pc s + 1 < len \/ BPF_CLASS (f_code i) = 6 ->
  b_pc s < len -> len <= 4096 ->
  Forall (fits 8) data -> length data = 64%nat -> filter_wf i -> bpf_inv s ->
  bpf_insn_ok len (b_pc s) i = true -> step_good len s (bpf_exec data i s).
Proof.
  intros Hp Hr Hl Hm Hd Hdl (Hc & Hjt & Hjf & Hk) Hs Hok.
  pose proof (insn_ok_code _ _ _ Hok) as Hin. revert Hok. unfold bpf_insn_ok, bpf_exec. cbv zeta.
  assert (HA : fits 32 (b_A s)) by apply Hs. assert (HX : fits 32 (b_X s)) by apply Hs.
  assert (Hu : u32 (len - b_pc s - 1) = len - b_pc s - 1) by (apply u32_small; unfold fits; lia).
  rewrite Hu. assert (Hkr := Hk). unfold fits in Hkr, Hjt, Hjf.
  assert (H64 : fits 32 SECCOMP_DATA_SIZE) by (vm_compute; split; congruence).
  repeat (destruct Hin as [E |Hin]; [rewrite <- E in *; cbv [BPF_CLASS BPF_MODE BPF_OP BPF_SRC];
    closed_bits; intros Hok; try (destruct Hr as [Hr|Hr]; [|vm_compute in Hr; discriminate])|]);
    [..|destruct Hin].
  all: try (apply fits_alu; [done|lia|(exact HX || exact Hk)]).
  all: try (apply good_A; [done|lia|assumption]).
  all: try (apply good_X; [done|lia|assumption]).
  all: try (apply good_store; [done|lia|unfold BPF_MEMWORDS in Hok; lia|assumption]).
  all: try (apply good_jump; [done|lia|try destruct (bpf_test _ _ _); lia|lia]).
  all: try (unfold BPF_MEMWORDS in Hok; destruct (mem_lookup s (f_k i) Hs ltac:(lia)) as (v & Ev & Fv);
    unfold load_mem; rewrite Ev; (by apply good_A) || (by apply good_X)).
  - apply negb_true_iff in Hok. destruct (data_load_ok data (f_k i) Hdl ltac:(lia) Hok) as [v Ev].
    rewrite Ev. apply good_A; [done|lia|by eapply fits_data_load].
  - exact Hk.
  - exact HA.
Qed.

Lemma bpf_loop_ret n f data s : let len := Z.of_nat (length f) in
  bpf_validate f = 0 -> Forall filter_wf f -> Forall (fits 8) data -> length data = 64%nat ->
  bpf_inv s -> 0 <= b_pc s < len -> len - b_pc s < Z.of_nat n ->
  exists v, bpf_loop n f data s = EndRet v /\ fits 32 v.
Proof.
  intros len Hv Hwf Hd Hdl. destruct (validate_inv f Hv) as (Hne & Hmax & Hok & il & Hlast & Hret).
  revert s. induction n as [|n IH]; intros s Hs Hp Hn; [lia|]. cbn [bpf_loop].
  destruct (lookup_lt_is_Some_2 f (Z.to_nat (b_pc s))) as [i Hi]; [lia|]. rewrite Hi.
  assert (Hwi : filter_wf i) by (by eapply (Forall_lookup_1 _ f)).
  pose proof (insns_ok_lookup _ _ _ _ _ Hok Hi) as Hoki. rewrite Z.add_0_l, Z2Nat.id in Hoki by lia.
  assert (Hr : b_pc s + 1 < len \/ BPF_CLASS (f_code i) = 6).
  { destruct (Z.lt_ge_cases (b_pc s + 1) len); [by left|]. right.
    replace (Z.to_nat (b_pc s)) with (Nat.pred (length f)) in Hi by lia. congruence. }
  pose proof (bpf_exec_good len data i s (proj1 Hp) Hr (proj2 Hp) Hmax Hd Hdl Hwi Hs Hoki) as Hg.
  destruct (bpf_exec data i s) as [s'|v|]; cbn in Hg; [|by eauto|done].
  destruct Hg as (Hs' & Hpc & Hlt). apply IH; cbn; [exact Hs'| |]; rewrite u32_small by (unfold fits; lia); lia.
Qed.

Lemma le_bytes_length n v : length (le_bytes n v) = n.
Proof. revert v. induction n as [|n IH]; intros v; cbn; [done|]. by rewrite IH. Qed.
Lemma le_bytes_fits n v : Forall (fits 8) (le_bytes n v).
Proof. revert v. induction n as [|n IH]; intros v; cbn; constructor; [apply fits_u8|apply IH]. Qed.
Lemma data_bytes_ok d : length (d_args d) = 6%nat ->
  Forall (fits 8) (data_bytes d) /\ length (data_bytes d) = 64%nat.
Proof.
  intros Hl. unfold data_bytes. destruct (d_args d) as [|a0 [|a1 [|a2 [|a3 [|a4 [|a5 [|]]]]]]]; try done.
  cbn [map concat]. split.
  - repeat (apply Forall_app; split); try apply le_bytes_fits. apply Forall_nil_2.
  - rewrite !length_app, !le_bytes_length. done.
Qed.

Lemma bpf_end_ret f d : bpf_validate f = 0 -> Forall filter_wf f -> length (d_args d) = 6%nat ->
  exists v, bpf_end f d = EndRet v /\ fits 32 v.
Proof.
  intros Hv Hwf Hd. destruct (data_bytes_ok d Hd) as [Hb Hl].
  destruct (validate_inv f Hv) as (Hne & _).
  apply bpf_loop_ret; try done; cbn; [|lia..].
  unfold bpf_inv. cbn. split_and!; [by apply fits_0|by apply fits_0|done|].
  apply (Forall_replicate (fits 32) 16 0). by apply fits_0.
Qed.

(** C36: a program the checker accepts always answers: whatever call it judges,
    it reaches a RET within as many steps as it has instructions, with every
    load inside the call's data and every scratch access inside the scratch
    memory; it never runs off its end. *)
Theorem bpf_validated_answers f d :
  bpf_validate f = 0 -> Forall filter_wf f -> length (d_args d) = 6%nat ->
  exists v, bpf_end f d = EndRet v /\ bpf_run f d = v /\ fits 32 v.
Proof.
  intros Hv Hwf Hd. destruct (bpf_end_ret f d Hv Hwf Hd) as (v & E & Hf).
  exists v. unfold bpf_run. by rewrite E.
Qed.

(** ** The chain *)
Definition severity (a : Z) : Z := Z.land a RET_ACTION.
Lemma chain_fold_spec l d r : let v := chain_fold l d r in
  severity v <= severity r /\ Forall (fun p => severity v <= severity (bpf_run (p_insns p) d)) l /\
  (v = r \/ exists p, In p l /\ v = bpf_run (p_insns p) d).
Proof.
  revert r. induction l as [|p l IH]; intros r; cbn [chain_fold]; cbv zeta.
  { split_and!; [lia|apply Forall_nil_2|by left]. }
  set (cur := bpf_run (p_insns p) d). fold (severity cur) (severity r).
  destruct (Z.ltb_spec (severity cur) (severity r)) as [Hlt|Hge].
  - destruct (IH cur) as (H1 & H2 & H3). cbv zeta in *. split_and!; [lia|by apply Forall_cons_2|].
    right. destruct H3 as [-> |(q & Hq & ->)]; [by exists p; split; [left|]|by exists q; split; [right|]].
  - destruct (IH r) as (H1 & H2 & H3). cbv zeta in *. split_and!; [lia|apply Forall_cons_2; [cbv beta; fold cur; lia|done]|].
    destruct H3 as [-> |(q & Hq & ->)]; [by left|right; by exists q; split; [right|]].
Qed.

(** The chain's answer is the most severe of its filters' answers: no
    filter asked for something more severe, and it is ALLOW or some filter's
    own answer, data bits included. *)
Theorem chain_most_severe m d : let v := seccomp_run_chain m d in
  Forall (fun p => severity v <= severity (bpf_run (p_insns p) d)) (m_filters m) /\
  (v = RET_ALLOW \/ exists p, In p (m_filters m) /\ v = bpf_run (p_insns p) d).
Proof.
  destruct (chain_fold_spec (m_filters m) d RET_ALLOW) as (_ & H2 & H3). by split.
Qed.

Lemma chain_fold_mono l d r r' : severity r <= severity r' ->
  severity (chain_fold l d r) <= severity (chain_fold l d r').
Proof.
  revert r r'. induction l as [|p l IH]; intros r r' Hr; cbn [chain_fold]; [done|]. cbv zeta.
  apply IH. fold (severity (bpf_run (p_insns p) d)) (severity r) (severity r').
  destruct (Z.ltb_spec (severity (bpf_run (p_insns p) d)) (severity r)),
    (Z.ltb_spec (severity (bpf_run (p_insns p) d)) (severity r')); lia.
Qed.
(** The machine an install leaves, when it succeeds. *)
Lemma install_inv m flags a m' : seccomp_install m flags a = (0, m') ->
  exists arr len, ia_insns a = Some arr /\ let insns := map arr (seq 0 len) in
    bpf_validate insns = 0 /\ (m_mode m = 0 \/ m_mode m = MODE_FILTER) /\
    chain_has_room m (ebpf_len insns) = true /\ (m_no_new_privs m || m_fake_root m = true) /\
    m' = enter_mode m (mkProg (ebpf_len insns) insns :: m_filters m) MODE_FILTER.
Proof.
  unfold seccomp_install. destruct (negb (Z.land _ _ =? 0)); [done|]. destruct (ia_len a) as [len|]; [|done].
  destruct (_ || _); [done|]. destruct (negb _ && negb _) eqn:Ep; [done|].
  destruct (negb (ia_malloc a)); [done|]. destruct (ia_insns a) as [arr|]; [|done]. cbv zeta.
  set (insns := map arr _). destruct (Z.ltb_spec (bpf_validate insns) 0) as [Hneg|Hpos]; [intros [= E _]; lia|].
  destruct (may_assign_mode m MODE_FILTER) eqn:Em; [|done]. cbn [negb p_elen].
  destruct (chain_has_room m (ebpf_len insns)) eqn:Er; [|done]. cbn [negb]. intros [= <-].
  exists arr, (Z.to_nat len). split; [done|]. cbv zeta. fold insns. split_and!; try done.
  - unfold bpf_validate in *. cbv zeta in *. repeat case_match; try done; unfold EINVAL in *; lia.
  - unfold may_assign_mode in Em. lia.
  - by destruct (m_no_new_privs m), (m_fake_root m).
Qed.

(** Installing only ever tightens: a successful install keeps every filter
    already there, and for every call the new chain's answer is at least as
    severe as the old one's. *)
Theorem install_tightens m flags a m' d : seccomp_install m flags a = (0, m') ->
  tail (m_filters m') = m_filters m /\
  severity (seccomp_run_chain m' d) <= severity (seccomp_run_chain m d).
Proof.
  intros (arr & len & _ & _ & _ & _ & _ & ->)%install_inv. split; [done|].
  set (insns := map arr _).
  unfold seccomp_run_chain. cbn [enter_mode m_filters chain_fold p_insns]. cbv zeta.
  apply chain_fold_mono. fold (severity (bpf_run insns d)) (severity RET_ALLOW).
  destruct (Z.ltb_spec (severity (bpf_run insns d)) (severity RET_ALLOW)); lia.
Qed.

(** ** The states the operations reach *)
Definition install_wf (a : InstallArgs) : Prop :=
  match ia_insns a with Some arr => forall i, filter_wf (arr i) | None => True end.
(** One operation of the guest, or a change of its privileges elsewhere. *)
Inductive sec_step : Machine -> Machine -> Prop :=
| step_seccomp m a0 a1 a2 a act : install_wf a ->
    sec_step m (snd (sys_seccomp m a0 a1 a2 a act))
| step_prctl m mode a : install_wf a -> sec_step m (snd (seccomp_prctl_set m mode a))
| step_privs m nnp root :
    sec_step m (mkMachine (m_mode m) (m_filters m) nnp root (m_published m)).
Inductive sec_steps : Machine -> Machine -> Prop :=
| steps_refl m : sec_steps m m
| steps_next m m' m'' : sec_steps m m' -> sec_step m' m'' -> sec_steps m m''.
Definition sec_init (nnp root : bool) : Machine := mkMachine 0 [] nnp root (0, 0).

Definition chain_cost (l : list SeccompProg) : Z := fold_right (fun p n => p_elen p + 4 + n) 0 l.
Definition prog_ok (p : SeccompProg) : Prop :=
  bpf_validate (p_insns p) = 0 /\ Forall filter_wf (p_insns p) /\ p_elen p = ebpf_len (p_insns p).
Definition sec_inv (m : Machine) : Prop :=
  (m_filters m = [] /\ (m_mode m = 0 \/ m_mode m = MODE_STRICT) \/
   m_filters m <> [] /\ m_mode m = MODE_FILTER) /\
  Forall prog_ok (m_filters m) /\ chain_cost (m_filters m) <= MAX_INSNS_PER_PATH + 4 /\
  m_published m = seccomp_status m.

Lemma fits_ebpf_len f : fits 32 (ebpf_len f).
Proof.
  unfold ebpf_len. assert (H : fits 32 3) by (unfold fits; lia). revert H. generalize 3.
  induction f as [|i f IH]; intros n Hn; cbn [ebpf_len_loop]; [done|]. apply IH, fits_u32.
Qed.
Lemma chain_total_cost l t : 0 <= t -> Forall prog_ok l -> t + chain_cost l < 2 ^ 64 ->
  chain_total t l = t + chain_cost l.
Proof.
  revert t. induction l as [|p l IH]; intros t Ht Hl Hb; cbn [chain_total chain_cost fold_right] in *; [lia|].
  apply Forall_cons_1 in Hl as [(_ & _ & He) Hl]. pose proof (fits_ebpf_len (p_insns p)) as [Hp _].
  assert (Hc : 0 <= chain_cost l).
  { clear -Hl. induction Hl as [|q l (_ & _ & Hq) _ IHl]; cbn; [done|].
    pose proof (fits_ebpf_len (p_insns q)) as [? _]. unfold chain_cost in IHl. lia. }
  fold (chain_cost l) in *. rewrite u64_small by (unfold fits; lia). rewrite IH by (done || lia). lia.
Qed.

Lemma install_preserves m flags a : install_wf a -> sec_inv m ->
  sec_inv (snd (seccomp_install m flags a)) /\
  (m_mode m <> 0 -> m_mode (snd (seccomp_install m flags a)) = m_mode m) /\
  (exists l, m_filters (snd (seccomp_install m flags a)) = l ++ m_filters m).
Proof.
  intros Hwf Hi. destruct (seccomp_install m flags a) as [r m'] eqn:E. cbn [snd].
  destruct (Z.eq_dec r 0) as [-> |Hr].
  - apply install_inv in E as (arr & len & Ei & E). cbv zeta in E. set (insns := map arr _) in E.
    destruct E as (Hv & Hm & Hroom & _ & ->).
    destruct Hi as (Hmode & Hok & Hc & _). unfold install_wf in Hwf. rewrite Ei in Hwf.
    assert (Hwi : Forall filter_wf insns) by (apply Forall_map, Forall_true, Hwf).
    pose proof (fits_ebpf_len insns) as Hf. unfold MAX_INSNS_PER_PATH in *.
    unfold chain_has_room, MAX_INSNS_PER_PATH in Hroom. unfold fits in Hf.
    rewrite chain_total_cost in Hroom by (done || lia).
    unfold sec_inv. cbn [enter_mode m_filters m_mode m_published]. split_and!; [right; by split| | | | |].
    + apply Forall_cons_2; [|done]. unfold prog_ok. done.
    + unfold chain_cost, MAX_INSNS_PER_PATH in *. cbn in *. lia.
    + done.
    + intros Hne. destruct Hm; [done|congruence].
    + by exists [mkProg (ebpf_len insns) insns].
  - assert (m' = m) as ->.
    { revert E. unfold seccomp_install. repeat case_match; congruence. }
    split_and!; [done|done|by exists []].
Qed.
Lemma strict_preserves m : sec_inv m ->
  sec_inv (snd (seccomp_set_strict m)) /\
  (m_mode m <> 0 -> m_mode (snd (seccomp_set_strict m)) = m_mode m) /\
  (exists l, m_filters (snd (seccomp_set_strict m)) = l ++ m_filters m).
Proof.
  intros Hi. unfold seccomp_set_strict, may_assign_mode. destruct (negb _) eqn:E; cbn [snd].
  - split_and!; [done|done|by exists []].
  - destruct Hi as (Hmode & Hok & Hc & Hp). unfold sec_inv. cbn [enter_mode m_filters m_mode m_published].
    split_and!; try done.
    + left. destruct Hmode as [[Hf _]|[_ Hm]]; [by split; [|right]|]. rewrite Hm in E. done.
    + intros Hne. unfold MODE_STRICT in *. lia.
    + by exists [].
Qed.
Lemma step_preserves m m' : sec_step m m' -> sec_inv m ->
  sec_inv m' /\ (m_mode m <> 0 -> m_mode m' = m_mode m) /\ exists l, m_filters m' = l ++ m_filters m.
Proof.
  intros Hst Hi. destruct Hst as [m a0 a1 a2 a act Hwf|m mode a Hwf|m nnp root].
  - assert (Hsame : sec_inv m /\ (m_mode m <> 0 -> m_mode m = m_mode m) /\
      exists l, m_filters m = l ++ m_filters m) by (split_and!; [done|done|by exists []]).
    unfold sys_seccomp. cbv zeta. destruct (u32 a0) as [|p|p]; [| |done].
    + destruct (_ || _); [done|]. by apply strict_preserves.
    + destruct p as [p|p|]; [done| |by apply install_preserves]. destruct p as [p|p|]; try done.
      destruct (negb _); [done|]. destruct act as [act|]; [|done]. by destruct (existsb _ _).
  - unfold seccomp_prctl_set. destruct (mode =? MODE_STRICT); [by apply strict_preserves|].
    destruct (mode =? MODE_FILTER); [by apply install_preserves|]. split_and!; [done|done|by exists []].
  - split_and!; [exact Hi|done|by exists []].
Qed.
Lemma steps_preserve m m' : sec_steps m m' -> sec_inv m ->
  sec_inv m' /\ (m_mode m <> 0 -> m_mode m' = m_mode m) /\ exists l, m_filters m' = l ++ m_filters m.
Proof.
  intros Hs Hi. induction Hs as [m|m m' m'' _ IH Hst]; [split_and!; [done|done|by exists []]|].
  destruct (IH Hi) as (Hi' & Hm & l & Hl). destruct (step_preserves _ _ Hst Hi') as (Hi'' & Hm' & l' & Hl').
  split_and!; [done| |].
  - intros Hne. rewrite Hm'; rewrite Hm; done.
  - exists (l' ++ l). by rewrite Hl', Hl, app_assoc.
Qed.
Lemma sec_init_inv nnp root : sec_inv (sec_init nnp root).
Proof. split_and!; [left; auto|apply Forall_nil_2|done|done]. Qed.

(** C39: whatever the guest calls, in whatever order: the mode agrees with the
    chain (filters exactly in filter mode), every installed program is one the
    checker accepted with its converted length on record, the chain fits the
    kernel's budget, and the registry shows the current mode and count. *)
Theorem seccomp_reachable_inv nnp root m : sec_steps (sec_init nnp root) m -> sec_inv m.
Proof. intros Hs. by apply (steps_preserve _ _ Hs), sec_init_inv. Qed.

(** C40: the sandbox is one-way: once a mode is set no sequence of operations
    changes it, and no filter is ever removed or reordered. *)
Theorem seccomp_one_way nnp root m m' : sec_steps (sec_init nnp root) m -> sec_steps m m' ->
  (m_mode m <> 0 -> m_mode m' = m_mode m) /\ exists l, m_filters m' = l ++ m_filters m.
Proof.
  intros Hs Hs'. destruct (steps_preserve _ _ Hs (sec_init_inv nnp root)) as [Hi _].
  by destruct (steps_preserve _ _ Hs' Hi) as (_ & ? & ?).
Qed.

(** ** The gate *)
Definition suspended (tr : Tracer) : bool := tr_active tr && has (tr_options tr) O_SUSPEND_SECCOMP.

Lemma severity_nonneg v : 0 <= severity v.
Proof. unfold severity. apply Z.land_nonneg. right. done. Qed.
Lemma severity_zero_full v : severity v = 0 ->
  Z.land v RET_ACTION_FULL = 0 \/ Z.land v RET_ACTION_FULL = 0x80000000.
Proof.
  unfold severity, RET_ACTION. intros H0.
  replace (Z.land v RET_ACTION_FULL) with (Z.lor (Z.land v 0x7fff0000) (Z.land v (2 ^ 31)))
    by (rewrite <- Z.land_lor_distr_r; reflexivity).
  rewrite H0, Z.lor_0_l. destruct (Z.testbit v 31) eqn:E; [right|left]; apply Z.bits_inj'; intros n Hn;
    rewrite Z.land_spec, (Z.pow2_bits_eqb 31 n) by lia; destruct (Z.eqb_spec 31 n) as [<- |Hne].
  - by rewrite E.
  - change 0x80000000 with (2 ^ 31). rewrite Z.pow2_bits_eqb, andb_false_r by lia. lia.
  - by rewrite E, Z.bits_0.
  - by rewrite andb_false_r, Z.bits_0.
Qed.
Lemma chain_kills m d : Exists (fun p => severity (bpf_run (p_insns p) d) = 0) (m_filters m) ->
  severity (seccomp_run_chain m d) = 0.
Proof.
  intros (p & Hp & H0)%Exists_exists. destruct (chain_fold_spec (m_filters m) d RET_ALLOW) as (_ & Hall & _).
  rewrite Forall_forall in Hall. specialize (Hall p Hp). cbv beta zeta in Hall.
  pose proof (severity_nonneg (chain_fold (m_filters m) d RET_ALLOW)). unfold seccomp_run_chain. lia.
Qed.

(** One filter is enough to kill: in filter mode, when any filter of the
    chain answers KILL for a call, the call is never run, whatever the other
    filters answer and whatever a tracer would do (short of a suspension). *)
Theorem gate_any_kill_kills m tr report pc x nr args :
  m_mode m = MODE_FILTER -> suspended tr = false ->
  Exists (fun p => severity (bpf_run (p_insns p) (gate_data nr pc args)) = 0) (m_filters m) ->
  seccomp_gate m tr report pc x nr args = G_KILL SIGSYS.
Proof.
  intros Hm Hs Hk. unfold seccomp_gate, gate_judge. fold (suspended tr). rewrite Hs, Hm.
  cbn [Z.eqb MODE_FILTER MODE_STRICT Pos.eqb andb].
  by destruct (severity_zero_full _ (chain_kills m _ Hk)) as [-> | ->].
Qed.

(** Strict mode is final: once it is set, whatever the guest does next,
    every call but read, write, exit and rt_sigreturn kills it by SIGKILL. *)
Theorem strict_mode_final nnp root m m' tr report pc x nr args :
  sec_steps (sec_init nnp root) m -> m_mode m = MODE_STRICT -> sec_steps m m' -> suspended tr = false ->
  seccomp_gate m' tr report pc x nr args = if strict_allows nr then G_RUN else G_KILL SIGKILL.
Proof.
  intros Hs Hm Hs' Ht. destruct (steps_preserve _ _ Hs (sec_init_inv nnp root)) as [Hi _].
  destruct (steps_preserve _ _ Hs' Hi) as (_ & Hm' & _). rewrite Hm in Hm'. specialize (Hm' ltac:(done)).
  unfold seccomp_gate, gate_judge. fold (suspended tr). rewrite Ht, Hm'. cbn [Z.eqb MODE_STRICT Pos.eqb andb].
  by destruct (strict_allows nr).
Qed.

(** ** The budget *)
Fixpoint install_times (n : nat) (m : Machine) (flags : Z) (a : InstallArgs) : list Z * Machine :=
  match n with
  | O => ([], m)
  | S k => let '(rs, m1) := install_times k m flags a in
           let '(r, m2) := seccomp_install m1 flags a in (rs ++ [r], m2)
  end.
(** The guest program [RET k], alone. *)
Definition ret_k (k : Z) : InstallArgs := mkInstall (Some 1) true (Some (fun _ => mkFilter 0x06 0 0 k)).

(** How many one-instruction filters fit: [5 + 9 * n <= 32768]. *)
Definition ret_k_max : nat := Z.to_nat 3641.
Lemma ret_k_max_eq : Z.of_nat ret_k_max = 3641.
Proof. unfold ret_k_max. lia. Qed.
#[local] Opaque ret_k_max.

Lemma chain_total_replicate p n t : p_elen p = 5 -> 0 <= t -> t + 9 * Z.of_nat n < 2 ^ 64 ->
  chain_total t (replicate n p) = t + 9 * Z.of_nat n.
Proof.
  intros Hp. revert t. induction n as [|n IH]; intros t Ht Hb; cbn [replicate chain_total]; [lia|].
  rewrite Hp, u64_small by (unfold fits; lia). rewrite IH; lia.
Qed.
Lemma install_ret_k m n k : m_no_new_privs m = true -> (m_mode m = 0 \/ m_mode m = MODE_FILTER) ->
  (n <= ret_k_max)%nat -> m_filters m = replicate n (mkProg 5 [mkFilter 0x06 0 0 k]) ->
  seccomp_install m 0 (ret_k k) =
    if (n <? ret_k_max)%nat
    then (0, enter_mode m (replicate (S n) (mkProg 5 [mkFilter 0x06 0 0 k])) MODE_FILTER)
    else (- ENOMEM, m).
Proof.
  intros Hn Hm Hle Hf. unfold seccomp_install, ret_k. pose proof ret_k_max_eq.
  cbn [ia_len ia_malloc ia_insns]. change (map _ (seq 0 (Z.to_nat 1))) with [mkFilter 0x06 0 0 k].
  assert (Hmay : may_assign_mode m MODE_FILTER = true) by (unfold may_assign_mode; destruct Hm as [-> | ->]; done).
  rewrite Hn. change (bpf_validate [mkFilter 6 0 0 k]) with 0. change (ebpf_len [mkFilter 6 0 0 k]) with 5.
  rewrite Hmay. cbn [negb andb orb p_elen Z.ltb Z.compare].
  unfold chain_has_room, MAX_INSNS_PER_PATH. rewrite Hf, chain_total_replicate by (done || lia).
  destruct (Nat.ltb_spec n ret_k_max), (Z.leb_spec (5 + 9 * Z.of_nat n) 32768); try lia; reflexivity.
Qed.
(** The machine with [n] of them installed. *)
Definition ret_k_machine (k : Z) (root : bool) (n : nat) : Machine :=
  match n with
  | O => sec_init true root
  | _ => mkMachine MODE_FILTER (replicate n (mkProg 5 [mkFilter 0x06 0 0 k])) true root (MODE_FILTER, Z.of_nat n)
  end.
Lemma install_ret_k_step k root n : (n <= ret_k_max)%nat ->
  seccomp_install (ret_k_machine k root n) 0 (ret_k k) =
    if (n <? ret_k_max)%nat then (0, ret_k_machine k root (S n)) else (- ENOMEM, ret_k_machine k root n).
Proof.
  intros Hn. rewrite (install_ret_k _ n) by (destruct n; done || lia || (by left) || by right).
  unfold enter_mode. rewrite length_replicate. by destruct n.
Qed.
Lemma install_times_ret_k k root n :
  install_times n (sec_init true root) 0 (ret_k k) =
    (replicate (n `min` ret_k_max) 0 ++ replicate (n - ret_k_max) (- ENOMEM),
     ret_k_machine k root (n `min` ret_k_max)).
Proof.
  induction n as [|n IH]; [by rewrite Nat.min_0_l|]. cbn [install_times]. rewrite IH.
  rewrite install_ret_k_step by lia. destruct (Nat.ltb_spec (n `min` ret_k_max) ret_k_max) as [Hlt|Hge].
  - replace (S n `min` ret_k_max)%nat with (S n) by lia. replace (n `min` ret_k_max)%nat with n by lia.
    replace (n - ret_k_max)%nat with 0%nat by lia. replace (S n - ret_k_max)%nat with 0%nat by lia.
    rewrite replicate_S_end. cbn [replicate]. by rewrite !app_nil_r.
  - replace (S n `min` ret_k_max)%nat with (n `min` ret_k_max)%nat by lia.
    replace (S n - ret_k_max)%nat with (S (n - ret_k_max)) by lia.
    by rewrite replicate_S_end, app_assoc.
Qed.

(** The chain's budget is the kernel's: a guest that keeps installing a
    one-instruction filter succeeds 3641 times and gets ENOMEM from then on,
    however often it tries. *)
Theorem ret_k_budget k root n :
  fst (install_times n (sec_init true root) 0 (ret_k k)) =
    replicate (n `min` Z.to_nat 3641) 0 ++ replicate (n - Z.to_nat 3641) (- ENOMEM).
Proof. by rewrite install_times_ret_k. Qed.

(** ** Instances *)

(** A filter that lets read through and kills on every other call. *)
Definition read_only : list GSockFilter :=
  [mkFilter 0x20 0 0 0; mkFilter 0x15 0 1 63; mkFilter 0x06 0 0 RET_ALLOW; mkFilter 0x06 0 0 0].
Definition read_only_args : InstallArgs :=
  mkInstall (Some 4) true (Some (fun i => default (mkFilter 0x06 0 0 0) (read_only !! i))).
Definition no_tracer : Tracer := mkTracer false 0.
Definition no_report : Report := fun _ x => (x, 0, no_tracer).

Lemma read_only_wf : Forall filter_wf read_only.
Proof. unfold read_only. repeat (apply Forall_cons_2; [vm_compute; intuition discriminate|]). apply Forall_nil_2. Qed.
Lemma read_only_args_wf : install_wf read_only_args.
Proof.
  intros i. destruct (read_only !! i) as [f|] eqn:E; cbn [default]; [|vm_compute; intuition discriminate].
  by apply (Forall_lookup_1 _ _ _ _ read_only_wf E).
Qed.
Definition sandboxed : Machine := snd (sys_seccomp (sec_init true false) 1 0 0 read_only_args None).
Definition stricted : Machine := snd (seccomp_prctl_set (sec_init false false) 1 read_only_args).
Lemma reach_sandboxed : sec_steps (sec_init true false) sandboxed.
Proof. eapply steps_next; [apply steps_refl|]. apply step_seccomp, read_only_args_wf. Qed.
Definition sandboxed2 : Machine := snd (seccomp_prctl_set sandboxed 2 (ret_k RET_LOG)).
Lemma reach_sandboxed2 : sec_steps sandboxed sandboxed2.
Proof.
  eapply steps_next; [apply steps_refl|]. apply step_prctl. intros i. vm_compute. intuition discriminate.
Qed.
Lemma reach_stricted : sec_steps (sec_init false false) stricted.
Proof. eapply steps_next; [apply steps_refl|]. apply step_prctl, read_only_args_wf. Qed.

Lemma bpf_validated_answers_witness : exists v,
  bpf_end read_only (gate_data 64 0 [1; 2; 3; 4; 5; 6]) = EndRet v /\
  bpf_run read_only (gate_data 64 0 [1; 2; 3; 4; 5; 6]) = v /\ fits 32 v.
Proof. apply bpf_validated_answers; [reflexivity|exact read_only_wf|reflexivity]. Defined.
Lemma install_tightens_witness : tail (m_filters sandboxed) = [] /\
  severity (seccomp_run_chain sandboxed (gate_data 64 0 [1; 2; 3; 4; 5; 6])) <= severity RET_ALLOW.
Proof.
  apply (install_tightens (sec_init true false) 0 read_only_args sandboxed). vm_compute. reflexivity.
Defined.
Lemma seccomp_reachable_inv_witness : m_mode sandboxed = MODE_FILTER /\ sec_inv sandboxed.
Proof. split; [reflexivity|]. apply (seccomp_reachable_inv true false), reach_sandboxed. Defined.
Lemma seccomp_one_way_witness : (m_mode sandboxed <> 0 -> m_mode sandboxed2 = m_mode sandboxed) /\
  exists l, m_filters sandboxed2 = l ++ m_filters sandboxed.
Proof. apply (seccomp_one_way true false); [exact reach_sandboxed|exact reach_sandboxed2]. Defined.
Lemma gate_any_kill_kills_witness :
  seccomp_gate sandboxed no_tracer no_report 0 [] 64 [1; 2; 3; 4; 5; 6] = G_KILL SIGSYS.
Proof.
  apply gate_any_kill_kills; [reflexivity|reflexivity|]. apply Exists_cons_hd. vm_compute. reflexivity.
Defined.
Lemma strict_mode_final_witness :
  seccomp_gate stricted no_tracer no_report 0 [] 56 [] = G_KILL SIGKILL.
Proof.
  apply (strict_mode_final false false stricted stricted no_tracer no_report 0 [] 56 []);
    [exact reach_stricted|reflexivity|apply steps_refl|reflexivity].
Defined.
