(* ===== verification/Ipc.v ===== *)
(** * Ipc: the System V IPC broker (proctab.c)

    The session daemon's semaphore sets, message queues, shared segments,
    SEM_UNDO rows and parked waiters. A static array with a [used] flag is a
    list of options, one entry per slot; [free] and [memset] of a slot make it
    [None]. A queue's linked list is a list; its counters are kept beside it,
    as in the code. What the daemon learns from outside in one request or tick
    (the clocks, /proc start times, whether allocations and descriptors could
    be had) is [IpcEnv]; what it sends is appended to [bk_out]. *)

From S2P Require Import Prelude Types Cpu MemSeam.

(** ** Constants *)
Definition SEM_SET_MAX : nat := 1024.
Definition MSG_QUEUE_MAX : nat := 1024.
Definition SEM_UNDO_MAX : nat := 4096.
Definition IPC_WAITER_MAX : nat := 512.
Definition SHM_SEG_MAX : nat := 1024.
Definition SHM_ATT_TRACK : nat := 32.
Definition SHM_LOCK_USERS : nat := 64.
Definition BROKER_SEMNSEMS : Z := -100.

Definition G_IPC_CREAT : Z := 0x200.
Definition G_IPC_EXCL : Z := 0x400.
Definition G_IPC_NOWAIT : Z := 0x800.
Definition G_IPC_RMID : Z := 0.
Definition G_IPC_SET : Z := 1.
Definition G_IPC_STAT : Z := 2.
Definition G_IPC_INFO : Z := 3.
Definition G_SHM_LOCK : Z := 11.
Definition G_SHM_UNLOCK : Z := 12.
Definition G_SHM_STAT : Z := 13.
Definition G_SHM_INFO : Z := 14.
Definition G_SHM_STAT_ANY : Z := 15.
Definition G_GETPID : Z := 11.
Definition G_GETVAL : Z := 12.
Definition G_GETALL : Z := 13.
Definition G_GETNCNT : Z := 14.
Definition G_GETZCNT : Z := 15.
Definition G_SETVAL : Z := 16.
Definition G_SETALL : Z := 17.
Definition G_SEM_STAT : Z := 18.
Definition G_SEM_INFO : Z := 19.
Definition G_SEM_STAT_ANY : Z := 20.
Definition G_SEM_UNDO : Z := 0x1000.
Definition G_SEMVMX : Z := 32767.
Definition G_SEMAEM : Z := 32767.
Definition G_SEMMSL : Z := 32000.
Definition G_SEMOPM : Z := 500.
Definition G_MSG_STAT : Z := 11.
Definition G_MSG_INFO : Z := 12.
Definition G_MSG_STAT_ANY : Z := 13.
Definition G_MSG_NOERROR : Z := 0x1000.
Definition G_MSG_EXCEPT : Z := 0x2000.
Definition G_MSGMAX : Z := 8192.
Definition G_MSGMNB : Z := 16384.
Definition G_SHM_LOCKED : Z := 0x400.

Module IpcErr.
Definition EPERM : Z := 1.
Definition ENOENT : Z := 2.
Definition EINTR : Z := 4.
Definition E2BIG : Z := 7.
Definition EAGAIN : Z := 11.
Definition EEXIST : Z := 17.
Definition EFBIG : Z := 27.
Definition ENOSPC : Z := 28.
Definition ERANGE : Z := 34.
Definition ENOMSG : Z := 42.
Definition EIDRM : Z := 43.
End IpcErr.
Import IpcErr.

(** [BReq.op], the requests of this component. *)
Inductive ReqOp :=
  | REQ_SHMGET | REQ_SHMAT | REQ_SHMDT | REQ_SHMFORK | REQ_SHMCTL
  | REQ_SEMGET | REQ_SEMOP | REQ_SEMCTL | REQ_SEMEXIT
  | REQ_MSGGET | REQ_MSGSND | REQ_MSGRCV | REQ_MSGCTL.

(** ** State *)
Record GSembuf := mkSop { sem_num : Z; sem_op : Z; sem_flg : Z }.
Record Perm := mkPerm { p_mode : Z; p_uid : Z; p_gid : Z; p_cuid : Z; p_cgid : Z }.
Record SemSet := mkSet {
  ss_id : Z; ss_key : Z; ss_nsems : Z; ss_perm : Perm;
  ss_otime : Z; ss_ctime : Z; ss_val : list Z; ss_lpid : list Z; ss_cpid : Z; ss_tpid : Z
}.
Record SemUndo := mkUndo { su_pid : Z; su_start : Z; su_semid : Z; su_adj : list Z }.
Record GMsg := mkMsg { gm_type : Z; gm_size : Z; gm_data : list Z }.
Record MsgQ := mkQ {
  mq_id : Z; mq_key : Z; mq_perm : Perm; mq_stime : Z; mq_rtime : Z; mq_ctime : Z;
  mq_cbytes : Z; mq_qnum : Z; mq_qbytes : Z; mq_lspid : Z; mq_lrpid : Z; mq_cpid : Z; mq_tpid : Z;
  mq_msgs : list GMsg
}.
(** What a parked connection waits for. *)
Inductive Parked :=
  | ParkSem (sops : list GSembuf) (blk : Z)
  | ParkSnd (m : GMsg)
  | ParkRcv (msgtyp msgsz msgflg : Z).
Record Waiter := mkWaiter {
  wt_cfd : Z; wt_id : Z; wt_pid : Z; wt_start : Z; wt_seq : Z; wt_deadline : Z; wt_op : Parked
}.
Record SegAtt := mkAtt { sa_pid : Z; sa_start : Z; sa_n : Z }.
Record Seg := mkSeg {
  sg_id : Z; sg_key : Z; sg_size : Z; sg_perm : Perm; sg_cpid : Z; sg_lpid : Z;
  sg_atime : Z; sg_dtime : Z; sg_ctime : Z; sg_memfd : Z; sg_nattch : Z; sg_rmid : bool;
  sg_att : list SegAtt; sg_locked : bool; sg_lock_uid : Z
}.

(** The fields of [BResp]. *)
Record BResp := mkResp {
  r_ret : Z; r_key : Z; r_size : Z; r_nattch : Z; r_perm : Perm; r_cpid : Z; r_lpid : Z;
  r_atime : Z; r_dtime : Z; r_ctime : Z; r_info_used : Z; r_info_tot : Z; r_cbytes : Z; r_mtype : Z
}.
(** A reply on connection [o_cfd] with the bytes or values that follow it and
    the descriptor that rides along (-1: none). *)
Record Out := mkOut { o_cfd : Z; o_resp : BResp; o_payload : list Z; o_fd : Z }.

(** The fields of [BReq] and what the peer streams after it. *)
Record BReq := mkReq {
  q_op : ReqOp; q_key : Z; q_size : Z; q_id : Z; q_arg : Z; q_pid : Z; q_uid : Z; q_gid : Z;
  q_set_mode : Z; q_set_uid : Z; q_set_gid : Z; q_semnum : Z; q_val : Z; q_mtype : Z;
  q_timeout : Z; q_memlock : Z; q_ruid : Z; q_caplock : bool;
  q_sops : list GSembuf; q_vals : list Z; q_data : list Z
}.
Record IpcEnv := mkIpcEnv {
  e_time : Z;                       (* time(NULL) *)
  e_mono : Z;                       (* mono_ms() *)
  e_start : Z -> Z;                 (* proc_starttime *)
  e_mem : bool;                     (* the request's malloc or calloc succeeds *)
  e_undo_mem : Z -> Z -> bool;      (* calloc of the undo row of (pid, set) *)
  e_backing : Z                     (* shm_make_backing: a descriptor or -1 *)
}.

Record Broker := mkBroker {
  bk_sem : list (option SemSet); bk_undo : list (option SemUndo);
  bk_msq : list (option MsgQ); bk_wait : list (option Waiter); bk_seg : list (option Seg);
  bk_shmlock : list (Z * Z);        (* g_shmlock: uid, pages *)
  bk_next_sem : Z; bk_next_msq : Z; bk_next_shm : Z; bk_wait_seq : Z;
  bk_nwait : Z; bk_nundo : Z; bk_out : list Out
}.

(** ** Slots *)

(** The first slot that holds an [x] with [p x], and the first free one. *)
Fixpoint find_slot {A} (p : A -> bool) (l : list (option A)) : option (nat * A) :=
  match l with
  | [] => None
  | o :: r =>
      match o with
      | Some x => if p x then Some (O, x) else option_map (fun ix => (S (fst ix), snd ix)) (find_slot p r)
      | None => option_map (fun ix => (S (fst ix), snd ix)) (find_slot p r)
      end
  end.
Fixpoint empty_slot {A} (l : list (option A)) : option nat :=
  match l with
  | [] => None
  | None :: _ => Some O
  | Some _ :: r => option_map S (empty_slot r)
  end.
Definition used {A} (o : option A) : bool := if o then true else false.

(** Element [i] of a C array held as a list. *)
Definition at_z (l : list Z) (i : Z) : Z := nth (Z.to_nat i) l 0.
Definition put_z (l : list Z) (i v : Z) : list Z := <[Z.to_nat i := v]> l.

Definition set_sem f b := mkBroker (f (bk_sem b)) (bk_undo b) (bk_msq b) (bk_wait b) (bk_seg b) (bk_shmlock b)
  (bk_next_sem b) (bk_next_msq b) (bk_next_shm b) (bk_wait_seq b) (bk_nwait b) (bk_nundo b) (bk_out b).
Definition set_undo f dn b := mkBroker (bk_sem b) (f (bk_undo b)) (bk_msq b) (bk_wait b) (bk_seg b) (bk_shmlock b)
  (bk_next_sem b) (bk_next_msq b) (bk_next_shm b) (bk_wait_seq b) (bk_nwait b) (bk_nundo b + dn) (bk_out b).
Definition set_msq f b := mkBroker (bk_sem b) (bk_undo b) (f (bk_msq b)) (bk_wait b) (bk_seg b) (bk_shmlock b)
  (bk_next_sem b) (bk_next_msq b) (bk_next_shm b) (bk_wait_seq b) (bk_nwait b) (bk_nundo b) (bk_out b).
Definition set_wait f dn ds b := mkBroker (bk_sem b) (bk_undo b) (bk_msq b) (f (bk_wait b)) (bk_seg b) (bk_shmlock b)
  (bk_next_sem b) (bk_next_msq b) (bk_next_shm b) (bk_wait_seq b + ds) (bk_nwait b + dn) (bk_nundo b) (bk_out b).
Definition set_seg f b := mkBroker (bk_sem b) (bk_undo b) (bk_msq b) (bk_wait b) (f (bk_seg b)) (bk_shmlock b)
  (bk_next_sem b) (bk_next_msq b) (bk_next_shm b) (bk_wait_seq b) (bk_nwait b) (bk_nundo b) (bk_out b).
Definition set_shmlock f b := mkBroker (bk_sem b) (bk_undo b) (bk_msq b) (bk_wait b) (bk_seg b) (f (bk_shmlock b))
  (bk_next_sem b) (bk_next_msq b) (bk_next_shm b) (bk_wait_seq b) (bk_nwait b) (bk_nundo b) (bk_out b).
Definition set_next s m h b := mkBroker (bk_sem b) (bk_undo b) (bk_msq b) (bk_wait b) (bk_seg b) (bk_shmlock b)
  s m h (bk_wait_seq b) (bk_nwait b) (bk_nundo b) (bk_out b).
Definition send o b := mkBroker (bk_sem b) (bk_undo b) (bk_msq b) (bk_wait b) (bk_seg b) (bk_shmlock b)
  (bk_next_sem b) (bk_next_msq b) (bk_next_shm b) (bk_wait_seq b) (bk_nwait b) (bk_nundo b) (bk_out b ++ [o]).

(** [memset] of a reply, and one that only carries [ret]. *)
Definition no_perm : Perm := mkPerm 0 0 0 0 0.
Definition resp (ret : Z) : BResp := mkResp ret 0 0 0 no_perm 0 0 0 0 0 0 0 0 0.

(** ** Lookup *)
Definition sem_find (semid : Z) (b : Broker) : option (nat * SemSet) :=
  if semid <=? 0 then None else find_slot (fun s => ss_id s =? semid) (bk_sem b).
Definition msg_find (msqid : Z) (b : Broker) : option (nat * MsgQ) :=
  if msqid <=? 0 then None else find_slot (fun q => mq_id q =? msqid) (bk_msq b).
Definition shm_find (shmid : Z) (b : Broker) : option (nat * Seg) :=
  if shmid <=? 0 then None else find_slot (fun s => sg_id s =? shmid) (bk_seg b).

(** The id counters: [id = next++; if (next <= 0) next = 1], at most [n] tries
    for an id that nothing has.  The counter is a 32-bit [int]. *)
Definition bump (next : Z) : Z := if s32 (next + 1) <=? 0 then 1 else s32 (next + 1).
Fixpoint alloc_id (n : nat) (taken : Z -> bool) (next : Z) : option Z * Z :=
  match n with
  | O => (None, next)
  | S k => if (0 <? next) && negb (taken next) then (Some next, bump next)
           else alloc_id k taken (bump next)
  end.
Definition sem_alloc_id (b : Broker) : option Z * Broker :=
  let '(id, n) := alloc_id (SEM_SET_MAX * 4) (fun i => used (sem_find i b)) (bk_next_sem b) in
  (id, set_next n (bk_next_msq b) (bk_next_shm b) b).
Definition msg_alloc_id (b : Broker) : option Z * Broker :=
  let '(id, n) := alloc_id (MSG_QUEUE_MAX * 4) (fun i => used (msg_find i b)) (bk_next_msq b) in
  (id, set_next (bk_next_sem b) n (bk_next_shm b) b).
Definition shm_alloc_id (b : Broker) : option Z * Broker :=
  let '(id, n) := alloc_id (SHM_SEG_MAX * 4) (fun i => used (shm_find i b)) (bk_next_shm b) in
  (id, set_next (bk_next_sem b) (bk_next_msq b) n b).

(** ** Permissions *)
Definition ipc_access (p : Perm) (uid gid req : Z) : bool :=
  if uid =? 0 then true else
  let have := if (uid =? p_uid p) || (uid =? p_cuid p) then Z.land (Z.shiftr (p_mode p) 6) 7
              else if (gid =? p_gid p) || (gid =? p_cgid p) then Z.land (Z.shiftr (p_mode p) 3) 7
              else Z.land (p_mode p) 7 in
  Z.ldiff req have =? 0.
Definition ipc_owner (p : Perm) (uid : Z) : bool :=
  (uid =? 0) || (uid =? p_uid p) || (uid =? p_cuid p).
(** IPC_SET on the permission fields. *)
Definition perm_set (q : BReq) (p : Perm) : Perm :=
  mkPerm (Z.lor (Z.ldiff (p_mode p) 0x1ff) (Z.land (q_set_mode q) 0x1ff)) (q_set_uid q) (q_set_gid q)
         (p_cuid p) (p_cgid p).
Definition new_perm (q : BReq) : Perm :=
  mkPerm (Z.land (q_arg q) 0x1ff) (q_uid q) (q_gid q) (q_uid q) (q_gid q).

(** ** Undo rows *)
Definition undo_is (pid semid : Z) (u : SemUndo) : bool := (su_pid u =? pid) && (su_semid u =? semid).
(** [sem_undo_find] with [create]: the row of (pid, set). *)
Definition sem_undo_find (e : IpcEnv) (pid : Z) (s : SemSet) (b : Broker) : option nat * Broker :=
  match find_slot (undo_is pid (ss_id s)) (bk_undo b) with
  | Some (i, _) => (Some i, b)
  | None =>
      match empty_slot (bk_undo b) with
      | None => (None, b)
      | Some i =>
          if e_undo_mem e pid (ss_id s) then
            (Some i, set_undo <[i := Some (mkUndo pid (e_start e pid) (ss_id s)
                                             (replicate (Z.to_nat (ss_nsems s)) 0))]> 1 b)
          else (None, b)
      end
  end.
Definition undo_adj (b : Broker) (i : nat) : list Z :=
  match bk_undo b !! i with Some (Some u) => su_adj u | _ => [] end.
Definition upd_undo (i : nat) (f : list Z -> list Z) (b : Broker) : Broker :=
  set_undo (alter (option_map (fun u => mkUndo (su_pid u) (su_start u) (su_semid u) (f (su_adj u)))) i) 0 b.
Definition sem_undo_free (i : nat) (b : Broker) : Broker := set_undo <[i := None]> (-1) b.
(** [sem_undo_clear]; [None] is -1, every semaphore. *)
Definition sem_undo_clear (semid : Z) (semnum : option Z) (b : Broker) : Broker :=
  match sem_find semid b with
  | None => b
  | Some (_, s) =>
      set_undo (map (option_map (fun u =>
        if su_semid u =? semid then
          mkUndo (su_pid u) (su_start u) (su_semid u)
            (match semnum with
             | None => replicate (length (su_adj u)) 0
             | Some n => if n <? ss_nsems s then put_z (su_adj u) n 0 else su_adj u
             end)
        else u))) 0 b
  end.
(** The loop of [sem_undo_apply] from semaphore [i] on: values and last pids,
    and whether one was touched. *)
Fixpoint undo_apply_loop (pid : Z) (adj vals lpids : list Z) : list Z * list Z * bool :=
  match adj, vals, lpids with
  | a :: adj', v :: vals', l :: lpids' =>
      let '(vs, ls, t) := undo_apply_loop pid adj' vals' lpids' in
      if a =? 0 then (v :: vs, l :: ls, t)
      else (u16 (Z.min (Z.max (v + a) 0) G_SEMVMX) :: vs, pid :: ls, true)
  | _, _, _ => (vals, lpids, false)
  end.
Definition upd_set (i : nat) (s : SemSet) (b : Broker) : Broker := set_sem <[i := Some s]> b.
Definition sem_undo_apply (e : IpcEnv) (i : nat) (u : SemUndo) (b : Broker) : Broker :=
  let b := match sem_find (su_semid u) b with
           | None => b
           | Some (k, s) =>
               let '(vs, ls, t) := undo_apply_loop (su_pid u) (su_adj u) (ss_val s) (ss_lpid s) in
               upd_set k (mkSet (ss_id s) (ss_key s) (ss_nsems s) (ss_perm s)
                            (if t then e_time e else ss_otime s) (ss_ctime s) vs ls (ss_cpid s) (ss_tpid s)) b
           end in
  sem_undo_free i b.
Definition is_row (semid : Z) (o : option SemUndo) : bool :=
  match o with Some u => su_semid u =? semid | None => false end.
(** [sem_free_set]: the set's undo rows die with it. *)
Definition sem_free_set (i : nat) (s : SemSet) (b : Broker) : Broker :=
  let gone := Z.of_nat (length (List.filter (is_row (ss_id s)) (bk_undo b))) in
  set_sem <[i := None]> (set_undo (map (fun o => if is_row (ss_id s) o then None else o)) (- gone) b).

(** ** Semaphore operations *)

(** How the loop over the vector ended. *)
Inductive SemEnd := SemDone | SemBlock | SemErr (e : Z).

(** The loop of [sem_try_op] on the values [vals]: [u] is the undo row once
    one was needed, [i] the index of the operation. *)
Fixpoint sem_loop (e : IpcEnv) (pid : Z) (s : SemSet) (ops : list GSembuf) (i : Z)
    (vals : list Z) (u : option nat) (b : Broker) : SemEnd * Z * list Z * option nat * Broker :=
  match ops with
  | [] => (SemDone, i, vals, u, b)
  | op :: rest =>
      let old := at_z vals (sem_num op) in
      let v := old + sem_op op in
      if ((sem_op op =? 0) && negb (old =? 0)) || (v <? 0) then
        (if has (sem_flg op) G_IPC_NOWAIT then SemErr EAGAIN else SemBlock, i, vals, u, b)
      else if G_SEMVMX <? v then (SemErr ERANGE, i, vals, u, b)
      else if has (sem_flg op) G_SEM_UNDO then
        let '(u, b) := match u with Some k => (Some k, b) | None => sem_undo_find e pid s b end in
        match u with
        | None => (SemErr ENOMEM, i, vals, None, b)
        | Some k =>
            let adj := at_z (undo_adj b k) (sem_num op) - sem_op op in
            if (adj <? - G_SEMAEM - 1) || (G_SEMAEM <? adj) then (SemErr ERANGE, i, vals, u, b)
            else sem_loop e pid s rest (i + 1) (put_z vals (sem_num op) (u16 v)) u
                   (upd_undo k (fun l => put_z l (sem_num op) (s16 adj)) b)
        end
      else sem_loop e pid s rest (i + 1) (put_z vals (sem_num op) (u16 v)) u b
  end.

(** The rollback: [done] holds the applied operations, last first. *)
Fixpoint sem_rollback (done : list GSembuf) (vals : list Z) (u : option nat) (b : Broker) :
    list Z * Broker :=
  match done with
  | [] => (vals, b)
  | op :: rest =>
      let b := match u with
               | Some k => if has (sem_flg op) G_SEM_UNDO then
                             upd_undo k (fun l => put_z l (sem_num op) (s16 (at_z l (sem_num op) + sem_op op))) b
                           else b
               | None => b
               end in
      sem_rollback rest (put_z vals (sem_num op) (u16 (at_z vals (sem_num op) - sem_op op))) u b
  end.

Definition with_vals (vals : list Z) (s : SemSet) : SemSet :=
  mkSet (ss_id s) (ss_key s) (ss_nsems s) (ss_perm s) (ss_otime s) (ss_ctime s) vals (ss_lpid s)
        (ss_cpid s) (ss_tpid s).
(** [sem_try_op] on the set [s] of slot [si]: 0 (applied), 1 (would block) or a
    negative errno, and the index of the operation that blocks. *)
Definition sem_try_op (e : IpcEnv) (si : nat) (s : SemSet) (sops : list GSembuf) (pid blk : Z)
    (b : Broker) : Z * Z * Broker :=
  if existsb (fun op => ss_nsems s <=? sem_num op) sops then (- EFBIG, blk, b) else
  let '(r, i, vals, u, b) := sem_loop e pid s sops 0 (ss_val s) None b in
  match r with
  | SemDone =>
      let lpid := fold_left (fun l op => put_z l (sem_num op) pid) sops (ss_lpid s) in
      (0, blk, upd_set si (mkSet (ss_id s) (ss_key s) (ss_nsems s) (ss_perm s) (e_time e) (ss_ctime s)
                             vals lpid (ss_cpid s) pid) b)
  | _ =>
      let '(vals, b) := sem_rollback (rev (take (Z.to_nat i) sops)) vals u b in
      let b := upd_set si (with_vals vals s) b in
      match r with SemErr x => (- x, blk, b) | _ => (1, i, b) end
  end.

Definition ipc_found (q : BReq) (p : Perm) (small : bool) (id : Z) : Z :=
  if has (q_arg q) G_IPC_CREAT && has (q_arg q) G_IPC_EXCL then - EEXIST
  else if small then - EINVAL
  else if negb (ipc_access p (q_uid q) (q_gid q) 4) then - EACCES
  else id.

Definition sem_do_get (e : IpcEnv) (q : BReq) (b : Broker) : Z * Broker :=
  let nsems := q_size q in
  let create :=
    if (nsems =? 0) || (G_SEMMSL <? nsems) then (- EINVAL, b) else
    match empty_slot (bk_sem b) with
    | None => (- ENOSPC, b)
    | Some slot =>
        let '(id, b) := sem_alloc_id b in
        match id with
        | None => (- ENOSPC, b)
        | Some id =>
            if negb (e_mem e) then (- ENOMEM, b) else
            let zeros := replicate (Z.to_nat nsems) 0 in
            (id, upd_set slot (mkSet id (q_key q) nsems (new_perm q) 0 (e_time e) zeros zeros
                                 (q_pid q) (q_pid q)) b)
        end
    end in
  if q_key q =? 0 then create else
  match find_slot (fun s => ss_key s =? q_key q) (bk_sem b) with
  | Some (i, s) =>
      let r := ipc_found q (ss_perm s) (negb (nsems =? 0) && (ss_nsems s <? nsems)) (ss_id s) in
      (r, if r <? 0 then b
          else upd_set i (mkSet (ss_id s) (ss_key s) (ss_nsems s) (ss_perm s) (ss_otime s) (ss_ctime s)
                            (ss_val s) (ss_lpid s) (ss_cpid s) (q_pid q)) b)
  | None => if negb (has (q_arg q) G_IPC_CREAT) then (- ENOENT, b) else create
  end.

(** ** Message queues *)
Definition msg_do_get (e : IpcEnv) (q : BReq) (b : Broker) : Z * Broker :=
  let create :=
    match empty_slot (bk_msq b) with
    | None => (- ENOSPC, b)
    | Some slot =>
        let '(id, b) := msg_alloc_id b in
        match id with
        | None => (- ENOSPC, b)
        | Some id =>
            (id, set_msq <[slot := Some (mkQ id (q_key q) (new_perm q) 0 0 (e_time e) 0 0 G_MSGMNB 0 0
                                           (q_pid q) (q_pid q) [])]> b)
        end
    end in
  if q_key q =? 0 then create else
  match find_slot (fun m => mq_key m =? q_key q) (bk_msq b) with
  | Some (i, m) =>
      let r := ipc_found q (mq_perm m) false (mq_id m) in
      (r, if r <? 0 then b
          else set_msq <[i := Some (mkQ (mq_id m) (mq_key m) (mq_perm m) (mq_stime m) (mq_rtime m) (mq_ctime m)
                                      (mq_cbytes m) (mq_qnum m) (mq_qbytes m) (mq_lspid m) (mq_lrpid m)
                                      (mq_cpid m) (q_pid q) (mq_msgs m))]> b)
  | None => if negb (has (q_arg q) G_IPC_CREAT) then (- ENOENT, b) else create
  end.

Definition LONG_MIN : Z := - 2 ^ 63.
Definition LONG_MAX : Z := 2 ^ 63 - 1.
Definition msg_matches (m : GMsg) (msgtyp msgflg : Z) : bool :=
  if msgtyp =? 0 then true
  else if 0 <? msgtyp then
    if has msgflg G_MSG_EXCEPT then negb (gm_type m =? msgtyp) else gm_type m =? msgtyp
  else gm_type m <=? (if msgtyp =? LONG_MIN then LONG_MAX else - msgtyp).

(** The loop of [msg_pick] from position [k]; [best] is the choice so far. *)
Fixpoint pick_loop (msgtyp msgflg : Z) (l : list GMsg) (k : nat) (best : option (nat * GMsg)) :
    option (nat * GMsg) :=
  match l with
  | [] => best
  | m :: r =>
      if negb (msg_matches m msgtyp msgflg) then pick_loop msgtyp msgflg r (S k) best
      else if 0 <=? msgtyp then Some (k, m)
      else pick_loop msgtyp msgflg r (S k)
             (match best with
              | None => Some (k, m)
              | Some (_, m') => if gm_type m <? gm_type m' then Some (k, m) else best
              end)
  end.
Definition msg_pick (q : MsgQ) (msgtyp msgflg : Z) : option (nat * GMsg) :=
  pick_loop msgtyp msgflg (mq_msgs q) 0 None.

(** [msg_unlink] and the stamps every receiver writes after it. *)
Definition msg_take (e : IpcEnv) (k : nat) (m : GMsg) (pid : Z) (q : MsgQ) : MsgQ :=
  mkQ (mq_id q) (mq_key q) (mq_perm q) (mq_stime q) (e_time e) (mq_ctime q)
      (u64 (mq_cbytes q - gm_size m)) (u64 (mq_qnum q - 1)) (mq_qbytes q) (mq_lspid q) pid
      (mq_cpid q) pid (delete k (mq_msgs q)).
Definition msg_fits (q : MsgQ) (size : Z) : bool :=
  (u64 (mq_cbytes q + size) <=? mq_qbytes q) && (u64 (mq_qnum q + 1) <=? mq_qbytes q).
Definition msg_enqueue (e : IpcEnv) (m : GMsg) (pid : Z) (q : MsgQ) : MsgQ :=
  mkQ (mq_id q) (mq_key q) (mq_perm q) (e_time e) (mq_rtime q) (mq_ctime q)
      (u64 (mq_cbytes q + gm_size m)) (u64 (mq_qnum q + 1)) (mq_qbytes q) pid (mq_lrpid q)
      (mq_cpid q) pid (mq_msgs q ++ [m]).

(** ** Waiters *)
(** [waiter_free] closes the connection; [waiter_reply] answers first. *)
Definition waiter_free (i : nat) (b : Broker) : Broker := set_wait <[i := None]> (-1) 0 b.
Definition waiter_reply (i : nat) (w : Waiter) (r : BResp) (payload : list Z) (b : Broker) : Broker :=
  waiter_free i (send (mkOut (wt_cfd w) r payload (-1)) b).

(** [waiter_park]: the deadline is rounded up to milliseconds after a clamp
    that keeps the sum from overflowing. *)
Definition park_deadline (e : IpcEnv) (timeout : Z) : Z :=
  if 0 <=? timeout then
    let t := Z.min timeout (LONG_MAX - 1000000) in e_mono e + (t + 999999) / 1000000
  else -1.
Definition waiter_park (e : IpcEnv) (cfd : Z) (q : BReq) (op : Parked) (b : Broker) : bool * Broker :=
  match empty_slot (bk_wait b) with
  | None => (false, b)
  | Some i =>
      (true, set_wait <[i := Some (mkWaiter cfd (q_id q) (q_pid q) (e_start e (q_pid q)) (bk_wait_seq b)
                                     (park_deadline e (q_timeout q)) op)]> 1 1 b)
  end.

(** GETNCNT and GETZCNT: the parked semops that sleep on this semaphore. *)
Definition counts_on (semid semnum : Z) (zero : bool) (o : option Waiter) : bool :=
  match o with
  | Some w =>
      match wt_op w with
      | ParkSem sops blk =>
          (wt_id w =? semid) &&
          match nth_error sops (Z.to_nat blk) with
          | Some op => (sem_num op =? semnum) && (if zero then sem_op op =? 0 else sem_op op <? 0)
          | None => false
          end
      | _ => false
      end
  | None => false
  end.
Definition sem_count_waiters (semid semnum : Z) (zero : bool) (b : Broker) : Z :=
  Z.of_nat (length (List.filter (counts_on semid semnum zero) (bk_wait b))).

(** A scan of the waiter table from slot 0: [f] acts on each slot that is used
    when the scan comes to it. *)
Fixpoint scan_wait (n : nat) (i : nat) (f : nat -> Waiter -> Broker -> Broker) (b : Broker) : Broker :=
  match n with
  | O => b
  | S k => scan_wait k (S i) f (match bk_wait b !! i with Some (Some w) => f i w b | _ => b end)
  end.
Definition on_sem (w : Waiter) : bool := match wt_op w with ParkSem _ _ => true | _ => false end.
Definition waiters_eidrm (id : Z) (sem : bool) (b : Broker) : Broker :=
  scan_wait IPC_WAITER_MAX 0 (fun i w b =>
    if (wt_id w =? id) && Bool.eqb (on_sem w) sem then waiter_reply i w (resp (- EIDRM)) [] b else b) b.
Definition waiters_expire (now : Z) (b : Broker) : Broker :=
  scan_wait IPC_WAITER_MAX 0 (fun i w b =>
    if (wt_deadline w <? 0) || (now <? wt_deadline w) then b else waiter_reply i w (resp (- EAGAIN)) [] b) b.

(** What a receiver is sent for [m] with a buffer of [msgsz] bytes. *)
Definition grant_len (m : GMsg) (msgsz : Z) : Z := if gm_size m <=? msgsz then gm_size m else msgsz.
Definition grant_resp (m : GMsg) (msgsz : Z) : BResp :=
  mkResp (s32 (grant_len m msgsz)) 0 0 0 no_perm 0 0 0 0 0 0 0 0 (gm_type m).
Definition msg_grant_rcv (i : nat) (w : Waiter) (m : GMsg) (msgsz : Z) (b : Broker) : Broker :=
  waiter_reply i w (grant_resp m msgsz) (take (Z.to_nat (grant_len m msgsz)) (gm_data m)) b.

(** One waiter retried by [ipc_rescan]: whether it was answered. *)
Definition retry (e : IpcEnv) (i : nat) (w : Waiter) (b : Broker) : bool * Broker :=
  let gone := (true, waiter_reply i w (resp (- EIDRM)) [] b) in
  match wt_op w with
  | ParkSem sops blk =>
      match sem_find (wt_id w) b with
      | None => gone
      | Some (si, s) =>
          let '(t, blk, b) := sem_try_op e si s sops (wt_pid w) blk b in
          let w := mkWaiter (wt_cfd w) (wt_id w) (wt_pid w) (wt_start w) (wt_seq w) (wt_deadline w)
                            (ParkSem sops blk) in
          let b := set_wait <[i := Some w]> 0 0 b in
          if t =? 1 then (false, b) else (true, waiter_reply i w (resp t) [] b)
      end
  | ParkSnd m =>
      match msg_find (wt_id w) b with
      | None => gone
      | Some (k, q) =>
          if negb (msg_fits q (gm_size m)) then (false, b)
          else (true, waiter_reply i w (resp 0) [] (set_msq <[k := Some (msg_enqueue e m (wt_pid w) q)]> b))
      end
  | ParkRcv msgtyp msgsz msgflg =>
      match msg_find (wt_id w) b with
      | None => gone
      | Some (k, q) =>
          match msg_pick q msgtyp msgflg with
          | None => (false, b)
          | Some (j, m) =>
              if (msgsz <? gm_size m) && negb (has msgflg G_MSG_NOERROR) then
                (true, waiter_reply i w (resp (- E2BIG)) [] b)
              else (true, msg_grant_rcv i w m msgsz (set_msq <[k := Some (msg_take e j m (wt_pid w) q)]> b))
          end
      end
  end.

(** The waiter with the smallest arrival number above [last]. *)
Fixpoint next_waiter (last : Z) (l : list (option Waiter)) (i : nat) (best : option (nat * Waiter)) :
    option (nat * Waiter) :=
  match l with
  | [] => best
  | Some w :: r =>
      next_waiter last r (S i)
        (if (last <? wt_seq w) && match best with None => true | Some (_, w') => wt_seq w <? wt_seq w' end
         then Some (i, w) else best)
  | None :: r => next_waiter last r (S i) best
  end.
(** One pass over the waiters in arrival order, and the passes until one makes
    no progress.  The fuels are what the table allows: a pass visits each
    waiter once, and every pass but the last frees one. *)
Fixpoint rescan_pass (fuel : nat) (e : IpcEnv) (last : Z) (progress : bool) (b : Broker) : bool * Broker :=
  match fuel with
  | O => (progress, b)
  | S k =>
      match next_waiter last (bk_wait b) 0 None with
      | None => (progress, b)
      | Some (i, w) =>
          let '(p, b) := retry e i w b in rescan_pass k e (wt_seq w) (progress || p) b
      end
  end.
Fixpoint rescan_loop (fuel : nat) (e : IpcEnv) (b : Broker) : Broker :=
  match fuel with
  | O => b
  | S k =>
      if bk_nwait b =? 0 then b else
      let '(p, b) := rescan_pass (S IPC_WAITER_MAX) e 0 false b in
      if p then rescan_loop k e b else b
  end.
Definition ipc_rescan (e : IpcEnv) (b : Broker) : Broker := rescan_loop (S IPC_WAITER_MAX) e b.

(** ** semctl and msgctl *)
(** The count, highest index (-1: none) and total of the used slots. *)
Fixpoint slots_info {A} (size : A -> Z) (l : list (option A)) (i : Z) (acc : Z * Z * Z) : Z * Z * Z :=
  match l with
  | [] => acc
  | Some x :: r => let '(n, _, tot) := acc in slots_info size r (i + 1) (n + 1, i, u64 (tot + size x))
  | None :: r => slots_info size r (i + 1) acc
  end.
Definition info_resp (n tot bytes ret : Z) : BResp := mkResp ret 0 0 0 no_perm 0 0 0 0 0 n tot bytes 0.
Definition entry_at {A} (l : list (option A)) (idx : Z) : option A :=
  if idx <? 0 then None else match l !! Z.to_nat idx with Some o => o | None => None end.

Definition sem_fill_stat (ret : Z) (s : SemSet) : BResp :=
  mkResp ret (ss_key s) (ss_nsems s) 0 (ss_perm s) 0 0 (ss_otime s) 0 (ss_ctime s) 0 0 0 0.
(** The commands on one semaphore, after the range check of [semnum]. *)
Definition sem_ctl_one (e : IpcEnv) (q : BReq) (i : nat) (s : SemSet) (b : Broker) : Z * Broker :=
  let rd := ipc_access (ss_perm s) (q_uid q) (q_gid q) 4 in
  let wr := ipc_access (ss_perm s) (q_uid q) (q_gid q) 2 in
  let n := q_semnum q in
  let read v := (if rd then v else - EACCES, b) in
  if q_arg q =? G_GETVAL then read (at_z (ss_val s) n)
  else if q_arg q =? G_GETPID then read (at_z (ss_lpid s) n)
  else if q_arg q =? G_GETNCNT then read (sem_count_waiters (ss_id s) n false b)
  else if q_arg q =? G_GETZCNT then read (sem_count_waiters (ss_id s) n true b)
  else if q_arg q =? G_SETVAL then
    if negb wr then (- EACCES, b)
    else if (q_val q <? 0) || (G_SEMVMX <? q_val q) then (- ERANGE, b)
    else
      let b := upd_set i (mkSet (ss_id s) (ss_key s) (ss_nsems s) (ss_perm s) (ss_otime s) (ss_ctime s)
                            (put_z (ss_val s) n (u16 (q_val q))) (put_z (ss_lpid s) n (q_pid q))
                            (ss_cpid s) (ss_tpid s)) b in
      let b := sem_undo_clear (ss_id s) (Some n) b in
      (0, upd_set i (mkSet (ss_id s) (ss_key s) (ss_nsems s) (ss_perm s) (ss_otime s) (e_time e)
                       (put_z (ss_val s) n (u16 (q_val q))) (put_z (ss_lpid s) n (q_pid q))
                       (ss_cpid s) (q_pid q)) b)
  else (- EINVAL, b).
Definition sem_do_ctl (e : IpcEnv) (q : BReq) (b : Broker) : BResp * Broker :=
  if (q_arg q =? G_SEM_INFO) || (q_arg q =? G_IPC_INFO) then
    let '(n, maxidx, tot) := slots_info ss_nsems (bk_sem b) 0 (0, -1, 0) in
    (info_resp n tot 0 maxidx, b)
  else if (q_arg q =? G_SEM_STAT) || (q_arg q =? G_SEM_STAT_ANY) then
    match entry_at (bk_sem b) (q_id q) with
    | None => (resp (- EINVAL), b)
    | Some s =>
        if (q_arg q =? G_SEM_STAT) && negb (ipc_access (ss_perm s) (q_uid q) (q_gid q) 4)
        then (resp (- EACCES), b) else (sem_fill_stat (ss_id s) s, b)
    end
  else
  match sem_find (q_id q) b with
  | None => (resp (- EINVAL), b)
  | Some (i, s) =>
      let rd := ipc_access (ss_perm s) (q_uid q) (q_gid q) 4 in
      if q_arg q =? BROKER_SEMNSEMS then (resp (s32 (ss_nsems s)), b)
      else if q_arg q =? G_IPC_STAT then
        if rd then (sem_fill_stat 0 s, b) else (resp (- EACCES), b)
      else if q_arg q =? G_IPC_SET then
        if negb (ipc_owner (ss_perm s) (q_uid q)) then (resp (- EPERM), b)
        else (resp 0, upd_set i (mkSet (ss_id s) (ss_key s) (ss_nsems s) (perm_set q (ss_perm s)) (ss_otime s)
                                   (e_time e) (ss_val s) (ss_lpid s) (ss_cpid s) (ss_tpid s)) b)
      else if q_arg q =? G_IPC_RMID then
        if negb (ipc_owner (ss_perm s) (q_uid q)) then (resp (- EPERM), b)
        else (resp 0, sem_free_set i s (waiters_eidrm (ss_id s) true b))
      else if q_arg q =? G_GETALL then
        if rd then (mkResp 0 0 (ss_nsems s) 0 no_perm 0 0 0 0 0 0 0 0 0, b) else (resp (- EACCES), b)
      else if (q_semnum q <? 0) || (ss_nsems s <=? q_semnum q) then (resp (- EINVAL), b)
      else let '(r, b) := sem_ctl_one e q i s b in (resp r, b)
  end.

Definition msg_fill_stat (ret : Z) (q : MsgQ) : BResp :=
  mkResp ret (mq_key q) (mq_qbytes q) (mq_qnum q) (mq_perm q) (mq_lspid q) (mq_lrpid q)
         (mq_stime q) (mq_rtime q) (mq_ctime q) 0 0 (mq_cbytes q) 0.
Definition msg_do_ctl (e : IpcEnv) (q : BReq) (b : Broker) : BResp * Broker :=
  if (q_arg q =? G_MSG_INFO) || (q_arg q =? G_IPC_INFO) then
    let '(n, maxidx, msgs) := slots_info mq_qnum (bk_msq b) 0 (0, -1, 0) in
    let '(_, _, bytes) := slots_info mq_cbytes (bk_msq b) 0 (0, -1, 0) in
    (info_resp n msgs bytes maxidx, b)
  else if (q_arg q =? G_MSG_STAT) || (q_arg q =? G_MSG_STAT_ANY) then
    match entry_at (bk_msq b) (q_id q) with
    | None => (resp (- EINVAL), b)
    | Some m =>
        if (q_arg q =? G_MSG_STAT) && negb (ipc_access (mq_perm m) (q_uid q) (q_gid q) 4)
        then (resp (- EACCES), b) else (msg_fill_stat (mq_id m) m, b)
    end
  else
  match msg_find (q_id q) b with
  | None => (resp (- EINVAL), b)
  | Some (i, m) =>
      if q_arg q =? G_IPC_STAT then
        if ipc_access (mq_perm m) (q_uid q) (q_gid q) 4 then (msg_fill_stat 0 m, b) else (resp (- EACCES), b)
      else if q_arg q =? G_IPC_SET then
        if negb (ipc_owner (mq_perm m) (q_uid q)) then (resp (- EPERM), b)
        else if q_val q <? 0 then (resp (- EINVAL), b)
        else if (G_MSGMNB <? q_val q) && negb (q_uid q =? 0) then (resp (- EPERM), b)
        else (resp 0, set_msq <[i := Some (mkQ (mq_id m) (mq_key m) (perm_set q (mq_perm m)) (mq_stime m)
                                             (mq_rtime m) (e_time e) (mq_cbytes m) (mq_qnum m) (q_val q)
                                             (mq_lspid m) (mq_lrpid m) (mq_cpid m) (mq_tpid m) (mq_msgs m))]> b)
      else if q_arg q =? G_IPC_RMID then
        if negb (ipc_owner (mq_perm m) (q_uid q)) then (resp (- EPERM), b)
        else (resp 0, set_msq <[i := None]> (waiters_eidrm (mq_id m) false b))
      else (resp (- EINVAL), b)
  end.

(** ** Shared memory *)
Definition upd_seg (i : nat) (s : Seg) (b : Broker) : Broker := set_seg <[i := Some s]> b.
Definition seg_pages (s : Seg) : Z := u64 (sg_size s + 4095) / 4096.
Fixpoint lock_row (uid : Z) (l : list (Z * Z)) (i : nat) : option nat :=
  match l with
  | [] => None
  | (u, p) :: r => if negb (p =? 0) && (u =? uid) then Some i else lock_row uid r (S i)
  end.
Fixpoint lock_free (l : list (Z * Z)) (i : nat) : option nat :=
  match l with
  | [] => None
  | (_, p) :: r => if p =? 0 then Some i else lock_free r (S i)
  end.
(** [shmlock_count]: the row of [uid], made if asked for; its pages. *)
Definition shmlock_count (uid : Z) (make : bool) (b : Broker) : option nat * Broker :=
  match lock_row uid (bk_shmlock b) 0 with
  | Some i => (Some i, b)
  | None =>
      if negb make then (None, b) else
      match lock_free (bk_shmlock b) 0 with
      | None => (None, b)
      | Some i => (Some i, set_shmlock (alter (fun up => (uid, snd up)) i) b)
      end
  end.
Definition lock_pages (b : Broker) (i : nat) : Z :=
  match bk_shmlock b !! i with Some up => snd up | None => 0 end.
Definition set_lock_pages (i : nat) (n : Z) (b : Broker) : Broker :=
  set_shmlock (alter (fun up => (fst up, n)) i) b.
Definition with_locked (locked : bool) (uid : Z) (s : Seg) : Seg :=
  mkSeg (sg_id s) (sg_key s) (sg_size s) (sg_perm s) (sg_cpid s) (sg_lpid s) (sg_atime s) (sg_dtime s)
        (sg_ctime s) (sg_memfd s) (sg_nattch s) (sg_rmid s) (sg_att s) locked uid.
(** [shm_unlock_charge] on the segment's fields; the caller stores them. *)
Definition shm_unlock_charge (s : Seg) (b : Broker) : Seg * Broker :=
  if negb (sg_locked s) then (s, b) else
  let '(n, b) := shmlock_count (sg_lock_uid s) false b in
  let b := match n with
           | None => b
           | Some i => let have := lock_pages b i in
                       set_lock_pages i (if seg_pages s <? have then have - seg_pages s else 0) b
           end in
  (with_locked false (sg_lock_uid s) s, b).
Definition shm_free (i : nat) (s : Seg) (b : Broker) : Broker :=
  let '(_, b) := shm_unlock_charge s b in set_seg <[i := None]> b.

Fixpoint att_index (pid : Z) (l : list SegAtt) (i : nat) : option nat :=
  match l with
  | [] => None
  | a :: r => if sa_pid a =? pid then Some i else att_index pid r (S i)
  end.
Definition add_n (d : Z) (a : SegAtt) : SegAtt := mkAtt (sa_pid a) (sa_start a) (u32 (sa_n a + d)).
(** [att[i] = att[--natt]]. *)
Definition swap_out {A} (i : nat) (l : list A) : list A :=
  match l !! (length l - 1)%nat with
  | Some x => let l' := removelast l in if (i <? length l')%nat then <[i := x]> l' else l'
  | None => l
  end.
Definition shm_att_add (e : IpcEnv) (pid : Z) (l : list SegAtt) : list SegAtt :=
  match att_index pid l 0 with
  | Some i => alter (add_n 1) i l
  | None => if (length l <? SHM_ATT_TRACK)%nat then l ++ [mkAtt pid (e_start e pid) 1] else l
  end.
Definition shm_att_del (pid : Z) (l : list SegAtt) : list SegAtt :=
  match att_index pid l 0 with
  | None => l
  | Some i =>
      let l := alter (add_n (-1)) i l in
      match l !! i with
      | Some a => if sa_n a =? 0 then swap_out i l else l
      | None => l
      end
  end.

Definition shm_permitted (s : Seg) (q : BReq) (need_w : bool) : bool :=
  ipc_access (sg_perm s) (q_uid q) (q_gid q) (if need_w then 6 else 4).
Definition shm_do_get (e : IpcEnv) (q : BReq) (b : Broker) : Z * Broker :=
  let create :=
    if q_size q =? 0 then (- EINVAL, b)
    else if 2 ^ 64 - 1 - 2 ^ 24 <? q_size q then (- EINVAL, b)
    else if GUEST_TASK_SIZE <? q_size q then (- ENOMEM, b)
    else
    match empty_slot (bk_seg b) with
    | None => (- ENOSPC, b)
    | Some slot =>
        let '(id, b) := shm_alloc_id b in
        match id with
        | None => (- ENOSPC, b)
        | Some id =>
            if e_backing e <? 0 then (- ENOSPC, b)
            else (id, upd_seg slot (mkSeg id (q_key q) (q_size q) (new_perm q) (q_pid q) 0 0 0 (e_time e)
                                      (e_backing e) 0 false [] false 0) b)
        end
    end in
  if q_key q =? 0 then create else
  match find_slot (fun s => sg_key s =? q_key q) (bk_seg b) with
  | Some (i, s) =>
      (ipc_found q (sg_perm s) (negb (q_size q =? 0) && (sg_size s <? q_size q)) (sg_id s), b)
  | None => if negb (has (q_arg q) G_IPC_CREAT) then (- ENOENT, b) else create
  end.

(** The attach count, the tracked attachers and a stamp. *)
Definition with_att (n : Z) (att : list SegAtt) (lpid atime dtime : Z) (s : Seg) : Seg :=
  mkSeg (sg_id s) (sg_key s) (sg_size s) (sg_perm s) (sg_cpid s) lpid atime dtime (sg_ctime s)
        (sg_memfd s) n (sg_rmid s) att (sg_locked s) (sg_lock_uid s).
(** [shm_do_at]: the reply and the descriptor that rides along. *)
Definition shm_do_at (e : IpcEnv) (q : BReq) (b : Broker) : BResp * Z * Broker :=
  match shm_find (q_id q) b with
  | None => (resp (- EINVAL), -1, b)
  | Some (i, s) =>
      if negb (shm_permitted s q (q_arg q =? 0)) then (resp (- EACCES), -1, b)
      else (mkResp 0 0 (sg_size s) 0 (mkPerm (if sg_locked s then G_SHM_LOCKED else 0) 0 0 0 0) 0 0 0 0 0 0 0 0 0,
            sg_memfd s,
            upd_seg i (with_att (u64 (sg_nattch s + 1)) (shm_att_add e (q_pid q) (sg_att s)) (q_pid q) (e_time e)
                         (sg_dtime s) s) b)
  end.
Definition shm_do_dt (e : IpcEnv) (q : BReq) (b : Broker) : Z * Broker :=
  match shm_find (q_id q) b with
  | None => (0, b)
  | Some (i, s) =>
      let n := if sg_nattch s =? 0 then 0 else sg_nattch s - 1 in
      let s := with_att n (shm_att_del (q_pid q) (sg_att s)) (q_pid q) (sg_atime s) (e_time e) s in
      let b := upd_seg i s b in
      (0, if sg_rmid s && (n =? 0) then shm_free i s b else b)
  end.
Definition shm_do_fork (e : IpcEnv) (q : BReq) (b : Broker) : Z * Broker :=
  match shm_find (q_id q) b with
  | None => (0, b)
  | Some (i, s) =>
      (0, upd_seg i (with_att (u64 (sg_nattch s + 1)) (shm_att_add e (q_pid q) (sg_att s)) (sg_lpid s) (sg_atime s)
                       (sg_dtime s) s) b)
  end.
Definition shm_fill_stat (ret : Z) (s : Seg) : BResp :=
  mkResp ret (sg_key s) (sg_size s) (sg_nattch s)
    (mkPerm (Z.lor (p_mode (sg_perm s)) (if sg_locked s then G_SHM_LOCKED else 0)) (p_uid (sg_perm s))
       (p_gid (sg_perm s)) (p_cuid (sg_perm s)) (p_cgid (sg_perm s)))
    (sg_cpid s) (sg_lpid s) (sg_atime s) (sg_dtime s) (sg_ctime s) 0 0 0 0.
(** SHM_LOCK and SHM_UNLOCK. *)
Definition shm_do_lock (q : BReq) (i : nat) (s : Seg) (b : Broker) : Z * Broker :=
  if negb (q_caplock q) && negb ((q_uid q =? p_uid (sg_perm s)) || (q_uid q =? p_cuid (sg_perm s))) then (- EPERM, b)
  else if negb (q_caplock q) && (q_arg q =? G_SHM_LOCK) && (q_memlock q =? 0) then (- EPERM, b)
  else if q_arg q =? G_SHM_UNLOCK then let '(s, b) := shm_unlock_charge s b in (0, upd_seg i s b)
  else if sg_locked s then (0, b)
  else
    let '(n, b) := shmlock_count (q_ruid q) true b in
    let have := match n with Some k => lock_pages b k | None => 0 end in
    if negb (q_caplock q) &&
       (negb (used n) || (negb (q_memlock q =? not64 0) && (q_memlock q / 4096 <? u64 (have + seg_pages s))))
    then (- ENOMEM, b)
    else
      let b := match n with Some k => set_lock_pages k (u64 (have + seg_pages s)) b | None => b end in
      (0, upd_seg i (with_locked true (q_ruid q) s) b).
Definition shm_do_ctl (e : IpcEnv) (q : BReq) (b : Broker) : BResp * Broker :=
  if (q_arg q =? G_SHM_INFO) || (q_arg q =? G_IPC_INFO) then
    let '(n, maxidx, tot) := slots_info seg_pages (bk_seg b) 0 (0, -1, 0) in
    (info_resp n tot 0 maxidx, b)
  else if (q_arg q =? G_SHM_STAT) || (q_arg q =? G_SHM_STAT_ANY) then
    match entry_at (bk_seg b) (q_id q) with
    | None => (resp (- EINVAL), b)
    | Some s =>
        if (q_arg q =? G_SHM_STAT) && negb (shm_permitted s q false) then (resp (- EACCES), b)
        else (shm_fill_stat (sg_id s) s, b)
    end
  else
  match shm_find (q_id q) b with
  | None => (resp (- EINVAL), b)
  | Some (i, s) =>
      if q_arg q =? G_IPC_STAT then
        if shm_permitted s q false then (shm_fill_stat 0 s, b) else (resp (- EACCES), b)
      else if q_arg q =? G_IPC_SET then
        if negb (ipc_owner (sg_perm s) (q_uid q)) then (resp (- EPERM), b)
        else (resp 0, upd_seg i (mkSeg (sg_id s) (sg_key s) (sg_size s) (perm_set q (sg_perm s)) (sg_cpid s)
                                   (sg_lpid s) (sg_atime s) (sg_dtime s) (e_time e) (sg_memfd s) (sg_nattch s)
                                   (sg_rmid s) (sg_att s) (sg_locked s) (sg_lock_uid s)) b)
      else if q_arg q =? G_IPC_RMID then
        if negb (ipc_owner (sg_perm s) (q_uid q)) then (resp (- EPERM), b)
        else
          let s := mkSeg (sg_id s) 0 (sg_size s) (sg_perm s) (sg_cpid s) (sg_lpid s) (sg_atime s) (sg_dtime s)
                         (sg_ctime s) (sg_memfd s) (sg_nattch s) true (sg_att s) (sg_locked s) (sg_lock_uid s) in
          let b := upd_seg i s b in
          (resp 0, if sg_nattch s =? 0 then shm_free i s b else b)
      else if (q_arg q =? G_SHM_LOCK) || (q_arg q =? G_SHM_UNLOCK) then
        let '(r, b) := shm_do_lock q i s b in (resp r, b)
      else (resp (- EINVAL), b)
  end.

(** ** Process death *)
Fixpoint scan_undo (e : IpcEnv) (n i : nat) (p : SemUndo -> bool) (b : Broker) : Broker :=
  match n with
  | O => b
  | S k => scan_undo e k (S i) p
             (match bk_undo b !! i with
              | Some (Some u) => if p u then sem_undo_apply e i u b else b
              | _ => b
              end)
  end.
Definition sem_exit_pid (e : IpcEnv) (pid : Z) (b : Broker) : Broker :=
  scan_undo e SEM_UNDO_MAX 0 (fun u => su_pid u =? pid) b.
(** The attacher loop of [shm_reclaim]; the fuel is the number of rows. *)
Fixpoint reclaim_atts (fuel : nat) (e : IpcEnv) (j : nat) (l : list SegAtt) (n : Z) : list SegAtt * Z :=
  match fuel with
  | O => (l, n)
  | S k =>
      match l !! j with
      | None => (l, n)
      | Some a =>
          if e_start e (sa_pid a) =? sa_start a then reclaim_atts k e (S j) l n
          else reclaim_atts k e j (swap_out j l) (if sa_n a <=? n then n - sa_n a else 0)
      end
  end.
Fixpoint scan_seg (n i : nat) (f : nat -> Seg -> Broker -> Broker) (b : Broker) : Broker :=
  match n with
  | O => b
  | S k => scan_seg k (S i) f (match bk_seg b !! i with Some (Some s) => f i s b | _ => b end)
  end.
Definition shm_reclaim (e : IpcEnv) (b : Broker) : Broker :=
  scan_seg SHM_SEG_MAX 0 (fun i s b =>
    let '(att, n) := reclaim_atts (length (sg_att s)) e 0 (sg_att s) (sg_nattch s) in
    let s := with_att n att (sg_lpid s) (sg_atime s) (sg_dtime s) s in
    let b := upd_seg i s b in
    if sg_rmid s && (n =? 0) then shm_free i s b else b) b.
Definition ipc_reclaim (e : IpcEnv) (b : Broker) : Broker :=
  let b := shm_reclaim e b in
  let b := scan_wait IPC_WAITER_MAX 0 (fun i w b =>
             if e_start e (wt_pid w) =? wt_start w then b else waiter_free i b) b in
  let b := scan_undo e SEM_UNDO_MAX 0 (fun u => negb (e_start e (su_pid u) =? su_start u)) b in
  ipc_rescan e b.

(** ** The server *)
(** [read_full] of [n] items from what the peer streams. *)
Definition read_n {A} (n : Z) (l : list A) : option (list A) :=
  if (Z.to_nat n <=? length l)%nat then Some (take (Z.to_nat n) l) else None.
Definition reply (cfd : Z) (r : BResp) (payload : list Z) (fd : Z) (b : Broker) : bool * Broker :=
  (false, send (mkOut cfd r payload fd) b).
(** A reply that carries only [ret]. *)
Definition answer (cfd : Z) (rb : Z * Broker) : bool * Broker := reply cfd (resp (fst rb)) [] (-1) (snd rb).
Definition answer_r (cfd : Z) (rb : BResp * Broker) : bool * Broker := reply cfd (fst rb) [] (-1) (snd rb).

Definition serve_semop (e : IpcEnv) (cfd : Z) (q : BReq) (b : Broker) : bool * Broker :=
  let nsops := u32 (q_arg q) in
  if nsops =? 0 then answer cfd (- EINVAL, b)
  else if G_SEMOPM <? nsops then answer cfd (- E2BIG, b)
  else if negb (e_mem e) then answer cfd (- ENOMEM, b)
  else
  match read_n nsops (q_sops q) with
  | None => (false, b)
  | Some sops =>
      match sem_find (q_id q) b with
      | None => answer cfd (- EINVAL, b)
      | Some (si, s) =>
          let alter := existsb (fun op => negb (sem_op op =? 0)) sops in
          if existsb (fun op => ss_nsems s <=? sem_num op) sops then answer cfd (- EFBIG, b)
          else if negb (ipc_access (ss_perm s) (q_uid q) (q_gid q) (if alter then 2 else 4)) then
            answer cfd (- EACCES, b)
          else
            let '(t, blk, b) := sem_try_op e si s sops (q_pid q) 0 b in
            if t =? 1 then
              let '(ok, b) := waiter_park e cfd q (ParkSem sops blk) b in
              if ok then (true, b) else answer cfd (- EAGAIN, b)
            else answer cfd (t, b)
      end
  end.
(** SETALL: the whole array is validated before any value is set. *)
Definition serve_setall (e : IpcEnv) (cfd : Z) (q : BReq) (b : Broker) : bool * Broker :=
  let n := q_size q in
  if (n =? 0) || (G_SEMMSL <? n) then (false, b)
  else if negb (e_mem e) then (false, b)
  else
  match read_n n (q_vals q) with
  | None => (false, b)
  | Some vals =>
      match sem_find (q_id q) b with
      | None => answer cfd (- EINVAL, b)
      | Some (i, s) =>
          if negb (n =? ss_nsems s) then answer cfd (- EINVAL, b)
          else if negb (ipc_access (ss_perm s) (q_uid q) (q_gid q) 2) then answer cfd (- EACCES, b)
          else if existsb (fun v => G_SEMVMX <? v) vals then answer cfd (- ERANGE, b)
          else
            let b := sem_undo_clear (ss_id s) None b in
            answer cfd (0, upd_set i (mkSet (ss_id s) (ss_key s) (ss_nsems s) (ss_perm s) (ss_otime s)
                                        (e_time e) vals (replicate (length vals) (q_pid q)) (ss_cpid s)
                                        (q_pid q)) b)
      end
  end.
Definition serve_semctl (e : IpcEnv) (cfd : Z) (q : BReq) (b : Broker) : bool * Broker :=
  if q_arg q =? G_SETALL then serve_setall e cfd q b else
  let '(r, b) := sem_do_ctl e q b in
  if (q_arg q =? G_GETALL) && (r_ret r =? 0) then
    reply cfd r (match sem_find (q_id q) b with Some (_, s) => ss_val s | None => [] end) (-1) b
  else answer_r cfd (r, b).

Definition serve_msgsnd (e : IpcEnv) (cfd : Z) (q : BReq) (b : Broker) : bool * Broker :=
  let sz := q_size q in
  if (G_MSGMAX <? sz) || (q_mtype q <=? 0) then (false, b)
  else if negb (e_mem e) then (false, b)
  else
  match read_n sz (q_data q) with
  | None => (false, b)
  | Some data =>
      let m := mkMsg (q_mtype q) sz data in
      match msg_find (q_id q) b with
      | None => answer cfd (- EINVAL, b)
      | Some (k, mq) =>
          if negb (ipc_access (mq_perm mq) (q_uid q) (q_gid q) 2) then answer cfd (- EACCES, b)
          else if msg_fits mq sz then
            answer cfd (0, set_msq <[k := Some (msg_enqueue e m (q_pid q) mq)]> b)
          else if has (q_arg q) G_IPC_NOWAIT then answer cfd (- EAGAIN, b)
          else
            let '(ok, b) := waiter_park e cfd q (ParkSnd m) b in
            if ok then (true, b) else answer cfd (- EAGAIN, b)
      end
  end.
Definition serve_msgrcv (e : IpcEnv) (cfd : Z) (q : BReq) (b : Broker) : bool * Broker :=
  match msg_find (q_id q) b with
  | None => answer cfd (- EINVAL, b)
  | Some (k, mq) =>
      if negb (ipc_access (mq_perm mq) (q_uid q) (q_gid q) 4) then answer cfd (- EACCES, b)
      else
      match msg_pick mq (q_mtype q) (q_arg q) with
      | Some (j, m) =>
          if (q_size q <? gm_size m) && negb (has (q_arg q) G_MSG_NOERROR) then answer cfd (- E2BIG, b)
          else
            reply cfd (grant_resp m (q_size q)) (take (Z.to_nat (grant_len m (q_size q))) (gm_data m)) (-1)
              (set_msq <[k := Some (msg_take e j m (q_pid q) mq)]> b)
      | None =>
          if has (q_arg q) G_IPC_NOWAIT then answer cfd (- ENOMSG, b)
          else
            let '(ok, b) := waiter_park e cfd q (ParkRcv (q_mtype q) (q_size q) (q_arg q)) b in
            if ok then (true, b) else answer cfd (- ENOMSG, b)
      end
  end.

(** [ipc_serve]: whether the connection was parked. *)
Definition ipc_serve (e : IpcEnv) (cfd : Z) (q : BReq) (b : Broker) : bool * Broker :=
  match q_op q with
  | REQ_SHMGET => answer cfd (shm_do_get e q b)
  | REQ_SHMAT => let '(r, fd, b) := shm_do_at e q b in reply cfd r [] fd b
  | REQ_SHMDT => answer cfd (shm_do_dt e q b)
  | REQ_SHMFORK => answer cfd (shm_do_fork e q b)
  | REQ_SHMCTL => answer_r cfd (shm_do_ctl e q b)
  | REQ_SEMGET => answer cfd (sem_do_get e q b)
  | REQ_SEMEXIT => answer cfd (0, sem_exit_pid e (q_pid q) b)
  | REQ_SEMOP => serve_semop e cfd q b
  | REQ_SEMCTL => serve_semctl e cfd q b
  | REQ_MSGGET => answer cfd (msg_do_get e q b)
  | REQ_MSGCTL => answer_r cfd (msg_do_ctl e q b)
  | REQ_MSGSND => serve_msgsnd e cfd q b
  | REQ_MSGRCV => serve_msgrcv e cfd q b
  end.

(** ** The main loop *)
Definition GRACE_MS : Z := 10000.
Definition TICK_MS : Z := 1000.
(** The anchors of the idle check. *)
Definition pid_lives (e : IpcEnv) (pid : Z) : bool := (0 <? pid) && negb (e_start e pid =? 0).
Definition sem_any_live (e : IpcEnv) (b : Broker) : bool :=
  existsb (fun o => match o with Some s => pid_lives e (ss_cpid s) || pid_lives e (ss_tpid s) | None => false end)
    (bk_sem b) ||
  existsb (fun o => match o with Some u => e_start e (su_pid u) =? su_start u | None => false end) (bk_undo b).
Definition msg_any_live (e : IpcEnv) (b : Broker) : bool :=
  existsb (fun o => match o with Some q => pid_lives e (mq_cpid q) || pid_lives e (mq_tpid q) | None => false end)
    (bk_msq b).
Definition shm_any_live (e : IpcEnv) (b : Broker) : bool :=
  existsb (fun o => match o with
                    | Some s => negb (length (sg_att s) =? 0)%nat || (negb (sg_rmid s) && pid_lives e (sg_cpid s))
                    | None => false end) (bk_seg b).

(** What [poll] found on a parked connection: a REQ_CANCEL, a hangup, error or
    garbage, or nothing to read. *)
Inductive PeerEv := PeerCancel | PeerGone | PeerNothing.
(** One round of the loop: what [poll] returned for the parked slots (with the
    descriptor it was polled on), the accepted request if any, the clock after
    [poll], and whether something outside this component anchors the session. *)
Record Turn := mkTurn {
  tn_env : IpcEnv; tn_ready : bool; tn_peers : list (nat * Z * PeerEv); tn_conn : option (Z * BReq);
  tn_now : Z; tn_anchored : bool
}.
Record Daemon := mkDaemon { dm_b : Broker; dm_active : Z; dm_tick : Z }.

Definition peer_event (b : Broker) (ev : nat * Z * PeerEv) : Broker :=
  let '(i, fd, what) := ev in
  match bk_wait b !! i with
  | Some (Some w) =>
      if negb (wt_cfd w =? fd) then b else
      match what with
      | PeerCancel => waiter_reply i w (resp (- EINTR)) [] b
      | PeerGone => waiter_free i b
      | PeerNothing => b
      end
  | _ => b
  end.
Definition busy (b : Broker) : bool := negb (bk_nwait b =? 0) || negb (bk_nundo b =? 0).
(** The end of a round: timeouts, the tick for dead processes, and the grace
    period.  [None]: the daemon leaves. *)
Definition turn_idle (t : Turn) (d : Daemon) (b : Broker) (active : Z) : option Daemon :=
  let e := tn_env t in let now := tn_now t in
  let b := waiters_expire now b in
  let '(b, tick) := if busy b && (TICK_MS <=? now - dm_tick d) then (ipc_reclaim e b, now) else (b, dm_tick d) in
  if negb (tn_ready t) && (GRACE_MS <=? now - active) then
    let b := ipc_reclaim e b in
    if negb (tn_anchored t) && negb (shm_any_live e b) && negb (sem_any_live e b) && negb (msg_any_live e b) &&
       (bk_nwait b =? 0)
    then None else Some (mkDaemon b now tick)
  else Some (mkDaemon b active tick).
Definition broker_turn (t : Turn) (d : Daemon) : option Daemon :=
  if tn_ready t then
    let b := fold_left peer_event (tn_peers t) (dm_b d) in
    let b := match tn_conn t with Some (cfd, q) => snd (ipc_serve (tn_env t) cfd q b) | None => b end in
    turn_idle t d (ipc_rescan (tn_env t) b) (tn_now t)
  else turn_idle t d (dm_b d) (dm_active d).

Definition broker_init : Broker :=
  mkBroker (replicate SEM_SET_MAX None) (replicate SEM_UNDO_MAX None) (replicate MSG_QUEUE_MAX None)
    (replicate IPC_WAITER_MAX None) (replicate SHM_SEG_MAX None) (replicate SHM_LOCK_USERS (0, 0))
    1 1 1 1 0 0 [].
(** A request as it comes off the wire: the fields the broker computes with
    are at their width. *)
Definition sembuf_ok (op : GSembuf) : Prop := 0 <= sem_num op < 2 ^ 16 /\ - 2 ^ 15 <= sem_op op < 2 ^ 15.
Definition breq_ok (q : BReq) : Prop :=
  fits 64 (q_size q) /\ - 2 ^ 31 <= q_val q < 2 ^ 31 /\ Forall sembuf_ok (q_sops q) /\ Forall (fits 16) (q_vals q).
Definition turn_ok (t : Turn) : Prop := match tn_conn t with Some (_, q) => breq_ok q | None => True end.
(** Daemons that rounds of the loop lead to. *)
Inductive daemon_reach : Daemon -> Prop :=
  | reach_boot t : daemon_reach (mkDaemon broker_init t t)
  | reach_turn d t d' : daemon_reach d -> turn_ok t -> broker_turn t d = Some d' -> daemon_reach d'.
