(* ===== verification/IpcInv.v ===== *)
(** * IpcInv: the semop vector, and what every request keeps of the tables

    Lemmas on tables of slots, and what [sem_try_op] does to a set's values and
    its undo rows: a vector as a sum of operations, the loop that stops at the
    first one that cannot go ahead, and the rollback that takes the prefix
    back. Then the invariant [broker_ok] of the daemon's tables (distinct ids, values and
    adjustments in range, undo rows that fit their set, queue counters that
    agree with the queue, arrival numbers, counts) and its preservation by each
    operation of the broker. *)

From Stdlib Require Import ZifyNat ZifyBool.
From S2P Require Import Prelude Types Cpu MemSeam Ipc.
Import IpcErr.

(** ** Slot tables *)
Section Slots.
Context {A : Type}.
Implicit Types (l : list (option A)) (x y : A) (i j : nat).

(** Slot [i] holds [x]. *)
Definition holds l i x : Prop := l !! i = Some (Some x).
Definition slots (P : A -> Prop) l : Prop := forall i x, holds l i x -> P x.
(** No two slots hold entries with one key. *)
Definition uniq {K} (f : A -> K) l : Prop :=
  forall i j x y, holds l i x -> holds l j y -> f x = f y -> i = j.
Definition count l : Z := Z.of_nat (length (List.filter used l)).

Lemma holds_lt l i x : holds l i x -> (i < length l)%nat.
Proof. apply lookup_lt_Some. Qed.
Lemma holds_put l i j x y : holds (<[i := Some x]> l) j y ->
  (i = j /\ x = y /\ (i < length l)%nat) \/ (i <> j /\ holds l j y).
Proof.
  unfold holds. intros H. destruct (decide (i = j)) as [->|Hn].
  - left. assert (j < length l)%nat as Hl by (apply lookup_lt_Some in H; by rewrite length_insert in H).
    rewrite list_lookup_insert_eq in H by done. by simplify_eq.
  - right. by rewrite list_lookup_insert_ne in H.
Qed.
Lemma holds_put_eq l i x : (i < length l)%nat -> holds (<[i := Some x]> l) i x.
Proof. intros. by apply list_lookup_insert_eq. Qed.
Lemma holds_put_ne l i j o y : i <> j -> holds l j y -> holds (<[i := o]> l) j y.
Proof. intros. unfold holds. by rewrite list_lookup_insert_ne. Qed.
Lemma holds_del l i j y : holds (<[i := None]> l) j y -> i <> j /\ holds l j y.
Proof.
  unfold holds. intros H. destruct (decide (i = j)) as [->|Hn].
  - exfalso. assert (j < length l)%nat by (apply lookup_lt_Some in H; by rewrite length_insert in H).
    by rewrite list_lookup_insert_eq in H.
  - by rewrite list_lookup_insert_ne in H.
Qed.
Lemma slots_put P l i x : slots P l -> P x -> slots P (<[i := Some x]> l).
Proof. intros Hl Hx j y [(_ & <- & _)|(_ & H)]%holds_put; [done|by apply (Hl j)]. Qed.
Lemma slots_del P l i : slots P l -> slots P (<[i := None]> l).
Proof. intros Hl j y [_ H]%holds_del. by apply (Hl j). Qed.
Lemma slots_mono (P Q : A -> Prop) l : (forall x, P x -> Q x) -> slots P l -> slots Q l.
Proof. intros HPQ Hl i x H. by apply HPQ, (Hl i). Qed.

Lemma uniq_same {K} (f : A -> K) l i x y : uniq f l -> holds l i x -> f y = f x -> uniq f (<[i := Some y]> l).
Proof.
  intros Hu Hx Hf j k a b [(<- & <- & _)|(Hj & Ha)]%holds_put [(<- & <- & _)|(Hk & Hb)]%holds_put E; [done|..].
  - exfalso. apply Hk, (Hu i k x b); [done..|congruence].
  - exfalso. apply Hj, (Hu i j x a); [done..|congruence].
  - by apply (Hu j k a b).
Qed.
Lemma uniq_new {K} (f : A -> K) l i y : uniq f l -> (forall j x, holds l j x -> f x <> f y) ->
  uniq f (<[i := Some y]> l).
Proof.
  intros Hu Hn j k a b [(<- & <- & _)|(Hj & Ha)]%holds_put [(<- & <- & _)|(Hk & Hb)]%holds_put E; [done|..].
  - exfalso. by apply (Hn k b).
  - exfalso. by apply (Hn j a).
  - by apply (Hu j k a b).
Qed.
Lemma uniq_del {K} (f : A -> K) l i : uniq f l -> uniq f (<[i := None]> l).
Proof. intros Hu j k a b [_ Ha]%holds_del [_ Hb]%holds_del. by apply Hu. Qed.

Lemma count_cons o l : count (o :: l) = (if used o then 1 else 0) + count l.
Proof. unfold count. cbn [List.filter]. destruct (used o); cbn [length]; lia. Qed.
Lemma count_insert l i o o' : l !! i = Some o ->
  count (<[i := o']> l) = count l - (if used o then 1 else 0) + (if used o' then 1 else 0).
Proof.
  revert i. induction l as [|a l IH]; intros [|i] H; simplify_eq/=; rewrite !count_cons; [lia|].
  rewrite IH by done. lia.
Qed.
Lemma count_nonneg l : 0 <= count l.
Proof. unfold count. lia. Qed.
Lemma count_pos l i x : holds l i x -> 0 < count l.
Proof.
  unfold holds. revert i. induction l as [|a l IH]; intros [|i] H; simplify_eq/=; rewrite count_cons.
  - simpl. pose proof (count_nonneg l). lia.
  - specialize (IH i H). destruct (used a); lia.
Qed.
Lemma count_le l : count l <= Z.of_nat (length l).
Proof. unfold count. pose proof (filter_length_le used l). lia. Qed.

Lemma find_slot_some p l i x : find_slot p l = Some (i, x) -> holds l i x /\ p x = true.
Proof.
  unfold holds. revert i. induction l as [|[a|] l IH]; intros i H; cbn [find_slot] in H; [done|..].
  - destruct (p a) eqn:E; [by simplify_eq|]. destruct (find_slot p l) as [[j y]|]; simplify_eq/=. by apply IH.
  - destruct (find_slot p l) as [[j y]|]; simplify_eq/=. by apply IH.
Qed.
Lemma find_slot_none p l i x : find_slot p l = None -> holds l i x -> p x = false.
Proof.
  unfold holds. revert i. induction l as [|[a|] l IH]; intros i H Hx; cbn [find_slot] in H; [done|..].
  - destruct (p a) eqn:E; [done|]. destruct (find_slot p l); [done|]. destruct i; simplify_eq/=; [done|by apply (IH i)].
  - destruct (find_slot p l); [done|]. destruct i; simplify_eq/=. by apply (IH i).
Qed.
Lemma empty_slot_some l i : empty_slot l = Some i -> l !! i = Some None.
Proof.
  revert i. induction l as [|[a|] l IH]; intros i H; simplify_eq/=; [|done].
  destruct (empty_slot l); simplify_eq/=. by apply IH.
Qed.
(** An entry found by a unique key is the one that is there. *)
Lemma find_slot_uniq p (f : A -> Z) k l i x : (forall y, p y = (f y =? k)) -> uniq f l -> holds l i x -> f x = k ->
  find_slot p l = Some (i, x).
Proof.
  intros Hp Hu Hx Hk. destruct (find_slot p l) as [[j y]|] eqn:E.
  - apply find_slot_some in E as [Hy Hpy]. rewrite Hp in Hpy. apply Z.eqb_eq in Hpy.
    assert (j = i) as -> by (apply (Hu j i y x); [done|done|congruence]). unfold holds in *. by simplify_eq.
  - apply (find_slot_none _ _ i x) in E; [|done]. rewrite Hp in E. lia.
Qed.
Lemma holds_map (g : option A -> option A) l i y : holds (map g l) i y <-> exists o, l !! i = Some o /\ g o = Some y.
Proof.
  unfold holds. rewrite list_lookup_fmap. destruct (l !! i) as [o|]; simpl; [|split; [done|by intros (? & ? & _)]].
  split; [intros [= H]; by exists o|intros (o' & [= <-] & H); by rewrite H].
Qed.
End Slots.

(** ** Arrays *)
Lemma at_put l i j v : 0 <= i < Z.of_nat (length l) -> 0 <= j ->
  at_z (put_z l i v) j = if i =? j then v else at_z l j.
Proof.
  intros Hi Hj. unfold at_z, put_z. rewrite !nth_lookup. destruct (Z.eqb_spec i j) as [->|].
  - by rewrite list_lookup_insert_eq by lia.
  - by rewrite list_lookup_insert_ne by lia.
Qed.
Lemma put_at l i : put_z l i (at_z l i) = l.
Proof.
  unfold put_z, at_z. rewrite nth_lookup. apply list_eq. intros k. destruct (decide (Z.to_nat i = k)) as [->|].
  - destruct (decide (k < length l)%nat) as [Hk|Hk].
    + rewrite list_lookup_insert_eq by done. apply lookup_lt_is_Some in Hk as [x ->]. done.
    + rewrite !lookup_ge_None_2 by (rewrite ?length_insert; lia). done.
  - by rewrite list_lookup_insert_ne.
Qed.
Lemma put_put l i v w : put_z (put_z l i v) i w = put_z l i w.
Proof. apply list_insert_insert_eq. Qed.
Lemma length_put l i v : length (put_z l i v) = length l.
Proof. apply length_insert. Qed.
Lemma Forall_put (P : Z -> Prop) l i v : Forall P l -> P v -> Forall P (put_z l i v).
Proof. intros. by apply Forall_insert. Qed.
Lemma Forall_at (P : Z -> Prop) l i : Forall P l -> 0 <= i < Z.of_nat (length l) -> P (at_z l i).
Proof.
  intros Hl Hi. unfold at_z. rewrite nth_lookup. destruct (l !! Z.to_nat i) as [x|] eqn:E.
  - simpl. by eapply Forall_lookup_1.
  - apply lookup_ge_None_1 in E. lia.
Qed.

(** ** A semop vector *)
Definition semval (v : Z) : Prop := 0 <= v <= G_SEMVMX.
Definition semadj (v : Z) : Prop := - G_SEMAEM - 1 <= v <= G_SEMAEM.
(** An operation's fields at their width, on a set of [n] semaphores. *)
Definition sop_ok (n : Z) (op : GSembuf) : Prop := 0 <= sem_num op < n /\ - 2 ^ 15 <= sem_op op < 2 ^ 15.
Definition undoes (op : GSembuf) : bool := has (sem_flg op) G_SEM_UNDO.

(** What a prefix of the vector does to the values and to the undo row. *)
Definition do_val (l : list Z) (op : GSembuf) : list Z := put_z l (sem_num op) (at_z l (sem_num op) + sem_op op).
Definition do_adj (l : list Z) (op : GSembuf) : list Z :=
  if undoes op then put_z l (sem_num op) (at_z l (sem_num op) - sem_op op) else l.
(** The operation goes ahead on these values. *)
Definition goes (vals : list Z) (op : GSembuf) : Prop :=
  (sem_op op = 0 -> at_z vals (sem_num op) = 0) /\ semval (at_z vals (sem_num op) + sem_op op).
(** It has to wait: for zero, or for an increase. *)
Definition waits (vals : list Z) (op : GSembuf) : Prop :=
  (sem_op op = 0 /\ at_z vals (sem_num op) <> 0) \/ at_z vals (sem_num op) + sem_op op < 0.
Fixpoint all_go (vals : list Z) (ops : list GSembuf) : Prop :=
  match ops with [] => True | op :: r => goes vals op /\ all_go (do_val vals op) r end.

Lemma length_do_val l op : length (do_val l op) = length l.
Proof. apply length_put. Qed.
Lemma length_do_adj l op : length (do_adj l op) = length l.
Proof. unfold do_adj. case_match; [apply length_put|done]. Qed.
Lemma length_fold_val ops l : length (fold_left do_val ops l) = length l.
Proof. revert l. induction ops; intros l; simpl; [done|]. by rewrite IHops, length_do_val. Qed.
Lemma length_fold_adj ops l : length (fold_left do_adj ops l) = length l.
Proof. revert l. induction ops; intros l; simpl; [done|]. by rewrite IHops, length_do_adj. Qed.
Lemma all_go_app vals d r : all_go vals (d ++ r) <-> all_go vals d /\ all_go (fold_left do_val d vals) r.
Proof. revert vals. induction d as [|op d IH]; intros vals; cbn [app all_go fold_left]; [tauto|]. rewrite IH. tauto. Qed.
Lemma go_vals ops vals n : Z.of_nat (length vals) = n -> Forall (sop_ok n) ops -> all_go vals ops ->
  Forall semval vals -> Forall semval (fold_left do_val ops vals).
Proof.
  revert vals. induction ops as [|op ops IH]; intros vals Hn Ho Hg Hv; [done|]. cbn [fold_left].
  inversion Ho as [|? ? Hop Ho']; subst. destruct Hg as [[_ Hg] Hg']. apply IH; [by rewrite length_do_val|done|done|].
  by apply Forall_put.
Qed.

(** The sum of a vector's operations on semaphore [n], all or the undone ones. *)
Definition delta (n : Z) (ops : list GSembuf) : Z :=
  fold_right (fun op z => (if sem_num op =? n then sem_op op else 0) + z) 0 ops.
Definition undelta (n : Z) (ops : list GSembuf) : Z :=
  fold_right (fun op z => (if undoes op && (sem_num op =? n) then sem_op op else 0) + z) 0 ops.
Lemma fold_val_at ops vals n m : Z.of_nat (length vals) = n -> Forall (sop_ok n) ops -> 0 <= m ->
  at_z (fold_left do_val ops vals) m = at_z vals m + delta m ops.
Proof.
  revert vals. induction ops as [|op ops IH]; intros vals Hn Ho Hm; cbn [fold_left delta fold_right]; [lia|].
  inversion Ho as [|? ? [Hop _] Ho']; subst. fold (delta m ops). rewrite IH by (rewrite ?length_do_val; done).
  unfold do_val. rewrite at_put by lia. destruct (Z.eqb_spec (sem_num op) m) as [->|]; lia.
Qed.
Lemma fold_adj_at ops adj n m : Z.of_nat (length adj) = n -> Forall (sop_ok n) ops -> 0 <= m ->
  at_z (fold_left do_adj ops adj) m = at_z adj m - undelta m ops.
Proof.
  revert adj. induction ops as [|op ops IH]; intros adj Hn Ho Hm; cbn [fold_left undelta fold_right]; [lia|].
  inversion Ho as [|? ? [Hop _] Ho']; subst. fold (undelta m ops). rewrite IH by (rewrite ?length_do_adj; done).
  unfold do_adj. destruct (undoes op); cbn [andb]; [|lia]. rewrite at_put by lia.
  destruct (Z.eqb_spec (sem_num op) m) as [->|]; lia.
Qed.

(** ** Undo rows *)
Lemma broker_eta b : mkBroker (bk_sem b) (bk_undo b) (bk_msq b) (bk_wait b) (bk_seg b) (bk_shmlock b) (bk_next_sem b)
  (bk_next_msq b) (bk_next_shm b) (bk_wait_seq b) (bk_nwait b) (bk_nundo b) (bk_out b) = b.
Proof. by destruct b. Qed.
Lemma set_undo_id f b : f (bk_undo b) = bk_undo b -> set_undo f 0 b = b.
Proof. intros Hf. unfold set_undo. rewrite Hf, Z.add_0_r. apply broker_eta. Qed.
Lemma upd_undo_id k f b : f (undo_adj b k) = undo_adj b k -> upd_undo k f b = b.
Proof.
  intros Hf. unfold upd_undo. apply set_undo_id. unfold undo_adj in Hf. apply list_eq. intros j.
  destruct (decide (k = j)) as [->|]; [|by rewrite list_lookup_alter_ne].
  rewrite list_lookup_alter_eq. destruct (bk_undo b !! j) as [[u|]|]; simpl; [|done|done].
  rewrite Hf. by destruct u.
Qed.
Lemma upd_undo_upd k f g b : upd_undo k f (upd_undo k g b) = upd_undo k (fun l => f (g l)) b.
Proof.
  unfold upd_undo, set_undo. simpl. rewrite !Z.add_0_r. f_equal. rewrite list_alter_alter_eq.
  apply list_alter_ext; [|done]. by intros [u|].
Qed.
Lemma upd_undo_ext k f g b : f (undo_adj b k) = g (undo_adj b k) -> upd_undo k f b = upd_undo k g b.
Proof.
  intros Hf. unfold upd_undo, set_undo, undo_adj in *. f_equal. apply list_alter_ext; [|done].
  intros o Ho. rewrite Ho in Hf. destruct o; simpl in *; [by rewrite Hf|done].
Qed.
Lemma undo_adj_upd k f b i x : holds (bk_undo b) k i -> x = su_adj i -> undo_adj (upd_undo k f b) k = f x.
Proof.
  unfold holds. intros H ->. unfold undo_adj, upd_undo, set_undo. simpl. by rewrite list_lookup_alter_eq, H.
Qed.

(** The rows of a set have its length, and adjustments in range. *)
Definition adj_ok (n : Z) (l : list Z) : Prop := Z.of_nat (length l) = n /\ Forall semadj l.
Definition rows_ok (semid n : Z) (l : list (option SemUndo)) : Prop :=
  slots (fun u => su_semid u = semid -> adj_ok n (su_adj u)) l.
Lemma zeros_adj n : 0 <= n -> adj_ok n (replicate (Z.to_nat n) 0).
Proof. intros. split; [rewrite length_replicate; lia|]. apply Forall_replicate. unfold semadj, G_SEMAEM. lia. Qed.

(** A row that was there, or a fresh one of zeros. *)
Lemma undo_find_spec e pid s b u b' : sem_undo_find e pid s b = (u, b') ->
  match u with
  | None => b' = b
  | Some k => exists row, holds (bk_undo b') k row /\ su_pid row = pid /\ su_semid row = ss_id s /\
      (b' = b \/ (bk_undo b !! k = Some None /\ row = mkUndo pid (e_start e pid) (ss_id s)
                    (replicate (Z.to_nat (ss_nsems s)) 0) /\
                  b' = set_undo <[k := Some row]> 1 b /\
                  (forall j r, holds (bk_undo b) j r -> undo_is pid (ss_id s) r = false)))
  end.
Proof.
  unfold sem_undo_find. destruct (find_slot _ _) as [[k row]|] eqn:E.
  { intros [= <- <-]. apply find_slot_some in E as [H Hp]. unfold undo_is in Hp. exists row.
    split; [done|]. split; [lia|]. split; [lia|]. by left. }
  destruct (empty_slot _) as [k|] eqn:Ef; [|by intros [= <- <-]].
  destruct (e_undo_mem _ _ _); [|by intros [= <- <-]]. intros [= <- <-].
  apply empty_slot_some in Ef. eexists. split; [|split; [|split]].
  - apply holds_put_eq. by apply lookup_lt_Some in Ef.
  - done.
  - done.
  - right. split; [done|]. split; [done|]. split; [done|]. intros. by eapply find_slot_none.
Qed.
Lemma undo_find_rows e pid s b u b' : 0 <= ss_nsems s -> rows_ok (ss_id s) (ss_nsems s) (bk_undo b) ->
  sem_undo_find e pid s b = (u, b') -> rows_ok (ss_id s) (ss_nsems s) (bk_undo b').
Proof.
  intros Hn Hr E. apply undo_find_spec in E. destruct u as [k|]; [|by subst].
  destruct E as (row & _ & _ & _ & [->|(_ & -> & -> & _)]); [done|]. apply slots_put; [done|]. intros _. by apply zeros_adj.
Qed.

(** ** The loop of [sem_try_op] *)
Section Loop.
Context (e : IpcEnv) (pid : Z) (s : SemSet).
Notation n := (ss_nsems s).

(** Where the row [k] comes from. *)
Definition base_of (u : option nat) (b : Broker) (k : nat) (base : Broker) : Prop :=
  (u = Some k /\ base = b) \/ (u = None /\ sem_undo_find e pid s b = (Some k, base)).
(** The row in use belongs to the set. *)
Definition row_here (u : option nat) (b : Broker) : Prop :=
  match u with None => True | Some k => exists row, holds (bk_undo b) k row /\ su_semid row = ss_id s end.
(** What became of the undo rows after the prefix [d]. *)
Definition undone (u : option nat) (b : Broker) (d : list GSembuf) (u' : option nat) (b' : Broker) : Prop :=
  match u' with
  | None => u = None /\ b' = b /\ Forall (fun op => undoes op = false) d
  | Some k => exists base, base_of u b k base /\ b' = upd_undo k (fold_left do_adj d) base /\
                (exists row, holds (bk_undo base) k row /\ su_semid row = ss_id s) /\
                (forall p q, d = p ++ q -> adj_ok n (fold_left do_adj p (undo_adj base k)))
  end.
(** Why it stopped. *)
Definition stopped (r : SemEnd) (vals : list Z) (rest : list GSembuf) : Prop :=
  match r, rest with
  | SemDone, [] => True
  | SemBlock, op :: _ => waits vals op /\ has (sem_flg op) G_IPC_NOWAIT = false
  | SemErr x, op :: _ =>
      (x = EAGAIN /\ waits vals op /\ has (sem_flg op) G_IPC_NOWAIT = true) \/
      (x = ERANGE /\ (G_SEMVMX < at_z vals (sem_num op) + sem_op op \/ undoes op = true)) \/
      (x = ENOMEM /\ undoes op = true)
  | _, _ => False
  end.

Lemma row_adj b k row : holds (bk_undo b) k row -> undo_adj b k = su_adj row.
Proof. unfold holds, undo_adj. by intros ->. Qed.
Lemma holds_upd k f b row : holds (bk_undo b) k row ->
  holds (bk_undo (upd_undo k f b)) k (mkUndo (su_pid row) (su_start row) (su_semid row) (f (su_adj row))).
Proof. unfold holds, upd_undo, set_undo. simpl. intros H. by rewrite list_lookup_alter_eq, H. Qed.
Lemma rows_upd k f b row : holds (bk_undo b) k row -> (su_semid row = ss_id s -> adj_ok n (f (su_adj row))) ->
  rows_ok (ss_id s) n (bk_undo b) -> rows_ok (ss_id s) n (bk_undo (upd_undo k f b)).
Proof.
  intros Hk Hf Hr i x. unfold holds, upd_undo, set_undo. simpl. destruct (decide (k = i)) as [->|].
  - rewrite list_lookup_alter_eq. unfold holds in Hk. rewrite Hk. simpl. intros [= <-]. simpl. done.
  - rewrite list_lookup_alter_ne by done. apply Hr.
Qed.
Lemma adj_step op l : adj_ok n l -> sop_ok n op -> undoes op = true ->
  semadj (at_z l (sem_num op) - sem_op op) ->
  s16 (at_z l (sem_num op) - sem_op op) = at_z l (sem_num op) - sem_op op /\ adj_ok n (do_adj l op).
Proof.
  intros [Hl Hf] [Hn _] Hu Ha. unfold semadj, G_SEMAEM in Ha. split; [apply (signed_small 16); lia|].
  unfold do_adj. rewrite Hu. split; [by rewrite length_put|]. by apply Forall_put.
Qed.
Lemma undone_nil u b k base row : base_of u b k base -> holds (bk_undo base) k row -> su_semid row = ss_id s ->
  rows_ok (ss_id s) n (bk_undo base) -> undone u b [] (Some k) base.
Proof.
  intros Hb Hk Hs Hr. exists base. split; [done|]. rewrite (row_adj _ _ _ Hk). split; [by rewrite upd_undo_id|].
  split; [by exists row|]. intros p q H. symmetry in H. apply app_nil in H as [-> ->]. by apply (Hr k).
Qed.
Lemma undone_start u b : rows_ok (ss_id s) n (bk_undo b) -> row_here u b -> undone u b [] u b.
Proof.
  intros Hr Hrow. destruct u as [k|]; [|done]. destruct Hrow as (row & Hk & Hs).
  apply (undone_nil _ _ _ _ row); [by left|done..].
Qed.
(** One more operation, on the row or not. *)
Lemma undone_cons u b d u' b' op k base row :
  base_of u b k base -> holds (bk_undo base) k row -> su_semid row = ss_id s -> adj_ok n (su_adj row) ->
  undone (Some k) (upd_undo k (fun l => do_adj l op) base) d u' b' -> undone u b (op :: d) u' b'.
Proof.
  intros Hb Hk Hs Ha Hu. destruct u' as [k'|]; [|by destruct Hu].
  destruct Hu as (base' & [[[= <-] ->]|[? _]] & -> & _ & H); [|done].
  rewrite (undo_adj_upd _ _ _ row (su_adj row)) in H by done.
  exists base. split; [done|]. rewrite upd_undo_upd, (row_adj base k row Hk). split; [done|].
  split; [by exists row|]. intros [|o p] q E; [done|]. injection E as <- E. by apply (H p q).
Qed.
Lemma undone_plain u b d u' b' op : undoes op = false -> undone u b d u' b' -> undone u b (op :: d) u' b'.
Proof.
  intros Hu. unfold undone. assert (Hd : forall l, do_adj l op = l) by (intros l; unfold do_adj; by rewrite Hu).
  destruct u' as [k|].
  - intros (base & Hb & -> & Hrow & Ha). exists base. split; [done|]. split; [apply upd_undo_ext; cbn; by rewrite Hd|].
    split; [done|]. intros [|o p] q E; [by apply (Ha [] d)|]. injection E as <- E. cbn [fold_left]. rewrite Hd. by apply (Ha p q).
  - intros (? & ? & ?). split; [done|]. split; [done|]. by constructor.
Qed.
(** The row that an undoing operation works on. *)
Lemma base_rows u b k bw : 0 <= n -> rows_ok (ss_id s) n (bk_undo b) -> row_here u b ->
  match u with Some k => (Some k, b) | None => sem_undo_find e pid s b end = (Some k, bw) ->
  base_of u b k bw /\ rows_ok (ss_id s) n (bk_undo bw) /\
  exists row, holds (bk_undo bw) k row /\ su_semid row = ss_id s.
Proof.
  intros Hn Hr Hrow E. destruct u as [j|].
  - injection E as -> ->. split; [by left|]. done.
  - split; [by right|]. split; [by eapply undo_find_rows|]. apply undo_find_spec in E as (row & ? & _ & ? & _). by exists row.
Qed.

Lemma sem_loop_spec ops i vals u b r i' vals' u' b' :
  sem_loop e pid s ops i vals u b = (r, i', vals', u', b') ->
  Z.of_nat (length vals) = n -> Forall (sop_ok n) ops -> Forall semval vals ->
  rows_ok (ss_id s) n (bk_undo b) -> row_here u b ->
  exists d rest, ops = d ++ rest /\ i' = i + Z.of_nat (length d) /\ vals' = fold_left do_val d vals /\
    all_go vals d /\ stopped r vals' rest /\ undone u b d u' b'.
Proof.
  revert i vals u b. induction ops as [|op ops IH]; intros i vals u b E Hl Ho Hv Hr Hrow; cbn [sem_loop] in E.
  { injection E as <- <- <- <- <-. exists [], []. split; [done|]. split; [simpl; lia|]. do 3 (split; [done|]).
    by apply undone_start. }
  assert (Hstop : forall r' u1 b1, stopped r' vals (op :: ops) -> undone u b [] u1 b1 -> (r', i, vals, u1, b1) = (r, i', vals', u', b') ->
    exists d rest, op :: ops = d ++ rest /\ i' = i + Z.of_nat (length d) /\ vals' = fold_left do_val d vals /\
      all_go vals d /\ stopped r vals' rest /\ undone u b d u' b').
  { intros r0 u0 b0 Hst Hun [= <- <- <- <- <-]. exists [], (op :: ops). split; [done|]. split; [simpl; lia|]. done. }
  pose proof (undone_start u b Hr Hrow) as H0.
  inversion Ho as [|? ? Hop Ho']; subst. cbv zeta in E.
  set (v := at_z vals (sem_num op)) in *.
  destruct (((sem_op op =? 0) && negb (v =? 0)) || (v + sem_op op <? 0)) eqn:Ew.
  { apply Hstop in E; [done| |done]. unfold stopped, waits. fold v.
    destruct (has (sem_flg op) G_IPC_NOWAIT) eqn:En; [left|]; (split; [|try done]); [done|split; [lia|done]|lia]. }
  destruct (G_SEMVMX <? v + sem_op op) eqn:Er.
  { apply Hstop in E; [done| |done]. right. left. fold v. split; [done|left; lia]. }
  assert (Hgo : goes vals op) by (unfold goes, semval; fold v; lia).
  assert (Hdo : put_z vals (sem_num op) (u16 (v + sem_op op)) = do_val vals op).
  { unfold do_val. fold v. f_equal. apply u16_small. unfold fits, G_SEMVMX in *. lia. }
  assert (Hv' : Forall semval (do_val vals op)) by (apply Forall_put; [done|apply Hgo]).
  assert (Hl' : Z.of_nat (length (do_val vals op)) = n) by by rewrite length_do_val.
  rewrite Hdo in E. destruct (has (sem_flg op) G_SEM_UNDO) eqn:Eu.
  2: { apply IH in E; [|done..]. destruct E as (d & rest & -> & -> & -> & Hg & Hst & Hun).
    exists (op :: d), rest. split; [done|]. split; [simpl; lia|]. do 3 (split; [done|]). by apply undone_plain. }
  destruct (match u with Some k => (Some k, b) | None => sem_undo_find e pid s b end) as [w bw] eqn:Ew'.
  destruct w as [k|].
  2: { destruct u as [k|]; [done|]. apply undo_find_spec in Ew'. subst bw. apply Hstop in E; [done|by right; right|done]. }
  destruct (base_rows u b k bw) as (Hb & Hr' & row & Hk & Hs); [lia|done..|].
  rewrite (row_adj _ _ _ Hk) in E. pose proof (Hr' _ _ Hk Hs) as Hadj.
  destruct ((at_z (su_adj row) (sem_num op) - sem_op op <? - G_SEMAEM - 1) ||
            (G_SEMAEM <? at_z (su_adj row) (sem_num op) - sem_op op)) eqn:Ea.
  { apply Hstop in E; [done|by right; left; split; [|right]|by apply (undone_nil _ _ _ _ row)]. }
  assert (Ha : semadj (at_z (su_adj row) (sem_num op) - sem_op op)) by (unfold semadj; lia).
  destruct (adj_step op _ Hadj Hop Eu Ha) as [Hs16 Hadj'].
  rewrite (upd_undo_ext k _ (fun l => do_adj l op)) in E
    by (rewrite (row_adj _ _ _ Hk), Hs16; unfold do_adj, undoes; by rewrite Eu).
  apply IH in E; [|done|done|done| |].
  2: { by apply (rows_upd k _ _ row). }
  2: { eexists. split; [by apply holds_upd|done]. }
  destruct E as (d & rest & -> & -> & -> & Hg & Hst & Hun).
  exists (op :: d), rest. split; [done|]. split; [simpl; lia|]. do 3 (split; [done|]).
  by apply (undone_cons u b d u' b' op k bw row).
Qed.
End Loop.

(** ** The rollback *)
Lemma at_do l i v : 0 <= i < Z.of_nat (length l) -> at_z (put_z l i v) i = v.
Proof. intros. rewrite at_put by lia. by rewrite Z.eqb_refl. Qed.
Lemma undo_do_val n l op : Z.of_nat (length l) = n -> sop_ok n op -> Forall semval l ->
  put_z (do_val l op) (sem_num op) (u16 (at_z (do_val l op) (sem_num op) - sem_op op)) = l.
Proof.
  intros Hl [Hn _] Hf. unfold do_val. rewrite at_do by lia. rewrite put_put.
  replace (_ + _ - _) with (at_z l (sem_num op)) by lia.
  pose proof (Forall_at _ _ (sem_num op) Hf ltac:(lia)) as Hv.
  rewrite u16_small; [apply put_at|]. unfold semval, fits, G_SEMVMX in *. lia.
Qed.
Lemma undo_do_adj n l op : adj_ok n l -> sop_ok n op -> undoes op = true ->
  put_z (do_adj l op) (sem_num op) (s16 (at_z (do_adj l op) (sem_num op) + sem_op op)) = l.
Proof.
  intros [Hl Hf] [Hn _] Hu. unfold do_adj. rewrite Hu, at_do by lia. rewrite put_put.
  replace (_ - _ + _) with (at_z l (sem_num op)) by lia.
  pose proof (Forall_at _ _ (sem_num op) Hf ltac:(lia)) as Ha. unfold semadj, G_SEMAEM in Ha.
  replace (s16 _) with (at_z l (sem_num op)) by (symmetry; apply (signed_small 16); lia). apply put_at.
Qed.

(** Undoing an applied prefix gives the values and rows before it back. *)
Lemma rollback_plain d vals b n : Z.of_nat (length vals) = n -> Forall (sop_ok n) d -> Forall semval vals -> all_go vals d ->
  sem_rollback (rev d) (fold_left do_val d vals) None b = (vals, b).
Proof.
  revert b. induction d as [|op d IH] using rev_ind; intros b Hl Ho Hv Hg; [done|].
  apply Forall_app in Ho as [Ho Hop]. apply Forall_cons_1 in Hop as [Hop _]. apply all_go_app in Hg as [Hg _].
  rewrite rev_app_distr, fold_left_app. cbn [rev app sem_rollback fold_left].
  rewrite <- (IH b) by done. f_equal.
  apply (undo_do_val n); [by rewrite length_fold_val|done|by apply (go_vals d vals n)].
Qed.
Lemma rollback_row d vals k b row n : Z.of_nat (length vals) = n -> Forall (sop_ok n) d -> Forall semval vals -> all_go vals d ->
  holds (bk_undo b) k row ->
  (forall p q, d = p ++ q -> adj_ok n (fold_left do_adj p (su_adj row))) ->
  sem_rollback (rev d) (fold_left do_val d vals) (Some k) (upd_undo k (fold_left do_adj d) b) = (vals, b).
Proof.
  induction d as [|op d IH] using rev_ind; intros Hl Ho Hv Hg Hk Ha; [simpl; by rewrite upd_undo_id|].
  apply Forall_app in Ho as [Ho Hop]. apply Forall_cons_1 in Hop as [Hop _]. apply all_go_app in Hg as [Hg _].
  rewrite rev_app_distr, fold_left_app. cbn [rev app sem_rollback fold_left].
  rewrite <- IH; [|done..|intros p q E; apply (Ha p (q ++ [op])); by rewrite E, app_assoc]. f_equal.
  - apply (undo_do_val n); [by rewrite length_fold_val|done|by apply (go_vals d vals n)].
  - assert (H0 : undo_adj b k = su_adj row) by (unfold undo_adj; unfold holds in Hk; by rewrite Hk).
    destruct (has (sem_flg op) G_SEM_UNDO) eqn:Eu.
    + rewrite upd_undo_upd. apply upd_undo_ext. rewrite H0, fold_left_app. cbn [fold_left].
      apply (undo_do_adj n); [by apply (Ha d [op])|done|done].
    + apply upd_undo_ext. rewrite H0, fold_left_app. cbn [fold_left]. unfold do_adj at 1, undoes. by rewrite Eu.
Qed.

(** ** [sem_try_op] *)
Definition set_ok (s : SemSet) : Prop :=
  0 < ss_id s /\ 0 < ss_nsems s /\ Z.of_nat (length (ss_val s)) = ss_nsems s /\
  Z.of_nat (length (ss_lpid s)) = ss_nsems s /\ Forall semval (ss_val s).
(** The vector waits: a prefix goes ahead and the next operation has to wait. *)
Definition stuck_at (vals : list Z) (sops : list GSembuf) (i : Z) : Prop :=
  exists d op rest, sops = d ++ op :: rest /\ i = Z.of_nat (length d) /\ all_go vals d /\ waits (fold_left do_val d vals) op.
(** The set after a vector that went through. *)
Definition committed (e : IpcEnv) (pid : Z) (sops : list GSembuf) (s : SemSet) : SemSet :=
  mkSet (ss_id s) (ss_key s) (ss_nsems s) (ss_perm s) (e_time e) (ss_ctime s) (fold_left do_val sops (ss_val s))
    (fold_left (fun l op => put_z l (sem_num op) pid) sops (ss_lpid s)) (ss_cpid s) pid.

Lemma insert_id {A} (l : list A) i x : l !! i = Some x -> <[i := x]> l = l.
Proof. apply list_insert_id. Qed.
Lemma set_sem_id f b : f (bk_sem b) = bk_sem b -> set_sem f b = b.
Proof. intros Hf. unfold set_sem. rewrite Hf. apply broker_eta. Qed.
Lemma undo_find_sem e pid s b u b' : sem_undo_find e pid s b = (u, b') -> bk_sem b' = bk_sem b.
Proof.
  intros H. apply undo_find_spec in H. destruct u as [k|]; [|by subst].
  by destruct H as (row & _ & _ & _ & [->|(_ & _ & -> & _)]).
Qed.
Lemma sops_in n sops : Forall sembuf_ok sops -> existsb (fun op => n <=? sem_num op) sops = false -> Forall (sop_ok n) sops.
Proof.
  induction sops as [|op l IH]; intros H E; [done|]. apply Forall_cons_1 in H as [Ho H]. cbn [existsb] in E.
  apply orb_false_iff in E as [E1 E2]. constructor; [|by apply IH]. unfold sembuf_ok, sop_ok in *. lia.
Qed.

(** The state after a rollback: as before, up to a row just made. *)
Lemma rolled_back e pid s si b d u' b' : rows_ok (ss_id s) (ss_nsems s) (bk_undo b) -> set_ok s -> holds (bk_sem b) si s ->
  Forall (sop_ok (ss_nsems s)) d -> all_go (ss_val s) d -> undone e pid s None b d u' b' ->
  exists base, (base = b \/ exists k, sem_undo_find e pid s b = (Some k, base)) /\
    (let '(vals, b) := sem_rollback (rev d) (fold_left do_val d (ss_val s)) u' b' in upd_set si (with_vals vals s) b) = base.
Proof.
  intros Hr (_ & _ & Hl & _ & Hv) Hs Ho Hg Hu. assert (Hw : with_vals (ss_val s) s = s) by by destruct s.
  destruct u' as [k|].
  - destruct Hu as (base & [[? _]|[_ Hf]] & -> & (row & Hk & _) & Ha); [done|].
    assert (Hadj : undo_adj base k = su_adj row) by by apply row_adj. rewrite Hadj in Ha.
    rewrite (rollback_row d _ k base row (ss_nsems s)) by done. exists base. split; [right; by exists k|].
    rewrite Hw. apply set_sem_id, insert_id. by rewrite (undo_find_sem _ _ _ _ _ _ Hf).
  - destruct Hu as (_ & -> & _). rewrite (rollback_plain d _ b (ss_nsems s)) by done. exists b. split; [by left|].
    rewrite Hw. by apply set_sem_id, insert_id.
Qed.

Lemma sem_try_spec e si s sops pid blk b t blk' b' :
  rows_ok (ss_id s) (ss_nsems s) (bk_undo b) -> set_ok s -> Forall sembuf_ok sops -> holds (bk_sem b) si s ->
  sem_try_op e si s sops pid blk b = (t, blk', b') ->
  (t = 0 /\ blk' = blk /\ Forall (sop_ok (ss_nsems s)) sops /\ all_go (ss_val s) sops /\
     exists u b1, undone e pid s None b sops u b1 /\ b' = upd_set si (committed e pid sops s) b1) \/
  ((b' = b \/ exists k, sem_undo_find e pid s b = (Some k, b')) /\
    ((t < 0 /\ blk' = blk) \/ (t = 1 /\ Forall (sop_ok (ss_nsems s)) sops /\ stuck_at (ss_val s) sops blk'))).
Proof.
  intros Hr Hs Hop Hsi E. unfold sem_try_op in E. destruct (existsb _ sops) eqn:Ex.
  { injection E as <- <- <-. right. split; [by left|]. left. unfold EFBIG. split; [lia|done]. }
  pose proof (sops_in _ _ Hop Ex) as Ho.
  destruct (sem_loop e pid s sops 0 (ss_val s) None b) as [[[[r i] vals] u] b1] eqn:El.
  apply sem_loop_spec in El; [|by destruct Hs as (?&?&?&?&?)|done|by destruct Hs as (?&?&?&?&?)|done|done].
  destruct El as (d & rest & -> & -> & -> & Hg & Hst & Hu). rewrite ?Z.add_0_l in E.
  assert (Hback : r <> SemDone -> take (Z.to_nat (Z.of_nat (length d))) (d ++ rest) = d).
  { intros _. rewrite Nat2Z.id. by apply take_app_length. }
  destruct (rolled_back e pid s si b d u b1) as (base & Hb & Hroll); [done..|by apply Forall_app in Ho as [? _]|done|done|].
  destruct r as [| |x].
  - left. destruct rest; [|done]. rewrite app_nil_r in *. injection E as <- <- <-.
    do 4 (split; [done|]). by exists u, b1.
  - right. rewrite Hback in E by done. destruct (sem_rollback _ _ _ _) as [vals b2]. subst base. injection E as <- <- <-.
    split; [done|]. right. split; [done|]. split; [done|]. destruct rest as [|op rest]; [done|]. destruct Hst as [Hw _].
    by exists d, op, rest.
  - right. rewrite Hback in E by done. destruct (sem_rollback _ _ _ _) as [vals b2]. subst base. injection E as <- <- <-.
    split; [done|]. left. split; [|done]. destruct rest; [done|]. unfold stopped, EAGAIN, ERANGE, ENOMEM in Hst. lia.
Qed.

(** ** The invariant *)
Definition sets_ok (l : list (option SemSet)) : Prop :=
  length l = SEM_SET_MAX /\ slots set_ok l /\ uniq ss_id l.
(** A row belongs to a set that exists and has its length. *)
Definition undo_ok (sem : list (option SemSet)) (u : SemUndo) : Prop :=
  exists k s, holds sem k s /\ ss_id s = su_semid u /\ adj_ok (ss_nsems s) (su_adj u).
Definition undo_key (u : SemUndo) : Z * Z := (su_pid u, su_semid u).
Definition undos_ok (sem : list (option SemSet)) (l : list (option SemUndo)) (n : Z) : Prop :=
  length l = SEM_UNDO_MAX /\ slots (undo_ok sem) l /\ uniq undo_key l /\ n = count l.

Definition msg_ok (m : GMsg) : Prop :=
  0 < gm_type m /\ gm_size m = Z.of_nat (length (gm_data m)) /\ gm_size m <= G_MSGMAX.
Definition bytes (l : list GMsg) : Z := fold_right (fun m z => gm_size m + z) 0 l.
Definition queue_ok (q : MsgQ) : Prop :=
  0 < mq_id q /\ Forall msg_ok (mq_msgs q) /\ mq_qnum q = Z.of_nat (length (mq_msgs q)) /\
  mq_cbytes q = bytes (mq_msgs q) /\ mq_qnum q < 2 ^ 31 /\ mq_cbytes q < 2 ^ 31 /\ 0 <= mq_qbytes q < 2 ^ 31.
Definition queues_ok (l : list (option MsgQ)) : Prop :=
  length l = MSG_QUEUE_MAX /\ slots queue_ok l /\ uniq mq_id l.

Definition parked_ok (p : Parked) : Prop :=
  match p with
  | ParkSem sops blk => Forall sembuf_ok sops /\ 0 <= blk < Z.of_nat (length sops)
  | ParkSnd m => msg_ok m
  | ParkRcv _ _ _ => True
  end.
Definition waits_ok (l : list (option Waiter)) (seq n : Z) : Prop :=
  length l = IPC_WAITER_MAX /\ slots (fun w => 0 < wt_seq w < seq /\ parked_ok (wt_op w)) l /\ uniq wt_seq l /\
  n = count l /\ 0 < seq.

Definition seg_ok (s : Seg) : Prop :=
  0 < sg_id s /\ (length (sg_att s) <= SHM_ATT_TRACK)%nat /\ NoDup (map sa_pid (sg_att s)).
Definition segs_ok (l : list (option Seg)) : Prop :=
  length l = SHM_SEG_MAX /\ slots seg_ok l /\ uniq sg_id l.
Definition next_ok (n : Z) : Prop := 0 < n < 2 ^ 31.

Record broker_ok (b : Broker) : Prop := mkOk {
  ok_sem : sets_ok (bk_sem b);
  ok_undo : undos_ok (bk_sem b) (bk_undo b) (bk_nundo b);
  ok_msq : queues_ok (bk_msq b);
  ok_wait : waits_ok (bk_wait b) (bk_wait_seq b) (bk_nwait b);
  ok_seg : segs_ok (bk_seg b);
  ok_next : next_ok (bk_next_sem b) /\ next_ok (bk_next_msq b) /\ next_ok (bk_next_shm b)
}.

(** ** One part changed *)
Create HintDb ipc.
Lemma ok_set_msq f b : broker_ok b -> queues_ok (f (bk_msq b)) -> broker_ok (set_msq f b).
Proof. by intros [] ?; constructor. Qed.
Lemma ok_set_seg f b : broker_ok b -> segs_ok (f (bk_seg b)) -> broker_ok (set_seg f b).
Proof. by intros [] ?; constructor. Qed.
Lemma ok_set_wait f dn ds b : broker_ok b -> waits_ok (f (bk_wait b)) (bk_wait_seq b + ds) (bk_nwait b + dn) ->
  broker_ok (set_wait f dn ds b).
Proof. by intros [] ?; constructor. Qed.
Lemma ok_set_undo f dn b : broker_ok b -> undos_ok (bk_sem b) (f (bk_undo b)) (bk_nundo b + dn) ->
  broker_ok (set_undo f dn b).
Proof. by intros [] ?; constructor. Qed.
Lemma ok_set_shmlock f b : broker_ok b -> broker_ok (set_shmlock f b).
Proof. by intros []; constructor. Qed.
Lemma ok_send o b : broker_ok b -> broker_ok (send o b).
Proof. by intros []; constructor. Qed.
Lemma ok_set_next s m h b : broker_ok b -> next_ok s -> next_ok m -> next_ok h -> broker_ok (set_next s m h b).
Proof. by intros [] ? ? ?; constructor. Qed.
#[export] Hint Resolve ok_send ok_set_shmlock : ipc.

(** Entries of a table. *)
Lemma sets_put l i s s0 : sets_ok l -> holds l i s0 -> ss_id s = ss_id s0 -> set_ok s -> sets_ok (<[i := Some s]> l).
Proof.
  intros (Hl & Hs & Hu) Hi Hid Ho. split; [by rewrite length_insert|]. split; [by apply slots_put|]. by apply (uniq_same _ _ _ s0).
Qed.
Lemma queues_put l i q q0 : queues_ok l -> holds l i q0 -> mq_id q = mq_id q0 -> queue_ok q -> queues_ok (<[i := Some q]> l).
Proof.
  intros (Hl & Hs & Hu) Hi Hid Ho. split; [by rewrite length_insert|]. split; [by apply slots_put|]. by apply (uniq_same _ _ _ q0).
Qed.
Lemma segs_put l i s s0 : segs_ok l -> holds l i s0 -> sg_id s = sg_id s0 -> seg_ok s -> segs_ok (<[i := Some s]> l).
Proof.
  intros (Hl & Hs & Hu) Hi Hid Ho. split; [by rewrite length_insert|]. split; [by apply slots_put|]. by apply (uniq_same _ _ _ s0).
Qed.
Lemma segs_del l i : segs_ok l -> segs_ok (<[i := None]> l).
Proof. intros (Hl & Hs & Hu). split; [by rewrite length_insert|]. split; [by apply slots_del|by apply uniq_del]. Qed.
Lemma queues_del l i : queues_ok l -> queues_ok (<[i := None]> l).
Proof. intros (Hl & Hs & Hu). split; [by rewrite length_insert|]. split; [by apply slots_del|by apply uniq_del]. Qed.
(** The rows still fit when a set of their length and id takes the slot. *)
Lemma undo_ok_put sem i s s0 u : holds sem i s0 -> ss_id s = ss_id s0 -> ss_nsems s = ss_nsems s0 ->
  undo_ok sem u -> undo_ok (<[i := Some s]> sem) u.
Proof.
  intros Hi Hid Hn (k & t & Hk & Ht & Ha). destruct (decide (i = k)) as [->|Hne].
  - assert (t = s0) as -> by (unfold holds in *; congruence). exists k, s. split; [by apply holds_put_eq, (holds_lt _ _ s0)|].
    split; [congruence|]. by rewrite Hn.
  - exists k, t. split; [by apply holds_put_ne|done].
Qed.
Lemma ok_upd_set i s s0 b : broker_ok b -> holds (bk_sem b) i s0 -> ss_id s = ss_id s0 -> ss_nsems s = ss_nsems s0 ->
  set_ok s -> broker_ok (upd_set i s b).
Proof.
  intros [] Hi Hid Hn Hs. constructor; [|destruct ok_undo0 as (Hl & Hr & Hu & Hc)|done..].
  - by apply (sets_put _ _ _ s0).
  - split; [done|]. split; [|done]. eapply slots_mono; [|done]. intros u. by apply (undo_ok_put _ _ _ s0).
Qed.

(** ** Lookups and ids *)
Lemma sem_find_some id b i s : sem_find id b = Some (i, s) -> holds (bk_sem b) i s /\ ss_id s = id.
Proof. unfold sem_find. destruct (id <=? 0); [done|]. intros [H E]%find_slot_some. split; [done|lia]. Qed.
Lemma msg_find_some id b i q : msg_find id b = Some (i, q) -> holds (bk_msq b) i q /\ mq_id q = id.
Proof. unfold msg_find. destruct (id <=? 0); [done|]. intros [H E]%find_slot_some. split; [done|lia]. Qed.
Lemma shm_find_some id b i s : shm_find id b = Some (i, s) -> holds (bk_seg b) i s /\ sg_id s = id.
Proof. unfold shm_find. destruct (id <=? 0); [done|]. intros [H E]%find_slot_some. split; [done|lia]. Qed.

Lemma bump_ok n : next_ok n -> next_ok (bump n).
Proof.
  unfold next_ok, bump. intros H. destruct (s32 (n + 1) <=? 0) eqn:E; [lia|].
  assert (- 2 ^ 31 <= s32 (n + 1) < 2 ^ 31) by (apply (signed_range 32); lia). lia.
Qed.
Lemma alloc_id_ok k taken next o n : next_ok next -> alloc_id k taken next = (o, n) ->
  next_ok n /\ match o with Some id => 0 < id /\ taken id = false | None => True end.
Proof.
  revert next. induction k as [|k IH]; intros next Hn E; cbn [alloc_id] in E; [by simplify_eq|].
  destruct ((0 <? next) && negb (taken next)) eqn:C.
  - injection E as <- <-. split; [by apply bump_ok|]. split; [lia|]. by destruct (taken next); [lia|].
  - apply (IH (bump next)); [by apply bump_ok|done].
Qed.
(** An id that no lookup finds is in no slot. *)
Lemma fresh_id {A} (f : A -> Z) l id j x : 0 < id -> used (if id <=? 0 then None else find_slot (fun y => f y =? id) l) = false ->
  holds l j x -> f x <> id.
Proof.
  intros Hid Hu Hx. destruct (Z.leb_spec id 0); [lia|]. destruct (find_slot _ l) eqn:E; [done|].
  apply (find_slot_none _ _ _ _ E) in Hx. lia.
Qed.
Lemma free_not_held {A} (l : list (option A)) i x : empty_slot l = Some i -> ~ holds l i x.
Proof. intros H%empty_slot_some Hx. unfold holds in Hx. congruence. Qed.

(** ** The get calls *)
Lemma ok_new_set slot s b : broker_ok b -> empty_slot (bk_sem b) = Some slot -> set_ok s ->
  (forall j x, holds (bk_sem b) j x -> ss_id x <> ss_id s) -> broker_ok (upd_set slot s b).
Proof.
  intros [(Hl & Hs & Hu) (Hul & Hur & Huu & Huc) ? ? ? ?] Hf Ho Hn. constructor; [|split; [done|split; [|done]]|done..].
  - cbn [upd_set set_sem bk_sem]. split; [by rewrite length_insert|]. split; [by apply slots_put|by apply uniq_new].
  - eapply slots_mono; [|done]. intros u (k & t & Hk & Ht). exists k, t. split; [|done].
    apply holds_put_ne; [|done]. intros <-. by apply (free_not_held _ _ t) in Hf.
Qed.
Lemma zeros_set id key n perm ot ct c t : 0 < id -> 0 < n ->
  set_ok (mkSet id key n perm ot ct (replicate (Z.to_nat n) 0) (replicate (Z.to_nat n) 0) c t).
Proof.
  intros. unfold set_ok; cbn. rewrite length_replicate. do 4 (split; [lia|]). apply Forall_replicate. unfold semval, G_SEMVMX. lia.
Qed.
Lemma same_set s b i s0 : broker_ok b -> holds (bk_sem b) i s0 -> ss_id s = ss_id s0 -> ss_nsems s = ss_nsems s0 ->
  ss_val s = ss_val s0 -> ss_lpid s = ss_lpid s0 -> set_ok s.
Proof.
  intros Hb Hi E1 E2 E3 E4. destruct (ok_sem b Hb) as (_ & Hs & _). specialize (Hs i s0 Hi). unfold set_ok in *.
  by rewrite E1, E2, E3, E4.
Qed.
(** What a get call comes down to. *)
Lemma ok_sem_get e q b r b' : broker_ok b -> breq_ok q -> sem_do_get e q b = (r, b') -> broker_ok b'.
Proof.
  intros Hb (Hsz & _) E. unfold sem_do_get in E.
  match type of E with (if _ then ?c else _) = _ => set (create := c) in E end.
  assert (Hc : create = (r, b') -> broker_ok b').
  { clear E. subst create. case_match; [by intros [= _ <-]|]. destruct (empty_slot (bk_sem b)) as [slot|] eqn:Ef; [|by intros [= _ <-]].
    unfold sem_alloc_id. destruct (alloc_id _ _ _) as [o n] eqn:Ea.
    apply alloc_id_ok in Ea as [Hn Hid]; [|by apply Hb]. destruct (ok_next b Hb) as (_ & ? & ?).
    assert (Hb' : broker_ok (set_next n (bk_next_msq b) (bk_next_shm b) b)) by by apply ok_set_next.
    destruct o as [id|]; [|by intros [= _ <-]]. destruct Hid as [Hid Hfr]. case_match; [by intros [= _ <-]|].
    intros [= _ <-]. apply ok_new_set; [done|done|apply zeros_set; unfold fits in *; lia|].
    intros j x. by apply (fresh_id ss_id). }
  destruct (q_key q =? 0); [by apply Hc|]. destruct (find_slot _ _) as [[i s]|] eqn:Ef.
  - injection E as _ <-. case_match; [done|]. apply find_slot_some in Ef as [Hi _].
    apply (ok_upd_set i _ s); [done..|]. by apply (same_set _ b i s).
  - case_match; [by simplify_eq|by apply Hc].
Qed.
Lemma ok_new_queue slot q b : broker_ok b -> empty_slot (bk_msq b) = Some slot -> queue_ok q ->
  (forall j x, holds (bk_msq b) j x -> mq_id x <> mq_id q) -> broker_ok (set_msq <[slot := Some q]> b).
Proof.
  intros Hb Hf Ho Hn. apply ok_set_msq; [done|]. destruct (ok_msq b Hb) as (Hl & Hs & Hu).
  split; [by rewrite length_insert|]. split; [by apply slots_put|by apply uniq_new].
Qed.
Lemma ok_upd_queue i q q0 b : broker_ok b -> holds (bk_msq b) i q0 -> mq_id q = mq_id q0 -> queue_ok q ->
  broker_ok (set_msq <[i := Some q]> b).
Proof. intros Hb Hi Hid Ho. apply ok_set_msq; [done|]. apply (queues_put _ _ _ q0); [by apply Hb|done..]. Qed.
Lemma queue_held b i q : broker_ok b -> holds (bk_msq b) i q -> queue_ok q.
Proof. intros Hb. by apply (ok_msq b Hb). Qed.
Lemma set_held b i s : broker_ok b -> holds (bk_sem b) i s -> set_ok s.
Proof. intros Hb. by apply (ok_sem b Hb). Qed.
Lemma seg_held b i s : broker_ok b -> holds (bk_seg b) i s -> seg_ok s.
Proof. intros Hb. by apply (ok_seg b Hb). Qed.
Lemma ok_msg_get e q b r b' : broker_ok b -> msg_do_get e q b = (r, b') -> broker_ok b'.
Proof.
  intros Hb E. unfold msg_do_get in E.
  match type of E with (if _ then ?c else _) = _ => set (create := c) in E end.
  assert (Hc : create = (r, b') -> broker_ok b').
  { clear E. subst create. destruct (empty_slot (bk_msq b)) as [slot|] eqn:Ef; [|by intros [= _ <-]].
    unfold msg_alloc_id. destruct (alloc_id _ _ _) as [o n] eqn:Ea.
    apply alloc_id_ok in Ea as [Hn Hid]; [|by apply Hb]. destruct (ok_next b Hb) as (? & _ & ?).
    assert (Hb' : broker_ok (set_next (bk_next_sem b) n (bk_next_shm b) b)) by by apply ok_set_next.
    destruct o as [id|]; [|by intros [= _ <-]]. destruct Hid as [Hid Hfr].
    intros [= _ <-]. apply ok_new_queue; [done|done| |].
    - unfold queue_ok, G_MSGMNB; cbn. repeat split; [lia|constructor|..]; lia.
    - intros j x. by apply (fresh_id mq_id). }
  destruct (q_key q =? 0); [by apply Hc|]. destruct (find_slot _ _) as [[i s]|] eqn:Ef.
  - injection E as _ <-. case_match; [done|]. apply find_slot_some in Ef as [Hi _].
    apply (ok_upd_queue i _ s); [done..|]. exact (queue_held b i s Hb Hi).
  - case_match; [by simplify_eq|by apply Hc].
Qed.

(** ** Undo rows *)
Lemma rows_of b k s : broker_ok b -> holds (bk_sem b) k s -> rows_ok (ss_id s) (ss_nsems s) (bk_undo b).
Proof.
  intros Hb Hk i u Hi Hid. destruct (ok_undo b Hb) as (_ & Hr & _). destruct (Hr i u Hi) as (k' & s' & Hk' & Hs' & Ha).
  destruct (ok_sem b Hb) as (_ & _ & Hu). assert (k' = k) as -> by (apply (Hu k' k s' s); [done|done|congruence]).
  assert (s' = s) as -> by (unfold holds in *; congruence). done.
Qed.
Lemma ok_undo_find e pid s k b u b' : broker_ok b -> holds (bk_sem b) k s -> sem_undo_find e pid s b = (u, b') -> broker_ok b'.
Proof.
  intros Hb Hk E. apply undo_find_spec in E. destruct u as [j|]; [|by subst].
  destruct E as (row & _ & _ & _ & [->|(Hj & -> & -> & Hn)]); [done|].
  apply ok_set_undo; [done|]. destruct (ok_undo b Hb) as (Hl & Hr & Hu & Hc). split; [by rewrite length_insert|].
  destruct (set_held b k s Hb Hk) as (_ & ? & _).
  split; [|split; [apply uniq_new; [done|]|]].
  - apply slots_put; [done|]. exists k, s. split; [done|]. split; [done|]. by apply zeros_adj; lia.
  - intros i x Hx [= E1 E2]. specialize (Hn i x Hx). unfold undo_is in Hn. lia.
  - rewrite (count_insert _ _ None) by done. cbn [used]. lia.
Qed.
Lemma alter_held {A} (f : option A -> option A) l k x : holds l k x -> alter f k l = <[k := f (Some x)]> l.
Proof.
  unfold holds. intros H. rewrite list_insert_alter. apply list_alter_ext; [|done]. intros y Hy. by simplify_eq.
Qed.
Lemma ok_upd_undo k row n f s b : broker_ok b -> holds (bk_undo b) k row -> holds (bk_sem b) n s -> ss_id s = su_semid row ->
  adj_ok (ss_nsems s) (f (su_adj row)) -> broker_ok (upd_undo k f b).
Proof.
  intros Hb Hk Hn Hs Ha. apply ok_set_undo; [done|]. destruct (ok_undo b Hb) as (Hl & Hr & Hu & Hc).
  erewrite alter_held by exact Hk. cbn [option_map].
  split; [by rewrite length_insert|]. split; [|split].
  - apply slots_put; [done|]. by exists n, s.
  - by apply (uniq_same _ _ _ row).
  - rewrite (count_insert _ _ (Some row)) by done. cbn [used]. lia.
Qed.
Lemma length_stamp pid sops l : length (fold_left (fun l op => put_z l (sem_num op) pid) sops l) = length l.
Proof. revert l. induction sops as [|op r IH]; intros l; [done|]. cbn [fold_left]. by rewrite IH, length_put. Qed.
Lemma ok_sem_try e si s sops pid blk b t blk' b' : broker_ok b -> Forall sembuf_ok sops -> holds (bk_sem b) si s ->
  sem_try_op e si s sops pid blk b = (t, blk', b') -> broker_ok b'.
Proof.
  intros Hb Ho Hs E. pose proof (set_held b si s Hb Hs) as Hok. apply sem_try_spec in E; [|by eapply rows_of|done..].
  destruct E as [(_ & _ & Hsop & Hg & u & b1 & Hu & ->)|[[->|[k Hk]] _]]; [|done|by eapply ok_undo_find].
  assert (H1 : broker_ok b1 /\ bk_sem b1 = bk_sem b).
  { destruct u as [k|]; [|by destruct Hu as (_ & -> & _)].
    destruct Hu as (base & [[? _]|[_ Hf]] & -> & (row & Hk & Hid) & Ha); [done|].
    pose proof (undo_find_sem _ _ _ _ _ _ Hf) as Hsem. split; [|done].
    apply (ok_upd_undo k row si _ s); [by eapply ok_undo_find|done|by rewrite Hsem|done|].
    rewrite <- (row_adj base k row Hk). apply (Ha sops []). by rewrite app_nil_r. }
  destruct H1 as [Hb1 Hsem]. apply (ok_upd_set si _ s); [done|by rewrite Hsem|done..|].
  destruct Hok as (H0 & Hn & Hl & Hlp & Hv). unfold set_ok, committed; cbn. do 2 (split; [done|]).
  split; [by rewrite length_fold_val|]. split; [|by apply (go_vals sops _ (ss_nsems s))].
  by rewrite length_stamp.
Qed.
Lemma count_map {A} (g : option A -> option A) l : (forall o, used (g o) = used o) -> count (map g l) = count l.
Proof. intros Hg. induction l as [|o l IH]; [done|]. cbn [map]. rewrite !count_cons, IH, Hg. done. Qed.
Lemma ok_map_undo g b : broker_ok b -> (forall u, undo_key (g u) = undo_key u) ->
  (forall u, undo_ok (bk_sem b) u -> undo_ok (bk_sem b) (g u)) -> broker_ok (set_undo (map (option_map g)) 0 b).
Proof.
  intros Hb Hkey Hg. apply ok_set_undo; [done|]. destruct (ok_undo b Hb) as (Hl & Hr & Hu & Hc).
  split; [by rewrite length_map|]. split; [|split].
  - intros i u ([x|] & Hx & [= <-])%holds_map. by apply Hg, (Hr i).
  - intros i j u v ([x|] & Hx & [= <-])%holds_map ([y|] & Hy & [= <-])%holds_map. rewrite !Hkey. by apply Hu.
  - rewrite count_map by by intros []. lia.
Qed.
Lemma ok_undo_clear id n b : broker_ok b -> (match n with Some i => 0 <= i | None => True end) ->
  broker_ok (sem_undo_clear id n b).
Proof.
  intros Hb Hn. unfold sem_undo_clear. destruct (sem_find id b) as [[k s]|] eqn:E; [|done].
  apply ok_map_undo; [done|by intros u; destruct (su_semid u =? id)|]. intros u (j & t & Hj & Ht & Hl & Hf).
  destruct (su_semid u =? id); [|by exists j, t]. exists j, t. split; [done|]. split; [done|]. cbn [su_adj].
  assert (Z0 : semadj 0) by (unfold semadj, G_SEMAEM; lia).
  destruct n as [i|]; [case_match; [|done]|]; split.
  - by rewrite length_put.
  - by apply Forall_put.
  - by rewrite length_replicate.
  - by apply Forall_replicate.
Qed.

Lemma undo_apply_spec pid adj vals lpids vs ls t : length adj = length vals -> length lpids = length vals ->
  Forall semval vals -> undo_apply_loop pid adj vals lpids = (vs, ls, t) ->
  length vs = length vals /\ length ls = length vals /\ Forall semval vs /\
  forall i, at_z vs i = Z.min (Z.max (at_z vals i + at_z adj i) 0) G_SEMVMX.
Proof.
  unfold at_z. revert adj lpids vs ls t. induction vals as [|v vals IH]; intros [|a adj] [|l lpids] vs ls t Ha Hl Hv E; try done.
  { injection E as <- <- _. do 3 (split; [done|]). intros i. destruct (Z.to_nat i); done. }
  apply Forall_cons_1 in Hv as [Hv Hvs]. cbn [undo_apply_loop] in E.
  destruct (undo_apply_loop pid adj vals lpids) as [[vs' ls'] t'] eqn:El.
  apply IH in El as (H1 & H2 & H3 & H4); [|by injection Ha|by injection Hl|done].
  assert (Hb : semval (Z.min (Z.max (v + a) 0) G_SEMVMX)) by (unfold semval, G_SEMVMX; lia).
  assert (Hi : forall k, nth k vs' 0 = Z.min (Z.max (nth k vals 0 + nth k adj 0) 0) G_SEMVMX).
  { intros k. specialize (H4 (Z.of_nat k)). by rewrite Nat2Z.id in H4. }
  rewrite u16_small in E by (unfold semval, fits, G_SEMVMX in *; lia).
  destruct (Z.eqb_spec a 0) as [->|]; injection E as <- <- _; cbn [length]; (split; [lia|]); (split; [lia|]);
    (split; [by constructor|]); intros i; (destruct (Z.to_nat i); cbn [nth]; [|apply Hi]); unfold semval in *; lia.
Qed.
Lemma ok_undo_free i u b : broker_ok b -> holds (bk_undo b) i u -> broker_ok (sem_undo_free i b).
Proof.
  intros Hb Hi. apply ok_set_undo; [done|]. destruct (ok_undo b Hb) as (Hl & Hr & Hu & Hc).
  split; [by rewrite length_insert|]. split; [by apply slots_del|]. split; [by apply uniq_del|].
  rewrite (count_insert _ _ (Some u)) by done. cbn [used]. lia.
Qed.
Lemma ok_undo_apply e i u b : broker_ok b -> holds (bk_undo b) i u -> broker_ok (sem_undo_apply e i u b).
Proof.
  intros Hb Hi. unfold sem_undo_apply. destruct (sem_find (su_semid u) b) as [[k s]|] eqn:E; [|by apply (ok_undo_free i u)].
  apply sem_find_some in E as [Hk Hs]. destruct (undo_apply_loop _ _ _ _) as [[vs ls] t] eqn:El.
  destruct (set_held b k s Hb Hk) as (H0 & Hn & Hl & Hlp & Hv). destruct (rows_of b k s Hb Hk i u Hi (eq_sym Hs)) as [Ha _].
  apply undo_apply_spec in El as (H1 & H2 & H3 & _); [|lia|lia|done].
  apply (ok_undo_free i u); [|done]. apply (ok_upd_set k _ s); [done..|].
  unfold set_ok; cbn. do 2 (split; [done|]). split; [lia|]. split; [lia|done].
Qed.
Lemma count_drop id l : count (map (fun o => if is_row id o then None else o) l) = count l - Z.of_nat (length (List.filter (is_row id) l)).
Proof.
  induction l as [|o l IH]; [done|]. cbn [map List.filter]. rewrite !count_cons, IH.
  destruct o as [u|]; cbn; [|lia]. destruct (su_semid u =? id); cbn; lia.
Qed.
Lemma ok_free_set i s b : broker_ok b -> holds (bk_sem b) i s -> broker_ok (sem_free_set i s b).
Proof.
  intros [(Hl & Hs & Hu) (Hul & Hur & Huu & Huc) ? ? ? ?] Hi.
  assert (Hkeep : forall j u, holds (map (fun o => if is_row (ss_id s) o then None else o) (bk_undo b)) j u ->
    holds (bk_undo b) j u /\ su_semid u <> ss_id s).
  { intros j u (o & Ho & E)%holds_map. destruct (is_row (ss_id s) o) eqn:Er; [done|]. subst o. split; [done|]. cbn in Er. lia. }
  constructor; cbn [sem_free_set set_sem set_undo bk_sem bk_undo bk_nundo]; [..|done|done|done|done].
  - split; [by rewrite length_insert|]. split; [by apply slots_del|by apply uniq_del].
  - split; [by rewrite length_map|]. split; [|split].
    + intros j u [Hj Hne]%Hkeep. destruct (Hur j u Hj) as (k & t & Hk & Ht & Ha). exists k, t. split; [|done].
      apply holds_put_ne; [|done]. intros <-. unfold holds in *. apply Hne. congruence.
    + intros j k u v [Hj _]%Hkeep [Hk _]%Hkeep. by apply Huu.
    + rewrite count_drop. lia.
Qed.

(** ** Queues *)
Lemma bytes_app l l' : bytes (l ++ l') = bytes l + bytes l'.
Proof. induction l as [|m l IH]; cbn [app bytes fold_right]; [done|]. fold (bytes (l ++ l')) (bytes l). lia. Qed.
Lemma bytes_nonneg l : Forall msg_ok l -> 0 <= bytes l.
Proof. induction 1 as [|m l (_ & Hm & _) _ IH]; cbn [bytes fold_right]; [lia|]. fold (bytes l). lia. Qed.
Lemma bytes_delete l j m : l !! j = Some m -> bytes (delete j l) = bytes l - gm_size m.
Proof.
  intros H. rewrite <- (take_drop_middle l j m H) at 2. rewrite delete_take_drop, !bytes_app. cbn [bytes fold_right].
  fold (bytes (drop (S j) l)). lia.
Qed.
Lemma pick_loop_some ty fl l k best j m : pick_loop ty fl l k best = Some (j, m) ->
  best = Some (j, m) \/ ((k <= j)%nat /\ l !! (j - k)%nat = Some m).
Proof.
  revert k best. induction l as [|x l IH]; intros k best H; cbn [pick_loop] in H; [by left|].
  assert (Hn : forall o, pick_loop ty fl l (S k) o = Some (j, m) -> o = Some (j, m) \/ ((k <= j)%nat /\ (x :: l) !! (j - k)%nat = Some m)).
  { intros o [?|[Hk ?]]%IH; [by left|]. right. split; [lia|]. by replace (j - k)%nat with (S (j - S k)) by lia. }
  assert (Hhere : Some (k, x) = Some (j, m) -> (k <= j)%nat /\ (x :: l) !! (j - k)%nat = Some m).
  { intros [= -> ->]. split; [lia|]. by rewrite Nat.sub_diag. }
  destruct (negb (msg_matches x ty fl)); [by apply Hn|]. destruct (0 <=? ty); [right; by apply Hhere|].
  apply Hn in H as [H|H]; [|by right]. destruct best as [[i y]|]; [|right; by apply Hhere].
  destruct (gm_type x <? gm_type y); [right; by apply Hhere|by left].
Qed.
Lemma msg_pick_some q ty fl j m : msg_pick q ty fl = Some (j, m) -> mq_msgs q !! j = Some m.
Proof. intros [?|[_ H]]%pick_loop_some; [done|]. by rewrite Nat.sub_0_r in H. Qed.
Lemma queue_take e j m pid q : queue_ok q -> mq_msgs q !! j = Some m -> queue_ok (msg_take e j m pid q).
Proof.
  intros (Hid & Hf & Hn & Hc & Hn' & Hc' & Hq) Hj. pose proof (bytes_nonneg _ (Forall_delete _ _ j Hf)) as Hp.
  rewrite (bytes_delete _ _ _ Hj) in Hp. pose proof (Forall_lookup_1 _ _ _ _ Hf Hj) as (_ & Hm & _).
  pose proof (lookup_lt_Some _ _ _ Hj). unfold queue_ok, msg_take; cbn [mq_id mq_msgs mq_qnum mq_cbytes mq_qbytes].
  rewrite !u64_small by (unfold fits; lia). rewrite (bytes_delete _ _ _ Hj), length_delete by by rewrite Hj.
  split; [done|]. split; [by apply Forall_delete|]. lia.
Qed.
Lemma queue_enqueue e m pid q : queue_ok q -> msg_ok m -> msg_fits q (gm_size m) = true -> queue_ok (msg_enqueue e m pid q).
Proof.
  intros (Hid & Hf & Hn & Hc & Hn' & Hc' & Hq) Hm Hfit. pose proof Hm as (_ & Hsz & Hmax). unfold G_MSGMAX in Hmax.
  pose proof (bytes_nonneg _ Hf). unfold msg_fits in Hfit. rewrite !u64_small in Hfit by (unfold fits; lia).
  unfold queue_ok, msg_enqueue; cbn [mq_id mq_msgs mq_qnum mq_cbytes mq_qbytes]. rewrite !u64_small by (unfold fits; lia). rewrite bytes_app, length_app.
  cbn [bytes fold_right length]. split; [done|]. split; [by apply Forall_app; split; [|constructor]|]. lia.
Qed.

(** ** Waiters *)
Lemma ok_waiter_free i w b : broker_ok b -> holds (bk_wait b) i w -> broker_ok (waiter_free i b).
Proof.
  intros Hb Hi. apply ok_set_wait; [done|]. destruct (ok_wait b Hb) as (Hl & Hs & Hu & Hc & Hq).
  split; [by rewrite length_insert|]. split; [rewrite Z.add_0_r; by apply slots_del|]. split; [by apply uniq_del|].
  split; [|lia]. rewrite (count_insert _ _ (Some w)) by done. cbn [used]. lia.
Qed.
Lemma ok_waiter_reply i w w' r p b : broker_ok b -> holds (bk_wait b) i w -> broker_ok (waiter_reply i w' r p b).
Proof. intros Hb Hi. apply (ok_waiter_free i w); [by apply ok_send|done]. Qed.
#[export] Hint Resolve ok_waiter_free ok_waiter_reply : ipc.
Lemma ok_waiter_park e cfd q op b ok b' : broker_ok b -> parked_ok op -> waiter_park e cfd q op b = (ok, b') -> broker_ok b'.
Proof.
  intros Hb Hp. unfold waiter_park. destruct (empty_slot (bk_wait b)) as [i|] eqn:E; [|by intros [= _ <-]].
  intros [= _ <-]. apply empty_slot_some in E. apply ok_set_wait; [done|]. destruct (ok_wait b Hb) as (Hl & Hs & Hu & Hc & Hq).
  split; [by rewrite length_insert|]. split; [|split; [|split; [|lia]]].
  - apply slots_put; [|cbn; split; [lia|done]]. eapply slots_mono; [|exact Hs]. intros x [? ?]. split; [lia|done].
  - apply uniq_new; [done|]. intros j x Hx. destruct (Hs j x Hx). cbn. lia.
  - rewrite (count_insert _ _ None) by done. cbn [used]. lia.
Qed.
(** A waiter whose blocked operation moved. *)
Lemma ok_reblk i w blk sops b : broker_ok b -> holds (bk_wait b) i w -> wt_op w = ParkSem sops blk ->
  forall blk', 0 <= blk' < Z.of_nat (length sops) ->
  broker_ok (set_wait <[i := Some (mkWaiter (wt_cfd w) (wt_id w) (wt_pid w) (wt_start w) (wt_seq w) (wt_deadline w)
                                     (ParkSem sops blk'))]> 0 0 b).
Proof.
  intros Hb Hi Hop blk' Hlt. apply ok_set_wait; [done|]. destruct (ok_wait b Hb) as (Hl & Hs & Hu & Hc & Hq).
  destruct (Hs i w Hi) as [? Hp]. rewrite Hop in Hp. destruct Hp as [Hp _]. rewrite !Z.add_0_r.
  split; [by rewrite length_insert|]. split; [by apply slots_put|]. split; [by apply (uniq_same _ _ _ w)|].
  split; [|done]. rewrite (count_insert _ _ (Some w)) by done. cbn [used]. lia.
Qed.

Lemma scan_wait_ind (P : Broker -> Prop) n i f b : P b -> (forall j w b, P b -> holds (bk_wait b) j w -> P (f j w b)) ->
  P (scan_wait n i f b).
Proof.
  intros Hb Hf. revert i b Hb. induction n as [|n IH]; intros i b Hb; [done|]. cbn [scan_wait]. apply IH.
  destruct (bk_wait b !! i) as [[w|]|] eqn:E; [|done|done]. by apply Hf.
Qed.
Lemma scan_undo_ind (P : Broker -> Prop) e n i p b : P b ->
  (forall j u b, P b -> holds (bk_undo b) j u -> p u = true -> P (sem_undo_apply e j u b)) -> P (scan_undo e n i p b).
Proof.
  intros Hb Hf. revert i b Hb. induction n as [|n IH]; intros i b Hb; [done|]. cbn [scan_undo]. apply IH.
  destruct (bk_undo b !! i) as [[u|]|] eqn:E; [|done|done]. destruct (p u) eqn:Ep; [by apply Hf|done].
Qed.
Lemma ok_eidrm id sem b : broker_ok b -> broker_ok (waiters_eidrm id sem b).
Proof. intros Hb. unfold waiters_eidrm. apply (scan_wait_ind broker_ok); [done|]. intros. case_match; eauto with ipc. Qed.
Lemma ok_expire now b : broker_ok b -> broker_ok (waiters_expire now b).
Proof. intros Hb. unfold waiters_expire. apply (scan_wait_ind broker_ok); [done|]. intros. case_match; eauto with ipc. Qed.

(** ** The rescan *)
Lemma stuck_lt vals sops i : stuck_at vals sops i -> 0 <= i < Z.of_nat (length sops).
Proof. intros (d & op & rest & -> & -> & _). rewrite length_app. cbn [length]. lia. Qed.
(** [sem_try_op] leaves the other tables alone. *)
Definition same_rest (b b' : Broker) : Prop :=
  bk_wait b' = bk_wait b /\ bk_msq b' = bk_msq b /\ bk_seg b' = bk_seg b /\ bk_nwait b' = bk_nwait b /\
  bk_wait_seq b' = bk_wait_seq b /\ bk_out b' = bk_out b.
Lemma undo_find_rest e pid s b u b' : sem_undo_find e pid s b = (u, b') -> same_rest b b'.
Proof.
  intros H%undo_find_spec. destruct u as [k|]; [|by subst]. by destruct H as (row & _ & _ & _ & [->|(_ & _ & -> & _)]).
Qed.
Lemma try_rest e si s sops pid blk b t blk' b' : broker_ok b -> Forall sembuf_ok sops -> holds (bk_sem b) si s ->
  sem_try_op e si s sops pid blk b = (t, blk', b') -> same_rest b b'.
Proof.
  intros Hb Ho Hs E. apply sem_try_spec in E; [|by eapply rows_of|by eapply set_held|done..].
  destruct E as [(_ & _ & _ & _ & u & b1 & Hu & ->)|[[->|[k Hk]] _]]; [|done|by eapply undo_find_rest].
  destruct u as [k|]; [|by destruct Hu as (_ & -> & _)].
  destruct Hu as (base & [[? _]|[_ Hf]] & -> & _); [done|]. by apply undo_find_rest in Hf.
Qed.
Lemma ok_retry e i w b p b' : broker_ok b -> holds (bk_wait b) i w -> retry e i w b = (p, b') -> broker_ok b'.
Proof.
  intros Hb Hi E. unfold retry in E. destruct (ok_wait b Hb) as (_ & Hs & _). destruct (Hs i w Hi) as [_ Hp].
  destruct (wt_op w) as [sops blk|m|ty sz fl] eqn:Eop.
  - destruct (sem_find (wt_id w) b) as [[si s]|] eqn:Ef; [|injection E as _ <-; eauto with ipc].
    apply sem_find_some in Ef as [Hsi _]. destruct (sem_try_op _ _ _ _ _ _ _) as [[t blk'] b1] eqn:Et.
    assert (Hb1 : broker_ok b1) by (eapply ok_sem_try; [done|by destruct Hp|done|done]).
    assert (Hi1 : holds (bk_wait b1) i w) by (apply try_rest in Et as [-> _]; [done|done|by destruct Hp|done]).
    assert (Hblk : 0 <= blk' < Z.of_nat (length sops)).
    { apply sem_try_spec in Et; [|by eapply rows_of|by apply (set_held b si)|by destruct Hp|done].
      destruct Et as [(_ & -> & _)|[_ [[_ ->]|(_ & _ & H)]]]; [by destruct Hp..|by eapply stuck_lt]. }
    pose proof (ok_reblk i w blk sops b1 Hb1 Hi1 Eop blk' Hblk) as Hb2.
    destruct (t =? 1); injection E as _ <-; [done|].
    eapply ok_waiter_reply; [done|]. by apply holds_put_eq, (holds_lt _ _ w).
  - destruct (msg_find (wt_id w) b) as [[k q]|] eqn:Ef; [|injection E as _ <-; eauto with ipc].
    apply msg_find_some in Ef as [Hk _]. destruct (msg_fits q (gm_size m)) eqn:Em; injection E as _ <-; [|done].
    apply (ok_waiter_reply i w); [|done]. apply (ok_upd_queue k _ q); [done..|]. apply queue_enqueue; [by eapply queue_held|done..].
  - destruct (msg_find (wt_id w) b) as [[k q]|] eqn:Ef; [|injection E as _ <-; eauto with ipc].
    apply msg_find_some in Ef as [Hk _]. destruct (msg_pick q ty fl) as [[j m]|] eqn:Em; [|by injection E as _ <-].
    case_match; injection E as _ <-; [eauto with ipc|]. apply (ok_waiter_reply i w); [|done].
    apply (ok_upd_queue k _ q); [done..|]. apply queue_take; [by eapply queue_held|by eapply msg_pick_some].
Qed.

Lemma next_waiter_spec last l i best :
  match next_waiter last l i best with
  | None => best = None /\ forall j w, holds l j w -> wt_seq w <= last
  | Some (k, w) => (best = Some (k, w) \/ ((i <= k)%nat /\ holds l (k - i) w /\ last < wt_seq w)) /\
      (forall j w', holds l j w' -> last < wt_seq w' -> wt_seq w <= wt_seq w') /\
      (forall kw, best = Some kw -> wt_seq w <= wt_seq (snd kw))
  end.
Proof.
  unfold holds. revert i best. induction l as [|o l IH]; intros i best; cbn [next_waiter].
  { destruct best as [[k w]|]; [|done]. split; [by left|]. split; [done|]. intros kw [= <-]. cbn. lia. }
  destruct o as [x|].
  2: { specialize (IH (S i) best). destruct (next_waiter last l (S i) best) as [[k w]|].
    - destruct IH as (H1 & H2 & H3). split; [destruct H1 as [?|(? & ? & ?)]; [by left|right]|split; [|done]].
      + split; [lia|]. by replace (k - i)%nat with (S (k - S i)) by lia.
      + intros [|j] w' Hj; [done|]. by apply (H2 j).
    - destruct IH as [H1 H2]. split; [done|]. intros [|j] w' Hj; [done|]. by apply (H2 j). }
  set (take := (last <? wt_seq x) && _). specialize (IH (S i) (if take then Some (i, x) else best)).
  destruct (next_waiter last l (S i) _) as [[k w]|].
  - destruct IH as (H1 & H2 & H3). split; [|split].
    + destruct H1 as [H1|(? & ? & ?)].
      * destruct take eqn:Et; [injection H1 as -> ->|by left]. right. rewrite Nat.sub_diag. subst take. split; [lia|].
        split; [done|lia].
      * right. split; [lia|]. by replace (k - i)%nat with (S (k - S i)) by lia.
    + intros [|j] w' Hj Hlt; [injection Hj as <-|by apply (H2 j)]. destruct take eqn:Et; [apply (H3 (i, x) eq_refl)|].
      subst take. destruct best as [[k0 w0]|]; [|lia]. specialize (H3 _ eq_refl). cbn in *. lia.
    + intros [k0 w0] ->. destruct take eqn:Et; [|by apply H3]. specialize (H3 _ eq_refl). subst take. cbn in *. lia.
  - destruct IH as [H1 H2]. destruct take eqn:Et; [done|]. split; [done|]. subst best take.
    intros [|j] w' Hj; [injection Hj as <-|by apply (H2 j)]. lia.
Qed.
Lemma next_waiter_some last l k w : next_waiter last l 0 None = Some (k, w) ->
  holds l k w /\ last < wt_seq w /\ forall j w', holds l j w' -> last < wt_seq w' -> wt_seq w <= wt_seq w'.
Proof.
  intros E. pose proof (next_waiter_spec last l 0 None) as H. rewrite E in H.
  destruct H as ([?|(_ & H1 & H2)] & H3 & _); [done|]. by rewrite Nat.sub_0_r in H1.
Qed.
Lemma next_waiter_none last l j w : next_waiter last l 0 None = None -> holds l j w -> wt_seq w <= last.
Proof. intros E. pose proof (next_waiter_spec last l 0 None) as H. rewrite E in H. apply H. Qed.

Lemma ok_pass n e last p b p' b' : broker_ok b -> rescan_pass n e last p b = (p', b') -> broker_ok b'.
Proof.
  revert last p b. induction n as [|n IH]; intros last p b Hb E; cbn [rescan_pass] in E; [by simplify_eq|].
  destruct (next_waiter last (bk_wait b) 0 None) as [[i w]|] eqn:Ew; [|by simplify_eq].
  destruct (retry e i w b) as [q c] eqn:Er. apply IH in E; [done|]. eapply ok_retry; [done| |done].
  by apply next_waiter_some in Ew as [? _].
Qed.
Lemma ok_rescan e b : broker_ok b -> broker_ok (ipc_rescan e b).
Proof.
  unfold ipc_rescan. generalize (S IPC_WAITER_MAX) at 1. intros n. revert b. induction n as [|n IH]; intros b Hb; [done|].
  cbn [rescan_loop]. case_match; [done|]. destruct (rescan_pass _ e 0 false b) as [p c] eqn:E.
  apply ok_pass in E; [|done]. destruct p; [by apply IH|done].
Qed.

(** ** semctl, msgctl *)
Lemma ok_sem_one e q i s b r b' : broker_ok b -> holds (bk_sem b) i s -> 0 <= q_semnum q -> sem_ctl_one e q i s b = (r, b') ->
  broker_ok b'.
Proof.
  intros Hb Hi Hn E. unfold sem_ctl_one in E. do 4 (case_match; [by simplify_eq|]). case_match; [|by simplify_eq].
  case_match; [by simplify_eq|]. case_match; [by simplify_eq|]. injection E as _ <-.
  pose proof (set_held b i s Hb Hi) as (Ha & Hb0 & Hc & Hd & He).
  assert (Hv : Forall semval (put_z (ss_val s) (q_semnum q) (u16 (q_val q)))).
  { apply Forall_put; [done|]. unfold semval, G_SEMVMX in *. rewrite u16_small by (unfold fits; lia). lia. }
  assert (Hl : forall v, Z.of_nat (length (put_z (ss_val s) (q_semnum q) v)) = ss_nsems s) by by intros; rewrite length_put.
  assert (Hl' : forall v, Z.of_nat (length (put_z (ss_lpid s) (q_semnum q) v)) = ss_nsems s) by by intros; rewrite length_put.
  set (s1 := mkSet _ _ _ _ _ (ss_ctime s) _ _ _ (ss_tpid s)). set (b1 := upd_set i s1 b).
  assert (Hb1 : broker_ok b1) by (apply (ok_upd_set i _ s); [done..|by unfold set_ok; cbn]).
  apply (ok_upd_set i _ s1); [by apply ok_undo_clear| |done..|by unfold set_ok; cbn].
  unfold sem_undo_clear. destruct (sem_find (ss_id s) b1) as [[? ?]|]; apply holds_put_eq, (holds_lt _ _ s); exact Hi.
Qed.
Lemma eidrm_same id sem b : bk_sem (waiters_eidrm id sem b) = bk_sem b /\ bk_msq (waiters_eidrm id sem b) = bk_msq b.
Proof.
  unfold waiters_eidrm. apply (scan_wait_ind (fun c => bk_sem c = bk_sem b /\ bk_msq c = bk_msq b)); [done|].
  intros j w c Hc _. by case_match.
Qed.
Lemma ok_sem_ctl e q b r b' : broker_ok b -> sem_do_ctl e q b = (r, b') -> broker_ok b'.
Proof.
  intros Hb E. unfold sem_do_ctl in E. destruct (_ || _); [destruct (slots_info _ _ _ _) as [[? ?] ?]; by simplify_eq|].
  destruct (_ || _); [destruct (entry_at _ _); [case_match|]; by simplify_eq|].
  destruct (sem_find (q_id q) b) as [[i s]|] eqn:Ef; [|by simplify_eq]. apply sem_find_some in Ef as [Hi _].
  case_match; [by simplify_eq|]. case_match; [case_match; by simplify_eq|].
  case_match; [case_match; injection E as _ <-; [done|apply (ok_upd_set i _ s); [done..|by apply (same_set _ b i s)]]|].
  case_match; [case_match; injection E as _ <-; [done|]|].
  { apply ok_free_set; [by apply ok_eidrm|]. by rewrite (proj1 (eidrm_same _ _ _)). }
  case_match; [case_match; by simplify_eq|]. case_match; [by simplify_eq|].
  destruct (sem_ctl_one e q i s b) as [r1 b1] eqn:E1. injection E as _ <-. eapply ok_sem_one; [done..| |done]. lia.
Qed.
Lemma ok_msg_ctl e q b r b' : broker_ok b -> breq_ok q -> msg_do_ctl e q b = (r, b') -> broker_ok b'.
Proof.
  intros Hb (_ & Hval & _) E. unfold msg_do_ctl in E.
  destruct (_ || _); [destruct (slots_info _ _ _ _) as [[? ?] ?]; destruct (slots_info _ _ _ _) as [[? ?] ?]; by simplify_eq|].
  destruct (_ || _); [destruct (entry_at _ _); [case_match|]; by simplify_eq|].
  destruct (msg_find (q_id q) b) as [[i s]|] eqn:Ef; [|by simplify_eq]. apply msg_find_some in Ef as [Hi _].
  case_match; [case_match; by simplify_eq|]. case_match.
  { do 3 (case_match; [by simplify_eq|]). injection E as _ <-. apply (ok_upd_queue i _ s); [done..|].
    destruct (queue_held b i s Hb Hi) as (? & ? & ? & ? & ? & ? & ?). unfold queue_ok; cbn.
    repeat (split; [done|]). lia. }
  case_match; [case_match; injection E as _ <-; [done|]|by simplify_eq].
  apply ok_set_msq; [by apply ok_eidrm|]. rewrite (proj2 (eidrm_same _ _ _)). by apply queues_del, Hb.
Qed.

(** ** Shared memory *)
Lemma ok_upd_seg i s s0 b : broker_ok b -> holds (bk_seg b) i s0 -> sg_id s = sg_id s0 -> seg_ok s -> broker_ok (upd_seg i s b).
Proof. intros Hb Hi Hid Ho. apply ok_set_seg; [done|]. apply (segs_put _ _ _ s0); [by apply Hb|done..]. Qed.
Lemma ok_shmlock uid make b n b' : broker_ok b -> shmlock_count uid make b = (n, b') -> broker_ok b' /\ bk_seg b' = bk_seg b.
Proof.
  intros Hb E. unfold shmlock_count in E. destruct (lock_row _ _ _); [by simplify_eq|]. case_match; [by simplify_eq|].
  case_match; injection E as _ <-; [|done]. split; [by apply ok_set_shmlock|done].
Qed.
Lemma ok_unlock s b s' b' : broker_ok b -> seg_ok s -> shm_unlock_charge s b = (s', b') ->
  broker_ok b' /\ bk_seg b' = bk_seg b /\ sg_id s' = sg_id s /\ seg_ok s'.
Proof.
  intros Hb Hs E. unfold shm_unlock_charge in E. case_match; [by simplify_eq|].
  destruct (shmlock_count _ _ _) as [n c] eqn:Ec. apply ok_shmlock in Ec as [Hc Es]; [|done]. injection E as <- <-.
  destruct n as [i|]; [|done]. split; [by apply ok_set_shmlock|done].
Qed.
Lemma ok_shm_free i s b : broker_ok b -> seg_ok s -> broker_ok (shm_free i s b).
Proof.
  intros Hb Hs. unfold shm_free. destruct (shm_unlock_charge s b) as [s' b'] eqn:E. apply ok_unlock in E as (Hb' & He & _); [|done..].
  apply ok_set_seg; [done|]. rewrite He. by apply segs_del, Hb.
Qed.

(** The tracked attachers. *)
Definition atts_ok (l : list SegAtt) : Prop := (length l <= SHM_ATT_TRACK)%nat /\ NoDup (map sa_pid l).
Lemma att_index_none pid l i : att_index pid l i = None -> pid ∉ map sa_pid l.
Proof.
  revert i. induction l as [|a l IH]; intros i H; cbn [att_index map] in *; [apply not_elem_of_nil|].
  destruct (Z.eqb_spec (sa_pid a) pid) as [E|E]; [done|]. apply not_elem_of_cons. split; [done|by apply (IH (S i))].
Qed.
Lemma map_alter_pid d i l : map sa_pid (alter (add_n d) i l) = map sa_pid l.
Proof.
  apply list_eq. intros j. rewrite !list_lookup_fmap. destruct (decide (i = j)) as [->|].
  - rewrite list_lookup_alter_eq. by destruct (l !! j).
  - by rewrite list_lookup_alter_ne.
Qed.
Lemma atts_alter d i l : atts_ok l -> atts_ok (alter (add_n d) i l).
Proof. unfold atts_ok. by rewrite length_alter, map_alter_pid. Qed.
Lemma swap_out_perm {A} i (l : list A) x : l !! i = Some x -> l ≡ₚ x :: swap_out i l.
Proof.
  intros Hi. destruct l as [|y l _] using rev_ind; [done|]. unfold swap_out.
  rewrite length_app. cbn [length]. replace (length l + 1 - 1)%nat with (length l) by lia.
  rewrite lookup_app_r, Nat.sub_diag, removelast_last by lia. cbn [lookup list_lookup].
  destruct (Nat.ltb_spec i (length l)) as [Hl|Hl].
  - rewrite lookup_app_l in Hi by done. rewrite <- (take_drop_middle l i x Hi) at 1. rewrite insert_take_drop by done. solve_Permutation.
  - assert (i = length l) as -> by (apply lookup_lt_Some in Hi; rewrite length_app in Hi; cbn in Hi; lia).
    rewrite lookup_app_r, Nat.sub_diag in Hi by lia. injection Hi as <-. solve_Permutation.
Qed.
Lemma atts_swap i l a : atts_ok l -> l !! i = Some a -> atts_ok (swap_out i l).
Proof.
  intros [Hl Hn] Hi. pose proof (swap_out_perm i l a Hi) as Hp. split.
  - apply Permutation_length in Hp. cbn in Hp. lia.
  - apply (Permutation_map sa_pid) in Hp. rewrite Hp in Hn. cbn [map] in Hn. by apply NoDup_cons_1_2 in Hn.
Qed.
Lemma atts_add e pid l : atts_ok l -> atts_ok (shm_att_add e pid l).
Proof.
  intros H. unfold shm_att_add. destruct (att_index pid l 0) as [i|] eqn:E; [by apply atts_alter|].
  destruct (Nat.ltb_spec (length l) SHM_ATT_TRACK); [|done]. destruct H as [Hl Hn]. split; [rewrite length_app; cbn [length]; lia|].
  rewrite map_app. apply list.NoDup_app. split; [done|]. split; [|apply NoDup_singleton].
  intros x Hx ->%list_elem_of_singleton. by apply att_index_none in E.
Qed.
Lemma atts_del pid l : atts_ok l -> atts_ok (shm_att_del pid l).
Proof.
  intros H. unfold shm_att_del. destruct (att_index pid l 0) as [i|]; [|done]. cbv zeta.
  destruct (alter (add_n (-1)) i l !! i) as [a|] eqn:E; [|by apply atts_alter]. case_match; [|by apply atts_alter].
  eapply atts_swap; [by apply atts_alter|done].
Qed.
Lemma seg_att n att lp at' dt s : seg_ok s -> atts_ok att -> seg_ok (with_att n att lp at' dt s).
Proof. intros (? & _ & _) []. done. Qed.
Lemma ok_shm_get e q b r b' : broker_ok b -> shm_do_get e q b = (r, b') -> broker_ok b'.
Proof.
  intros Hb E. unfold shm_do_get in E.
  match type of E with (if _ then ?c else _) = _ => set (create := c) in E end.
  assert (Hc : create = (r, b') -> broker_ok b').
  { clear E. subst create. do 3 (case_match; [by intros [= _ <-]|]).
    destruct (empty_slot (bk_seg b)) as [slot|] eqn:Ef; [|by intros [= _ <-]].
    unfold shm_alloc_id. destruct (alloc_id _ _ _) as [o n] eqn:Ea.
    apply alloc_id_ok in Ea as [Hn Hid]; [|by apply Hb]. destruct (ok_next b Hb) as (? & ? & _).
    assert (Hb' : broker_ok (set_next (bk_next_sem b) (bk_next_msq b) n b)) by by apply ok_set_next.
    destruct o as [id|]; [|by intros [= _ <-]]. destruct Hid as [Hid Hfr]. case_match; [by intros [= _ <-]|].
    intros [= _ <-]. apply ok_set_seg; [done|]. destruct (ok_seg b Hb) as (Hl & Hs & Hu). cbn [bk_seg set_next].
    split; [by rewrite length_insert|]. split.
    - apply slots_put; [done|]. split; [done|]. split; [cbn; lia|constructor].
    - apply uniq_new; [done|]. intros j x. by apply (fresh_id sg_id). }
  destruct (q_key q =? 0); [by apply Hc|]. destruct (find_slot _ _) as [[i s]|]; [by simplify_eq|].
  case_match; [by simplify_eq|by apply Hc].
Qed.
Lemma ok_shm_at e q b r fd b' : broker_ok b -> shm_do_at e q b = (r, fd, b') -> broker_ok b'.
Proof.
  intros Hb E. unfold shm_do_at in E. destruct (shm_find _ _) as [[i s]|] eqn:Ef; [|by simplify_eq].
  apply shm_find_some in Ef as [Hi _]. case_match; [by simplify_eq|]. injection E as _ _ <-.
  pose proof (seg_held b i s Hb Hi) as Hs. apply (ok_upd_seg i _ s); [done..|]. by apply seg_att; [|apply atts_add; apply Hs].
Qed.
Lemma ok_shm_dt e q b r b' : broker_ok b -> shm_do_dt e q b = (r, b') -> broker_ok b'.
Proof.
  intros Hb E. unfold shm_do_dt in E. destruct (shm_find _ _) as [[i s]|] eqn:Ef; [|by simplify_eq].
  apply shm_find_some in Ef as [Hi _]. cbv zeta in E. injection E as _ <-. pose proof (seg_held b i s Hb Hi) as Hs.
  assert (Hs' : forall n, seg_ok (with_att n (shm_att_del (q_pid q) (sg_att s)) (q_pid q) (sg_atime s) (e_time e) s))
    by (intros n; apply seg_att; [done|apply atts_del; apply Hs]).
  assert (Hb' : forall n, broker_ok (upd_seg i (with_att n (shm_att_del (q_pid q) (sg_att s)) (q_pid q) (sg_atime s) (e_time e) s) b))
    by (intros n; by apply (ok_upd_seg i _ s)).
  destruct (_ && _); [by apply ok_shm_free|done].
Qed.
Lemma ok_shm_fork e q b r b' : broker_ok b -> shm_do_fork e q b = (r, b') -> broker_ok b'.
Proof.
  intros Hb E. unfold shm_do_fork in E. destruct (shm_find _ _) as [[i s]|] eqn:Ef; [|by simplify_eq].
  apply shm_find_some in Ef as [Hi _]. injection E as _ <-. pose proof (seg_held b i s Hb Hi) as Hs.
  apply (ok_upd_seg i _ s); [done..|]. by apply seg_att; [|apply atts_add; apply Hs].
Qed.
Lemma ok_shm_lock q i s b r b' : broker_ok b -> holds (bk_seg b) i s -> shm_do_lock q i s b = (r, b') -> broker_ok b'.
Proof.
  intros Hb Hi E. pose proof (seg_held b i s Hb Hi) as Hs. unfold shm_do_lock in E. do 2 (case_match; [by simplify_eq|]).
  case_match.
  { destruct (shm_unlock_charge s b) as [s1 b1] eqn:E1. injection E as _ <-. apply ok_unlock in E1 as (Hb1 & He & Hid & Hs1); [|done..].
    apply (ok_upd_seg i _ s); [done|by rewrite He|done..]. }
  case_match; [by simplify_eq|]. destruct (shmlock_count _ _ _) as [n c] eqn:Ec. apply ok_shmlock in Ec as [Hc He]; [|done].
  case_match; [by simplify_eq|]. injection E as _ <-. destruct n as [k|].
  - apply (ok_upd_seg i _ s); [by apply ok_set_shmlock|cbn; by rewrite He|done..].
  - apply (ok_upd_seg i _ s); [done|by rewrite He|done..].
Qed.
Lemma ok_shm_ctl e q b r b' : broker_ok b -> shm_do_ctl e q b = (r, b') -> broker_ok b'.
Proof.
  intros Hb E. unfold shm_do_ctl in E. destruct (_ || _); [destruct (slots_info _ _ _ _) as [[? ?] ?]; by simplify_eq|].
  destruct (_ || _); [destruct (entry_at _ _); [case_match|]; by simplify_eq|].
  destruct (shm_find _ _) as [[i s]|] eqn:Ef; [|by simplify_eq]. apply shm_find_some in Ef as [Hi _].
  pose proof (seg_held b i s Hb Hi) as Hs. case_match; [case_match; by simplify_eq|].
  case_match; [case_match; injection E as _ <-; [done|by apply (ok_upd_seg i _ s)]|].
  case_match; [case_match; [by simplify_eq|]|].
  { cbv zeta in E. injection E as _ <-. cbn [sg_nattch]. set (s' := mkSeg _ _ _ _ _ _ _ _ _ _ _ _ _ _ _).
    assert (broker_ok (upd_seg i s' b)) by by apply (ok_upd_seg i _ s). case_match; [by apply ok_shm_free|done]. }
  case_match; [|by simplify_eq]. destruct (shm_do_lock q i s b) as [r1 b1] eqn:E1. injection E as _ <-. by eapply ok_shm_lock.
Qed.

(** ** Process death *)
Lemma ok_scan_undo e n i p b : broker_ok b -> broker_ok (scan_undo e n i p b).
Proof. intros Hb. apply (scan_undo_ind broker_ok); [done|]. intros. by apply ok_undo_apply. Qed.
Lemma ok_exit_pid e pid b : broker_ok b -> broker_ok (sem_exit_pid e pid b).
Proof. unfold sem_exit_pid. apply ok_scan_undo. Qed.
Lemma atts_reclaim k e j l n l' n' : atts_ok l -> reclaim_atts k e j l n = (l', n') -> atts_ok l'.
Proof.
  revert j l n. induction k as [|k IH]; intros j l n Hl E; cbn [reclaim_atts] in E; [by simplify_eq|].
  destruct (l !! j) as [a|] eqn:Ej; [|by simplify_eq]. case_match; [by apply IH in E|]. apply IH in E; [done|]. by eapply atts_swap.
Qed.
Lemma scan_seg_ind (P : Broker -> Prop) n i f b : P b -> (forall j s b, P b -> holds (bk_seg b) j s -> P (f j s b)) ->
  P (scan_seg n i f b).
Proof.
  intros Hb Hf. revert i b Hb. induction n as [|n IH]; intros i b Hb; [done|]. cbn [scan_seg]. apply IH.
  destruct (bk_seg b !! i) as [[w|]|] eqn:E; [|done|done]. by apply Hf.
Qed.
Lemma ok_shm_reclaim e b : broker_ok b -> broker_ok (shm_reclaim e b).
Proof.
  intros Hb. unfold shm_reclaim. apply (scan_seg_ind broker_ok); [done|]. clear b Hb. intros j s b Hb Hj.
  pose proof (seg_held b j s Hb Hj) as Hs. destruct (reclaim_atts _ _ _ _ _) as [att n] eqn:E. apply atts_reclaim in E; [|apply Hs].
  cbv zeta. assert (Hs' : seg_ok (with_att n att (sg_lpid s) (sg_atime s) (sg_dtime s) s)) by by apply seg_att.
  assert (Hb' : broker_ok (upd_seg j (with_att n att (sg_lpid s) (sg_atime s) (sg_dtime s) s) b)) by by apply (ok_upd_seg j _ s).
  case_match; [by apply ok_shm_free|done].
Qed.
Definition drop_dead (e : IpcEnv) (i : nat) (w : Waiter) (b : Broker) : Broker :=
  if e_start e (wt_pid w) =? wt_start w then b else waiter_free i b.
Lemma ok_reclaim e b : broker_ok b -> broker_ok (ipc_reclaim e b).
Proof.
  intros Hb. unfold ipc_reclaim. apply ok_rescan, ok_scan_undo. fold (drop_dead e). apply (scan_wait_ind broker_ok).
  - by apply ok_shm_reclaim.
  - intros j w c Hc Hj. unfold drop_dead. case_match; eauto with ipc.
Qed.

(** ** The server *)
Lemma read_n_some {A} n (l v : list A) : read_n n l = Some v -> v = take (Z.to_nat n) l /\ length v = Z.to_nat n.
Proof.
  unfold read_n. destruct (Nat.leb_spec (Z.to_nat n) (length l)) as [H|]; [|done]. intros [= <-].
  split; [done|]. rewrite length_take. lia.
Qed.
Lemma ok_answer cfd rb p b' : broker_ok (snd rb) -> answer cfd rb = (p, b') -> broker_ok b'.
Proof. intros Hb [= _ <-]. by apply ok_send. Qed.
Lemma ok_answer_r cfd rb p b' : broker_ok (snd rb) -> answer_r cfd rb = (p, b') -> broker_ok b'.
Proof. intros Hb [= _ <-]. by apply ok_send. Qed.
Lemma ok_reply cfd r pl fd b p b' : broker_ok b -> reply cfd r pl fd b = (p, b') -> broker_ok b'.
Proof. intros Hb [= _ <-]. by apply ok_send. Qed.
(** A reply on [b] itself. *)
Ltac replied := by first [eapply ok_answer; [|eassumption] | eapply ok_answer_r; [|eassumption] |
                          eapply ok_reply; [|eassumption] | simplify_eq].
(** Parking, or an answer when the table is full. *)
Lemma ok_park e cfd q op x b p b' : broker_ok b -> parked_ok op ->
  (let '(ok, b) := waiter_park e cfd q op b in if ok then (true, b) else answer cfd (x, b)) = (p, b') -> broker_ok b'.
Proof.
  intros Hb Hp E. destruct (waiter_park e cfd q op b) as [ok c] eqn:Ew. apply ok_waiter_park in Ew; [|done..].
  destruct ok; replied.
Qed.
Lemma ok_serve_semop e cfd q b p b' : broker_ok b -> breq_ok q -> serve_semop e cfd q b = (p, b') -> broker_ok b'.
Proof.
  intros Hb (_ & _ & Hq & _) E. unfold serve_semop in E. do 3 (case_match; [replied|]).
  destruct (read_n _ _) as [sops|] eqn:Er; [|replied]. destruct (sem_find _ _) as [[si s]|] eqn:Ef; [|replied].
  apply sem_find_some in Ef as [Hi _]. do 2 (case_match; [replied|]).
  assert (Ho : Forall sembuf_ok sops) by (apply read_n_some in Er as [-> _]; by apply Forall_take).
  destruct (sem_try_op _ _ _ _ _ _ _) as [[t blk] c] eqn:Et. pose proof (ok_sem_try _ _ _ _ _ _ _ _ _ _ Hb Ho Hi Et) as Hc.
  destruct (Z.eqb_spec t 1) as [->|]; [|replied]. eapply ok_park; [done| |done]. split; [done|].
  apply sem_try_spec in Et; [|by eapply rows_of|by apply (set_held b si)|done..].
  destruct Et as [(? & _)|[_ [[? _]|(_ & _ & Hst)]]]; [lia|lia|by eapply stuck_lt].
Qed.
Lemma vals_in_range l : Forall (fits 16) l -> existsb (fun v => G_SEMVMX <? v) l = false -> Forall semval l.
Proof.
  induction 1 as [|v l Hv _ IH]; intros Ex; [done|]. cbn [existsb] in Ex. apply orb_false_iff in Ex as [E1 E2].
  constructor; [|by apply IH]. unfold semval, fits in *. lia.
Qed.
Lemma ok_serve_setall e cfd q b p b' : broker_ok b -> breq_ok q -> serve_setall e cfd q b = (p, b') -> broker_ok b'.
Proof.
  intros Hb (_ & _ & _ & Hq) E. unfold serve_setall in E. do 2 (case_match; [replied|]).
  destruct (read_n _ _) as [vals|] eqn:Er; [|replied]. destruct (sem_find _ _) as [[i s]|] eqn:Ef; [|replied].
  apply sem_find_some in Ef as [Hi _]. do 2 (case_match; [replied|]). destruct (existsb _ vals) eqn:Ex; [replied|].
  eapply ok_answer; [|done]. cbn [snd]. apply read_n_some in Er as [-> Hlen].
  apply (ok_upd_set i _ s); [by apply ok_undo_clear| |done..|].
  { unfold sem_undo_clear. by destruct (sem_find (ss_id s) b) as [[? ?]|]. }
  destruct (set_held b i s Hb Hi) as (Hpos & Hns & _). unfold set_ok; cbn [ss_id ss_nsems ss_val ss_lpid].
  rewrite length_replicate, Hlen. do 2 (split; [done|]). split; [lia|]. split; [lia|].
  apply vals_in_range; [by apply Forall_take|done].
Qed.
Lemma ok_serve_semctl e cfd q b p b' : broker_ok b -> breq_ok q -> serve_semctl e cfd q b = (p, b') -> broker_ok b'.
Proof.
  intros Hb Hq E. unfold serve_semctl in E. case_match; [by eapply ok_serve_setall|].
  destruct (sem_do_ctl e q b) as [r c] eqn:Ec. apply ok_sem_ctl in Ec; [|done]. case_match; replied.
Qed.
Lemma ok_serve_msgsnd e cfd q b p b' : broker_ok b -> breq_ok q -> serve_msgsnd e cfd q b = (p, b') -> broker_ok b'.
Proof.
  intros Hb (Hsz & _) E. unfold serve_msgsnd in E. do 2 (case_match; [replied|]).
  destruct (read_n _ _) as [data|] eqn:Er; [|replied]. apply read_n_some in Er as [_ Hlen].
  assert (Hm : msg_ok (mkMsg (q_mtype q) (q_size q) data)) by (unfold msg_ok, fits in *; cbn; lia).
  destruct (msg_find _ _) as [[k mq]|] eqn:Ef; [|replied]. apply msg_find_some in Ef as [Hk _]. case_match; [replied|].
  destruct (msg_fits mq (q_size q)) eqn:Em.
  { eapply ok_answer; [|done]. apply (ok_upd_queue k _ mq); [done..|]. apply queue_enqueue; [by eapply queue_held|done..]. }
  case_match; [replied|]. eapply (ok_park _ _ _ (ParkSnd _)); [done|exact Hm|exact E].
Qed.
Lemma ok_serve_msgrcv e cfd q b p b' : broker_ok b -> serve_msgrcv e cfd q b = (p, b') -> broker_ok b'.
Proof.
  intros Hb E. unfold serve_msgrcv in E. destruct (msg_find _ _) as [[k mq]|] eqn:Ef; [|replied].
  apply msg_find_some in Ef as [Hk _]. case_match; [replied|]. destruct (msg_pick _ _ _) as [[j m]|] eqn:Em.
  - case_match; [replied|]. eapply ok_reply; [|done]. apply (ok_upd_queue k _ mq); [done..|].
    apply queue_take; [by eapply queue_held|by eapply msg_pick_some].
  - case_match; [replied|]. by eapply (ok_park _ _ _ (ParkRcv _ _ _)).
Qed.
Lemma ok_serve e cfd q b p b' : broker_ok b -> breq_ok q -> ipc_serve e cfd q b = (p, b') -> broker_ok b'.
Proof.
  intros Hb Hq E. unfold ipc_serve in E. destruct (q_op q).
  - eapply ok_answer; [|done]. destruct (shm_do_get _ _ _) eqn:?. by eapply ok_shm_get.
  - destruct (shm_do_at _ _ _) as [[? ?] ?] eqn:?. eapply ok_reply; [|done]. by eapply ok_shm_at.
  - eapply ok_answer; [|done]. destruct (shm_do_dt _ _ _) eqn:?. by eapply ok_shm_dt.
  - eapply ok_answer; [|done]. destruct (shm_do_fork _ _ _) eqn:?. by eapply ok_shm_fork.
  - eapply ok_answer_r; [|done]. destruct (shm_do_ctl _ _ _) eqn:?. by eapply ok_shm_ctl.
  - eapply ok_answer; [|done]. destruct (sem_do_get _ _ _) eqn:?. by eapply ok_sem_get.
  - by eapply ok_serve_semop.
  - by eapply ok_serve_semctl.
  - eapply ok_answer; [|done]. by apply ok_exit_pid.
  - eapply ok_answer; [|done]. destruct (msg_do_get _ _ _) eqn:?. by eapply ok_msg_get.
  - by eapply ok_serve_msgsnd.
  - by eapply ok_serve_msgrcv.
  - eapply ok_answer_r; [|done]. destruct (msg_do_ctl _ _ _) eqn:?. by eapply ok_msg_ctl.
Qed.
