(* ===== verification/IpcThms.v ===== *)
(** * IpcThms: what the broker promises its clients

    The daemon's tables stay consistent and no parked caller is left behind
    that could go ahead; semop is all or nothing; process death takes back
    exactly what SEM_UNDO recorded; msgrcv picks the message its type asks
    for. *)

From Stdlib Require Import ZifyNat ZifyBool.
From S2P Require Import Prelude Types Cpu MemSeam Ipc IpcInv.
Import IpcErr.

(** ** Parked callers *)

(** The waiter cannot go ahead: its object exists, and the operation recorded
    as the blocking one waits, the message does not fit, or none matches. *)
Definition stuck (b : Broker) (w : Waiter) : Prop :=
  match wt_op w with
  | ParkSem sops blk => exists k s, sem_find (wt_id w) b = Some (k, s) /\ stuck_at (ss_val s) sops blk
  | ParkSnd m => exists k q, msg_find (wt_id w) b = Some (k, q) /\ msg_fits q (gm_size m) = false
  | ParkRcv ty sz fl => exists k q, msg_find (wt_id w) b = Some (k, q) /\ msg_pick q ty fl = None
  end.
Definition settled (b : Broker) : Prop := forall i w, holds (bk_wait b) i w -> stuck b w.

Lemma stuck_same b b' w : bk_sem b' = bk_sem b -> bk_msq b' = bk_msq b -> stuck b w -> stuck b' w.
Proof. intros Hs Hm. unfold stuck, sem_find, msg_find. by rewrite Hs, Hm. Qed.
Lemma settled_fewer b b' : bk_sem b' = bk_sem b -> bk_msq b' = bk_msq b ->
  (forall i w, holds (bk_wait b') i w -> holds (bk_wait b) i w) -> settled b -> settled b'.
Proof. intros Hs Hm Hw Hb i w Hi. apply (stuck_same b); [done..|]. by apply (Hb i), Hw. Qed.

(** A retry that answers frees the slot; one that does not leaves the waiter
    stuck and changes no value or queue. *)
Lemma retry_spec e i w b p b' : broker_ok b -> holds (bk_wait b) i w -> retry e i w b = (p, b') ->
  if p then bk_wait b' = <[i := None]> (bk_wait b) /\ bk_nwait b' = bk_nwait b - 1
  else bk_sem b' = bk_sem b /\ bk_msq b' = bk_msq b /\ bk_nwait b' = bk_nwait b /\
       exists w', bk_wait b' = <[i := Some w']> (bk_wait b) /\ wt_seq w' = wt_seq w /\ stuck b w'.
Proof.
  intros Hb Hi E. unfold retry in E. destruct (ok_wait b Hb) as (_ & Hs & _). destruct (Hs i w Hi) as [_ Hp].
  destruct (wt_op w) as [sops blk|m|ty sz fl] eqn:Eop.
  - destruct (sem_find (wt_id w) b) as [[si s]|] eqn:Ef; [|injection E as <- <-; by split].
    pose proof (sem_find_some _ _ _ _ Ef) as [Hsi _]. destruct (sem_try_op _ _ _ _ _ _ _) as [[t blk'] b1] eqn:Et.
    pose proof (try_rest _ _ _ _ _ _ _ _ _ _ Hb (proj1 Hp) Hsi Et) as (Hw & Hm & _ & Hn & _).
    apply sem_try_spec in Et; [|by eapply rows_of|by apply (set_held b si)|by destruct Hp|done].
    destruct (Z.eqb_spec t 1) as [->|Hne]; injection E as <- <-.
    + destruct Et as [(? & _)|[Hb1 [[? _]|(_ & _ & Hst)]]]; [lia|lia|].
      assert (Hsem : bk_sem b1 = bk_sem b) by (destruct Hb1 as [->|[k Hk]]; [done|by eapply undo_find_sem]).
      split; [done|]. split; [done|]. split; [cbn; lia|]. eexists. split; [cbn; by rewrite Hw|]. split; [done|]. by exists si, s.
    + cbn. rewrite Hw, list_insert_insert_eq. split; [done|lia].
  - destruct (msg_find (wt_id w) b) as [[k q]|] eqn:Ef; [|injection E as <- <-; by split].
    destruct (msg_fits q (gm_size m)) eqn:Em; injection E as <- <-; [by split|]. do 3 (split; [done|]).
    exists w. split; [by rewrite insert_id|]. split; [done|]. unfold stuck. rewrite Eop. by exists k, q.
  - destruct (msg_find (wt_id w) b) as [[k q]|] eqn:Ef; [|injection E as <- <-; by split].
    destruct (msg_pick q ty fl) as [[j m]|] eqn:Em; [case_match; injection E as <- <-; by split|].
    injection E as <- <-. do 3 (split; [done|]). exists w. split; [by rewrite insert_id|]. split; [done|].
    unfold stuck. rewrite Eop. by exists k, q.
Qed.

(** The waiters a pass has still to visit. *)
Definition later (last : Z) (o : option Waiter) : bool := match o with Some w => last <? wt_seq w | None => false end.
Definition pending (last : Z) (l : list (option Waiter)) : nat := length (List.filter (later last) l).
Lemma pending_mono last last' l : last <= last' -> (pending last' l <= pending last l)%nat.
Proof.
  intros Hle. unfold pending. induction l as [|[w|] l IH]; cbn [List.filter later length]; [done| |done].
  destruct (Z.ltb_spec last' (wt_seq w)), (Z.ltb_spec last (wt_seq w)); cbn [length]; lia.
Qed.
Lemma pending_visit last l i w w' : holds l i w -> last < wt_seq w -> wt_seq w' = wt_seq w ->
  (pending (wt_seq w) (<[i := Some w']> l) < pending last l)%nat.
Proof.
  unfold holds. intros Hi Hlt Heq. revert i Hi. induction l as [|o l IH]; intros [|i] Hi; [done|done|..].
  - injection Hi as ->. cbn. rewrite Heq, Z.ltb_irrefl. destruct (Z.ltb_spec last (wt_seq w)); [|lia]. cbn [length].
    pose proof (pending_mono last (wt_seq w) l ltac:(lia)). unfold pending in *. lia.
  - specialize (IH i Hi). change (<[S i := Some w']> (o :: l)) with (o :: <[i := Some w']> l).
    unfold pending in *. cbn [List.filter]. destruct o as [x|]; cbn [later]; [|done].
    destruct (Z.ltb_spec last (wt_seq x)), (Z.ltb_spec (wt_seq w) (wt_seq x)); cbn [length]; lia.
Qed.

Lemma pass_true n e last b : fst (rescan_pass n e last true b) = true.
Proof.
  revert last b. induction n as [|n IH]; intros last b; [done|]. cbn [rescan_pass].
  destruct (next_waiter _ _ _ _) as [[i w]|]; [|done]. destruct (retry e i w b) as [p c]. apply IH.
Qed.
Lemma pass_count n e last p b p' b' : broker_ok b -> rescan_pass n e last p b = (p', b') ->
  bk_nwait b' <= bk_nwait b /\ (p = false -> p' = true -> bk_nwait b' < bk_nwait b).
Proof.
  revert last p b. induction n as [|n IH]; intros last p b Hb E; cbn [rescan_pass] in E.
  { injection E as <- <-. split; [lia|congruence]. }
  destruct (next_waiter last (bk_wait b) 0 None) as [[i w]|] eqn:Ew; [|injection E as <- <-; split; [lia|congruence]].
  apply next_waiter_some in Ew as [Hi _]. destruct (retry e i w b) as [q c] eqn:Er.
  pose proof (ok_retry _ _ _ _ _ _ Hb Hi Er) as Hc. apply retry_spec in Er; [|done..]. apply IH in E as [H1 H2]; [|done].
  destruct q.
  - destruct Er as [_ Hn]. split; [lia|]. intros _ _. lia.
  - destruct Er as (_ & _ & Hn & _). split; [lia|]. intros -> Ht. specialize (H2 eq_refl Ht). lia.
Qed.
Lemma pass_settles n e last b b' : broker_ok b -> rescan_pass n e last false b = (false, b') ->
  (pending last (bk_wait b) < n)%nat -> (forall i w, holds (bk_wait b) i w -> wt_seq w <= last -> stuck b w) -> settled b'.
Proof.
  revert last b. induction n as [|n IH]; intros last b Hb E Hf Hdone; [lia|]. cbn [rescan_pass] in E.
  destruct (next_waiter last (bk_wait b) 0 None) as [[i w]|] eqn:Ew.
  2: { injection E as <-. intros i w Hi. apply (Hdone i); [done|]. by eapply next_waiter_none. }
  apply next_waiter_some in Ew as (Hi & Hlt & Hmin). destruct (retry e i w b) as [q c] eqn:Er.
  pose proof (ok_retry _ _ _ _ _ _ Hb Hi Er) as Hc. apply retry_spec in Er; [|done..]. destruct q.
  { pose proof (pass_true n e (wt_seq w) c) as Ht. cbn [orb] in E. by rewrite E in Ht. }
  destruct Er as (Hs & Hm & _ & w' & Hw & Hseq & Hst). apply IH in E; [done|done|..].
  - rewrite Hw. pose proof (pending_visit last _ i w w' Hi Hlt Hseq). lia.
  - intros j x Hj Hle. apply (stuck_same b); [done..|]. rewrite Hw in Hj. apply holds_put in Hj as [(_ & <- & _)|[Hne Hj]]; [done|].
    apply (Hdone j); [done|]. destruct (Z.le_gt_cases (wt_seq x) last); [done|]. exfalso.
    specialize (Hmin j x Hj ltac:(lia)). destruct (ok_wait b Hb) as (_ & _ & Hu & _). apply Hne, (Hu i j w x); [done..|lia].
Qed.
Lemma loop_settles n e b : broker_ok b -> bk_nwait b < Z.of_nat n -> settled (rescan_loop n e b).
Proof.
  revert b. induction n as [|n IH]; intros b Hb Hn.
  { destruct (ok_wait b Hb) as (_ & _ & _ & Hc & _). pose proof (count_nonneg (bk_wait b)). lia. }
  cbn [rescan_loop]. destruct (ok_wait b Hb) as (Hl & _ & _ & Hc & _). destruct (Z.eqb_spec (bk_nwait b) 0) as [H0|Hne].
  { intros i w Hi. apply count_pos in Hi. lia. }
  destruct (rescan_pass (S IPC_WAITER_MAX) e 0 false b) as [p c] eqn:E. pose proof (ok_pass _ _ _ _ _ _ _ Hb E) as Hc'.
  pose proof (pass_count _ _ _ _ _ _ _ Hb E) as [_ Hlt]. destruct p; [apply IH; [done|specialize (Hlt eq_refl eq_refl); lia]|].
  apply (pass_settles _ _ _ _ _ Hb E).
  - unfold pending. pose proof (List.filter_length_le (later 0) (bk_wait b)). lia.
  - intros i w Hi Hle. destruct (ok_wait b Hb) as (_ & Hs & _). destruct (Hs i w Hi). lia.
Qed.
(** Fuel that is enough is as good as more. *)
Lemma pending_free last l i w : holds l i w -> last < wt_seq w -> (pending (wt_seq w) (<[i := None]> l) < pending last l)%nat.
Proof.
  unfold holds. intros Hi Hlt. revert i Hi. induction l as [|o l IH]; intros [|i] Hi; [done|done|..].
  - injection Hi as ->. pose proof (pending_mono last (wt_seq w) l ltac:(lia)). unfold pending in *. cbn.
    destruct (Z.ltb_spec last (wt_seq w)); [|lia]. cbn [length]. lia.
  - specialize (IH i Hi). change (<[S i := None]> (o :: l)) with (o :: <[i := None]> l).
    unfold pending in *. cbn [List.filter]. destruct o as [x|]; cbn [later]; [|done].
    destruct (Z.ltb_spec last (wt_seq x)), (Z.ltb_spec (wt_seq w) (wt_seq x)); cbn [length]; lia.
Qed.
Lemma pass_fuel n k e last p b : broker_ok b -> (pending last (bk_wait b) < n)%nat ->
  rescan_pass (n + k) e last p b = rescan_pass n e last p b.
Proof.
  revert last p b. induction n as [|n IH]; intros last p b Hb Hf; [lia|]. cbn [Nat.add rescan_pass].
  destruct (next_waiter last (bk_wait b) 0 None) as [[i w]|] eqn:Ew; [|done].
  apply next_waiter_some in Ew as (Hi & Hlt & _). destruct (retry e i w b) as [q c] eqn:Er.
  pose proof (ok_retry _ _ _ _ _ _ Hb Hi Er) as Hc. apply retry_spec in Er; [|done..]. apply IH; [done|]. destruct q.
  - destruct Er as [-> _]. pose proof (pending_free last _ i w Hi Hlt). lia.
  - destruct Er as (_ & _ & _ & w' & -> & Hseq & _). pose proof (pending_visit last _ i w w' Hi Hlt Hseq). lia.
Qed.
Lemma loop_fuel n k e b : broker_ok b -> bk_nwait b < Z.of_nat n -> rescan_loop (n + k) e b = rescan_loop n e b.
Proof.
  revert b. induction n as [|n IH]; intros b Hb Hn.
  { destruct (ok_wait b Hb) as (_ & _ & _ & Hc & _). pose proof (count_nonneg (bk_wait b)). lia. }
  cbn [Nat.add rescan_loop]. case_match; [done|]. destruct (rescan_pass (S IPC_WAITER_MAX) e 0 false b) as [p c] eqn:E.
  pose proof (ok_pass _ _ _ _ _ _ _ Hb E) as Hc. pose proof (pass_count _ _ _ _ _ _ _ Hb E) as [_ Hlt].
  destruct p; [|done]. apply IH; [done|]. specialize (Hlt eq_refl eq_refl). lia.
Qed.
Lemma ipc_rescan_settles e b : broker_ok b -> settled (ipc_rescan e b).
Proof.
  intros Hb. unfold ipc_rescan. apply loop_settles; [done|]. destruct (ok_wait b Hb) as (Hl & _ & _ & Hc & _).
  pose proof (count_le (bk_wait b)). lia.
Qed.

(** ** Every state the daemon reaches *)
Lemma holds_replicate {A} n i (x : A) : ~ holds (replicate n None) i x.
Proof. unfold holds. by intros [? _]%lookup_replicate. Qed.
Lemma count_replicate {A} n : count (replicate n (@None A)) = 0.
Proof. induction n as [|n IH]; [done|]. cbn [replicate]. by rewrite count_cons, IH. Qed.
Lemma init_ok : broker_ok broker_init.
Proof.
  assert (E : forall A n (P : A -> Prop), slots P (replicate n None)) by (intros A n P i x H; by apply holds_replicate in H).
  assert (U : forall A K n (f : A -> K), uniq f (replicate n None)) by (intros A K n f i j x y H; by apply holds_replicate in H).
  constructor; unfold broker_init; cbn [bk_sem bk_undo bk_nundo bk_msq bk_wait bk_wait_seq bk_nwait bk_seg bk_next_sem bk_next_msq bk_next_shm].
  - split; [apply length_replicate|]. split; [apply E|apply U].
  - split; [apply length_replicate|]. split; [apply E|]. split; [apply U|]. by rewrite count_replicate.
  - split; [apply length_replicate|]. split; [apply E|apply U].
  - split; [apply length_replicate|]. split; [apply E|]. split; [apply U|]. by rewrite count_replicate.
  - split; [apply length_replicate|]. split; [apply E|apply U].
  - unfold next_ok. lia.
Qed.
Lemma ok_peer evs b : broker_ok b -> broker_ok (fold_left peer_event evs b).
Proof.
  revert b. induction evs as [|[[i fd] what] evs IH]; intros b Hb; [done|]. cbn [fold_left]. apply IH. unfold peer_event.
  destruct (bk_wait b !! i) as [[w|]|] eqn:E; [|done|done]. case_match; [done|]. destruct what; eauto with ipc.
Qed.
Lemma settled_expire now b : settled b -> settled (waiters_expire now b).
Proof.
  set (P c := bk_sem c = bk_sem b /\ bk_msq c = bk_msq b /\ forall i w, holds (bk_wait c) i w -> holds (bk_wait b) i w).
  assert (H : P (waiters_expire now b)).
  { unfold waiters_expire. apply (scan_wait_ind P); [done|]. intros j w c (Hs & Hm & Hw) Hj. case_match; [done|].
    split; [done|]. split; [done|]. intros i x [_ Hx]%holds_del. by apply Hw. }
  destruct H as (Hs & Hm & Hw). by apply settled_fewer.
Qed.
Lemma settled_reclaim e b : broker_ok b -> settled (ipc_reclaim e b).
Proof.
  intros Hb. unfold ipc_reclaim. apply ipc_rescan_settles, ok_scan_undo. fold (drop_dead e).
  apply (scan_wait_ind broker_ok); [by apply ok_shm_reclaim|]. intros j w c Hc Hj. unfold drop_dead. case_match; eauto with ipc.
Qed.
Lemma idle_keeps t d b active d' : broker_ok b -> settled b -> turn_idle t d b active = Some d' ->
  broker_ok (dm_b d') /\ settled (dm_b d').
Proof.
  intros Hb Hs. unfold turn_idle. cbv zeta. set (c := waiters_expire (tn_now t) b).
  assert (Hc : broker_ok c) by by apply ok_expire. assert (Hsc : settled c) by by apply settled_expire.
  assert (Hr : forall x, broker_ok x -> broker_ok (ipc_reclaim (tn_env t) x) /\ settled (ipc_reclaim (tn_env t) x))
    by (intros x Hx; split; [by apply ok_reclaim|by apply settled_reclaim]).
  clearbody c. destruct (busy c && _); (case_match; [case_match; [done|]|]); intros [= <-]; cbn [dm_b].
  - by apply Hr, Hr.
  - by apply Hr.
  - by apply Hr.
  - exact (conj Hc Hsc).
Qed.
Lemma turn_keeps t d d' : turn_ok t -> broker_turn t d = Some d' ->
  broker_ok (dm_b d) -> settled (dm_b d) -> broker_ok (dm_b d') /\ settled (dm_b d').
Proof.
  intros Ht E Hb Hs. unfold broker_turn in E. destruct (tn_ready t); [|by apply idle_keeps in E]. cbv zeta in E.
  set (b1 := fold_left _ _ _) in *. assert (Hb1 : broker_ok b1) by by apply ok_peer.
  set (b2 := match tn_conn t with Some _ => _ | None => _ end) in *. assert (Hb2 : broker_ok b2).
  { subst b2. unfold turn_ok in Ht. destruct (tn_conn t) as [[cfd q]|]; [|done].
    destruct (ipc_serve _ _ _ _) as [p c] eqn:Es. by apply ok_serve in Es. }
  apply idle_keeps in E; [done|by apply ok_rescan|by apply ipc_rescan_settles].
Qed.
Lemma reach_keeps d : daemon_reach d -> broker_ok (dm_b d) /\ settled (dm_b d).
Proof.
  induction 1 as [t|d t d' _ [Hb Hs] Ht E]; [|by eapply turn_keeps].
  split; [apply init_ok|]. intros i w Hi. by apply holds_replicate in Hi.
Qed.

(** ** Adjustments *)

(** What [semop] has recorded for a process on semaphore [n] of a set. *)
Definition adj_of (b : Broker) (pid semid n : Z) : Z :=
  match find_slot (undo_is pid semid) (bk_undo b) with Some (_, row) => at_z (su_adj row) n | None => 0 end.
Lemma undo_is_key p i row : undo_is p i row = true <-> undo_key row = (p, i).
Proof. unfold undo_is, undo_key. split; [intros H; f_equal; lia|intros [= <- <-]; lia]. Qed.
Lemma find_row b p i k row : broker_ok b -> holds (bk_undo b) k row -> undo_key row = (p, i) ->
  find_slot (undo_is p i) (bk_undo b) = Some (k, row).
Proof.
  intros Hb Hk Hkey. destruct (ok_undo b Hb) as (_ & _ & Hu & _). destruct (find_slot _ _) as [[j r]|] eqn:E.
  - apply find_slot_some in E as [Hj Hp%undo_is_key]. assert (j = k) as -> by (apply (Hu j k r row); [done|done|congruence]).
    unfold holds in *. by simplify_eq.
  - apply (find_slot_none _ _ k row) in E; [|done]. apply undo_is_key in Hkey. congruence.
Qed.
Lemma adj_of_row b p i k row n : broker_ok b -> holds (bk_undo b) k row -> undo_key row = (p, i) ->
  adj_of b p i n = at_z (su_adj row) n.
Proof. intros Hb Hk Hkey. unfold adj_of. by rewrite (find_row b p i k row). Qed.
Lemma adj_of_none b p i n : (forall k row, holds (bk_undo b) k row -> undo_is p i row = false) -> adj_of b p i n = 0.
Proof.
  intros H. unfold adj_of. destruct (find_slot _ _) as [[k row]|] eqn:E; [|done].
  apply find_slot_some in E as [Hk Hp]. rewrite (H k row Hk) in Hp. done.
Qed.
(** Tables with the same rows of a key record the same for it. *)
Lemma adj_of_ext b b' p i n : broker_ok b' ->
  (forall k row, undo_key row = (p, i) -> holds (bk_undo b) k row <-> holds (bk_undo b') k row) -> adj_of b' p i n = adj_of b p i n.
Proof.
  intros Hb' H. unfold adj_of at 2. destruct (find_slot _ (bk_undo b)) as [[k row]|] eqn:E.
  - apply find_slot_some in E as [Hk Hp%undo_is_key]. apply (adj_of_row b' p i k row); [done| |done]. by apply H.
  - apply adj_of_none. intros k row Hk. destruct (undo_is p i row) eqn:Ep; [|done]. apply undo_is_key in Ep as Hkey.
    apply (H k row Hkey) in Hk. apply (find_slot_none _ _ k row E) in Hk. congruence.
Qed.
(** A row just made records nothing. *)
Lemma at_zeros k n : at_z (replicate k 0) n = 0.
Proof.
  unfold at_z. rewrite nth_lookup. destruct (replicate k 0 !! Z.to_nat n) as [x|] eqn:E; [|done].
  by apply lookup_replicate in E as [-> _].
Qed.
Lemma adj_of_fresh e pid s si b u b' p i n : broker_ok b -> holds (bk_sem b) si s -> sem_undo_find e pid s b = (u, b') ->
  adj_of b' p i n = adj_of b p i n.
Proof.
  intros Hb Hs E. pose proof (ok_undo_find _ _ _ _ _ _ _ Hb Hs E) as Hb'. apply undo_find_spec in E.
  destruct u as [k|]; [|by subst]. destruct E as (row & Hk & Hp & Hi & [->|(Hfree & -> & -> & Hn)]); [done|].
  destruct (decide ((pid, ss_id s) = (p, i))) as [[= <- <-]|Hne].
  - rewrite (adj_of_none b) by apply Hn. rewrite (adj_of_row _ _ _ k _ _ Hb' Hk) by done. apply at_zeros.
  - apply adj_of_ext; [done|]. intros j r Hr. split.
    + intros Hj. apply holds_put_ne; [|done]. intros ->. unfold holds in *. congruence.
    + intros [(-> & <- & _)|[_ Hj]]%holds_put; [|done]. by destruct Hne.
Qed.
Lemma adj_of_upd k f row b n : broker_ok (upd_undo k f b) -> holds (bk_undo b) k row ->
  adj_of (upd_undo k f b) (su_pid row) (su_semid row) n = at_z (f (su_adj row)) n /\
  forall p i, (p, i) <> undo_key row -> adj_of (upd_undo k f b) p i n = adj_of b p i n.
Proof.
  intros Hb Hk. split; [by rewrite (adj_of_row _ _ _ k _ _ Hb (holds_upd _ _ _ _ Hk))|].
  intros p i Hne. apply adj_of_ext; [done|]. intros j r Hr. unfold holds, upd_undo, set_undo. cbn [bk_undo].
  destruct (decide (k = j)) as [->|]; [|by rewrite list_lookup_alter_ne].
  rewrite list_lookup_alter_eq. unfold holds in Hk. rewrite Hk. cbn. split; intros [= <-]; by destruct Hne.
Qed.
Lemma undelta_none n ops : Forall (fun op => undoes op = false) ops -> undelta n ops = 0.
Proof. induction 1 as [|op l Ho _ IH]; [done|]. cbn [undelta fold_right]. fold (undelta n l). rewrite Ho. cbn [andb]. lia. Qed.
Lemma undelta_all n ops : Forall (fun op => undoes op = true) ops -> undelta n ops = delta n ops.
Proof.
  induction 1 as [|op l Ho _ IH]; [done|]. cbn [undelta delta fold_right]. fold (undelta n l) (delta n l). by rewrite Ho, IH.
Qed.
(** What [sem_try_op] leaves in the rows when it commits. *)
Lemma undone_effect e pid s si b sops u b1 : broker_ok b -> holds (bk_sem b) si s -> Forall (sop_ok (ss_nsems s)) sops ->
  undone e pid s None b sops u b1 -> bk_sem b1 = bk_sem b /\
  (forall n, 0 <= n -> adj_of b1 pid (ss_id s) n = adj_of b pid (ss_id s) n - undelta n sops) /\
  (forall p i n, (p, i) <> (pid, ss_id s) -> adj_of b1 p i n = adj_of b p i n).
Proof.
  intros Hb Hs Ho Hu. destruct u as [k|].
  2: { destruct Hu as (_ & -> & Hf). split; [done|]. split; [|done]. intros n _. rewrite undelta_none by done. lia. }
  destruct Hu as (base & [[? _]|[_ Hf]] & -> & _ & Ha); [done|]. pose proof (ok_undo_find _ _ _ _ _ _ _ Hb Hs Hf) as Hbase.
  pose proof (adj_of_fresh e pid s si b (Some k) base) as Hfr. pose proof (undo_find_sem _ _ _ _ _ _ Hf) as Hsem.
  pose proof (undo_find_spec _ _ _ _ _ _ Hf) as (row & Hk & Hp & Hi & _). rewrite (row_adj _ _ _ Hk) in Ha.
  assert (Hb1 : broker_ok (upd_undo k (fold_left do_adj sops) base)).
  { apply (ok_upd_undo k row si _ s); [done|done|by rewrite Hsem|done|]. apply (Ha sops []). by rewrite app_nil_r. }
  split; [done|]. split.
  - intros n Hn. destruct (adj_of_upd k _ row base n Hb1 Hk) as [H1 _]. rewrite Hp, Hi in H1. rewrite H1.
    rewrite (fold_adj_at sops _ (ss_nsems s)) by (try done; by apply (Ha [] sops)).
    rewrite <- (Hfr pid (ss_id s) n) by done. by rewrite (adj_of_row base pid (ss_id s) k row) by (try done; unfold undo_key; congruence).
  - intros p i n Hne. destruct (adj_of_upd k _ row base n Hb1 Hk) as [_ H2].
    rewrite H2 by (unfold undo_key; congruence). by apply Hfr.
Qed.

(** ** Exit *)

(** The scan frees exactly the rows it is asked for. *)
Lemma apply_rows e i u b : bk_undo (sem_undo_apply e i u b) = <[i := None]> (bk_undo b).
Proof.
  unfold sem_undo_apply. destruct (sem_find _ _) as [[k s]|]; [|done]. by destruct (undo_apply_loop _ _ _ _) as [[? ?] ?].
Qed.
Lemma scan_undo_rows e n i p b j u : holds (bk_undo (scan_undo e n i p b)) j u <->
  holds (bk_undo b) j u /\ ~ ((i <= j < i + n)%nat /\ p u = true).
Proof.
  revert i b. induction n as [|n IH]; intros i b; cbn [scan_undo]; [split; [intros H; split; [done|lia]|by intros []]|].
  rewrite IH. clear IH. destruct (decide (i = j)) as [<-|Hne].
  - destruct (bk_undo b !! i) as [[x|]|] eqn:E; [destruct (p x) eqn:Ep|..].
    + rewrite apply_rows. split; [intros [[? _]%holds_del _]; done|]. intros [H Hn]. exfalso. unfold holds in H.
      rewrite E in H. injection H as <-. apply Hn. split; [lia|done].
    + unfold holds. rewrite E. split; intros [[= <-] Hn]; (split; [done|]); intros [? ?]; congruence.
    + unfold holds. rewrite E. by split; intros [? _].
    + unfold holds. rewrite E. by split; intros [? _].
  - assert (Hsame : holds (bk_undo match bk_undo b !! i with Some (Some x) => if p x then sem_undo_apply e i x b else b | _ => b end) j u
                    <-> holds (bk_undo b) j u).
    { destruct (bk_undo b !! i) as [[x|]|]; [destruct (p x)|..]; try done. rewrite apply_rows. unfold holds.
      by rewrite list_lookup_insert_ne. }
    rewrite Hsame. split; intros [H Hn]; (split; [done|]); intros [? ?]; apply Hn; (split; [lia|done]).
Qed.

Definition clamp (v : Z) : Z := Z.min (Z.max v 0) G_SEMVMX.
(** The value a semaphore will have when the process is gone. *)
Definition after_exit (b : Broker) (pid : Z) (s : SemSet) (n : Z) : Z := clamp (at_z (ss_val s) n + adj_of b pid (ss_id s) n).
(** Each set of [b0] is still there in [b] and comes to the same. *)
Definition same_exit (pid : Z) (b0 b : Broker) : Prop :=
  broker_ok b /\ forall k s0, holds (bk_sem b0) k s0 -> exists s, holds (bk_sem b) k s /\ ss_id s = ss_id s0 /\
    forall n, after_exit b pid s n = after_exit b0 pid s0 n.
Lemma adj_of_freed e i u b p j n : broker_ok b -> holds (bk_undo b) i u -> 
  adj_of (sem_undo_apply e i u b) p j n = if decide ((p, j) = undo_key u) then 0 else adj_of b p j n.
Proof.
  intros Hb Hi. pose proof (ok_undo_apply e i u b Hb Hi) as Hb'. destruct (decide _) as [Heq|Hne].
  - apply adj_of_none. intros k row Hk. rewrite apply_rows in Hk. apply holds_del in Hk as [Hne Hk].
    destruct (undo_is p j row) eqn:E; [|done]. apply undo_is_key in E. destruct (ok_undo b Hb) as (_ & _ & Hu & _).
    destruct Hne. apply (Hu i k u row); [done|done|congruence].
  - apply adj_of_ext; [done|]. intros k row Hr. rewrite apply_rows. split.
    + intros Hk. apply holds_put_ne; [|done]. intros ->. unfold holds in *. congruence.
    + by intros [_ ?]%holds_del.
Qed.
Lemma exit_step e pid b0 b i u : same_exit pid b0 b -> holds (bk_undo b) i u -> su_pid u = pid ->
  same_exit pid b0 (sem_undo_apply e i u b).
Proof.
  intros [Hb H] Hi Hp. pose proof (ok_undo_apply e i u b Hb Hi) as Hb'. split; [done|]. intros k s0 Hk0.
  destruct (H k s0 Hk0) as (s & Hk & Hid & Hv). unfold after_exit in *.
  destruct (decide (ss_id s = su_semid u)) as [Heq|Hne].
  - assert (Hf : sem_find (su_semid u) b = Some (k, s)).
    { unfold sem_find. pose proof (set_held b k s Hb Hk) as (? & _). destruct (Z.leb_spec (su_semid u) 0); [lia|].
      apply (find_slot_uniq _ ss_id (su_semid u)); [done|apply (ok_sem b Hb)|done..]. }
    pose proof (set_held b k s Hb Hk) as (_ & _ & Hl & Hlp & Hsv). destruct (rows_of b k s Hb Hk i u Hi (eq_sym Heq)) as [Hla _].
    pose proof (adj_of_freed e i u b pid (ss_id s)) as Hz. pose proof (adj_of_row b pid (ss_id s) i u) as Hrow.
    assert (Hsem : bk_sem (sem_undo_apply e i u b) !! k = Some (Some (mkSet (ss_id s) (ss_key s) (ss_nsems s) (ss_perm s)
      (if snd (undo_apply_loop (su_pid u) (su_adj u) (ss_val s) (ss_lpid s)) then e_time e else ss_otime s) (ss_ctime s)
      (fst (fst (undo_apply_loop (su_pid u) (su_adj u) (ss_val s) (ss_lpid s))))
      (snd (fst (undo_apply_loop (su_pid u) (su_adj u) (ss_val s) (ss_lpid s)))) (ss_cpid s) (ss_tpid s)))).
    { unfold sem_undo_apply. rewrite Hf. destruct (undo_apply_loop _ _ _ _) as [[? ?] ?]. by apply holds_put_eq, (holds_lt _ _ s). }
    eexists. split; [exact Hsem|]. split; [done|]. intros n. rewrite <- Hv. cbn [ss_id ss_val].
    destruct (undo_apply_loop _ _ _ _) as [[vs ls] t] eqn:El. apply undo_apply_spec in El as (_ & _ & _ & Hat); [|lia|lia|done].
    cbn [fst snd]. rewrite Hat, Hz, (Hrow n) by (try done; unfold undo_key; congruence). rewrite decide_True by (unfold undo_key; congruence).
    unfold clamp, G_SEMVMX. lia.
  - exists s. split; [|split; [done|]].
    + unfold sem_undo_apply. destruct (sem_find _ b) as [[k' s']|] eqn:Ef; [|done]. apply sem_find_some in Ef as [Hk' Hid'].
      destruct (undo_apply_loop _ _ _ _) as [[? ?] ?]. apply holds_put_ne; [|done]. intros ->. unfold holds in *. congruence.
    + intros n. rewrite <- Hv, adj_of_freed, decide_False by (try done; unfold undo_key; congruence). done.
Qed.
Lemma at_semval l n : Forall semval l -> semval (at_z l n).
Proof.
  intros Hl. unfold at_z. rewrite nth_lookup. destruct (l !! Z.to_nat n) as [x|] eqn:E; [by eapply Forall_lookup_1|].
  unfold semval, G_SEMVMX. cbn. lia.
Qed.
(** [sem_exit_pid] gives each semaphore its clamped value and leaves the
    process without adjustments. *)
Lemma exit_spec e pid b : broker_ok b -> forall k s, holds (bk_sem b) k s ->
  exists s', holds (bk_sem (sem_exit_pid e pid b)) k s' /\ ss_id s' = ss_id s /\
    forall n, at_z (ss_val s') n = after_exit b pid s n.
Proof.
  intros Hb k s Hk. unfold sem_exit_pid.
  assert (Hs : same_exit pid b (scan_undo e SEM_UNDO_MAX 0 (fun u => su_pid u =? pid) b)).
  { apply (scan_undo_ind (same_exit pid b)); [split; [done|]; intros; eauto|]. intros. apply exit_step; [done|done|lia]. }
  assert (Hz : forall j n, adj_of (scan_undo e SEM_UNDO_MAX 0 (fun u => su_pid u =? pid) b) pid j n = 0).
  { intros j n. apply adj_of_none. intros i row [Hi Hn]%scan_undo_rows. destruct (undo_is pid j row) eqn:Eu; [|done].
    apply undo_is_key in Eu as [= Hp _]. destruct Hn. split; [|lia]. destruct (ok_undo b Hb) as (Hl & _). apply holds_lt in Hi. lia. }
  revert Hs Hz. generalize (scan_undo e SEM_UNDO_MAX 0 (fun u => su_pid u =? pid) b). intros b' [Hb' H] Hz.
  destruct (H k s Hk) as (s' & Hk' & Hid & Hv). exists s'. split; [done|]. split; [done|]. intros n. rewrite <- Hv.
  unfold after_exit. rewrite Hz. pose proof (set_held b' k s' Hb' Hk') as (_ & _ & _ & _ & Hsv).
  apply (at_semval _ n) in Hsv. unfold semval in Hsv. unfold clamp. lia.
Qed.

(** ** The message a receiver gets *)

(** Position [j] holds the first message that matches, or for a negative type
    the first of the least type that does. *)
Definition picks (ty fl : Z) (l : list GMsg) (j : nat) (m : GMsg) : Prop :=
  l !! j = Some m /\ msg_matches m ty fl = true /\
  forall i x, l !! i = Some x -> msg_matches x ty fl = true ->
    if 0 <=? ty then (j <= i)%nat else gm_type m < gm_type x \/ (gm_type m = gm_type x /\ (j <= i)%nat).
Definition picked (ty fl : Z) (l : list GMsg) (o : option (nat * GMsg)) : Prop :=
  match o with
  | None => forall i x, l !! i = Some x -> msg_matches x ty fl = false
  | Some (j, m) => picks ty fl l j m
  end.
Lemma snoc_lookup {A} (l : list A) x i y : (l ++ [x]) !! i = Some y -> (l !! i = Some y /\ (i < length l)%nat) \/ (i = length l /\ x = y).
Proof.
  intros H. destruct (decide (i < length l)%nat) as [Hl|Hl]; [left; by rewrite lookup_app_l in H|right].
  rewrite lookup_app_r in H by lia. apply list_lookup_singleton_Some in H as [? ->]. split; [lia|done].
Qed.
Lemma picked_skip ty fl l x o : msg_matches x ty fl = false -> picked ty fl l o -> picked ty fl (l ++ [x]) o.
Proof.
  intros Hx Ho. destruct o as [[j m]|]; cbn in *.
  - destruct Ho as (Hj & Hm & Hmin). split; [by apply lookup_app_l_Some|]. split; [done|].
    intros i y [[Hi _]|[-> <-]]%snoc_lookup Hy; [by apply (Hmin i)|congruence].
  - intros i y [[Hi _]|[-> <-]]%snoc_lookup; [by apply (Ho i)|done].
Qed.
(** Taking the new message, when none or a greater type was chosen. *)
Lemma picked_take ty fl l x o : msg_matches x ty fl = true -> picked ty fl l o ->
  match o with Some (_, m) => (0 <=? ty) = false /\ gm_type x < gm_type m | None => True end ->
  picks ty fl (l ++ [x]) (length l) x.
Proof.
  intros Hx Ho Hlt. split; [by rewrite lookup_app_r, Nat.sub_diag by lia|]. split; [done|].
  intros i y [[Hi Hl]|[-> <-]]%snoc_lookup Hy; [|destruct (0 <=? ty); [lia|right; lia]].
  destruct o as [[j m]|]; cbn in *; [|by rewrite (Ho i y Hi) in Hy]. destruct Hlt as [Hn Hlt]. destruct Ho as (_ & _ & Hmin).
  specialize (Hmin i y Hi Hy). rewrite Hn in *. left. lia.
Qed.
Lemma picked_keep ty fl l x j m : (0 <=? ty) = false -> gm_type m <= gm_type x -> picks ty fl l j m -> picks ty fl (l ++ [x]) j m.
Proof.
  intros Hn Hle (Hj & Hm & Hmin). split; [by apply lookup_app_l_Some|]. split; [done|].
  intros i y [[Hi Hl]|[-> <-]]%snoc_lookup Hy; [by apply (Hmin i)|]. rewrite Hn. apply lookup_lt_Some in Hj. lia.
Qed.
(** With a type that is not negative, a later message does not count. *)
Lemma picks_more ty fl l r j m : (0 <=? ty) = true -> picks ty fl l j m -> picks ty fl (l ++ r) j m.
Proof.
  intros Hp (Hj & Hm & Hmin). split; [by apply lookup_app_l_Some|]. split; [done|]. intros i y Hi Hy. rewrite Hp.
  destruct (decide (i < length l)%nat) as [Hl|Hl].
  - rewrite lookup_app_l in Hi by done. specialize (Hmin i y Hi Hy). by rewrite Hp in Hmin.
  - apply lookup_lt_Some in Hj. lia.
Qed.
Lemma pick_loop_spec ty fl l pre best : picked ty fl pre best -> (0 <=? ty = true -> best = None) ->
  picked ty fl (pre ++ l) (pick_loop ty fl l (length pre) best).
Proof.
  revert pre best. induction l as [|x l IH]; intros pre best Hb Hn; [by rewrite app_nil_r|]. cbn [pick_loop].
  assert (Hnext : forall o, picked ty fl (pre ++ [x]) o -> (0 <=? ty = true -> o = None) ->
    picked ty fl (pre ++ x :: l) (pick_loop ty fl l (S (length pre)) o)).
  { intros o Ho Hon. specialize (IH (pre ++ [x]) o Ho Hon). rewrite length_app, <- app_assoc in IH. cbn [length app] in IH.
    by replace (length pre + 1)%nat with (S (length pre)) in IH by lia. }
  destruct (msg_matches x ty fl) eqn:Hx; cbn [negb]; [|by apply Hnext; [apply picked_skip|]].
  destruct (0 <=? ty) eqn:Hty.
  - rewrite (Hn eq_refl) in Hb. replace (pre ++ x :: l) with ((pre ++ [x]) ++ l) by by rewrite <- app_assoc.
    apply picks_more; [done|]. by apply (picked_take ty fl pre x None).
  - apply Hnext; [|done]. destruct best as [[j m]|].
    + destruct (Z.ltb_spec (gm_type x) (gm_type m)); [|by apply picked_keep]. by apply (picked_take ty fl pre x (Some (j, m))).
    + by apply (picked_take ty fl pre x None).
Qed.

(** ** The promises *)

(** A session for the witnesses: a set of two semaphores, and a caller whose
    vector raises the first, with SEM_UNDO, and has to wait for the second. *)
Definition demo_env : IpcEnv := mkIpcEnv 100 5 (fun _ => 7) true (fun _ _ => true) 3.
Definition demo_req (op : ReqOp) (id arg size : Z) (sops : list GSembuf) : BReq :=
  mkReq op 0 size id arg 42 0 0 0 0 0 0 0 0 (-1) 0 0 false sops [] [].
Definition demo_turn (cfd : Z) (q : BReq) : Turn := mkTurn demo_env true [] (Some (cfd, q)) 10 false.
Definition demo_sops : list GSembuf := [mkSop 0 3 G_SEM_UNDO; mkSop 1 (-1) 0].
Definition demo_step (d : Daemon) (t : Turn) : Daemon := match broker_turn t d with Some d' => d' | None => d end.
Definition demo_made : Daemon := demo_step (mkDaemon broker_init 0 0) (demo_turn 4 (demo_req REQ_SEMGET 0 0x1b6 2 [])).
Definition demo_parked : Daemon := demo_step demo_made (demo_turn 5 (demo_req REQ_SEMOP 1 2 0 demo_sops)).
Definition demo_set : SemSet := mkSet 1 0 2 (mkPerm 0x1b6 0 0 0 0) 0 100 [0; 0] [0; 0] 42 42.
Lemma demo_reach_step d t : daemon_reach d -> turn_ok t -> (if broker_turn t d then true else false) = true ->
  daemon_reach (demo_step d t).
Proof. intros Hd Ht E. apply (reach_turn d t); [done|done|]. unfold demo_step. by destruct (broker_turn t d). Qed.
Lemma demo_sops_ok : Forall sembuf_ok demo_sops.
Proof. repeat (constructor; [unfold sembuf_ok; cbn; lia|]). constructor. Qed.
Lemma demo_made_reach : daemon_reach demo_made.
Proof.
  apply demo_reach_step; [constructor| |vm_compute; reflexivity]. unfold turn_ok, breq_ok, fits. cbn. repeat split; try lia; constructor.
Qed.
Lemma demo_parked_reach : daemon_reach demo_parked.
Proof.
  apply demo_reach_step; [apply demo_made_reach| |vm_compute; reflexivity]. unfold turn_ok, breq_ok, fits. cbn.
  split; [lia|]. split; [lia|]. split; [apply demo_sops_ok|constructor].
Qed.
Lemma demo_held : holds (bk_sem (dm_b demo_made)) 0 demo_set.
Proof. vm_compute. reflexivity. Qed.
Lemma prod3_eta {A B C} (x : A * B * C) : x = (fst (fst x), snd (fst x), snd x).
Proof. by destruct x as [[]]. Qed.

(** C19: semop is all or nothing.  When it succeeds, every operation of the
    vector went ahead in turn, each semaphore of the set has changed by the sum
    of its operations, the caller's adjustments by minus the sum of the ones
    with SEM_UNDO, and no other set or process is touched.  Otherwise no value
    and no adjustment has changed at all, and if the caller is to sleep, the
    recorded index is that of the first operation that has to wait. *)
Theorem semop_atomic e si s sops pid blk b t blk' b' :
  broker_ok b -> holds (bk_sem b) si s -> Forall sembuf_ok sops -> sem_try_op e si s sops pid blk b = (t, blk', b') ->
  (t = 0 /\ all_go (ss_val s) sops /\
    (exists s', holds (bk_sem b') si s' /\ forall n, 0 <= n -> at_z (ss_val s') n = at_z (ss_val s) n + delta n sops) /\
    (forall n, 0 <= n -> adj_of b' pid (ss_id s) n = adj_of b pid (ss_id s) n - undelta n sops) /\
    (forall k, k <> si -> bk_sem b' !! k = bk_sem b !! k) /\
    (forall p i n, (p, i) <> (pid, ss_id s) -> adj_of b' p i n = adj_of b p i n)) \/
  (t <> 0 /\ bk_sem b' = bk_sem b /\ (forall p i n, adj_of b' p i n = adj_of b p i n) /\
    (t = 1 -> stuck_at (ss_val s) sops blk')).
Proof.
  intros Hb Hs Ho E. pose proof (ok_sem_try _ _ _ _ _ _ _ _ _ _ Hb Ho Hs E) as Hb'. pose proof (set_held b si s Hb Hs) as Hok.
  apply sem_try_spec in E; [|by eapply rows_of|done..].
  destruct E as [(-> & _ & Hsop & Hg & u & b1 & Hu & ->)|[Hb1 Ht]]; [left|right].
  - destruct (undone_effect e pid s si b sops u b1 Hb Hs Hsop Hu) as (Hsem & Hadj & Hoth).
    split; [done|]. split; [done|]. split; [|split; [done|split; [|done]]].
    + exists (committed e pid sops s). split; [apply holds_put_eq; rewrite Hsem; by apply (holds_lt _ _ s)|].
      intros n Hn. apply (fold_val_at _ _ (ss_nsems s)); [by destruct Hok as (_ & _ & ? & _)|done..].
    + intros k Hk. cbn. by rewrite Hsem, list_lookup_insert_ne.
  - split; [destruct Ht as [[? _]|[-> _]]; lia|]. split; [|split].
    + destruct Hb1 as [->|[k Hk]]; [done|by eapply undo_find_sem].
    + intros p i n. destruct Hb1 as [->|[k Hk]]; [done|by eapply adj_of_fresh].
    + intros ->. destruct Ht as [[? _]|(_ & _ & ?)]; [lia|done].
Qed.
Lemma semop_atomic_witness :
  bk_sem (snd (sem_try_op demo_env 0 demo_set demo_sops 42 0 (dm_b demo_made))) = bk_sem (dm_b demo_made) /\
  stuck_at [0; 0] demo_sops 1.
Proof.
  destruct (semop_atomic demo_env 0 demo_set demo_sops 42 0 (dm_b demo_made) _ _ _ (proj1 (reach_keeps _ demo_made_reach))
              demo_held demo_sops_ok (prod3_eta _)) as [(H & _)|(_ & H & _ & Hst)].
  - exfalso. revert H. vm_compute. discriminate.
  - split; [exact H|]. apply Hst. vm_compute. reflexivity.
Defined.

(** C21: a semop whose operations all carry SEM_UNDO leaves no trace once its
    process is gone: whatever adjustments the process had before, exiting after
    the semop gives every semaphore of every set the value that exiting without
    it gives, which is the value before plus the recorded adjustment, kept
    between 0 and SEMVMX. *)
Theorem semop_undo_vanishes e e' si s sops pid blk b blk' b' :
  broker_ok b -> holds (bk_sem b) si s -> Forall sembuf_ok sops -> Forall (fun op => undoes op = true) sops ->
  sem_try_op e si s sops pid blk b = (0, blk', b') ->
  forall k s0, holds (bk_sem b) k s0 -> exists s1 s2,
    holds (bk_sem (sem_exit_pid e' pid b)) k s1 /\ holds (bk_sem (sem_exit_pid e' pid b')) k s2 /\
    forall n, 0 <= n -> at_z (ss_val s2) n = at_z (ss_val s1) n /\ at_z (ss_val s1) n = after_exit b pid s0 n.
Proof.
  intros Hb Hs Ho Hall E k s0 Hk. pose proof (ok_sem_try _ _ _ _ _ _ _ _ _ _ Hb Ho Hs E) as Hb'.
  pose proof (set_held b si s Hb Hs) as Hok. apply sem_try_spec in E; [|by eapply rows_of|done..].
  destruct E as [(_ & _ & Hsop & Hg & u & b1 & Hu & ->)|[_ [[? _]|[? _]]]]; [|lia|lia].
  destruct (undone_effect e pid s si b sops u b1 Hb Hs Hsop Hu) as (Hsem & Hadj & Hoth).
  destruct (exit_spec e' pid b Hb k s0 Hk) as (s1 & Hk1 & _ & Hv1).
  assert (Hk' : exists s', holds (bk_sem (upd_set si (committed e pid sops s) b1)) k s' /\ ss_id s' = ss_id s0 /\
    forall n, 0 <= n -> at_z (ss_val s') n + adj_of (upd_set si (committed e pid sops s) b1) pid (ss_id s0) n =
                        at_z (ss_val s0) n + adj_of b pid (ss_id s0) n).
  { destruct (decide (si = k)) as [<-|Hne].
    - assert (s0 = s) as -> by (unfold holds in *; congruence). exists (committed e pid sops s).
      split; [apply holds_put_eq; rewrite Hsem; by apply (holds_lt _ _ s)|]. split; [done|]. intros n Hn.
      unfold committed. cbn [ss_val]. destruct Hok as (_ & _ & Hlen & _).
      rewrite (fold_val_at _ _ (ss_nsems s) n Hlen Hsop Hn).
      change (adj_of (upd_set _ _ b1)) with (adj_of b1). rewrite (Hadj n Hn), (undelta_all n sops Hall). lia.
    - exists s0. split; [apply holds_put_ne; [done|by rewrite Hsem]|]. split; [done|]. intros n Hn.
      change (adj_of (upd_set _ _ b1)) with (adj_of b1). rewrite Hoth; [done|]. intros [= Hid]. destruct (ok_sem b Hb) as (_ & _ & Hu'). apply Hne, (Hu' si k s s0); [exact Hs|exact Hk|congruence]. }
  revert Hb' Hk'. generalize (upd_set si (committed e pid sops s) b1). intros b2 Hb' (s' & Hk' & Hid & Hsum).
  destruct (exit_spec e' pid _ Hb' k s' Hk') as (s2 & Hk2 & _ & Hv2).
  exists s1, s2. split; [done|]. split; [done|]. intros n Hn. split; [|apply Hv1]. rewrite Hv1, Hv2. unfold after_exit.
  rewrite Hid. f_equal. by apply Hsum.
Qed.
Definition demo_up : list GSembuf := [mkSop 0 3 G_SEM_UNDO; mkSop 1 2 G_SEM_UNDO; mkSop 0 (-1) G_SEM_UNDO].
Lemma semop_undo_vanishes_witness : exists s1 s2,
  holds (bk_sem (sem_exit_pid demo_env 42 (dm_b demo_made))) 0 s1 /\
  holds (bk_sem (sem_exit_pid demo_env 42 (snd (sem_try_op demo_env 0 demo_set demo_up 42 0 (dm_b demo_made))))) 0 s2 /\
  at_z (ss_val s2) 0 = at_z (ss_val s1) 0.
Proof.
  destruct (semop_undo_vanishes demo_env demo_env 0 demo_set demo_up 42 0 (dm_b demo_made)
              (snd (fst (sem_try_op demo_env 0 demo_set demo_up 42 0 (dm_b demo_made))))
              (snd (sem_try_op demo_env 0 demo_set demo_up 42 0 (dm_b demo_made)))
              (proj1 (reach_keeps _ demo_made_reach)) demo_held) with (k := 0%nat) (s0 := demo_set) as (s1 & s2 & H1 & H2 & H3).
  - repeat (constructor; [unfold sembuf_ok; cbn; lia|]). constructor.
  - repeat constructor.
  - rewrite (prod3_eta (sem_try_op _ _ _ _ _ _ _)) at 1. do 2 f_equal.
  - exact demo_held.
  - exists s1, s2. split; [exact H1|]. split; [exact H2|]. apply (H3 0). lia.
Defined.

(** C23: what msgrcv takes from a queue.  If the choice is none, no message of
    the queue matches the type asked for.  Otherwise the message is one that
    matches: the first in the queue when the type is zero or positive (with
    MSG_EXCEPT, the first of another type), and when it is negative the first
    among those of the least type, which is at most its absolute value, even
    for the type whose negation does not fit. *)
Theorem msgrcv_choice q ty fl : - 2 ^ 63 <= ty < 2 ^ 63 ->
  Forall (fun m => 0 < gm_type m < 2 ^ 63) (mq_msgs q) ->
  picked ty fl (mq_msgs q) (msg_pick q ty fl) /\
  forall m, In m (mq_msgs q) -> msg_matches m ty fl =
    if ty =? 0 then true else if 0 <? ty then xorb (has fl G_MSG_EXCEPT) (gm_type m =? ty) else gm_type m <=? - ty.
Proof.
  intros Hty Hf. split; [by apply (pick_loop_spec ty fl (mq_msgs q) [] None)|]. intros m Hm.
  apply (proj1 (List.Forall_forall _ _) Hf) in Hm. unfold msg_matches, LONG_MIN, LONG_MAX.
  destruct (ty =? 0); [done|]. destruct (0 <? ty); [by destruct (has fl G_MSG_EXCEPT)|].
  destruct (Z.eqb_spec ty (- 2 ^ 63)) as [->|]; [|done]. lia.
Qed.
Definition demo_queue : MsgQ :=
  mkQ 1 0 no_perm 0 0 0 0 3 16384 0 0 0 0 [mkMsg 5 0 []; mkMsg 2 0 []; mkMsg 2 0 []].
Lemma msgrcv_choice_witness : picks (-4) 0 (mq_msgs demo_queue) 1 (mkMsg 2 0 []).
Proof.
  apply (msgrcv_choice demo_queue (-4) 0); [lia|]. repeat (constructor; [cbn; lia|]). constructor.
Defined.

(** C20: the daemon's tables stay consistent in every state it reaches: no two
    sets, queues or segments share an id, semaphore values lie between 0 and
    SEMVMX, each undo row belongs to one process and an existing set, has that
    set's length and adjustments that fit their 16 bits, a queue's counters
    are the number and total size of its messages, parked callers have distinct
    arrival numbers and a blocking operation within their vector, and the
    counts of waiters and rows are the numbers of used slots. *)
Theorem broker_tables_ok d : daemon_reach d -> broker_ok (dm_b d).
Proof. intros Hd. by apply reach_keeps. Qed.
Lemma broker_tables_ok_witness : broker_ok (dm_b demo_parked) /\ bk_nwait (dm_b demo_parked) = 1.
Proof. split; [exact (broker_tables_ok _ demo_parked_reach)|vm_compute; reflexivity]. Defined.

(** C18: no wake-up is lost.  Whenever a round of the daemon is over, every
    caller still parked really has to wait: its set or queue exists, and the
    recorded operation of its vector has to wait on the values as they are,
    its message does not fit, or no message matches. *)
Theorem no_lost_wakeup d i w : daemon_reach d -> holds (bk_wait (dm_b d)) i w -> stuck (dm_b d) w.
Proof. intros Hd. by apply reach_keeps. Qed.
Lemma no_lost_wakeup_witness : exists w, holds (bk_wait (dm_b demo_parked)) 0 w /\ stuck (dm_b demo_parked) w.
Proof.
  eexists. split; [|refine (no_lost_wakeup _ 0 _ demo_parked_reach _)]; vm_compute; reflexivity.
Defined.

(** C22: the rescan ends.  More fuel for its passes or for the loop over them
    changes nothing: a pass visits each parked caller once, in order of
    arrival, and every pass but the last answers one. *)
Theorem rescan_terminates e b k : broker_ok b ->
  rescan_pass (S IPC_WAITER_MAX + k) e 0 false b = rescan_pass (S IPC_WAITER_MAX) e 0 false b /\
  rescan_loop (S IPC_WAITER_MAX + k) e b = ipc_rescan e b.
Proof.
  intros Hb. destruct (ok_wait b Hb) as (Hl & _ & _ & Hc & _). pose proof (count_le (bk_wait b)). split.
  - apply pass_fuel; [done|]. unfold pending. pose proof (List.filter_length_le (later 0) (bk_wait b)). lia.
  - unfold ipc_rescan. apply loop_fuel; [done|]. lia.
Qed.
Lemma rescan_terminates_witness : broker_ok broker_init /\ rescan_loop (S IPC_WAITER_MAX + 3) demo_env (dm_b demo_parked) =
  ipc_rescan demo_env (dm_b demo_parked).
Proof.
  split; [exact init_ok|]. apply (rescan_terminates demo_env (dm_b demo_parked) 3). apply (reach_keeps _ demo_parked_reach).
Defined.

(** An undo row is found by pid alone: a process that got the pid of a dead one
    before the reclaim tick works on the dead one's row, and the tick, seeing
    the old start time, takes the living process's operation back. *)
Definition new_env : IpcEnv := mkIpcEnv 200 6 (fun _ => 8) true (fun _ _ => true) 3.
Definition first_held (b : Broker) : option SemSet := match bk_sem b with Some s :: _ => Some s | _ => None end.
Definition semop_at (e : IpcEnv) (sops : list GSembuf) (b : Broker) : Broker :=
  match first_held b with Some s => snd (sem_try_op e 0 s sops 42 0 b) | None => b end.
Example recycled_pid_loses_undo :
  option_map ss_val (first_held (semop_at new_env [mkSop 1 5 G_SEM_UNDO] (semop_at demo_env [mkSop 0 3 G_SEM_UNDO] (dm_b demo_made)))) =
    Some [3; 5] /\
  option_map ss_val (first_held (ipc_reclaim new_env
    (semop_at new_env [mkSop 1 5 G_SEM_UNDO] (semop_at demo_env [mkSop 0 3 G_SEM_UNDO] (dm_b demo_made))))) = Some [0; 0].
Proof. vm_compute. split; reflexivity. Qed.
