(* ===== verification/MfdReg.v ===== *)
(** * MfdReg: the broker's memfd registry and personality table (proctab.c)

    The other two tables of the session daemon: the seals, modes, holders and
    writable mappers of memory files the host cannot seal itself, keyed by
    inode, and the personalities of threads that differ from their process.
    The registry is a table of slots as in Ipc.v; the mapper and holder arrays
    with their counts are lists, an element removed by moving the last one into
    its place. *)

From Stdlib Require Import ZifyNat ZifyBool.
From S2P Require Import Prelude Types Cpu MemSeam Ipc IpcInv.
Import IpcErr.

Module MfdErr.
Definition ESRCH : Z := 3.
Definition EBUSY : Z := 16.
Definition ENFILE : Z := 23.
Definition EMFILE : Z := 24.
End MfdErr.
Import MfdErr.

Definition MFD_TAB_MAX : nat := 256.
Definition MFD_WR_TRACK : nat := 32.
Definition MFD_HOLD_TRACK : nat := 32.
Definition MFD_NAME_MAX : nat := 80.
Definition F_SEAL_SEAL : Z := 0x1.
Definition F_SEAL_WRITE : Z := 0x8.

Record MfdWr := mkWr { w_pid : Z; w_start : Z; w_n : Z }.
Record MfdHold := mkHold { h_pid : Z; h_start : Z }.
Record Mfd := mkMfd {
  m_dev : Z; m_ino : Z; m_seals : Z; m_fd : Z; m_name : list Z; m_wr : list MfdWr; m_hold : list MfdHold;
  m_mode : Z; m_has_mode : bool; m_tier : bool
}.
(** What a request meets outside: start times of processes and threads, fstat
    of the descriptor that came along (none: -1), the result of dup, and
    whether realloc succeeds. *)
Record MfdEnv := mkMfdEnv {
  me_start : Z -> Z; me_task : Z -> Z -> Z; me_rfd : Z; me_stat : option (Z * Z); me_dup : Z; me_mem : bool
}.

Definition with_wr (w : list MfdWr) (e : Mfd) : Mfd :=
  mkMfd (m_dev e) (m_ino e) (m_seals e) (m_fd e) (m_name e) w (m_hold e) (m_mode e) (m_has_mode e) (m_tier e).
Definition with_hold (h : list MfdHold) (e : Mfd) : Mfd :=
  mkMfd (m_dev e) (m_ino e) (m_seals e) (m_fd e) (m_name e) (m_wr e) h (m_mode e) (m_has_mode e) (m_tier e).
Definition with_seals (s : Z) (e : Mfd) : Mfd :=
  mkMfd (m_dev e) (m_ino e) s (m_fd e) (m_name e) (m_wr e) (m_hold e) (m_mode e) (m_has_mode e) (m_tier e).
Definition with_mode (mode : Z) (e : Mfd) : Mfd :=
  mkMfd (m_dev e) (m_ino e) (m_seals e) (m_fd e) (m_name e) (m_wr e) (m_hold e) mode true (m_tier e).

(** The loops [for (i = 0; i < n; ) if (bad(a[i])) a[i] = a[--n]; else i++]. *)
Fixpoint sweep {A} (fuel : nat) (bad : A -> bool) (i : nat) (l : list A) : list A :=
  match fuel with
  | O => l
  | S k => match l !! i with
           | None => l
           | Some x => if bad x then sweep k bad i (swap_out i l) else sweep k bad (S i) l
           end
  end.
Definition sweep_all {A} (bad : A -> bool) (l : list A) : list A := sweep (length l) bad 0 l.
(** The first index with [p]. *)
Fixpoint index_of {A} (p : A -> bool) (l : list A) : option nat :=
  match l with
  | [] => None
  | x :: r => if p x then Some O else option_map S (index_of p r)
  end.

(** ** The memfd registry *)
Definition mfd_find (dev ino : Z) (g : list (option Mfd)) : option (nat * Mfd) :=
  find_slot (fun e => (m_dev e =? dev) && (m_ino e =? ino)) g.
Definition mfd_hold_reclaim (v : MfdEnv) (l : list MfdHold) : list MfdHold :=
  sweep_all (fun h => negb (me_start v (h_pid h) =? h_start h)) l.
Definition mfd_hold_add (v : MfdEnv) (pid : Z) (l : list MfdHold) : list MfdHold :=
  if pid <=? 0 then l else
  match index_of (fun h => h_pid h =? pid) l with
  | Some i => <[i := mkHold pid (me_start v pid)]> l
  | None =>
      let l := if (length l =? MFD_HOLD_TRACK)%nat then mfd_hold_reclaim v l else l in
      if (length l =? MFD_HOLD_TRACK)%nat then l else l ++ [mkHold pid (me_start v pid)]
  end.
Definition mfd_any_live (v : MfdEnv) (g : list (option Mfd)) : bool * list (option Mfd) :=
  let g := map (option_map (fun e => with_hold (mfd_hold_reclaim v (m_hold e)) e)) g in
  (existsb (fun o => match o with Some e => negb (length (m_hold e) =? 0)%nat | None => false end) g, g).

(** The slot of an inode, or a free one. *)
Definition mfd_slot (dev ino : Z) (g : list (option Mfd)) : option nat :=
  match mfd_find dev ino g with Some (i, _) => Some i | None => empty_slot g end.
Definition mfd_do_reg (v : MfdEnv) (q : BReq) (g : list (option Mfd)) : Z * list (option Mfd) :=
  let nlen := Z.min (q_size q) (Z.of_nat MFD_NAME_MAX - 1) in
  match (if 0 <? q_size q then read_n (Z.min (q_size q) 256) (q_data q) else Some []) with
  | None => (- EINVAL, g)
  | Some buf =>
      let name := take (Z.to_nat nlen) buf ++ replicate (MFD_NAME_MAX - Z.to_nat nlen) 0 in
      if me_rfd v <? 0 then (- EINVAL, g) else
      match me_stat v with
      | None => (- EINVAL, g)
      | Some (dev, ino) =>
          match mfd_slot dev ino g with
          | None => (- ENFILE, g)
          | Some i =>
              if me_dup v <? 0 then (- EMFILE, <[i := None]> g)
              else (0, <[i := Some (mkMfd dev ino (u32 (q_val q)) (me_dup v) name []
                                      (mfd_hold_add v (q_pid q) []) 0 false true)]> g)
          end
      end
  end.
Definition mfd_wr_reclaim (v : MfdEnv) (l : list MfdWr) : list MfdWr :=
  sweep_all (fun w => negb (me_start v (w_pid w) =? w_start w)) l.
(** [q_mtype] and [q_size] carry the inode in the requests below. *)
Definition mfd_do_seal (v : MfdEnv) (q : BReq) (g : list (option Mfd)) : Z * list (option Mfd) :=
  match mfd_find (u64 (q_mtype q)) (q_size q) g with
  | None => (- EINVAL, g)
  | Some (i, e) =>
      if negb (m_tier e) then (- EINVAL, g) else
      let mask := Z.land (u32 (q_val q)) 0x3f in
      if has (m_seals e) F_SEAL_SEAL then (- EPERM, g) else
      if has mask F_SEAL_WRITE then
        let e := with_wr (mfd_wr_reclaim v (m_wr e)) e in
        if existsb (fun w => negb (w_n w =? 0)) (m_wr e) then (- EBUSY, <[i := Some e]> g)
        else (0, <[i := Some (with_seals (Z.lor (m_seals e) mask) e)]> g)
      else (0, <[i := Some (with_seals (Z.lor (m_seals e) mask) e)]> g)
  end.
Definition mfd_do_mode (v : MfdEnv) (q : BReq) (g : list (option Mfd)) : Z * list (option Mfd) :=
  if q_arg q =? 0 then
    match mfd_find (u64 (q_mtype q)) (q_size q) g with
    | None => (- ENOENT, g)
    | Some (_, e) => (if m_has_mode e then s32 (m_mode e) else - ENOENT, g)
    end
  else if me_rfd v <? 0 then (- EINVAL, g)
  else
  match me_stat v with
  | None => (- EINVAL, g)
  | Some (dev, ino) =>
      let set i e := (0, <[i := Some (with_hold (mfd_hold_add v (q_pid q) (m_hold e))
                                        (with_mode (Z.land (u32 (q_val q)) 0xfff) e))]> g) in
      match mfd_find dev ino g with
      | Some (i, e) => set i e
      | None =>
          match empty_slot g with
          | None => (- ENFILE, g)
          | Some i => if me_dup v <? 0 then (- EMFILE, g)
                      else set i (mkMfd dev ino 0 (me_dup v) (replicate MFD_NAME_MAX 0) [] [] 0 false false)
          end
      end
  end.
(** The mapper rows after a mapping of [pid], and after an unmapping. *)
Definition wr_up (v : MfdEnv) (pid : Z) (l : list MfdWr) : list MfdWr :=
  match index_of (fun w => w_pid w =? pid) l with
  | Some i => alter (fun w => mkWr (w_pid w) (w_start w) (u32 (w_n w + 1))) i l
  | None =>
      let l := if (length l =? MFD_WR_TRACK)%nat then mfd_wr_reclaim v l else l in
      if (length l =? MFD_WR_TRACK)%nat then l else l ++ [mkWr pid (me_start v pid) 1]
  end.
Definition wr_down (pid : Z) (l : list MfdWr) : list MfdWr :=
  match index_of (fun w => w_pid w =? pid) l with
  | None => l
  | Some i =>
      let l := alter (fun w => mkWr (w_pid w) (w_start w) (if w_n w =? 0 then 0 else w_n w - 1)) i l in
      match l !! i with
      | Some w => if w_n w =? 0 then swap_out i l else l
      | None => l
      end
  end.
Definition mfd_do_map (v : MfdEnv) (q : BReq) (g : list (option Mfd)) : Z * list (option Mfd) :=
  match mfd_find (u64 (q_mtype q)) (q_size q) g with
  | None => (0, g)
  | Some (i, e) =>
      if negb (m_tier e) then (0, g)
      else (0, <[i := Some (with_wr (if 0 <? q_val q then wr_up v (q_pid q) (m_wr e) else wr_down (q_pid q) (m_wr e)) e)]> g)
  end.
(** REQ_MFDLOOK in [ipc_serve]: the seals and the name (up to its NUL). *)
Fixpoint c_str (l : list Z) : list Z := match l with [] => [] | c :: r => if c =? 0 then [] else c :: c_str r end.
Definition mfd_do_look (v : MfdEnv) (q : BReq) (g : list (option Mfd)) : Z * list Z * list (option Mfd) :=
  match mfd_find (u64 (q_mtype q)) (q_size q) g with
  | None => (- ENOENT, [], g)
  | Some (i, e) =>
      if negb (m_tier e) then (- ENOENT, [], g)
      else (s32 (m_seals e), c_str (m_name e), <[i := Some (with_hold (mfd_hold_add v (q_pid q) (m_hold e)) e)]> g)
  end.

(** ** Personalities *)
Definition PERS_GET : Z := 0.
Definition PERS_PUT : Z := 1.
Definition PERS_DEL : Z := 2.
Definition PERS_CLEAR : Z := 3.
Definition PERS_MAX : Z := 65536.
Record PersEnt := mkPers { pe_pid : Z; pe_tid : Z; pe_pstart : Z; pe_tstart : Z; pe_pers : Z }.
(** [g_pers] with [g_pers_n] its length, and [g_pers_cap]. *)
Record PersTab := mkPersTab { pt_ents : list PersEnt; pt_cap : Z }.

Definition pers_is (pid tid : Z) (p : PersEnt) : bool := (pe_pid p =? pid) && (pe_tid p =? tid).
Definition pers_find (pid tid : Z) (l : list PersEnt) : option nat := index_of (pers_is pid tid) l.
Definition pers_live (v : MfdEnv) (p : PersEnt) : bool :=
  (me_start v (pe_pid p) =? pe_pstart p) && (me_task v (pe_pid p) (pe_tid p) =? pe_tstart p).
Definition pers_any_live (v : MfdEnv) (t : PersTab) : bool * PersTab :=
  let l := sweep_all (fun p => negb (pers_live v p)) (pt_ents t) in
  (negb (length l =? 0)%nat, mkPersTab l (pt_cap t)).
Definition pers_put (v : MfdEnv) (q : BReq) (t : PersTab) : Z * PersTab :=
  if (q_pid q <=? 0) || (q_id q <=? 0) then (- EINVAL, t) else
  let ps := me_start v (q_pid q) in let ts := me_task v (q_pid q) (q_id q) in
  if (ps =? 0) || (ts =? 0) then (- ESRCH, t) else
  let ent := mkPers (q_pid q) (q_id q) ps ts (u32 (q_val q)) in
  match pers_find (q_pid q) (q_id q) (pt_ents t) with
  | Some i => (0, mkPersTab (<[i := ent]> (pt_ents t)) (pt_cap t))
  | None =>
      let t := if Z.of_nat (length (pt_ents t)) =? PERS_MAX then snd (pers_any_live v t) else t in
      let n := Z.of_nat (length (pt_ents t)) in
      if n =? PERS_MAX then (- ENOSPC, t)
      else if n =? pt_cap t then
        if me_mem v then (0, mkPersTab (pt_ents t ++ [ent]) (if pt_cap t =? 0 then 64 else pt_cap t * 2))
        else (- ENOMEM, t)
      else (0, mkPersTab (pt_ents t ++ [ent]) (pt_cap t))
  end.
(** [pers_do]: the result, and for GET the value. *)
Definition pers_do (v : MfdEnv) (q : BReq) (t : PersTab) : Z * Z * PersTab :=
  if q_arg q =? PERS_GET then
    match pers_find (q_key q) (q_id q) (pt_ents t) with
    | None => (- ENOENT, 0, t)
    | Some i =>
        match pt_ents t !! i with
        | None => (- ENOENT, 0, t)
        | Some p => if pers_live v p then (0, pe_pers p, t)
                    else (- ENOENT, 0, mkPersTab (swap_out i (pt_ents t)) (pt_cap t))
        end
    end
  else if q_arg q =? PERS_PUT then let '(r, t) := pers_put v q t in (r, 0, t)
  else if q_arg q =? PERS_DEL then
    match pers_find (q_pid q) (q_id q) (pt_ents t) with
    | None => (0, 0, t)
    | Some i => (0, 0, mkPersTab (swap_out i (pt_ents t)) (pt_cap t))
    end
  else if q_arg q =? PERS_CLEAR then
    (0, 0, mkPersTab (sweep_all (fun p => pe_pid p =? q_pid q) (pt_ents t)) (pt_cap t))
  else (- EINVAL, 0, t).

(** ** Sweeping and searching *)
Lemma swap_out_split {A} i (l : list A) x : l !! i = Some x ->
  exists r, swap_out i l = take i l ++ r /\ r ≡ₚ drop (S i) l.
Proof.
  intros Hi. destruct l as [|y l _] using rev_ind; [done|]. unfold swap_out.
  rewrite length_app. cbn [length]. replace (length l + 1 - 1)%nat with (length l) by lia.
  rewrite lookup_app_r, Nat.sub_diag, removelast_last by lia. cbn [lookup list_lookup].
  destruct (Nat.ltb_spec i (length l)) as [Hl|Hl].
  - exists (y :: drop (S i) l). rewrite insert_take_drop, take_app_le by lia. split; [done|].
    rewrite drop_app_le by lia. solve_Permutation.
  - assert (i = length l) as -> by (apply lookup_lt_Some in Hi; rewrite length_app in Hi; cbn in Hi; lia).
    exists []. rewrite take_app_length, app_nil_r. split; [done|]. rewrite drop_ge; [done|]. rewrite length_app. cbn. lia.
Qed.
Lemma filter_perm {A} (p : A -> bool) l l' : l ≡ₚ l' -> List.filter p l ≡ₚ List.filter p l'.
Proof.
  induction 1 as [|x l l' _ IH|x y l|l l' l'' _ IH1 _ IH2]; cbn [List.filter]; [done| |..].
  - destruct (p x); [by constructor|done].
  - destruct (p x), (p y); try done. constructor.
  - by rewrite IH1.
Qed.
Lemma sweep_perm {A} (bad : A -> bool) n i l : (length l <= n + i)%nat ->
  sweep n bad i l ≡ₚ take i l ++ List.filter (fun x => negb (bad x)) (drop i l).
Proof.
  revert i l. induction n as [|n IH]; intros i l Hn; cbn [sweep].
  { rewrite take_ge, drop_ge by lia. cbn. by rewrite app_nil_r. }
  destruct (l !! i) as [x|] eqn:Hi.
  2: { apply lookup_ge_None_1 in Hi. rewrite take_ge, drop_ge by lia. cbn. by rewrite app_nil_r. }
  pose proof (lookup_lt_Some _ _ _ Hi) as Hlt. rewrite (drop_S l x i Hi). cbn [List.filter].
  destruct (bad x) eqn:Eb; cbn [negb].
  - destruct (swap_out_split i l x Hi) as (r & Hs & Hr). rewrite IH.
    + rewrite Hs, take_app_le, take_take, Nat.min_id by (rewrite length_take; lia).
      rewrite drop_app_ge by (rewrite length_take; lia). rewrite length_take.
      replace (i - i `min` length l)%nat with 0%nat by lia. cbn [drop]. by rewrite (filter_perm _ _ _ Hr).
    + pose proof (Permutation_length (swap_out_perm i l x Hi)) as Hp. cbn [length] in Hp. lia.
  - rewrite IH by lia. rewrite (take_S_r l i x Hi). by rewrite <- app_assoc.
Qed.
Lemma sweep_all_perm {A} (bad : A -> bool) l : sweep_all bad l ≡ₚ List.filter (fun x => negb (bad x)) l.
Proof. unfold sweep_all. by rewrite sweep_perm by lia. Qed.
Lemma index_of_some {A} (p : A -> bool) l i : index_of p l = Some i -> exists x, l !! i = Some x /\ p x = true.
Proof.
  revert i. induction l as [|x l IH]; intros i H; cbn [index_of] in H; [done|]. destruct (p x) eqn:E; [simplify_eq; by exists x|].
  destruct (index_of p l) as [j|]; simplify_eq/=. by apply IH.
Qed.
Lemma index_of_none {A} (p : A -> bool) l x : index_of p l = None -> x ∈ l -> p x = false.
Proof.
  induction l as [|y l IH]; intros H Hx; [by apply not_elem_of_nil in Hx|]. cbn [index_of] in H. destruct (p y) eqn:E; [done|].
  destruct (index_of p l); [done|]. apply elem_of_cons in Hx as [->|Hx]; [done|by apply IH].
Qed.
Lemma alter_perm {A} (f : A -> A) i l x : l !! i = Some x -> l ≡ₚ x :: delete i l /\ alter f i l ≡ₚ f x :: delete i l.
Proof.
  intros Hi. split; [by apply delete_Permutation|]. rewrite (delete_Permutation (alter f i l) i (f x)) by by rewrite list_lookup_alter_eq, Hi.
  by rewrite !delete_take_drop, take_alter_ge, drop_alter_lt by lia.
Qed.

(** ** The census of writable mappings *)

(** The rows stand for the writable mappings [led] of the processes that live
    now: a row whose start time is that of its pid has the pid's count, every
    process with a mapping has such a row, and a row of another time belongs to
    a process that is gone. *)
Definition census (start led : Z -> Z) (l : list MfdWr) : Prop :=
  NoDup (map w_pid l) /\ (forall p, 0 <= led p) /\
  (forall w, w ∈ l -> 0 < w_n w /\ (start (w_pid w) = w_start w -> w_n w = led (w_pid w))) /\
  (forall p, 0 < led p -> exists w, w ∈ l /\ w_pid w = p /\ w_start w = start p).
Global Instance census_perm start led : Proper ((≡ₚ) ==> iff) (census start led).
Proof.
  intros l l' Hp. unfold census. rewrite (Permutation_map w_pid Hp). setoid_rewrite Hp. done.
Qed.
(** [led] with one entry changed. *)
Definition upd (f : Z -> Z) (p v : Z) : Z -> Z := fun q => if q =? p then v else f q.

Lemma upd_eq f p v : upd f p v p = v.
Proof. unfold upd. by rewrite Z.eqb_refl. Qed.
Lemma upd_ne f p v q : q <> p -> upd f p v q = f q.
Proof. intros. unfold upd. destruct (Z.eqb_spec q p); [done|done]. Qed.
Lemma pid_ne x w r : NoDup (map w_pid (x :: r)) -> w ∈ r -> w_pid w <> w_pid x.
Proof.
  cbn [map]. intros [Hn _]%list.NoDup_cons Hw E. apply Hn. rewrite <- E. by apply (list_elem_of_fmap_2 w_pid).
Qed.
(** One row replaced, removed or added. *)
Lemma census_replace start led x r x' : census start led (x :: r) -> w_pid x' = w_pid x -> w_start x' = start (w_pid x) ->
  0 < w_n x' -> census start (upd led (w_pid x) (w_n x')) (x' :: r).
Proof.
  intros (Hn & H0 & Hw & Hl) Hp Hs Hpos. pose proof (fun w => pid_ne x w r Hn) as Hne. split; [cbn [map] in *; by rewrite Hp|]. split.
  { intros p. unfold upd. case_match; [lia|apply H0]. }
  split.
  - intros w [->|Hwr]%elem_of_cons; [split; [done|]; intros _; by rewrite Hp, upd_eq|].
    rewrite (upd_ne _ _ _ _ (Hne w Hwr)). apply Hw. apply elem_of_cons. by right.
  - intros p Hlp. destruct (decide (p = w_pid x)) as [->|Hpx]; [exists x'; split; [apply elem_of_cons; by left|done]|].
    rewrite upd_ne in Hlp by done. destruct (Hl p Hlp) as (w & [->|Hwr]%elem_of_cons & Hwp & Hws); [done|].
    exists w. split; [apply elem_of_cons; by right|done].
Qed.
Lemma census_remove start led x r : census start led (x :: r) -> census start (upd led (w_pid x) 0) r.
Proof.
  intros (Hn & H0 & Hw & Hl). pose proof (fun w => pid_ne x w r Hn) as Hne. split; [cbn [map] in Hn; by apply NoDup_cons_1_2 in Hn|]. split.
  { intros p. unfold upd. case_match; [lia|apply H0]. }
  split.
  - intros w Hwr. rewrite (upd_ne _ _ _ _ (Hne w Hwr)). apply Hw. apply elem_of_cons. by right.
  - intros p Hlp. destruct (decide (p = w_pid x)) as [->|Hpx]; [rewrite upd_eq in Hlp; lia|]. rewrite upd_ne in Hlp by done.
    destruct (Hl p Hlp) as (w & [->|Hwr]%elem_of_cons & Hwp & Hws); [done|]. by exists w.
Qed.
Lemma census_add start led p v l : census start led l -> p ∉ map w_pid l -> 0 < v ->
  census start (upd led p v) (mkWr p (start p) v :: l).
Proof.
  intros (Hn & H0 & Hw & Hl) Hp Hv. split; [cbn [map]; by apply list.NoDup_cons|]. split.
  { intros q. unfold upd. case_match; [lia|apply H0]. }
  split.
  - intros w [->|Hwl]%elem_of_cons; [cbn; by rewrite upd_eq|]. rewrite upd_ne; [by apply Hw|].
    intros <-. by apply Hp, (list_elem_of_fmap_2 w_pid).
  - intros q Hq. destruct (decide (q = p)) as [->|Hne]; [eexists; split; [apply elem_of_cons; by left|done]|].
    rewrite upd_ne in Hq by done. destruct (Hl q Hq) as (w & Hwl & ?). exists w. split; [apply elem_of_cons; by right|done].
Qed.
(** A process comes or goes: its pid has another start time. *)
Lemma census_start start led p s l : census start led l -> (forall w, w ∈ l -> w_pid w = p -> w_start w <> s) ->
  census (upd start p s) (upd led p 0) l.
Proof.
  intros (Hn & H0 & Hw & Hl) Hs. split; [done|]. split; [intros q; unfold upd; case_match; [lia|apply H0]|]. split.
  - intros w Hwl. destruct (Hw w Hwl) as [Hpos Heq]. split; [done|]. unfold upd. destruct (Z.eqb_spec (w_pid w) p) as [E|E]; [|done].
    intros Hst. by destruct (Hs w Hwl E).
  - intros q Hq. destruct (decide (q = p)) as [->|Hne]; [rewrite upd_eq in Hq; lia|]. rewrite upd_ne in Hq by done.
    destruct (Hl q Hq) as (w & Hwl & Hwp & Hws). exists w. by rewrite upd_ne.
Qed.
Lemma nodup_filter {A} (f : A -> Z) p l : NoDup (map f l) -> NoDup (map f (List.filter p l)).
Proof.
  induction l as [|x l IH]; cbn [List.filter map]; [done|]. intros [Hx Hn]%list.NoDup_cons. destruct (p x); [|by apply IH].
  cbn [map]. apply list.NoDup_cons. split; [|by apply IH]. rewrite list_elem_of_fmap. intros (y & E & Hy). apply Hx.
  rewrite E. apply list_elem_of_In, filter_In in Hy as [Hy _]. apply (list_elem_of_fmap_2 f). by apply list_elem_of_In.
Qed.
(** Sweeping the rows of dead processes keeps the census and leaves only rows
    that count. *)
Lemma in_sweep {A} (bad : A -> bool) l x : x ∈ sweep_all bad l <-> x ∈ l /\ bad x = false.
Proof. rewrite sweep_all_perm, !list_elem_of_In, filter_In. destruct (bad x); cbn; intuition congruence. Qed.
Lemma census_sweep v led l : census (me_start v) led l -> census (me_start v) led (mfd_wr_reclaim v l).
Proof.
  intros (Hn & H0 & Hw & Hl). unfold mfd_wr_reclaim. split; [|split; [done|split]].
  - rewrite (Permutation_map w_pid (sweep_all_perm _ l)). by apply nodup_filter.
  - intros w [Hwl _]%in_sweep. by apply Hw.
  - intros p Hp. destruct (Hl p Hp) as (w & Hwl & <- & Hws). exists w. split; [|done]. apply in_sweep. split; [done|]. lia.
Qed.
Lemma swept_rows v led l w : census (me_start v) led l -> w ∈ mfd_wr_reclaim v l -> w_n w = led (w_pid w) /\ 0 < led (w_pid w).
Proof. intros (_ & _ & Hw & _) [Hwl Hst]%in_sweep. destruct (Hw w Hwl) as [Hpos Heq]. rewrite <- Heq by lia. done. Qed.

(** The rows of one mapping more, and of one less. *)
Lemma census_up v led pid l : census (me_start v) led l ->
  (forall w, w ∈ l -> w_pid w = pid -> w_start w = me_start v pid) -> led pid < 2 ^ 32 - 1 ->
  (exists ps, (length ps < MFD_WR_TRACK)%nat /\ forall p, 0 < led p -> p ∈ ps) ->
  census (me_start v) (upd led pid (led pid + 1)) (wr_up v pid l).
Proof.
  intros Hc Hcur Hmax (ps & Hps & Hcov). unfold wr_up. destruct (index_of _ l) as [i|] eqn:Ei.
  - apply index_of_some in Ei as (x & Hi & Hp). destruct (alter_perm (fun w => mkWr (w_pid w) (w_start w) (u32 (w_n w + 1))) i l x Hi) as [Hl ->].
    pose proof (list_elem_of_lookup_2 _ _ _ Hi) as Hx. pose proof Hc as (_ & _ & Hw & _). destruct (Hw x Hx) as [Hpos Heq].
    assert (Epid : w_pid x = pid) by lia. specialize (Hcur x Hx Epid). rewrite Epid in Heq. specialize (Heq (eq_sym Hcur)).
    cbn beta. rewrite u32_small by (unfold fits; lia). rewrite Hl in Hc.
    apply (census_replace _ _ _ _ (mkWr (w_pid x) (w_start x) (w_n x + 1))) in Hc; [|done|cbn; congruence|cbn; lia].
    cbn [w_n] in Hc. rewrite Epid, Heq in Hc. rewrite Epid, Heq. exact Hc.
  - assert (Hni : forall l', (forall w, w ∈ l' -> w ∈ l) -> pid ∉ map w_pid l').
    { intros l' Hsub (w & E & Hw)%list_elem_of_fmap. apply (index_of_none _ _ w) in Ei; [lia|by apply Hsub]. }
    assert (H0 : led pid = 0).
    { pose proof Hc as (_ & H0 & _ & Hl). specialize (H0 pid). destruct (Z.eq_dec (led pid) 0); [done|].
      destruct (Hl pid) as (w & Hwl & E & _); [lia|]. apply (index_of_none _ _ w) in Ei; [lia|done]. }
    rewrite H0, Z.add_0_l. cbv zeta. destruct (Nat.eqb_spec (length l) MFD_WR_TRACK) as [Hf|Hf].
    + destruct (Nat.eqb_spec (length (mfd_wr_reclaim v l)) MFD_WR_TRACK) as [Hr|_].
      * exfalso. pose proof (census_sweep v led l Hc) as (Hn & _). pose proof (NoDup_submseteq (map w_pid (mfd_wr_reclaim v l)) ps Hn) as Hsub.
        assert (Hle : map w_pid (mfd_wr_reclaim v l) ⊆+ ps).
        { apply Hsub. intros p (w & -> & Hw)%list_elem_of_fmap. apply Hcov. by apply (swept_rows v led l w Hc). }
        apply submseteq_length in Hle. rewrite length_map in Hle. lia.
      * rewrite <- Permutation_cons_append. apply census_add; [by apply census_sweep| |lia]. apply Hni.
        intros w Hw. by apply in_sweep in Hw as [? _].
    + rewrite (proj2 (Nat.eqb_neq _ _) Hf). rewrite <- Permutation_cons_append. apply census_add; [done| |lia]. by apply Hni.
Qed.
Lemma census_down v led pid l : census (me_start v) led l -> 0 < led pid ->
  census (me_start v) (upd led pid (led pid - 1)) (wr_down pid l).
Proof.
  intros Hc Hpos. unfold wr_down. pose proof Hc as (Hn & _ & Hw & Hl). destruct (Hl pid Hpos) as (x & Hx & Hxp & Hxs).
  destruct (index_of _ l) as [i|] eqn:Ei; [|apply (index_of_none _ _ x) in Ei; [lia|done]].
  apply index_of_some in Ei as (y & Hi & Hyp). assert (y = x) as ->.
  { apply list_elem_of_lookup_1 in Hx as [j Hj]. assert (i = j) as ->; [|congruence].
    apply (NoDup_lookup (map w_pid l) i j pid Hn); rewrite list_lookup_fmap, ?Hi, ?Hj; cbn; f_equal; lia. }
  destruct (Hw x Hx) as [Hxn Heq]. rewrite Hxp in Heq. specialize (Heq (eq_sym Hxs)). cbv zeta.
  set (f := fun w : MfdWr => _). destruct (alter_perm f i l x Hi) as [Hl1 Hl2]. rewrite Hl1 in Hc.
  rewrite list_lookup_alter_eq, Hi. cbn [fmap option_fmap option_map]. assert (Hfn : w_n (f x) = led pid - 1).
  { subst f. cbn. destruct (Z.eqb_spec (w_n x) 0); lia. }
  destruct (Z.eqb_spec (w_n (f x)) 0) as [Hz|Hz].
  - assert (Hs : swap_out i (alter f i l) ≡ₚ delete i l).
    { apply (Permutation_cons_inv (a := f x)). rewrite <- Hl2. symmetry. apply swap_out_perm. by rewrite list_lookup_alter_eq, Hi. }
    rewrite Hs. apply census_remove in Hc. rewrite Hxp in Hc. by replace (led pid - 1) with 0 by lia.
  - rewrite Hl2. rewrite <- Hfn, <- Hxp. apply census_replace; [done|done|cbn; congruence|lia].
Qed.

(** ** The registry as a whole *)
Lemma find_slot_same {A} (p : A -> bool) l i x y : find_slot p l = Some (i, x) -> p y = true ->
  find_slot p (<[i := Some y]> l) = Some (i, y).
Proof.
  revert i. induction l as [|[a|] l IH]; intros i H Hy; cbn [find_slot] in H; [done|..].
  - destruct (p a) eqn:Ea; [simplify_eq; cbn; by rewrite Hy|]. destruct (find_slot p l) as [[j z]|] eqn:E; simplify_eq/=.
    rewrite Ea. by rewrite (IH j eq_refl Hy).
  - destruct (find_slot p l) as [[j z]|] eqn:E; simplify_eq/=. by rewrite (IH j eq_refl Hy).
Qed.
Lemma find_slot_other {A} (p : A -> bool) l i x j o : find_slot p l = Some (i, x) -> j <> i ->
  match o with Some y => p y = false | None => True end -> find_slot p (<[j := o]> l) = Some (i, x).
Proof.
  revert i j x. induction l as [|a l IH]; intros i j x H Hne Ho; [done|].
  assert (Hrest : forall j' k z, find_slot p l = Some (k, z) -> j' <> k -> find_slot p (<[j' := o]> l) = Some (k, z)).
  { intros j' k z Hk Hj. by apply IH. }
  cbn [find_slot] in H. destruct j as [|j];
    [change (<[0%nat := o]> (a :: l)) with (o :: l)|change (<[S j := o]> (a :: l)) with (a :: <[j := o]> l)]; cbn [find_slot].
  - destruct a as [a|].
    + destruct (p a); [by simplify_eq|]. destruct (find_slot p l) as [[k z]|] eqn:E; simplify_eq/=.
      destruct o as [y|]; [by rewrite Ho|done].
    + destruct (find_slot p l) as [[k z]|] eqn:E; simplify_eq/=. destruct o as [y|]; [by rewrite Ho|done].
  - destruct a as [a|]; [destruct (p a); [done|]|]; (destruct (find_slot p l) as [[k z]|] eqn:E; simplify_eq/=);
      by rewrite (Hrest j _ _ eq_refl) by congruence.
Qed.
Lemma find_slot_map {A} (p : A -> bool) f l i x : (forall y, p (f y) = p y) -> find_slot p l = Some (i, x) ->
  find_slot p (map (option_map f) l) = Some (i, f x).
Proof.
  intros Hf. revert i. induction l as [|[a|] l IH]; intros i H; cbn [find_slot map option_map] in *; [done|..].
  - rewrite Hf. destruct (p a); [by simplify_eq|]. destruct (find_slot p l) as [[j z]|] eqn:E; simplify_eq/=. by rewrite (IH j eq_refl).
  - destruct (find_slot p l) as [[j z]|] eqn:E; simplify_eq/=. by rewrite (IH j eq_refl).
Qed.

Section Inode.
Context (dev ino : Z).
(** What requests keep of an entry: its seals may gain bits unless they are
    sealed, its kind stays. *)
Definition grows (e e' : Mfd) : Prop :=
  Z.lor (m_seals e) (m_seals e') = m_seals e' /\ (has (m_seals e) F_SEAL_SEAL = true -> m_seals e' = m_seals e) /\ m_tier e' = m_tier e.
(** The entry of the inode goes from [e] to some [e'] that [R] relates. *)
Definition keeps (R : Mfd -> Mfd -> Prop) (g g' : list (option Mfd)) : Prop :=
  forall i e, mfd_find dev ino g = Some (i, e) -> exists e', mfd_find dev ino g' = Some (i, e') /\ R e e'.
Definition is_ino (e : Mfd) : bool := (m_dev e =? dev) && (m_ino e =? ino).

(** A request that works on the entry it finds. *)
Lemma keeps_found (R : Mfd -> Mfd -> Prop) d n g j x x' : mfd_find d n g = Some (j, x) -> m_dev x' = m_dev x -> m_ino x' = m_ino x ->
  (forall e, R e e) -> (d = dev -> n = ino -> R x x') -> keeps R g (<[j := Some x']> g).
Proof.
  intros Hj Hd Hn HR Hx i e Hi. pose proof Hj as Hj'. apply find_slot_some in Hj' as [Hhj Hkey].
  pose proof Hi as Hi'. apply find_slot_some in Hi' as [Hhi Hkey']. destruct (decide (j = i)) as [->|Hne].
  - assert (x = e) as -> by (unfold holds in *; congruence). exists x'. split; [apply (find_slot_same _ _ _ e); [done|by rewrite Hd, Hn]|].
    apply Hx; lia.
  - exists e. split; [|done]. apply find_slot_other; [done|done|]. rewrite Hd, Hn. destruct ((m_dev x =? dev) && (m_ino x =? ino)) eqn:E; [|done].
    exfalso. apply Hne. assert (d = dev /\ n = ino) as [-> ->] by lia. unfold mfd_find in *. congruence.
Qed.
Lemma keeps_empty (R : Mfd -> Mfd -> Prop) g j x' : empty_slot g = Some j -> is_ino x' = false -> (forall e, R e e) ->
  keeps R g (<[j := Some x']> g).
Proof.
  intros Hj Hx HR i e Hi. exists e. split; [|done]. apply find_slot_other; [done| |done]. intros ->.
  apply find_slot_some in Hi as [Hi _]. apply empty_slot_some in Hj. unfold holds in Hi. congruence.
Qed.
Lemma keeps_new (R : Mfd -> Mfd -> Prop) g j x' : empty_slot g = Some j -> mfd_find (m_dev x') (m_ino x') g = None -> (forall e, R e e) ->
  keeps R g (<[j := Some x']> g).
Proof.
  intros Hj Hx HR i e Hi. destruct (is_ino x') eqn:E; [|by apply (keeps_empty R g j x')].
  unfold is_ino in E. assert (m_dev x' = dev /\ m_ino x' = ino) as [H1 H2] by lia. rewrite H1, H2 in Hx. congruence.
Qed.
Lemma keeps_gone (R : Mfd -> Mfd -> Prop) g j : (forall i e, mfd_find dev ino g = Some (i, e) -> j <> i) -> (forall e, R e e) ->
  keeps R g (<[j := None]> g).
Proof. intros Hj HR i e Hi. exists e. split; [|done]. apply find_slot_other; [done|by apply (Hj i e)|done]. Qed.
Lemma keeps_refl (R : Mfd -> Mfd -> Prop) g : (forall e, R e e) -> keeps R g g.
Proof. intros HR i e Hi. by exists e. Qed.

(** Every request but a registration of the inode itself. *)
Inductive MfdReq :=
  | RSeal (v : MfdEnv) (q : BReq) | RMap (v : MfdEnv) (q : BReq) | RLook (v : MfdEnv) (q : BReq)
  | RMode (v : MfdEnv) (q : BReq) | RReg (v : MfdEnv) (q : BReq) | RIdle (v : MfdEnv).
Definition mfd_step (r : MfdReq) (g : list (option Mfd)) : list (option Mfd) :=
  match r with
  | RSeal v q => snd (mfd_do_seal v q g)
  | RMap v q => snd (mfd_do_map v q g)
  | RLook v q => snd (mfd_do_look v q g)
  | RMode v q => snd (mfd_do_mode v q g)
  | RReg v q => snd (mfd_do_reg v q g)
  | RIdle v => snd (mfd_any_live v g)
  end.
Definition not_reg (r : MfdReq) : Prop := match r with RReg v _ => me_stat v <> Some (dev, ino) | _ => True end.
(** A mapping request for the inode. *)
Definition maps (r : MfdReq) : Prop :=
  match r with RMap _ q => u64 (q_mtype q) = dev /\ q_size q = ino | _ => False end.
Definition env_of (r : MfdReq) : MfdEnv :=
  match r with RSeal v _ | RMap v _ | RLook v _ | RMode v _ | RReg v _ | RIdle v => v end.
(** What requests other than mapping ones do to the rows: at most sweep them. *)
Definition sweeps (v : MfdEnv) (e e' : Mfd) : Prop :=
  m_tier e' = m_tier e /\ (m_wr e' = m_wr e \/ m_wr e' = mfd_wr_reclaim v (m_wr e)).

Lemma step_keeps (R : Mfd -> Mfd -> Prop) r g : not_reg r -> (forall e, R e e) ->
  (forall e h, R e (with_hold h e)) -> (forall e m h, R e (with_hold h (with_mode m e))) ->
  (maps r -> forall e w, R e (with_wr w e)) ->
  (forall e, R e (with_wr (mfd_wr_reclaim (env_of r) (m_wr e)) e)) ->
  (forall e m, has (m_seals e) F_SEAL_SEAL = false -> R e (with_seals (Z.lor (m_seals e) m) e) /\
     R e (with_seals (Z.lor (m_seals e) m) (with_wr (mfd_wr_reclaim (env_of r) (m_wr e)) e))) ->
  keeps R g (mfd_step r g).
Proof.
  intros Hr HR Hhold Hmode Hmap Hsweep Hseal. destruct r as [v q|v q|v q|v q|v q|v]; cbn [mfd_step].
  - unfold mfd_do_seal. destruct (mfd_find _ _ g) as [[j x]|] eqn:E; [|by apply keeps_refl]. case_match; [by apply keeps_refl|].
    destruct (has (m_seals x) F_SEAL_SEAL) eqn:Es; [by apply keeps_refl|]. specialize (Hseal x).
    case_match; [case_match|]; (eapply keeps_found; [exact E|done|done|done|intros _ _]); [apply Hsweep|by apply Hseal|by apply Hseal].
  - unfold mfd_do_map. destruct (mfd_find _ _ g) as [[j x]|] eqn:E; [|by apply keeps_refl]. case_match; [by apply keeps_refl|].
    eapply keeps_found; [exact E|done|done|done|]. intros H1 H2. apply Hmap. done.
  - unfold mfd_do_look. destruct (mfd_find _ _ g) as [[j x]|] eqn:E; [|by apply keeps_refl]. case_match; [by apply keeps_refl|].
    eapply keeps_found; [exact E|done|done|done|]. intros _ _. apply Hhold.
  - unfold mfd_do_mode. case_match; [destruct (mfd_find _ _ g) as [[? ?]|]; by apply keeps_refl|]. case_match; [by apply keeps_refl|].
    destruct (me_stat v) as [[d n]|]; [|by apply keeps_refl]. destruct (mfd_find d n g) as [[j x]|] eqn:E.
    + eapply keeps_found; [exact E|done|done|done|]. intros _ _. apply Hmode.
    + destruct (empty_slot g) as [j|] eqn:Ee; [|by apply keeps_refl]. case_match; [by apply keeps_refl|].
      by apply keeps_new.
  - unfold mfd_do_reg. destruct (if 0 <? q_size q then _ else _); [|by apply keeps_refl]. case_match; [by apply keeps_refl|].
    cbn [not_reg] in Hr. destruct (me_stat v) as [[d n]|]; [|by apply keeps_refl]. unfold mfd_slot.
    destruct (mfd_find d n g) as [[j x]|] eqn:E.
    + pose proof E as Hj. apply find_slot_some in Hj as [Hj Hk]. case_match; cbn [snd].
      * apply keeps_gone; [|done]. intros i e Hi ->. apply find_slot_some in Hi as [Hi Hk']. unfold holds in *.
        assert (x = e) as -> by congruence. destruct Hr. do 2 f_equal; lia.
      * eapply keeps_found; [exact E|cbn; lia|cbn; lia|done|]. intros -> ->. done.
    + destruct (empty_slot g) as [j|] eqn:Ee; [|by apply keeps_refl]. case_match; cbn [snd].
      * apply keeps_gone; [|done]. intros i e Hi ->. apply find_slot_some in Hi as [Hi _]. apply empty_slot_some in Ee.
        unfold holds in Hi. congruence.
      * by apply keeps_new.
  - intros i e Hi. eexists. split; [apply (find_slot_map _ (fun e => with_hold (mfd_hold_reclaim v (m_hold e)) e)); [done|exact Hi]|]. apply Hhold.
Qed.
Lemma step_grows r g : not_reg r -> keeps grows g (mfd_step r g).
Proof.
  intros Hr. apply step_keeps; [done|..]; try (intros; unfold grows; cbn; by rewrite Z.lor_diag).
  intros e m Hs. unfold grows; cbn. rewrite Z.lor_assoc, Z.lor_diag, Hs. done.
Qed.
Lemma step_sweeps r g : not_reg r -> ~ maps r -> keeps (sweeps (env_of r)) g (mfd_step r g).
Proof.
  intros Hr Hm. apply step_keeps; [done|..]; unfold sweeps; cbn; intros; auto. done.
Qed.
Lemma found_key g i e : mfd_find dev ino g = Some (i, e) -> m_dev e = dev /\ m_ino e = ino.
Proof. intros [_ H]%find_slot_some. lia. Qed.
Lemma map_step v q g i e : maps (RMap v q) -> mfd_find dev ino g = Some (i, e) -> m_tier e = true ->
  mfd_find dev ino (mfd_step (RMap v q) g) =
    Some (i, with_wr (if 0 <? q_val q then wr_up v (q_pid q) (m_wr e) else wr_down (q_pid q) (m_wr e)) e).
Proof.
  intros [Hd Hn] Hi Ht. cbn [mfd_step]. unfold mfd_do_map. rewrite Hd, Hn, Hi, Ht. cbn [negb snd].
  apply (find_slot_same _ _ _ e); [done|]. by apply find_slot_some in Hi as [_ ?].
Qed.

(** *** Processes and their mappings

    The start times, the registry and the writable shared mappings of the inode
    each living process has.  A process maps while the rows have room for the
    processes that map (and none is left of a dead process with its pid),
    unmaps what it mapped, and dies or is born with a start time that no row
    of its pid has. *)
Record Cen := mkCen { c_start : Z -> Z; c_g : list (option Mfd); c_led : Z -> Z }.
Definition rows (g : list (option Mfd)) : list MfdWr :=
  match mfd_find dev ino g with Some (_, e) => m_wr e | None => [] end.
Inductive cen_step : Cen -> Cen -> Prop :=
  | cen_req r s g led : not_reg r -> ~ maps r -> me_start (env_of r) = s ->
      cen_step (mkCen s g led) (mkCen s (mfd_step r g) led)
  | cen_map v q s g led : maps (RMap v q) -> me_start v = s -> 0 < q_val q -> led (q_pid q) < 2 ^ 32 - 1 ->
      (forall w, w ∈ rows g -> w_pid w = q_pid q -> w_start w = s (q_pid q)) ->
      (exists ps, (length ps < MFD_WR_TRACK)%nat /\ forall p, 0 < led p -> p ∈ ps) ->
      cen_step (mkCen s g led) (mkCen s (mfd_step (RMap v q) g) (upd led (q_pid q) (led (q_pid q) + 1)))
  | cen_unmap v q s g led : maps (RMap v q) -> me_start v = s -> q_val q <= 0 -> 0 < led (q_pid q) ->
      cen_step (mkCen s g led) (mkCen s (mfd_step (RMap v q) g) (upd led (q_pid q) (led (q_pid q) - 1)))
  | cen_task p t s g led : (forall w, w ∈ rows g -> w_pid w = p -> w_start w <> t) ->
      cen_step (mkCen s g led) (mkCen (upd s p t) g (upd led p 0)).
Inductive cen_reach : Cen -> Prop :=
  | cen_start s g i e : mfd_find dev ino g = Some (i, e) -> m_tier e = true -> m_wr e = [] ->
      cen_reach (mkCen s g (fun _ => 0))
  | cen_next c c' : cen_reach c -> cen_step c c' -> cen_reach c'.

Definition counted (c : Cen) : Prop :=
  exists i e, mfd_find dev ino (c_g c) = Some (i, e) /\ m_tier e = true /\ census (c_start c) (c_led c) (m_wr e).
Lemma reach_counted c : cen_reach c -> counted c.
Proof.
  induction 1 as [s g i e Hf Ht Hw|c c' _ (i & e & Hf & Ht & Hc) Hs].
  { exists i, e. split; [done|]. split; [done|]. rewrite Hw. split; [constructor|]. split; [done|].
    split; [intros w Hx; by apply not_elem_of_nil in Hx|]. intros p Hp. cbn in Hp. lia. }
  destruct Hs as [r s g led Hr Hm Hv|v q s g led Hm Hv Hq Hmax Hcur Hroom|v q s g led Hm Hv Hq Hpos|p t s g led Hfr];
    cbn [c_start c_g c_led] in *.
  - destruct (step_sweeps r g Hr Hm i e Hf) as (e' & Hf' & Ht' & Hw). exists i, e'. split; [done|]. split; [congruence|].
    cbn. subst s. destruct Hw as [->| ->]; [done|by apply census_sweep].
  - exists i. eexists. split; [by apply map_step|]. split; [done|]. cbn [m_wr with_wr]. rewrite (proj2 (Z.ltb_lt 0 (q_val q)) Hq).
    subst s. unfold rows in Hcur. rewrite Hf in Hcur. by apply census_up.
  - exists i. eexists. split; [by apply map_step|]. split; [done|]. cbn [m_wr with_wr]. rewrite (proj2 (Z.ltb_ge 0 (q_val q)) Hq).
    subst s. by apply census_down.
  - exists i, e. split; [done|]. split; [done|]. cbn. apply census_start; [done|]. unfold rows in Hfr. by rewrite Hf in Hfr.
Qed.
End Inode.

(** C24: F_ADD_SEALS with F_SEAL_WRITE on a memory file of the fallback tier
    succeeds only if no living process has a writable shared mapping of it, and
    answers EBUSY only if one has, whatever mappings, unmappings, deaths, births
    and other requests came before, as long as at most 32 processes map it at a
    time and no process maps under a pid that a dead one's row still has. *)
Theorem seal_write_exact dev ino c v q : cen_reach dev ino c -> me_start v = c_start c ->
  u64 (q_mtype q) = dev -> q_size q = ino -> has (Z.land (u32 (q_val q)) 0x3f) F_SEAL_WRITE = true ->
  (fst (mfd_do_seal v q (c_g c)) = 0 -> forall p, c_led c p = 0) /\
  (fst (mfd_do_seal v q (c_g c)) = - EBUSY -> exists p, 0 < c_led c p) /\
  In (fst (mfd_do_seal v q (c_g c))) [0; - EBUSY; - EPERM].
Proof.
  intros Hr Hv Hd Hn Hm. destruct (reach_counted dev ino c Hr) as (i & e & Hf & Ht & Hc). unfold mfd_do_seal.
  rewrite Hd, Hn, Hf, Ht, Hm. cbn [negb]. rewrite <- Hv in Hc.
  destruct (has (m_seals e) F_SEAL_SEAL); [cbn; split; [done|]; split; [done|auto]|].
  cbn [m_wr with_wr]. destruct (existsb _ (mfd_wr_reclaim v (m_wr e))) eqn:Ex; cbn [fst].
  - split; [done|]. split; [intros _|cbn; auto]. apply existsb_exists in Ex as (w & Hw & _).
    exists (w_pid w). apply list_elem_of_In in Hw. by apply (swept_rows v _ _ w Hc).
  - split; [intros _ p|split; [done|cbn; auto]]. pose proof (census_sweep v _ _ Hc) as (_ & H0 & _ & Hl).
    specialize (H0 p). destruct (Z.eq_dec (c_led c p) 0); [done|]. destruct (Hl p) as (w & Hw & _ & _); [lia|].
    destruct (swept_rows v _ _ w Hc Hw) as [H1 H2].
    assert (existsb (fun w => negb (w_n w =? 0)) (mfd_wr_reclaim v (m_wr e)) = true); [|congruence].
    apply existsb_exists. exists w. split; [by apply list_elem_of_In|]. lia.
Qed.
Definition demo_menv : MfdEnv := mkMfdEnv (fun _ => 7) (fun _ _ => 9) 3 (Some (1, 77)) 4 true.
Definition demo_mreq (val pid : Z) : BReq := mkReq REQ_SHMGET 0 77 0 0 pid 0 0 0 0 0 0 val 1 (-1) 0 0 false [] [] (replicate 80 65).
Definition demo_reg : list (option Mfd) := mfd_step (RReg demo_menv (demo_mreq 0 5)) (replicate MFD_TAB_MAX None).
Lemma seal_write_exact_witness : exists p, 0 < upd (fun _ => 0) 5 1 p.
Proof.
  apply (seal_write_exact 1 77 (mkCen (fun _ => 7) (mfd_step (RMap demo_menv (demo_mreq 1 5)) demo_reg) (upd (fun _ => 0) 5 1))
           demo_menv (demo_mreq F_SEAL_WRITE 6)); [|reflexivity|reflexivity|reflexivity|reflexivity|vm_compute; reflexivity].
  eapply cen_next; [eapply (cen_start _ _ (fun _ => 7) demo_reg); vm_compute; reflexivity|].
  apply (cen_map 1 77 demo_menv (demo_mreq 1 5)); [done|done|done|done| |].
  - intros w Hw. vm_compute in Hw. by apply not_elem_of_nil in Hw.
  - exists []. split; [unfold MFD_WR_TRACK; cbn; lia|]. intros p Hp. lia.
Defined.

(** With one process more than there are rows, the newcomer is not counted: once
    the others have unmapped, the file is sealed under its mapping. *)
Definition map_all (val : Z) (pids : list nat) (g : list (option Mfd)) : list (option Mfd) :=
  fold_left (fun g p => mfd_step (RMap demo_menv (demo_mreq val (Z.of_nat p))) g) pids g.
Example full_table_seals :
  fst (mfd_do_seal demo_menv (demo_mreq F_SEAL_WRITE 6) (map_all (-1) (seq 1 32) (map_all 1 (seq 1 33) demo_reg))) = 0.
Proof. vm_compute. reflexivity. Qed.
(** A mapper's row is found by pid alone: after a pid was recycled, the new
    process's mapping is counted in the dead one's row and swept with it. *)
Example recycled_pid_seals :
  fst (mfd_do_seal (mkMfdEnv (fun _ => 8) (fun _ _ => 9) 3 (Some (1, 77)) 4 true) (demo_mreq F_SEAL_WRITE 6)
         (mfd_step (RMap (mkMfdEnv (fun _ => 8) (fun _ _ => 9) 3 (Some (1, 77)) 4 true) (demo_mreq 1 5))
            (mfd_step (RMap demo_menv (demo_mreq 1 5)) demo_reg))) = 0.
Proof. vm_compute. reflexivity. Qed.

(** Seals are never lost: whatever requests follow, short of registering the
    inode anew, the entry stays, keeps every seal it has, and gets no other
    once it has F_SEAL_SEAL. *)
Theorem seals_only_grow dev ino rs g i e : mfd_find dev ino g = Some (i, e) -> Forall (not_reg dev ino) rs ->
  exists e', mfd_find dev ino (fold_left (fun g r => mfd_step r g) rs g) = Some (i, e') /\
    (forall b, Z.testbit (m_seals e) b = true -> Z.testbit (m_seals e') b = true) /\
    (has (m_seals e) F_SEAL_SEAL = true -> m_seals e' = m_seals e).
Proof.
  intros Hf Hr. revert g e Hf. induction Hr as [|r rs Hr _ IH]; intros g e Hf; [by exists e|].
  destruct (step_grows dev ino r g Hr i e Hf) as (e1 & Hf1 & Hg & Hs & _). destruct (IH _ _ Hf1) as (e2 & Hf2 & Hg2 & Hs2).
  exists e2. split; [done|]. split.
  - intros b Hb. apply Hg2. by rewrite <- Hg, Z.lor_spec, Hb.
  - intros H. specialize (Hs H). rewrite Hs2; [done|]. by rewrite Hs.
Qed.

(** ** Personalities *)
Lemma prod3 {A B C} (x : A * B * C) : x = (fst (fst x), snd (fst x), snd x).
Proof. by destruct x as [[]]. Qed.
Definition pers_key (p : PersEnt) : Z * Z := (pe_pid p, pe_tid p).
Definition pers_wf (t : PersTab) : Prop := NoDup (map pers_key (pt_ents t)).
(** What a GET answers. *)
Definition pers_view (v : MfdEnv) (t : PersTab) (pid tid : Z) : option Z :=
  match pers_find pid tid (pt_ents t) with
  | Some i => match pt_ents t !! i with Some p => if pers_live v p then Some (pe_pers p) else None | None => None end
  | None => None
  end.
(** The entries that count. *)
Definition shown (v : MfdEnv) (l : list PersEnt) (a b x : Z) : Prop :=
  exists p, p ∈ l /\ pers_key p = (a, b) /\ pers_live v p = true /\ pe_pers p = x.
Lemma pers_is_key a b p : pers_is a b p = true <-> pers_key p = (a, b).
Proof. unfold pers_is, pers_key. split; [intros; f_equal; lia|intros [= <- <-]; lia]. Qed.
Lemma key_unique l p q : NoDup (map pers_key l) -> p ∈ l -> q ∈ l -> pers_key p = pers_key q -> p = q.
Proof.
  intros Hn [i Hi]%list_elem_of_lookup_1 [j Hj]%list_elem_of_lookup_1 E.
  assert (i = j) as ->; [|congruence]. apply (NoDup_lookup _ i j (pers_key p) Hn); rewrite list_lookup_fmap, ?Hi, ?Hj; cbn; by rewrite ?E.
Qed.
Lemma view_shown v t a b x : pers_wf t -> pers_view v t a b = Some x <-> shown v (pt_ents t) a b x.
Proof.
  intros Hn. unfold pers_view, pers_find. destruct (index_of _ _) as [i|] eqn:Ei.
  - apply index_of_some in Ei as (p & Hp & Hk%pers_is_key). rewrite Hp. pose proof (list_elem_of_lookup_2 _ _ _ Hp) as Hin. split.
    + case_match; [|done]. intros [= <-]. by exists p.
    + intros (q & Hq & Hqk & Hql & <-). assert (q = p) as -> by (apply (key_unique (pt_ents t)); [done..|congruence]). by rewrite Hql.
  - split; [done|]. intros (p & Hp & Hk & _). apply (index_of_none _ _ p) in Ei; [|done]. apply pers_is_key in Hk. congruence.
Qed.
Lemma view_ext v t' a b o : pers_wf t' -> (forall x, shown v (pt_ents t') a b x <-> o = Some x) -> pers_view v t' a b = o.
Proof.
  intros Hn H. destruct (pers_view v t' a b) as [x|] eqn:E.
  - apply view_shown in E; [|done]. symmetry. by apply H.
  - destruct o as [x|]; [|done]. assert (Hx : pers_view v t' a b = Some x) by (apply view_shown; [done|]; by apply H). congruence.
Qed.
Lemma shown_perm v l l' a b x : l ≡ₚ l' -> shown v l a b x <-> shown v l' a b x.
Proof. intros Hp. unfold shown. by setoid_rewrite Hp. Qed.
Lemma shown_cons v p l a b x : shown v (p :: l) a b x <->
  (pers_key p = (a, b) /\ pers_live v p = true /\ pe_pers p = x) \/ shown v l a b x.
Proof.
  unfold shown. setoid_rewrite elem_of_cons. split.
  - intros (q & [->|Hq] & H); [by left|right; by exists q].
  - intros [H|(q & Hq & H)]; [exists p; split; [by left|done]|exists q; split; [by right|done]].
Qed.
Lemma shown_filter v k l a b x : (forall p, p ∈ l -> k p = false -> pers_key p = (a, b) -> pers_live v p = false) ->
  shown v (List.filter k l) a b x <-> shown v l a b x.
Proof.
  intros H. unfold shown. split; intros (p & Hp & Hk & Hl & Hx); exists p; (split; [|done]).
  - apply list_elem_of_In, filter_In in Hp as [Hp _]. by apply list_elem_of_In.
  - apply list_elem_of_In, filter_In. split; [by apply list_elem_of_In|]. destruct (k p) eqn:E; [done|].
    rewrite (H p Hp E Hk) in Hl. done.
Qed.
(** A dead entry more or less does not show. *)
Lemma shown_dead v p l a b x : pers_live v p = false -> shown v (p :: l) a b x <-> shown v l a b x.
Proof. intros Hp. rewrite shown_cons, Hp. intuition congruence. Qed.
Lemma wf_perm l l' : l ≡ₚ l' -> NoDup (map pers_key l) -> NoDup (map pers_key l').
Proof. intros Hp. by rewrite (Permutation_map pers_key Hp). Qed.
Lemma wf_swap l i p : l !! i = Some p -> NoDup (map pers_key l) ->
  l ≡ₚ p :: swap_out i l /\ NoDup (map pers_key (swap_out i l)) /\ pers_key p ∉ map pers_key (swap_out i l).
Proof.
  intros Hi Hn. pose proof (swap_out_perm i l p Hi) as Hp. apply (wf_perm _ _ Hp) in Hn. cbn [map] in Hn.
  apply list.NoDup_cons in Hn as [H1 H2]. done.
Qed.
Lemma not_shown v l a b x : (a, b) ∉ map pers_key l -> ~ shown v l a b x.
Proof. intros H (p & Hp & E & _). apply H. rewrite <- E. by apply (list_elem_of_fmap_2 pers_key). Qed.
Lemma nodup_key_filter k l : NoDup (map pers_key l) -> NoDup (map pers_key (List.filter k l)).
Proof.
  induction l as [|p l IH]; cbn [List.filter map]; [done|]. intros [Hx Hn]%list.NoDup_cons. destruct (k p); [|by apply IH].
  cbn [map]. apply list.NoDup_cons. split; [|by apply IH]. intros (y & E & Hy)%list_elem_of_fmap. apply Hx. rewrite E.
  apply (list_elem_of_fmap_2 pers_key). apply list_elem_of_In, filter_In in Hy as [Hy _]. by apply list_elem_of_In.
Qed.
(** Dropping the dead changes no answer. *)
Lemma pers_sweep v t : pers_wf t -> pers_wf (snd (pers_any_live v t)) /\
  forall a b x, shown v (pt_ents (snd (pers_any_live v t))) a b x <-> shown v (pt_ents t) a b x.
Proof.
  intros Hn. cbn [pers_any_live snd pt_ents]. split.
  - unfold pers_wf. cbn [pt_ents]. eapply wf_perm; [symmetry; apply sweep_all_perm|]. by apply nodup_key_filter.
  - intros a b x. rewrite (shown_perm v _ _ a b x (sweep_all_perm _ _)). apply shown_filter. intros p _ H _. by destruct (pers_live v p).
Qed.
(** One entry put at the end, or in the place of one of its key. *)
Lemma pers_append v t ent cap : pers_wf t -> pers_key ent ∉ map pers_key (pt_ents t) -> pers_live v ent = true ->
  pers_wf (mkPersTab (pt_ents t ++ [ent]) cap) /\
  forall a b, pers_view v (mkPersTab (pt_ents t ++ [ent]) cap) a b =
    if decide ((a, b) = pers_key ent) then Some (pe_pers ent) else pers_view v t a b.
Proof.
  intros Hn Hk Hl. assert (Hw : pers_wf (mkPersTab (pt_ents t ++ [ent]) cap)).
  { apply (wf_perm (ent :: pt_ents t)); [by rewrite Permutation_cons_append|]. cbn [map]. by apply list.NoDup_cons. }
  split; [done|]. intros a b. apply view_ext; [done|]. intros x. cbn [pt_ents].
  rewrite (shown_perm v _ (ent :: pt_ents t)) by (by rewrite <- Permutation_cons_append). rewrite shown_cons, Hl.
  destruct (decide _) as [E|E].
  - split; [intros [(_ & _ & <-)|H]; [done|]|intros [= <-]; by left]. rewrite <- E in Hk. by apply not_shown in H.
  - rewrite view_shown by done. split; [intros [(H & _)|H]; [congruence|done]|by right].
Qed.

Lemma pers_replace v t i p ent cap : pers_wf t -> pt_ents t !! i = Some p -> pers_key p = pers_key ent -> pers_live v ent = true ->
  pers_wf (mkPersTab (<[i := ent]> (pt_ents t)) cap) /\
  forall a b, pers_view v (mkPersTab (<[i := ent]> (pt_ents t)) cap) a b =
    if decide ((a, b) = pers_key ent) then Some (pe_pers ent) else pers_view v t a b.
Proof.
  intros Hn Hi Hk Hl. destruct (alter_perm (fun _ => ent) i _ p Hi) as [H1 H2]. rewrite <- list_insert_alter in H2.
  pose proof (wf_perm _ _ H1 Hn) as Hn1. cbn [map] in Hn1. apply list.NoDup_cons in Hn1 as [Hni Hn1]. rewrite Hk in Hni.
  assert (Hw : pers_wf (mkPersTab (<[i := ent]> (pt_ents t)) cap)).
  { apply (wf_perm (ent :: delete i (pt_ents t))); [symmetry; exact H2|]. cbn [map]. by apply list.NoDup_cons. }
  split; [done|]. intros a b. apply view_ext; [done|]. intros x. cbn [pt_ents].
  rewrite (shown_perm _ _ _ _ _ _ H2), shown_cons, Hl. destruct (decide _) as [E|E].
  - split; [intros [(_ & _ & <-)|H]; [done|]|intros [= <-]; by left]. rewrite <- E in Hni. by apply not_shown in H.
  - rewrite view_shown, (shown_perm _ _ _ _ _ _ H1), shown_cons, Hk by done.
    split; (intros [(H & _)|H]; [congruence|by right]).
Qed.

(** What a request makes of an answer. *)
Definition pers_after (v : MfdEnv) (q : BReq) (r : Z) (t : PersTab) (a b : Z) : option Z :=
  if q_arg q =? PERS_PUT then
    if (r =? 0) && (a =? q_pid q) && (b =? q_id q) then Some (u32 (q_val q)) else pers_view v t a b
  else if q_arg q =? PERS_DEL then if (a =? q_pid q) && (b =? q_id q) then None else pers_view v t a b
  else if q_arg q =? PERS_CLEAR then if a =? q_pid q then None else pers_view v t a b
  else pers_view v t a b.
Lemma pers_put_spec v q t r t' : pers_wf t -> pers_put v q t = (r, t') -> pers_wf t' /\
  forall a b, pers_view v t' a b = if (r =? 0) && (a =? q_pid q) && (b =? q_id q) then Some (u32 (q_val q)) else pers_view v t a b.
Proof.
  intros Hn E. unfold pers_put in E. case_match; [by simplify_eq|]. cbv zeta in E. case_match; [by simplify_eq|].
  set (ent := mkPers _ _ _ _ _) in E. assert (Hl : pers_live v ent = true) by (unfold pers_live; cbn; lia).
  assert (Hif : forall a b o, (if decide ((a, b) = pers_key ent) then Some (pe_pers ent) else o) =
    if (0 =? 0) && (a =? q_pid q) && (b =? q_id q) then Some (u32 (q_val q)) else o).
  { intros a b o. unfold pers_key; cbn. destruct (decide _) as [[= -> ->]|Hne]; [by rewrite !Z.eqb_refl|].
    destruct (Z.eqb_spec a (q_pid q)), (Z.eqb_spec b (q_id q)); try done. by subst. }
  destruct (pers_find _ _ _) as [i|] eqn:Ei.
  - apply index_of_some in Ei as (p & Hi & Hk%pers_is_key). injection E as <- <-.
    destruct (pers_replace v t i p ent (pt_cap t) Hn Hi Hk Hl) as [Hw Hx]. split; [done|]. intros a b. rewrite Hx. apply Hif.
  - set (t1 := if Z.of_nat (length (pt_ents t)) =? PERS_MAX then _ else _) in E.
    assert (H1 : pers_wf t1 /\ forall a b x, shown v (pt_ents t1) a b x <-> shown v (pt_ents t) a b x).
    { clear E. subst t1. destruct (_ =? PERS_MAX); [by apply pers_sweep|done]. }
    assert (Hsub : forall p, p ∈ pt_ents t1 -> p ∈ pt_ents t).
    { clear E. subst t1. destruct (_ =? PERS_MAX); [|done]. intros p Hp. cbn in Hp. by apply in_sweep in Hp as [? _]. }
    clearbody t1.
    destruct H1 as [Hn1 Hs]. assert (Hni : pers_key ent ∉ map pers_key (pt_ents t1)).
    { intros (p & E' & Hp)%list_elem_of_fmap. apply (index_of_none _ _ p) in Ei; [|by apply Hsub].
      assert (pers_is (q_pid q) (q_id q) p = true) by (apply pers_is_key; by rewrite <- E'). congruence. }
    assert (Hv : forall a b, pers_view v t1 a b = pers_view v t a b).
    { intros a b. apply view_ext; [done|]. intros x. rewrite Hs. by rewrite view_shown. }
    assert (Happ : forall cap, (0, mkPersTab (pt_ents t1 ++ [ent]) cap) = (r, t') -> pers_wf t' /\ forall a b, pers_view v t' a b =
      if (r =? 0) && (a =? q_pid q) && (b =? q_id q) then Some (u32 (q_val q)) else pers_view v t a b).
    { intros cap [= <- <-]. destruct (pers_append v t1 ent cap Hn1 Hni Hl) as [Hw Hx]. split; [done|]. intros a b. rewrite Hx, Hv. apply Hif. }
    case_match; [injection E as <- <-; done|]. case_match; [case_match; [by eapply Happ|injection E as <- <-; done]|by eapply Happ].
Qed.

Lemma pers_remove v t i p cap : pers_wf t -> pt_ents t !! i = Some p ->
  pers_wf (mkPersTab (swap_out i (pt_ents t)) cap) /\
  forall a b, pers_view v (mkPersTab (swap_out i (pt_ents t)) cap) a b =
    if decide ((a, b) = pers_key p) then None else pers_view v t a b.
Proof.
  intros Hn Hi. destruct (wf_swap _ _ _ Hi Hn) as (Hp & Hw & Hni). split; [done|]. intros a b. apply view_ext; [done|].
  intros x. cbn [pt_ents]. destruct (decide _) as [E|E].
  - split; [|done]. intros H. rewrite <- E in Hni. by apply not_shown in H.
  - rewrite view_shown, (shown_perm _ _ _ _ _ _ Hp), shown_cons by done.
    split; [by right|]. intros [(H & _)|H]; [congruence|done].
Qed.
Lemma view_at v t i p a b : pers_wf t -> pt_ents t !! i = Some p -> pers_key p = (a, b) ->
  pers_view v t a b = if pers_live v p then Some (pe_pers p) else None.
Proof.
  intros Hn Hi Hk. apply view_ext; [done|]. intros x. rewrite (shown_perm _ _ _ _ _ _ (swap_out_perm i _ p Hi)), shown_cons.
  destruct (wf_swap _ _ _ Hi Hn) as (_ & _ & Hni). rewrite Hk in Hni. split.
  - intros [(_ & -> & ->)|H]; [done|by apply not_shown in H].
  - destruct (pers_live v p); [|done]. intros [= <-]. by left.
Qed.
Lemma key_if {X} (a b c d : Z) (y z : X) : (if decide ((a, b) = (c, d)) then y else z) = if (a =? c) && (b =? d) then y else z.
Proof.
  destruct (decide _) as [[= -> ->]|Hne]; [by rewrite !Z.eqb_refl|]. destruct (Z.eqb_spec a c), (Z.eqb_spec b d); try done. by subst.
Qed.
Lemma pers_clear v t pid cap : pers_wf t ->
  pers_wf (mkPersTab (sweep_all (fun p => pe_pid p =? pid) (pt_ents t)) cap) /\
  forall a b, pers_view v (mkPersTab (sweep_all (fun p => pe_pid p =? pid) (pt_ents t)) cap) a b =
    if a =? pid then None else pers_view v t a b.
Proof.
  intros Hn. assert (Hw : pers_wf (mkPersTab (sweep_all (fun p => pe_pid p =? pid) (pt_ents t)) cap)).
  { eapply wf_perm; [symmetry; apply sweep_all_perm|]. by apply nodup_key_filter. }
  split; [done|]. intros a b. apply view_ext; [done|]. intros x. cbn [pt_ents]. rewrite (shown_perm _ _ _ _ _ _ (sweep_all_perm _ _)).
  destruct (Z.eqb_spec a pid) as [->|Hne].
  - split; [|done]. intros (p & Hp & [= Hk _] & _). apply list_elem_of_In, filter_In in Hp as [_ Hp]. lia.
  - rewrite view_shown by done. apply shown_filter. intros p _ Hp [= Hk _]. lia.
Qed.

(** C25: the personality table answers like a map from live threads to their
    value: a PUT that succeeds sets the caller's, a DEL removes one, a CLEAR
    those of a process, a GET answers what is there (and ENOENT otherwise), and
    no request changes any other thread's answer, whatever entries of dead
    threads are swept, overwritten or moved on the way. *)
Theorem pers_is_a_map v q t r x t' : pers_wf t -> pers_do v q t = (r, x, t') ->
  pers_wf t' /\ (forall a b, pers_view v t' a b = pers_after v q r t a b) /\
  (q_arg q = PERS_GET -> match pers_view v t (q_key q) (q_id q) with Some y => r = 0 /\ x = y | None => r = - ENOENT end).
Proof.
  intros Hn E. unfold pers_do in E. unfold pers_after. destruct (Z.eqb_spec (q_arg q) PERS_GET) as [Hg|Hg].
  { rewrite Hg. cbn [Z.eqb PERS_GET PERS_PUT PERS_DEL PERS_CLEAR]. unfold pers_find in E.
    destruct (index_of _ _) as [i|] eqn:Ei; [|injection E as <- <- <-; unfold pers_view at 3, pers_find; by rewrite Ei].
    apply index_of_some in Ei as (p & Hi & Hk%pers_is_key). rewrite Hi in E. rewrite (view_at v t i p _ _ Hn Hi Hk).
    destruct (pers_live v p) eqn:El; injection E as <- <- <-; [done|].
    destruct (pers_remove v t i p (pt_cap t) Hn Hi) as [Hw Hv]. split; [done|]. split; [|done]. intros a b. rewrite Hv.
    destruct (decide _) as [Ek|_]; [|done]. rewrite (view_at v t i p a b Hn Hi (eq_sym Ek)). by rewrite El. }
  destruct (Z.eqb_spec (q_arg q) PERS_PUT) as [Hp|Hp].
  { destruct (pers_put v q t) as [r1 t1] eqn:Ep. injection E as <- <- <-. by apply pers_put_spec in Ep as [? ?]. }
  destruct (Z.eqb_spec (q_arg q) PERS_DEL) as [Hd|Hd].
  { unfold pers_find in E. destruct (index_of _ _) as [i|] eqn:Ei; injection E as <- <- <-.
    - apply index_of_some in Ei as (p & Hi & Hk%pers_is_key). destruct (pers_remove v t i p (pt_cap t) Hn Hi) as [Hw Hv].
      split; [done|]. split; [|done]. intros a b. by rewrite Hv, Hk, key_if.
    - split; [done|]. split; [|done]. intros a b. destruct ((a =? q_pid q) && (b =? q_id q)) eqn:Eab; [|done].
      unfold pers_view, pers_find. assert (a = q_pid q /\ b = q_id q) as [-> ->] by lia. by rewrite Ei. }
  destruct (Z.eqb_spec (q_arg q) PERS_CLEAR) as [Hc|Hc]; injection E as <- <- <-; [|done].
  destruct (pers_clear v t (q_pid q) (pt_cap t) Hn) as [Hw Hv]. done.
Qed.
Definition demo_pers (arg pid tid val : Z) : BReq := mkReq REQ_SHMGET pid 0 tid arg pid 0 0 0 0 0 0 val 0 (-1) 0 0 false [] [] [].
Lemma pers_is_a_map_witness :
  pers_view demo_menv (snd (pers_do demo_menv (demo_pers PERS_PUT 5 6 0x40000) (mkPersTab [] 0))) 5 6 = Some 0x40000.
Proof.
  destruct (pers_is_a_map demo_menv (demo_pers PERS_PUT 5 6 0x40000) (mkPersTab [] 0) _ _ _ ltac:(constructor) (prod3 _)) as (_ & H & _).
  rewrite H. vm_compute. reflexivity.
Defined.
