(* ===== verification/FpConv.v ===== *)
(** * FpConv: conversions between floating-point formats (exec_fpsimd.c)

    The conversions to and from half precision, and the round-to-odd
    narrowing, which the emulator does in integer arithmetic on bit patterns.
    A function answers the bits of its result and the FPSR flags it raises
    into [g_fpexc]. The specification is in exact integers: the magnitude of
    a pattern as a multiple of the least value of its format. *)

From Stdlib Require Import ZifyNat ZifyBool.
From S2P Require Import Prelude Types Cpu MemSeam Simd.

(** ** The code *)
Definition fz_in_h (fz16 : bool) (h : Z) : Z :=
  if negb fz16 || has h 0x7c00 || negb (has h 0x3ff) then h else Z.land h 0x8000.
(** [while ((mant & 0x400) == 0) { mant <<= 1; exp--; }]; ten turns are enough
    for a mantissa that is not zero. *)
Fixpoint norm_loop (fuel : nat) (mant exp : Z) : Z * Z :=
  match fuel with
  | O => (mant, exp)
  | S k => if has mant 0x400 then (mant, exp) else norm_loop k (Z.shiftl mant 1) (exp - 1)
  end.
Definition f16_to_f32_raw (h : Z) : Z :=
  let sign := Z.shiftl (Z.land h 0x8000) 16 in
  let exp := Z.land (Z.shiftr h 10) 0x1f in
  let mant := Z.land h 0x3ff in
  if exp =? 0x1f then Z.lor (Z.lor sign 0x7f800000) (Z.shiftl mant 13)
  else if exp =? 0 then
    if mant =? 0 then sign
    else let '(mant, exp) := norm_loop 10 mant (127 - 15 + 1) in
         Z.lor (Z.lor sign (Z.shiftl exp 23)) (Z.shiftl (Z.land mant 0x3ff) 13)
  else Z.lor (Z.lor sign (Z.shiftl (exp - 15 + 127) 23)) (Z.shiftl mant 13).
Definition f16_to_f64_raw (h : Z) : Z :=
  let sign := Z.shiftl (Z.land h 0x8000) 48 in
  let exp := Z.land (Z.shiftr h 10) 0x1f in
  let mant := Z.land h 0x3ff in
  if exp =? 0x1f then Z.lor (Z.lor sign 0x7ff0000000000000) (Z.shiftl mant 42)
  else if exp =? 0 then
    if mant =? 0 then sign
    else let '(mant, exp) := norm_loop 10 mant (1023 - 15 + 1) in
         Z.lor (Z.lor sign (Z.shiftl exp 52)) (Z.shiftl (Z.land mant 0x3ff) 42)
  else Z.lor (Z.lor sign (Z.shiftl (exp - 15 + 1023) 52)) (Z.shiftl mant 42).
Definition f16_to_f32 (fz16 : bool) (h : Z) : Z := f16_to_f32_raw (fz_in_h fz16 h).
Definition f16_to_f64 (fz16 : bool) (h : Z) : Z := f16_to_f64_raw (fz_in_h fz16 h).
Definition fcvt_h2s (h : Z) : Z * Z :=
  let f := f16_to_f32_raw h in
  if (Z.land h 0x7c00 =? 0x7c00) && has h 0x3ff then
    (Z.lor f 0x400000, if has h 0x200 then 0 else FPSR_IOC)
  else (f, 0).

Definition f64_to_f16_round (b : Z) (fz : bool) : Z * Z :=
  let sign := Z.land (Z.shiftr b 48) 0x8000 in
  let mag := Z.land b 0x7fffffffffffffff in
  if 0x7ff0000000000000 <=? mag then
    if 0x7ff0000000000000 <? mag then
      (Z.lor (Z.lor sign 0x7e00) (Z.land (Z.shiftr mag 42) 0x1ff),
       if has mag 0x8000000000000 then 0 else FPSR_IOC)
    else (Z.lor sign 0x7c00, 0)
  else if mag =? 0 then (sign, 0)
  else
  let he := Z.shiftr mag 52 - 1023 + 15 in
  let sig := Z.lor (Z.land mag 0xfffffffffffff) 0x10000000000000 in
  if 0x1f <=? he then (Z.lor sign 0x7c00, Z.lor FPSR_OFC FPSR_IXC)
  else if fz && (he <=? 0) then (sign, FPSR_UFC)
  else
  let shift := if 0 <? he then 42 else 43 - he in
  if negb (0 <? he) && (54 <=? shift) then (sign, Z.lor FPSR_UFC FPSR_IXC)
  else
  let rounded := Z.shiftr sig shift in
  let rem := Z.land sig (Z.shiftl 1 shift - 1) in
  let halfway := Z.shiftl 1 (shift - 1) in
  let rounded := if (halfway <? rem) || ((rem =? halfway) && has rounded 1) then rounded + 1 else rounded in
  let fl := if rem =? 0 then 0 else if 0 <? he then FPSR_IXC else Z.lor FPSR_UFC FPSR_IXC in
  let res := if 0 <? he then Z.lor sign (u16 (Z.shiftl (he - 1) 10 + rounded)) else Z.lor sign (u16 rounded) in
  (res, Z.lor fl (if Z.land res 0x7c00 =? 0x7c00 then Z.lor FPSR_OFC FPSR_IXC else 0)).
Definition f64_to_f16 (fz16 : bool) (b : Z) : Z * Z := f64_to_f16_round b fz16.
Definition f64_to_f16_raw (b : Z) : Z * Z := f64_to_f16_round b false.

Definition f64_to_f32_round_odd (fz : bool) (b : Z) : Z * Z :=
  let sign := Z.land (Z.shiftr b 32) 0x80000000 in
  let mag := Z.land b 0x7fffffffffffffff in
  if 0x7ff0000000000000 <=? mag then
    (Z.lor sign (if 0x7ff0000000000000 <? mag then 0x7fc00000 else 0x7f800000),
     if (0x7ff0000000000000 <? mag) && negb (has mag 0x8000000000000) then FPSR_IOC else 0)
  else if mag =? 0 then (sign, 0)
  else if fz && (mag <? 0x3810000000000000) then (sign, FPSR_UFC)
  else if mag <? 0x36a0000000000000 then (Z.lor sign 1, Z.lor FPSR_UFC FPSR_IXC)
  else
  let fe := Z.shiftr mag 52 - 1023 + 127 in
  let sig := Z.lor (Z.land mag 0xfffffffffffff) 0x10000000000000 in
  if 0xff <=? fe then (Z.lor sign 0x7f7fffff, Z.lor FPSR_OFC FPSR_IXC)
  else
  let shift := if 0 <? fe then 29 else 30 - fe in
  let rounded := Z.shiftr sig shift in
  let sticky := negb (Z.land sig (Z.shiftl 1 shift - 1) =? 0) in
  let rounded := if sticky then Z.lor rounded 1 else rounded in
  let fl := if sticky then if 0 <? fe then FPSR_IXC else Z.lor FPSR_UFC FPSR_IXC else 0 in
  (if 0 <? fe then Z.lor sign (u32 (Z.shiftl (fe - 1) 23 + rounded)) else Z.lor sign rounded, fl).

(** ** The formats *)

(** The magnitude of a pattern without its sign, with [p] fraction bits, in
    units of the format's least value: 2^-24 of half, 2^-149 of single and
    2^-1074 of double precision. At the pattern of infinity it is the power of
    two that would come next. *)
Definition magn (p r : Z) : Z :=
  if r / 2 ^ p =? 0 then r mod 2 ^ p else (2 ^ p + r mod 2 ^ p) * 2 ^ (r / 2 ^ p - 1).
Definition hmag : Z -> Z := magn 10.
Definition smag : Z -> Z := magn 23.
Definition dmag : Z -> Z := magn 52.
(** The sign and magnitude fields. *)
Definition dbits (b : Z) : Z := Z.land b 0x7fffffffffffffff.
Definition hbits (h : Z) : Z := Z.land h 0x7fff.

(** [r] is the half nearest to the double magnitude [m]; a tie goes to an even
    pattern. *)
Definition nearest_half (m r : Z) : Prop :=
  (0 < r -> (hmag (r - 1) + hmag r) * 2 ^ 1050 <= 2 * m) /\
  (r < 0x7c00 -> 2 * m <= (hmag r + hmag (r + 1)) * 2 ^ 1050) /\
  (Z.odd r = true -> (0 < r -> (hmag (r - 1) + hmag r) * 2 ^ 1050 <> 2 * m) /\ 2 * m <> (hmag r + hmag (r + 1)) * 2 ^ 1050).

(** ** Fields *)
Lemma lor_low a b k : 0 <= k -> 0 <= a < 2 ^ k -> 0 <= b -> Z.lor (b * 2 ^ k) a = b * 2 ^ k + a.
Proof.
  intros Hk Ha Hb. assert (H0 : Z.land (b * 2 ^ k) a = 0).
  { apply Z.bits_inj'. intros n Hn. rewrite Z.land_spec, Z.bits_0. destruct (Z.lt_ge_cases n k); [by rewrite Z.mul_pow2_bits_low|].
    rewrite <- (Z.mod_small a (2 ^ k)), Z.mod_pow2_bits_high by lia. by rewrite andb_false_r. }
  by rewrite <- Z.lxor_lor, <- Z.add_nocarry_lxor.
Qed.
Lemma land_bit z n : 0 <= n -> Z.land z (2 ^ n) = (z / 2 ^ n) mod 2 * 2 ^ n.
Proof.
  intros Hn. apply Z.bits_inj'. intros i Hi. rewrite Z.land_spec, Z.pow2_bits_eqb by lia. destruct (Z.eqb_spec n i) as [->|Hne].
  - rewrite andb_true_r, Z.mul_pow2_bits by lia. rewrite Z.sub_diag, Z.bit0_odd, Zmod_odd, Z.testbit_odd, Z.shiftr_div_pow2 by lia.
    by destruct (Z.odd (z / 2 ^ i)).
  - rewrite andb_false_r. symmetry. destruct (Z.lt_ge_cases i n); [by apply Z.mul_pow2_bits_low|].
    rewrite Z.mul_pow2_bits by lia. change ((z / 2 ^ n) mod 2) with ((z / 2 ^ n) mod 2 ^ 1). by apply Z.mod_pow2_bits_high; lia.
Qed.
Lemma has_odd z : has z 1 = Z.odd z.
Proof. unfold has. change 1 with (2 ^ 0) at 1. rewrite land_bit by lia. rewrite Z.pow_0_r, Z.div_1_r, Z.mul_1_r, Zmod_odd. by destruct (Z.odd z). Qed.

(** ** Magnitudes *)
Section Magn.
Context (p : Z) (Hp : 0 < p).
Lemma pow_pos : 0 < 2 ^ p.
Proof. apply Z.pow_pos_nonneg; lia. Qed.
Lemma magn_at e m : 0 <= e -> 0 <= m < 2 ^ p -> magn p (e * 2 ^ p + m) = if e =? 0 then m else (2 ^ p + m) * 2 ^ (e - 1).
Proof.
  intros He Hm. unfold magn. rewrite (Z.add_comm (e * 2 ^ p)), Z.div_add, Z.mod_add by lia.
  by rewrite (Z.div_small m), (Z.mod_small m), Z.add_0_l by lia.
Qed.
(** A significand with its leading one, or carried to the next power. *)
Lemma magn_sig e r : 1 <= e -> 2 ^ p <= r <= 2 * 2 ^ p -> magn p ((e - 1) * 2 ^ p + r) = r * 2 ^ (e - 1).
Proof.
  intros He Hr. destruct (Z.eq_dec r (2 * 2 ^ p)) as [->|].
  - replace ((e - 1) * 2 ^ p + 2 * 2 ^ p) with ((e + 1) * 2 ^ p + 0) by lia. rewrite magn_at by lia.
    destruct (Z.eqb_spec (e + 1) 0); [lia|]. replace (e + 1 - 1) with (Z.succ (e - 1)) by lia. rewrite Z.pow_succ_r by lia. lia.
  - replace ((e - 1) * 2 ^ p + r) with (e * 2 ^ p + (r - 2 ^ p)) by lia. rewrite magn_at by lia.
    destruct (Z.eqb_spec e 0); [lia|]. f_equal. lia.
Qed.
Lemma magn_small r : 0 <= r <= 2 * 2 ^ p -> magn p r = r.
Proof.
  intros Hr. destruct (Z.lt_ge_cases r (2 ^ p)) as [H|H].
  - replace r with (0 * 2 ^ p + r) at 1 by lia. rewrite magn_at by lia. done.
  - replace r with ((1 - 1) * 2 ^ p + r) at 1 by lia. rewrite magn_sig by lia. replace (1 - 1) with 0 by lia. rewrite Z.pow_0_r. lia.
Qed.
Lemma magn_lt r : 0 <= r -> magn p r < magn p (r + 1).
Proof.
  intros Hr. pose proof pow_pos as H0. destruct (Z.lt_ge_cases r (2 ^ p)) as [H|H]; [rewrite !magn_small by lia; lia|].
  set (e := r / 2 ^ p). set (m := r mod 2 ^ p). assert (Em : r = e * 2 ^ p + m) by (subst e m; pose proof (Z.div_mod r (2 ^ p)); lia).
  assert (Hm : 0 <= m < 2 ^ p) by (subst m; apply Z.mod_pos_bound; lia). assert (He : 1 <= e) by nia.
  rewrite Em. replace (e * 2 ^ p + m) with ((e - 1) * 2 ^ p + (2 ^ p + m)) by lia.
  replace ((e - 1) * 2 ^ p + (2 ^ p + m) + 1) with ((e - 1) * 2 ^ p + (2 ^ p + m + 1)) by lia.
  rewrite !magn_sig by lia. assert (0 < 2 ^ (e - 1)) by (apply Z.pow_pos_nonneg; lia). nia.
Qed.
Lemma magn_mono r r' : 0 <= r < r' -> magn p r < magn p r'.
Proof.
  intros [H0 Hlt]. replace r' with (r + Z.of_nat (S (Z.to_nat (r' - r - 1)))) by lia. generalize (Z.to_nat (r' - r - 1)). intros n.
  induction n as [|n IH]; [apply magn_lt; lia|]. etransitivity; [exact IH|].
  replace (r + Z.of_nat (S (S n))) with (r + Z.of_nat (S n) + 1) by lia. apply magn_lt. lia.
Qed.
End Magn.

(** ** Rounding *)

(** [r] is [x / 2^s] rounded to nearest, ties to even. *)
Definition near (s x r : Z) : Prop :=
  (2 * r - 1) * 2 ^ s <= 2 * x <= (2 * r + 1) * 2 ^ s /\
  (Z.odd r = true -> (2 * r - 1) * 2 ^ s <> 2 * x /\ 2 * x <> (2 * r + 1) * 2 ^ s).
Lemma round_near s x q rem : 1 <= s -> 0 <= x -> q = x / 2 ^ s -> rem = x mod 2 ^ s ->
  near s x (if (2 ^ (s - 1) <? rem) || ((rem =? 2 ^ (s - 1)) && Z.odd q) then q + 1 else q).
Proof.
  intros Hs Hx -> ->. set (q := x / 2 ^ s). set (rem := x mod 2 ^ s).
  assert (E : x = q * 2 ^ s + rem) by (subst q rem; pose proof (Z.div_mod x (2 ^ s)); lia).
  assert (Hr : 0 <= rem < 2 ^ s) by (subst rem; apply Z.mod_pos_bound; apply Z.pow_pos_nonneg; lia).
  assert (H2 : 2 ^ s = 2 * 2 ^ (s - 1)) by (rewrite <- Z.pow_succ_r by lia; f_equal; lia). unfold near.
  destruct (Z.ltb_spec (2 ^ (s - 1)) rem); cbn [orb]; [split; [nia|]; intros _; split; nia|].
  destruct (Z.eqb_spec rem (2 ^ (s - 1))) as [Eq|Ne]; cbn [andb].
  - destruct (Z.odd q) eqn:Eo; [|split; [nia|congruence]]. split; [nia|]. intros Ho. rewrite Z.odd_add, Eo in Ho. done.
  - split; [nia|]. intros _. split; nia.
Qed.

Lemma land_field x n k : 0 <= n -> 0 <= k -> Z.land x (Z.ones k * 2 ^ n) = (x / 2 ^ n) mod 2 ^ k * 2 ^ n.
Proof.
  intros Hn Hk. apply Z.bits_inj'. intros i Hi. rewrite Z.land_spec. destruct (Z.lt_ge_cases i n).
  - rewrite !Z.mul_pow2_bits_low by lia. by rewrite andb_false_r.
  - rewrite !Z.mul_pow2_bits by lia. rewrite <- Z.land_ones, Z.land_spec, <- Z.shiftr_div_pow2, Z.shiftr_spec by lia.
    by replace (i - n + n) with i by lia.
Qed.

(** ** Narrowing to half precision *)

(** The flags: overflow, exact, tiny before rounding, inexact. *)
Definition half_flags (m r : Z) : Z :=
  if r =? 0x7c00 then Z.lor FPSR_OFC FPSR_IXC
  else if m =? hmag r * 2 ^ 1050 then 0
  else if m <? 2 ^ 1060 then Z.lor FPSR_UFC FPSR_IXC else FPSR_IXC.

(** The values around a rounded significand [R] at exponent [he], in steps of
    its own unit [c]. *)
Lemma hmag_around he R : 1 <= he -> 1024 <= R <= 2048 ->
  let c := 2 ^ (he - 1) in
  hmag ((he - 1) * 1024 + R) = R * c /\
  (R < 2048 -> hmag ((he - 1) * 1024 + R + 1) = (R + 1) * c) /\ (R + 1) * c <= hmag ((he - 1) * 1024 + R + 1) /\
  (1024 < R -> hmag ((he - 1) * 1024 + R - 1) = (R - 1) * c) /\ hmag ((he - 1) * 1024 + R - 1) < R * c.
Proof.
  intros Hhe HR c. assert (Hc : 0 < c) by (apply Z.pow_pos_nonneg; lia).
  assert (Hmag : forall r, 1024 <= r <= 2048 -> hmag ((he - 1) * 1024 + r) = r * c).
  { intros r Hr. unfold hmag. change 1024 with (2 ^ 10) in *. apply magn_sig; lia. }
  split; [by apply Hmag|]. split; [intros; rewrite <- Z.add_assoc; apply Hmag; lia|]. split.
  - destruct (Z.eq_dec R 2048) as [->|]; [|rewrite <- Z.add_assoc, Hmag; lia].
    replace ((he - 1) * 1024 + 2048 + 1) with ((he + 1 - 1) * 2 ^ 10 + 1025) by lia. unfold hmag. rewrite magn_sig by lia.
    replace (he + 1 - 1) with (Z.succ (he - 1)) by lia. rewrite Z.pow_succ_r by lia. fold c. lia.
  - split; [intros; replace ((he - 1) * 1024 + R - 1) with ((he - 1) * 1024 + (R - 1)) by lia; apply Hmag; lia|].
    rewrite <- Hmag by done. apply magn_mono; lia.
Qed.
(** A rounded significand gives the nearest half: of a normal number ... *)
Lemma near_normal he sig R : 1 <= he <= 30 -> 2 ^ 52 <= sig < 2 ^ 53 -> near 42 sig R ->
  1024 <= R <= 2048 /\ nearest_half (sig * 2 ^ (he + 1007)) ((he - 1) * 1024 + R) /\
  hmag ((he - 1) * 1024 + R) * 2 ^ 1050 = R * 2 ^ 42 * 2 ^ (he + 1007).
Proof.
  intros Hhe Hsig [[Hlo Hhi] Hodd]. assert (HR : 1024 <= R <= 2048) by lia. split; [done|].
  destruct (hmag_around he R ltac:(lia) HR) as (E0 & E1 & L1 & E2 & L2). cbv zeta in *. unfold nearest_half.
  assert (Hsc : 2 ^ (he - 1) * 2 ^ 1050 = 2 ^ 42 * 2 ^ (he + 1007)) by (rewrite <- !Z.pow_add_r by lia; f_equal; lia).
  assert (Hk : 0 < 2 ^ (he + 1007)) by (apply Z.pow_pos_nonneg; lia). assert (HU : 0 < 2 ^ 1050) by (apply Z.pow_pos_nonneg; lia).
  assert (Hpar : Z.odd ((he - 1) * 1024 + R) = Z.odd R).
  { replace ((he - 1) * 1024 + R) with (R + 2 * ((he - 1) * 512)) by lia. by rewrite Z.odd_add_mul_2. }
  rewrite Hpar. revert Hsc Hk HU E0 E1 L1 E2 L2. generalize (hmag ((he - 1) * 1024 + R)) (hmag ((he - 1) * 1024 + R + 1))
    (hmag ((he - 1) * 1024 + R - 1)) (2 ^ (he - 1)) (2 ^ (he + 1007)) (2 ^ 1050).
  intros A B C c k U Hsc Hk HU -> E1 L1 E2 L2. assert (Hc : c * U = 2 ^ 42 * k) by done.
  assert (HA : R * c * U = R * 2 ^ 42 * k) by (rewrite <- !Z.mul_assoc, Hc; lia).
  assert (HB : (R + 1) * 2 ^ 42 * k <= B * U) by (replace ((R + 1) * 2 ^ 42 * k) with ((R + 1) * c * U) by (rewrite <- !Z.mul_assoc, Hc; lia); nia).
  assert (HC : 1024 < R -> C * U = (R - 1) * 2 ^ 42 * k) by (intros; rewrite E2 by done; rewrite <- !Z.mul_assoc, Hc; lia).
  assert (HC' : C * U < R * 2 ^ 42 * k) by (rewrite <- HA; nia).
  assert (HB' : R < 2048 -> B * U = (R + 1) * 2 ^ 42 * k) by (intros; rewrite E1 by done; rewrite <- !Z.mul_assoc, Hc; lia).
  split; [|done]. rewrite !Z.mul_add_distr_r, HA. split; [|split].
  - intros _. destruct (Z.eq_dec R 1024) as [->|]; [nia|]. rewrite HC by lia. nia.
  - intros _. nia.
  - intros Ho. destruct (Hodd Ho) as [N1 N2]. assert (R <> 1024 /\ R <> 2048) as [? ?] by (split; intros ->; done).
    rewrite HC, HB' by lia. split; [intros _|]; nia.
Qed.
(** ... and of one below the normal halves. *)
Lemma near_tiny he sig R : -10 <= he <= 0 -> 2 ^ 52 <= sig < 2 ^ 53 -> near (43 - he) sig R ->
  0 <= R <= 1024 /\ nearest_half (sig * 2 ^ (he + 1007)) R /\ hmag R * 2 ^ 1050 = R * 2 ^ (43 - he) * 2 ^ (he + 1007).
Proof.
  intros Hhe Hsig [[Hlo Hhi] Hodd]. assert (H43 : 2 ^ 43 <= 2 ^ (43 - he)) by (apply Z.pow_le_mono_r; lia).
  assert (HR : 0 <= R <= 1024) by nia. split; [done|].
  assert (Hsc : 2 ^ 1050 = 2 ^ (43 - he) * 2 ^ (he + 1007)) by (rewrite <- Z.pow_add_r by lia; f_equal; lia).
  assert (Hk : 0 < 2 ^ (he + 1007)) by (apply Z.pow_pos_nonneg; lia).
  assert (Hm : forall r, 0 <= r <= 2048 -> hmag r = r) by (intros; apply magn_small; lia).
  rewrite Hm by lia. split; [|rewrite Hsc; lia]. unfold nearest_half. rewrite (Hm R), (Hm (R + 1)) by lia.
  revert Hsc Hk Hlo Hhi Hodd. generalize (2 ^ (43 - he)) (2 ^ (he + 1007)) (2 ^ 1050). intros c k U -> Hk Hlo Hhi Hodd.
  split; [|split].
  - intros Hp. rewrite Hm by lia. nia.
  - intros _. nia.
  - intros Ho. destruct (Hodd Ho) as [N1 N2]. split; [intros Hp; rewrite Hm by lia|]; nia.
Qed.

(** The fields of the operand. *)
Lemma dmag_fields mag : 0 <= mag < 2 ^ 63 ->
  Z.shiftr mag 52 = mag / 2 ^ 52 /\ Z.lor (Z.land mag 0xfffffffffffff) 0x10000000000000 = 2 ^ 52 + mag mod 2 ^ 52 /\
  2 ^ 52 <= 2 ^ 52 + mag mod 2 ^ 52 < 2 ^ 53 /\ 0 <= mag / 2 ^ 52 < 2048 /\
  (1 <= mag / 2 ^ 52 -> dmag mag = (2 ^ 52 + mag mod 2 ^ 52) * 2 ^ (mag / 2 ^ 52 - 1)) /\ (mag / 2 ^ 52 = 0 -> dmag mag < 2 ^ 52).
Proof.
  intros Hm. pose proof (Z.mod_pos_bound mag (2 ^ 52) ltac:(lia)). split; [by rewrite Z.shiftr_div_pow2|]. split.
  { change 0xfffffffffffff with (Z.ones 52). rewrite Z.land_ones, Z.lor_comm by lia. change 0x10000000000000 with (1 * 2 ^ 52).
    rewrite lor_low by lia. lia. }
  split; [lia|]. split; [split; [apply Z.div_pos; lia|apply Z.div_lt_upper_bound; [lia|]; change (2 ^ 52 * 2048) with (2 ^ 63); lia]|].
  unfold dmag, magn. destruct (Z.eqb_spec (mag / 2 ^ 52) 0) as [E|E]; split; intros H1; [rewrite E in H1; lia|lia|done|by rewrite H1 in E].
Qed.
Lemma lor_sign s r k : 0 <= s <= 1 -> 0 <= k -> 0 <= r < 2 ^ k -> Z.lor (s * 2 ^ k) r = s * 2 ^ k + r.
Proof. intros. apply lor_low; lia. Qed.
Lemma exp_all_ones s r : 0 <= s <= 1 -> 0 <= r <= 0x7c00 -> (Z.land (s * 2 ^ 15 + r) 0x7c00 =? 0x7c00) = (r =? 0x7c00).
Proof.
  intros Hs Hr. change 0x7c00 with (Z.ones 5 * 2 ^ 10) at 1. rewrite land_field by lia.
  replace (s * 2 ^ 15 + r) with (r + s * 2 ^ 5 * 2 ^ 10) by lia. rewrite Z.div_add, Z.mod_add by lia.
  assert (0 <= r / 2 ^ 10 < 2 ^ 5) by (split; [apply Z.div_pos; lia|apply Z.div_lt_upper_bound; lia]).
  rewrite Z.mod_small by lia. pose proof (Z.div_mod r (2 ^ 10) ltac:(lia)). pose proof (Z.mod_pos_bound r (2 ^ 10) ltac:(lia)). lia.
Qed.
Lemma near_exact s x R : 1 <= s -> near s x R -> (x mod 2 ^ s =? 0) = (x =? R * 2 ^ s).
Proof.
  intros Hs [[Hlo Hhi] _]. assert (H0 : 0 < 2 ^ s) by (apply Z.pow_pos_nonneg; lia). destruct (Z.eqb_spec x (R * 2 ^ s)) as [->|Hne].
  - by rewrite Z.mod_mul by lia.
  - destruct (Z.eqb_spec (x mod 2 ^ s) 0) as [E|]; [|done]. exfalso. apply Hne.
    pose proof (Z.div_mod x (2 ^ s) ltac:(lia)) as Hd. rewrite E, Z.add_0_r in Hd.
    rewrite Hd in Hlo, Hhi. revert Hd Hlo Hhi. generalize (x / 2 ^ s). intros q Hd Hlo Hhi.
    assert (2 * R - 1 <= 2 * q) by (apply (Z.mul_le_mono_pos_r _ _ (2 ^ s)); lia).
    assert (2 * q <= 2 * R + 1) by (apply (Z.mul_le_mono_pos_r _ _ (2 ^ s)); lia). assert (q = R) as -> by lia. lia.
Qed.

(** A result [out], with its flags, for the double magnitude [m] under the
    sign [sg]: the nearest half, and the flags of that rounding. *)
Definition half_result (sg m : Z) (out : Z * Z) : Prop := exists r,
  fst out = sg * 2 ^ 15 + r /\ 0 <= r <= 0x7c00 /\ nearest_half m r /\ snd out = half_flags m r.

(** Above every half, and below half of the least one. *)
Lemma half_big sg m : 0 <= sg <= 1 -> 2 ^ 1090 <= m ->
  half_result sg m (Z.lor (sg * 2 ^ 15) 0x7c00, Z.lor FPSR_OFC FPSR_IXC).
Proof.
  intros Hs Hm. exists 0x7c00. cbn [fst snd]. split; [apply lor_sign; lia|]. split; [lia|]. split; [|done]. unfold nearest_half.
  change (hmag 31744) with (2 ^ 40). change (hmag (31744 - 1)) with (2047 * 2 ^ 29). change (Z.odd 31744) with false.
  assert (H0 : 0 < 2 ^ 1050) by (apply Z.pow_pos_nonneg; lia). assert (E : 2 ^ 1090 = 2 ^ 40 * 2 ^ 1050) by (rewrite <- Z.pow_add_r by lia; done).
  rewrite E in Hm. clear E. revert Hm H0. generalize (2 ^ 1050). intros U Hm H0. split; [intros _; lia|]. split; [lia|done].
Qed.
Lemma half_zero sg m : 0 < m < 2 ^ 1049 -> half_result sg m (sg * 2 ^ 15, Z.lor FPSR_UFC FPSR_IXC).
Proof.
  intros [Hm0 Hm]. exists 0. cbn [fst snd]. split; [lia|]. split; [lia|]. unfold nearest_half, half_flags.
  change (hmag 0) with 0. change (hmag (0 + 1)) with 1. change (Z.odd 0) with false.
  assert (E : 2 ^ 1050 = 2 * 2 ^ 1049) by (rewrite <- Z.pow_succ_r by lia; done).
  assert (E' : 2 ^ 1060 = 2 ^ 11 * 2 ^ 1049) by (rewrite <- Z.pow_add_r by lia; done). rewrite E, E'. clear E E'. revert Hm.
  generalize (2 ^ 1049). intros U Hm. split; [split; [lia|split; [lia|done]]|]. change (0 =? 31744) with false. cbv iota.
  destruct (Z.eqb_spec m (0 * (2 * U))); [lia|]. destruct (Z.ltb_spec m (2 ^ 11 * U)); [done|lia].
Qed.

(** The scale between the units of a significand and of the operand. *)
Lemma scale_bounds he sig c : 2 ^ 52 <= sig < 2 ^ 53 -> 0 <= he + 1007 -> 0 <= c + 1060 ->
  (he <= c -> sig * 2 ^ (he + 1007) < 2 ^ (c + 1060)) /\ (c < he -> 2 ^ (c + 1060) <= sig * 2 ^ (he + 1007)).
Proof.
  intros Hsig H0 Hc. assert (Hp : 0 < 2 ^ (he + 1007)) by (apply Z.pow_pos_nonneg; lia). split; intros Hle.
  - apply Z.lt_le_trans with (2 ^ 53 * 2 ^ (he + 1007)); [apply Z.mul_lt_mono_pos_r; lia|].
    rewrite <- Z.pow_add_r by lia. apply Z.pow_le_mono_r; lia.
  - apply Z.le_trans with (2 ^ 52 * 2 ^ (he + 1007)); [|apply Z.mul_le_mono_pos_r; lia].
    rewrite <- Z.pow_add_r by lia. apply Z.pow_le_mono_r; lia.
Qed.
(** What the code computes at a shift, as a quotient and a remainder. *)
Lemma code_rounding sig shift : 1 <= shift -> 0 <= sig ->
  let rounded := Z.shiftr sig shift in let rem := Z.land sig (Z.shiftl 1 shift - 1) in let halfway := Z.shiftl 1 (shift - 1) in
  near shift sig (if (halfway <? rem) || ((rem =? halfway) && has rounded 1) then rounded + 1 else rounded) /\ rem = sig mod 2 ^ shift.
Proof.
  intros Hs H0 rounded rem halfway. assert (Er : rem = sig mod 2 ^ shift).
  { subst rem. rewrite Z.shiftl_1_l, <- Z.land_ones, Z.ones_equiv, Z.sub_1_r by lia. done. }
  split; [|done]. subst halfway. rewrite Z.shiftl_1_l, has_odd. apply round_near; [done..| |done]. by apply Z.shiftr_div_pow2; lia.
Qed.
(** The result word of a rounded pattern [r], and its flags. *)
Lemma half_flags_code he sig s R r :
  -10 <= he <= 30 -> 2 ^ 52 <= sig < 2 ^ 53 -> 1 <= s -> near s sig R -> 0 <= r <= 0x7c00 -> (he <= 0 -> r <= 1024) -> 
  (r = 0x7c00 -> sig mod 2 ^ s <> 0) -> hmag r * 2 ^ 1050 = R * 2 ^ s * 2 ^ (he + 1007) ->
  Z.lor (if sig mod 2 ^ s =? 0 then 0 else if 0 <? he then FPSR_IXC else Z.lor FPSR_UFC FPSR_IXC)
    (if r =? 0x7c00 then Z.lor FPSR_OFC FPSR_IXC else 0) = half_flags (sig * 2 ^ (he + 1007)) r.
Proof.
  intros Hhe Hsig Hs Hn Hr Htiny Hinf Hmag. unfold half_flags. rewrite Hmag. assert (Hp : 0 < 2 ^ (he + 1007)) by (apply Z.pow_pos_nonneg; lia).
  replace (sig * 2 ^ (he + 1007) =? R * 2 ^ s * 2 ^ (he + 1007)) with (sig =? R * 2 ^ s).
  2:{ destruct (Z.eqb_spec sig (R * 2 ^ s)) as [->|Hne]; [by rewrite Z.eqb_refl|]. symmetry. apply Z.eqb_neq. intros E. apply Hne.
      by apply (Z.mul_reg_r _ _ (2 ^ (he + 1007))); [lia|]. }
  rewrite <- (near_exact s sig R) by done. destruct (scale_bounds he sig 0 Hsig ltac:(lia) ltac:(lia)) as [B1 B2]. change (0 + 1060) with 1060 in *.
  destruct (Z.eqb_spec r 0x7c00) as [Er|_].
  - destruct (Z.eqb_spec (sig mod 2 ^ s) 0) as [E|_]; [by destruct (Hinf Er)|]. destruct (Z.ltb_spec 0 he) as [_|H0]; [done|]. specialize (Htiny H0). lia.
  - destruct (sig mod 2 ^ s =? 0); [done|]. destruct (Z.ltb_spec 0 he) as [H0|H0].
    + specialize (B2 H0). apply Z.ltb_ge in B2. by rewrite B2.
    + specialize (B1 H0). apply Z.ltb_lt in B1. by rewrite B1.
Qed.
(** The rounded cases: normal, and below the normal numbers. *)
Lemma half_normal sg he sig R : 0 <= sg <= 1 -> 1 <= he <= 30 -> 2 ^ 52 <= sig < 2 ^ 53 -> near 42 sig R ->
  let res := Z.lor (sg * 2 ^ 15) (u16 (Z.shiftl (he - 1) 10 + R)) in
  half_result sg (sig * 2 ^ (he + 1007))
    (res, Z.lor (if sig mod 2 ^ 42 =? 0 then 0 else FPSR_IXC) (if Z.land res 0x7c00 =? 0x7c00 then Z.lor FPSR_OFC FPSR_IXC else 0)).
Proof.
  intros Hsg Hhe Hsig Hn. destruct (near_normal he sig R Hhe Hsig Hn) as (HR & Hnear & Hmag). cbv zeta.
  rewrite Z.shiftl_mul_pow2 by lia. change (2 ^ 10) with 1024. assert (Hr : 0 <= (he - 1) * 1024 + R <= 0x7c00) by lia.
  rewrite u16_small, lor_sign by (unfold fits; lia). rewrite exp_all_ones by lia. exists ((he - 1) * 1024 + R). cbn [fst snd]. split; [done|].
  split; [done|]. split; [done|]. rewrite <- (half_flags_code he sig 42 R); try done; try lia.
  - destruct (Z.ltb_spec 0 he); [done|lia].
  - intros Er E. apply Z.eqb_eq in E. rewrite (near_exact 42 sig R) in E by done. apply Z.eqb_eq in E. lia.
Qed.
Lemma half_tiny sg he sig R : 0 <= sg <= 1 -> -10 <= he <= 0 -> 2 ^ 52 <= sig < 2 ^ 53 -> near (43 - he) sig R ->
  let res := Z.lor (sg * 2 ^ 15) (u16 R) in
  half_result sg (sig * 2 ^ (he + 1007))
    (res, Z.lor (if sig mod 2 ^ (43 - he) =? 0 then 0 else Z.lor FPSR_UFC FPSR_IXC)
       (if Z.land res 0x7c00 =? 0x7c00 then Z.lor FPSR_OFC FPSR_IXC else 0)).
Proof.
  intros Hsg Hhe Hsig Hn. destruct (near_tiny he sig R Hhe Hsig Hn) as (HR & Hnear & Hmag). cbv zeta.
  rewrite u16_small, lor_sign by (unfold fits; lia). rewrite exp_all_ones by lia. exists R. cbn [fst snd]. split; [done|].
  split; [lia|]. split; [done|]. rewrite <- (half_flags_code he sig (43 - he) R); try done; try lia.
  destruct (Z.ltb_spec 0 he); [lia|done].
Qed.

Lemma dbits_range b : 0 <= dbits b < 2 ^ 63.
Proof. unfold dbits. change 0x7fffffffffffffff with (Z.ones 63). rewrite Z.land_ones by lia. apply Z.mod_pos_bound. lia. Qed.
Lemma sign_field b k : fits 64 b -> 0 <= k <= 62 -> Z.land (Z.shiftr b (63 - k)) (2 ^ k) = b / 2 ^ 63 * 2 ^ k /\ 0 <= b / 2 ^ 63 <= 1.
Proof.
  intros Hb Hk. unfold fits in Hb.
  assert (Hs : 0 <= b / 2 ^ 63 <= 1) by (split; [apply Z.div_pos; lia|]; apply Z.lt_succ_r, Z.div_lt_upper_bound; lia).
  split; [|done]. rewrite land_bit, Z.shiftr_div_pow2, Z.div_div by (try apply Z.pow_nonzero; try apply Z.pow_pos_nonneg; lia).
  rewrite <- Z.pow_add_r by lia. replace (63 - k + k) with 63 by lia. by rewrite Z.mod_small by lia.
Qed.

(** The rounding of every finite operand. *)
Lemma f64_to_f16_finite b : fits 64 b -> dbits b < 0x7ff0000000000000 ->
  half_result (b / 2 ^ 63) (dmag (dbits b)) (f64_to_f16_raw b).
Proof.
  intros Hb Hfin. unfold f64_to_f16_raw, f64_to_f16_round. fold (dbits b).
  destruct (sign_field b 15 Hb ltac:(lia)) as [Hsign Hs]. change (63 - 15) with 48 in Hsign. change (2 ^ 15) with 0x8000 in Hsign at 1.
  rewrite Hsign. pose proof (dbits_range b) as Hmag. set (mag := dbits b) in *. set (sg := b / 2 ^ 63) in *.
  destruct (Z.leb_spec 0x7ff0000000000000 mag) as [?|_]; [lia|].
  destruct (dmag_fields mag Hmag) as (E1 & E2 & Hsig & HE & Hd & Hd0). rewrite E1, E2. clear E1 E2. cbv zeta. rewrite andb_false_l.
  destruct (Z.eqb_spec mag 0) as [->|Hne].
  { exists 0. cbn [fst snd]. split; [lia|]. split; [lia|]. split; [|vm_compute; reflexivity].
    unfold nearest_half. split; [lia|]. split; [intros _; vm_compute; discriminate|done]. }
  set (sig := 2 ^ 52 + mag mod 2 ^ 52) in *. destruct (Z.eq_dec (mag / 2 ^ 52) 0) as [E0|E0].
  { rewrite E0. cbn -[Z.pow Z.shiftr Z.land Z.lor half_result]. apply half_zero. split; [|specialize (Hd0 E0); etransitivity; [exact Hd0|]; apply Z.pow_lt_mono_r; lia].
    unfold dmag, magn. rewrite E0. cbn -[Z.pow Z.modulo]. pose proof (Z.div_mod mag (2 ^ 52)). lia. }
  specialize (Hd ltac:(lia)). set (he := mag / 2 ^ 52 - 1023 + 15) in *. replace (mag / 2 ^ 52 - 1) with (he + 1007) in Hd by lia. rewrite Hd.
  destruct (Z.leb_spec 0x1f he) as [Hov|Hov].
  { apply half_big; [done|]. destruct (scale_bounds he sig 30 Hsig ltac:(lia) ltac:(lia)) as [_ B]. apply B. lia. }
  destruct (Z.ltb_spec 0 he) as [H0|H0]; cbn [negb andb].
  - destruct (code_rounding sig 42 ltac:(lia) ltac:(lia)) as [Hn Er]. rewrite Er in Hn |- *. apply half_normal; [done|lia|done|exact Hn].
  - destruct (Z.leb_spec 54 (43 - he)) as [H54|H54].
    + apply half_zero. destruct (scale_bounds he sig (-11) Hsig ltac:(lia) ltac:(lia)) as [B _]. split; [|apply B; lia].
      apply Z.mul_pos_pos; [lia|]. apply Z.pow_pos_nonneg; lia.
    + destruct (code_rounding sig (43 - he) ltac:(lia) ltac:(lia)) as [Hn Er]. rewrite Er in Hn |- *. apply half_tiny; [done|lia|done|exact Hn].
Qed.

(** The exponent test of the code is the test on the magnitude. *)
Lemma dmag_below mag e : 0 <= mag -> 1 <= e -> (dmag mag <? 2 ^ (e + 51)) = (mag / 2 ^ 52 <? e).
Proof.
  intros Hm He. assert (Ee : dmag (e * 2 ^ 52 + 0) = 2 ^ (e + 51)).
  { unfold dmag. rewrite magn_at by lia. destruct (Z.eqb_spec e 0); [lia|]. rewrite Z.add_0_r, <- Z.pow_add_r by lia. f_equal. lia. }
  rewrite <- Ee, Z.add_0_r. pose proof (Z.div_mod mag (2 ^ 52) ltac:(lia)). pose proof (Z.mod_pos_bound mag (2 ^ 52) ltac:(lia)).
  assert (0 <= mag / 2 ^ 52) by (apply Z.div_pos; lia). destruct (Z.ltb_spec (mag / 2 ^ 52) e) as [Hl|Hl].
  - apply Z.ltb_lt. apply magn_mono; lia.
  - apply Z.ltb_ge. destruct (Z.eq_dec mag (e * 2 ^ 52)) as [->|]; [lia|]. apply Z.lt_le_incl, magn_mono; lia.
Qed.
Lemma flush_only_tiny b : fits 64 b -> dbits b < 0x7ff0000000000000 ->
  f64_to_f16_round b true = if (0 <? dbits b) && (dmag (dbits b) <? 2 ^ 1060) then (b / 2 ^ 63 * 2 ^ 15, FPSR_UFC) else f64_to_f16_round b false.
Proof.
  intros Hb Hfin. change 1060 with (1009 + 51). pose proof (dbits_range b) as Hr. rewrite dmag_below by lia. unfold f64_to_f16_round. fold (dbits b).
  destruct (sign_field b 15 Hb ltac:(lia)) as [Hsign Hs]. change (63 - 15) with 48 in Hsign. change (2 ^ 15) with 0x8000 in Hsign at 1.
  rewrite Hsign, (Z.shiftr_div_pow2 (dbits b) 52) by lia. destruct (Z.leb_spec 0x7ff0000000000000 (dbits b)) as [?|_]; [lia|].
  destruct (Z.eqb_spec (dbits b) 0) as [->|]; [done|]. destruct (Z.ltb_spec 0 (dbits b)); [|lia]. cbn [andb]. cbv zeta.
  destruct (Z.ltb_spec (dbits b / 2 ^ 52) 1009), (Z.leb_spec 0x1f (dbits b / 2 ^ 52 - 1023 + 15)),
    (Z.leb_spec (dbits b / 2 ^ 52 - 1023 + 15) 0); first [exfalso; lia | reflexivity].
Qed.

(** ** Widening from half precision *)
Lemma norm_loop_spec fuel mant exp : 0 < mant < 2 ^ 11 -> 2 ^ 10 <= mant * 2 ^ Z.of_nat fuel ->
  exists k, 0 <= k <= Z.of_nat fuel /\ norm_loop fuel mant exp = (mant * 2 ^ k, exp - k) /\ 2 ^ 10 <= mant * 2 ^ k < 2 ^ 11.
Proof.
  assert (Hhas : forall m, 0 <= m < 2 ^ 11 -> has m 0x400 = (2 ^ 10 <=? m)).
  { intros m Hm. unfold has. change 0x400 with (2 ^ 10). rewrite land_bit by lia. assert (0 <= m / 2 ^ 10 < 2) by (split; [apply Z.div_pos|apply Z.div_lt_upper_bound]; lia).
    rewrite Z.mod_small by lia. destruct (Z.leb_spec (2 ^ 10) m) as [H1|H1].
    - assert (1 <= m / 2 ^ 10) by (apply Z.div_le_lower_bound; lia). by replace (m / 2 ^ 10) with 1 by lia.
    - by rewrite Z.div_small by lia. }
  revert mant exp. induction fuel as [|fuel IH]; intros mant exp Hm Hf; cbn [norm_loop].
  { exists 0. change (2 ^ Z.of_nat 0) with 1 in Hf. rewrite Z.pow_0_r, Z.sub_0_r, Z.mul_1_r. split; [lia|]. split; [done|lia]. }
  rewrite Hhas by lia. destruct (Z.leb_spec (2 ^ 10) mant) as [H1|H1]; [exists 0; rewrite Z.pow_0_r, Z.sub_0_r, Z.mul_1_r; split; [lia|]; split; [done|lia]|].
  rewrite Z.shiftl_mul_pow2 by lia. rewrite Nat2Z.inj_succ, Z.pow_succ_r in Hf by lia.
  destruct (IH (mant * 2 ^ 1) (exp - 1)) as (k & Hk & E & Hb); [lia|lia|]. exists (k + 1). split; [lia|].
  assert (Ek : mant * 2 ^ (k + 1) = mant * 2 ^ 1 * 2 ^ k) by (rewrite Z.pow_add_r by lia; lia). rewrite Ek. split; [|done].
  rewrite E. f_equal. lia.
Qed.
(** Three fields put together. *)
Lemma pack_fields s e m : 0 <= s -> 0 <= e < 2 ^ 11 -> 0 <= m < 2 ^ 10 ->
  Z.lor (Z.lor (s * 2 ^ 63) (Z.shiftl e 52)) (Z.shiftl m 42) = s * 2 ^ 63 + (e * 2 ^ 52 + m * 2 ^ 42).
Proof.
  intros Hs He Hm. rewrite !Z.shiftl_mul_pow2, <- Z.lor_assoc by lia. rewrite (lor_low (m * 2 ^ 42)) by lia.
  apply lor_low; lia.
Qed.
Definition hexp (h : Z) : Z := h / 2 ^ 10 mod 2 ^ 5.
Lemma half_fields h : fits 16 h ->
  Z.shiftl (Z.land h 0x8000) 48 = h / 2 ^ 15 * 2 ^ 63 /\ Z.land (Z.shiftr h 10) 0x1f = hexp h /\ Z.land h 0x3ff = h mod 2 ^ 10 /\
  hbits h = hexp h * 2 ^ 10 + h mod 2 ^ 10 /\ h = h / 2 ^ 15 * 2 ^ 15 + hbits h /\ 0 <= h / 2 ^ 15 <= 1 /\ 0 <= hexp h < 32 /\ 0 <= h mod 2 ^ 10 < 2 ^ 10.
Proof.
  unfold fits, hexp, hbits. intros Hh. change 0x1f with (Z.ones 5). change 0x3ff with (Z.ones 10). change 0x7fff with (Z.ones 15).
  rewrite !Z.land_ones, Z.shiftr_div_pow2 by lia. change 0x8000 with (2 ^ 15). rewrite land_bit, Z.shiftl_mul_pow2 by lia.
  assert (0 <= h / 2 ^ 15 <= 1) by (split; [apply Z.div_pos; lia|]; apply Z.lt_succ_r, Z.div_lt_upper_bound; lia).
  rewrite (Z.mod_small (h / 2 ^ 15)) by lia. pose proof (Z.mod_pos_bound h (2 ^ 10) ltac:(lia)). pose proof (Z.mod_pos_bound (h / 2 ^ 10) (2 ^ 5) ltac:(lia)).
  split; [lia|]. split; [done|]. split; [done|]. pose proof (Z.div_mod h (2 ^ 15) ltac:(lia)). split; [|lia].
  change (2 ^ 15) with (2 ^ 10 * 2 ^ 5). rewrite Z.rem_mul_r by lia. lia.
Qed.

Lemma magn_le p r r' : 0 < p -> 0 <= r <= r' -> magn p r <= magn p r'.
Proof. intros Hp H. destruct (Z.eq_dec r r') as [->|]; [lia|]. apply Z.lt_le_incl, magn_mono; lia. Qed.
(** An exact half is its own nearest. *)
Lemma nearest_self q r : 0 <= q < 0x7c00 -> 0 <= r <= 0x7c00 -> nearest_half (hmag q * 2 ^ 1050) r -> r = q.
Proof.
  intros Hq Hr (Hlo & Hhi & _). assert (H0 : 0 < 2 ^ 1050) by (apply Z.pow_pos_nonneg; lia). revert Hlo Hhi H0. unfold hmag.
  generalize (2 ^ 1050). intros U Hlo Hhi H0. destruct (Z.lt_trichotomy r q) as [Hlt|[->|Hgt]]; [|done|]; exfalso.
  - specialize (Hhi ltac:(lia)). pose proof (magn_mono 10 ltac:(lia) r (r + 1) ltac:(lia)). pose proof (magn_le 10 (r + 1) q ltac:(lia) ltac:(lia)). nia.
  - specialize (Hlo ltac:(lia)). pose proof (magn_mono 10 ltac:(lia) q r ltac:(lia)). pose proof (magn_le 10 q (r - 1) ltac:(lia) ltac:(lia)). nia.
Qed.
(** The double of packed fields. *)
Lemma double_fields s e m : 0 <= s <= 1 -> 1 <= e < 2047 -> 0 <= m < 2 ^ 10 ->
  let b := s * 2 ^ 63 + (e * 2 ^ 52 + m * 2 ^ 42) in
  fits 64 b /\ b / 2 ^ 63 = s /\ dbits b < 0x7ff0000000000000 /\ dmag (dbits b) = (2 ^ 10 + m) * 2 ^ (e + 41).
Proof.
  intros Hs He Hm b. assert (Hr : 0 <= e * 2 ^ 52 + m * 2 ^ 42 < 0x7ff0000000000000) by lia.
  assert (Ed : dbits b = e * 2 ^ 52 + m * 2 ^ 42).
  { unfold dbits, b. change 0x7fffffffffffffff with (Z.ones 63). rewrite Z.land_ones, (Z.add_comm (s * _)), Z.mod_add by lia. apply Z.mod_small. lia. }
  split; [unfold fits, b; lia|]. split.
  - unfold b. rewrite (Z.add_comm (s * _)), Z.div_add, Z.div_small by lia. lia.
  - rewrite Ed. split; [lia|]. unfold dmag. rewrite magn_at by lia. destruct (Z.eqb_spec e 0); [lia|].
    replace (2 ^ 52 + m * 2 ^ 42) with ((2 ^ 10 + m) * 2 ^ 42) by lia. rewrite <- Z.mul_assoc, <- Z.pow_add_r by lia. do 2 f_equal. lia.
Qed.
Lemma widen_exact h : fits 16 h -> hexp h <> 31 -> let b := f16_to_f64_raw h in
  fits 64 b /\ b / 2 ^ 63 = h / 2 ^ 15 /\ dbits b < 0x7ff0000000000000 /\ dmag (dbits b) = hmag (hbits h) * 2 ^ 1050.
Proof.
  intros Hh Hfin. destruct (half_fields h Hh) as (E1 & E2 & E3 & E4 & _ & Hs & He & Hm). cbv zeta. unfold f16_to_f64_raw. rewrite E1, E2, E3, E4.
  unfold hmag. rewrite magn_at by lia. destruct (Z.eqb_spec (hexp h) 0x1f) as [?|_]; [lia|].
  destruct (Z.eqb_spec (hexp h) 0) as [Ez|Ez]; [destruct (Z.eqb_spec (h mod 2 ^ 10) 0) as [Em|Em]|].
  - rewrite Em, Z.mul_0_l. revert Hs. generalize (h / 2 ^ 15). intros s Hs. assert (s = 0 \/ s = 1) as [-> | ->] by lia; vm_compute; repeat split; discriminate.
  - destruct (norm_loop_spec 10 (h mod 2 ^ 10) (1023 - 15 + 1)) as (k & Hk & -> & Hb); [lia|change (2 ^ Z.of_nat 10) with (2 ^ 10); lia|].
    assert (El : Z.land (h mod 2 ^ 10 * 2 ^ k) 0x3ff = h mod 2 ^ 10 * 2 ^ k - 2 ^ 10).
    { change 0x3ff with (Z.ones 10). rewrite Z.land_ones by lia. symmetry. apply Z.mod_unique_pos with 1; lia. }
    rewrite El, pack_fields by lia. destruct (double_fields (h / 2 ^ 15) (1023 - 15 + 1 - k) (h mod 2 ^ 10 * 2 ^ k - 2 ^ 10)) as (F1 & F2 & F3 & F4); [lia..|].
    rewrite F4. split; [done|]. split; [done|]. split; [done|]. replace (2 ^ 10 + (h mod 2 ^ 10 * 2 ^ k - 2 ^ 10)) with (h mod 2 ^ 10 * 2 ^ k) by lia.
    rewrite <- Z.mul_assoc, <- Z.pow_add_r by lia. do 2 f_equal. lia.
  - rewrite pack_fields by lia. destruct (double_fields (h / 2 ^ 15) (hexp h - 15 + 1023) (h mod 2 ^ 10)) as (F1 & F2 & F3 & F4); [lia..|].
    rewrite F4. split; [done|]. split; [done|]. split; [done|]. rewrite <- Z.mul_assoc, <- Z.pow_add_r by lia. do 2 f_equal. lia.
Qed.

(** The patterns with an exponent of all ones, by evaluation. *)
Definition special_back (h : Z) : bool := bool_decide
  (f64_to_f16_raw (f16_to_f64_raw h) = if h mod 2 ^ 10 =? 0 then (h, 0) else (Z.lor h 0x200, if has h 0x200 then 0 else FPSR_IOC)).
Lemma specials_back : forallb (fun n => special_back (0x7c00 + Z.of_nat n) && special_back (0xfc00 + Z.of_nat n)) (seq 0 1024) = true.
Proof. vm_compute. reflexivity. Qed.
Lemma special_comes_back h : fits 16 h -> hexp h = 31 -> special_back h = true.
Proof.
  intros Hh He. destruct (half_fields h Hh) as (_ & _ & _ & E4 & E5 & Hs & _ & Hm). rewrite E4, He in E5. pose proof specials_back as H.
  rewrite forallb_forall in H. specialize (H (Z.to_nat (h mod 2 ^ 10))). rewrite in_seq, Z2Nat.id in H by lia.
  specialize (H ltac:(lia)). apply andb_true_iff in H as [Ha Hb]. assert (h / 2 ^ 15 = 0 \/ h / 2 ^ 15 = 1) as [E|E] by lia; rewrite E in E5.
  - by replace h with (0x7c00 + h mod 2 ^ 10) by lia.
  - by replace h with (0xfc00 + h mod 2 ^ 10) by lia.
Qed.
Lemma finite_comes_back h : fits 16 h -> hexp h <> 31 -> f64_to_f16_raw (f16_to_f64_raw h) = (h, 0).
Proof.
  intros Hh He. destruct (widen_exact h Hh He) as (Hf & Hsg & Hfin & Hd). destruct (half_fields h Hh) as (_ & _ & _ & E4 & E5 & Hs & Hr & Hm).
  assert (Hq : 0 <= hbits h < 0x7c00) by lia. destruct (f64_to_f16_finite _ Hf Hfin) as (r & F1 & F2 & F3 & F4).
  rewrite Hd in F3, F4. apply nearest_self in F3; [|done..]. subst r. rewrite Hsg, <- E5 in F1.
  rewrite (surjective_pairing (f64_to_f16_raw _)), F1, F4. f_equal. unfold half_flags. rewrite Z.eqb_refl.
  destruct (Z.eqb_spec (hbits h) 0x7c00); [lia|done].
Qed.

(** ** Round to odd *)

(** [r] stands for the double magnitude [m] in single precision, rounded to
    odd: exact, or the odd one of the two singles around [m]; beyond the
    largest single, that one. *)
Definition odd_single (m r : Z) : Prop :=
  m = smag r * 2 ^ 925 \/
  Z.odd r = true /\ smag (r - 1) * 2 ^ 925 < m /\ (r = 0x7f7fffff \/ m < smag (r + 1) * 2 ^ 925) /\ m <> smag r * 2 ^ 925.
(** Overflow, exact, tiny before rounding, inexact. *)
Definition odd_flags (m r : Z) : Z :=
  if 2 ^ 1202 <=? m then Z.lor FPSR_OFC FPSR_IXC
  else if m =? smag r * 2 ^ 925 then 0
  else if m <? 2 ^ 948 then Z.lor FPSR_UFC FPSR_IXC else FPSR_IXC.
Definition odd_result (sg m : Z) (out : Z * Z) : Prop := exists r,
  fst out = sg * 2 ^ 31 + r /\ 0 <= r <= 0x7f7fffff /\ odd_single m r /\ snd out = odd_flags m r.

Definition near_odd (s x R : Z) : Prop :=
  x = R * 2 ^ s \/ x mod 2 ^ s <> 0 /\ Z.odd R = true /\ (R - 1) * 2 ^ s < x < (R + 1) * 2 ^ s.
Lemma code_odd sig shift : 1 <= shift -> 0 <= sig ->
  let rem := Z.land sig (Z.shiftl 1 shift - 1) in
  near_odd shift sig (if negb (rem =? 0) then Z.lor (Z.shiftr sig shift) 1 else Z.shiftr sig shift) /\ rem = sig mod 2 ^ shift.
Proof.
  intros Hs H0 rem. assert (Er : rem = sig mod 2 ^ shift).
  { subst rem. rewrite Z.shiftl_1_l, <- Z.land_ones, Z.ones_equiv, Z.sub_1_r by lia. done. }
  split; [|done]. rewrite Er, Z.shiftr_div_pow2 by lia. assert (Hp : 0 < 2 ^ shift) by (apply Z.pow_pos_nonneg; lia).
  pose proof (Z.div_mod sig (2 ^ shift) ltac:(lia)) as Hd. pose proof (Z.mod_pos_bound sig (2 ^ shift) Hp) as Hm. revert Hd Hm. unfold near_odd.
  generalize (sig / 2 ^ shift) (sig mod 2 ^ shift). intros q r Hd Hm. destruct (Z.eqb_spec r 0) as [->|Hr]; cbn [negb]; [left; lia|right; split; [done|]].
  pose proof (Z.div_mod q 2 ltac:(lia)) as Hq. rewrite Zmod_odd in Hq. assert (El : Z.lor q 1 = q / 2 * 2 + 1).
  { assert (0 <= q / 2) by (apply Z.div_pos; nia). pose proof (lor_low 1 (q / 2) 1 ltac:(lia) ltac:(lia) ltac:(lia)) as L. change (2 ^ 1) with 2 in L.
    destruct (Z.odd q); [|replace q with (q / 2 * 2) at 1 by lia; exact L].
    replace q with (q / 2 * 2 + 1) at 1 by lia. rewrite <- L, <- Z.lor_assoc. done. }
  rewrite El, (Z.mul_comm _ 2), Z.add_comm, Z.odd_add_mul_2. split; [done|]. destruct (Z.odd q); nia.
Qed.
(** A rounded significand, carried to the pattern [r] in units of [k]. *)
Lemma odd_scaled s sig R r k : 0 < k -> near_odd s sig R -> Z.odd r = Z.odd R -> smag r * 2 ^ 925 = R * 2 ^ s * k ->
  (Z.odd R = true -> smag (r - 1) * 2 ^ 925 = (R - 1) * 2 ^ s * k /\ smag (r + 1) * 2 ^ 925 = (R + 1) * 2 ^ s * k) ->
  odd_single (sig * k) r /\ (sig mod 2 ^ s =? 0) = (sig * k =? smag r * 2 ^ 925).
Proof.
  intros Hk Hn Hpar E0 E12. unfold odd_single. rewrite E0, Hpar. destruct Hn as [->|(Hrem & Ho & Hlo & Hhi)].
  - split; [by left|]. rewrite Z.eqb_refl. destruct (Z.eq_dec (2 ^ s) 0) as [Es|]; [|by rewrite Z.mod_mul].
    by rewrite Es, Z.mul_0_r.
  - destruct (E12 Ho) as [E1 E2]. rewrite E1, E2. assert (Hne : sig <> R * 2 ^ s).
    { intros ->. apply Hrem. destruct (Z.eq_dec (2 ^ s) 0) as [Es|]; [by rewrite Es, Z.mul_0_r|by rewrite Z.mod_mul]. }
    assert (Hne' : sig * k <> R * 2 ^ s * k) by (intros E; apply Hne, (Z.mul_reg_r _ _ k); lia).
    destruct (Z.eqb_spec (sig mod 2 ^ s) 0); [done|]. destruct (Z.eqb_spec (sig * k) (R * 2 ^ s * k)); [done|]. split; [|done].
    right. split; [done|]. split; [|split; [right|done]]; apply Z.mul_lt_mono_pos_r; lia.
Qed.
Lemma odd_normal fe sig R : 1 <= fe <= 254 -> 2 ^ 52 <= sig < 2 ^ 53 -> near_odd 29 sig R -> let r := (fe - 1) * 2 ^ 23 + R in
  0 <= r <= 0x7f7fffff /\ odd_single (sig * 2 ^ (fe + 895)) r /\ (sig mod 2 ^ 29 =? 0) = (sig * 2 ^ (fe + 895) =? smag r * 2 ^ 925).
Proof.
  intros Hfe Hsig Hn r. assert (HR : 2 ^ 23 <= R < 2 ^ 24 /\ (Z.odd R = true -> 2 ^ 23 < R)).
  { assert (Hne : Z.odd R = true -> R <> 2 ^ 23 /\ R <> 2 ^ 24) by (intros Ho; split; intros ->; done).
    destruct Hn as [->|(_ & Ho & Hn)]; [|specialize (Hne Ho)]; lia. }
  destruct HR as [HR Hodd]. split; [lia|].
  assert (Hmag : forall x, 2 ^ 23 <= x <= 2 ^ 24 -> smag ((fe - 1) * 2 ^ 23 + x) * 2 ^ 925 = x * 2 ^ 29 * 2 ^ (fe + 895)).
  { intros x Hx. unfold smag. rewrite magn_sig by lia. rewrite <- !Z.mul_assoc, <- !Z.pow_add_r by lia. do 2 f_equal. lia. }
  apply odd_scaled with R; [apply Z.pow_pos_nonneg; lia|done| |apply Hmag; lia|].
  - subst r. replace ((fe - 1) * 2 ^ 23 + R) with (R + 2 * ((fe - 1) * 2 ^ 22)) by lia. by rewrite Z.odd_add_mul_2.
  - intros Ho. specialize (Hodd Ho). subst r. rewrite <- Z.add_sub_assoc, <- Z.add_assoc. split; apply Hmag; lia.
Qed.
Lemma odd_tiny fe sig R : -22 <= fe <= 0 -> 2 ^ 52 <= sig < 2 ^ 53 -> near_odd (30 - fe) sig R ->
  0 <= R <= 2 ^ 23 /\ odd_single (sig * 2 ^ (fe + 895)) R /\ (sig mod 2 ^ (30 - fe) =? 0) = (sig * 2 ^ (fe + 895) =? smag R * 2 ^ 925).
Proof.
  intros Hfe Hsig Hn. assert (H30 : 2 ^ 30 <= 2 ^ (30 - fe)) by (apply Z.pow_le_mono_r; lia).
  assert (HR : 0 <= R <= 2 ^ 23) by (destruct Hn as [Hn|(_ & _ & Hn)]; nia). split; [done|].
  assert (Hmag : forall x, 0 <= x <= 2 ^ 24 -> smag x * 2 ^ 925 = x * 2 ^ (30 - fe) * 2 ^ (fe + 895)).
  { intros x Hx. unfold smag. rewrite magn_small by lia. rewrite <- !Z.mul_assoc, <- !Z.pow_add_r by lia. do 2 f_equal. lia. }
  apply odd_scaled with R; [apply Z.pow_pos_nonneg; lia|done|done|apply Hmag; lia|].
  intros Ho. assert (R <> 0) by (intros ->; done). split; apply Hmag; lia.
Qed.
(** The flags of the code are those of the magnitude. *)
Lemma odd_flags_code fe sig r (exact : bool) : -22 <= fe <= 254 -> 2 ^ 52 <= sig < 2 ^ 53 ->
  exact = (sig * 2 ^ (fe + 895) =? smag r * 2 ^ 925) ->
  (if negb exact then if 0 <? fe then FPSR_IXC else Z.lor FPSR_UFC FPSR_IXC else 0) = odd_flags (sig * 2 ^ (fe + 895)) r.
Proof.
  intros Hfe Hsig ->. unfold odd_flags. replace (fe + 895) with (fe - 112 + 1007) by lia.
  destruct (scale_bounds (fe - 112) sig 142 Hsig ltac:(lia) ltac:(lia)) as [B _]. specialize (B ltac:(lia)). apply Z.leb_gt in B. change (142 + 1060) with 1202 in B. rewrite B.
  destruct (scale_bounds (fe - 112) sig (-112) Hsig ltac:(lia) ltac:(lia)) as [B1 B2]. change (-112 + 1060) with 948 in *.
  destruct (_ =? _); cbn [negb]; [done|]. destruct (Z.ltb_spec 0 fe) as [H0|H0].
  - specialize (B2 ltac:(lia)). apply Z.ltb_ge in B2. by rewrite B2.
  - specialize (B1 ltac:(lia)). apply Z.ltb_lt in B1. by rewrite B1.
Qed.
Lemma odd_big sg m : 0 <= sg <= 1 -> 2 ^ 1202 <= m -> odd_result sg m (Z.lor (sg * 2 ^ 31) 0x7f7fffff, Z.lor FPSR_OFC FPSR_IXC).
Proof.
  intros Hs Hm. exists 0x7f7fffff. cbn [fst snd]. split; [apply lor_sign; lia|]. split; [lia|]. unfold odd_single, odd_flags.
  pose proof Hm as Hm'. apply Z.leb_le in Hm'. rewrite Hm'. split; [|done]. right. split; [done|].
  change (smag (0x7f7fffff - 1)) with ((2 ^ 24 - 2) * 2 ^ 253). change (smag 0x7f7fffff) with ((2 ^ 24 - 1) * 2 ^ 253).
  assert (H0 : 0 < 2 ^ 925) by (apply Z.pow_pos_nonneg; lia). assert (E : 2 ^ 1202 = 2 ^ 24 * 2 ^ 253 * 2 ^ 925) by (rewrite <- !Z.pow_add_r by lia; done).
  rewrite E in Hm. clear E Hm'. assert (H1 : 0 < 2 ^ 253) by lia. revert Hm H0 H1. generalize (2 ^ 925) (2 ^ 253). intros U V Hm H0 H1.
  assert (H2 : 0 < V * U) by nia. split; [nia|]. split; [by left|nia].
Qed.
Lemma odd_least sg m : 0 <= sg <= 1 -> 0 < m < 2 ^ 925 -> odd_result sg m (Z.lor (sg * 2 ^ 31) 1, Z.lor FPSR_UFC FPSR_IXC).
Proof.
  intros Hs [Hm0 Hm]. exists 1. cbn [fst snd]. split; [apply lor_sign; lia|]. split; [lia|]. unfold odd_single, odd_flags.
  change (smag (1 - 1)) with 0. change (smag (1 + 1)) with 2. change (smag 1) with 1.
  assert (Hl : m < 2 ^ 1202) by (etransitivity; [exact Hm|apply Z.pow_lt_mono_r; lia]). apply Z.leb_gt in Hl. rewrite Hl.
  assert (Hl' : m < 2 ^ 948) by (etransitivity; [exact Hm|apply Z.pow_lt_mono_r; lia]). apply Z.ltb_lt in Hl'. rewrite Hl'.
  clear Hl Hl'. revert Hm. generalize (2 ^ 925). intros U Hm. destruct (Z.eqb_spec m (1 * U)); [lia|]. split; [|done].
  right. split; [done|]. split; [lia|]. split; [right; lia|lia].
Qed.
Lemma dmag_pos mag : 0 < mag -> 0 < dmag mag.
Proof. intros H. change 0 with (dmag 0). apply magn_mono; lia. Qed.
(** The last step, at the exponent [fe]. *)
Lemma odd_step sg fe sig : 0 <= sg <= 1 -> -22 <= fe <= 254 -> 2 ^ 52 <= sig < 2 ^ 53 ->
  let shift := if 0 <? fe then 29 else 30 - fe in
  let sticky := negb (Z.land sig (Z.shiftl 1 shift - 1) =? 0) in
  let rounded := if sticky then Z.lor (Z.shiftr sig shift) 1 else Z.shiftr sig shift in
  odd_result sg (sig * 2 ^ (fe + 895))
    (if 0 <? fe then Z.lor (sg * 2 ^ 31) (u32 (Z.shiftl (fe - 1) 23 + rounded)) else Z.lor (sg * 2 ^ 31) rounded,
     if sticky then if 0 <? fe then FPSR_IXC else Z.lor FPSR_UFC FPSR_IXC else 0).
Proof.
  intros Hs Hfe Hsig shift sticky rounded. assert (Hsh : 1 <= shift) by (unfold shift; destruct (Z.ltb_spec 0 fe); lia).
  destruct (code_odd sig shift Hsh ltac:(lia)) as [Hn Er]. fold sticky rounded in Hn. clearbody rounded. unfold sticky. rewrite Er. clear Er.
  revert Hn. unfold shift. destruct (Z.ltb_spec 0 fe) as [H0|H0]; intros Hn.
  - destruct (odd_normal fe sig rounded ltac:(lia) Hsig Hn) as (Hr & Ho & Ex). exists ((fe - 1) * 2 ^ 23 + rounded). cbn [fst snd].
    rewrite Z.shiftl_mul_pow2, u32_small by (unfold fits; lia). split; [apply lor_sign; lia|]. split; [done|]. split; [done|].
    rewrite <- (odd_flags_code fe sig _ _ Hfe Hsig Ex). by destruct (Z.ltb_spec 0 fe); [|lia].
  - destruct (odd_tiny fe sig rounded ltac:(lia) Hsig Hn) as (Hr & Ho & Ex). exists rounded. cbn [fst snd].
    split; [apply lor_sign; lia|]. split; [lia|]. split; [done|].
    rewrite <- (odd_flags_code fe sig _ _ Hfe Hsig Ex). by destruct (Z.ltb_spec 0 fe); [lia|].
Qed.
(** C16: widening a half to double is exact, and narrowing brings every finite
    half and both infinities back with no flag raised; a NaN comes back with
    its payload and its quiet bit set, flagged when it was signalling. *)
Theorem half_widen_narrow h : fits 16 h ->
  (hexp h <> 31 -> dmag (dbits (f16_to_f64_raw h)) = hmag (hbits h) * 2 ^ 1050 /\ f64_to_f16_raw (f16_to_f64_raw h) = (h, 0)) /\
  (hexp h = 31 -> f64_to_f16_raw (f16_to_f64_raw h) =
     if h mod 2 ^ 10 =? 0 then (h, 0) else (Z.lor h 0x200, if has h 0x200 then 0 else FPSR_IOC)).
Proof.
  intros Hh. split; intros He.
  - split; [apply (widen_exact h Hh He)|by apply finite_comes_back].
  - by apply (bool_decide_eq_true_1 _ (special_comes_back h Hh He)).
Qed.
Lemma half_widen_narrow_witness : f64_to_f16_raw (f16_to_f64_raw 0x8001) = (0x8001, 0) /\ f64_to_f16_raw (f16_to_f64_raw 0x7c01) = (0x7e01, FPSR_IOC).
Proof.
  split; [apply (half_widen_narrow 0x8001); [split; [discriminate|reflexivity]|discriminate]|].
  apply (half_widen_narrow 0x7c01); [split; [discriminate|reflexivity]|reflexivity].
Defined.

(** C15: narrowing a finite double to half precision is correctly rounded: the
    result keeps the sign and is the half nearest to the operand, a tie going
    to the even pattern and infinity standing for the power of two that comes
    after the largest half; overflow, underflow (tiny before rounding and
    inexact) and inexact are flagged exactly when they happen. Under FPCR.FZ16
    an operand that is tiny before rounding gives a signed zero and underflow
    alone, and no other operand changes. *)
Theorem half_round_nearest fz16 b : fits 64 b -> dbits b < 0x7ff0000000000000 ->
  if fz16 && (0 <? dbits b) && (dmag (dbits b) <? 2 ^ 1060) then f64_to_f16 fz16 b = (b / 2 ^ 63 * 2 ^ 15, FPSR_UFC)
  else half_result (b / 2 ^ 63) (dmag (dbits b)) (f64_to_f16 fz16 b).
Proof.
  intros Hb Hfin. pose proof (f64_to_f16_finite b Hb Hfin) as Hr. unfold f64_to_f16. destruct fz16; cbn [andb]; [|exact Hr].
  pose proof (flush_only_tiny b Hb Hfin) as Hf. destruct ((0 <? dbits b) && (dmag (dbits b) <? 2 ^ 1060)); [exact Hf|]. by rewrite Hf.
Qed.
Lemma half_round_nearest_witness : half_result 0 (dmag 0x40effc0000000000) (f64_to_f16 true 0x40effc0000000000) /\ f64_to_f16 true 0x40effe0000000000 = (0x7c00, Z.lor FPSR_OFC FPSR_IXC).
Proof.
  split; [|vm_compute; reflexivity].
  assert (E : true && (0 <? dbits 0x40effc0000000000) && (dmag (dbits 0x40effc0000000000) <? 2 ^ 1060) = false) by (vm_compute; reflexivity).
  pose proof (half_round_nearest true 0x40effc0000000000 ltac:(split; [discriminate|reflexivity]) ltac:(reflexivity)) as H.
  rewrite E in H. exact H.
Defined.

(** C17: the narrowing to single precision that FCVTXN uses rounds to odd: a
    finite operand that is a single comes out unchanged with no flag, any
    other one becomes the odd of the two singles around it (the largest finite
    single above the range), never infinity and never zero; overflow,
    underflow and inexact are flagged as they happen, and FPCR.FZ gives a
    signed zero and underflow alone for an operand below the normal singles. *)
Theorem round_to_odd fz b : fits 64 b -> dbits b < 0x7ff0000000000000 ->
  if fz && (0 <? dbits b) && (dmag (dbits b) <? 2 ^ 948) then f64_to_f32_round_odd fz b = (b / 2 ^ 63 * 2 ^ 31, FPSR_UFC)
  else odd_result (b / 2 ^ 63) (dmag (dbits b)) (f64_to_f32_round_odd fz b).
Proof.
  intros Hb Hfin. unfold f64_to_f32_round_odd. fold (dbits b). pose proof (dbits_range b) as Hmag.
  destruct (sign_field b 31 Hb ltac:(lia)) as [Hsign Hs]. change (63 - 31) with 32 in Hsign. change (2 ^ 31) with 0x80000000 in Hsign at 1.
  rewrite Hsign. set (mag := dbits b) in *. set (sg := b / 2 ^ 63) in *.
  destruct (Z.leb_spec 0x7ff0000000000000 mag) as [?|_]; [lia|]. destruct (Z.eqb_spec mag 0) as [->|Hne].
  { rewrite andb_false_r. exists 0. cbn [fst snd]. split; [lia|]. split; [lia|]. split; [left; done|vm_compute; reflexivity]. }
  pose proof (dmag_pos mag ltac:(lia)) as Hpos. pose proof (Z.div_mod mag (2 ^ 52) ltac:(lia)) as Hdm. pose proof (Z.mod_pos_bound mag (2 ^ 52) ltac:(lia)) as Hmb.
  change 948 with (897 + 51). rewrite dmag_below by lia. destruct (Z.ltb_spec 0 mag); [|lia]. rewrite andb_true_r.
  replace (mag <? 0x3810000000000000) with (mag / 2 ^ 52 <? 897) by lia. destruct (fz && (mag / 2 ^ 52 <? 897)); [done|].
  destruct (Z.ltb_spec mag 0x36a0000000000000) as [Ht|Ht].
  { apply odd_least; [done|]. split; [done|]. change 925 with (874 + 51). apply Z.ltb_lt. rewrite dmag_below by lia. apply Z.ltb_lt. lia. }
  destruct (dmag_fields mag Hmag) as (E1 & E2 & Hsig & HE & Hd & _). rewrite E1, E2. clear E1 E2. cbv zeta.
  destruct (Z.leb_spec 0xff (mag / 2 ^ 52 - 1023 + 127)) as [Hov|Hov].
  { apply odd_big; [done|]. change 1202 with (1151 + 51). apply Z.ltb_ge. rewrite dmag_below by lia. apply Z.ltb_ge. lia. }
  rewrite Hd by lia. replace (mag / 2 ^ 52 - 1) with (mag / 2 ^ 52 - 1023 + 127 + 895) by lia. apply odd_step; [done|lia|done].
Qed.
Lemma round_to_odd_witness : odd_result 1 (dmag 0x3ff0000000000001) (f64_to_f32_round_odd false 0xbff0000000000001) /\ f64_to_f32_round_odd false 0xbff0000000000001 = (0xbf800001, FPSR_IXC).
Proof.
  split; [|vm_compute; reflexivity].
  exact (round_to_odd false 0xbff0000000000001 ltac:(split; [discriminate|reflexivity]) ltac:(reflexivity)).
Defined.

(** The payload of a NaN is kept when it is narrowed to half precision and
    dropped by the narrowing to single precision. *)
Example round_odd_drops_payload :
  f64_to_f16_raw 0x7ff8040000000000 = (0x7e01, 0) /\ f64_to_f32_round_odd false 0x7ff8040000000000 = (0x7fc00000, 0).
Proof. vm_compute. split; reflexivity. Qed.
